(* ===== verification/_CoqProject ===== *)
-Q . S2P
Prelude.v
Bytes.v
GoString.v
Restic.v
Sets.v
HashedArrayTree.v
IndexMap.v
Index.v
MasterIndex.v
Crypto.v
Pack.v
Backend.v
Layout.v
Retry.v
PackerManager.v
Repository.v
RepoFacts.v
RepoSafety.v
StreamPack.v
Repack.v
GoTime.v
Snapshot.v
SnapshotFind.v
Duration.v
Policy.v
Lock.v
Tree.v
TreeStream.v
Walker.v
Filter.v
Keys.v
Checker.v
CheckerFacts.v
FsPath.v
Os.v
FilesWriter.v
FileRestorer.v
RestoreFacts.v
NodeRestore.v
Restorer.v
VerifyFiles.v
FS.v
ArchTree.v
NodeStat.v
FileSaver.v
Archiver.v
ArchiverFacts.v
Backup.v
Scanner.v
BlobCache.v
Buffers.v
Dump.v
Fuse.v
SnapshotsDirs.v
OsFiles.v
LocalBackend.v
Cache.v
CacheDir.v
Sema.v
Migration.v
Options.v
ShellSplit.v
Facade.v
S3.v
UiFormat.v
Progress.v
RemoteConfig.v
RepoCache.v
