(* ===== verification/Prelude.v ===== *)
(** Verification development of the rapi library, a Go library that reads and
    writes restic backup repositories.

    * The program

    A repository is a set of files on a backend: packs of encrypted blobs, index
    files that say where each blob lies, snapshots, locks, keys and one config.
    The library stores blobs under the hash of their content ([SaveBlob]),
    collects them in packs, records the packs in an in-memory index, writes the
    index when it is flushed, and finds blobs again through the index
    ([LoadBlob], [StreamPack]).  Trees are blobs that refer to other blobs;
    snapshots refer to a root tree.  Locks keep programs that remove data apart
    from those that add some.

    * How the parts correspond to the code

    - Prelude, Bytes, GoString, GoTime: the outcomes of Go calls (a value, an
      error or a panic), lemmas and automation shared by all files, and the parts
      of Go's standard library the code uses: fixed-width integers and hexadecimal
      text, paths and shell patterns, UTF-8, the calendar.
    - Restic (restic/id.go, ids.go, blob.go) and Sets (idset.go, blob_set.go,
      counted_blob_set.go): the identifiers and their sets.
    - HashedArrayTree and IndexMap (internal/index/indexmap.go), Index (index.go),
      MasterIndex (master_index.go): the index, from its growable array up to the
      collection of index files with the blobs being saved.  The master index
      holds pointers, so its indexes live in a store ([mi_heap]).
    - Crypto (crypto/crypto.go, kdf.go), Pack (pack/pack.go): encryption with
      authentication, and the format of packs.
    - Backend (backend/*.go, backend/mem): the interface of backends as the class
      [Backend], what clients rely on as the class [BackendLaws], and the
      in-memory backend as an instance of both.  Layout (backend/layout) says
      where the files lie; Retry (backend/retry, rewind_reader.go) repeats failed
      operations of the class [Flaky].
    - PackerManager and Repository (repository/packer_manager.go,
      packer_uploader.go, repository.go, internal/index/index_parallel.go): saving
      and loading of blobs and files.  RepoFacts and RepoSafety hold their
      theorems.  StreamPack (repository.go) reads many blobs of one pack; Repack
      (repack.go) copies the blobs to keep into new packs; Keys (key.go,
      restic/config.go, json.go, Init and SearchKey) creates and opens
      repositories.  Checker (internal/checker/checker.go) verifies one, and
      CheckerFacts holds its theorems.
    - Snapshot (restic/snapshot*.go, tag_list.go, backend_find.go), Duration
      (duration.go), Policy (snapshot_policy.go): choosing, grouping and
      forgetting snapshots.
    - Lock (restic/lock.go): locking as programs of several processes.
    - Tree (restic/tree.go, node.go), TreeStream (tree_stream.go, find.go), Walker
      (walker/): trees, the blobs they use, walking and rewriting.
    - Filter (internal/filter/filter.go): patterns of paths.
    - FsPath (internal/fs/path_prefix.go) and Os, a file system with the calls of
      package os that restoring makes; FilesWriter (internal/restorer/fileswriter.go,
      sparsewrite.go) and FileRestorer (filerestorer.go): writing the contents of
      files with several workers, with its theorems in RestoreFacts; NodeRestore
      (restic/node.go, node_linux.go, node_xattr.go): creating nodes and their
      metadata; Restorer (restorer.go, hardlinks_index.go): the two passes over a
      snapshot; VerifyFiles (restorer.go): the workers that verify what was restored.
    - FS (internal/fs/interface.go, helpers.go, stat.go, fs_local.go, fs_reader.go),
      the interface of the file systems that are read as the class [FS], with the
      local one and the one of a single stream; NodeStat (restic/node.go): the
      node of a file from its metadata; ArchTree (internal/archiver/tree.go): the
      tree of the targets; FileSaver (file_saver.go, blob_saver.go): saving the
      chunks of a file; Archiver (archiver.go, tree_saver.go): the walk and the
      workers of a backup, with their theorems in ArchiverFacts; Backup: what a
      snapshot has to record, and that it does; Scanner (scanner.go).
    - BlobCache (internal/bloblru/cache.go): the cache of blobs, whose LRU list is a
      library; Buffers ([Repository.LoadBlob] with a buffer): blobs as slices of an
      allocated memory, so that a cached blob and a reused buffer can be told apart;
      Dump (internal/dump): tar and zip archives of a tree.
    - SnapshotFind (restic/snapshot_find.go): the snapshots a user names.
    - Fuse (internal/fuse/file.go, dir.go): mounted files and directories;
      SnapshotsDirs (snapshots_dirstruct.go, snapshots_dir.go): the directories of
      snapshots that path templates make.
    - OsFiles: more of package os, over the file system of Os, with what it takes to
      replace a file in one step; LocalBackend (backend/local): the backend in a
      directory; Cache (internal/cache/file.go, backend.go): cached files and the
      backend that uses them, over the class [Inner] of backends below; CacheDir
      (cache.go, dir.go): opening a cache and finding old ones.
    - Sema (backend/sema): the limit on concurrent calls; Migration
      (internal/migrations/upgrade_repo_v2.go); Options (internal/options), ShellSplit
      (backend/shell_split.go); Facade (rapi.go, backend/location, internal/textfile):
      from a location and options to an open repository, composed of Options, Keys,
      Repository and CacheDir; RepoCache (repository.go): the cache once the index is
      known.
    - S3 (backend/s3/s3.go, internal/migrations/s3_layout.go): the backend on an object
      store, whose client library is the class [S3Client], and the move of a repository
      on it from one layout to the other; RemoteConfig (the config.go of each remote
      backend): locations and the environment, over the class [URLs].
    - UiFormat (ui/format.go), Progress (ui/progress/counter.go, ui/backup/progress.go,
      rate_estimator.go, ui/restore/progress.go): sizes and durations as text, and the
      counting of a backup or a restore.

    Each operation is one definition with the name it has in the code; it takes
    the state it changes and returns the new one with its result.  A name that
    two files of the code share is qualified by its file here.  A mutex turns an
    operation into one step; goroutines that interleave are step relations
    ([world_step] of Lock, [sstep] of TreeStream, [repack_step] of Repack, [rstep]
    of FileRestorer, [file_step] of FileSaver, [astep] of Archiver, [sema_step] of Sema, [vstep]
    of VerifyFiles),
    and their theorems hold for every schedule.  The walk of the archiver is complete before
    its workers start: they share nothing but the repository, of which the walk only
    asks what it has.

    * What the theorems show

    - Nothing that is saved is lost: RepoSafety.save_flush_load and
      save_flush_reload (a flushed session can be read back, also by a repository
      opened later), MasterIndex.master_index_never_forgets and
      addpending_only_first, PackerManager.packermanager_no_blob_lost,
      Repack.repack_keeps_blobs, Retry.Save_stores_content, S3.migration_keeps_files
      (the migration as steps on the objects, each of which keeps every file).
    - Each layer implements its abstract meaning: HashedArrayTree refines a list,
      IndexMap a multimap, Index finite tables of copies (index_store_lookup,
      index_merge_content), Filter.Match_is_glob the meaning of globs,
      Policy.ApplyPolicy a closed form without state, Walker.Walk the preorder,
      TreeStream.find_used_blobs reachability, FsPath.HasPathPrefix_spec the prefix
      order of components.
    - A backup is what was on the disk: Backup.Snapshot_records (a snapshot records
      exactly the selected entries below the targets, with their metadata and
      contents, for every schedule), ArchiverFacts.backup_refines (the workers end,
      and compute what a reference without workers does), FileSaver.save_file,
      ArchTree.NewTree_covers, NodeStat.NodeFromFileInfo_typed, Scanner.scan_counts.
    - Restoring is right: RestoreFacts.restore_content (every file gets its content
      or an error is reported, for every schedule of the workers and every failure
      of the file system or the backend), restore_ends, Restorer.traverse_below (no
      name in a snapshot leads out of the destination), VerifyFiles.VerifyFiles_sound.
    - What is written can be read: Pack.pack_roundtrip, Index.index_file_roundtrip,
      Crypto.seal_open_roundtrip, RepoFacts.unpacked_roundtrip, Keys.AddKey_OpenKey
      and Init_SearchKey, Tree.builder_spec.
    - Reading through caches and mounts makes no difference: Cache.cached_loads_honest
      (readers deliver what was asked for, whatever happened to the cache),
      Cache.Clear_spec, RepoCache.prepareCache_spec, CacheDir.New_ready, BlobCache.cache_session, Fuse.Read_answers
      and dir_serves, SnapshotsDirs.makeDirs_mounts and SnapshotsDir_serves,
      Dump.DumpTree_archives, SnapshotFind.FindAll_once.
    - Text is understood: Options.Parse_spec and Apply_sets,
      ShellSplit.SplitShellStrings_quoted, Facade.Parse_local,
      RemoteConfig.gs_ParseConfig_spec and its like, UiFormat.ParseBytes_spec (products
      of machine words do not overflow unnoticed) and FormatSeconds_roundtrip.
    - Progress is counted: Progress.backup_counts (for every interleaving of the calls),
      restore_completes, rate_of_window.
    - Bad input is not believed: Crypto.open_accepts_only_sealed,
      Pack.pack_list_total, StreamPack.StreamPack_verified,
      Filter.valid_patterns_never_fail, CheckerFacts.ReadPacks_sound,
      Structure_finds and Packs_exact.
    - Exclusion and progress: Lock.locks_exclude, TreeStream.find_used_blobs_ends,
      Sema.limited_calls.
    - Limits and faults of the code as theorems: Policy.within_hours_wraps,
      RepoFacts.short_config_panics, Walker.walk_ignored_error_panics,
      Keys.OpenKey_short_panics, Filter.two_wildcards_short_path,
      RestoreFacts.restore_hangs, VerifyFiles.cancelled_VerifyFiles, Restorer.restoreHardlinkAt_removes,
      NodeRestore.restoreMetadata_error, ArchTree.NewTree_drops_target,
      Dump.DumpTree_loses_error, SnapshotsDirs.time_template_dangles,
      SnapshotFind.FindAll_twice, LocalBackend.List_loses_directories,
      Facade.OpenRepository_ignores_key, S3.ReadDir_hides_errors,
      RemoteConfig.open_rest_panics.

    * Parameters

    Code that is not part of the repository is an argument of the definitions
    that use it: AES, Poly1305, SHA-256, scrypt, zstd, encoding/json, hash/maphash,
    random bytes, clocks, backoff, the chunker, os/user and extended attributes, the LRU
    list of golang-lru, archive/tar and archive/zip, the client of S3, net/url, time.Format, the number parsers of
    strconv, and the names that os.CreateTemp picks.  What a theorem needs of them is one of its
    hypotheses: a decoder inverts its encoder, a hash has distinct values on the
    contents at hand, the authenticator accepts its own tags.  No theorem assumes
    more of a hash than that, and the witnesses instantiate every parameter.

    * Integers, fuel and bounds

    Go's [int], [int64], [uint32] and [uint64] are [Z] with the wrap-around
    written out where a value can reach it; sizes of memory are [nat].  Loops
    that are not structural take fuel: the number of "**" for patterns (each
    expansion removes one), the length of the string for [filepath.Match] and
    [ParseDuration] (each round consumes some), the number of buckets for the
    walk of the hash table, the depth of the tree for [Walk],
    [RewriteTree] and [traverseTree], the length of the path for [HasPathPrefix], the depth of the
    tree of targets for [unrollTree] and [SaveTree], that of the directories for
    [Save] and [scan].  Running out is a panic of its own that the theorems exclude, or
    an explicit hypothesis on the depth.

    * What is not modelled

    - Remote backends: apart from their configurations, and the operations of S3 that the
      migration of layouts uses, their work is calls of a service's client library.
      Wrappers that log, limit the rate or do nothing have no behaviour of their own.
    - Of the user interface, what is printed: the terminal, its timers and tables.
      Self-update, Windows and its volume shadow copies, and tests.
    - The modes of files of the local backend and the cache, and what two processes do
      to one cache at the same time: each call of the cache is one step, but where it
      waits for a download.  Of FUSE, the protocol itself and the blocking of reads.
    - Of modelled files: [Dump] and other printers, the calls of progress from the
      archiver (Progress has the counters on their own), and signals to processes.  Uploads run when they are handed
      over.  Timeouts and cancellation are modelled where a result depends on
      them ([ctx] in Retry, Lock, Keys, Sema and VerifyFiles), not as real time.  The workers
      of the archiver and of FileSaver are not bounded in number; those of TreeStream,
      FileRestorer and VerifyFiles are. *)

From stdpp Require Export base gmap strings list fin_maps.
From Stdlib Require Export ZArith Lia.

#[global] Set Default Proof Using "Type".

Declare Scope rapi_scope.
Delimit Scope rapi_scope with rapi.
Open Scope rapi_scope.

(** Automation databases of the development: [rapi] for resolution hints,
    [rapi_rw] for rewriting. *)
Create HintDb rapi.
Create Rewrite HintDb rapi_rw.

(** * Outcomes of Go calls

    A Go function returns a value, returns a non-nil error, or panics.  An
    error is its message (the format string, without the rendered arguments),
    possibly wrapped with a context message, as [errors.Wrap] does. *)

Inductive error :=
  | ErrMsg (msg : string)
  | ErrWrap (cause : error) (msg : string).

#[export] Instance error_eq_dec : EqDecision error.
Proof. solve_decision. Defined.

Inductive outcome (A : Type) :=
  | Ok (a : A)
  | Err (e : error)
  | Panic (msg : string).
Arguments Ok {A} a.
Arguments Err {A} e.
Arguments Panic {A} msg.

#[export] Instance outcome_eq_dec `{EqDecision A} : EqDecision (outcome A).
Proof. solve_decision. Defined.

#[export] Instance outcome_ret : MRet outcome := fun _ a => Ok a.
#[export] Instance outcome_bind : MBind outcome :=
  fun _ _ f m => match m with Ok a => f a | Err e => Err e | Panic p => Panic p end.
#[export] Instance outcome_fmap : FMap outcome :=
  fun _ _ f m => match m with Ok a => Ok (f a) | Err e => Err e | Panic p => Panic p end.

Notation "'try' x <- m ; k" := (mbind (M:=outcome) (fun x => k) m)
  (at level 20, x pattern, m at level 100, k at level 200, right associativity,
   format "'try'  x  <-  m ;  '//' k") : rapi_scope.

Definition is_ok {A} (o : outcome A) : bool :=
  match o with Ok _ => true | _ => false end.

(** Map the error of an outcome ([errors.Wrap]). *)
Definition wrap_err {A} (msg : string) (o : outcome A) : outcome A :=
  match o with Err e => Err (ErrWrap e msg) | _ => o end.

Lemma bind_Ok {A B} (m : outcome A) (f : A -> outcome B) b :
  mbind f m = Ok b <-> exists a, m = Ok a /\ f a = Ok b.
Proof.
  destruct m as [x| |]; cbn; split; [by exists x|by intros (? & [= ->] & ?)| |by intros (? & ? & _)| |by intros (? & ? & _)]; done.
Qed.

Lemma bind_Ok_l {A B} (a : A) (f : A -> outcome B) : mbind f (Ok a) = f a.
Proof. done. Qed.

(** An outcome that is a panic, and rules to exclude it. *)
Definition panics {A} (o : outcome A) : Prop := exists p, o = Panic p.

Lemma Ok_no_panic {A} (a : A) : ~ panics (Ok a).
Proof. by intros []. Qed.
Lemma Err_no_panic {A} (e : error) : ~ panics (@Err A e).
Proof. by intros []. Qed.
Lemma bind_no_panic {A B} (m : outcome A) (f : A -> outcome B) :
  ~ panics m -> (forall a, m = Ok a -> ~ panics (f a)) -> ~ panics (mbind f m).
Proof.
  intros Hm Hf. destruct m as [a|e|p]; cbn; [by apply Hf|apply Err_no_panic|]. destruct Hm. by exists p.
Qed.
Lemma wrap_err_no_panic {A} msg (m : outcome A) : ~ panics m -> ~ panics (wrap_err msg m).
Proof. destruct m; cbn; intros Hm; [apply Ok_no_panic|apply Err_no_panic|done]. Qed.

#[export] Hint Resolve Ok_no_panic Err_no_panic bind_no_panic wrap_err_no_panic : rapi.

(** [omap_list f l] runs [f] on every element, stopping at the first failure. *)
Fixpoint omap_list {A B} (f : A -> outcome B) (l : list A) : outcome (list B) :=
  match l with
  | [] => Ok []
  | x :: l => try y <- f x; try ys <- omap_list f l; Ok (y :: ys)
  end.

(** [ofold f s l] threads a state through [l], stopping at the first failure:
    the [for _, x := range l] loop whose body may return early. *)
Fixpoint ofold {S A} (f : S -> A -> outcome S) (s : S) (l : list A) : outcome S :=
  match l with
  | [] => Ok s
  | x :: l => try s' <- f s x; ofold f s' l
  end.

Lemma ofold_app {S A} (f : S -> A -> outcome S) s l1 l2 :
  ofold f s (l1 ++ l2) = try s' <- ofold f s l1; ofold f s' l2.
Proof. revert s; induction l1; intros s; [done|]; cbn. destruct (f s a); cbn; auto. Qed.

Lemma ofold_total {S A} (f : S -> A -> S) s l :
  ofold (fun s x => Ok (f s x)) s l = Ok (fold_left f l s).
Proof. revert s; induction l; intros s; [done|]; cbn; auto. Qed.

(** A loop whose body does not fail on the elements of [l] is a fold. *)
Lemma ofold_ok {S A} (f : S -> A -> outcome S) (g : S -> A -> S) s l :
  (forall s x, x ∈ l -> f s x = Ok (g s x)) -> ofold f s l = Ok (fold_left g l s).
Proof.
  revert s; induction l as [|x l IH]; intros s Hf; [done|]. cbn.
  rewrite Hf by by left. cbn. apply IH. intros ? y ?. apply Hf. by right.
Qed.

(** A fold that adds errors to a list ends without one when no element has any. *)
Lemma ofold_clean {E A} (f : list E -> A -> outcome (list E)) (P : A -> Prop) (l : list A) errs :
  (forall errs x, x ∈ l -> f errs x = Ok [] <-> errs = [] /\ P x) -> ofold f errs l = Ok [] <-> errs = [] /\ Forall P l.
Proof.
  revert errs. induction l as [|x l IH]; intros errs Hf; cbn [ofold].
  - split; [intros [= ->]; by split|by intros [-> _]].
  - assert (forall errs y, y ∈ l -> f errs y = Ok [] <-> errs = [] /\ P y) as Hf' by (intros ? ? ?; apply Hf; by right).
    rewrite Forall_cons. specialize (Hf errs x ltac:(left)). destruct (f errs x) as [errs'|e|p]; cbn [mbind outcome_bind].
    + rewrite IH by done. split.
      * intros [-> HF]. destruct (proj1 Hf eq_refl) as [-> Hx]. done.
      * intros (-> & Hx & HF). destruct Hf as [_ Hf]. specialize (Hf (conj eq_refl Hx)). injection Hf as ->. done.
    + split; [done|]. intros (-> & Hx & _). by destruct Hf as [_ Hf]; specialize (Hf (conj eq_refl Hx)).
    + split; [done|]. intros (-> & Hx & _). by destruct Hf as [_ Hf]; specialize (Hf (conj eq_refl Hx)).
Qed.

Lemma ofold_ext {S A} (f g : S -> A -> outcome S) s l :
  (forall s x, x ∈ l -> f s x = g s x) -> ofold f s l = ofold g s l.
Proof.
  revert s; induction l as [|x l IH]; intros s Hf; [done|]. cbn.
  rewrite Hf by by left. destruct (g s x); cbn; [|done..]. apply IH. intros ? y ?. apply Hf. by right.
Qed.

(** Progress and invariant of a loop, together. *)
Lemma ofold_step {S A} (P : list A -> S -> Prop) (f : S -> A -> outcome S) s l :
  P [] s ->
  (forall l1 x l2 s, l = l1 ++ x :: l2 -> P l1 s -> exists s', f s x = Ok s' /\ P (l1 ++ [x]) s') ->
  exists s', ofold f s l = Ok s' /\ P l s'.
Proof.
  intros H0 Hstep.
  assert (forall l1 l2 s, l = l1 ++ l2 -> P l1 s -> exists s', ofold f s l2 = Ok s' /\ P l s') as Hg.
  { intros l1 l2; revert l1; induction l2 as [|x l2 IH]; intros l1 s1 El HP.
    - exists s1. split; [done|]. by rewrite El, app_nil_r.
    - destruct (Hstep l1 x l2 s1 El HP) as (s2 & E2 & HP2). cbn. rewrite E2. cbn.
      apply (IH (l1 ++ [x])); [by rewrite <- app_assoc|done]. }
  by apply (Hg []).
Qed.

(** Rule for a loop invariant. *)
Lemma ofold_inv {S A} (P : S -> Prop) (f : S -> A -> outcome S) s l s' :
  P s -> (forall s x s', P s -> x ∈ l -> f s x = Ok s' -> P s') ->
  ofold f s l = Ok s' -> P s'.
Proof.
  revert s; induction l as [|x l IH]; cbn; intros s Hs Hf; [by intros [= <-]|].
  intros Ho; apply bind_Ok in Ho as (s1 & H1 & H2).
  apply (IH s1); [by apply (Hf s x); [|left|]| |done].
  intros ? y ? ? ? ?; eapply Hf; [done|by right|done].
Qed.

(** * Machine integers

    [uint] and [int] have 64 bits on the platforms restic supports fully;
    arithmetic wraps. *)

Definition u8 (z : Z) : Z := (z mod 2 ^ 8)%Z.
Definition u32 (z : Z) : Z := (z mod 2 ^ 32)%Z.
Definition u64 (z : Z) : Z := (z mod 2 ^ 64)%Z.
Definition i64 (z : Z) : Z := ((z + 2 ^ 63) mod 2 ^ 64 - 2 ^ 63)%Z.

Definition is_u8 (z : Z) : Prop := (0 <= z < 2 ^ 8)%Z.
Definition is_u32 (z : Z) : Prop := (0 <= z < 2 ^ 32)%Z.
Definition is_u64 (z : Z) : Prop := (0 <= z < 2 ^ 64)%Z.
Definition is_i64 (z : Z) : Prop := (- 2 ^ 63 <= z < 2 ^ 63)%Z.

Lemma u8_id z : is_u8 z -> u8 z = z.
Proof. apply Z.mod_small. Qed.
Lemma u32_id z : is_u32 z -> u32 z = z.
Proof. apply Z.mod_small. Qed.
Lemma u64_id z : is_u64 z -> u64 z = z.
Proof. apply Z.mod_small. Qed.
Lemma i64_id z : is_i64 z -> i64 z = z.
Proof. unfold is_i64, i64. intros. rewrite Z.mod_small; lia. Qed.
Lemma u64_range z : is_u64 (u64 z).
Proof. apply Z.mod_pos_bound. lia. Qed.
Lemma u32_range z : is_u32 (u32 z).
Proof. apply Z.mod_pos_bound. lia. Qed.

#[export] Hint Resolve u64_range u32_range : rapi.

(** Go's [len], an [int]. *)
Definition zlen {A} (l : list A) : Z := Z.of_nat (length l).

Lemma zlen_nonneg {A} (l : list A) : (0 <= zlen l)%Z.
Proof. unfold zlen. lia. Qed.
Lemma zlen_app {A} (l1 l2 : list A) : zlen (l1 ++ l2) = (zlen l1 + zlen l2)%Z.
Proof. unfold zlen. rewrite length_app. lia. Qed.
Lemma zlen_cons {A} (x : A) l : zlen (x :: l) = (1 + zlen l)%Z.
Proof. unfold zlen. cbn. lia. Qed.
Lemma zlen_nil {A} : zlen (@nil A) = 0%Z.
Proof. done. Qed.

#[export] Hint Rewrite @zlen_app @zlen_cons @zlen_nil : rapi_rw.

(** Linear arithmetic with division and remainder by constants. *)
Ltac zdiv_lia := Z.div_mod_to_equations; lia.

(** * Lists *)

(** Split a boolean conditional in the goal or a hypothesis. *)
Ltac case_if :=
  match goal with
  | |- context [if ?b then _ else _] => destruct b eqn:?
  | H : context [if ?b then _ else _] |- _ => destruct b eqn:?
  end.

(** Turn boolean comparisons in the context into propositions. *)
Ltac bool_to_prop :=
  repeat match goal with
  | H : (_ && _) = true |- _ => apply andb_true_iff in H as [? ?]
  | H : (_ || _) = false |- _ => apply orb_false_iff in H as [? ?]
  | H : (_ && _) = false |- _ => apply andb_false_iff in H
  | H : (_ || _) = true |- _ => apply orb_true_iff in H
  | H : negb _ = true |- _ => apply negb_true_iff in H
  | H : negb _ = false |- _ => apply negb_false_iff in H
  | H : Nat.eqb _ _ = true |- _ => apply Nat.eqb_eq in H
  | H : Nat.eqb _ _ = false |- _ => apply Nat.eqb_neq in H
  | H : Nat.ltb _ _ = true |- _ => apply Nat.ltb_lt in H
  | H : Nat.ltb _ _ = false |- _ => apply Nat.ltb_ge in H
  | H : Nat.leb _ _ = true |- _ => apply Nat.leb_le in H
  | H : Nat.leb _ _ = false |- _ => apply Nat.leb_gt in H
  | H : Z.eqb _ _ = true |- _ => apply Z.eqb_eq in H
  | H : Z.eqb _ _ = false |- _ => apply Z.eqb_neq in H
  | H : Z.ltb _ _ = true |- _ => apply Z.ltb_lt in H
  | H : Z.ltb _ _ = false |- _ => apply Z.ltb_ge in H
  | H : Z.leb _ _ = true |- _ => apply Z.leb_le in H
  | H : Z.leb _ _ = false |- _ => apply Z.leb_gt in H
  | H : bool_decide _ = true |- _ => apply bool_decide_eq_true in H
  | H : bool_decide _ = false |- _ => apply bool_decide_eq_false in H
  end.

(** Go's slice expressions on values: [slice_from l a] is [l[a:]],
    [slice_to l b] is [l[:b]] (both for indices within the length). *)
Definition slice_from {A} (l : list A) (a : Z) : list A := drop (Z.to_nat a) l.
Definition slice_to {A} (l : list A) (b : Z) : list A := take (Z.to_nat b) l.
Definition slice {A} (l : list A) (a b : Z) : list A := slice_to (slice_from l a) (b - a).

(** [copy(dst, src)]: the new content of [dst]. *)
Definition go_copy {A} (dst src : list A) : list A := take (length dst) src ++ drop (length src) dst.

Lemma length_go_copy {A} (dst src : list A) : length (go_copy dst src) = length dst.
Proof. unfold go_copy. rewrite length_app, length_take, length_drop. lia. Qed.

Lemma go_copy_same {A} (dst src : list A) : length src = length dst -> go_copy dst src = src.
Proof. intros H. unfold go_copy. rewrite take_ge, drop_ge by lia. apply app_nil_r. Qed.

(** A list of blocks of one length [B] read as one list. *)
Lemma lookup_concat_uniform {A} (bs : list (list A)) B i :
  0 < B -> Forall (fun b => length b = B) bs ->
  concat bs !! i = bs !! (i `div` B) ≫= fun b => b !! (i `mod` B).
Proof.
  intros HB HF. revert i. induction HF as [|b bs Hb HF IH]; intros i; [done|].
  cbn. destruct (decide (i < B)) as [Hlt|Hge].
  - rewrite lookup_app_l by lia. rewrite Nat.div_small, Nat.mod_small by lia. done.
  - rewrite lookup_app_r by lia. rewrite IH, Hb.
    remember (i - B) as j. replace i with (j + 1 * B) by lia.
    rewrite Nat.div_add, Nat.Div0.mod_add, Nat.add_1_r by lia. done.
Qed.

Lemma length_concat_uniform {A} (bs : list (list A)) B :
  Forall (fun b => length b = B) bs -> length (concat bs) = length bs * B.
Proof. induction 1 as [|b bs Hb ? IH]; [done|]. cbn. rewrite length_app, IH, Hb. done. Qed.

Lemma insert_concat_uniform {A} (bs : list (list A)) B i b x :
  0 < B -> Forall (fun b => length b = B) bs ->
  bs !! (i `div` B) = Some b ->
  concat (<[i `div` B := <[i `mod` B := x]> b]> bs) = <[i := x]> (concat bs).
Proof.
  intros HB HF. revert i. induction HF as [|b' bs Hb HF IH]; intros i Hl; [done|].
  destruct (decide (i < B)) as [Hlt|Hge].
  - rewrite Nat.div_small in Hl |- * by lia. rewrite Nat.mod_small by lia.
    cbn in *. simplify_eq. rewrite insert_app_l by lia. done.
  - replace i with ((i - B) + 1 * B) in Hl |- * by lia.
    rewrite Nat.div_add in Hl |- * by lia. rewrite Nat.Div0.mod_add by lia.
    replace ((i - B) `div` B + 1) with (S ((i - B) `div` B)) in * by lia.
    cbn in *. rewrite IH by done. rewrite insert_app_r_alt by lia. do 2 f_equal. lia.
Qed.

(** Altering an existing element is an update. *)
Lemma list_alter_Some {A} (f : A -> A) (l : list A) i x :
  l !! i = Some x -> alter f i l = <[i := f x]> l.
Proof.
  intros Hx. apply list_eq. intros j. rewrite list_lookup_alter, list_lookup_insert.
  apply lookup_lt_Some in Hx as Hlt. case_decide as Hij.
  - subst. rewrite Hx, decide_True by done. done.
  - rewrite decide_False by tauto. done.
Qed.

Lemma list_filter_ext {A} (P Q : A -> Prop) `{forall x, Decision (P x)} `{forall x, Decision (Q x)} (l : list A) :
  (forall x, x ∈ l -> P x <-> Q x) -> filter P l = filter Q l.
Proof.
  induction l as [|x l IH]; intros Hpq; [done|]. rewrite !filter_cons.
  rewrite (IH (fun y Hy => Hpq y (list_elem_of_further _ _ _ Hy))).
  destruct (Hpq x (list_elem_of_here _ _)). repeat case_decide; tauto.
Qed.

Lemma filter_all {A} (P : A -> Prop) `{forall x, Decision (P x)} (l : list A) :
  Forall P l -> filter P l = l.
Proof. induction 1; [done|]. rewrite filter_cons, decide_True by done. by f_equal. Qed.

Lemma filter_none {A} (P : A -> Prop) `{forall x, Decision (P x)} (l : list A) :
  Forall (fun x => ~ P x) l -> filter P l = [].
Proof. induction 1; [done|]. rewrite filter_cons, decide_False by done. done. Qed.

Lemma filter_reverse {A} (P : A -> Prop) `{forall x, Decision (P x)} (l : list A) :
  filter P (reverse l) = reverse (filter P l).
Proof.
  induction l as [|x l IH]; [done|]. rewrite reverse_cons, filter_app, IH, !filter_cons.
  rewrite filter_nil. case_decide; [by rewrite reverse_cons|by rewrite app_nil_r].
Qed.

Lemma elem_of_concat_fmap {A B} (f : A -> list B) (l : list A) (y : B) : y ∈ concat (f <$> l) <-> exists x, x ∈ l /\ y ∈ f x.
Proof.
  induction l as [|x l IH]; cbn [fmap list_fmap concat].
  - split; [by intros ?%elem_of_nil|by intros (x & ?%elem_of_nil & _)].
  - rewrite elem_of_app, IH. setoid_rewrite elem_of_cons. naive_solver.
Qed.

Lemma fold_left_app_acc {A B} (f : A -> list B) l acc :
  fold_left (fun acc x => acc ++ f x) l acc = acc ++ concat (f <$> l).
Proof.
  revert acc; induction l; intros acc; cbn; [by rewrite app_nil_r|].
  by rewrite IHl, app_assoc.
Qed.

(** * Strings *)

Lemma string_app_assoc (a b c : string) : (a +:+ b) +:+ c = a +:+ (b +:+ c).
Proof. induction a as [|x a IH]; [done|]. change (String x ((a +:+ b) +:+ c) = String x (a +:+ (b +:+ c))). by rewrite IH. Qed.

Lemma string_app_nil_r (a : string) : a +:+ "" = a.
Proof. induction a as [|x a IH]; [done|]. change (String x (a +:+ "") = String x a). by rewrite IH. Qed.

Lemma string_length_app (a b : string) : String.length (a +:+ b) = String.length a + String.length b.
Proof. induction a as [|x a IH]; [done|]. change (S (String.length (a +:+ b)) = S (String.length a + String.length b)). by rewrite IH. Qed.
