(* ===== verification/Bytes.v ===== *)
(** Bytes, little-endian integers and hexadecimal text: the parts of Go's
    [encoding/binary] and [encoding/hex] the library uses. *)

From S2P Require Import Prelude.
From Stdlib Require Export Strings.Byte.
From Stdlib Require Import Strings.Ascii.

#[local] Open Scope Z_scope.

(** * Bytes *)

#[export] Instance byte_eq_dec : EqDecision byte := Byte.byte_eq_dec.
#[export] Program Instance byte_countable : Countable byte :=
  inj_countable Byte.to_N Byte.of_N Byte.of_to_N.

#[export] Instance byte_inhabited : Inhabited byte := populate "000"%byte.

Definition Z_of_byte (b : byte) : Z := Z.of_N (Byte.to_N b).
(** Conversion to [byte] (= [uint8]) truncates. *)
Definition byte_of_Z (z : Z) : byte :=
  default "000"%byte (Byte.of_N (Z.to_N (z mod 256))).

Lemma Z_of_byte_range b : 0 <= Z_of_byte b < 256.
Proof. unfold Z_of_byte. pose proof (Byte.to_N_bounded b). lia. Qed.

Lemma Z_of_byte_of_Z z : Z_of_byte (byte_of_Z z) = z mod 256.
Proof.
  unfold byte_of_Z, Z_of_byte. pose proof (Z.mod_pos_bound z 256 ltac:(lia)) as Hb.
  destruct (Byte.of_N _) as [b|] eqn:E; cbn.
  - apply Byte.to_of_N in E. rewrite E. lia.
  - apply Byte.of_N_None_iff in E. lia.
Qed.

Lemma byte_of_Z_of_byte b : byte_of_Z (Z_of_byte b) = b.
Proof.
  unfold byte_of_Z. rewrite Z.mod_small by apply Z_of_byte_range.
  unfold Z_of_byte. rewrite N2Z.id, Byte.of_to_N. done.
Qed.

#[export] Instance Z_of_byte_inj : Inj eq eq Z_of_byte.
Proof. intros a b H. rewrite <- (byte_of_Z_of_byte a), H. apply byte_of_Z_of_byte. Qed.

#[export] Hint Rewrite Z_of_byte_of_Z byte_of_Z_of_byte : rapi_rw.
#[export] Hint Resolve Z_of_byte_range : rapi.

Definition byte_and (a b : byte) : byte := byte_of_Z (Z.land (Z_of_byte a) (Z_of_byte b)).
Definition byte_or (a b : byte) : byte := byte_of_Z (Z.lor (Z_of_byte a) (Z_of_byte b)).
Definition byte_xor (a b : byte) : byte := byte_of_Z (Z.lxor (Z_of_byte a) (Z_of_byte b)).

Lemma Z_bitop_range (f : Z -> Z -> Z) (g : bool -> bool -> bool) a b :
  (forall x y n, 0 <= n -> Z.testbit (f x y) n = g (Z.testbit x n) (Z.testbit y n)) ->
  g false false = false -> 0 <= f a b ->
  0 <= a < 256 -> 0 <= b < 256 -> 0 <= f a b < 256.
Proof.
  intros Hf Hg Hpos Ha Hb. split; [done|].
  destruct (Z.eq_dec (f a b) 0) as [->|Hnz]; [lia|].
  change 256 with (2 ^ 8). apply Z.log2_lt_pow2; [lia|].
  destruct (Z.lt_ge_cases (Z.log2 (f a b)) 8) as [|Hge]; [done|].
  pose proof (Z.bit_log2 (f a b) ltac:(lia)) as Hbit.
  assert (forall x, 0 <= x < 256 -> Z.testbit x (Z.log2 (f a b)) = false) as Hz.
  { intros x Hx. destruct (Z.eq_dec x 0) as [->|]; [apply Z.testbit_0_l|].
    apply Z.bits_above_log2; [lia|].
    assert (Z.log2 x < 8); [apply Z.log2_lt_pow2; lia|lia]. }
  rewrite Hf, !Hz, Hg in Hbit by (lia || apply Z.log2_nonneg). done.
Qed.

Lemma Z_of_byte_xor a b : Z_of_byte (byte_xor a b) = Z.lxor (Z_of_byte a) (Z_of_byte b).
Proof.
  unfold byte_xor. rewrite Z_of_byte_of_Z. apply Z.mod_small.
  pose proof (Z_of_byte_range a); pose proof (Z_of_byte_range b).
  apply (Z_bitop_range Z.lxor xorb); auto using Z.lxor_spec.
  apply Z.lxor_nonneg. lia.
Qed.

Lemma byte_xor_involutive a b : byte_xor (byte_xor a b) b = a.
Proof.
  apply (inj Z_of_byte). rewrite !Z_of_byte_xor, Z.lxor_assoc, Z.lxor_nilpotent.
  apply Z.lxor_0_r.
Qed.

Lemma Z_of_byte_or a b : Z_of_byte (byte_or a b) = Z.lor (Z_of_byte a) (Z_of_byte b).
Proof.
  unfold byte_or. rewrite Z_of_byte_of_Z. apply Z.mod_small.
  pose proof (Z_of_byte_range a); pose proof (Z_of_byte_range b).
  apply (Z_bitop_range Z.lor orb); auto using Z.lor_spec.
  apply Z.lor_nonneg. lia.
Qed.

Lemma Z_of_byte_and a b : Z_of_byte (byte_and a b) = Z.land (Z_of_byte a) (Z_of_byte b).
Proof.
  unfold byte_and. rewrite Z_of_byte_of_Z. apply Z.mod_small.
  pose proof (Z_of_byte_range a); pose proof (Z_of_byte_range b).
  apply (Z_bitop_range Z.land andb); auto using Z.land_spec.
  apply Z.land_nonneg. lia.
Qed.

(** * encoding/binary: little-endian uint32 *)

(** [binary.LittleEndian.PutUint32] into a 4-byte array. *)
Definition put_uint32 (v : Z) : list byte :=
  [byte_of_Z v; byte_of_Z (Z.shiftr v 8); byte_of_Z (Z.shiftr v 16); byte_of_Z (Z.shiftr v 24)].

(** [binary.LittleEndian.Uint32]: reads the first four bytes, panics when there
    are fewer. *)
Definition get_uint32 (p : list byte) : outcome Z :=
  match p with
  | b0 :: b1 :: b2 :: b3 :: _ =>
      Ok (Z_of_byte b0 + 2 ^ 8 * Z_of_byte b1 + 2 ^ 16 * Z_of_byte b2 + 2 ^ 24 * Z_of_byte b3)
  | _ => Panic "index out of range"
  end.

Lemma length_put_uint32 v : length (put_uint32 v) = 4%nat.
Proof. done. Qed.

Lemma get_put_uint32 v rest : get_uint32 (put_uint32 v ++ rest) = Ok (u32 v).
Proof.
  cbn. rewrite !Z_of_byte_of_Z, !Z.shiftr_div_pow2 by lia. f_equal. unfold u32.
  change (2 ^ 32) with (2 ^ 8 * (2 ^ 8 * (2 ^ 8 * 2 ^ 8))).
  rewrite !Z.rem_mul_r by lia. change 256 with (2 ^ 8).
  rewrite !Z.div_div by lia.
  change (2 ^ 8 * 2 ^ 8) with (2 ^ 16). change (2 ^ 16 * 2 ^ 8) with (2 ^ 24). lia.
Qed.

Lemma get_uint32_range p v : get_uint32 p = Ok v -> is_u32 v.
Proof.
  destruct p as [|b0 [|b1 [|b2 [|b3 ?]]]]; cbn; try done. intros [= <-]. unfold is_u32.
  pose proof (Z_of_byte_range b0); pose proof (Z_of_byte_range b1).
  pose proof (Z_of_byte_range b2); pose proof (Z_of_byte_range b3). lia.
Qed.

Lemma put_get_uint32 p v :
  get_uint32 p = Ok v -> take 4 p = put_uint32 v.
Proof.
  destruct p as [|b0 [|b1 [|b2 [|b3 rest]]]]; cbn; try done. intros [= <-].
  pose proof (Z_of_byte_range b0); pose proof (Z_of_byte_range b1).
  pose proof (Z_of_byte_range b2); pose proof (Z_of_byte_range b3).
  rewrite take_0. unfold put_uint32. rewrite !Z.shiftr_div_pow2 by lia.
  repeat f_equal; apply (inj Z_of_byte); rewrite Z_of_byte_of_Z;
    remember (Z_of_byte b0); remember (Z_of_byte b1); remember (Z_of_byte b2);
    remember (Z_of_byte b3); clear -H H0 H1 H2; zdiv_lia.
Qed.

#[export] Hint Rewrite get_put_uint32 : rapi_rw.

(** * encoding/hex *)

Definition hextable : list Ascii.ascii :=
  ["0";"1";"2";"3";"4";"5";"6";"7";"8";"9";"a";"b";"c";"d";"e";"f"]%char.

Definition hex_digit (n : Z) : Ascii.ascii := nth (Z.to_nat n) hextable "0"%char.

(** [hex.EncodeToString] *)
Fixpoint hex_encode (bs : list byte) : string :=
  match bs with
  | [] => ""
  | b :: bs =>
      String (hex_digit (Z.shiftr (Z_of_byte b) 4))
        (String (hex_digit (Z.land (Z_of_byte b) 15)) (hex_encode bs))
  end.

(** [reverseHexTable]: the value of a hexadecimal digit of either case. *)
Definition from_hex_char (c : Ascii.ascii) : option Z :=
  let n := Z.of_N (Ascii.N_of_ascii c) in
  if (48 <=? n) && (n <=? 57) then Some (n - 48)
  else if (97 <=? n) && (n <=? 102) then Some (n - 97 + 10)
  else if (65 <=? n) && (n <=? 70) then Some (n - 65 + 10)
  else None.

(** [hex.DecodeString]: fails on a character that is no hexadecimal digit and
    on an odd length. *)
Fixpoint hex_decode (s : string) : outcome (list byte) :=
  match s with
  | "" => Ok []
  | String c1 "" =>
      match from_hex_char c1 with
      | None => Err (ErrMsg "encoding/hex: invalid byte: %#U")
      | Some _ => Err (ErrMsg "encoding/hex: odd length hex string")
      end
  | String c1 (String c2 s) =>
      match from_hex_char c1, from_hex_char c2 with
      | Some a, Some b =>
          try bs <- hex_decode s; Ok (byte_of_Z (Z.lor (Z.shiftl a 4) b) :: bs)
      | _, _ => Err (ErrMsg "encoding/hex: invalid byte: %#U")
      end
  end%string.

Lemma hex_byte_decode b :
  from_hex_char (hex_digit (Z.shiftr (Z_of_byte b) 4)) = Some (Z.shiftr (Z_of_byte b) 4) /\
  from_hex_char (hex_digit (Z.land (Z_of_byte b) 15)) = Some (Z.land (Z_of_byte b) 15) /\
  byte_of_Z (Z.lor (Z.shiftl (Z.shiftr (Z_of_byte b) 4) 4) (Z.land (Z_of_byte b) 15)) = b.
Proof. destruct b; by vm_compute. Qed.

Lemma length_hex_encode bs : String.length (hex_encode bs) = (2 * length bs)%nat.
Proof. induction bs; cbn; [done|]. rewrite IHbs. lia. Qed.

(** Decoding the encoding of any bytes gives them back. *)
Lemma hex_decode_encode bs : hex_decode (hex_encode bs) = Ok bs.
Proof.
  induction bs as [|b bs IH]; [done|]. cbn [hex_encode hex_decode].
  destruct (hex_byte_decode b) as (-> & -> & Hb). rewrite IH. cbn. by rewrite Hb.
Qed.

(** A decoded string has half its length in bytes. *)
Lemma hex_decode_length s bs :
  hex_decode s = Ok bs -> String.length s = (2 * length bs)%nat.
Proof.
  revert s. induction bs as [|b bs IH]; intros s; destruct s as [|c1 [|c2 s]]; cbn; try done;
    repeat case_match; try done.
  - intros H'. by apply bind_Ok in H' as (? & ? & ?).
  - intros (? & ? & [= <- <-])%bind_Ok. rewrite (IH s) by done. lia.
Qed.

#[export] Hint Rewrite hex_decode_encode length_hex_encode length_put_uint32 : rapi_rw.

(** * A codec for countable types

    An encoding of any countable type in bytes, to instantiate the encoders
    that are parameters of the model (JSON, zstd). *)

Fixpoint pos_bits (p : positive) : list byte :=
  match p with
  | xH => []
  | xO p => "000"%byte :: pos_bits p
  | xI p => "001"%byte :: pos_bits p
  end.

Fixpoint bits_pos (l : list byte) : positive :=
  match l with
  | [] => xH
  | b :: l => if Byte.eqb b "000"%byte then xO (bits_pos l) else xI (bits_pos l)
  end.

Lemma bits_pos_bits p : bits_pos (pos_bits p) = p.
Proof. induction p; cbn; congruence. Qed.

Definition encode_bytes `{Countable A} (a : A) : list byte := pos_bits (encode a).
Definition decode_bytes `{Countable A} (l : list byte) : option A := decode (bits_pos l).

Lemma decode_encode_bytes `{Countable A} (a : A) : decode_bytes (encode_bytes a) = Some a.
Proof. unfold decode_bytes, encode_bytes. rewrite bits_pos_bits. apply decode_encode. Qed.
