(* ===== verification/GoString.v ===== *)
(** Strings as Go has them, which are sequences of bytes: splitting and joining,
    UTF-8, slash-separated paths (package path) and the shell patterns of
    [filepath.Match]. *)

From S2P Require Import Prelude Bytes.

#[local] Open Scope Z_scope.

(** * Splitting *)

(** [strings.Split] for a separator of one byte, and [strings.Join]. *)
Fixpoint split_on (sep : Ascii.ascii) (s : string) : list string :=
  match s with
  | EmptyString => [""]
  | String.String c s =>
      if Ascii.eqb c sep then "" :: split_on sep s
      else match split_on sep s with
           | w :: ws => String.String c w :: ws
           | [] => [String.String c ""]
           end
  end.

Fixpoint strings_Join (sep : string) (l : list string) : string :=
  match l with
  | [] => ""
  | [s] => s
  | s :: l => (s +:+ sep +:+ strings_Join sep l)
  end.

(** * UTF-8 *)

Definition code (c : Ascii.ascii) : Z := Z.of_nat (Ascii.nat_of_ascii c).
Definition in_range (lo hi : Z) (c : Ascii.ascii) : bool := (lo <=? code c) && (code c <=? hi).
Definition cont (c : Ascii.ascii) : Z := code c mod 64.

(** The first rune of a string and its width; an invalid encoding is U+FFFD of
    width 1. *)
Definition decode_rune (s : string) : Z * nat :=
  let bad := (65533, 1%nat) in
  match s with
  | EmptyString => bad
  | String.String b0 s1 =>
      if code b0 <? 128 then (code b0, 1%nat) else
      match s1 with
      | EmptyString => bad
      | String.String b1 s2 =>
          if in_range 194 223 b0 then
            if in_range 128 191 b1 then (code b0 mod 32 * 64 + cont b1, 2%nat) else bad
          else
          match s2 with
          | EmptyString => bad
          | String.String b2 s3 =>
              if in_range 224 239 b0 then
                if in_range (if code b0 =? 224 then 160 else 128) (if code b0 =? 237 then 159 else 191) b1 && in_range 128 191 b2
                then (code b0 mod 16 * 4096 + cont b1 * 64 + cont b2, 3%nat) else bad
              else
              match s3 with
              | EmptyString => bad
              | String.String b3 _ =>
                  if in_range 240 244 b0 && in_range (if code b0 =? 240 then 144 else 128) (if code b0 =? 244 then 143 else 191) b1
                     && in_range 128 191 b2 && in_range 128 191 b3
                  then (code b0 mod 8 * 262144 + cont b1 * 4096 + cont b2 * 64 + cont b3, 4%nat) else bad
              end
          end
      end
  end.

Fixpoint drop_bytes (n : nat) (s : string) : string :=
  match n, s with
  | S n, String.String _ s => drop_bytes n s
  | _, _ => s
  end.
Fixpoint take_bytes (n : nat) (s : string) : string :=
  match n, s with
  | S n, String.String c s => String.String c (take_bytes n s)
  | _, _ => ""
  end.

Lemma code_range c : 0 <= code c < 256.
Proof. unfold code. pose proof (Ascii.nat_ascii_bounded c). lia. Qed.

Lemma length_drop_bytes n s : (String.length (drop_bytes n s) <= String.length s)%nat.
Proof. revert s; induction n as [|n IH]; intros [|c s]; cbn; try lia. specialize (IH s). lia. Qed.

(** * Paths (package path)

    [path.Clean] and [path.Join] on slash-separated paths. *)

Definition slash : Ascii.ascii := Ascii.ascii_of_nat 47.
Definition rooted (p : string) : bool := match p with String.String c _ => Ascii.eqb c slash | EmptyString => false end.

(** [out] holds the components of the result, the last one first. *)
Definition clean_step (root : bool) (out : list string) (comp : string) : list string :=
  if String.eqb comp "" || String.eqb comp "." then out
  else if String.eqb comp ".." then
    match out with
    | [] => if root then [] else [".."]
    | top :: rest => if String.eqb top ".." then comp :: out else rest
    end
  else comp :: out.
Definition path_Clean (p : string) : string :=
  let out := rev (fold_left (clean_step (rooted p)) (split_on slash p) []) in
  if rooted p then "/" +:+ strings_Join "/" out else match out with [] => "." | _ => strings_Join "/" out end.
Definition path_Join (elems : list string) : string :=
  match filter (fun e => e <> "") elems with [] => "" | l => path_Clean (strings_Join "/" l) end.

Example clean_dots : path_Clean "/a/../b/./c//d/" = "/b/c/d" /\ path_Clean "../a/../.." = "../.." /\ path_Clean "" = "." /\ path_Clean "/.." = "/".
Proof. done. Qed.
Example join_root : path_Join ["/"; "a"] = "/a" /\ path_Join [""; "a"] = "a" /\ path_Join [""; ""] = "".
Proof. done. Qed.

(** * Shell patterns ([filepath.Match])

    [filepath.Match] cuts a pattern into chunks without a star, preceded by stars
    or not, and matches one chunk after the other.  Whether a pattern is
    malformed does not depend on the name it is matched with. *)

Definition is_code (n : Z) (c : Ascii.ascii) : bool := code c =? n.

Definition ErrBadPattern : error := ErrMsg "syntax error in pattern".

(** One character of a class, which may be escaped; something must follow it. *)
Definition getEsc (chunk : string) : outcome (Z * string) :=
  match chunk with
  | EmptyString => Err ErrBadPattern
  | String.String c rest =>
      if is_code 45 c || is_code 93 c then Err ErrBadPattern
      else
        let chunk := if is_code 92 c then rest else chunk in
        if String.eqb chunk "" then Err ErrBadPattern
        else
          let '(r, n) := decode_rune chunk in
          let nchunk := drop_bytes n chunk in
          if ((r =? 65533) && Nat.eqb n 1) || String.eqb nchunk "" then Err ErrBadPattern
          else Ok (r, nchunk)
  end.

(** The ranges of a class, up to its closing bracket: whether the rune [r] is in
    one of them, and what follows the class. *)
Fixpoint match_class (fuel : nat) (r : Z) (chunk : string) (found : bool) (nrange : nat) : outcome (bool * string) :=
  match fuel with
  | O => Panic "out of fuel"
  | S fuel =>
      let go :=
        try (lo, chunk) <- getEsc chunk;
        try (hi, chunk) <- match chunk with
                           | String.String c rest => if is_code 45 c then getEsc rest else Ok (lo, chunk)
                           | EmptyString => Panic "index out of range"
                           end;
        match_class fuel r chunk (found || ((lo <=? r) && (r <=? hi))) (S nrange) in
      match chunk with
      | String.String c rest => if is_code 93 c && negb (Nat.eqb nrange 0) then Ok (found, rest) else go
      | EmptyString => go
      end
  end.

(** [matchChunk]: what is left of [s] when the chunk matches a prefix of it.
    Once the match has failed, the chunk is only checked. *)
Fixpoint match_chunk (fuel : nat) (chunk s : string) (failed : bool) : outcome (option string) :=
  match chunk with
  | EmptyString => Ok (if failed then None else Some s)
  | String.String c rest =>
      match fuel with
      | O => Panic "out of fuel"
      | S fuel =>
          let failed := failed || String.eqb s "" in
          if is_code 91 c then
            let '(r, s) := if failed then (0, s) else let '(r, n) := decode_rune s in (r, drop_bytes n s) in
            let '(negated, rest) :=
              match rest with String.String d rest' => if is_code 94 d then (true, rest') else (false, rest) | EmptyString => (false, rest) end in
            try (found, rest) <- match_class (S (String.length rest)) r rest false 0;
            match_chunk fuel rest s (failed || Bool.eqb found negated)
          else if is_code 63 c then
            match s with
            | String.String b _ =>
                if failed then match_chunk fuel rest s true
                else match_chunk fuel rest (drop_bytes (snd (decode_rune s)) s) (Ascii.eqb b slash)
            | EmptyString => match_chunk fuel rest s true
            end
          else
            match (if is_code 92 c then rest else chunk) with
            | EmptyString => Err ErrBadPattern
            | String.String l rest =>
                match s with
                | String.String b s' => if failed then match_chunk fuel rest s true else match_chunk fuel rest s' (negb (Ascii.eqb l b))
                | EmptyString => match_chunk fuel rest s true
                end
            end
      end
  end.
Definition matchChunk (chunk s : string) : outcome (option string) := match_chunk (String.length chunk) chunk s false.

Fixpoint strip_stars (s : string) : string :=
  match s with String.String c s' => if is_code 42 c then strip_stars s' else s | EmptyString => s end.

(** The pattern up to the next star that is neither escaped nor in a class. *)
Fixpoint scan (inrange : bool) (s : string) : string * string :=
  match s with
  | EmptyString => ("", "")
  | String.String c s1 =>
      if is_code 92 c then
        match s1 with
        | EmptyString => (s, "")
        | String.String d s2 => let '(a, b) := scan inrange s2 in (String.String c (String.String d a), b)
        end
      else if is_code 42 c && negb inrange then ("", s)
      else
        let '(a, b) := scan (if is_code 91 c then true else if is_code 93 c then false else inrange) s1 in
        (String.String c a, b)
  end.
Definition scanChunk (pattern : string) : bool * string * string :=
  let p := strip_stars pattern in
  let '(chunk, rest) := scan false p in
  (negb (Nat.eqb (String.length p) (String.length pattern)), chunk, rest).

Fixpoint has_slash (s : string) : bool :=
  match s with EmptyString => false | String.String c s => Ascii.eqb c slash || has_slash s end.

(** The search for the chunk after a star. *)
Fixpoint star_skip (chunk : string) (last : bool) (name : string) : outcome (option string) :=
  match name with
  | EmptyString => Ok None
  | String.String c name' =>
      if Ascii.eqb c slash then Ok None
      else
        try t <- matchChunk chunk name';
        match t with
        | Some t => if last && negb (String.eqb t "") then star_skip chunk last name' else Ok (Some t)
        | None => star_skip chunk last name'
        end
  end.

(** Check that the rest of a pattern is well formed. *)
Fixpoint check_rest (fuel : nat) (pattern : string) : outcome unit :=
  match pattern with
  | EmptyString => Ok tt
  | _ =>
      match fuel with
      | O => Panic "out of fuel"
      | S fuel =>
          let '(_, chunk, pattern) := scanChunk pattern in
          try _ <- matchChunk chunk "";
          check_rest fuel pattern
      end
  end.

Fixpoint match_loop (fuel : nat) (pattern name : string) : outcome bool :=
  match pattern with
  | EmptyString => Ok (String.eqb name "")
  | _ =>
      match fuel with
      | O => Panic "out of fuel"
      | S fuel =>
          let '(star, chunk, pattern) := scanChunk pattern in
          if star && String.eqb chunk "" then Ok (negb (has_slash name))
          else
            let last := String.eqb pattern "" in
            let no_match := try _ <- check_rest fuel pattern; Ok false in
            let skip := if star then try t <- star_skip chunk last name;
                                     match t with Some name => match_loop fuel pattern name | None => no_match end
                        else no_match in
            try t <- matchChunk chunk name;
            match t with
            | Some t => if String.eqb t "" || negb last then match_loop fuel pattern t else skip
            | None => skip
            end
      end
  end.
Definition filepath_Match (pattern name : string) : outcome bool := match_loop (String.length pattern) pattern name.

Example Match_classes :
  filepath_Match "[a-c]?[^x]*.go" "bxy-main.go" = Ok true /\ filepath_Match "a*b*c" "a1b2b3c" = Ok true /\
  filepath_Match "a*b*c" "a1b2b3cd" = Ok false /\ filepath_Match "*" "a/b" = Ok false /\ filepath_Match "\*[\]x]" "*]" = Ok true /\
  filepath_Match "[a" "b" = Err ErrBadPattern /\ filepath_Match "a[" "b" = Err ErrBadPattern /\ filepath_Match "[-x]" "-" = Err ErrBadPattern.
Proof. vm_compute. done. Qed.

(** The well-formedness of a pattern. *)
Definition valid_pattern (pattern : string) : outcome unit := check_rest (String.length pattern) pattern.

(** Sequencing forgets the value of a computation that is only checked. *)
Definition ounit {A} (o : outcome A) : outcome unit := (fun _ => tt) <$> o.

Lemma ounit_bind {A B A' B'} (m : outcome A) (m' : outcome A') (f : A -> outcome B) (f' : A' -> outcome B') :
  ounit m = ounit m' -> (forall a a', m = Ok a -> m' = Ok a' -> ounit (f a) = ounit (f' a')) ->
  ounit (mbind f m) = ounit (mbind f' m').
Proof. intros Hm Hf. destruct m, m'; unfold ounit in *; cbn in *; simplify_eq; try done; by apply Hf. Qed.

Lemma match_class_indep fuel r r' chunk found found' nrange :
  (snd <$> match_class fuel r chunk found nrange) = (snd <$> match_class fuel r' chunk found' nrange).
Proof.
  revert chunk found found' nrange; induction fuel as [|fuel IH]; intros chunk found found' nrange; [done|].
  assert (forall X Y Z (m : outcome X) (f f' : X -> outcome (Y * Z)), (forall x, (snd <$> f x) = (snd <$> f' x)) ->
    (snd <$> mbind f m) = (snd <$> mbind f' m)) as Hb by (intros ??? [] ?? Hf; cbn; auto).
  cbn [match_class]. set (go := mbind _ (getEsc chunk)). set (go' := mbind _ (getEsc chunk)).
  assert ((snd <$> go) = (snd <$> go')) as Hgo.
  { apply Hb. intros [lo [|c' rest']]; [done|]. apply Hb. intros [hi chunk']. apply IH. }
  destruct chunk as [|c rest]; [done|]. by destruct (_ && _).
Qed.

Lemma match_chunk_indep fuel chunk s s' failed failed' :
  ounit (match_chunk fuel chunk s failed) = ounit (match_chunk fuel chunk s' failed').
Proof.
  revert chunk s s' failed failed'; induction fuel as [|fuel IH]; intros [|c rest] s s' failed failed'; [done|done|by cbn; destruct failed, failed'|].
  cbn [match_chunk].
  set (d := failed || String.eqb s ""). set (d' := failed' || String.eqb s' "").
  destruct (is_code 91 c).
  { destruct (if d then _ else _) as [r t]. destruct (if d' then _ else _) as [r' t'].
    destruct (match rest with EmptyString => _ | _ => _ end) as [negated rest'].
    pose proof (match_class_indep (S (String.length rest')) r r' rest' false false 0) as Hc.
    destruct (match_class _ r rest' _ _) as [[f q]|e|p], (match_class _ r' rest' _ _) as [[f' q']|e'|p']; try done; cbn in *; simplify_eq; [apply IH|done..]. }
  destruct (is_code 63 c).
  { destruct s, s'; repeat case_if; apply IH. }
  destruct (if is_code 92 c then rest else _) as [|l rest']; [done|].
  destruct s, s'; repeat case_if; apply IH.
Qed.

(** The fuel is enough: every step consumes a byte of the pattern. *)
Lemma decode_rune_width s : (1 <= snd (decode_rune s))%nat.
Proof. unfold decode_rune. repeat (case_match; cbn; try lia). Qed.

Lemma length_drop_bytes_lt n s : (1 <= n)%nat -> s <> "" -> (String.length (drop_bytes n s) < String.length s)%nat.
Proof. destruct n as [|n], s as [|c s]; try lia; try done. intros _ _. cbn. pose proof (length_drop_bytes n s). lia. Qed.

Lemma getEsc_length chunk r rest : getEsc chunk = Ok (r, rest) -> rest <> "" /\ (String.length rest < String.length chunk)%nat.
Proof.
  destruct chunk as [|c chunk]; [done|]. cbn [getEsc]. case_if; [done|].
  set (q := if is_code 92 c then chunk else String.String c chunk).
  assert (String.length q <= String.length (String.String c chunk))%nat as Hq by (unfold q; case_if; cbn; lia).
  destruct (String.eqb_spec q ""); [done|]. pose proof (decode_rune_width q) as Hw. destruct (decode_rune q) as [r' w] eqn:E.
  cbn in Hw. destruct (_ || String.eqb _ _) eqn:E'; [done|]. intros [= <- <-]. apply orb_false_iff in E' as [_ E'].
  apply String.eqb_neq in E'. split; [done|]. pose proof (length_drop_bytes_lt w q Hw ltac:(done)). lia.
Qed.

Lemma getEsc_no_panic chunk : ~ panics (getEsc chunk).
Proof. intros [p Hp]. unfold getEsc in Hp. repeat case_match; done. Qed.

Lemma match_class_ok fuel r chunk found nrange :
  (String.length chunk < fuel)%nat ->
  ~ panics (match_class fuel r chunk found nrange) /\
  (forall f rest, match_class fuel r chunk found nrange = Ok (f, rest) -> (String.length rest < S (String.length chunk))%nat).
Proof.
  revert chunk found nrange; induction fuel as [|fuel IH]; intros chunk found nrange Hf; [lia|]. cbn [match_class].
  set (go := mbind _ (getEsc chunk)).
  assert (~ panics go /\ (forall f rest, go = Ok (f, rest) -> (String.length rest < S (String.length chunk))%nat)) as Hgo.
  { unfold go. destruct (getEsc chunk) as [[lo [|c c1]]|e|p] eqn:E; cbn.
    - by apply getEsc_length in E as [? ?].
    - apply getEsc_length in E as [_ E]. cbn in E. destruct (is_code 45 c).
      + destruct (getEsc c1) as [[hi c2]|e|p] eqn:E2; cbn.
        * apply getEsc_length in E2 as [_ E2]. destruct (IH c2 (found || ((lo <=? r) && (r <=? hi))) (S nrange)) as [H1 H2]; [lia|].
          split; [done|]. intros f rest Hr. apply H2 in Hr. lia.
        * by split; [apply Err_no_panic|].
        * by destruct (getEsc_no_panic c1); exists p.
      + destruct (IH (String.String c c1) (found || ((lo <=? r) && (r <=? lo))) (S nrange)) as [H1 H2]; [cbn; lia|].
        split; [done|]. intros f rest Hr. apply H2 in Hr. cbn in Hr. lia.
    - by split; [apply Err_no_panic|].
    - by destruct (getEsc_no_panic chunk); exists p. }
  clearbody go. destruct chunk as [|c rest]; [done|]. destruct (_ && _); [|done].
  split; [apply Ok_no_panic|]. intros f rest' [= _ <-]. cbn. lia.
Qed.

Lemma match_chunk_no_panic fuel chunk s failed : (String.length chunk <= fuel)%nat -> ~ panics (match_chunk fuel chunk s failed).
Proof.
  revert chunk s failed; induction fuel as [|fuel IH]; intros [|c rest] s failed Hf; cbn in Hf; try lia; [apply Ok_no_panic..|].
  cbn [match_chunk]. destruct (is_code 91 c).
  { destruct (if failed || _ then _ else _) as [r t].
    set (br := match rest with EmptyString => (false, rest) | String.String d rest' => if is_code 94 d then (true, rest') else (false, rest) end).
    assert (String.length br.2 <= String.length rest)%nat as Hbr by (unfold br; repeat case_match; cbn; lia).
    destruct br as [negated rest']. cbn in Hbr. pose proof (match_class_ok (S (String.length rest')) r rest' false 0) as [H1 H2]; [lia|].
    apply bind_no_panic; [done|]. intros [found q] Hq. apply H2 in Hq. apply IH. lia. }
  destruct (is_code 63 c); [destruct s; [|case_if]; apply IH; lia|].
  destruct (if is_code 92 c then rest else _) as [|l rest'] eqn:E; [apply Err_no_panic|].
  assert (String.length rest' <= fuel)%nat as Hl by (destruct (is_code 92 c); [subst rest; cbn in Hf; lia|simplify_eq; lia]).
  destruct s; [|case_if]; by apply IH.
Qed.

Lemma matchChunk_no_panic chunk s : ~ panics (matchChunk chunk s).
Proof. by apply match_chunk_no_panic. Qed.

Lemma scan_app inrange s : let '(a, b) := scan inrange s in s = a +:+ b.
Proof.
  remember (String.length s) as n eqn:Hn. assert (String.length s <= n)%nat as Hle by lia. clear Hn. revert inrange s Hle.
  induction n as [|n IH]; intros inrange [|c s1] Hle; cbn in Hle; try lia; [done..|]. cbn [scan].
  destruct (is_code 92 c).
  { destruct s1 as [|d s2]; [done|]. cbn in Hle. specialize (IH inrange s2). destruct (scan inrange s2) as [a b]. rewrite IH at 1 by lia. done. }
  destruct (_ && _); [done|]. set (q := if is_code 91 c then _ else _). specialize (IH q s1). destruct (scan q s1) as [a b]. by rewrite IH at 1 by lia.
Qed.

Lemma strip_stars_head s c s' : strip_stars s = String.String c s' -> is_code 42 c = false.
Proof. induction s as [|d s IH]; [done|]. cbn. destruct (is_code 42 d) eqn:E; [done|]. by intros [= <- _]. Qed.

Lemma length_strip_stars s : (String.length (strip_stars s) <= String.length s)%nat.
Proof. induction s as [|d s IH]; [done|]. cbn. case_if; cbn; lia. Qed.

Lemma scanChunk_spec p star chunk rest :
  scanChunk p = (star, chunk, rest) -> p <> "" ->
  (String.length rest < String.length p)%nat /\ (chunk = "" -> rest = "").
Proof.
  unfold scanChunk. pose proof (scan_app false (strip_stars p)) as Ha. destruct (scan false (strip_stars p)) as [a b] eqn:Es.
  intros [= _ -> ->] Hp. pose proof (length_strip_stars p) as Hl.
  assert (chunk = "" -> rest = "") as Hc.
  { intros ->. destruct (strip_stars p) as [|c s] eqn:E; [by simplify_eq|]. apply strip_stars_head in E. cbn [scan] in Es.
    rewrite E in Es. destruct (is_code 92 c).
    - destruct s as [|d s2]; [done|]. by destruct (scan false s2).
    - cbn in Es. by destruct (scan _ s). }
  split; [|done]. rewrite Ha, string_length_app in Hl. destruct chunk as [|c chunk]; [rewrite (Hc eq_refl); destruct p; cbn; [done|lia]|cbn in Hl; lia].
Qed.

Lemma matchChunk_indep chunk s s' : ounit (matchChunk chunk s) = ounit (matchChunk chunk s').
Proof. apply match_chunk_indep. Qed.

Lemma matchChunk_ok chunk s t : matchChunk chunk s = Ok t -> forall s', exists t', matchChunk chunk s' = Ok t'.
Proof.
  intros Ht s'. pose proof (matchChunk_indep chunk s s') as Hi. rewrite Ht in Hi.
  destruct (matchChunk chunk s') as [t'|e|p]; [by exists t'|done..].
Qed.

Lemma star_skip_ok chunk last name s t : matchChunk chunk s = Ok t -> exists t', star_skip chunk last name = Ok t'.
Proof.
  intros Ht. induction name as [|c name IH]; [by exists None|]. cbn [star_skip]. case_if; [by exists None|].
  destruct (matchChunk_ok _ _ _ Ht name) as [[t'|] ->]; cbn; [|done]. case_if; [done|by exists (Some t')].
Qed.

(** Matching fails on a malformed pattern only, and then for every name. *)
Lemma ounit_match_loop fuel pattern name :
  (String.length pattern <= fuel)%nat -> ounit (match_loop fuel pattern name) = check_rest fuel pattern.
Proof.
  revert pattern name; induction fuel as [|fuel IH]; intros [|c p] name Hf; cbn in Hf; try lia; [done..|].
  cbn [match_loop check_rest]. destruct (scanChunk (String.String c p)) as [[star chunk] rest] eqn:E.
  apply scanChunk_spec in E as [Hl Hc]; [|done]. cbn in Hl.
  assert (forall n, ounit (match_loop fuel rest n) = check_rest fuel rest) as IH' by (intros; apply IH; lia).
  assert (ounit (try _ <- check_rest fuel rest; Ok false) = check_rest fuel rest) as Hno by (by destruct (check_rest fuel rest) as [[]| |]).
  destruct star; cbn [andb].
  1: destruct (String.eqb_spec chunk "") as [->|_]; [by rewrite (Hc eq_refl); destruct fuel|].
  all: pose proof (matchChunk_indep chunk name "") as Hi;
    destruct (matchChunk chunk name) as [t|e|m] eqn:Em, (matchChunk chunk "") as [t'|e'|m']; try done; cbn [mbind outcome_bind ounit fmap outcome_fmap] in *; simplify_eq; try done.
  - destruct (star_skip_ok chunk (String.eqb rest "") name _ _ Em) as [u ->]. cbn [mbind outcome_bind].
    repeat case_match; first [apply IH'|apply Hno].
  - repeat case_match; first [apply IH'|apply Hno].
Qed.

Lemma check_rest_no_panic fuel pattern : (String.length pattern <= fuel)%nat -> ~ panics (check_rest fuel pattern).
Proof.
  revert pattern; induction fuel as [|fuel IH]; intros [|c p] Hf; cbn in Hf; try lia; [apply Ok_no_panic..|].
  cbn [check_rest]. destruct (scanChunk _) as [[star chunk] rest] eqn:E. apply scanChunk_spec in E as [Hl _]; [|done].
  apply bind_no_panic; [apply matchChunk_no_panic|]. intros _ _. apply IH. cbn in Hl. lia.
Qed.

Lemma filepath_Match_valid pattern name : ounit (filepath_Match pattern name) = valid_pattern pattern.
Proof. by apply ounit_match_loop. Qed.

Lemma valid_pattern_no_panic pattern : ~ panics (valid_pattern pattern).
Proof. by apply check_rest_no_panic. Qed.

Lemma filepath_Match_Ok pattern name : valid_pattern pattern = Ok tt -> exists b, filepath_Match pattern name = Ok b.
Proof. rewrite <- (filepath_Match_valid pattern name). destruct (filepath_Match pattern name); [by eexists|done..]. Qed.

Lemma filepath_Match_star name : filepath_Match "*" name = Ok (negb (has_slash name)).
Proof. done. Qed.

(** * Splitting and joining paths *)

Lemma split_on_not_nil sep s : split_on sep s <> [].
Proof. destruct s as [|c s]; [done|]. cbn. case_if; [done|]. by destruct (split_on sep s). Qed.

Lemma split_on_app sep a b : split_on sep (a +:+ String.String sep b) = split_on sep a ++ split_on sep b.
Proof.
  induction a as [|c a IH].
  - change (split_on sep (String.String sep b) = "" :: split_on sep b). cbn [split_on]. by rewrite Ascii.eqb_refl.
  - change (split_on sep (String.String c (a +:+ String.String sep b)) = split_on sep (String.String c a) ++ split_on sep b).
    cbn [split_on]. rewrite IH. case_if; [done|]. pose proof (split_on_not_nil sep a). by destruct (split_on sep a).
Qed.

Lemma split_on_no_slash s : Forall (fun w => has_slash w = false) (split_on slash s).
Proof.
  induction s as [|c s IH]; [by repeat constructor|]. cbn [split_on]. destruct (Ascii.eqb c slash) eqn:E; [by constructor|].
  destruct (split_on slash s) as [|w ws]; constructor; cbn; rewrite ?E; cbn; try done; by inversion IH.
Qed.

(** * Cleaned paths

    A cleaned path is rendered from its components; cleaning a rendered path and
    splitting it gives the components back. *)

Definition render (root : bool) (l : list string) : string :=
  if root then "/" +:+ strings_Join "/" l else match l with [] => "." | _ => strings_Join "/" l end.
Definition clean_fold (root : bool) (comps out : list string) : list string := fold_left (clean_step root) comps out.

Lemma path_Clean_render p : path_Clean p = render (rooted p) (rev (clean_fold (rooted p) (split_on slash p) [])).
Proof. done. Qed.

(** A component that [Clean] keeps. *)
Definition good_comp (c : string) : Prop := c <> "" /\ c <> "." /\ c <> ".." /\ has_slash c = false.

#[export] Instance good_comp_dec c : Decision (good_comp c).
Proof. unfold good_comp. apply _. Defined.

Lemma clean_step_good root out c : good_comp c -> clean_step root out c = c :: out.
Proof.
  intros (H1 & H2 & H3 & _). unfold clean_step. by rewrite !(proj2 (String.eqb_neq _ _)) by done.
Qed.

Lemma clean_fold_good root comps out : Forall good_comp comps -> clean_fold root comps out = rev comps ++ out.
Proof.
  intros Hg. revert out; induction Hg as [|c comps Hc _ IH]; intros out; [done|]. change (clean_fold root (c :: comps) out) with (clean_fold root comps (clean_step root out c)).
  rewrite clean_step_good, IH by done. cbn [rev]. by rewrite <- app_assoc.
Qed.

Lemma clean_fold_app root a b out : clean_fold root (a ++ b) out = clean_fold root b (clean_fold root a out).
Proof. apply fold_left_app. Qed.

(** The stacks that cleaning produces, the last component first. *)
Fixpoint clean_stack (root : bool) (out : list string) : Prop :=
  match out with
  | [] => True
  | c :: rest => clean_stack root rest /\ (good_comp c \/ c = ".." /\ root = false /\ Forall (eq "..") rest)
  end.

Lemma clean_step_stack root out c : has_slash c = false -> clean_stack root out -> clean_stack root (clean_step root out c).
Proof.
  intros Hc Hs. unfold clean_step. destruct (String.eqb_spec c ""); [done|]. destruct (String.eqb_spec c "."); [done|]. cbn [orb].
  destruct (String.eqb_spec c "..") as [->|].
  - destruct out as [|top rest]; [destruct root; cbn; auto 6|]. destruct Hs as [Hr Ht]. destruct (String.eqb_spec top "..") as [->|]; [|done].
    destruct Ht as [(_ & _ & ? & _)|(_ & -> & Ht)]; [done|]. cbn. auto 8.
  - cbn. split; [done|]. by left.
Qed.

Lemma clean_fold_stack root comps out :
  Forall (fun c => has_slash c = false) comps -> clean_stack root out -> clean_stack root (clean_fold root comps out).
Proof. intros Hc. revert out; induction Hc as [|c comps Hc _ IH]; intros out Hs; [done|]. by apply IH, clean_step_stack. Qed.

Lemma clean_fold_rev root out : clean_stack root out -> clean_fold root (rev out) [] = out.
Proof.
  induction out as [|c rest IH]; [done|]. intros [Hr Hc]. cbn [rev]. rewrite clean_fold_app, IH by done. cbn.
  destruct Hc as [Hc|(-> & -> & Hrest)]; [by apply clean_step_good|]. unfold clean_step. cbn. destruct Hrest as [|? rest' <-]; done.
Qed.

Lemma clean_stack_comps root out : clean_stack root out -> Forall (fun c => has_slash c = false /\ c <> "") (rev out).
Proof.
  intros Hs. apply Forall_rev. induction out as [|c rest IH]; [constructor|]. destruct Hs as [Hr Hc]. constructor; [|by apply IH].
  by destruct Hc as [(? & _ & _ & ?)|(-> & _)].
Qed.

Lemma split_on_single w : has_slash w = false -> split_on slash w = [w].
Proof. induction w as [|c w IH]; [done|]. cbn. intros [-> Hw]%orb_false_iff. by rewrite IH. Qed.

Lemma strings_Join_cons s s' l : strings_Join "/" (s :: s' :: l) = s +:+ String.String slash (strings_Join "/" (s' :: l)).
Proof. done. Qed.

Lemma split_on_Join l : l <> [] -> split_on slash (strings_Join "/" l) = concat (split_on slash <$> l).
Proof.
  induction l as [|s l IH]; [done|]. intros _. destruct l as [|s' l]; [cbn; by rewrite app_nil_r|].
  rewrite strings_Join_cons, split_on_app, IH by done. done.
Qed.

Lemma split_on_Join_comps l : l <> [] -> Forall (fun c => has_slash c = false) l -> split_on slash (strings_Join "/" l) = l.
Proof.
  intros Hne Hl. rewrite split_on_Join by done. clear Hne. induction Hl as [|c l Hc _ IH]; [done|].
  rewrite fmap_cons. cbn [concat]. by rewrite IH, split_on_single.
Qed.

Lemma rooted_app a b : a <> "" -> rooted (a +:+ b) = rooted a.
Proof. by destruct a. Qed.

Lemma rooted_slashfree c : has_slash c = false -> rooted c = false.
Proof. destruct c as [|x c]; [done|]. cbn. by intros [? _]%orb_false_iff. Qed.

Lemma rooted_Join l : Forall (fun c => c <> "") l -> rooted (strings_Join "/" l) = match l with [] => false | c :: _ => rooted c end.
Proof. destruct l as [|c [|c' l]]; [done..|]. intros [? _]%Forall_cons. rewrite strings_Join_cons. by apply rooted_app. Qed.

Lemma render_clean root out :
  clean_stack root out ->
  render root (rev out) <> "" /\ rooted (render root (rev out)) = root /\ clean_fold root (split_on slash (render root (rev out))) [] = out.
Proof.
  intros Hs. pose proof (clean_fold_rev _ _ Hs) as Hf. pose proof (clean_stack_comps _ _ Hs) as Hc.
  apply Forall_and in Hc as [Hns Hne]. destruct root; unfold render.
  - split_and!; [done|done|]. change ("/" +:+ strings_Join "/" (rev out)) with ("" +:+ String.String slash (strings_Join "/" (rev out))).
    rewrite split_on_app, clean_fold_app. change (clean_fold true (split_on slash "") []) with (@nil string).
    destruct (rev out) as [|c l] eqn:E; [by rewrite <- Hf|]. by rewrite split_on_Join_comps.
  - destruct (rev out) as [|c l] eqn:E; [by rewrite <- Hf|]. rewrite split_on_Join_comps by done. split_and!; [|by rewrite rooted_Join; [apply Forall_cons in Hns as [? _]; apply rooted_slashfree|]|done].
    apply Forall_cons in Hne as [Hc _]. destruct l; [done|]. rewrite strings_Join_cons. by destruct c.
Qed.

Lemma render_inj root l1 l2 :
  Forall (fun c => has_slash c = false) l1 -> Forall (fun c => has_slash c = false) l2 -> l1 <> [] -> l2 <> [] ->
  render root l1 = render root l2 -> l1 = l2.
Proof.
  intros H1 H2 N1 N2 E. rewrite <- (split_on_Join_comps l1), <- (split_on_Join_comps l2) by done.
  destruct root; unfold render in E; [apply (f_equal (drop_bytes 1)) in E; change (strings_Join "/" l1 = strings_Join "/" l2) in E; by rewrite E|]. destruct l1, l2; try done. by rewrite E.
Qed.

(** The stack of the components of a list of path elements. *)
Definition elems_root (elems : list string) : bool := match elems with [] => false | e :: _ => rooted e end.
Definition elems_stack (elems : list string) : list string :=
  clean_fold (elems_root elems) (concat (split_on slash <$> elems)) [].

Lemma path_Join_render elems :
  Forall (fun e => e <> "") elems -> elems <> [] -> path_Join elems = render (elems_root elems) (rev (elems_stack elems)).
Proof.
  intros He Hne. unfold path_Join. rewrite filter_all by done. destruct elems as [|e elems]; [done|].
  rewrite path_Clean_render, split_on_Join, rooted_Join by done. done.
Qed.

Lemma elems_stack_clean elems : clean_stack (elems_root elems) (elems_stack elems).
Proof.
  apply clean_fold_stack; [|done]. induction elems as [|e elems IH]; [constructor|]. rewrite fmap_cons. cbn [concat].
  apply Forall_app. split; [apply split_on_no_slash|done].
Qed.

Lemma path_Join_empty elems : path_Join ("" :: elems) = path_Join elems.
Proof. unfold path_Join. by rewrite filter_cons, decide_False by (intros []; done). Qed.
