(* ===== verification/Restic.v ===== *)
(** Package [restic]: repository IDs, blobs and the sets of them
    (src/restic/id.go, ids.go, blob.go, idset.go, blob_set.go,
    counted_blob_set.go). *)

From S2P Require Import Prelude Bytes.
From stdpp Require Export pretty sorting.

#[local] Open Scope Z_scope.

(** * IDs *)

(** [idSize = sha256.Size] *)
Definition idSize : nat := 32.

(** [type ID [idSize]byte]: the length is part of the type. *)
Record ID := mkID { id_bytes : list byte; id_wf : Nat.eqb (length id_bytes) idSize = true }.

Lemma length_id_bytes id : length (id_bytes id) = 32%nat.
Proof. apply Nat.eqb_eq, (id_wf id). Qed.

#[export] Hint Rewrite length_id_bytes : rapi_rw.

Lemma ID_eq a b : id_bytes a = id_bytes b -> a = b.
Proof.
  destruct a as [l p], b as [l' p']; cbn; intros ->. f_equal.
  apply Eqdep_dec.UIP_dec. apply Bool.bool_dec.
Qed.

#[export] Instance ID_eq_dec : EqDecision ID.
Proof.
  intros a b. destruct (decide (id_bytes a = id_bytes b)) as [H|H];
    [left; by apply ID_eq | right; congruence].
Defined.

(** A proof of [b = true] that reduces to [eq_refl] when [b] does. *)
Definition norm_true {b : bool} : b = true -> b = true :=
  match b with true => fun _ => eq_refl | false => fun p => p end.

Lemma copy_id_wf (l : list byte) :
  Nat.eqb (length (take idSize (l ++ replicate idSize "000"%byte))) idSize = true.
Proof. apply Nat.eqb_eq. rewrite length_take, length_app, length_replicate. lia. Qed.

(** [var id ID; copy(id[:], b)]: the first 32 bytes of [b], padded with zeros. *)
Definition copy_id (l : list byte) : ID :=
  mkID (take idSize (l ++ replicate idSize "000"%byte)) (norm_true (copy_id_wf l)).

Lemma copy_id_bytes id : copy_id (id_bytes id) = id.
Proof.
  apply ID_eq. cbn. rewrite take_app_le by (rewrite length_id_bytes; done).
  apply take_ge. by rewrite length_id_bytes.
Qed.

Lemma copy_id_app id rest : copy_id (id_bytes id ++ rest) = id.
Proof.
  apply ID_eq. cbn. rewrite <- app_assoc, take_app_le by (rewrite length_id_bytes; done).
  apply take_ge. by rewrite length_id_bytes.
Qed.

Lemma id_bytes_copy_id l : length l = 32%nat -> id_bytes (copy_id l) = l.
Proof. intros H. cbn. rewrite take_app_le by (rewrite H; done). apply take_ge. by rewrite H. Qed.

#[export] Instance ID_countable : Countable ID :=
  inj_countable' id_bytes copy_id copy_id_bytes.

#[export] Hint Rewrite copy_id_bytes copy_id_app : rapi_rw.

Definition nullID : ID := copy_id [].
#[export] Instance ID_inhabited : Inhabited ID := populate nullID.

(** [ID.IsNull], [ID.Equal]: array comparison. *)
Definition IsNull (id : ID) : bool := bool_decide (id = nullID).
Definition ID_Equal (id other : ID) : bool := bool_decide (id = other).

Definition ID_String (id : ID) : string := hex_encode (id_bytes id).

Definition shortStr : nat := 4.

(** [ID.Str]: the receiver is a pointer and may be nil. *)
Definition ID_Str (id : option ID) : string :=
  match id with
  | None => "[nil]"
  | Some id => if IsNull id then "[null]" else hex_encode (take shortStr (id_bytes id))
  end.

Definition ParseID (s : string) : outcome ID :=
  if negb (Nat.eqb (String.length s) (2 * idSize)) then
    Err (ErrMsg "invalid length for ID: %q")
  else
    match hex_decode s with
    | Ok b => Ok (copy_id b)
    | Err _ => Err (ErrMsg "invalid ID: %s")
    | Panic p => Panic p
    end.

Definition dquote : Ascii.ascii := Ascii.ascii_of_nat 34.

(** [ID.MarshalJSON] builds a quoted string in a buffer of [2+2*32] bytes. *)
Definition ID_MarshalJSON (id : ID) : string :=
  String dquote (hex_encode (id_bytes id) +:+ String dquote "").

Definition ID_UnmarshalJSON (b : string) : outcome ID :=
  if negb (Nat.eqb (String.length b) (2 + 2 * idSize)) then
    Err (ErrMsg "invalid length for ID: %q")
  else
    match b with
    | String c rest =>
        if negb (Ascii.eqb c dquote) then Err (ErrMsg "invalid start of string: %q")
        else
          match hex_decode (String.substring 0 (String.length rest - 1) rest) with
          | Ok bs => Ok (copy_id bs)
          | Err _ => Err (ErrMsg "invalid ID: %s")
          | Panic p => Panic p
          end
    | EmptyString => Panic "index out of range"
    end.

Definition IDFromHash (hash : list byte) : outcome ID :=
  if negb (Nat.eqb (length hash) idSize) then
    Panic "invalid hash type, not enough/too many bytes"
  else Ok (copy_id hash).

(** Lexicographic order on byte strings (Go's [<] on strings). *)
Fixpoint bytes_ltb (a b : list byte) : bool :=
  match a, b with
  | _, [] => false
  | [], _ :: _ => true
  | x :: a, y :: b =>
      if Z_of_byte x =? Z_of_byte y then bytes_ltb a b else Z_of_byte x <? Z_of_byte y
  end.

(** [IDs.Less] on two elements. *)
Definition ID_Less (a b : ID) : bool := bytes_ltb (id_bytes a) (id_bytes b).

(** [IDs.String] *)
Definition IDs_String (ids : list ID) : string :=
  "[" +:+ String.concat " " ((fun id => hex_encode (take shortStr (id_bytes id))) <$> ids) +:+ "]".

(** * Blobs *)

(** [type BlobType uint8] and its constants. *)
Definition BlobType := Z.
Definition InvalidBlob : BlobType := 0.
Definition DataBlob : BlobType := 1.
Definition TreeBlob : BlobType := 2.
Definition NumBlobTypes : nat := 3.

Definition BlobType_String (t : BlobType) : string :=
  if t =? DataBlob then "data"
  else if t =? TreeBlob then "tree"
  else if t =? InvalidBlob then "invalid"
  else "<BlobType " +:+ pretty t +:+ ">".

Definition IsMetadata (t : BlobType) : bool := t =? TreeBlob.

Definition json_quote (s : string) : string := String dquote (s +:+ String dquote "").

Definition BlobType_MarshalJSON (t : BlobType) : outcome string :=
  if t =? DataBlob then Ok (json_quote "data")
  else if t =? TreeBlob then Ok (json_quote "tree")
  else Err (ErrMsg "unknown blob type").

Definition BlobType_UnmarshalJSON (buf : string) : outcome BlobType :=
  if String.eqb buf (json_quote "data") then Ok DataBlob
  else if String.eqb buf (json_quote "tree") then Ok TreeBlob
  else Err (ErrMsg "unknown blob type").

Record BlobHandle := mkBlobHandle { bh_ID : ID; bh_Type : BlobType }.

#[export] Instance BlobHandle_eq_dec : EqDecision BlobHandle.
Proof. solve_decision. Defined.
#[export] Instance BlobHandle_countable : Countable BlobHandle :=
  inj_countable' (fun h => (bh_ID h, bh_Type h)) (fun p => mkBlobHandle p.1 p.2)
    ltac:(by intros []).

Definition BlobHandle_String (h : BlobHandle) : string :=
  "<" +:+ BlobType_String (bh_Type h) +:+ "/" +:+ ID_Str (Some (bh_ID h)) +:+ ">".

(** [BlobHandles.Less] on two elements: by ID bytes, then by type. *)
Fixpoint handle_less_bytes (a b : list byte) (ta tb : BlobType) : bool :=
  match a, b with
  | x :: a, y :: b =>
      if Z_of_byte x =? Z_of_byte y then handle_less_bytes a b ta tb
      else Z_of_byte x <? Z_of_byte y
  | _, _ => ta <? tb
  end.

Definition BlobHandle_Less (a b : BlobHandle) : bool :=
  handle_less_bytes (id_bytes (bh_ID a)) (id_bytes (bh_ID b)) (bh_Type a) (bh_Type b).

(** [Blob] embeds its handle; lengths and offsets are [uint]. *)
Record Blob := mkBlob {
  b_handle : BlobHandle;
  b_Length : Z;
  b_Offset : Z;
  b_UncompressedLength : Z }.

#[export] Instance Blob_eq_dec : EqDecision Blob.
Proof. solve_decision. Defined.

Definition b_ID (b : Blob) : ID := bh_ID (b_handle b).
Definition b_Type (b : Blob) : BlobType := bh_Type (b_handle b).

(** [crypto.Extension]: 16 bytes of IV and 16 bytes of MAC. *)
Definition ivSize : Z := 16.
Definition macSize : Z := 16.
Definition Extension : Z := ivSize + macSize.

(** src/crypto/buffer.go *)
Definition PlaintextLength (ciphertextSize : Z) : Z := i64 (ciphertextSize - Extension).
Definition CiphertextLength (plaintextSize : Z) : Z := i64 (plaintextSize + Extension).

Definition IsCompressed (b : Blob) : bool := negb (b_UncompressedLength b =? 0).

(** [uint(crypto.PlaintextLength(int(b.Length)))]: wraps for a length below the
    overhead. *)
Definition DataLength (b : Blob) : Z :=
  if negb (b_UncompressedLength b =? 0) then b_UncompressedLength b
  else u64 (PlaintextLength (i64 (b_Length b))).

Record PackedBlob := mkPackedBlob { pb_Blob : Blob; pb_PackID : ID }.

#[export] Instance PackedBlob_eq_dec : EqDecision PackedBlob.
Proof. solve_decision. Defined.

Record PackBlobs := mkPackBlobs { pbs_PackID : ID; pbs_Blobs : list Blob }.

(** * Properties of IDs and blob types *)

Lemma String_length_quote (s : string) c :
  String.length (s +:+ String c "") = S (String.length s).
Proof.
  induction s as [|a s IH]; [done|].
  change (S (String.length (s +:+ String c "")) = S (S (String.length s))). by rewrite IH.
Qed.

Lemma substring_prefix (s t : string) : String.substring 0 (String.length s) (s +:+ t) = s.
Proof.
  induction s as [|a s IH]; [by destruct t|].
  change (String a (String.substring 0 (String.length s) (s +:+ t)) = String a s). by rewrite IH.
Qed.

Lemma ParseID_String_ok id : ParseID (ID_String id) = Ok id.
Proof.
  unfold ParseID, ID_String. rewrite length_hex_encode, length_id_bytes. cbn.
  by rewrite hex_decode_encode, copy_id_bytes.
Qed.

Lemma ID_JSON_ok id : ID_UnmarshalJSON (ID_MarshalJSON id) = Ok id.
Proof.
  unfold ID_UnmarshalJSON, ID_MarshalJSON. cbn [String.length].
  rewrite String_length_quote, length_hex_encode, length_id_bytes. change 64%nat with (2 * 32)%nat.
  change (Ascii.eqb dquote dquote) with true. cbn [negb Nat.eqb Nat.mul Nat.add Nat.sub idSize].
  replace 64%nat with (String.length (hex_encode (id_bytes id)))
    by by rewrite length_hex_encode, length_id_bytes.
  rewrite substring_prefix.
  by rewrite hex_decode_encode, copy_id_bytes.
Qed.

#[export] Instance ID_String_inj : Inj eq eq ID_String.
Proof.
  intros a b H. assert (Ok a = Ok b) as [= ->]; [|done].
  by rewrite <- !ParseID_String_ok, H.
Qed.

Lemma ID_Equal_spec a b : ID_Equal a b = true <-> a = b.
Proof. apply bool_decide_eq_true. Qed.

(** The byte order is a strict total order. *)
Lemma bytes_ltb_irrefl a : bytes_ltb a a = false.
Proof. induction a; cbn; [done|]. by rewrite Z.eqb_refl. Qed.

Lemma bytes_ltb_trans a b c : bytes_ltb a b = true -> bytes_ltb b c = true -> bytes_ltb a c = true.
Proof.
  revert b c; induction a as [|x a IH]; intros [|y b] [|z c]; cbn; try done.
  repeat case_if; bool_to_prop; intros; bool_to_prop; try lia; eauto.
Qed.

Lemma bytes_ltb_total a b : bytes_ltb a b = true \/ a = b \/ bytes_ltb b a = true.
Proof.
  revert b; induction a as [|x a IH]; intros [|y b]; cbn; auto.
  destruct (Z.eqb_spec (Z_of_byte x) (Z_of_byte y)) as [He|Hne].
  - apply (inj Z_of_byte) in He as <-. rewrite Z.eqb_refl.
    destruct (IH b) as [?|[->|?]]; auto.
  - rewrite (proj2 (Z.eqb_neq _ _) (not_eq_sym Hne)).
    destruct (Z.ltb_spec (Z_of_byte x) (Z_of_byte y)); [by left|].
    right; right. apply Z.ltb_lt. lia.
Qed.

Lemma handle_less_bytes_spec a b ta tb :
  length a = length b ->
  handle_less_bytes a b ta tb = bytes_ltb a b || (bool_decide (a = b) && (ta <? tb)).
Proof.
  revert b; induction a as [|x a IH]; intros [|y b]; cbn; intros H; try done.
  destruct (Z.eqb_spec (Z_of_byte x) (Z_of_byte y)) as [He|Hne].
  - apply (inj Z_of_byte) in He as <-. rewrite IH by lia.
    do 2 f_equal. apply bool_decide_ext. split; [by intros ->|by intros [= ->]].
  - rewrite bool_decide_eq_false_2 by congruence. by rewrite orb_false_r.
Qed.

(** A boolean test is a strict total order. *)
Class StrictTotal {A} (ltb : A -> A -> bool) : Prop := {
  st_irrefl x : ltb x x = false;
  st_trans x y z : ltb x y = true -> ltb y z = true -> ltb x z = true;
  st_total x y : ltb x y = true \/ x = y \/ ltb y x = true }.

#[export] Instance ID_Less_order : StrictTotal ID_Less.
Proof.
  unfold ID_Less. split; intros.
  - apply bytes_ltb_irrefl.
  - eapply bytes_ltb_trans; eauto.
  - destruct (bytes_ltb_total (id_bytes x) (id_bytes y)) as [?|[?|?]]; auto using ID_eq.
Qed.

#[export] Instance BlobHandle_Less_order : StrictTotal BlobHandle_Less.
Proof.
  assert (forall a b, BlobHandle_Less a b = true <->
    ID_Less (bh_ID a) (bh_ID b) = true \/ (bh_ID a = bh_ID b /\ bh_Type a < bh_Type b)) as Hs.
  { intros a b. unfold BlobHandle_Less. rewrite handle_less_bytes_spec by by rewrite !length_id_bytes.
    unfold ID_Less. rewrite orb_true_iff, andb_true_iff, bool_decide_eq_true, Z.ltb_lt.
    split; intros [?|[? ?]]; auto; right; split; auto using ID_eq; congruence. }
  split.
  - intros x. apply not_true_is_false. rewrite Hs, st_irrefl. intros [?|[? ?]]; [done|lia].
  - intros x y z. rewrite !Hs. intros [H1|[H1 ?]] [H2|[H2 ?]].
    + left; by eapply st_trans.
    + left; by rewrite <- H2.
    + left; by rewrite H1.
    + right; split; [congruence|lia].
  - intros x y. rewrite !Hs. destruct (st_total (bh_ID x) (bh_ID y)) as [?|[He|?]]; auto.
    destruct (Z.lt_trichotomy (bh_Type x) (bh_Type y)) as [?|[?|?]]; auto.
    right; left. destruct x, y; cbn in *; congruence.
Qed.

(** [sort.Sort] of a list without duplicates by a strict total order has one
    possible result: the sorted permutation.  It is computed by merge sort. *)
Section Sort.
Context {A : Type} (ltb : A -> A -> bool).
Definition le_of (x y : A) : Prop := ltb y x = false.
#[export] Instance le_of_dec x y : Decision (le_of x y) := decide (ltb y x = false).
Definition go_sort (l : list A) : list A := merge_sort le_of l.

Lemma go_sort_Permutation l : go_sort l ≡ₚ l.
Proof. apply merge_sort_Permutation. Qed.

Lemma go_sort_sorted `{!StrictTotal ltb} l :
  NoDup l -> StronglySorted (fun x y => ltb x y = true) (go_sort l).
Proof.
  intros Hnd.
  assert (Transitive le_of) as Ht.
  { intros x y z Hxy Hyz. unfold le_of in *. apply not_true_is_false. intros Hzx.
    destruct (st_total (ltb:=ltb) y z) as [?|[->|?]]; [|congruence|congruence].
    assert (ltb y x = true) by (by eapply st_trans). congruence. }
  assert (Total le_of) as Hto.
  { intros x y. unfold le_of. destruct (ltb y x) eqn:E; [|by left]. right.
    apply not_true_is_false. intros H. pose proof (st_trans _ _ _ E H).
    by rewrite st_irrefl in *. }
  assert (NoDup (go_sort l)) as Hnd' by by rewrite go_sort_Permutation.
  pose proof (StronglySorted_merge_sort le_of l) as Hs. fold (go_sort l) in Hs.
  induction Hs as [|x l' Hs IH Hall]; [constructor|].
  apply NoDup_cons in Hnd' as [Hx Hnd']. constructor; [by apply IH|].
  rewrite Forall_forall in Hall |- *. intros y Hy. specialize (Hall y Hy).
  destruct (st_total (ltb:=ltb) x y) as [?|[->|?]]; [done|done|].
  unfold le_of in Hall. congruence.
Qed.
End Sort.

(** * Round trips *)

(** The hexadecimal form of an ID has 64 digits and parses to the ID, and the
    JSON form decodes to it. *)
Theorem id_roundtrip (id : ID) :
  String.length (ID_String id) = 64%nat /\ ParseID (ID_String id) = Ok id /\
  ID_UnmarshalJSON (ID_MarshalJSON id) = Ok id.
Proof.
  split; [|by split; [apply ParseID_String_ok|apply ID_JSON_ok]].
  unfold ID_String. by rewrite length_hex_encode, length_id_bytes.
Qed.
