(* ===== verification/Sets.v ===== *)
(** The set types of package [restic]: [IDSet] (src/restic/idset.go), [BlobSet]
    (src/restic/blob_set.go) and [CountedBlobSet] (src/restic/counted_blob_set.go).

    A Go map [map[K]struct{}] is a [gset K]; an operation that mutates its
    receiver returns the new set.  Loops over a map visit its elements in some
    order: the model folds over [elements], and the lemmas show that the result
    does not depend on it. *)

From S2P Require Import Prelude Bytes Restic.

(** * The code shared by [IDSet] and [BlobSet] *)
Section KeySet.
Context {K : Type} `{Countable K}.
Implicit Types s other : gset K.

Definition set_New (l : list K) : gset K := fold_left (fun m k => {[k]} ∪ m) l ∅.
Definition set_Has s (k : K) : bool := bool_decide (k ∈ s).
Definition set_Insert s (k : K) : gset K := {[k]} ∪ s.
Definition set_Delete s (k : K) : gset K := s ∖ {[k]}.

Definition set_Equals s other : bool :=
  if negb (Nat.eqb (size s) (size other)) then false
  else forallb (fun k => set_Has other k) (elements s).

Definition set_Merge s other : gset K := fold_left set_Insert (elements other) s.

(** The loop [for k := range set1 { if keep(k) { result.Insert(k) } }]. *)
Definition set_collect (keep : K -> bool) (set1 : gset K) : gset K :=
  fold_left (fun result k => if keep k then set_Insert result k else result) (elements set1) ∅.

Definition set_Intersect s other : gset K :=
  let '(set1, set2) := if Nat.ltb (size other) (size s) then (other, s) else (s, other) in
  set_collect (set_Has set2) set1.

Definition set_Sub s other : gset K := set_collect (fun k => negb (set_Has other k)) s.

Lemma set_Has_spec s k : set_Has s k = true <-> k ∈ s.
Proof. apply bool_decide_eq_true. Qed.

Lemma set_New_spec l k : k ∈ set_New l <-> k ∈ l.
Proof.
  unfold set_New. assert (forall m : gset K, k ∈ fold_left (fun (m : gset K) k => {[k]} ∪ m) l m <-> k ∈ l \/ k ∈ m) as Hg.
  { induction l as [|x l IH]; intros m; cbn; [set_solver|]. rewrite IH. set_solver. }
  rewrite Hg. set_solver.
Qed.

Lemma set_Merge_spec s other : set_Merge s other = other ∪ s.
Proof.
  apply set_eq. intros k. unfold set_Merge.
  assert (forall l (m : gset K), k ∈ fold_left set_Insert l m <-> k ∈ l \/ k ∈ m) as Hg.
  { induction l as [|x l IH]; intros m; cbn; [set_solver|]. rewrite IH. unfold set_Insert. set_solver. }
  rewrite Hg. set_solver.
Qed.

Lemma set_collect_spec keep set1 k :
  k ∈ set_collect keep set1 <-> k ∈ set1 /\ keep k = true.
Proof.
  unfold set_collect.
  assert (forall l (m : gset K), k ∈ fold_left (fun r k => if keep k then set_Insert r k else r) l m <->
    (k ∈ l /\ keep k = true) \/ k ∈ m) as Hg.
  { induction l as [|x l IH]; intros m; cbn; [set_solver|]. rewrite IH, elem_of_cons.
    destruct (keep x) eqn:E; unfold set_Insert;
      rewrite ?elem_of_union, ?elem_of_singleton; [intuition congruence|].
    split; [tauto|]. intros [[[->|?] ?]|?]; [congruence|tauto|tauto]. }
  rewrite Hg, elem_of_elements, elem_of_empty. tauto.
Qed.

Lemma set_Intersect_spec s other : set_Intersect s other = s ∩ other.
Proof.
  apply set_eq. intros k. unfold set_Intersect.
  destruct (Nat.ltb _ _); rewrite set_collect_spec, set_Has_spec; set_solver.
Qed.

Lemma set_Sub_spec s other : set_Sub s other = s ∖ other.
Proof.
  apply set_eq. intros k. unfold set_Sub.
  rewrite set_collect_spec, negb_true_iff, <- not_true_iff_false, set_Has_spec. set_solver.
Qed.

(** Equal sizes and one inclusion are enough. *)
Lemma set_Equals_spec s other : set_Equals s other = true <-> s = other.
Proof.
  unfold set_Equals. destruct (Nat.eqb_spec (size s) (size other)) as [Hs|Hs]; cbn.
  - rewrite forallb_forall. split.
    + intros Hall. apply set_eq_subseteq. cut (s ⊆ other).
      * intros Hsub. split; [done|]. apply set_subseteq_size_eq in Hsub; [set_solver|lia].
      * intros k Hk. apply set_Has_spec, Hall. by apply list_elem_of_In, elem_of_elements.
    + intros -> k Hk. apply set_Has_spec. by apply elem_of_elements, list_elem_of_In.
  - split; [done|]. by intros ->.
Qed.
End KeySet.

#[export] Hint Rewrite @set_Merge_spec @set_Intersect_spec @set_Sub_spec : rapi_rw.

(** * [IDSet] *)
Definition NewIDSet (ids : list ID) : gset ID := set_New ids.
Definition IDSet_Has (s : gset ID) (id : ID) : bool := set_Has s id.
Definition IDSet_Insert (s : gset ID) (id : ID) : gset ID := set_Insert s id.
Definition IDSet_Delete (s : gset ID) (id : ID) : gset ID := set_Delete s id.
Definition IDSet_List (s : gset ID) : list ID := go_sort ID_Less (elements s).
Definition IDSet_Equals (s other : gset ID) : bool := set_Equals s other.
Definition IDSet_Merge (s other : gset ID) : gset ID := set_Merge s other.
Definition IDSet_Intersect (s other : gset ID) : gset ID := set_Intersect s other.
Definition IDSet_Sub (s other : gset ID) : gset ID := set_Sub s other.

(** [str[1 : len(str)-1]] *)
Definition strip_ends (str : string) : string := String.substring 1 (String.length str - 2) str.
Definition IDSet_String (s : gset ID) : string :=
  "{" +:+ strip_ends (IDs_String (IDSet_List s)) +:+ "}".

(** * [BlobSet] *)
Definition NewBlobSet (handles : list BlobHandle) : gset BlobHandle := set_New handles.
Definition BlobSet_Has (s : gset BlobHandle) (h : BlobHandle) : bool := set_Has s h.
Definition BlobSet_Insert (s : gset BlobHandle) (h : BlobHandle) := set_Insert s h.
Definition BlobSet_Delete (s : gset BlobHandle) (h : BlobHandle) := set_Delete s h.
Definition BlobSet_Len (s : gset BlobHandle) : nat := size s.
Definition BlobSet_Equals (s other : gset BlobHandle) : bool := set_Equals s other.
Definition BlobSet_Merge (s other : gset BlobHandle) := set_Merge s other.
Definition BlobSet_Intersect (s other : gset BlobHandle) := set_Intersect s other.
Definition BlobSet_Sub (s other : gset BlobHandle) := set_Sub s other.
Definition BlobSet_List (s : gset BlobHandle) : list BlobHandle :=
  go_sort BlobHandle_Less (elements s).

(** [BlobSet.String] visits the elements in the order [ks] the runtime picks;
    [total] is [len(s)]. *)
Definition maxelems : nat := 10.
Fixpoint BlobSet_String_loop (ks : list BlobHandle) (n : nat) (total : nat) : string :=
  match ks with
  | [] => ""
  | k :: ks =>
      (if Nat.eqb n 0 then "" else " ") +:+ BlobHandle_String k +:+
      let n := S n in
      if Nat.eqb n maxelems
      then " (" +:+ pretty (Z.of_nat total - Z.of_nat n - 1)%Z +:+ " more)"
      else BlobSet_String_loop ks n total
  end.
Definition BlobSet_String (ks : list BlobHandle) : string :=
  "{" +:+ BlobSet_String_loop ks 0 (length ks) +:+ "}".

(** * [CountedBlobSet]: a map to a [uint8] *)
Definition NewCountedBlobSet (handles : list BlobHandle) : gmap BlobHandle Z :=
  fold_left (fun m h => <[h := 0%Z]> m) handles ∅.
Definition Counted_Has (s : gmap BlobHandle Z) (h : BlobHandle) : bool := bool_decide (is_Some (s !! h)).
Definition Counted_Insert (s : gmap BlobHandle Z) (h : BlobHandle) : gmap BlobHandle Z := <[h := 0%Z]> s.
Definition Counted_Delete (s : gmap BlobHandle Z) (h : BlobHandle) : gmap BlobHandle Z := delete h s.
Definition Counted_Len (s : gmap BlobHandle Z) : nat := size s.
Definition Counted_List (s : gmap BlobHandle Z) : list BlobHandle :=
  go_sort BlobHandle_Less (map_to_list s).*1.
Definition Counted_Copy (s : gmap BlobHandle Z) : gmap BlobHandle Z :=
  fold_left (fun cp kv => <[kv.1 := kv.2]> cp) (map_to_list s) ∅.

Lemma Counted_Copy_spec s : Counted_Copy s = s.
Proof.
  unfold Counted_Copy. apply map_eq. intros k.
  assert (forall l (m : gmap BlobHandle Z), NoDup l.*1 ->
    fold_left (fun (cp : gmap BlobHandle Z) (kv : BlobHandle * Z) => <[kv.1 := kv.2]> cp) l m !! k =
    match (list_to_map l : gmap BlobHandle Z) !! k with Some v => Some v | None => m !! k end) as Hg.
  { induction l as [|[k' v] l IH]; intros m Hnd; [done|].
    apply NoDup_cons in Hnd as [Hn Hnd]. cbn [fold_left fst snd]. rewrite IH by done.
    cbn. destruct (decide (k' = k)) as [->|Hne].
    - rewrite lookup_insert_eq, (not_elem_of_list_to_map_1 l k) by done. by rewrite lookup_insert_eq.
    - by rewrite !lookup_insert_ne. }
  rewrite Hg by apply NoDup_fst_map_to_list. rewrite list_to_map_to_list.
  destruct (s !! k); [done|]. apply lookup_empty.
Qed.

(** [List] returns the keys in strictly increasing order, each once. *)
Lemma IDSet_List_spec s :
  IDSet_List s ≡ₚ elements s /\ StronglySorted (fun a b => ID_Less a b = true) (IDSet_List s).
Proof.
  split; [apply go_sort_Permutation|]. apply go_sort_sorted; [apply _|apply NoDup_elements].
Qed.

Lemma BlobSet_List_spec s :
  BlobSet_List s ≡ₚ elements s /\
  StronglySorted (fun a b => BlobHandle_Less a b = true) (BlobSet_List s).
Proof.
  split; [apply go_sort_Permutation|]. apply go_sort_sorted; [apply _|apply NoDup_elements].
Qed.

(** * The sets

    What the operations of [IDSet] and [BlobSet] compute. *)

(** The operations on sets of IDs and of blob handles are those of finite
    sets: the loops of [Intersect] (over the smaller set) and [Sub], [Equals]
    with its test on the sizes, [Merge] and the constructors; [List] yields
    every element once, in strictly increasing order. *)
Theorem sets_are_finite_sets (s t : gset ID) (bs bt : gset BlobHandle) :
  IDSet_Merge s t = t ∪ s /\ IDSet_Intersect s t = s ∩ t /\ IDSet_Sub s t = s ∖ t /\
  (IDSet_Equals s t = true <-> s = t) /\
  IDSet_List s ≡ₚ elements s /\ StronglySorted (fun a b => ID_Less a b = true) (IDSet_List s) /\
  BlobSet_Merge bs bt = bt ∪ bs /\ BlobSet_Intersect bs bt = bs ∩ bt /\ BlobSet_Sub bs bt = bs ∖ bt /\
  (BlobSet_Equals bs bt = true <-> bs = bt) /\
  BlobSet_List bs ≡ₚ elements bs /\ StronglySorted (fun a b => BlobHandle_Less a b = true) (BlobSet_List bs) /\
  (forall l id, id ∈ NewIDSet l <-> id ∈ l) /\ (forall l h, h ∈ NewBlobSet l <-> h ∈ l).
Proof.
  destruct (IDSet_List_spec s) as [H1 H2]. destruct (BlobSet_List_spec bs) as [H3 H4].
  split_and!; try done; solve [apply set_Merge_spec|apply set_Intersect_spec|apply set_Sub_spec
    |apply set_Equals_spec|apply set_New_spec].
Qed.

Lemma BlobSet_String_loop_cons k ks n total :
  BlobSet_String_loop (k :: ks) n total =
    (if Nat.eqb n 0 then "" else " ") +:+ BlobHandle_String k +:+
    if Nat.eqb (S n) maxelems then " (" +:+ pretty (Z.of_nat total - Z.of_nat (S n) - 1)%Z +:+ " more)"
    else BlobSet_String_loop ks (S n) total.
Proof. done. Qed.

Lemma BlobSet_String_long ks k n total :
  (n < maxelems <= n + length (k :: ks))%nat ->
  exists s, BlobSet_String_loop (k :: ks) n total = s +:+ " (" +:+ pretty (Z.of_nat total - 10 - 1)%Z +:+ " more)".
Proof.
  revert k n; induction ks as [|k' ks IH]; intros k n Hn; rewrite BlobSet_String_loop_cons;
    destruct (Nat.eqb_spec (S n) maxelems) as [E|E];
    try (rewrite E; eexists; rewrite <- string_app_assoc; reflexivity).
  - cbn [length] in Hn. lia.
  - destruct (IH k' (S n)) as [s Hs]; [cbn [length] in *; lia|].
    rewrite Hs. eexists. rewrite <- !string_app_assoc. reflexivity.
Qed.

(** [BlobSet.String] of a set of ten or more handles lists ten and announces
    [len - 11] more, one less than are left out (and "-1 more" when none is). *)
Theorem blobset_string_off_by_one (ks : list BlobHandle) (Hks : (10 <= length ks)%nat) :
  exists s, BlobSet_String ks = "{" +:+ s +:+ " (" +:+ pretty (zlen ks - 10 - 1)%Z +:+ " more)" +:+ "}".
Proof.
  destruct ks as [|k ks]; [cbn in Hks; lia|].
  destruct (BlobSet_String_long ks k 0 (length (k :: ks))) as [s Hs]; [unfold maxelems; cbn [length] in *; lia|].
  exists s. unfold BlobSet_String. rewrite Hs. unfold zlen. by rewrite !string_app_assoc.
Qed.

Lemma blobset_string_off_by_one_witness :
  exists s, BlobSet_String (replicate 10 (mkBlobHandle nullID DataBlob)) = "{" +:+ s +:+ " (-1 more)}".
Proof.
  destruct (blobset_string_off_by_one (replicate 10 (mkBlobHandle nullID DataBlob))) as [s Hs]; [cbn; lia|].
  exists s. exact Hs.
Defined.
