(* ===== verification/HashedArrayTree.v ===== *)
(** The growable array of the index (src/internal/index/indexmap.go,
    [hashedArrayTree]), and the proof that it implements a list.

    Positions and sizes are [uint]s that index memory held by the process:
    they are natural numbers here, with the code's shift and mask operations. *)

From S2P Require Import Prelude.

Section HAT.
Context {E : Type} (zero : E).

Record hashedArrayTree := mkHAT {
  mask : nat;
  maskShift : nat;
  blockSize : nat;
  size : nat;
  blockList : list (list E) }.

(** [make([][]indexEntry, n)]: [n] nil slices. *)
Definition nil_blocks (n : nat) : list (list E) := replicate n [].

Definition newHAT : hashedArrayTree :=
  let blockSizePower := 2 in
  let blockSize := Nat.shiftl 1 blockSizePower in
  mkHAT (blockSize - 1) blockSizePower blockSize 0 (nil_blocks blockSize).

Definition index (h : hashedArrayTree) (pos : nat) : nat * nat :=
  let subIdx := Nat.land pos (mask h) in
  let idx := Nat.shiftr pos (maskShift h) in
  (idx, subIdx).

(** [block = append(append(block, old[i]...), old[i+1]...)] for even [i]. *)
Fixpoint merge_pairs (oldBlocks : list (list E)) : outcome (list (list E)) :=
  match oldBlocks with
  | [] => Ok []
  | [_] => Panic "index out of range"
  | a :: b :: rest => try bs <- merge_pairs rest; Ok ((a ++ b) :: bs)
  end.

Definition grow (h : hashedArrayTree) : outcome hashedArrayTree :=
  let '(idx, subIdx) := index h (size h) in
  try (h, idx) <-
    (if Nat.eqb idx (length (blockList h)) then
       let blockSize := blockSize h * 2 in
       let mask := mask h * 2 + 1 in
       let maskShift := maskShift h + 1 in
       let idx := idx / 2 in
       try merged <- merge_pairs (blockList h);
       Ok (mkHAT mask maskShift blockSize (size h)
             (merged ++ nil_blocks (blockSize - length merged)), idx)
     else Ok (h, idx));
  if Nat.eqb subIdx 0 then
    if Nat.ltb idx (length (blockList h)) then
      Ok (mkHAT (mask h) (maskShift h) (blockSize h) (size h)
            (<[idx := replicate (blockSize h) zero]> (blockList h)))
    else Panic "index out of range"
  else Ok h.

(** Read and write through a pointer [&h.blockList[idx][subIdx]]. *)
Definition cell (h : hashedArrayTree) (pos : nat) : option E :=
  let '(idx, subIdx) := index h pos in blockList h !! idx ≫= fun b => b !! subIdx.
Definition store (h : hashedArrayTree) (pos : nat) (e : E) : hashedArrayTree :=
  let '(idx, subIdx) := index h pos in
  mkHAT (mask h) (maskShift h) (blockSize h) (size h)
    (alter (fun b => <[subIdx := e]> b) idx (blockList h)).

(** [Alloc] returns the new tree and the position of the fresh entry; the
    pointer it also returns is [cell h' pos]. *)
Definition Alloc (h : hashedArrayTree) : outcome (hashedArrayTree * nat) :=
  try h <- grow h;
  let pos := size h in
  let h' := mkHAT (mask h) (maskShift h) (blockSize h) (size h + 1) (blockList h) in
  match cell h' pos with
  | Some _ => Ok (h', pos)
  | None => Panic "index out of range"
  end.

Definition Ref (h : hashedArrayTree) (pos : nat) : outcome E :=
  if Nat.leb (size h) pos then Panic "array index out of bounds"
  else match cell h pos with Some e => Ok e | None => Panic "index out of range" end.

Definition Size (h : hashedArrayTree) : nat := size h.

(** * Refinement of a list

    [layout k bs m n h l]: [h] has blocks of [2^k] entries, [bs] are the
    allocated blocks and [m] block slots are nil; the allocated blocks hold
    the list [l] followed by [n] zero entries. *)
Record layout (k : nat) (bs : list (list E)) (m n : nat) (h : hashedArrayTree) (l : list E) : Prop := {
  ly_k : 2 <= k;
  ly_blockSize : blockSize h = 2 ^ k;
  ly_mask : mask h = 2 ^ k - 1;
  ly_shift : maskShift h = k;
  ly_size : size h = length l;
  ly_list : blockList h = bs ++ nil_blocks m;
  ly_len : length bs + m = 2 ^ k;
  ly_blocks : Forall (fun b => length b = 2 ^ k) bs;
  ly_content : concat bs = l ++ replicate n zero;
  ly_free : n <= 2 ^ k }.

(** [represents h l]: [h] holds the list [l], with less than one block free. *)
Definition represents (h : hashedArrayTree) (l : list E) : Prop :=
  exists k bs m n, layout k bs m n h l /\ n < 2 ^ k.

Lemma pow2_pos k : 0 < 2 ^ k.
Proof. apply Nat.neq_0_lt_0, Nat.pow_nonzero. lia. Qed.

Lemma index_layout k bs m n h l pos :
  layout k bs m n h l -> index h pos = (pos / 2 ^ k, pos mod 2 ^ k).
Proof.
  intros [? _ Hm Hs _ _ _ _ _ _]. unfold index. rewrite Hm, Hs, Nat.shiftr_div_pow2.
  f_equal. rewrite <- Nat.land_ones. f_equal. rewrite Nat.ones_equiv. lia.
Qed.

Lemma layout_total k bs m n h l :
  layout k bs m n h l -> length bs * 2 ^ k = length l + n.
Proof.
  intros L. rewrite <- (length_concat_uniform bs) by apply L.
  rewrite (ly_content _ _ _ _ _ _ L), length_app, length_replicate. done.
Qed.

Lemma layout_length k bs m n h l : layout k bs m n h l -> length (blockList h) = 2 ^ k.
Proof.
  intros L. rewrite (ly_list _ _ _ _ _ _ L), length_app. unfold nil_blocks.
  rewrite length_replicate. apply L.
Qed.

Lemma merge_pairs_spec j B bs :
  length bs = 2 * j -> Forall (fun b => length b = B) bs ->
  exists bs2, merge_pairs bs = Ok bs2 /\ length bs2 = j /\
    Forall (fun b => length b = 2 * B) bs2 /\ concat bs2 = concat bs.
Proof.
  revert bs; induction j as [|j IH]; intros bs Hl HF.
  - destruct bs; [|done]. by exists [].
  - destruct bs as [|a [|b bs]]; cbn in Hl; try lia.
    apply Forall_cons in HF as [Ha [Hb HF]%Forall_cons].
    destruct (IH bs ltac:(lia) HF) as (bs2 & E2 & L2 & F2 & C2).
    exists ((a ++ b) :: bs2). cbn. rewrite E2. cbn. split_and!; [done|lia| |].
    + constructor; [|done]. rewrite length_app. lia.
    + rewrite C2. by rewrite app_assoc.
Qed.

Lemma represents_new : represents newHAT [].
Proof.
  exists 2, [], 4, 0. split; [|cbn; lia]. split; cbn; try done; try lia.
Qed.

(** The doubling step of [grow], on a full tree. *)
Lemma grow_double k bs h l :
  layout k bs 0 0 h l -> length bs = 2 ^ k ->
  exists bs2, merge_pairs (blockList h) = Ok bs2 /\ length bs2 = 2 ^ (k - 1) /\
    layout (k + 1) bs2 (2 ^ (k + 1) - length bs2) 0
      (mkHAT (mask h * 2 + 1) (maskShift h + 1) (blockSize h * 2) (size h)
         (bs2 ++ nil_blocks (blockSize h * 2 - length bs2))) l.
Proof.
  intros L Hbs. pose proof L as [Hk HB Hm Hs Hsz Hl Hlen HF Hc _].
  assert (2 ^ k = 2 * 2 ^ (k - 1)) as Hp
    by (rewrite <- Nat.pow_succ_r'; f_equal; lia).
  rewrite Hl. cbn. rewrite app_nil_r.
  destruct (merge_pairs_spec (2 ^ (k - 1)) (2 ^ k) bs ltac:(lia) HF) as (bs2 & E2 & L2 & F2 & C2).
  exists bs2. split_and!; [done..|]. pose proof (pow2_pos k) as Hpos.
  rewrite Nat.add_1_r, Nat.pow_succ_r' in *.
  split; cbn; rewrite ?Nat.pow_succ_r', ?HB, ?Hm, ?Hs, ?L2; try done; try lia.
  - f_equal. unfold nil_blocks. f_equal. lia.
  - by rewrite C2, Hc.
Qed.

Lemma fresh_block k bs m h l :
  layout k bs (S m) 0 h l ->
  layout k (bs ++ [replicate (2 ^ k) zero]) m (2 ^ k)
    (mkHAT (mask h) (maskShift h) (blockSize h) (size h)
       (<[length bs := replicate (blockSize h) zero]> (blockList h))) l.
Proof.
  intros [Hk HB Hm Hs Hsz Hl Hlen HF Hc _]. split; cbn; try done.
  - rewrite Hl, HB. rewrite insert_app_r_alt, Nat.sub_diag by lia.
    by rewrite <- app_assoc.
  - rewrite length_app. cbn. lia.
  - rewrite Forall_app. split; [done|]. by rewrite Forall_singleton, length_replicate.
  - rewrite concat_app, Hc. cbn. rewrite !app_nil_r. done.
Qed.

Lemma grow_spec h l :
  represents h l -> exists h' k bs m n, grow h = Ok h' /\ layout k bs m (S n) h' l.
Proof.
  intros (k & bs & m & n & L & Hn). unfold grow. rewrite (index_layout _ _ _ _ _ _ _ L).
  pose proof (layout_total _ _ _ _ _ _ L) as Ht. pose proof (pow2_pos k) as Hpos.
  pose proof (ly_size _ _ _ _ _ _ L) as Hsz.
  pose proof (layout_length _ _ _ _ _ _ L) as Hbl.
  pose proof (ly_len _ _ _ _ _ _ L) as Hlen.
  destruct n as [|n].
  - (* all allocated blocks are full *)
    assert (size h = length bs * 2 ^ k) as Hfull by lia.
    assert (size h / 2 ^ k = length bs) as -> by (rewrite Hfull, Nat.div_mul by lia; done).
    assert (size h mod 2 ^ k = 0) as -> by (rewrite Hfull; apply Nat.Div0.mod_mul).
    cbn [Nat.eqb].
    destruct m as [|m].
    + rewrite (proj2 (Nat.eqb_eq _ _)) by lia.
      destruct (grow_double _ _ _ _ L ltac:(lia)) as (bs2 & E2 & Hl2 & L2). rewrite E2. cbn [mbind outcome_bind].
      assert (length bs / 2 = length bs2) as Hd.
      { rewrite Hl2. replace (length bs) with (2 ^ (k - 1) * 2).
        - apply Nat.div_mul. lia.
        - rewrite Nat.mul_comm, <- Nat.pow_succ_r'.
          transitivity (2 ^ k); [f_equal; pose proof (ly_k _ _ _ _ _ _ L); lia|lia]. }
      assert (2 ^ (k + 1) - length bs2 = S (2 ^ (k + 1) - length bs2 - 1)) as Hm2.
      { pose proof (ly_len _ _ _ _ _ _ L2). pose proof (pow2_pos (k - 1)).
        assert (2 ^ (k + 1) = 4 * 2 ^ (k - 1)); [|lia].
        change 4 with (2 ^ 2). rewrite <- Nat.pow_add_r. f_equal.
        pose proof (ly_k _ _ _ _ _ _ L). lia. }
      rewrite Hm2 in L2. pose proof L2 as L2'. apply fresh_block in L2. cbn in L2.
      rewrite Hd. cbn [blockList].
      assert (Nat.ltb (length bs2) (length (bs2 ++ nil_blocks (blockSize h * 2 - length bs2))) = true) as ->.
      { apply Nat.ltb_lt. pose proof (layout_length _ _ _ _ _ _ L2') as HL.
        cbn [blockList] in HL. rewrite HL. lia. }
      pose proof (pow2_pos (k + 1)). eexists _, _, _, _, (2 ^ (k + 1) - 1). split; [done|].
      replace (S (2 ^ (k + 1) - 1)) with (2 ^ (k + 1)) by lia. exact L2.
    + rewrite (proj2 (Nat.eqb_neq _ _)) by lia. cbn [mbind outcome_bind].
      rewrite (proj2 (Nat.ltb_lt _ _)) by lia.
      apply fresh_block in L. eexists _, _, _, _, (2 ^ k - 1). split; [done|].
      replace (S (2 ^ k - 1)) with (2 ^ k) by lia. exact L.
  - assert (size h / 2 ^ k < length bs) as Hq.
    { apply Nat.Div0.div_lt_upper_bound. nia. }
    assert (length bs <= length (blockList h)) as Hle by lia.
    assert (Nat.eqb (size h / 2 ^ k) (length (blockList h)) = false) as ->.
    { apply Nat.eqb_neq, Nat.lt_neq. exact (Nat.lt_le_trans _ _ _ Hq Hle). } cbn [mbind outcome_bind].
    assert (size h mod 2 ^ k <> 0) as Hr.
    { rewrite Hsz. intros Hz. assert ((length l + S n) mod 2 ^ k = 0) as Hz'
        by (rewrite <- Ht; apply Nat.Div0.mod_mul).
      rewrite Nat.Div0.add_mod, Hz, (Nat.mod_small (S n)), Nat.mod_small in Hz' by lia. lia. }
    rewrite (proj2 (Nat.eqb_neq _ _)) by done.
    eexists _, _, _, _, n. split; [done|exact L].
Qed.

Lemma cell_layout k bs m n h l pos :
  layout k bs m n h l -> pos < length l + n -> cell h pos = (l ++ replicate n zero) !! pos.
Proof.
  intros L Hp. unfold cell. rewrite (index_layout _ _ _ _ _ _ _ L).
  rewrite <- (ly_content _ _ _ _ _ _ L), (ly_list _ _ _ _ _ _ L).
  pose proof (layout_total _ _ _ _ _ _ L). pose proof (pow2_pos k).
  rewrite (lookup_concat_uniform bs (2 ^ k)) by (done || apply L).
  rewrite lookup_app_l; [done|]. apply Nat.Div0.div_lt_upper_bound. lia.
Qed.

(** [Alloc] appends a zero entry and returns its position. *)
Lemma Alloc_spec h l :
  represents h l ->
  exists h', Alloc h = Ok (h', length l) /\ represents h' (l ++ [zero]).
Proof.
  intros R. destruct (grow_spec h l R) as (h1 & k & bs & m & n & E1 & L).
  unfold Alloc. rewrite E1. cbn [mbind outcome_bind].
  assert (layout k bs m n (mkHAT (mask h1) (maskShift h1) (blockSize h1) (size h1 + 1) (blockList h1))
    (l ++ [zero])) as L'.
  { destruct L. split; cbn; try done.
    - rewrite length_app. cbn. lia.
    - by rewrite <- app_assoc.
    - lia. }
  pose proof (ly_size _ _ _ _ _ _ L) as Hs. rewrite <- Hs.
  rewrite (cell_layout _ _ _ _ _ _ _ L') by (rewrite length_app; cbn; lia).
  rewrite <- app_assoc, lookup_app_r, Hs, Nat.sub_diag by lia. cbn.
  rewrite <- Hs. eexists. split; [done|]. exists k, bs, m, n. split; [exact L'|]. pose proof (ly_free _ _ _ _ _ _ L). lia.
Qed.

(** [Ref] reads the list at a position, and panics exactly outside it. *)
Lemma Ref_spec h l pos :
  represents h l ->
  Ref h pos = match l !! pos with Some e => Ok e | None => Panic "array index out of bounds" end.
Proof.
  intros (k & bs & m & n & L & Hn). unfold Ref. rewrite (ly_size _ _ _ _ _ _ L).
  destruct (Nat.leb_spec (length l) pos) as [Hge|Hlt].
  - by rewrite lookup_ge_None_2.
  - rewrite (cell_layout _ _ _ _ _ _ _ L) by lia. rewrite lookup_app_l by lia.
    by destruct (lookup_lt_is_Some_2 l pos Hlt) as [e ->].
Qed.

Lemma Size_spec h l : represents h l -> Size h = length l.
Proof. intros (k & bs & m & n & L & Hn). apply L. Qed.

(** Writing through the pointer to a position updates the list there. *)
Lemma store_spec h l pos e :
  represents h l -> pos < length l -> represents (store h pos e) (<[pos := e]> l).
Proof.
  intros (k & bs & m & n & L & Hn) Hp. unfold store.
  rewrite (index_layout _ _ _ _ _ _ _ L).
  pose proof (layout_total _ _ _ _ _ _ L) as Ht. pose proof (pow2_pos k) as Hpos.
  assert (pos / 2 ^ k < length bs) as Hq by (apply Nat.Div0.div_lt_upper_bound; lia).
  destruct (lookup_lt_is_Some_2 bs _ Hq) as [b Hb].
  exists k, (<[pos / 2 ^ k := <[pos mod 2 ^ k := e]> b]> bs), m, n. split; [|done].
  destruct L as [? ? ? ? ? HL ? HF HC ?]. split; cbn; try done.
  - by rewrite length_insert.
  - rewrite HL, alter_app_l by lia. f_equal. by apply list_alter_Some.
  - by rewrite length_insert.
  - apply Forall_insert; [done|]. rewrite length_insert. by eapply Forall_lookup in HF.
  - rewrite (insert_concat_uniform bs (2 ^ k)) by done. rewrite HC. by rewrite insert_app_l.
Qed.

Lemma store_size h pos e : size (store h pos e) = size h.
Proof. unfold store. by destruct (index h pos). Qed.
End HAT.

Arguments hashedArrayTree : clear implicits.

#[export] Hint Resolve represents_new : rapi.

(** * The tree as an array

    Clients allocate entries, and read and write them through the reference
    [Ref] yields.  A session of such calls, on the tree and on a plain list. *)

Inductive hat_cmd (E : Type) :=
  | CAlloc
  | CRef (pos : nat)
  | CWrite (pos : nat) (e : E)
  | CSize.
Arguments CAlloc {E}.
Arguments CRef {E} pos.
Arguments CWrite {E} pos e.
Arguments CSize {E}.

(** What a call lets the client see. *)
Inductive hat_obs (E : Type) :=
  | OPos (pos : nat)
  | OEntry (e : E)
  | OWritten
  | OSize (n : nat).
Arguments OPos {E} pos.
Arguments OEntry {E} e.
Arguments OWritten {E}.
Arguments OSize {E} n.

Section Session.
Context {E : Type} (zero : E).

Definition hat_step (h : hashedArrayTree E) (c : hat_cmd E) : outcome (hashedArrayTree E * hat_obs E) :=
  match c with
  | CAlloc => try (h, pos) <- Alloc zero h; Ok (h, OPos pos)
  | CRef pos => try e <- Ref h pos; Ok (h, OEntry e)
  | CWrite pos e => try _ <- Ref h pos; Ok (store h pos e, OWritten)
  | CSize => Ok (h, OSize (Size h))
  end.

Definition array_step (l : list E) (c : hat_cmd E) : outcome (list E * hat_obs E) :=
  match c with
  | CAlloc => Ok (l ++ [zero], OPos (length l))
  | CRef pos =>
      match l !! pos with Some e => Ok (l, OEntry e) | None => Panic "array index out of bounds" end
  | CWrite pos e =>
      match l !! pos with Some _ => Ok (<[pos := e]> l, OWritten) | None => Panic "array index out of bounds" end
  | CSize => Ok (l, OSize (length l))
  end.

(** The observations of a session. *)
Fixpoint session {S} (step : S -> hat_cmd E -> outcome (S * hat_obs E)) (s : S) (cs : list (hat_cmd E))
    : outcome (list (hat_obs E)) :=
  match cs with
  | [] => Ok []
  | c :: cs => try (s, o) <- step s c; try os <- session step s cs; Ok (o :: os)
  end.

Lemma hat_step_refines h l c :
  represents zero h l ->
  match array_step l c with
  | Ok (l', o) => exists h', hat_step h c = Ok (h', o) /\ represents zero h' l'
  | Err e => hat_step h c = Err e
  | Panic p => hat_step h c = Panic p
  end.
Proof.
  intros R. destruct c as [|pos|pos e|]; cbn [array_step hat_step].
  - destruct (Alloc_spec zero h l R) as (h' & -> & R'). eauto.
  - rewrite (Ref_spec _ _ _ pos R). destruct (l !! pos) as [e|]; cbn; eauto.
  - rewrite (Ref_spec _ _ _ pos R). destruct (l !! pos) as [x|] eqn:Hx; cbn; [|done].
    eexists. split; [done|]. apply store_spec; [done|]. by eapply lookup_lt_Some.
  - rewrite (Size_spec _ _ _ R). eauto.
Qed.
End Session.

(** The hashed array tree is an array that only grows: every session of calls
    on a new tree shows the client what it would see on a list, the panics for
    positions out of bounds included.  In particular the doublings of [grow]
    move no entry. *)
Theorem hat_refines_array {E} (zero : E) (cs : list (hat_cmd E)) :
  session (hat_step zero) (newHAT (E:=E)) cs = session (array_step zero) [] cs.
Proof.
  assert (forall h l, represents zero h l -> session (hat_step zero) h cs = session (array_step zero) l cs) as Hg.
  { induction cs as [|c cs IH]; intros h l R; [done|]. cbn.
    pose proof (hat_step_refines zero h l c R) as Hs. destruct (array_step zero l c) as [[l' o]|e|p].
    - destruct Hs as (h' & -> & R'). cbn. by rewrite (IH h' l').
    - by rewrite Hs.
    - by rewrite Hs. }
  apply Hg, represents_new.
Qed.
