(* ===== verification/IndexMap.v ===== *)
(** The chained hash table of the index (src/internal/index/indexmap.go,
    [indexMap]): a multimap from blob IDs to index entries, refined to the list
    of its entries in insertion order.

    [hash/maphash] is seeded at run time: the hash of an ID's bytes is the
    parameter [sum64], an arbitrary function. *)

From S2P Require Import Prelude Bytes Restic HashedArrayTree.

Record indexEntry := mkEntry {
  e_id : ID;
  e_next : nat;
  e_packIndex : nat;
  e_offset : Z;
  e_length : Z;
  e_uncompressedLength : Z }.

Definition zeroEntry : indexEntry := mkEntry nullID 0 0 0 0 0.
#[export] Instance indexEntry_inhabited : Inhabited indexEntry := populate zeroEntry.
#[export] Instance indexEntry_eq_dec : EqDecision indexEntry.
Proof. solve_decision. Defined.

Definition set_next (e : indexEntry) (n : nat) : indexEntry :=
  mkEntry (e_id e) n (e_packIndex e) (e_offset e) (e_length e) (e_uncompressedLength e).

Record indexMap := mkMap {
  buckets : list nat;
  numentries : nat;
  im_blockList : hashedArrayTree indexEntry }.

(** The zero value of the struct. *)
Definition emptyMap : indexMap := mkMap [] 0 (mkHAT 0 0 0 0 []).

Definition growthFactor : nat := 2.
Definition maxLoad : nat := 4.
Definition initialBuckets : nat := 64.

Section IndexMap.
Context (sum64 : list byte -> Z).

(** [h & uint(len(m.buckets)-1)] *)
Definition hash_in (nbuckets : nat) (id : ID) : nat :=
  Z.to_nat (Z.land (u64 (sum64 (id_bytes id))) (u64 (Z.of_nat nbuckets - 1))).
Definition hash (m : indexMap) (id : ID) : nat := hash_in (length (buckets m)) id.

Definition newEntry (m : indexMap) : outcome (indexMap * nat) :=
  try (h, idx) <- Alloc zeroEntry (im_blockList m);
  Ok (mkMap (buckets m) (numentries m) h, idx).

Definition resolve (m : indexMap) (idx : nat) : outcome indexEntry := Ref (im_blockList m) idx.

Definition init (m : indexMap) : outcome indexMap :=
  try (m, _) <- newEntry (mkMap (replicate initialBuckets 0) (numentries m) newHAT);
  Ok m.

(** One round of the loop of [grow]: entry [i] is put in front of its chain. *)
Definition relink (m : indexMap) (i : nat) : outcome indexMap :=
  try e <- resolve m i;
  let h := hash m (e_id e) in
  match buckets m !! h with
  | None => Panic "index out of range"
  | Some next =>
      Ok (mkMap (<[h := i]> (buckets m)) (numentries m)
            (store (im_blockList m) i (set_next e next)))
  end.

Definition grow_map (m : indexMap) : outcome indexMap :=
  let m := mkMap (replicate (growthFactor * length (buckets m)) 0) (numentries m) (im_blockList m) in
  let blockCount := Size (im_blockList m) in
  ofold relink m (seq 1 (blockCount - 1)).

Definition add (m : indexMap) (id : ID) (packIdx : nat) (offset length_ uncompressedLength : Z)
    : outcome indexMap :=
  try m <- (if Nat.eqb (numentries m) 0 then init m
            else if Nat.leb (maxLoad * length (buckets m)) (numentries m) then grow_map m
            else Ok m);
  let h := hash m id in
  try (m, idx) <- newEntry m;
  match buckets m !! h with
  | None => Panic "index out of range"
  | Some next =>
      Ok (mkMap (<[h := idx]> (buckets m)) (numentries m + 1)
            (store (im_blockList m) idx (mkEntry id next packIdx offset length_ uncompressedLength)))
  end.

Definition len (m : indexMap) : nat := numentries m.

(** [foreach]: the callback works on a state [S] and returns whether to go on. *)
Section Foreach.
Context {S : Type}.

Fixpoint foreach_from (fn : S -> indexEntry -> outcome (S * bool)) (m : indexMap)
    (ps : list nat) (s : S) : outcome S :=
  match ps with
  | [] => Ok s
  | i :: ps =>
      try e <- resolve m i;
      try (s, go_on) <- fn s e;
      if negb go_on then Ok s else foreach_from fn m ps s
  end.

Definition foreach (fn : S -> indexEntry -> outcome (S * bool)) (m : indexMap) (s : S) : outcome S :=
  let blockCount := Size (im_blockList m) in
  foreach_from fn m (seq 1 (blockCount - 1)) s.

(** The chain loop; an entry's successor is an older entry, so the number of
    entries bounds the number of rounds. *)
Fixpoint walk (fuel : nat) (m : indexMap) (id : ID) (fn : S -> indexEntry -> outcome S)
    (ei : nat) (s : S) : outcome S :=
  if Nat.eqb ei 0 then Ok s else
  match fuel with
  | O => Panic "out of fuel"
  | Datatypes.S fuel =>
      try e <- resolve m ei;
      let ei := e_next e in
      if negb (ID_Equal (e_id e) id) then walk fuel m id fn ei s
      else try s <- fn s e; walk fuel m id fn ei s
  end.

Definition foreachWithID (m : indexMap) (id : ID) (fn : S -> indexEntry -> outcome S) (s : S)
    : outcome S :=
  if Nat.eqb (length (buckets m)) 0 then Ok s else
  match buckets m !! hash m id with
  | None => Panic "index out of range"
  | Some ei => walk (Size (im_blockList m)) m id fn ei s
  end.
End Foreach.

Fixpoint get_loop (fuel : nat) (m : indexMap) (id : ID) (ei : nat) : outcome (option indexEntry) :=
  if Nat.eqb ei 0 then Ok None else
  match fuel with
  | O => Panic "out of fuel"
  | S fuel =>
      try e <- resolve m ei;
      if ID_Equal (e_id e) id then Ok (Some e) else get_loop fuel m id (e_next e)
  end.

Definition get (m : indexMap) (id : ID) : outcome (option indexEntry) :=
  if Nat.eqb (length (buckets m)) 0 then Ok None else
  match buckets m !! hash m id with
  | None => Panic "index out of range"
  | Some ei => get_loop (Size (im_blockList m)) m id ei
  end.

(** * Chains *)

(** [chain l ei ps]: following [next] from [ei] in the cells [l] visits the
    positions [ps]. *)
Inductive chain (l : list indexEntry) : nat -> list nat -> Prop :=
  | chain_nil : chain l 0 []
  | chain_cons p e ps : p <> 0 -> l !! p = Some e -> chain l (e_next e) ps -> chain l p (p :: ps).

Definition in_bucket (l : list indexEntry) (nb h p : nat) : Prop :=
  match l !! p with Some e => hash_in nb (e_id e) = h | None => False end.
#[local] Instance in_bucket_dec l nb h p : Decision (in_bucket l nb h p).
Proof. unfold in_bucket. destruct (l !! p); apply _. Defined.

(** The positions [n, n-1, ..., 1] whose entry hashes to bucket [h]. *)
Definition bucket_positions (l : list indexEntry) (nb n h : nat) : list nat :=
  filter (in_bucket l nb h) (reverse (seq 1 n)).

(** The first [n] entries are chained in [bks]. *)
Definition linked (bks : list nat) (l : list indexEntry) (n : nat) : Prop :=
  forall h, h < length bks ->
  exists b, bks !! h = Some b /\ chain l b (bucket_positions l (length bks) n h).

Lemma hash_in_lt k id : hash_in (2 ^ k) id < 2 ^ k.
Proof.
  unfold hash_in. pose proof (pow2_pos k) as Hp.
  destruct (decide (Z.of_nat k < 64)%Z) as [Hk|Hk].
  - assert (u64 (Z.of_nat (2 ^ k) - 1) = Z.ones (Z.of_nat k)) as ->.
    { rewrite Nat2Z.inj_pow, Z.ones_equiv, <- Z.sub_1_r. change (Z.of_nat 2) with 2%Z.
      apply u64_id. unfold is_u64.
      assert (2 ^ Z.of_nat k <= 2 ^ 63)%Z by (apply Z.pow_le_mono_r; lia). lia. }
    rewrite Z.land_ones by lia.
    pose proof (Z.mod_pos_bound (u64 (sum64 (id_bytes id))) (2 ^ Z.of_nat k) ltac:(lia)) as Hb.
    assert (Z.of_nat (2 ^ k) = 2 ^ Z.of_nat k)%Z as He by (rewrite Nat2Z.inj_pow; done). lia.
  - unfold u64 at 1. rewrite <- Z.land_ones by lia.
    rewrite <- Z.land_assoc, (Z.land_comm (Z.ones 64)), Z.land_assoc, Z.land_ones by lia.
    assert (2 ^ 64 <= Z.of_nat (2 ^ k))%Z.
    { rewrite Nat2Z.inj_pow. apply Z.pow_le_mono_r; lia. }
    match goal with |- Z.to_nat (?x mod _) < _ => pose proof (Z.mod_pos_bound x (2 ^ 64) ltac:(lia)) end.
    lia.
Qed.

Lemma bucket_positions_S l nb n h :
  bucket_positions l nb (S n) h =
    (if decide (in_bucket l nb h (S n)) then [S n] else []) ++ bucket_positions l nb n h.
Proof.
  unfold bucket_positions. rewrite seq_S, reverse_app. cbn [reverse rev_append Nat.add].
  rewrite filter_app, filter_cons, filter_nil. done.
Qed.

Lemma bucket_positions_bound l nb n h p : p ∈ bucket_positions l nb n h -> 1 <= p <= n.
Proof. intros [_ H]%list_elem_of_filter. rewrite elem_of_reverse, elem_of_seq in H. lia. Qed.

(** Cells outside the chain, and the ids of cells, determine nothing else. *)
Lemma chain_frame l l' ei ps :
  (forall p, p ∈ ps -> l' !! p = l !! p) -> chain l ei ps -> chain l' ei ps.
Proof.
  intros Hf Hc. induction Hc as [|p e ps Hp He Hc IH]; [constructor|].
  econstructor; [done| |].
  - rewrite Hf by left. done.
  - apply IH. intros q Hq. apply Hf. by right.
Qed.

Lemma bucket_positions_ext l l' nb n h :
  (forall p, 1 <= p <= n -> e_id <$> l' !! p = e_id <$> l !! p) ->
  bucket_positions l' nb n h = bucket_positions l nb n h.
Proof.
  intros Hext. unfold bucket_positions. apply list_filter_ext.
  intros p. rewrite elem_of_reverse, elem_of_seq. intros Hp.
  unfold in_bucket. specialize (Hext p ltac:(lia)).
  destruct (l !! p), (l' !! p); cbn in Hext; try done. by injection Hext as ->.
Qed.
Lemma linked_ext bks l l' n :
  (forall p, 1 <= p <= n -> l' !! p = l !! p) -> linked bks l n -> linked bks l' n.
Proof.
  intros Hext HL h Hh. destruct (HL h Hh) as (b & Hb & Hc). exists b. split; [done|].
  rewrite (bucket_positions_ext l l') by (intros p Hp; by rewrite Hext).
  eapply chain_frame; [|done]. intros p Hp%bucket_positions_bound. auto.
Qed.

(** Putting entry [n+1] in front of the chain of its bucket. *)
Lemma linked_step bks l n k e next :
  length bks = 2 ^ k -> linked bks l n -> l !! S n = Some e ->
  bks !! hash_in (2 ^ k) (e_id e) = Some next ->
  linked (<[hash_in (2 ^ k) (e_id e) := S n]> bks) (<[S n := set_next e next]> l) (S n).
Proof.
  intros Hlen HL He Hnext h Hh. rewrite length_insert in Hh |- *.
  set (h0 := hash_in (2 ^ k) (e_id e)) in *. set (l' := <[S n := _]> l).
  assert (l' !! S n = Some (set_next e next)) as He'
    by (apply list_lookup_insert_eq; by eapply lookup_lt_Some).
  assert (forall p, p <> S n -> l' !! p = l !! p) as Hne
    by (intros; by apply list_lookup_insert_ne).
  rewrite (bucket_positions_ext l l'); last first.
  { intros p _. destruct (decide (p = S n)) as [->|?]; [by rewrite He', He|by rewrite Hne]. }
  rewrite bucket_positions_S. destruct (HL h Hh) as (b & Hb & Hc).
  assert (chain l' b (bucket_positions l (length bks) n h)) as Hc'.
  { eapply chain_frame; [|exact Hc]. intros p Hp%bucket_positions_bound. apply Hne. lia. }
  rewrite Hlen in Hc' |- *. destruct (decide (h0 = h)) as [<-|Hneq].
  - exists (S n). rewrite list_lookup_insert_eq by done. split; [done|].
    rewrite decide_True by (unfold in_bucket; by rewrite He). cbn.
    econstructor; [done|exact He'|]. cbn. by simplify_eq.
  - exists b. rewrite list_lookup_insert_ne by done. split; [done|].
    rewrite decide_False by (unfold in_bucket; by rewrite He). done.
Qed.

Lemma linked_zero l nb : linked (replicate nb 0) l 0.
Proof.
  intros h Hh. rewrite length_replicate in Hh. exists 0.
  split; [by apply lookup_replicate_2|constructor].
Qed.

(** * Refinement: the table holds the entries [es], in insertion order *)

(** The position of the successor is not part of the content. *)
Definition norm (e : indexEntry) : indexEntry := set_next e 0.

Record tabled (m : indexMap) (k : nat) (z : indexEntry) (l : list indexEntry) : Prop := {
  tb_cells : represents zeroEntry (im_blockList m) (z :: l);
  tb_buckets : length (buckets m) = 2 ^ k;
  tb_linked : linked (buckets m) (z :: l) (length l) }.

Definition im_repr (m : indexMap) (es : list indexEntry) : Prop :=
  numentries m = length es /\
  ((es = [] /\ buckets m = [] /\ Size (im_blockList m) = 0) \/
   (es <> [] /\ exists k z l,
      tabled m k z l /\ norm <$> l = es /\ length es <= maxLoad * 2 ^ k)).

Lemma emptyMap_repr : im_repr emptyMap [].
Proof. split; [done|]. by left. Qed.

Lemma relink_spec m k z l n :
  n < length l -> represents zeroEntry (im_blockList m) (z :: l) ->
  length (buckets m) = 2 ^ k -> linked (buckets m) (z :: l) n ->
  exists m' l', relink m (S n) = Ok m' /\ numentries m' = numentries m /\
    represents zeroEntry (im_blockList m') (z :: l') /\ length (buckets m') = 2 ^ k /\
    linked (buckets m') (z :: l') (S n) /\ norm <$> l' = norm <$> l.
Proof.
  intros Hn HR Hb HL. destruct (lookup_lt_is_Some_2 l n Hn) as [e He].
  unfold relink, resolve, hash. rewrite (Ref_spec _ _ _ _ HR).
  change ((z :: l) !! S n) with (l !! n). rewrite He, Hb. cbn [mbind outcome_bind].
  destruct (lookup_lt_is_Some_2 (buckets m) (hash_in (2 ^ k) (e_id e))) as [next Hnext].
  { rewrite Hb. apply hash_in_lt. }
  rewrite Hnext. eexists _, (<[n := set_next e next]> l). split; [done|].
  split; [done|]. cbn [im_blockList buckets]. split_and!.
  - apply (store_spec zeroEntry _ (z :: l) (S n)); [done|cbn; lia].
  - by rewrite length_insert.
  - by apply (linked_step _ (z :: l)).
  - rewrite list_fmap_insert. apply list_insert_id. by rewrite list_lookup_fmap, He.
Qed.

Lemma relink_all m k z l n j :
  n + j = length l -> represents zeroEntry (im_blockList m) (z :: l) ->
  length (buckets m) = 2 ^ k -> linked (buckets m) (z :: l) n ->
  exists m' l', ofold relink m (seq (S n) j) = Ok m' /\ numentries m' = numentries m /\
    tabled m' k z l' /\ norm <$> l' = norm <$> l.
Proof.
  revert m l n; induction j as [|j IH]; intros m l n Hj HR Hb HL.
  - exists m, l. split_and!; try done. split; try done. by replace (length l) with n by lia.
  - destruct (relink_spec m k z l n ltac:(lia) HR Hb HL)
      as (m1 & l1 & E1 & Hn1 & HR1 & Hb1 & HL1 & Hl1).
    assert (length l1 = length l) as Hlen
      by (rewrite <- (length_fmap norm l), <- Hl1; by rewrite length_fmap).
    destruct (IH m1 l1 (S n) ltac:(lia) HR1 Hb1 HL1) as (m' & l' & E' & Hn' & HT & Hl').
    exists m', l'. cbn [seq ofold]. rewrite E1. cbn [mbind outcome_bind].
    split_and!; [done|congruence|done|congruence].
Qed.

Lemma grow_map_spec m k z l :
  tabled m k z l ->
  exists m' l', grow_map m = Ok m' /\ numentries m' = numentries m /\
    tabled m' (S k) z l' /\ norm <$> l' = norm <$> l.
Proof.
  intros [HR Hb HL]. unfold grow_map. cbn [im_blockList].
  rewrite (Size_spec _ _ _ HR). cbn [length Nat.sub]. rewrite Nat.sub_0_r.
  edestruct (relink_all (mkMap (replicate (growthFactor * length (buckets m)) 0) (numentries m)
    (im_blockList m)) (S k) z l 0 (length l)) as (m' & l' & E & Hn & HT & Hl);
    [done|done| |apply linked_zero|by eauto 10].
  cbn [buckets]. rewrite length_replicate, Hb, Nat.pow_succ_r'. done.
Qed.

(** The insertion proper, on a table with room. *)
Lemma insert_entry m k z l id packIdx offset length_ ulen :
  tabled m k z l ->
  exists m' l',
    (let h := hash m id in
     try (m, idx) <- newEntry m;
     match buckets m !! h with
     | None => Panic "index out of range"
     | Some next =>
         Ok (mkMap (<[h := idx]> (buckets m)) (numentries m + 1)
               (store (im_blockList m) idx (mkEntry id next packIdx offset length_ ulen)))
     end) = Ok m' /\
    numentries m' = numentries m + 1 /\ tabled m' k z l' /\
    norm <$> l' = (norm <$> l) ++ [mkEntry id 0 packIdx offset length_ ulen].
Proof.
  intros [HR Hb HL]. cbn zeta. unfold newEntry, hash.
  destruct (Alloc_spec _ _ _ HR) as (h' & EA & HR'). rewrite EA, Hb. cbn [mbind outcome_bind buckets].
  destruct (lookup_lt_is_Some_2 (buckets m) (hash_in (2 ^ k) id)) as [next Hnext].
  { rewrite Hb. apply hash_in_lt. }
  rewrite Hnext. set (e := mkEntry id 0 packIdx offset length_ ulen).
  eexists _, (l ++ [set_next e next]). split; [done|]. cbn [numentries im_blockList buckets length].
  split; [done|]. split; [|by rewrite fmap_app].
  pose proof (store_spec _ _ _ (S (length l)) (set_next e next) HR') as HS.
  rewrite length_app in HS. cbn [length] in HS.
  rewrite <- app_comm_cons in HS. cbn [insert list_insert] in HS.
  assert (forall x : indexEntry, <[length l := set_next e next]> (l ++ [x]) = l ++ [set_next e next]) as Hins.
  { intros x. rewrite insert_app_r_alt, Nat.sub_diag by lia. done. }
  split; cbn [im_blockList buckets].
  - rewrite <- (Hins zeroEntry). apply HS. lia.
  - by rewrite length_insert.
  - rewrite length_app. cbn [length]. rewrite Nat.add_1_r.
    pose proof (linked_step (buckets m) (z :: l ++ [e]) (length l) k e next Hb) as Hst.
    cbn [insert list_insert] in Hst. rewrite Hins in Hst. apply Hst; [| |done].
    + eapply linked_ext; [|exact HL]. intros [|p] Hp; [done|].
      change ((l ++ [e]) !! p = l !! p). rewrite lookup_app_l by lia. done.
    + change ((l ++ [e]) !! length l = Some e). rewrite lookup_app_r, Nat.sub_diag by lia. done.
Qed.

Lemma init_spec m :
  exists m', init m = Ok m' /\ numentries m' = numentries m /\ tabled m' 6 zeroEntry [].
Proof.
  unfold init, newEntry. cbn [im_blockList].
  destruct (Alloc_spec zeroEntry newHAT [] (represents_new _)) as (h' & E & HR). rewrite E.
  eexists. split; [done|]. split; [done|]. split; [exact HR|done|].
  cbn [buckets length]. apply linked_zero.
Qed.

(** [add] appends an entry; it never fails. *)
Lemma add_spec m es id packIdx offset length_ ulen :
  im_repr m es ->
  exists m', add m id packIdx offset length_ ulen = Ok m' /\
    im_repr m' (es ++ [mkEntry id 0 packIdx offset length_ ulen]).
Proof.
  intros [Hn Hes].
  assert (exists m1 k z l,
    (if Nat.eqb (numentries m) 0 then init m
     else if Nat.leb (maxLoad * length (buckets m)) (numentries m) then grow_map m
     else Ok m) = Ok m1 /\ numentries m1 = numentries m /\ tabled m1 k z l /\
    norm <$> l = es /\ length es < maxLoad * 2 ^ k) as (m1 & k & z & l & E1 & Hn1 & HT & Hl & Hlt).
  { destruct Hes as [(-> & _ & _)|(Hne & k & z & l & HT & Hl & Hle)].
    - rewrite Hn. cbn [length Nat.eqb]. destruct (init_spec m) as (m' & E & Hn' & HT).
      exists m', 6, zeroEntry, []. split_and!; try done; [by rewrite Hn', Hn|by apply Nat.ltb_lt].
    - rewrite (proj2 (Nat.eqb_neq _ _)) by (rewrite Hn; by destruct es).
      rewrite Hn, (tb_buckets _ _ _ _ HT). destruct (Nat.leb_spec (maxLoad * 2 ^ k) (length es)).
      + destruct (grow_map_spec _ _ _ _ HT) as (m' & l' & E & Hn' & HT' & Hl').
        exists m', (S k), z, l'. split_and!; try done; try congruence.
        rewrite Nat.pow_succ_r'. pose proof (pow2_pos k). unfold maxLoad in *. lia.
      + exists m, k, z, l. split_and!; done || lia. }
  unfold add. rewrite E1. cbn [mbind outcome_bind].
  destruct (insert_entry m1 k z l id packIdx offset length_ ulen HT) as (m' & l' & E & Hn' & HT' & Hl').
  exists m'. split; [exact E|]. split.
  - rewrite Hn', Hn1, Hn, length_app. done.
  - right. split; [by destruct es|]. exists k, z, l'. split; [done|]. split; [congruence|].
    rewrite length_app. cbn [length]. lia.
Qed.

Lemma len_spec m es : im_repr m es -> len m = length es.
Proof. by intros [? _]. Qed.

(** A callback that looks at the content of an entry only. *)
Definition content_only {A} (fn : indexEntry -> A) : Prop := forall e, fn (norm e) = fn e.

(** The loop [for _, e := range es { if !fn(e) { return } }]. *)
Fixpoint fold_while {S} (fn : S -> indexEntry -> outcome (S * bool)) (es : list indexEntry) (s : S)
    : outcome S :=
  match es with
  | [] => Ok s
  | e :: es => try (s, go_on) <- fn s e; if negb go_on then Ok s else fold_while fn es s
  end.

Lemma fold_while_go {S} (fn : S -> indexEntry -> outcome (S * bool)) (h : S -> indexEntry -> outcome S) es s :
  (forall s e, e ∈ es -> fn s e = try s' <- h s e; Ok (s', true)) ->
  fold_while fn es s = ofold h s es.
Proof.
  revert s; induction es as [|e es IH]; intros s Hf; [done|]. cbn.
  rewrite Hf by by left. destruct (h s e); cbn; [|done..]. apply IH. intros ? ? ?. apply Hf. by right.
Qed.

Lemma foreach_from_spec {S} (fn : S -> indexEntry -> outcome (S * bool)) m z l j n s :
  (forall s, content_only (fn s)) ->
  represents zeroEntry (im_blockList m) (z :: l) -> n + j = length l ->
  foreach_from fn m (seq (1 + n) j) s = fold_while fn (norm <$> drop n l) s.
Proof.
  intros Hfn HR. revert n s; induction j as [|j IH]; intros n s Hj.
  - rewrite drop_ge by lia. done.
  - destruct (lookup_lt_is_Some_2 l n ltac:(lia)) as [e He].
    rewrite (drop_S _ _ _ He). cbn [seq foreach_from fmap list_fmap fold_while].
    unfold resolve. rewrite (Ref_spec _ _ _ _ HR).
    change ((z :: l) !! (1 + n)) with (l !! n). rewrite He. cbn [mbind outcome_bind].
    rewrite (Hfn s e). destruct (fn s e) as [[s' []]| |]; try done.
    apply (IH (Datatypes.S n)). lia.
Qed.

(** [foreach] visits the entries in insertion order, until told to stop. *)
Lemma foreach_spec {S} (fn : S -> indexEntry -> outcome (S * bool)) m es s :
  im_repr m es -> (forall s, content_only (fn s)) -> foreach fn m s = fold_while fn es s.
Proof.
  intros [Hn [(-> & _ & Hz)|(_ & k & z & l & HT & <- & _)]] Hfn; unfold foreach.
  - by rewrite Hz.
  - rewrite (Size_spec _ _ _ (tb_cells _ _ _ _ HT)). cbn [length Nat.sub]. rewrite Nat.sub_0_r.
    apply (foreach_from_spec fn m z l (length l) 0); [done|apply HT|done].
Qed.

(** The entries of a bucket's chain, newest first. *)
Lemma bucket_entries z l nb h n :
  n <= length l ->
  omap (fun p => (z :: l) !! p) (bucket_positions (z :: l) nb n h) =
  filter (fun e => hash_in nb (e_id e) = h) (reverse (take n l)).
Proof.
  induction n as [|n IH]; intros Hn; [done|].
  destruct (lookup_lt_is_Some_2 l n ltac:(lia)) as [e He].
  rewrite bucket_positions_S, (take_S_r _ _ e He), reverse_app. cbn [reverse rev_append].
  rewrite omap_app, filter_app, IH by lia. f_equal. rewrite filter_cons, filter_nil.
  assert ((z :: l) !! S n = Some e) as He' by exact He.
  assert (in_bucket (z :: l) nb h (S n) <-> hash_in nb (e_id e) = h) as Hiff.
  { unfold in_bucket. by rewrite He'. }
  destruct (decide (in_bucket _ _ _ _)) as [Hb|Hb]; destruct (decide (hash_in nb (e_id e) = h)); try tauto.
  cbn [omap list_omap]. by rewrite He'.
Qed.

Definition with_id (id : ID) (es : list indexEntry) : list indexEntry :=
  filter (fun e => e_id e = id) es.

Lemma walk_spec {S} (fn : S -> indexEntry -> outcome S) m z l id fuel ei ps s :
  represents zeroEntry (im_blockList m) (z :: l) -> chain (z :: l) ei ps -> length ps <= fuel ->
  walk fuel m id fn ei s = ofold fn s (with_id id (omap (fun p => (z :: l) !! p) ps)).
Proof.
  intros HR Hc. revert fuel s; induction Hc as [|p e ps Hp He Hc IH]; intros fuel s Hf.
  - by destruct fuel.
  - destruct fuel as [|fuel]; cbn [length] in Hf; [lia|]. cbn [walk].
    rewrite (proj2 (Nat.eqb_neq _ _)) by done. unfold resolve. rewrite (Ref_spec _ _ _ _ HR), He.
    cbn [mbind outcome_bind omap list_omap]. rewrite He. unfold with_id. rewrite filter_cons.
    unfold ID_Equal. case_bool_decide as Hid; cbn [negb].
    + rewrite decide_True by done. cbn [ofold]. destruct (fn s e); cbn [mbind outcome_bind]; [|done..].
      apply IH. lia.
    + rewrite decide_False by done. apply IH. lia.
Qed.

Lemma get_loop_spec m z l id fuel ei ps :
  represents zeroEntry (im_blockList m) (z :: l) -> chain (z :: l) ei ps -> length ps <= fuel ->
  get_loop fuel m id ei = Ok (head (with_id id (omap (fun p => (z :: l) !! p) ps))).
Proof.
  intros HR Hc. revert fuel; induction Hc as [|p e ps Hp He Hc IH]; intros fuel Hf.
  - by destruct fuel.
  - destruct fuel as [|fuel]; cbn [length] in Hf; [lia|]. cbn [get_loop].
    rewrite (proj2 (Nat.eqb_neq _ _)) by done. unfold resolve. rewrite (Ref_spec _ _ _ _ HR), He.
    cbn [mbind outcome_bind omap list_omap]. rewrite He. unfold with_id. rewrite filter_cons.
    unfold ID_Equal. case_bool_decide as Hid.
    + by rewrite decide_True.
    + rewrite decide_False by done. apply IH. lia.
Qed.

Lemma bucket_positions_length l nb n h : length (bucket_positions l nb n h) <= n.
Proof.
  unfold bucket_positions. etransitivity; [apply length_filter|].
  by rewrite length_reverse, length_seq.
Qed.

(** The chain of the bucket of [id] holds all entries with that id, newest first. *)
Lemma tabled_chain m k z l id :
  tabled m k z l ->
  Nat.eqb (length (buckets m)) 0 = false /\
  exists ei ps, buckets m !! hash m id = Some ei /\ chain (z :: l) ei ps /\
    length ps <= Size (im_blockList m) /\
    with_id id (omap (fun p => (z :: l) !! p) ps) = with_id id (reverse l).
Proof.
  intros [HR Hb HL]. split; [apply Nat.eqb_neq; rewrite Hb; pose proof (pow2_pos k); lia|].
  unfold hash. rewrite Hb. pose proof (hash_in_lt k id) as Hlt.
  destruct (HL (hash_in (2 ^ k) id) ltac:(by rewrite Hb)) as (ei & Hei & Hc).
  eexists ei, _. split; [done|]. split; [exact Hc|].
  rewrite (Size_spec _ _ _ HR). split.
  - etransitivity; [apply bucket_positions_length|]. cbn. lia.
  - rewrite bucket_entries, firstn_all, Hb by done. unfold with_id.
    rewrite list_filter_filter. apply list_filter_ext. intros e _. naive_solver.
Qed.

Lemma with_id_norm id es : norm <$> with_id id es = with_id id (norm <$> es).
Proof.
  induction es as [|e es IH]; [done|]. unfold with_id in *.
  rewrite fmap_cons, !filter_cons. change (e_id (norm e)) with (e_id e).
  destruct (decide (e_id e = id)); rewrite ?fmap_cons; by rewrite IH.
Qed.

Lemma ofold_norm {S} (fn : S -> indexEntry -> outcome S) s es :
  (forall s, content_only (fn s)) -> ofold fn s (norm <$> es) = ofold fn s es.
Proof.
  intros Hfn. revert s; induction es as [|e es IH]; intros s; [done|]. cbn.
  rewrite (Hfn s e). by destruct (fn s e); cbn.
Qed.

(** [foreachWithID] visits exactly the entries with the id, newest first. *)
Lemma foreachWithID_spec {S} m es id (fn : S -> indexEntry -> outcome S) s :
  im_repr m es -> (forall s, content_only (fn s)) ->
  foreachWithID m id fn s = ofold fn s (with_id id (reverse es)).
Proof.
  intros [Hn [(-> & Hb & _)|(_ & k & z & l & HT & <- & _)]] Hfn; unfold foreachWithID.
  - by rewrite Hb.
  - destruct (tabled_chain _ _ _ _ id HT) as (-> & ei & ps & -> & Hc & Hf & Hid).
    rewrite (walk_spec _ _ z l id _ _ ps); [|apply HT|done|done].
    rewrite Hid, <- fmap_reverse, <- with_id_norm. by rewrite ofold_norm.
Qed.

(** [get] returns the newest entry with the id. *)
Lemma get_spec m es id :
  im_repr m es ->
  exists o, get m id = Ok o /\ norm <$> o = head (with_id id (reverse es)).
Proof.
  intros [Hn [(-> & Hb & _)|(_ & k & z & l & HT & <- & _)]]; unfold get.
  - rewrite Hb. by exists None.
  - destruct (tabled_chain _ _ _ _ id HT) as (-> & ei & ps & -> & Hc & Hf & Hid).
    rewrite (get_loop_spec _ z l id _ _ ps); [|apply HT|done|done].
    eexists. split; [done|]. rewrite Hid, <- fmap_reverse, <- with_id_norm.
    by destruct (with_id id (reverse l)).
Qed.
End IndexMap.

#[export] Hint Resolve emptyMap_repr : rapi.

(** * The map as a multimap *)

Section Multimap.
Context (sum64 : list byte -> Z).

(** Add an entry's content ([next] is the map's own). *)
Definition add_entry (m : indexMap) (e : indexEntry) : outcome indexMap :=
  add sum64 m (e_id e) (e_packIndex e) (e_offset e) (e_length e) (e_uncompressedLength e).

Lemma add_entries_repr m es0 es :
  im_repr sum64 m es0 -> exists m', ofold add_entry m es = Ok m' /\ im_repr sum64 m' (es0 ++ (norm <$> es)).
Proof.
  revert m es0; induction es as [|e es IH]; intros m es0 HR; cbn [ofold].
  - exists m. cbn. by rewrite app_nil_r.
  - destruct (add_spec sum64 m es0 (e_id e) (e_packIndex e) (e_offset e) (e_length e)
      (e_uncompressedLength e) HR) as (m1 & E1 & HR1). fold (add_entry m e) in E1. rewrite E1. cbn [mbind outcome_bind].
    destruct (IH _ _ HR1) as (m' & -> & HR'). exists m'. split; [done|]. by rewrite <- app_assoc in HR'.
Qed.

Lemma fold_while_collect (es acc : list indexEntry) :
  fold_while (fun acc e => Ok (acc ++ [norm e], true)) es acc = Ok (acc ++ (norm <$> es)).
Proof.
  revert acc; induction es as [|e es IH]; intros acc; cbn; [by rewrite app_nil_r|].
  rewrite IH. by rewrite <- app_assoc.
Qed.

Lemma ofold_collect (es acc : list indexEntry) :
  ofold (fun acc e => Ok (acc ++ [norm e])) acc es = Ok (acc ++ (norm <$> es)).
Proof.
  revert acc; induction es as [|e es IH]; intros acc; cbn; [by rewrite app_nil_r|].
  rewrite IH. by rewrite <- app_assoc.
Qed.

Lemma norm_norm_list (es : list indexEntry) : norm <$> (norm <$> es) = norm <$> es.
Proof. rewrite <- list_fmap_compose. by apply list_fmap_ext. Qed.
End Multimap.

(** C19. Whatever the hash function, the map holds exactly the entries added to it,
    through every initialisation and every doubling of the bucket array: [len]
    counts them, [foreach] yields them in insertion order, [foreachWithID]
    yields those of one ID, newest first, and [get] is the newest one.  Every
    call returns: a chain never runs out of the bound on its length. *)
Theorem indexmap_multimap (sum64 : list byte -> Z) (es : list indexEntry) :
  exists m, ofold (add_entry sum64) emptyMap es = Ok m /\
    len m = length es /\
    foreach (fun acc e => Ok (acc ++ [norm e], true)) m [] = Ok (norm <$> es) /\
    forall id,
      foreachWithID sum64 m id (fun acc e => Ok (acc ++ [norm e])) [] =
        Ok (norm <$> filter (fun e => e_id e = id) (reverse es)) /\
      exists o, get sum64 m id = Ok o /\ norm <$> o = norm <$> head (filter (fun e => e_id e = id) (reverse es)).
Proof.
  destruct (add_entries_repr sum64 _ _ es (emptyMap_repr sum64)) as (m & E & HR). rewrite app_nil_l in HR.
  exists m. split; [done|]. split; [by rewrite (len_spec _ _ _ HR), length_fmap|]. split.
  - rewrite (foreach_spec _ _ _ _ _ HR) by done. by rewrite fold_while_collect, norm_norm_list.
  - intros id. assert (with_id id (reverse (norm <$> es)) = norm <$> filter (fun e => e_id e = id) (reverse es)) as Hw.
    { rewrite <- fmap_reverse. symmetry. apply with_id_norm. }
    split.
    + rewrite (foreachWithID_spec _ _ _ _ _ _ HR), Hw by done. by rewrite ofold_collect, norm_norm_list.
    + destruct (get_spec sum64 m _ id HR) as (o & Eo & Ho). exists o. split; [done|].
      rewrite Ho, Hw. by destruct (filter _ _).
Qed.
