(* ===== verification/Index.v ===== *)
(** One index: the lookup tables from blobs to packs (src/internal/index/index.go).

    The lock of an index serialises its operations: each operation is one
    function on the state. *)

From S2P Require Import Prelude Bytes Restic Sets HashedArrayTree IndexMap.

#[local] Open Scope Z_scope.

Record Index := mkIndex {
  byType : list indexMap;
  packs : list ID;
  final : bool;
  ids : list ID;
  idx_supersedes : list ID;
  created : Z }.

Definition set_byType (idx : Index) m := mkIndex m (packs idx) (final idx) (ids idx) (idx_supersedes idx) (created idx).
Definition set_packs (idx : Index) p := mkIndex (byType idx) p (final idx) (ids idx) (idx_supersedes idx) (created idx).
Definition set_final (idx : Index) f := mkIndex (byType idx) (packs idx) f (ids idx) (idx_supersedes idx) (created idx).
Definition set_ids (idx : Index) l := mkIndex (byType idx) (packs idx) (final idx) l (idx_supersedes idx) (created idx).
Definition set_supersedes (idx : Index) l := mkIndex (byType idx) (packs idx) (final idx) (ids idx) l (created idx).

(** [NewIndex] at time [now] (nanoseconds). *)
Definition NewIndex (now : Z) : Index :=
  mkIndex (replicate NumBlobTypes emptyMap) [] false [] [] now.

Definition addToPacks (idx : Index) (id : ID) : Index * nat :=
  let idx := set_packs idx (packs idx ++ [id]) in (idx, (length (packs idx) - 1)%nat).

Definition maxuint32 : Z := Z.shiftl 1 32 - 1.

Definition indexMaxBlobs : Z := 50000.
Definition indexMaxBlobsCompressed : Z := 3 * indexMaxBlobs.
(** [10 * time.Minute], in nanoseconds. *)
Definition indexMaxAge : Z := 10 * 60 * 1000000000.

(** The JSON structures of an index file. *)
Record blobJSON := mkBlobJSON {
  bj_ID : ID; bj_Type : BlobType; bj_Offset : Z; bj_Length : Z; bj_UncompressedLength : Z }.
Record packJSON := mkPackJSON { pj_ID : ID; pj_Blobs : list blobJSON }.
Record jsonIndex := mkJsonIndex { ji_Supersedes : list ID; ji_Packs : list packJSON }.

Record EachByPackResult := mkEachByPack { ebp_PackID : ID; ebp_Blobs : list Blob }.

Section Index.
Context (sum64 : list byte -> Z).

(** [&idx.byType[t]]: panics for a type out of range. *)
Definition table (idx : Index) (t : BlobType) : outcome indexMap :=
  match byType idx !! Z.to_nat t with Some m => Ok m | None => Panic "index out of range" end.

Definition store_blob (idx : Index) (packIndex : nat) (blob : Blob) : outcome Index :=
  if (maxuint32 <? b_Offset blob) || (maxuint32 <? b_Length blob) || (maxuint32 <? b_UncompressedLength blob)
  then Panic "offset or length does not fit in uint32. You have packs > 4GB!"
  else
    try m <- table idx (b_Type blob);
    try m <- add sum64 m (b_ID blob) packIndex (u32 (b_Offset blob)) (u32 (b_Length blob))
               (u32 (b_UncompressedLength blob));
    Ok (set_byType idx (<[Z.to_nat (b_Type blob) := m]> (byType idx))).

Definition Final (idx : Index) : bool := final idx.

(** [IndexFull] at time [now]. *)
Definition IndexFull (now : Z) (idx : Index) (compress : bool) : bool :=
  let blobs := fold_left (fun blobs m => blobs + Z.of_nat (len m)) (byType idx) 0 in
  let age := now - created idx in
  let maxBlobs := if compress then indexMaxBlobsCompressed else indexMaxBlobs in
  if indexMaxAge <=? age then true
  else if maxBlobs <=? blobs then true
  else false.

Definition Index_StorePack (idx : Index) (id : ID) (blobs : list Blob) : outcome Index :=
  if final idx then Panic "store new item in finalized index"
  else
    let '(idx, packIndex) := addToPacks idx id in
    ofold (fun idx blob => store_blob idx packIndex blob) idx blobs.

Definition toPackedBlob (idx : Index) (e : indexEntry) (t : BlobType) : outcome PackedBlob :=
  match packs idx !! e_packIndex e with
  | None => Panic "index out of range"
  | Some packID =>
      Ok (mkPackedBlob
            (mkBlob (mkBlobHandle (e_id e) t) (e_length e) (e_offset e) (e_uncompressedLength e))
            packID)
  end.

Definition Index_Lookup (idx : Index) (bh : BlobHandle) (pbs : list PackedBlob) : outcome (list PackedBlob) :=
  try m <- table idx (bh_Type bh);
  foreachWithID sum64 m (bh_ID bh)
    (fun pbs e => try pb <- toPackedBlob idx e (bh_Type bh); Ok (pbs ++ [pb])) pbs.

Definition Index_Has (idx : Index) (bh : BlobHandle) : outcome bool :=
  try m <- table idx (bh_Type bh);
  try e <- get sum64 m (bh_ID bh);
  Ok (match e with Some _ => true | None => false end).

(** [None] is the result [(0, false)]. *)
Definition Index_LookupSize (idx : Index) (bh : BlobHandle) : outcome (option Z) :=
  try m <- table idx (bh_Type bh);
  try e <- get sum64 m (bh_ID bh);
  match e with
  | None => Ok None
  | Some e =>
      if negb (e_uncompressedLength e =? 0) then Ok (Some (e_uncompressedLength e))
      else Ok (Some (u64 (PlaintextLength (e_length e))))
  end.

Definition Supersedes (idx : Index) : list ID := idx_supersedes idx.

Definition AddToSupersedes (idx : Index) (l : list ID) : outcome Index :=
  if final idx then Err (ErrMsg "index already finalized")
  else Ok (set_supersedes idx (idx_supersedes idx ++ l)).

(** [for typ := range idx.byType] *)
Definition types (idx : Index) : list nat := seq 0 (length (byType idx)).

(** [Each]: the callback works on a state; [ctxErr] is the state of the context. *)
Definition Index_Each {S} (ctxErr : S -> bool) (idx : Index) (fn : S -> PackedBlob -> outcome S) (s : S) : outcome S :=
  ofold (fun s typ =>
    try m <- table idx (Z.of_nat typ);
    foreach (fun s e =>
      if ctxErr s then Ok (s, false)
      else try pb <- toPackedBlob idx e (Z.of_nat typ); try s <- fn s pb; Ok (s, true)) m s)
    s (types idx).

(** [EachByPack]: the results sent on the channel; the runtime's map order is
    the order of [map_to_list]. *)
Definition EachByPack (idx : Index) (packBlacklist : gset ID) : outcome (list EachByPackResult) :=
  try byPack <- ofold (fun (byPack : gmap ID (list (list indexEntry))) typ =>
    try m <- table idx (Z.of_nat typ);
    foreach (fun (byPack : gmap ID (list (list indexEntry))) e =>
      match packs idx !! e_packIndex e with
      | None => Panic "index out of range"
      | Some packID =>
          if negb (final idx) || negb (IDSet_Has packBlacklist packID) then
            let v := default (replicate NumBlobTypes []) (byPack !! packID) in
            Ok (<[packID := alter (fun l => l ++ [e]) typ v]> byPack, true)
          else Ok (byPack, true)
      end) m byPack) ∅ (types idx);
  omap_list (fun '(packID, packByType) =>
    try blobs <- ofold (fun blobs '(typ, pack) =>
      ofold (fun blobs e => try pb <- toPackedBlob idx e (Z.of_nat typ); Ok (blobs ++ [pb_Blob pb]))
        blobs pack) [] (zip (types idx) packByType);
    Ok (mkEachByPack packID blobs)) (map_to_list byPack).

Definition Index_Packs (idx : Index) : gset ID :=
  fold_left IDSet_Insert (packs idx) (NewIDSet []).

(** The callback of [generatePackList]: the list built so far, and the map
    from a pack to its position in the list. *)
Definition packListEntry (idx : Index) (typ : nat) (st : list packJSON * gmap ID nat) (e : indexEntry)
    : outcome ((list packJSON * gmap ID nat) * bool) :=
  let '(list_, packs_) := st in
  match packs idx !! e_packIndex e with
  | None => Panic "index out of range"
  | Some packID =>
      if IsNull packID then Panic "null pack id" else
      let '(i, list_, packs_) :=
        match packs_ !! packID with
        | Some i => (i, list_, packs_)
        | None => (length list_, list_ ++ [mkPackJSON packID []], <[packID := length list_]> packs_)
        end in
      let b := mkBlobJSON (e_id e) (Z.of_nat typ) (e_offset e) (e_length e) (e_uncompressedLength e) in
      Ok (alter (fun p => mkPackJSON (pj_ID p) (pj_Blobs p ++ [b])) i list_, packs_, true)
  end.

Definition generatePackList (idx : Index) : outcome (list packJSON) :=
  try st <- ofold (fun st typ =>
    try m <- table idx (Z.of_nat typ); foreach (packListEntry idx typ) m st) ([], ∅) (types idx);
  Ok st.1.

Definition Finalize (idx : Index) : Index := set_final idx true.

Definition IDs (idx : Index) : outcome (list ID) :=
  if negb (final idx) then Err (ErrMsg "index not finalized") else Ok (ids idx).

Definition SetID (idx : Index) (id : ID) : outcome Index :=
  if negb (final idx) then Err (ErrMsg "index is not final")
  else if Nat.ltb 0 (length (ids idx)) then Err (ErrMsg "ID already set")
  else Ok (set_ids idx (ids idx ++ [id])).

(** The helper of [merge] for one type. *)
Definition hasIdenticalEntry (idx idx2 : Index) (m : indexMap) (typ : nat) (e2 : indexEntry) : outcome bool :=
  foreachWithID sum64 m (e_id e2)
    (fun found e =>
       try b <- toPackedBlob idx e (Z.of_nat typ);
       try b2 <- toPackedBlob idx2 e2 (Z.of_nat typ);
       Ok (if bool_decide (b = b2) then true else found)) false.

Definition merge_type (packlen : nat) (idx2 : Index) (idx : Index) (typ : nat) : outcome Index :=
  try m2 <- table idx2 (Z.of_nat typ);
  try m <- table idx (Z.of_nat typ);
  try m <- foreach (fun m e2 =>
    try found <- hasIdenticalEntry idx idx2 m typ e2;
    if negb found then
      try m <- add sum64 m (e_id e2) (e_packIndex e2 + packlen)%nat (e_offset e2) (e_length e2)
                 (e_uncompressedLength e2);
      Ok (m, true)
    else Ok (m, true)) m2 m;
  Ok (set_byType idx (<[typ := m]> (byType idx))).

Definition merge (idx idx2 : Index) : outcome Index :=
  if negb (final idx2) then Err (ErrMsg "index to merge is not final")
  else
    let packlen := length (packs idx) in
    let idx := set_packs idx (packs idx ++ packs idx2) in
    try idx <- ofold (merge_type packlen idx2) idx (types idx2);
    let idx := set_ids idx (ids idx ++ ids idx2) in
    Ok (set_supersedes idx (idx_supersedes idx ++ idx_supersedes idx2)).

(** * Index files

    [encoding/json] is a parameter: [json_Encode] renders the structure (it
    fails when a blob type has no JSON form), [json_Unmarshal] and
    [json_Unmarshal_old] parse the two formats. *)
Definition UnmarshalTypeError (value : string) : error :=
  ErrWrap (ErrMsg value) "json.UnmarshalTypeError".

Definition isErrOldIndex (e : error) : bool := bool_decide (e = UnmarshalTypeError "array").

Section JSON.
Context (json_Encode : jsonIndex -> outcome (list byte)).
Context (json_Unmarshal : list byte -> outcome jsonIndex).
Context (json_Unmarshal_old : list byte -> outcome (list (option packJSON))).

Definition Encode (idx : Index) : outcome (list byte) :=
  try list_ <- generatePackList idx;
  json_Encode (mkJsonIndex (idx_supersedes idx) list_).

Definition decodeOldIndex (now : Z) (buf : list byte) : outcome Index :=
  try list_ <- wrap_err "Decode" (json_Unmarshal_old buf);
  try idx <- ofold (fun idx (pack : option packJSON) =>
    match pack with
    | None => Panic "nil pointer dereference"
    | Some pack =>
        let '(idx, packID) := addToPacks idx (pj_ID pack) in
        ofold (fun idx blob =>
          store_blob idx packID
            (mkBlob (mkBlobHandle (bj_ID blob) (bj_Type blob)) (bj_Length blob) (bj_Offset blob) 0))
          idx (pj_Blobs pack)
    end) (NewIndex now) list_;
  Ok (Finalize idx).

(** The index and whether it was in the old format. *)
Definition DecodeIndex (now : Z) (buf : list byte) (id : ID) : outcome (Index * bool) :=
  match json_Unmarshal buf with
  | Panic p => Panic p
  | Err err =>
      if isErrOldIndex err then
        try idx <- decodeOldIndex now buf; Ok (idx, true)
      else Err (ErrWrap err "DecodeIndex")
  | Ok idxJSON =>
      try idx <- ofold (fun idx pack =>
        let '(idx, packID) := addToPacks idx (pj_ID pack) in
        ofold (fun idx blob =>
          store_blob idx packID
            (mkBlob (mkBlobHandle (bj_ID blob) (bj_Type blob)) (bj_Length blob) (bj_Offset blob)
               (bj_UncompressedLength blob)))
          idx (pj_Blobs pack)) (NewIndex now) (ji_Packs idxJSON);
      let idx := set_supersedes idx (ji_Supersedes idxJSON) in
      let idx := set_ids idx (ids idx ++ [id]) in
      Ok (Finalize idx, false)
  end.
End JSON.
End Index.

(** * The content of an index

    [index_repr idx c]: for each blob type [t], [c !! t] lists the blobs the
    index holds, with their packs, in insertion order. *)

Definition entry_pb (ps : list ID) (t : nat) (e : indexEntry) : PackedBlob :=
  mkPackedBlob
    (mkBlob (mkBlobHandle (e_id e) (Z.of_nat t)) (e_length e) (e_offset e) (e_uncompressedLength e))
    (ps !!! e_packIndex e).

Definition entries_ok (ps : list ID) (es : list indexEntry) : Prop :=
  Forall (fun e => (e_packIndex e < length ps)%nat /\ is_u32 (e_offset e) /\
                   is_u32 (e_length e) /\ is_u32 (e_uncompressedLength e)) es.

(** [table_repr ps t m c]: table [m] of type [t] holds the blobs [c]. *)
Definition table_repr (ps : list ID) (t : nat) (sum64 : list byte -> Z) (m : indexMap) (c : list PackedBlob) : Prop :=
  exists es, im_repr sum64 m es /\ entries_ok ps es /\ c = entry_pb ps t <$> es.

Section IndexFacts.
Context (sum64 : list byte -> Z).

Definition index_repr (idx : Index) (c : nat -> list PackedBlob) : Prop :=
  length (byType idx) = NumBlobTypes /\
  forall t m, byType idx !! t = Some m -> table_repr (packs idx) t sum64 m (c t).

(** A blob as Go's [uint] fields allow it. *)
Definition blob_uint (b : Blob) : Prop :=
  is_u64 (b_Offset b) /\ is_u64 (b_Length b) /\ is_u64 (b_UncompressedLength b).

(** A blob an index can hold. *)
Definition storable (b : Blob) : Prop :=
  is_u32 (b_Offset b) /\ is_u32 (b_Length b) /\ is_u32 (b_UncompressedLength b) /\
  0 <= b_Type b < Z.of_nat NumBlobTypes.

Definition of_type (t : nat) (pbs : list PackedBlob) : list PackedBlob :=
  filter (fun pb => b_Type (pb_Blob pb) = Z.of_nat t) pbs.

Definition pb_ID (pb : PackedBlob) : ID := b_ID (pb_Blob pb).

Lemma table_repr_packs ps ps' t m c :
  table_repr ps t sum64 m c -> table_repr (ps ++ ps') t sum64 m c.
Proof.
  intros (es & HR & Hok & ->). exists es. split; [done|]. unfold entries_ok in *. split.
  - eapply Forall_impl; [exact Hok|]. intros e He. rewrite length_app. cbn in *. split; [lia|apply He].
  - apply list_fmap_ext. intros i e He. unfold entry_pb. f_equal.
    eapply Forall_lookup in Hok; [|exact He]. cbn in Hok. symmetry. apply lookup_total_app_l. lia.
Qed.

Lemma table_Ok idx c t :
  index_repr idx c -> (t < NumBlobTypes)%nat ->
  exists m, table idx (Z.of_nat t) = Ok m /\ table_repr (packs idx) t sum64 m (c t).
Proof.
  intros [Hl HR] Ht. unfold table. rewrite Nat2Z.id.
  destruct (lookup_lt_is_Some_2 (byType idx) t ltac:(lia)) as [m Hm]. rewrite Hm. eauto.
Qed.

Lemma toPackedBlob_Ok idx es t e :
  entries_ok (packs idx) es -> e ∈ es ->
  toPackedBlob idx e (Z.of_nat t) = Ok (entry_pb (packs idx) t e).
Proof.
  intros Hok He. unfold toPackedBlob, entry_pb. eapply Forall_forall in Hok; [|exact He]. cbn in Hok.
  destruct (lookup_lt_is_Some_2 (packs idx) (e_packIndex e) ltac:(lia)) as [p Hp].
  rewrite Hp. by rewrite (list_lookup_total_correct _ _ _ Hp).
Qed.

Lemma toPackedBlob_content idx t : content_only (fun e => toPackedBlob idx e t).
Proof. done. Qed.

Lemma new_index_repr now : index_repr (NewIndex now) (fun _ => []).
Proof.
  split; [done|]. intros t m Hm. exists [].
  apply list_elem_of_lookup_2, elem_of_replicate_inv in Hm as ->.
  split; [apply emptyMap_repr|]. split; [constructor|done].
Qed.

(** ** Adding blobs *)
Lemma add_table idx c t m id pi off len_ ulen :
  index_repr idx c -> byType idx !! t = Some m ->
  (pi < length (packs idx))%nat -> is_u32 off -> is_u32 len_ -> is_u32 ulen ->
  exists m', add sum64 m id pi off len_ ulen = Ok m' /\
    index_repr (set_byType idx (<[t := m']> (byType idx)))
      (fun t' => if decide (t = t') then c t ++ [entry_pb (packs idx) t (mkEntry id 0 pi off len_ ulen)] else c t').
Proof.
  intros [Hl HR] Hm Hpi Ho Hle Hu. destruct (HR _ _ Hm) as (es & HRm & Hok & Hc).
  destruct (add_spec sum64 m es id pi off len_ ulen HRm) as (m' & E & HR').
  exists m'. split; [done|]. split; [cbn; by rewrite length_insert|]. cbn [byType packs set_byType].
  intros t' m0 Hm0. destruct (decide (t = t')) as [<-|Hne].
  - rewrite list_lookup_insert_eq in Hm0 by by eapply lookup_lt_Some. injection Hm0 as <-.
    eexists. split; [exact HR'|]. split.
    + unfold entries_ok. rewrite Forall_app, Forall_singleton. cbn. auto.
    + by rewrite Hc, fmap_app.
  - rewrite list_lookup_insert_ne in Hm0 by done. auto.
Qed.

Definition packed (packID : ID) (b : Blob) : PackedBlob := mkPackedBlob b packID.

Lemma store_blob_spec idx c pi b :
  index_repr idx c -> (pi < length (packs idx))%nat -> storable b ->
  exists idx', store_blob sum64 idx pi b = Ok idx' /\ packs idx' = packs idx /\
    (final idx' = final idx /\ ids idx' = ids idx /\ idx_supersedes idx' = idx_supersedes idx) /\
    index_repr idx' (fun t => c t ++ of_type t [packed (packs idx !!! pi) b]).
Proof.
  intros HI Hpi (Ho & Hle & Hu & Ht). unfold store_blob.
  assert (maxuint32 = 2 ^ 32 - 1) as Hmax by done.
  rewrite (proj2 (Z.ltb_ge _ (b_Offset b))), (proj2 (Z.ltb_ge _ (b_Length b))),
    (proj2 (Z.ltb_ge _ (b_UncompressedLength b))) by (unfold is_u32 in *; lia).
  cbn [orb]. assert (b_Type b = Z.of_nat (Z.to_nat (b_Type b))) as Hty by lia.
  assert (exists m, byType idx !! Z.to_nat (b_Type b) = Some m) as [m Hm].
  { apply lookup_lt_is_Some_2. destruct HI as [-> _]. lia. }
  unfold table. rewrite Hm. cbn [mbind outcome_bind]. rewrite !u32_id by done.
  destruct (add_table idx c _ m (b_ID b) pi _ _ _ HI Hm Hpi Ho Hle Hu) as (m' & E & HI').
  rewrite E. eexists. split; [done|]. split; [done|]. split; [done|].
  destruct HI' as [Hl HR']. split; [done|]. intros t m0 Hm0. specialize (HR' t m0 Hm0).
  unfold of_type. rewrite filter_cons, filter_nil. cbn [packed pb_Blob].
  destruct (decide (Z.to_nat (b_Type b) = t)) as [<-|Hne].
  - rewrite decide_True by done. unfold packed, entry_pb in *. cbn in HR'.
    rewrite <- Hty in HR'. by destruct b as [[]].
  - rewrite decide_False by lia. by rewrite app_nil_r.
Qed.

Lemma of_type_app t l1 l2 : of_type t (l1 ++ l2) = of_type t l1 ++ of_type t l2.
Proof. apply filter_app. Qed.

Lemma of_type_In t pb l : pb ∈ of_type t l <-> pb ∈ l /\ b_Type (pb_Blob pb) = Z.of_nat t.
Proof. unfold of_type. rewrite list_elem_of_filter. tauto. Qed.

Lemma index_repr_ext idx c c' : (forall t, c t = c' t) -> index_repr idx c -> index_repr idx c'.
Proof. intros He [Hl HR]. split; [done|]. intros t m Hm. rewrite <- He. auto. Qed.

Lemma index_repr_add_packs idx c ps :
  index_repr idx c -> index_repr (set_packs idx (packs idx ++ ps)) c.
Proof. intros [Hl HR]. split; [done|]. intros t m Hm. by apply table_repr_packs, HR. Qed.

(** The fields of an index other than its tables and packs. *)
Definition same_meta (a b : Index) : Prop :=
  final a = final b /\ ids a = ids b /\ idx_supersedes a = idx_supersedes b.

Lemma store_blobs_spec pi bs idx c :
  index_repr idx c -> (pi < length (packs idx))%nat -> Forall storable bs ->
  exists idx', ofold (fun idx b => store_blob sum64 idx pi b) idx bs = Ok idx' /\
    packs idx' = packs idx /\ same_meta idx' idx /\
    index_repr idx' (fun t => c t ++ of_type t (packed (packs idx !!! pi) <$> bs)).
Proof.
  revert idx c; induction bs as [|b bs IH]; intros idx c HI Hpi Hbs.
  - exists idx. split_and!; try done. eapply index_repr_ext; [|exact HI]. intros t. by rewrite app_nil_r.
  - apply Forall_cons in Hbs as [Hb Hbs].
    destruct (store_blob_spec idx c pi b HI Hpi Hb) as (idx1 & E1 & Hp1 & (Hf1 & Hi1 & Hs1) & HI1).
    destruct (IH idx1 _ HI1 ltac:(by rewrite Hp1) Hbs) as (idx' & E' & Hp' & (Hf' & Hi' & Hs') & HI').
    exists idx'. cbn [ofold]. rewrite E1. cbn [mbind outcome_bind].
    split_and!; [done|congruence|split_and!; congruence|].
    eapply index_repr_ext; [|exact HI']. intros t. cbn beta.
    rewrite Hp1, <- app_assoc, <- of_type_app. done.
Qed.

Lemma addToPacks_spec idx c id :
  index_repr idx c ->
  exists idx' pi, addToPacks idx id = (idx', pi) /\ index_repr idx' c /\ (pi < length (packs idx'))%nat /\
    packs idx' !!! pi = id /\ packs idx' = packs idx ++ [id] /\ same_meta idx' idx.
Proof.
  intros HI. eexists _, _. split; [done|]. cbn [packs set_packs]. rewrite length_app. cbn [length].
  split; [by apply index_repr_add_packs|]. split; [lia|].
  replace (length (packs idx) + 1 - 1)%nat with (length (packs idx)) by lia.
  split; [|done]. by rewrite lookup_total_app_r, Nat.sub_diag by lia.
Qed.

(** [StorePack] appends the blobs of the pack, each to the table of its type. *)
Lemma Index_StorePack_ok idx c id bs :
  index_repr idx c -> final idx = false -> Forall storable bs ->
  exists idx', Index_StorePack sum64 idx id bs = Ok idx' /\ packs idx' = packs idx ++ [id] /\
    same_meta idx' idx /\ index_repr idx' (fun t => c t ++ of_type t (packed id <$> bs)).
Proof.
  intros HI Hf Hbs. unfold Index_StorePack. rewrite Hf.
  destruct (addToPacks_spec idx c id HI) as (idx1 & pi & E1 & HI1 & Hpi & Hid & Hp & (? & ? & ?)). rewrite E1.
  destruct (store_blobs_spec pi bs idx1 c HI1 Hpi Hbs) as (idx' & E' & Hp' & (? & ? & ?) & HI').
  rewrite Hid in HI'. exists idx'. split_and!; [done|congruence|split_and!; congruence|done].
Qed.

(** ** Queries *)
Definition with_pid (id : ID) (l : list PackedBlob) : list PackedBlob :=
  filter (fun pb => pb_ID pb = id) l.

Lemma with_pid_fmap ps t id es :
  with_pid id (entry_pb ps t <$> es) = entry_pb ps t <$> with_id id es.
Proof.
  induction es as [|e es IH]; [done|]. unfold with_pid, with_id in *.
  rewrite fmap_cons, !filter_cons. change (pb_ID (entry_pb ps t e)) with (e_id e).
  destruct (decide (e_id e = id)); rewrite ?fmap_cons; by rewrite IH.
Qed.

Lemma with_id_In id es e : e ∈ with_id id es -> e ∈ es.
Proof. by intros [_ ?]%list_elem_of_filter. Qed.

Lemma table_type idx c bh :
  index_repr idx c -> 0 <= bh_Type bh < Z.of_nat NumBlobTypes ->
  exists m, table idx (bh_Type bh) = Ok m /\
    table_repr (packs idx) (Z.to_nat (bh_Type bh)) sum64 m (c (Z.to_nat (bh_Type bh))).
Proof.
  intros HI Ht. destruct (table_Ok idx c (Z.to_nat (bh_Type bh)) HI) as (m & E & HR); [lia|].
  rewrite Z2Nat.id in E by lia. eauto.
Qed.

Lemma Index_Lookup_ok idx c bh pbs :
  index_repr idx c -> 0 <= bh_Type bh < Z.of_nat NumBlobTypes ->
  Index_Lookup sum64 idx bh pbs =
    Ok (pbs ++ with_pid (bh_ID bh) (reverse (c (Z.to_nat (bh_Type bh))))).
Proof.
  intros HI Ht. destruct (table_type _ _ _ HI Ht) as (m & E & es & HR & Hok & ->).
  unfold Index_Lookup. rewrite E. cbn [mbind outcome_bind].
  rewrite (foreachWithID_spec sum64 m es) by done.
  rewrite <- fmap_reverse, with_pid_fmap.
  rewrite (ofold_ok _ (fun acc e => acc ++ [entry_pb (packs idx) (Z.to_nat (bh_Type bh)) e])).
  - rewrite fold_left_app_acc. f_equal. f_equal. induction (with_id _ _); [done|]. cbn. by f_equal.
  - intros s e He%with_id_In. rewrite elem_of_reverse in He.
    rewrite <- (Z2Nat.id (bh_Type bh)) at 1 by lia. by rewrite (toPackedBlob_Ok idx es).
Qed.

Lemma get_Ok idx c bh :
  index_repr idx c -> 0 <= bh_Type bh < Z.of_nat NumBlobTypes ->
  exists m o, table idx (bh_Type bh) = Ok m /\ get sum64 m (bh_ID bh) = Ok o /\
    entry_pb (packs idx) (Z.to_nat (bh_Type bh)) <$> o =
    head (with_pid (bh_ID bh) (reverse (c (Z.to_nat (bh_Type bh))))).
Proof.
  intros HI Ht. destruct (table_type _ _ _ HI Ht) as (m & E & es & HR & Hok & ->).
  destruct (get_spec sum64 m es (bh_ID bh) HR) as (o & Eo & Ho). exists m, o. split_and!; [done..|].
  rewrite <- fmap_reverse, with_pid_fmap.
  transitivity (entry_pb (packs idx) (Z.to_nat (bh_Type bh)) <$> (norm <$> o)); [by destruct o|].
  rewrite Ho. by destruct (with_id _ _).
Qed.

Lemma Index_Has_ok idx c bh :
  index_repr idx c -> 0 <= bh_Type bh < Z.of_nat NumBlobTypes ->
  Index_Has sum64 idx bh =
    Ok (bool_decide (bh_ID bh ∈ pb_ID <$> c (Z.to_nat (bh_Type bh)))).
Proof.
  intros HI Ht. destruct (get_Ok _ _ _ HI Ht) as (m & o & E & Eo & Ho).
  unfold Index_Has. rewrite E. cbn [mbind outcome_bind]. rewrite Eo. cbn [mbind outcome_bind]. f_equal.
  symmetry. destruct o as [e|]; cbn in Ho.
  - apply bool_decide_eq_true, list_elem_of_fmap. symmetry in Ho.
    exists (entry_pb (packs idx) (Z.to_nat (bh_Type bh)) e).
    apply head_Some_elem_of in Ho. unfold with_pid in Ho.
    rewrite list_elem_of_filter, elem_of_reverse in Ho. naive_solver.
  - apply bool_decide_eq_false. intros (pb & Hid & Hpb)%list_elem_of_fmap. symmetry in Ho.
    apply head_None in Ho. apply (not_elem_of_nil pb). rewrite <- Ho. unfold with_pid.
    by rewrite list_elem_of_filter, elem_of_reverse.
Qed.

Lemma Index_LookupSize_ok idx c bh :
  index_repr idx c -> 0 <= bh_Type bh < Z.of_nat NumBlobTypes ->
  Index_LookupSize sum64 idx bh =
    Ok ((fun pb => DataLength (pb_Blob pb)) <$>
        head (with_pid (bh_ID bh) (reverse (c (Z.to_nat (bh_Type bh)))))).
Proof.
  intros HI Ht. destruct (table_type _ _ _ HI Ht) as (m & E & es & HR & Hok & Hc).
  destruct (get_Ok _ _ _ HI Ht) as (m' & o & E' & Eo & Ho).
  rewrite E in E'. injection E' as <-.
  unfold Index_LookupSize. rewrite E. cbn [mbind outcome_bind]. rewrite Eo. cbn [mbind outcome_bind].
  rewrite <- Ho. destruct o as [e|]; [|done]. cbn. unfold DataLength. cbn.
  assert (is_u32 (e_length e)) as Hl.
  { cbn in Ho. symmetry in Ho. apply head_Some_elem_of in Ho. unfold with_pid in Ho.
    rewrite list_elem_of_filter, elem_of_reverse, Hc, list_elem_of_fmap in Ho.
    destruct Ho as (_ & e' & He' & Hin). eapply Forall_forall in Hok; [|exact Hin].
    unfold entry_pb in He'. injection He' as _ -> _ _ _. apply Hok. }
  rewrite i64_id by (unfold is_i64, is_u32 in *; lia). by destruct (negb _).
Qed.

(** ** Iteration *)

(** All blobs, type by type. *)
Definition all_blobs (c : nat -> list PackedBlob) : list PackedBlob :=
  concat (c <$> seq 0 NumBlobTypes).

(** Visit blobs until the context is cancelled. *)
Fixpoint each_until {S} (ctxErr : S -> bool) (fn : S -> PackedBlob -> outcome S) (s : S)
    (pbs : list PackedBlob) : outcome S :=
  match pbs with
  | [] => Ok s
  | pb :: pbs => if ctxErr s then Ok s else try s <- fn s pb; each_until ctxErr fn s pbs
  end.

Lemma each_until_cancelled {S} (ctxErr : S -> bool) fn s pbs :
  ctxErr s = true -> each_until ctxErr fn s pbs = Ok s.
Proof. intros H. destruct pbs; [done|]. cbn. by rewrite H. Qed.

Lemma each_until_app {S} (ctxErr : S -> bool) fn s l1 l2 :
  each_until ctxErr fn s (l1 ++ l2) =
  try s <- each_until ctxErr fn s l1; each_until ctxErr fn s l2.
Proof.
  revert s; induction l1 as [|pb l1 IH]; intros s; [done|]. cbn.
  destruct (ctxErr s) eqn:E; [cbn; by rewrite each_until_cancelled|].
  destruct (fn s pb); cbn; auto.
Qed.

Lemma each_until_never {S} (fn : S -> PackedBlob -> outcome S) s l :
  each_until (fun _ => false) fn s l = ofold fn s l.
Proof. revert s; induction l as [|pb l IH]; intros s; [done|]. cbn. by destruct (fn s pb); cbn. Qed.

Lemma types_seq idx c : index_repr idx c -> types idx = seq 0 NumBlobTypes.
Proof. intros [Hl _]. unfold types. by rewrite Hl. Qed.

Lemma Index_Each_ok {S} (ctxErr : S -> bool) idx c fn s :
  index_repr idx c -> Index_Each ctxErr idx fn s = each_until ctxErr fn s (all_blobs c).
Proof.
  intros HI. unfold Index_Each, all_blobs. rewrite (types_seq _ _ HI).
  assert (forall l s, Forall (fun t => t < NumBlobTypes)%nat l ->
    ofold (fun s typ => try m <- table idx (Z.of_nat typ);
      foreach (fun s e => if ctxErr s then Ok (s, false)
        else try pb <- toPackedBlob idx e (Z.of_nat typ); try s <- fn s pb; Ok (s, true)) m s) s l =
    each_until ctxErr fn s (concat (c <$> l))) as Hg.
  { induction l as [|t l IH]; intros s' Hl; [done|]. apply Forall_cons in Hl as [Ht Hl].
    cbn [ofold fmap list_fmap concat]. rewrite each_until_app.
    destruct (table_Ok idx c t HI Ht) as (m & E & es & HR & Hok & ->).
    rewrite E. cbn [mbind outcome_bind].
    rewrite (foreach_spec sum64 _ m es) by done.
    assert (forall es1 s1, es1 ⊆ es ->
      fold_while (fun s e => if ctxErr s then Ok (s, false)
        else try pb <- toPackedBlob idx e (Z.of_nat t); try s <- fn s pb; Ok (s, true)) es1 s1 =
      each_until ctxErr fn s1 (entry_pb (packs idx) t <$> es1)) as ->; [| |done].
    { induction es1 as [|e es1 IHe]; intros s1 Hsub; [done|]. cbn.
      destruct (ctxErr s1); [done|]. rewrite (toPackedBlob_Ok idx es) by (done || set_solver).
      cbn. destruct (fn s1 _); cbn; [|done..]. apply IHe. set_solver. }
    destruct (each_until _ _ _ _); cbn; [by apply IH|done..]. }
  apply Hg. repeat constructor.
Qed.

Lemma all_blobs_In idx c pb :
  index_repr idx c -> pb ∈ all_blobs c <->
  exists t, (t < NumBlobTypes)%nat /\ pb ∈ c t.
Proof.
  intros _. unfold all_blobs. rewrite list_elem_of_In, in_concat. split.
  - intros (l & Hl%list_elem_of_In & Hpb%list_elem_of_In).
    apply list_elem_of_fmap in Hl as (t & -> & Ht%elem_of_seq). exists t. split; [lia|done].
  - intros (t & Ht & Hpb). exists (c t). split; apply list_elem_of_In; [|done].
    apply list_elem_of_fmap. exists t. split; [done|]. apply elem_of_seq. lia.
Qed.

Lemma content_type idx c t pb :
  index_repr idx c -> (t < NumBlobTypes)%nat -> pb ∈ c t -> b_Type (pb_Blob pb) = Z.of_nat t.
Proof.
  intros HI Ht Hpb. destruct (table_Ok idx c t HI Ht) as (m & _ & es & _ & _ & Hc).
  rewrite Hc, list_elem_of_fmap in Hpb. by destruct Hpb as (e & -> & _).
Qed.

Lemma of_type_all idx c t :
  index_repr idx c -> (t < NumBlobTypes)%nat -> of_type t (all_blobs c) = c t.
Proof.
  intros HI Ht.
  assert (forall t', (t' < NumBlobTypes)%nat -> of_type t (c t') = if decide (t' = t) then c t else []) as Hot.
  { intros t' Ht'. case_decide as Htt.
    - subst. apply filter_all. apply Forall_forall. intros pb Hpb. by eapply content_type.
    - apply filter_none. apply Forall_forall. intros pb Hpb.
      pose proof (content_type _ _ _ _ HI Ht' Hpb). cbn. lia. }
  unfold all_blobs. cbn [seq NumBlobTypes fmap list_fmap concat].
  rewrite !of_type_app, !Hot by (unfold NumBlobTypes; lia).
  unfold of_type. rewrite filter_nil, app_nil_r.
  destruct t as [|[|[|t]]]; cbn; rewrite ?app_nil_r; try done. unfold NumBlobTypes in Ht. lia.
Qed.

(** ** Merging *)

(** The blobs of [l2] that are not yet present are appended. *)
Definition merge_new (l1 l2 : list PackedBlob) : list PackedBlob :=
  fold_left (fun acc pb => if bool_decide (pb ∈ acc) then acc else acc ++ [pb]) l2 l1.

Lemma merge_new_In l1 l2 pb : pb ∈ merge_new l1 l2 <-> pb ∈ l1 \/ pb ∈ l2.
Proof.
  unfold merge_new. revert l1; induction l2 as [|x l2 IH]; intros l1; cbn; [set_solver|].
  rewrite IH. case_bool_decide; set_solver.
Qed.

Lemma merge_new_NoDup l1 l2 : NoDup l1 -> NoDup (merge_new l1 l2).
Proof.
  unfold merge_new. revert l1; induction l2 as [|x l2 IH]; intros l1 Hl; cbn; [done|].
  apply IH. case_bool_decide; [done|]. apply NoDup_app. split; [done|].
  split; [set_solver|apply NoDup_singleton].
Qed.

Lemma ofold_exists (e2 : PackedBlob) (l : list PackedBlob) found :
  fold_left (fun found b => if bool_decide (b = e2) then true else found) l found =
  found || bool_decide (e2 ∈ l).
Proof.
  revert found; induction l as [|b l IH]; intros found; cbn.
  - rewrite bool_decide_eq_false_2 by set_solver. by rewrite orb_false_r.
  - rewrite IH. destruct (decide (b = e2)) as [->|Hne].
    + rewrite (bool_decide_eq_true_2 (e2 = e2)) by done.
      rewrite (bool_decide_eq_true_2 (e2 ∈ e2 :: l)) by set_solver. by rewrite orb_true_r.
    + rewrite (bool_decide_eq_false_2 (b = e2)) by done. f_equal. apply bool_decide_ext. set_solver.
Qed.

Lemma hasIdenticalEntry_ok idx idx2 m t es e2 es2 :
  im_repr sum64 m es -> entries_ok (packs idx) es -> entries_ok (packs idx2) es2 -> e2 ∈ es2 ->
  hasIdenticalEntry sum64 idx idx2 m t e2 =
    Ok (bool_decide (entry_pb (packs idx2) t e2 ∈ entry_pb (packs idx) t <$> es)).
Proof.
  intros HR Hok Hok2 He2. unfold hasIdenticalEntry.
  rewrite (foreachWithID_spec sum64 m es) by done.
  rewrite (ofold_ok _ (fun found e =>
    if bool_decide (entry_pb (packs idx) t e = entry_pb (packs idx2) t e2) then true else found)).
  - f_equal. set (b2 := entry_pb (packs idx2) t e2).
    transitivity (fold_left (fun found b => if bool_decide (b = b2) then true else found)
      (entry_pb (packs idx) t <$> with_id (e_id e2) (reverse es)) false).
    + generalize false. induction (with_id _ _); [done|]. cbn. intros b. apply IHl.
    + rewrite ofold_exists. cbn [orb]. rewrite <- with_pid_fmap. apply bool_decide_ext.
      unfold with_pid. rewrite list_elem_of_filter, fmap_reverse, elem_of_reverse. split; [tauto|].
      intros Hin. split; [done|done].
  - intros s e He%with_id_In. rewrite elem_of_reverse in He.
    rewrite (toPackedBlob_Ok idx es), (toPackedBlob_Ok idx2 es2) by done. done.
Qed.

Lemma merge_type_ok packlen idx idx2 c c2 t :
  (t < NumBlobTypes)%nat -> index_repr idx c -> index_repr idx2 c2 ->
  (packlen + length (packs idx2) = length (packs idx))%nat ->
  (forall i, (i < length (packs idx2))%nat -> packs idx !! (i + packlen)%nat = packs idx2 !! i) ->
  exists idx', merge_type sum64 packlen idx2 idx t = Ok idx' /\ packs idx' = packs idx /\
    same_meta idx' idx /\
    index_repr idx' (fun t' => if decide (t = t') then merge_new (c t) (c2 t) else c t').
Proof.
  intros Ht HI HI2 Hlen Hshift. unfold merge_type.
  destruct (table_Ok idx2 c2 t HI2 Ht) as (m2 & E2 & es2 & HR2 & Hok2 & Hc2).
  destruct (table_Ok idx c t HI Ht) as (m & E & HT).
  rewrite E2, E. cbn [mbind outcome_bind]. rewrite (foreach_spec sum64 _ m2 es2) by done.
  rewrite (fold_while_go _ (fun m e2 =>
    try found <- hasIdenticalEntry sum64 idx idx2 m t e2;
    if negb found then add sum64 m (e_id e2) (e_packIndex e2 + packlen)%nat (e_offset e2) (e_length e2)
                 (e_uncompressedLength e2) else Ok m)); last first.
  { intros s e _. destruct (hasIdenticalEntry _ _ _ _ _ _) as [[]| |]; try done. }
  destruct (ofold_step (fun done m' => table_repr (packs idx) t sum64 m'
      (merge_new (c t) (entry_pb (packs idx2) t <$> done)))
    (fun m e2 => try found <- hasIdenticalEntry sum64 idx idx2 m t e2;
      if negb found then add sum64 m (e_id e2) (e_packIndex e2 + packlen)%nat (e_offset e2) (e_length e2)
                 (e_uncompressedLength e2) else Ok m) m es2) as (m' & E' & HT'); [done| |].
  - intros l1 e2 l2 m1 Hes (es1 & HR1 & Hok1 & Hc1).
    assert (e2 ∈ es2) as He2 by (rewrite Hes; set_solver).
    rewrite (hasIdenticalEntry_ok idx idx2 m1 t es1 e2 es2) by done. cbn [mbind outcome_bind].
    rewrite fmap_app. unfold merge_new in *. rewrite fold_left_app. cbn [fmap list_fmap fold_left].
    rewrite Hc1. case_bool_decide as Hin; cbn [negb]; [by exists m1; split; [done|exists es1]|].
    pose proof (proj1 (Forall_forall _ _) Hok2 e2 He2) as (Hpi & Ho & Hl & Hu). cbn in Hpi.
    destruct (add_spec sum64 m1 es1 (e_id e2) (e_packIndex e2 + packlen) (e_offset e2) (e_length e2)
      (e_uncompressedLength e2) HR1) as (m' & E' & HR').
    exists m'. split; [exact E'|]. eexists. split; [exact HR'|]. split.
    + unfold entries_ok. rewrite Forall_app, Forall_singleton. cbn. split; [done|]. split_and!; try done. lia.
    + rewrite fmap_app. cbn. do 2 f_equal. unfold entry_pb. cbn. f_equal.
      apply list_lookup_total_correct. rewrite <- Hshift by done. apply list_lookup_lookup_total_lt. lia.
  - rewrite E'. cbn [mbind outcome_bind]. eexists. split; [done|]. split; [done|]. split; [done|].
    destruct HI as [Hl3 HIt]. split; [cbn; by rewrite length_insert|].
    intros t' m0 Hm0. cbn [byType packs set_byType] in *. case_decide as Htt.
    + subst t'. rewrite list_lookup_insert_eq in Hm0 by lia. injection Hm0 as <-. by rewrite Hc2.
    + rewrite list_lookup_insert_ne in Hm0 by done. by apply HIt.
Qed.

Lemma merge_ok idx idx2 c c2 :
  index_repr idx c -> index_repr idx2 c2 -> final idx2 = true ->
  exists idx', merge sum64 idx idx2 = Ok idx' /\
    final idx' = final idx /\ packs idx' = packs idx ++ packs idx2 /\
    ids idx' = ids idx ++ ids idx2 /\ idx_supersedes idx' = idx_supersedes idx ++ idx_supersedes idx2 /\
    index_repr idx' (fun t => if decide (t < NumBlobTypes)%nat then merge_new (c t) (c2 t) else c t).
Proof.
  intros HI HI2 Hf. unfold merge. rewrite Hf. cbn [negb]. rewrite (types_seq _ _ HI2).
  set (idx0 := set_packs idx (packs idx ++ packs idx2)).
  assert (length (packs idx) + length (packs idx2) = length (packs idx0))%nat as Hlen by (unfold idx0; cbn; by rewrite length_app).
  destruct (ofold_step (fun ts idx' => packs idx' = packs idx0 /\ same_meta idx' idx0 /\
      index_repr idx' (fun t => if decide (t ∈ ts) then merge_new (c t) (c2 t) else c t))
    (merge_type sum64 (length (packs idx)) idx2) idx0 (seq 0 NumBlobTypes))
    as (idx' & E & Hp & (Hf' & Hi' & Hs') & HI').
  - split; [done|]. split; [done|]. eapply index_repr_ext; [|by apply index_repr_add_packs].
    intros t. rewrite decide_False by set_solver. done.
  - intros ts t ts2 idx1 Hts (Hp1 & (? & ? & ?) & HI1).
    assert (t ∈ seq 0 NumBlobTypes) as Ht%elem_of_seq by (rewrite Hts; set_solver).
    assert (t ∉ ts) as Hnt.
    { pose proof (NoDup_seq 0 NumBlobTypes) as Hnd. rewrite Hts in Hnd.
      apply NoDup_app in Hnd as (_ & Hd & _). intros Hin. apply (Hd t Hin). by left. }
    destruct (merge_type_ok (length (packs idx)) idx1 idx2 _ c2 t ltac:(lia) HI1 HI2)
      as (idx' & E & Hp' & (? & ? & ?) & HI').
    + rewrite Hp1, <- Hlen. lia.
    + intros i Hi. rewrite Hp1. cbn. rewrite lookup_app_r by lia. f_equal. lia.
    + exists idx'. split; [done|]. split; [congruence|]. split; [split_and!; congruence|].
      eapply index_repr_ext; [|exact HI']. intros t'. cbn beta. rewrite (decide_False (P := t ∈ ts)) by done.
      destruct (decide (t = t')) as [<-|Hne]; [by rewrite decide_True by set_solver|].
      destruct (decide (t' ∈ ts)); [rewrite decide_True by set_solver|rewrite decide_False by set_solver]; done.
  - rewrite E. cbn [mbind outcome_bind]. eexists. split; [done|]. cbn.
    split_and!; [by rewrite Hf'|done|by rewrite Hi'|by rewrite Hs'|].
    destruct HI' as [Hl HI']. split; [done|]. cbn. intros t m Hm. specialize (HI' t m Hm).
    assert (t < NumBlobTypes)%nat by (apply lookup_lt_Some in Hm; lia).
    rewrite decide_True by done. by rewrite decide_True in HI' by (apply elem_of_seq; lia).
Qed.

(** ** Index files *)
Definition blob_of_json (b : blobJSON) : Blob :=
  mkBlob (mkBlobHandle (bj_ID b) (bj_Type b)) (bj_Length b) (bj_Offset b) (bj_UncompressedLength b).

Definition pack_blobs (p : packJSON) : list PackedBlob :=
  packed (pj_ID p) <$> (blob_of_json <$> pj_Blobs p).

(** The blobs an index file lists. *)
Definition file_blobs (L : list packJSON) : list PackedBlob := concat (pack_blobs <$> L).

Lemma file_blobs_app L1 L2 : file_blobs (L1 ++ L2) = file_blobs L1 ++ file_blobs L2.
Proof. unfold file_blobs. by rewrite fmap_app, concat_app. Qed.

(** The state of [generatePackList]: [seen] locates every pack of the list. *)
Record pack_list_inv (L : list packJSON) (seen : gmap ID nat) (done : list PackedBlob) : Prop := {
  pli_seen pid i : seen !! pid = Some i <-> exists p, L !! i = Some p /\ pj_ID p = pid;
  pli_blobs : file_blobs L ≡ₚ done }.

Definition json_of_entry (t : nat) (e : indexEntry) : blobJSON :=
  mkBlobJSON (e_id e) (Z.of_nat t) (e_offset e) (e_length e) (e_uncompressedLength e).

Lemma pack_list_step L seen processed ps t e :
  pack_list_inv L seen processed ->
  let pid := ps !!! e_packIndex e in
  let '(i, L', seen') :=
    match seen !! pid with
    | Some i => (i, L, seen)
    | None => (length L, L ++ [mkPackJSON pid []], <[pid := length L]> seen)
    end in
  pack_list_inv (alter (fun p => mkPackJSON (pj_ID p) (pj_Blobs p ++ [json_of_entry t e])) i L') seen'
    (processed ++ [entry_pb ps t e]).
Proof.
  intros [Hseen Hb] pid. set (f := fun p => _).
  assert (pack_blobs (mkPackJSON pid [json_of_entry t e]) = [entry_pb ps t e]) as Hone by done.
  destruct (seen !! pid) as [i|] eqn:Hs.
  - apply Hseen in Hs as Hp. destruct Hp as (p & Hp & Hpid). split.
    + intros pid' j. rewrite Hseen. rewrite list_lookup_alter. case_decide as Hij; [subst j|done].
      rewrite Hp. cbn. split; intros (p' & [= <-] & <-); by eexists.
    + rewrite (list_alter_Some _ _ _ _ Hp).
      apply list_elem_of_split_length in Hp as (L1 & L2 & -> & ->).
      rewrite insert_app_r_alt, Nat.sub_diag by lia. cbn [insert list_insert].
      assert (pack_blobs (f p) = pack_blobs p ++ [entry_pb ps t e]) as Hfp.
      { unfold pack_blobs, f. cbn [pj_ID pj_Blobs]. by rewrite !fmap_app, Hpid. }
      rewrite <- Hb, !file_blobs_app. unfold file_blobs. cbn [fmap list_fmap concat].
      unfold file_blobs in *. change (list_fmap packJSON (list PackedBlob) pack_blobs) with (fmap (M:=list) pack_blobs).
      rewrite Hfp, <- !app_assoc. do 2 apply Permutation_app_head. apply Permutation_app_comm.
  - split.
    + intros pid' j. rewrite list_alter_Some with (x := mkPackJSON pid []);
        [|by rewrite lookup_app_r, Nat.sub_diag by lia].
      rewrite insert_app_r_alt, Nat.sub_diag by lia. cbn [list_insert insert].
      destruct (decide (pid = pid')) as [<-|Hne].
      * rewrite lookup_insert_eq. split.
        -- intros [= <-]. eexists. rewrite lookup_app_r, Nat.sub_diag by lia. by split.
        -- intros (p & Hp & Hpid). destruct (decide (j < length L)%nat).
           ++ rewrite lookup_app_l in Hp by lia.
              assert (seen !! pid = Some j) by (apply Hseen; eauto). congruence.
           ++ apply lookup_lt_Some in Hp. rewrite length_app in Hp. cbn in Hp. f_equal. lia.
      * rewrite lookup_insert_ne, Hseen by done. split.
        -- intros (p & Hp & Hpid). exists p. split; [|done]. apply lookup_app_l_Some. done.
        -- intros (p & Hp & Hpid). apply lookup_app_Some in Hp as [Hp|[? Hp]]; [by eauto|].
           apply list_lookup_singleton_Some in Hp as [_ <-]. done.
    + rewrite list_alter_Some with (x := mkPackJSON pid []);
        [|by rewrite lookup_app_r, Nat.sub_diag by lia].
      rewrite insert_app_r_alt, Nat.sub_diag by lia. cbn [list_insert insert].
      rewrite file_blobs_app, Hb. unfold file_blobs, f. cbn [fmap list_fmap concat pj_ID pj_Blobs app].
      by rewrite Hone, app_nil_r.
Qed.

Lemma packListEntry_ok idx t L seen processed e :
  pack_list_inv L seen processed -> (e_packIndex e < length (packs idx))%nat ->
  packs idx !!! e_packIndex e <> nullID ->
  exists L' seen', packListEntry idx t (L, seen) e = Ok (L', seen', true) /\
    pack_list_inv L' seen' (processed ++ [entry_pb (packs idx) t e]).
Proof.
  intros Hinv Hpi He. unfold packListEntry. rewrite (list_lookup_lookup_total_lt _ _ Hpi).
  unfold IsNull. rewrite bool_decide_eq_false_2 by done.
  pose proof (pack_list_step L seen processed (packs idx) t e Hinv) as Hst. cbv zeta in Hst.
  destruct (seen !! _) as [i|]; eauto.
Qed.

Lemma generatePackList_ok idx c :
  index_repr idx c -> Forall (fun pb => pb_PackID pb <> nullID) (all_blobs c) ->
  exists L, generatePackList idx = Ok L /\ file_blobs L ≡ₚ all_blobs c.
Proof.
  intros HI Hnull. unfold generatePackList. rewrite (types_seq _ _ HI).
  destruct (ofold_step (fun ts st => pack_list_inv st.1 st.2 (concat (c <$> ts)))
    (fun st typ => try m <- table idx (Z.of_nat typ); foreach (packListEntry idx typ) m st)
    ([], ∅) (seq 0 NumBlobTypes)) as ([L seen] & E & Hinv).
  - split; [|done]. intros pid i. cbn [fst snd]. rewrite lookup_empty. split; [done|]. by intros (p & Hp & _).
  - intros ts t ts2 [L seen] Hts Hinv.
    assert (t < NumBlobTypes)%nat as Ht.
    { assert (t ∈ seq 0 NumBlobTypes) as Hin by (rewrite Hts; set_solver). apply elem_of_seq in Hin. lia. }
    destruct (table_Ok idx c t HI Ht) as (m & Em & es & HR & Hok & Hc).
    rewrite Em. cbn [mbind outcome_bind]. rewrite (foreach_spec sum64 _ m es); [|done|by intros [? ?]].
    rewrite fmap_app, concat_app. cbn [fmap list_fmap concat]. rewrite app_nil_r, Hc.
    assert (Forall (fun e => packs idx !!! e_packIndex e <> nullID) es) as Hne.
    { apply Forall_forall. intros e He. rewrite Forall_forall in Hnull.
      apply (Hnull (entry_pb (packs idx) t e)). apply (all_blobs_In _ _ _ HI). exists t.
      split; [done|]. rewrite Hc. apply list_elem_of_fmap. eauto. }
    clear HR Em Hc. revert L seen Hinv. generalize (concat (c <$> ts)).
    induction es as [|e es IH]; intros processed L seen Hinv.
    + exists (L, seen). cbn. by rewrite app_nil_r.
    + apply Forall_cons in Hok as [(Hpi & _) Hok]. apply Forall_cons in Hne as [He Hne].
      destruct (packListEntry_ok idx t L seen processed e Hinv Hpi He) as (L' & seen' & E1 & Hst).
      cbn [fold_while]. rewrite E1. cbn [mbind outcome_bind negb].
      destruct (IH Hok Hne _ _ _ Hst) as (s' & E' & H'). exists s'. split; [exact E'|].
      rewrite fmap_cons. by rewrite <- app_assoc in H'.
  - rewrite E. cbn [mbind outcome_bind]. exists L. split; [done|apply Hinv].
Qed.

Lemma decode_packs_ok L idx c :
  index_repr idx c -> Forall (fun pb => storable (pb_Blob pb)) (file_blobs L) ->
  exists idx',
    ofold (fun idx pack =>
      let '(idx, packID) := addToPacks idx (pj_ID pack) in
      ofold (fun idx blob => store_blob sum64 idx packID (blob_of_json blob)) idx (pj_Blobs pack)) idx L = Ok idx' /\
    same_meta idx' idx /\ index_repr idx' (fun t => c t ++ of_type t (file_blobs L)).
Proof.
  revert idx c; induction L as [|p L IH]; intros idx c HI HF.
  - exists idx. split_and!; try done. eapply index_repr_ext; [|exact HI]. intros t. by rewrite app_nil_r.
  - unfold file_blobs in HF. cbn in HF. apply Forall_app in HF as [Hp HF].
    destruct (addToPacks_spec idx c (pj_ID p) HI) as (idx1 & pi & E1 & HI1 & Hpi & Hid & _ & (? & ? & ?)).
    cbn [ofold]. rewrite E1.
    destruct (store_blobs_spec pi (blob_of_json <$> pj_Blobs p) idx1 c HI1 Hpi) as (idx2 & E2 & _ & (? & ? & ?) & HI2).
    { apply Forall_fmap. unfold pack_blobs in Hp. by rewrite !Forall_fmap in Hp. }
    assert (forall bs i, ofold (fun i b => store_blob sum64 i pi (blob_of_json b)) i bs =
      ofold (fun i b => store_blob sum64 i pi b) i (blob_of_json <$> bs)) as Hof.
    { induction bs as [|b bs IHb]; intros i; [done|]. cbn. destruct (store_blob _ _ _ _); cbn; auto. }
    rewrite Hof, E2. cbn [mbind outcome_bind].
    destruct (IH idx2 _ HI2 HF) as (idx' & E' & (? & ? & ?) & HI').
    exists idx'. split; [exact E'|]. split; [split_and!; congruence|].
    eapply index_repr_ext; [|exact HI']. intros t. cbn beta.
    rewrite <- app_assoc, <- of_type_app, Hid. done.
Qed.

Lemma content_storable idx c :
  index_repr idx c -> Forall (fun pb => storable (pb_Blob pb)) (all_blobs c).
Proof.
  intros HI. apply Forall_forall. intros pb (t & Ht & Hpb)%(all_blobs_In _ _ _ HI).
  destruct (table_Ok idx c t HI Ht) as (m & _ & es & _ & Hok & Hc).
  rewrite Hc, list_elem_of_fmap in Hpb. destruct Hpb as (e & -> & He).
  eapply Forall_forall in Hok; [|exact He]. unfold storable. cbn. naive_solver lia.
Qed.
End IndexFacts.

(** * Correctness of the index *)

Section Correctness.
Context (sum64 : list byte -> Z).

Definition valid_type (bh : BlobHandle) : Prop := 0 <= bh_Type bh < Z.of_nat NumBlobTypes.

(** The blobs of a handle in a list, newest first. *)
Definition newest_first (bh : BlobHandle) (pbs : list PackedBlob) : list PackedBlob :=
  filter (fun pb => b_handle (pb_Blob pb) = bh) (reverse pbs).

Lemma with_pid_of_type bh pbs :
  valid_type bh ->
  with_pid (bh_ID bh) (reverse (of_type (Z.to_nat (bh_Type bh)) pbs)) = newest_first bh pbs.
Proof.
  intros Ht. unfold with_pid, of_type, newest_first. rewrite <- filter_reverse, list_filter_filter.
  apply list_filter_ext. intros [[[id t] l o u] p] _. destruct bh as [id' t']. unfold valid_type in Ht.
  unfold pb_ID, b_ID, b_Type. cbn in *. rewrite Z2Nat.id by lia. split; [intros [-> ->]; done|intros [= -> ->]; done].
Qed.

(** Store packs one after the other. *)
Definition store_packs (idx : Index) (ps : list (ID * list Blob)) : outcome Index :=
  ofold (fun idx p => Index_StorePack sum64 idx p.1 p.2) idx ps.

Definition packs_blobs (ps : list (ID * list Blob)) : list PackedBlob :=
  concat ((fun p : ID * list Blob => packed p.1 <$> p.2) <$> ps).

Lemma store_packs_ok idx c ps :
  index_repr sum64 idx c -> final idx = false -> (forall p, p ∈ ps -> Forall storable p.2) ->
  exists idx', store_packs idx ps = Ok idx' /\ packs idx' = packs idx ++ (fst <$> ps) /\
    same_meta idx' idx /\ index_repr sum64 idx' (fun t => c t ++ of_type t (packs_blobs ps)).
Proof.
  revert idx c; induction ps as [|p ps IH]; intros idx c HI Hf Hs.
  - exists idx. cbn. rewrite app_nil_r. split_and!; try done.
    eapply index_repr_ext; [|exact HI]. intros t. cbn. by rewrite app_nil_r.
  - destruct (Index_StorePack_ok sum64 idx c p.1 p.2 HI Hf) as (i1 & E1 & Hp1 & Hm1 & HI1); [apply Hs; by left|].
    destruct (IH i1 _ HI1) as (i2 & E2 & Hp2 & Hm2 & HI2).
    { destruct Hm1 as (-> & _). done. }
    { intros q Hq. apply Hs. by right. }
    exists i2. unfold store_packs in *. cbn [ofold]. rewrite E1. cbn [mbind outcome_bind].
    split; [exact E2|]. split; [by rewrite Hp2, Hp1, <- app_assoc|]. split.
    + destruct Hm1 as (? & ? & ?), Hm2 as (? & ? & ?). split_and!; congruence.
    + eapply index_repr_ext; [|exact HI2]. intros t. cbn beta. unfold packs_blobs. rewrite fmap_cons, concat_cons.
      by rewrite of_type_app, <- app_assoc.
Qed.
End Correctness.

(** Storing packs in a new index and asking for a blob: [Lookup] yields every
    copy stored under that ID and type, with its pack, the most recent first;
    [Has] tells whether there is one, and [LookupSize] is the data length of
    the most recent one. *)
Theorem index_store_lookup (sum64 : list byte -> Z) (now : Z) (ps : list (ID * list Blob))
    (Hps : forall p, p ∈ ps -> Forall storable p.2) :
  exists idx, store_packs sum64 (NewIndex now) ps = Ok idx /\ packs idx = fst <$> ps /\
    forall bh, valid_type bh ->
      Index_Lookup sum64 idx bh [] = Ok (newest_first bh (packs_blobs ps)) /\
      Index_Has sum64 idx bh = Ok (bool_decide (bh ∈ b_handle <$> (pb_Blob <$> packs_blobs ps))) /\
      Index_LookupSize sum64 idx bh =
        Ok ((fun pb => DataLength (pb_Blob pb)) <$> head (newest_first bh (packs_blobs ps))).
Proof.
  destruct (store_packs_ok sum64 (NewIndex now) (fun _ => []) ps (new_index_repr sum64 now) eq_refl Hps)
    as (idx & E & Hp & _ & HI).
  exists idx. split; [done|]. split; [done|]. intros bh Ht.
  rewrite (Index_Lookup_ok _ _ _ _ _ HI Ht), (Index_LookupSize_ok _ _ _ _ HI Ht).
  cbn [app]. rewrite with_pid_of_type by done. split; [done|]. split; [|done].
  rewrite (Index_Has_ok _ _ _ _ HI Ht). f_equal. apply bool_decide_ext. cbn [app].
  rewrite <- list_fmap_compose, !list_elem_of_fmap. destruct bh as [id t]; unfold valid_type in Ht; cbn in *. split.
  - intros (pb & -> & [Hpb Hty]%of_type_In). exists pb. split; [|done].
    rewrite Z2Nat.id in Hty by lia. subst. unfold pb_ID, b_ID, b_Type. by destruct (b_handle (pb_Blob pb)).
  - intros (pb & Hh & Hpb). exists pb. unfold pb_ID, b_ID. rewrite <- Hh. split; [done|].
    apply of_type_In. split; [done|]. unfold b_Type. rewrite <- Hh. cbn. lia.
Qed.

(** A concrete instance: two packs, one blob stored twice. *)
Definition ex_id (b : byte) : ID := copy_id [b].
Definition ex_blob (b : byte) (t len_ off : Z) : Blob := mkBlob (mkBlobHandle (ex_id b) t) len_ off 0.
Definition ex_packs : list (ID * list Blob) :=
  [(ex_id "001"%byte, [ex_blob "a"%byte DataBlob 40 0; ex_blob "b"%byte TreeBlob 50 40]);
   (ex_id "002"%byte, [ex_blob "a"%byte DataBlob 44 0])].

Lemma ex_packs_storable p : p ∈ ex_packs -> Forall storable p.2.
Proof.
  unfold ex_packs. intros Hp. repeat (apply elem_of_cons in Hp as [->|Hp]); [..|by apply elem_of_nil in Hp];
    repeat (apply Forall_cons; split); try apply Forall_nil; try done; vm_compute; repeat split; discriminate.
Qed.

Lemma index_store_lookup_witness :
  exists idx, store_packs (fun _ => 7) (NewIndex 0) ex_packs = Ok idx /\
    Index_Lookup (fun _ => 7) idx (mkBlobHandle (ex_id "a"%byte) DataBlob) [] =
      Ok [packed (ex_id "002"%byte) (ex_blob "a"%byte DataBlob 44 0);
          packed (ex_id "001"%byte) (ex_blob "a"%byte DataBlob 40 0)].
Proof.
  destruct (index_store_lookup (fun _ => 7) 0 ex_packs ex_packs_storable) as (idx & E & _ & HL).
  exists idx. split; [exact E|].
  destruct (HL (mkBlobHandle (ex_id "a"%byte) DataBlob)) as (HL1 & _); [done|].
  etransitivity; [exact HL1|]. vm_compute. reflexivity.
Defined.

(** * Index files *)

(** A structure the JSON encoder accepts: the blob types have a name. *)
Definition json_ok (j : jsonIndex) : Prop :=
  Forall (fun p => Forall (fun b => bj_Type b = DataBlob \/ bj_Type b = TreeBlob) (pj_Blobs p)) (ji_Packs j).

Lemma file_blobs_json_ok L ss :
  Forall (fun pb => b_Type (pb_Blob pb) = DataBlob \/ b_Type (pb_Blob pb) = TreeBlob) (file_blobs L) ->
  json_ok (mkJsonIndex ss L).
Proof.
  unfold json_ok, file_blobs. cbn. induction L as [|p L IH]; cbn; intros HF; [done|].
  apply Forall_app in HF as [Hp HF]. constructor; [|by apply IH].
  unfold pack_blobs in Hp. rewrite !Forall_fmap in Hp. exact Hp.
Qed.

Lemma all_blobs_of_type l :
  Forall (fun pb => storable (pb_Blob pb)) l -> all_blobs (fun t => of_type t l) ≡ₚ l.
Proof.
  unfold all_blobs. cbn [seq NumBlobTypes fmap list_fmap concat]. rewrite app_nil_r.
  induction 1 as [|pb l (_ & _ & _ & Ht) HF IH]; [done|].
  unfold of_type in *. rewrite !filter_cons. unfold NumBlobTypes in Ht.
  transitivity (pb :: (of_type 0 l ++ of_type 1 l ++ of_type 2 l)); [|by apply Permutation_cons].
  unfold of_type. repeat case_decide; try lia; solve_Permutation.
Qed.

(** A codec of index structures, to instantiate [encoding/json]. *)
#[export] Instance blobJSON_eq_dec : EqDecision blobJSON.
Proof. solve_decision. Defined.
#[export] Instance blobJSON_countable : Countable blobJSON :=
  inj_countable' (fun b => (bj_ID b, bj_Type b, bj_Offset b, bj_Length b, bj_UncompressedLength b))
    (fun '(i, t, o, l, u) => mkBlobJSON i t o l u) ltac:(by intros []).
#[export] Instance packJSON_eq_dec : EqDecision packJSON.
Proof. solve_decision. Defined.
#[export] Instance packJSON_countable : Countable packJSON :=
  inj_countable' (fun p => (pj_ID p, pj_Blobs p)) (fun '(i, b) => mkPackJSON i b) ltac:(by intros []).
#[export] Instance jsonIndex_eq_dec : EqDecision jsonIndex.
Proof. solve_decision. Defined.
#[export] Instance jsonIndex_countable : Countable jsonIndex :=
  inj_countable' (fun j => (ji_Supersedes j, ji_Packs j)) (fun '(s, p) => mkJsonIndex s p) ltac:(by intros []).
#[export] Instance json_ok_dec j : Decision (json_ok j).
Proof. unfold json_ok. apply _. Defined.

Definition ex_json_Encode (j : jsonIndex) : outcome (list byte) :=
  if decide (json_ok j) then Ok (encode_bytes j) else Err (ErrMsg "json: unsupported value").
Definition ex_json_Unmarshal (buf : list byte) : outcome jsonIndex :=
  match decode_bytes buf with Some j => Ok j | None => Err (ErrMsg "json: syntax error") end.

Lemma ex_json_total j : json_ok j -> exists buf, ex_json_Encode j = Ok buf.
Proof. intros Hj. unfold ex_json_Encode. rewrite decide_True by done. eauto. Qed.
Lemma ex_json_roundtrip j buf : ex_json_Encode j = Ok buf -> ex_json_Unmarshal buf = Ok j.
Proof.
  unfold ex_json_Encode, ex_json_Unmarshal. case_decide; intros [= <-]. by rewrite decode_encode_bytes.
Qed.

Lemma ex_packs_index :
  exists idx c, store_packs (fun _ => 7) (NewIndex 0) ex_packs = Ok idx /\ index_repr (fun _ => 7) idx c /\
    Forall (fun pb => pb_PackID pb <> nullID) (all_blobs c) /\
    Forall (fun pb => b_Type (pb_Blob pb) = DataBlob \/ b_Type (pb_Blob pb) = TreeBlob) (all_blobs c).
Proof.
  destruct (store_packs_ok (fun _ => 7) (NewIndex 0) (fun _ => []) ex_packs (new_index_repr _ 0) eq_refl ex_packs_storable)
    as (idx & E & _ & _ & HI).
  exists idx, (fun t => [] ++ of_type t (packs_blobs ex_packs)). split; [done|]. split; [done|].
  split; apply (bool_decide_eq_true_1 _); vm_compute; reflexivity.
Qed.

(** Decoding a file with the index [j]. *)
Lemma DecodeIndex_ok sum64 (json_Unmarshal : list byte -> outcome jsonIndex) json_Unmarshal_old now buf id j :
  json_Unmarshal buf = Ok j -> Forall (fun pb => storable (pb_Blob pb)) (file_blobs (ji_Packs j)) ->
  exists idx', DecodeIndex sum64 json_Unmarshal json_Unmarshal_old now buf id = Ok (idx', false) /\
    final idx' = true /\ ids idx' = [id] /\ idx_supersedes idx' = ji_Supersedes j /\
    index_repr sum64 idx' (fun t => of_type t (file_blobs (ji_Packs j))).
Proof.
  intros Ej HF. destruct (decode_packs_ok sum64 (ji_Packs j) (NewIndex now) _ (new_index_repr sum64 now) HF)
    as (i1 & E1 & (Hf & Hids & Hs) & HI1).
  exists (Finalize (set_ids (set_supersedes i1 (ji_Supersedes j)) [id])). split; [|by split_and!; try exact HI1].
  unfold DecodeIndex. rewrite Ej. unfold blob_of_json in E1. rewrite E1. cbn [mbind outcome_bind]. cbn in Hids. cbn. by rewrite Hids.
Qed.

(** C18. Writing an index to a file and reading the file back yields a final index
    with the same blobs, packs and superseded indexes, whose ID is the file's:
    for each handle, [Lookup] answers the same copies.  [encoding/json] is
    assumed to encode every structure with valid blob types and to read back
    what it wrote. *)
Theorem index_file_roundtrip (sum64 : list byte -> Z)
    (json_Encode : jsonIndex -> outcome (list byte)) (json_Unmarshal : list byte -> outcome jsonIndex)
    (json_Unmarshal_old : list byte -> outcome (list (option packJSON)))
    (Henc : forall j, json_ok j -> exists buf, json_Encode j = Ok buf)
    (Hdec : forall j buf, json_Encode j = Ok buf -> json_Unmarshal buf = Ok j)
    (now : Z) (idx : Index) (c : nat -> list PackedBlob) (id : ID)
    (HI : index_repr sum64 idx c)
    (Hnull : Forall (fun pb => pb_PackID pb <> nullID) (all_blobs c))
    (Htypes : Forall (fun pb => b_Type (pb_Blob pb) = DataBlob \/ b_Type (pb_Blob pb) = TreeBlob) (all_blobs c)) :
  exists buf idx' c',
    Encode json_Encode idx = Ok buf /\
    DecodeIndex sum64 json_Unmarshal json_Unmarshal_old now buf id = Ok (idx', false) /\
    final idx' = true /\ ids idx' = [id] /\ idx_supersedes idx' = idx_supersedes idx /\
    index_repr sum64 idx' c' /\ all_blobs c' ≡ₚ all_blobs c /\
    forall bh, valid_type bh -> exists pbs pbs',
      Index_Lookup sum64 idx bh [] = Ok pbs /\ Index_Lookup sum64 idx' bh [] = Ok pbs' /\ pbs' ≡ₚ pbs.
Proof.
  destruct (generatePackList_ok sum64 idx c HI Hnull) as (L & EL & HL).
  assert (forall P, Forall P (all_blobs c) -> Forall P (file_blobs L)) as Hall by (intros P; by rewrite HL).
  destruct (Henc (mkJsonIndex (idx_supersedes idx) L)) as (buf & Eb).
  { apply file_blobs_json_ok. by apply Hall. }
  destruct (DecodeIndex_ok sum64 json_Unmarshal json_Unmarshal_old now buf id _ (Hdec _ _ Eb))
    as (idx' & Ed & Hf & Hids & Hs & HI').
  { apply Hall. by eapply content_storable. }
  cbn [ji_Packs ji_Supersedes] in HI', Hs. exists buf, idx', (fun t => of_type t (file_blobs L)).
  split; [unfold Encode; by rewrite EL|]. split; [exact Ed|].
  split_and!; try done.
  - rewrite <- HL. apply all_blobs_of_type, Hall. by eapply content_storable.
  - intros bh Ht. rewrite (Index_Lookup_ok _ _ _ _ _ HI Ht), (Index_Lookup_ok _ _ _ _ _ HI' Ht).
    do 2 eexists. split; [done|]. split; [done|]. cbn [app].
    unfold with_pid. apply filter_Permutation. rewrite !reverse_Permutation.
    rewrite <- (of_type_all _ _ _ _ HI) by (unfold valid_type in Ht; lia). by apply filter_Permutation.
Qed.

Lemma index_file_roundtrip_witness :
  exists idx buf idx',
    store_packs (fun _ => 7) (NewIndex 0) ex_packs = Ok idx /\ Encode ex_json_Encode idx = Ok buf /\
    DecodeIndex (fun _ => 7) ex_json_Unmarshal (fun _ => Err (ErrMsg "")) 0 buf (ex_id "009"%byte) = Ok (idx', false) /\
    ids idx' = [ex_id "009"%byte].
Proof.
  destruct ex_packs_index as (idx & c & E & HI & Hn & Ht).
  destruct (index_file_roundtrip (fun _ => 7) ex_json_Encode ex_json_Unmarshal (fun _ => Err (ErrMsg ""))
    ex_json_total ex_json_roundtrip 0 idx c (ex_id "009"%byte) HI Hn Ht) as (buf & idx' & c' & E1 & E2 & _ & E3 & _).
  exists idx, buf, idx'. split_and!; [exact E|exact E1|exact E2|exact E3].
Defined.

(** * Merging *)

(** Merging a final index into another one: every copy of a blob either of
    them knows is found afterwards, nothing else is, no copy is duplicated, and
    the IDs and superseded indexes of both are kept. *)
Theorem index_merge_content (sum64 : list byte -> Z) (idx idx2 : Index) (c c2 : nat -> list PackedBlob)
    (HI : index_repr sum64 idx c) (HI2 : index_repr sum64 idx2 c2) (Hfinal : final idx2 = true) :
  exists idx', merge sum64 idx idx2 = Ok idx' /\
    ids idx' = ids idx ++ ids idx2 /\ idx_supersedes idx' = idx_supersedes idx ++ idx_supersedes idx2 /\
    packs idx' = packs idx ++ packs idx2 /\ final idx' = final idx /\
    forall bh, valid_type bh -> exists pbs1 pbs2 pbs,
      Index_Lookup sum64 idx bh [] = Ok pbs1 /\ Index_Lookup sum64 idx2 bh [] = Ok pbs2 /\
      Index_Lookup sum64 idx' bh [] = Ok pbs /\
      (forall pb, pb ∈ pbs <-> pb ∈ pbs1 \/ pb ∈ pbs2) /\
      (NoDup (c (Z.to_nat (bh_Type bh))) -> NoDup pbs).
Proof.
  destruct (merge_ok sum64 idx idx2 c c2 HI HI2 Hfinal) as (idx' & E & Hf & Hp & Hi & Hs & HI').
  exists idx'. split_and!; try done. intros bh Ht.
  rewrite (Index_Lookup_ok _ _ _ _ _ HI Ht), (Index_Lookup_ok _ _ _ _ _ HI2 Ht), (Index_Lookup_ok _ _ _ _ _ HI' Ht).
  do 3 eexists. do 3 (split; [reflexivity|]). cbn [app].
  rewrite decide_True by (unfold valid_type in Ht; lia). unfold with_pid. split.
  - intros pb. rewrite !list_elem_of_filter, !elem_of_reverse, merge_new_In. tauto.
  - intros Hnd. apply NoDup_filter. rewrite reverse_Permutation. apply merge_new_NoDup, Hnd.
Qed.

Lemma index_merge_content_witness :
  exists idx idx' pbs, store_packs (fun _ => 7) (NewIndex 0) ex_packs = Ok idx /\
    merge (fun _ => 7) (NewIndex 0) (Finalize idx) = Ok idx' /\
    Index_Lookup (fun _ => 7) idx' (mkBlobHandle (ex_id "b"%byte) TreeBlob) [] = Ok pbs /\
    packed (ex_id "001"%byte) (ex_blob "b"%byte TreeBlob 50 40) ∈ pbs.
Proof.
  destruct (index_store_lookup (fun _ => 7) 0 ex_packs ex_packs_storable) as (idx & E & _ & HL).
  destruct ex_packs_index as (idx2 & c & E2 & HI & _).
  rewrite E in E2. injection E2 as <-.
  destruct (index_merge_content (fun _ => 7) (NewIndex 0) (Finalize idx) (fun _ => []) c
    (new_index_repr _ 0) HI eq_refl) as (idx' & Em & _ & _ & _ & _ & Hl).
  destruct (HL (mkBlobHandle (ex_id "b"%byte) TreeBlob)) as (HL1 & _); [done|].
  destruct (Hl (mkBlobHandle (ex_id "b"%byte) TreeBlob)) as (pbs1 & pbs2 & pbs & _ & E2 & E3 & Hin & _); [done|].
  exists idx, idx', pbs. split_and!; [exact E|exact Em|exact E3|].
  apply Hin. right. change (Index_Lookup (fun _ => 7) idx (mkBlobHandle (ex_id "b"%byte) TreeBlob) [] = Ok pbs2) in E2.
  rewrite HL1 in E2. injection E2 as <-. apply (bool_decide_eq_true_1 _). vm_compute. reflexivity.
Defined.
