(* ===== verification/MasterIndex.v ===== *)
(** The collection of all indexes and of the blobs being saved
    (src/internal/index/master_index.go).

    The slice [mi.idx] holds pointers, and callers keep pointers to the same
    indexes while they save them: the indexes live in a store [mi_heap], and
    the slice holds their locations.  The mutex of the master index serialises
    its operations. *)

From stdpp Require Import functions.
From S2P Require Import Prelude Bytes Restic Sets HashedArrayTree IndexMap Index.

#[local] Open Scope Z_scope.

Definition loc := nat.

Record MasterIndex := mkMI {
  mi_heap : gmap loc Index;
  mi_idx : list loc;
  pendingBlobs : gset BlobHandle;
  mi_compress : bool }.

Definition set_heap (mi : MasterIndex) h := mkMI h (mi_idx mi) (pendingBlobs mi) (mi_compress mi).
Definition set_idx (mi : MasterIndex) l := mkMI (mi_heap mi) l (pendingBlobs mi) (mi_compress mi).
Definition set_pending (mi : MasterIndex) s := mkMI (mi_heap mi) (mi_idx mi) s (mi_compress mi).

(** Allocate an index ([&Index{...}]). *)
Definition alloc_index (mi : MasterIndex) (idx : Index) : MasterIndex * loc :=
  let l := fresh (dom (mi_heap mi)) in (set_heap mi (<[l := idx]> (mi_heap mi)), l).

Definition deref (mi : MasterIndex) (l : loc) : outcome Index :=
  match mi_heap mi !! l with Some idx => Ok idx | None => Panic "nil pointer dereference" end.

Definition write (mi : MasterIndex) (l : loc) (idx : Index) : MasterIndex :=
  set_heap mi (<[l := idx]> (mi_heap mi)).

(** [NewMasterIndex]: always one empty final index, to merge into. *)
Definition NewMasterIndex (now : Z) : MasterIndex :=
  let idx := Finalize (NewIndex now) in
  mkMI {[0%nat := idx]} [0%nat] (NewBlobSet []) false.

Definition MarkCompressed (mi : MasterIndex) : MasterIndex :=
  mkMI (mi_heap mi) (mi_idx mi) (pendingBlobs mi) true.

Section MasterIndex.
Context (sum64 : list byte -> Z).

Definition Lookup (mi : MasterIndex) (bh : BlobHandle) : outcome (list PackedBlob) :=
  ofold (fun (pbs : list PackedBlob) l => try idx <- deref mi l; Index_Lookup sum64 idx bh pbs) [] (mi_idx mi).

Fixpoint LookupSize_loop (mi : MasterIndex) (bh : BlobHandle) (ls : list loc) : outcome (option Z) :=
  match ls with
  | [] => Ok None
  | l :: ls =>
      try idx <- deref mi l;
      try size <- Index_LookupSize sum64 idx bh;
      match size with Some _ => Ok size | None => LookupSize_loop mi bh ls end
  end.
Definition LookupSize (mi : MasterIndex) (bh : BlobHandle) : outcome (option Z) :=
  LookupSize_loop mi bh (mi_idx mi).

(** The loop [for _, idx := range mi.idx { if idx.Has(bh) { return true } }]. *)
Fixpoint anyHas (mi : MasterIndex) (bh : BlobHandle) (ls : list loc) : outcome bool :=
  match ls with
  | [] => Ok false
  | l :: ls =>
      try idx <- deref mi l;
      try has <- Index_Has sum64 idx bh;
      if (has : bool) then Ok true else anyHas mi bh ls
  end.

Definition AddPending (mi : MasterIndex) (bh : BlobHandle) : outcome (MasterIndex * bool) :=
  if BlobSet_Has (pendingBlobs mi) bh then Ok (mi, false)
  else
    try has <- anyHas mi bh (mi_idx mi);
    if (has : bool) then Ok (mi, false)
    else Ok (set_pending mi (BlobSet_Insert (pendingBlobs mi) bh), true).

Definition Has (mi : MasterIndex) (bh : BlobHandle) : outcome bool :=
  if BlobSet_Has (pendingBlobs mi) bh then Ok true else anyHas mi bh (mi_idx mi).

Definition MI_IDs (mi : MasterIndex) : outcome (gset ID) :=
  ofold (fun (s : gset ID) l =>
    try idx <- deref mi l;
    if negb (Final idx) then Ok s
    else match IDs idx with
         | Ok indexIDs => Ok (fold_left IDSet_Insert indexIDs s)
         | _ => Ok s
         end) (NewIDSet []) (mi_idx mi).

Definition MI_Packs (mi : MasterIndex) (packBlacklist : gset ID) : outcome (gset ID) :=
  ofold (fun (packs_ : gset ID) l =>
    try idx <- deref mi l;
    let idxPacks := Index_Packs idx in
    let idxPacks := if final idx && Nat.ltb 0 (base.size packBlacklist)
                    then IDSet_Sub idxPacks packBlacklist else idxPacks in
    Ok (IDSet_Merge packs_ idxPacks)) (NewIDSet []) (mi_idx mi).

(** [Insert]: the caller passes a pointer. *)
Definition Insert (mi : MasterIndex) (l : loc) : MasterIndex := set_idx mi (mi_idx mi ++ [l]).

(** The loop of [StorePack]: the first index that is not final takes the pack. *)
Fixpoint storeInFirst (mi : MasterIndex) (id : ID) (blobs : list Blob) (ls : list loc)
    : outcome (option MasterIndex) :=
  match ls with
  | [] => Ok None
  | l :: ls =>
      try idx <- deref mi l;
      if negb (Final idx) then
        try idx <- Index_StorePack sum64 idx id blobs; Ok (Some (write mi l idx))
      else storeInFirst mi id blobs ls
  end.

Definition StorePack (now : Z) (mi : MasterIndex) (id : ID) (blobs : list Blob) : outcome MasterIndex :=
  let mi := set_pending mi
    (fold_left (fun s blob => BlobSet_Delete s (mkBlobHandle (b_ID blob) (b_Type blob))) blobs (pendingBlobs mi)) in
  try stored <- storeInFirst mi id blobs (mi_idx mi);
  match stored with
  | Some mi => Ok mi
  | None =>
      try newIdx <- Index_StorePack sum64 (NewIndex now) id blobs;
      let '(mi, l) := alloc_index mi newIdx in
      Ok (set_idx mi (mi_idx mi ++ [l]))
  end.

(** Finalize the indexes selected by [sel]; return their locations. *)
Definition finalize_sel (sel : Index -> bool) (mi : MasterIndex) : outcome (MasterIndex * list loc) :=
  ofold (fun (st : MasterIndex * list loc) l =>
    let '(mi, list_) := st in
    try idx <- deref mi l;
    if sel idx then Ok (write mi l (Finalize idx), list_ ++ [l]) else Ok (mi, list_))
    (mi, []) (mi_idx mi).

Definition finalizeNotFinalIndexes (mi : MasterIndex) : outcome (MasterIndex * list loc) :=
  finalize_sel (fun idx => negb (Final idx)) mi.

Definition finalizeFullIndexes (now : Z) (mi : MasterIndex) : outcome (MasterIndex * list loc) :=
  finalize_sel (fun idx => if Final idx then false else IndexFull now idx (mi_compress mi)) mi.

Definition Each {S} (ctxErr : S -> bool) (mi : MasterIndex) (fn : S -> PackedBlob -> outcome S) (s : S) : outcome S :=
  ofold (fun (s : S) l => try idx <- deref mi l; Index_Each ctxErr idx fn s) s (mi_idx mi).

(** One round of [MergeFinalIndexes]: index [l] is merged into the first one
    or kept in [newIdx]. *)
Definition merge_round (first : loc) (st : MasterIndex * list loc) (l : loc) : outcome (MasterIndex * list loc) :=
  let '(mi, newIdx) := st in
  try idx <- deref mi l;
  let ids := match IDs idx with Ok ids => ids | _ => [] end in
  if negb (Final idx) || Nat.eqb (length ids) 0 then Ok (mi, newIdx ++ [l])
  else
    try first_idx <- deref mi first;
    try merged <- wrap_err "MergeFinalIndexes: %w" (merge sum64 first_idx idx);
    Ok (write mi first merged, newIdx).

Definition MergeFinalIndexes (mi : MasterIndex) : outcome MasterIndex :=
  match mi_idx mi with
  | [] => Panic "slice bounds out of range"
  | first :: rest =>
      try (mi, newIdx) <- ofold (merge_round first) (mi, [first]) rest;
      Ok (set_idx mi newIdx)
  end.

(** ** Saving

    [SaveUnpacked] is the repository, a state transformer on the world [W];
    [json_Encode] renders an index file. *)
Section Saving.
Context {W : Type} (json_Encode : jsonIndex -> outcome (list byte)).
Context (SaveUnpacked : W -> list byte -> W * outcome ID).

(** [SaveIndex] saves one index; its ID is recorded even when saving fails
    (then it is the ID the repository returned with the error, the null ID). *)
Definition SaveIndex (w : W) (idx : Index) : W * Index * outcome ID :=
  match Encode json_Encode idx with
  | Panic p => (w, idx, Panic p)
  | Err e => (w, idx, Err e)
  | Ok buf =>
      let '(w, res) := SaveUnpacked w buf in
      let id := match res with Ok id => id | _ => nullID end in
      match res, SetID idx id with
      | Panic p, _ => (w, idx, Panic p)
      | _, Ok idx => (w, idx, res)
      | _, _ => (w, idx, Panic "logic bug: SetID failed")
      end
  end.

(** [saveIndex], on the finalized indexes; the state is kept on errors. *)
Fixpoint saveIndex (w : W) (mi : MasterIndex) (indexes : list loc) : W * MasterIndex * outcome unit :=
  match indexes with
  | [] =>
      match MergeFinalIndexes mi with
      | Ok mi => (w, mi, Ok tt)
      | Err e => (w, mi, Err e)
      | Panic p => (w, mi, Panic p)
      end
  | l :: rest =>
      match deref mi l with
      | Ok idx =>
          let '(w, idx, res) := SaveIndex w idx in
          let mi := write mi l idx in
          match res with
          | Ok _ => saveIndex w mi rest
          | Err e => (w, mi, Err e)
          | Panic p => (w, mi, Panic p)
          end
      | Err e => (w, mi, Err e)
      | Panic p => (w, mi, Panic p)
      end
  end.

(** The method [SaveIndex] of the master index. *)
Definition SaveNewIndexes (w : W) (mi : MasterIndex) : W * MasterIndex * outcome unit :=
  match finalizeNotFinalIndexes mi with
  | Ok (mi, ls) => saveIndex w mi ls
  | Err e => (w, mi, Err e)
  | Panic p => (w, mi, Panic p)
  end.

Definition SaveFullIndex (now : Z) (w : W) (mi : MasterIndex) : W * MasterIndex * outcome unit :=
  match finalizeFullIndexes now mi with
  | Ok (mi, ls) => saveIndex w mi ls
  | Err e => (w, mi, Err e)
  | Panic p => (w, mi, Panic p)
  end.
End Saving.

(** [Save]: the goroutine that rebuilds the index.  It yields the new indexes
    in the order they are sent to the workers, and the obsolete index IDs. *)
Definition save_pack (now : Z) (compress : bool) (st : list Index * Index) (pbs : EachByPackResult)
    : outcome (list Index * Index) :=
  let '(sent, newIndex) := st in
  try newIndex <- Index_StorePack sum64 newIndex (ebp_PackID pbs) (ebp_Blobs pbs);
  if IndexFull now newIndex compress then Ok (sent ++ [newIndex], NewIndex now)
  else Ok (sent, newIndex).

Definition save_index (now : Z) (mi : MasterIndex) (packBlacklist : gset ID)
    (st : list Index * Index * gset ID) (l : loc) : outcome (list Index * Index * gset ID) :=
  let '(sent, newIndex, obsolete) := st in
  try idx <- deref mi l;
  try (newIndex, obsolete) <-
    (if Final idx then
       try ids <- IDs idx;
       try newIndex <- AddToSupersedes newIndex ids;
       Ok (newIndex, IDSet_Merge obsolete (NewIDSet ids))
     else Ok (newIndex, obsolete));
  try results <- EachByPack idx packBlacklist;
  try (sent, newIndex) <- ofold (save_pack now (mi_compress mi)) (sent, newIndex) results;
  Ok (sent, newIndex, obsolete).

Definition Save_produce (now : Z) (mi : MasterIndex) (packBlacklist : gset ID) (extraObsolete : list ID)
    : outcome (list Index * gset ID) :=
  try (sent, newIndex, obsolete) <-
    ofold (save_index now mi packBlacklist) ([], NewIndex now, NewIDSet []) (mi_idx mi);
  try newIndex <- AddToSupersedes newIndex extraObsolete;
  Ok (sent ++ [newIndex], IDSet_Merge obsolete (NewIDSet extraObsolete)).

(** [ListPacks]: the packs are passed on in 16 rounds, by the low half of the
    first byte of their ID. *)
Definition pack_round (id : ID) : Z := Z.land (Z_of_byte (nth 0 (id_bytes id) "000"%byte)) 15.

Definition ListPacks (mi : MasterIndex) (packs_ : gset ID) : outcome (list PackBlobs) :=
  ofold (fun (out : list PackBlobs) i =>
    let packBlob : gmap ID (list Blob) :=
      fold_left (fun m pack => if pack_round pack =? i then <[pack := []]> m else m) (elements packs_) ∅ in
    if Nat.eqb (base.size packBlob) 0 then Ok out else
    try packBlob <- Each (fun _ => false) mi (fun (packBlob : gmap ID (list Blob)) pb =>
      if IDSet_Has packs_ (pb_PackID pb) && (pack_round (pb_PackID pb) =? i)
      then Ok (<[pb_PackID pb := default [] (packBlob !! pb_PackID pb) ++ [pb_Blob pb]]> packBlob)
      else Ok packBlob) packBlob;
    Ok (out ++ ((fun kv => mkPackBlobs kv.1 kv.2) <$> map_to_list packBlob)))
    [] (Z.of_nat <$> seq 0 16).
End MasterIndex.

(** * The content of the master index

    [mi_repr mi C]: the locations of the slice are distinct and hold indexes;
    [C l] is the content of the index at [l]. *)

Definition content := nat -> list PackedBlob.

Section MasterIndexFacts.
Context (sum64 : list byte -> Z).

Record mi_repr (mi : MasterIndex) (C : loc -> content) : Prop := {
  mr_nodup : NoDup (mi_idx mi);
  mr_index : forall l, l ∈ mi_idx mi -> exists idx, mi_heap mi !! l = Some idx /\ index_repr sum64 idx (C l) }.

(** All blobs of type [t], index by index. *)
Definition contents (mi : MasterIndex) (C : loc -> content) (t : nat) : list PackedBlob :=
  concat ((fun l => C l t) <$> mi_idx mi).

(** The copy is in an index that is not final. *)
Definition in_open (mi : MasterIndex) (C : loc -> content) (t : nat) (pb : PackedBlob) : Prop :=
  exists l idx, l ∈ mi_idx mi /\ mi_heap mi !! l = Some idx /\ final idx = false /\ pb ∈ C l t.

Definition bh_type (bh : BlobHandle) : nat := Z.to_nat (bh_Type bh).

(** The blob is stored in some index. *)
Definition stored (mi : MasterIndex) (C : loc -> content) (bh : BlobHandle) : Prop :=
  bh_ID bh ∈ pb_ID <$> contents mi C (bh_type bh).

(** The blob is stored or pending. *)
Definition known (mi : MasterIndex) (C : loc -> content) (bh : BlobHandle) : Prop :=
  bh ∈ pendingBlobs mi \/ stored mi C bh.

#[export] Instance stored_dec mi C bh : Decision (stored mi C bh).
Proof. unfold stored. apply _. Defined.
#[export] Instance known_dec mi C bh : Decision (known mi C bh).
Proof. unfold known. apply _. Defined.

Lemma stored_elem mi C bh :
  stored mi C bh <-> exists l, l ∈ mi_idx mi /\ bh_ID bh ∈ pb_ID <$> C l (bh_type bh).
Proof.
  unfold stored, contents. rewrite list_elem_of_fmap. setoid_rewrite list_elem_of_In.
  setoid_rewrite in_concat. setoid_rewrite <- list_elem_of_In. split.
  - intros (pb & Hid & x & (l & -> & Hl)%list_elem_of_fmap & Hpb). exists l. split; [done|].
    apply list_elem_of_fmap. eauto.
  - intros (l & Hl & (pb & Hid & Hpb)%list_elem_of_fmap). exists pb. split; [done|].
    exists (C l (bh_type bh)). split; [|done]. apply list_elem_of_fmap. eauto.
Qed.

Lemma mi_deref mi C l :
  mi_repr mi C -> l ∈ mi_idx mi -> exists idx, deref mi l = Ok idx /\ index_repr sum64 idx (C l).
Proof. intros [_ HI] Hl. destruct (HI l Hl) as (idx & E & HR). exists idx. unfold deref. by rewrite E. Qed.

Lemma Lookup_ok mi C bh :
  mi_repr mi C -> valid_type bh ->
  Lookup sum64 mi bh =
    Ok (concat ((fun l => with_pid (bh_ID bh) (reverse (C l (bh_type bh)))) <$> mi_idx mi)).
Proof.
  intros HR Ht. unfold Lookup.
  rewrite (ofold_ok _ (fun pbs l => pbs ++ with_pid (bh_ID bh) (reverse (C l (bh_type bh))))).
  - by rewrite fold_left_app_acc.
  - intros pbs l Hl. destruct (mi_deref _ _ _ HR Hl) as (idx & -> & HI). cbn [mbind outcome_bind].
    by apply Index_Lookup_ok.
Qed.

Lemma anyHas_ok mi C bh ls :
  mi_repr mi C -> valid_type bh -> ls ⊆ mi_idx mi ->
  exists b, anyHas sum64 mi bh ls = Ok b /\
    (b = true <-> exists l, l ∈ ls /\ bh_ID bh ∈ pb_ID <$> C l (bh_type bh)).
Proof.
  intros HR Ht. induction ls as [|l ls IH]; intros Hsub; cbn [anyHas].
  - exists false. split; [done|]. split; [done|]. by intros (? & ?%elem_of_nil & _).
  - destruct (mi_deref mi C l HR) as (idx & -> & HI); [apply Hsub; by left|]. cbn [mbind outcome_bind].
    rewrite (Index_Has_ok _ _ _ _ HI Ht). cbn [mbind outcome_bind].
    destruct IH as (b & Eb & Hb); [by intros ? ?; apply Hsub; right|].
    case_bool_decide as Hd.
    + exists true. split; [done|]. split; [|done]. intros _. exists l. split; [by left|done].
    + exists b. split; [done|]. rewrite Hb. split; [intros (? & ? & ?); eauto using list_elem_of_further|].
      intros (l' & [->|?]%elem_of_cons & ?); [done|eauto].
Qed.

Lemma anyHas_stored mi C bh :
  mi_repr mi C -> valid_type bh -> anyHas sum64 mi bh (mi_idx mi) = Ok (bool_decide (stored mi C bh)).
Proof.
  intros HR Ht. destruct (anyHas_ok mi C bh (mi_idx mi) HR Ht) as (b & -> & Hb); [done|].
  f_equal. destruct b; symmetry.
  - apply bool_decide_eq_true, stored_elem, Hb. done.
  - apply bool_decide_eq_false. rewrite stored_elem, <- Hb. done.
Qed.

Lemma MI_Has_ok mi C bh :
  mi_repr mi C -> valid_type bh -> Has sum64 mi bh = Ok (bool_decide (known mi C bh)).
Proof.
  intros HR Ht. unfold Has, BlobSet_Has, set_Has, known. case_bool_decide as Hp.
  - by rewrite bool_decide_eq_true_2 by tauto.
  - rewrite (anyHas_stored _ _ _ HR Ht). f_equal. apply bool_decide_ext. tauto.
Qed.

Lemma AddPending_ok mi C bh :
  mi_repr mi C -> valid_type bh ->
  AddPending sum64 mi bh =
    Ok (if decide (known mi C bh) then (mi, false) else (set_pending mi ({[bh]} ∪ pendingBlobs mi), true)).
Proof.
  intros HR Ht. unfold AddPending, BlobSet_Has, set_Has. case_bool_decide as Hp.
  - by rewrite decide_True by by left.
  - rewrite (anyHas_stored _ _ _ HR Ht). cbn [mbind outcome_bind]. case_bool_decide as Hs.
    + by rewrite decide_True by by right.
    + rewrite decide_False by (intros [?|?]; done). done.
Qed.

Lemma mi_repr_pending mi C s : mi_repr mi C -> mi_repr (set_pending mi s) C.
Proof. intros [? ?]; by split. Qed.

Lemma mi_repr_write mi C l idx c :
  mi_repr mi C -> l ∈ mi_idx mi -> index_repr sum64 idx c ->
  mi_repr (write mi l idx) (<[l := c]> C).
Proof.
  intros [Hnd HI] Hl Hc. split; [done|]. intros l' Hl'. cbn. destruct (decide (l = l')) as [<-|Hne].
  - exists idx. by rewrite lookup_insert_eq, fn_lookup_insert.
  - rewrite lookup_insert_ne, fn_lookup_insert_ne by done. auto.
Qed.

Lemma contents_Permutation_write mi C l idx c pbs t :
  NoDup (mi_idx mi) -> l ∈ mi_idx mi -> c t = C l t ++ pbs ->
  contents (write mi l idx) (<[l := c]> C) t ≡ₚ contents mi C t ++ pbs.
Proof.
  unfold contents. cbn. intros Hnd Hl Hc.
  apply list_elem_of_split in Hl as (l1 & l2 & El). rewrite El in Hnd |- *.
  rewrite NoDup_app, NoDup_cons in Hnd. destruct Hnd as (_ & H1 & H2 & _).
  assert (forall ls : list loc, l ∉ ls -> (fun x => (<[l := c]> C) x t) <$> ls = (fun x => C x t) <$> ls) as He.
  { intros ls Hn. apply list_fmap_ext. intros i x Hx. rewrite fn_lookup_insert_ne; [done|].
    intros ->. apply Hn. by eapply list_elem_of_lookup_2. }
  rewrite !fmap_app, !fmap_cons, !concat_app, !concat_cons, (He l1), (He l2), fn_lookup_insert, Hc; [|done|].
  - solve_Permutation.
  - intros Hl1. eapply H1; [done|by left].
Qed.

(** Blobs added to an index that is not final are in an open index. *)
Lemma in_open_write mi C l idx idx' (pbs : nat -> list PackedBlob) :
  mi_heap mi !! l = Some idx -> l ∈ mi_idx mi -> final idx = false -> final idx' = false ->
  forall t pb, in_open mi C t pb \/ pb ∈ pbs t -> in_open (write mi l idx') (<[l := fun t => C l t ++ pbs t]> C) t pb.
Proof.
  intros Eh Hl Hf Hf' t pb Hpb. unfold in_open. cbn.
  assert (pb ∈ C l t ++ pbs t -> in_open (write mi l idx') (<[l := fun t => C l t ++ pbs t]> C) t pb) as Hnew.
  { intros Hin. exists l, idx'. cbn. by rewrite lookup_insert_eq, fn_lookup_insert. }
  destruct Hpb as [(l0 & i0 & Hl0 & Ei0 & Hf0 & Hin)|Hin]; [|apply Hnew, elem_of_app; by right].
  destruct (decide (l = l0)) as [<-|Hne]; [apply Hnew, elem_of_app; by left|].
  exists l0, i0. by rewrite lookup_insert_ne, fn_lookup_insert_ne by done.
Qed.

Definition blob_handles (bs : list Blob) : gset BlobHandle :=
  list_to_set ((fun b => mkBlobHandle (b_ID b) (b_Type b)) <$> bs).

Lemma pending_deleted (bs : list Blob) s :
  fold_left (fun s blob => BlobSet_Delete s (mkBlobHandle (b_ID blob) (b_Type blob))) bs s = s ∖ blob_handles bs.
Proof.
  revert s; induction bs as [|b bs IH]; intros s; cbn; [set_solver|].
  rewrite IH. unfold BlobSet_Delete, set_Delete, blob_handles. cbn. set_solver.
Qed.

Lemma storeInFirst_ok mi C id bs ls :
  mi_repr mi C -> Forall storable bs -> ls ⊆ mi_idx mi ->
  exists o, storeInFirst sum64 mi id bs ls = Ok o /\
    forall mi', o = Some mi' ->
      exists C', mi_repr mi' C' /\ mi_idx mi' = mi_idx mi /\ pendingBlobs mi' = pendingBlobs mi /\
        mi_compress mi' = mi_compress mi /\
        (forall t pb, in_open mi C t pb \/ pb ∈ of_type t (packed id <$> bs) -> in_open mi' C' t pb) /\
        forall t, contents mi' C' t ≡ₚ contents mi C t ++ of_type t (packed id <$> bs).
Proof.
  intros HR Hs. induction ls as [|l ls IH]; intros Hsub; cbn [storeInFirst].
  - by exists None.
  - assert (l ∈ mi_idx mi) as Hl by (apply Hsub; by left).
    destruct (mr_index _ _ HR l Hl) as (idx & Eh & HI). unfold deref. rewrite Eh. cbn [mbind outcome_bind].
    unfold Final. destruct (final idx) eqn:Hf; cbn [negb].
    + apply IH. by intros ? ?; apply Hsub; right.
    + destruct (Index_StorePack_ok sum64 idx (C l) id bs HI Hf Hs) as (idx' & -> & _ & (Hf' & _) & HI').
      cbn [mbind outcome_bind]. eexists. split; [done|]. intros mi' [= <-].
      exists (<[l := fun t => C l t ++ of_type t (packed id <$> bs)]> C).
      split; [by apply mi_repr_write|]. do 3 (split; [done|]). split.
      * apply (in_open_write mi C l idx); congruence.
      * intros t. by apply contents_Permutation_write; [apply HR| |].
Qed.

(** A pack that is stored: its blobs join the content, and are no longer
    pending. *)
Lemma MI_StorePack_ok now mi C id bs :
  mi_repr mi C -> Forall storable bs ->
  exists mi' C', StorePack sum64 now mi id bs = Ok mi' /\ mi_repr mi' C' /\
    mi_idx mi `prefix_of` mi_idx mi' /\
    pendingBlobs mi' = pendingBlobs mi ∖ blob_handles bs /\ mi_compress mi' = mi_compress mi /\
    (forall t pb, in_open mi C t pb \/ pb ∈ of_type t (packed id <$> bs) -> in_open mi' C' t pb) /\
    forall t, contents mi' C' t ≡ₚ contents mi C t ++ of_type t (packed id <$> bs).
Proof.
  intros HR Hs. unfold StorePack. rewrite pending_deleted.
  pose proof (mi_repr_pending mi C (pendingBlobs mi ∖ blob_handles bs) HR) as HR1.
  set (mi1 := set_pending mi _) in *.
  destruct (storeInFirst_ok mi1 C id bs (mi_idx mi1) HR1 Hs) as (o & -> & Ho); [done|].
  cbn [mbind outcome_bind]. destruct o as [mi'|].
  - destruct (Ho mi' eq_refl) as (C' & ? & Ei & ? & ? & ? & Hc). exists mi', C'. rewrite Ei. split_and!; done.
  - destruct (Index_StorePack_ok sum64 (NewIndex now) (fun _ => []) id bs) as (idx & E & _ & (Hfi & _) & HI); [|done..|].
    { apply new_index_repr. }
    rewrite E. cbn [mbind outcome_bind alloc_index]. set (l := fresh (dom (mi_heap mi1))).
    assert (l ∉ mi_idx mi) as Hfresh.
    { intros Hin. destruct (mr_index _ _ HR1 l Hin) as (? & Hl & _).
      apply (is_fresh (dom (mi_heap mi1))). apply elem_of_dom. eexists. exact Hl. }
    eexists _, (<[l := fun t => of_type t (packed id <$> bs)]> C). split; [done|].
    assert (forall x, x ∈ mi_idx mi -> x <> l) as Hne by (intros x Hx ->; done).
    split_and!.
    + split.
      * cbn. apply NoDup_app. split_and!; [apply HR|intros x Hx ->%list_elem_of_singleton; done|apply NoDup_singleton].
      * cbn. intros x [Hx| ->%list_elem_of_singleton]%elem_of_app.
        -- rewrite lookup_insert_ne, fn_lookup_insert_ne by (intros ->; done). by apply (mr_index _ _ HR).
        -- exists idx. rewrite lookup_insert_eq, fn_lookup_insert. done.
    + cbn. by eexists.
    + done.
    + done.
    + intros t pb [(l0 & i0 & Hl0 & Ei0 & Hf0 & Hin)|Hin].
      * exists l0, i0. cbn. rewrite lookup_insert_ne, fn_lookup_insert_ne by (apply not_eq_sym, Hne, Hl0).
        split; [apply elem_of_app; by left|done].
      * exists l, idx. cbn. rewrite lookup_insert_eq, fn_lookup_insert. split; [apply elem_of_app; right; by left|].
        split; [done|]. split; [by rewrite Hfi|done].
    + intros t. unfold contents. cbn. rewrite fmap_app, concat_app. cbn. rewrite fn_lookup_insert, app_nil_r.
      apply reflexive_eq. f_equal. f_equal. apply list_fmap_ext. intros i x Hx%list_elem_of_lookup_2.
      rewrite fn_lookup_insert_ne; [done|]. intros ->; done.
Qed.

(** Finalizing keeps every content. *)
Lemma index_repr_Finalize idx c : index_repr sum64 idx c -> index_repr sum64 (Finalize idx) c.
Proof. done. Qed.

Lemma finalize_sel_ok sel mi C :
  mi_repr mi C ->
  exists mi' ls, finalize_sel sel mi = Ok (mi', ls) /\ mi_repr mi' C /\
    mi_idx mi' = mi_idx mi /\ pendingBlobs mi' = pendingBlobs mi /\ mi_compress mi' = mi_compress mi /\
    NoDup ls /\ ls ⊆ mi_idx mi /\
    forall l idx, l ∈ mi_idx mi -> mi_heap mi !! l = Some idx ->
      mi_heap mi' !! l = Some (if sel idx then Finalize idx else idx) /\ (l ∈ ls <-> sel idx = true).
Proof.
  intros HR. unfold finalize_sel.
  destruct (ofold_step (fun done (st : MasterIndex * list loc) =>
    mi_repr st.1 C /\ mi_idx st.1 = mi_idx mi /\ pendingBlobs st.1 = pendingBlobs mi /\
    mi_compress st.1 = mi_compress mi /\ NoDup st.2 /\ st.2 ⊆ done /\
    forall l idx, l ∈ mi_idx mi -> mi_heap mi !! l = Some idx ->
      mi_heap st.1 !! l = Some (if decide (l ∈ done) then if sel idx then Finalize idx else idx else idx) /\
      (l ∈ st.2 <-> l ∈ done /\ sel idx = true))
    (fun st l => let '(mi, list_) := st in
      try idx <- deref mi l;
      if sel idx then Ok (write mi l (Finalize idx), list_ ++ [l]) else Ok (mi, list_))
    (mi, []) (mi_idx mi)) as ([mi' ls] & E & H1 & H2 & H3 & H4 & H6 & H7 & H5).
  - split_and!; [done..|apply NoDup_nil_2|done|]. cbn. intros l idx Hl E. rewrite decide_False by apply not_elem_of_nil.
    split; [done|]. split; [by intros ?%not_elem_of_nil|by intros [?%not_elem_of_nil _]].
  - intros l1 l l2 [mi1 ls] El (H1 & H2 & H3 & H4 & H6 & H7 & H5). cbn in *.
    assert (l ∈ mi_idx mi) as Hl by (rewrite El; apply elem_of_app; right; by left).
    assert (l ∉ l1) as Hnl.
    { pose proof (mr_nodup _ _ HR) as Hnd. rewrite El, NoDup_app in Hnd. intros ?. eapply Hnd; [done|by left]. }
    destruct (mr_index _ _ HR l Hl) as (idx & Eh & HI).
    destruct (H5 l idx Hl Eh) as [E1 E2]. rewrite decide_False in E1 by done.
    unfold deref. rewrite E1. cbn [mbind outcome_bind].
    exists (if sel idx then write mi1 l (Finalize idx) else mi1, if sel idx then ls ++ [l] else ls).
    split; [by destruct (sel idx)|]. cbn [fst snd].
    assert (forall l' idx', l' ∈ mi_idx mi -> mi_heap mi !! l' = Some idx' ->
      mi_heap (if sel idx then write mi1 l (Finalize idx) else mi1) !! l' =
        Some (if decide (l' ∈ l1 ++ [l]) then if sel idx' then Finalize idx' else idx' else idx') /\
      (l' ∈ (if sel idx then ls ++ [l] else ls) <-> l' ∈ l1 ++ [l] /\ sel idx' = true)) as Hstep.
    { intros l' idx' Hl' Eh'. destruct (H5 l' idx' Hl' Eh') as [E3 E4]. destruct (decide (l' = l)) as [->|Hn].
      - rewrite Eh in Eh'. simplify_eq. rewrite decide_True by (apply elem_of_app; right; by left).
        destruct (sel idx') eqn:Hsel; cbn; [rewrite lookup_insert_eq|rewrite E1]; (split; [done|]);
          rewrite !elem_of_app, ?list_elem_of_singleton; [tauto|rewrite E2; naive_solver].
      - assert (mi_heap (if sel idx then write mi1 l (Finalize idx) else mi1) !! l' = mi_heap mi1 !! l') as ->.
        { destruct (sel idx); cbn; [by rewrite lookup_insert_ne|done]. }
        rewrite E3. split.
        + f_equal. destruct (decide (l' ∈ l1)); destruct (decide (l' ∈ l1 ++ [l])) as [Hx|Hx]; try done;
            rewrite elem_of_app, list_elem_of_singleton in Hx; tauto.
        + rewrite elem_of_app, list_elem_of_singleton. destruct (sel idx); [rewrite elem_of_app, list_elem_of_singleton|]; tauto. }
    assert (mi_repr (if sel idx then write mi1 l (Finalize idx) else mi1) C) as HR'.
    { split; [by destruct (sel idx); cbn; rewrite H2; apply HR|]. intros l' Hl'.
      assert (l' ∈ mi_idx mi) as Hl1 by (by destruct (sel idx); cbn in Hl'; rewrite H2 in Hl').
      destruct (mr_index _ _ HR l' Hl1) as (idx' & Eh' & HI').
      destruct (Hstep l' idx' Hl1 Eh') as [-> _]. eexists. split; [reflexivity|]. by repeat case_match. }
    assert (NoDup (if sel idx then ls ++ [l] else ls)) as Hnd.
    { destruct (sel idx); [|done]. apply NoDup_app. split_and!; [done| |apply NoDup_singleton].
      intros x Hx ->%list_elem_of_singleton. by apply Hnl, H7. }
    assert ((if sel idx then ls ++ [l] else ls) ⊆ l1 ++ [l]) as Hsub by (destruct (sel idx); set_solver).
    by destruct (sel idx).
  - exists mi', ls. split; [done|]. split_and!; try done. intros l idx Hl Eh. destruct (H5 l idx Hl Eh) as [E1 E2].
    cbn in *. rewrite decide_True in E1 by done. split; [exact E1|]. rewrite E2. tauto.
Qed.

(** An index that [MergeFinalIndexes] leaves alone. *)
Definition unmergeable (idx : Index) : Prop := final idx = false \/ ids idx = [].

Record merge_inv (mi : MasterIndex) (C : loc -> content) (first : loc) (done_ : list loc)
    (mi' : MasterIndex) (newIdx : list loc) (C' : loc -> content) : Prop := {
  mg_nodup : NoDup newIdx;
  mg_first : head newIdx = Some first;
  mg_sub : newIdx ⊆ first :: done_;
  mg_heap : forall l, l ∈ mi_idx mi -> exists idx, mi_heap mi' !! l = Some idx /\ index_repr sum64 idx (C' l);
  mg_final : forall idx, mi_heap mi !! first = Some idx ->
    exists idx', mi_heap mi' !! first = Some idx' /\ final idx' = final idx;
  mg_other : forall l, l <> first -> mi_heap mi' !! l = mi_heap mi !! l;
  mg_meta : mi_idx mi' = mi_idx mi /\ pendingBlobs mi' = pendingBlobs mi /\ mi_compress mi' = mi_compress mi;
  mg_kept : forall l idx, l ∈ newIdx -> l <> first -> mi_heap mi !! l = Some idx -> unmergeable idx;
  mg_open : forall l idx, l ∈ done_ -> mi_heap mi !! l = Some idx -> final idx = false -> l ∈ newIdx;
  mg_other_C : forall l, l <> first -> C' l = C l;
  mg_content : forall t pb, (t < NumBlobTypes)%nat ->
    (exists l, l ∈ newIdx /\ pb ∈ C' l t) <-> (exists l, l ∈ first :: done_ /\ pb ∈ C l t) }.

Lemma merge_round_keep mi C first done_ l rest mi' newIdx C' idx :
  NoDup (first :: done_ ++ l :: rest) ->
  merge_inv mi C first done_ mi' newIdx C' -> mi_heap mi !! l = Some idx -> unmergeable idx ->
  merge_inv mi C first (done_ ++ [l]) mi' (newIdx ++ [l]) C'.
Proof.
  intros Hnd [Hn Hf Hs Hh Hff Ho Hm Hk Hop HC Hc] El Hun.
  assert (l <> first /\ l ∉ done_) as [Hlf Hld].
  { rewrite NoDup_cons, NoDup_app, elem_of_app, elem_of_cons in Hnd. destruct Hnd as (H1 & _ & H2 & _).
    split; [naive_solver|]. intros Hl. apply (H2 l Hl). by left. }
  split; try done.
  - apply NoDup_app. split_and!; [done| |apply NoDup_singleton].
    intros x Hx ->%list_elem_of_singleton. apply Hs in Hx. set_solver.
  - by destruct newIdx.
  - set_solver.
  - intros x idx' [Hx| ->%list_elem_of_singleton]%elem_of_app ? ?; [eauto|]. congruence.
  - intros x idx' Hx Ei Hfx. apply elem_of_app. apply elem_of_app in Hx as [Hx|Hx]; [left; eauto|by right].
  - intros t pb Ht. specialize (Hc t pb Ht). specialize (HC l Hlf). split.
    + intros (x & [Hx| ->%list_elem_of_singleton]%elem_of_app & Hpb).
      * destruct Hc as [(y & Hy & ?) _]; [by exists x|]. exists y. split; [set_solver|done].
      * exists l. rewrite <- HC. split; [set_solver|done].
    + intros (x & [Hx|[Hx| ->%list_elem_of_singleton]%elem_of_app]%elem_of_cons & Hpb).
      * destruct Hc as [_ (y & Hy & ?)]; [exists x; set_solver|]. exists y. set_solver.
      * destruct Hc as [_ (y & Hy & ?)]; [exists x; set_solver|]. exists y. set_solver.
      * exists l. rewrite HC. set_solver.
Qed.

Lemma merge_round_merge mi C first done_ l rest mi' newIdx C' idx idx1 idx2 :
  mi_idx mi = first :: done_ ++ l :: rest -> NoDup (mi_idx mi) ->
  merge_inv mi C first done_ mi' newIdx C' ->
  mi_heap mi' !! first = Some idx1 -> mi_heap mi' !! l = Some idx -> final idx = true ->
  index_repr sum64 idx (C' l) ->
  merge sum64 idx1 idx = Ok idx2 -> final idx2 = final idx1 ->
  index_repr sum64 idx2 (fun t => if decide (t < NumBlobTypes)%nat then merge_new (C' first t) (C' l t) else C' first t) ->
  merge_inv mi C first (done_ ++ [l]) (write mi' first idx2) newIdx
    (<[first := fun t => if decide (t < NumBlobTypes)%nat then merge_new (C' first t) (C' l t) else C' first t]> C').
Proof.
  intros El Hnd [Hn Hf Hs Hh Hff Ho Hm Hk Hop HC Hc] E1 E2 Hfin HI HM Hfin2 HI2.
  assert (l <> first) as Hlf. { rewrite El, NoDup_cons in Hnd. intros ->. apply (proj1 Hnd). set_solver. }
  assert (first ∈ newIdx) as Hfi by (destruct newIdx; simplify_eq/=; by left).
  split; try done.
  - set_solver.
  - intros x Hx. cbn. destruct (decide (x = first)) as [->|Hne].
    + rewrite lookup_insert_eq, fn_lookup_insert. eauto.
    + rewrite lookup_insert_ne, fn_lookup_insert_ne by done. auto.
  - intros i Hi. cbn. rewrite lookup_insert_eq. exists idx2. split; [done|]. rewrite Hfin2.
    destruct (Hff i Hi) as (i' & E & <-). congruence.
  - intros x Hx. cbn. rewrite lookup_insert_ne by done. auto.
  - intros x i Hx Ei Hfx. apply elem_of_app in Hx as [Hx| ->%list_elem_of_singleton]; [eauto|].
    rewrite Ho in E2 by done. congruence.
  - intros x Hx. rewrite fn_lookup_insert_ne by done. auto.
  - intros t pb Ht. specialize (Hc t pb Ht). split.
    + intros (x & Hx & Hpb). destruct (decide (x = first)) as [->|Hne].
      * rewrite fn_lookup_insert, decide_True, merge_new_In in Hpb by done. destruct Hpb as [Hpb|Hpb].
        -- destruct Hc as [(y & Hy & ?) _]; [by exists first|]. exists y. split; [set_solver|done].
        -- exists l. rewrite <- HC by done. set_solver.
      * rewrite fn_lookup_insert_ne in Hpb by done.
        destruct Hc as [(y & Hy & ?) _]; [by exists x|]. exists y. split; [set_solver|done].
    + intros (x & Hx & Hpb). destruct (decide (x = l)) as [->|Hne].
      * exists first. split; [done|]. rewrite fn_lookup_insert, decide_True, merge_new_In by done.
        right. by rewrite HC.
      * destruct Hc as [_ (y & Hy & ?)]; [exists x; set_solver|]. exists y. split; [done|].
        destruct (decide (y = first)) as [->|?].
        -- rewrite fn_lookup_insert, decide_True, merge_new_In by done. by left.
        -- by rewrite fn_lookup_insert_ne.
Qed.

(** Merging keeps exactly the blobs that were there. *)
Lemma MergeFinalIndexes_ok mi C first rest :
  mi_repr mi C -> mi_idx mi = first :: rest ->
  exists mi' C', MergeFinalIndexes sum64 mi = Ok mi' /\ mi_repr mi' C' /\
    pendingBlobs mi' = pendingBlobs mi /\ mi_compress mi' = mi_compress mi /\
    head (mi_idx mi') = Some first /\ mi_idx mi' ⊆ mi_idx mi /\
    (forall idx, mi_heap mi !! first = Some idx ->
       exists idx', mi_heap mi' !! first = Some idx' /\ final idx' = final idx) /\
    (forall l, l <> first -> mi_heap mi' !! l = mi_heap mi !! l) /\
    (forall l idx, l ∈ mi_idx mi' -> l <> first -> mi_heap mi' !! l = Some idx -> unmergeable idx) /\
    ((forall idx, mi_heap mi !! first = Some idx -> final idx = true) -> forall t pb, in_open mi C t pb -> in_open mi' C' t pb) /\
    forall t pb, (t < NumBlobTypes)%nat -> pb ∈ contents mi' C' t <-> pb ∈ contents mi C t.
Proof.
  intros HR El. unfold MergeFinalIndexes. rewrite El.
  destruct (ofold_step (fun done_ (st : MasterIndex * list loc) =>
    exists C', merge_inv mi C first done_ st.1 st.2 C') (merge_round sum64 first) (mi, [first]) rest)
    as ([mi' newIdx] & -> & C' & [Hn Hf Hs Hh Hff Ho Hm Hk Hop HC Hc]).
  - exists C. split; try done; cbn.
    + apply NoDup_singleton.
    + apply HR.
    + eauto.
    + intros l idx Hl Hne. apply list_elem_of_singleton in Hl. done.
    + by intros l idx Hl%elem_of_nil.
  - intros done_ l rest' [mi1 newIdx] Er (C' & Hinv). cbn [fst snd] in Hinv.
    pose proof Hinv as [Hn Hf Hs Hh Hff Ho Hm Hk Hop HC Hc].
    assert (mi_idx mi = first :: done_ ++ l :: rest') as Ei by (by rewrite El, Er).
    pose proof (mr_nodup _ _ HR) as Hnd.
    assert (l <> first) as Hlf. { rewrite Ei, NoDup_cons in Hnd. intros ->. apply (proj1 Hnd). set_solver. }
    destruct (Hh l) as (idx & Eh & HI); [rewrite Ei; set_solver|].
    destruct (Hh first) as (idx1 & Eh1 & HI1); [rewrite Ei; by left|].
    unfold merge_round, deref. rewrite Eh, Eh1. cbn [mbind outcome_bind].
    destruct (negb (Final idx) || Nat.eqb (length match IDs idx with Ok ids => ids | _ => [] end) 0) eqn:Hu.
    + eexists. split; [reflexivity|]. exists C'. cbn [fst snd].
      eapply merge_round_keep; [by rewrite <- Ei|done|rewrite <- Ho by done; exact Eh|].
      unfold unmergeable. unfold Final, IDs in Hu. destruct (final idx); [right|by left].
      cbn in Hu. by destruct (ids idx).
    + apply orb_false_iff in Hu as [Hfin _]. apply negb_false_iff in Hfin. unfold Final in Hfin.
      destruct (merge_ok sum64 idx1 idx _ _ HI1 HI Hfin) as (idx2 & Em & Hfin2 & _ & _ & _ & HI2).
      rewrite Em. cbn [wrap_err mbind outcome_bind]. eexists. split; [reflexivity|]. eexists. cbn [fst snd].
      by eapply merge_round_merge.
  - cbn [mbind outcome_bind]. cbn [fst snd] in *. eexists _, C'. split; [reflexivity|].
    assert (newIdx ⊆ mi_idx mi) as Hsub by (by rewrite El).
    destruct Hm as (_ & ? & ?). split_and!; try done.
    + split; [done|]. cbn. intros l Hl. apply Hh, Hsub, Hl.
    + intros l idx Hl Hne Eh. cbn in *. eapply Hk; [done..|]. rewrite <- Ho by done. exact Eh.
    + intros Hfirst t pb (l & idx & Hl & Eh & Hfi & Hpb).
      assert (l <> first) as Hne by (intros ->; specialize (Hfirst idx Eh); congruence).
      rewrite El in Hl. apply elem_of_cons in Hl as [Hl|Hl]; [done|].
      exists l, idx. cbn. rewrite Ho, HC by done. split_and!; try done. by eapply Hop.
    + intros t pb Ht. unfold contents. cbn. rewrite El. specialize (Hc t pb Ht).
      assert (forall (D : loc -> content) ls, pb ∈ concat ((fun l => D l t) <$> ls) <-> exists l, l ∈ ls /\ pb ∈ D l t) as He.
      { intros D ls. rewrite list_elem_of_In, in_concat. setoid_rewrite <- list_elem_of_In.
        setoid_rewrite list_elem_of_fmap. naive_solver. }
      by rewrite !He.
Qed.
End MasterIndexFacts.

(** * Sessions

    A session of calls on the master index of a repository: blobs are
    registered, packs stored, indexes inserted, saved when full, and saved at
    the end.  [w] is the world [SaveUnpacked] works on. *)

Inductive mi_op :=
  | OpAddPending (bh : BlobHandle)
  | OpStorePack (now : Z) (id : ID) (blobs : list Blob)
  | OpInsert (idx : Index)
  | OpMerge
  | OpSaveFullIndex (now : Z)
  | OpSaveIndex.

Section Session.
Context (sum64 : list byte -> Z).
Context {W : Type} (json_Encode : jsonIndex -> outcome (list byte)).
Context (SaveUnpacked : W -> list byte -> W * outcome ID).

Definition keep {A} (w : W) (mi : MasterIndex) (o : outcome A) (f : A -> MasterIndex) : W * MasterIndex * outcome unit :=
  match o with
  | Ok a => (w, f a, Ok tt)
  | Err e => (w, mi, Err e)
  | Panic p => (w, mi, Panic p)
  end.

Definition mi_exec (w : W) (mi : MasterIndex) (op : mi_op) : W * MasterIndex * outcome unit :=
  match op with
  | OpAddPending bh => keep w mi (AddPending sum64 mi bh) fst
  | OpStorePack now id blobs => keep w mi (StorePack sum64 now mi id blobs) (fun mi => mi)
  | OpInsert idx => let '(mi, l) := alloc_index mi idx in (w, Insert mi l, Ok tt)
  | OpMerge => keep w mi (MergeFinalIndexes sum64 mi) (fun mi => mi)
  | OpSaveFullIndex now => SaveFullIndex sum64 json_Encode SaveUnpacked now w mi
  | OpSaveIndex => SaveNewIndexes sum64 json_Encode SaveUnpacked w mi
  end.

(** The session goes on after errors; it stops at a panic. *)
Fixpoint mi_run (w : W) (mi : MasterIndex) (ops : list mi_op) : outcome (W * MasterIndex) :=
  match ops with
  | [] => Ok (w, mi)
  | op :: ops =>
      match mi_exec w mi op with
      | (_, _, Panic p) => Panic p
      | (w, mi, _) => mi_run w mi ops
      end
  end.

(** What the callers guarantee: packs have an ID, blobs fit an index, and
    inserted indexes are final and well-formed. *)
Definition op_ok (op : mi_op) : Prop :=
  match op with
  | OpAddPending bh => valid_type bh
  | OpStorePack _ id blobs => id <> nullID /\ Forall storable blobs
  | OpInsert idx => final idx = true /\
      exists c, index_repr sum64 idx c /\ Forall (fun pb => pb_PackID pb <> nullID) (all_blobs c)
  | _ => True
  end.

Record mi_inv (mi : MasterIndex) (C : loc -> content) : Prop := {
  mv_repr : mi_repr sum64 mi C;
  mv_first : exists first idx, head (mi_idx mi) = Some first /\ mi_heap mi !! first = Some idx /\ final idx = true;
  mv_ids : forall l idx, l ∈ mi_idx mi -> mi_heap mi !! l = Some idx -> final idx = false -> ids idx = [];
  mv_null : forall t pb, (t < NumBlobTypes)%nat -> pb ∈ contents mi C t -> pb_PackID pb <> nullID }.

(** Everything known stays known, every copy stays. *)
Definition keeps (mi : MasterIndex) (C : loc -> content) (mi' : MasterIndex) (C' : loc -> content) : Prop :=
  (forall bh, valid_type bh -> known mi C bh -> known mi' C' bh) /\
  (forall t pb, (t < NumBlobTypes)%nat -> pb ∈ contents mi C t -> pb ∈ contents mi' C' t).

Lemma keeps_refl mi C : keeps mi C mi C.
Proof. by split. Qed.
Lemma keeps_trans mi1 C1 mi2 C2 mi3 C3 : keeps mi1 C1 mi2 C2 -> keeps mi2 C2 mi3 C3 -> keeps mi1 C1 mi3 C3.
Proof. intros [] []; split; eauto. Qed.

(** Exactly the same blobs are pending and stored. *)
Definition same_known (mi : MasterIndex) (C : loc -> content) (mi' : MasterIndex) (C' : loc -> content) : Prop :=
  pendingBlobs mi' = pendingBlobs mi /\
  (forall t pb, (t < NumBlobTypes)%nat -> pb ∈ contents mi' C' t <-> pb ∈ contents mi C t).

Lemma same_refl mi C : same_known mi C mi C.
Proof. by split. Qed.
Lemma same_trans mi1 C1 mi2 C2 mi3 C3 :
  same_known mi1 C1 mi2 C2 -> same_known mi2 C2 mi3 C3 -> same_known mi1 C1 mi3 C3.
Proof. intros [? H1] [? H2]. split; [congruence|]. intros t pb Ht. by rewrite H2, H1. Qed.

Lemma keeps_contents mi C mi' C' :
  pendingBlobs mi ⊆ pendingBlobs mi' ->
  (forall t pb, (t < NumBlobTypes)%nat -> pb ∈ contents mi C t -> pb ∈ contents mi' C' t) ->
  keeps mi C mi' C'.
Proof.
  intros Hp Hc. split; [|done]. intros bh Ht [Hk|Hk]; [left; set_solver|right].
  unfold stored in *. rewrite list_elem_of_fmap in *. destruct Hk as (pb & E & Hpb). exists pb. split; [done|].
  apply Hc; [|done]. unfold valid_type, bh_type in *. lia.
Qed.

Lemma same_keeps mi C mi' C' : same_known mi C mi' C' -> keeps mi C mi' C'.
Proof. intros [Hp Hc]. apply keeps_contents; [by rewrite Hp|]. intros t pb Ht ?. by apply Hc. Qed.

Lemma step_AddPending mi C bh :
  mi_inv mi C -> valid_type bh ->
  exists mi' b, AddPending sum64 mi bh = Ok (mi', b) /\ mi_inv mi' C /\ keeps mi C mi' C.
Proof.
  intros [HR H1 H2 H3] Ht. rewrite (AddPending_ok _ _ _ _ HR Ht). case_decide.
  - eexists _, _. split; [done|]. split; [done|]. apply keeps_refl.
  - eexists _, _. split; [done|]. split; [split; [by apply mi_repr_pending|done..]|].
    apply keeps_contents; [cbn; set_solver|done].
Qed.

Lemma in_contents mi C t pb : pb ∈ contents mi C t <-> exists l, l ∈ mi_idx mi /\ pb ∈ C l t.
Proof.
  unfold contents. rewrite list_elem_of_In, in_concat. setoid_rewrite <- list_elem_of_In.
  setoid_rewrite list_elem_of_fmap. naive_solver.
Qed.

(** The final indexes and their IDs do not change, nor do those that are not
    final get an ID. *)
Lemma StorePack_meta now mi id bs mi' :
  StorePack sum64 now mi id bs = Ok mi' -> Forall storable bs ->
  (exists C, mi_repr sum64 mi C) ->
  forall l idx', l ∈ mi_idx mi' -> mi_heap mi' !! l = Some idx' ->
    (exists idx, l ∈ mi_idx mi /\ mi_heap mi !! l = Some idx /\ final idx' = final idx /\ ids idx' = ids idx) \/
    (ids idx' = [] /\ l ∉ mi_idx mi).
Proof.
  intros E Hs [C HR]. unfold StorePack in E. rewrite pending_deleted in E.
  pose proof (mi_repr_pending sum64 mi C (pendingBlobs mi ∖ blob_handles bs) HR) as HR1.
  set (mi1 := set_pending mi _) in *.
  assert (forall ls, ls ⊆ mi_idx mi1 -> exists o, storeInFirst sum64 mi1 id bs ls = Ok o /\
    forall mi', o = Some mi' -> exists l idx idx', l ∈ ls /\ mi_heap mi1 !! l = Some idx /\
      final idx' = final idx /\ ids idx' = ids idx /\ mi' = write mi1 l idx') as Hfirst.
  { induction ls as [|l ls IH]; intros Hsub; cbn [storeInFirst]; [by exists None|].
    assert (l ∈ mi_idx mi1) as Hl by (apply Hsub; by left).
    destruct (mr_index _ _ _ HR1 l Hl) as (idx & Eh & HI). unfold deref. rewrite Eh. cbn [mbind outcome_bind].
    unfold Final. destruct (final idx) eqn:Hf; cbn [negb].
    - destruct IH as (o & Eo & Ho); [by intros ? ?; apply Hsub; right|]. exists o. split; [done|].
      intros m Em. destruct (Ho m Em) as (l' & i & i' & ? & ?). exists l', i, i'. split; [by right|done].
    - destruct (Index_StorePack_ok sum64 idx (C l) id bs HI Hf Hs) as (idx' & -> & _ & (? & ? & ?) & _).
      cbn [mbind outcome_bind]. eexists. split; [done|]. intros m [= <-].
      exists l, idx, idx'. split; [by left|]. split_and!; try done; congruence. }
  destruct (Hfirst (mi_idx mi1)) as (o & Eo & Ho); [done|]. rewrite Eo in E. cbn [mbind outcome_bind] in E.
  destruct o as [m|].
  - injection E as <-. destruct (Ho m eq_refl) as (l & idx & idx' & Hl & Eh & ? & ? & ->).
    intros x i Hx Hi. left. cbn in Hx, Hi. destruct (decide (l = x)) as [<-|Hne].
    + rewrite lookup_insert_eq in Hi. simplify_eq. exists idx. done.
    + rewrite lookup_insert_ne in Hi by done. exists i. done.
  - destruct (Index_StorePack_ok sum64 (NewIndex now) (fun _ => []) id bs (new_index_repr sum64 now) eq_refl Hs)
      as (idx & Ei & _ & (_ & Hids & _) & _).
    rewrite Ei in E. cbn [mbind outcome_bind alloc_index] in E.
    set (l0 := fresh (dom (mi_heap mi1))) in *. injection E as <-.
    assert (l0 ∉ mi_idx mi) as Hfresh.
    { intros Hin. destruct (mr_index _ _ _ HR1 l0 Hin) as (? & Hl & _).
      apply (is_fresh (dom (mi_heap mi1))). apply elem_of_dom. eexists. exact Hl. }
    intros x i Hx Hi. cbn in Hx, Hi. apply elem_of_app in Hx as [Hx|Hx%list_elem_of_singleton].
    + left. rewrite lookup_insert_ne in Hi by (intros ->; done). exists i. done.
    + right. subst x. rewrite lookup_insert_eq in Hi. simplify_eq. done.
Qed.

Lemma step_StorePack now mi C id bs :
  mi_inv mi C -> id <> nullID -> Forall storable bs ->
  exists mi' C', StorePack sum64 now mi id bs = Ok mi' /\ mi_inv mi' C' /\ keeps mi C mi' C' /\
    pendingBlobs mi' = pendingBlobs mi ∖ blob_handles bs /\
    (forall t pb, in_open mi C t pb \/ pb ∈ of_type t (packed id <$> bs) -> in_open mi' C' t pb) /\
    forall t, contents mi' C' t ≡ₚ contents mi C t ++ of_type t (packed id <$> bs).
Proof.
  intros [HR H1 H2 H3] Hid Hs.
  destruct (MI_StorePack_ok sum64 now mi C id bs HR Hs) as (mi' & C' & E & HR' & Hpre & Hpend & _ & Hop & Hc).
  pose proof (StorePack_meta now mi id bs mi' E Hs (ex_intro _ C HR)) as Hmeta.
  assert (forall t pb, pb ∈ of_type t (packed id <$> bs) -> pb_PackID pb = id) as Hpid.
  { intros t pb [Hpb _]%of_type_In. apply list_elem_of_fmap in Hpb as (b & -> & _). done. }
  exists mi', C'. split; [done|]. split; [split; [done| | |]|].
  - destruct H1 as (first & idx & Eh & Ei & Hf). destruct Hpre as [k Hk].
    assert (head (mi_idx mi') = Some first) as Eh' by (rewrite Hk; by destruct (mi_idx mi)).
    destruct (mr_index _ _ _ HR' first) as (idx' & Ei' & _); [by apply head_Some_elem_of|].
    exists first, idx'. split; [done|]. split; [done|].
    destruct (Hmeta first idx') as [(i & _ & Hi & -> & _)|[_ Hn]]; [by apply head_Some_elem_of|done|congruence|].
    destruct Hn. by apply head_Some_elem_of.
  - intros l idx' Hl Ei' Hf'. destruct (Hmeta l idx' Hl Ei') as [(i & Hi & Eh & Ef & ->)|[? _]]; [|done].
    eapply H2; [done|done|congruence].
  - intros t pb Ht. rewrite Hc, elem_of_app. intros [Hpb|Hpb]; [eauto|]. by rewrite (Hpid t pb Hpb).
  - split; [|done]. split.
    + intros bh Ht Hk. destruct (decide (bh ∈ blob_handles bs)) as [Hb|Hb].
      * right. unfold stored. rewrite Hc, fmap_app. apply elem_of_app. right.
        unfold blob_handles in Hb. rewrite elem_of_list_to_set, list_elem_of_fmap in Hb. destruct Hb as (b & -> & Hb).
        apply list_elem_of_fmap. exists (packed id b). split; [done|]. apply of_type_In. split.
        -- apply list_elem_of_fmap. eauto.
        -- unfold valid_type, bh_type in *. cbn in *. lia.
      * destruct Hk as [Hk|Hk]; [left; rewrite Hpend; set_solver|]. right. unfold stored in *.
        rewrite Hc, fmap_app. apply elem_of_app. by left.
    + intros t pb Ht Hpb. rewrite Hc. apply elem_of_app. by left.
Qed.

Lemma step_Merge mi C :
  mi_inv mi C ->
  exists mi' C', MergeFinalIndexes sum64 mi = Ok mi' /\ mi_inv mi' C' /\ same_known mi C mi' C' /\
    forall t pb, in_open mi C t pb -> in_open mi' C' t pb.
Proof.
  intros [HR (first & idx & Eh & Ei & Hf) H2 H3].
  destruct (mi_idx mi) as [|first' rest] eqn:El; [done|]. cbn in Eh. injection Eh as ->.
  destruct (MergeFinalIndexes_ok sum64 mi C first rest HR El)
    as (mi' & C' & E & HR' & Hp & _ & Eh' & Hsub & Hff & Ho & _ & Hop & Hc).
  exists mi', C'. split; [done|]. destruct (Hff idx Ei) as (idx' & Ei' & Ef'). split.
  - split; [done|exists first, idx'; split_and!; congruence| |].
    + intros l i Hl Hi Hfi. destruct (decide (l = first)) as [->|Hne]; [congruence|].
      rewrite Ho in Hi by done. apply (H2 l i); [rewrite <- El; by apply Hsub|done..].
    + intros t pb Ht Hpb. apply (H3 t pb Ht). by apply Hc.
  - split; [by split|]. apply Hop. intros i Hi. congruence.
Qed.

Lemma step_Insert mi C idx c :
  mi_inv mi C -> final idx = true -> index_repr sum64 idx c ->
  Forall (fun pb => pb_PackID pb <> nullID) (all_blobs c) ->
  let '(mi1, l) := alloc_index mi idx in
  exists C', mi_inv (Insert mi1 l) C' /\ keeps mi C (Insert mi1 l) C' /\ pendingBlobs (Insert mi1 l) = pendingBlobs mi /\
    forall t pb, pb ∈ contents (Insert mi1 l) C' t <-> pb ∈ contents mi C t \/ pb ∈ c t.
Proof.
  intros [HR (first & i0 & Eh & Ei & Hf) H2 H3] Hfi HI Hnull. unfold alloc_index.
  set (l := fresh (dom (mi_heap mi))).
  assert (forall x, x ∈ mi_idx mi -> x <> l) as Hne.
  { intros x Hin ->. destruct (mr_index _ _ _ HR l Hin) as (? & Hl & _).
    apply (is_fresh (dom (mi_heap mi))). apply elem_of_dom. eexists. exact Hl. }
  assert (forall t pb, pb ∈ contents (Insert (set_heap mi (<[l:=idx]> (mi_heap mi))) l) (<[l := c]> C) t <->
                       pb ∈ contents mi C t \/ pb ∈ c t) as Hc.
  { intros t pb. rewrite !in_contents. cbn. setoid_rewrite elem_of_app. setoid_rewrite list_elem_of_singleton.
    split.
    - intros (x & [Hx| ->] & Hpb); [left; exists x|right].
      + by rewrite fn_lookup_insert_ne in Hpb by (apply not_eq_sym; auto).
      + by rewrite fn_lookup_insert in Hpb.
    - intros [(x & Hx & Hpb)|Hpb]; [exists x|exists l].
      + rewrite fn_lookup_insert_ne by (apply not_eq_sym; auto). auto.
      + rewrite fn_lookup_insert. auto. }
  exists (<[l := c]> C). split.
  - split.
    + split; cbn.
      * apply NoDup_app. split_and!; [apply HR|intros x Hx ->%list_elem_of_singleton; by apply (Hne l)|apply NoDup_singleton].
      * intros x [Hx| ->%list_elem_of_singleton]%elem_of_app.
        -- rewrite lookup_insert_ne, fn_lookup_insert_ne by (apply not_eq_sym; auto). by apply (mr_index _ _ _ HR).
        -- rewrite lookup_insert_eq, fn_lookup_insert. eauto.
    + exists first, i0. cbn. rewrite lookup_insert_ne by (apply not_eq_sym, Hne; by apply head_Some_elem_of).
      split_and!; [by destruct (mi_idx mi)|done..].
    + cbn. intros x i [Hx| ->%list_elem_of_singleton]%elem_of_app Hi.
      * rewrite lookup_insert_ne in Hi by (apply not_eq_sym; auto). eauto.
      * rewrite lookup_insert_eq in Hi. congruence.
    + intros t pb Ht [Hpb|Hpb]%Hc; [eauto|]. eapply Forall_forall in Hnull; [exact Hnull|].
      eapply all_blobs_In; [exact HI|eauto].
  - split; [|done]. apply keeps_contents; [done|]. intros t pb Ht Hpb. apply Hc. by left.
Qed.

(** [okW] is an invariant of the world, [Pst w t pb] says that a copy is in an
    index file, and [G] holds of the copies in the index.  Saving an index that
    represents such copies does not panic and keeps the invariant; when it
    succeeds the copies are in a file, and they stay there. *)
Context (okW : W -> Prop) (Pst : W -> nat -> PackedBlob -> Prop) (G : PackedBlob -> Prop).
Context (Hjson : forall j, ~ panics (json_Encode j)).
Context (Hsave : forall w idx c buf, okW w -> index_repr sum64 idx c ->
  Forall (fun pb => pb_PackID pb <> nullID /\ G pb) (all_blobs c) -> Encode json_Encode idx = Ok buf ->
  ~ panics (SaveUnpacked w buf).2 /\ okW (SaveUnpacked w buf).1 /\
  forall id t pb, (SaveUnpacked w buf).2 = Ok id -> (t < NumBlobTypes)%nat -> pb ∈ c t -> Pst (SaveUnpacked w buf).1 t pb).
Context (HPst : forall w buf t pb, Pst w t pb -> Pst (SaveUnpacked w buf).1 t pb).

Definition all_good (mi : MasterIndex) (C : loc -> content) : Prop :=
  forall t pb, (t < NumBlobTypes)%nat -> pb ∈ contents mi C t -> G pb.

Lemma SaveIndex_Pst w idx t pb : Pst w t pb -> Pst (SaveIndex json_Encode SaveUnpacked w idx).1.1 t pb.
Proof using HPst.
  intros HP. unfold SaveIndex. destruct (Encode _ _) as [buf|e|p]; [|done..].
  pose proof (HPst w buf t pb HP) as HP'. destruct (SaveUnpacked w buf) as [w' res]. cbn in HP'.
  destruct res; [destruct (SetID _ _)|destruct (SetID _ _)|]; done.
Qed.

(** Saving one finalized index that has no ID yet. *)
Lemma SaveIndex_ok w idx c :
  okW w -> index_repr sum64 idx c -> Forall (fun pb => pb_PackID pb <> nullID /\ G pb) (all_blobs c) ->
  final idx = true -> ids idx = [] ->
  exists w' idx' res, SaveIndex json_Encode SaveUnpacked w idx = (w', idx', res) /\ ~ panics res /\
    okW w' /\ index_repr sum64 idx' c /\ final idx' = true /\
    forall id t pb, res = Ok id -> (t < NumBlobTypes)%nat -> pb ∈ c t -> Pst w' t pb.
Proof using Hjson Hsave.
  intros Hw HI Hn Hf Hids. unfold SaveIndex.
  destruct (Encode json_Encode idx) as [buf|e|p] eqn:Ej.
  - destruct (Hsave w idx c buf Hw HI Hn Ej) as (Hnp & Hw' & HP).
    destruct (SaveUnpacked w buf) as [w' res]. cbn in Hnp, Hw', HP. unfold SetID. rewrite Hf, Hids.
    destruct res as [id|e|p]; [..|by destruct Hnp; eexists]; eexists _, _, _; (split; [reflexivity|]);
      split_and!; try done; try apply HI.
  - eexists _, _, _. split; [reflexivity|]. split_and!; try done; [intros [? ?]; done|by apply HI..].
  - exfalso. unfold Encode in Ej. eapply Forall_impl in Hn; [|intros pb [Hpb _]; exact Hpb].
    destruct (generatePackList_ok sum64 idx c HI Hn) as (L & EL & _). rewrite EL in Ej.
    apply (Hjson (mkJsonIndex (idx_supersedes idx) L)). eexists. exact Ej.
Qed.

Lemma mi_inv_write mi C l idx idx' :
  mi_inv mi C -> l ∈ mi_idx mi -> mi_heap mi !! l = Some idx -> final idx = true ->
  index_repr sum64 idx' (C l) -> final idx' = true ->
  mi_inv (write mi l idx') C /\ same_known mi C (write mi l idx') C /\
  forall t pb, in_open mi C t pb -> in_open (write mi l idx') C t pb.
Proof.
  intros [HR (first & i0 & Eh & Ei & Hf0) H2 H3] Hl El Hf HI' Hf'. split; [split|split].
  - split; [apply HR|]. intros x Hx. cbn. destruct (decide (l = x)) as [<-|Hne].
    + rewrite lookup_insert_eq. eauto.
    + rewrite lookup_insert_ne by done. by apply (mr_index _ _ _ HR).
  - exists first. cbn. destruct (decide (l = first)) as [<-|Hne].
    + rewrite lookup_insert_eq. eauto.
    + rewrite lookup_insert_ne by done. eauto.
  - intros x i Hx. cbn. destruct (decide (l = x)) as [<-|Hne].
    + rewrite lookup_insert_eq. congruence.
    + rewrite lookup_insert_ne by done. eauto.
  - done.
  - by split.
  - intros t pb (x & i & Hx & Exi & Hfx & Hpb). exists x, i. cbn. rewrite lookup_insert_ne by (intros ->; congruence). done.
Qed.

Lemma saveIndex_ok ls w mi C :
  okW w -> mi_inv mi C -> all_good mi C -> NoDup ls -> ls ⊆ mi_idx mi ->
  (forall l idx, l ∈ ls -> mi_heap mi !! l = Some idx -> final idx = true /\ ids idx = []) ->
  exists w' mi' res C', saveIndex sum64 json_Encode SaveUnpacked w mi ls = (w', mi', res) /\ ~ panics res /\
    okW w' /\ mi_inv mi' C' /\ same_known mi C mi' C' /\
    (forall t pb, Pst w t pb -> Pst w' t pb) /\ (forall t pb, in_open mi C t pb -> in_open mi' C' t pb) /\
    (res = Ok tt -> forall l t pb, l ∈ ls -> (t < NumBlobTypes)%nat -> pb ∈ C l t -> Pst w' t pb).
Proof using Hjson Hsave HPst.
  revert w mi; induction ls as [|l ls IH]; intros w mi Hw Hinv HG Hnd Hsub Hls; cbn [saveIndex].
  - destruct (step_Merge mi C Hinv) as (mi' & C' & -> & Hinv' & Hk & Hop).
    eexists _, _, _, C'. split; [reflexivity|]. split; [by intros [? ?]|]. do 5 (split; [done|]).
    by intros _ x t pb Hx%elem_of_nil.
  - pose proof (mv_repr _ _ Hinv) as HR. assert (l ∈ mi_idx mi) as Hl by (apply Hsub; by left).
    destruct (mr_index _ _ _ HR l Hl) as (idx & Eh & HI). unfold deref. rewrite Eh.
    destruct (Hls l idx) as [Hf Hids]; [by left|done|].
    pose proof (fun t pb => SaveIndex_Pst w idx t pb) as HP1.
    destruct (SaveIndex_ok w idx (C l) Hw HI) as (w1 & idx1 & res & E1 & Hnp & Hw1 & HI1 & Hf1 & Hsv); [|done..|].
    { apply Forall_forall. intros pb (t & Ht & Hpb)%(all_blobs_In sum64 _ _ _ HI).
      assert (pb ∈ contents mi C t) as Hc by (apply in_contents; eauto).
      split; [by eapply (mv_null _ _ Hinv t)|by eapply HG]. }
    rewrite E1 in HP1 |- *. cbn [fst] in HP1.
    destruct (mi_inv_write mi C l idx idx1 Hinv Hl Eh Hf HI1 Hf1) as (Hinv1 & Hk1 & Hop1).
    apply NoDup_cons in Hnd as [Hnl Hnd].
    destruct res as [id|e|p].
    + destruct (IH w1 (write mi l idx1) Hw1 Hinv1) as (w' & mi' & res & C' & E & ? & ? & ? & Hk' & HP' & Hop' & Hsv'); [done|done|set_solver|..].
      * intros x i Hx. cbn. rewrite lookup_insert_ne by (intros ->; done). intros Hi. apply (Hls x i); [by right|done].
      * exists w', mi', res, C'. do 4 (split; [done|]). split; [by eapply same_trans|]. split; [auto|]. split; [auto|].
        intros Er x t pb [->|Hx]%elem_of_cons Ht Hpb; [apply HP'; eauto|by eapply Hsv'].
    + eexists _, _, _, C. split; [reflexivity|]. split; [by intros [? ?]|]. by split_and!.
    + destruct Hnp. by eexists.
Qed.

(** A copy in an index that is not selected stays where it is; the others are
    in a file when saving succeeds. *)
Lemma step_save sel w mi C :
  okW w -> (forall idx, sel idx = true -> final idx = false) -> mi_inv mi C -> all_good mi C ->
  exists mi1 ls, finalize_sel sel mi = Ok (mi1, ls) /\
  exists w' mi' res C', saveIndex sum64 json_Encode SaveUnpacked w mi1 ls = (w', mi', res) /\ ~ panics res /\
    okW w' /\ mi_inv mi' C' /\ same_known mi C mi' C' /\
    (forall t pb, Pst w t pb -> Pst w' t pb) /\
    (res = Ok tt -> forall t pb, (t < NumBlobTypes)%nat -> in_open mi C t pb ->
      (in_open mi' C' t pb /\ exists idx, final idx = false /\ sel idx = false) \/ Pst w' t pb).
Proof using Hjson Hsave HPst.
  intros Hw Hsel Hinv HG. pose proof Hinv as [HR (first & i0 & Eh & Ei & Hf0) H2 H3].
  destruct (finalize_sel_ok sum64 sel mi C HR) as (mi1 & ls & E & HR1 & Eidx & Ep & _ & Hnd & Hsub & Hheap).
  exists mi1, ls. split; [done|].
  assert (mi_inv mi1 C) as Hinv1.
  { split; [done|exists first| |].
    - destruct (Hheap first i0) as [E1 _]; [by apply head_Some_elem_of|done|]. rewrite Eidx, E1.
      eexists. split; [done|]. split; [reflexivity|]. by destruct (sel i0).
    - intros l idx Hl Hi Hfi. rewrite Eidx in Hl. destruct (mr_index _ _ _ HR l Hl) as (i & Hi0 & _).
      destruct (Hheap l i Hl Hi0) as [E1 _]. rewrite E1 in Hi. injection Hi as <-.
      destruct (sel i); [done|eauto].
    - intros t pb Ht. unfold contents. rewrite Eidx. by apply H3. }
  assert (same_known mi C mi1 C) as Hk1.
  { split; [done|]. intros t pb _. unfold contents. by rewrite Eidx. }
  assert (all_good mi1 C) as HG1. { intros t pb Ht. unfold contents. rewrite Eidx. by apply HG. }
  destruct (saveIndex_ok ls w mi1 C Hw Hinv1 HG1 Hnd) as (w' & mi' & res & C' & E' & ? & ? & ? & ? & HP & Hop & Hsv); [by rewrite Eidx| |].
  - intros l idx Hl Hi. assert (l ∈ mi_idx mi) as Hl' by auto.
    destruct (mr_index _ _ _ HR l Hl') as (i & Hi0 & _). destruct (Hheap l i Hl' Hi0) as [E1 E2].
    apply E2 in Hl. rewrite E1, Hl in Hi. injection Hi as <-. split; [done|]. cbn. eauto.
  - exists w', mi', res, C'. do 4 (split; [done|]). split; [by eapply same_trans|]. split; [done|].
    intros Er t pb Ht (l & i & Hl & Eli & Hfi & Hpb). destruct (Hheap l i Hl Eli) as [E1 E2].
    destruct (sel i) eqn:Hs; [right; eapply Hsv; [done| |done..]; by apply E2|left].
    split; [|eauto]. apply Hop. exists l, i. by rewrite Eidx.
Qed.

Lemma mi_exec_ok w mi C op :
  okW w -> mi_inv mi C -> (forall pb, G pb) -> op_ok op ->
  exists w' mi' res C', mi_exec w mi op = (w', mi', res) /\ ~ panics res /\ okW w' /\ mi_inv mi' C' /\ keeps mi C mi' C'.
Proof using Hjson Hsave HPst.
  intros Hw Hinv HG Hop. assert (forall a : unit, ~ panics (Ok a)) as Hok by (intros a [? ?]; done).
  destruct op as [bh|now id bs|idx| |now|]; cbn [mi_exec op_ok] in *.
  - destruct (step_AddPending mi C bh Hinv Hop) as (mi' & b & -> & ? & ?). cbn. eauto 10.
  - destruct Hop as [Hid Hs]. destruct (step_StorePack now mi C id bs Hinv Hid Hs) as (mi' & C' & -> & ? & ? & _). cbn. eauto 10.
  - destruct Hop as (Hf & c & HI & Hn). pose proof (step_Insert mi C idx c Hinv Hf HI Hn) as Hi.
    destruct (alloc_index mi idx) as [mi1 l]. destruct Hi as (C' & ? & ? & _). eauto 10.
  - destruct (step_Merge mi C Hinv) as (mi' & C' & -> & ? & ?%same_keeps & _). cbn. eauto 10.
  - unfold SaveFullIndex, finalizeFullIndexes.
    destruct (step_save (fun idx => if Final idx then false else IndexFull now idx (mi_compress mi)) w mi C Hw)
      as (mi1 & ls & -> & Hs); [| | |destruct Hs as (w' & mi' & res & C' & ? & ? & ? & ? & ?%same_keeps & _); eauto 10].
    { intros idx. unfold Final. by destruct (final idx). }
    { done. }
    { intros t pb _ _. apply HG. }
  - unfold SaveNewIndexes, finalizeNotFinalIndexes.
    destruct (step_save (fun idx => negb (Final idx)) w mi C Hw) as (mi1 & ls & -> & Hs); [| | |destruct Hs as (w' & mi' & res & C' & ? & ? & ? & ? & ?%same_keeps & _); eauto 10].
    { intros idx. unfold Final. by destruct (final idx). }
    { done. }
    { intros t pb _ _. apply HG. }
Qed.

Lemma mi_run_ok ops w mi C :
  okW w -> mi_inv mi C -> (forall pb, G pb) -> Forall op_ok ops ->
  exists w' mi' C', mi_run w mi ops = Ok (w', mi') /\ okW w' /\ mi_inv mi' C' /\ keeps mi C mi' C'.
Proof using Hjson Hsave HPst.
  revert w mi C; induction ops as [|op ops IH]; intros w mi C Hw Hinv HG Hops; cbn [mi_run].
  - eexists _, _, C. do 3 (split; [done|]). apply keeps_refl.
  - apply Forall_cons in Hops as [Hop Hops].
    destruct (mi_exec_ok w mi C op Hw Hinv HG Hop) as (w1 & mi1 & res & C1 & -> & Hnp & Hw1 & Hinv1 & Hk1).
    destruct (IH w1 mi1 C1 Hw1 Hinv1 HG Hops) as (w' & mi' & C' & E & Hw' & Hinv' & Hk').
    exists w', mi', C'. split; [destruct res; try done; destruct Hnp; by eexists|].
    do 2 (split; [done|]). by eapply keeps_trans.
Qed.

Lemma mi_run_app ops1 ops2 w mi :
  mi_run w mi (ops1 ++ ops2) = try (w, mi) <- mi_run w mi ops1; mi_run w mi ops2.
Proof.
  revert w mi; induction ops1 as [|op ops1 IH]; intros w mi; [done|]. cbn.
  destruct (mi_exec w mi op) as [[w1 mi1] [ | |]]; cbn; auto.
Qed.

(** What saving does to the world is what [SaveUnpacked] does, repeatedly. *)
Lemma SaveIndex_world (Rw : W -> W -> Prop) w i :
  (forall w, Rw w w) -> (forall w buf, Rw w (SaveUnpacked w buf).1) ->
  Rw w (SaveIndex json_Encode SaveUnpacked w i).1.1.
Proof.
  intros Hr HS. unfold SaveIndex. destruct (Encode _ _) as [buf|e|p]; [|apply Hr..].
  specialize (HS w buf). destruct (SaveUnpacked w buf) as [w' res]. cbn in HS.
  destruct res; [destruct (SetID _ _)|destruct (SetID _ _)|]; done.
Qed.

Lemma saveIndex_world (Rw : W -> W -> Prop) ls w mi :
  (forall w, Rw w w) -> (forall a b c, Rw a b -> Rw b c -> Rw a c) -> (forall w buf, Rw w (SaveUnpacked w buf).1) ->
  Rw w (saveIndex sum64 json_Encode SaveUnpacked w mi ls).1.1.
Proof.
  intros Hr Ht HS. revert w mi; induction ls as [|l ls IH]; intros w mi; cbn [saveIndex].
  - destruct (MergeFinalIndexes _ _); apply Hr.
  - destruct (deref mi l) as [i|e|p]; [|apply Hr..].
    pose proof (SaveIndex_world Rw w i Hr HS) as H1.
    destruct (SaveIndex _ _ w i) as [[w' i'] res]. cbn in H1. destruct res; [|done..]. eapply Ht; [exact H1|apply IH].
Qed.

Lemma NewMasterIndex_inv now : mi_inv (NewMasterIndex now) (fun _ _ => []).
Proof.
  split.
  - split; [apply NoDup_singleton|]. intros l ->%list_elem_of_singleton. eexists. split; [done|].
    apply new_index_repr.
  - eexists 0%nat, _. done.
  - intros l idx ->%list_elem_of_singleton [= <-]. done.
  - intros t pb _ (l & _ & Hpb)%in_contents. by apply elem_of_nil in Hpb.
Qed.
End Session.

(** Sessions on a repository of which only the absence of panics is known. *)
Lemma mi_run_total sum64 {W} (json_Encode : jsonIndex -> outcome (list byte)) (SaveUnpacked : W -> list byte -> W * outcome ID) ops w mi C :
  (forall j, ~ panics (json_Encode j)) -> (forall w buf, ~ panics (SaveUnpacked w buf).2) ->
  mi_inv sum64 mi C -> Forall (op_ok sum64) ops ->
  exists w' mi' C', mi_run sum64 json_Encode SaveUnpacked w mi ops = Ok (w', mi') /\ mi_inv sum64 mi' C' /\ keeps mi C mi' C'.
Proof.
  intros Hjson Hsave Hinv Hops.
  destruct (mi_run_ok sum64 json_Encode SaveUnpacked (fun _ => True) (fun _ _ _ => True) (fun _ => True) Hjson
    (fun w idx c buf _ _ _ _ => conj (Hsave w buf) (conj I (fun _ _ _ _ _ _ => I))) (fun _ _ _ _ _ => I) ops w mi C I Hinv (fun _ => I) Hops)
    as (w' & mi' & C' & E & _ & Hinv' & Hk). by exists w', mi', C'.
Qed.

Lemma Lookup_elem sum64 mi C bh :
  mi_repr sum64 mi C -> valid_type bh ->
  exists pbs, Lookup sum64 mi bh = Ok pbs /\
    forall pb, pb ∈ pbs <-> pb ∈ contents mi C (bh_type bh) /\ pb_ID pb = bh_ID bh.
Proof.
  intros HR Ht. rewrite (Lookup_ok _ _ _ _ HR Ht). eexists. split; [reflexivity|]. intros pb.
  rewrite in_contents, list_elem_of_In, in_concat. unfold with_pid. split.
  - intros (x & (l & -> & Hl)%list_elem_of_In%list_elem_of_fmap & [Hid Hpb]%list_elem_of_In%list_elem_of_filter).
    rewrite elem_of_reverse in Hpb. split; [by exists l|done].
  - intros ((l & Hl & Hpb) & Hid). exists (filter (fun pb => pb_ID pb = bh_ID bh) (reverse (C l (bh_type bh)))).
    rewrite <- !list_elem_of_In. split; [by apply list_elem_of_fmap; exists l|].
    apply list_elem_of_filter. by rewrite elem_of_reverse.
Qed.

(** C17. In every session of calls on the master index, whatever is saved, merged
    or inserted in between, and even when saving fails: no call panics, a blob
    that [Has] knows stays known, and every copy that [Lookup] finds is still
    found.  The JSON encoder and the repository are only assumed not to
    panic. *)
Theorem master_index_never_forgets (sum64 : list byte -> Z) {W}
    (json_Encode : jsonIndex -> outcome (list byte)) (SaveUnpacked : W -> list byte -> W * outcome ID)
    (Hjson : forall j, ~ panics (json_Encode j)) (Hsave : forall w buf, ~ panics (SaveUnpacked w buf).2)
    (now : Z) (w : W) (ops1 ops2 : list mi_op)
    (Hops1 : Forall (op_ok sum64) ops1) (Hops2 : Forall (op_ok sum64) ops2) :
  exists w1 mi1 w2 mi2,
    mi_run sum64 json_Encode SaveUnpacked w (NewMasterIndex now) ops1 = Ok (w1, mi1) /\
    mi_run sum64 json_Encode SaveUnpacked w1 mi1 ops2 = Ok (w2, mi2) /\
    forall bh, valid_type bh ->
      (Has sum64 mi1 bh = Ok true -> Has sum64 mi2 bh = Ok true) /\
      exists pbs1 pbs2, Lookup sum64 mi1 bh = Ok pbs1 /\ Lookup sum64 mi2 bh = Ok pbs2 /\ pbs1 ⊆ pbs2.
Proof.
  destruct (mi_run_total sum64 json_Encode SaveUnpacked ops1 w _ _ Hjson Hsave (NewMasterIndex_inv sum64 now) Hops1)
    as (w1 & mi1 & C1 & E1 & Hinv1 & _).
  destruct (mi_run_total sum64 json_Encode SaveUnpacked ops2 w1 mi1 C1 Hjson Hsave Hinv1 Hops2)
    as (w2 & mi2 & C2 & E2 & Hinv2 & [Hk Hc]).
  exists w1, mi1, w2, mi2. do 2 (split; [done|]). intros bh Ht.
  pose proof (mv_repr _ _ _ Hinv1) as HR1. pose proof (mv_repr _ _ _ Hinv2) as HR2. split.
  - rewrite (MI_Has_ok _ _ _ _ HR1 Ht), (MI_Has_ok _ _ _ _ HR2 Ht).
    intros Hb. injection Hb as Hb. apply bool_decide_eq_true in Hb. f_equal.
    apply bool_decide_eq_true. by apply Hk.
  - destruct (Lookup_elem _ _ _ _ HR1 Ht) as (pbs1 & L1 & H1). destruct (Lookup_elem _ _ _ _ HR2 Ht) as (pbs2 & L2 & H2).
    exists pbs1, pbs2. do 2 (split; [done|]). intros pb [Hpb Hid]%H1. apply H2. split; [|done].
    apply Hc; [|done]. unfold valid_type, bh_type in *. lia.
Qed.

(** Deduplication: in a session, of all callers that register the same blob,
    exactly the first is told that it is new; whatever happens between two
    calls, the second one is refused. *)
Theorem addpending_only_first (sum64 : list byte -> Z) {W}
    (json_Encode : jsonIndex -> outcome (list byte)) (SaveUnpacked : W -> list byte -> W * outcome ID)
    (Hjson : forall j, ~ panics (json_Encode j)) (Hsave : forall w buf, ~ panics (SaveUnpacked w buf).2)
    (now : Z) (w : W) (ops1 ops2 : list mi_op) (bh : BlobHandle)
    (Hops1 : Forall (op_ok sum64) ops1) (Hops2 : Forall (op_ok sum64) ops2) (Ht : valid_type bh) :
  exists w1 mi1 has mi1' w2 mi2,
    mi_run sum64 json_Encode SaveUnpacked w (NewMasterIndex now) ops1 = Ok (w1, mi1) /\
    Has sum64 mi1 bh = Ok has /\ AddPending sum64 mi1 bh = Ok (mi1', negb has) /\
    mi_run sum64 json_Encode SaveUnpacked w1 mi1' ops2 = Ok (w2, mi2) /\
    AddPending sum64 mi2 bh = Ok (mi2, false).
Proof.
  destruct (mi_run_total sum64 json_Encode SaveUnpacked ops1 w _ _ Hjson Hsave (NewMasterIndex_inv sum64 now) Hops1)
    as (w1 & mi1 & C1 & E1 & Hinv1 & _).
  pose proof (mv_repr _ _ _ Hinv1) as HR1.
  destruct (step_AddPending sum64 mi1 C1 bh Hinv1 Ht) as (mi1' & b & Ea & Hinv1' & _).
  assert (b = negb (bool_decide (known mi1 C1 bh)) /\ known mi1' C1 bh) as [Hb Hk1].
  { rewrite (AddPending_ok _ _ _ _ HR1 Ht) in Ea. case_decide as Hd.
    - injection Ea as <- <-. by rewrite bool_decide_eq_true_2.
    - injection Ea as <- <-. rewrite bool_decide_eq_false_2 by done. split; [done|]. left. cbn. set_solver. }
  destruct (mi_run_total sum64 json_Encode SaveUnpacked ops2 w1 mi1' C1 Hjson Hsave Hinv1' Hops2)
    as (w2 & mi2 & C2 & E2 & Hinv2 & [Hk _]).
  exists w1, mi1, (bool_decide (known mi1 C1 bh)), mi1', w2, mi2.
  split; [done|]. split; [by apply MI_Has_ok|]. split; [by rewrite Ea, Hb|]. split; [done|].
  rewrite (AddPending_ok _ _ _ _ (mv_repr _ _ _ Hinv2) Ht). rewrite decide_True; [done|]. by apply Hk.
Qed.

(** A session: a blob is registered, its pack stored, the index saved. *)
Definition ex_bh : BlobHandle := mkBlobHandle (ex_id "a"%byte) DataBlob.
Definition ex_session : list mi_op :=
  [OpAddPending ex_bh; OpStorePack 0 (ex_id "001"%byte) [ex_blob "a"%byte DataBlob 40 0]; OpSaveIndex].
Definition ex_SaveUnpacked (w : list (list byte)) (buf : list byte) : list (list byte) * outcome ID :=
  (w ++ [buf], Ok (copy_id buf)).

Lemma ex_session_ok : Forall (op_ok (fun _ => 7)) ex_session.
Proof.
  repeat constructor; vm_compute; discriminate.
Qed.

Lemma ex_json_no_panic j : ~ panics (ex_json_Encode j).
Proof. unfold ex_json_Encode. intros [p E]. by destruct (decide _). Qed.
Lemma ex_save_no_panic w buf : ~ panics (ex_SaveUnpacked w buf).2.
Proof. intros [p E]. done. Qed.

Lemma master_index_never_forgets_witness :
  exists w1 mi1 w2 mi2,
    mi_run (fun _ => 7) ex_json_Encode ex_SaveUnpacked [] (NewMasterIndex 0) ex_session = Ok (w1, mi1) /\
    mi_run (fun _ => 7) ex_json_Encode ex_SaveUnpacked w1 mi1 [OpMerge; OpSaveIndex] = Ok (w2, mi2) /\
    (Has (fun _ => 7) mi1 ex_bh = Ok true -> Has (fun _ => 7) mi2 ex_bh = Ok true).
Proof.
  destruct (master_index_never_forgets (fun _ => 7) ex_json_Encode ex_SaveUnpacked ex_json_no_panic ex_save_no_panic
    0 [] ex_session [OpMerge; OpSaveIndex] ex_session_ok ltac:(repeat constructor)) as (w1 & mi1 & w2 & mi2 & E1 & E2 & H).
  exists w1, mi1, w2, mi2. split; [exact E1|]. split; [exact E2|]. apply (H ex_bh). done.
Defined.

Lemma addpending_only_first_witness :
  exists mi1' w2 mi2,
    AddPending (fun _ => 7) (NewMasterIndex 0) ex_bh = Ok (mi1', true) /\
    mi_run (fun _ => 7) ex_json_Encode ex_SaveUnpacked [] mi1' ex_session = Ok (w2, mi2) /\
    AddPending (fun _ => 7) mi2 ex_bh = Ok (mi2, false).
Proof.
  destruct (addpending_only_first (fun _ => 7) ex_json_Encode ex_SaveUnpacked ex_json_no_panic ex_save_no_panic
    0 [] [] ex_session ex_bh ltac:(constructor) ex_session_ok ltac:(done))
    as (w1 & mi1 & has & mi1' & w2 & mi2 & E1 & E2 & E3 & E4 & E5).
  injection E1 as <- <-. assert (has = false) as -> by (vm_compute in E2; congruence).
  exists mi1', w2, mi2. split_and!; [exact E3|exact E4|exact E5].
Defined.
