(* ===== verification/Crypto.v ===== *)
(** Encryption and authentication of repository data (src/crypto/crypto.go,
    src/crypto/kdf.go).

    The block cipher (crypto/aes), the authenticator (golang.org/x/crypto's
    poly1305) and scrypt are parameters; counter mode, the layout of the
    ciphertext, the masking of keys and all checks are modelled.  A buffer is
    its content: the in-place use of [Seal] and [Open] (a destination that is a
    prefix of the source's storage) gives the same result, since the key stream
    is combined byte by byte. *)

From S2P Require Import Prelude Bytes Restic.

#[local] Open Scope Z_scope.

Definition aesKeySize : Z := 32.
Definition macKeySizeK : Z := 16.
Definition macKeySizeR : Z := 16.
Definition macKeySize : Z := macKeySizeK + macKeySizeR.

Definition ErrUnauthenticated : error := ErrMsg "ciphertext verification failed".

Definition EncryptionKey := list byte.
Record MACKey := mkMACKey { K : list byte; R : list byte; masked : bool }.
Record Key := mkKey { k_MACKey : MACKey; k_EncryptionKey : EncryptionKey }.

(** The lengths of the arrays of a [Key]. *)
Definition key_wf (k : Key) : Prop :=
  length (K (k_MACKey k)) = 16%nat /\ length (R (k_MACKey k)) = 16%nat /\ length (k_EncryptionKey k) = 32%nat.

Definition poly1305KeyMask : list byte := byte_of_Z <$>
  [0xff; 0xff; 0xff; 0x0f; 0xfc; 0xff; 0xff; 0x0f; 0xfc; 0xff; 0xff; 0x0f; 0xfc; 0xff; 0xff; 0x0f].

Definition maskKey (k : MACKey) : MACKey :=
  if masked k then k else mkMACKey (K k) (zip_with byte_and (R k) poly1305KeyMask) true.

(** [macKeyFromSlice] into the zero key; the slice expressions panic when
    [data] is too short. *)
Definition macKeyFromSlice (mk : MACKey) (data : list byte) : outcome MACKey :=
  if Nat.ltb (length data) 32 then Panic "slice bounds out of range" else
  Ok (maskKey (mkMACKey (go_copy (K mk) (take 16 data)) (go_copy (R mk) (drop 16 (take 32 data))) (masked mk))).

Definition all_zero (l : list byte) : bool := forallb (fun b => Byte.eqb b "000"%byte) l.

Definition EncryptionKey_Valid (k : EncryptionKey) : bool := negb (all_zero k).
Definition MACKey_Valid (m : MACKey) : bool :=
  if all_zero (K m) then false else negb (all_zero (R m)).
Definition Key_Valid (k : Key) : bool :=
  EncryptionKey_Valid (k_EncryptionKey k) && MACKey_Valid (k_MACKey k).

(** The sum of the bytes of the nonce under [|] is positive. *)
Definition validNonce (nonce : list byte) : bool :=
  0 <? Z_of_byte (fold_left byte_or nonce "000"%byte).

Definition NonceSize : Z := ivSize.
Definition Overhead : Z := macSize.

(** [NewRandomNonce] and [NewRandomKey], given what [rand.Read] yields. *)
Definition NewRandomNonce (rnd : list byte) : outcome (list byte) :=
  if negb (zlen rnd =? ivSize) then Panic "unable to read enough random bytes for iv" else Ok rnd.

Definition NewRandomKey (rndE rndK rndR : list byte) : outcome Key :=
  if negb (zlen rndE =? aesKeySize) then Panic "unable to read enough random bytes for encryption key"
  else if negb (zlen rndK =? macKeySizeK) then Panic "unable to read enough random bytes for MAC encryption key"
  else if negb (zlen rndR =? macKeySizeR) then Panic "unable to read enough random bytes for MAC key"
  else Ok (mkKey (maskKey (mkMACKey rndK rndR false)) rndE).

(** * JSON forms *)

Record jsonMACKey := mkJsonMACKey { jm_K : list byte; jm_R : list byte }.

Section JSON.
Context (json_Marshal : jsonMACKey -> outcome (list byte)) (json_Unmarshal : list byte -> outcome jsonMACKey).
Context (json_Marshal_bytes : list byte -> outcome (list byte)) (json_Unmarshal_bytes : list byte -> outcome (list byte)).

Definition MACKey_MarshalJSON (m : MACKey) : outcome (list byte) := json_Marshal (mkJsonMACKey (K m) (R m)).

Definition MACKey_UnmarshalJSON (m : MACKey) (data : list byte) : outcome MACKey :=
  try j <- wrap_err "Unmarshal" (json_Unmarshal data);
  Ok (mkMACKey (go_copy (K m) (jm_K j)) (go_copy (R m) (jm_R j)) (masked m)).

Definition EncryptionKey_MarshalJSON (k : EncryptionKey) : outcome (list byte) := json_Marshal_bytes k.

Definition EncryptionKey_UnmarshalJSON (k : EncryptionKey) (data : list byte) : outcome EncryptionKey :=
  try d <- wrap_err "Unmarshal" (json_Unmarshal_bytes data); Ok (go_copy k d).
End JSON.

(** * Counter mode (crypto/cipher) *)

(** The counter block, most significant byte first, plus one. *)
Fixpoint ctr_inc_le (l : list byte) : list byte :=
  match l with
  | [] => []
  | b :: l =>
      let b := byte_of_Z (Z_of_byte b + 1) in
      if Byte.eqb b "000"%byte then b :: ctr_inc_le l else b :: l
  end.
Definition ctr_inc (ctr : list byte) : list byte := reverse (ctr_inc_le (reverse ctr)).

Section Cipher.
(** [aes_Encrypt key block] encrypts one block. *)
Context (aes_Encrypt : list byte -> list byte -> list byte).

Fixpoint ctr_stream (key ctr : list byte) (blocks : nat) : list byte :=
  match blocks with
  | O => []
  | S blocks => aes_Encrypt key ctr ++ ctr_stream key (ctr_inc ctr) blocks
  end.

(** [XORKeyStream]: as many blocks of key stream as cover [src]. *)
Definition XORKeyStream (key iv src : list byte) : list byte :=
  zip_with byte_xor src (ctr_stream key iv (S (length src / 16))).

(** * Authentication *)

Context (poly1305_Sum : list byte -> list byte -> list byte).
Context (poly1305_Verify : list byte -> list byte -> list byte -> bool).

(** [poly1305PrepareKey]: the one-time key, and the key, masked. *)
Definition poly1305PrepareKey (nonce : list byte) (key : MACKey) : list byte * MACKey :=
  let key := maskKey key in
  let k := replicate 32 "000"%byte in
  let k := take 16 k ++ go_copy (drop 16 k) (aes_Encrypt (K key) nonce) in
  let k := go_copy (take 16 k) (R key) ++ drop 16 k in
  (k, key).

Definition poly1305MAC (msg nonce : list byte) (key : MACKey) : list byte * MACKey :=
  let '(k, key) := poly1305PrepareKey nonce key in (poly1305_Sum msg k, key).

Definition poly1305Verify (msg nonce : list byte) (key : MACKey) (mac : list byte) : bool * MACKey :=
  let '(k, key) := poly1305PrepareKey nonce key in
  (poly1305_Verify (go_copy (replicate 16 "000"%byte) mac) msg k, key).

Definition with_mac (k : Key) (m : MACKey) : Key := mkKey m (k_EncryptionKey k).

(** [Seal] and [Open] return the updated key: masking is remembered in it. *)
Definition Seal (k : Key) (dst nonce plaintext additionalData : list byte) : outcome (list byte * Key) :=
  if negb (Key_Valid k) then Panic "key is invalid"
  else if 0 <? zlen additionalData then Panic "additional data is not supported"
  else if negb (zlen nonce =? ivSize) then Panic "incorrect nonce length"
  else if negb (validNonce nonce) then Panic "nonce is invalid"
  else
    let out := XORKeyStream (k_EncryptionKey k) nonce plaintext in
    let '(mac, m) := poly1305MAC out nonce (k_MACKey k) in
    Ok (dst ++ out ++ mac, with_mac k m).

Definition Open (k : Key) (dst nonce ciphertext : list byte) : outcome (list byte * Key) :=
  if negb (Key_Valid k) then Err (ErrMsg "invalid key")
  else if negb (zlen nonce =? ivSize) then Panic "incorrect nonce length"
  else if negb (validNonce nonce) then Err (ErrMsg "nonce is invalid")
  else if zlen ciphertext <? Overhead then Err (ErrMsg "trying to decrypt invalid data: ciphertext too small")
  else
    let l := zlen ciphertext - macSize in
    let ct := slice_to ciphertext l in
    let mac := slice_from ciphertext l in
    let '(ok, m) := poly1305Verify ct nonce (k_MACKey k) mac in
    if negb ok then Err ErrUnauthenticated
    else Ok (dst ++ XORKeyStream (k_EncryptionKey k) nonce ct, with_mac k m).
End Cipher.

(** * Key derivation *)

Definition saltLength : Z := 64.
Record Params := mkParams { p_N : Z; p_R : Z; p_P : Z }.

Section KDF.
(** [sscrypt.Params.Check] and [scrypt.Key]. *)
Context (params_Check : Params -> outcome unit).
Context (scrypt_Key : string -> list byte -> Params -> Z -> outcome (list byte)).

Definition zeroKey : Key :=
  mkKey (mkMACKey (replicate 16 "000"%byte) (replicate 16 "000"%byte) false) (replicate 32 "000"%byte).

Definition KDF (p : Params) (salt : list byte) (password : string) : outcome Key :=
  if negb (zlen salt =? saltLength) then Err (ErrMsg "scrypt() called with invalid salt bytes (len %d)") else
  try _ <- wrap_err "Check" (params_Check p);
  let keybytes := macKeySize + aesKeySize in
  try scryptKeys <- wrap_err "scrypt.Key" (scrypt_Key password salt p keybytes);
  if negb (zlen scryptKeys =? keybytes) then Err (ErrMsg "invalid numbers of bytes expanded from scrypt(): %d") else
  try m <- macKeyFromSlice (k_MACKey zeroKey) (slice_from scryptKeys aesKeySize);
  Ok (mkKey m (go_copy (k_EncryptionKey zeroKey) (slice_to scryptKeys aesKeySize))).
End KDF.

(** * Correctness *)

Lemma length_ctr_inc_le l : length (ctr_inc_le l) = length l.
Proof. induction l as [|b l IH]; [done|]. cbn. destruct (Byte.eqb _ _); cbn; by rewrite ?IH. Qed.
Lemma length_ctr_inc l : length (ctr_inc l) = length l.
Proof. unfold ctr_inc. by rewrite length_reverse, length_ctr_inc_le, length_reverse. Qed.

Lemma maskKey_idem m : maskKey (maskKey m) = maskKey m.
Proof. unfold maskKey. destruct (masked m) eqn:E; cbn; by rewrite ?E. Qed.

Lemma zip_with_xor_involutive (l ks : list byte) :
  (length l <= length ks)%nat -> zip_with byte_xor (zip_with byte_xor l ks) ks = l.
Proof.
  revert ks; induction l as [|b l IH]; intros [|k ks] Hl; cbn in *; try done; [lia|].
  by rewrite byte_xor_involutive, IH by lia.
Qed.

Section CipherFacts.
Context (aes_Encrypt : list byte -> list byte -> list byte).
Context (poly1305_Sum : list byte -> list byte -> list byte).
Context (poly1305_Verify : list byte -> list byte -> list byte -> bool).

(** AES maps blocks to blocks, a tag has 16 bytes, and [Verify] accepts the
    tag that [Sum] computes and no other. *)
Definition cipher_ok : Prop :=
  (forall key b, length b = 16%nat -> length (aes_Encrypt key b) = 16%nat) /\
  (forall msg key, length (poly1305_Sum msg key) = 16%nat) /\
  (forall mac msg key, poly1305_Verify mac msg key = true <-> mac = poly1305_Sum msg key).

Context (Hok : cipher_ok).

Lemma length_ctr_stream key ctr n :
  length ctr = 16%nat -> length (ctr_stream aes_Encrypt key ctr n) = (16 * n)%nat.
Proof using Hok.
  revert ctr; induction n as [|n IH]; intros ctr Hc; cbn [ctr_stream length]; [lia|].
  rewrite length_app, IH by by rewrite length_ctr_inc. destruct Hok as [-> _]; [lia|done].
Qed.

Lemma ctr_stream_covers key iv (src : list byte) :
  length iv = 16%nat -> (length src <= length (ctr_stream aes_Encrypt key iv (S (length src / 16))))%nat.
Proof using Hok.
  intros Hiv. rewrite length_ctr_stream by done.
  pose proof (Nat.div_mod (length src) 16 ltac:(lia)). pose proof (Nat.mod_upper_bound (length src) 16 ltac:(lia)). lia.
Qed.

Lemma length_XORKeyStream key iv src :
  length iv = 16%nat -> length (XORKeyStream aes_Encrypt key iv src) = length src.
Proof using Hok.
  intros Hiv. unfold XORKeyStream. rewrite length_zip_with. pose proof (ctr_stream_covers key iv src Hiv). lia.
Qed.

Lemma XORKeyStream_involutive key iv src :
  length iv = 16%nat -> XORKeyStream aes_Encrypt key iv (XORKeyStream aes_Encrypt key iv src) = src.
Proof using Hok.
  intros Hiv. unfold XORKeyStream at 1. rewrite length_XORKeyStream by done. unfold XORKeyStream.
  by apply zip_with_xor_involutive, ctr_stream_covers.
Qed.

Lemma poly1305Verify_iff msg nonce m mac :
  length mac = 16%nat ->
  exists b, poly1305Verify aes_Encrypt poly1305_Verify msg nonce m mac = (b, maskKey m) /\
    (b = true <-> mac = (poly1305MAC aes_Encrypt poly1305_Sum msg nonce m).1).
Proof using Hok.
  intros Hm. unfold poly1305Verify, poly1305MAC, poly1305PrepareKey. eexists. split; [reflexivity|]. cbn [fst].
  rewrite go_copy_same by by rewrite length_replicate. apply Hok.
Qed.

Lemma poly1305MAC_snd msg nonce m : (poly1305MAC aes_Encrypt poly1305_Sum msg nonce m).2 = maskKey m.
Proof. done. Qed.

Lemma poly1305MAC_masked msg nonce m :
  poly1305MAC aes_Encrypt poly1305_Sum msg nonce (maskKey m) = poly1305MAC aes_Encrypt poly1305_Sum msg nonce m.
Proof. unfold poly1305MAC, poly1305PrepareKey. by rewrite maskKey_idem. Qed.

Lemma length_poly1305MAC msg nonce m : length (poly1305MAC aes_Encrypt poly1305_Sum msg nonce m).1 = 16%nat.
Proof using Hok. unfold poly1305MAC, poly1305PrepareKey. cbn [fst]. apply Hok. Qed.

(** What [Seal] appends. *)
Definition sealed (k : Key) (nonce pt : list byte) : list byte :=
  let ct := XORKeyStream aes_Encrypt (k_EncryptionKey k) nonce pt in
  ct ++ (poly1305MAC aes_Encrypt poly1305_Sum ct nonce (k_MACKey k)).1.

Definition masked_key (k : Key) : Key := with_mac k (maskKey (k_MACKey k)).

Lemma length_sealed k nonce pt : length nonce = 16%nat -> length (sealed k nonce pt) = (length pt + 16)%nat.
Proof using Hok.
  intros Hn. unfold sealed. rewrite length_app, length_XORKeyStream, length_poly1305MAC by done. done.
Qed.

Lemma Seal_ok k dst nonce pt :
  Key_Valid k = true -> zlen nonce = ivSize -> validNonce nonce = true ->
  Seal aes_Encrypt poly1305_Sum k dst nonce pt [] = Ok (dst ++ sealed k nonce pt, masked_key k).
Proof.
  intros Hk Hn Hv. unfold Seal. rewrite Hk, Hn, Hv. cbn [negb zlen length Z.of_nat]. rewrite Z.eqb_refl. done.
Qed.

Lemma split_ciphertext (c : list byte) :
  (16 <= length c)%nat ->
  let l := zlen c - macSize in
  slice_to c l ++ slice_from c l = c /\ length (slice_from c l) = 16%nat.
Proof.
  intros Hl. cbn. unfold slice_to, slice_from. rewrite take_drop, length_drop. split; [done|].
  unfold zlen, macSize. lia.
Qed.

Lemma Open_iff k dst nonce c r k' :
  Key_Valid k = true -> zlen nonce = ivSize -> validNonce nonce = true ->
  Open aes_Encrypt poly1305_Verify k dst nonce c = Ok (r, k') <->
  exists pt, c = sealed k nonce pt /\ r = dst ++ pt /\ k' = masked_key k.
Proof using Hok.
  intros Hk Hn Hv. assert (length nonce = 16%nat) as Hn16 by (unfold zlen, ivSize in Hn; lia).
  unfold Open. rewrite Hk, Hn, Hv, Z.eqb_refl. cbn [negb].
  destruct (Z.ltb_spec (zlen c) Overhead) as [Hs|Hs]; unfold zlen, Overhead, macSize in Hs.
  { split; [done|]. intros (pt & -> & _). rewrite length_sealed in Hs by done. lia. }
  destruct (split_ciphertext c ltac:(lia)) as [Hsplit Hmac]. cbn zeta.
  remember (slice_to c (zlen c - macSize)) as ct eqn:Ect.
  remember (slice_from c (zlen c - macSize)) as mac eqn:Emac.
  destruct (poly1305Verify_iff ct nonce (k_MACKey k) mac Hmac) as (b & -> & Hb).
  destruct b; cbn [negb].
  - assert (mac = (poly1305MAC aes_Encrypt poly1305_Sum ct nonce (k_MACKey k)).1) as Em by by apply Hb.
    split.
    + intros [= <- <-]. exists (XORKeyStream aes_Encrypt (k_EncryptionKey k) nonce ct). split; [|done].
      unfold sealed. rewrite XORKeyStream_involutive by done. by rewrite <- Hsplit, <- Em.
    + intros (pt & Ec & -> & ->). do 3 f_equal.
      assert (ct = XORKeyStream aes_Encrypt (k_EncryptionKey k) nonce pt) as ->.
      { rewrite Ec in Hsplit. unfold sealed in Hsplit. apply app_inj_1 in Hsplit as [? _]; [done|].
        apply (f_equal length) in Hsplit. rewrite !length_app, Hmac, length_poly1305MAC in Hsplit. lia. }
      by rewrite XORKeyStream_involutive.
  - split; [done|]. intros (pt & Ec & _ & _). exfalso.
    assert (false = true) as Hf; [|done]. apply Hb.
    rewrite Ec in Hsplit. unfold sealed in Hsplit. cbn zeta in Hsplit. apply app_inj_1 in Hsplit as [-> ->]; [done|].
    apply (f_equal length) in Hsplit. rewrite !length_app, Hmac, length_poly1305MAC in Hsplit. lia.
Qed.
End CipherFacts.

(** What [Seal] produces opens to the plaintext, under the key as it was given
    and under the key with its MAC part masked, as long as that key is still
    valid; the ciphertext is [macSize] bytes longer than the plaintext. *)
Theorem seal_open_roundtrip aes_Encrypt poly1305_Sum poly1305_Verify
    (Hok : cipher_ok aes_Encrypt poly1305_Sum poly1305_Verify)
    (k : Key) (nonce plaintext dst dst' : list byte)
    (Hk : Key_Valid k = true) (Hn : zlen nonce = ivSize) (Hv : validNonce nonce = true) :
  exists ct k', Seal aes_Encrypt poly1305_Sum k dst nonce plaintext [] = Ok (dst ++ ct, k') /\
    zlen ct = zlen plaintext + macSize /\
    Open aes_Encrypt poly1305_Verify k dst' nonce ct = Ok (dst' ++ plaintext, k') /\
    (Key_Valid k' = true -> Open aes_Encrypt poly1305_Verify k' dst' nonce ct = Ok (dst' ++ plaintext, k')).
Proof.
  exists (sealed aes_Encrypt poly1305_Sum k nonce plaintext), (masked_key k).
  split; [by apply Seal_ok|]. split.
  { unfold zlen. rewrite (length_sealed _ _ _ Hok) by (unfold zlen, ivSize in Hn; lia). unfold macSize. lia. }
  split; [apply (Open_iff _ _ _ Hok); eauto|]. intros Hk'. apply (Open_iff _ _ _ Hok); try done.
  exists plaintext. split.
  - unfold sealed, masked_key, with_mac. cbn [k_EncryptionKey k_MACKey]. by rewrite poly1305MAC_masked.
  - split; [done|]. unfold masked_key, with_mac. cbn. by rewrite maskKey_idem.
Qed.

(** C22. [Open] accepts nothing but what [Seal] computes: a ciphertext that opens to
    a plaintext is the seal of that plaintext, byte for byte.  Any other one is
    refused with an error, without a panic. *)
Theorem open_accepts_only_sealed aes_Encrypt poly1305_Sum poly1305_Verify
    (Hok : cipher_ok aes_Encrypt poly1305_Sum poly1305_Verify) (k : Key) (nonce ciphertext : list byte)
    (Hn : zlen nonce = ivSize) :
  (exists pt k', Open aes_Encrypt poly1305_Verify k [] nonce ciphertext = Ok (pt, k') /\
                 Seal aes_Encrypt poly1305_Sum k [] nonce pt [] = Ok (ciphertext, k')) \/
  (exists e, Open aes_Encrypt poly1305_Verify k [] nonce ciphertext = Err e /\
     forall pt k', Seal aes_Encrypt poly1305_Sum k [] nonce pt [] <> Ok (ciphertext, k')).
Proof.
  destruct (Open aes_Encrypt poly1305_Verify k [] nonce ciphertext) as [[pt k']|e|p] eqn:E.
  - left. exists pt, k'. split; [done|].
    assert (Key_Valid k = true /\ validNonce nonce = true) as [Hk Hv].
    { unfold Open in E. rewrite Hn, Z.eqb_refl in E. destruct (Key_Valid k), (validNonce nonce); done. }
    apply (Open_iff _ _ _ Hok) in E as (pt' & -> & -> & ->); [|done..]. by rewrite Seal_ok.
  - right. exists e. split; [done|]. intros pt k' ES.
    assert (Key_Valid k = true /\ validNonce nonce = true) as [Hk Hv].
    { unfold Seal in ES. rewrite Hn, Z.eqb_refl in ES. destruct (Key_Valid k), (validNonce nonce); done. }
    rewrite Seal_ok in ES by done. injection ES as <- <-.
    assert (Open aes_Encrypt poly1305_Verify k [] nonce (sealed aes_Encrypt poly1305_Sum k nonce pt) = Ok ([] ++ pt, masked_key k)) as EO.
    { apply (Open_iff _ _ _ Hok); eauto. }
    cbn [app] in E. congruence.
  - exfalso. unfold Open in E. rewrite Hn, Z.eqb_refl in E. cbn [negb] in E.
    repeat case_if; try done. destruct (poly1305Verify _ _ _ _ _ _) as [[] m]; done.
Qed.

(** A toy cipher and authenticator, to instantiate the parameters. *)
Definition ex_aes (key block : list byte) : list byte := zip_with byte_xor block (take 16 (key ++ replicate 16 "000"%byte)).
Definition ex_sum (msg key : list byte) : list byte :=
  go_copy (take 16 (key ++ replicate 16 "000"%byte)) [fold_left byte_xor msg "000"%byte].
Definition ex_verify (mac msg key : list byte) : bool := bool_decide (mac = ex_sum msg key).

Lemma ex_cipher_ok : cipher_ok ex_aes ex_sum ex_verify.
Proof.
  split_and!.
  - intros key b Hb. unfold ex_aes. rewrite length_zip_with, length_take, length_app, length_replicate. lia.
  - intros msg key. unfold ex_sum. rewrite length_go_copy, length_take, length_app, length_replicate. lia.
  - intros mac msg key. apply bool_decide_eq_true.
Qed.

Definition ex_key : Key :=
  mkKey (mkMACKey (replicate 16 "001"%byte) (replicate 16 "002"%byte) false) (replicate 32 "003"%byte).
Definition ex_nonce : list byte := replicate 16 "005"%byte.

Lemma seal_open_roundtrip_witness :
  exists ct k', Seal ex_aes ex_sum ex_key [] ex_nonce (replicate 40 "a"%byte) [] = Ok (ct, k') /\
    Open ex_aes ex_verify k' [] ex_nonce ct = Ok (replicate 40 "a"%byte, k').
Proof.
  destruct (seal_open_roundtrip ex_aes ex_sum ex_verify ex_cipher_ok ex_key ex_nonce (replicate 40 "a"%byte) [] []
    eq_refl eq_refl eq_refl) as (ct & k' & E1 & _ & _ & E2).
  assert (Key_Valid k' = true) as Hk' by (vm_compute in E1; injection E1 as _ <-; reflexivity).
  exists ct, k'. split; [exact E1|]. exact (E2 Hk').
Defined.

Lemma open_accepts_only_sealed_witness :
  exists e, Open ex_aes ex_verify ex_key [] ex_nonce (replicate 20 "000"%byte) = Err e.
Proof.
  destruct (open_accepts_only_sealed ex_aes ex_sum ex_verify ex_cipher_ok ex_key ex_nonce (replicate 20 "000"%byte) eq_refl)
    as [(pt & k' & E & _)|(e & E & _)].
  - exfalso. vm_compute in E. discriminate.
  - exists e. exact E.
Defined.
