(* ===== verification/Pack.v ===== *)
(** Pack files: blobs followed by an encrypted header (src/pack/pack.go).

    The writer of a packer is a parameter with a state; the reader of [List] is
    a function from a length and an offset to bytes or an error.  The packer's
    mutex serialises its operations. *)

From S2P Require Import Prelude Bytes Restic Sets HashedArrayTree IndexMap Index MasterIndex Crypto.

#[local] Open Scope Z_scope.

(** [binary.Size(restic.BlobType(0))], [len(restic.ID{})] and
    [headerLengthSize]. *)
Definition headerLengthSize : Z := 4.
Definition entrySize : Z := 1 + 2 * headerLengthSize + 32.
Definition plainEntrySize : Z := 1 + headerLengthSize + 32.
Definition minFileSize : Z := plainEntrySize + Extension + headerLengthSize.
Definition headerSize : Z := headerLengthSize + Extension.
Definition MaxHeaderSize : Z := 16 * 1024 * 1024 + headerLengthSize.
Definition eagerEntries : Z := 15.

Definition CalculateEntrySize (blob : Blob) : Z :=
  if negb (b_UncompressedLength blob =? 0) then entrySize else plainEntrySize.

Definition CalculateHeaderSize (blobs : list Blob) : Z :=
  fold_left (fun size blob => size + CalculateEntrySize blob) blobs headerSize.

(** * Header entries *)

(** One round of the loop of [makeHeader]. *)
Definition header_entry (b : Blob) : outcome (list byte) :=
  try tag <-
    (if (b_Type b =? DataBlob) && (b_UncompressedLength b =? 0) then Ok 0
     else if (b_Type b =? TreeBlob) && (b_UncompressedLength b =? 0) then Ok 1
     else if (b_Type b =? DataBlob) && negb (b_UncompressedLength b =? 0) then Ok 2
     else if (b_Type b =? TreeBlob) && negb (b_UncompressedLength b =? 0) then Ok 3
     else Err (ErrMsg "invalid blob type %v"));
  Ok ([byte_of_Z tag] ++ put_uint32 (u32 (b_Length b)) ++
      (if negb (b_UncompressedLength b =? 0) then put_uint32 (u32 (b_UncompressedLength b)) else []) ++
      id_bytes (b_ID b)).

Definition makeHeader (blobs : list Blob) : outcome (list byte) :=
  ofold (fun buf b => try e <- header_entry b; Ok (buf ++ e)) [] blobs.

Definition parseHeaderEntry (p : list byte) : outcome (Blob * Z) :=
  let l := zlen p in
  if l <? plainEntrySize then Err (ErrMsg "parseHeaderEntry: buffer of size %d too short") else
  let tpe := Z_of_byte (nth 0 p "000"%byte) in
  try type_ <-
    (if (tpe =? 0) || (tpe =? 2) then Ok DataBlob
     else if (tpe =? 1) || (tpe =? 3) then Ok TreeBlob
     else Err (ErrMsg "invalid type %d"));
  try length_ <- get_uint32 (slice p 1 5);
  let p := slice_from p 5 in
  if (tpe =? 2) || (tpe =? 3) then
    if l <? entrySize then Err (ErrMsg "parseHeaderEntry: buffer of size %d too short") else
    try ulen <- get_uint32 (slice p 0 4);
    let p := slice_from p 4 in
    Ok (mkBlob (mkBlobHandle (copy_id p) type_) length_ 0 ulen, entrySize)
  else Ok (mkBlob (mkBlobHandle (copy_id p) type_) length_ 0 0, plainEntrySize).

(** * Writing a pack *)

Section Packer.
Context (aes_Encrypt : list byte -> list byte -> list byte).
Context (poly1305_Sum : list byte -> list byte -> list byte).
Context {Wr : Type} (Write : Wr -> list byte -> Wr * Z * option error).

Record Packer := mkPacker { pk_blobs : list Blob; pk_bytes : Z; pk_k : Key; pk_wr : Wr }.

Definition NewPacker (k : Key) (wr : Wr) : Packer := mkPacker [] 0 k wr.

(** [Add]: the state is updated with what was written, also on errors. *)
Definition Packer_Add (p : Packer) (t : BlobType) (id : ID) (data : list byte) (uncompressedLength : Z)
    : Packer * Z * option error :=
  let '(wr, n, err) := Write (pk_wr p) data in
  let c := mkBlob (mkBlobHandle id t) (u64 n) (pk_bytes p) (u64 uncompressedLength) in
  let p := mkPacker (pk_blobs p ++ [c]) (u64 (pk_bytes p + u64 n)) (pk_k p) wr in
  (p, i64 (n + CalculateEntrySize c), match err with Some e => Some (ErrWrap e "Write") | None => None end).

(** [Finalize], with the nonce [NewRandomNonce] yields. *)
Definition Packer_Finalize (p : Packer) (nonce : list byte) : Packer * outcome unit :=
  match makeHeader (pk_blobs p) with
  | Err e => (p, Err e)
  | Panic e => (p, Panic e)
  | Ok header =>
      match Seal aes_Encrypt poly1305_Sum (pk_k p) nonce nonce header [] with
      | Err e => (p, Err e)
      | Panic e => (p, Panic e)
      | Ok (encryptedHeader, k) =>
          let '(wr, n, err) := Write (pk_wr p) encryptedHeader in
          let p := mkPacker (pk_blobs p) (pk_bytes p) k wr in
          match err with
          | Some e => (p, Err (ErrWrap e "Write"))
          | None =>
              let hdrBytes := zlen encryptedHeader in
              if negb (n =? hdrBytes) then (p, Err (ErrMsg "wrong number of bytes written")) else
              let '(wr, n, err) := Write wr (put_uint32 (u32 hdrBytes)) in
              let p := mkPacker (pk_blobs p) (pk_bytes p) k wr in
              match err with
              | Some e => (p, Err (ErrWrap e "binary.Write"))
              | None => (mkPacker (pk_blobs p) (u64 (pk_bytes p + u64 (hdrBytes + 4))) k wr, Ok tt)
              end
          end
      end
  end.

Definition Packer_HeaderOverhead : Z := CiphertextLength 0 + 4.
Definition Packer_Size (p : Packer) : Z := pk_bytes p.
Definition Packer_Count (p : Packer) : Z := zlen (pk_blobs p).
Definition Packer_HeaderFull (p : Packer) : bool :=
  MaxHeaderSize <? u64 (headerSize + u64 (zlen (pk_blobs p) + 1) * entrySize).
Definition Packer_Blobs (p : Packer) : list Blob := pk_blobs p.
End Packer.
Arguments mkPacker {Wr}.
Arguments pk_blobs {Wr}.
Arguments pk_bytes {Wr}.
Arguments pk_k {Wr}.
Arguments pk_wr {Wr}.

(** * Reading a pack *)

Definition InvalidFileError (message : string) : error := ErrWrap (ErrMsg message) "InvalidFileError".

Section List_.
Context (aes_Encrypt : list byte -> list byte -> list byte).
Context (poly1305_Verify : list byte -> list byte -> list byte -> bool).

(** [ReadAt n off] reads [n] bytes at offset [off], or fails. *)
Context (ReadAt : Z -> Z -> outcome (list byte)).

Definition readRecords (size : Z) (bufsize : Z) : outcome (list byte * Z) :=
  let bufsize := if size <? bufsize then size else bufsize in
  let off := size - bufsize in
  try b <- ReadAt bufsize off;
  if zlen b <? headerLengthSize then Panic "slice bounds out of range" else
  try hlen <- get_uint32 (slice_from b (zlen b - headerLengthSize));
  let b := slice_to b (zlen b - headerLengthSize) in
  try _ <- wrap_err "readHeader"
    (if hlen =? 0 then Err (InvalidFileError "header length is zero")
     else if hlen <? Extension then Err (InvalidFileError "header length is too small")
     else if size - headerLengthSize <? hlen then Err (InvalidFileError "header is larger than file")
     else if MaxHeaderSize - headerLengthSize <? hlen then Err (InvalidFileError "header is larger than maxHeaderSize")
     else Ok tt);
  let total := u32 (hlen + headerLengthSize) in
  if total <? bufsize then
    if zlen b <? hlen then Panic "slice bounds out of range" else
    Ok (slice_from b (zlen b - hlen), total)
  else Ok (b, total).

Definition readHeader (size : Z) : outcome (list byte) :=
  if size <? minFileSize then Err (ErrWrap (InvalidFileError "file is too small") "readHeader") else
  let eagerSize := eagerEntries * entrySize + headerSize in
  try (b, c) <- readRecords size eagerSize;
  if c <=? eagerSize then Ok b
  else try (b, _) <- readRecords size c; Ok b.

(** The loop of [List]; an entry has at least one byte, so the length of the
    buffer bounds the number of rounds. *)
Fixpoint List_loop (fuel : nat) (buf : list byte) (pos : Z) (entries : list Blob) : outcome (list Blob) :=
  if negb (0 <? zlen buf) then Ok entries else
  match fuel with
  | O => Panic "out of fuel"
  | S fuel =>
      try (entry, headerSize) <- parseHeaderEntry buf;
      let entry := mkBlob (b_handle entry) (b_Length entry) pos (b_UncompressedLength entry) in
      List_loop fuel (slice_from buf headerSize) (u64 (pos + b_Length entry)) (entries ++ [entry])
  end.

(** [List]: the entries, the size of the header, and the key. *)
Definition Pack_List (k : Key) (size : Z) : outcome (list Blob * Z * Key) :=
  try buf <- readHeader size;
  if zlen buf <? CiphertextLength 0 then Err (ErrMsg "invalid header, too small") else
  let hdrSize := u32 (headerLengthSize + u32 (zlen buf)) in
  let nonce := slice_to buf NonceSize in
  let buf := slice_from buf NonceSize in
  try (buf, k) <- Open aes_Encrypt poly1305_Verify k [] nonce buf;
  try entries <- List_loop (length buf) buf 0 [];
  Ok (entries, hdrSize, k).
End List_.

(** * The sizes of the packs of an index

    [Size]: for each pack, the size of its header, and of its blobs unless
    [onlyHdr]. *)
Definition Size_step (onlyHdr : bool) (packSize : gmap ID Z) (blob : PackedBlob) : gmap ID Z :=
  let size := default headerSize (packSize !! pb_PackID blob) in
  let size := if negb onlyHdr then i64 (size + i64 (b_Length (pb_Blob blob))) else size in
  <[pb_PackID blob := i64 (size + CalculateEntrySize (pb_Blob blob))]> packSize.

Definition Pack_Size (mi : MasterIndex) (onlyHdr : bool) : outcome (gmap ID Z) :=
  Each (fun _ => false) mi (fun packSize blob => Ok (Size_step onlyHdr packSize blob)) ∅.

(** * Correctness *)

(** A blob whose header entry is exact. *)
Definition packable (b : Blob) : Prop :=
  (b_Type b = DataBlob \/ b_Type b = TreeBlob) /\ is_u32 (b_Length b) /\ is_u32 (b_UncompressedLength b).

Lemma get_uint32_slice (l : list byte) (v : Z) (a : nat) pre rest :
  l = pre ++ put_uint32 v ++ rest -> length pre = a -> is_u32 v ->
  get_uint32 (slice l (Z.of_nat a) (Z.of_nat a + 4)) = Ok v.
Proof.
  intros -> <- Hv. unfold slice, slice_from, slice_to. rewrite Nat2Z.id, drop_app_length.
  replace (Z.to_nat (Z.of_nat (length pre) + 4 - Z.of_nat (length pre))) with 4%nat by lia.
  rewrite take_app_le by done. rewrite (take_ge (put_uint32 v)) by done.
  rewrite <- (app_nil_r (put_uint32 v)), get_put_uint32. by rewrite u32_id.
Qed.

(** An entry parses to the blob, at offset 0, whatever follows. *)
Lemma header_entry_parse b :
  packable b ->
  exists e, header_entry b = Ok e /\ zlen e = CalculateEntrySize b /\
    forall rest, parseHeaderEntry (e ++ rest) =
      Ok (mkBlob (b_handle b) (b_Length b) 0 (b_UncompressedLength b), CalculateEntrySize b).
Proof.
  destruct b as [[id t] len_ off ulen]. unfold packable, b_Type. cbn. intros (Ht & Hl & Hu).
  unfold header_entry, CalculateEntrySize, b_Type, b_ID. cbn [b_handle bh_Type bh_ID b_Length b_UncompressedLength].
  rewrite !u32_id by done.
  destruct (Z.eqb_spec ulen 0) as [Hz|Hz]; cbn [negb].
  - subst ulen. exists ([byte_of_Z (if t =? DataBlob then 0 else 1)] ++ put_uint32 len_ ++ [] ++ id_bytes id). split; [destruct Ht as [-> | ->]; reflexivity|]. split.
    { unfold zlen. rewrite !length_app, length_id_bytes. done. }
    intros rest. unfold parseHeaderEntry, plainEntrySize, entrySize, headerLengthSize.
    remember (byte_of_Z _) as tag eqn:Etag.
    assert (Z_of_byte tag = if t =? DataBlob then 0 else 1) as Htag.
    { subst tag. rewrite Z_of_byte_of_Z. by destruct Ht as [-> | ->]. }
    rewrite (get_uint32_slice _ len_ 1 [tag] (id_bytes id ++ rest)) by done.
    destruct (Z.ltb_spec (zlen (([tag] ++ put_uint32 len_ ++ [] ++ id_bytes id) ++ rest)) (1 + 4 + 32)) as [Hlt|_].
    { unfold zlen in Hlt. rewrite !length_app, length_id_bytes in Hlt. cbn in Hlt. lia. }
    assert (slice_from (([tag] ++ put_uint32 len_ ++ [] ++ id_bytes id) ++ rest) 5 = id_bytes id ++ rest) as ->.
    { unfold slice_from. cbn [Z.to_nat Pos.to_nat Pos.iter_op Nat.add app put_uint32 drop]. done. }
    cbn [app nth]. rewrite Htag, copy_id_app. by destruct Ht as [-> | ->].
  - exists ([byte_of_Z (if t =? DataBlob then 2 else 3)] ++ put_uint32 len_ ++ put_uint32 ulen ++ id_bytes id). split; [destruct Ht as [-> | ->]; reflexivity|]. split.
    { unfold zlen. rewrite !length_app, length_id_bytes. done. }
    intros rest. unfold parseHeaderEntry, plainEntrySize, entrySize, headerLengthSize.
    remember (byte_of_Z _) as tag eqn:Etag.
    assert (Z_of_byte tag = if t =? DataBlob then 2 else 3) as Htag.
    { subst tag. rewrite Z_of_byte_of_Z. by destruct Ht as [-> | ->]. }
    rewrite (get_uint32_slice _ len_ 1 [tag] (put_uint32 ulen ++ id_bytes id ++ rest)) by done.
    assert (1 + 8 + 32 <= zlen (([tag] ++ put_uint32 len_ ++ put_uint32 ulen ++ id_bytes id) ++ rest)) as Hlen.
    { unfold zlen. rewrite !length_app, length_id_bytes. cbn. lia. }
    destruct (Z.ltb_spec (zlen (([tag] ++ put_uint32 len_ ++ put_uint32 ulen ++ id_bytes id) ++ rest)) (1 + 4 + 32)) as [Hlt|_]; [lia|].
    destruct (Z.ltb_spec (zlen (([tag] ++ put_uint32 len_ ++ put_uint32 ulen ++ id_bytes id) ++ rest)) (1 + 2 * 4 + 32)) as [Hlt|_]; [lia|].
    assert (slice_from (([tag] ++ put_uint32 len_ ++ put_uint32 ulen ++ id_bytes id) ++ rest) 5 = put_uint32 ulen ++ id_bytes id ++ rest) as ->.
    { unfold slice_from. cbn [Z.to_nat Pos.to_nat Pos.iter_op Nat.add app put_uint32 drop]. done. }
    rewrite (get_uint32_slice _ ulen 0 [] (id_bytes id ++ rest)) by done.
    assert (slice_from (put_uint32 ulen ++ id_bytes id ++ rest) 4 = id_bytes id ++ rest) as ->.
    { unfold slice_from. cbn [Z.to_nat Pos.to_nat Pos.iter_op Nat.add app put_uint32 drop]. done. }
    cbn [app nth]. rewrite Htag, copy_id_app. by destruct Ht as [-> | ->].
Qed.

(** The blobs with their offsets counted from [pos]. *)
Fixpoint relocate (pos : Z) (bs : list Blob) : list Blob :=
  match bs with
  | [] => []
  | b :: bs => mkBlob (b_handle b) (b_Length b) pos (b_UncompressedLength b) :: relocate (u64 (pos + b_Length b)) bs
  end.

Definition entries_size (bs : list Blob) : Z := fold_right (fun b n => CalculateEntrySize b + n) 0 bs.

Lemma CalculateEntrySize_pos b : 0 < CalculateEntrySize b.
Proof. unfold CalculateEntrySize. by destruct (negb _). Qed.

Lemma CalculateHeaderSize_entries bs : CalculateHeaderSize bs = headerSize + entries_size bs.
Proof.
  unfold CalculateHeaderSize. generalize headerSize. induction bs as [|b bs IH]; intros n; cbn [fold_left]; [cbn; lia|].
  rewrite IH. unfold entries_size. cbn [fold_right]. lia.
Qed.

Lemma makeHeader_list bs acc :
  Forall packable bs ->
  exists h, ofold (fun buf b => try e <- header_entry b; Ok (buf ++ e)) acc bs = Ok (acc ++ h) /\
    zlen h = entries_size bs /\
    forall fuel pos entries, (length h <= fuel)%nat ->
      List_loop fuel h pos entries = Ok (entries ++ relocate pos bs).
Proof.
  intros HF. revert acc. induction HF as [|b bs Hb HF IH]; intros acc.
  - exists []. cbn. rewrite app_nil_r. split_and!; try done. intros fuel pos entries _. rewrite app_nil_r. by destruct fuel.
  - destruct (header_entry_parse b Hb) as (e & Ee & Hlen & Hparse). cbn [ofold]. rewrite Ee. cbn [mbind outcome_bind].
    destruct (IH (acc ++ e)) as (h & Eh & Hh & Hloop). exists (e ++ h).
    split; [by rewrite Eh, app_assoc|]. split; [rewrite zlen_app, Hlen, Hh; done|].
    intros fuel pos entries Hf. rewrite length_app in Hf. pose proof (CalculateEntrySize_pos b) as Hpos.
    assert (0 < length e)%nat as Hne by (unfold zlen in Hlen; lia).
    destruct fuel as [|fuel]; [lia|]. cbn [List_loop].
    assert ((0 <? zlen (e ++ h)) = true) as ->. { apply Z.ltb_lt. rewrite zlen_app. pose proof (zlen_nonneg h). lia. }
    cbn [negb]. rewrite Hparse. cbn [mbind outcome_bind b_handle b_Length b_UncompressedLength].
    assert (slice_from (e ++ h) (CalculateEntrySize b) = h) as ->.
    { unfold slice_from. rewrite <- Hlen. unfold zlen. rewrite Nat2Z.id. apply drop_app_length. }
    rewrite Hloop by lia. cbn [relocate]. by rewrite <- app_assoc.
Qed.

(** ** Reading the header *)

(** A file as an [io.ReaderAt]. *)
Definition file_ReadAt (f : list byte) (n off : Z) : outcome (list byte) :=
  if (off <? 0) || (zlen f <? off + n) then Err (ErrMsg "EOF") else Ok (slice f off (off + n)).

Section ReadHeader.
Context (pre enc : list byte).
Let f := pre ++ enc ++ put_uint32 (zlen enc).
Context (Hmin : Extension <= zlen enc) (Hmax : zlen enc <= MaxHeaderSize - headerLengthSize).

Lemma file_size : zlen f = zlen pre + zlen enc + 4.
Proof. unfold f. rewrite !zlen_app. unfold zlen at 3. cbn. lia. Qed.

Lemma drop_tail {A} (l t : list A) (n : Z) : zlen t = n -> slice_from (l ++ t) (zlen (l ++ t) - n) = t.
Proof.
  intros <-. unfold slice_from. rewrite zlen_app. unfold zlen.
  replace (Z.to_nat (Z.of_nat (length l) + Z.of_nat (length t) - Z.of_nat (length t))) with (length l) by lia.
  apply drop_app_length.
Qed.

Lemma take_tail {A} (l t : list A) (n : Z) : zlen t = n -> slice_to (l ++ t) (zlen (l ++ t) - n) = l.
Proof.
  intros <-. unfold slice_to. rewrite zlen_app. unfold zlen.
  replace (Z.to_nat (Z.of_nat (length l) + Z.of_nat (length t) - Z.of_nat (length t))) with (length l) by lia.
  by rewrite take_app_length.
Qed.

Lemma readRecords_ok bufsize :
  4 <= bufsize ->
  exists b, readRecords (file_ReadAt f) (zlen f) bufsize = Ok (b, zlen enc + 4) /\
    (zlen enc + 4 <= bufsize -> b = enc).
Proof using Hmin Hmax.
  intros Hbuf. pose proof file_size as Hf. pose proof (zlen_nonneg pre). unfold Extension, ivSize, macSize in Hmin.
  unfold MaxHeaderSize, headerLengthSize in Hmax.
  unfold readRecords. set (bs := if zlen f <? bufsize then zlen f else bufsize).
  assert (4 <= bs <= zlen f /\ (zlen enc + 4 <= bufsize -> zlen enc + 4 <= bs)) as [Hbs Hle].
  { unfold bs. destruct (Z.ltb_spec (zlen f) bufsize); lia. }
  unfold file_ReadAt. destruct (Z.ltb_spec (zlen f - bs) 0); [lia|].
  destruct (Z.ltb_spec (zlen f) (zlen f - bs + bs)); [lia|]. cbn [orb mbind outcome_bind].
  (* the bytes read: a tail of the file that holds the length *)
  assert (exists t, slice f (zlen f - bs) (zlen f - bs + bs) = t ++ put_uint32 (zlen enc) /\ zlen t = bs - 4 /\
            (zlen enc + 4 <= bs -> exists t', t = t' ++ enc)) as (t & -> & Ht & Htail).
  { unfold slice, slice_from, slice_to. replace (zlen f - bs + bs - (zlen f - bs)) with bs by lia.
    set (off := Z.to_nat (zlen f - bs)).
    assert (drop off f = drop off (pre ++ enc) ++ put_uint32 (zlen enc)) as Hd.
    { unfold f. rewrite app_assoc. apply drop_app_le. rewrite length_app. unfold off, zlen in *. lia. }
    exists (drop off (pre ++ enc)). split_and!.
    - rewrite take_ge; [done|]. rewrite Hd, length_app, length_drop, length_app. cbn. unfold off, zlen in *. lia.
    - unfold zlen. rewrite length_drop, length_app. unfold off, zlen in *. lia.
    - intros Hge. exists (drop off pre). apply drop_app_le. unfold off, zlen in *. lia. }
  assert (zlen (t ++ put_uint32 (zlen enc)) = bs) as Hzt by (rewrite zlen_app, Ht; unfold zlen at 1; cbn; lia).
  unfold headerLengthSize. destruct (Z.ltb_spec (zlen (t ++ put_uint32 (zlen enc))) 4); [lia|].
  rewrite drop_tail, take_tail by done.
  rewrite <- (app_nil_r (put_uint32 (zlen enc))), get_put_uint32, u32_id by (unfold is_u32; lia).
  cbn [mbind outcome_bind].
  destruct (Z.eqb_spec (zlen enc) 0); [lia|]. unfold Extension, ivSize, macSize.
  destruct (Z.ltb_spec (zlen enc) (16 + 16)); [lia|]. destruct (Z.ltb_spec (zlen f - 4) (zlen enc)); [lia|].
  unfold MaxHeaderSize, headerLengthSize. destruct (Z.ltb_spec (16 * 1024 * 1024 + 4 - 4) (zlen enc)); [lia|].
  cbn [wrap_err mbind outcome_bind]. rewrite u32_id by (unfold is_u32; lia).
  destruct (Z.ltb_spec (zlen enc + 4) bs) as [Hlt|Hge].
  - destruct (Htail ltac:(lia)) as [t' ->]. rewrite zlen_app in *.
    destruct (Z.ltb_spec (zlen t' + zlen enc) (zlen enc)); [pose proof (zlen_nonneg t'); lia|].
    rewrite <- zlen_app, drop_tail by done. eauto.
  - exists t. split; [done|]. intros Hle'. destruct (Htail ltac:(lia)) as [t' ->]. rewrite zlen_app in Ht.
    destruct t' as [|x t']; [done|]. rewrite zlen_cons in Ht. pose proof (zlen_nonneg t'). lia.
Qed.

Lemma readHeader_ok : minFileSize <= zlen f -> readHeader (file_ReadAt f) (zlen f) = Ok enc.
Proof using Hmin Hmax.
  intros Hsz. unfold readHeader. destruct (Z.ltb_spec (zlen f) minFileSize); [lia|].
  set (eager := eagerEntries * entrySize + headerSize).
  destruct (readRecords_ok eager) as (b & -> & Hb); [done|]. cbn [mbind outcome_bind].
  destruct (Z.leb_spec (zlen enc + 4) eager); [by rewrite Hb|].
  destruct (readRecords_ok (zlen enc + 4)) as (b' & -> & Hb'); [unfold Extension, ivSize, macSize in Hmin; lia|].
  cbn [mbind outcome_bind]. by rewrite Hb'.
Qed.
End ReadHeader.

(** ** Writing and reading back *)

(** A writer that appends to a file and does not fail. *)
Definition file_Write (w d : list byte) : list byte * Z * option error := (w ++ d, zlen d, None).

(** The arguments of a call of [Add]. *)
Record add_args := mkAdd { aa_t : BlobType; aa_id : ID; aa_data : list byte; aa_ulen : Z }.

Definition add_ok (a : add_args) : Prop :=
  (aa_t a = DataBlob \/ aa_t a = TreeBlob) /\ zlen (aa_data a) < 2 ^ 32 /\ is_u32 (aa_ulen a).

Definition add_call (p : Packer (Wr := list byte)) (a : add_args) : Packer (Wr := list byte) :=
  (Packer_Add file_Write p (aa_t a) (aa_id a) (aa_data a) (aa_ulen a)).1.1.

Definition add_blob (pos : Z) (a : add_args) : Blob :=
  mkBlob (mkBlobHandle (aa_id a) (aa_t a)) (zlen (aa_data a)) pos (aa_ulen a).

Fixpoint add_blobs (pos : Z) (l : list add_args) : list Blob :=
  match l with
  | [] => []
  | a :: l => add_blob pos a :: add_blobs (pos + zlen (aa_data a)) l
  end.

Definition total_data (l : list add_args) : list byte := concat (aa_data <$> l).

Lemma add_calls l p :
  Forall add_ok l -> 0 <= pk_bytes p -> pk_bytes p + zlen (total_data l) < 2 ^ 63 ->
  let p' := fold_left add_call l p in
  pk_blobs p' = pk_blobs p ++ add_blobs (pk_bytes p) l /\
  pk_bytes p' = pk_bytes p + zlen (total_data l) /\ pk_k p' = pk_k p /\ pk_wr p' = pk_wr p ++ total_data l.
Proof.
  intros HF. revert p. induction HF as [|a l (Ht & Hl & Hu) HF IH]; intros p H0 Hb.
  - cbn. rewrite !app_nil_r, zlen_nil, Z.add_0_r. done.
  - unfold total_data in *. rewrite fmap_cons, concat_cons, zlen_app in *. pose proof (zlen_nonneg (aa_data a)).
    pose proof (zlen_nonneg (concat (aa_data <$> l))). cbn [fold_left].
    assert (add_call p a = mkPacker (pk_blobs p ++ [add_blob (pk_bytes p) a]) (pk_bytes p + zlen (aa_data a)) (pk_k p)
      (pk_wr p ++ aa_data a)) as ->.
    { unfold add_call, Packer_Add, file_Write, add_blob. cbn.
      rewrite !u64_id by (unfold is_u64, is_u32 in *; lia). done. }
    destruct (IH (mkPacker (pk_blobs p ++ [add_blob (pk_bytes p) a]) (pk_bytes p + zlen (aa_data a)) (pk_k p)
      (pk_wr p ++ aa_data a))) as (E1 & E2 & E3 & E4); cbn [pk_bytes]; [lia..|].
    cbn [pk_blobs pk_bytes pk_k pk_wr] in E1, E2, E3, E4.
    rewrite E1, E2, E3, E4. cbn [add_blobs]. rewrite <- !app_assoc. split_and!; try done. lia.
Qed.

Lemma add_blobs_relocate l pos :
  Forall add_ok l -> 0 <= pos -> pos + zlen (total_data l) < 2 ^ 63 -> relocate pos (add_blobs pos l) = add_blobs pos l.
Proof.
  intros HF. revert pos. induction HF as [|a l Ha HF IH]; intros pos H0 Hb; [done|].
  unfold total_data in *. rewrite fmap_cons, concat_cons, zlen_app in Hb. pose proof (zlen_nonneg (aa_data a)).
  pose proof (zlen_nonneg (concat (aa_data <$> l))).
  cbn [add_blobs relocate]. unfold add_blob at 1 2 3 4. cbn [b_handle b_Length b_UncompressedLength].
  rewrite u64_id by (unfold is_u64; lia). by rewrite IH by lia.
Qed.

Lemma add_blobs_packable l pos : Forall add_ok l -> Forall packable (add_blobs pos l).
Proof.
  intros HF. revert pos. induction HF as [|a l (Ht & Hl & Hu) HF IH]; intros pos; constructor; [|apply IH].
  unfold packable, add_blob, b_Type. cbn. pose proof (zlen_nonneg (aa_data a)). unfold is_u32. done.
Qed.

(** The blob of the [i]-th call lies at its offset. *)
Lemma add_blobs_lookup l pos i a :
  l !! i = Some a -> exists pre post,
    add_blobs pos l !! i = Some (add_blob (pos + zlen pre) a) /\ total_data l = pre ++ aa_data a ++ post.
Proof.
  revert pos i; induction l as [|a' l IH]; intros pos i Hi; [done|]. destruct i as [|i]; cbn in Hi.
  - injection Hi as ->. exists [], (total_data l). cbn. by rewrite zlen_nil, Z.add_0_r.
  - destruct (IH (pos + zlen (aa_data a')) i Hi) as (pre & post & E1 & E2).
    exists (aa_data a' ++ pre), post. cbn [add_blobs]. rewrite zlen_app. split.
    + change (add_blobs (pos + zlen (aa_data a')) l !! i = Some (add_blob (pos + (zlen (aa_data a') + zlen pre)) a)).
      rewrite E1. do 2 f_equal. lia.
    + unfold total_data in *. rewrite fmap_cons, concat_cons, E2. by rewrite <- app_assoc.
Qed.

Lemma entries_size_pos bs : bs <> [] -> plainEntrySize <= entries_size bs.
Proof.
  destruct bs as [|b bs]; [done|]. intros _. unfold entries_size. cbn [fold_right].
  assert (0 <= fold_right (fun b n => CalculateEntrySize b + n) 0 bs) as H.
  { induction bs as [|b' bs IH]; [done|]. cbn [fold_right]. pose proof (CalculateEntrySize_pos b'). lia. }
  assert (plainEntrySize <= CalculateEntrySize b); [|lia]. unfold CalculateEntrySize. by destruct (negb _).
Qed.

(** What [Finalize] writes after the data of the blobs. *)
Definition pack_header aes_Encrypt poly1305_Sum (k : Key) (nonce h : list byte) : list byte :=
  nonce ++ sealed aes_Encrypt poly1305_Sum k nonce h.

Lemma Packer_Finalize_ok aes_Encrypt poly1305_Sum poly1305_Verify k nonce l :
  cipher_ok aes_Encrypt poly1305_Sum poly1305_Verify ->
  Key_Valid k = true -> zlen nonce = ivSize -> validNonce nonce = true ->
  Forall add_ok l -> zlen (total_data l) < 2 ^ 62 -> CalculateHeaderSize (add_blobs 0 l) <= MaxHeaderSize ->
  exists h, makeHeader (add_blobs 0 l) = Ok h /\ zlen h = entries_size (add_blobs 0 l) /\
    (forall fuel pos entries, (length h <= fuel)%nat ->
      List_loop fuel h pos entries = Ok (entries ++ relocate pos (add_blobs 0 l))) /\
    let enc := pack_header aes_Encrypt poly1305_Sum k nonce h in
    zlen enc = zlen h + 32 /\
    Packer_Finalize aes_Encrypt poly1305_Sum file_Write (fold_left add_call l (NewPacker k [])) nonce =
      (mkPacker (add_blobs 0 l) (zlen (total_data l) + zlen enc + 4) (masked_key k)
         (total_data l ++ enc ++ put_uint32 (zlen enc)), Ok tt).
Proof.
  intros Hok Hk Hn Hv Hl Hdata Hhdr.
  destruct (add_calls l (NewPacker k [])) as (E1 & E2 & E3 & E4); [done|cbn; lia..|].
  cbn [NewPacker pk_blobs pk_bytes pk_k pk_wr app] in E1, E2, E3, E4.
  destruct (makeHeader_list (add_blobs 0 l) [] (add_blobs_packable l 0 Hl)) as (h & Eh & Hh & Hloop).
  fold (makeHeader (add_blobs 0 l)) in Eh. cbn [app] in Eh.
  exists h. split; [done|]. split; [done|]. split; [done|]. unfold pack_header. set (sl := sealed aes_Encrypt poly1305_Sum k nonce h).
  set (enc := nonce ++ sl).
  assert (length nonce = 16%nat) as Hn16 by (unfold zlen, ivSize in Hn; lia).
  assert (zlen sl = zlen h + 16) as Hsl.
  { unfold zlen, sl. rewrite (length_sealed _ _ _ Hok) by done. lia. }
  rewrite CalculateHeaderSize_entries in Hhdr. rewrite <- Hh in Hhdr. pose proof (zlen_nonneg h).
  unfold MaxHeaderSize, headerSize, headerLengthSize, Extension, ivSize, macSize in *.
  assert (zlen enc = zlen h + 32) as Henc by (unfold enc; rewrite zlen_app, Hsl; lia). split; [done|].
  unfold Packer_Finalize. rewrite E1, E2, E3, E4, Eh. pose proof (zlen_nonneg (total_data l)).
  rewrite (Seal_ok aes_Encrypt poly1305_Sum k nonce nonce h Hk Hn Hv). fold sl. fold enc.
  unfold file_Write. rewrite Z.eqb_refl. cbn [negb pk_blobs pk_bytes]. rewrite (u32_id (zlen enc)) by (unfold is_u32; lia).
  rewrite (u64_id (zlen enc + 4)) by (unfold is_u64; lia). rewrite u64_id by (unfold is_u64; lia).
  rewrite <- app_assoc, Z.add_0_l, Z.add_assoc. done.
Qed.

(** The bytes of the [i]-th blob in a file that starts with the data. *)
Lemma add_blobs_slice l i a rest :
  l !! i = Some a -> exists b, add_blobs 0 l !! i = Some b /\ b_handle b = mkBlobHandle (aa_id a) (aa_t a) /\
    b_Length b = zlen (aa_data a) /\ b_UncompressedLength b = aa_ulen a /\
    0 <= b_Offset b /\ b_Offset b + b_Length b <= zlen (total_data l ++ rest) /\
    slice (total_data l ++ rest) (b_Offset b) (b_Offset b + b_Length b) = aa_data a.
Proof.
  intros Hi. destruct (add_blobs_lookup l 0 i a Hi) as (pre & post & Eb & Et). pose proof (zlen_nonneg pre).
  eexists. split; [exact Eb|]. do 3 (split; [done|]). unfold add_blob. cbn [b_Offset b_Length].
  split; [lia|]. rewrite Et. split; [rewrite !zlen_app; pose proof (zlen_nonneg post); pose proof (zlen_nonneg rest); lia|].
  unfold slice, slice_from, slice_to. rewrite <- !app_assoc.
  replace (Z.to_nat (0 + zlen pre)) with (length pre) by (unfold zlen; lia). rewrite drop_app_length.
  replace (Z.to_nat (0 + zlen pre + zlen (aa_data a) - (0 + zlen pre))) with (length (aa_data a)) by (unfold zlen; lia).
  by rewrite take_app_length.
Qed.

(** C20. A pack that is written can be read: adding blobs to a new packer and
    finalizing it yields a file from which [List] recovers every blob with its
    handle, lengths and offset, and the size of the header; at that offset lie
    the bytes that were added.  The bounds are those of the format: blobs
    shorter than 4 GiB, a header of at most [MaxHeaderSize]. *)
Theorem pack_roundtrip aes_Encrypt poly1305_Sum poly1305_Verify
    (Hok : cipher_ok aes_Encrypt poly1305_Sum poly1305_Verify)
    (k : Key) (nonce : list byte) (l : list add_args)
    (Hk : Key_Valid k = true) (Hn : zlen nonce = ivSize) (Hv : validNonce nonce = true)
    (Hl : Forall add_ok l) (Hne : l <> [])
    (Hdata : zlen (total_data l) < 2 ^ 62) (Hhdr : CalculateHeaderSize (add_blobs 0 l) <= MaxHeaderSize) :
  exists p' k', let p := fold_left add_call l (NewPacker k []) in
    Packer_Finalize aes_Encrypt poly1305_Sum file_Write p nonce = (p', Ok tt) /\
    Pack_List aes_Encrypt poly1305_Verify (file_ReadAt (pk_wr p')) k (zlen (pk_wr p')) =
      Ok (Packer_Blobs p, CalculateHeaderSize (Packer_Blobs p), k') /\
    Packer_Size p' = zlen (pk_wr p') /\
    forall i a, l !! i = Some a -> exists b, Packer_Blobs p !! i = Some b /\
      b_handle b = mkBlobHandle (aa_id a) (aa_t a) /\ b_UncompressedLength b = aa_ulen a /\
      slice (pk_wr p') (b_Offset b) (b_Offset b + b_Length b) = aa_data a.
Proof.
  destruct (add_calls l (NewPacker k [])) as (E1 & _); [done|cbn; lia..|].
  cbn [NewPacker pk_blobs pk_bytes app] in E1.
  destruct (Packer_Finalize_ok _ _ _ k nonce l Hok Hk Hn Hv Hl Hdata Hhdr) as (h & _ & Hh & Hloop & Henc & EF).
  set (enc := pack_header aes_Encrypt poly1305_Sum k nonce h) in *.
  eexists _, (masked_key k). split; [exact EF|]. cbn [pk_wr].
  assert (Packer_Blobs (fold_left add_call l (NewPacker k [])) = add_blobs 0 l) as -> by exact E1.
  assert (length nonce = 16%nat) as Hn16 by (unfold zlen, ivSize in Hn; lia).
  pose proof (file_size (total_data l) enc) as Hfs. pose proof (zlen_nonneg (total_data l)).
  assert (plainEntrySize <= zlen h) as Hhmin by (rewrite Hh; apply entries_size_pos; by destruct l).
  rewrite CalculateHeaderSize_entries in Hhdr |- *. rewrite <- Hh in Hhdr |- *.
  unfold MaxHeaderSize, headerSize, plainEntrySize, headerLengthSize, Extension, ivSize, macSize in *.
  split; [|split].
  - unfold Pack_List. rewrite readHeader_ok.
    + cbn [mbind outcome_bind]. unfold CiphertextLength, Extension, ivSize, macSize. rewrite i64_id by (unfold is_i64; lia).
      destruct (Z.ltb_spec (zlen enc) (0 + (16 + 16))); [lia|].
      assert (slice_to enc NonceSize = nonce) as ->.
      { unfold slice_to, enc, pack_header, NonceSize, ivSize. rewrite take_app_le by (rewrite Hn16; done). by rewrite take_ge by (rewrite Hn16; done). }
      assert (slice_from enc NonceSize = sealed aes_Encrypt poly1305_Sum k nonce h) as ->.
      { unfold slice_from, enc, pack_header, NonceSize, ivSize. change (Z.to_nat 16) with 16%nat. rewrite <- Hn16. apply drop_app_length. }
      assert (Open aes_Encrypt poly1305_Verify k [] nonce (sealed aes_Encrypt poly1305_Sum k nonce h) = Ok ([] ++ h, masked_key k)) as ->.
      { apply (Open_iff _ _ _ Hok); eauto. }
      cbn [app mbind outcome_bind]. rewrite Hloop by done. cbn [app mbind outcome_bind].
      rewrite add_blobs_relocate by (done || lia). unfold headerLengthSize.
      rewrite !(u32_id) by (unfold is_u32; rewrite ?u32_id; unfold is_u32; lia). do 3 f_equal. lia.
    + unfold Extension, ivSize, macSize. lia.
    + unfold MaxHeaderSize, headerLengthSize. lia.
    + rewrite Hfs. unfold minFileSize, plainEntrySize, headerLengthSize, Extension, ivSize, macSize. lia.
  - unfold Packer_Size. cbn [pk_bytes]. by rewrite Hfs.
  - intros i a Hi. destruct (add_blobs_slice l i a (enc ++ put_uint32 (zlen enc)) Hi) as (b & Eb & ? & _ & ? & _ & _ & ?).
    by exists b.
Qed.

Definition ex_adds : list add_args :=
  [mkAdd DataBlob (ex_id "a"%byte) (replicate 50 "x"%byte) 0; mkAdd TreeBlob (ex_id "b"%byte) (replicate 40 "y"%byte) 90].

Lemma ex_adds_ok : Forall add_ok ex_adds.
Proof.
  apply Forall_cons; split; [|apply Forall_cons; split; [|apply Forall_nil; done]].
  - split; [by left|]. split; [done|]. unfold is_u32. cbn. lia.
  - split; [by right|]. split; [done|]. unfold is_u32. cbn. lia.
Qed.

Lemma pack_roundtrip_witness :
  exists p' k', let p := fold_left add_call ex_adds (NewPacker ex_key []) in
    Packer_Finalize ex_aes ex_sum file_Write p ex_nonce = (p', Ok tt) /\
    Pack_List ex_aes ex_verify (file_ReadAt (pk_wr p')) ex_key (zlen (pk_wr p')) =
      Ok ([mkBlob (mkBlobHandle (ex_id "a"%byte) DataBlob) 50 0 0; mkBlob (mkBlobHandle (ex_id "b"%byte) TreeBlob) 40 50 90],
          36 + 37 + 41, k').
Proof.
  destruct (pack_roundtrip ex_aes ex_sum ex_verify ex_cipher_ok ex_key ex_nonce ex_adds eq_refl eq_refl eq_refl ex_adds_ok
    ltac:(discriminate) ltac:(vm_compute; reflexivity) ltac:(vm_compute; discriminate)) as (p' & k' & E1 & E2 & _).
  exists p', k'. split; [exact E1|]. exact E2.
Defined.

(** ** Robustness *)

Lemma get_uint32_Ok (l : list byte) : (4 <= length l)%nat -> exists v, get_uint32 l = Ok v.
Proof. destruct l as [|a [|b [|c [|d l]]]]; cbn; try lia; eauto. Qed.

Lemma length_slice {A} (l : list A) a b : 0 <= a -> a <= b -> b <= zlen l -> length (slice l a b) = Z.to_nat (b - a).
Proof. intros. unfold slice, slice_to, slice_from, zlen in *. rewrite length_take, length_drop. lia. Qed.

Lemma zlen_slice_to {A} (l : list A) n : 0 <= n <= zlen l -> zlen (slice_to l n) = n.
Proof. intros. unfold slice_to, zlen in *. rewrite length_take. lia. Qed.
Lemma zlen_slice_from {A} (l : list A) n : 0 <= n <= zlen l -> zlen (slice_from l n) = zlen l - n.
Proof. intros. unfold slice_from, zlen in *. rewrite length_drop. lia. Qed.

Lemma parseHeaderEntry_safe p :
  ~ panics (parseHeaderEntry p) /\
  forall b n, parseHeaderEntry p = Ok (b, n) -> 0 < n <= zlen p.
Proof.
  unfold parseHeaderEntry, entrySize, plainEntrySize, headerLengthSize.
  destruct (Z.ltb_spec (zlen p) (1 + 4 + 32)); [split; [by intros []|done]|].
  destruct (get_uint32_Ok (slice p 1 5)) as [v Hv]; [rewrite length_slice by lia; lia|].
  destruct ((_ =? 0) || (_ =? 2)); [|destruct ((_ =? 1) || (_ =? 3))]; cbn [mbind outcome_bind];
    rewrite ?Hv; cbn [mbind outcome_bind]; try (split; [by intros []|done]).
  all: destruct ((_ =? 2) || (_ =? 3)); [destruct (Z.ltb_spec (zlen p) (1 + 2 * 4 + 32)); [split; [by intros []|done]|]|].
  all: try (split; [by intros []|by intros b n [= <- <-]; lia]).
  all: destruct (get_uint32_Ok (slice (slice_from p 5) 0 4)) as [w Hw]; [rewrite length_slice; rewrite ?zlen_slice_from; lia|].
  all: rewrite Hw; cbn [mbind outcome_bind]; split; [by intros []|intros b n [= <- <-]; lia].
Qed.

Lemma List_loop_safe fuel buf pos entries : (length buf <= fuel)%nat -> ~ panics (List_loop fuel buf pos entries).
Proof.
  revert buf pos entries; induction fuel as [|fuel IH]; intros buf pos entries Hf; cbn [List_loop].
  - destruct buf; cbn in *; [by intros []|lia].
  - destruct (Z.ltb_spec 0 (zlen buf)) as [Hpos|]; cbn [negb]; [|by intros []].
    destruct (parseHeaderEntry_safe buf) as [Hnp Hsz].
    apply bind_no_panic; [done|]. intros [b n] E.
    apply IH. specialize (Hsz b n E). unfold slice_from. rewrite length_drop. unfold zlen in *. lia.
Qed.

Lemma readRecords_safe f bufsize :
  headerLengthSize <= bufsize -> minFileSize <= zlen f -> ~ panics (readRecords (file_ReadAt f) (zlen f) bufsize).
Proof.
  unfold minFileSize, plainEntrySize, headerLengthSize, Extension, ivSize, macSize. intros Hbs Hsz.
  unfold readRecords, headerLengthSize, MaxHeaderSize, headerLengthSize, Extension, ivSize, macSize.
  set (bs := if zlen f <? bufsize then zlen f else bufsize).
  assert (4 <= bs <= zlen f) as Hb by (unfold bs; destruct (Z.ltb_spec (zlen f) bufsize); lia).
  unfold file_ReadAt. destruct (Z.ltb_spec (zlen f - bs) 0); [lia|].
  destruct (Z.ltb_spec (zlen f) (zlen f - bs + bs)); [lia|]. cbn [orb mbind outcome_bind].
  assert (zlen (slice f (zlen f - bs) (zlen f - bs + bs)) = bs) as Hl.
  { unfold zlen at 1. rewrite length_slice by lia. lia. }
  set (b := slice f _ _) in *. rewrite Hl. destruct (Z.ltb_spec bs 4); [lia|].
  destruct (get_uint32_Ok (slice_from b (bs - 4))) as [v Hv].
  { unfold slice_from. rewrite length_drop. unfold zlen in *. lia. }
  rewrite Hv. cbn [mbind outcome_bind]. apply get_uint32_range in Hv. unfold is_u32 in Hv.
  destruct (Z.eqb_spec v 0); [by intros []|]. destruct (Z.ltb_spec v (16 + 16)); [by intros []|].
  destruct (Z.ltb_spec (zlen f - 4) v); [by intros []|].
  destruct (Z.ltb_spec (16 * 1024 * 1024 + 4 - 4) v); [by intros []|]. cbn [wrap_err mbind outcome_bind].
  rewrite u32_id by (unfold is_u32; lia). rewrite zlen_slice_to by lia.
  destruct (Z.ltb_spec (v + 4) bs); [|by intros []]. destruct (Z.ltb_spec (bs - 4) v); [lia|by intros []].
Qed.

Lemma readRecords_total f bufsize b c :
  readRecords (file_ReadAt f) (zlen f) bufsize = Ok (b, c) -> headerLengthSize <= c.
Proof.
  unfold readRecords. intros E. apply bind_Ok in E as (b0 & _ & E). case_if; [done|].
  apply bind_Ok in E as (v & Hv & E). apply get_uint32_range in Hv. unfold is_u32 in Hv.
  apply bind_Ok in E as (? & Hchk & E). unfold headerLengthSize, MaxHeaderSize in *.
  assert (v <= 16 * 1024 * 1024) as Hmax by (repeat case_if; try done; bool_to_prop; unfold headerLengthSize in *; lia).
  rewrite u32_id in E by (unfold is_u32; lia). repeat case_if; try done; injection E as _ <-; lia.
Qed.

(** [List] never panics: for a file of any content, and any key, it returns
    the entries or an error. *)
Theorem pack_list_total aes_Encrypt poly1305_Verify (f : list byte) (k : Key) :
  ~ panics (Pack_List aes_Encrypt poly1305_Verify (file_ReadAt f) k (zlen f)).
Proof.
  unfold Pack_List, readHeader. destruct (Z.ltb_spec (zlen f) minFileSize) as [|Hsz]; [by intros []|].
  assert (forall buf : list byte, ~ panics
    (if zlen buf <? CiphertextLength 0 then Err (ErrMsg "invalid header, too small") else
     try (buf', k') <- Open aes_Encrypt poly1305_Verify k [] (slice_to buf NonceSize) (slice_from buf NonceSize);
     try entries <- List_loop (length buf') buf' 0 []; Ok (entries, u32 (headerLengthSize + u32 (zlen buf)), k'))) as Hrest.
  { intros buf. unfold CiphertextLength, Extension, ivSize, macSize. rewrite i64_id by (unfold is_i64; lia).
    destruct (Z.ltb_spec (zlen buf) (0 + (16 + 16))); [by intros []|]. unfold Open, NonceSize, ivSize.
    rewrite zlen_slice_to by lia. rewrite Z.eqb_refl. cbn [negb].
    destruct (negb (Key_Valid k)); [by intros []|]. destruct (negb (validNonce _)); [by intros []|].
    destruct (_ <? Overhead); [by intros []|]. cbn zeta.
    destruct (poly1305Verify _ _ _ _ _ _) as [[] m]; cbn [negb mbind outcome_bind]; [|by intros []].
    apply bind_no_panic; [by apply List_loop_safe|]. intros; apply Ok_no_panic. }
  eapply bind_no_panic; [|intros buf _; apply Hrest].
  apply bind_no_panic; [by apply readRecords_safe|]. intros [b c] E. case_if; [apply Ok_no_panic|].
  apply bind_no_panic; [|intros [b' c'] _; apply Ok_no_panic].
  apply readRecords_safe; [|done]. by eapply readRecords_total.
Qed.
