(* ===== verification/Backend.v ===== *)
(** Backends: handles, the interface every backend implements, the helpers
    built on it, and the in-memory backend (src/backend/file.go, backend.go,
    readerat.go, utils.go, util/defaults.go, mem/mem_backend.go).

    The interface is the class [Backend]; what clients rely on is the class
    [BackendLaws], which the in-memory backend satisfies.  [Load] may run its
    callback several times: a backend is modelled by the attempts it makes. *)

From S2P Require Import Prelude Bytes Restic.

#[local] Open Scope Z_scope.

(** * Handles *)

Definition FileType := Z.
Definition PackFile : FileType := 1.
Definition KeyFile : FileType := 2.
Definition LockFile : FileType := 3.
Definition SnapshotFile : FileType := 4.
Definition IndexFile : FileType := 5.
Definition ConfigFile : FileType := 6.

Definition FileType_String (t : FileType) : string :=
  if t =? PackFile then "data"
  else if t =? KeyFile then "key"
  else if t =? LockFile then "lock"
  else if t =? SnapshotFile then "snapshot"
  else if t =? IndexFile then "index"
  else if t =? ConfigFile then "config"
  else "invalid".

Record Handle := mkHandle { h_Type : FileType; h_IsMetadata : bool; h_Name : string }.

#[export] Instance Handle_eq_dec : EqDecision Handle.
Proof. solve_decision. Defined.
#[export] Instance Handle_countable : Countable Handle :=
  inj_countable' (fun h => (h_Type h, h_IsMetadata h, h_Name h)) (fun '(t, m, n) => mkHandle t m n) ltac:(by intros []).

Definition Handle_String (h : Handle) : string :=
  let name := h_Name h in
  let name := if Nat.ltb 10 (String.length name) then String.substring 0 10 name else name in
  "<" +:+ FileType_String (h_Type h) +:+ "/" +:+ name +:+ ">".

Definition Handle_Valid (h : Handle) : outcome unit :=
  if negb ((h_Type h =? PackFile) || (h_Type h =? KeyFile) || (h_Type h =? LockFile) ||
           (h_Type h =? SnapshotFile) || (h_Type h =? IndexFile) || (h_Type h =? ConfigFile))
  then Err (ErrMsg "invalid Type %d")
  else if h_Type h =? ConfigFile then Ok tt
  else if bool_decide (h_Name h = "") then Err (ErrMsg "invalid Name")
  else Ok tt.

(** * The interface *)

Record FileInfo := mkFileInfo { fi_Size : Z; fi_Name : string }.

(** [be_Load be h length offset] lists what the successive attempts of a [Load]
    deliver: the bytes of a reader, or the error of opening one. *)
Class Backend (B : Type) := {
  be_Save : B -> Handle -> list byte -> B * outcome unit;
  be_Load : B -> Handle -> Z -> Z -> list (outcome (list byte));
  be_Stat : B -> Handle -> outcome FileInfo;
  be_Remove : B -> Handle -> B * outcome unit;
  be_List : B -> FileType -> outcome (list FileInfo);
  be_IsNotExist : error -> bool }.

(** [backoff.Permanent] marks an error that ends the attempts. *)
Definition Permanent (e : error) : error := ErrWrap e "backoff.PermanentError".
Definition is_permanent (e : error) : bool :=
  match e with ErrWrap _ m => bool_decide (m = "backoff.PermanentError") | ErrMsg _ => false end.

(** [Load] with a callback on a state: attempts until one succeeds, the error
    is permanent, or none is left. *)
Fixpoint run_attempts {S} (fn : S -> list byte -> S * outcome unit) (s : S) (attempts : list (outcome (list byte)))
    : S * outcome unit :=
  match attempts with
  | [] => (s, Err (ErrMsg "no attempt"))
  | a :: rest =>
      let '(s, r) := match a with
        | Ok data => fn s data
        | Err e => (s, Err e)
        | Panic p => (s, Panic p)
        end in
      match r, rest with
      | Ok _, _ => (s, Ok tt)
      | Panic p, _ => (s, Panic p)
      | Err e, [] => (s, Err e)
      | Err e, _ => if is_permanent e then (s, Err e) else run_attempts fn s rest
      end
  end.

Definition Load `{Backend B} {S} (be : B) (h : Handle) (length_ offset : Z)
    (fn : S -> list byte -> S * outcome unit) (s : S) : S * outcome unit :=
  run_attempts fn s (be_Load be h length_ offset).

(** What a read of [length_] bytes (0: all) at [offset] yields. *)
Definition cut (f : list byte) (length_ offset : Z) : list byte :=
  let f := slice_from f offset in
  if (0 <? length_) && (length_ <? zlen f) then slice_to f length_ else f.

(** The files a backend holds do not depend on the metadata flag of a handle,
    nor on the name of the config file. *)
Definition canon (h : Handle) : Handle :=
  mkHandle (h_Type h) false (if h_Type h =? ConfigFile then "" else h_Name h).

(** The contract of the interface: [Save] adds the file, or it fails and has changed
    nothing or, when the error came after it, has added the file (a backend that leaves a
    part of a file is not one of them, but the retrying one removes it and the local
    one renames a complete file); [Load] delivers the bytes of a file, possibly after
    temporary failures; [List] lists the files of a type.  [be_ok] is an
    invariant of the backend's own state. *)
Class BackendLaws (B : Type) `{Backend B} := {
  be_files : B -> gmap Handle (list byte);
  be_ok : B -> Prop;
  law_ok : forall be h data be' r, be_ok be -> be_Save be h data = (be', r) -> be_ok be';
  law_List : forall be t fis, be_ok be -> be_List be t = Ok fis ->
    forall name, name ∈ fi_Name <$> fis <-> is_Some (be_files be !! mkHandle t false name);
  law_Save : forall be h data be' r, be_Save be h data = (be', r) ->
    match r with
    | Ok _ => be_files be !! canon h = None /\ be_files be' = <[canon h := data]> (be_files be)
    | Err _ => be_files be' = be_files be \/ (be_files be !! canon h = None /\ be_files be' = <[canon h := data]> (be_files be))
    | Panic _ => False
    end;
  law_Load : forall be h f length_ offset, be_files be !! canon h = Some f -> 0 <= offset <= zlen f ->
    exists es rest, be_Load be h length_ offset = (Err <$> es) ++ Ok (cut f length_ offset) :: rest /\
      Forall (fun e => is_permanent e = false) es }.

Lemma run_attempts_errors {S} (fn : S -> list byte -> S * outcome unit) s es rest :
  rest <> [] -> Forall (fun e => is_permanent e = false) es ->
  run_attempts fn s ((Err <$> es) ++ rest) = run_attempts fn s rest.
Proof.
  intros Hr HF. induction HF as [|e es He HF IH]; [done|]. cbn [fmap list_fmap app run_attempts].
  destruct ((Err <$> es) ++ rest) eqn:E.
  - apply app_eq_nil in E as [_ ?]. done.
  - by rewrite He.
Qed.

(** What a callback keeps, the attempts keep. *)
Lemma run_attempts_inv {S} (P : S -> Prop) (fn : S -> list byte -> S * outcome unit) s attempts :
  (forall s data, P s -> P (fn s data).1) -> P s -> P (run_attempts fn s attempts).1.
Proof.
  intros HP. revert s. induction attempts as [|a rest IH]; intros s Hs; cbn [run_attempts]; [done|].
  assert (P (match a with Ok data => fn s data | Err e => (s, Err e) | Panic p => (s, Panic p) end).1) as H1 by (destruct a; [by apply HP|done..]).
  destruct (match a with Ok data => fn s data | Err e => (s, Err e) | Panic p => (s, Panic p) end) as [s' r]. cbn [fst] in H1.
  destruct r, rest; try done; destruct (is_permanent _); try done; by apply IH.
Qed.

(** A callback that accepts what it is given runs once on the file. *)
Lemma Load_ok `{BackendLaws B} {S} be h f length_ offset (fn : S -> list byte -> S * outcome unit) s s' :
  be_files be !! canon h = Some f -> 0 <= offset <= zlen f ->
  fn s (cut f length_ offset) = (s', Ok tt) -> Load be h length_ offset fn s = (s', Ok tt).
Proof.
  intros Hf Ho Hfn. unfold Load. destruct (law_Load be h f length_ offset Hf Ho) as (es & rest & -> & Hes).
  rewrite run_attempts_errors by done. cbn. by rewrite Hfn.
Qed.

(** * Helpers *)

Section Helpers.
Context `{Backend B}.

(** [io.ReadFull] into a buffer of [n] bytes. *)
Definition ReadFull (n : Z) (data : list byte) : outcome (list byte) :=
  if zlen data <? n then Err (ErrMsg (if zlen data =? 0 then "EOF" else "unexpected EOF")) else Ok (slice_to data n).

(** [backend.ReadAt]: fills a buffer of [n] bytes. *)
Definition ReadAt (be : B) (h : Handle) (offset : Z) (n : Z) : outcome (list byte) :=
  let '(p, r) := Load be h n offset (fun _ data =>
    match ReadFull n data with
    | Ok p => (p, Ok tt)
    | Err e => ([], Err e)
    | Panic e => ([], Panic e)
    end) [] in
  match r with
  | Ok _ => Ok p
  | Err e => Err (ErrWrap e "ReadFull(%v)")
  | Panic e => Panic e
  end.

Context (Hash : list byte -> ID).

Definition verifyContentMatchesName (s : string) (data : list byte) : outcome bool :=
  if negb (Nat.eqb (String.length s) 64) then Err (ErrMsg "invalid length for ID: %q") else
  try b <- wrap_err "invalid ID" (hex_decode s);
  Ok (ID_Equal (copy_id b) (Hash data)).

(** [LoadAll]: the state of the callback is the buffer and the retry flag. *)
Definition LoadAll (be : B) (h : Handle) : outcome (list byte) :=
  let '((buf, _), r) := Load be h 0 0 (fun '(_, retriedInvalidData) buf =>
    if negb retriedInvalidData && negb (h_Type h =? ConfigFile) then
      match verifyContentMatchesName (h_Name h) buf with
      | Ok false => ((buf, true), Err (ErrMsg "loadAll(%v): invalid data returned"))
      | Panic p => ((buf, retriedInvalidData), Panic p)
      | _ => ((buf, retriedInvalidData), Ok tt)
      end
    else ((buf, retriedInvalidData), Ok tt)) ([], false) in
  match r with Ok _ => Ok buf | Err e => Err e | Panic p => Panic p end.

(** [DefaultDelete]: a failed [List] or [Remove] ends it, without an error. *)
Definition remove_files (be : B) (t : FileType) (fis : list FileInfo) : B * outcome unit :=
  fold_left (fun st fi =>
    let '(be, r) := st in
    match r with Ok _ => be_Remove be (mkHandle t false (fi_Name fi)) | _ => (be, r) end) fis (be, Ok tt).

Fixpoint delete_types (be : B) (ts : list FileType) : B * option (outcome unit) :=
  match ts with
  | [] => (be, None)
  | t :: ts =>
      match be_List be t with
      | Ok fis =>
          match remove_files be t fis with
          | (be, Ok _) => delete_types be ts
          | (be, Err _) => (be, Some (Ok tt))
          | (be, Panic p) => (be, Some (Panic p))
          end
      | Err _ => (be, Some (Ok tt))
      | Panic p => (be, Some (Panic p))
      end
  end.

Definition alltypes : list FileType := [PackFile; KeyFile; LockFile; SnapshotFile; IndexFile].

Definition DefaultDelete (be : B) : B * outcome unit :=
  match delete_types be alltypes with
  | (be, Some r) => (be, r)
  | (be, None) =>
      let '(be, r) := be_Remove be (mkHandle ConfigFile false "") in
      match r with
      | Err e => (be, if be_IsNotExist e then Ok tt else Err e)
      | _ => (be, r)
      end
  end.
End Helpers.

(** * The in-memory backend

    The hash that the reader of [Save] carries is the one the backend computes
    for the content. *)

Abbreviation MemoryBackend := (gmap Handle (list byte)).
Definition mem_New : MemoryBackend := ∅.

Definition errNotFound : error := ErrMsg "not found".

Fixpoint error_Is (e target : error) : bool :=
  bool_decide (e = target) || match e with ErrWrap e _ => error_Is e target | ErrMsg _ => false end.

Definition mem_IsNotExist (e : error) : bool := error_Is e errNotFound.

Definition mem_Save (be : MemoryBackend) (h : Handle) (data : list byte) : MemoryBackend * outcome unit :=
  let h := mkHandle (h_Type h) false (if h_Type h =? ConfigFile then "" else h_Name h) in
  match be !! h with
  | Some _ => (be, Err (ErrMsg "file already exists"))
  | None => (<[h := data]> be, Ok tt)
  end.

Definition mem_openReader (be : MemoryBackend) (h : Handle) (length_ offset : Z) : outcome (list byte) :=
  let h := mkHandle (h_Type h) false (if h_Type h =? ConfigFile then "" else h_Name h) in
  match be !! h with
  | None => Err errNotFound
  | Some buf =>
      if zlen buf <? offset then Err (ErrMsg "offset beyond end of file")
      else if offset <? 0 then Panic "slice bounds out of range"
      else
        let buf := slice_from buf offset in
        Ok (if (0 <? length_) && (length_ <? zlen buf) then slice_to buf length_ else buf)
  end.

(** [Load = util.DefaultLoad]: one attempt. *)
Definition mem_Load (be : MemoryBackend) (h : Handle) (length_ offset : Z) : list (outcome (list byte)) :=
  [mem_openReader be h length_ offset].

Definition mem_Stat (be : MemoryBackend) (h : Handle) : outcome FileInfo :=
  let h := mkHandle (h_Type h) false (if h_Type h =? ConfigFile then "" else h_Name h) in
  match be !! h with None => Err errNotFound | Some e => Ok (mkFileInfo (zlen e) (h_Name h)) end.

Definition mem_Remove (be : MemoryBackend) (h : Handle) : MemoryBackend * outcome unit :=
  let h := mkHandle (h_Type h) false (h_Name h) in
  match be !! h with None => (be, Err errNotFound) | Some _ => (delete h be, Ok tt) end.

(** [List] collects names and sizes in a map first. *)
Definition mem_List (be : MemoryBackend) (t : FileType) : outcome (list FileInfo) :=
  let entries : gmap string Z :=
    fold_left (fun entries '(entry, buf) => if negb (h_Type entry =? t) then entries else <[h_Name entry := zlen buf]> entries)
      (map_to_list be) ∅ in
  Ok ((fun '(name, size) => mkFileInfo size name) <$> map_to_list entries).

Definition mem_Delete (be : MemoryBackend) : MemoryBackend * outcome unit := (mem_New, Ok tt).

#[export] Instance MemoryBackend_Backend : Backend MemoryBackend := {
  be_Save := mem_Save; be_Load := mem_Load; be_Stat := mem_Stat; be_Remove := mem_Remove;
  be_List := mem_List; be_IsNotExist := mem_IsNotExist }.

Lemma mem_List_names (be : MemoryBackend) t fis name :
  mem_List be t = Ok fis -> name ∈ fi_Name <$> fis <-> exists m, is_Some (be !! mkHandle t m name).
Proof.
  intros [= <-]. rewrite <- list_fmap_compose.
  assert (forall l (e : gmap string Z), is_Some (fold_left (fun entries '(entry, buf) =>
      if negb (h_Type entry =? t) then entries else <[h_Name entry := zlen buf]> entries) l e !! name) <->
      is_Some (e !! name) \/ exists m (buf : list byte), (mkHandle t m name, buf) ∈ l) as Hfold.
  { induction l as [|[h buf] l IH]; intros e; cbn [fold_left].
    - split; [by left|]. intros [He|(m & b & Hb)]; [done|by apply elem_of_nil in Hb].
    - rewrite IH. setoid_rewrite elem_of_cons. destruct h as [ht hm hn]. cbn [h_Type h_Name].
      destruct (Z.eqb_spec ht t) as [->|Hne]; cbn [negb].
      + destruct (decide (hn = name)) as [->|Hn]; [rewrite lookup_insert_eq|rewrite lookup_insert_ne by done].
        * split; [|by left; eexists]. intros _. right. exists hm, buf. by left.
        * split; [intros [?|(m & b & ?)]; [by left|right; exists m, b; by right]|].
          intros [?|(m & b & [E|?])]; [by left|congruence|right; by exists m, b].
      + split; [intros [?|(m & b & ?)]; [by left|right; exists m, b; by right]|].
        intros [?|(m & b & [E|?])]; [by left|congruence|right; by exists m, b]. }
  rewrite list_elem_of_fmap. transitivity (is_Some (fold_left (fun (entries : gmap string Z) '(entry, buf) =>
      if negb (h_Type entry =? t) then entries else <[h_Name entry := zlen buf]> entries) (map_to_list be) ∅ !! name)).
  - split.
    + intros ([n sz] & -> & Hin%elem_of_map_to_list). by eexists.
    + intros [sz Hsz]. exists (name, sz). split; [done|]. by apply elem_of_map_to_list.
  - rewrite Hfold, lookup_empty. setoid_rewrite elem_of_map_to_list. split.
    + intros [[? ?]|(m & b & Hb)]; [done|]. exists m. by eexists.
    + intros (m & b & Hb). eauto.
Qed.

#[export] Program Instance MemoryBackend_Laws : BackendLaws MemoryBackend := {|
  be_files := fun be => be; be_ok := map_Forall (fun h _ => h_IsMetadata h = false) |}.
Next Obligation.
  intros be h data be' r Hok. cbn. unfold mem_Save. destruct (be !! _); intros [= <- <-]; [done|].
  by apply map_Forall_insert_2.
Qed.
Next Obligation.
  intros be t fis Hok HL name. rewrite (mem_List_names be t fis name HL). split; [|by exists false].
  intros (m & b & Hb). pose proof (Hok _ _ Hb) as Hm. cbn in Hm. subst m. by eexists.
Qed.
Next Obligation.
  intros be h data be' r. cbn. unfold mem_Save, canon. destruct (be !! _) eqn:E; intros [= <- <-]; [by left|done].
Qed.
Next Obligation.
  intros be h f length_ offset Hf Ho. exists [], []. split; [|done].
  change ([mem_openReader be h length_ offset] = [Ok (cut f length_ offset)]). unfold mem_openReader, canon in *. cbn in Hf.
  rewrite Hf. unfold cut. destruct (Z.ltb_spec (zlen f) offset); [lia|]. destruct (Z.ltb_spec offset 0); [lia|]. done.
Qed.

Lemma mem_New_ok : be_ok mem_New.
Proof. intros h f Hf. unfold mem_New in Hf. by rewrite lookup_empty in Hf. Qed.

(** * Correctness *)

Lemma cut_slice f n off :
  0 <= off -> 0 < n -> off + n <= zlen f -> cut f n off = slice f off (off + n).
Proof.
  intros. unfold cut, slice. replace (off + n - off) with n by lia.
  destruct (Z.ltb_spec 0 n); [|lia]. cbn [andb].
  destruct (Z.ltb_spec n (zlen (slice_from f off))) as [|Hge]; [done|].
  unfold slice_to, slice_from, zlen in *. rewrite length_drop in Hge. rewrite take_ge; [done|]. rewrite length_drop. lia.
Qed.

(** Reading [n] bytes inside a file yields exactly those bytes; reading past
    the end is an error, never a short result. *)
Lemma ReadAt_ok `{BackendLaws B} (be : B) h f off n :
  be_files be !! canon h = Some f -> 0 <= off -> 0 < n -> off + n <= zlen f ->
  ReadAt be h off n = Ok (slice f off (off + n)).
Proof.
  intros Hf Ho Hn Hl. unfold ReadAt.
  rewrite (Load_ok be h f n off _ _ (slice f off (off + n))); [done|done|lia|].
  rewrite cut_slice by done. unfold ReadFull.
  assert (zlen (slice f off (off + n)) = n) as Hz.
  { unfold zlen, slice, slice_to, slice_from in *. rewrite length_take, length_drop. lia. }
  rewrite Hz. destruct (Z.ltb_spec n n); [lia|]. unfold slice_to. rewrite take_ge; [done|]. unfold zlen in Hz. lia.
Qed.

Lemma ReadAt_length `{Backend B} (be : B) h off n p : 0 <= n -> ReadAt be h off n = Ok p -> zlen p = n.
Proof.
  intros Hn. unfold ReadAt, Load. generalize (be_Load be h n off). intros attempts.
  assert (forall p0 : list byte, match run_attempts (fun (_ : list byte) data =>
      match ReadFull n data with Ok p => (p, Ok tt) | Err e => ([], Err e) | Panic e => ([], Panic e) end) p0 attempts with
    | (p, Ok _) => zlen p = n | _ => True end) as Hg.
  { induction attempts as [|a rest IH]; intros p0; cbn [run_attempts]; [done|].
    destruct a as [data|e|m]; [unfold ReadFull at 1; case_if|..]; try done.
    - destruct rest; [done|]. case_if; [done|]. apply IH.
    - bool_to_prop. unfold slice_to, zlen in *. rewrite length_take. lia.
    - destruct rest; [done|]. case_if; [done|]. apply IH. }
  specialize (Hg []). destruct (run_attempts _ _ _) as [q [u|e|m]]; intros [= <-]; done.
Qed.

(** A stored file is loaded as it is. *)
Lemma LoadAll_stored `{BackendLaws B} (Hash : list byte -> ID) (be : B) (t : FileType) (m : bool) (id : ID) (f : list byte)
    (Hf : be_files be !! mkHandle t false (ID_String id) = Some f) (Ht : t <> ConfigFile) (Hid : Hash f = id) :
  LoadAll Hash be (mkHandle t m (ID_String id)) = Ok f.
Proof.
  unfold LoadAll. cbn [h_Type h_Name].
  assert (verifyContentMatchesName Hash (ID_String id) f = Ok true) as Hv.
  { unfold verifyContentMatchesName, ID_String. rewrite length_hex_encode, length_id_bytes. cbn [Nat.eqb Nat.mul Nat.add negb].
    rewrite hex_decode_encode. cbn [wrap_err mbind outcome_bind]. rewrite copy_id_bytes, Hid. f_equal. by apply ID_Equal_spec. }
  assert (cut f 0 0 = f) as Hcut by done.
  rewrite (Load_ok be _ f 0 0 _ _ (f, false)).
  - done.
  - unfold canon. cbn [h_Type h_Name]. destruct (Z.eqb_spec t ConfigFile); [done|exact Hf].
  - pose proof (zlen_nonneg f). lia.
  - rewrite Hcut. destruct (Z.eqb_spec t ConfigFile); [done|]. cbn [negb andb]. by rewrite Hv.
Qed.

(** Loading a whole file yields its content when the content matches the name,
    whatever temporary failures the backend has. *)
Theorem LoadAll_ok `{BackendLaws B} (Hash : list byte -> ID) (be : B) (t : FileType) (m : bool) (id : ID) (f : list byte)
    (Hf : be_files be !! mkHandle t false (ID_String id) = Some f) (Ht : t <> ConfigFile) (Hid : Hash f = id) :
  LoadAll Hash be (mkHandle t m (ID_String id)) = Ok f.
Proof. by apply LoadAll_stored. Qed.

Definition ex_Hash (data : list byte) : ID := copy_id data.
Definition ex_data : list byte := replicate 5 "z"%byte.

Lemma LoadAll_ok_witness :
  LoadAll ex_Hash (<[mkHandle IndexFile false (ID_String (ex_Hash ex_data)) := ex_data]> mem_New)
    (mkHandle IndexFile false (ID_String (ex_Hash ex_data))) = Ok ex_data.
Proof.
  apply (LoadAll_ok ex_Hash (<[mkHandle IndexFile false (ID_String (ex_Hash ex_data)) := ex_data]> mem_New)
    IndexFile false (ex_Hash ex_data) ex_data); [apply lookup_insert_eq|discriminate|reflexivity].
Defined.
