(* ===== verification/Layout.v ===== *)
(** Where a backend stores the files of a repository (src/backend/layout/).

    A layout carries the function that joins path components; [path_Join] is the
    one all backends use on slash-separated paths.  Maps from file types to
    directories are functions; a missing entry is the empty string. *)

From S2P Require Import Prelude Bytes Restic GoString Backend.

(** * The three layouts *)

Record layout := mkLayout { l_URL : string; l_Path : string; l_Join : list string -> string }.

Inductive Layout :=
  | DefaultLayout (l : layout)
  | RESTLayout (l : layout)
  | S3LegacyLayout (l : layout).

Definition defaultLayoutPaths (t : FileType) : string :=
  if Z.eqb t PackFile then "data" else if Z.eqb t SnapshotFile then "snapshots" else if Z.eqb t IndexFile then "index"
  else if Z.eqb t LockFile then "locks" else if Z.eqb t KeyFile then "keys" else "".
Definition restLayoutPaths := defaultLayoutPaths.
Definition s3LayoutPaths (t : FileType) : string :=
  if Z.eqb t PackFile then "data" else if Z.eqb t SnapshotFile then "snapshot" else if Z.eqb t IndexFile then "index"
  else if Z.eqb t LockFile then "lock" else if Z.eqb t KeyFile then "key" else "".

(** The types that have an entry, in an order of the map's iteration. *)
Definition layoutTypes : list FileType := [PackFile; SnapshotFile; IndexFile; LockFile; KeyFile].

Definition Name (l : Layout) : string :=
  match l with DefaultLayout _ => "default" | RESTLayout _ => "rest" | S3LegacyLayout _ => "s3legacy" end.

(** [S3LegacyLayout.join]. *)
Fixpoint drop_empty (items : list string) : list string :=
  match items with s :: rest => if String.eqb s "" then drop_empty rest else items | [] => [] end.
Fixpoint ends_with_slash (s : string) : bool :=
  match s with EmptyString => false | String.String c EmptyString => Ascii.eqb c slash | String.String _ s => ends_with_slash s end.
Definition s3_join (l : layout) (url : string) (items : list string) : string :=
  let path := l_Join l (drop_empty items) in
  let url := if negb (rooted path) && negb (String.eqb url "") && negb (ends_with_slash url) then url +:+ "/" else url in
  url +:+ path.

Definition DefaultLayout_Dirname (l : layout) (h : Handle) : string :=
  let p := defaultLayoutPaths (h_Type h) in
  let p := if Z.eqb (h_Type h) PackFile && (2 <? String.length (h_Name h))
           then l_Join l [p; take_bytes 2 (h_Name h)] +:+ "/" else p in
  l_Join l [l_Path l; p] +:+ "/".
Definition RESTLayout_Dirname (l : layout) (h : Handle) : string :=
  if Z.eqb (h_Type h) ConfigFile then l_URL l +:+ l_Join l [l_Path l; "/"]
  else l_URL l +:+ l_Join l [l_Path l; "/"; restLayoutPaths (h_Type h)] +:+ "/".
Definition S3LegacyLayout_Dirname (l : layout) (h : Handle) : string :=
  if Z.eqb (h_Type h) ConfigFile then l_URL l +:+ l_Join l [l_Path l; "/"]
  else s3_join l (l_URL l) [l_Path l; s3LayoutPaths (h_Type h)] +:+ "/".

Definition Dirname (l : Layout) (h : Handle) : string :=
  match l with
  | DefaultLayout l => DefaultLayout_Dirname l h
  | RESTLayout l => RESTLayout_Dirname l h
  | S3LegacyLayout l => S3LegacyLayout_Dirname l h
  end.

Definition DefaultLayout_Filename (l : layout) (h : Handle) : string :=
  if Z.eqb (h_Type h) ConfigFile then l_Join l [l_Path l; "config"]
  else l_Join l [DefaultLayout_Dirname l h; h_Name h].
Definition RESTLayout_Filename (l : layout) (h : Handle) : string :=
  let name := if Z.eqb (h_Type h) ConfigFile then "config" else h_Name h in
  l_URL l +:+ l_Join l [l_Path l; "/"; restLayoutPaths (h_Type h); name].
Definition S3LegacyLayout_Filename (l : layout) (h : Handle) : string :=
  let name := if Z.eqb (h_Type h) ConfigFile then "config" else h_Name h in
  s3_join l (l_URL l) [l_Path l; s3LayoutPaths (h_Type h); name].

Definition Filename (l : Layout) (h : Handle) : string :=
  match l with
  | DefaultLayout l => DefaultLayout_Filename l h
  | RESTLayout l => RESTLayout_Filename l h
  | S3LegacyLayout l => S3LegacyLayout_Filename l h
  end.

Definition DefaultLayout_Paths (l : layout) : list string :=
  ((fun t => l_Join l [l_Path l; defaultLayoutPaths t]) <$> layoutTypes) ++
  ((fun i => l_Join l [l_Path l; defaultLayoutPaths PackFile; hex_encode [byte_of_Z (Z.of_nat i)]]) <$> seq 0 256).
Definition RESTLayout_Paths (l : layout) : list string :=
  (fun t => l_URL l +:+ l_Join l [l_Path l; restLayoutPaths t]) <$> layoutTypes.
Definition S3LegacyLayout_Paths (l : layout) : list string :=
  (fun t => l_Join l [l_Path l; s3LayoutPaths t]) <$> layoutTypes.

Definition Paths (l : Layout) : list string :=
  match l with
  | DefaultLayout l => DefaultLayout_Paths l
  | RESTLayout l => RESTLayout_Paths l
  | S3LegacyLayout l => S3LegacyLayout_Paths l
  end.

Definition DefaultLayout_Basedir (l : layout) (t : FileType) : string * bool :=
  (l_Join l [l_Path l; defaultLayoutPaths t], Z.eqb t PackFile).
Definition RESTLayout_Basedir (l : layout) (t : FileType) : string * bool :=
  (l_URL l +:+ l_Join l [l_Path l; restLayoutPaths t], false).
Definition S3LegacyLayout_Basedir (l : layout) (t : FileType) : string * bool :=
  (l_Join l [l_Path l; s3LayoutPaths t], false).

Definition Basedir (l : Layout) (t : FileType) : string * bool :=
  match l with
  | DefaultLayout l => DefaultLayout_Basedir l t
  | RESTLayout l => RESTLayout_Basedir l t
  | S3LegacyLayout l => S3LegacyLayout_Basedir l t
  end.

Example layout_tests :
  let h t n := mkHandle t false n in
  let rest := RESTLayout (mkLayout "https://hostname.foo:1234/prefix/repo" "/" path_Join) in
  let s3 url p := S3LegacyLayout (mkLayout url p path_Join) in
  let def := DefaultLayout (mkLayout "" "" path_Join) in
  Filename rest (h LockFile "foobar") = "https://hostname.foo:1234/prefix/repo/locks/foobar" /\
  Dirname rest (h ConfigFile "foobar") = "https://hostname.foo:1234/prefix/repo/" /\
  Filename (s3 "https://hostname.foo" "/") (h PackFile "foobar") = "https://hostname.foo/data/foobar" /\
  Filename (s3 "" "") (h LockFile "foobar") = "lock/foobar" /\ Dirname (s3 "" "/") (h ConfigFile "foobar") = "/" /\
  Filename def (h PackFile "0123456") = "data/01/0123456" /\ Filename def (h ConfigFile "CFG") = "config".
Proof. vm_compute. done. Qed.

(** * Finding the layout *)

Section Detect.
Context (ReadDir : string -> outcome (list string)) (IsNotExist : error -> bool) (Join : list string -> string).

(** [^[a-fA-F0-9]{64}$]. *)
Definition backendFilename (name : string) : bool :=
  Nat.eqb (String.length name) 64 && is_ok (hex_decode name).

Definition hasBackendFile (dir : string) : outcome bool :=
  match ReadDir dir with
  | Ok entries => Ok (existsb backendFilename entries)
  | Err e => if IsNotExist e then Ok false else Err (ErrWrap e "ReadDir")
  | Panic p => Panic p
  end.

Definition ErrLayoutDetectionFailed : error := ErrMsg "auto-detecting the filesystem layout failed".

Definition DetectLayout (dir : string) : outcome Layout :=
  try foundKeysFile <- hasBackendFile (Join [dir; defaultLayoutPaths KeyFile]);
  try foundKeyFile <- hasBackendFile (Join [dir; s3LayoutPaths KeyFile]);
  if foundKeysFile && negb foundKeyFile then Ok (DefaultLayout (mkLayout "" dir Join))
  else if foundKeyFile && negb foundKeysFile then Ok (S3LegacyLayout (mkLayout "" dir Join))
  else Err ErrLayoutDetectionFailed.

(** The names of layouts; [None] is the empty string, which asks for detection. *)
Definition parse_name (layout path : string) : option (outcome Layout) :=
  if String.eqb layout "default" then Some (Ok (DefaultLayout (mkLayout "" path Join)))
  else if String.eqb layout "s3legacy" then Some (Ok (S3LegacyLayout (mkLayout "" path Join)))
  else if String.eqb layout "" then None
  else Some (Err (ErrMsg "unknown backend layout string %q, may be one of: default, s3legacy")).

Definition ParseLayout (layout defaultLayout path : string) : outcome Layout :=
  match parse_name layout path with
  | Some r => r
  | None =>
      match DetectLayout path with
      | Err e =>
          if error_Is e ErrLayoutDetectionFailed && negb (String.eqb defaultLayout "")
          then match parse_name defaultLayout path with Some r => r | None => Err e end
          else Err e
      | r => r
      end
  end.
End Detect.

(** * File names are unique *)

(** A property of every element of a concrete list. *)
Ltac forall_list := repeat first [apply Forall_nil_2 | apply Forall_cons_2; [done|]].

(** The handles a repository uses: a known type, and the name of an ID unless it is
    the config. *)
Definition repo_handle (h : Handle) : Prop :=
  h_Type h = ConfigFile \/ (h_Type h ∈ layoutTypes /\ exists id, h_Name h = ID_String id).

(** The components a layout adds to its path. *)
Definition type_dir (l : Layout) (t : FileType) : string :=
  match l with S3LegacyLayout _ => s3LayoutPaths t | _ => defaultLayoutPaths t end.
Definition file_comps (l : Layout) (h : Handle) : list string :=
  if Z.eqb (h_Type h) ConfigFile then ["config"]
  else match l with
       | DefaultLayout _ => if Z.eqb (h_Type h) PackFile then ["data"; take_bytes 2 (h_Name h); h_Name h] else [type_dir l (h_Type h); h_Name h]
       | _ => [type_dir l (h_Type h); h_Name h]
       end.

(** What every layout computes: the components after its path. *)
Definition layout_spec (l : Layout) (F : Handle -> string) : Prop :=
  exists prefix root base, clean_stack root base /\
    forall h, repo_handle h -> F h = prefix +:+ render root (rev base ++ file_comps l h).

(** Characters of hexadecimal digits. *)
Fixpoint hex_chars (s : string) : bool :=
  match s with EmptyString => true | String.String c s => negb (Ascii.eqb c slash) && negb (is_code 46 c) && hex_chars s end.

Lemma hex_chars_encode bs : hex_chars (hex_encode bs) = true.
Proof.
  induction bs as [|b bs IH]; [done|]. cbn [hex_encode hex_chars]. rewrite IH, andb_true_r.
  assert (forall n, negb (Ascii.eqb (hex_digit n) slash) && negb (is_code 46 (hex_digit n)) = true) as H.
  { intros n. unfold hex_digit. match goal with |- context [nth ?n ?l ?d] => destruct (nth_in_or_default n l d) as [Hin| ->]; [|done] end.
    by repeat (destruct Hin as [<-|Hin]; [done|]). }
  by rewrite !H.
Qed.

Lemma hex_chars_good s : hex_chars s = true -> s <> "" -> good_comp s.
Proof.
  intros Hs Hne. split_and!; [done|intros ->; done|intros ->; done|]. clear Hne.
  induction s as [|c s IH]; [done|]. cbn in *. apply andb_true_iff in Hs as [[Hc%negb_true_iff _]%andb_true_iff Hs]. by rewrite Hc, IH.
Qed.

Lemma hex_chars_take n s : hex_chars s = true -> hex_chars (take_bytes n s) = true.
Proof. revert s; induction n as [|n IH]; intros [|c s]; cbn; [done..|]. intros [-> Hs]%andb_true_iff. by rewrite IH. Qed.

Lemma ID_String_good id : good_comp (ID_String id) /\ good_comp (take_bytes 2 (ID_String id)) /\ (2 <? String.length (ID_String id)) = true.
Proof.
  pose proof (hex_chars_encode (id_bytes id)) as Hh. assert (String.length (ID_String id) = 64) as Hl by (unfold ID_String; by rewrite length_hex_encode, length_id_bytes).
  fold (ID_String id) in Hh. split_and!; [apply hex_chars_good; [done|by destruct (ID_String id)]| |by rewrite Hl].
  apply hex_chars_good; [by apply hex_chars_take|]. by destruct (ID_String id).
Qed.

Lemma type_dir_good l t : t ∈ layoutTypes -> good_comp (type_dir l t).
Proof. unfold layoutTypes. rewrite !elem_of_cons, elem_of_nil. intros [->|[->|[->|[->|[->|[]]]]]]; destruct l; done. Qed.

Lemma file_comps_good l h : repo_handle h -> Forall good_comp (file_comps l h).
Proof.
  unfold file_comps. intros [->|[Ht [id Hn]]]; [by forall_list|]. rewrite Hn. pose proof (ID_String_good id) as (H1 & H2 & _).
  pose proof (type_dir_good l _ Ht). destruct (Z.eqb _ ConfigFile); [by forall_list|]. destruct l; [|by forall_list..].
  destruct (Z.eqb _ PackFile); by forall_list.
Qed.

Lemma file_comps_inj l h1 h2 : repo_handle h1 -> repo_handle h2 -> file_comps l h1 = file_comps l h2 -> canon h1 = canon h2.
Proof.
  unfold repo_handle, layoutTypes. rewrite !elem_of_cons, !elem_of_nil. destruct h1 as [t1 m1 n1], h2 as [t2 m2 n2]. unfold file_comps, canon. cbn [h_Type h_Name].
  intros [->|[Ht1 _]] [->|[Ht2 _]]; [done|..]; cbn;
    repeat match goal with H : _ \/ _ |- _ => destruct H as [->|H] end; try done; destruct l; cbn; intros E; by simplify_eq.
Qed.

(** Joining a path with further elements. *)
Lemma path_Join_elems path items :
  Forall (fun e => e <> "") items -> items <> [] ->
  let root := if String.eqb path "" then elems_root items else rooted path in
  let base := if String.eqb path "" then [] else elems_stack [path] in
  clean_stack root base /\ path_Join (path :: items) = render root (rev (clean_fold root (concat (split_on slash <$> items)) base)).
Proof.
  intros Hi Hne. destruct (String.eqb_spec path "") as [->|Hp]; cbn zeta.
  - split; [done|]. by rewrite path_Join_empty, path_Join_render.
  - pose proof (elems_stack_clean [path]) as Hc. split; [done|]. rewrite path_Join_render; [|by constructor|done].
    f_equal. f_equal. unfold elems_stack. cbn [elems_root]. rewrite !fmap_cons. cbn [concat]. rewrite clean_fold_app. cbn [concat fmap list_fmap]. by rewrite app_nil_r.
Qed.

Lemma clean_fold_items root items base :
  Forall good_comp items -> clean_fold root (concat (split_on slash <$> items)) base = rev items ++ base.
Proof.
  intros Hg. rewrite <- clean_fold_good with (root := root) by done. f_equal.
  induction Hg as [|c l (_ & _ & _ & Hc) _ IH]; [done|]. rewrite fmap_cons. cbn [concat]. by rewrite IH, split_on_single.
Qed.

Lemma good_nonempty items : Forall good_comp items -> Forall (fun e => e <> "") items.
Proof. intros H. eapply Forall_impl; [exact H|]. by intros ? [? _]. Qed.

(** A directory with a trailing slash, joined with a name. *)
Lemma path_Join_dir root out name :
  clean_stack root out -> good_comp name -> path_Join [render root (rev out) +:+ "/"; name] = render root (rev out ++ [name]).
Proof.
  intros Hs Hn. destruct (render_clean _ _ Hs) as (Hne & Hr & Hf).
  rewrite path_Join_render; [|repeat apply Forall_cons_2; [by destruct (render root (rev out))|by destruct Hn|apply Forall_nil_2]|done].
  unfold elems_stack, elems_root. rewrite !fmap_cons. cbn [concat fmap list_fmap].
  rewrite rooted_app, Hr by done. change "/" with (String.String slash ""). rewrite split_on_app, !clean_fold_app, Hf.
  change (clean_fold root (split_on slash "") out) with out. rewrite split_on_single by apply Hn. cbn [app].
  change (clean_fold root [] ?x) with x. rewrite clean_fold_good by by forall_list. done.
Qed.

Lemma clean_stack_good root comps base : Forall good_comp comps -> clean_stack root base -> clean_stack root (rev comps ++ base).
Proof.
  intros Hg Hb. apply Forall_rev in Hg. induction Hg as [|c l Hc _ IH]; [done|]. cbn. split; [done|]. by left.
Qed.

Definition path_root (path : string) (next : bool) : bool := if String.eqb path "" then next else rooted path.
Definition path_base (path : string) : list string := if String.eqb path "" then [] else elems_stack [path].

Lemma path_base_clean path next : clean_stack (path_root path next) (path_base path).
Proof. unfold path_root, path_base. destruct (String.eqb path ""); [done|]. apply (elems_stack_clean [path]). Qed.

Lemma path_Join_good path items :
  Forall good_comp items -> items <> [] -> path_Join (path :: items) = render (path_root path false) (rev (path_base path) ++ items).
Proof.
  intros Hg Hne. destruct (path_Join_elems path items (good_nonempty _ Hg) Hne) as [_ ->].
  rewrite clean_fold_items, rev_app_distr, rev_involutive by done. unfold path_root, path_base.
  replace (elems_root items) with false; [done|]. destruct items as [|c items]; [done|]. apply Forall_cons in Hg as [(_ & _ & _ & Hc) _]. symmetry. by apply rooted_slashfree.
Qed.

(** The directory of a pack, whose name ends in a slash. *)
Lemma path_Join_pack_dir path pre :
  good_comp pre -> path_Join [path; path_Join ["data"; pre] +:+ "/"] = render (path_root path false) (rev (path_base path) ++ ["data"; pre]).
Proof.
  intros Hp. rewrite (path_Join_good "data" [pre]) by by forall_list.
  change (render (path_root "data" false) (rev (path_base "data") ++ [pre])) with ("data" +:+ String.String slash pre).
  destruct (path_Join_elems path [("data" +:+ String.String slash pre) +:+ "/"]) as [_ ->]; [by forall_list|done|].
  change (elems_root [("data" +:+ String.String slash pre) +:+ "/"]) with false. fold (path_root path false) (path_base path). f_equal.
  rewrite fmap_cons. cbn [concat fmap list_fmap]. rewrite app_nil_r.
  change "/" with (String.String slash ""). rewrite split_on_app, split_on_app, !clean_fold_app, (split_on_single pre) by apply Hp.
  change (clean_fold _ (split_on slash "") ?x) with x. change (split_on slash "data") with ["data"].
  rewrite <- clean_fold_app, clean_fold_good by by forall_list. rewrite rev_app_distr. done.
Qed.

Lemma repo_handle_file h : repo_handle h -> h_Type h <> ConfigFile -> h_Type h ∈ layoutTypes /\ exists id, h_Name h = ID_String id.
Proof. by intros [?|?]. Qed.

Lemma Filename_Default_render p url h :
  repo_handle h ->
  Filename (DefaultLayout (mkLayout url p path_Join)) h = render (path_root p false) (rev (path_base p) ++ file_comps (DefaultLayout (mkLayout url p path_Join)) h).
Proof.
  intros Hh.
  unfold Filename, DefaultLayout_Filename, DefaultLayout_Dirname, file_comps. cbn [l_Join l_Path type_dir].
  destruct (Z.eqb_spec (h_Type h) ConfigFile) as [_|Hc]; [apply path_Join_good; [by forall_list|done]|].
  destruct (repo_handle_file h Hh Hc) as [Ht [id Hn]]. destruct (ID_String_good id) as (H1 & H2 & Hl). rewrite Hn, Hl.
  pose proof (type_dir_good (DefaultLayout (mkLayout url p path_Join)) _ Ht) as Hd. cbn [type_dir] in Hd.
  pose proof (path_base_clean p false) as Hb.
  destruct (Z.eqb_spec (h_Type h) PackFile) as [E|_]; cbn [andb].
  - rewrite E. change (defaultLayoutPaths PackFile) with "data". rewrite path_Join_pack_dir by done.
    replace (rev (path_base p) ++ ["data"; take_bytes 2 (ID_String id)]) with (rev (take_bytes 2 (ID_String id) :: "data" :: path_base p)) by (cbn [rev]; by rewrite <- app_assoc).
    etransitivity; [apply path_Join_dir; [|done]|cbn [rev]; by rewrite <- !app_assoc].
    apply (clean_stack_good _ ["data"; take_bytes 2 (ID_String id)]); [by forall_list|done].
  - rewrite (path_Join_good p [_]) by by forall_list. change (rev (path_base p) ++ [defaultLayoutPaths (h_Type h)]) with (rev (defaultLayoutPaths (h_Type h) :: path_base p)).
    etransitivity; [apply path_Join_dir; [|done]|cbn [rev]; by rewrite <- !app_assoc]. by apply (clean_stack_good _ [defaultLayoutPaths (h_Type h)]); [forall_list|].
Qed.

Lemma Filename_Default p url : layout_spec (DefaultLayout (mkLayout url p path_Join)) (Filename (DefaultLayout (mkLayout url p path_Join))).
Proof. exists "", (path_root p false), (path_base p). split; [apply path_base_clean|]. intros h Hh. by apply Filename_Default_render. Qed.

Lemma path_Join_drop_empty items : path_Join (drop_empty items) = path_Join items.
Proof.
  induction items as [|s items IH]; [done|]. cbn [drop_empty]. destruct (String.eqb_spec s "") as [->|]; [|done]. by rewrite path_Join_empty.
Qed.

Lemma path_Join_skip a items : path_Join (a :: "" :: items) = path_Join (a :: items).
Proof. unfold path_Join. rewrite !(filter_cons _ a), filter_cons, (decide_False (P := "" <> "")) by (intros []; done). done. Qed.

Lemma Filename_S3 p url : layout_spec (S3LegacyLayout (mkLayout url p path_Join)) (Filename (S3LegacyLayout (mkLayout url p path_Join))).
Proof.
  set (l := S3LegacyLayout (mkLayout url p path_Join)). pose proof (path_base_clean p false) as Hb.
  exists (if negb (path_root p false) && negb (String.eqb url "") && negb (ends_with_slash url) then url +:+ "/" else url), (path_root p false), (path_base p).
  split; [done|]. intros h Hh. pose proof (file_comps_good l h Hh) as Hg. cbn [Filename l]. unfold S3LegacyLayout_Filename, s3_join. cbn [l_Join l_Path l_URL].
  assert (path_Join (drop_empty [p; s3LayoutPaths (h_Type h); (if Z.eqb (h_Type h) ConfigFile then "config" else h_Name h)]) =
    render (path_root p false) (rev (path_base p) ++ file_comps l h)) as ->.
  { rewrite path_Join_drop_empty. rewrite <- path_Join_good; [|done|by unfold file_comps; cbn [l type_dir]; case_if]. unfold file_comps. cbn [l type_dir].
    destruct (Z.eqb_spec (h_Type h) ConfigFile) as [->|]; [apply path_Join_skip|done]. }
  destruct (render_clean (path_root p false) (rev (file_comps l h) ++ path_base p)) as (_ & Hr & _); [by apply clean_stack_good|].
  rewrite rev_app_distr, rev_involutive in Hr. by rewrite Hr.
Qed.

Lemma Filename_REST p url : layout_spec (RESTLayout (mkLayout url p path_Join)) (Filename (RESTLayout (mkLayout url p path_Join))).
Proof.
  set (l := RESTLayout (mkLayout url p path_Join)). pose proof (path_base_clean p true) as Hb.
  exists url, (path_root p true), (path_base p). split; [done|]. intros h Hh. pose proof (file_comps_good l h Hh) as Hg. cbn [Filename l]. unfold RESTLayout_Filename. cbn [l_Join l_Path l_URL].
  f_equal. transitivity (path_Join (p :: "/" :: file_comps l h)).
  { unfold file_comps, restLayoutPaths. cbn [l type_dir]. destruct (Z.eqb_spec (h_Type h) ConfigFile) as [->|]; [|done].
    unfold path_Join. rewrite !(filter_cons _ p), !(filter_cons _ "/"). done. }
  destruct (path_Join_elems p ("/" :: file_comps l h)) as [_ ->]; [apply Forall_cons_2; [done|by apply good_nonempty]|done|].
  fold (path_base p). change (elems_root ("/" :: file_comps l h)) with true. fold (path_root p true). f_equal.
  rewrite fmap_cons. cbn [concat]. rewrite clean_fold_app. change (clean_fold _ (split_on slash "/") ?x) with x.
  by rewrite clean_fold_items, rev_app_distr, rev_involutive.
Qed.

Lemma string_app_inj a b c : a +:+ b = a +:+ c -> b = c.
Proof. induction a as [|x a IH]; [done|]. intros E. apply IH. by injection E. Qed.

(** * Correctness *)

(** In every layout, two files of a repository with different handles are
    stored under different names, whatever its path is. *)
Theorem Filename_injective (L : layout -> Layout) url path h1 h2 :
  L = DefaultLayout \/ L = RESTLayout \/ L = S3LegacyLayout ->
  repo_handle h1 -> repo_handle h2 ->
  Filename (L (mkLayout url path path_Join)) h1 = Filename (L (mkLayout url path path_Join)) h2 ->
  canon h1 = canon h2.
Proof.
  intros HL Hh1 Hh2. set (l := L (mkLayout url path path_Join)).
  assert (layout_spec l (Filename l)) as (prefix & root & base & Hb & HF).
  { unfold l. destruct HL as [->|[->| ->]]; [apply Filename_Default|apply Filename_REST|apply Filename_S3]. }
  rewrite !HF by done. intros E%string_app_inj. apply (file_comps_inj l); [done..|].
  assert (forall h, repo_handle h -> Forall (fun c => has_slash c = false) (rev base ++ file_comps l h) /\ rev base ++ file_comps l h <> []) as Hok.
  { intros h Hh. pose proof (file_comps_good l h Hh) as Hg. split.
    - apply Forall_app. split; [eapply Forall_impl; [exact (clean_stack_comps root base Hb)|by intros ? [? _]]|].
      eapply Forall_impl; [done|]. by intros ? (_ & _ & _ & ?).
    - intros [_ Hn]%app_eq_nil. unfold file_comps in Hn. by repeat case_match. }
  apply render_inj in E; [by apply app_inv_head in E|apply Hok; done..].
Qed.

Lemma Filename_injective_witness :
  let h := mkHandle PackFile false (ID_String (copy_id [])) in let k := mkHandle PackFile true (ID_String (copy_id [])) in
  repo_handle h /\ repo_handle k /\ canon h = canon k.
Proof.
  assert (forall m, repo_handle (mkHandle PackFile m (ID_String (copy_id [])))) as H.
  { intros m. right. split; [left|by eexists]. }
  split; [apply H|]. split; [apply H|].
  apply (Filename_injective DefaultLayout "" "/srv/repo"); [by left|apply H|apply H|reflexivity].
Defined.
