(* ===== verification/Retry.v ===== *)
(** The backend that retries failed operations (src/backend/retry/backend_retry.go,
    src/backend/rewind_reader.go).

    [backoff.RetryNotify] is a parameter; [attempts] says what it documents: it
    runs the operation until it succeeds, its error is permanent, the context is
    cancelled or it gives up.  The backend below works on a world [W] and may fail
    at any time; a [nil] error is [None]. *)

From S2P Require Import Prelude Bytes Restic Backend.

#[local] Open Scope Z_scope.

(** * Readers that can be rewound *)

Class RewindReader (R : Type) := {
  Rewind : R -> R * option error;
  Length : R -> Z;
  unread : R -> list byte }.

Class RewindReaderLaws (R : Type) `{RewindReader R} := {
  content : R -> list byte;
  law_Rewind : forall r r' e, Rewind r = (r', e) -> content r' = content r /\ (e = None -> unread r' = content r) }.

Record ByteReader := mkByteReader { br_buf : list byte; br_pos : Z; br_Len : Z; br_hash : option (list byte) }.

Definition ByteReader_Rewind (b : ByteReader) : ByteReader * option error :=
  (mkByteReader (br_buf b) 0 (br_Len b) (br_hash b), None).
Definition NewByteReader (buf : list byte) (hasher : option (list byte -> list byte)) : ByteReader :=
  mkByteReader buf 0 (zlen buf) ((fun h => h buf) <$> hasher).

#[export] Instance ByteReader_RewindReader : RewindReader ByteReader := {
  Rewind := ByteReader_Rewind; Length := br_Len; unread := fun b => slice_from (br_buf b) (br_pos b) }.
#[export] Program Instance ByteReader_Laws : RewindReaderLaws ByteReader := {| content := br_buf |}.
Next Obligation. intros r r' e [= <- <-]. done. Qed.

(** * What [RetryNotify] promises *)

Inductive attempts {St : Type} (ctx : St -> option error) (op : St -> St * option error) (notify : St -> error -> St)
    : nat -> St -> St -> option error -> Prop :=
  | attempt_ok n s s' : op s = (s', None) -> attempts ctx op notify n s s' None
  | attempt_permanent n s s' e : op s = (s', Some (Permanent e)) -> attempts ctx op notify n s s' (Some e)
  | attempt_give_up n s s' e : op s = (s', Some e) -> is_permanent e = false -> attempts ctx op notify n s s' (Some e)
  | attempt_cancelled n s s' e c : op s = (s', Some e) -> ctx s' = Some c -> attempts ctx op notify n s s' (Some c)
  | attempt_wait_cancelled n s s' e c : op s = (s', Some e) -> is_permanent e = false ->
      attempts ctx op notify n s (notify s' e) (Some c)
  | attempt_again n s s1 s' e r : op s = (s1, Some e) -> is_permanent e = false -> ctx s1 = None ->
      attempts ctx op notify n (notify s1 e) s' r -> attempts ctx op notify (S n) s s' r.

(** An invariant that the operation and the notification keep. *)
Lemma attempts_inv {St} ctx op notify (P : St -> Prop) n s s' r :
  (forall s s' e, P s -> op s = (s', e) -> P s') -> (forall s e, P s -> P (notify s e)) ->
  attempts ctx op notify n s s' r -> P s -> P s'.
Proof. intros Hop Hno. induction 1; intros Hs; eauto. Qed.

(** * The retrying backend *)

(** [Report] and [Success] are callbacks; what they are told is recorded. *)
Inductive event :=
  | Reported (msg : string) (e : error)
  | Succeeded (msg : string) (retries : nat).

(** The operations of the backend below, whose callbacks work on a state of
    their own; [IsNotExist] is false for a [nil] error. *)
Class Flaky (W R : Type) := {
  f_Save : W -> Handle -> R -> (W * R) * option error;
  f_Load : forall St : Type, W -> Handle -> Z -> Z -> (St -> list byte -> St * option error) -> St -> (W * St) * option error;
  f_Stat : W -> Handle -> W * (FileInfo * option error);
  f_Remove : W -> Handle -> W * option error;
  f_List : forall St : Type, W -> FileType -> (St -> FileInfo -> St * option error) -> St -> (W * St) * option error;
  f_IsNotExist : error -> bool;
  f_HasAtomicReplace : bool;
  ctx_Err : W -> option error }.

Section Retry.
Context {W R : Type} `{RewindReader R} `{Flaky W R}.
Context (RetryNotify : forall St : Type, (St -> option error) -> nat -> (St -> St * option error) -> (St -> error -> St) -> St -> St * option error).

Record retryBackend := mkRetry { MaxTries : nat; Report : bool; Success : bool }.
Context (be : retryBackend).

Definition retryNotifyErrorWithSuccess {St : Type} (ctx : St -> option error) (operation : St -> St * option error)
    (maxTries : nat) (notify : St -> error -> St) (success : option (St -> nat -> St)) (s : St) : St * option error :=
  match success with
  | None => RetryNotify St ctx maxTries operation notify s
  | Some success =>
      let operationWrapper := fun '(s, retries) =>
        let '(s, err) := operation s in
        match err with
        | Some e => ((s, S retries), Some e)
        | None => ((if Nat.ltb 0 retries then success s retries else s, retries), None)
        end in
      let '((s, _), err) := RetryNotify (St * nat) (fun '(s, _) => ctx s) maxTries operationWrapper (fun '(s, n) e => (notify s e, n)) (s, O) in
      (s, err)
  end.

Definition retry {St : Type} (ctx : St -> option error) (msg : string) (f : St -> St * option error) (st : St * list event) : (St * list event) * option error :=
  match ctx st.1 with
  | Some e => (st, Some e)
  | None =>
      retryNotifyErrorWithSuccess (fun st => ctx st.1)
        (fun '(s, log) => let '(s, err) := f s in ((s, log), err))
        (MaxTries be)
        (fun '(s, log) err => (s, if Report be then log ++ [Reported msg err] else log))
        (Some (fun '(s, log) retries => (s, if Success be then log ++ [Succeeded msg retries] else log)))
        st
  end.

Definition Save (h : Handle) (st : (W * R) * list event) : ((W * R) * list event) * option error :=
  retry (fun '(w, _) => ctx_Err w) "Save(%v)" (fun '(w, rd) =>
    let '(rd, err) := Rewind rd in
    match err with
    | Some e => ((w, rd), Some e)
    | None =>
        let '((w, rd), err) := f_Save w h rd in
        match err with
        | None => ((w, rd), None)
        | Some e =>
            if f_HasAtomicReplace (R := R) then ((w, rd), Some e)
            else let '(w, rerr) := f_Remove (R := R) w h in ((w, rd), Some e)
        end
    end) st.

Definition Load {St : Type} (h : Handle) (length_ offset : Z) (consumer : St -> list byte -> St * option error) (st : (W * St) * list event) : ((W * St) * list event) * option error :=
  retry (fun '(w, _) => ctx_Err (R := R) w) "Load(%v, %v, %v)" (fun '(w, s) =>
    let '((w, s), err) := f_Load (R := R) St w h length_ offset consumer s in
    match err with
    | Some e => ((w, s), Some (if f_IsNotExist (W := W) (R := R) e then Permanent e else e))
    | None => ((w, s), None)
    end) st.

Definition Stat (h : Handle) (st : W * list event) : ((W * FileInfo) * list event) * option error :=
  retry (fun '(w, _) => ctx_Err (R := R) w) "Stat(%v)" (fun '(w, _) =>
    let '(w, (fi, innerError)) := f_Stat (R := R) w h in
    match innerError with
    | Some e => ((w, fi), Some (if f_IsNotExist (W := W) (R := R) e then Permanent e else e))
    | None => ((w, fi), None)
    end) ((st.1, mkFileInfo 0 ""), st.2).

Definition Remove (h : Handle) (st : W * list event) : (W * list event) * option error :=
  retry (ctx_Err (R := R)) "Remove(%v)" (fun w => f_Remove (R := R) w h) st.

(** The variables of [List]: the files [fn] was called for, its last error, and
    whether the context of the listing is cancelled. *)
Record listState (F : Type) := mkList { ls_listed : gset string; ls_innerErr : option error; ls_cancelled : bool; ls_fn : F }.
Arguments mkList {F}. Arguments ls_listed {F}. Arguments ls_innerErr {F}. Arguments ls_cancelled {F}. Arguments ls_fn {F}.

Definition list_callback {F : Type} (fn : F -> FileInfo -> F * option error) (s : listState F) (fi : FileInfo) : listState F * option error :=
  if bool_decide (fi_Name fi ∈ ls_listed s) then (s, None)
  else
    let listed := {[fi_Name fi]} ∪ ls_listed s in
    let '(f, innerErr) := fn (ls_fn s) fi in
    (mkList listed innerErr (match innerErr with Some _ => true | None => ls_cancelled s end) f, innerErr).

Definition List {F : Type} (t : FileType) (fn : F -> FileInfo -> F * option error) (st : (W * F) * list event) : ((W * F) * list event) * option error :=
  let '((w, f), log) := st in
  let '(((w, s), log), err) := retry
    (fun '(w, s) => if ls_cancelled s then Some (ErrMsg "context canceled") else ctx_Err (R := R) w) "List(%v)"
    (fun '(w, s) => f_List (R := R) (listState F) w t (list_callback fn) s)
    ((w, mkList ∅ None false f), log) in
  (((w, ls_fn s), log), match ls_innerErr s with Some e => Some e | None => err end).
End Retry.
Arguments mkList {F}.
Arguments ls_listed {F}.
Arguments ls_innerErr {F}.
Arguments ls_cancelled {F}.
Arguments ls_fn {F}.

(** * What the backend below promises *)

(** The calls of a callback in sequence, up to its first error. *)
Fixpoint run_list {St A : Type} (cb : St -> A -> St * option error) (s : St) (l : list A) : St * option error :=
  match l with
  | [] => (s, None)
  | x :: l => let '(s, e) := cb s x in match e with Some e => (s, Some e) | None => run_list cb s l end
  end.

(** A failed [Save] or [Remove] may leave anything at its own handle.  [List]
    calls its callback for some files, ends with an error when the callback fails,
    and has listed all files when it ends without one. *)
Class FlakyLaws (W R : Type) `{RewindReaderLaws R} `{!Flaky W R} := {
  f_files : W -> gmap Handle (list byte);
  flaky_Save : forall w h rd w' rd' e, f_Save w h rd = ((w', rd'), e) -> content rd' = content rd /\
    match e with
    | None => f_files w' = <[canon h := unread rd]> (f_files w)
    | Some _ => delete (canon h) (f_files w') = delete (canon h) (f_files w)
    end;
  flaky_Remove : forall w h w' e, f_Remove (R := R) w h = (w', e) -> delete (canon h) (f_files w') = delete (canon h) (f_files w);
  flaky_List : forall (St : Type) w t (cb : St -> FileInfo -> St * option error) s w' s' e,
    f_List (R := R) St w t cb s = ((w', s'), e) ->
    f_files w' = f_files w /\ exists fis e', run_list cb s fis = (s', e') /\ (e' <> None -> e <> None) /\
      (e = None -> forall name, is_Some (f_files w !! mkHandle t false name) -> name ∈ fi_Name <$> fis) }.

Section Facts.
Context {W R : Type} `{RewindReaderLaws R} `{!Flaky W R} `{!FlakyLaws W R}.
Context (RetryNotify : forall St : Type, (St -> option error) -> nat -> (St -> St * option error) -> (St -> error -> St) -> St -> St * option error).
Hypothesis RetryNotify_attempts : forall (St : Type) ctx n op notify (s : St) s' r,
  RetryNotify St ctx n op notify s = (s', r) -> attempts ctx op notify n s s' r.
Context (be : retryBackend).

(** Reasoning about attempts: [P] holds before every attempt, [E] when an
    attempt has failed, [Q] when one has succeeded. *)
Lemma attempts_rule {St : Type} ctx op notify (P E Q : St -> Prop) n s s' r :
  (forall s s' e, P s -> op s = (s', e) -> match e with None => Q s' | Some _ => E s' /\ (ctx s' = None -> P s') end) ->
  (forall s e, P s -> P (notify s e)) -> (forall s e, E s -> E (notify s e)) ->
  attempts ctx op notify n s s' r -> P s -> (r = None /\ Q s') \/ (exists e, r = Some e /\ E s').
Proof.
  intros Hop HnP HnE Ha. induction Ha as [n s s' Ho|n s s' e Ho|n s s' e Ho _|n s s' e c Ho _|n s s' e c Ho _|n s s1 s' e r Ho _ Hc _ IH]; intros HP;
    pose proof (Hop _ _ _ HP Ho) as Hr; cbn in Hr; [by left|..]; [by right; eexists; split; [done|apply HnE || idtac; apply Hr]..|].
  apply IH, HnP, Hr, Hc.
Qed.

Lemma retry_rule {St : Type} ctx msg (f : St -> St * option error) (P E Q : St -> Prop) s log s' log' r :
  (forall s s' e, P s -> f s = (s', e) -> match e with None => Q s' | Some _ => E s' /\ (ctx s' = None -> P s') end) ->
  P s -> E s ->
  retry RetryNotify be ctx msg f (s, log) = ((s', log'), r) -> (r = None /\ Q s') \/ (exists e, r = Some e /\ E s').
Proof using RetryNotify_attempts.
  intros Hf HP HE. unfold retry. cbn [fst]. destruct (ctx s) as [c|]; [intros [= <- <- <-]; right; by exists c|].
  unfold retryNotifyErrorWithSuccess. destruct (RetryNotify _ _ _ _ _ _) as [[[s1 log1] k] r1] eqn:ER. intros [= <- <- <-].
  apply RetryNotify_attempts in ER.
  eapply (attempts_rule _ _ _ (fun st => P st.1.1) (fun st => E st.1.1) (fun st => Q st.1.1)) in ER; [done| | | |done].
  - intros [[s2 l2] k2] s3 e HP2 Ho. destruct (f s2) as [s4 [e4|]] eqn:Ef; simplify_eq/=; pose proof (Hf _ _ _ HP2 Ef) as Hr; [done|].
    destruct (Nat.ltb 0 k2); done.
  - by intros [[s2 l2] k2] e.
  - by intros [[s2 l2] k2] e.
Qed.

(** C23. Saving through the retrying backend stores the whole content of the reader
    when it succeeds, however far failed attempts had read, and never touches
    another file. *)
Theorem Save_stores_content w rd h log w' rd' log' r :
  Save RetryNotify be h ((w, rd), log) = (((w', rd'), log'), r) ->
  delete (canon h) (f_files w') = delete (canon h) (f_files w) /\
  (r = None -> f_files w' !! canon h = Some (content rd)).
Proof using RetryNotify_attempts.
  unfold Save. intros E.
  eapply (retry_rule _ _ _
    (fun '(w1, rd1) => content rd1 = content rd /\ delete (canon h) (f_files w1) = delete (canon h) (f_files w))
    (fun '(w1, _) => delete (canon h) (f_files w1) = delete (canon h) (f_files w))
    (fun '(w1, _) => delete (canon h) (f_files w1) = delete (canon h) (f_files w) /\ f_files w1 !! canon h = Some (content rd))) in E; [|clear E|done..].
  { by destruct E as [[-> [??]]|(e & -> & ?)]. }
  intros [w1 rd1] [w2 rd2] e [Hc Hd] Ho. destruct (Rewind rd1) as [rd3 [e3|]] eqn:Er; pose proof (law_Rewind _ _ _ Er) as [Hc3 Hu].
  { simplify_eq. repeat split; congruence. }
  destruct (f_Save w1 h rd3) as [[w4 rd4] [e4|]] eqn:Es; pose proof (flaky_Save _ _ _ _ _ _ Es) as [Hc4 Hf4]; cbn in Hf4.
  - destruct f_HasAtomicReplace; [simplify_eq; repeat split; congruence|].
    destruct (f_Remove w4 h) as [w5 e5] eqn:Erm. apply flaky_Remove in Erm. simplify_eq. repeat split; congruence.
  - simplify_eq. rewrite Hf4, lookup_insert_eq, (Hu eq_refl), delete_insert_eq. split; [done|by rewrite Hc].
Qed.

(** * Listing *)

Lemma run_list_app {St A : Type} (cb : St -> A -> St * option error) s l1 l2 :
  run_list cb s (l1 ++ l2) = let '(s1, e) := run_list cb s l1 in match e with Some e => (s1, Some e) | None => run_list cb s1 l2 end.
Proof. revert s; induction l1 as [|x l1 IH]; intros s; [done|]. cbn. destruct (cb s x) as [s1 [e|]]; [done|apply IH]. Qed.

Section Listing.
Context {F : Type} (fn : F -> FileInfo -> F * option error) (f0 : F).

(** The effect of the calls so far is that of [fn] on a list of files with distinct
    names. *)
Definition called (s : listState F) (calls : list FileInfo) : Prop :=
  run_list fn f0 calls = (ls_fn s, ls_innerErr s) /\ NoDup (fi_Name <$> calls) /\
  (forall name, name ∈ ls_listed s <-> name ∈ fi_Name <$> calls) /\
  ls_cancelled s = match ls_innerErr s with Some _ => true | None => false end.

Lemma called_callback s calls fi s' e :
  called s calls -> ls_innerErr s = None -> list_callback fn s fi = (s', e) ->
  exists calls', called s' (calls ++ calls') /\ ls_innerErr s' = e /\ (e = None -> fi_Name fi ∈ fi_Name <$> (calls ++ calls')).
Proof.
  intros (Hr & Hn & Hl & Hc) Hi. unfold list_callback. case_bool_decide as Hin.
  - intros [= <- <-]. exists []. rewrite app_nil_r. split; [done|]. split; [done|]. intros _. by apply Hl.
  - destruct (fn (ls_fn s) fi) as [f e1] eqn:Ef. intros [= <- <-]. exists [fi]. split; [|split; [done|intros _; rewrite fmap_app; apply elem_of_app; right; by left]].
    rewrite Hi in Hr, Hc. unfold called. cbn [ls_fn ls_innerErr ls_listed ls_cancelled]. split_and!.
    + rewrite run_list_app, Hr. cbn. rewrite Ef. by destruct e1.
    + rewrite fmap_app. apply NoDup_app. split_and!; [done| |apply NoDup_singleton]. intros x Hx Hx'%list_elem_of_singleton. subst x. by apply Hl in Hx.
    + intros name. rewrite fmap_app, elem_of_app, <- Hl, elem_of_union, elem_of_singleton. cbn. rewrite list_elem_of_singleton. tauto.
    + rewrite Hc. by destruct e1.
Qed.

Lemma called_run s calls fis s' e :
  called s calls -> ls_innerErr s = None -> run_list (list_callback fn) s fis = (s', e) ->
  exists calls', called s' (calls ++ calls') /\ ls_innerErr s' = e /\ (e = None -> forall name, name ∈ fi_Name <$> fis -> name ∈ fi_Name <$> (calls ++ calls')).
Proof.
  revert s calls; induction fis as [|fi fis IH]; intros s calls Hcl Hi.
  { intros [= <- <-]. exists []. rewrite app_nil_r. split; [done|]. split; [done|]. intros _ name Hn%elem_of_nil. done. }
  cbn [run_list]. destruct (list_callback fn s fi) as [s1 e1] eqn:Ec. destruct (called_callback _ _ _ _ _ Hcl Hi Ec) as (c1 & Hcl1 & Hi1 & Hin).
  destruct e1 as [e1|]; [intros [= <- <-]; by exists c1|]. intros Hrun.
  destruct (IH _ _ Hcl1 Hi1 Hrun) as (c2 & Hcl2 & Hi2 & Hin2). rewrite <- app_assoc in Hcl2, Hin2. exists (c1 ++ c2). split; [done|]. split; [done|].
  intros He name. rewrite fmap_cons, elem_of_cons. intros [->|Hn]; [|by apply Hin2]. specialize (Hin eq_refl).
  rewrite app_assoc, fmap_app. apply elem_of_app. by left.
Qed.
End Listing.

(** Listing through the retrying backend has the effect of running the callback
    once over files with distinct names, however often the listing below was
    repeated; its error is returned and ends the listing; without an error the
    callback has seen every file. *)
Theorem List_runs_once {F : Type} (fn : F -> FileInfo -> F * option error) (t : FileType) w f log w' f' log' r :
  List RetryNotify be t fn ((w, f), log) = (((w', f'), log'), r) ->
  exists calls e, NoDup (fi_Name <$> calls) /\ run_list fn f calls = (f', e) /\ (e <> None -> r = e) /\
    (r = None -> forall name, is_Some (f_files w !! mkHandle t false name) -> name ∈ fi_Name <$> calls).
Proof using RetryNotify_attempts FlakyLaws0.
  unfold List. destruct (retry _ _ _ _ _ _) as [[[w1 s1] log1] r1] eqn:E. intros [= <- <- <- <-].
  set (E0 := fun st : W * listState F => f_files st.1 = f_files w /\ exists calls, called fn f st.2 calls) in *.
  eapply (retry_rule _ _ _ (fun st => E0 st /\ ls_innerErr st.2 = None) E0
    (fun st => exists calls, called fn f st.2 calls /\ ls_innerErr st.2 = None /\
      forall name, is_Some (f_files w !! mkHandle t false name) -> name ∈ fi_Name <$> calls)) in E.
  - destruct E as [(-> & calls & (Hr & Hn & _) & Hi & Hall)|(e & -> & _ & calls & (Hr & Hn & _))]; cbn [snd] in *.
    + exists calls, None. rewrite Hi in *. done.
    + exists calls, (ls_innerErr s1). split_and!; [done|done|by destruct (ls_innerErr s1)|by destruct (ls_innerErr s1)].
  - clear E. intros [w2 s2] [w3 s3] e [[Hf (calls & Hcl)] Hi] Ho. cbn [fst snd] in *.
    destruct (flaky_List _ _ _ _ _ _ _ _ Ho) as (Hf3 & fis & e' & Hrun & He & Hall).
    destruct (called_run fn f _ _ _ _ _ Hcl Hi Hrun) as (c' & Hcl' & Hi' & Hin). destruct e as [e|]; unfold E0; cbn [fst snd].
    + split; [split; [congruence|by eexists]|]. intros Hc. split; [split; [congruence|by eexists]|].
      destruct Hcl' as (_ & _ & _ & Hcan). rewrite Hcan in Hc. by destruct (ls_innerErr s3).
    + assert (e' = None) as -> by (destruct e'; [by destruct He|done]). exists (calls ++ c'). split_and!; [done|done|].
      intros name Hname. apply Hin, Hall; [done..|]. by rewrite Hf.
  - split; [|done]. split; [done|]. exists []. split_and!; [done|constructor|set_solver|done].
  - split; [done|]. exists []. split_and!; [done|constructor|set_solver|done].
Qed.
End Facts.

(** * A concrete backend that fails

    It fails as a list of flags says: a failed [Save] leaves one byte, a failed
    [List] has listed one file. *)

(** An implementation of [RetryNotify] that satisfies [attempts]. *)
Fixpoint backoff_loop (St : Type) (ctx : St -> option error) (n : nat) (op : St -> St * option error) (notify : St -> error -> St) (s : St) : St * option error :=
  let '(s, err) := op s in
  match err with
  | None => (s, None)
  | Some e =>
      match e with
      | ErrWrap e0 m => if bool_decide (m = "backoff.PermanentError") then (s, Some e0) else
          match n, ctx s with S n, None => backoff_loop St ctx n op notify (notify s e) | _, Some c => (s, Some c) | O, None => (s, Some e) end
      | ErrMsg _ => match n, ctx s with S n, None => backoff_loop St ctx n op notify (notify s e) | _, Some c => (s, Some c) | O, None => (s, Some e) end
      end
  end.

Lemma backoff_loop_attempts (St : Type) ctx n op notify (s s' : St) r :
  backoff_loop St ctx n op notify s = (s', r) -> attempts ctx op notify n s s' r.
Proof.
  revert s; induction n as [|n IH]; intros s; cbn [backoff_loop]; destruct (op s) as [s1 [e|]] eqn:Eo.
  2,4: intros [= <- <-]; by constructor.
  all: destruct e as [m|e0 m]; [|case_bool_decide; [subst; intros [= <- <-]; by apply attempt_permanent|]];
    destruct (ctx s1) eqn:Ec; try (intros [= <- <-]; by eapply attempt_cancelled || (eapply attempt_give_up; [done|])).
  1: intros [= <- <-]; by eapply attempt_give_up.
  1: intros [= <- <-]; eapply attempt_give_up; [done|by apply bool_decide_eq_false].
  all: intros Hl; eapply attempt_again; [done| |done|by apply IH]; try done; by apply bool_decide_eq_false.
Qed.

Record flaky_world := mkWorld { w_files : gmap Handle (list byte); w_fail : list bool }.

Definition next_fails (w : flaky_world) : bool := match w_fail w with b :: _ => b | [] => false end.
Definition with_files (w : flaky_world) (fs : gmap Handle (list byte)) : flaky_world := mkWorld fs (tail (w_fail w)).

Definition flaky_save (w : flaky_world) (h : Handle) (rd : ByteReader) : (flaky_world * ByteReader) * option error :=
  let data := slice_from (br_buf rd) (br_pos rd) in
  if next_fails w
  then ((with_files w (<[canon h := take 1 data]> (w_files w)), mkByteReader (br_buf rd) (br_pos rd + 1) (br_Len rd) (br_hash rd)), Some (ErrMsg "connection lost"))
  else ((with_files w (<[canon h := data]> (w_files w)), mkByteReader (br_buf rd) (zlen (br_buf rd)) (br_Len rd) (br_hash rd)), None).

Definition flaky_names (w : flaky_world) (t : FileType) : list FileInfo :=
  (fun '(h, buf) => mkFileInfo (zlen buf) (h_Name h)) <$> filter (fun e : Handle * list byte => h_Type e.1 = t) (map_to_list (w_files w)).

Definition flaky_list (St : Type) (w : flaky_world) (t : FileType) (cb : St -> FileInfo -> St * option error) (s : St) : (flaky_world * St) * option error :=
  let '(s, e) := run_list cb s (if next_fails w then take 1 (flaky_names w t) else flaky_names w t) in
  ((with_files w (w_files w), s), match e with Some e => Some e | None => if next_fails w then Some (ErrMsg "connection lost") else None end).

#[export] Instance flaky_Flaky : Flaky flaky_world ByteReader := {
  f_Save := flaky_save;
  f_Load := fun St w h length_ offset consumer s => match w_files w !! canon h with Some f => let '(s, e) := consumer s (cut f length_ offset) in ((w, s), e) | None => ((w, s), Some errNotFound) end;
  f_Stat := fun w h => (w, match w_files w !! canon h with Some f => (mkFileInfo (zlen f) (h_Name h), None) | None => (mkFileInfo 0 "", Some errNotFound) end);
  f_Remove := fun w h => (with_files w (delete (canon h) (w_files w)), None);
  f_List := flaky_list;
  f_IsNotExist := mem_IsNotExist;
  f_HasAtomicReplace := false;
  ctx_Err := fun _ => None }.

#[export] Program Instance flaky_Laws : FlakyLaws flaky_world ByteReader := {| f_files := w_files |}.
Next Obligation.
  intros w h rd w' rd' e. unfold f_Save. cbn. unfold flaky_save. destruct (next_fails w); intros [= <- <- <-]; (split; [done|]); [|done].
  cbn. by rewrite delete_insert_eq.
Qed.
Next Obligation. intros w h w' e [= <- <-]. cbn. by rewrite delete_delete_eq. Qed.
Next Obligation.
  intros St w t cb s w' s' e. cbn. unfold flaky_list. set (fis := if next_fails w then _ else _). destruct (run_list cb s fis) as [s1 e1] eqn:E.
  intros [= <- <- <-]. split; [done|]. exists fis, e1. split; [done|]. split; [by destruct e1|].
  destruct e1; [done|]. unfold fis. destruct (next_fails w); [done|]. intros _ name [buf Hb].
  unfold flaky_names. rewrite <- list_fmap_compose. apply list_elem_of_fmap. exists (mkHandle t false name, buf). split; [done|].
  apply list_elem_of_filter. split; [done|]. by apply elem_of_map_to_list.
Qed.

Definition ex_h (name : string) : Handle := mkHandle SnapshotFile false name.

Lemma Save_stores_content_witness :
  let st := Save backoff_loop (mkRetry 3 true true) (ex_h "a") ((mkWorld ∅ [true; true], NewByteReader [x01; x02; x03]%byte None), []) in
  st.2 = None /\ length st.1.2 = 2%nat /\ w_files st.1.1.1 !! ex_h "a" = Some [x01; x02; x03]%byte.
Proof.
  destruct (Save backoff_loop (mkRetry 3 true true) (ex_h "a") ((mkWorld ∅ [true; true], NewByteReader [x01; x02; x03]%byte None), []))
    as [[[w rd] log] r] eqn:E.
  assert (r = None /\ length log = 2%nat) as [Hr Hl] by (vm_compute in E; by simplify_eq).
  split; [done|]. split; [done|].
  destruct (Save_stores_content backoff_loop backoff_loop_attempts (mkRetry 3 true true) _ _ (ex_h "a") _ _ _ _ _ E) as [_ H]. exact (H Hr).
Defined.

Lemma List_runs_once_witness :
  let st := List backoff_loop (mkRetry 3 true true) SnapshotFile (fun (f : list string) fi => (f ++ [fi_Name fi], None))
    ((mkWorld (<[ex_h "a" := []]> (<[ex_h "b" := []]> ∅)) [true; true], []), []) in
  st.2 = None /\ length st.1.1.2 = 2%nat /\ exists calls e, NoDup (fi_Name <$> calls) /\
    run_list (fun (f : list string) fi => (f ++ [fi_Name fi], None)) [] calls = (st.1.1.2, e).
Proof.
  destruct (List backoff_loop (mkRetry 3 true true) SnapshotFile (fun (f : list string) fi => (f ++ [fi_Name fi], None))
    ((mkWorld (<[ex_h "a" := []]> (<[ex_h "b" := []]> ∅)) [true; true], []), [])) as [[[w f] log] r] eqn:E.
  assert (r = None /\ length f = 2%nat) as [Hr Hl] by (vm_compute in E; by simplify_eq).
  split; [done|]. split; [done|].
  destruct (List_runs_once backoff_loop backoff_loop_attempts (mkRetry 3 true true) _ _ _ _ _ _ _ _ _ E) as (calls & e & Hn & Hrun & _). clear E.
  by exists calls, e.
Defined.
