(* ===== verification/PackerManager.v ===== *)
(** The manager of open packs (src/repository/packer_manager.go).

    Temporary files are the writers of the packers: [newWr] is a new, empty
    one, or the error of creating it.  The function that receives full packs is
    a parameter that works on a state [Q].  The manager's mutex serialises its
    operations. *)

From S2P Require Import Prelude Bytes Restic Sets HashedArrayTree IndexMap Index MasterIndex Crypto Pack.

#[local] Open Scope Z_scope.

Section PackerManager.
Context {Wr : Type} (Write : Wr -> list byte -> Wr * Z * option error) (newWr : outcome Wr).
Context {Q : Type} (queueFn : Q -> BlobType -> Packer (Wr := Wr) -> Q * outcome unit).

Record packerManager := mkPM {
  pm_tpe : BlobType;
  pm_key : Key;
  pm_packer : option (Packer (Wr := Wr));
  pm_packSize : Z }.

Definition set_packer (r : packerManager) p := mkPM (pm_tpe r) (pm_key r) p (pm_packSize r).

Definition newPackerManager (key : Key) (tpe : BlobType) (packSize : Z) : packerManager := mkPM tpe key None packSize.

Definition newPacker (r : packerManager) : outcome (Packer (Wr := Wr)) :=
  try wr <- newWr; Ok (NewPacker (pm_key r) wr).

Definition Flush (q : Q) (r : packerManager) : Q * packerManager * outcome unit :=
  match pm_packer r with
  | Some p =>
      let '(q, res) := queueFn q (pm_tpe r) p in
      match res with
      | Ok _ => (q, set_packer r None, Ok tt)
      | _ => (q, r, res)
      end
  | None => (q, r, Ok tt)
  end.

(** [SaveBlob]: the packer used, and whether it is the manager's own.  The
    manager's packer is shared by pointer: what [Add] does to it is seen
    through the manager. *)
Definition choose_packer (r : packerManager) (ciphertext : list byte)
    : outcome (packerManager * Packer (Wr := Wr) * bool) :=
  match pm_packer r with
  | Some p =>
      if pm_packSize r <=? zlen ciphertext
      then try packer <- newPacker r; Ok (r, packer, false)
      else Ok (r, p, true)
  | None => try packer <- newPacker r; Ok (set_packer r (Some packer), packer, true)
  end.

(** The rest of [SaveBlob]: add the blob, and hand the packer over when full. *)
Definition add_to_packer (q : Q) (r : packerManager) (packer : Packer (Wr := Wr)) (own : bool)
    (t : BlobType) (id : ID) (ciphertext : list byte) (uncompressedLength : Z) : Q * packerManager * outcome Z :=
  let '(packer, size, err) := Packer_Add Write packer t id ciphertext uncompressedLength in
  let r := if own then set_packer r (Some packer) else r in
  match err with
  | Some e => (q, r, Err e)
  | None =>
      if (Packer_Size packer <? pm_packSize r) && negb (Packer_HeaderFull packer) then (q, r, Ok size)
      else
        let r := if own then set_packer r None else r in
        let '(q, res) := queueFn q t packer in
        match res with
        | Err e => (q, r, Err e)
        | Panic p => (q, r, Panic p)
        | Ok _ => (q, r, Ok (i64 (size + Packer_HeaderOverhead)))
        end
  end.

Definition SaveBlob (q : Q) (r : packerManager) (t : BlobType) (id : ID) (ciphertext : list byte)
    (uncompressedLength : Z) : Q * packerManager * outcome Z :=
  match choose_packer r ciphertext with
  | Err e => (q, r, Err e)
  | Panic p => (q, r, Panic p)
  | Ok (r, packer, own) => add_to_packer q r packer own t id ciphertext uncompressedLength
  end.
End PackerManager.
Arguments mkPM {Wr}.
Arguments pm_tpe {Wr}.
Arguments pm_key {Wr}.
Arguments pm_packer {Wr}.
Arguments pm_packSize {Wr}.
Arguments set_packer {Wr}.
Arguments newPackerManager {Wr}.

(** * No blob is lost *)

(** The packer that results from a list of calls of [Add]. *)
Definition packer_of (key : Key) (items : list add_args) : Packer (Wr := list byte) :=
  fold_left add_call items (NewPacker key []).

(** The queue: the packers that were handed over. *)
Definition enqueue (q : list (Packer (Wr := list byte))) (_ : BlobType) (p : Packer (Wr := list byte))
    : list (Packer (Wr := list byte)) * outcome unit := (q ++ [p], Ok tt).

Definition save_item (st : list (Packer (Wr := list byte)) * packerManager) (a : add_args)
    : outcome (list (Packer (Wr := list byte)) * packerManager) :=
  let '(q, r) := st in
  match SaveBlob file_Write (Ok []) enqueue q r (aa_t a) (aa_id a) (aa_data a) (aa_ulen a) with
  | (q, r, Ok _) => Ok (q, r)
  | (_, _, Err e) => Err e
  | (_, _, Panic p) => Panic p
  end.

(** The limits a packer stays within: the header is small enough to be read
    back, and the index can hold the offsets. *)
Definition within_limits (items : list add_args) : Prop :=
  zlen (total_data items) < 2 ^ 62 /\ CalculateHeaderSize (add_blobs 0 items) <= MaxHeaderSize /\
  Forall (fun b => b_Offset b < 2 ^ 32) (add_blobs 0 items).

(** A packer that is not yet full. *)
Definition open_items (packSize : Z) (items : list add_args) : Prop :=
  Forall add_ok items /\ zlen (total_data items) <= packSize /\
  headerSize + (zlen items + 1) * entrySize <= MaxHeaderSize.

Lemma length_add_blobs pos l : length (add_blobs pos l) = length l.
Proof. revert pos; induction l; intros pos; cbn; auto. Qed.

Lemma CalculateHeaderSize_bound bs : CalculateHeaderSize bs <= headerSize + zlen bs * entrySize.
Proof.
  rewrite CalculateHeaderSize_entries. induction bs as [|b bs IH]; [vm_compute; discriminate|].
  unfold entries_size in *. cbn [fold_right]. rewrite zlen_cons.
  assert (CalculateEntrySize b <= entrySize) by (unfold CalculateEntrySize; by destruct (negb _)). lia.
Qed.

Section Manager.
Context (packSize : Z) (Hsize : 0 < packSize <= 2 ^ 31).

Lemma total_data_snoc items a : total_data (items ++ [a]) = total_data items ++ aa_data a.
Proof. unfold total_data. rewrite fmap_app, concat_app. cbn [fmap list_fmap concat]. by rewrite app_nil_r. Qed.

Lemma add_blobs_snoc pos items a :
  add_blobs pos (items ++ [a]) = add_blobs pos items ++ [add_blob (pos + zlen (total_data items)) a].
Proof.
  revert pos; induction items as [|x items IH]; intros pos; cbn [add_blobs app].
  - change (zlen (total_data [])) with 0. by rewrite Z.add_0_r.
  - rewrite IH. unfold total_data. rewrite fmap_cons, concat_cons, zlen_app. do 3 f_equal. f_equal. lia.
Qed.

Lemma open_offsets items :
  open_items packSize items -> Forall (fun b => b_Offset b < 2 ^ 32) (add_blobs 0 items).
Proof using Hsize.
  intros (_ & Hd & _). induction items as [|x items IH] using rev_ind; [done|].
  rewrite total_data_snoc, zlen_app in Hd. pose proof (zlen_nonneg (aa_data x)).
  rewrite add_blobs_snoc. apply Forall_app. split; [apply IH; lia|]. constructor; [|done]. cbn. lia.
Qed.

Lemma open_add items a :
  open_items packSize items -> add_ok a -> within_limits (items ++ [a]).
Proof using Hsize.
  intros Ho (Ht & Hl & Hu). pose proof (open_offsets items Ho) as Hoff. destruct Ho as (HF & Hd & Hh).
  split; [|split; [|rewrite add_blobs_snoc; apply Forall_app; split; [done|]; constructor; [cbn; lia|done]]].
  - rewrite total_data_snoc, zlen_app. lia.
  - pose proof (CalculateHeaderSize_bound (add_blobs 0 (items ++ [a]))) as Hb. unfold zlen in *.
    rewrite length_add_blobs, length_app in Hb. cbn [length] in Hb. unfold headerSize, entrySize, headerLengthSize, Extension, ivSize, macSize, MaxHeaderSize in *. lia.
Qed.

Lemma open_nil : open_items packSize [].
Proof using Hsize.
  split; [done|]. split; [change (0 <= packSize); lia|]. vm_compute. discriminate.
Qed.

Lemma packer_of_fields key items :
  Forall add_ok items -> zlen (total_data items) < 2 ^ 62 ->
  pk_blobs (packer_of key items) = add_blobs 0 items /\ pk_bytes (packer_of key items) = zlen (total_data items).
Proof.
  intros HF Hd. destruct (add_calls items (NewPacker key [])) as (E1 & E2 & _); [done|cbn; lia..|].
  cbn in E1, E2. unfold packer_of. by rewrite E1, E2.
Qed.

(** A packer that [SaveBlob] keeps is open. *)
Lemma not_full key items :
  Forall add_ok items -> within_limits items ->
  (Packer_Size (packer_of key items) <? packSize) && negb (Packer_HeaderFull (packer_of key items)) = true ->
  open_items packSize items.
Proof using Hsize.
  intros HF (Hd & Hh & _) Hf. destruct (packer_of_fields key items HF Hd) as [E1 E2].
  apply andb_true_iff in Hf as [Hs Hn]. unfold Packer_Size in Hs. rewrite E2 in Hs. apply Z.ltb_lt in Hs.
  unfold Packer_HeaderFull in Hn. rewrite E1 in Hn. apply negb_true_iff, Z.ltb_ge in Hn.
  unfold zlen in Hn. rewrite length_add_blobs in Hn. fold (zlen items) in Hn.
  split; [done|]. split; [lia|].
  assert (entries_size (add_blobs 0 items) >= zlen items * plainEntrySize) as He.
  { clear. generalize 0 at 1. induction items as [|a items IH]; intros pos; [done|].
    unfold entries_size in *. cbn [add_blobs fold_right]. rewrite zlen_cons.
    assert (plainEntrySize <= CalculateEntrySize (add_blob pos a)) by (unfold CalculateEntrySize; by destruct (negb _)).
    specialize (IH (pos + zlen (aa_data a))). lia. }
  rewrite CalculateHeaderSize_entries in Hh. pose proof (zlen_nonneg items).
  unfold MaxHeaderSize, headerSize, plainEntrySize, entrySize, headerLengthSize, Extension, ivSize, macSize in *.
  rewrite (u64_id (zlen items + 1)) in Hn by (unfold is_u64; lia). rewrite u64_id in Hn by (unfold is_u64; lia). lia.
Qed.

(** The state of a manager: the groups of items already queued, and those in
    the open packer. *)
Definition pm_state (key : Key) (groups : list (list add_args)) (cur : list add_args)
    (st : list (Packer (Wr := list byte)) * packerManager) : Prop :=
  st.1 = packer_of key <$> groups /\
  Forall (fun g => g <> [] /\ Forall add_ok g /\ within_limits g) groups /\
  pm_key st.2 = key /\ pm_packSize st.2 = packSize /\
  pm_packer st.2 = (if bool_decide (cur = []) then None else Some (packer_of key cur)) /\
  open_items packSize cur.

Lemma packer_of_app key items a :
  Packer_Add file_Write (packer_of key items) (aa_t a) (aa_id a) (aa_data a) (aa_ulen a) =
    (packer_of key (items ++ [a]),
     (Packer_Add file_Write (packer_of key items) (aa_t a) (aa_id a) (aa_data a) (aa_ulen a)).1.2, None).
Proof. unfold packer_of. rewrite fold_left_app. done. Qed.

Lemma save_item_ok key groups cur q r a :
  pm_state key groups cur (q, r) -> add_ok a ->
  exists q' r' groups' cur', save_item (q, r) a = Ok (q', r') /\ pm_state key groups' cur' (q', r') /\
    concat groups' ++ cur' ≡ₚ concat groups ++ cur ++ [a].
Proof using Hsize.
  intros (Eq & HG & Ek & Es & Ep & Ho) Ha. cbn [fst snd] in *.
  (* what happens once a packer is chosen *)
  assert (forall r0 items own,
    pm_key r0 = key -> pm_packSize r0 = packSize -> open_items packSize items ->
    (own = false -> packSize <= zlen (aa_data a) /\ items = []) ->
    exists q' r' v,
      add_to_packer file_Write enqueue q r0 (packer_of key items) own (aa_t a) (aa_id a) (aa_data a) (aa_ulen a) = (q', r', Ok v) /\
      ((own = true /\ q' = q /\ r' = set_packer r0 (Some (packer_of key (items ++ [a]))) /\ open_items packSize (items ++ [a])) \/
       (q' = q ++ [packer_of key (items ++ [a])] /\ r' = (if own then set_packer r0 None else r0)))) as Hmain.
  { intros r0 items own Ek0 Es0 Ho0 Hown. unfold add_to_packer. rewrite packer_of_app.
    pose proof (open_add items a Ho0 Ha) as Hlim.
    assert (Forall add_ok (items ++ [a])) as HFa by (apply Forall_app; split; [apply Ho0|by constructor]).
    cbn [enqueue]. assert (pm_packSize (if own then set_packer r0 (Some (packer_of key (items ++ [a]))) else r0) = packSize) as ->
      by by destruct own.
    destruct ((Packer_Size (packer_of key (items ++ [a])) <? packSize) && negb (Packer_HeaderFull (packer_of key (items ++ [a])))) eqn:Hfull; do 3 eexists; (split; [reflexivity|]).
    - left. destruct own; [split_and!; try done; by eapply not_full|].
      destruct Hown as [Hge ->]; [done|]. exfalso. destruct (packer_of_fields key ([] ++ [a]) HFa (proj1 Hlim)) as [_ E2].
      unfold Packer_Size in Hfull. rewrite E2 in Hfull. unfold total_data in Hfull. cbn in Hfull. rewrite app_nil_r in Hfull.
      apply andb_true_iff in Hfull as [Hlt _]. apply Z.ltb_lt in Hlt. lia.
    - right. by destruct own. }
  assert (forall items, open_items packSize items -> items ++ [a] <> [] /\ Forall add_ok (items ++ [a]) /\ within_limits (items ++ [a])) as Hgrp.
  { intros items Hi. split; [by destruct items|]. split; [apply Forall_app; split; [apply Hi|by constructor]|by apply open_add]. }
  unfold save_item, SaveBlob, choose_packer. rewrite Ep, Es. case_bool_decide as Hcur.
  - subst cur. unfold newPacker. cbn [mbind outcome_bind]. rewrite Ek. change (NewPacker key []) with (packer_of key []).
    destruct (Hmain (set_packer r (Some (packer_of key []))) [] true Ek Es open_nil ltac:(done)) as (q' & r' & v & -> & Hres).
    destruct Hres as [(_ & -> & -> & Hopen)|[-> ->]].
    + exists q, (set_packer r (Some (packer_of key [a]))), groups, [a]. split; [done|]. split; [by split_and!|]. solve_Permutation.
    + exists (q ++ [packer_of key [a]]), (set_packer r None), (groups ++ [[a]]), []. split; [done|]. split.
      * split_and!; try done; [by rewrite Eq, fmap_app|]. apply Forall_app. split; [done|]. constructor; [|done]. by apply (Hgrp []).
      * rewrite concat_app. cbn. by rewrite !app_nil_r.
  - destruct (Z.leb_spec packSize (zlen (aa_data a))) as [Hge|Hlt].
    + unfold newPacker. cbn [mbind outcome_bind]. rewrite Ek. change (NewPacker key []) with (packer_of key []).
      destruct (Hmain r [] false Ek Es open_nil ltac:(done)) as (q' & r' & v & -> & Hres).
      destruct Hres as [(? & _)|[-> ->]]; [done|].
      exists (q ++ [packer_of key [a]]), r, (groups ++ [[a]]), cur. split; [done|]. split.
      * split; [by cbn; rewrite Eq, fmap_app|]. split.
        { apply Forall_app. split; [done|]. constructor; [|done]. by apply (Hgrp [] (open_nil)). }
        do 2 (split; [done|]). split; [|done]. cbn [snd]. by rewrite Ep, bool_decide_eq_false_2.
      * rewrite concat_app. cbn. solve_Permutation.
    + destruct (Hmain r cur true Ek Es Ho ltac:(done)) as (q' & r' & v & -> & Hres).
      assert (bool_decide (cur ++ [a] = []) = false) as Hne by (apply bool_decide_eq_false_2; by destruct cur).
      destruct Hres as [(_ & -> & -> & Hopen)|[-> ->]].
      * exists q, (set_packer r (Some (packer_of key (cur ++ [a])))), groups, (cur ++ [a]). split; [done|].
        split; [|solve_Permutation]. split_and!; try done; [by rewrite Hne|apply Hopen..].
      * exists (q ++ [packer_of key (cur ++ [a])]), (set_packer r None), (groups ++ [cur ++ [a]]), []. split; [done|]. split.
        -- split_and!; try done; [by cbn; rewrite Eq, fmap_app| |apply open_nil..]. apply Forall_app. split; [done|]. constructor; [|done]. by apply Hgrp.
        -- rewrite concat_app. cbn. by rewrite !app_nil_r.
Qed.
End Manager.

(** However blobs of whatever sizes are passed to [SaveBlob], after a [Flush]
    the packers handed over hold every blob exactly once: there are groups of
    blobs, together a permutation of those saved, such that each packer is the
    one its group fills.  No packer is empty, and each stays within the limits
    that let its pack be read back. *)
Theorem packermanager_no_blob_lost (key : Key) (tpe : BlobType) (packSize : Z) (items : list add_args)
    (Hsize : 0 < packSize <= 2 ^ 31) (Hitems : Forall add_ok items) :
  exists q r q' r' groups,
    ofold save_item ([], newPackerManager key tpe packSize) items = Ok (q, r) /\
    Flush enqueue q r = (q', r', Ok tt) /\ pm_packer r' = None /\
    q' = packer_of key <$> groups /\ concat groups ≡ₚ items /\
    Forall (fun g => g <> [] /\ Forall add_ok g /\ within_limits g) groups.
Proof.
  destruct (ofold_step (fun done_ st => exists groups cur, pm_state packSize key groups cur st /\ concat groups ++ cur ≡ₚ done_)
    save_item ([], newPackerManager key tpe packSize) items) as ([q r] & E & groups & cur & Hst & Hp).
  - exists [], []. split; [|done]. do 5 (split; [done|]). by apply open_nil.
  - intros done_ a rest [q r] El (groups & cur & Hst & Hp).
    assert (add_ok a) as Ha by (eapply Forall_forall; [exact Hitems|rewrite El; set_solver]).
    destruct (save_item_ok packSize Hsize key groups cur q r a Hst Ha) as (q' & r' & groups' & cur' & E & Hst' & Hp').
    exists (q', r'). split; [done|]. exists groups', cur'. split; [done|]. by rewrite Hp', app_assoc, Hp.
  - destruct Hst as (Eq & HG & Ek & Es & Ep & Ho). cbn [fst snd] in *. subst q. unfold Flush.
    exists (packer_of key <$> groups), r. rewrite Ep. case_bool_decide as Hcur.
    + subst cur. rewrite app_nil_r in Hp. eexists _, r, groups. split; [done|]. split; [reflexivity|]. done.
    + cbn [enqueue]. eexists _, _, (groups ++ [cur]). split; [done|]. split; [reflexivity|]. split; [done|].
      split; [by rewrite fmap_app|]. split; [by rewrite concat_app; cbn; rewrite app_nil_r|].
      apply Forall_app. split; [done|]. constructor; [|done]. pose proof (open_offsets packSize Hsize cur Ho) as Hoff. destruct Ho as (HF & Hd & Hh).
      split; [done|]. split; [done|]. split; [lia|]. split; [|done].
      pose proof (CalculateHeaderSize_bound (add_blobs 0 cur)) as Hb. unfold zlen in *. rewrite length_add_blobs in Hb.
      unfold entrySize, headerLengthSize in *. lia.
Qed.

(** Two data blobs, the second larger than the pack size of 60 bytes. *)
Lemma packermanager_no_blob_lost_witness :
  exists q r q' r', ofold save_item ([], newPackerManager ex_key DataBlob 60) ex_adds = Ok (q, r) /\
    Flush enqueue q r = (q', r', Ok tt) /\ length q' = 1%nat.
Proof.
  destruct (packermanager_no_blob_lost ex_key DataBlob 60 ex_adds ltac:(lia) ex_adds_ok)
    as (q & r & q' & r' & groups & E1 & E2 & _ & _ & Hp & _).
  exists q, r, q', r'. split; [exact E1|]. split; [exact E2|].
  vm_compute in E1. injection E1 as <- <-. vm_compute in E2. injection E2 as <- <-. reflexivity.
Defined.
