(* ===== verification/Repository.v ===== *)
(** The repository: unpacked files, blobs, packs and the index on a backend
    (src/repository/repository.go, packer_manager.go; src/restic/zeroprefix.go;
    src/internal/index/index_parallel.go).

    The backend is any instance of [Backend].  SHA-256, zstd, the cipher, the
    JSON codec of index files and the sources of randomness and time are
    parameters; the [n]th use of randomness or time reads the [n]th element of a
    stream.  Packs are uploaded when they are handed over, one of the schedules
    of the uploader's goroutines.  The master key is taken with its MAC part
    masked, as [NewRandomKey] and [KDF] produce it, so that using it does not
    change it. *)

From S2P Require Import Prelude Bytes Restic Sets HashedArrayTree IndexMap Index MasterIndex Crypto Pack Backend PackerManager.

#[local] Open Scope Z_scope.

Definition MinPackSize : Z := 4 * 1024 * 1024.
Definition DefaultPackSize : Z := 16 * 1024 * 1024.
Definition MaxPackSize : Z := 128 * 1024 * 1024.

(** * Options *)

Definition CompressionMode := Z.
Definition CompressionAuto : CompressionMode := 0.
Definition CompressionOff : CompressionMode := 1.
Definition CompressionMax : CompressionMode := 2.
Definition CompressionInvalid : CompressionMode := 3.

(** [Set]: the new mode, and the error. *)
Definition CompressionMode_Set (s : string) : CompressionMode * option error :=
  if bool_decide (s = "auto") then (CompressionAuto, None)
  else if bool_decide (s = "off") then (CompressionOff, None)
  else if bool_decide (s = "max") then (CompressionMax, None)
  else (CompressionInvalid, Some (ErrMsg "invalid compression mode %q, must be one of (auto|off|max)")).

Definition CompressionMode_String (c : CompressionMode) : string :=
  if c =? CompressionAuto then "auto"
  else if c =? CompressionOff then "off"
  else if c =? CompressionMax then "max"
  else "invalid".

Record Options := mkOptions { Compression : CompressionMode; PackSize : Z }.

(** The configuration ([restic.Config]) without the parts the repository does
    not read. *)
Record Config := mkConfig { Version : Z; cfg_ID : string }.

Definition ErrInvalidData : error := ErrMsg "invalid data returned".

(** * Zero prefixes *)

(** The loop over blocks of 1024 zeros, with the length as fuel, and the loop
    over bytes. *)
Fixpoint zero_blocks (fuel : nat) (p : list byte) (n : Z) : list byte * Z :=
  match fuel with
  | O => (p, n)
  | S fuel =>
      if (1024 <=? zlen p) && all_zero (slice_to p 1024) then zero_blocks fuel (slice_from p 1024) (n + 1024)
      else (p, n)
  end.
Fixpoint zero_bytes (p : list byte) (n : Z) : Z :=
  match p with
  | [] => n
  | b :: p => if Byte.eqb b "000"%byte then zero_bytes p (n + 1) else n
  end.
Definition ZeroPrefixLen (p : list byte) : Z :=
  let '(p, n) := zero_blocks (length p) p 0 in zero_bytes p n.

(** * Cached packs first

    [sortCachedPacksFirst] works in place: [cached] is a prefix of the storage
    of [blobs] that grows while the loop reads it. *)
Definition cached_step (Has : PackedBlob -> bool) (st : list PackedBlob * nat * list PackedBlob) (i : nat)
    : list PackedBlob * nat * list PackedBlob :=
  let '(arr, ncached, noncached) := st in
  match arr !! i with
  | None => st
  | Some blob =>
      if Has blob then (<[ncached := blob]> arr, S ncached, noncached)
      else (arr, ncached, noncached ++ [blob])
  end.

Definition sortCachedPacksFirst (cache : option (PackedBlob -> bool)) (blobs : list PackedBlob) : list PackedBlob :=
  match cache with
  | None => blobs
  | Some Has =>
      if Nat.eqb (length blobs) 1 then blobs
      else
        let '(arr, ncached, noncached) := fold_left (cached_step Has) (seq 0 (length blobs)) (blobs, 0%nat, []) in
        take ncached arr ++ go_copy (drop ncached arr) noncached
  end.

(** * The repository *)

Section Repository.
Context {B : Type} `{Backend B}.
Context (aes_Encrypt : list byte -> list byte -> list byte).
Context (poly1305_Sum : list byte -> list byte -> list byte).
Context (poly1305_Verify : list byte -> list byte -> list byte -> bool).
Context (Hash : list byte -> ID) (sum64 : list byte -> Z).

(** [EncodeAll level src dst] appends the compressed [src] to [dst];
    [DecodeAll src] is the decompressed [src]. *)
Context (zstd_EncodeAll : CompressionMode -> list byte -> list byte -> list byte).
Context (zstd_DecodeAll : list byte -> outcome (list byte)).
Context (json_Encode : jsonIndex -> outcome (list byte)).
Context (json_Unmarshal : list byte -> outcome jsonIndex).
Context (json_Unmarshal_old : list byte -> outcome (list (option packJSON))).
Context (rand : nat -> list byte) (clock : nat -> Z) (chunker_MinSize : Z).

Record Repository := mkRepo {
  be : B;
  cfg : Config;
  key : Key;
  idx : MasterIndex;
  opts : Options;
  noAutoIndexUpdate : bool;
  pms : option (packerManager (Wr := list byte) * packerManager (Wr := list byte));  (* treePM, dataPM *)
  env : nat }.

Definition set_be r b := mkRepo b (cfg r) (key r) (idx r) (opts r) (noAutoIndexUpdate r) (pms r) (env r).
Definition set_repo_idx r i := mkRepo (be r) (cfg r) (key r) i (opts r) (noAutoIndexUpdate r) (pms r) (env r).
Definition set_pms r p := mkRepo (be r) (cfg r) (key r) (idx r) (opts r) (noAutoIndexUpdate r) p (env r).

(** One use of randomness or time. *)
Definition tick r := mkRepo (be r) (cfg r) (key r) (idx r) (opts r) (noAutoIndexUpdate r) (pms r) (S (env r)).

Definition New (b : B) (k : Key) (o : Options) (now : Z) : outcome Repository :=
  if Compression o =? CompressionInvalid then Err (ErrMsg "invalid compression mode") else
  let o := if PackSize o =? 0 then mkOptions (Compression o) DefaultPackSize else o in
  if MaxPackSize <? PackSize o then Err (ErrMsg "pack size larger than limit of %v MiB")
  else if PackSize o <? MinPackSize then Err (ErrMsg "pack size smaller than minimum of %v MiB")
  else Ok (mkRepo b (mkConfig 0 "") k (NewMasterIndex now) o false None 0).

Definition DisableAutoIndexUpdate r := mkRepo (be r) (cfg r) (key r) (idx r) (opts r) true (pms r) (env r).

Definition setConfig r c :=
  let r := mkRepo (be r) c (key r) (idx r) (opts r) (noAutoIndexUpdate r) (pms r) (env r) in
  if 2 <=? Version c then set_repo_idx r (MarkCompressed (idx r)) else r.

(** ** Unpacked files *)

Definition compressUnpacked r (p : list byte) : list byte :=
  if Version (cfg r) <? 2 then p
  else zstd_EncodeAll (Compression (opts r)) p ["002"%byte].

Definition decompressUnpacked r (p : list byte) : outcome (list byte) :=
  if Version (cfg r) <? 2 then Ok p else
  match p with
  | [] => Ok p
  | b :: p' =>
      if Byte.eqb b "["%byte || Byte.eqb b "{"%byte then Ok p
      else if negb (Byte.eqb b "002"%byte) then Err (ErrMsg "not supported encoding format")
      else zstd_DecodeAll p'
  end.

Definition SaveUnpacked r (t : FileType) (p : list byte) : Repository * outcome ID :=
  let p := if negb (t =? ConfigFile) then compressUnpacked r p else p in
  match NewRandomNonce (rand (env r)) with
  | Ok nonce =>
      let r := tick r in
      match Seal aes_Encrypt poly1305_Sum (key r) nonce nonce p [] with
      | Ok (ciphertext, _) =>
          let id := if t =? ConfigFile then nullID else Hash ciphertext in
          let '(b, res) := be_Save (be r) (mkHandle t false (ID_String id)) ciphertext in
          let r := set_be r b in
          (r, match res with Ok _ => Ok id | Err e => Err e | Panic e => Panic e end)
      | Err e => (r, Err e)
      | Panic e => (r, Panic e)
      end
  | Err e => (r, Err e)
  | Panic e => (r, Panic e)
  end.

(** The callback of [LoadUnpacked]: the buffer, [retriedInvalidData] and
    [dataErr]. *)
Definition load_callback (t : FileType) (id : ID) (st : list byte * bool * option error) (data : list byte)
    : list byte * bool * option error * outcome unit :=
  let '(_, retriedInvalidData, dataErr) := st in
  if negb (t =? ConfigFile) && negb (ID_Equal (Hash data) id) then
    if negb retriedInvalidData then (data, true, dataErr, Err ErrInvalidData)
    else (data, true, Some (ErrWrap ErrInvalidData "load(%v): %w"), Err ErrInvalidData)
  else (data, retriedInvalidData, dataErr, Ok tt).

(** Decrypt what [buf] holds: the nonce and the sealed data.  Slicing panics
    when there are fewer bytes than a nonce has. *)
Definition open_buffer (k : Key) (buf : list byte) : outcome (list byte) :=
  if zlen buf <? NonceSize then Panic "slice bounds out of range" else
  try (p, _) <- Open aes_Encrypt poly1305_Verify k [] (slice_to buf NonceSize) (slice_from buf NonceSize); Ok p.

Definition LoadUnpacked r (t : FileType) (id : ID) : outcome (list byte) :=
  let id := if t =? ConfigFile then nullID else id in
  let '((wr, _, dataErr), err) := Load (be r) (mkHandle t false (ID_String id)) 0 0 (load_callback t id) ([], false, None) in
  match dataErr with
  | Some e => Err e
  | None =>
      try _ <- err;
      try plaintext <- open_buffer (key r) wr;
      if negb (t =? ConfigFile) then decompressUnpacked r plaintext else Ok plaintext
  end.

(** ** Packs *)

Definition StartPackUploader r : outcome Repository :=
  match pms r with
  | Some _ => Panic "uploader already started"
  | None => Ok (set_pms r (Some (newPackerManager (key r) TreeBlob (PackSize (opts r)),
                                 newPackerManager (key r) DataBlob (PackSize (opts r)))))
  end.

(** The index is saved through the repository; it is not read meanwhile. *)
Definition SaveUnpacked_index r (buf : list byte) : Repository * outcome ID := SaveUnpacked r IndexFile buf.

Definition save_full_index r : Repository * outcome unit :=
  let '(r', mi, res) := SaveFullIndex sum64 json_Encode SaveUnpacked_index (clock (env r)) (tick r) (idx r) in
  (set_repo_idx r' mi, res).

(** [savePacker]: finalize the pack, save it under its hash, index it. *)
Definition savePacker r (t : BlobType) (p : Packer (Wr := list byte)) : Repository * outcome unit :=
  match NewRandomNonce (rand (env r)) with
  | Ok nonce =>
      let r := tick r in
      match Packer_Finalize aes_Encrypt poly1305_Sum file_Write p nonce with
      | (p, Ok _) =>
          let id := Hash (pk_wr p) in
          let '(b, res) := be_Save (be r) (mkHandle PackFile (IsMetadata t) (ID_String id)) (pk_wr p) in
          let r := set_be r b in
          match res with
          | Ok _ =>
              match StorePack sum64 (clock (env r)) (idx r) id (Packer_Blobs p) with
              | Ok mi =>
                  let r := set_repo_idx (tick r) mi in
                  if noAutoIndexUpdate r then (r, Ok tt) else save_full_index r
              | Err e => (r, Err e)
              | Panic e => (r, Panic e)
              end
          | Err e => (r, Err e)
          | Panic e => (r, Panic e)
          end
      | (_, Err e) => (r, Err e)
      | (_, Panic e) => (r, Panic e)
      end
  | Err e => (r, Err e)
  | Panic e => (r, Panic e)
  end.

Definition flushPacks r : Repository * outcome unit :=
  match pms r with
  | None => (r, Ok tt)
  | Some (treePM, dataPM) =>
      match Flush savePacker r treePM with
      | (r, treePM, Ok _) =>
          match Flush savePacker r dataPM with
          | (r, _, Ok _) => (set_pms r None, Ok tt)
          | (r, dataPM, res) => (set_pms r (Some (treePM, dataPM)), res)
          end
      | (r, treePM, res) => (set_pms r (Some (treePM, dataPM)), res)
      end
  end.

(** The method [Flush] of the repository. *)
Definition RepoFlush r : Repository * outcome unit :=
  match flushPacks r with
  | (r, Ok _) =>
      if noAutoIndexUpdate r then (r, Ok tt)
      else
        let '(r', mi, res) := SaveNewIndexes sum64 json_Encode SaveUnpacked_index r (idx r) in
        (set_repo_idx r' mi, res)
  | (r, res) => (r, res)
  end.

(** ** Blobs *)

(** What is stored for a blob: the data, compressed unless the repository or
    the options say otherwise, and its uncompressed length (0: not
    compressed). *)
Definition encode_blob r (t : BlobType) (data : list byte) : list byte * Z :=
  if (1 <? Version (cfg r)) && (negb (Compression (opts r) =? CompressionOff) || negb (t =? DataBlob))
  then (zstd_EncodeAll (Compression (opts r)) data [], zlen data)
  else (data, 0).

Definition saveAndEncrypt r (t : BlobType) (data : list byte) (id : ID) : Repository * outcome Z :=
  let '(data, uncompressedLength) := encode_blob r t data in
  match NewRandomNonce (rand (env r)) with
  | Ok nonce =>
      let r := tick r in
      match Seal aes_Encrypt poly1305_Sum (key r) nonce nonce data [] with
      | Ok (ciphertext, _) =>
          match pms r with
          | None => (r, Panic "nil pointer dereference")
          | Some (treePM, dataPM) =>
              if t =? TreeBlob then
                let '(r, pm, res) := SaveBlob file_Write (Ok []) savePacker r treePM t id ciphertext uncompressedLength in
                (set_pms r (Some (pm, dataPM)), res)
              else if t =? DataBlob then
                let '(r, pm, res) := SaveBlob file_Write (Ok []) savePacker r dataPM t id ciphertext uncompressedLength in
                (set_pms r (Some (treePM, pm)), res)
              else (r, Panic "invalid type: %v")
          end
      | Err e => (r, Err e)
      | Panic e => (r, Panic e)
      end
  | Err e => (r, Err e)
  | Panic e => (r, Panic e)
  end.

Definition ZeroChunk : ID := Hash (replicate (Z.to_nat chunker_MinSize) "000"%byte).

(** The method [SaveBlob] of the repository: the ID, whether the blob was
    known, and its size or an error. *)
Definition RepoSaveBlob r (t : BlobType) (buf : list byte) (id : ID) (storeDuplicate : bool)
    : Repository * outcome (ID * bool * Z) :=
  let newID :=
    if IsNull id then
      if (zlen buf =? chunker_MinSize) && (ZeroPrefixLen buf =? chunker_MinSize) then ZeroChunk else Hash buf
    else id in
  match AddPending sum64 (idx r) (mkBlobHandle newID t) with
  | Ok (mi, new) =>
      let r := set_repo_idx r mi in
      let known := negb new in
      if negb known || storeDuplicate then
        let '(r, res) := saveAndEncrypt r t buf newID in
        (r, try size <- res; Ok (newID, known, size))
      else (r, Ok (newID, known, 0))
  | Err e => (r, Err e)
  | Panic e => (r, Panic e)
  end.

(** One candidate of [LoadBlob]. *)
Definition load_candidate r (t : BlobType) (id : ID) (blob : PackedBlob) : outcome (list byte) :=
  let b := pb_Blob blob in
  try buf <- ReadAt (be r) (mkHandle PackFile (IsMetadata t) (ID_String (pb_PackID blob))) (b_Offset b) (b_Length b);
  try plaintext <-
    match open_buffer (key r) buf with
    | Err e => Err (ErrWrap e "decrypting blob %v failed: %v")
    | o => o
    end;
  try plaintext <-
    (if IsCompressed b then
       match zstd_DecodeAll plaintext with
       | Err e => Err (ErrWrap e "decompressing blob %v failed: %v")
       | o => o
       end
     else Ok plaintext);
  if negb (ID_Equal (Hash plaintext) id) then Err (ErrMsg "blob %v returned invalid hash") else Ok plaintext.

Fixpoint LoadBlob_loop r (t : BlobType) (id : ID) (lastError : option error) (blobs : list PackedBlob)
    : outcome (list byte) :=
  match blobs with
  | [] =>
      match lastError with
      | Some e => Err e
      | None => Err (ErrMsg "loading blob %v from %v packs failed")
      end
  | blob :: blobs =>
      match load_candidate r t id blob with
      | Ok plaintext => Ok plaintext
      | Err e => LoadBlob_loop r t id (Some e) blobs
      | Panic p => Panic p
      end
  end.

Definition LoadBlob (cache : option (PackedBlob -> bool)) r (t : BlobType) (id : ID) : outcome (list byte) :=
  try blobs <- Lookup sum64 (idx r) (mkBlobHandle id t);
  if Nat.eqb (length blobs) 0 then Err (ErrMsg "id %v not found in repository")
  else LoadBlob_loop r t id None (sortCachedPacksFirst cache blobs).

Definition LookupBlobSize r (id : ID) (tpe : BlobType) : outcome (option Z) :=
  LookupSize sum64 (idx r) (mkBlobHandle id tpe).

(** ** Listing and loading indexes *)

(** [List]: files whose name is not an ID are skipped. *)
Definition RepoList r (t : FileType) : outcome (list (ID * Z)) :=
  try fis <- be_List (be r) t;
  Ok (omap (fun fi => match ParseID (fi_Name fi) with Ok id => Some (id, fi_Size fi) | _ => None end) fis).

Definition ListPack r (id : ID) (size : Z) : outcome (list Blob * Z * Key) :=
  Pack_List aes_Encrypt poly1305_Verify
    (fun n off => ReadAt (be r) (mkHandle PackFile false (ID_String id)) off n) (key r) size.

(** [LoadIndex]: the index files are loaded in the order the workers finish,
    here that of the list, inserted and merged. *)
Definition load_index_file r (mi : MasterIndex) (file : ID * Z) : outcome MasterIndex :=
  try buf <- LoadUnpacked r IndexFile file.1;
  try (index, _) <- DecodeIndex sum64 json_Unmarshal json_Unmarshal_old (clock (env r)) buf file.1;
  let '(mi, l) := alloc_index mi index in
  Ok (Insert mi l).

Definition LoadIndex r : outcome Repository :=
  try indexList <- RepoList r IndexFile;
  try mi <- ofold (load_index_file r) (idx r) indexList;
  try mi <- MergeFinalIndexes sum64 mi;
  let r := set_repo_idx r mi in
  if Version (cfg r) <? 2 then
    try invalidIndex <- Each (fun _ => false) mi (fun invalid pb => Ok (invalid || IsCompressed (pb_Blob pb))) false;
    if invalidIndex : bool then Err (ErrMsg "index uses feature not supported by repository version 1") else Ok r
  else Ok r.

(** [CreateIndexFromPacks]: a pack that cannot be listed is reported, and
    stored in the index without blobs. *)
Definition create_from_pack (st : Repository * list ID) (file : ID * Z) : outcome (Repository * list ID) :=
  let '(r, invalid) := st in
  try (entries, invalid) <-
    match ListPack r file.1 file.2 with
    | Ok (entries, _, _) => Ok (entries, invalid)
    | Err _ => Ok ([], invalid ++ [file.1])
    | Panic p => Panic p
    end;
  try mi <- StorePack sum64 (clock (env r)) (idx r) file.1 entries;
  Ok (set_repo_idx (tick r) mi, invalid).

Definition CreateIndexFromPacks r (packsize : gmap ID Z) : outcome (Repository * list ID) :=
  ofold create_from_pack (r, []) (map_to_list packsize).
End Repository.
Arguments mkRepo {B}.
Arguments be {B}.
Arguments cfg {B}.
Arguments key {B}.
Arguments idx {B}.
Arguments opts {B}.
Arguments noAutoIndexUpdate {B}.
Arguments pms {B}.
Arguments env {B}.
