(* ===== verification/RepoFacts.v ===== *)
(** Unpacked files, and small facts of the repository: what [SaveUnpacked] wrote
    can be read back, zero prefixes are counted, and candidates are sorted
    without losing one. *)

From S2P Require Import Prelude Bytes Restic Sets HashedArrayTree IndexMap Index MasterIndex Crypto Pack Backend PackerManager Repository.

#[local] Open Scope Z_scope.

(** * Small facts of the repository *)

Lemma all_zero_spec l : all_zero l = true <-> Forall (fun b => b = "000"%byte) l.
Proof.
  unfold all_zero. rewrite forallb_forall, Forall_forall. split; intros Hl b.
  - intros Hb%list_elem_of_In. apply Byte.byte_dec_bl. by apply Hl.
  - intros Hb%list_elem_of_In. apply Byte.byte_dec_lb. by apply Hl.
Qed.

(** The number of zeros at the start of a buffer. *)
Fixpoint leading_zeros (p : list byte) : nat :=
  match p with b :: p => if Byte.eqb b "000"%byte then S (leading_zeros p) else 0 | [] => 0 end.

Lemma zero_bytes_spec p n : zero_bytes p n = n + Z.of_nat (leading_zeros p).
Proof. revert n; induction p as [|b p IH]; intros n; cbn; [lia|]. destruct (Byte.eqb _ _); [rewrite IH|]; lia. Qed.

Lemma leading_zeros_app p q : Forall (fun b => b = "000"%byte) p -> leading_zeros (p ++ q) = (length p + leading_zeros q)%nat.
Proof. induction 1 as [|b p -> HF IH]; [done|]. cbn. by rewrite IH. Qed.

Lemma zero_blocks_spec fuel p n :
  let '(p', n') := zero_blocks fuel p n in n' + Z.of_nat (leading_zeros p') = n + Z.of_nat (leading_zeros p).
Proof.
  revert p n; induction fuel as [|fuel IH]; intros p n; cbn [zero_blocks]; [done|].
  destruct ((1024 <=? zlen p) && _) eqn:E; [|done]. apply andb_true_iff in E as [Hl Hz%all_zero_spec]. apply Z.leb_le in Hl.
  specialize (IH (slice_from p 1024) (n + 1024)). destruct (zero_blocks _ _ _) as [p' n']. rewrite IH.
  rewrite <- (take_drop (Z.to_nat 1024) p) at 2. rewrite leading_zeros_app by exact Hz.
  rewrite length_take. unfold zlen in Hl. unfold slice_from. lia.
Qed.

(** [ZeroPrefixLen] counts the zeros at the start, the blocks it skips
    included. *)
Theorem ZeroPrefixLen_counts (p : list byte) : ZeroPrefixLen p = Z.of_nat (leading_zeros p).
Proof.
  unfold ZeroPrefixLen. pose proof (zero_blocks_spec (length p) p 0) as Hb.
  destruct (zero_blocks _ _ _) as [p' n']. rewrite zero_bytes_spec. lia.
Qed.

Lemma cached_steps (Has : PackedBlob -> bool) blobs n :
  (n <= length blobs)%nat ->
  exists arr, fold_left (cached_step Has) (seq 0 n) (blobs, 0%nat, []) =
    (arr, length (filter (fun b => Has b = true) (take n blobs)), filter (fun b => Has b = false) (take n blobs)) /\
    length arr = length blobs /\ drop n arr = drop n blobs /\
    take (length (filter (fun b => Has b = true) (take n blobs))) arr = filter (fun b => Has b = true) (take n blobs).
Proof.
  induction n as [|n IH]; intros Hn.
  - exists blobs. cbn. by rewrite take_0.
  - destruct IH as (arr & E & Hl & Hd & Ht); [lia|]. rewrite seq_S, fold_left_app, E. cbn [fold_left Nat.add].
    set (c := filter (fun b => Has b = true) (take n blobs)) in *.
    assert (length c <= n)%nat as Hc.
    { unfold c. etransitivity; [apply length_filter|]. rewrite length_take. lia. }
    destruct (lookup_lt_is_Some_2 blobs n ltac:(lia)) as [b Hb].
    assert (arr !! n = Some b) as Ha.
    { rewrite <- (Nat.add_0_r n) in Hb |- *. rewrite <- lookup_drop in Hb |- *. by rewrite Hd. }
    assert (drop (S n) arr = drop (S n) blobs) as Hd'.
    { rewrite (drop_S arr b n Ha), (drop_S blobs b n Hb) in Hd. by injection Hd. }
    rewrite (take_S_r _ _ b Hb), !filter_app, !filter_cons, !filter_nil. cbn [cached_step]. rewrite Ha.
    destruct (Has b) eqn:Hh; cbn [decide].
    + exists (<[length c := b]> arr). rewrite decide_True by done. rewrite decide_False by done. fold c.
      rewrite app_nil_r, length_app. cbn [length]. rewrite Nat.add_1_r. split; [done|].
      rewrite length_insert. split; [done|]. split; [by rewrite drop_insert_lt by lia|].
      rewrite (take_S_r _ _ b); [|apply list_lookup_insert_eq; lia]. by rewrite take_insert_ge, Ht by lia.
    + exists arr. rewrite decide_False by done. rewrite decide_True by done. fold c. rewrite app_nil_r. done.
Qed.

Lemma filter_split {A} (f : A -> bool) (l : list A) :
  filter (fun x => f x = true) l ++ filter (fun x => f x = false) l ≡ₚ l.
Proof.
  induction l as [|x l IH]; [done|]. rewrite !filter_cons.
  destruct (f x); [rewrite decide_True, decide_False by done|rewrite decide_False, decide_True by done];
    cbn; rewrite <- ?Permutation_middle; by constructor.
Qed.

(** The in-place loop of [sortCachedPacksFirst] is a stable partition: the
    cached packs first, then the others, each in their order, none lost. *)
Theorem sortCachedPacksFirst_partition (Has : PackedBlob -> bool) (blobs : list PackedBlob) :
  sortCachedPacksFirst (Some Has) blobs =
    filter (fun b => Has b = true) blobs ++ filter (fun b => Has b = false) blobs /\
  sortCachedPacksFirst (Some Has) blobs ≡ₚ blobs.
Proof.
  assert (sortCachedPacksFirst (Some Has) blobs =
    filter (fun b => Has b = true) blobs ++ filter (fun b => Has b = false) blobs) as E; [|split; [done|rewrite E; apply filter_split]].
  unfold sortCachedPacksFirst. destruct (Nat.eqb_spec (length blobs) 1) as [H1|H1].
  - destruct blobs as [|b [|]]; try done. rewrite !filter_cons, !filter_nil. by destruct (Has b).
  - destruct (cached_steps Has blobs (length blobs)) as (arr & -> & Hl & _ & Ht); [done|].
    rewrite (take_ge blobs (length blobs)) in Ht |- * by done. rewrite Ht. f_equal. apply go_copy_same. rewrite length_drop, Hl.
    pose proof (Permutation_length (filter_split Has blobs)) as Hp. rewrite length_app in Hp. lia.
Qed.

(** * Unpacked files *)

Section Unpacked.
Context {B : Type} `{HB : Backend B} {HL : BackendLaws B}.
Context (aes_Encrypt : list byte -> list byte -> list byte).
Context (poly1305_Sum : list byte -> list byte -> list byte).
Context (poly1305_Verify : list byte -> list byte -> list byte -> bool).
Context (Hash : list byte -> ID).
Context (zstd_EncodeAll : CompressionMode -> list byte -> list byte -> list byte).
Context (zstd_DecodeAll : list byte -> outcome (list byte)).
Context (json_Encode : jsonIndex -> outcome (list byte)).
Context (json_Unmarshal : list byte -> outcome jsonIndex).
Context (rand : nat -> list byte).

(** What the model assumes of its parameters: the cipher works, nonces have the
    right size and are not zero, SHA-256 does not yield the null ID, zstd
    appends to its destination, decompresses what it compressed and leaves
    nothing of nothing, and the JSON encoder does not panic and can be read
    back. *)
Record env_ok : Prop := {
  ev_cipher : cipher_ok aes_Encrypt poly1305_Sum poly1305_Verify;
  ev_nonce : forall n, zlen (rand n) = ivSize /\ validNonce (rand n) = true;
  ev_hash : forall f, Hash f <> nullID;
  ev_zstd : forall l d, zstd_DecodeAll (zstd_EncodeAll l d []) = Ok d;
  ev_zstd_dst : forall l d dst, zstd_EncodeAll l d dst = dst ++ zstd_EncodeAll l d [];
  ev_zstd_empty : forall l, zstd_EncodeAll l [] [] = [];
  ev_json : forall j, ~ panics (json_Encode j);
  ev_json_decode : forall j buf, json_Encode j = Ok buf -> json_Unmarshal buf = Ok j }.
Context (Henv : env_ok).

Abbreviation Repo := (Repository (B := B)).
Abbreviation Repo_Save := (SaveUnpacked aes_Encrypt poly1305_Sum Hash zstd_EncodeAll rand).
Abbreviation Repo_Load := (LoadUnpacked aes_Encrypt poly1305_Verify Hash zstd_DecodeAll).

Lemma open_buffer_sealed k nonce pt :
  Key_Valid k = true -> zlen nonce = ivSize -> validNonce nonce = true ->
  open_buffer aes_Encrypt poly1305_Verify k (nonce ++ sealed aes_Encrypt poly1305_Sum k nonce pt) = Ok pt /\
  zlen (nonce ++ sealed aes_Encrypt poly1305_Sum k nonce pt) = zlen pt + Extension.
Proof using Henv.
  intros Hk Hn Hv. assert (length nonce = 16%nat) as Hn16 by (unfold zlen, ivSize in Hn; lia). split.
  - unfold open_buffer. rewrite zlen_app. pose proof (zlen_nonneg (sealed aes_Encrypt poly1305_Sum k nonce pt)).
    destruct (Z.ltb_spec (zlen nonce + zlen (sealed aes_Encrypt poly1305_Sum k nonce pt)) NonceSize) as [Hlt|_];
      [unfold NonceSize in Hlt; lia|].
    assert (Z.to_nat NonceSize = length nonce) as E by by rewrite Hn16.
    unfold slice_to, slice_from. rewrite E, take_app_length, drop_app_length.
    assert (Open aes_Encrypt poly1305_Verify k [] nonce (sealed aes_Encrypt poly1305_Sum k nonce pt) = Ok ([] ++ pt, masked_key k)) as ->
      by (apply (Open_iff _ _ _ (ev_cipher Henv)); eauto).
    done.
  - rewrite zlen_app, Hn. unfold zlen at 1. rewrite (length_sealed _ _ _ (ev_cipher Henv)) by done.
    unfold zlen, Extension, ivSize, macSize. lia.
Qed.

(** A saved file either fails to be written or is added. *)
Lemma be_Save_cases (b : B) h data b' res :
  be_Save b h data = (b', res) ->
  be_files b ⊆ be_files b' /\ ~ panics res /\ (be_ok b -> be_ok b') /\
  ((be_files b' = be_files b /\ forall u, res <> Ok u) \/
   (be_files b !! canon h = None /\ be_files b' = <[canon h := data]> (be_files b))).
Proof using HL.
  intros E. pose proof (law_Save b h data b' res E) as Hs. pose proof (fun H => law_ok b h data b' res H E) as Hok.
  assert (forall Hn : be_files b !! canon h = None, be_files b' = <[canon h := data]> (be_files b) -> be_files b ⊆ be_files b') as Hins.
  { intros Hn ->. by apply insert_subseteq. }
  destruct res as [[]|e|p]; [|destruct Hs as [Hs|[Hn Hf]]|done].
  - destruct Hs as [Hn Hf]. split_and!; [by apply Hins|apply Ok_no_panic|done|by right].
  - rewrite Hs. split_and!; [done|apply Err_no_panic|done|by left].
  - split_and!; [by apply Hins|apply Err_no_panic|done|by right].
Qed.

(** [SaveUnpacked] saves one file, which opens to the data, under its hash. *)
Lemma SaveUnpacked_eq (r : Repo) t p :
  Key_Valid (key r) = true ->
  exists f, open_buffer aes_Encrypt poly1305_Verify (key r) f =
      Ok (if negb (t =? ConfigFile) then compressUnpacked zstd_EncodeAll r p else p) /\
    let id := if t =? ConfigFile then nullID else Hash f in
    forall b res, be_Save (be r) (mkHandle t false (ID_String id)) f = (b, res) ->
    Repo_Save r t p = (set_be (tick r) b, match res with Ok _ => Ok id | Err e => Err e | Panic e => Panic e end).
Proof using Henv.
  intros Hk. unfold SaveUnpacked. set (p' := if negb (t =? ConfigFile) then _ else p).
  destruct (ev_nonce Henv (env r)) as [Hn Hv]. unfold NewRandomNonce. rewrite Hn, Z.eqb_refl. cbn [negb].
  exists (rand (env r) ++ sealed aes_Encrypt poly1305_Sum (key r) (rand (env r)) p').
  split; [by apply open_buffer_sealed|]. cbn zeta. intros b res E. rewrite Seal_ok by done. cbn [key be tick]. by rewrite E.
Qed.

Lemma decompress_compress (r : Repo) p :
  decompressUnpacked zstd_DecodeAll r (compressUnpacked zstd_EncodeAll r p) = Ok p.
Proof using Henv.
  unfold decompressUnpacked, compressUnpacked. destruct (Version (cfg r) <? 2); [done|].
  rewrite (ev_zstd_dst Henv). apply (ev_zstd Henv).
Qed.

(** [LoadUnpacked] of a file that is there, under its hash. *)
Lemma LoadUnpacked_eq (r : Repo) t id f pt :
  be_files (be r) !! mkHandle t false (if t =? ConfigFile then "" else ID_String id) = Some f ->
  (t <> ConfigFile -> Hash f = id) ->
  open_buffer aes_Encrypt poly1305_Verify (key r) f = Ok pt ->
  Repo_Load r t id = if negb (t =? ConfigFile) then decompressUnpacked zstd_DecodeAll r pt else Ok pt.
Proof using HL.
  intros Hf Hid Hopen. unfold LoadUnpacked.
  set (id' := if t =? ConfigFile then nullID else id).
  assert (load_callback Hash t id' ([], false, None) (cut f 0 0) = (f, false, None, Ok tt)) as Hcb.
  { change (cut f 0 0) with f.
    unfold load_callback, id'. destruct (Z.eqb_spec t ConfigFile) as [->|Hne]; [done|].
    cbn [negb andb]. assert (ID_Equal (Hash f) id = true) as -> by (apply ID_Equal_spec; auto). done. }
  rewrite (Load_ok _ _ f 0 0 _ _ (f, false, None)); [|..|exact Hcb].
  - cbn [mbind outcome_bind]. rewrite Hopen. done.
  - unfold canon, id'. cbn [h_Type h_Name]. destruct (Z.eqb_spec t ConfigFile); [by subst|done].
  - pose proof (zlen_nonneg f). lia.
Qed.
End Unpacked.
Arguments ev_cipher {_ _ _ _ _ _ _ _ _} _.
Arguments ev_nonce {_ _ _ _ _ _ _ _ _} _.
Arguments ev_hash {_ _ _ _ _ _ _ _ _} _.
Arguments ev_zstd {_ _ _ _ _ _ _ _ _} _.
Arguments ev_zstd_dst {_ _ _ _ _ _ _ _ _} _.
Arguments ev_zstd_empty {_ _ _ _ _ _ _ _ _} _.
Arguments ev_json {_ _ _ _ _ _ _ _ _} _.
Arguments ev_json_decode {_ _ _ _ _ _ _ _ _} _.

(** What [SaveUnpacked] saved, [LoadUnpacked] reads back, in every later state
    of the repository that has the same key and configuration and still holds
    the files: for all file types, whether they are compressed, renamed (the
    config file) or hashed, and whatever temporary failures the backend has. *)
Theorem unpacked_roundtrip `{HL : BackendLaws B}
    aes_Encrypt poly1305_Sum poly1305_Verify Hash zstd_EncodeAll zstd_DecodeAll json_Encode json_Unmarshal rand
    (Henv : env_ok aes_Encrypt poly1305_Sum poly1305_Verify Hash zstd_EncodeAll zstd_DecodeAll json_Encode json_Unmarshal rand)
    (r r' later : Repository (B := B)) (t : FileType) (p : list byte) (id : ID)
    (Hk : Key_Valid (key r) = true)
    (Hsave : SaveUnpacked aes_Encrypt poly1305_Sum Hash zstd_EncodeAll rand r t p = (r', Ok id))
    (Hfiles : be_files (be r') ⊆ be_files (be later)) (Hkey : key later = key r) (Hcfg : cfg later = cfg r) :
  LoadUnpacked aes_Encrypt poly1305_Verify Hash zstd_DecodeAll later t id = Ok p.
Proof.
  destruct (SaveUnpacked_eq _ _ _ Hash _ _ _ _ rand Henv r t p Hk) as (f & Hopen & Heq). cbn zeta in Heq.
  destruct (be_Save _ _ f) as [b res] eqn:Es. rewrite (Heq b res eq_refl) in Hsave. clear Heq. injection Hsave as <- Hid.
  destruct (be_Save_cases _ _ _ _ _ Es) as (_ & _ & _ & [[_ Hne]|[_ Hin]]); [by destruct res; try done; edestruct Hne|].
  destruct res as [u|e|e]; [|done..]. injection Hid as <-. cbn [be set_be] in Hfiles.
  erewrite (LoadUnpacked_eq _ _ Hash _ later t _ f); [|eapply lookup_weaken; [|exact Hfiles]; rewrite Hin| |rewrite Hkey; exact Hopen].
  - destruct (negb (t =? ConfigFile)); [|done]. unfold decompressUnpacked, compressUnpacked. rewrite Hcfg.
    exact (decompress_compress _ _ _ _ _ _ _ _ _ Henv r p).
  - unfold canon. cbn [h_Type h_Name]. destruct (t =? ConfigFile); by rewrite lookup_insert_eq.
  - intros Hne. by destruct (Z.eqb_spec t ConfigFile).
Qed.

(** The config file is not verified by a hash: one that was cut to less than a
    nonce makes [LoadUnpacked] panic instead of returning an error. *)
Theorem short_config_panics `{HL : BackendLaws B} aes_Encrypt poly1305_Verify Hash zstd_DecodeAll
    (r : Repository (B := B)) (id : ID) (f : list byte)
    (Hf : be_files (be r) !! mkHandle ConfigFile false "" = Some f) (Hshort : zlen f < NonceSize) :
  LoadUnpacked aes_Encrypt poly1305_Verify Hash zstd_DecodeAll r ConfigFile id = Panic "slice bounds out of range".
Proof.
  unfold LoadUnpacked. rewrite (Load_ok _ _ f 0 0 _ _ (f, false, None)); [|exact Hf| |done].
  - cbn [mbind outcome_bind]. unfold open_buffer. destruct (Z.ltb_spec (zlen f) NonceSize); [done|lia].
  - pose proof (zlen_nonneg f). lia.
Qed.

(** * Parameters that can be evaluated: the toy cipher, and a compressor that
    copies *)

Definition ex_sha (d : list byte) : ID := copy_id ("001"%byte :: default "255"%byte (Byte.of_nat (length d)) :: d).
Definition ex_rand (n : nat) : list byte := replicate 16 (default "255"%byte (Byte.of_nat (S n))).
Definition ex_zstd_EncodeAll (_ : CompressionMode) (src dst : list byte) : list byte := dst ++ src.
Definition ex_zstd_DecodeAll (src : list byte) : outcome (list byte) := Ok src.

Lemma ex_env_ok : env_ok ex_aes ex_sum ex_verify ex_sha ex_zstd_EncodeAll ex_zstd_DecodeAll ex_json_Encode ex_json_Unmarshal ex_rand.
Proof.
  split.
  - exact ex_cipher_ok.
  - intros n. unfold ex_rand. split; [done|]. destruct (Byte.of_nat (S n)) as [b|] eqn:E; [|done]. apply Byte.to_of_nat in E.
    destruct b; done.
  - intros f E. apply (f_equal (fun v => hd_error (id_bytes v))) in E. vm_compute in E. discriminate.
  - done.
  - done.
  - done.
  - exact ex_json_no_panic.
  - exact ex_json_roundtrip.
Qed.

(** A snapshot file in an empty repository of version 2. *)
Definition ex_repo : Repository (B := MemoryBackend) :=
  setConfig (mkRepo mem_New (mkConfig 0 "") ex_key (NewMasterIndex 0) (mkOptions CompressionAuto DefaultPackSize) false None 0)
    (mkConfig 2 "").
Abbreviation ex_saved := (SaveUnpacked ex_aes ex_sum ex_sha ex_zstd_EncodeAll ex_rand ex_repo SnapshotFile ["s"; "n"]%byte).

Lemma unpacked_roundtrip_witness :
  exists r' id, ex_saved = (r', Ok id) /\
    LoadUnpacked ex_aes ex_verify ex_sha ex_zstd_DecodeAll r' SnapshotFile id = Ok ["s"; "n"]%byte.
Proof.
  assert (match ex_saved.2 with Ok _ => true | _ => false end = true) as Hok by (vm_compute; reflexivity).
  assert (key ex_saved.1 = key ex_repo) as Hk by (vm_compute; reflexivity).
  assert (cfg ex_saved.1 = cfg ex_repo) as Hc by (vm_compute; reflexivity).
  destruct ex_saved as [r' [id|e|p]] eqn:E1; [|discriminate Hok..]. exists r', id. split; [reflexivity|].
  exact (unpacked_roundtrip ex_aes ex_sum ex_verify ex_sha ex_zstd_EncodeAll ex_zstd_DecodeAll ex_json_Encode ex_json_Unmarshal ex_rand
    ex_env_ok ex_repo r' r' SnapshotFile ["s"; "n"]%byte id eq_refl E1 (reflexivity _) Hk Hc).
Defined.

Lemma short_config_panics_witness :
  let r := set_be ex_repo (<[mkHandle ConfigFile false "" := ["c"]%byte]> mem_New) in
  LoadUnpacked ex_aes ex_verify ex_sha ex_zstd_DecodeAll r ConfigFile nullID = Panic "slice bounds out of range".
Proof.
  intros r. apply (short_config_panics ex_aes ex_verify ex_sha ex_zstd_DecodeAll r nullID ["c"]%byte); [apply lookup_insert_eq|reflexivity].
Defined.
