(* ===== verification/RepoSafety.v ===== *)
(** What is saved in a repository can be loaded again, from the repository that
    saved it and from one that is opened later: the invariant of a repository
    between the start of the uploader and the flush, on any backend that
    satisfies [BackendLaws]. *)

From S2P Require Import Prelude Bytes Restic Sets HashedArrayTree IndexMap Index MasterIndex Crypto Pack Backend PackerManager Repository RepoFacts.

#[local] Open Scope Z_scope.

(** * The invariant of a repository *)

Section Safety.
Context {B : Type} `{HB : Backend B} {HL : BackendLaws B}.
Context (aes_Encrypt : list byte -> list byte -> list byte).
Context (poly1305_Sum : list byte -> list byte -> list byte).
Context (poly1305_Verify : list byte -> list byte -> list byte -> bool).
Context (Hash : list byte -> ID) (sum64 : list byte -> Z).
Context (zstd_EncodeAll : CompressionMode -> list byte -> list byte -> list byte).
Context (zstd_DecodeAll : list byte -> outcome (list byte)).
Context (json_Encode : jsonIndex -> outcome (list byte)).
Context (json_Unmarshal : list byte -> outcome jsonIndex).
Context (rand : nat -> list byte) (clock : nat -> Z) (chunker_MinSize : Z).
Context (Henv : env_ok aes_Encrypt poly1305_Sum poly1305_Verify Hash zstd_EncodeAll zstd_DecodeAll json_Encode json_Unmarshal rand).

(** The blobs that were passed to [SaveBlob]. *)
Context (D : list byte -> Prop).

(** The plaintext of what is stored for a blob. *)
Definition decode_blob (k : Key) (ct : list byte) (ulen : Z) : outcome (list byte) :=
  try pt <- open_buffer aes_Encrypt poly1305_Verify k ct;
  if negb (ulen =? 0) then zstd_DecodeAll pt else Ok pt.

Definition item_good (k : Key) (a : add_args) : Prop :=
  add_ok a /\ 0 < zlen (aa_data a) /\
  exists d, decode_blob k (aa_data a) (aa_ulen a) = Ok d /\ Hash d = aa_id a /\ D d.

Definition pb_good (files : gmap Handle (list byte)) (k : Key) (pb : PackedBlob) : Prop :=
  let b := pb_Blob pb in
  exists f d, files !! mkHandle PackFile false (ID_String (pb_PackID pb)) = Some f /\
    0 <= b_Offset b /\ 0 < b_Length b /\ b_Offset b + b_Length b <= zlen f /\
    decode_blob k (slice f (b_Offset b) (b_Offset b + b_Length b)) (b_UncompressedLength b) = Ok d /\
    Hash d = b_ID b /\ D d.

Abbreviation Repo := (Repository (B := B)).

(** ** Loading *)

Lemma load_candidate_ok (r : Repo) t pb :
  pb_good (be_files (be r)) (key r) pb ->
  exists d, load_candidate aes_Encrypt poly1305_Verify Hash zstd_DecodeAll r t (b_ID (pb_Blob pb)) pb = Ok d /\
    Hash d = b_ID (pb_Blob pb) /\ D d.
Proof.
  intros (f & d & Hf & Ho & Hl & Hfit & Hdec & Hid & HD). exists d. split; [|done]. unfold load_candidate.
  rewrite (ReadAt_ok _ _ f) by done. cbn [mbind outcome_bind].
  unfold decode_blob in Hdec. apply bind_Ok in Hdec as (pt & -> & Hdec). cbn [mbind outcome_bind].
  unfold IsCompressed. destruct (negb (b_UncompressedLength (pb_Blob pb) =? 0)).
  - rewrite Hdec. cbn [mbind outcome_bind].
    assert (ID_Equal (Hash d) (b_ID (pb_Blob pb)) = true) as -> by by apply ID_Equal_spec. done.
  - injection Hdec as ->. cbn [mbind outcome_bind].
    assert (ID_Equal (Hash d) (b_ID (pb_Blob pb)) = true) as -> by by apply ID_Equal_spec. done.
Qed.

Lemma LoadBlob_ok cache (r : Repo) C t id :
  mi_repr sum64 (idx r) C -> valid_type (mkBlobHandle id t) -> stored (idx r) C (mkBlobHandle id t) ->
  (forall t pb, (t < NumBlobTypes)%nat -> pb ∈ contents (idx r) C t -> pb_good (be_files (be r)) (key r) pb) ->
  exists d, LoadBlob aes_Encrypt poly1305_Verify Hash sum64 zstd_DecodeAll cache r t id = Ok d /\ Hash d = id /\ D d.
Proof.
  intros HR Ht Hst Hgood. unfold LoadBlob. destruct (Lookup_elem sum64 (idx r) C _ HR Ht) as (pbs & -> & Hpbs).
  cbn [mbind outcome_bind]. unfold stored in Hst. apply list_elem_of_fmap in Hst as (pb0 & Hid0 & Hpb0).
  assert (sortCachedPacksFirst cache pbs ≡ₚ pbs) as Hperm.
  { destruct cache as [Has|]; [|done]. unfold sortCachedPacksFirst. destruct (Nat.eqb_spec (length pbs) 1); [done|].
    destruct (cached_steps Has pbs (length pbs)) as (arr & -> & Hl & _ & Htk); [done|].
    rewrite (take_ge pbs (length pbs)) in Htk |- * by done. rewrite Htk, go_copy_same; [apply filter_split|].
    rewrite length_drop, Hl. pose proof (Permutation_length (filter_split Has pbs)) as Hp. rewrite length_app in Hp. lia. }
  assert (pb0 ∈ pbs) as Hin0 by by apply Hpbs.
  destruct (Nat.eqb_spec (length pbs) 0) as [Hz|_]; [by destruct pbs; [apply elem_of_nil in Hin0|]|].
  destruct (sortCachedPacksFirst cache pbs) as [|pb rest] eqn:Es.
  { apply Permutation_nil_l in Hperm. subst. by apply elem_of_nil in Hin0. }
  assert (pb ∈ pbs) as Hin by (rewrite <- Hperm; by left).
  apply Hpbs in Hin as [Hc Hid]. cbn [bh_ID] in Hid. unfold pb_ID in Hid.
  assert (bh_type (mkBlobHandle id t) < NumBlobTypes)%nat as Hty by (unfold valid_type, bh_type in *; lia).
  destruct (load_candidate_ok r t pb (Hgood _ _ Hty Hc)) as (d & Hl & Hh & HD). rewrite Hid in Hl, Hh.
  exists d. cbn [LoadBlob_loop]. by rewrite Hl.
Qed.

(** ** The steps of a repository *)

(** Files are added; key, configuration and options stay. *)
Definition evolves (r r' : Repo) : Prop :=
  be_files (be r) ⊆ be_files (be r') /\ key r' = key r /\ opts r' = opts r /\ cfg r' = cfg r /\
  noAutoIndexUpdate r' = noAutoIndexUpdate r.

Lemma evolves_refl r : evolves r r.
Proof. by split_and!. Qed.
Lemma evolves_trans a b c : evolves a b -> evolves b c -> evolves a c.
Proof. intros (? & ? & ? & ? & ?) (? & ? & ? & ? & ?). split_and!; try congruence. by etransitivity. Qed.

Abbreviation SaveUnpacked_idx := (SaveUnpacked_index aes_Encrypt poly1305_Sum Hash zstd_EncodeAll rand).

(** Saving with an invalid key panics before anything is saved. *)
Lemma SaveUnpacked_idx_evolves (r : Repo) buf : evolves r (SaveUnpacked_idx r buf).1.
Proof.
  unfold SaveUnpacked_index, SaveUnpacked. destruct (NewRandomNonce _); [|apply evolves_refl..].
  destruct (Seal _ _ _ _ _ _ _) as [[ct k]|e|p]; [|by split_and!..].
  destruct (be_Save _ _ _) as [b res] eqn:Es. destruct (be_Save_cases _ _ _ _ _ Es) as (Hg & _). by split_and!.
Qed.

Lemma saveIndex_evolves (r : Repo) mi ls :
  evolves r (saveIndex sum64 json_Encode SaveUnpacked_idx r mi ls).1.1.
Proof. apply saveIndex_world; [apply evolves_refl|apply evolves_trans|apply SaveUnpacked_idx_evolves]. Qed.

(** ** Index files *)

(** The index an index file holds. *)
Definition read_index (r : Repo) (f : list byte) : outcome jsonIndex :=
  try pt <- open_buffer aes_Encrypt poly1305_Verify (key r) f;
  try buf <- decompressUnpacked zstd_DecodeAll r pt;
  json_Unmarshal buf.

Definition index_good (r : Repo) (j : jsonIndex) : Prop :=
  Forall (fun pb => pb_good (be_files (be r)) (key r) pb /\ storable (pb_Blob pb) /\ pb_PackID pb <> nullID)
    (file_blobs (ji_Packs j)).

(** Every index file is named by its hash and lists blobs that can be loaded. *)
Definition files_good (r : Repo) : Prop :=
  forall name f, be_files (be r) !! mkHandle IndexFile false name = Some f ->
    name = ID_String (Hash f) /\ exists j, read_index r f = Ok j /\ index_good r j.

(** The copy is listed in an index file. *)
Definition persisted (r : Repo) (t : nat) (pb : PackedBlob) : Prop :=
  exists f j, be_files (be r) !! mkHandle IndexFile false (ID_String (Hash f)) = Some f /\
    read_index r f = Ok j /\ pb ∈ of_type t (file_blobs (ji_Packs j)).

Lemma pb_good_mono files files' k pb : files ⊆ files' -> pb_good files k pb -> pb_good files' k pb.
Proof. intros Hs (f & d & Hf & Hrest). exists f, d. split; [by eapply lookup_weaken|done]. Qed.

Lemma read_index_evolves r r' f : evolves r r' -> read_index r' f = read_index r f.
Proof. intros (_ & Ek & _ & Ec & _). unfold read_index, decompressUnpacked. by rewrite Ek, Ec. Qed.

Lemma index_good_mono r r' j : evolves r r' -> index_good r j -> index_good r' j.
Proof.
  intros (Hf & Ek & _) HF. eapply Forall_impl; [exact HF|]. intros pb (Hg & Hr). split; [|done]. rewrite Ek.
  by eapply pb_good_mono.
Qed.

Lemma persisted_mono r r' t pb : evolves r r' -> persisted r t pb -> persisted r' t pb.
Proof.
  intros Hev (f & j & Hf & Ej & Hpb). exists f, j. split; [eapply lookup_weaken; [exact Hf|apply Hev]|].
  by rewrite (read_index_evolves r r').
Qed.

(** A file is added that is not an index file, or a good one. *)
Lemma files_good_insert r r' h f :
  evolves r r' -> be_files (be r') = <[h := f]> (be_files (be r)) ->
  (h_Type h = IndexFile -> h_Name h = ID_String (Hash f) /\ exists j, read_index r f = Ok j /\ index_good r j) ->
  files_good r -> files_good r'.
Proof.
  intros Hev Ef Hh Hg name f' Hf'. rewrite Ef in Hf'.
  assert (name = ID_String (Hash f') /\ exists j, read_index r f' = Ok j /\ index_good r j) as (-> & j & Ej & Hj).
  { apply lookup_insert_Some in Hf' as [[-> ->]|[_ Hf']]; [by apply Hh|by apply Hg]. }
  split; [done|]. exists j. rewrite (read_index_evolves r r') by done. split; [done|]. by eapply index_good_mono.
Qed.

(** The invariant under which an index is saved, since [r0]. *)
Definition index_world (r0 w : Repo) : Prop :=
  evolves r0 w /\ Key_Valid (key w) = true /\ be_ok (be w) /\ files_good w.

(** Saving an index: the file is good, and lists the copies of the index. *)
Lemma SaveIndex_file r0 w i c buf :
  index_world r0 w -> index_repr sum64 i c ->
  Forall (fun pb => pb_PackID pb <> nullID /\ pb_good (be_files (be r0)) (key r0) pb) (all_blobs c) ->
  Encode json_Encode i = Ok buf ->
  ~ panics (SaveUnpacked_idx w buf).2 /\ index_world r0 (SaveUnpacked_idx w buf).1 /\
  forall id t pb, (SaveUnpacked_idx w buf).2 = Ok id -> (t < NumBlobTypes)%nat -> pb ∈ c t ->
    persisted (SaveUnpacked_idx w buf).1 t pb.
Proof using Henv HL.
  intros (Hev & Hk & Hok & Hg) HI Hall Eb. pose proof (SaveUnpacked_idx_evolves w buf) as Hev'.
  assert (Forall (fun pb => pb_PackID pb <> nullID) (all_blobs c)) as Hnull by (eapply Forall_impl; [exact Hall|]; by intros pb [? _]).
  destruct (generatePackList_ok sum64 i c HI Hnull) as (L & EL & HpL). unfold Encode in Eb. rewrite EL in Eb.
  cbn [mbind outcome_bind] in Eb. set (j := mkJsonIndex (idx_supersedes i) L) in *.
  assert (index_good w j) as Hj.
  { unfold index_good. cbn [ji_Packs j]. rewrite HpL. pose proof (content_storable sum64 i c HI) as Hst.
    rewrite Forall_forall in Hall, Hst |- *. intros pb Hpb. destruct (Hall pb Hpb) as [Hn Hgd].
    split; [|split; [by apply Hst|done]]. destruct Hev as (Hf & -> & _). by eapply pb_good_mono. }
  unfold SaveUnpacked_index in *. destruct (SaveUnpacked_eq _ _ _ _ _ _ _ _ _ Henv w IndexFile buf Hk) as (f & Hopen & Heq).
  change (open_buffer aes_Encrypt poly1305_Verify (key w) f = Ok (compressUnpacked zstd_EncodeAll w buf)) in Hopen.
  change (IndexFile =? ConfigFile) with false in Heq. cbn zeta iota in Heq.
  destruct (be_Save _ _ f) as [b res] eqn:Es. rewrite (Heq b res eq_refl) in Hev' |- *. clear Heq. cbn [fst snd] in *.
  destruct (be_Save_cases _ _ _ _ _ Es) as (Hsub & Hnp & Hok' & Hcase).
  assert (read_index w f = Ok j) as Ej.
  { unfold read_index. rewrite Hopen.
    cbn [mbind outcome_bind]. rewrite (decompress_compress _ _ _ _ _ _ _ _ _ Henv). cbn [mbind outcome_bind].
    by apply (ev_json_decode Henv). }
  split; [destruct res; [apply Ok_no_panic|apply Err_no_panic|]; destruct Hnp; by eexists|].
  split.
  - split; [by eapply evolves_trans|]. split; [done|]. split; [by apply Hok'|].
    destruct Hcase as [[Ef _]|[_ Ef]].
    + intros name f' Hf'. cbn [be set_be] in Hf'. rewrite Ef in Hf'. destruct (Hg name f' Hf') as (-> & j' & Ej' & Hj').
      split; [done|]. exists j'. rewrite (read_index_evolves w) by done. split; [done|]. by eapply index_good_mono.
    + eapply (files_good_insert w); [done|exact Ef| |done]. intros _. cbn. eauto.
  - intros id t pb Eid Ht Hpb. destruct res as [u|e|p]; [|done..]. destruct Hcase as [[_ Hn]|[_ Ef]]; [by destruct (Hn u)|].
    exists f, j. cbn [be set_be]. rewrite Ef. change (canon _) with (mkHandle IndexFile false (ID_String (Hash f))).
    rewrite lookup_insert_eq. split; [done|]. rewrite (read_index_evolves w) by done. split; [done|].
    cbn [ji_Packs j]. apply of_type_In. rewrite HpL. apply of_type_In. by rewrite (of_type_all sum64 i c t HI Ht).
Qed.

(** ** The invariant *)

Definition item_handle (a : add_args) : BlobHandle := mkBlobHandle (aa_id a) (aa_t a).

Definition contents_good (r : Repo) (C : loc -> content) : Prop :=
  forall t pb, (t < NumBlobTypes)%nat -> pb ∈ contents (idx r) C t -> pb_good (be_files (be r)) (key r) pb.

Definition contents_persisted (r : Repo) (C : loc -> content) : Prop :=
  forall t pb, (t < NumBlobTypes)%nat -> pb ∈ contents (idx r) C t -> persisted r t pb \/ in_open (idx r) C t pb.

(** [open]: the blobs in open packers.  Every blob of the index can be loaded,
    and is listed in an index file unless its index is not final; every pending
    blob is in an open packer. *)
Record core_inv (r : Repo) (C : loc -> content) (open : list add_args) : Prop := {
  ci_mi : mi_inv sum64 (idx r) C;
  ci_good : contents_good r C;
  ci_key : Key_Valid (key r) = true;
  ci_size : 0 < PackSize (opts r) <= 2 ^ 31;
  ci_ok : be_ok (be r);
  ci_files : files_good r;
  ci_persisted : contents_persisted r C;
  ci_pending : forall bh, bh ∈ pendingBlobs (idx r) -> bh ∈ item_handle <$> open }.

Definition stored_in (r : Repo) (C : loc -> content) (bh : BlobHandle) : Prop := stored (idx r) C bh.

Lemma stored_same mi C mi' C' bh :
  valid_type bh ->
  (forall t pb, (t < NumBlobTypes)%nat -> pb ∈ contents mi C t -> pb ∈ contents mi' C' t) ->
  stored mi C bh -> stored mi' C' bh.
Proof.
  intros Ht Hc (pb & E & Hpb)%list_elem_of_fmap. apply list_elem_of_fmap. exists pb. split; [done|].
  apply Hc; [|done]. unfold valid_type, bh_type in *. lia.
Qed.

(** Saving the selected indexes neither adds nor loses a blob; when all open
    indexes are selected and saving succeeds, every blob is in an index file. *)
Lemma save_sel_ok sel r C open :
  (forall i, sel i = true -> final i = false) -> core_inv r C open ->
  exists mi1 ls, finalize_sel sel (idx r) = Ok (mi1, ls) /\
  forall w mi' res, saveIndex sum64 json_Encode SaveUnpacked_idx r mi1 ls = (w, mi', res) ->
    res = Ok tt ->
    exists C', core_inv (set_repo_idx w mi') C' open /\ evolves r (set_repo_idx w mi') /\ same_known (idx r) C mi' C' /\
      ((forall i, final i = false -> sel i = true) ->
       forall t pb, (t < NumBlobTypes)%nat -> pb ∈ contents mi' C' t -> persisted (set_repo_idx w mi') t pb).
Proof using Henv HL clock.
  intros Hsel [Hmi Hgood Hk Hs Hok Hg Hper Hp].
  assert (index_world r r) as Hw by (split; [apply evolves_refl|done]).
  destruct (step_save sum64 json_Encode SaveUnpacked_idx (index_world r) persisted (pb_good (be_files (be r)) (key r))
    (ev_json Henv) (SaveIndex_file r)
    (fun w buf t pb => persisted_mono w _ t pb (SaveUnpacked_idx_evolves w buf)) sel r (idx r) C Hw Hsel Hmi Hgood)
    as (mi1 & ls & Efin & w' & mi'' & res' & C' & Esv & _ & (Hev & Hk' & Hok' & Hg') & Hinv' & Hsame & HP & Hop).
  exists mi1, ls. split; [done|]. intros w mi' res E ->. rewrite Esv in E. injection E as -> -> ->.
  specialize (Hop eq_refl).
  assert (forall t pb, (t < NumBlobTypes)%nat -> pb ∈ contents mi' C' t ->
    persisted w t pb \/ (in_open mi' C' t pb /\ exists i, final i = false /\ sel i = false)) as Hall.
  { intros t pb Ht Hpb. apply Hsame in Hpb; [|done]. destruct (Hper t pb Ht Hpb) as [Hd|Ho]; [left; by apply HP|].
    destruct (Hop t pb Ht Ho) as [?|?]; tauto. }
  exists C'. split; [split|split; [done|split; [done|]]].
  - done.
  - intros t pb Ht Hpb. cbn. destruct Hev as (Hf & -> & _). eapply pb_good_mono; [exact Hf|]. eapply Hgood; [exact Ht|].
    by apply Hsame.
  - done.
  - destruct Hev as (_ & _ & Eo & _). cbn. by rewrite Eo.
  - done.
  - exact Hg'.
  - intros t pb Ht Hpb. destruct (Hall t pb Ht Hpb) as [?|[? _]]; [by left|by right].
  - cbn. by rewrite (proj1 Hsame).
  - intros Hcover t pb Ht Hpb. destruct (Hall t pb Ht Hpb) as [?|[_ (i & Hf & Hsi)]]; [done|].
    by rewrite (Hcover i Hf) in Hsi.
Qed.

Lemma core_inv_tick r C open : core_inv r C open -> core_inv (tick r) C open.
Proof. by intros []; split. Qed.

(** Saving the full indexes. *)
Lemma save_full_ok r C open r' :
  core_inv r C open ->
  save_full_index aes_Encrypt poly1305_Sum Hash sum64 zstd_EncodeAll json_Encode rand clock r = (r', Ok tt) ->
  exists C', core_inv r' C' open /\ evolves r r' /\ same_known (idx r) C (idx r') C'.
Proof using Henv HL.
  intros Hinv E. unfold save_full_index, SaveFullIndex, finalizeFullIndexes in E.
  destruct (save_sel_ok (fun i => if Final i then false else IndexFull (clock (env r)) i (mi_compress (idx r))) (tick r) C open)
    as (mi1 & ls & Efin & Hsv).
  { intros i. unfold Final. by destruct (final i). }
  { by apply core_inv_tick. }
  cbn [idx tick] in Efin. rewrite Efin in E. destruct (saveIndex _ _ _ _ _ _) as [[w mi'] res] eqn:Esv. injection E as <- ->.
  destruct (Hsv w mi' _ eq_refl eq_refl) as (C' & Hinv' & Hev & Hsame & _). exists C'. done.
Qed.

Lemma blob_handles_add_blobs pos items : blob_handles (add_blobs pos items) = list_to_set (item_handle <$> items).
Proof.
  unfold blob_handles. f_equal. revert pos; induction items as [|a items IH]; intros pos; [done|].
  cbn [add_blobs]. rewrite !fmap_cons. by rewrite IH.
Qed.

Lemma add_blobs_elem pos items b :
  b ∈ add_blobs pos items -> 0 <= pos -> exists i a, items !! i = Some a /\ add_blobs pos items !! i = Some b.
Proof.
  intros [i Hi]%list_elem_of_lookup _. exists i. pose proof (lookup_lt_Some _ _ _ Hi) as Hlt. rewrite length_add_blobs in Hlt.
  destruct (lookup_lt_is_Some_2 items i Hlt) as [a Ha]. eauto.
Qed.

Lemma add_blobs_storable items :
  Forall add_ok items -> within_limits items -> Forall storable (add_blobs 0 items).
Proof.
  intros HF (_ & _ & Ho). apply Forall_forall. intros b Hb.
  destruct (add_blobs_elem 0 items b Hb) as (i & a & Ha & Hi); [lia|].
  destruct (add_blobs_slice items i a [] Ha) as (b' & Hi' & Eh & El & Eu & Hpos & _). rewrite Hi in Hi'. injection Hi' as <-.
  eapply Forall_forall in Ho; [|exact Hb]. eapply Forall_lookup in HF; [|exact Ha]. destruct HF as (Ht & Hlen & Hu).
  unfold storable, b_Type. rewrite Eh, El, Eu. cbn. unfold is_u32 in *. pose proof (zlen_nonneg (aa_data a)).
  split_and!; try lia; destruct Ht as [-> | ->]; done.
Qed.

(** A file that is not an index file is saved. *)
Lemma core_inv_save r C open h f b res :
  core_inv r C open -> be_Save (be r) h f = (b, res) -> h_Type h <> IndexFile ->
  core_inv (set_be r b) C open /\ evolves r (set_be r b).
Proof using HL.
  intros [Hmi Hgood Hk Hs Hok Hg Hper Hp] Es Hh. destruct (be_Save_cases _ _ _ _ _ Es) as (Hsub & _ & Hok' & Hcase).
  assert (evolves r (set_be r b)) as Hev by by split_and!. split; [|done]. split; try done.
  - intros t pb Ht Hpb. eapply pb_good_mono; [exact Hsub|]. by eapply Hgood.
  - by apply Hok'.
  - destruct Hcase as [[Ef _]|[_ Ef]]; [|by eapply (files_good_insert r _ (canon h) f)].
    intros name f' Hf'. cbn [be set_be] in Hf'. rewrite Ef in Hf'. destruct (Hg name f' Hf') as (-> & j' & Ej' & Hj').
    split; [done|]. exists j'. split; [done|]. by eapply index_good_mono.
  - intros t pb Ht Hpb. destruct (Hper t pb Ht Hpb) as [Hd|Ho]; [left; by eapply persisted_mono|by right].
Qed.

(** The blobs of a pack that is on the backend can be loaded. *)
Lemma packed_good files k items id tail bl :
  files !! mkHandle PackFile false (ID_String id) = Some (total_data items ++ tail) ->
  Forall (item_good k) items -> bl ∈ add_blobs 0 items -> pb_good files k (packed id bl).
Proof.
  intros Hf Hitems Hbl. destruct (add_blobs_elem 0 items bl Hbl) as (i & a & Ha & Hi); [lia|].
  destruct (add_blobs_slice items i a tail Ha) as (b' & Hi' & Eh & El & Eu & Hpos & Hfit & Hsl).
  rewrite Hi in Hi'. injection Hi' as <-. eapply Forall_lookup in Hitems; [|exact Ha].
  destruct Hitems as (_ & Hne & d & Hdec & Hid & HD). exists (total_data items ++ tail), d. cbn [pb_PackID pb_Blob packed].
  split; [exact Hf|]. split; [done|]. split; [lia|]. split; [done|]. rewrite Hsl, Eu. split; [exact Hdec|].
  split; [|done]. unfold b_ID. rewrite Eh. exact Hid.
Qed.

Lemma add_ok_valid a : add_ok a -> valid_type (item_handle a).
Proof. intros [Ht _]. unfold valid_type, item_handle. cbn. destruct Ht as [-> | ->]; done. Qed.

(** A pack that is indexed: its blobs are stored. *)
Lemma store_pack_ok r C id items open open' now :
  core_inv r C open -> id <> nullID -> Forall add_ok items -> within_limits items ->
  (forall bl, bl ∈ add_blobs 0 items -> pb_good (be_files (be r)) (key r) (packed id bl)) ->
  (forall a, a ∈ open -> a ∈ items \/ a ∈ open') ->
  exists mi' C', StorePack sum64 now (idx r) id (add_blobs 0 items) = Ok mi' /\ core_inv (set_repo_idx r mi') C' open' /\
    (forall t pb, (t < NumBlobTypes)%nat -> pb ∈ contents (idx r) C t -> pb ∈ contents mi' C' t) /\
    Forall (fun a => stored mi' C' (item_handle a)) items.
Proof.
  intros [Hmi Hgood Hk Hs Hok Hg Hper Hp] Hid Hadd Hlim Hpb Hopen.
  destruct (step_StorePack sum64 now (idx r) C id (add_blobs 0 items) Hmi Hid (add_blobs_storable items Hadd Hlim))
    as (mi' & C1 & -> & Hmi1 & _ & Hpend & Hop & Hc).
  exists mi', C1. split; [done|]. split; [split; try done|split].
  - intros ty pb Hty. cbn [idx set_repo_idx]. rewrite Hc, elem_of_app. intros [Hin|[Hin _]%of_type_In]; [by eapply Hgood|].
    apply list_elem_of_fmap in Hin as (bl & -> & Hbl). by apply Hpb.
  - intros ty pb Hty. cbn [idx set_repo_idx]. rewrite Hc, elem_of_app. intros [Hin|Hin]; [|right; apply Hop; by right].
    destruct (Hper ty pb Hty Hin) as [Hd|Ho]; [by left|right; apply Hop; by left].
  - intros bh. cbn [idx set_repo_idx]. rewrite Hpend, blob_handles_add_blobs. intros [Hbh Hnot]%elem_of_difference.
    rewrite elem_of_list_to_set in Hnot. apply Hp, list_elem_of_fmap in Hbh as (a & -> & Ha).
    destruct (Hopen a Ha) as [Hi|Ho]; [|by apply list_elem_of_fmap_2].
    destruct Hnot. by apply list_elem_of_fmap_2.
  - intros ty pb _ Hin. rewrite Hc. apply elem_of_app. by left.
  - apply Forall_forall. intros a [i Hi]%list_elem_of_lookup.
    destruct (add_blobs_slice items i a [] Hi) as (b' & Hi' & Eh & _).
    unfold stored. rewrite Hc, fmap_app, elem_of_app. right. apply list_elem_of_fmap.
    exists (packed id b'). unfold pb_ID, b_ID. cbn [pb_Blob packed]. rewrite Eh. split; [done|]. apply of_type_In. split.
    + apply list_elem_of_fmap. exists b'. split; [done|]. by eapply list_elem_of_lookup_2.
    + eapply Forall_lookup in Hadd; [|exact Hi]. destruct Hadd as [Ht _]. unfold bh_type, b_Type. cbn [pb_Blob packed]. rewrite Eh. cbn.
      destruct Ht as [-> | ->]; done.
Qed.

(** A pack that is uploaded: its blobs are stored and can be loaded. *)
Lemma savePacker_ok r C t items open open' r' :
  core_inv r C open -> Forall (item_good (key r)) items -> within_limits items ->
  (forall a, a ∈ open -> a ∈ items \/ a ∈ open') ->
  savePacker aes_Encrypt poly1305_Sum Hash sum64 zstd_EncodeAll json_Encode rand clock r t (packer_of (key r) items) = (r', Ok tt) ->
  exists C', core_inv r' C' open' /\ evolves r r' /\
    (forall t pb, (t < NumBlobTypes)%nat -> pb ∈ contents (idx r) C t -> pb ∈ contents (idx r') C' t) /\
    Forall (fun a => stored_in r' C' (item_handle a)) items.
Proof using Henv HL.
  intros Hinv Hitems Hlim Hopen E.
  assert (Forall add_ok items) as Hadd by (eapply Forall_impl; [exact Hitems|]; by intros a [? _]).
  unfold savePacker in E. destruct (ev_nonce Henv (env r)) as [Hn Hv]. unfold NewRandomNonce in E.
  rewrite Hn, Z.eqb_refl in E. cbn [negb] in E.
  destruct (Packer_Finalize_ok _ _ _ (key r) (rand (env r)) items (ev_cipher Henv) (ci_key _ _ _ Hinv) Hn Hv Hadd)
    as (h & _ & _ & _ & _ & EF); [apply Hlim..|].
  unfold packer_of in E. rewrite EF in E. cbn [pk_wr Packer_Blobs pk_blobs] in E.
  set (enc := pack_header aes_Encrypt poly1305_Sum (key r) (rand (env r)) h) in *.
  set (f := total_data items ++ enc ++ put_uint32 (zlen enc)) in *. set (id := Hash f) in *.
  cbn [be tick] in E. destruct (be_Save (be r) _ f) as [b res] eqn:Es. destruct res as [[]|e|p]; [|done..].
  destruct (be_Save_cases _ _ _ _ _ Es) as (_ & _ & _ & [[_ Hno]|[_ Hin]]); [by destruct (Hno tt)|].
  destruct (core_inv_save (tick r) C open _ f b _ (core_inv_tick r C open Hinv) Es) as [Hinv1 Hev1]; [done|].
  unfold Packer_Blobs in E. cbn [pk_blobs] in E.
  destruct (store_pack_ok (set_be (tick r) b) C id items open open' (clock (env (set_be (tick r) b))) Hinv1 (ev_hash Henv f) Hadd Hlim)
    as (mi' & C1 & Esp & Hinv2 & Hmono & Hst); [|exact Hopen|].
  { intros bl Hbl. eapply packed_good; [|exact Hitems|exact Hbl]. cbn [be set_be]. rewrite Hin. apply lookup_insert_eq. }
  cbn [idx set_be tick env] in E, Esp. rewrite Esp in E.
  set (r1 := set_repo_idx (tick (set_be (tick r) b)) mi') in *.
  assert (evolves r r1) as Hev2 by exact Hev1.
  assert (core_inv r1 C1 open') as Hinv3 by by apply (core_inv_tick _ _ _ Hinv2).
  destruct (noAutoIndexUpdate r1); [injection E as <-; by exists C1|].
  destruct (save_full_ok r1 C1 open' r' Hinv3 E) as (C' & Hinv' & Hev' & Hsame).
  exists C'. split; [done|]. split; [by eapply evolves_trans|]. split.
  - intros ty pb Hty Hpb. apply Hsame; [done|]. by apply Hmono.
  - apply Forall_forall. intros a Ha. rewrite Forall_forall in Hst, Hadd.
    eapply stored_same; [by apply add_ok_valid, Hadd| |by apply Hst]. intros ty pb Hty Hpb. by apply Hsame.
Qed.

(** ** Packers *)

(** A packer manager whose open packer holds [cur]. *)
Definition pm_ok (r : Repo) (pm : packerManager (Wr := list byte)) (cur : list add_args) : Prop :=
  pm_key pm = key r /\ pm_packSize pm = PackSize (opts r) /\
  pm_packer pm = (if bool_decide (cur = []) then None else Some (packer_of (key r) cur)) /\
  open_items (PackSize (opts r)) cur /\ Forall (item_good (key r)) cur.

Lemma pm_ok_evolves r r' pm cur : evolves r r' -> pm_ok r pm cur -> pm_ok r' pm cur.
Proof. intros (_ & Ek & Eo & _) (? & ? & ? & ? & ?). unfold pm_ok. rewrite Ek, Eo. by split_and!. Qed.

Abbreviation save_packer := (savePacker aes_Encrypt poly1305_Sum Hash sum64 zstd_EncodeAll json_Encode rand clock).

Lemma stored_in_mono r C r' C' a :
  add_ok a ->
  (forall t pb, (t < NumBlobTypes)%nat -> pb ∈ contents (idx r) C t -> pb ∈ contents (idx r') C' t) ->
  stored_in r C (item_handle a) -> stored_in r' C' (item_handle a).
Proof.
  intros Ha Hc. apply stored_same; [by apply add_ok_valid|exact Hc].
Qed.

(** Adding to a packer: the blob ends up in the open packer or in the index. *)
Lemma add_to_packer_ok r C pm items a own other r' pm' n :
  core_inv r C (items ++ other ++ [a]) -> pm_key pm = key r -> pm_packSize pm = PackSize (opts r) ->
  open_items (PackSize (opts r)) items -> Forall (item_good (key r)) items -> item_good (key r) a ->
  (own = false -> PackSize (opts r) <= zlen (aa_data a) /\ items = []) ->
  add_to_packer file_Write save_packer r pm (packer_of (key r) items) own (aa_t a) (aa_id a) (aa_data a) (aa_ulen a)
    = (r', pm', Ok n) ->
  (own = true /\ r' = r /\ pm' = set_packer pm (Some (packer_of (key r) (items ++ [a]))) /\
     open_items (PackSize (opts r)) (items ++ [a])) \/
  (exists C', core_inv r' C' other /\ evolves r r' /\ pm' = (if own then set_packer pm None else pm) /\
     (forall t pb, (t < NumBlobTypes)%nat -> pb ∈ contents (idx r) C t -> pb ∈ contents (idx r') C' t) /\
     Forall (fun x => stored_in r' C' (item_handle x)) (items ++ [a])).
Proof using Henv HL.
  intros Hinv Ek Es Ho Hgi Hga Hown E. pose proof (ci_size _ _ _ Hinv) as Hsize.
  assert (add_ok a) as Ha by apply Hga.
  assert (within_limits (items ++ [a])) as Hlim by by eapply open_add.
  assert (Forall add_ok (items ++ [a])) as HFa by (apply Forall_app; split; [apply Ho|by constructor]).
  assert (Forall (item_good (key r)) (items ++ [a])) as Hgood by (apply Forall_app; split; [done|by constructor]).
  unfold add_to_packer in E. rewrite packer_of_app in E.
  assert (pm_packSize (if own then set_packer pm (Some (packer_of (key r) (items ++ [a]))) else pm) = PackSize (opts r)) as Eps
    by (by destruct own).
  rewrite Eps in E.
  destruct ((Packer_Size (packer_of (key r) (items ++ [a])) <? PackSize (opts r)) && negb (Packer_HeaderFull (packer_of (key r) (items ++ [a])))) eqn:Hfull.
  - left. destruct own.
    + injection E as <- <- _. split_and!; try done; by eapply not_full.
    + destruct Hown as [Hge ->]; [done|]. exfalso.
      destruct (packer_of_fields (key r) ([] ++ [a]) HFa (proj1 Hlim)) as [_ E2].
      unfold Packer_Size in Hfull. rewrite E2, total_data_snoc in Hfull. cbn [app] in Hfull.
      apply andb_true_iff in Hfull as [Hlt _]. apply Z.ltb_lt in Hlt. change (total_data []) with (@nil byte) in Hlt. cbn [app] in Hlt. lia.
  - right. destruct (save_packer r (aa_t a) (packer_of (key r) (items ++ [a]))) as [r1 res] eqn:Esp.
    destruct res as [[]|e|p]; [|done..]. injection E as <- <- _.
    destruct (savePacker_ok r C (aa_t a) (items ++ [a]) (items ++ other ++ [a]) other r1 Hinv Hgood Hlim) as (C' & Hinv' & Hev & Hmono & Hst); [|exact Esp|].
    { intros x. rewrite !elem_of_app. tauto. }
    exists C'. split_and!; try done; try apply Hinv'; try apply Hev. by destruct own.
Qed.

Lemma core_inv_handles r C open open' :
  (forall bh, bh ∈ item_handle <$> open -> bh ∈ item_handle <$> open') -> core_inv r C open -> core_inv r C open'.
Proof. intros Hsub [H1 H2 H3 H4 H5]. split; try done. auto. Qed.

Lemma core_inv_open r C open open' :
  (forall a, a ∈ open -> a ∈ open') -> core_inv r C open -> core_inv r C open'.
Proof. intros Hsub. apply core_inv_handles. intros bh (x & -> & Hx)%list_elem_of_fmap. by apply list_elem_of_fmap_2, Hsub. Qed.

Lemma pm_ok_closed r r' pm pm' :
  0 < PackSize (opts r) <= 2 ^ 31 -> evolves r r' ->
  pm_key pm = key r -> pm_packSize pm = PackSize (opts r) -> pm' = set_packer pm None -> pm_ok r' pm' [].
Proof.
  intros Hs Hev Ek Es ->. apply (pm_ok_evolves r); [done|]. do 3 (split; [done|]). split; [by apply open_nil|done].
Qed.

Lemma pm_save_ok r C pm cur a other r' pm' n :
  pm_ok r pm cur -> core_inv r C (cur ++ other ++ [a]) -> item_good (key r) a ->
  SaveBlob file_Write (Ok []) save_packer r pm (aa_t a) (aa_id a) (aa_data a) (aa_ulen a) = (r', pm', Ok n) ->
  exists C' cur', pm_ok r' pm' cur' /\ core_inv r' C' (cur' ++ other) /\ evolves r r' /\
    (forall t pb, (t < NumBlobTypes)%nat -> pb ∈ contents (idx r) C t -> pb ∈ contents (idx r') C' t) /\
    (forall x, x ∈ cur ++ [a] -> x ∈ cur' \/ stored_in r' C' (item_handle x)).
Proof using Henv HL.
  intros Hpm Hinv Hga E. pose proof Hpm as (Ek & Es & Ep & Ho & Hgc). unfold SaveBlob, choose_packer in E. rewrite Ep in E.
  pose proof (ci_size _ _ _ Hinv) as Hsize. pose proof (open_nil _ Hsize) as Hnil.
  case_bool_decide as Hcur.
  - (* a new packer *)
    subst cur. unfold newPacker in E. cbn [mbind outcome_bind] in E. rewrite Ek in E.
    change (NewPacker (key r) []) with (packer_of (key r) []) in E. cbn [app] in Hinv.
    destruct (add_to_packer_ok r C (set_packer pm (Some (packer_of (key r) []))) [] a true other r' pm' n
      Hinv Ek Es Hnil ltac:(done) Hga ltac:(done) E)
      as [(_ & -> & -> & Hopen)|(C' & Hinv' & Hev & Epm & Hmono & Hst)].
    + exists C, [a]. split; [|split; [|split; [apply evolves_refl|split; [done|]]]].
      * do 3 (split; [done|]). split; [done|by constructor].
      * eapply core_inv_open; [|exact Hinv]. intros x. rewrite !elem_of_app. tauto.
      * intros x Hx. by left.
    + exists C', []. split; [by eapply (pm_ok_closed r)|]. split; [done|split; [done|split; [done|]]].
      intros x Hx. right. eapply Forall_forall in Hst; [exact Hst|done].
  - rewrite Es in E. destruct (Z.leb_spec (PackSize (opts r)) (zlen (aa_data a))) as [Hge|Hlt].
    + (* an oversized blob has a packer of its own *)
      unfold newPacker in E. cbn [mbind outcome_bind] in E. rewrite Ek in E.
      change (NewPacker (key r) []) with (packer_of (key r) []) in E. rewrite app_assoc in Hinv.
      destruct (add_to_packer_ok r C pm [] a false (cur ++ other) r' pm' n
        Hinv Ek Es Hnil ltac:(done) Hga ltac:(done) E)
        as [(? & _)|(C' & Hinv' & Hev & -> & Hmono & Hst)]; [done|].
      exists C', cur. split; [by eapply pm_ok_evolves|split; [done|split; [done|split; [done|]]]].
      intros x [Hx|Hx]%elem_of_app; [by left|]. right. eapply Forall_forall in Hst; [exact Hst|done].
    + destruct (add_to_packer_ok r C pm cur a true other r' pm' n
        Hinv Ek Es Ho Hgc Hga ltac:(done) E)
        as [(_ & -> & -> & Hopen)|(C' & Hinv' & Hev & Epm & Hmono & Hst)].
      * exists C, (cur ++ [a]). split; [|split; [|split; [apply evolves_refl|split; [done|]]]].
        -- split; [done|]. split; [done|]. split; [rewrite bool_decide_eq_false_2; [done|by destruct cur]|].
           split; [done|]. apply Forall_app. split; [done|by constructor].
        -- eapply core_inv_open; [|exact Hinv]. intros x. rewrite !elem_of_app. tauto.
        -- intros x Hx. by left.
      * exists C', []. split; [by eapply (pm_ok_closed r)|]. split; [done|split; [done|split; [done|]]].
        intros x Hx. right. eapply Forall_forall in Hst; [exact Hst|done].
Qed.

(** Flushing a manager stores what its packer holds. *)
Lemma pm_flush_ok r C pm cur other r' pm' :
  pm_ok r pm cur -> core_inv r C (cur ++ other) ->
  Flush save_packer r pm = (r', pm', Ok tt) ->
  exists C', core_inv r' C' other /\ evolves r r' /\
    (forall t pb, (t < NumBlobTypes)%nat -> pb ∈ contents (idx r) C t -> pb ∈ contents (idx r') C' t) /\
    Forall (fun x => stored_in r' C' (item_handle x)) cur.
Proof using Henv HL.
  intros (Ek & Es & Ep & Ho & Hgc) Hinv E. unfold Flush in E. rewrite Ep in E. case_bool_decide as Hcur.
  - subst cur. injection E as <- <-. exists C. split; [done|]. split; [apply evolves_refl|]. done.
  - destruct (save_packer r (pm_tpe pm) (packer_of (key r) cur)) as [r1 res] eqn:Esp.
    destruct res as [[]|e|p]; [|done..]. injection E as <- <-.
    pose proof (ci_size _ _ _ Hinv) as Hsize.
    assert (within_limits cur) as Hlim.
    { pose proof (open_offsets _ Hsize cur Ho) as Hoff. destruct Ho as (HF & Hd & Hh). split; [lia|]. split; [|done].
      pose proof (CalculateHeaderSize_bound (add_blobs 0 cur)) as Hb. unfold zlen in *. rewrite length_add_blobs in Hb.
      unfold entrySize, headerLengthSize in *. lia. }
    eapply savePacker_ok; [exact Hinv|done|done| |exact Esp]. intros x. rewrite elem_of_app. tauto.
Qed.
(** ** Blobs *)

(** The plaintext that [saveAndEncrypt] seals is short enough for its stored
    length to fit in 32 bits. *)
Definition short (d : list byte) : Prop :=
  zlen d < 2 ^ 31 /\ forall l, zlen (zstd_EncodeAll l d []) < 2 ^ 31.

(** What [saveAndEncrypt] passes to the packer decodes to the blob. *)
Lemma encode_blob_good (r : Repo) t d nonce :
  Key_Valid (key r) = true -> zlen nonce = ivSize -> validNonce nonce = true ->
  t = DataBlob \/ t = TreeBlob -> short d -> D d ->
  let '(pt, ulen) := encode_blob zstd_EncodeAll r t d in
  item_good (key r) (mkAdd t (Hash d) (nonce ++ sealed aes_Encrypt poly1305_Sum (key r) nonce pt) ulen).
Proof using Henv.
  intros Hk Hn Hv Ht [Hs Hsz] HD. unfold encode_blob. pose proof (zlen_nonneg d) as Hd0.
  destruct ((1 <? Version (cfg r)) && _).
  - set (pt := zstd_EncodeAll (Compression (opts r)) d []).
    destruct (open_buffer_sealed _ _ _ _ _ _ _ _ _ Henv (key r) nonce pt Hk Hn Hv) as [Eo Hl]. pose proof (zlen_nonneg pt) as Hp0.
    specialize (Hsz (Compression (opts r))). fold pt in Hsz.
    split; [split; [done|split]|split]; cbn [aa_data aa_ulen]; rewrite ?Hl; unfold Extension, ivSize, macSize, is_u32; try lia.
    exists d. split; [|done]. unfold decode_blob. cbn [aa_data aa_ulen]. rewrite Eo. cbn [mbind outcome_bind].
    destruct (Z.eqb_spec (zlen d) 0) as [Hz|Hz]; cbn [negb]; [|apply (ev_zstd Henv)].
    assert (d = []) as -> by (destruct d; [done|rewrite zlen_cons in Hz; pose proof (zlen_nonneg d); lia]).
    unfold pt. by rewrite (ev_zstd_empty Henv).
  - destruct (open_buffer_sealed _ _ _ _ _ _ _ _ _ Henv (key r) nonce d Hk Hn Hv) as [Eo Hl].
    split; [split; [done|split]|split]; cbn [aa_data aa_ulen]; rewrite ?Hl; unfold Extension, ivSize, macSize, is_u32; try lia.
    exists d. split; [|done]. unfold decode_blob. cbn [aa_data aa_ulen]. rewrite Eo. done.
Qed.

(** A repository with open packers: [tcur] and [dcur] are their contents. *)
Record repo_inv (r : Repo) (C : loc -> content) (tcur dcur : list add_args) : Prop := {
  ri_pms : exists tp dp, pms r = Some (tp, dp) /\ pm_ok r tp tcur /\ pm_ok r dp dcur;
  ri_core : core_inv r C (tcur ++ dcur) }.

(** The blob is stored or in an open packer. *)
Definition safe (r : Repo) (C : loc -> content) (tcur dcur : list add_args) (bh : BlobHandle) : Prop :=
  stored (idx r) C bh \/ bh ∈ item_handle <$> tcur ++ dcur.

Lemma set_pms_inv r C open p : core_inv r C open -> core_inv (set_pms r p) C open.
Proof. by intros []; split. Qed.
Lemma set_pms_ok r pm cur p : pm_ok r pm cur -> pm_ok (set_pms r p) pm cur.
Proof. done. Qed.

(** The manager that takes the blob is [pm]; the other one holds [other]. *)
Lemma pm_save_safe r C pm cur a other r' pm' n :
  pm_ok r pm cur -> core_inv r C (cur ++ other ++ [a]) -> item_good (key r) a ->
  SaveBlob file_Write (Ok []) save_packer r pm (aa_t a) (aa_id a) (aa_data a) (aa_ulen a) = (r', pm', Ok n) ->
  exists C' cur', pm_ok r' pm' cur' /\ core_inv r' C' (cur' ++ other) /\ evolves r r' /\
    forall bh, valid_type bh -> stored (idx r) C bh \/ bh ∈ item_handle <$> cur ++ other ++ [a] ->
      stored (idx r') C' bh \/ bh ∈ item_handle <$> cur' ++ other.
Proof using Henv HL.
  intros Hpm Hinv Hga E. destruct (pm_save_ok r C pm cur a other r' pm' n Hpm Hinv Hga E) as (C' & cur' & Hpm' & Hinv' & Hev & Hmono & Hin).
  exists C', cur'. do 3 (split; [done|]). intros bh Hv [Hst|(x & -> & Hx)%list_elem_of_fmap].
  - left. by eapply stored_same.
  - rewrite !elem_of_app in Hx. assert (x ∈ cur ++ [a] \/ x ∈ other) as [Hx'|Hx'] by (rewrite elem_of_app; tauto).
    + destruct (Hin x Hx') as [Hc|Hst]; [right|by left]. apply list_elem_of_fmap_2. rewrite elem_of_app. by left.
    + right. apply list_elem_of_fmap_2. rewrite elem_of_app. by right.
Qed.

Lemma saveAndEncrypt_ok r C tcur dcur t d r' n :
  (exists tp dp, pms r = Some (tp, dp) /\ pm_ok r tp tcur /\ pm_ok r dp dcur) ->
  core_inv r C (tcur ++ dcur ++ [mkAdd t (Hash d) [] 0]) ->
  t = DataBlob \/ t = TreeBlob -> short d -> D d ->
  saveAndEncrypt aes_Encrypt poly1305_Sum Hash sum64 zstd_EncodeAll json_Encode rand clock r t d (Hash d) = (r', Ok n) ->
  exists C' tcur' dcur', repo_inv r' C' tcur' dcur' /\ evolves r r' /\
    forall bh, valid_type bh -> safe r C tcur dcur bh \/ bh = mkBlobHandle (Hash d) t -> safe r' C' tcur' dcur' bh.
Proof using Henv HL.
  intros (tp & dp & Ep & Htp & Hdp) Hinv Ht Hs HD E. unfold saveAndEncrypt in E.
  destruct (ev_nonce Henv (env r)) as [Hn Hv].
  pose proof (encode_blob_good r t d (rand (env r)) (ci_key _ _ _ Hinv) Hn Hv Ht Hs HD) as Hgood.
  destruct (encode_blob _ _ _ _) as [pt ulen]. unfold NewRandomNonce in E. rewrite Hn, Z.eqb_refl in E. cbn [negb] in E.
  rewrite Seal_ok in E by (try done; apply Hinv). cbn [pms tick key] in E. rewrite Ep in E.
  set (a := mkAdd t (Hash d) (rand (env r) ++ sealed aes_Encrypt poly1305_Sum (key r) (rand (env r)) pt) ulen) in *.
  destruct (Z.eqb_spec t TreeBlob) as [->|Hnt].
  - destruct (SaveBlob _ _ _ _ tp _ _ _ _) as [[r1 pm1] res] eqn:Es. injection E as <- ->.
    destruct (pm_save_safe (tick r) C tp tcur a dcur r1 pm1 n Htp) as (C' & cur' & Hpm' & Hinv' & Hev & Hsafe); [|done|exact Es|].
    { apply core_inv_tick. eapply core_inv_handles; [|exact Hinv]. intros bh. by rewrite !fmap_app. }
    exists C', cur', dcur. split; [|split; [exact Hev|]].
    + split; [|by apply set_pms_inv]. exists pm1, dp. do 2 (split; [done|]). exact (pm_ok_evolves (tick r) r1 dp dcur Hev Hdp).
    + intros bh Hbv Hb. apply Hsafe; [done|]. destruct Hb as [[Hb|Hb]| ->]; [by left|right..].
      * rewrite app_assoc, fmap_app, elem_of_app. by left.
      * rewrite !fmap_app, !elem_of_app. right. right. by left.
  - assert (t = DataBlob) as -> by tauto. cbn [Z.eqb] in E. rewrite Z.eqb_refl in E.
    destruct (SaveBlob _ _ _ _ dp _ _ _ _) as [[r1 pm1] res] eqn:Es. injection E as <- ->.
    destruct (pm_save_safe (tick r) C dp dcur a tcur r1 pm1 n Hdp) as (C' & cur' & Hpm' & Hinv' & Hev & Hsafe); [|done|exact Es|].
    { apply core_inv_tick. eapply core_inv_handles; [|exact Hinv]. intros bh. rewrite !fmap_app, !elem_of_app. cbn. tauto. }
    exists C', tcur, cur'. split; [|split; [exact Hev|]].
    + split; [exists tp, pm1; split; [done|]|]; [split; [exact (pm_ok_evolves (tick r) r1 tp tcur Hev Htp)|done]|].
      apply set_pms_inv. eapply core_inv_open; [|exact Hinv']. intros x. rewrite !elem_of_app. tauto.
    + intros bh Hbv Hb.
      destruct (Hsafe bh Hbv) as [Hr|Hr]; [|by left|right; revert Hr; rewrite !fmap_app, !elem_of_app; tauto].
      destruct Hb as [[Hb|Hb]| ->]; [by left|right..].
      * revert Hb. rewrite !fmap_app, !elem_of_app. tauto.
      * rewrite !fmap_app, !elem_of_app. right. right. by left.
Qed.
(** The short cut for a chunk of zeros gives the hash of the buffer. *)
Lemma ZeroChunk_hash buf :
  (zlen buf =? chunker_MinSize) && (ZeroPrefixLen buf =? chunker_MinSize) = true ->
  ZeroChunk Hash chunker_MinSize = Hash buf.
Proof.
  intros [Hl%Z.eqb_eq Hz%Z.eqb_eq]%andb_true_iff. unfold ZeroChunk. rewrite <- Hl in Hz |- *. f_equal. clear Hl.
  unfold ZeroPrefixLen in Hz. pose proof (zero_blocks_spec (length buf) buf 0) as Hb.
  destruct (zero_blocks _ _ _) as [p' n']. rewrite zero_bytes_spec in Hz. unfold zlen in *. rewrite Nat2Z.id.
  assert (leading_zeros buf = length buf) as E by lia. clear -E. induction buf as [|b buf IH]; [done|].
  cbn in *. destruct (Byte.eqb b "000"%byte) eqn:Eb; [|done]. apply Byte.byte_dec_bl in Eb as ->.
  f_equal. apply IH. lia.
Qed.

Abbreviation Repo_SaveBlob :=
  (RepoSaveBlob aes_Encrypt poly1305_Sum Hash sum64 zstd_EncodeAll json_Encode rand clock chunker_MinSize).

(** A blob that becomes pending, and will be in an open packer. *)
Lemma core_inv_pending r C open bh a :
  core_inv r C open -> item_handle a = bh -> core_inv (set_repo_idx r (set_pending (idx r) ({[bh]} ∪ pendingBlobs (idx r)))) C (open ++ [a]).
Proof.
  intros [[HR H1 H2 H3] Hgood Hk Hs Hok Hg Hper Hp] <-. split; try done.
  - split; [by apply mi_repr_pending|done..].
  - intros bh'. cbn. rewrite elem_of_union, elem_of_singleton, fmap_app, elem_of_app. intros [->|Hb]; [right; by left|left; auto].
Qed.

(** A call of [SaveBlob] that succeeds keeps what was safe, and makes its blob safe. *)
Lemma RepoSaveBlob_ok r C tcur dcur t buf id dup r' newID known size :
  repo_inv r C tcur dcur -> t = DataBlob \/ t = TreeBlob -> short buf -> D buf -> id = nullID \/ id = Hash buf ->
  Repo_SaveBlob r t buf id dup = (r', Ok (newID, known, size)) ->
  newID = Hash buf /\ exists C' tcur' dcur', repo_inv r' C' tcur' dcur' /\ evolves r r' /\
    forall bh, valid_type bh -> safe r C tcur dcur bh \/ bh = mkBlobHandle (Hash buf) t -> safe r' C' tcur' dcur' bh.
Proof using Henv HL.
  intros [Hpms Hcore] Ht Hs HD Hid E. unfold RepoSaveBlob in E.
  set (nid := if IsNull id then _ else _) in E.
  assert (nid = Hash buf) as En.
  { unfold nid. destruct (IsNull id) eqn:Enull.
    - destruct (_ && _) eqn:Ez; [by apply ZeroChunk_hash|done].
    - destruct Hid as [-> | ->]; [by vm_compute in Enull|done]. }
  rewrite En in E. clear nid En.
  set (a := mkAdd t (Hash buf) [] 0). change (mkBlobHandle (Hash buf) t) with (item_handle a) in *.
  assert (valid_type (item_handle a)) as Hv by (unfold valid_type; cbn; destruct Ht as [-> | ->]; done).
  rewrite (AddPending_ok _ _ _ _ (mv_repr _ _ _ (ci_mi _ _ _ Hcore)) Hv) in E. case_decide as Hkn; cbn [negb orb] in E.
  - assert (set_repo_idx r (idx r) = r) as Er by by destruct r. rewrite Er in E. destruct dup; cbn [orb] in E.
    + destruct (saveAndEncrypt _ _ _ _ _ _ _ _ _ _ _ _) as [r1 res] eqn:Es. injection E as <- E.
      apply bind_Ok in E as (n & -> & E). injection E as <- _ _. split; [done|].
      apply (saveAndEncrypt_ok r C tcur dcur t buf r1 n); try done.
      eapply core_inv_open; [|exact Hcore]. intros x. rewrite !elem_of_app. tauto.
    + injection E as <- <- _ _. split; [done|]. exists C, tcur, dcur. split; [by split|]. split; [apply evolves_refl|].
      intros bh Hbv [Hb| ->]; [done|]. destruct Hkn as [Hkn|Hkn]; [right; by apply Hcore|by left].
  - destruct (saveAndEncrypt _ _ _ _ _ _ _ _ _ _ _ _) as [r1 res] eqn:Es. injection E as <- E.
    apply bind_Ok in E as (n & -> & E). injection E as <- _ _. split; [done|].
    pose proof (core_inv_pending r C (tcur ++ dcur) (item_handle a) a Hcore eq_refl) as Hcore'. rewrite <- app_assoc in Hcore'.
    pose proof (saveAndEncrypt_ok (set_repo_idx r _) C tcur dcur t buf r1 n Hpms Hcore' Ht Hs HD Es) as Hres. exact Hres.
Qed.

Abbreviation Repo_Flush := (RepoFlush aes_Encrypt poly1305_Sum Hash sum64 zstd_EncodeAll json_Encode rand clock).

(** A flush that succeeds stores every blob that was safe. *)
Lemma flushPacks_ok r C tcur dcur r' :
  repo_inv r C tcur dcur ->
  flushPacks aes_Encrypt poly1305_Sum Hash sum64 zstd_EncodeAll json_Encode rand clock r = (r', Ok tt) ->
  exists C', core_inv r' C' [] /\ evolves r r' /\
    forall bh, valid_type bh -> safe r C tcur dcur bh -> stored (idx r') C' bh.
Proof using Henv HL.
  intros [(tp & dp & Ep & Htp & Hdp) Hcore] E. unfold flushPacks in E. rewrite Ep in E.
  destruct (Flush _ r tp) as [[r1 tp'] res1] eqn:E1. destruct res1 as [[]|e|p]; [|done..].
  destruct (Flush _ r1 dp) as [[r2 dp'] res2] eqn:E2. destruct res2 as [[]|e|p]; [|done..]. injection E as <-.
  destruct (pm_flush_ok r C tp tcur dcur r1 tp' Htp Hcore E1) as (C1 & Hcore1 & Hev1 & Hmono1 & Hst1).
  destruct (pm_flush_ok r1 C1 dp dcur [] r2 dp' (pm_ok_evolves r r1 dp dcur Hev1 Hdp)) as (C2 & Hcore2 & Hev2 & Hmono2 & Hst2);
    [by rewrite app_nil_r|exact E2|].
  exists C2. split; [by apply set_pms_inv|]. split; [exact (evolves_trans r r1 r2 Hev1 Hev2)|].
  intros bh Hv [Hst|(x & -> & [Hx|Hx]%elem_of_app)%list_elem_of_fmap].
  - eapply stored_same; [done|exact Hmono2|]. by eapply stored_same.
  - eapply stored_same; [done|exact Hmono2|]. eapply Forall_forall in Hst1; [exact Hst1|done].
  - eapply Forall_forall in Hst2; [exact Hst2|done].
Qed.

(** Flushing the repository also saves the index: every blob is in an index
    file, unless saving the index is disabled. *)
Lemma RepoFlush_ok r C tcur dcur r' :
  repo_inv r C tcur dcur -> Repo_Flush r = (r', Ok tt) ->
  exists C', core_inv r' C' [] /\ evolves r r' /\
    (forall bh, valid_type bh -> safe r C tcur dcur bh -> stored (idx r') C' bh) /\
    (noAutoIndexUpdate r = false ->
     forall t pb, (t < NumBlobTypes)%nat -> pb ∈ contents (idx r') C' t -> persisted r' t pb).
Proof using Henv HL.
  intros Hinv E. unfold RepoFlush in E. destruct (flushPacks _ _ _ _ _ _ _ _ r) as [r1 res] eqn:Ef.
  destruct res as [[]|e|p]; [|done..]. destruct (flushPacks_ok r C tcur dcur r1 Hinv Ef) as (C1 & Hcore & Hev & Hst).
  destruct (noAutoIndexUpdate r1) eqn:Ena.
  { injection E as <-. exists C1. do 3 (split; [done|]). intros Hna. destruct Hev as (_ & _ & _ & _ & Hev). congruence. }
  unfold SaveNewIndexes, finalizeNotFinalIndexes in E.
  destruct (save_sel_ok (fun i => negb (Final i)) r1 C1 []) as (mi1 & ls & Efin & Hsv); [|done|].
  { intros i. unfold Final. by destruct (final i). }
  rewrite Efin in E. destruct (saveIndex _ _ _ _ _ _) as [[w mi'] res] eqn:Esv. injection E as <- ->.
  destruct (Hsv w mi' _ eq_refl eq_refl) as (C' & Hinv' & Hev' & Hsame & Hall). exists C'.
  split; [done|]. split; [by eapply evolves_trans|]. split.
  - intros bh Hv Hsafe. eapply stored_same; [done| |by apply Hst]. intros t pb Ht Hpb. by apply Hsame.
  - intros _. apply Hall. intros i Hi. unfold Final. by rewrite Hi.
Qed.

(** ** Sessions *)

(** A call of [SaveBlob]: with an explicit ID or without one, storing
    duplicates or not. *)
Record save_op := mkSave { so_t : BlobType; so_buf : list byte; so_id : ID; so_dup : bool }.

Definition save_step (st : Repo * list ID) (op : save_op) : outcome (Repo * list ID) :=
  match Repo_SaveBlob st.1 (so_t op) (so_buf op) (so_id op) (so_dup op) with
  | (r, Ok (id, _, _)) => Ok (r, st.2 ++ [id])
  | (_, Err e) => Err e
  | (_, Panic p) => Panic p
  end.

Definition save_op_ok (op : save_op) : Prop :=
  (so_t op = DataBlob \/ so_t op = TreeBlob) /\ short (so_buf op) /\ (so_id op = nullID \/ so_id op = Hash (so_buf op)).

Definition op_handle (op : save_op) : BlobHandle := mkBlobHandle (Hash (so_buf op)) (so_t op).

Lemma save_steps ops r C tcur dcur l r' l' :
  repo_inv r C tcur dcur -> Forall (fun op => save_op_ok op /\ D (so_buf op)) ops ->
  ofold save_step (r, l) ops = Ok (r', l') ->
  l' = l ++ ((fun op => Hash (so_buf op)) <$> ops) /\
  exists C' tcur' dcur', repo_inv r' C' tcur' dcur' /\ evolves r r' /\
    forall bh, valid_type bh -> safe r C tcur dcur bh \/ bh ∈ op_handle <$> ops -> safe r' C' tcur' dcur' bh.
Proof using Henv HL.
  intros Hinv Hops. revert r C tcur dcur l Hinv. induction Hops as [|op ops [(Ht & Hs & Hid) HD] _ IH]; intros r C tcur dcur l Hinv E.
  - injection E as <- <-. split; [by rewrite app_nil_r|]. exists C, tcur, dcur. split; [done|]. split; [apply evolves_refl|].
    intros bh _ [Hb|Hb]; [done|by apply elem_of_nil in Hb].
  - cbn [ofold] in E. apply bind_Ok in E as ([r1 l1] & E1 & E). unfold save_step in E1. cbn [fst snd] in E1.
    destruct (Repo_SaveBlob _ _ _ _ _) as [r1' [[[id kn] sz]|e|p]] eqn:Es; [|done..]. injection E1 as -> <-.
    destruct (RepoSaveBlob_ok r C tcur dcur _ _ _ _ _ _ _ _ Hinv Ht Hs HD Hid Es) as (-> & C1 & t1 & d1 & Hinv1 & Hev1 & Hsafe1).
    destruct (IH r1 C1 t1 d1 _ Hinv1 E) as (-> & C2 & t2 & d2 & Hinv2 & Hev2 & Hsafe2).
    split; [by rewrite <- app_assoc|]. exists C2, t2, d2. split; [done|]. split; [by eapply evolves_trans|].
    intros bh Hv Hb. apply Hsafe2; [done|].
    cbn [fmap list_fmap] in Hb. rewrite elem_of_cons in Hb. destruct Hb as [Hb|[Hb|Hb]]; [left..|by right]; apply Hsafe1; auto.
Qed.

(** A repository that is opened, before it loads an index. *)
Lemma New_fields (b : B) k o now r :
  New b k o now = Ok r ->
  be r = b /\ key r = k /\ idx r = NewMasterIndex now /\ noAutoIndexUpdate r = false /\ 0 < PackSize (opts r) <= 2 ^ 31.
Proof.
  unfold New. destruct (_ =? CompressionInvalid); [done|].
  set (o' := if PackSize o =? 0 then mkOptions (Compression o) DefaultPackSize else o) in *.
  destruct (Z.ltb_spec MaxPackSize (PackSize o')) as [|Hmax]; [done|].
  destruct (Z.ltb_spec (PackSize o') MinPackSize) as [|Hmin]; [done|]. intros [= <-].
  do 4 (split; [done|]). cbn [opts]. unfold MinPackSize, MaxPackSize in *. lia.
Qed.

Lemma setConfig_fields (r : Repo) c :
  be (setConfig r c) = be r /\ key (setConfig r c) = key r /\ cfg (setConfig r c) = c /\ opts (setConfig r c) = opts r /\
  noAutoIndexUpdate (setConfig r c) = noAutoIndexUpdate r /\ mi_heap (idx (setConfig r c)) = mi_heap (idx r) /\
  mi_idx (idx (setConfig r c)) = mi_idx (idx r) /\ pendingBlobs (idx (setConfig r c)) = pendingBlobs (idx r).
Proof. unfold setConfig. by destruct (2 <=? Version c). Qed.

Lemma open_idx (b : B) k o now c r :
  New b k o now = Ok r ->
  mi_inv sum64 (idx (setConfig r c)) (fun _ _ => []) /\ pendingBlobs (idx (setConfig r c)) = ∅ /\
  forall t pb, pb ∉ contents (idx (setConfig r c)) (fun _ _ => []) t.
Proof.
  intros E. destruct (New_fields b k o now r E) as (_ & _ & Ei & _).
  destruct (setConfig_fields r c) as (_ & _ & _ & _ & _ & Eh & El & Ep). rewrite Ei in Eh, El, Ep.
  split; [|split; [exact Ep|]].
  - pose proof (NewMasterIndex_inv sum64 now) as [[Hnd Hidx] H1 H2 H3].
    split; [split|..]; rewrite ?El, ?Eh; try done. intros t pb Ht. unfold contents. rewrite El. exact (H3 t pb Ht).
  - intros t pb. unfold contents. rewrite El. cbn. by intros ?%elem_of_nil.
Qed.

(** The repository after [New] and [StartPackUploader], on a backend whose
    index files are good. *)
Lemma start_inv (b : B) k o now c r0 r :
  Key_Valid k = true -> New b k o now = Ok r0 -> be_ok b -> files_good (setConfig r0 c) ->
  StartPackUploader (setConfig r0 c) = Ok r ->
  repo_inv r (fun _ _ => []) [] [] /\ evolves (setConfig r0 c) r.
Proof using Henv.
  intros Hk E0 Hok Hg E. destruct (New_fields b k o now r0 E0) as (Eb & Ek & _ & _ & Hsize).
  destruct (setConfig_fields r0 c) as (Eb' & Ek' & Ec & Eo & _). destruct (open_idx b k o now c r0 E0) as (Hmi & Hp & Hno).
  unfold StartPackUploader in E. destruct (pms _); [done|]. injection E as <-. split; [|by split_and!]. split.
  - eexists _, _. split; [reflexivity|]. split; (split; [done|]; do 2 (split; [done|]); split; [|done]);
      apply open_nil; cbn [opts set_pms]; by rewrite Eo.
  - split; cbn [idx be key opts set_pms]; rewrite ?Ek', ?Eo, ?Eb', ?Ek, ?Eb; try done.
    + intros t pb _ Hpb. by destruct (Hno t pb).
    + intros t pb _ Hpb. by destruct (Hno t pb).
    + rewrite Hp. set_solver.
Qed.

(** ** Opening a repository again *)

Context (json_Unmarshal_old : list byte -> outcome (list (option packJSON))).

Abbreviation load_file := (load_index_file aes_Encrypt poly1305_Verify Hash sum64 zstd_DecodeAll json_Unmarshal json_Unmarshal_old clock).

Lemma ID_String_inj a b : ID_String a = ID_String b -> a = b.
Proof. intros E. pose proof (ParseID_String_ok a) as H1. rewrite E, ParseID_String_ok in H1. by injection H1. Qed.

(** The copies an index file lists. *)
Definition listed (r : Repo) (id : ID) (t : nat) (pb : PackedBlob) : Prop :=
  exists f j, be_files (be r) !! mkHandle IndexFile false (ID_String id) = Some f /\
    read_index r f = Ok j /\ pb ∈ of_type t (file_blobs (ji_Packs j)).

Lemma load_index_file_ok r mi C id size :
  files_good r -> mi_inv sum64 mi C -> is_Some (be_files (be r) !! mkHandle IndexFile false (ID_String id)) ->
  exists mi' C', load_file r mi (id, size) = Ok mi' /\ mi_inv sum64 mi' C' /\
    forall t pb, pb ∈ contents mi' C' t <-> pb ∈ contents mi C t \/ listed r id t pb.
Proof using HL.
  intros Hg Hmi [f Hf]. destruct (Hg _ _ Hf) as (Hname & j & Ej & Hj). apply ID_String_inj in Hname as ->.
  pose proof Ej as Ej'. unfold read_index in Ej'. apply bind_Ok in Ej' as (pt & Hopen & Ej'). apply bind_Ok in Ej' as (buf & Hd & Hu).
  assert (Forall (fun pb => storable (pb_Blob pb)) (file_blobs (ji_Packs j))) as Hst
    by (eapply Forall_impl; [exact Hj|]; by intros pb (_ & ? & _)).
  unfold load_index_file. cbn [fst]. rewrite (LoadUnpacked_eq _ _ Hash _ r IndexFile (Hash f) f pt Hf ltac:(done) Hopen).
  change (negb (IndexFile =? ConfigFile)) with true. cbn iota. rewrite Hd. cbn [mbind outcome_bind].
  destruct (DecodeIndex_ok sum64 json_Unmarshal json_Unmarshal_old (clock (env r)) buf (Hash f) j Hu Hst) as (i & -> & Hfin & _ & _ & HI).
  cbn [mbind outcome_bind].
  pose proof (step_Insert sum64 mi C i _ Hmi Hfin HI) as Hins. destruct (alloc_index mi i) as [mi1 l].
  destruct Hins as (C' & Hmi' & _ & _ & Hc).
  { rewrite all_blobs_of_type by done. eapply Forall_impl; [exact Hj|]. by intros pb (_ & _ & ?). }
  exists (Insert mi1 l), C'. split; [done|]. split; [done|]. intros t pb. rewrite Hc. split; (intros [?|Hpb]; [by left|right]).
  - by exists f, j.
  - destruct Hpb as (f' & j' & Hf' & Ej'' & Hpb). congruence.
Qed.

Lemma load_index_files_ok r files mi C :
  files_good r -> mi_inv sum64 mi C ->
  Forall (fun file : ID * Z => is_Some (be_files (be r) !! mkHandle IndexFile false (ID_String file.1))) files ->
  exists mi' C', ofold (load_file r) mi files = Ok mi' /\ mi_inv sum64 mi' C' /\
    forall t pb, pb ∈ contents mi' C' t <-> pb ∈ contents mi C t \/ exists id, id ∈ files.*1 /\ listed r id t pb.
Proof using HL.
  intros Hg Hmi HF. revert mi C Hmi. induction HF as [|[id size] files Hf _ IH]; intros mi C Hmi.
  - exists mi, C. split; [done|]. split; [done|]. intros t pb. split; [by left|]. intros [?|(id & Hid%elem_of_nil & _)]; done.
  - destruct (load_index_file_ok r mi C id size Hg Hmi Hf) as (mi1 & C1 & E1 & Hmi1 & Hc1).
    destruct (IH mi1 C1 Hmi1) as (mi' & C' & E' & Hmi' & Hc'). exists mi', C'. cbn [ofold]. rewrite E1.
    split; [exact E'|]. split; [done|]. intros t pb. rewrite Hc', Hc1. cbn [fmap list_fmap fst]. setoid_rewrite elem_of_cons.
    split; [intros [[?|?]|(x & ? & ?)]; eauto|]. intros [?|(x & [->|?] & ?)]; eauto.
Qed.

(** A repository opened on a backend with good index files loads its index, and
    then every blob that is listed in an index file. *)
Lemma LoadIndex_ok (b : B) k o now c r0 fis :
  New b k o now = Ok r0 -> 2 <= Version c -> be_ok b -> files_good (setConfig r0 c) -> be_List b IndexFile = Ok fis ->
  exists r C, LoadIndex aes_Encrypt poly1305_Verify Hash sum64 zstd_DecodeAll json_Unmarshal json_Unmarshal_old clock (setConfig r0 c) = Ok r /\
    mi_inv sum64 (idx r) C /\ contents_good r C /\
    forall t pb, (t < NumBlobTypes)%nat -> persisted (setConfig r0 c) t pb -> pb ∈ contents (idx r) C t.
Proof using HL.
  intros E0 Hver Hok Hg HLs. set (r1 := setConfig r0 c) in *.
  destruct (New_fields b k o now r0 E0) as (Eb & Ek & _). destruct (setConfig_fields r0 c) as (Eb' & Ek' & Ec & _). fold r1 in Eb', Ek', Ec.
  destruct (open_idx b k o now c r0 E0) as (Hmi & Hp & Hno). fold r1 in Hmi, Hp, Hno. rewrite Eb in Eb'.
  pose proof (law_List b IndexFile fis Hok HLs) as Hnames. rewrite <- Eb' in Hnames.
  set (files := omap (fun fi => match ParseID (fi_Name fi) with Ok id => Some (id, fi_Size fi) | _ => None end) fis).
  assert (forall id, id ∈ files.*1 <-> is_Some (be_files (be r1) !! mkHandle IndexFile false (ID_String id))) as Hfiles.
  { intros id. rewrite list_elem_of_fmap. split.
    - intros ([id' size] & -> & (fi & Hfi & Hfi')%list_elem_of_omap). cbn [fst].
      assert (is_Some (be_files (be r1) !! mkHandle IndexFile false (fi_Name fi))) as [f Hf] by (apply Hnames; by apply list_elem_of_fmap_2).
      destruct (Hg _ _ Hf) as (Hn & _). rewrite Hn, ParseID_String_ok in Hfi'. injection Hfi' as <- _. rewrite <- Hn. by eexists.
    - intros Hs. apply Hnames, list_elem_of_fmap in Hs as (fi & Hn & Hfi). exists (id, fi_Size fi). split; [done|].
      apply list_elem_of_omap. exists fi. split; [done|]. by rewrite <- Hn, ParseID_String_ok. }
  destruct (load_index_files_ok r1 files (idx r1) _ Hg Hmi) as (mi2 & C2 & E2 & Hmi2 & Hc2).
  { apply Forall_forall. intros file Hin. by apply Hfiles, list_elem_of_fmap_2. }
  destruct (step_Merge sum64 mi2 C2 Hmi2) as (mi3 & C3 & E3 & Hmi3 & [_ Hsame] & _).
  exists (set_repo_idx r1 mi3), C3. unfold LoadIndex, RepoList. rewrite Eb', HLs. cbn [mbind outcome_bind]. fold files. rewrite E2.
  cbn [mbind outcome_bind]. rewrite E3. cbn [mbind outcome_bind cfg set_repo_idx]. rewrite Ec.
  destruct (Z.ltb_spec (Version c) 2); [lia|]. split; [done|]. split; [done|]. split.
  - intros t pb Ht Hpb. apply Hsame, Hc2 in Hpb; [|done]. destruct Hpb as [Hpb|(id & _ & f & j & Hf & Ej & Hpb)]; [by destruct (Hno t pb)|].
    destruct (Hg _ _ Hf) as (_ & j' & Ej' & Hj). assert (j' = j) as -> by congruence. apply of_type_In in Hpb as [Hpb _].
    eapply Forall_forall in Hj; [|exact Hpb]. apply Hj.
  - intros t pb Ht (f & j & Hf & Ej & Hpb). apply Hsame; [done|]. apply Hc2. right. exists (Hash f). split; [|by exists f, j].
    apply Hfiles. by eexists.
Qed.
End Safety.

(** * The theorems *)

Section Sessions.
Context {B : Type} `{HB : Backend B} {HL : BackendLaws B}.
Context (aes_Encrypt : list byte -> list byte -> list byte).
Context (poly1305_Sum : list byte -> list byte -> list byte).
Context (poly1305_Verify : list byte -> list byte -> list byte -> bool).
Context (Hash : list byte -> ID) (sum64 : list byte -> Z).
Context (zstd_EncodeAll : CompressionMode -> list byte -> list byte -> list byte).
Context (zstd_DecodeAll : list byte -> outcome (list byte)).
Context (json_Encode : jsonIndex -> outcome (list byte)).
Context (json_Unmarshal : list byte -> outcome jsonIndex).
Context (json_Unmarshal_old : list byte -> outcome (list (option packJSON))).
Context (rand : nat -> list byte) (clock : nat -> Z) (chunker_MinSize : Z).
Context (Henv : env_ok aes_Encrypt poly1305_Sum poly1305_Verify Hash zstd_EncodeAll zstd_DecodeAll json_Encode json_Unmarshal rand).

(** A session on an open repository: blobs are saved through the pack uploader,
    which is flushed.  [D] are the contents of blobs that matter: among them
    there is no hash collision. *)
Context (D : list byte -> Prop) (Hcoll : forall d1 d2, D d1 -> D d2 -> Hash d1 = Hash d2 -> d1 = d2).
Context (b : B) (Hok : be_ok b) (k : Key) (Hk : Key_Valid k = true) (o : Options) (now : Z) (c : Config).

Abbreviation good_files := (files_good aes_Encrypt poly1305_Verify Hash zstd_DecodeAll json_Unmarshal D).
Abbreviation listed_in := (persisted aes_Encrypt poly1305_Verify Hash zstd_DecodeAll json_Unmarshal).
Abbreviation good_contents := (contents_good aes_Encrypt poly1305_Verify Hash zstd_DecodeAll D).

Lemma session_ok r0 r1 r2 r3 (ops : list save_op) saved :
  New b k o now = Ok r0 -> good_files (setConfig r0 c) -> StartPackUploader (setConfig r0 c) = Ok r1 ->
  Forall (fun op => save_op_ok Hash zstd_EncodeAll op /\ D (so_buf op)) ops ->
  ofold (save_step aes_Encrypt poly1305_Sum Hash sum64 zstd_EncodeAll json_Encode rand clock chunker_MinSize) (r1, []) ops = Ok (r2, saved) ->
  RepoFlush aes_Encrypt poly1305_Sum Hash sum64 zstd_EncodeAll json_Encode rand clock r2 = (r3, Ok tt) ->
  saved = (fun op => Hash (so_buf op)) <$> ops /\
  exists C, mi_inv sum64 (idx r3) C /\ good_contents r3 C /\ good_files r3 /\ be_ok (be r3) /\ evolves (setConfig r0 c) r3 /\
    (forall op, op ∈ ops -> stored (idx r3) C (op_handle Hash op)) /\
    forall t pb, (t < NumBlobTypes)%nat -> pb ∈ contents (idx r3) C t -> listed_in r3 t pb.
Proof using Hok Hk Henv.
  intros Hnew Hg Hstart Hops Hsave Hflush.
  destruct (start_inv _ _ _ _ sum64 _ _ _ _ rand Henv D b k o now c r0 r1 Hk Hnew Hok Hg Hstart) as [Hinv Hev1].
  destruct (save_steps _ _ _ _ _ _ _ _ _ rand clock chunker_MinSize Henv D ops r1 _ _ _ _ _ _ Hinv Hops Hsave)
    as (-> & C2 & t2 & d2 & Hinv2 & Hev2 & Hsafe2).
  destruct (RepoFlush_ok _ _ _ _ _ _ _ _ _ rand clock Henv D r2 C2 t2 d2 r3 Hinv2 Hflush) as (C3 & [] & Hev3 & Hst & Hper).
  split; [done|]. exists C3. split_and!; try done.
  - by eapply evolves_trans; [exact Hev1|]; eapply evolves_trans.
  - intros op Hop. eapply Forall_forall in Hops; [|exact Hop]. destruct Hops as [(Ht & _) _].
    assert (valid_type (op_handle Hash op)) as Hv by (unfold valid_type; cbn; destruct Ht as [-> | ->]; done).
    apply Hst, Hsafe2; [done..|]. right. by apply list_elem_of_fmap_2.
  - apply Hper. destruct (New_fields b k o now r0 Hnew) as (_ & _ & _ & E & _). destruct (setConfig_fields r0 c) as (_ & _ & _ & _ & E' & _).
    destruct Hev1 as (_ & _ & _ & _ & E1), Hev2 as (_ & _ & _ & _ & E2). congruence.
Qed.

(** A blob that is stored in a good index loads with the content it had. *)
Lemma load_stored (r : Repository) C cache op :
  mi_inv sum64 (idx r) C -> good_contents r C -> save_op_ok Hash zstd_EncodeAll op -> D (so_buf op) ->
  stored (idx r) C (op_handle Hash op) ->
  LoadBlob aes_Encrypt poly1305_Verify Hash sum64 zstd_DecodeAll cache r (so_t op) (Hash (so_buf op)) = Ok (so_buf op).
Proof using Hcoll HL.
  intros Hmi Hgood (Ht & _) HD Hst.
  assert (valid_type (mkBlobHandle (Hash (so_buf op)) (so_t op))) as Hv by (unfold valid_type; cbn; destruct Ht as [-> | ->]; done).
  destruct (LoadBlob_ok aes_Encrypt poly1305_Verify Hash sum64 zstd_DecodeAll D cache r C (so_t op) (Hash (so_buf op)) (mv_repr _ _ _ Hmi) Hv Hst Hgood)
    as (d & -> & Hh & HDd).
  f_equal. by apply Hcoll.
Qed.

(** A session that saves blobs through the pack uploader and flushes it without
    an error leaves a repository from which every one of them loads, with the
    content that was saved, whatever the cache holds: on any backend that keeps
    what it stored, with any mix of sizes, known and duplicate blobs, chunks of
    zeros, compressed and uncompressed, explicit IDs and computed ones.  The
    assumptions on the parameters are [env_ok], that no two of the contents have
    the same hash, and that the buffers and their compressed forms are below
    2 GiB. *)
Theorem save_flush_load r0 r1 r2 r3 (ops : list save_op) (saved : list ID)
    (Hnew : New b k o now = Ok r0) (Hg : good_files (setConfig r0 c)) (Hstart : StartPackUploader (setConfig r0 c) = Ok r1)
    (Hops : Forall (fun op => save_op_ok Hash zstd_EncodeAll op /\ D (so_buf op)) ops)
    (Hsave : ofold (save_step aes_Encrypt poly1305_Sum Hash sum64 zstd_EncodeAll json_Encode rand clock chunker_MinSize)
               (r1, []) ops = Ok (r2, saved))
    (Hflush : RepoFlush aes_Encrypt poly1305_Sum Hash sum64 zstd_EncodeAll json_Encode rand clock r2 = (r3, Ok tt)) :
  saved = (fun op => Hash (so_buf op)) <$> ops /\
  forall cache op, op ∈ ops ->
    LoadBlob aes_Encrypt poly1305_Verify Hash sum64 zstd_DecodeAll cache r3 (so_t op) (Hash (so_buf op)) = Ok (so_buf op).
Proof using Hok Hk Henv Hcoll.
  destruct (session_ok r0 r1 r2 r3 ops saved Hnew Hg Hstart Hops Hsave Hflush) as (-> & C & Hmi & Hgood & _ & _ & _ & Hst & _).
  split; [done|]. intros cache op Hop. rewrite Forall_forall in Hops. destruct (Hops op Hop) as [Hopok HD].
  eapply load_stored; [exact Hmi|exact Hgood|done..|by apply Hst].
Qed.

(** C4. Durability: after such a session on a repository of version 2, the backend
    alone is enough.  A repository opened later on the same backend, with the
    same key and configuration and whatever options, loads its index without
    error and then loads every blob of the session; and the index files are
    good, so that a further session can follow. *)
Theorem save_flush_reload r0 r1 r2 r3 (ops : list save_op) (saved : list ID)
    (Hver : 2 <= Version c)
    (Hnew : New b k o now = Ok r0) (Hg : good_files (setConfig r0 c)) (Hstart : StartPackUploader (setConfig r0 c) = Ok r1)
    (Hops : Forall (fun op => save_op_ok Hash zstd_EncodeAll op /\ D (so_buf op)) ops)
    (Hsave : ofold (save_step aes_Encrypt poly1305_Sum Hash sum64 zstd_EncodeAll json_Encode rand clock chunker_MinSize)
               (r1, []) ops = Ok (r2, saved))
    (Hflush : RepoFlush aes_Encrypt poly1305_Sum Hash sum64 zstd_EncodeAll json_Encode rand clock r2 = (r3, Ok tt))
    (o' : Options) (now' : Z) r4 fis (Hlist : be_List (be r3) IndexFile = Ok fis) (Hopen : New (be r3) k o' now' = Ok r4) :
  good_files (setConfig r4 c) /\
  exists r5, LoadIndex aes_Encrypt poly1305_Verify Hash sum64 zstd_DecodeAll json_Unmarshal json_Unmarshal_old clock (setConfig r4 c) = Ok r5 /\
    forall cache op, op ∈ ops ->
      LoadBlob aes_Encrypt poly1305_Verify Hash sum64 zstd_DecodeAll cache r5 (so_t op) (Hash (so_buf op)) = Ok (so_buf op).
Proof using Hok Hk Henv Hcoll.
  destruct (session_ok r0 r1 r2 r3 ops saved Hnew Hg Hstart Hops Hsave Hflush)
    as (-> & C & Hmi & Hgood & Hg3 & Hok3 & Hev & Hst & Hper).
  destruct (New_fields b k o now r0 Hnew) as (_ & Ek0 & _). destruct (setConfig_fields r0 c) as (_ & Ek0' & Ec0 & _).
  destruct Hev as (_ & Ek3 & _ & Ec3 & _).
  destruct (New_fields (be r3) k o' now' r4 Hopen) as (Eb4 & Ek4 & _). destruct (setConfig_fields r4 c) as (Eb4' & Ek4' & Ec4 & _).
  set (r4' := setConfig r4 c) in *.
  assert (be r4' = be r3 /\ key r4' = key r3 /\ cfg r4' = cfg r3) as (Eb & Ek & Ec) by (split_and!; congruence).
  assert (forall f, read_index aes_Encrypt poly1305_Verify zstd_DecodeAll json_Unmarshal r4' f =
                    read_index aes_Encrypt poly1305_Verify zstd_DecodeAll json_Unmarshal r3 f) as Er
    by (intros f; unfold read_index, decompressUnpacked; by rewrite Ek, Ec).
  assert (good_files r4') as Hg4.
  { intros name f. rewrite Eb, Er. unfold index_good. rewrite Eb, Ek. apply Hg3. }
  split; [done|]. destruct (LoadIndex_ok _ _ Hash sum64 _ _ clock D json_Unmarshal_old (be r3) k o' now' c r4 fis Hopen Hver Hok3 Hg4 Hlist)
    as (r5 & C5 & E5 & Hmi5 & Hgood5 & Hper5).
  exists r5. split; [exact E5|]. intros cache op Hop. rewrite Forall_forall in Hops. destruct (Hops op Hop) as [Hopok HD].
  eapply load_stored; [exact Hmi5|exact Hgood5|done..|].
  assert (valid_type (op_handle Hash op)) as Hv by (destruct Hopok as (Ht & _); unfold valid_type; cbn; destruct Ht as [-> | ->]; done).
  eapply stored_same; [done| |by apply Hst]. intros t pb Ht Hpb. apply Hper5; [done|]. fold r4'.
  destruct (Hper t pb Ht Hpb) as (f & j & Hf & Ej & Hin). exists f, j. by rewrite Eb, Er.
Qed.
End Sessions.

(** * A session *)

Definition ex_ops : list save_op :=
  [ mkSave DataBlob [ "a"; "b" ]%byte nullID false; mkSave TreeBlob [ "t" ]%byte nullID false;
    mkSave DataBlob (replicate 3 "000"%byte) nullID false; mkSave DataBlob [ "a"; "b" ]%byte nullID false;
    mkSave TreeBlob [] (ex_sha []) true ].

Abbreviation ex_step := (save_step ex_aes ex_sum ex_sha (fun _ => 7) ex_zstd_EncodeAll ex_json_Encode ex_rand (fun _ => 0) 3).
Abbreviation ex_Flush := (RepoFlush ex_aes ex_sum ex_sha (fun _ => 7) ex_zstd_EncodeAll ex_json_Encode ex_rand (fun _ => 0)).
Abbreviation ex_LoadBlob := (LoadBlob ex_aes ex_verify ex_sha (fun _ => 7) ex_zstd_DecodeAll None).
Abbreviation ex_LoadIndex := (LoadIndex ex_aes ex_verify ex_sha (fun _ => 7) ex_zstd_DecodeAll ex_json_Unmarshal (fun _ => Err (ErrMsg "")) (fun _ => 0)).
Abbreviation ex_config := (mkConfig 2 "").
Definition ex_contents (d : list byte) : Prop := d ∈ so_buf <$> ex_ops.

Lemma ex_no_collision d1 d2 : ex_contents d1 -> ex_contents d2 -> ex_sha d1 = ex_sha d2 -> d1 = d2.
Proof.
  unfold ex_contents. intros H1 H2. apply list_elem_of_In in H1, H2. cbn in H1, H2.
  destruct H1 as [<-|[<-|[<-|[<-|[<-|[]]]]]], H2 as [<-|[<-|[<-|[<-|[<-|[]]]]]]; intros E; try reflexivity; vm_compute in E; discriminate E.
Qed.

Lemma ex_ops_ok : Forall (fun op => save_op_ok ex_sha ex_zstd_EncodeAll op /\ ex_contents (so_buf op)) ex_ops.
Proof.
  assert (forall d, bool_decide (zlen d < 2 ^ 31) = true -> short ex_zstd_EncodeAll d) as Hs.
  { intros d Hd%bool_decide_eq_true. split; [done|]. intros l. exact Hd. }
  assert (Forall (save_op_ok ex_sha ex_zstd_EncodeAll) ex_ops) as Hok.
  { unfold ex_ops, save_op_ok. repeat (constructor; [split; [cbn; auto|split; [by apply Hs|by (left + right)]]|]). constructor. }
  rewrite Forall_forall in Hok |- *. intros op Hop. split; [by apply Hok|by apply list_elem_of_fmap_2].
Qed.

Lemma ex_files_good r : be r = mem_New -> files_good ex_aes ex_verify ex_sha ex_zstd_DecodeAll ex_json_Unmarshal ex_contents r.
Proof. intros E name f. rewrite E. cbn. unfold mem_New. by rewrite lookup_empty. Qed.

(** The session on an empty backend. *)
Definition ex_session_run : outcome (Repository (B := MemoryBackend) * Repository (B := MemoryBackend) * list ID) :=
  try r0 <- New mem_New ex_key (mkOptions CompressionAuto 0) 0;
  try r1 <- StartPackUploader (setConfig r0 ex_config);
  try (r2, saved) <- ofold ex_step (r1, []) ex_ops;
  Ok (r0, r2, saved).
Definition ex_session_ok : bool :=
  match ex_session_run with
  | Ok (_, r2, saved) => match ex_Flush r2 with (_, Ok _) => Nat.eqb (length saved) 5 | _ => false end
  | _ => false
  end.

Lemma ex_session :
  exists r0 r1 r2 r3 saved,
    New mem_New ex_key (mkOptions CompressionAuto 0) 0 = Ok r0 /\ StartPackUploader (setConfig r0 ex_config) = Ok r1 /\
    ofold ex_step (r1, []) ex_ops = Ok (r2, saved) /\ ex_Flush r2 = (r3, Ok tt).
Proof.
  assert (ex_session_ok = true) as Hrun by (vm_compute; reflexivity). unfold ex_session_ok in Hrun.
  destruct ex_session_run as [[[r0 r2] saved]|e|p] eqn:Er; [|discriminate Hrun..]. unfold ex_session_run in Er.
  apply bind_Ok in Er as (r0' & E0 & Er). apply bind_Ok in Er as (r1 & E1 & Er). apply bind_Ok in Er as ([r2' saved'] & E2 & Er).
  injection Er as -> -> ->. destruct (ex_Flush r2) as [r3 [[]|e|p]] eqn:E3; [|discriminate Hrun..].
  by exists r0, r1, r2, r3, saved.
Qed.

Lemma ex_new_files r0 : New mem_New ex_key (mkOptions CompressionAuto 0) 0 = Ok r0 ->
  files_good ex_aes ex_verify ex_sha ex_zstd_DecodeAll ex_json_Unmarshal ex_contents (setConfig r0 ex_config).
Proof.
  intros E0. apply ex_files_good. destruct (New_fields _ _ _ _ _ E0) as (Eb & _). destruct (setConfig_fields r0 ex_config) as (Eb' & _). congruence.
Qed.

Lemma save_flush_load_witness :
  exists r0 r1 r2 r3 saved,
    New mem_New ex_key (mkOptions CompressionAuto 0) 0 = Ok r0 /\ StartPackUploader (setConfig r0 ex_config) = Ok r1 /\
    ofold ex_step (r1, []) ex_ops = Ok (r2, saved) /\ ex_Flush r2 = (r3, Ok tt) /\
    ex_LoadBlob r3 DataBlob (ex_sha [ "a"; "b" ]%byte) = Ok [ "a"; "b" ]%byte.
Proof.
  destruct ex_session as (r0 & r1 & r2 & r3 & saved & E0 & E1 & E2 & E3).
  exists r0, r1, r2, r3, saved. do 4 (split; [assumption|]).
  refine (proj2 (save_flush_load ex_aes ex_sum ex_verify ex_sha (fun _ => 7) ex_zstd_EncodeAll ex_zstd_DecodeAll ex_json_Encode ex_json_Unmarshal
    ex_rand (fun _ => 0) 3 ex_env_ok ex_contents ex_no_collision mem_New mem_New_ok ex_key eq_refl (mkOptions CompressionAuto 0) 0 ex_config
    r0 r1 r2 r3 ex_ops saved E0 (ex_new_files r0 E0) E1 ex_ops_ok E2 E3) None (mkSave DataBlob [ "a"; "b" ]%byte nullID false) _).
  left.
Defined.

(** The backend is opened again, with other options. *)
Lemma save_flush_reload_witness :
  exists r3 r4 r5, New (be r3) ex_key (mkOptions CompressionOff 0) 9 = Ok r4 /\ ex_LoadIndex (setConfig r4 ex_config) = Ok r5 /\
    ex_LoadBlob r5 TreeBlob (ex_sha [ "t" ]%byte) = Ok [ "t" ]%byte.
Proof.
  destruct ex_session as (r0 & r1 & r2 & r3 & saved & E0 & E1 & E2 & E3).
  destruct (New (be r3) ex_key (mkOptions CompressionOff 0) 9) as [r4|e|p] eqn:E4; [|discriminate E4..].
  destruct (save_flush_reload ex_aes ex_sum ex_verify ex_sha (fun _ => 7) ex_zstd_EncodeAll ex_zstd_DecodeAll ex_json_Encode ex_json_Unmarshal
    (fun _ => Err (ErrMsg "")) ex_rand (fun _ => 0) 3 ex_env_ok ex_contents ex_no_collision mem_New mem_New_ok ex_key eq_refl
    (mkOptions CompressionAuto 0) 0 ex_config
    r0 r1 r2 r3 ex_ops saved ltac:(done) E0 (ex_new_files r0 E0) E1 ex_ops_ok E2 E3 (mkOptions CompressionOff 0) 9 r4 _ eq_refl E4)
    as (_ & r5 & E5 & Hload).
  exists r3, r4, r5. split; [exact E4|]. split; [exact E5|].
  apply (Hload None (mkSave TreeBlob [ "t" ]%byte nullID false)). right. left.
Defined.
