(* ===== verification/StreamPack.v ===== *)
(** Reading many blobs of a pack in one go ([StreamPack] of
    src/repository/repository.go).

    [beLoad] loads a range of a file and runs a function on a reader of it, possibly
    several times; the function returns what it has left to read.  [load_attempts]
    does so for the attempts of a backend, as in the interface of backends.  The callback works on a state
    [St]; it is passed the plaintext of a blob or the error, and may return an
    error, which ends the attempts.  The plaintext that comes with an error is
    left out: no callback reads it. *)

From S2P Require Import Prelude Bytes Restic Sets HashedArrayTree IndexMap Index MasterIndex Crypto Pack Backend PackerManager Repository RepoFacts.

#[local] Open Scope Z_scope.

Definition maxUnusedRange : Z := 4 * 1024 * 1024.

Definition discard {A} (o : outcome A) : outcome unit := (fun _ => tt) <$> o.

(** [Load] of a backend whose attempts are given. *)
Definition load_attempts {St : Type} (attempts : Handle -> Z -> Z -> list (outcome (list byte)))
    (h : Handle) (length_ offset : Z) (fn : St -> list byte -> St * outcome (list byte)) (s : St) : St * outcome unit :=
  run_attempts (fun s rd => prod_map id discard (fn s rd)) s (attempts h length_ offset).

Section StreamPack.
Context (aes_Encrypt : list byte -> list byte -> list byte).
Context (poly1305_Verify : list byte -> list byte -> list byte -> bool).
Context (Hash : list byte -> ID) (zstd_DecodeAll : list byte -> outcome (list byte)).
Context {St : Type} (beLoad : Handle -> Z -> Z -> (St -> list byte -> St * outcome (list byte)) -> St -> St * outcome unit).
Context (key : Key) (packID : ID) (handleBlobFn : St -> BlobHandle -> outcome (list byte) -> St * option error).

(** What is done with the bytes of one blob: decrypt, decompress, compare the
    hash. *)
Definition stream_decode (entry : Blob) (buf : list byte) : outcome (list byte) :=
  try plaintext <- open_buffer aes_Encrypt poly1305_Verify key buf;
  try plaintext <-
    (if IsCompressed entry then
       match zstd_DecodeAll plaintext with
       | Err _ => Err (ErrMsg "decompressing blob %v failed: %v")
       | o => o
       end
     else Ok plaintext);
  if negb (ID_Equal (Hash plaintext) (b_ID entry)) then
    Err (ErrMsg "read blob %v from %v: wrong data returned, hash is %v")
  else Ok plaintext.

(** The loop over the blobs of a part; [rd] is what is left to read. *)
Fixpoint stream_blobs (s : St) (rd : list byte) (currentBlobEnd : Z) (blobs : list Blob) : St * outcome (list byte) :=
  match blobs with
  | [] => (s, Ok rd)
  | entry :: rest =>
      let skipBytes := i64 (b_Offset entry - currentBlobEnd) in
      if skipBytes <? 0 then (s, Err (ErrMsg "overlapping blobs in pack %v"))
      else if zlen rd <? skipBytes then (s, Err (ErrMsg "EOF"))
      else
        let rd := slice_from rd skipBytes in
        match ReadFull (b_Length entry) rd with
        | Err e => (s, Err (ErrWrap e "ReadFull"))
        | Panic p => (s, Panic p)
        | Ok buf =>
            let rd := slice_from rd (b_Length entry) in
            let currentBlobEnd := u64 (b_Offset entry + b_Length entry) in
            if i64 (b_Length entry) <=? NonceSize then (s, Err (ErrMsg "invalid blob length %v"))
            else
              match stream_decode entry buf with
              | Panic p => (s, Panic p)
              | res =>
                  let '(s, err) := handleBlobFn s (b_handle entry) res in
                  match err with
                  | Some e => (s, Err (Permanent e))
                  | None => stream_blobs s rd currentBlobEnd rest
                  end
              end
        end
  end.

Definition streamPackPart (s : St) (blobs : list Blob) : St * outcome unit :=
  match blobs, last blobs with
  | first :: _, Some last_ =>
      let dataStart := b_Offset first in
      let dataEnd := u64 (b_Offset last_ + b_Length last_) in
      let '(s, err) := beLoad (mkHandle PackFile false (ID_String packID)) (i64 (dataEnd - dataStart)) (i64 dataStart)
        (fun s rd => stream_blobs s rd dataStart blobs) s in
      (s, wrap_err "StreamPack" err)
  | _, _ => (s, Panic "index out of range")
  end.

(** The loop of [StreamPack]; [part] is [blobs[lowerIdx:i]]. *)
Fixpoint stream_parts (s : St) (part : list Blob) (lastPos : Z) (blobs : list Blob) : St * outcome unit :=
  match blobs with
  | [] => streamPackPart s part
  | b :: rest =>
      if b_Offset b <? lastPos then (s, Err (ErrMsg "overlapping blobs in pack %v"))
      else
        let lastPos' := u64 (b_Offset b + b_Length b) in
        if maxUnusedRange <? u64 (b_Offset b - lastPos) then
          match streamPackPart s part with
          | (s, Ok _) => stream_parts s [b] lastPos' rest
          | (s, res) => (s, res)
          end
        else stream_parts s (part ++ [b]) lastPos' rest
  end.

Definition offset_less (a b : Blob) : bool := b_Offset a <? b_Offset b.

Definition StreamPack (s : St) (blobs : list Blob) : St * outcome unit :=
  match go_sort offset_less blobs with
  | [] => (s, Ok tt)
  | b :: rest => stream_parts s [] (b_Offset b) (b :: rest)
  end.
End StreamPack.

(** * Correctness *)

Lemma slice_slice_from {A} (f : list A) a b c : 0 <= a -> a <= b -> slice_from (slice f a c) (b - a) = slice f b c.
Proof.
  intros Ha Hb. unfold slice, slice_from, slice_to. rewrite skipn_firstn_comm, drop_drop. f_equal; [lia|f_equal; lia].
Qed.

Lemma slice_slice_to {A} (f : list A) a b c : a <= b -> b <= c -> slice_to (slice f a c) (b - a) = slice f a b.
Proof. intros Ha Hb. unfold slice, slice_to. rewrite take_take. f_equal. lia. Qed.

Lemma zlen_slice {A} (f : list A) a b : 0 <= a -> a <= b -> b <= zlen f -> zlen (slice f a b) = b - a.
Proof. intros. unfold zlen at 1. rewrite length_slice by done. lia. Qed.

(** The blobs one after the other. *)
Definition before (b1 b2 : Blob) : Prop := b_Offset b1 + b_Length b1 <= b_Offset b2.
Definition separate (b1 b2 : Blob) : Prop := before b1 b2 \/ before b2 b1.
Definition separate_all (bs : list Blob) : Prop :=
  forall i j b1 b2, i <> j -> bs !! i = Some b1 -> bs !! j = Some b2 -> separate b1 b2.

#[export] Instance offset_le_trans : Transitive (le_of offset_less).
Proof. intros x y z. unfold le_of, offset_less. rewrite !Z.ltb_ge. lia. Qed.
#[export] Instance offset_le_total : Total (le_of offset_less).
Proof. intros x y. unfold le_of, offset_less. rewrite !Z.ltb_ge. lia. Qed.

(** Sorting separate blobs puts them one after the other. *)
Lemma sort_ordered bs :
  separate_all bs -> Forall (fun b => 0 < b_Length b) bs -> StronglySorted before (go_sort offset_less bs).
Proof.
  intros Hsep Hlen. pose proof (go_sort_Permutation offset_less bs) as Hp.
  assert (separate_all (go_sort offset_less bs)) as Hsep'.
  { apply Permutation_inj in Hp as (_ & g & Hinj & Hg). intros i j b1 b2 Hij H1 H2. rewrite Hg in H1, H2.
    eapply (Hsep (g i) (g j)); [|exact H1|exact H2]. intros E. by apply Hinj in E. }
  assert (Forall (fun b => 0 < b_Length b) (go_sort offset_less bs)) as Hlen' by by rewrite Hp.
  pose proof (StronglySorted_merge_sort (le_of offset_less) bs) as Hs. fold (go_sort offset_less bs) in Hs.
  clear Hp Hsep Hlen. induction Hs as [|b l Hs IH Hall]; [constructor|]. apply Forall_cons in Hlen' as [Hb Hlen']. constructor.
  - apply IH; [|done]. intros i j b1 b2 Hij H1 H2. by apply (Hsep' (S i) (S j)); [lia|..].
  - apply Forall_forall. intros b' Hb'. rewrite Forall_forall in Hall, Hlen'. specialize (Hall b' Hb'). specialize (Hlen' b' Hb').
    apply list_elem_of_lookup in Hb' as [i Hi]. unfold le_of, offset_less in Hall. apply Z.ltb_ge in Hall.
    destruct (Hsep' 0%nat (S i) b b') as [?|Hbf]; [done..|unfold before in Hbf; lia].
Qed.

Lemma ordered_last bs l b : StronglySorted before bs -> Forall (fun b => 0 < b_Length b) bs -> last bs = Some l -> b ∈ bs ->
  b_Offset b + b_Length b <= b_Offset l + b_Length l.
Proof.
  intros Hs HF Hl Hb. revert Hl Hb. induction Hs as [|x bs Hs IH Hall]; [done|]. apply Forall_cons in HF as [Hx HF].
  intros Hl [->|Hb]%elem_of_cons.
  - destruct bs as [|y bs]; [cbn in Hl; injection Hl as ->; lia|]. assert (last (y :: bs) = Some l) as Hl' by done.
    apply last_Some_elem_of in Hl' as Hin. rewrite Forall_forall in Hall, HF. specialize (Hall l Hin). specialize (HF l Hin).
    unfold before in Hall. lia.
  - destruct bs as [|y bs]; [by apply elem_of_nil in Hb|]. by apply IH.
Qed.

Section Deliver.
Context (aes_Encrypt : list byte -> list byte -> list byte).
Context (poly1305_Verify : list byte -> list byte -> list byte -> bool).
Context (Hash : list byte -> ID) (zstd_DecodeAll : list byte -> outcome (list byte)).
Context (beLoad : Handle -> Z -> Z -> list (outcome (list byte))) (key : Key) (packID : ID).
Context {St : Type} (handleBlobFn : St -> BlobHandle -> outcome (list byte) -> St * option error).

Abbreviation decode := (stream_decode aes_Encrypt poly1305_Verify Hash zstd_DecodeAll key).
Abbreviation stream := (stream_blobs aes_Encrypt poly1305_Verify Hash zstd_DecodeAll key handleBlobFn).
Abbreviation part_ := (streamPackPart aes_Encrypt poly1305_Verify Hash zstd_DecodeAll (load_attempts beLoad) key packID handleBlobFn).
Abbreviation parts := (stream_parts aes_Encrypt poly1305_Verify Hash zstd_DecodeAll (load_attempts beLoad) key packID handleBlobFn).

(** [f] is the pack file, [data b] the content of the blob [b] in it. *)
Context (f : list byte) (Hf : zlen f < 2 ^ 62) (data : Blob -> list byte).

Definition blob_in_file (b : Blob) : Prop :=
  NonceSize < b_Length b /\ 0 <= b_Offset b /\ b_Offset b + b_Length b <= zlen f /\
  decode b (slice f (b_Offset b) (b_Offset b + b_Length b)) = Ok (data b).

(** Loading a range of the pack delivers its bytes, possibly after temporary
    failures. *)
Definition loads_ranges : Prop :=
  forall n off, 0 <= off -> 0 < n -> off + n <= zlen f ->
  exists es rest, beLoad (mkHandle PackFile false (ID_String packID)) n off = (Err <$> es) ++ Ok (slice f off (off + n)) :: rest /\
    Forall (fun e => is_permanent e = false) es.

Context (Hload : loads_ranges).
Context (Haccept : forall s b, blob_in_file b -> (handleBlobFn s (b_handle b) (Ok (data b))).2 = None).

Definition deliver (s : St) (b : Blob) : St := (handleBlobFn s (b_handle b) (Ok (data b))).1.

Lemma stream_blobs_ok bs s cur hi :
  0 <= cur -> cur <= hi -> hi <= zlen f -> StronglySorted before bs ->
  Forall (fun b => blob_in_file b /\ cur <= b_Offset b /\ b_Offset b + b_Length b <= hi) bs ->
  exists rest, stream s (slice f cur hi) cur bs = (fold_left deliver bs s, Ok rest).
Proof using Hf Haccept.
  intros Hc0 Hch Hhi Hs. revert s cur Hc0 Hch. induction Hs as [|b bs Hs IH Hall]; intros s cur Hc0 Hch HF; [by eexists|].
  apply Forall_cons in HF as [(Hb & Hcur & Hend) HF]. pose proof Hb as (Hlen & Hoff & Hfit & Hdec). change NonceSize with 16 in Hlen.
  cbn [stream_blobs fold_left]. rewrite i64_id by (unfold is_i64; lia).
  destruct (Z.ltb_spec (b_Offset b - cur) 0); [lia|]. rewrite zlen_slice by lia.
  destruct (Z.ltb_spec (hi - cur) (b_Offset b - cur)); [lia|]. rewrite slice_slice_from by lia.
  unfold ReadFull. rewrite zlen_slice by lia. destruct (Z.ltb_spec (hi - b_Offset b) (b_Length b)); [lia|].
  assert (slice_to (slice f (b_Offset b) hi) (b_Length b) = slice f (b_Offset b) (b_Offset b + b_Length b)) as ->.
  { rewrite <- (slice_slice_to f (b_Offset b) (b_Offset b + b_Length b) hi) by lia. f_equal. lia. }
  assert (slice_from (slice f (b_Offset b) hi) (b_Length b) = slice f (b_Offset b + b_Length b) hi) as ->.
  { rewrite <- (slice_slice_from f (b_Offset b) (b_Offset b + b_Length b) hi) by lia. f_equal. lia. }
  rewrite i64_id by (unfold is_i64; lia). rewrite u64_id by (unfold is_u64; lia).
  change NonceSize with 16. destruct (Z.leb_spec (b_Length b) 16); [lia|]. rewrite Hdec.
  pose proof (Haccept s b Hb) as Ha. unfold deliver at 2. destruct (handleBlobFn s (b_handle b) (Ok (data b))) as [s' err]. cbn in Ha |- *. subst err.
  apply IH; [lia..|]. rewrite Forall_forall in Hall, HF |- *. intros b' Hb'. destruct (HF b' Hb') as (? & ? & ?).
  specialize (Hall b' Hb'). unfold before in Hall. split_and!; try done.
Qed.

Lemma streamPackPart_ok bs s :
  bs <> [] -> StronglySorted before bs -> Forall blob_in_file bs -> part_ s bs = (fold_left deliver bs s, Ok tt).
Proof using Hf Haccept Hload.
  intros Hne Hs HF. destruct bs as [|first bs]; [done|]. unfold streamPackPart, load_attempts.
  assert (Forall (fun b => 0 < b_Length b) (first :: bs)) as Hpos.
  { eapply Forall_impl; [exact HF|]. intros b (Hb & _). change NonceSize with 16 in Hb. lia. }
  destruct (last (first :: bs)) as [l|] eqn:El; [|by apply last_None in El].
  assert (first ∈ first :: bs) as Hin0 by by left. pose proof (last_Some_elem_of _ _ El) as Hinl.
  pose proof HF as HF'. rewrite Forall_forall in HF'. destruct (HF' first Hin0) as (Hl0 & Ho0 & Hf0 & _). destruct (HF' l Hinl) as (Hll & Hol & Hfl & _).
  change NonceSize with 16 in Hl0, Hll. pose proof (ordered_last _ l first Hs Hpos El Hin0) as H0.
  rewrite u64_id by (unfold is_u64; lia). rewrite !i64_id by (unfold is_i64; lia).
  destruct (Hload (b_Offset l + b_Length l - b_Offset first) (b_Offset first)) as (es & rest & -> & Hes); [lia..|].
  rewrite run_attempts_errors by done. cbn [run_attempts].
  replace (b_Offset first + (b_Offset l + b_Length l - b_Offset first)) with (b_Offset l + b_Length l) by lia.
  destruct (stream_blobs_ok (first :: bs) s (b_Offset first) (b_Offset l + b_Length l)) as [rd ->]; [lia..|done| |done]. apply Forall_forall. intros b Hb. split; [by apply HF'|].
  pose proof (ordered_last _ l b Hs Hpos El Hb). split; [|done].
  apply elem_of_cons in Hb as [->|Hb]; [lia|]. apply StronglySorted_inv in Hs as [_ Hall].
  rewrite Forall_forall in Hall. specialize (Hall b Hb). unfold before in Hall. lia.
Qed.

Lemma stream_parts_ok bs part s lastPos :
  part ++ bs <> [] -> StronglySorted before (part ++ bs) -> Forall blob_in_file (part ++ bs) ->
  match last part with
  | Some l => lastPos = b_Offset l + b_Length l
  | None => match bs with b :: _ => lastPos = b_Offset b | [] => True end
  end ->
  parts s part lastPos bs = (fold_left deliver (part ++ bs) s, Ok tt).
Proof using Hf Haccept Hload.
  revert part s lastPos. induction bs as [|b bs IH]; intros part s lastPos Hne Hs HF Hlast; cbn [stream_parts].
  - rewrite app_nil_r in *. by apply streamPackPart_ok.
  - pose proof HF as HF'. rewrite Forall_forall in HF'.
    destruct (HF' b) as (Hl & Ho & Hfit & _); [set_solver|]. change NonceSize with 16 in Hl.
    assert (0 <= lastPos <= b_Offset b) as Hlp.
    { destruct (last part) as [l|] eqn:El; [|lia]. apply last_Some_elem_of in El.
      destruct (HF' l) as (Hll & Hol & _); [set_solver|]. change NonceSize with 16 in Hll.
      apply StronglySorted_app in Hs as (Hb & _ & _). specialize (Hb l b El ltac:(left)). unfold before in Hb. lia. }
    destruct (Z.ltb_spec (b_Offset b) lastPos); [lia|]. rewrite !u64_id by (unfold is_u64; lia).
    assert (part ++ b :: bs = (part ++ [b]) ++ bs) as Eapp by by rewrite <- app_assoc.
    destruct (Z.ltb_spec maxUnusedRange (b_Offset b - lastPos)) as [Hgap|Hgap].
    + assert (part <> []) as Hpne by (intros ->; cbn in Hlast; unfold maxUnusedRange in Hgap; lia).
      pose proof Hs as Hs'. apply StronglySorted_app in Hs' as (_ & Hs1 & Hs2). apply Forall_app in HF as [HF1 HF2].
      rewrite streamPackPart_ok, fold_left_app by done.
      apply IH; [done|done|done|]. done.
    + rewrite Eapp in *. apply IH; [by destruct part|done|done|]. by rewrite last_snoc.
Qed.
End Deliver.

(** The separate blobs of a pack, in whatever order they are passed, are each
    handed to the callback exactly once, in the order of their offsets, with
    their content: unused ranges between them are read over or skipped, and
    temporary failures of the backend are survived. *)
Theorem StreamPack_delivers aes_Encrypt poly1305_Verify Hash zstd_DecodeAll beLoad key packID {St}
    (handleBlobFn : St -> BlobHandle -> outcome (list byte) -> St * option error)
    (f : list byte) (data : Blob -> list byte) (blobs : list Blob) (s : St)
    (Hf : zlen f < 2 ^ 62) (Hload : loads_ranges beLoad packID f)
    (Hblobs : Forall (blob_in_file aes_Encrypt poly1305_Verify Hash zstd_DecodeAll key f data) blobs)
    (Hsep : separate_all blobs)
    (Haccept : forall s b, blob_in_file aes_Encrypt poly1305_Verify Hash zstd_DecodeAll key f data b ->
      (handleBlobFn s (b_handle b) (Ok (data b))).2 = None) :
  exists order, order ≡ₚ blobs /\ StronglySorted before order /\
    StreamPack aes_Encrypt poly1305_Verify Hash zstd_DecodeAll (load_attempts beLoad) key packID handleBlobFn s blobs =
      (fold_left (deliver handleBlobFn data) order s, Ok tt).
Proof.
  exists (go_sort offset_less blobs). pose proof (go_sort_Permutation offset_less blobs) as Hp. split; [done|].
  assert (StronglySorted before (go_sort offset_less blobs)) as Hs.
  { apply sort_ordered; [done|]. eapply Forall_impl; [exact Hblobs|]. intros b (Hb & _). change NonceSize with 16 in Hb. lia. }
  split; [done|]. rewrite <- Hp in Hblobs. unfold StreamPack. destruct (go_sort offset_less blobs) as [|b rest]; [done|].
  by apply (stream_parts_ok _ _ _ _ _ _ _ _ f Hf data Hload Haccept (b :: rest) []).
Qed.

(** What is decoded has the hash of its blob. *)
Lemma stream_decode_hash aes_Encrypt poly1305_Verify Hash zstd_DecodeAll key b buf d :
  stream_decode aes_Encrypt poly1305_Verify Hash zstd_DecodeAll key b buf = Ok d -> Hash d = b_ID b.
Proof.
  unfold stream_decode. intros (pt & _ & (pt' & _ & E)%bind_Ok)%bind_Ok.
  destruct (ID_Equal (Hash pt') (b_ID b)) eqn:Eid; [|done]. cbn in E. injection E as <-. by apply ID_Equal_spec.
Qed.

Section Verified.
Context (aes_Encrypt : list byte -> list byte -> list byte).
Context (poly1305_Verify : list byte -> list byte -> list byte -> bool).
Context (Hash : list byte -> ID) (zstd_DecodeAll : list byte -> outcome (list byte)).
Context (beLoad : Handle -> Z -> Z -> list (outcome (list byte))) (key : Key) (packID : ID).
Context {St : Type} (handleBlobFn : St -> BlobHandle -> outcome (list byte) -> St * option error).
Context (all : list Blob) (P : St -> Prop).
Context (HP : forall s b r, P s -> b ∈ all -> (forall d, r = Ok d -> Hash d = b_ID b) -> ~ panics r -> P (handleBlobFn s (b_handle b) r).1).

Lemma stream_blobs_verified blobs s rd cur :
  blobs ⊆ all -> P s ->
  P (stream_blobs aes_Encrypt poly1305_Verify Hash zstd_DecodeAll key handleBlobFn s rd cur blobs).1.
Proof using HP.
  revert s rd cur. induction blobs as [|b blobs IH]; intros s rd cur Hsub Hs; [done|]. cbn [stream_blobs].
  destruct (_ <? 0); [done|]. destruct (_ <? _); [done|]. destruct (ReadFull _ _) as [buf|e|p]; [|done..].
  destruct (_ <=? _); [done|]. assert (b ∈ all) as Hb by (apply Hsub; left).
  pose proof (stream_decode_hash aes_Encrypt poly1305_Verify Hash zstd_DecodeAll key b buf) as Hd.
  destruct (stream_decode _ _ _ _ key b buf) as [d|e|p]; [| |done].
  - assert (P (handleBlobFn s (b_handle b) (Ok d)).1) as Hc by (apply HP; [done|done|intros d' Hd'; injection Hd' as <-; by apply Hd|apply Ok_no_panic]).
    destruct (handleBlobFn s (b_handle b) (Ok d)) as [s' [err|]]; [done|]. apply IH; [set_solver|done].
  - assert (P (handleBlobFn s (b_handle b) (Err e)).1) as Hc by (apply HP; [done|done|done|apply Err_no_panic]).
    destruct (handleBlobFn s (b_handle b) (Err e)) as [s' [err|]]; [done|]. apply IH; [set_solver|done].
Qed.

Lemma streamPackPart_verified blobs s :
  blobs ⊆ all -> P s ->
  P (streamPackPart aes_Encrypt poly1305_Verify Hash zstd_DecodeAll (load_attempts beLoad) key packID handleBlobFn s blobs).1.
Proof using HP.
  intros Hsub Hs. unfold streamPackPart, load_attempts. destruct blobs as [|first blobs]; [done|]. destruct (last _) as [l|]; [|done].
  pose proof (run_attempts_inv P (fun s rd => prod_map id discard (stream_blobs aes_Encrypt poly1305_Verify Hash zstd_DecodeAll key handleBlobFn s rd (b_Offset first) (first :: blobs)))
    s (beLoad (mkHandle PackFile false (ID_String packID)) (i64 (u64 (b_Offset l + b_Length l) - b_Offset first)) (i64 (b_Offset first)))
    (fun s rd Hs => stream_blobs_verified _ s rd _ Hsub Hs) Hs) as Hr.
  by destruct (run_attempts _ s _).
Qed.

Lemma stream_parts_verified blobs part s lastPos :
  part ⊆ all -> blobs ⊆ all -> P s ->
  P (stream_parts aes_Encrypt poly1305_Verify Hash zstd_DecodeAll (load_attempts beLoad) key packID handleBlobFn s part lastPos blobs).1.
Proof using HP.
  revert part s lastPos. induction blobs as [|b blobs IH]; intros part s lastPos Hp Hb Hs; cbn [stream_parts].
  - by apply streamPackPart_verified.
  - destruct (_ <? lastPos); [done|]. destruct (_ <? _).
    + pose proof (streamPackPart_verified part s Hp Hs) as H1. destruct (streamPackPart _ _ _ _ _ _ _ _ s part) as [s' [u|e|p]]; [|done..].
      apply IH; [set_solver..|done].
    + apply IH; [set_solver..|done].
Qed.
End Verified.

Lemma StreamPack_inv aes_Encrypt poly1305_Verify Hash zstd_DecodeAll beLoad key packID {St}
    (handleBlobFn : St -> BlobHandle -> outcome (list byte) -> St * option error) (blobs : list Blob) (s : St) (P : St -> Prop) :
  (forall s b r, P s -> b ∈ blobs -> (forall d, r = Ok d -> Hash d = b_ID b) -> ~ panics r -> P (handleBlobFn s (b_handle b) r).1) -> P s ->
  P (StreamPack aes_Encrypt poly1305_Verify Hash zstd_DecodeAll (load_attempts beLoad) key packID handleBlobFn s blobs).1.
Proof.
  intros HP Hs. unfold StreamPack. pose proof (go_sort_Permutation offset_less blobs) as Hp.
  assert (go_sort offset_less blobs ⊆ blobs) as Hsub by (intros b; by rewrite Hp).
  destruct (go_sort offset_less blobs) as [|b rest]; [done|].
  apply (stream_parts_verified _ _ _ _ _ _ _ _ blobs P HP); [set_solver|done..].
Qed.

(** C29. Whatever the backend delivers, and however the blobs are laid out: content
    that is passed to the callback has the hash of the blob it is passed for.
    Stated for the callback's state: what holds at the start, and is kept by
    calls for listed blobs with such content or an error, holds at the end. *)
Theorem StreamPack_verified aes_Encrypt poly1305_Verify Hash zstd_DecodeAll beLoad key packID {St}
    (handleBlobFn : St -> BlobHandle -> outcome (list byte) -> St * option error) (blobs : list Blob) (s : St) (P : St -> Prop)
    (HP : forall s b r, P s -> b ∈ blobs -> (forall d, r = Ok d -> Hash d = b_ID b) -> P (handleBlobFn s (b_handle b) r).1)
    (Hs : P s) :
  P (StreamPack aes_Encrypt poly1305_Verify Hash zstd_DecodeAll (load_attempts beLoad) key packID handleBlobFn s blobs).1.
Proof.
  apply StreamPack_inv; auto.
Qed.

Section Complete.
Context (aes_Encrypt : list byte -> list byte -> list byte).
Context (poly1305_Verify : list byte -> list byte -> list byte -> bool).
Context (Hash : list byte -> ID) (zstd_DecodeAll : list byte -> outcome (list byte)).
Context (beLoad : Handle -> Z -> Z -> list (outcome (list byte))) (key : Key) (packID : ID).
Context {St : Type} (handleBlobFn : St -> BlobHandle -> outcome (list byte) -> St * option error).
(** [Q s b]: the blob was accepted; later calls do not change that. *)
Context (Q : St -> Blob -> Prop).
Context (Hstay : forall s b r s' e b', handleBlobFn s (b_handle b) r = (s', e) -> Q s b' -> Q s' b').
Context (Haccept : forall s b r s', handleBlobFn s (b_handle b) r = (s', None) -> Q s' b).

Lemma stream_blobs_complete blobs s rd cur s' r :
  stream_blobs aes_Encrypt poly1305_Verify Hash zstd_DecodeAll key handleBlobFn s rd cur blobs = (s', r) ->
  (forall b, Q s b -> Q s' b) /\ (is_ok r = true -> forall b, b ∈ blobs -> Q s' b).
Proof using Hstay Haccept.
  revert s rd cur. induction blobs as [|b blobs IH]; intros s rd cur; cbn [stream_blobs].
  { intros [= <- <-]. split; [done|]. by intros _ b ?%elem_of_nil. }
  destruct (_ <? 0); [by intros [= <- <-]|]. destruct (_ <? _); [by intros [= <- <-]|]. destruct (ReadFull _ _) as [buf|e|p]; [|by intros [= <- <-]..].
  destruct (_ <=? _); [by intros [= <- <-]|].
  assert (forall o, (let '(s1, err) := handleBlobFn s (b_handle b) o in match err with
     | Some e => (s1, Err (Permanent e))
     | None => stream_blobs aes_Encrypt poly1305_Verify Hash zstd_DecodeAll key handleBlobFn s1 (slice_from (slice_from rd (i64 (b_Offset b - cur))) (b_Length b)) (u64 (b_Offset b + b_Length b)) blobs
     end) = (s', r) -> (forall b', Q s b' -> Q s' b') /\ (is_ok r = true -> forall b', b' ∈ b :: blobs -> Q s' b')) as Hg.
  { intros o. destruct (handleBlobFn s (b_handle b) o) as [s1 [err|]] eqn:Eh; [intros [= <- <-]; split; [intros b'; by eapply Hstay|done]|].
    intros Hs. destruct (IH _ _ _ Hs) as [H1 H2]. split; [intros b' Hb'; apply H1; by eapply Hstay|].
    intros Hr b' [->|Hb']%elem_of_cons; [apply H1; by eapply Haccept|by apply H2]. }
  destruct (stream_decode _ _ _ _ key b buf) as [d|e|p]; [apply Hg..|by intros [= <- <-]].
Qed.

Lemma streamPackPart_complete blobs s s' r :
  streamPackPart aes_Encrypt poly1305_Verify Hash zstd_DecodeAll (load_attempts beLoad) key packID handleBlobFn s blobs = (s', r) ->
  (forall b, Q s b -> Q s' b) /\ (r = Ok tt -> forall b, b ∈ blobs -> Q s' b).
Proof using Hstay Haccept.
  unfold streamPackPart, load_attempts. destruct blobs as [|first blobs]; [by intros [= <- <-]|]. destruct (last _) as [l|]; [|by intros [= <- <-]].
  generalize (beLoad (mkHandle PackFile false (ID_String packID)) (i64 (u64 (b_Offset l + b_Length l) - b_Offset first)) (i64 (b_Offset first))).
  set (fn := fun s rd => prod_map id discard (stream_blobs _ _ _ _ _ _ s rd _ _)).
  assert (forall attempts s s' err, run_attempts fn s attempts = (s', err) ->
    (forall b, Q s b -> Q s' b) /\ (err = Ok tt -> forall b, b ∈ first :: blobs -> Q s' b)) as Hg.
  { induction attempts as [|a rest IH]; intros s1 s2 err; cbn [run_attempts]; [by intros [= <- <-]|].
    destruct (match a with Ok data => fn s1 data | Err e => (s1, Err e) | Panic p => (s1, Panic p) end) as [s3 r3] eqn:Ea.
    assert ((forall b, Q s1 b -> Q s3 b) /\ (r3 = Ok tt -> forall b, b ∈ first :: blobs -> Q s3 b)) as [H1 H2].
    { destruct a as [data|e|p]; [|by injection Ea as <- <-..]. unfold fn in Ea. destruct (stream_blobs _ _ _ _ _ _ s1 data _ _) as [s4 r4] eqn:Eb.
      apply stream_blobs_complete in Eb as [H1 H2]. injection Ea as <- <-. split; [done|]. intros Hr. apply H2. by destruct r4. }
    destruct r3 as [[]|e|p]; [intros [= <- <-]; auto| |by intros [= <- <-]].
    destruct rest as [|a' rest]; [by intros [= <- <-]|]. destruct (is_permanent e); [by intros [= <- <-]|].
    intros Hr. destruct (IH _ _ _ Hr) as [H3 H4]. split; auto. }
  intros attempts. destruct (run_attempts fn s attempts) as [s1 err] eqn:Er. intros [= <- <-]. destruct (Hg _ _ _ _ Er) as [H1 H2].
  split; [done|]. intros Hr. apply H2. by destruct err as [[]| |].
Qed.

Lemma stream_parts_complete blobs part s lastPos s' r :
  stream_parts aes_Encrypt poly1305_Verify Hash zstd_DecodeAll (load_attempts beLoad) key packID handleBlobFn s part lastPos blobs = (s', r) ->
  (forall b, Q s b -> Q s' b) /\ (r = Ok tt -> forall b, b ∈ part ++ blobs -> Q s' b).
Proof using Hstay Haccept.
  revert part s lastPos. induction blobs as [|b blobs IH]; intros part s lastPos; cbn [stream_parts].
  - rewrite app_nil_r. apply streamPackPart_complete.
  - destruct (_ <? lastPos); [by intros [= <- <-]|]. destruct (_ <? _).
    + destruct (streamPackPart _ _ _ _ _ _ _ _ s part) as [s1 r1] eqn:E1. apply streamPackPart_complete in E1 as [H1 H2].
      destruct r1 as [[]|e|p]; [|by intros [= <- <-]..]. intros Hs. destruct (IH _ _ _ Hs) as [H3 H4].
      split; [auto|]. intros Hr b' [Hb'|Hb']%elem_of_app; [auto|]. by apply H4.
    + intros Hs. destruct (IH _ _ _ Hs) as [H3 H4]. split; [done|]. intros Hr b' Hb'. apply H4; [done|]. by rewrite <- app_assoc.
Qed.
End Complete.

(** [StreamPack] ends without an error only after the callback has accepted every
    blob, whatever the backend delivers.  Stated for a property [Q] of the
    callback's state that accepting a blob makes true and later calls keep. *)
Lemma StreamPack_complete aes_Encrypt poly1305_Verify Hash zstd_DecodeAll beLoad key packID {St}
    (handleBlobFn : St -> BlobHandle -> outcome (list byte) -> St * option error) (Q : St -> Blob -> Prop) blobs s s' :
  (forall s b r s' e b', handleBlobFn s (b_handle b) r = (s', e) -> Q s b' -> Q s' b') ->
  (forall s b r s', handleBlobFn s (b_handle b) r = (s', None) -> Q s' b) ->
  StreamPack aes_Encrypt poly1305_Verify Hash zstd_DecodeAll (load_attempts beLoad) key packID handleBlobFn s blobs = (s', Ok tt) ->
  forall b, b ∈ blobs -> Q s' b.
Proof.
  intros Hstay Haccept. unfold StreamPack. pose proof (go_sort_Permutation offset_less blobs) as Hp.
  destruct (go_sort offset_less blobs) as [|b0 rest].
  - intros _ b Hb. rewrite <- Hp in Hb. by apply elem_of_nil in Hb.
  - intros Hs b Hb. apply (stream_parts_complete _ _ _ _ _ _ _ _ Q Hstay Haccept) in Hs as [_ Hq]. apply Hq; [done|]. cbn [app]. by rewrite Hp.
Qed.

(** * Calls of the callback

    The calls [StreamPack] makes as long as the callback accepts: [stream_events]
    are its calls with the result at the end.  For any callback [StreamPack] makes
    these calls until one of them fails. *)
Definition event : Type := BlobHandle * outcome (list byte).

Definition record_event (s : list event) (h : BlobHandle) (r : outcome (list byte)) : list event * option error := (s ++ [(h, r)], None).

Fixpoint replay {St : Type} (handleBlobFn : St -> BlobHandle -> outcome (list byte) -> St * option error) (s : St) (events : list event) : St * option error :=
  match events with
  | [] => (s, None)
  | (h, r) :: rest =>
      match handleBlobFn s h r with
      | (s, None) => replay handleBlobFn s rest
      | (s, Some e) => (s, Some e)
      end
  end.

Lemma replay_app {St} (fn : St -> BlobHandle -> outcome (list byte) -> St * option error) s l1 l2 :
  replay fn s (l1 ++ l2) = match replay fn s l1 with (s', None) => replay fn s' l2 | (s', Some e) => (s', Some e) end.
Proof. revert s. induction l1 as [|[h r] l1 IH]; intros s; [done|]. cbn. destruct (fn s h r) as [s' [e|]]; [done|apply IH]. Qed.

Section Replay.
Context (aes_Encrypt : list byte -> list byte -> list byte).
Context (poly1305_Verify : list byte -> list byte -> list byte -> bool).
Context (Hash : list byte -> ID) (zstd_DecodeAll : list byte -> outcome (list byte)).
Context (beLoad : Handle -> Z -> Z -> list (outcome (list byte))) (key : Key) (packID : ID).
Context {St : Type} (handleBlobFn : St -> BlobHandle -> outcome (list byte) -> St * option error).

Abbreviation events_of := (StreamPack aes_Encrypt poly1305_Verify Hash zstd_DecodeAll (load_attempts beLoad) key packID record_event).
Abbreviation stream fn := (stream_blobs aes_Encrypt poly1305_Verify Hash zstd_DecodeAll key fn).
Abbreviation part_ fn := (streamPackPart aes_Encrypt poly1305_Verify Hash zstd_DecodeAll (load_attempts beLoad) key packID fn).
Abbreviation parts fn := (stream_parts aes_Encrypt poly1305_Verify Hash zstd_DecodeAll (load_attempts beLoad) key packID fn).

(** [rec] ran with the recorder, [run] with the callback. *)
Definition replays {A} (wrap : error -> error) (s : St) (log : list event) (rec : list event * outcome A) (run : St * outcome A) : Prop :=
  exists l, rec.1 = log ++ l /\
    run = match replay handleBlobFn s l with (s', None) => (s', rec.2) | (s', Some e) => (s', Err (wrap e)) end.

Lemma stream_blobs_replays blobs s log rd cur :
  replays Permanent s log (stream record_event log rd cur blobs) (stream handleBlobFn s rd cur blobs).
Proof.
  revert s log rd cur. induction blobs as [|b blobs IH]; intros s log rd cur; cbn [stream_blobs];
    [exists []; by rewrite app_nil_r|].
  assert (forall r : outcome (list byte), replays Permanent s log (log, r) (s, r)) as Hnone by (intros r; exists []; by rewrite app_nil_r).
  destruct (_ <? 0); [apply Hnone|]. destruct (_ <? _); [apply Hnone|]. destruct (ReadFull _ _) as [buf|e|p]; [|apply Hnone..].
  destruct (_ <=? _); [apply Hnone|].
  assert (forall o, replays Permanent s log
    (stream record_event (log ++ [(b_handle b, o)]) (slice_from (slice_from rd (i64 (b_Offset b - cur))) (b_Length b)) (u64 (b_Offset b + b_Length b)) blobs)
    (let '(s1, err) := handleBlobFn s (b_handle b) o in match err with
     | Some e => (s1, Err (Permanent e))
     | None => stream handleBlobFn s1 (slice_from (slice_from rd (i64 (b_Offset b - cur))) (b_Length b)) (u64 (b_Offset b + b_Length b)) blobs
     end)) as Hg.
  { intros o. destruct (handleBlobFn s (b_handle b) o) as [s1 err] eqn:Eh.
    destruct (IH s1 (log ++ [(b_handle b, o)]) (slice_from (slice_from rd (i64 (b_Offset b - cur))) (b_Length b)) (u64 (b_Offset b + b_Length b))) as (l & El & Er).
    exists ((b_handle b, o) :: l). split; [by rewrite El, <- app_assoc|]. cbn [replay]. rewrite Eh. destruct err; [done|]. exact Er. }
  destruct (stream_decode _ _ _ _ key b buf) as [d|e|p]; [apply Hg..|apply Hnone].
Qed.

Lemma streamPackPart_replays blobs s log :
  replays (fun e => ErrWrap (Permanent e) "StreamPack") s log (part_ record_event log blobs) (part_ handleBlobFn s blobs).
Proof.
  unfold streamPackPart, load_attempts. destruct blobs as [|first blobs]; [exists []; by rewrite app_nil_r|].
  destruct (last _) as [l|]; [|exists []; by rewrite app_nil_r].
  generalize (beLoad (mkHandle PackFile false (ID_String packID)) (i64 (u64 (b_Offset l + b_Length l) - b_Offset first)) (i64 (b_Offset first))).
  intros attempts.
  assert (replays Permanent s log
    (run_attempts (fun s rd => prod_map id discard (stream record_event s rd (b_Offset first) (first :: blobs))) log attempts)
    (run_attempts (fun s rd => prod_map id discard (stream handleBlobFn s rd (b_Offset first) (first :: blobs))) s attempts)) as (l' & El & Er).
  { revert s log. induction attempts as [|a rest IH]; intros s log; cbn [run_attempts]; [exists []; by rewrite app_nil_r|].
    assert (replays Permanent s log
      match a with Ok d => prod_map id discard (stream record_event log d (b_Offset first) (first :: blobs)) | Err e => (log, Err e) | Panic p => (log, Panic p) end
      match a with Ok d => prod_map id discard (stream handleBlobFn s d (b_Offset first) (first :: blobs)) | Err e => (s, Err e) | Panic p => (s, Panic p) end)
      as (l1 & E1 & Er1).
    { destruct a as [d|e|p]; [|exists []; by rewrite app_nil_r..].
      destruct (stream_blobs_replays (first :: blobs) s log d (b_Offset first)) as (l1 & E1 & Er1). exists l1.
      destruct (stream record_event log d _ _) as [log1 r1]. rewrite Er1. cbn [prod_map fst snd id] in *. split; [done|].
      destruct (replay handleBlobFn s l1) as [s1 [e|]]; done. }
    destruct (match a with Ok d => prod_map id discard (stream record_event log d _ _) | _ => _ end) as [log1 r1]. cbn [fst snd] in *. subst log1.
    rewrite Er1. destruct (replay handleBlobFn s l1) as [s1 [e|]] eqn:Erp.
    - (* the callback failed, permanently *)
      assert (exists l2, (match r1, rest with Ok _, _ => (log ++ l1, Ok tt) | Panic p, _ => (log ++ l1, Panic p) | Err e, [] => (log ++ l1, Err e)
        | Err e, _ => if is_permanent e then (log ++ l1, Err e) else run_attempts (fun s rd => prod_map id discard (stream record_event s rd (b_Offset first) (first :: blobs))) (log ++ l1) rest end).1 = log ++ l1 ++ l2) as (l2 & E2).
      { destruct r1 as [[]|e1|p]; [exists []; by rewrite app_nil_r| |exists []; by rewrite app_nil_r].
        destruct rest as [|a1 rest]; [exists []; by rewrite app_nil_r|]. destruct (is_permanent e1); [exists []; by rewrite app_nil_r|].
        destruct (IH s1 (log ++ l1)) as (l2 & E2 & _). exists l2. by rewrite E2, <- app_assoc. }
      exists (l1 ++ l2). split; [exact E2|]. rewrite replay_app, Erp. by destruct rest.
    - destruct r1 as [[]|e1|p]; [exists l1; by rewrite Erp| |exists l1; by rewrite Erp].
      destruct rest as [|a1 rest]; [exists l1; by rewrite Erp|]. destruct (is_permanent e1); [exists l1; by rewrite Erp|].
      destruct (IH s1 (log ++ l1)) as (l2 & E2 & Er2). exists (l1 ++ l2). split; [by rewrite E2, <- app_assoc|]. by rewrite replay_app, Erp. }
  exists l'. destruct (run_attempts _ log attempts) as [log1 r1]. cbn [fst snd] in *. split; [exact El|]. rewrite Er.
  by destruct (replay handleBlobFn s l') as [s1 [e|]].
Qed.

Lemma stream_parts_replays blobs part s log lastPos :
  replays (fun e => ErrWrap (Permanent e) "StreamPack") s log (parts record_event log part lastPos blobs) (parts handleBlobFn s part lastPos blobs).
Proof.
  revert part s log lastPos. induction blobs as [|b blobs IH]; intros part s log lastPos; cbn [stream_parts]; [apply streamPackPart_replays|].
  destruct (_ <? lastPos); [exists []; by rewrite app_nil_r|]. destruct (_ <? _); [|apply IH].
  destruct (streamPackPart_replays part s log) as (l1 & E1 & Er1). destruct (part_ record_event log part) as [log1 r1]. cbn [fst snd] in *. subst log1. rewrite Er1.
  destruct (replay handleBlobFn s l1) as [s1 [e|]] eqn:Erp.
  - assert (exists l2, (match r1 with Ok _ => parts record_event (log ++ l1) [b] (u64 (b_Offset b + b_Length b)) blobs | _ => (log ++ l1, r1) end).1 = log ++ l1 ++ l2) as (l2 & E2).
    { destruct r1 as [[]|e1|p]; [|exists []; by rewrite app_nil_r..].
      destruct (IH [b] s1 (log ++ l1) (u64 (b_Offset b + b_Length b))) as (l2 & E2 & _). exists l2. by rewrite E2, <- app_assoc. }
    exists (l1 ++ l2). split; [|by rewrite replay_app, Erp]. rewrite <- E2. by destruct r1.
  - destruct r1 as [[]|e1|p]; [|exists l1; by rewrite Erp..].
    destruct (IH [b] s1 (log ++ l1) (u64 (b_Offset b + b_Length b))) as (l2 & E2 & Er2). exists (l1 ++ l2).
    split; [by rewrite E2, <- app_assoc|]. by rewrite replay_app, Erp.
Qed.

(** For any callback, [StreamPack] is the replay of its events. *)
Lemma StreamPack_replay blobs s :
  StreamPack aes_Encrypt poly1305_Verify Hash zstd_DecodeAll (load_attempts beLoad) key packID handleBlobFn s blobs =
    let '(events, r) := events_of [] blobs in
    match replay handleBlobFn s events with
    | (s', None) => (s', r)
    | (s', Some e) => (s', Err (ErrWrap (Permanent e) "StreamPack"))
    end.
Proof.
  unfold StreamPack. destruct (go_sort offset_less blobs) as [|b rest]; [done|].
  destruct (stream_parts_replays (b :: rest) [] s [] (b_Offset b)) as (l & E & Er). destruct (parts record_event [] [] _ _) as [log1 r1].
  cbn [fst snd app] in *. subst log1. exact Er.
Qed.
End Replay.

(** What is known of the events: a content has the hash of its blob, and without
    an error every blob has one. *)
Lemma events_verified aes_Encrypt poly1305_Verify Hash zstd_DecodeAll beLoad key packID blobs events r :
  StreamPack aes_Encrypt poly1305_Verify Hash zstd_DecodeAll (load_attempts beLoad) key packID record_event [] blobs = (events, r) ->
  Forall (fun ev => (exists b, b ∈ blobs /\ b_handle b = ev.1) /\ (forall d, ev.2 = Ok d -> Hash d = bh_ID ev.1) /\ ~ panics ev.2) events.
Proof.
  intros E. assert (events = (StreamPack aes_Encrypt poly1305_Verify Hash zstd_DecodeAll (load_attempts beLoad) key packID record_event [] blobs).1) as -> by by rewrite E.
  apply (StreamPack_inv _ _ _ _ _ _ _ _ blobs [] (fun s => Forall (fun ev => (exists b, b ∈ blobs /\ b_handle b = ev.1) /\ (forall d, ev.2 = Ok d -> Hash d = bh_ID ev.1) /\ ~ panics ev.2) s)); [|constructor].
  intros s b o Hs Hb Ho Hp. apply Forall_app. split; [exact Hs|]. constructor; [|constructor]. split; [by exists b|by split].
Qed.

Lemma events_complete aes_Encrypt poly1305_Verify Hash zstd_DecodeAll beLoad key packID blobs events :
  StreamPack aes_Encrypt poly1305_Verify Hash zstd_DecodeAll (load_attempts beLoad) key packID record_event [] blobs = (events, Ok tt) ->
  forall b, b ∈ blobs -> exists o, (b_handle b, o) ∈ events.
Proof.
  apply (StreamPack_complete _ _ _ _ _ _ _ record_event (fun s b => exists o, (b_handle b, o) ∈ s)).
  - intros s b o s' e b' [= <- <-] (o' & Ho). exists o'. apply elem_of_app. by left.
  - intros s b o s' [= <-]. exists o. apply elem_of_app. right. left.
Qed.

(** A pack file with two blobs, delivered after a temporary failure; the
    callback records what it is passed. *)
Definition ex_content (b : Blob) : list byte := if b_Offset b =? 0 then ["x"; "y"]%byte else ["z"]%byte.
Definition ex_sealed (pt : list byte) : list byte := ex_nonce ++ sealed ex_aes ex_sum ex_key ex_nonce pt.
Definition ex_pack_file : list byte := ex_sealed ["x"; "y"]%byte ++ ex_sealed ["z"]%byte.
Definition ex_pack_blobs : list Blob :=
  [ mkBlob (mkBlobHandle (ex_sha ["z"]%byte) DataBlob) 33 34 0;
    mkBlob (mkBlobHandle (ex_sha ["x"; "y"]%byte) DataBlob) 34 0 2 ].
Definition ex_beLoad (_ : Handle) (n off : Z) : list (outcome (list byte)) :=
  [Err (ErrMsg "timeout"); Ok (slice ex_pack_file off (off + n))].
Definition ex_record (s : list (BlobHandle * outcome (list byte))) (h : BlobHandle) (r : outcome (list byte))
    : list (BlobHandle * outcome (list byte)) * option error := (s ++ [(h, r)], None).
Abbreviation ex_StreamPack := (StreamPack ex_aes ex_verify ex_sha ex_zstd_DecodeAll (load_attempts ex_beLoad) ex_key (ex_id "p"%byte) ex_record []).

Lemma StreamPack_delivers_witness :
  exists order, order ≡ₚ ex_pack_blobs /\ StronglySorted before order /\
    ex_StreamPack ex_pack_blobs = (fold_left (deliver ex_record ex_content) order [], Ok tt).
Proof.
  apply (StreamPack_delivers ex_aes ex_verify ex_sha ex_zstd_DecodeAll ex_beLoad ex_key (ex_id "p"%byte) ex_record ex_pack_file ex_content).
  - vm_compute. reflexivity.
  - intros n off Ho Hn Hl. exists [ErrMsg "timeout"], []. split; [reflexivity|]. repeat constructor.
  - repeat constructor; try (vm_compute; congruence); vm_compute; reflexivity.
  - intros i j b1 b2 Hij H1 H2. unfold separate, before.
    destruct i as [|[|i]], j as [|[|j]]; cbn in H1, H2; simplify_eq; try done; vm_compute; [right|left]; congruence.
  - done.
Defined.

(** Recorded contents are verified. *)
Lemma StreamPack_verified_witness :
  Forall (fun c => forall d, c.2 = Ok d -> ex_sha d = bh_ID c.1) (ex_StreamPack ex_pack_blobs).1.
Proof.
  apply (StreamPack_verified ex_aes ex_verify ex_sha ex_zstd_DecodeAll ex_beLoad ex_key (ex_id "p"%byte) ex_record ex_pack_blobs []
    (fun s => Forall (fun c => forall d, c.2 = Ok d -> ex_sha d = bh_ID c.1) s)).
  - intros s b r Hs _ Hr. apply Forall_app. split; [exact Hs|]. constructor; [exact Hr|constructor].
  - constructor.
Defined.
