(* ===== verification/Repack.v ===== *)
(** Repacking (src/repository/repack.go).

    A producer lists the packs and passes them, without the blobs that need not
    be kept, to workers; a worker streams a pack and saves the blobs that no other
    worker was faster to save.  The goroutines are a step relation: a step is one
    action of the producer, one call of the callback up to its mutex, the section
    the mutex guards, or one [SaveBlob]. *)

From S2P Require Import Prelude Bytes Restic Sets.

(** * The state *)

(** A worker: waiting for a pack, inside [StreamPack] with the blobs whose callback
    has returned [nil], inside the callback before and after its mutex, returned
    with an error, or finished. *)
Inductive worker :=
  | Waiting
  | Streaming (t : PackBlobs) (handled : list BlobHandle)
  | Deciding (t : PackBlobs) (handled : list BlobHandle) (blob : BlobHandle) (buf : list byte)
  | Saving (t : PackBlobs) (handled : list BlobHandle) (blob : BlobHandle) (buf : list byte)
  | Failed
  | Finished.

(** [r_pending] is the pack the producer waits to send; [r_saved] are the calls of
    [SaveBlob] of the destination that succeeded, the last one first. *)
Record repack_state := mkRepack {
  r_keepBlobs : gset BlobHandle;
  r_listed : list PackBlobs;
  r_pending : option PackBlobs;
  r_workers : list worker;
  r_saved : list (BlobHandle * list byte) }.

(** The blobs of a pack that are still to be kept. *)
Definition filter_blobs (keepBlobs : gset BlobHandle) (pbs : PackBlobs) : PackBlobs :=
  mkPackBlobs (pbs_PackID pbs) (filter (fun entry => b_handle entry ∈ keepBlobs) (pbs_Blobs pbs)).

(** [Repack] needs two connections when it reads from and writes to one
    repository. *)
Definition Repack_check (same : bool) (Connections : nat) : option error :=
  if same && (Connections <? 2) then Some (ErrMsg "repack step requires a backend connection limit of at least two") else None.
Definition repackWorkerCount (same : bool) (Connections : nat) : nat := if same then Connections - 1 else Connections.

Definition init_repack (keepBlobs : gset BlobHandle) (listed : list PackBlobs) (count : nat) : repack_state :=
  mkRepack keepBlobs listed None (replicate count Waiting) [].

Section Repack.
(** [LoadBlob] of the source repository, the second chance for a damaged blob, and
    the hash of contents. *)
Context (Hash : list byte -> ID) (LoadBlob : BlobType -> ID -> outcome (list byte)).

(** One step of the worker's own: [StreamPack] calls the callback for blobs of the
    pack with content that has their hash, or an error; it ends without an error
    only after every blob was handled. *)
Inductive worker_step (keepBlobs : gset BlobHandle) : worker -> worker -> gset BlobHandle -> list (BlobHandle * list byte) -> Prop :=
  | call_ok t handled b buf : b ∈ pbs_Blobs t -> Hash buf = b_ID b ->
      worker_step keepBlobs (Streaming t handled) (Deciding t handled (b_handle b) buf) keepBlobs []
  | call_damaged t handled b buf : b ∈ pbs_Blobs t -> LoadBlob (b_Type b) (b_ID b) = Ok buf ->
      worker_step keepBlobs (Streaming t handled) (Deciding t handled (b_handle b) buf) keepBlobs []
  | call_lost t handled b : b ∈ pbs_Blobs t -> is_ok (LoadBlob (b_Type b) (b_ID b)) = false ->
      worker_step keepBlobs (Streaming t handled) Failed keepBlobs []
  | decide_keep t handled h buf : h ∈ keepBlobs ->
      worker_step keepBlobs (Deciding t handled h buf) (Saving t handled h buf) (keepBlobs ∖ {[h]}) []
  | decide_drop t handled h buf : h ∉ keepBlobs ->
      worker_step keepBlobs (Deciding t handled h buf) (Streaming t (h :: handled)) keepBlobs []
  | save_ok t handled h buf :
      worker_step keepBlobs (Saving t handled h buf) (Streaming t (h :: handled)) keepBlobs [(h, buf)]
  | save_failed t handled h buf : worker_step keepBlobs (Saving t handled h buf) Failed keepBlobs []
  | stream_done t handled : (forall b, b ∈ pbs_Blobs t -> b_handle b ∈ handled) ->
      worker_step keepBlobs (Streaming t handled) Waiting keepBlobs []
  | stream_failed t handled : worker_step keepBlobs (Streaming t handled) Failed keepBlobs [].

Inductive repack_step : repack_state -> repack_state -> Prop :=
  | produce keep pbs listed ws saved :
      repack_step (mkRepack keep (pbs :: listed) None ws saved) (mkRepack keep listed (Some (filter_blobs keep pbs)) ws saved)
  | receive keep listed t ws saved i : ws !! i = Some Waiting ->
      repack_step (mkRepack keep listed (Some t) ws saved) (mkRepack keep listed None (<[i := Streaming t []]> ws) saved)
  | finish keep ws saved i : ws !! i = Some Waiting ->
      repack_step (mkRepack keep [] None ws saved) (mkRepack keep [] None (<[i := Finished]> ws) saved)
  | work keep listed pending ws saved i w w' keep' new : ws !! i = Some w -> worker_step keep w w' keep' new ->
      repack_step (mkRepack keep listed pending ws saved) (mkRepack keep' listed pending (<[i := w']> ws) (new ++ saved)).

(** [repack] returns without an error when the producer and all workers have. *)
Definition repack_ok (s : repack_state) : Prop :=
  r_listed s = [] /\ r_pending s = None /\ Forall (fun w => w = Finished) (r_workers s).

(** * The invariant *)

Definition pack_handles (t : PackBlobs) : list BlobHandle := b_handle <$> pbs_Blobs t.

(** The blob a worker has taken out of [keepBlobs]. *)
Definition taken (w : worker) : list BlobHandle := match w with Saving _ _ h _ => [h] | _ => [] end.

(** The handled blobs of a worker, the handles of its pack, and its content. *)
Definition worker_handled (w : worker) : list BlobHandle :=
  match w with Streaming _ l | Deciding _ l _ _ | Saving _ l _ _ => l | _ => [] end.
Definition worker_pack (w : worker) : list BlobHandle :=
  match w with Streaming t _ | Deciding t _ _ _ | Saving t _ _ _ => pack_handles t | _ => [] end.
Definition worker_content (w : worker) : Prop :=
  match w with Deciding _ _ h buf | Saving _ _ h buf => Hash buf = bh_ID h | _ => True end.

(** Blobs to keep are spread over [keepBlobs], the workers and what is saved, each
    in one place; a blob that is still to be kept is ahead of the workers, or a
    worker has failed with it; contents have the hash of their blob. *)
Record repack_inv (keep0 : gset BlobHandle) (listed0 : list PackBlobs) (s : repack_state) : Prop := {
  inv_nodup : NoDup ((r_saved s).*1 ++ (r_workers s ≫= taken) ++ elements (r_keepBlobs s));
  inv_all : forall h, h ∈ keep0 -> Failed ∈ r_workers s \/ h ∈ (r_saved s).*1 ++ (r_workers s ≫= taken) ++ elements (r_keepBlobs s);
  inv_only : forall h, h ∈ (r_saved s).*1 ++ (r_workers s ≫= taken) ++ elements (r_keepBlobs s) -> h ∈ keep0;
  inv_ahead : forall h, h ∈ r_keepBlobs s -> h ∈ listed0 ≫= pack_handles ->
    Failed ∈ r_workers s \/ h ∈ r_listed s ≫= pack_handles \/ h ∈ from_option pack_handles [] (r_pending s) \/ h ∈ r_workers s ≫= worker_pack;
  inv_handled : forall w h, w ∈ r_workers s -> h ∈ worker_handled w -> h ∉ r_keepBlobs s;
  inv_content : Forall worker_content (r_workers s) /\ Forall (fun e => Hash e.2 = bh_ID e.1) (r_saved s) }.

Lemma init_repack_inv keep0 listed0 count : repack_inv keep0 listed0 (init_repack keep0 listed0 count).
Proof.
  assert (replicate count Waiting ≫= taken = []) as Ht by (induction count; done).
  split; cbn [init_repack r_saved r_workers r_keepBlobs r_listed r_pending]; rewrite ?Ht; cbn [app fmap list_fmap].
  - apply NoDup_elements.
  - intros h Hh. right. by apply elem_of_elements.
  - intros h Hh. by apply elem_of_elements in Hh.
  - intros h _ Hh. right. by left.
  - intros w h [-> _]%elem_of_replicate Hh%elem_of_nil. done.
  - split; [|constructor]. apply Forall_forall. by intros w [-> _]%elem_of_replicate.
Qed.

(** A step of a worker moves blobs between its place and the others; only a failed
    save loses one. *)
Lemma worker_step_moves keep w w' keep' new :
  worker_step keep w w' keep' new ->
  keep' ⊆ keep /\ w <> Failed /\
  (taken w ++ elements keep ≡ₚ new.*1 ++ taken w' ++ elements keep' \/
   (w' = Failed /\ exists h, taken w ++ elements keep ≡ₚ h :: new.*1 ++ taken w' ++ elements keep')).
Proof.
  destruct 1 as [| | |t hd h buf Hh|t hd h buf Hh| | | |]; (split; [set_solver|split; [done|]]); cbn [taken app fmap list_fmap]; try (by left).
  - left. rewrite <- elements_union_singleton by set_solver. by rewrite <- union_difference_singleton_L.
  - right. split; [done|]. by exists h.
Qed.

Lemma worker_step_pack keep w w' keep' new h :
  worker_step keep w w' keep' new ->
  (forall h, h ∈ worker_handled w -> h ∉ keep) -> h ∈ keep' -> h ∈ worker_pack w -> w' = Failed \/ h ∈ worker_pack w'.
Proof.
  intros Hs Hh Hk Hp. destruct Hs as [| | | | | | |t hd Hall|]; auto. exfalso. cbn in Hp.
  apply list_elem_of_fmap in Hp as (b & -> & Hb). by apply (Hh (b_handle b)); [apply Hall|].
Qed.

Lemma worker_step_handled keep w w' keep' new h :
  worker_step keep w w' keep' new ->
  (forall h, h ∈ worker_handled w -> h ∉ keep) -> (forall h, h ∈ taken w -> h ∉ keep) -> h ∈ worker_handled w' -> h ∉ keep'.
Proof. intros Hs. destruct Hs; cbn; set_solver. Qed.

Context (LoadBlob_verified : forall t id buf, LoadBlob t id = Ok buf -> Hash buf = id).

Lemma worker_step_content keep w w' keep' new :
  worker_step keep w w' keep' new -> worker_content w ->
  worker_content w' /\ Forall (fun e => Hash e.2 = bh_ID e.1) new.
Proof using LoadBlob_verified. intros Hs Hc. destruct Hs; cbn in *; eauto using Forall_nil_2, Forall_cons_2. Qed.

Lemma shuffle {A} (S W T V E : list A) : S ++ (W ++ T ++ V) ++ E ≡ₚ (S ++ W ++ V) ++ (T ++ E).
Proof. rewrite <- !app_assoc. do 2 apply Permutation_app_head. rewrite !app_assoc. by rewrite (Permutation_app_comm T V). Qed.

(** Where all blobs are after a step of the worker between [ws1] and [ws2]. *)
Lemma work_moves ws1 w ws2 keep w' keep' new saved :
  worker_step keep w w' keep' new ->
  let M := saved.*1 ++ ((ws1 ++ w :: ws2) ≫= taken) ++ elements keep in
  let M' := (new ++ saved).*1 ++ ((ws1 ++ w' :: ws2) ≫= taken) ++ elements keep' in
  M ≡ₚ M' \/ (w' = Failed /\ exists h, M ≡ₚ h :: M').
Proof.
  intros Hs. cbn zeta. rewrite !bind_app. change ((?x :: ws2) ≫= taken) with (taken x ++ (ws2 ≫= taken)).
  rewrite !shuffle, fmap_app. set (R := (ws1 ≫= taken) ++ (ws2 ≫= taken)).
  assert (((new.*1 ++ saved.*1) ++ R) ++ taken w' ++ elements keep' ≡ₚ (saved.*1 ++ R) ++ new.*1 ++ taken w' ++ elements keep') as Hp.
  { rewrite (Permutation_app_comm new.*1), <- !app_assoc. apply Permutation_app_head. rewrite !app_assoc. do 2 apply Permutation_app_tail. apply Permutation_app_comm. }
  destruct (worker_step_moves _ _ _ _ _ Hs) as (_ & _ & [Hm|(-> & h & Hm)]).
  - left. rewrite Hp. by rewrite Hm.
  - right. split; [done|]. exists h. rewrite (shuffle saved.*1), (shuffle (new.*1 ++ saved.*1)). fold R. rewrite Hp, Hm. symmetry. apply Permutation_middle.
Qed.

Lemma elem_of_bind_middle (f : worker -> list BlobHandle) ws1 w ws2 h :
  h ∈ (ws1 ++ w :: ws2) ≫= f <-> h ∈ ws1 ≫= f \/ h ∈ f w \/ h ∈ ws2 ≫= f.
Proof. rewrite bind_app, elem_of_app. change ((w :: ws2) ≫= f) with (f w ++ (ws2 ≫= f)). by rewrite elem_of_app. Qed.

Lemma repack_step_inv keep0 listed0 s s' :
  repack_inv keep0 listed0 s -> repack_step s s' -> repack_inv keep0 listed0 s'.
Proof using LoadBlob_verified.
  intros [Hnd Hall Honly Hahead Hhd [Hcw Hcs]] Hs.
  destruct Hs as [keep pbs listed ws saved|keep listed t ws saved i Hi|keep ws saved i Hi|keep listed pending ws saved i w w' keep' new Hi Hw];
    cbn [r_saved r_workers r_keepBlobs r_listed r_pending from_option] in *.
  - split; cbn [r_saved r_workers r_keepBlobs r_listed r_pending from_option]; try done.
    intros h Hk Hl. destruct (Hahead h Hk Hl) as [?|[Hin|[Hin|?]]]; [by left| |by apply elem_of_nil in Hin|by right; right; right].
    cbn in Hin. apply elem_of_app in Hin as [Hin|Hin]; [|by right; left]. right. right. left. unfold pack_handles in *.
    apply list_elem_of_fmap in Hin as (b & -> & Hb). apply list_elem_of_fmap. exists b. split; [done|]. by apply list_elem_of_filter.
  - apply list_elem_of_split_length in Hi as (ws1 & ws2 & -> & ->). rewrite insert_app_r_alt, Nat.sub_diag in * by done. cbn [insert list_insert].
    rewrite !bind_app in *. cbn [mbind list_bind taken app worker_pack] in *.
    split; cbn [r_saved r_workers r_keepBlobs r_listed r_pending from_option]; rewrite ?bind_app; cbn [mbind list_bind taken app worker_pack]; try done.
    + intros h Hh. destruct (Hall h Hh); [left; set_solver|by right].
    + intros h Hk Hl. destruct (Hahead h Hk Hl) as [?|[?|[?|?]]]; [left; set_solver|by right; left|right; right; right; set_solver|right; right; right; set_solver].
    + intros w h. rewrite elem_of_app, elem_of_cons. intros [?|[->|?]] Hh; [eapply Hhd; [|done]; set_solver|by apply elem_of_nil in Hh|eapply Hhd; [|done]; set_solver].
    + apply Forall_app in Hcw as [Hc1 [_ Hc2]%Forall_cons]. split; [|done]. apply Forall_app. split; [done|]. by constructor.
  - apply list_elem_of_split_length in Hi as (ws1 & ws2 & -> & ->). rewrite insert_app_r_alt, Nat.sub_diag in * by done. cbn [insert list_insert].
    rewrite !bind_app in *. cbn [mbind list_bind taken app worker_pack] in *.
    split; cbn [r_saved r_workers r_keepBlobs r_listed r_pending from_option]; rewrite ?bind_app; cbn [mbind list_bind taken app worker_pack]; try done.
    + intros h Hh. destruct (Hall h Hh); [left; set_solver|by right].
    + intros h Hk Hl. destruct (Hahead h Hk Hl) as [?|?]; [left; set_solver|by right].
    + intros w h. rewrite elem_of_app, elem_of_cons. intros [?|[->|?]] Hh; [eapply Hhd; [|done]; set_solver|by apply elem_of_nil in Hh|eapply Hhd; [|done]; set_solver].
    + apply Forall_app in Hcw as [Hc1 [_ Hc2]%Forall_cons]. split; [|done]. apply Forall_app. split; [done|]. by constructor.
  - apply list_elem_of_split_length in Hi as (ws1 & ws2 & -> & ->). rewrite insert_app_r_alt, Nat.sub_diag in * by done. cbn [insert list_insert].
    destruct (worker_step_moves _ _ _ _ _ Hw) as (Hsub & HwF & _).
    assert (forall h, h ∈ worker_handled w -> h ∉ keep) as Hhw by (intros h; apply Hhd; set_solver).
    assert (forall h, h ∈ taken w -> h ∉ keep) as Htw.
    { intros h Hh Hk. rewrite bind_app in Hnd. change ((w :: ws2) ≫= taken) with (taken w ++ (ws2 ≫= taken)) in Hnd.
      rewrite shuffle in Hnd. apply NoDup_app in Hnd as (_ & _ & Hnd). apply NoDup_app in Hnd as (_ & Hnd & _).
      apply (Hnd h Hh). by apply elem_of_elements. }
    assert (Failed ∈ ws1 ++ w :: ws2 -> Failed ∈ ws1 ++ w' :: ws2) as HF by (rewrite !elem_of_app, !elem_of_cons; intros [?|[?|?]]; [by left|congruence|by right; right]).
    pose proof (work_moves ws1 w ws2 keep w' keep' new saved Hw) as HM. cbn zeta in HM.
    destruct (worker_step_content _ _ _ _ _ Hw) as [Hcw' Hcn]; [by apply Forall_app in Hcw as [_ [? _]%Forall_cons]|].
    split; cbn [r_saved r_workers r_keepBlobs r_listed r_pending from_option].
    + destruct HM as [HM|(_ & h & HM)]; rewrite HM in Hnd; [done|by apply NoDup_cons in Hnd as [_ ?]].
    + intros h Hh. destruct (Hall h Hh) as [?|Hin]; [by left; apply HF|].
      destruct HM as [HM|(-> & h' & HM)]; [right; by rewrite <- HM|left; apply elem_of_app; right; by left].
    + intros h Hh. apply Honly. destruct HM as [HM|(_ & h' & HM)]; rewrite HM; [done|by right].
    + intros h Hk Hl. destruct (Hahead h (Hsub h Hk) Hl) as [?|[?|[?|Hin]]]; [by left; apply HF|by right; left|by right; right; left|].
      apply elem_of_bind_middle in Hin as [?|[Hin|?]]; [right; right; right; apply elem_of_bind_middle; by left| |right; right; right; apply elem_of_bind_middle; by right; right].
      destruct (worker_step_pack _ _ _ _ _ h Hw Hhw Hk Hin) as [->|?]; [left; apply elem_of_app; right; by left|].
      right; right; right. apply elem_of_bind_middle. by right; left.
    + intros v h. rewrite elem_of_app, elem_of_cons. intros [Hv|[->|Hv]] Hh.
      * intros Hk. apply Hsub in Hk. revert Hk. eapply Hhd; [|exact Hh]. apply elem_of_app. by left.
      * by eapply worker_step_handled.
      * intros Hk. apply Hsub in Hk. revert Hk. eapply Hhd; [|exact Hh]. apply elem_of_app. right. by right.
    + apply Forall_app in Hcw as [Hc1 [_ Hc2]%Forall_cons]. split; [apply Forall_app; split; [done|by constructor]|by apply Forall_app].
Qed.

Lemma finished_workers ws :
  Forall (fun w => w = Finished) ws -> ws ≫= taken = [] /\ ws ≫= worker_pack = [] /\ Failed ∉ ws.
Proof.
  induction 1 as [|w ws -> _ (IH1 & IH2 & IH3)]; [split_and!; [done|done|apply not_elem_of_nil]|].
  split_and!; [exact IH1|exact IH2|]. by rewrite not_elem_of_cons.
Qed.

(** C15. When [repack] ends without an error, whatever the interleaving of its
    workers: every blob that was to be kept and is in one of the packs was saved
    exactly once, with content that has its hash, and nothing else was saved.
    Removing the packs then loses no blob. *)
Theorem repack_keeps_blobs keep0 listed count s :
  rtc repack_step (init_repack keep0 listed count) s -> repack_ok s ->
  NoDup (r_saved s).*1 /\ Forall (fun e => Hash e.2 = bh_ID e.1) (r_saved s) /\
  (forall h, h ∈ (r_saved s).*1 -> h ∈ keep0) /\
  (forall h, h ∈ keep0 -> h ∈ listed ≫= pack_handles -> h ∈ (r_saved s).*1) /\
  (forall h, h ∈ keep0 -> h ∉ (r_saved s).*1 -> h ∈ r_keepBlobs s).
Proof using LoadBlob_verified.
  intros Hr (Hl & Hp & Hf).
  assert (repack_inv keep0 listed s) as [Hnd Hall Honly Hahead Hhd [_ Hcs]].
  { assert (forall s1, rtc repack_step s1 s -> repack_inv keep0 listed s1 -> repack_inv keep0 listed s) as Hg.
    { induction 1; [done|]. intros Hi. by apply IHrtc, (repack_step_inv _ _ x). }
    by apply (Hg _ Hr), init_repack_inv. }
  destruct (finished_workers _ Hf) as (Ht & Hpk & HF).
  rewrite Ht in Hnd, Hall, Honly. cbn [app] in *. rewrite Hl, Hp, Hpk in Hahead. cbn [from_option] in Hahead.
  assert (forall h, h ∈ keep0 -> h ∈ (r_saved s).*1 \/ h ∈ r_keepBlobs s) as Hor.
  { intros h Hh. destruct (Hall h Hh) as [?|[?|?%elem_of_elements]%elem_of_app]; [done|by left|by right]. }
  apply NoDup_app in Hnd as (Hnd & _ & _). split_and!; [done|done| | |].
  - intros h Hh. apply Honly. apply elem_of_app. by left.
  - intros h Hh Hlh. destruct (Hor h Hh) as [?|Hk]; [done|]. exfalso. destruct (Hahead h Hk Hlh) as [?|[?%elem_of_nil|[?%elem_of_nil|?%elem_of_nil]]]; done.
  - intros h Hh Hns. by destruct (Hor h Hh).
Qed.
End Repack.

(** Two workers, two packs with the same blob: one saves it, the other is too late. *)
Definition ex_repack_Hash (d : list byte) : ID := copy_id d.
Definition ex_repack_blob : Blob := mkBlob (mkBlobHandle (ex_repack_Hash ["d"%byte]) DataBlob) 33 0 0.
Definition ex_repack_listed : list PackBlobs :=
  [mkPackBlobs (ex_repack_Hash ["p"%byte]) [ex_repack_blob]; mkPackBlobs (ex_repack_Hash ["q"%byte]) [ex_repack_blob]].

Tactic Notation "worker_does" constr(i) uconstr(rule) :=
  eapply rtc_l; [eapply (work _ _ _ _ _ _ _ i); [reflexivity|eapply rule]|cbn [insert list_insert app]].

Lemma ex_repack_run :
  exists s, rtc (repack_step ex_repack_Hash (fun _ _ => Err (ErrMsg "not found")))
    (init_repack {[b_handle ex_repack_blob]} ex_repack_listed 2) s /\ repack_ok s.
Proof.
  eexists. split.
  - unfold init_repack. cbn [replicate].
    eapply rtc_l; [apply produce|]. eapply rtc_l; [apply (receive _ _ _ _ _ _ _ 0); reflexivity|]. cbn [insert list_insert].
    eapply rtc_l; [apply produce|]. eapply rtc_l; [apply (receive _ _ _ _ _ _ _ 1); reflexivity|]. cbn [insert list_insert].
    assert (forall p, filter_blobs {[b_handle ex_repack_blob]} (mkPackBlobs p [ex_repack_blob]) = mkPackBlobs p [ex_repack_blob]) as E.
    { intros p. unfold filter_blobs. cbn [pbs_Blobs pbs_PackID]. rewrite filter_cons, decide_True by set_solver. done. }
    rewrite !E.
    worker_does 0 (call_ok ex_repack_Hash (fun _ _ => Err (ErrMsg "not found")) _ _ _ ex_repack_blob ["d"%byte]); [by left|done|].
    worker_does 1 (call_ok ex_repack_Hash (fun _ _ => Err (ErrMsg "not found")) _ _ _ ex_repack_blob ["d"%byte]); [by left|done|].
    worker_does 0 decide_keep; [set_solver|]. worker_does 1 decide_drop; [set_solver|].
    worker_does 0 save_ok.
    worker_does 0 stream_done; [cbn; set_solver|]. worker_does 1 stream_done; [cbn; set_solver|].
    eapply rtc_l; [apply (finish _ _ _ _ _ 0); reflexivity|]. cbn [insert list_insert].
    eapply rtc_l; [apply (finish _ _ _ _ _ 1); reflexivity|]. cbn [insert list_insert]. apply rtc_refl.
  - by repeat constructor.
Qed.

Lemma repack_keeps_blobs_witness :
  exists s, repack_ok s /\ (r_saved s).*1 = [b_handle ex_repack_blob].
Proof.
  destruct ex_repack_run as (s & Hr & Hok). exists s. split; [exact Hok|].
  destruct (repack_keeps_blobs ex_repack_Hash (fun _ _ => Err (ErrMsg "not found")) ltac:(discriminate) _ _ _ _ Hr Hok) as (Hnd & _ & Honly & Hall & _).
  specialize (Hall (b_handle ex_repack_blob) ltac:(set_solver) ltac:(left)).
  destruct (r_saved s).*1 as [|h l]; [by apply elem_of_nil in Hall|].
  assert (forall h', h' ∈ h :: l -> h' = b_handle ex_repack_blob) as He by (intros h' Hh; apply Honly in Hh; set_solver).
  assert (h = b_handle ex_repack_blob) as -> by (apply He; left). destruct l as [|h2 l]; [reflexivity|].
  assert (h2 = b_handle ex_repack_blob) as -> by (apply He; right; left). apply NoDup_cons in Hnd as [Hnd _]. destruct Hnd. left.
Defined.
