(* ===== verification/GoTime.v ===== *)
(** The parts of Go's [time] package the library uses: instants with a zone of
    a fixed offset, their calendar date in the proleptic Gregorian calendar,
    ISO weeks, and calendar arithmetic. *)

From S2P Require Import Prelude.

#[local] Open Scope Z_scope.

(** An instant: nanoseconds since 1 January of year 1, 00:00 UTC (the zero
    time), and the offset of its zone in seconds east of UTC. *)
Record Time := mkTime { t_ns : Z; t_zone : Z }.

#[export] Instance Time_eq_dec : EqDecision Time.
Proof. solve_decision. Defined.

Definition time_zero : Time := mkTime 0 0.
Definition IsZero (t : Time) : bool := t_ns t =? 0.
Definition After (t u : Time) : bool := t_ns u <? t_ns t.
Definition Before (t u : Time) : bool := t_ns t <? t_ns u.

Definition second_ns : Z := 1000000000.
Definition Hour_ns : Z := 3600 * second_ns.

(** Seconds of the local clock since the start of year 1. *)
Definition local_seconds (t : Time) : Z := t_ns t / second_ns + t_zone t.
Definition day_number (t : Time) : Z := local_seconds t / 86400.

(** The date of a day, counted from 1 January of year 1 (day 0, a Monday), by
    way of years that start in March. *)
Definition civil (n : Z) : Z * Z * Z :=
  let z := n + 306 in
  let era := z / 146097 in
  let doe := z mod 146097 in
  let yoe := (doe - doe / 1460 + doe / 36524 - doe / 146096) / 365 in
  let doy := doe - (365 * yoe + yoe / 4 - yoe / 100) in
  let mp := (5 * doy + 2) / 153 in
  let d := doy - (153 * mp + 2) / 5 + 1 in
  let m := if mp <? 10 then mp + 3 else mp - 9 in
  ((yoe + era * 400) + (if m <=? 2 then 1 else 0), m, d).

(** The day of a date; [m] is between 1 and 12, [d] is any number of days. *)
Definition days_of (y m d : Z) : Z :=
  let y' := if m <=? 2 then y - 1 else y in
  let era := y' / 400 in
  let yoe := y' mod 400 in
  let doy := (153 * (if 2 <? m then m - 3 else m + 9) + 2) / 5 + (d - 1) in
  era * 146097 + yoe * 365 + yoe / 4 - yoe / 100 + doy - 306.

Definition Year (t : Time) : Z := (civil (day_number t)).1.1.
Definition Month (t : Time) : Z := (civil (day_number t)).1.2.
Definition Day (t : Time) : Z := (civil (day_number t)).2.
Definition Hour (t : Time) : Z := local_seconds t mod 86400 / 3600.

(** The year and week of the Thursday of the ISO week. *)
Definition ISOWeek (t : Time) : Z * Z :=
  let n := day_number t in
  let thursday := n - n mod 7 + 3 in
  let year := (civil thursday).1.1 in
  (year, (thursday - days_of year 1 1) / 7 + 1).

(** [AddDate] normalises the month, then the days. *)
Definition AddDate (t : Time) (years months days : Z) : Time :=
  let '(y, m, d) := civil (day_number t) in
  let m0 := m + months - 1 in
  let n := days_of (y + years + m0 / 12) (m0 mod 12 + 1) 1 + (d + days - 1) in
  mkTime (t_ns t + (n - day_number t) * 86400 * second_ns) (t_zone t).

Definition Add (t : Time) (d : Z) : Time := mkTime (t_ns t + d) (t_zone t).

(** The instant of a date and time in UTC. *)
Definition Date (y m d hour : Z) : Time := mkTime ((days_of y m d * 86400 + hour * 3600) * second_ns) 0.

(** The date of a day is a date of that day. *)
Lemma civil_year_day doe : 0 <= doe < 146097 ->
  let yoe := (doe - doe / 1460 + doe / 36524 - doe / 146096) / 365 in
  0 <= yoe < 400 /\ 0 <= doe - (365 * yoe + yoe / 4 - yoe / 100) <= 365.
Proof.
  intros H yoe.
  assert (doe / 36524 = 0 \/ doe / 36524 = 1 \/ doe / 36524 = 2 \/ doe / 36524 = 3 \/ doe / 36524 = 4) as Hb by zdiv_lia.
  assert (0 <= yoe < 400) as Hy by (unfold yoe; zdiv_lia). split; [done|].
  assert (yoe / 100 = 0 \/ yoe / 100 = 1 \/ yoe / 100 = 2 \/ yoe / 100 = 3) as Hc by zdiv_lia.
  unfold yoe in *. clear Hy. destruct Hb as [Hb|[Hb|[Hb|[Hb|Hb]]]], Hc as [Hc|[Hc|[Hc|Hc]]]; zdiv_lia.
Qed.

Lemma days_of_civil n : let '(y, m, d) := civil n in days_of y m d = n /\ 1 <= m <= 12.
Proof.
  unfold civil. cbv zeta. set (era := (n + 306) / 146097). set (doe := (n + 306) mod 146097).
  assert (n + 306 = 146097 * era + doe) as En by apply Z_div_mod_eq_full.
  assert (0 <= doe < 146097) as Hd by (apply Z.mod_pos_bound; lia).
  destruct (civil_year_day doe Hd) as [Hy Hdoy]. cbv zeta in Hdoy. set (yoe := (doe - _ + _ - _) / 365) in *.
  set (doy := doe - (365 * yoe + yoe / 4 - yoe / 100)) in *. set (mp := (5 * doy + 2) / 153).
  assert (0 <= mp <= 11) as Hmp by (unfold mp; zdiv_lia).
  assert (forall q, days_of (yoe + era * 400 + (if (if mp <? 10 then mp + 3 else mp - 9) <=? 2 then 1 else 0)) (if mp <? 10 then mp + 3 else mp - 9) q
    = 146097 * era + (yoe * 365 + yoe / 4 - yoe / 100) + ((153 * mp + 2) / 5 + (q - 1)) - 306) as E.
  { intros q. unfold days_of. cbv zeta.
    assert ((yoe + era * 400) / 400 = era /\ (yoe + era * 400) mod 400 = yoe) as [E1 E2] by (split; zdiv_lia).
    destruct (Z.ltb_spec mp 10).
    - destruct (Z.leb_spec (mp + 3) 2); [lia|]. destruct (Z.ltb_spec 2 (mp + 3)); [|lia].
      rewrite Z.add_0_r, E1, E2. replace (mp + 3 - 3) with mp by lia. lia.
    - destruct (Z.leb_spec (mp - 9) 2); [|lia]. destruct (Z.ltb_spec 2 (mp - 9)); [lia|].
      rewrite Z.add_simpl_r, E1, E2. replace (mp - 9 + 9) with mp by lia. lia. }
  rewrite E. split; [lia|]. destruct (Z.ltb_spec mp 10); lia.
Qed.

Lemma AddDate_0 t : AddDate t 0 0 0 = t.
Proof.
  unfold AddDate. pose proof (days_of_civil (day_number t)) as H. destruct (civil (day_number t)) as [[y m] d]. destruct H as [H Hm].
  assert ((m + 0 - 1) / 12 = 0 /\ (m + 0 - 1) mod 12 = m - 1) as [-> ->] by (split; zdiv_lia).
  replace (m - 1 + 1) with m by lia. replace (y + 0 + 0) with y by lia.
  assert (days_of y m 1 + (d + 0 - 1) = days_of y m d) as -> by (unfold days_of; destruct (m <=? 2); lia).
  rewrite H, Z.sub_diag. destruct t. unfold t_ns, t_zone. f_equal. lia.
Qed.

Example date_of_2024_02_29 : let t := Date 2024 2 29 13 in (Year t, Month t, Day t, Hour t, ISOWeek t) = (2024, 2, 29, 13, (2024, 9)).
Proof. reflexivity. Qed.
Example add_date_normalises : AddDate (Date 2024 3 31 5) 0 (-1) 0 = Date 2024 3 2 5.
Proof. reflexivity. Qed.
Example last_day_of_year_1 : civil 364 = (1, 12, 31) /\ civil 365 = (2, 1, 1) /\ civil (-1) = (0, 12, 31).
Proof. done. Qed.
