(* ===== verification/Snapshot.v ===== *)
(** Snapshots: tags, filters, groups and searches (src/restic/snapshot.go,
    tag_list.go, snapshot_group.go, snapshot_find.go, backend_find.go,
    duration.go).

    Snapshots are values; the functions that change one through its pointer
    return the new one.  Loading snapshots is a list of what the callback of
    [ForAllSnapshots] is called with. *)

From S2P Require Import Prelude Bytes GoString Restic Sets GoTime.

#[local] Open Scope Z_scope.

(** * Tags *)

(** [strings.TrimSpace] strips the UTF-8 encodings of Unicode's white space. *)
Definition bytes_string (l : list nat) : string := String.string_of_list_ascii (Ascii.ascii_of_nat <$> l).

(** The white space characters, encoded. *)
Definition spaces : list string :=
  bytes_string <$> ([[9]; [10]; [11]; [12]; [13]; [32]; [194; 133]; [194; 160]; [225; 154; 128]; [226; 128; 168];
    [226; 128; 169]; [226; 128; 175]; [226; 129; 159]; [227; 128; 128]] ++ ((fun b => [226; 128; b]%nat) <$> seq 128 11))%nat.

Fixpoint strip_prefix (p s : string) : option string :=
  match p, s with
  | EmptyString, _ => Some s
  | String.String a p, String.String b s => if Ascii.eqb a b then strip_prefix p s else None
  | _, _ => None
  end.

Fixpoint first_some {A B} (f : A -> option B) (l : list A) : option B :=
  match l with [] => None | x :: l => match f x with Some y => Some y | None => first_some f l end end.

Fixpoint trim_left (strip : string -> option string) (fuel : nat) (s : string) : string :=
  match fuel with
  | O => s
  | S fuel => match strip s with Some s' => trim_left strip fuel s' | None => s end
  end.

Fixpoint string_rev (s : string) : string :=
  match s with EmptyString => "" | String.String c s => (string_rev s +:+ String.String c "") end.

Definition TrimSpace (s : string) : string :=
  let s := trim_left (fun s => first_some (fun p => strip_prefix p s) spaces) (String.length s) s in
  string_rev (trim_left (fun s => first_some (fun p => strip_prefix (string_rev p) s) spaces) (String.length s) (string_rev s)).

Definition TagList := list string.

Definition comma : Ascii.ascii := Ascii.ascii_of_nat 44.

Definition splitTagList (s : string) : TagList := TrimSpace <$> split_on comma s.
Definition TagList_String (l : TagList) : string := ("[" +:+ strings_Join ", " l +:+ "]").
Definition TagLists_Flatten (l : list TagList) : TagList := filter (fun tag => tag <> "") (concat l).
Definition TagLists_Set (l : list TagList) (s : string) : list TagList := l ++ [splitTagList s].

(** * Durations *)

Record Duration := mkDuration { Hours : Z; Days : Z; Months : Z; Years : Z }.

#[export] Instance Duration_eq_dec : EqDecision Duration.
Proof. solve_decision. Defined.

Definition Duration_Zero (d : Duration) : bool :=
  (Years d =? 0) && (Months d =? 0) && (Days d =? 0) && (Hours d =? 0).

(** The rendering of a number in base 10 ([%d]). *)
Definition Duration_String (d : Duration) : string :=
  ((if Years d =? 0 then "" else pretty (Years d) +:+ "y") +:+
   (if Months d =? 0 then "" else pretty (Months d) +:+ "m") +:+
   (if Days d =? 0 then "" else pretty (Days d) +:+ "d") +:+
   (if Hours d =? 0 then "" else pretty (Hours d) +:+ "h")).

(** * Snapshots *)

Record Snapshot := mkSnapshot {
  sn_Time : Time;
  sn_Parent : option ID;
  sn_Tree : option ID;
  sn_Paths : list string;
  sn_Hostname : string;
  sn_Username : string;
  sn_UID : Z;
  sn_GID : Z;
  sn_Excludes : list string;
  sn_Tags : list string;
  sn_Original : option ID;
  sn_ProgramVersion : string;
  sn_id : option ID }.

#[export] Instance Snapshot_eq_dec : EqDecision Snapshot.
Proof. solve_decision. Defined.

Definition set_Tags (sn : Snapshot) (tags : list string) : Snapshot :=
  mkSnapshot (sn_Time sn) (sn_Parent sn) (sn_Tree sn) (sn_Paths sn) (sn_Hostname sn) (sn_Username sn) (sn_UID sn)
    (sn_GID sn) (sn_Excludes sn) tags (sn_Original sn) (sn_ProgramVersion sn) (sn_id sn).
Definition set_Paths (sn : Snapshot) (paths : list string) : Snapshot :=
  mkSnapshot (sn_Time sn) (sn_Parent sn) (sn_Tree sn) paths (sn_Hostname sn) (sn_Username sn) (sn_UID sn)
    (sn_GID sn) (sn_Excludes sn) (sn_Tags sn) (sn_Original sn) (sn_ProgramVersion sn) (sn_id sn).

(** [AddTags]: the tags, and whether they changed. *)
Definition add_tag (st : list string * bool) (add : string) : list string * bool :=
  if existsb (String.eqb add) st.1 then st else (st.1 ++ [add], true).
Definition AddTags (sn : Snapshot) (addTags : list string) : Snapshot * bool :=
  let '(tags, changed) := fold_left add_tag addTags (sn_Tags sn, false) in (set_Tags sn tags, changed).

(** [RemoveTags]: the first occurrence is overwritten by the last tag. *)
Definition remove_tag (st : list string * bool) (remove : string) : list string * bool :=
  match list_find (fun tag => tag = remove) st.1 with
  | Some (i, _) => (take (length st.1 - 1) (<[i := List.last st.1 ""]> st.1), true)
  | None => st
  end.
Definition RemoveTags (sn : Snapshot) (removeTags : list string) : Snapshot * bool :=
  let '(tags, changed) := fold_left remove_tag removeTags (sn_Tags sn, false) in (set_Tags sn tags, changed).

Definition hasTag (sn : Snapshot) (tag : string) : bool := existsb (String.eqb tag) (sn_Tags sn).

Fixpoint HasTags (sn : Snapshot) (l : list string) : bool :=
  match l with
  | [] => true
  | tag :: l =>
      if String.eqb tag "" && Nat.eqb (length (sn_Tags sn)) 0 then true
      else if negb (hasTag sn tag) then false
      else HasTags sn l
  end.

Definition HasTagList (sn : Snapshot) (l : list TagList) : bool :=
  if Nat.eqb (length l) 0 then true else existsb (HasTags sn) l.

Definition HasPaths (sn : Snapshot) (paths : list string) : bool :=
  let m : gset string := list_to_set (sn_Paths sn) in forallb (fun path => bool_decide (path ∈ m)) paths.

Definition HasHostname (sn : Snapshot) (hostnames : list string) : bool :=
  if Nat.eqb (length hostnames) 0 then true else existsb (String.eqb (sn_Hostname sn)) hostnames.

(** [Snapshots.Less]: newest first. *)
Definition newer (a b : Snapshot) : bool := After (sn_Time a) (sn_Time b).

(** * Groups *)

Record SnapshotGroupByOptions := mkGroupBy { gb_Tag : bool; gb_Host : bool; gb_Path : bool }.
Record SnapshotGroupKey := mkGroupKey { gk_Hostname : string; gk_Paths : list string; gk_Tags : list string }.

Definition group_option (l : SnapshotGroupByOptions) (option_ : string) : outcome SnapshotGroupByOptions :=
  if bool_decide (option_ = "host") || bool_decide (option_ = "hosts") then Ok (mkGroupBy (gb_Tag l) true (gb_Path l))
  else if bool_decide (option_ = "path") || bool_decide (option_ = "paths") then Ok (mkGroupBy (gb_Tag l) (gb_Host l) true)
  else if bool_decide (option_ = "tag") || bool_decide (option_ = "tags") then Ok (mkGroupBy true (gb_Host l) (gb_Path l))
  else if bool_decide (option_ = "") then Ok l
  else Err (ErrMsg "unknown grouping option: %q").
Definition splitSnapshotGroupBy (s : string) : outcome SnapshotGroupByOptions :=
  ofold group_option (mkGroupBy false false false) (split_on comma s).

Definition GroupBy_String (l : SnapshotGroupByOptions) : string :=
  strings_Join "," ((if gb_Host l then ["host"] else []) ++ (if gb_Path l then ["paths"] else []) ++ (if gb_Tag l then ["tags"] else [])).

Definition string_less (a b : string) : bool := String.ltb a b.
Definition sort_Strings (l : list string) : list string := go_sort string_less l.

Section Group.
Context (json_Marshal : SnapshotGroupKey -> outcome string).

(** What grouping does to a snapshot: its paths are sorted in place, and its
    tags when they are part of the key. *)
Definition group_sort (groupBy : SnapshotGroupByOptions) (sn : Snapshot) : Snapshot :=
  let sn := if gb_Tag groupBy then set_Tags sn (sort_Strings (sn_Tags sn)) else sn in
  set_Paths sn (sort_Strings (sn_Paths sn)).

Definition group_key (groupBy : SnapshotGroupByOptions) (sn : Snapshot) : SnapshotGroupKey :=
  mkGroupKey (if gb_Host groupBy then sn_Hostname sn else "") (if gb_Path groupBy then sn_Paths sn else [])
    (if gb_Tag groupBy then sn_Tags sn else []).

Definition group_step (groupBy : SnapshotGroupByOptions) (groups : gmap string (list Snapshot)) (sn : Snapshot)
    : outcome (gmap string (list Snapshot)) :=
  let sn := group_sort groupBy sn in
  try k <- json_Marshal (group_key groupBy sn);
  Ok (<[k := default [] (groups !! k) ++ [sn]]> groups).

Definition GroupSnapshots (snapshots : list Snapshot) (groupBy : SnapshotGroupByOptions)
    : outcome (gmap string (list Snapshot) * bool) :=
  try groups <- ofold (group_step groupBy) ∅ snapshots;
  Ok (groups, gb_Tag groupBy || gb_Host groupBy || gb_Path groupBy).
End Group.

(** * Searches *)

Record SnapshotFilter := mkFilter {
  f_Hosts : list string;
  f_Tags : list TagList;
  f_Paths : list string;
  f_TimestampLimit : Time }.

Definition filter_empty (f : SnapshotFilter) : bool :=
  Nat.eqb (length (f_Hosts f) + length (f_Tags f) + length (f_Paths f)) 0.
Definition filter_matches (f : SnapshotFilter) (sn : Snapshot) : bool :=
  HasHostname sn (f_Hosts f) && HasTagList sn (f_Tags f) && HasPaths sn (f_Paths f).

Definition ErrNoSnapshotFound : error := ErrMsg "no snapshot found".

Section Find.
Context (filepath_IsAbs : string -> bool) (filepath_Abs : string -> outcome string) (filepath_Clean : string -> string).

Definition abs_target (target : string) : outcome string :=
  if filepath_IsAbs target then Ok (filepath_Clean target)
  else
    match filepath_Abs target with
    | Ok target => Ok (filepath_Clean target)
    | Err e => Err (ErrWrap e "Abs")
    | Panic p => Panic p
    end.

(** The callback of [findLatest]. *)
Definition find_latest_step (f : SnapshotFilter) (latest : option Snapshot) (loaded : ID * outcome Snapshot)
    : outcome (option Snapshot) :=
  match loaded.2 with
  | Panic p => Panic p
  | Err e => Err (ErrWrap e "Error loading snapshot %v: %v")
  | Ok snapshot =>
      if negb (IsZero (f_TimestampLimit f)) && After (sn_Time snapshot) (f_TimestampLimit f) then Ok latest
      else if match latest with Some l => Before (sn_Time snapshot) (sn_Time l) | None => false end then Ok latest
      else if negb (filter_matches f snapshot) then Ok latest
      else Ok (Some snapshot)
  end.

(** [findLatest]: the filter, its paths made absolute, and the result; [all] is
    what [ForAllSnapshots] yields. *)
Definition findLatest (f : SnapshotFilter) (all : list (ID * outcome Snapshot)) : outcome (SnapshotFilter * Snapshot) :=
  try absTargets <- omap_list abs_target (f_Paths f);
  let f := mkFilter (f_Hosts f) (f_Tags f) absTargets (f_TimestampLimit f) in
  try latest <- ofold (find_latest_step f) None all;
  match latest with
  | None => Err ErrNoSnapshotFound
  | Some sn => Ok (f, sn)
  end.

(** [Find]: the ID with a prefix, among the listed ones. *)
Definition has_prefix (prefix name : string) : bool :=
  (String.length prefix <=? String.length name)%nat && String.eqb prefix (String.substring 0 (String.length prefix) name).
Definition find_step (prefix : string) (match_ : ID) (id : ID) : outcome ID :=
  if has_prefix prefix (ID_String id) then
    if IsNull match_ then Ok id else Err (ErrMsg "multiple IDs with prefix %q found")
  else Ok match_.
Definition Find (prefix : string) (ids : list ID) : outcome ID :=
  try match_ <- ofold (find_step prefix) nullID ids;
  if negb (IsNull match_) then Ok match_ else Err (ErrMsg "no matching ID found for prefix %q").
End Find.

(** * Correctness *)

Lemma existsb_eqb_spec t (l : list string) : existsb (String.eqb t) l = true <-> t ∈ l.
Proof.
  rewrite existsb_exists. split.
  - intros (x & Hx%list_elem_of_In & ->%String.eqb_eq). done.
  - intros Hx%list_elem_of_In. exists t. by rewrite String.eqb_refl.
Qed.

Lemma add_tags_spec adds tags ch :
  let '(tags', ch') := fold_left add_tag adds (tags, ch) in
  tags `prefix_of` tags' /\ (forall t, t ∈ tags' <-> t ∈ tags \/ t ∈ adds) /\ (NoDup tags -> NoDup tags') /\
  (ch' = true <-> ch = true \/ tags' <> tags).
Proof.
  revert tags ch. induction adds as [|a adds IH]; intros tags ch; cbn [fold_left].
  - split; [done|]. split; [set_solver|]. split; [done|]. tauto.
  - unfold add_tag at 2. cbn [fst]. destruct (existsb (String.eqb a) tags) eqn:E.
    + apply existsb_eqb_spec in E. specialize (IH tags ch). destruct (fold_left _ _ _) as [tags' ch'].
      destruct IH as (Hp & Ht & Hn & Hc). split; [done|]. split; [|done]. intros t. rewrite Ht, elem_of_cons. naive_solver.
    + assert (a ∉ tags) as Ha by (rewrite <- existsb_eqb_spec, E; done).
      specialize (IH (tags ++ [a]) true). destruct (fold_left _ _ _) as [tags' ch'].
      destruct IH as (Hp & Ht & Hn & Hc). split; [etransitivity; [|exact Hp]; by apply prefix_app_r|]. split; [|split].
      * intros t. rewrite Ht, elem_of_app, list_elem_of_singleton, elem_of_cons. tauto.
      * intros Hnd. apply Hn, NoDup_app. split; [done|]. split; [|apply NoDup_singleton]. by intros x Hx ->%list_elem_of_singleton.
      * split; [|intros _; apply Hc; by left]. intros _. right. intros ->. destruct Hp as [k Hk].
        apply (f_equal length) in Hk. rewrite !length_app in Hk. cbn in Hk. lia.
Qed.

Lemma remove_tag_perm tags ch r :
  let '(tags', ch') := remove_tag (tags, ch) r in
  if decide (r ∈ tags) then r :: tags' ≡ₚ tags /\ ch' = true else tags' = tags /\ ch' = ch.
Proof.
  unfold remove_tag. cbn [fst]. destruct (list_find _ tags) as [[i t]|] eqn:E.
  - apply list_find_Some in E as (Hi & -> & _). rewrite decide_True by (by eapply list_elem_of_lookup_2). split; [|done].
    destruct (exists_last (l := tags)) as (l & x & ->); [by intros ->|]. rewrite last_last, length_app. cbn [length].
    replace (length l + 1 - 1)%nat with (length l) by lia.
    destruct (decide (i < length l)%nat) as [Hlt|Hge].
    + rewrite lookup_app_l in Hi by done. rewrite insert_app_l by done.
      rewrite take_app_length' by (by rewrite length_insert).
      rewrite insert_take_drop by done. rewrite <- (take_drop_middle l i r Hi) at 3. solve_Permutation.
    + apply lookup_lt_Some in Hi as Hlt. rewrite length_app in Hlt. cbn in Hlt. assert (i = length l) as -> by lia.
      rewrite lookup_app_r, Nat.sub_diag in Hi by lia. injection Hi as ->.
      rewrite insert_app_r_alt, Nat.sub_diag by lia. cbn. rewrite take_app_length. apply Permutation_cons_append.
  - rewrite decide_False; [done|]. intros [i Hi]%list_elem_of_lookup. apply list_find_None in E.
    rewrite Forall_lookup in E. by destruct (E i r Hi).
Qed.

Lemma remove_tags_spec removes tags ch :
  NoDup tags ->
  let '(tags', ch') := fold_left remove_tag removes (tags, ch) in
  NoDup tags' /\ forall t, t ∈ tags' <-> t ∈ tags /\ t ∉ removes.
Proof.
  revert tags ch. induction removes as [|r removes IH]; intros tags ch Hnd; cbn [fold_left].
  - split; [done|]. set_solver.
  - pose proof (remove_tag_perm tags ch r) as Hr. destruct (remove_tag (tags, ch) r) as [tags1 ch1].
    assert (NoDup tags1 /\ forall t, t ∈ tags1 <-> t ∈ tags /\ t <> r) as [Hnd1 Ht1].
    { case_decide as Hin.
      - destruct Hr as [Hp _]. rewrite <- Hp in Hnd. apply NoDup_cons in Hnd as [Hnr Hnd]. split; [done|].
        intros t. rewrite <- Hp, elem_of_cons. naive_solver.
      - destruct Hr as [-> _]. split; [done|]. intros t. naive_solver. }
    specialize (IH tags1 ch1 Hnd1). destruct (fold_left _ _ _) as [tags' ch']. destruct IH as [? Ht]. split; [done|].
    intros t. rewrite Ht, Ht1, elem_of_cons. tauto.
Qed.

(** Tags without duplicates behave as a set: [AddTags] is the union and keeps
    the tags that were there in front, [RemoveTags] is the difference; neither
    introduces duplicates, and [AddTags] reports a change exactly when there is
    one. *)
Theorem tags_are_sets (sn : Snapshot) (l : list string) (Hnd : NoDup (sn_Tags sn)) :
  sn_Tags sn `prefix_of` sn_Tags (AddTags sn l).1 /\ NoDup (sn_Tags (AddTags sn l).1) /\
  (forall t, t ∈ sn_Tags (AddTags sn l).1 <-> t ∈ sn_Tags sn \/ t ∈ l) /\
  ((AddTags sn l).2 = true <-> sn_Tags (AddTags sn l).1 <> sn_Tags sn) /\
  NoDup (sn_Tags (RemoveTags sn l).1) /\ (forall t, t ∈ sn_Tags (RemoveTags sn l).1 <-> t ∈ sn_Tags sn /\ t ∉ l).
Proof.
  unfold AddTags, RemoveTags. pose proof (add_tags_spec l (sn_Tags sn) false) as Ha. pose proof (remove_tags_spec l (sn_Tags sn) false Hnd) as Hr.
  destruct (fold_left add_tag _ _) as [t1 c1]. destruct (fold_left remove_tag _ _) as [t2 c2]. cbn [fst snd sn_Tags set_Tags].
  destruct Ha as (Hp & Ht & Hn & Hc), Hr as [Hr1 Hr2]. split_and!; try done; [by apply Hn|]. rewrite Hc. naive_solver.
Qed.

Definition ex_id_ (n : Z) : ID := copy_id [byte_of_Z n].
Definition ex_snapshot (time : Time) (host : string) (tags : list string) : Snapshot :=
  mkSnapshot time None None ["/b"; "/a"] host "user" 0 0 [] tags None "" None.

Lemma tags_are_sets_witness :
  let sn := ex_snapshot time_zero "h" ["x"; "y"; "z"] in
  NoDup (sn_Tags (RemoveTags sn ["x"]).1) /\ (forall t, t ∈ sn_Tags (AddTags sn ["y"; "w"]).1 <-> t ∈ sn_Tags sn \/ t ∈ ["y"; "w"]).
Proof.
  intros sn. assert (NoDup (sn_Tags sn)) as Hnd by (apply (bool_decide_eq_true_1 _); vm_compute; reflexivity). split.
  - apply (tags_are_sets sn ["x"] Hnd).
  - apply (tags_are_sets sn ["y"; "w"] Hnd).
Defined.

#[export] Instance SnapshotGroupKey_eq_dec : EqDecision SnapshotGroupKey.
Proof. solve_decision. Defined.

Lemma group_steps json_Marshal groupBy sns m m' :
  (forall a b k, json_Marshal a = Ok k -> json_Marshal b = Ok k -> a = b) ->
  (forall key, exists k, json_Marshal key = Ok k) ->
  ofold (group_step json_Marshal groupBy) m sns = Ok m' ->
  forall key k, json_Marshal key = Ok k ->
    default [] (m' !! k) = default [] (m !! k) ++ filter (fun sn => group_key groupBy sn = key) (group_sort groupBy <$> sns) /\
    (is_Some (m' !! k) <-> is_Some (m !! k) \/ exists sn, sn ∈ group_sort groupBy <$> sns /\ group_key groupBy sn = key).
Proof.
  intros Hinj Htot. revert m. induction sns as [|sn sns IH]; intros m E key k Hk; cbn [ofold] in E.
  - injection E as <-. cbn. rewrite app_nil_r. split; [done|]. split; [by left|]. intros [?|(sn & Hsn%elem_of_nil & _)]; done.
  - apply bind_Ok in E as (m1 & E1 & E). unfold group_step in E1. apply bind_Ok in E1 as (k1 & Hk1 & [= <-]).
    destruct (IH _ E key k Hk) as [IH1 IH2]. rewrite IH1, IH2, fmap_cons, filter_cons. setoid_rewrite elem_of_cons.
    destruct (decide (k1 = k)) as [->|Hne].
    + rewrite lookup_insert_eq. rewrite decide_True by (by eapply Hinj). split; [cbn; by rewrite <- app_assoc|].
      split; [|by left]. intros _. right. exists (group_sort groupBy sn). split; [by left|by eapply Hinj].
    + rewrite lookup_insert_ne by done. rewrite decide_False by (intros <-; congruence). split; [done|].
      split; [intros [?|(x & ? & ?)]; [by left|right; exists x; tauto]|].
      intros [?|(x & [->|?] & Hx)]; [by left|congruence|right; by exists x].
Qed.

Lemma group_steps_ok json_Marshal groupBy sns m :
  (forall key, exists k, json_Marshal key = Ok k) -> exists m', ofold (group_step json_Marshal groupBy) m sns = Ok m'.
Proof.
  intros Htot. revert m. induction sns as [|sn sns IH]; intros m; cbn [ofold]; [by exists m|].
  assert (exists m1, group_step json_Marshal groupBy m sn = Ok m1) as [m1 ->]; [|apply IH].
  unfold group_step. destruct (Htot (group_key groupBy (group_sort groupBy sn))) as [k ->]. by eexists.
Qed.

(** Grouping is a partition: the group of a key holds, in the order of the list,
    exactly the snapshots with that key (paths, and grouped tags, sorted), and
    there are no empty groups.  [encoding/json] renders keys injectively. *)
Theorem GroupSnapshots_partition (json_Marshal : SnapshotGroupKey -> outcome string)
    (Hinj : forall a b k, json_Marshal a = Ok k -> json_Marshal b = Ok k -> a = b)
    (Htot : forall key, exists k, json_Marshal key = Ok k)
    (sns : list Snapshot) (groupBy : SnapshotGroupByOptions) :
  exists groups, GroupSnapshots json_Marshal sns groupBy = Ok (groups, gb_Tag groupBy || gb_Host groupBy || gb_Path groupBy) /\
    forall key k, json_Marshal key = Ok k ->
      groups !! k = match filter (fun sn => group_key groupBy sn = key) (group_sort groupBy <$> sns) with
                    | [] => None
                    | l => Some l
                    end.
Proof.
  destruct (group_steps_ok json_Marshal groupBy sns ∅ Htot) as [groups E]. exists groups.
  unfold GroupSnapshots. rewrite E. split; [done|]. intros key k Hk.
  destruct (group_steps json_Marshal groupBy sns ∅ groups Hinj Htot E key k Hk) as [H1 H2]. rewrite lookup_empty in H1, H2. cbn [default] in H1.
  cbn [app] in H1. rewrite <- H1. destruct (groups !! k) as [l|] eqn:El; cbn [default]; [|done].
  destruct l as [|sn l]; [|done]. exfalso. destruct H2 as [[[? ?]|(sn & Hsn & Hkey)] _]; [by eexists|done|].
  cbn [default] in H1. assert (sn ∈ filter (fun sn => group_key groupBy sn = key) (group_sort groupBy <$> sns)) as Hin
    by (by apply list_elem_of_filter). rewrite <- H1 in Hin. by apply elem_of_nil in Hin.
Qed.

#[export] Instance SnapshotGroupKey_countable : Countable SnapshotGroupKey :=
  inj_countable' (fun g => (gk_Hostname g, gk_Paths g, gk_Tags g)) (fun '(h, p, t) => mkGroupKey h p t) ltac:(by intros []).
Definition ex_Marshal (key : SnapshotGroupKey) : outcome string := Ok (pretty (encode key)).

Lemma GroupSnapshots_partition_witness :
  exists groups, GroupSnapshots ex_Marshal [ex_snapshot time_zero "h" []; ex_snapshot time_zero "g" []] (mkGroupBy false true false) = Ok (groups, true).
Proof.
  destruct (GroupSnapshots_partition ex_Marshal) with (sns := [ex_snapshot time_zero "h" []; ex_snapshot time_zero "g" []])
    (groupBy := mkGroupBy false true false) as (groups & E & _).
  - unfold ex_Marshal. intros a b k [= <-] [= E]. apply (inj pretty) in E. by apply (inj encode) in E.
  - intros key. eexists. reflexivity.
  - exists groups. exact E.
Defined.

(** ** Searches *)

(** A snapshot that counts: it was loaded, is not after the limit, and matches. *)
Definition candidate (f : SnapshotFilter) (loaded : ID * outcome Snapshot) (sn : Snapshot) : Prop :=
  loaded.2 = Ok sn /\ (IsZero (f_TimestampLimit f) = true \/ After (sn_Time sn) (f_TimestampLimit f) = false) /\
  filter_matches f sn = true.

(** The state of the search after some snapshots. *)
Definition latest_inv (f : SnapshotFilter) (done_ : list (ID * outcome Snapshot)) (latest : option Snapshot) : Prop :=
  match latest with
  | Some sn => (exists l, l ∈ done_ /\ candidate f l sn) /\
      forall l sn', l ∈ done_ -> candidate f l sn' -> After (sn_Time sn') (sn_Time sn) = false
  | None => forall l sn', l ∈ done_ -> ~ candidate f l sn'
  end.

Lemma latest_inv_skip f done_ latest x :
  (forall sn', candidate f x sn' -> match latest with Some l => After (sn_Time sn') (sn_Time l) = false | None => False end) ->
  latest_inv f done_ latest -> latest_inv f (done_ ++ [x]) latest.
Proof.
  intros Hx. unfold latest_inv. destruct latest as [l|].
  - intros ((y & ? & ?) & Hmax). split; [exists y; set_solver|].
    intros z sn' [Hz| ->%list_elem_of_singleton]%elem_of_app Hc; [eauto|by apply Hx].
  - intros Hinv z sn' [Hz| ->%list_elem_of_singleton]%elem_of_app Hc; [by eapply Hinv|by apply Hx in Hc].
Qed.

Lemma find_latest_step_ok f done_ latest id sn :
  latest_inv f done_ latest ->
  exists latest', find_latest_step f latest (id, Ok sn) = Ok latest' /\ latest_inv f (done_ ++ [(id, Ok sn)]) latest'.
Proof.
  intros Hinv. unfold find_latest_step. cbn [snd].
  assert (forall sn', candidate f (id, Ok sn) sn' -> sn' = sn /\ candidate f (id, Ok sn) sn) as Hcand.
  { intros sn' Hc. assert (sn' = sn) as -> by (by destruct Hc as [[= ->] _]). done. }
  destruct (negb _ && _) eqn:Elim; [|destruct (match latest with Some l => _ | None => false end) eqn:Eb;
    [|destruct (negb (filter_matches f sn)) eqn:Em]]; (eexists; split; [reflexivity|]).
  - apply andb_true_iff in Elim as [Hz%negb_true_iff Ha]. apply latest_inv_skip; [|done].
    intros sn' [-> (_ & [?|?] & _)]%Hcand; congruence.
  - apply latest_inv_skip; [|done]. intros sn' [-> _]%Hcand. destruct latest as [l|]; [|done].
    unfold After, Before in *. apply Z.ltb_lt in Eb. apply Z.ltb_ge. lia.
  - apply negb_true_iff in Em. apply latest_inv_skip; [|done]. intros sn' [-> (_ & _ & ?)]%Hcand. congruence.
  - apply negb_false_iff in Em. assert (candidate f (id, Ok sn) sn) as Hc.
    { split; [done|]. split; [|done]. destruct (IsZero _); [by left|right]. by destruct (After _ _). }
    split; [exists (id, Ok sn); set_solver|]. intros y sn' [Hy| ->%list_elem_of_singleton]%elem_of_app Hc'.
    + destruct latest as [l|]; [|by destruct (Hinv y sn' Hy)]. destruct Hinv as (_ & Hmax). specialize (Hmax y sn' Hy Hc').
      unfold After, Before in *. apply Z.ltb_ge in Hmax, Eb. apply Z.ltb_ge. lia.
    + destruct (Hcand _ Hc') as [-> _]. unfold After. apply Z.ltb_irrefl.
Qed.

(** [findLatest] returns a newest snapshot among those that match: whatever the
    order in which they are loaded, none that matches is newer; when none
    matches the result is [ErrNoSnapshotFound]. *)
Theorem findLatest_newest (filepath_IsAbs : string -> bool) (filepath_Abs : string -> outcome string) (filepath_Clean : string -> string)
    (f : SnapshotFilter) (paths : list string) (all : list (ID * outcome Snapshot))
    (Hpaths : omap_list (abs_target filepath_IsAbs filepath_Abs filepath_Clean) (f_Paths f) = Ok paths)
    (Hall : Forall (fun l => is_ok l.2 = true) all) :
  let f' := mkFilter (f_Hosts f) (f_Tags f) paths (f_TimestampLimit f) in
  match findLatest filepath_IsAbs filepath_Abs filepath_Clean f all with
  | Ok (f'', sn) => f'' = f' /\ (exists l, l ∈ all /\ candidate f' l sn) /\
      forall l sn', l ∈ all -> candidate f' l sn' -> After (sn_Time sn') (sn_Time sn) = false
  | Err e => e = ErrNoSnapshotFound /\ forall l sn', l ∈ all -> ~ candidate f' l sn'
  | Panic _ => False
  end.
Proof.
  intros f'. unfold findLatest. rewrite Hpaths. cbn [mbind outcome_bind]. fold f'.
  destruct (ofold_step (latest_inv f') (find_latest_step f') None all) as (latest & -> & Hl).
  - by intros l sn' Hl%elem_of_nil.
  - intros done_ [id o] rest latest Ea Hinv.
    assert (is_ok o = true) as Ho by (rewrite Forall_forall in Hall; apply (Hall (id, o)); rewrite Ea; set_solver).
    destruct o as [sn|e|p]; [|done..]. by apply find_latest_step_ok.
  - cbn [mbind outcome_bind]. by destruct latest.
Qed.

Lemma findLatest_newest_witness :
  let a := (ex_id_ 1, Ok (ex_snapshot (Date 2024 1 1 0) "h" ["x"])) in
  let b := (ex_id_ 2, Ok (ex_snapshot (Date 2024 1 2 0) "h" ["x"])) in
  let f := mkFilter ["h"] [["x"]] ["/a"] time_zero in
  exists sn, findLatest (fun _ => true) Ok (fun s => s) f [b; a] = Ok (f, sn) /\ After (Date 2024 1 1 0) (sn_Time sn) = false.
Proof.
  intros a b f. pose proof (findLatest_newest (fun _ => true) Ok (fun s => s) f ["/a"] [b; a] eq_refl ltac:(repeat constructor)) as H.
  cbn zeta in H. destruct (findLatest _ _ _ f [b; a]) as [[f'' sn]|e|p] eqn:E; [|vm_compute in E; discriminate E..].
  destruct H as (-> & _ & Hmax). exists sn. split; [reflexivity|]. apply (Hmax a (ex_snapshot (Date 2024 1 1 0) "h" ["x"])).
  - right. left.
  - split; [reflexivity|]. split; [left; reflexivity|vm_compute; reflexivity].
Defined.

(** ** Prefixes *)

Lemma find_steps prefix ids m :
  Forall (fun id => id <> nullID) ids ->
  ofold (find_step prefix) m ids =
    match filter (fun id => has_prefix prefix (ID_String id) = true) ids with
    | [] => Ok m
    | [id] => if IsNull m then Ok id else Err (ErrMsg "multiple IDs with prefix %q found")
    | _ => Err (ErrMsg "multiple IDs with prefix %q found")
    end.
Proof.
  intros HF. revert m. induction HF as [|id ids Hid _ IH]; intros m; [done|]. cbn [ofold]. rewrite filter_cons.
  assert (find_step prefix m id = if has_prefix prefix (ID_String id) then if IsNull m then Ok id else Err (ErrMsg "multiple IDs with prefix %q found") else Ok m) as -> by done.
  destruct (has_prefix prefix (ID_String id)); [rewrite decide_True by done|rewrite decide_False by done; apply IH].
  destruct (IsNull m) eqn:Em; cbn [mbind outcome_bind].
  - rewrite IH. destruct (filter _ ids) as [|id' [|]]; [done| |done].
    assert (IsNull id = false) as ->; [|done]. unfold IsNull. by apply bool_decide_eq_false.
  - by destruct (filter _ ids).
Qed.

(** [Find] resolves a prefix exactly when one listed ID has it. *)
Theorem Find_unique (prefix : string) (ids : list ID) (Hids : Forall (fun id => id <> nullID) ids) (id : ID) :
  Find prefix ids = Ok id <-> filter (fun id => has_prefix prefix (ID_String id) = true) ids = [id].
Proof.
  unfold Find. rewrite find_steps by done. pose proof Hids as Hids'. rewrite Forall_forall in Hids'.
  assert (forall x, x ∈ filter (fun id => has_prefix prefix (ID_String id) = true) ids -> IsNull x = false) as Hn.
  { intros x [_ Hx]%list_elem_of_filter. unfold IsNull. apply bool_decide_eq_false. by apply Hids'. }
  destruct (filter _ ids) as [|x [|y l]]; cbn [mbind outcome_bind].
  - assert (IsNull nullID = true) as -> by done. done.
  - assert (IsNull nullID = true) as -> by done. cbn [mbind outcome_bind]. rewrite (Hn x) by by left. cbn. split; congruence.
  - done.
Qed.

Lemma Find_unique_witness : Find "02" [ex_id_ 1; ex_id_ 2] = Ok (ex_id_ 2).
Proof.
  apply (Find_unique "02" [ex_id_ 1; ex_id_ 2]).
  - repeat constructor; intros E; apply (f_equal (fun v => hd_error (id_bytes v))) in E; vm_compute in E; discriminate E.
  - vm_compute. reflexivity.
Defined.
