(* ===== verification/SnapshotFind.v ===== *)
(** Finding snapshots by their names (src/restic/snapshot_find.go, snapshot.go): the
    functions around [findLatest] and [Find] of Snapshot.

    [LoadSnapshot] and the listing of the backend are arguments; [ForAllSnapshots] calls
    its function for one snapshot at a time, in any order. *)

From S2P Require Import Prelude Bytes GoString Restic GoTime Snapshot.

Section FindAll.
Context (filepath_IsAbs : string -> bool) (filepath_Abs : string -> outcome string) (filepath_Clean : string -> string).
Context (listed : outcome (list ID)) (LoadSnapshot : ID -> outcome Snapshot).

Section Each.
Context {S : Type} (fn : ID -> option Snapshot -> option error -> S -> S * option error).

Fixpoint each_snapshot (excludeIDs : gset ID) (ids : list ID) (s : S) : S * outcome unit :=
  match ids with
  | [] => (s, Ok tt)
  | id :: ids =>
      if bool_decide (id ∈ excludeIDs) then each_snapshot excludeIDs ids s
      else
        match (match LoadSnapshot id with Ok sn => Ok (Some sn, None) | Err e => Ok (None, Some e) | Panic p => Panic p end) with
        | Ok (sn, err) =>
            match fn id sn err s with
            | (s, Some err) => (s, Err err)
            | (s, None) => each_snapshot excludeIDs ids s
            end
        | Err e => (s, Err e)
        | Panic p => (s, Panic p)
        end
  end.

Definition ForAllSnapshots (excludeIDs : gset ID) (s : S) : S * outcome unit :=
  match listed with
  | Ok ids => each_snapshot excludeIDs ids s
  | Err e => (s, Err e)
  | Panic p => (s, Panic p)
  end.
End Each.

Definition colon : Ascii.ascii := Ascii.ascii_of_nat 58.

(** The part before the first ":", and the one after it. *)
Fixpoint splitSnapshotID (s : string) : string * string :=
  match s with
  | EmptyString => ("", "")
  | String.String c s => if Ascii.eqb c colon then ("", s) else let '(id, subfolder) := splitSnapshotID s in (String.String c id, subfolder)
  end.

(** [FindSnapshot]: the snapshot and the folder. *)
Definition FindSnapshot (s : string) : outcome (Snapshot * string) :=
  let '(s, subfolder) := splitSnapshotID s in
  try id <- match ParseID s with
            | Err _ => try ids <- listed; Find s ids
            | o => o
            end;
  try sn <- LoadSnapshot id;
  Ok (sn, subfolder).

Definition find_latest (f : SnapshotFilter) : outcome Snapshot :=
  match listed with
  | Ok ids =>
      match findLatest filepath_IsAbs filepath_Abs filepath_Clean f ((fun id => (id, LoadSnapshot id)) <$> ids) with
      | Ok (_, sn) => Ok sn
      | Err e => Err e
      | Panic p => Panic p
      end
  | Err e => Err e
  | Panic p => Panic p
  end.

Definition FindLatest (f : SnapshotFilter) (snapshotID : string) : outcome (Snapshot * string) :=
  let '(id, subfolder) := splitSnapshotID snapshotID in
  if String.eqb id "latest" then
    match find_latest f with
    | Ok sn => Ok (sn, subfolder)
    | Err e => Err (if bool_decide (e = ErrNoSnapshotFound) then ErrWrap e "snapshot filter (Paths:%v Tags:%v Hosts:%v): %w" else e)
    | Panic p => Panic p
    end
  else FindSnapshot snapshotID.

Definition ErrInvalidSnapshotSyntax : error := ErrMsg "<snapshot>:<subfolder> syntax not allowed".

(** [*sn.ID()]. *)
Definition snapshot_id (sn : Snapshot) : outcome ID := match sn_id sn with Some id => Ok id | None => Panic "nil pointer dereference" end.

Section All.
Context {S : Type} (fn : string -> option Snapshot -> option error -> S -> S * option error).

(** What an argument names: the name, the snapshot and the error the callback gets,
    and the IDs that were found; [None] when it is skipped. *)
Definition find_arg (f : SnapshotFilter) (s : string) (usedFilter : bool) (ids : gset ID)
    : outcome (option (string * option Snapshot * option error) * bool * gset ID) :=
  if String.eqb s "latest" then
    if usedFilter then Ok (None, usedFilter, ids)
    else
      match find_latest f with
      | Ok sn => try id <- snapshot_id sn; Ok (Some (s, Some sn, None), true, {[id]} ∪ ids)
      | Err e =>
          let err := if bool_decide (e = ErrNoSnapshotFound) then ErrMsg "no snapshot matched given filter (Paths:%v Tags:%v Hosts:%v)" else e in
          Ok (Some (s, None, Some err), true, ids)
      | Panic p => Panic p
      end
  else if has_prefix "latest:" s then Ok (Some (s, None, Some ErrInvalidSnapshotSyntax), usedFilter, ids)
  else
    match FindSnapshot s with
    | Ok (sn, subfolder) =>
        if negb (String.eqb subfolder "") then Ok (Some (s, Some sn, Some ErrInvalidSnapshotSyntax), usedFilter, ids)
        else
          try id <- snapshot_id sn;
          if bool_decide (id ∈ ids) then Ok (None, usedFilter, ids) else Ok (Some (ID_String id, Some sn, None), usedFilter, {[id]} ∪ ids)
    | Err e => Ok (Some (s, None, Some e), usedFilter, ids)
    | Panic p => Panic p
    end.

Fixpoint find_args (f : SnapshotFilter) (snapshotIDs : list string) (usedFilter : bool) (ids : gset ID) (st : S) : S * outcome bool :=
  match snapshotIDs with
  | [] => (st, Ok usedFilter)
  | s :: snapshotIDs =>
      match find_arg f s usedFilter ids with
      | Ok (None, usedFilter, ids) => find_args f snapshotIDs usedFilter ids st
      | Ok (Some (name, sn, err), usedFilter, ids) =>
          match fn name sn err st with
          | (st, Some err) => (st, Err err)
          | (st, None) => find_args f snapshotIDs usedFilter ids st
          end
      | Err e => (st, Err e)
      | Panic p => (st, Panic p)
      end
  end.

Definition lift_unit (r : S * option error) : S * outcome unit := (r.1, match r.2 with Some e => Err e | None => Ok tt end).

Definition FindAll (f : SnapshotFilter) (snapshotIDs : list string) (st : S) : S * outcome unit :=
  if negb (Nat.eqb (length snapshotIDs) 0) then
    match find_args f snapshotIDs false ∅ st with
    | (st, Ok usedFilter) =>
        if negb usedFilter && negb (filter_empty f) then lift_unit (fn "filters" None (Some (ErrMsg "explicit snapshot ids are given")) st) else (st, Ok tt)
    | (st, Err e) => (st, Err e)
    | (st, Panic p) => (st, Panic p)
    end
  else
    ForAllSnapshots (fun id sn err st =>
      match sn, err with
      | Some sn', None => if negb (filter_matches f sn') then (st, None) else fn (ID_String id) sn err st
      | _, _ => fn (ID_String id) sn err st
      end) ∅ st.
End All.
End FindAll.

(** * What is found *)

(** The callback that only collects. *)
Abbreviation found_call := (string * option Snapshot * option error)%type.
Definition collect (name : string) (sn : option Snapshot) (err : option error) (calls : list found_call) : list found_call * option error :=
  (calls ++ [(name, sn, err)], None).

(** The IDs of the snapshots that were found without an error. *)
Definition yielded_call (c : found_call) : option ID := match c with (_, Some sn, None) => sn_id sn | _ => None end.
Definition yielded (calls : list found_call) : list ID := omap yielded_call calls.

Lemma yielded_app a b : yielded (a ++ b) = yielded a ++ yielded b.
Proof. apply omap_app. Qed.

(** Parsing and searching end. *)
Lemma hex_decode_total s : match hex_decode s with Panic _ => False | _ => True end.
Proof.
  revert s. fix IH 1. intros [|c1 [|c2 s]]; [done|cbn; by destruct (from_hex_char c1)|]. cbn. destruct (from_hex_char c1), (from_hex_char c2); try done.
  specialize (IH s). by destruct (hex_decode s).
Qed.

Lemma ParseID_total s : match ParseID s with Panic _ => False | _ => True end.
Proof. unfold ParseID. destruct (negb _); [done|]. pose proof (hex_decode_total s). by destruct (hex_decode s). Qed.

Lemma Find_total prefix ids : match Find prefix ids with Panic _ => False | _ => True end.
Proof.
  assert (forall m, match ofold (find_step prefix) m ids with Panic _ => False | _ => True end) as Hf.
  { induction ids as [|id ids IH]; intros m; [done|]. cbn [ofold]. destruct (find_step prefix m id) as [m'|e|p] eqn:E; [apply IH|exact I|].
    unfold find_step in E. destruct (has_prefix prefix (ID_String id)); [destruct (IsNull m)|]; done. }
  specialize (Hf nullID). unfold Find. destruct (ofold _ nullID ids) as [m|e|p]; [|done..]. cbn. by destruct (negb (IsNull m)).
Qed.

Section FindFacts.
Context (filepath_IsAbs : string -> bool) (filepath_Abs : string -> outcome string) (filepath_Clean : string -> string).
Context (listed_ids : list ID) (LoadSnapshot : ID -> outcome Snapshot).
Context (Habs : forall s p, filepath_Abs s <> Panic p).
Context (Hload : forall id, match LoadSnapshot id with Ok sn => sn_id sn = Some id | Err _ => True | Panic _ => False end).

Abbreviation find_latest_ := (find_latest filepath_IsAbs filepath_Abs filepath_Clean (Ok listed_ids) LoadSnapshot).
Abbreviation FindSnapshot_ := (FindSnapshot (Ok listed_ids) LoadSnapshot).

Lemma find_latest_from f o : find_latest_ f = o -> match o with Ok sn => exists id, LoadSnapshot id = Ok sn | Err _ => True | Panic _ => False end.
Proof using Habs Hload.
  unfold find_latest, findLatest. destruct (omap_list _ (f_Paths f)) as [paths|e|p] eqn:Ep; cbn [mbind outcome_bind].
  - match goal with |- context [ofold ?step None ?l] => set (st := step); set (all := l) end.
    assert (forall latest, (forall sn, latest = Some sn -> exists id, LoadSnapshot id = Ok sn) ->
      match ofold st latest all with Ok latest => forall sn, latest = Some sn -> exists id, LoadSnapshot id = Ok sn | Err _ => True | Panic _ => False end) as Hf.
    { unfold all. clear Ep. induction listed_ids as [|id ids IH]; intros latest Hl; [done|]. cbn [fmap list_fmap ofold]. specialize (Hload id).
      assert (match st latest (id, LoadSnapshot id) with Ok latest => forall sn, latest = Some sn -> exists id, LoadSnapshot id = Ok sn | Err _ => True | Panic _ => False end) as Hs.
      { unfold st, find_latest_step. cbn [snd]. destruct (LoadSnapshot id) as [sn|e|p] eqn:El; [|done..]. repeat case_match; simplify_eq; naive_solver. }
      destruct (st latest (id, LoadSnapshot id)) as [latest'|e|p]; [|done..]. cbn [mbind outcome_bind]. by apply IH. }
    specialize (Hf None ltac:(done)). destruct (ofold st None all) as [[sn|]|e|p]; [| | |done]; intros <-; cbn; [by apply Hf|done..].
  - by intros <-.
  - exfalso. revert p Ep. induction (f_Paths f) as [|x l IH]; intros p Ep; [done|]. cbn [omap_list] in Ep. destruct (abs_target _ _ _ x) as [y|e|p'] eqn:Ex; [|done|].
    + cbn [mbind outcome_bind] in Ep. destruct (omap_list _ l) as [ys|e|p']; [done..|]. by eapply IH.
    + unfold abs_target in Ex. destruct (filepath_IsAbs x); [done|]. destruct (filepath_Abs x) eqn:Ea; [done..|]. by apply Habs in Ea.
Qed.

Lemma FindSnapshot_from s : match FindSnapshot_ s with Ok (sn, _) => exists id, LoadSnapshot id = Ok sn /\ sn_id sn = Some id | Err _ => True | Panic _ => False end.
Proof using Hload.
  unfold FindSnapshot. destruct (splitSnapshotID s) as [name sub]. pose proof (ParseID_total name) as Hp. pose proof (Find_total name listed_ids) as Hf. cbn [mbind outcome_bind].
  destruct (ParseID name) as [id|e|p]; [|destruct (Find name listed_ids) as [id|e'|p]; [|done..]|done]; cbn [mbind outcome_bind]; specialize (Hload id);
    (destruct (LoadSnapshot id) as [sn|e0|p0] eqn:El; [|done..]; cbn; by exists id).
Qed.

(** What an argument that is not "latest" adds. *)
Lemma find_arg_spec f s usedFilter ids :
  s <> "latest" ->
  match find_arg filepath_IsAbs filepath_Abs filepath_Clean (Ok listed_ids) LoadSnapshot f s usedFilter ids with
  | Ok (c, usedFilter', ids') =>
      usedFilter' = usedFilter /\
      (ids' = ids /\ yielded (option_list c) = [] \/ exists id, ids' = {[id]} ∪ ids /\ (id ∉ ids) /\ yielded (option_list c) = [id]) /\
      forall sn, FindSnapshot_ s = Ok (sn, "") -> has_prefix "latest:" s = false -> exists id, sn_id sn = Some id /\ id ∈ ids'
  | _ => False
  end.
Proof using Habs Hload.
  intros Hs. unfold find_arg. destruct (String.eqb_spec s "latest"); [done|]. destruct (has_prefix "latest:" s); [by split_and!; [|left|]|].
  pose proof (FindSnapshot_from s) as Hf. destruct (FindSnapshot_ s) as [[sn sub]|e|p]; [|by split_and!; [|left|]|done]. destruct Hf as (id & Hl & Hid).
  destruct (String.eqb_spec sub "") as [->|Hne]; cbn [negb]; [|split_and!; [done|by left|by intros ? [= ? ->]]].
  unfold snapshot_id. rewrite Hid. cbn [mbind outcome_bind]. case_bool_decide as Hin.
  - split_and!; [done|by left|]. intros sn' [= <-] _. by exists id.
  - split_and!; [done| |intros sn' [= <-] _; exists id; set_solver]. right. exists id. cbn. by rewrite Hid.
Qed.

(** The collected calls name each ID once, those of [ids]. *)
Definition calls_inv (calls : list found_call) (ids : gset ID) : Prop := NoDup (yielded calls) /\ forall id, id ∈ yielded calls <-> id ∈ ids.

Lemma find_args_spec f args : "latest" ∉ args -> forall usedFilter ids calls,
  calls_inv calls ids ->
  exists calls' ids', find_args filepath_IsAbs filepath_Abs filepath_Clean (Ok listed_ids) LoadSnapshot collect f args usedFilter ids calls = (calls', Ok usedFilter) /\
    calls_inv calls' ids' /\ ids ⊆ ids' /\
    forall s sn, s ∈ args -> FindSnapshot_ s = Ok (sn, "") -> has_prefix "latest:" s = false -> exists id, sn_id sn = Some id /\ id ∈ ids'.
Proof using Habs Hload.
  induction args as [|s args IH]; intros Hl usedFilter ids calls Hinv; cbn [find_args].
  { exists calls, ids. split_and!; [done|done|done|]. by intros s sn Hs%elem_of_nil. }
  apply not_elem_of_cons in Hl as [Hs Hl]. pose proof (find_arg_spec f s usedFilter ids ltac:(done)) as Ha.
  destruct (find_arg _ _ _ _ _ f s usedFilter ids) as [[[c usedFilter'] ids1]|e|p]; [|done..]. destruct Ha as (-> & Hc & Hfound).
  assert (calls_inv (calls ++ option_list c) ids1 /\ ids ⊆ ids1) as [Hinv1 Hsub].
  { destruct Hinv as [Hnd Hin]. unfold calls_inv. rewrite yielded_app. destruct Hc as [[-> ->]|(id & -> & Hn & ->)].
    - rewrite app_nil_r. by split_and!.
    - split_and!; [|intros x; set_solver|set_solver]. apply NoDup_app. split_and!; [done| |apply NoDup_singleton]. intros x Hx ->%list_elem_of_singleton. by apply Hn, Hin. }
  destruct (IH Hl usedFilter ids1 (calls ++ option_list c) Hinv1) as (calls' & ids' & E & Hinv' & Hsub' & Hall). exists calls', ids'. split_and!; [|done|set_solver|].
  - destruct c as [[[name sn] err]|]; [done|]. cbn [option_list] in E. by rewrite app_nil_r in E.
  - intros s' sn [->|Hs']%elem_of_cons Hf Hp; [|by eapply Hall]. destruct (Hfound sn Hf Hp) as (id & Hid & Hi). exists id. split; [done|by apply Hsub'].
Qed.
End FindFacts.

(** Every snapshot that is named is given to the callback, and given once when
    "latest" is not named after others. *)
Theorem FindAll_once (filepath_IsAbs : string -> bool) (filepath_Abs : string -> outcome string) (filepath_Clean : string -> string) (listed_ids : list ID)
    (LoadSnapshot : ID -> outcome Snapshot) (f : SnapshotFilter) (s : string) (args : list string)
    (Habs : forall s p, filepath_Abs s <> Panic p) (Hlatest : "latest" ∉ args)
    (Hload : forall id, match LoadSnapshot id with Ok sn => sn_id sn = Some id | Err _ => True | Panic _ => False end) :
  exists calls, FindAll filepath_IsAbs filepath_Abs filepath_Clean (Ok listed_ids) LoadSnapshot collect f (s :: args) [] = (calls, Ok tt) /\ NoDup (yielded calls) /\
    (forall sn, s = "latest" -> find_latest filepath_IsAbs filepath_Abs filepath_Clean (Ok listed_ids) LoadSnapshot f = Ok sn ->
      exists id, sn_id sn = Some id /\ id ∈ yielded calls) /\
    forall s' sn, s' ∈ s :: args -> s' <> "latest" -> has_prefix "latest:" s' = false -> FindSnapshot (Ok listed_ids) LoadSnapshot s' = Ok (sn, "") ->
      exists id, sn_id sn = Some id /\ id ∈ yielded calls.
Proof.
  unfold FindAll. cbn [length Nat.eqb negb]. destruct (decide (s = "latest")) as [->|Hs].
  - pose proof (find_latest_from filepath_IsAbs filepath_Abs filepath_Clean listed_ids LoadSnapshot Habs Hload f _ eq_refl) as Hfl. cbn [find_args find_arg String.eqb Ascii.eqb Bool.eqb].
    destruct (find_latest _ _ _ _ _ f) as [sn|e|p]; [|destruct (find_args_spec filepath_IsAbs filepath_Abs filepath_Clean listed_ids LoadSnapshot Habs Hload f args Hlatest true ∅
      [("latest", None, Some (if bool_decide (e = ErrNoSnapshotFound) then ErrMsg "no snapshot matched given filter (Paths:%v Tags:%v Hosts:%v)" else e))]) as (calls & ids & E & [Hnd Hin] & _ & Hall)|done].
    + destruct Hfl as [id Hid]. specialize (Hload id) as Hi. rewrite Hid in Hi. unfold snapshot_id. rewrite Hi. cbn [mbind outcome_bind collect app].
      destruct (find_args_spec filepath_IsAbs filepath_Abs filepath_Clean listed_ids LoadSnapshot Habs Hload f args Hlatest true ({[id]} ∪ ∅) [("latest", Some sn, None)])
        as (calls & ids & E & [Hnd Hin] & Hsub & Hall); [split; cbn; rewrite Hi; [apply NoDup_singleton|set_solver]|].
      rewrite E. exists calls. split_and!; [done|done|intros sn' _ [= <-]; exists id; split; [done|apply Hin; set_solver]|].
      intros s' sn' Hs' Hne Hp Hf. apply elem_of_cons in Hs' as [->|Hs']; [done|]. setoid_rewrite Hin. by eapply Hall.
    + split; cbn; [apply NoDup_nil_2|set_solver].
    + cbn [mbind outcome_bind collect app]. rewrite E. exists calls. split_and!; [done|done|done|].
      intros s' sn' Hs' Hne Hp Hf. apply elem_of_cons in Hs' as [->|Hs']; [done|]. setoid_rewrite Hin. by eapply Hall.
  - destruct (find_args_spec filepath_IsAbs filepath_Abs filepath_Clean listed_ids LoadSnapshot Habs Hload f (s :: args)) with (usedFilter := false) (ids := ∅ : gset ID) (calls := @nil found_call)
      as (calls & ids & E & [Hnd Hin] & _ & Hall); [by apply not_elem_of_cons|split; cbn; [apply NoDup_nil_2|set_solver]|].
    rewrite E. cbn [negb andb]. destruct (filter_empty f); cbn [negb].
    + exists calls. split_and!; [done|done|done|]. intros s' sn Hs' _ Hp Hf. setoid_rewrite Hin. by eapply Hall.
    + eexists. split; [done|]. cbn [collect fst]. rewrite yielded_app. change (yielded [("filters", None, _)]) with (@nil ID). rewrite app_nil_r. split_and!; [done|done|].
      intros s' sn Hs' _ Hp Hf. setoid_rewrite Hin. by eapply Hall.
Qed.

(** A snapshot named by its ID, by a prefix and by "latest", which come first. *)
Definition ex_find_load (id : ID) : outcome Snapshot :=
  if bool_decide (id = ex_id_ 1) then Ok (mkSnapshot (Date 2024 1 1 0) None None ["/a"] "h" "" 0 0 [] [] None "" (Some (ex_id_ 1)))
  else if bool_decide (id = ex_id_ 2) then Ok (mkSnapshot (Date 2024 1 2 0) None None ["/a"] "h" "" 0 0 [] [] None "" (Some (ex_id_ 2)))
  else Err (ErrMsg "not found").

Abbreviation ex_FindAll := (FindAll (fun _ => true) Ok (fun s => s) (Ok [ex_id_ 1; ex_id_ 2]) ex_find_load collect).
Definition ex_no_filter : SnapshotFilter := mkFilter [] [] [] time_zero.

Lemma FindAll_once_witness :
  exists calls, ex_FindAll ex_no_filter ["latest"; "01"; ID_String (ex_id_ 2); "03"; "01:x"] [] = (calls, Ok tt) /\
    NoDup (yielded calls) /\ yielded calls = [ex_id_ 2; ex_id_ 1].
Proof.
  destruct (FindAll_once (fun _ => true) Ok (fun s => s) [ex_id_ 1; ex_id_ 2] ex_find_load ex_no_filter "latest" ["01"; ID_String (ex_id_ 2); "03"; "01:x"])
    as (calls & E & Hnd & _).
  - done.
  - apply (bool_decide_unpack _). by vm_compute.
  - intros id. unfold ex_find_load. repeat case_bool_decide; subst; done.
  - exists calls. split; [exact E|]. split; [exact Hnd|]. vm_compute in E. injection E as <-. by vm_compute.
Defined.

(** "latest" after the ID of the same snapshot yields it a second time. *)
Lemma FindAll_twice : yielded (ex_FindAll ex_no_filter ["02"; "latest"] []).1 = [ex_id_ 2; ex_id_ 2].
Proof. by vm_compute. Qed.
