(* ===== verification/Duration.v ===== *)
(** Parsing of durations like [6y5m234d37h] (src/restic/duration.go).

    [unicode.IsNumber] is a parameter: only its value on ASCII matters.  Strings
    are byte strings, and [range] over one decodes UTF-8. *)

From S2P Require Import Prelude Bytes GoString Restic Sets GoTime Snapshot.

#[local] Open Scope Z_scope.

(** * Numbers *)

Definition digit (c : Ascii.ascii) : option Z := if in_range 48 57 c then Some (code c - 48) else None.

Fixpoint digits_value (v : Z) (s : string) : option Z :=
  match s with
  | EmptyString => Some v
  | String.String c s => match digit c with Some k => digits_value (10 * v + k) s | None => None end
  end.

(** [strconv.Atoi] of a string without a sign. *)
Definition Atoi (s : string) : outcome Z :=
  match digits_value 0 s with
  | Some v => if v <? 2 ^ 63 then Ok v else Err (ErrMsg "value out of range")
  | None => Err (ErrMsg "invalid syntax")
  end.

Section Duration.
Context (IsNumber : Z -> bool).

(** The loop of [nextNumber]: the leading numbers, and the rest. *)
Fixpoint span_number (fuel : nat) (input : string) : string * string :=
  match fuel, input with
  | S fuel, String.String _ _ =>
      let '(s, width) := decode_rune input in
      if negb (IsNumber s) then ("", input)
      else
        let '(n, rest) := span_number fuel (drop_bytes width input) in
        (take_bytes width input +:+ n, rest)
  | _, _ => ("", input)
  end.

Definition nextNumber (input : string) : outcome (Z * string) :=
  match input with
  | EmptyString => Ok (0, "")
  | String.String c rest =>
      let negative := code c =? 45 in
      let input := if negative then rest else input in
      let '(n, rest) := span_number (String.length input) input in
      if String.eqb n "" then Err (ErrMsg "no number found")
      else
        match Atoi n with
        | Ok num => Ok (if negative then - num else num, rest)
        | Err e => Panic "strconv.Atoi"
        | Panic p => Panic p
        end
  end.

(** One round of [ParseDuration]. *)
Definition parse_unit (d : Duration) (s : string) : outcome (Duration * string) :=
  try (num, s) <- nextNumber s;
  match s with
  | EmptyString => Err (ErrMsg "no unit found after number %d")
  | String.String c s =>
      if code c =? 121 then Ok (mkDuration (Hours d) (Days d) (Months d) num, s)
      else if code c =? 109 then Ok (mkDuration (Hours d) (Days d) num (Years d), s)
      else if code c =? 100 then Ok (mkDuration (Hours d) num (Months d) (Years d), s)
      else if code c =? 104 then Ok (mkDuration num (Days d) (Months d) (Years d), s)
      else Err (ErrMsg "invalid unit %q found after number %d")
  end.

Definition out_of_fuel : error := ErrMsg "out of fuel".
Fixpoint parse_loop (fuel : nat) (d : Duration) (s : string) : outcome Duration :=
  match s, fuel with
  | EmptyString, _ => Ok d
  | _, O => Err out_of_fuel
  | _, S fuel => try (d, s) <- parse_unit d s; parse_loop fuel d s
  end.

(** The length of the string is fuel enough: every round consumes a byte. *)
Definition ParseDuration (s : string) : outcome Duration :=
  let s := TrimSpace s in parse_loop (String.length s) (mkDuration 0 0 0 0) s.
End Duration.

(** * Correctness *)

Definition ascii_numbers (IsNumber : Z -> bool) : Prop :=
  forall c, 0 <= c < 128 -> IsNumber c = (48 <=? c) && (c <=? 57).

Section Facts.
Context (IsNumber : Z -> bool) (HN : ascii_numbers IsNumber).

Lemma length_span fuel s : (String.length (span_number IsNumber fuel s).2 <= String.length s)%nat.
Proof.
  revert s; induction fuel as [|fuel IH]; intros s; cbn [span_number]; [destruct s; done|]. destruct s as [|c s]; [done|].
  destruct (decode_rune (String.String c s)) as [r w]. destruct (negb (IsNumber r)); [done|].
  pose proof (IH (drop_bytes w (String.String c s))) as H1. destruct (span_number _ fuel _) as [n rest]. cbn [snd] in *.
  pose proof (length_drop_bytes w (String.String c s)). lia.
Qed.

Lemma nextNumber_length s num rest : nextNumber IsNumber s = Ok (num, rest) -> (String.length rest <= String.length s)%nat.
Proof.
  unfold nextNumber. destruct s as [|c s]; [by intros [= <- <-]|]. set (input := if code c =? 45 then s else String.String c s).
  assert (String.length input <= String.length (String.String c s))%nat as Hin by (unfold input; destruct (code c =? 45); cbn; lia).
  pose proof (length_span (String.length input) input) as Hs. destruct (span_number _ _ input) as [n r]. cbn [snd] in Hs.
  destruct (String.eqb n ""); [done|]. destruct (Atoi n); [|done..]. intros [= _ <-]. lia.
Qed.

Lemma parse_unit_length d s d' s' : parse_unit IsNumber d s = Ok (d', s') -> (String.length s' < String.length s)%nat.
Proof.
  unfold parse_unit. intros ([num rest] & E & E')%bind_Ok. pose proof (nextNumber_length _ _ _ E) as Hl.
  destruct rest as [|c rest]; [done|]. cbn in Hl. repeat case_match; try done; injection E' as <- <-; lia.
Qed.

Lemma nextNumber_fuel s : nextNumber IsNumber s <> Err out_of_fuel.
Proof. unfold nextNumber. repeat case_match; done. Qed.

Lemma parse_unit_fuel d s : parse_unit IsNumber d s <> Err out_of_fuel.
Proof.
  unfold parse_unit. pose proof (nextNumber_fuel s) as Hn. destruct (nextNumber _ s) as [[num rest]|e|p]; cbn [mbind outcome_bind].
  - repeat case_match; done.
  - congruence.
  - done.
Qed.

Lemma parse_loop_fuel fuel d s : (String.length s <= fuel)%nat -> parse_loop IsNumber fuel d s <> Err out_of_fuel.
Proof.
  revert d s; induction fuel as [|fuel IH]; intros d s Hl; destruct s as [|c s]; cbn [parse_loop]; try done; [cbn in Hl; lia|].
  pose proof (parse_unit_fuel d (String.String c s)) as Hu. destruct (parse_unit _ d _) as [[d' s']|e|p] eqn:E; cbn [mbind outcome_bind]; [|congruence|done].
  apply IH. apply parse_unit_length in E. lia.
Qed.
End Facts.

(** [ParseDuration] terminates on every input: the rounds end before the fuel
    does. *)
Theorem ParseDuration_terminates (IsNumber : Z -> bool) (s : string) : ParseDuration IsNumber s <> Err out_of_fuel.
Proof. unfold ParseDuration. by apply parse_loop_fuel. Qed.
