(* ===== verification/Policy.v ===== *)
(** Which snapshots a policy keeps (src/restic/snapshot_policy.go).

    [ApplyPolicy] sorts the snapshots newest first and walks over them with the
    counters of the buckets; [now] is the result of [time.Now()]. *)

From S2P Require Import Prelude GoString Restic GoTime Snapshot.

#[local] Open Scope Z_scope.

(** * The policy *)

Record ExpirePolicy := mkPolicy {
  p_Last : Z; p_Hourly : Z; p_Daily : Z; p_Weekly : Z; p_Monthly : Z; p_Yearly : Z;
  p_Within : Duration; p_WithinHourly : Duration; p_WithinDaily : Duration; p_WithinWeekly : Duration;
  p_WithinMonthly : Duration; p_WithinYearly : Duration;
  p_Tags : list TagList }.

#[export] Instance ExpirePolicy_eq_dec : EqDecision ExpirePolicy.
Proof. solve_decision. Defined.

Definition no_duration : Duration := mkDuration 0 0 0 0.
Definition zero_policy (tags : list TagList) : ExpirePolicy :=
  mkPolicy 0 0 0 0 0 0 no_duration no_duration no_duration no_duration no_duration no_duration tags.

Definition Policy_Empty (e : ExpirePolicy) : bool :=
  if negb (Nat.eqb (length (p_Tags e)) 0) then false else bool_decide (e = zero_policy (p_Tags e)).

(** [ExpirePolicy.String]. *)
Definition keeps_descr (opt : Z * string) : list string :=
  let '(count, descr) := opt in
  if 0 <? count then [pretty count +:+ " " +:+ descr] else if count =? -1 then ["all " +:+ descr] else [].
Definition within_descr (opt : Duration * string) : list string :=
  let '(d, descr) := opt in
  if Duration_Zero d then [] else [descr +:+ " snapshots within " +:+ Duration_String d].
Definition sep_string (sep s t : string) : string := if String.eqb s "" then s +:+ t else s +:+ sep +:+ t.

Definition Policy_String (e : ExpirePolicy) : string :=
  let keeps := concat (keeps_descr <$> [(p_Last e, "latest"); (p_Hourly e, "hourly"); (p_Daily e, "daily"); (p_Weekly e, "weekly");
    (p_Monthly e, "monthly"); (p_Yearly e, "yearly")]) in
  let keepw := concat (within_descr <$> [(p_WithinHourly e, "hourly"); (p_WithinDaily e, "daily"); (p_WithinWeekly e, "weekly");
    (p_WithinMonthly e, "monthly"); (p_WithinYearly e, "yearly")]) in
  let s := if Nat.eqb (length keeps) 0 then "" else strings_Join ", " keeps +:+ " snapshots" in
  let s := if Nat.eqb (length keepw) 0 then s else sep_string ", " s (strings_Join ", " keepw) in
  let s := if Nat.eqb (length (p_Tags e)) 0 then s
    else sep_string " and " s ("all snapshots with tags [" +:+ strings_Join " " (TagList_String <$> p_Tags e) +:+ "]") in
  let s := if Duration_Zero (p_Within e) then s
    else sep_string " and " s ("all snapshots within " +:+ Duration_String (p_Within e) +:+ " of the newest") in
  "keep " +:+ s.

(** * Buckets *)

Definition ymdh (d : Time) (_ : Z) : Z := Year d * 1000000 + Month d * 10000 + Day d * 100 + Hour d.
Definition ymd (d : Time) (_ : Z) : Z := Year d * 10000 + Month d * 100 + Day d.
Definition yw (d : Time) (_ : Z) : Z := let '(year, week) := ISOWeek d in year * 100 + week.
Definition ym (d : Time) (_ : Z) : Z := Year d * 100 + Month d.
Definition y (d : Time) (_ : Z) : Z := Year d.
Definition always (_ : Time) (nr : Z) : Z := nr.

Record bucket := mkBucket { b_Count : Z; b_bucker : Time -> Z -> Z; b_Last : Z; b_reason : string }.
Record bucketWithin := mkWithin { w_Within : Duration; w_bucker : Time -> Z -> Z; w_Last : Z; w_reason : string }.

Definition init_buckets (p : ExpirePolicy) : list bucket :=
  [ mkBucket (p_Last p) always (-1) "last snapshot";
    mkBucket (p_Hourly p) ymdh (-1) "hourly snapshot";
    mkBucket (p_Daily p) ymd (-1) "daily snapshot";
    mkBucket (p_Weekly p) yw (-1) "weekly snapshot";
    mkBucket (p_Monthly p) ym (-1) "monthly snapshot";
    mkBucket (p_Yearly p) y (-1) "yearly snapshot" ].
Definition init_within (p : ExpirePolicy) : list bucketWithin :=
  [ mkWithin (p_WithinHourly p) ymdh (-1) "hourly within";
    mkWithin (p_WithinDaily p) ymd (-1) "daily within";
    mkWithin (p_WithinWeekly p) yw (-1) "weekly within";
    mkWithin (p_WithinMonthly p) ym (-1) "monthly within";
    mkWithin (p_WithinYearly p) y (-1) "yearly within" ].

(** * Evaluation *)

Definition latest_step (now latest : Time) (sn : Snapshot) : Time :=
  if After (sn_Time sn) latest && Before (sn_Time sn) now then sn_Time sn else latest.
Definition findLatestTimestamp (now : Time) (list : list Snapshot) : outcome Time :=
  match list with
  | [] => Panic "list of snapshots is empty"
  | _ => Ok (fold_left (latest_step now) list time_zero)
  end.

(** [latest.AddDate(-d.Years, -d.Months, -d.Days).Add(time.Hour * time.Duration(-d.Hours))];
    the product is one of 64-bit integers. *)
Definition within_limit (latest : Time) (d : Duration) : Time :=
  Add (AddDate latest (i64 (- Years d)) (i64 (- Months d)) (i64 (- Days d))) (i64 (Hour_ns * i64 (- Hours d))).

Record Counters := mkCounters { c_Last : Z; c_Hourly : Z; c_Daily : Z; c_Weekly : Z; c_Monthly : Z; c_Yearly : Z }.
Record KeepReason := mkReason { kr_Snapshot : Snapshot; kr_Matches : list string; kr_Counters : Counters }.

Definition no_counters : Counters := mkCounters 0 0 0 0 0 0.
Definition counters_of (bs : list bucket) : Counters :=
  let c i := from_option b_Count 0 (bs !! i) in mkCounters (c 0%nat) (c 1%nat) (c 2%nat) (c 3%nat) (c 4%nat) (c 5%nat).

Definition tag_reasons (p : ExpirePolicy) (cur : Snapshot) : list string :=
  concat ((fun l => if HasTags cur l then ["has tags " +:+ TagList_String l] else []) <$> p_Tags p).

Definition within_reasons (p : ExpirePolicy) (latest : Time) (cur : Snapshot) : list string :=
  if negb (Duration_Zero (p_Within p)) && After (sn_Time cur) (within_limit latest (p_Within p))
  then ["within " +:+ Duration_String (p_Within p)] else [].

(** A round of the loop over [buckets], and of the one over [bucketsWithin]: the
    bucket, and the reasons it adds. *)
Definition bucket_step (oldest : bool) (nr : Z) (cur : Snapshot) (b : bucket) : bucket * list string :=
  if (0 <? b_Count b) || (b_Count b =? -1) then
    let val := b_bucker b (sn_Time cur) nr in
    if negb (val =? b_Last b) || oldest then
      (mkBucket (if 0 <? b_Count b then b_Count b - 1 else b_Count b) (b_bucker b) val (b_reason b), [b_reason b])
    else (b, [])
  else (b, []).

Definition bucketWithin_step (latest : Time) (oldest : bool) (nr : Z) (cur : Snapshot) (b : bucketWithin)
    : bucketWithin * list string :=
  if negb (Duration_Zero (w_Within b)) && After (sn_Time cur) (within_limit latest (w_Within b)) then
    let val := w_bucker b (sn_Time cur) nr in
    if negb (val =? w_Last b) || oldest then
      (mkWithin (w_Within b) (w_bucker b) val (w_reason b), [w_reason b +:+ " " +:+ Duration_String (w_Within b)])
    else (b, [])
  else (b, []).

Record policy_state := mkPS {
  ps_buckets : list bucket;
  ps_within : list bucketWithin;
  ps_keep : list Snapshot;
  ps_remove : list Snapshot;
  ps_reasons : list KeepReason }.

(** The body of the loop over the snapshots; [len] is their number. *)
Definition policy_step (p : ExpirePolicy) (latest : Time) (len : Z) (st : policy_state) (elem : Z * Snapshot) : policy_state :=
  let '(nr, cur) := elem in
  let oldest := nr =? len - 1 in
  let counted := bucket_step oldest nr cur <$> ps_buckets st in
  let ranged := bucketWithin_step latest oldest nr cur <$> ps_within st in
  let bs := fst <$> counted in
  let ws := fst <$> ranged in
  let keepSnapReasons := tag_reasons p cur ++ within_reasons p latest cur ++ concat (snd <$> counted) ++ concat (snd <$> ranged) in
  let keepSnap := negb (Nat.eqb (length keepSnapReasons) 0) in
  if keepSnap then
    mkPS bs ws (ps_keep st ++ [cur]) (ps_remove st) (ps_reasons st ++ [mkReason cur keepSnapReasons (counters_of bs)])
  else mkPS bs ws (ps_keep st) (ps_remove st ++ [cur]) (ps_reasons st).

Definition enumerate {A} (l : list A) : list (Z * A) := imap (fun i x => (Z.of_nat i, x)) l.

(** [ApplyPolicy] sorts [list] in place, which is the first result; then [keep],
    [remove] and [reasons]. *)
Definition ApplyPolicy (now : Time) (list_ : list Snapshot) (p : ExpirePolicy)
    : outcome (list Snapshot * (list Snapshot * list Snapshot * list KeepReason)) :=
  let list_ := go_sort newer list_ in
  if Policy_Empty p then Ok (list_, (list_, [], (fun sn => mkReason sn ["policy is empty"] no_counters) <$> list_))
  else if Nat.eqb (length list_) 0 then Ok (list_, (list_, [], []))
  else
    try latest <- findLatestTimestamp now list_;
    let st := fold_left (policy_step p latest (zlen list_)) (enumerate list_) (mkPS (init_buckets p) (init_within p) [] [] []) in
    Ok (list_, (ps_keep st, ps_remove st, ps_reasons st)).

(** * Which snapshots are kept

    The positions of the sorted list that a bucket chooses, without its state:
    the first of each run of equal values, and the oldest. *)

Definition val_at (f : Time -> Z -> Z) (l : list Snapshot) (i : nat) : Z :=
  from_option (fun sn => f (sn_Time sn) (Z.of_nat i)) (-1) (l !! i).
Definition prev_val (f : Time -> Z -> Z) (l : list Snapshot) (i : nat) : Z :=
  match i with O => -1 | S j => val_at f l j end.
Definition chosen (f : Time -> Z -> Z) (l : list Snapshot) (i : nat) : bool :=
  negb (val_at f l i =? prev_val f l i) || (S i =? length l)%nat.
Definition used (f : Time -> Z -> Z) (l : list Snapshot) (i : nat) : Z :=
  zlen (filter (fun j => chosen f l j = true) (seq 0 i)).

(** The count left before position [i] of a bucket that starts with [n]. *)
Definition count_at (n : Z) (f : Time -> Z -> Z) (l : list Snapshot) (i : nat) : Z :=
  if 0 <? n then Z.max 0 (n - used f l i) else n.
Definition counted_reason (l : list Snapshot) (i : nat) (b : bucket) : list string :=
  if ((b_Count b =? -1) || (used (b_bucker b) l i <? b_Count b)) && chosen (b_bucker b) l i then [b_reason b] else [].
Definition ranged_reason (latest : Time) (l : list Snapshot) (i : nat) (cur : Snapshot) (b : bucketWithin) : list string :=
  if negb (Duration_Zero (w_Within b)) && After (sn_Time cur) (within_limit latest (w_Within b)) && chosen (w_bucker b) l i
  then [w_reason b +:+ " " +:+ Duration_String (w_Within b)] else [].

(** The reasons to keep the snapshot [cur] at position [i], and the counters. *)
Definition reasons_at (p : ExpirePolicy) (latest : Time) (l : list Snapshot) (i : nat) (cur : Snapshot) : list string :=
  tag_reasons p cur ++ within_reasons p latest cur ++ concat (counted_reason l i <$> init_buckets p)
  ++ concat (ranged_reason latest l i cur <$> init_within p).
Definition counters_at (p : ExpirePolicy) (l : list Snapshot) (i : nat) : Counters :=
  mkCounters (count_at (p_Last p) always l i) (count_at (p_Hourly p) ymdh l i) (count_at (p_Daily p) ymd l i)
    (count_at (p_Weekly p) yw l i) (count_at (p_Monthly p) ym l i) (count_at (p_Yearly p) y l i).

(** The steps of a run with the closed forms: what the positions from [i] on add
    to the results. *)
Definition selected (p : ExpirePolicy) (latest : Time) (l : list Snapshot) (i : nat) : list (nat * Snapshot) :=
  filter (fun e => reasons_at p latest l e.1 e.2 <> []) (imap pair (take i l)).
Definition rejected (p : ExpirePolicy) (latest : Time) (l : list Snapshot) (i : nat) : list (nat * Snapshot) :=
  filter (fun e => reasons_at p latest l e.1 e.2 = []) (imap pair (take i l)).

Section Facts.
Context (p : ExpirePolicy) (latest : Time) (l : list Snapshot).

(** What the state of a bucket [b] that started as [b0] is before position [i]. *)
Definition bucket_ok (i : nat) (b0 b : bucket) : Prop :=
  b_bucker b = b_bucker b0 /\ b_reason b = b_reason b0 /\ b_Count b = count_at (b_Count b0) (b_bucker b0) l i /\
  (0 < b_Count b \/ b_Count b = -1 -> b_Last b = prev_val (b_bucker b0) l i).
Definition in_range_of (b : bucketWithin) (sn : Snapshot) : bool :=
  negb (Duration_Zero (w_Within b)) && After (sn_Time sn) (within_limit latest (w_Within b)).
Definition within_ok (i : nat) (b0 b : bucketWithin) : Prop :=
  w_Within b = w_Within b0 /\ w_bucker b = w_bucker b0 /\ w_reason b = w_reason b0 /\
  match i with
  | O => w_Last b = -1
  | S j => forall sn, l !! j = Some sn -> in_range_of b0 sn = true -> w_Last b = val_at (w_bucker b0) l j
  end.

Lemma used_S f i : used f l (S i) = used f l i + (if chosen f l i then 1 else 0).
Proof.
  unfold used. rewrite seq_S, filter_app, zlen_app. cbn [Nat.add]. rewrite filter_cons, filter_nil.
  by destruct (chosen f l i).
Qed.

Lemma not_chosen f i : chosen f l i = false -> val_at f l i = prev_val f l i.
Proof. unfold chosen. intros [H _]%orb_false_iff. by apply negb_false_iff, Z.eqb_eq in H. Qed.

Lemma oldest_eqb i : (Z.of_nat i =? zlen l - 1) = (S i =? length l)%nat.
Proof. unfold zlen. destruct (Nat.eqb_spec (S i) (length l)); lia. Qed.

Lemma val_at_lookup f i cur : l !! i = Some cur -> f (sn_Time cur) (Z.of_nat i) = val_at f l i.
Proof. unfold val_at. by intros ->. Qed.

(** A bucket is active when its count says so. *)
Lemma active_count n f i :
  ((0 <? count_at n f l i) || (count_at n f l i =? -1)) = ((n =? -1) || (used f l i <? n)).
Proof.
  unfold count_at. assert (0 <= used f l i) by apply zlen_nonneg.
  destruct (Z.ltb_spec 0 n).
  - destruct (Z.ltb_spec 0 (Z.max 0 (n - used f l i))), (Z.ltb_spec (used f l i) n), (Z.eqb_spec n (-1)), (Z.eqb_spec (Z.max 0 (n - used f l i)) (-1)); cbn; lia.
  - destruct (Z.eqb_spec n (-1)), (Z.ltb_spec (used f l i) n), (Z.ltb_spec 0 n); cbn; lia.
Qed.

(** Decrementing an active count counts the position. *)
Lemma count_at_S n f i :
  count_at n f l (S i) =
    if chosen f l i && (0 <? count_at n f l i) then count_at n f l i - 1 else count_at n f l i.
Proof.
  unfold count_at. rewrite used_S. destruct (chosen f l i), (Z.ltb_spec 0 n); cbn [andb].
  - destruct (Z.ltb_spec 0 (Z.max 0 (n - used f l i))); lia.
  - destruct (Z.ltb_spec 0 n); lia.
  - lia.
  - done.
Qed.

Lemma bucket_step_ok i cur b0 b :
  l !! i = Some cur -> bucket_ok i b0 b ->
  (bucket_step (Z.of_nat i =? zlen l - 1) (Z.of_nat i) cur b).2 = counted_reason l i b0 /\
  bucket_ok (S i) b0 (bucket_step (Z.of_nat i =? zlen l - 1) (Z.of_nat i) cur b).1.
Proof.
  intros Hi (Ef & Er & Ec & HL). unfold bucket_step, counted_reason, bucket_ok.
  rewrite Ef, Er, oldest_eqb, (val_at_lookup _ _ _ Hi), count_at_S, Ec, active_count.
  pose proof (active_count (b_Count b0) (b_bucker b0) i) as Ea. rewrite Ec in HL.
  destruct ((b_Count b0 =? -1) || _) eqn:En; cbn [andb].
  - rewrite HL by (apply orb_true_iff in Ea as [?%Z.ltb_lt|?%Z.eqb_eq]; auto). fold (chosen (b_bucker b0) l i).
    destruct (chosen _ l i) eqn:Ech; cbn; (split; [done|]); split_and!; try done.
    intros Hact. rewrite HL, (not_chosen _ _ Ech) by congruence. done.
  - cbn. split; [done|]. apply orb_false_iff in Ea as [Ea1 Ea2]. rewrite Ea1, andb_false_r.
    split_and!; [done..|]. rewrite Ec. apply Z.ltb_ge in Ea1. apply Z.eqb_neq in Ea2. lia.
Qed.

Lemma sorted_next i sn cur :
  StronglySorted (le_of newer) l -> l !! i = Some sn -> l !! S i = Some cur -> le_of newer sn cur.
Proof.
  intros Hs. revert i. induction Hs as [|x l' Hs IH Hall]; intros i Hi Hj; [done|]. destruct i as [|i]; cbn in Hi, Hj; [|by apply (IH i)].
  simplify_eq. rewrite Forall_forall in Hall. apply Hall. by apply list_elem_of_lookup_2 in Hj.
Qed.

Lemma in_range_prev b i sn cur :
  StronglySorted (le_of newer) l -> l !! i = Some sn -> l !! S i = Some cur -> in_range_of b cur = true -> in_range_of b sn = true.
Proof.
  unfold in_range_of. intros Hs Hj Hi [-> Ha]%andb_true_iff. cbn.
  pose proof (sorted_next _ _ _ Hs Hj Hi) as Hle. unfold le_of, newer, After in *.
  apply Z.ltb_lt in Ha. apply Z.ltb_ge in Hle. apply Z.ltb_lt. lia.
Qed.

Lemma bucketWithin_step_ok (Hs : StronglySorted (le_of newer) l) i cur b0 b :
  l !! i = Some cur -> within_ok i b0 b ->
  (bucketWithin_step latest (Z.of_nat i =? zlen l - 1) (Z.of_nat i) cur b).2 = ranged_reason latest l i cur b0 /\
  within_ok (S i) b0 (bucketWithin_step latest (Z.of_nat i =? zlen l - 1) (Z.of_nat i) cur b).1.
Proof.
  intros Hi (Ew & Ef & Er & HL). unfold bucketWithin_step, ranged_reason, within_ok.
  rewrite Ew, Ef, Er, oldest_eqb, (val_at_lookup _ _ _ Hi). fold (in_range_of b0 cur).
  destruct (in_range_of b0 cur) eqn:Ea; cbn [andb].
  - assert (w_Last b = prev_val (w_bucker b0) l i) as EL.
    { destruct i as [|j]; [done|]. assert (is_Some (l !! j)) as [sn Hj] by (apply lookup_lt_is_Some; apply lookup_lt_Some in Hi; lia).
      apply (HL sn Hj). by eapply in_range_prev. }
    rewrite EL. fold (chosen (w_bucker b0) l i). destruct (chosen _ l i) eqn:Ech; cbn; (split; [done|]); split_and!; try done.
    intros _ _ _. by rewrite EL, (not_chosen _ _ Ech).
  - cbn. split; [done|]. split_and!; [done..|]. intros sn Hsn Ha. simplify_eq. congruence.
Qed.
(** ** The run *)

Definition run_ok (i : nat) (st : policy_state) : Prop :=
  Forall2 (bucket_ok i) (init_buckets p) (ps_buckets st) /\
  Forall2 (within_ok i) (init_within p) (ps_within st) /\
  ps_keep st = snd <$> selected p latest l i /\
  ps_remove st = snd <$> rejected p latest l i /\
  ps_reasons st = (fun e => mkReason e.2 (reasons_at p latest l e.1 e.2) (counters_at p l (S e.1))) <$> selected p latest l i.

Lemma Forall2_step {A B C} (R R' : A -> B -> Prop) (f : B -> B * C) (g : A -> C) (la : list A) (lb : list B) :
  (forall a b, R a b -> (f b).2 = g a /\ R' a (f b).1) -> Forall2 R la lb ->
  snd <$> (f <$> lb) = g <$> la /\ Forall2 R' la (fst <$> (f <$> lb)).
Proof.
  intros Hf. induction 1 as [|a b la lb Hab _ [IH1 IH2]]; [by split|].
  destruct (Hf _ _ Hab) as [H1 H2]. cbn. split; [by f_equal|by constructor].
Qed.

Lemma counters_ok i bs : Forall2 (bucket_ok i) (init_buckets p) bs -> counters_of bs = counters_at p l i.
Proof.
  intros H. unfold init_buckets in H.
  repeat match type of H with
  | Forall2 _ (_ :: _) _ =>
      apply Forall2_cons_inv_l in H as (?x & ?k & Hb & Hk & ->); destruct Hb as (_ & _ & Hb & _); revert Hb; rename Hk into H
  end.
  apply Forall2_nil_inv_l in H as ->. intros. unfold counters_of, counters_at. cbn in *. by f_equal.
Qed.

Lemma imap_take_S i cur : l !! i = Some cur -> imap pair (take (S i) l) = imap pair (take i l) ++ [(i, cur)].
Proof.
  intros Hi. rewrite (take_S_r _ _ _ Hi), imap_app. cbn. rewrite Nat.add_0_r, length_take_le; [done|].
  apply lookup_lt_Some in Hi. lia.
Qed.

Lemma policy_step_ok (Hs : StronglySorted (le_of newer) l) i cur st :
  l !! i = Some cur -> run_ok i st -> run_ok (S i) (policy_step p latest (zlen l) st (Z.of_nat i, cur)).
Proof.
  intros Hi (Hb & Hw & Hk & Hr & Hre).
  destruct (Forall2_step _ _ _ _ _ _ (fun b0 b => bucket_step_ok i cur b0 b Hi) Hb) as [Eb Hb'].
  destruct (Forall2_step _ _ _ _ _ _ (fun b0 b => bucketWithin_step_ok Hs i cur b0 b Hi) Hw) as [Ew Hw'].
  unfold policy_step. cbv zeta. rewrite Eb, Ew. fold (reasons_at p latest l i cur).
  unfold run_ok, selected, rejected. rewrite (imap_take_S _ _ Hi), !filter_app, !filter_cons, !filter_nil. cbn [fst snd].
  destruct (reasons_at p latest l i cur) as [|r rs] eqn:Er; cbn [length Nat.eqb negb ps_buckets ps_within ps_keep ps_remove ps_reasons].
  - rewrite decide_False by tauto. rewrite decide_True by done. rewrite !app_nil_r, fmap_app. split_and!; [done..|by rewrite Hr|done].
  - rewrite decide_True by done. rewrite decide_False by done. rewrite !app_nil_r, !fmap_app. cbn. rewrite Er.
    split_and!; [done|done|by rewrite Hk|done|]. rewrite Hre. by rewrite (counters_ok _ _ Hb').
Qed.

Lemma bucket_start n f reason : bucket_ok 0 (mkBucket n f (-1) reason) (mkBucket n f (-1) reason).
Proof.
  split_and!; [done..| |done]. unfold count_at, used. cbn. destruct (Z.ltb_spec 0 n); [|done].
  unfold zlen. cbn. lia.
Qed.

Lemma policy_run (Hs : StronglySorted (le_of newer) l) :
  let st := fold_left (policy_step p latest (zlen l)) (enumerate l) (mkPS (init_buckets p) (init_within p) [] [] []) in
  run_ok (length l) st.
Proof.
  cbv zeta. assert (forall i, (i <= length l)%nat -> run_ok i (fold_left (policy_step p latest (zlen l)) (take i (enumerate l))
    (mkPS (init_buckets p) (init_within p) [] [] []))) as H.
  { induction i as [|i IH]; intros Hi.
    - split_and!; [|by repeat constructor|done..]. cbn. repeat (apply Forall2_cons; split; [by apply bucket_start|]). constructor.
    - assert (is_Some (l !! i)) as [cur Hc] by (apply lookup_lt_is_Some; lia).
      rewrite (take_S_r _ _ (Z.of_nat i, cur)) by by (unfold enumerate; rewrite list_lookup_imap, Hc).
      rewrite fold_left_app. cbn. apply policy_step_ok; [done..|]. apply IH. lia. }
  specialize (H (length l)). rewrite take_ge in H by by unfold enumerate; rewrite length_imap. by apply H.
Qed.
End Facts.

Lemma go_sort_newer l : StronglySorted (le_of newer) (go_sort newer l).
Proof.
  apply StronglySorted_merge_sort.
  - intros a b c. unfold le_of, newer, After. rewrite !Z.ltb_ge. lia.
  - intros a b. unfold le_of, newer, After. rewrite !Z.ltb_ge. lia.
Qed.

(** The result for a policy that is not empty. *)
Lemma ApplyPolicy_eq now list_ p :
  Policy_Empty p = false ->
  let l := go_sort newer list_ in
  let latest := fold_left (latest_step now) l time_zero in
  ApplyPolicy now list_ p = Ok (l, (snd <$> selected p latest l (length l), snd <$> rejected p latest l (length l),
    (fun e => mkReason e.2 (reasons_at p latest l e.1 e.2) (counters_at p l (S e.1))) <$> selected p latest l (length l))).
Proof.
  intros He l latest. unfold ApplyPolicy. cbv zeta. rewrite He. fold l.
  destruct (Nat.eqb_spec (length l) 0) as [->%length_zero_iff_nil|Hne]; [done|].
  assert (findLatestTimestamp now l = Ok latest) as -> by by destruct l.
  cbn [mbind outcome_bind]. destruct (policy_run p latest l (go_sort_newer list_)) as (_ & _ & -> & -> & ->). done.
Qed.

Lemma snd_imap_pair {A} (l : list A) : snd <$> imap pair l = l.
Proof. rewrite fmap_imap. etrans; [|apply (list_fmap_id l)]. apply (imap_const id). Qed.

Lemma filter_split_perm {A} (P Q : A -> Prop) `{forall x, Decision (P x)} `{forall x, Decision (Q x)} (l : list A) :
  (forall x, P x <-> ~ Q x) -> filter P l ++ filter Q l ≡ₚ l.
Proof.
  intros Hpq. induction l as [|x l IH]; [done|]. rewrite !filter_cons. specialize (Hpq x).
  repeat case_decide; [tauto|by rewrite <- IH at 3|by rewrite <- Permutation_middle, IH|tauto].
Qed.

Lemma sublist_fmap {A B} (f : A -> B) (l k : list A) : l `sublist_of` k -> f <$> l `sublist_of` f <$> k.
Proof. induction 1; cbn; by constructor. Qed.

Lemma sublist_picked (P : nat * Snapshot -> Prop) `{forall x, Decision (P x)} (l : list Snapshot) :
  snd <$> filter P (imap pair (take (length l) l)) `sublist_of` l.
Proof.
  rewrite take_ge by done. rewrite <- (snd_imap_pair l) at 2. apply sublist_fmap, sublist_filter.
Qed.

(** * Theorems *)

(** The policy sorts the snapshots newest first, drops and invents none, and
    gives every snapshot that is kept its reasons, in the same order. *)
Theorem ApplyPolicy_partition (now : Time) (list_ : list Snapshot) (p : ExpirePolicy) :
  exists l keep remove reasons, ApplyPolicy now list_ p = Ok (l, (keep, remove, reasons)) /\
    l ≡ₚ list_ /\ StronglySorted (fun a b => newer b a = false) l /\
    keep ++ remove ≡ₚ l /\ keep `sublist_of` l /\ remove `sublist_of` l /\
    kr_Snapshot <$> reasons = keep /\ Forall (fun r => kr_Matches r <> []) reasons.
Proof.
  set (l := go_sort newer list_). pose proof (go_sort_newer list_) as Hs. pose proof (go_sort_Permutation newer list_) as Hp. fold l in Hs, Hp.
  destruct (Policy_Empty p) eqn:He.
  - exists l, l, [], ((fun sn => mkReason sn ["policy is empty"] no_counters) <$> l).
    unfold ApplyPolicy. cbv zeta. rewrite He. fold l. split_and!; try done.
    + by rewrite app_nil_r.
    + apply sublist_nil_l.
    + rewrite <- list_fmap_compose. apply list_fmap_id.
    + by apply Forall_fmap, Forall_true.
  - do 4 eexists. split; [apply (ApplyPolicy_eq now list_ p He)|]. fold l. split_and!; [done|done|..].
    + unfold selected, rejected. rewrite <- fmap_app, filter_split_perm by done. by rewrite take_ge, snd_imap_pair by done.
    + apply sublist_picked.
    + apply sublist_picked.
    + rewrite <- list_fmap_compose. done.
    + apply Forall_fmap, Forall_forall. by intros e [He' _]%list_elem_of_filter.
Qed.

(** C30. A policy that is not empty keeps the snapshots that have a reason, where the
    reasons at a position of the sorted list only depend on the list: a matching
    tag list, the range [Within], the first of a run of snapshots with the same
    hour, day, week, month or year (or the oldest one) while fewer than [Count]
    were counted before it, or one in its range. *)
Theorem ApplyPolicy_selects (now : Time) (list_ : list Snapshot) (p : ExpirePolicy) (He : Policy_Empty p = false) :
  let l := go_sort newer list_ in
  let latest := fold_left (latest_step now) l time_zero in
  let kept := filter (fun e => reasons_at p latest l e.1 e.2 <> []) (imap pair l) in
  let removed := filter (fun e => reasons_at p latest l e.1 e.2 = []) (imap pair l) in
  ApplyPolicy now list_ p = Ok (l, (snd <$> kept, snd <$> removed,
    (fun e => mkReason e.2 (reasons_at p latest l e.1 e.2) (counters_at p l (S e.1))) <$> kept)).
Proof. cbv zeta. rewrite ApplyPolicy_eq by done. unfold selected, rejected. by rewrite take_ge by done. Qed.

Definition ex_days : list Snapshot :=
  [ex_snapshot (Date 2024 1 2 3) "h" []; ex_snapshot (Date 2024 1 2 9) "h" []; ex_snapshot (Date 2024 1 1 5) "h" ["x"]; ex_snapshot (Date 2023 12 1 5) "h" []].

Definition ex_policy : ExpirePolicy :=
  mkPolicy 0 0 1 0 0 0 no_duration no_duration no_duration no_duration no_duration no_duration [["x"]].

Lemma ApplyPolicy_selects_witness :
  exists reasons, ApplyPolicy (Date 2025 1 1 0) ex_days ex_policy =
    Ok ([ex_snapshot (Date 2024 1 2 9) "h" []; ex_snapshot (Date 2024 1 2 3) "h" []; ex_snapshot (Date 2024 1 1 5) "h" ["x"]; ex_snapshot (Date 2023 12 1 5) "h" []],
      ([ex_snapshot (Date 2024 1 2 9) "h" []; ex_snapshot (Date 2024 1 1 5) "h" ["x"]],
       [ex_snapshot (Date 2024 1 2 3) "h" []; ex_snapshot (Date 2023 12 1 5) "h" []], reasons)).
Proof.
  eexists. etrans; [apply (ApplyPolicy_selects (Date 2025 1 1 0) ex_days ex_policy eq_refl)|]. vm_compute. reflexivity.
Defined.

(** ** Keeping the last [n] *)

Lemma prev_always l i : (i <= length l)%nat -> prev_val always l i = Z.of_nat i - 1.
Proof.
  intros Hi. destruct i as [|j]; [done|]. cbn. unfold val_at. destruct (lookup_lt_is_Some_2 l j) as [sn ->]; [lia|]. cbn. unfold always. lia.
Qed.

Lemma chosen_always l i : (i < length l)%nat -> chosen always l i = true.
Proof.
  intros Hi. unfold chosen, val_at. destruct (lookup_lt_is_Some_2 l i Hi) as [sn ->]. rewrite prev_always by lia. cbn. unfold always.
  destruct (Z.eqb_spec (Z.of_nat i) (Z.of_nat i - 1)); [lia|done].
Qed.

Lemma used_always l i : (i <= length l)%nat -> used always l i = Z.of_nat i.
Proof.
  induction i as [|i IH]; intros Hi; [done|]. rewrite used_S, IH, chosen_always by lia. lia.
Qed.

Lemma selected_take p latest l n :
  (n <= length l)%nat -> (forall i sn, l !! i = Some sn -> (i < n)%nat -> reasons_at p latest l i sn <> []) ->
  selected p latest l n = imap pair (take n l).
Proof.
  intros Hn Hr. unfold selected. apply filter_all, Forall_lookup. intros j e He. rewrite list_lookup_imap in He.
  apply fmap_Some in He as (sn & Hsn & ->). apply lookup_take_Some in Hsn as [Hsn Hj]. by apply Hr.
Qed.

Lemma selected_split p latest l n :
  (n <= length l)%nat -> exists rest, selected p latest l (length l) = selected p latest l n ++ rest.
Proof.
  intros Hn. unfold selected. rewrite (take_ge l (length l)) by done. replace (imap pair l) with (imap pair (take n l ++ drop n l)) by (by rewrite take_drop).
  rewrite imap_app, filter_app. eauto.
Qed.

Lemma last_reason p latest l i sn :
  0 < p_Last p -> l !! i = Some sn -> (i < length l)%nat -> Z.of_nat i < p_Last p -> reasons_at p latest l i sn <> [].
Proof.
  intros Hp Hsn Hi Hn. unfold reasons_at, init_buckets. cbn [fmap list_fmap concat]. unfold counted_reason at 1. cbn [b_Count b_bucker b_reason].
  rewrite used_always, chosen_always by lia. destruct (Z.ltb_spec (Z.of_nat i) (p_Last p)); [|lia]. rewrite orb_true_r. cbn [andb].
  intros [_ [_ [E _]%app_nil]%app_nil]%app_nil. done.
Qed.

(** A policy that keeps the last [n] snapshots keeps the [n] newest ones,
    whatever else it keeps. *)
Theorem keep_last_n (now : Time) (list_ : list Snapshot) (p : ExpirePolicy) (n : nat) (Hp : p_Last p = Z.of_nat n) (Hn : (0 < n)%nat) :
  exists keep remove reasons, ApplyPolicy now list_ p = Ok (go_sort newer list_, (keep, remove, reasons)) /\
    take n (go_sort newer list_) `prefix_of` keep.
Proof.
  assert (Policy_Empty p = false) as He.
  { unfold Policy_Empty. case_if; [done|]. apply bool_decide_eq_false. intros E. rewrite E in Hp. cbn in Hp. lia. }
  do 3 eexists. split; [apply (ApplyPolicy_eq now list_ p He)|]. set (l := go_sort newer list_). set (latest := fold_left _ l _).
  assert (take n l = take (n `min` length l) l) as -> by (rewrite <- take_take; by rewrite (take_ge l (length l))).
  destruct (selected_split p latest l (n `min` length l)) as [rest ->]; [lia|]. rewrite fmap_app, (selected_take p latest l), snd_imap_pair.
  - by eexists.
  - lia.
  - intros i sn Hsn Hi. apply last_reason; [lia|done|lia..].
Qed.

Lemma keep_last_n_witness :
  exists keep remove reasons, ApplyPolicy (Date 2025 1 1 0) ex_days (mkPolicy 2 0 0 0 0 0 no_duration no_duration no_duration no_duration no_duration no_duration [])
    = Ok (go_sort newer ex_days, (keep, remove, reasons)) /\ take 2 (go_sort newer ex_days) `prefix_of` keep.
Proof. apply (keep_last_n _ _ _ 2%nat); [reflexivity|lia]. Defined.

(** ** Ranges

    The number of hours of a range is multiplied by the nanoseconds of an hour in
    64 bits. *)

Definition within_hours (h : Z) : ExpirePolicy :=
  mkPolicy 0 0 0 0 0 0 (mkDuration h 0 0 0) no_duration no_duration no_duration no_duration no_duration [].

Lemma latest_bound now l : Forall (fun sn => 0 <= t_ns (sn_Time sn) < t_ns now) l ->
  forall t, Forall (fun sn => t_ns (sn_Time sn) <= t_ns (fold_left (latest_step now) l t)) l /\ t_ns t <= t_ns (fold_left (latest_step now) l t).
Proof.
  induction 1 as [|sn l Hsn HF IH]; intros t; [by split|]. cbn. destruct (IH (latest_step now t sn)) as [H1 H2].
  assert (t_ns t <= t_ns (latest_step now t sn) /\ t_ns (sn_Time sn) <= t_ns (latest_step now t sn)) as [? ?].
  { unfold latest_step, After, Before. destruct (Z.ltb_spec (t_ns t) (t_ns (sn_Time sn))), (Z.ltb_spec (t_ns (sn_Time sn)) (t_ns now)); cbn; lia. }
  split; [|lia]. constructor; [lia|done].
Qed.

Lemma counted_none l i f last reason : counted_reason l i (mkBucket 0 f last reason) = [].
Proof.
  unfold counted_reason. cbn [b_Count b_bucker b_reason]. assert (0 <= used f l i) by apply zlen_nonneg.
  destruct (Z.ltb_spec (used f l i) 0); [lia|done].
Qed.

Lemma within_limit_hours latest h : is_i64 (- h) -> within_limit latest (mkDuration h 0 0 0) = Add latest (i64 (Hour_ns * - h)).
Proof. intros Hh. unfold within_limit. cbn [Hours Days Months Years]. by rewrite AddDate_0, (i64_id (- h)). Qed.

Lemma within_hours_reasons h latest l i sn :
  reasons_at (within_hours h) latest l i sn = within_reasons (within_hours h) latest sn.
Proof.
  unfold reasons_at, init_buckets, init_within. cbn [fmap list_fmap]. rewrite !counted_none. by rewrite app_nil_r.
Qed.

(** The limit of a range of hours as the code computes it. *)
Definition hours_limit (now : Time) (l : list Snapshot) (h : Z) : Z := t_ns (fold_left (latest_step now) l time_zero) + i64 (Hour_ns * - h).

Lemma within_hours_kept now l h sn :
  0 < h < 2 ^ 63 -> within_reasons (within_hours h) (fold_left (latest_step now) l time_zero) sn <> [] <-> hours_limit now l h < t_ns (sn_Time sn).
Proof.
  intros Hh. unfold within_reasons. cbn [within_hours p_Within]. rewrite within_limit_hours by (unfold is_i64; lia).
  assert (Duration_Zero (mkDuration h 0 0 0) = false) as -> by (unfold Duration_Zero; cbn; lia).
  unfold After, Add, hours_limit. cbn [t_ns snd negb andb]. destruct (Z.ltb_spec (t_ns (fold_left (latest_step now) l time_zero) + i64 (Hour_ns * - h)) (t_ns (sn_Time sn))).
  - by split.
  - by split; [|lia].
Qed.

Lemma filter_snd {A} (P : A -> Prop) `{forall x, Decision (P x)} (l : list A) : snd <$> filter (fun e : nat * A => P e.2) (imap pair l) = filter P l.
Proof. rewrite <- (snd_imap_pair l) at 2. induction (imap pair l) as [|[i x] L IH]; [done|]. cbn [fmap list_fmap snd]. rewrite !filter_cons. cbn [snd]. destruct (decide (P x)); cbn; by rewrite IH. Qed.

(** C31. A policy whose only rule is to keep the last [h] hours keeps the snapshots after a
    limit, which is the newest one's time less [h] hours in nanoseconds, in 64 bits.  Up to
    2562047 hours (292 years) that is the time meant.  More than that overflow: from
    there up to 5124095 hours the limit moves into the future and the policy keeps nothing,
    not even the newest snapshot, when no snapshot is of the future; with still more
    hours the limit wraps around and is any time. *)
Theorem within_hours_wraps (now : Time) (list_ : list Snapshot) (h : Z) (Hh : 0 < h < 2 ^ 63) :
  let l := go_sort newer list_ in
  (exists reasons, ApplyPolicy now list_ (within_hours h) =
     Ok (l, (filter (fun sn => hours_limit now l h < t_ns (sn_Time sn)) l, filter (fun sn => ~ hours_limit now l h < t_ns (sn_Time sn)) l, reasons))) /\
  (h <= 2562047 -> hours_limit now l h = t_ns (fold_left (latest_step now) l time_zero) - Hour_ns * h) /\
  (2562047 < h <= 5124095 -> Forall (fun sn => 0 <= t_ns (sn_Time sn) < t_ns now) list_ -> filter (fun sn => hours_limit now l h < t_ns (sn_Time sn)) l = []).
Proof.
  intros l. split_and!.
  - assert (Policy_Empty (within_hours h) = false) as He.
    { unfold Policy_Empty. cbn. apply bool_decide_eq_false. intros E. apply (f_equal (fun p => Hours (p_Within p))) in E. cbn in E. lia. }
    eexists. rewrite (ApplyPolicy_eq now list_ _ He). fold l. f_equal. f_equal. f_equal. unfold selected, rejected. rewrite take_ge by done. f_equal.
    + rewrite <- (filter_snd (fun sn => hours_limit now l h < t_ns (sn_Time sn))). f_equal. apply list_filter_iff. intros [i sn]. rewrite within_hours_reasons. by apply within_hours_kept.
    + rewrite <- (filter_snd (fun sn => ~ hours_limit now l h < t_ns (sn_Time sn))). f_equal. apply list_filter_iff. intros [i sn]. rewrite within_hours_reasons, <- within_hours_kept by done. cbn [snd].
      destruct (within_reasons _ _ sn); [split; [by intros _ H|done]|split; [done|by intros []]].
  - intros Hs. unfold hours_limit. assert (i64 (Hour_ns * - h) = Hour_ns * - h) as -> by (apply i64_id; unfold is_i64, Hour_ns, second_ns; lia). lia.
  - intros Ho HF. assert (Forall (fun sn => 0 <= t_ns (sn_Time sn) < t_ns now) l) as HF' by by (unfold l; rewrite go_sort_Permutation).
    apply filter_none. eapply Forall_impl; [apply (latest_bound now l HF' time_zero)|]. cbn beta. intros sn Hle Hlt.
    assert (0 < i64 (Hour_ns * - h)) by (unfold i64, Hour_ns, second_ns; zdiv_lia). unfold hours_limit in Hlt. lia.
Qed.

(** With a million hours everything is kept, with three millions nothing, and with 5124096
    the limit is 25 minutes before the newest snapshot. *)
Lemma within_hours_wraps_witness :
  let l := go_sort newer ex_days in
  (exists reasons, ApplyPolicy (Date 2025 1 1 0) ex_days (within_hours 3000000) = Ok (l, ([], l, reasons))) /\
  hours_limit (Date 2025 1 1 0) l 1000000 = t_ns (Date 2024 1 2 9) - Hour_ns * 1000000 /\
  hours_limit (Date 2025 1 1 0) l 5124096 = t_ns (Date 2024 1 2 9) - 1526290448384.
Proof.
  intros l. destruct (within_hours_wraps (Date 2025 1 1 0) ex_days 3000000 ltac:(lia)) as ((reasons & E) & _ & Hnone). fold l in E, Hnone. split.
  - exists reasons. rewrite E, Hnone; [|lia|repeat constructor; vm_compute; (discriminate || reflexivity)]. by vm_compute.
  - split; [|by vm_compute]. apply (within_hours_wraps (Date 2025 1 1 0) ex_days 1000000); lia.
Defined.
