(* ===== verification/Lock.v ===== *)
(** Locks (src/restic/lock.go).

    The functions are programs over the operations a process performs on the
    repository and its clock: list the lock files, load one, save one, remove
    one, read the time.  A world of processes interleaves them. *)

From S2P Require Import Prelude Bytes Restic GoTime Repository.

#[local] Open Scope Z_scope.

(** * Locks and errors *)

Record Lock := mkLock {
  l_Time : Time;
  l_Exclusive : bool;
  l_Hostname : string;
  l_Username : string;
  l_PID : Z;
  l_UID : Z;
  l_GID : Z;
  l_lockID : option ID }.

Definition set_Time (l : Lock) (t : Time) : Lock :=
  mkLock t (l_Exclusive l) (l_Hostname l) (l_Username l) (l_PID l) (l_UID l) (l_GID l) (l_lockID l).
Definition set_lockID (l : Lock) (id : option ID) : Lock :=
  mkLock (l_Time l) (l_Exclusive l) (l_Hostname l) (l_Username l) (l_PID l) (l_UID l) (l_GID l) id.

Inductive lock_error :=
  | alreadyLockedError (otherLock : Lock)
  | invalidLockError (err : error)
  | ErrRemovedLock
  | OtherError (err : error).

Inductive result (A : Type) :=
  | Done (a : A)
  | Failed (e : lock_error).
Arguments Done {A} a.
Arguments Failed {A} e.

Definition IsAlreadyLocked (e : lock_error) : bool := match e with alreadyLockedError _ => true | _ => false end.
Definition IsInvalidLock (e : lock_error) : bool := match e with invalidLockError _ => true | _ => false end.

(** [errors.Is(err, ErrInvalidData)] *)
Fixpoint is_invalid_data (e : error) : bool :=
  bool_decide (e = ErrInvalidData) || match e with ErrWrap e _ => is_invalid_data e | ErrMsg _ => false end.

(** * Programs *)

Inductive prog (A : Type) :=
  | Ret (a : A)
  | DoNow (k : Time -> prog A)
  | DoList (k : list (ID * Z) -> option error -> prog A)
  | DoLoad (id : ID) (k : result Lock -> prog A)
  | DoSave (l : Lock) (k : result ID -> prog A)
  | DoRemove (id : ID) (k : result unit -> prog A).
Arguments Ret {A} a.
Arguments DoNow {A} k.
Arguments DoList {A} k.
Arguments DoLoad {A} id k.
Arguments DoSave {A} l k.
Arguments DoRemove {A} id k.

Fixpoint pbind {A B} (p : prog A) (f : A -> prog B) : prog B :=
  match p with
  | Ret a => f a
  | DoNow k => DoNow (fun t => pbind (k t) f)
  | DoList k => DoList (fun l e => pbind (k l e) f)
  | DoLoad id k => DoLoad id (fun r => pbind (k r) f)
  | DoSave l k => DoSave l (fun r => pbind (k r) f)
  | DoRemove id k => DoRemove id (fun r => pbind (k r) f)
  end.

(** [ForAllLocks]: the workers call [fn] one at a time on the listed locks, in
    any order; [s] is what the callback's closure changes.  The first error is
    the result. *)
Fixpoint each_lock {S} (excludeID : option ID) (fn : S -> ID -> result Lock -> prog (S * result unit)) (s : S)
    (files : list (ID * Z)) (err : option error) : prog (S * result unit) :=
  match files with
  | [] => Ret (s, match err with None => Done tt | Some e => Failed (OtherError e) end)
  | (id, size) :: files =>
      if bool_decide (excludeID = Some id) then each_lock excludeID fn s files err
      else if size =? 0 then each_lock excludeID fn s files err
      else
        DoLoad id (fun r =>
          pbind (fn s id (match r with Done l => Done (set_lockID l (Some id)) | Failed e => Failed e end)) (fun o =>
            match o with
            | (s, Done _) => each_lock excludeID fn s files err
            | (s, Failed e) => Ret (s, Failed e)
            end))
  end.
Definition ForAllLocks {S} (excludeID : option ID) (fn : S -> ID -> result Lock -> prog (S * result unit)) (s : S)
    : prog (S * result unit) :=
  DoList (fun files err => each_lock excludeID fn s files err).

(** The callback of [checkForOtherLocks]. *)
Definition check_other (l : Lock) (s : unit) (id : ID) (r : result Lock) : prog (unit * result unit) :=
  Ret (s, match r with
          | Failed e => Failed e
          | Done lock =>
              if l_Exclusive l then Failed (alreadyLockedError lock)
              else if negb (l_Exclusive l) && l_Exclusive lock then Failed (alreadyLockedError lock)
              else Done tt
          end).

(** The loop, with [i] attempts left and the error of the last one. *)
Fixpoint check_loop (i : nat) (err : result unit) (l : Lock) : prog (result unit) :=
  match i with
  | O =>
      Ret (match err with
           | Failed (OtherError e) => Failed (if is_invalid_data e then invalidLockError e else OtherError e)
           | _ => err
           end)
  | S i =>
      pbind (ForAllLocks (l_lockID l) (check_other l) tt) (fun r =>
        match r.2 with
        | Done _ => Ret (Done tt)
        | Failed (alreadyLockedError o) => Ret (Failed (alreadyLockedError o))
        | Failed e => check_loop i (Failed e) l
        end)
  end.
Definition checkForOtherLocks (l : Lock) : prog (result unit) := check_loop 3 (Done tt) l.

Definition createLock (l : Lock) : prog (result ID) := DoSave l Ret.

Definition Unlock (l : Lock) : prog (result unit) :=
  match l_lockID l with
  | None => Ret (Done tt)
  | Some id => DoRemove id Ret
  end.

(** What the process knows about itself: its PID, [os.Hostname()] and
    [user.Current()] with the IDs [uidGidInt] reads. *)
Record process := mkProcess {
  pr_pid : Z;
  pr_hostname : result string;
  pr_user : result (string * result (Z * Z)) }.

Definition fillUserInfo (pr : process) (l : Lock) : result Lock :=
  match pr_user pr with
  | Failed _ => Done l
  | Done (name, Failed e) => Failed e
  | Done (name, Done (uid, gid)) =>
      Done (mkLock (l_Time l) (l_Exclusive l) (l_Hostname l) name (l_PID l) uid gid (l_lockID l))
  end.

Definition newLock (pr : process) (excl : bool) : prog (result Lock) :=
  DoNow (fun now =>
    let lock := mkLock now excl (match pr_hostname pr with Done hn => hn | Failed _ => "" end) "" (pr_pid pr) 0 0 None in
    match fillUserInfo pr lock with
    | Failed e => Ret (Failed e)
    | Done lock =>
        pbind (checkForOtherLocks lock) (fun err =>
          match err with
          | Failed e => Ret (Failed e)
          | Done _ =>
              pbind (createLock lock) (fun r =>
                match r with
                | Failed e => Ret (Failed e)
                | Done lockID =>
                    let lock := set_lockID lock (Some lockID) in
                    pbind (checkForOtherLocks lock) (fun err =>
                      match err with
                      | Failed e => pbind (Unlock lock) (fun _ => Ret (Failed e))
                      | Done _ => Ret (Done lock)
                      end)
                end)
          end)
    end).

Definition NewLock (pr : process) : prog (result Lock) := newLock pr false.
Definition NewExclusiveLock (pr : process) : prog (result Lock) := newLock pr true.

(** A lock that was acquired has an ID; on another one the functions below
    dereference a nil pointer, which ends the program with this error. *)
Definition nil_pointer : lock_error := OtherError (ErrMsg "nil pointer dereference").

(** [Refresh]: the lock afterwards, and the error. *)
Definition Refresh (l : Lock) : prog (Lock * result unit) :=
  DoNow (fun now =>
    let l := set_Time l now in
    pbind (createLock l) (fun r =>
      match r with
      | Failed e => Ret (l, Failed e)
      | Done id =>
          match l_lockID l with
          | None => Ret (set_lockID l (Some id), Failed nil_pointer)
          | Some oldLockID => DoRemove oldLockID (fun r => Ret (set_lockID l (Some id), r))
          end
      end)).

Definition checkExistence (l : Lock) : prog (result bool) :=
  DoList (fun files err =>
    match l_lockID l, files, err with
    | None, _ :: _, _ => Ret (Failed nil_pointer)
    | _, _, Some e => Ret (Failed (OtherError e))
    | _, _, None => Ret (Done (existsb (fun fi => bool_decide (l_lockID l = Some fi.1)) files))
    end).

Definition RefreshStaleLock (l : Lock) : prog (Lock * result unit) :=
  pbind (checkExistence l) (fun r =>
    match r with
    | Failed e => Ret (l, Failed e)
    | Done false => Ret (l, Failed ErrRemovedLock)
    | Done true =>
        DoNow (fun now =>
          let l := set_Time l now in
          pbind (createLock l) (fun r =>
            match r with
            | Failed e => Ret (l, Failed e)
            | Done id =>
                pbind (checkExistence l) (fun r =>
                  match r with
                  | Failed e => DoRemove id (fun _ => Ret (l, Failed e))
                  | Done false => DoRemove id (fun _ => Ret (l, Failed ErrRemovedLock))
                  | Done true =>
                      match l_lockID l with
                      | None => Ret (set_lockID l (Some id), Failed nil_pointer)
                      | Some oldLockID => DoRemove oldLockID (fun r => Ret (set_lockID l (Some id), r))
                      end
                  end)
            end))
    end).

(** ** Stale locks *)

Definition StaleLockTimeout : Z := 30 * 60 * second_ns.

Definition Stale (pr : process) (processExists : Z -> bool) (now : Time) (l : Lock) : bool :=
  if StaleLockTimeout <? t_ns now - t_ns (l_Time l) then true
  else
    match pr_hostname pr with
    | Failed _ => false
    | Done hn => if negb (String.eqb hn (l_Hostname l)) then false else negb (processExists (l_PID l))
    end.

(** The callback of [RemoveStaleLocks]; [processed] counts the removed locks. *)
Definition remove_stale (pr : process) (processExists : Z -> bool) (processed : Z) (id : ID) (r : result Lock)
    : prog (Z * result unit) :=
  match r with
  | Failed _ => Ret (processed, Done tt)
  | Done lock =>
      DoNow (fun now =>
        if Stale pr processExists now lock then
          DoRemove id (fun r => Ret (match r with Done _ => processed + 1 | Failed _ => processed end, r))
        else Ret (processed, Done tt))
  end.
Definition RemoveStaleLocks (pr : process) (processExists : Z -> bool) : prog (Z * result unit) :=
  ForAllLocks None (remove_stale pr processExists) 0.

Fixpoint remove_each (processed : Z) (files : list (ID * Z)) (err : option error) : prog (Z * result unit) :=
  match files with
  | [] => Ret (processed, match err with None => Done tt | Some e => Failed (OtherError e) end)
  | (id, _) :: files =>
      DoRemove id (fun r => match r with Done _ => remove_each (processed + 1) files err | Failed e => Ret (processed, Failed e) end)
  end.
Definition RemoveAllLocks : prog (Z * result unit) := DoList (fun files err => remove_each 0 files err).

(** * The world

    The lock files of a repository and the processes that use it.  A file is
    written and removed atomically; an operation that fails may have had its
    effect, or left an empty file.  IDs are not used twice. *)

Record store := mkStore {
  st_created : gmap ID Lock;   (* every lock ever written *)
  st_files : gset ID;          (* the lock files *)
  st_empty : gset ID }.        (* the empty files *)

Definition fresh_id (st : store) (id : ID) : Prop :=
  (st_created st !! id = None) /\ (id ∉ st_files st) /\ (id ∉ st_empty st).
Definition add_lock (st : store) (id : ID) (l : Lock) : store :=
  mkStore (<[id := set_lockID l None]> (st_created st)) ({[id]} ∪ st_files st) (st_empty st).
Definition add_empty (st : store) (id : ID) : store :=
  mkStore (st_created st) (st_files st) ({[id]} ∪ st_empty st).
Definition del_file (st : store) (id : ID) : store :=
  mkStore (st_created st) (st_files st ∖ {[id]}) (st_empty st ∖ {[id]}).

Definition listing (st : store) (files : list (ID * Z)) : Prop :=
  (forall id, (id ∈ files.*1) <-> (id ∈ st_files st \/ id ∈ st_empty st)) /\
  (forall id size, (id, size) ∈ files -> id ∈ st_files st -> size <> 0).

(** One operation of a program: the store and the program afterwards, and the
    IDs the program knows it has written. *)
Inductive pstep {A} : store -> prog A -> store -> prog A -> gset ID -> Prop :=
  | step_now st k t : pstep st (DoNow k) st (k t) ∅
  | step_list st k files : listing st files -> pstep st (DoList k) st (k files None) ∅
  | step_list_err st k all files e :
      listing st all -> files ⊆ all -> pstep st (DoList k) st (k files (Some e)) ∅
  | step_load st k id l :
      id ∈ st_files st -> st_created st !! id = Some l -> pstep st (DoLoad id k) st (k (Done l)) ∅
  | step_load_err st k id e : pstep st (DoLoad id k) st (k (Failed (OtherError e))) ∅
  | step_save st k l id : fresh_id st id -> pstep st (DoSave l k) (add_lock st id l) (k (Done id)) {[id]}
  | step_save_err st k l id e st' :
      fresh_id st id -> st' = st \/ st' = add_lock st id l \/ st' = add_empty st id ->
      pstep st (DoSave l k) st' (k (Failed (OtherError e))) ∅
  | step_remove st k id : pstep st (DoRemove id k) (del_file st id) (k (Done tt)) ∅
  | step_remove_err st k id e st' :
      st' = st \/ st' = del_file st id -> pstep st (DoRemove id k) st' (k (Failed (OtherError e))) ∅.

(** A client of the locks: what it does with its lock.  One that could not
    refresh it in time is suspended: it stops its work until [RefreshStaleLock]
    succeeds. *)
Inductive cstate :=
  | Idle
  | Locking (p : prog (result Lock))
  | Holding (l : Lock)
  | Refreshing (l : Lock) (p : prog (Lock * result unit))
  | Suspended (l : Lock)
  | Reviving (p : prog (Lock * result unit))
  | Unlocking (p : prog (result unit)).

(** [c_fresh] are the files that the client wrote since it started or was last
    suspended: they are not stale. *)
Record client := mkClient { c_state : cstate; c_fresh : gset ID }.

Record world := mkWorld { w_store : store; w_clients : gmap nat client }.

Inductive cstep : store -> client -> store -> client -> Prop :=
  | c_lock st fr pr excl : cstep st (mkClient Idle fr) st (mkClient (Locking (newLock pr excl)) ∅)
  | c_locking st fr p st' p' new :
      pstep st p st' p' new -> cstep st (mkClient (Locking p) fr) st' (mkClient (Locking p') (new ∪ fr))
  | c_locked st fr l : cstep st (mkClient (Locking (Ret (Done l))) fr) st (mkClient (Holding l) fr)
  | c_lock_failed st fr e : cstep st (mkClient (Locking (Ret (Failed e))) fr) st (mkClient Idle fr)
  | c_refresh st fr l : cstep st (mkClient (Holding l) fr) st (mkClient (Refreshing l (Refresh l)) fr)
  | c_refreshing st fr l p st' p' new :
      pstep st p st' p' new -> cstep st (mkClient (Refreshing l p) fr) st' (mkClient (Refreshing l p') (new ∪ fr))
  | c_refreshed st fr l l' r : cstep st (mkClient (Refreshing l (Ret (l', r))) fr) st (mkClient (Holding l') fr)
  | c_suspend st fr l : cstep st (mkClient (Holding l) fr) st (mkClient (Suspended l) ∅)
  | c_revive st fr l : cstep st (mkClient (Suspended l) fr) st (mkClient (Reviving (RefreshStaleLock l)) fr)
  | c_reviving st fr p st' p' new :
      pstep st p st' p' new -> cstep st (mkClient (Reviving p) fr) st' (mkClient (Reviving p') (new ∪ fr))
  | c_revived st fr l : cstep st (mkClient (Reviving (Ret (l, Done tt))) fr) st (mkClient (Holding l) fr)
  | c_not_revived st fr l e : cstep st (mkClient (Reviving (Ret (l, Failed e))) fr) st (mkClient (Suspended l) ∅)
  | c_unlock st fr l : cstep st (mkClient (Holding l) fr) st (mkClient (Unlocking (Unlock l)) fr)
  | c_unlock_suspended st fr l : cstep st (mkClient (Suspended l) fr) st (mkClient (Unlocking (Unlock l)) fr)
  | c_unlocking st fr p st' p' new :
      pstep st p st' p' new -> cstep st (mkClient (Unlocking p) fr) st' (mkClient (Unlocking p') (new ∪ fr))
  | c_unlocked st fr r : cstep st (mkClient (Unlocking (Ret r)) fr) st (mkClient Idle fr)
  | c_crash st fr s : cstep st (mkClient s fr) st (mkClient Idle ∅).

Inductive wstep : world -> world -> Prop :=
  | w_client st cs c cl st' cl' :
      cs !! c = Some cl -> cstep st cl st' cl' -> wstep (mkWorld st cs) (mkWorld st' (<[c := cl']> cs))
  | w_remove_stale st cs id :
      (forall c cl, cs !! c = Some cl -> id ∉ c_fresh cl) -> wstep (mkWorld st cs) (mkWorld (del_file st id) cs).

(** It starts with any lock files and idle clients. *)
Definition w_init (w : world) : Prop :=
  (forall id, id ∈ st_files (w_store w) -> is_Some (st_created (w_store w) !! id)) /\
  (forall c cl, w_clients w !! c = Some cl -> cl = mkClient Idle ∅).

Definition reachable (w : world) : Prop := exists w0, w_init w0 /\ rtc wstep w0 w.

Definition holds (w : world) (c : nat) (l : Lock) : Prop :=
  exists fr, w_clients w !! c = Some (mkClient (Holding l) fr) \/ exists p, w_clients w !! c = Some (mkClient (Refreshing l p) fr).

(** * Mutual exclusion

    What a client may rely on and guarantees, as a status that its program
    changes with each operation: [SFlag f]: its file [f] is there; [SIn f U]: it
    has also listed the locks, and those in [U] are still to be looked at;
    [SOld f nf]: it is suspended, [f] may have been removed as stale, and its
    new file [nf] is there. *)

Inductive status :=
  | SNone
  | SFlag (f : ID)
  | SIn (f : ID) (U : gset ID)
  | SOld (f : ID) (nf : option ID).

Definition protected (s : status) : option ID :=
  match s with SNone => None | SFlag f => Some f | SIn f _ => Some f | SOld _ nf => nf end.
Definition unlooked (s : status) : gset ID := match s with SIn _ U => U | _ => ∅ end.
Definition participates (st : store) (s : status) : Prop :=
  match s with SIn _ _ => True | SOld f _ => f ∈ st_files st | _ => False end.

Definition listed_locks (h : gset ID) (files : list (ID * Z)) : gset ID :=
  list_to_set (filter (fun fi => fi.2 <> 0 /\ fi.1 ∉ h) files).*1.

Inductive list_trans (h : gset ID) (files : list (ID * Z)) : option error -> status -> status -> Prop :=
  | lt_keep err s : list_trans h files err s s
  | lt_flag f : list_trans h files None (SFlag f) (SIn f (listed_locks h files))
  | lt_again f U : list_trans h files None (SIn f U) (SIn f (listed_locks h files))
  | lt_old f nf : f ∈ files.*1 -> list_trans h files None (SOld f (Some nf)) (SIn nf ∅).
Definition clear (id : ID) (s : status) : status := match s with SIn f U => SIn f (U ∖ {[id]}) | s => s end.
Inductive save_trans (id : ID) : status -> status -> Prop :=
  | st_flag : save_trans id SNone (SFlag id)
  | st_none : save_trans id SNone SNone
  | st_in f U : save_trans id (SIn f U) (SIn id U)
  | st_old f : save_trans id (SOld f None) (SOld f (Some id)).
Definition drop_file (id : ID) (s : status) : status :=
  match s with
  | SFlag f => if decide (f = id) then SNone else s
  | SIn f U => if decide (f = id) then SNone else s
  | SOld f (Some nf) => if decide (nf = id) then SOld f None else s
  | s => s
  end.

(** A program of a client in mode [ex] that has written [h], with status [s], is
    safe when every operation keeps to the protocol, whatever its result is;
    [I] holds of the status all the way. *)
Fixpoint safe {A} (ex : bool) (I : status -> Prop) (h : gset ID) (s : status) (p : prog A)
    (post : gset ID -> status -> A -> Prop) : Prop :=
  I s /\
  match p with
  | Ret a => post h s a
  | DoNow k => forall t, safe ex I h s (k t) post
  | DoList k => forall files err, exists s', list_trans h files err s s' /\ safe ex I h s' (k files err) post
  | DoLoad id k =>
      (forall e, safe ex I h s (k (Failed e)) post) /\
      (forall l, safe ex I h (if ex || l_Exclusive l then s else clear id s) (k (Done l)) post)
  | DoSave l k =>
      l_Exclusive l = ex /\ (forall e, safe ex I h s (k (Failed e)) post) /\
      (forall id, id ∉ h -> exists s', save_trans id s s' /\ safe ex I ({[id]} ∪ h) s' (k (Done id)) post)
  | DoRemove id k => id ∈ h /\ forall r, safe ex I h (drop_file id s) (k r) post
  end.

Section Rules.
Context {A : Type} (ex : bool) (I : status -> Prop) (h : gset ID) (s : status) (post : gset ID -> status -> A -> Prop).

Lemma safe_status p : safe ex I h s p post -> I s.
Proof. destruct p; cbn; tauto. Qed.
Lemma safe_ret a : I s -> post h s a -> safe ex I h s (Ret a) post.
Proof. by split. Qed.
Lemma safe_time k : I s -> (forall t, safe ex I h s (k t) post) -> safe ex I h s (DoNow k) post.
Proof. by split. Qed.
Lemma safe_list k :
  I s -> (forall files err, exists s', list_trans h files err s s' /\ safe ex I h s' (k files err) post) ->
  safe ex I h s (DoList k) post.
Proof. by split. Qed.
Lemma safe_save l k :
  I s -> l_Exclusive l = ex -> (forall e, safe ex I h s (k (Failed e)) post) ->
  (forall id, id ∉ h -> exists s', save_trans id s s' /\ safe ex I ({[id]} ∪ h) s' (k (Done id)) post) ->
  safe ex I h s (DoSave l k) post.
Proof. by split. Qed.
Lemma safe_remove id k :
  I s -> id ∈ h -> (forall r, safe ex I h (drop_file id s) (k r) post) -> safe ex I h s (DoRemove id k) post.
Proof. by split. Qed.
End Rules.

Lemma safe_bind {A B} ex I (p : prog A) (f : A -> prog B) : forall h s post,
  safe ex I h s p (fun h s a => safe ex I h s (f a) post) -> safe ex I h s (pbind p f) post.
Proof.
  induction p as [a|k IH|k IH|id k IH|l k IH|id k IH]; intros h s post; cbn.
  - tauto.
  - intros [? H]. split; [done|]. auto.
  - intros [? H]. split; [done|]. intros files err. destruct (H files err) as (s' & ? & ?). eauto.
  - intros (? & H1 & H2). auto.
  - intros (? & ? & H1 & H2). split_and!; auto. intros id Hid. destruct (H2 id Hid) as (s' & ? & ?). eauto.
  - intros (? & ? & H1). auto.
Qed.

Lemma safe_mono {A} ex I (p : prog A) : forall h s (post post' : gset ID -> status -> A -> Prop),
  (forall h s a, post h s a -> post' h s a) -> safe ex I h s p post -> safe ex I h s p post'.
Proof.
  induction p as [a|k IH|k IH|id k IH|l k IH|id k IH]; intros h s post post' Hp; cbn.
  - intuition.
  - intros [? H]. split; [done|]. intros t. by eapply IH.
  - intros [? H]. split; [done|]. intros files err. destruct (H files err) as (s' & ? & ?). exists s'. split; [done|]. by eapply IH.
  - intros (? & H1 & H2). split_and!; [done|..]; intros; by eapply IH.
  - intros (? & ? & H1 & H2). split_and!; [done|done|..]; intros.
    + by eapply IH.
    + destruct (H2 id) as (s' & ? & ?); [done|]. exists s'. split; [done|]. by eapply IH.
  - intros (? & ? & H1). split_and!; [done|done|]. intros. by eapply IH.
Qed.

(** ** The programs are safe *)

Definition any (_ : status) : Prop := True.

(** The lock is held. *)
Definition held (ex : bool) (h : gset ID) (s : status) (l : Lock) : Prop :=
  l_Exclusive l = ex /\ exists f, l_lockID l = Some f /\ f ∈ h /\ s = SIn f ∅.

Lemma listed_locks_cons h id size files :
  listed_locks h ((id, size) :: files) ⊆ (if decide (size <> 0 /\ id ∉ h) then {[id]} else ∅) ∪ listed_locks h files.
Proof.
  unfold listed_locks. rewrite filter_cons. cbn. destruct (decide (size <> 0 /\ id ∉ h)); set_solver.
Qed.

(** Looking at the listed locks one by one. *)
Lemma each_lock_safe ex l h f files err :
  l_Exclusive l = ex -> l_lockID l = Some f -> f ∈ h ->
  forall U, U ⊆ listed_locks h files ->
  safe ex any h (SIn f U) (each_lock (l_lockID l) (check_other l) tt files err) (fun h' s' r =>
    h' = h /\ exists U', s' = SIn f U' /\ (err = None -> r.2 = Done tt -> U' = ∅)).
Proof.
  intros Hex Hl Hf. induction files as [|[id size] files IH]; intros U HU; cbn [each_lock].
  - cbn. split; [done|]. split; [done|]. exists U. split; [done|]. intros _ _. apply set_eq. set_solver.
  - pose proof (listed_locks_cons h id size files) as Hc.
    case_bool_decide as Hid; [|destruct (Z.eqb_spec size 0) as [->|Hs]].
    + apply IH. assert (id = f) as -> by congruence. rewrite decide_False in Hc by tauto. set_solver.
    + apply IH. rewrite decide_False in Hc by tauto. set_solver.
    + cbn. split; [done|]. split; [intros e|intros l'].
      * split; [done|]. split; [done|]. exists U. by split.
      * rewrite Hex. destruct ex; cbn [orb negb andb].
        -- cbn. split; [done|]. split; [done|]. exists U. by split.
        -- change (l_Exclusive (set_lockID l' (Some id))) with (l_Exclusive l'). destruct (l_Exclusive l'); cbn.
           ++ split; [done|]. split; [done|]. exists U. by split.
           ++ apply IH. destruct (decide (size <> 0 /\ id ∉ h)); set_solver.
Qed.

(** Looking at locks keeps any property of the status that looking keeps. *)
Lemma each_lock_keeps (P : status -> Prop) ex l h files err :
  (forall id s, P s -> P (clear id s)) -> forall s, P s ->
  safe ex any h s (each_lock (l_lockID l) (check_other l) tt files err) (fun h' s' r =>
    h' = h /\ P s' /\ (err <> None -> r.2 <> Done tt)).
Proof.
  intros HP. induction files as [|[id size] files IH]; intros s Hs; cbn [each_lock].
  - cbn. split_and!; [done..|]. by destruct err.
  - case_bool_decide; [auto|]. destruct (size =? 0); [auto|]. cbn. split; [done|]. split; [intros e; by cbn|]. intros l'.
    assert (P (if ex || l_Exclusive l' then s else clear id s)) as Hs' by (case_match; auto). revert Hs'.
    generalize (if ex || l_Exclusive l' then s else clear id s). intros s' Hs'.
    destruct (l_Exclusive l); [by cbn|]. cbn. destruct (l_Exclusive l'); [by cbn|]. auto.
Qed.

(** Before the lock is written nothing is claimed. *)
Lemma check_none ex l h i err : safe ex any h SNone (check_loop i err l) (fun h' s' _ => h' = h /\ s' = SNone).
Proof.
  revert err. induction i as [|i IH]; intros err; cbn [check_loop]; [by cbn|]. apply safe_bind. cbn. split; [done|].
  intros files e. exists SNone. split; [constructor|].
  eapply safe_mono; [|by apply (each_lock_keeps (fun s => s = SNone)); [intros ? ? ->|]]. cbn. intros h' s' [u r] (-> & -> & _).
  destruct r as [[]|e']; [by cbn|]. destruct e'; [by cbn|..]; apply IH.
Qed.

Definition mine (f : ID) (s : status) : Prop := s = SFlag f \/ exists U, s = SIn f U.

Lemma check_safe l h f i err s :
  l_lockID l = Some f -> f ∈ h -> mine f s -> err <> Done tt \/ (0 < i)%nat ->
  safe (l_Exclusive l) any h s (check_loop i err l) (fun h' s' r =>
    h' = h /\ match r with Done _ => s' = SIn f ∅ | Failed _ => mine f s' end).
Proof.
  intros Hl Hf. revert err s. induction i as [|i IH]; intros err s Hs Herr; cbn [check_loop].
  - cbn. split; [done|]. split; [done|]. destruct Herr as [Herr|?]; [|lia]. destruct err as [[]|e]; [done|]. by destruct e.
  - apply safe_bind. cbn. split; [done|]. intros files e.
    set (post := fun (h' : gset ID) s' (r : unit * result unit) => h' = h /\ mine f s' /\ (r.2 = Done tt -> s' = SIn f ∅)).
    assert (exists s', list_trans h files e s s' /\ safe (l_Exclusive l) any h s' (each_lock (l_lockID l) (check_other l) tt files e) post)
      as (s' & Ht & Hsafe).
    { destruct e as [e|].
      - exists s. split; [constructor|]. eapply safe_mono; [|apply (each_lock_keeps (mine f)); [|done]].
        + cbn. intros h' s' r (-> & Hm & Hr). split_and!; [done|done|]. intros E. by destruct (Hr ltac:(done)).
        + intros id s' [->|[U ->]]; [by left|]. right. by exists (U ∖ {[id]}).
      - exists (SIn f (listed_locks h files)). split; [destruct Hs as [->|[U ->]]; constructor|].
        eapply safe_mono; [|by apply each_lock_safe]. cbn. intros h' s' r (-> & U' & -> & HU). split_and!; [done|by right; exists U'|].
        intros E. by rewrite HU. }
    exists s'. split; [done|]. eapply safe_mono; [|exact Hsafe]. unfold post. cbn. intros h' s'' [u r] (-> & Hm & Hr).
    destruct r as [[]|e']; [by cbn; rewrite Hr|]. destruct e'; [by cbn|..]; (apply IH; [done|by left]).
Qed.

Lemma newLock_safe pr ex : safe ex any ∅ SNone (newLock pr ex) (fun h s r => match r with Done l => held ex h s l | Failed _ => True end).
Proof.
  apply safe_time; [done|]. intros now. set (lock := mkLock now ex _ _ _ _ _ None).
  assert (forall l, fillUserInfo pr lock = Done l -> l_Exclusive l = ex /\ l_lockID l = None) as Hfill.
  { intros l. unfold fillUserInfo. destruct (pr_user pr) as [[name [[uid gid]|e]]|e]; intros [= <-]; done. }
  cbv zeta. destruct (fillUserInfo pr lock) as [l|e]; [|by apply safe_ret]. destruct (Hfill l eq_refl) as [Hex Hn]. clear Hfill.
  apply safe_bind. eapply safe_mono; [|apply check_none]. intros h s r [-> ->]. destruct r as [[]|e]; [|by apply safe_ret].
  apply safe_bind, safe_save; [done|done|intros e; by repeat apply safe_ret|]. intros id _. exists (SFlag id). split; [constructor|].
  apply safe_ret; [done|]. apply safe_bind. replace ex with (l_Exclusive (set_lockID l (Some id))) by done.
  eapply safe_mono; [|apply (check_safe _ _ id); [done|set_solver|by left|right; lia]]. intros h s r [-> Hr]. destruct r as [[]|e].
  - apply safe_ret; [done|]. split; [done|]. exists id. split_and!; [done|set_solver|done].
  - apply safe_bind, safe_remove; [done|set_solver|]. intros r. by repeat apply safe_ret.
Qed.

(** A client that refreshes its lock holds it all the way. *)
Definition in_ (s : status) : Prop := exists f, s = SIn f ∅.

Lemma Refresh_safe l h s : held (l_Exclusive l) h s l ->
  safe (l_Exclusive l) in_ h s (Refresh l) (fun h s r => held (l_Exclusive l) h s r.1).
Proof.
  intros (_ & f & Hl & Hf & ->). apply safe_time; [by eexists|]. intros now. apply safe_bind, safe_save; [by eexists|done|..].
  - intros e. apply safe_ret; [by eexists|]. apply safe_ret; [by eexists|]. split; [done|]. by exists f.
  - intros id Hid. exists (SIn id ∅). split; [constructor|]. apply safe_ret; [by eexists|]. cbn [l_lockID set_Time]. rewrite Hl.
    assert (drop_file f (SIn id ∅) = SIn id ∅) as Hd by (cbn; rewrite decide_False; [done|by intros ->]).
    apply safe_remove; [by eexists|set_solver|]. intros r. rewrite Hd. apply safe_ret; [by eexists|].
    split; [done|]. exists id. split_and!; [done|set_solver|done].
Qed.

(** A suspended client. *)
Definition dormant (ex : bool) (h : gset ID) (s : status) (l : Lock) : Prop :=
  l_Exclusive l = ex /\ exists f, l_lockID l = Some f /\ f ∈ h /\ (s = SOld f None \/ s = SIn f ∅).

Lemma exists_file f (files : list (ID * Z)) :
  existsb (fun fi => bool_decide (Some f = Some fi.1)) files = true -> f ∈ files.*1.
Proof.
  intros ([id size] & Hin & He%bool_decide_eq_true)%existsb_exists. cbn in He. simplify_eq. apply list_elem_of_fmap. exists (id, size).
  split; [done|]. by apply list_elem_of_In.
Qed.

(** The existence check of a lock with an ID. *)
Lemma checkExistence_safe {A} ex h s l f (k : result bool -> prog A) post :
  l_lockID l = Some f ->
  (forall e, safe ex any h s (k (Failed e)) post) -> safe ex any h s (k (Done false)) post ->
  (exists s', (forall files, f ∈ files.*1 -> list_trans h files None s s') /\ safe ex any h s' (k (Done true)) post) ->
  safe ex any h s (pbind (checkExistence l) k) post.
Proof.
  intros Hl Hk1 Hk2 (s' & Ht & Hk3). apply safe_bind, safe_list; [done|]. intros files err. rewrite Hl.
  destruct err as [e|]; [exists s; split; [constructor|by apply safe_ret; auto]|].
  destruct (existsb _ files) eqn:E; cbn [mbind].
  - exists s'. split; [by apply Ht, exists_file|]. by apply safe_ret.
  - exists s. split; [constructor|]. by apply safe_ret.
Qed.

Lemma RefreshStaleLock_safe l h f s :
  l_lockID l = Some f -> f ∈ h -> s = SOld f None ->
  safe (l_Exclusive l) any h s (RefreshStaleLock l) (fun h s r =>
    match r.2 with Done _ => held (l_Exclusive l) h s r.1 | Failed _ => dormant (l_Exclusive l) h s r.1 end).
Proof.
  intros Hl Hf ->. assert (forall l' h', f ∈ h' -> l_lockID l' = Some f -> l_Exclusive l' = l_Exclusive l -> dormant (l_Exclusive l) h' (SOld f None) l') as Hd.
  { intros l' h' ? ? ?. split; [done|]. exists f. auto. }
  apply (checkExistence_safe _ _ _ _ f); [done|intros e; apply safe_ret; [done|by apply Hd]|apply safe_ret; [done|by apply Hd]|].
  exists (SOld f None). split; [intros files _; constructor|]. apply safe_time; [done|]. intros now.
  apply safe_bind, safe_save; [done|done|intros e; repeat (apply safe_ret; [done|]); by apply Hd|].
  intros id Hid. exists (SOld f (Some id)). split; [constructor|]. apply safe_ret; [done|].
  assert (drop_file id (SOld f (Some id)) = SOld f None) as Hdrop by (cbn; by rewrite decide_True).
  assert (forall e, safe (l_Exclusive l) any ({[id]} ∪ h) (SOld f (Some id)) (DoRemove id (fun _ => Ret (set_Time l now, Failed (A:=unit) e)))
    (fun h s r => match r.2 with Done _ => held (l_Exclusive l) h s r.1 | Failed _ => dormant (l_Exclusive l) h s r.1 end)) as Hfail.
  { intros e. apply safe_remove; [done|set_solver|]. intros r. rewrite Hdrop. apply safe_ret; [done|]. apply Hd; [set_solver|done|done]. }
  apply (checkExistence_safe _ _ _ _ f); [done|intros e; apply Hfail|apply Hfail|].
  exists (SIn id ∅). split; [intros files Hin; by constructor|]. cbn [l_lockID set_Time]. rewrite Hl.
  assert (drop_file f (SIn id ∅) = SIn id ∅) as Hdrop' by (cbn; rewrite decide_False; [done|by intros ->]).
  apply safe_remove; [done|set_solver|]. intros r. rewrite Hdrop'. apply safe_ret; [done|].
  assert (held (l_Exclusive l) ({[id]} ∪ h) (SIn id ∅) (set_lockID (set_Time l now) (Some id))) as Hheld.
  { split; [done|]. exists id. split_and!; [done|set_solver|done]. }
  cbn. destruct r as [[]|e]; [done|]. destruct Hheld as (He & f' & ? & ? & ?). split; [done|]. exists f'. auto.
Qed.

Lemma Unlock_safe ex l h s : (forall f, l_lockID l = Some f -> f ∈ h) -> safe ex any h s (Unlock l) (fun _ _ _ => True).
Proof.
  intros Hl. unfold Unlock. destruct (l_lockID l) as [f|]; [|by apply safe_ret]. apply safe_remove; [done|by apply Hl|].
  intros r. by apply safe_ret.
Qed.

(** ** The invariant of the world *)

Record ghost := mkGhost { g_ex : bool; g_h : gset ID; g_s : status }.

Definition own_ok (st : store) (fr : gset ID) (g : ghost) : Prop :=
  (forall id, id ∈ g_h g -> (id ∉ st_empty st) /\ exists l, st_created st !! id = Some l /\ l_Exclusive l = g_ex g) /\
  (forall f, protected (g_s g) = Some f -> f ∈ g_h g /\ f ∈ st_files st /\ f ∈ fr) /\
  (forall f nf, g_s g = SOld f nf -> f ∈ g_h g).

Definition conflict (g1 g2 : ghost) : bool := g_ex g1 || g_ex g2.
Definition pair_ok (st : store) (g1 g2 : ghost) : Prop :=
  g_h g1 ## g_h g2 /\
  (conflict g1 g2 = true -> participates st (g_s g1) -> participates st (g_s g2) ->
   (exists x, x ∈ unlooked (g_s g1) /\ x ∈ g_h g2) \/ (exists x, x ∈ unlooked (g_s g2) /\ x ∈ g_h g1)).

Lemma pair_ok_sym st g1 g2 : pair_ok st g1 g2 -> pair_ok st g2 g1.
Proof. unfold pair_ok, conflict. rewrite orb_comm. intros [H1 H2]. split; [by symmetry|]. intros Hc Hp1 Hp2. destruct (H2 Hc Hp2 Hp1); auto. Qed.

(** One that participates has a file that a listing shows. *)
Lemma participates_file st fr g : own_ok st fr g -> participates st (g_s g) -> exists f, f ∈ g_h g /\ f ∈ st_files st.
Proof.
  intros (_ & Hp & Ho). destruct (g_s g) as [|f|f U|f nf] eqn:E; cbn; try done.
  - intros _. exists f. destruct (Hp f) as (? & ? & ?); done.
  - intros Hf. exists f. split; [by eapply Ho|done].
Qed.

(** The store changes for a client whose files are not touched. *)
Definition st_le (st st' : store) (h : gset ID) : Prop :=
  (forall id l, st_created st !! id = Some l -> st_created st' !! id = Some l) /\
  (forall id, id ∈ h -> id ∈ st_files st' <-> id ∈ st_files st) /\
  (forall id, id ∈ h -> id ∈ st_empty st' -> id ∈ st_empty st).

Lemma own_ok_le st st' fr g : st_le st st' (g_h g) -> own_ok st fr g -> own_ok st' fr g.
Proof.
  intros (Hc & Hf & He) (H1 & H2 & H3). split_and!; [|intros f Hp; destruct (H2 f Hp) as (? & ? & ?); by rewrite Hf|done].
  intros id Hid. destruct (H1 id Hid) as (? & l & ? & ?). split; [eauto|]. exists l. auto.
Qed.

Lemma participates_le st st' fr g :
  st_le st st' (g_h g) -> own_ok st fr g -> participates st' (g_s g) -> participates st (g_s g).
Proof.
  intros (_ & Hf & _) (_ & _ & H3). destruct (g_s g) as [|f|f U|f nf] eqn:E; try done. cbn. apply Hf. by eapply H3.
Qed.

Lemma pair_ok_le st st' fr1 fr2 g1 g2 :
  st_le st st' (g_h g1) -> st_le st st' (g_h g2) -> own_ok st fr1 g1 -> own_ok st fr2 g2 -> pair_ok st g1 g2 -> pair_ok st' g1 g2.
Proof.
  intros L1 L2 O1 O2 [Hd Hp]. split; [done|]. intros Hc P1 P2. apply Hp; [done|by eapply participates_le..].
Qed.

Lemma st_le_refl st h : st_le st st h.
Proof. by split. Qed.
Lemma fresh_not_own st fr g id : own_ok st fr g -> fresh_id st id -> id ∉ g_h g.
Proof. intros (H & _) (Hc & _) Hid. destruct (H id Hid) as (_ & l & E & _). congruence. Qed.
Lemma st_le_empty st fr g id : fresh_id st id -> own_ok st fr g -> st_le st (add_empty st id) (g_h g).
Proof.
  intros Hid Ho. pose proof (fresh_not_own _ _ _ _ Ho Hid). split_and!; [done|done|]. cbn. intros id' Hid'. set_solver.
Qed.
Lemma st_le_add st fr g id l : fresh_id st id -> own_ok st fr g -> st_le st (add_lock st id l) (g_h g).
Proof.
  intros Hid Ho. pose proof (fresh_not_own _ _ _ _ Ho Hid) as Hn. destruct Hid as (Hc & _ & _). split_and!; cbn; [|set_solver|done].
  intros id' l' Hl'. rewrite lookup_insert_ne; [done|]. intros ->. congruence.
Qed.
Lemma st_le_del st h id : id ∉ h -> st_le st (del_file st id) h.
Proof. intros Hid. split_and!; cbn; [done|set_solver|set_solver]. Qed.

(** What a step of one client gives: it is safe afterwards, and the others keep
    what they rely on. *)
Definition step_result (st st' : store) (fr' : gset ID) (g g' : ghost) : Prop :=
  g_ex g' = g_ex g /\ own_ok st' fr' g' /\
  (forall g2 fr2, own_ok st fr2 g2 -> pair_ok st g g2 -> st_le st st' (g_h g2) /\ pair_ok st' g' g2).

(** The status may change in a store that only the client's own files changed in. *)
Lemma step_status st st' fr fr' g s' :
  own_ok st fr g -> own_ok st' fr' (mkGhost (g_ex g) (g_h g) s') ->
  (forall g2 fr2, own_ok st fr2 g2 -> g_h g ## g_h g2 -> st_le st st' (g_h g2)) ->
  (forall g2 fr2, own_ok st fr2 g2 -> pair_ok st g g2 -> conflict g g2 = true -> participates st' s' -> participates st (g_s g2) ->
    (exists x, x ∈ unlooked s' /\ x ∈ g_h g2) \/ (exists x, x ∈ unlooked (g_s g2) /\ x ∈ g_h g)) ->
  step_result st st' fr' g (mkGhost (g_ex g) (g_h g) s').
Proof.
  intros Ho Ho' Hle Hs. split; [done|]. split; [done|]. intros g2 fr2 O2 P2. assert (st_le st st' (g_h g2)) as L2 by (eapply Hle; [done|apply P2]).
  split; [done|]. split; [apply P2|]. cbn. intros Hc Hp1 Hp2. eapply Hs; try done. by eapply participates_le.
Qed.

(** The client does nothing to the store and keeps its status. *)
Lemma step_same st fr g : own_ok st fr g -> step_result st st fr g g.
Proof. intros Ho. split_and!; [done|done|]. intros. split; [apply st_le_refl|done]. Qed.

(** The store changes outside of everyone's files. *)
Lemma step_outside st st' fr g :
  own_ok st fr g -> (forall g' fr', own_ok st fr' g' -> st_le st st' (g_h g')) -> step_result st st' fr g g.
Proof.
  intros Ho Hle. split; [done|]. split; [by eapply own_ok_le; [eapply Hle|]|]. intros g2 fr2 O2 P2.
  split; [by eapply Hle|]. eapply pair_ok_le; [..|exact P2]; eauto.
Qed.

(** ** The operations *)

Lemma listed_spec st h files f :
  listing st files -> f ∈ st_files st -> f ∉ h -> f ∈ listed_locks h files.
Proof.
  intros [H1 H2] Hf Hh. assert (f ∈ files.*1) as Hin by (apply H1; by left).
  apply list_elem_of_fmap in Hin as ([id size] & -> & Hin). unfold listed_locks. apply elem_of_list_to_set, list_elem_of_fmap.
  exists (id, size). split; [done|]. apply list_elem_of_filter. split; [|done]. split; [by eapply H2|done].
Qed.

Lemma step_relist st fr g f U files :
  listing st files -> own_ok st fr g -> protected (g_s g) = Some f -> U = listed_locks (g_h g) files ->
  step_result st st fr g (mkGhost (g_ex g) (g_h g) (SIn f U)).
Proof.
  intros Hl Ho Hf ->. apply (step_status st st fr); [done| |intros; apply st_le_refl|].
  - destruct Ho as (H1 & H2 & H3). split_and!; [done|cbn; intros f' [= <-]; by apply H2|done].
  - intros g2 fr2 O2 [Hd _] _ _ Hp2. left. destruct (participates_file _ _ _ O2 Hp2) as (x & Hx & Hxf). exists x.
    split; [|done]. cbn. apply (listed_spec st); [done..|]. set_solver.
Qed.

Lemma list_step st fr g files s' :
  listing st files -> own_ok st fr g -> list_trans (g_h g) files None (g_s g) s' ->
  step_result st st fr g (mkGhost (g_ex g) (g_h g) s').
Proof.
  intros Hl Ho Ht. destruct g as [ex h s]. cbn in *. inversion Ht; subst.
  - by apply step_same.
  - by apply (step_relist _ _ (mkGhost ex h (SFlag f)) _ _ files).
  - by apply (step_relist _ _ (mkGhost ex h (SIn f U)) _ _ files).
  - apply (step_status st st fr fr (mkGhost ex h (SOld f (Some nf)))); [done| |intros; apply st_le_refl|].
    + destruct Ho as (H1 & H2 & H3). split_and!; [done|cbn; intros f' [= <-]; by apply H2|done].
    + intros g2 fr2 O2 [_ Hp] Hc _ Hp2. apply Hp; [done| |done]. cbn. destruct Ho as (H1 & _ & H3).
      pose proof (H3 f (Some nf) eq_refl) as Hin. destruct (H1 f Hin) as [Hne _]. by apply Hl in H as [?|?].
Qed.

Lemma load_step st fr g id l :
  id ∈ st_files st -> st_created st !! id = Some l -> own_ok st fr g ->
  step_result st st fr g (mkGhost (g_ex g) (g_h g) (if g_ex g || l_Exclusive l then g_s g else clear id (g_s g))).
Proof.
  intros Hid Hl Ho. destruct (g_ex g || l_Exclusive l) eqn:Ec; [destruct g; by apply step_same|].
  apply (step_status st st fr); [done| |intros; apply st_le_refl|].
  - destruct g as [ex h s], Ho as (H1 & H2 & H3). split_and!; [done|cbn in *; intros f; destruct s; apply H2|cbn in *; destruct s; try done; apply H3].
  - intros g2 fr2 (H1 & _) [_ Hp] Hc Hp1 Hp2.
    assert (participates st (g_s g)) as Hp1' by (destruct (g_s g); done).
    destruct (Hp Hc Hp1' Hp2) as [(x & Hx & Hx2)|?]; [left|by right]. exists x. split; [|done].
    assert (x <> id) as Hne.
    { intros ->. destruct (H1 id Hx2) as (_ & l' & E & El). unfold conflict in Hc. assert (l = l') as -> by congruence.
      rewrite El, Hc in Ec. done. }
    destruct (g_s g); cbn in *; set_solver.
Qed.

Lemma save_step st fr g id l s' :
  fresh_id st id -> l_Exclusive l = g_ex g -> own_ok st fr g -> save_trans id (g_s g) s' ->
  step_result st (add_lock st id l) ({[id]} ∪ fr) g (mkGhost (g_ex g) ({[id]} ∪ g_h g) s').
Proof.
  intros Hid Hl Ho Ht. pose proof (st_le_add _ _ _ id l Hid Ho) as Hle. pose proof (own_ok_le _ _ _ _ Hle Ho) as (H1 & H2 & H3).
  split; [done|]. split.
  - split_and!; cbn.
    + intros x [->%elem_of_singleton|Hx]%elem_of_union; [|by apply H1]. split; [by destruct Hid as (_ & _ & ?)|].
      exists (set_lockID l None). split; [apply lookup_insert_eq|done].
    + intros f Hf. destruct g as [ex h s]. cbn in *. inversion Ht; subst; cbn in Hf; simplify_eq; try set_solver.
    + intros f nf Hs'. destruct g as [ex h s]. cbn in *. inversion Ht; subst; simplify_eq. specialize (H3 _ _ eq_refl). set_solver.
  - intros g2 fr2 O2 [Hd Hp]. pose proof (fresh_not_own _ _ _ _ O2 Hid) as Hn2. pose proof (st_le_add _ _ _ id l Hid O2) as Hle2.
    split; [done|]. split; [cbn; set_solver|]. intros Hc Hp1 Hp2. pose proof (participates_le _ _ _ _ Hle2 O2 Hp2) as Hp2'.
    assert (participates st (g_s g) /\ unlooked (g_s g) = unlooked s') as [Hp1' EU].
    { pose proof (participates_le _ _ _ _ Hle Ho) as Hpl. destruct g as [ex h s]. cbn in *. inversion Ht; subst; cbn in *; try done; auto. }
    destruct (Hp Hc Hp1' Hp2') as [(x & ? & ?)|(x & ? & ?)]; [left|right]; exists x; cbn; rewrite <- ?EU; set_solver.
Qed.

Lemma remove_step st st' fr g id :
  st' = st \/ st' = del_file st id -> id ∈ g_h g -> own_ok st fr g ->
  step_result st st' fr g (mkGhost (g_ex g) (g_h g) (drop_file id (g_s g))).
Proof.
  intros Hst Hid Ho.
  assert (forall f, protected (drop_file id (g_s g)) = Some f -> protected (g_s g) = Some f /\ f <> id) as Hprot.
  { intros f. destruct (g_s g) as [|f'|f' U|f' [nf|]]; cbn; try done; case_decide; cbn; naive_solver. }
  assert (forall f nf, drop_file id (g_s g) = SOld f nf -> exists nf', g_s g = SOld f nf') as Hold.
  { intros f nf. destruct (g_s g) as [|f'|f' U|f' [nf'|]]; cbn; try done; try case_decide; intros [= <- <-]; eauto. }
  apply (step_status st st' fr fr g); [done|..].
  - destruct Ho as (H1 & H2 & H3). split_and!; cbn.
    + destruct Hst as [->| ->]; [done|]. cbn. intros x Hx. destruct (H1 x Hx) as [? ?]. split; [set_solver|done].
    + intros f Hf. destruct (Hprot f Hf) as [Hf' Hne]. destruct (H2 f Hf') as (? & ? & ?). split_and!; [done| |done].
      destruct Hst as [->| ->]; [done|cbn; set_solver].
    + intros f nf Hf. destruct (Hold f nf Hf) as [nf' Hf']. by eapply H3.
  - intros g2 fr2 O2 Hd. destruct Hst as [->| ->]; [apply st_le_refl|]. apply st_le_del. set_solver.
  - intros g2 fr2 O2 [_ Hp] Hc Hp1 Hp2.
    assert (participates st (g_s g) /\ unlooked (g_s g) = unlooked (drop_file id (g_s g))) as [Hp1' EU].
    { assert (forall f, f ∈ st_files st' -> f ∈ st_files st) as Hsub by (destruct Hst as [->| ->]; [done|cbn; set_solver]).
      destruct (g_s g) as [|f'|f' U|f' [nf'|]]; cbn in *; try case_decide; cbn in *; try done; auto. }
    rewrite <- EU. by apply Hp.
Qed.

(** One step of a safe program. *)
Lemma prog_step {A} st p st' p' new fr g I (post : gset ID -> status -> A -> Prop) :
  pstep st p st' p' new -> own_ok st fr g -> safe (g_ex g) I (g_h g) (g_s g) p post ->
  exists g', safe (g_ex g') I (g_h g') (g_s g') p' post /\ step_result st st' (new ∪ fr) g g'.
Proof.
  intros Hstep Ho Hsafe.
  assert (forall fr', own_ok st fr' g -> own_ok st (∅ ∪ fr') g) as Hfr by (intros fr'; by rewrite (left_id_L ∅ union)).
  destruct Hstep; cbn in Hsafe; destruct Hsafe as [HI Hsafe].
  - exists g. split; [apply Hsafe|]. rewrite (left_id_L ∅ union). by apply step_same.
  - destruct (Hsafe files None) as (s' & Ht & Hs). exists (mkGhost (g_ex g) (g_h g) s'). split; [done|].
    rewrite (left_id_L ∅ union). by eapply list_step.
  - destruct (Hsafe files (Some e)) as (s' & Ht & Hs). exists g. split; [inversion Ht; by subst|].
    rewrite (left_id_L ∅ union). by apply step_same.
  - destruct Hsafe as [_ Hs]. exists (mkGhost (g_ex g) (g_h g) (if g_ex g || l_Exclusive l then g_s g else clear id (g_s g))).
    split; [apply (Hs l)|]. rewrite (left_id_L ∅ union). by apply load_step.
  - destruct Hsafe as [Hs _]. exists g. split; [apply Hs|]. rewrite (left_id_L ∅ union). by apply step_same.
  - destruct Hsafe as (Hl & _ & Hs). destruct (Hs id) as (s' & Ht & Hs'); [by eapply fresh_not_own|].
    exists (mkGhost (g_ex g) ({[id]} ∪ g_h g) s'). split; [exact Hs'|]. by apply save_step.
  - destruct Hsafe as (_ & Hs & _). exists g. split; [apply Hs|]. rewrite (left_id_L ∅ union). apply step_outside; [done|].
    intros g' fr' O'. destruct H0 as [->|[->| ->]]; [apply st_le_refl|by eapply st_le_add|by eapply st_le_empty].
  - destruct Hsafe as [Hid Hs]. exists (mkGhost (g_ex g) (g_h g) (drop_file id (g_s g))). split; [apply Hs|]. rewrite (left_id_L ∅ union). apply remove_step; auto.
  - destruct Hsafe as [Hid Hs]. exists (mkGhost (g_ex g) (g_h g) (drop_file id (g_s g))). split; [apply Hs|]. rewrite (left_id_L ∅ union). apply remove_step; auto.
Qed.

(** ** Reachable worlds *)

Definition client_ok (cl : client) (g : ghost) : Prop :=
  match c_state cl with
  | Idle => g_s g = SNone
  | Locking p => safe (g_ex g) any (g_h g) (g_s g) p (fun h s r => match r with Done l => held (g_ex g) h s l | Failed _ => True end)
  | Holding l => held (g_ex g) (g_h g) (g_s g) l
  | Refreshing l p => l_Exclusive l = g_ex g /\ safe (g_ex g) in_ (g_h g) (g_s g) p (fun h s r => held (g_ex g) h s r.1)
  | Suspended l => exists f, l_Exclusive l = g_ex g /\ l_lockID l = Some f /\ f ∈ g_h g /\ g_s g = SOld f None
  | Reviving p => safe (g_ex g) any (g_h g) (g_s g) p (fun h s r =>
      match r.2 with Done _ => held (g_ex g) h s r.1 | Failed _ => dormant (g_ex g) h s r.1 end)
  | Unlocking p => safe (g_ex g) any (g_h g) (g_s g) p (fun _ _ _ => True)
  end.

(** A client that only changes its claim to a weaker one. *)
Lemma step_weaken st fr fr' g s' :
  own_ok st fr g -> own_ok st fr' (mkGhost (g_ex g) (g_h g) s') -> unlooked s' = unlooked (g_s g) ->
  (participates st s' -> participates st (g_s g)) -> step_result st st fr' g (mkGhost (g_ex g) (g_h g) s').
Proof.
  intros Ho Ho' EU Hp. apply (step_status st st fr fr' g); [done|done|intros; apply st_le_refl|].
  intros g2 fr2 O2 [_ H] Hc Hp1 Hp2. rewrite EU. auto.
Qed.

Definition client_result (st st' : store) (cl' : client) (g g' : ghost) : Prop :=
  client_ok cl' g' /\ own_ok st' (c_fresh cl') g' /\
  (forall g2 fr2, own_ok st fr2 g2 -> pair_ok st g g2 -> st_le st st' (g_h g2) /\ pair_ok st' g' g2).

(** A client that claims nothing. *)
Lemma client_none st cl' g ex : client_ok cl' (mkGhost ex ∅ SNone) -> client_result st st cl' g (mkGhost ex ∅ SNone).
Proof.
  intros Hcl. split_and!; [done|by split_and!|]. intros g2 fr2 O2 _. split; [apply st_le_refl|]. split; [set_solver|]. done.
Qed.

Lemma client_same st cl' g : own_ok st (c_fresh cl') g -> client_ok cl' g -> client_result st st cl' g g.
Proof. intros Ho Hcl. split_and!; [done|done|]. intros. split; [apply st_le_refl|done]. Qed.

Lemma client_prog {A} st st' p p' new fr g I (post : gset ID -> status -> A -> Prop) cl' :
  pstep st p st' p' new -> own_ok st fr g -> safe (g_ex g) I (g_h g) (g_s g) p post ->
  (forall g', g_ex g' = g_ex g -> safe (g_ex g) I (g_h g') (g_s g') p' post -> client_ok cl' g') -> c_fresh cl' = new ∪ fr ->
  exists g', client_result st st' cl' g g'.
Proof.
  intros Hp Ho Hs Hcl Hfr. destruct (prog_step _ _ _ _ _ _ _ _ _ Hp Ho Hs) as (g' & Hs' & He & Ho' & Hg). exists g'.
  split_and!; [apply Hcl; [done|by rewrite <- He]|by rewrite Hfr|done].
Qed.

Lemma client_suspend st fr g f l :
  own_ok st fr g -> l_Exclusive l = g_ex g -> l_lockID l = Some f -> f ∈ g_h g -> g_s g = SOld f None \/ g_s g = SIn f ∅ ->
  client_result st st (mkClient (Suspended l) ∅) g (mkGhost (g_ex g) (g_h g) (SOld f None)).
Proof.
  intros Ho Hex Hl Hf Hs.
  assert (own_ok st ∅ (mkGhost (g_ex g) (g_h g) (SOld f None))) as Ho'.
  { destruct Ho as (H1 & _). split_and!; [done|done|]. by intros ? ? [= <- _]. }
  destruct (step_weaken st fr ∅ g (SOld f None)) as (_ & _ & Hg); [done|done|by destruct Hs as [->| ->]|by destruct Hs as [->| ->]|].
  split_and!; [|done|done]. exists f. by split_and!.
Qed.

Lemma client_step st cl st' cl' g :
  cstep st cl st' cl' -> own_ok st (c_fresh cl) g -> client_ok cl g -> exists g', client_result st st' cl' g g'.
Proof.
  intros Hstep Ho Hcl. destruct Hstep; cbn [c_fresh] in Ho; unfold client_ok in Hcl; cbn [c_state] in Hcl.
  - exists (mkGhost excl ∅ SNone). apply client_none, newLock_safe.
  - eapply client_prog; [done..| |done]. intros g' He Hs. unfold client_ok. cbn. by rewrite He.
  - exists g. apply client_same; [done|]. apply Hcl.
  - exists (mkGhost true ∅ SNone). by apply client_none.
  - exists g. apply client_same; [done|]. destruct Hcl as [He Hh]. split; [done|]. cbn. rewrite <- He. apply Refresh_safe. by split.
  - destruct Hcl as [He Hs]. eapply client_prog; [done..| |done]. intros g' He' Hs'. unfold client_ok. cbn. by rewrite He'.
  - exists g. apply client_same; [done|]. apply Hcl.
  - destruct Hcl as (He & f & Hl & Hf & Hs). eexists. apply (client_suspend st fr g f l Ho He Hl Hf). by right.
  - destruct Hcl as (f & He & Hl & Hf & Hs). exists g. apply client_same; [done|]. cbn. rewrite <- He. by eapply RefreshStaleLock_safe.
  - eapply client_prog; [done..| |done]. intros g' He Hs. unfold client_ok. cbn. by rewrite He.
  - exists g. apply client_same; [done|]. apply Hcl.
  - destruct Hcl as (_ & He & f & Hl & Hf & Hs). cbn in *. eexists. by eapply client_suspend.
  - destruct Hcl as (He & f & Hl & Hf & Hs). exists g. apply client_same; [done|]. apply Unlock_safe. by intros f' [= <-]%(eq_trans (eq_sym Hl)).
  - destruct Hcl as (f & He & Hl & Hf & Hs). exists g. apply client_same; [done|]. apply Unlock_safe. by intros f' [= <-]%(eq_trans (eq_sym Hl)).
  - eapply client_prog; [done..| |done]. intros g' He Hs. unfold client_ok. cbn. by rewrite He.
  - exists (mkGhost true ∅ SNone). by apply client_none.
  - exists (mkGhost true ∅ SNone). by apply client_none.
Qed.

Definition world_ok (w : world) : Prop :=
  exists G : nat -> ghost,
    (forall c cl, w_clients w !! c = Some cl -> own_ok (w_store w) (c_fresh cl) (G c) /\ client_ok cl (G c)) /\
    (forall c1 c2 cl1 cl2, c1 <> c2 -> w_clients w !! c1 = Some cl1 -> w_clients w !! c2 = Some cl2 -> pair_ok (w_store w) (G c1) (G c2)).

Lemma world_init w : w_init w -> world_ok w.
Proof.
  intros [_ Hi]. exists (fun _ => mkGhost true ∅ SNone). split.
  - intros c cl Hc. rewrite (Hi _ _ Hc). by split_and!.
  - intros c1 c2 cl1 cl2 _ _ _. split; [set_solver|]. done.
Qed.

Lemma stale_ok st id fr g :
  id ∉ fr -> own_ok st fr g -> own_ok (del_file st id) fr g.
Proof.
  intros Hid (H1 & H2 & H3). split_and!; [|intros f Hf; destruct (H2 f Hf) as (? & ? & ?); split_and!; [done| |done]; cbn; set_solver|done].
  intros x Hx. destruct (H1 x Hx) as [? ?]. split; [cbn; set_solver|done].
Qed.

Lemma world_step w w' : wstep w w' -> world_ok w -> world_ok w'.
Proof.
  intros Hstep (G & H1 & H2). destruct Hstep as [st cs c cl st' cl' Hc Hstep|st cs id Hid]; cbn in *.
  - destruct (H1 c cl Hc) as [Ho Hcl]. destruct (client_step _ _ _ _ _ Hstep Ho Hcl) as (g' & Hcl' & Ho' & Hg).
    exists (fun c' => if decide (c' = c) then g' else G c'). cbn.
    assert (forall c2 cl2, c2 <> c -> <[c := cl']> cs !! c2 = Some cl2 ->
      own_ok st (c_fresh cl2) (G c2) /\ client_ok cl2 (G c2) /\ st_le st st' (g_h (G c2)) /\ pair_ok st' g' (G c2)) as Hother.
    { intros c2 cl2 Hne Hc2. rewrite lookup_insert_ne in Hc2 by done. destruct (H1 _ _ Hc2) as [O2 ?].
      destruct (Hg (G c2) (c_fresh cl2) O2) as [? ?]; [by eapply H2|]. done. }
    split.
    + intros c2 cl2 Hc2. case_decide as Hd; [subst; rewrite lookup_insert_eq in Hc2; by simplify_eq|].
      destruct (Hother c2 cl2 Hd Hc2) as (? & ? & ? & _). split; [by eapply own_ok_le|done].
    + intros c1 c2 cl1 cl2 Hne Hc1 Hc2. case_decide as Hd1; case_decide as Hd2; subst; [done|by eapply Hother|apply pair_ok_sym; by eapply Hother|].
      destruct (Hother c1 cl1 Hd1 Hc1) as (O1 & _ & L1 & _). destruct (Hother c2 cl2 Hd2 Hc2) as (O2 & _ & L2 & _).
      rewrite lookup_insert_ne in Hc1, Hc2 by done. eapply pair_ok_le; [exact L1|exact L2|done|done|]. by eapply H2.
  - exists G. cbn. split.
    + intros c cl Hc. destruct (H1 _ _ Hc) as [Ho ?]. split; [|done]. apply stale_ok; [by eapply Hid|done].
    + intros c1 c2 cl1 cl2 Hne Hc1 Hc2. destruct (H2 _ _ _ _ Hne Hc1 Hc2) as [Hd Hp]. split; [done|]. intros Hc P1 P2.
      apply Hp; [done|..].
      * destruct (g_s (G c1)); cbn in *; set_solver.
      * destruct (g_s (G c2)); cbn in *; set_solver.
Qed.

Lemma reachable_ok w : reachable w -> world_ok w.
Proof.
  intros (w0 & Hi & Hr). apply world_init in Hi. induction Hr as [w|w1 w2 w3 Hs _ IH]; [done|]. apply IH. by eapply world_step.
Qed.

(** A client that holds a lock takes part with nothing left to look at. *)
Lemma holds_ok w c l G :
  (forall c cl, w_clients w !! c = Some cl -> own_ok (w_store w) (c_fresh cl) (G c) /\ client_ok cl (G c)) ->
  holds w c l -> g_ex (G c) = l_Exclusive l /\ exists f, g_s (G c) = SIn f ∅.
Proof.
  intros H1 (fr & [Hc|[p Hc]]); destruct (H1 _ _ Hc) as [_ Hcl].
  - destruct Hcl as (He & f & _ & _ & Hs). split; [done|]. by exists f.
  - destruct Hcl as [He Hs]. split; [done|]. apply safe_status in Hs. done.
Qed.

(** C1. Mutual exclusion: in any interleaving of clients that take, refresh, lose,
    recover and release locks, with operations that fail and with stale locks
    removed at any time, no client holds an exclusive lock while another one
    holds a lock. *)
Theorem locks_exclude (w : world) (c1 c2 : nat) (l1 l2 : Lock)
    (Hw : reachable w) (Hc : c1 <> c2) (H1 : holds w c1 l1) (H2 : holds w c2 l2) :
  l_Exclusive l1 = false /\ l_Exclusive l2 = false.
Proof.
  destruct (reachable_ok w Hw) as (G & HG & HP). destruct (holds_ok _ _ _ _ HG H1) as (E1 & f1 & S1). destruct (holds_ok _ _ _ _ HG H2) as (E2 & f2 & S2).
  assert (exists cl1 cl2, w_clients w !! c1 = Some cl1 /\ w_clients w !! c2 = Some cl2) as (cl1 & cl2 & Hc1 & Hc2).
  { destruct H1 as (? & [?|[? ?]]), H2 as (? & [?|[? ?]]); eauto. }
  destruct (HP c1 c2 cl1 cl2 Hc Hc1 Hc2) as [_ Hp]. apply orb_false_iff. rewrite <- E1, <- E2. apply not_true_is_false. intros Hcf.
  rewrite S1, S2 in Hp. destruct (Hp Hcf I I) as [(x & Hx & _)|(x & Hx & _)]; cbn in Hx; set_solver.
Qed.

(** ** A run with two clients *)

Definition ex_process : process := mkProcess 1 (Done "host") (Failed nil_pointer).
Definition ex_lock_id (n : Z) : ID := copy_id [byte_of_Z n].
Definition ex_lock (n : Z) : Lock := mkLock time_zero false "host" "" 1 0 0 (Some (ex_lock_id n)).
Definition ex_store (ns : list Z) : store :=
  foldr (fun n st => add_lock st (ex_lock_id n) (set_lockID (ex_lock n) None)) (mkStore ∅ ∅ ∅) ns.
Definition ex_files (ns : list Z) : list (ID * Z) := (fun n => (ex_lock_id n, 1)) <$> ns.

Lemma ex_listing ns : listing (ex_store ns) (ex_files ns).
Proof.
  split.
  - intros id. induction ns as [|n ns IH]; cbn; [set_solver|]. rewrite elem_of_cons, IH. cbn. set_solver.
  - intros id size Hin _. apply list_elem_of_fmap in Hin as (n & [= -> ->] & _). done.
Qed.

Lemma run_client st cs c cl st' cl' w :
  cs !! c = Some cl -> cstep st cl st' cl' -> rtc wstep (mkWorld st' (<[c := cl']> cs)) w -> rtc wstep (mkWorld st cs) w.
Proof. intros Hc Hs. apply rtc_l. by eapply w_client. Qed.

(** The steps of a client that takes a lock while the locks [ns] are there. *)
Inductive lock_run : store -> prog (result Lock) -> gset ID -> store -> Lock -> gset ID -> Prop :=
  | lr_done st l fr : lock_run st (Ret (Done l)) fr st l fr
  | lr_step st p new st1 p1 fr st2 l fr' :
      pstep st p st1 p1 new -> lock_run st1 p1 (new ∪ fr) st2 l fr' -> lock_run st p fr st2 l fr'.

Lemma run_locking st p fr st' l fr' cs c w :
  lock_run st p fr st' l fr' -> cs !! c = Some (mkClient (Locking p) fr) ->
  rtc wstep (mkWorld st' (<[c := mkClient (Holding l) fr']> cs)) w -> rtc wstep (mkWorld st cs) w.
Proof.
  intros Hr. revert cs. induction Hr as [st l fr|st p new st1 p1 fr st2 l fr' Hp Hr IH]; intros cs Hc Hw.
  - eapply run_client; [done|constructor|done].
  - eapply run_client; [done|by constructor|]. apply IH; [apply lookup_insert_eq|]. by rewrite insert_insert_eq.
Qed.

Lemma ex_run_0 : lock_run (ex_store []) (newLock ex_process false) ∅ (ex_store [1]) (ex_lock 1) ({[ex_lock_id 1]} ∪ ∅).
Proof.
  eapply lr_step; [apply (step_now _ _ time_zero)|]. eapply lr_step; [apply (step_list _ _ (ex_files []) (ex_listing []))|].
  eapply lr_step; [apply (step_save _ _ _ (ex_lock_id 1)); split_and!; [done|set_solver|set_solver]|].
  eapply lr_step; [apply (step_list _ _ (ex_files [1]) (ex_listing [1]))|].
  match goal with |- lock_run _ ?p _ _ _ _ => replace p with (Ret (Done (ex_lock 1))) by (vm_compute; reflexivity) end.
  rewrite !(left_id_L ∅ union). constructor.
Qed.

Lemma ex_run_1 : lock_run (ex_store [1]) (newLock ex_process false) ∅ (ex_store [2; 1]) (ex_lock 2) ({[ex_lock_id 2]} ∪ ∅).
Proof.
  assert (ex_lock_id 2 <> ex_lock_id 1) as Hne by (intros E; apply (f_equal (fun v => hd_error (id_bytes v))) in E; vm_compute in E; discriminate E).
  assert (forall ns, ex_lock_id 1 ∈ st_files (ex_store (ns ++ [1]))) as Hin by (intros ns; induction ns; cbn; set_solver).
  eapply lr_step; [apply (step_now _ _ time_zero)|]. eapply lr_step; [apply (step_list _ _ (ex_files [1]) (ex_listing [1]))|].
  eapply lr_step; [apply (step_load _ _ (ex_lock_id 1) (set_lockID (ex_lock 1) None)); [apply (Hin [])|apply lookup_insert_eq]|].
  eapply lr_step; [apply (step_save _ _ _ (ex_lock_id 2)); split_and!; cbn; [by rewrite lookup_insert_ne|set_solver|set_solver]|].
  eapply lr_step; [apply (step_list _ _ (ex_files [2; 1]) (ex_listing [2; 1]))|].
  eapply lr_step; [apply (step_load _ _ (ex_lock_id 1) (set_lockID (ex_lock 1) None)); [apply (Hin [2])|]|].
  { cbn. rewrite lookup_insert_ne by done. apply lookup_insert_eq. }
  match goal with |- lock_run _ ?p _ _ _ _ => replace p with (Ret (Done (ex_lock 2))) by (vm_compute; reflexivity) end.
  rewrite !(left_id_L ∅ union). constructor.
Qed.

Definition ex_clients (s0 s1 : client) : gmap nat client := <[0%nat := s0]> (<[1%nat := s1]> ∅).
Definition ex_idle : client := mkClient Idle ∅.
Definition ex_holding (n : Z) : client := mkClient (Holding (ex_lock n)) ({[ex_lock_id n]} ∪ ∅).

Lemma ex_reachable : reachable (mkWorld (ex_store [2; 1]) (ex_clients (ex_holding 1) (ex_holding 2))).
Proof.
  exists (mkWorld (ex_store []) (ex_clients ex_idle ex_idle)). split.
  - split; cbn; [set_solver|]. intros c cl Hc. unfold ex_clients in Hc.
    apply lookup_insert_Some in Hc as [[_ <-]|[_ Hc]]; [done|]. by apply lookup_insert_Some in Hc as [[_ <-]|[_ Hc]].
  - eapply (run_client _ _ 0%nat); [apply lookup_insert_eq|apply (c_lock _ _ ex_process false)|].
    unfold ex_clients. rewrite insert_insert_eq.
    eapply run_locking; [apply ex_run_0|apply lookup_insert_eq|]. rewrite insert_insert_eq.
    eapply (run_client _ _ 1%nat); [rewrite lookup_insert_ne by done; apply lookup_insert_eq|apply (c_lock _ _ ex_process false)|].
    eapply run_locking; [apply ex_run_1|apply lookup_insert_eq|]. rewrite insert_insert_eq, insert_insert_ne, insert_insert_eq by done.
    apply rtc_refl.
Qed.

Lemma locks_exclude_witness : l_Exclusive (ex_lock 1) = false /\ l_Exclusive (ex_lock 2) = false.
Proof.
  apply (locks_exclude (mkWorld (ex_store [2; 1]) (ex_clients (ex_holding 1) (ex_holding 2))) 0%nat 1%nat).
  - exact ex_reachable.
  - discriminate.
  - eexists. left. apply lookup_insert_eq.
  - eexists. left. reflexivity.
Defined.
