(* ===== verification/Tree.v ===== *)
(** Nodes and trees (src/restic/tree.go and the data of src/restic/node.go).

    The JSON of a node and of a tree are parameters, as [encoding/json] is; the
    functions that load and save a tree take the repository's operations. *)

From S2P Require Import Prelude Bytes GoString Restic GoTime Snapshot.

#[local] Open Scope Z_scope.

(** * Nodes *)

Record ExtendedAttribute := mkXattr { xa_Name : string; xa_Value : list byte }.

Record Node := mkNode {
  n_Name : string;
  n_Type : string;
  n_Mode : Z;
  n_ModTime : Time;
  n_AccessTime : Time;
  n_ChangeTime : Time;
  n_UID : Z;
  n_GID : Z;
  n_User : string;
  n_Group : string;
  n_Inode : Z;
  n_DeviceID : Z;
  n_Size : Z;
  n_Links : Z;
  n_LinkTarget : string;
  n_ExtendedAttributes : list ExtendedAttribute;
  n_Device : Z;
  n_Content : option (list ID);
  n_Subtree : option ID;
  n_Error : string;
  n_Path : string }.

Definition set_Subtree (n : Node) (id : option ID) : Node :=
  mkNode (n_Name n) (n_Type n) (n_Mode n) (n_ModTime n) (n_AccessTime n) (n_ChangeTime n) (n_UID n) (n_GID n) (n_User n) (n_Group n)
    (n_Inode n) (n_DeviceID n) (n_Size n) (n_Links n) (n_LinkTarget n) (n_ExtendedAttributes n) (n_Device n) (n_Content n) id
    (n_Error n) (n_Path n).
Definition set_times (n : Node) (m a c : Time) : Node :=
  mkNode (n_Name n) (n_Type n) (n_Mode n) m a c (n_UID n) (n_GID n) (n_User n) (n_Group n)
    (n_Inode n) (n_DeviceID n) (n_Size n) (n_Links n) (n_LinkTarget n) (n_ExtendedAttributes n) (n_Device n) (n_Content n) (n_Subtree n)
    (n_Error n) (n_Path n).

#[export] Instance Xattr_eq_dec : EqDecision ExtendedAttribute.
Proof. solve_decision. Defined.
#[export] Instance Node_eq_dec : EqDecision Node.
Proof. solve_decision. Defined.

Definition GetExtendedAttribute (node : Node) (a : string) : list byte :=
  match List.find (fun attr => String.eqb (xa_Name attr) a) (n_ExtendedAttributes node) with
  | Some attr => xa_Value attr
  | None => []
  end.

(** [os.FileMode]: the bits of the type, and [nodeTypeFromFileInfo]. *)
Definition ModeDir : Z := 2 ^ 31.
Definition ModeSymlink : Z := 2 ^ 27.
Definition ModeDevice : Z := 2 ^ 26.
Definition ModeNamedPipe : Z := 2 ^ 25.
Definition ModeSocket : Z := 2 ^ 24.
Definition ModeCharDevice : Z := 2 ^ 21.
Definition ModeIrregular : Z := 2 ^ 19.
Definition ModeType : Z := ModeDir + ModeSymlink + ModeNamedPipe + ModeSocket + ModeDevice + ModeCharDevice + ModeIrregular.

Definition nodeTypeFromFileInfo (mode : Z) : string :=
  let m := Z.land mode (Z.lor ModeType ModeCharDevice) in
  if m =? 0 then "file"
  else if m =? ModeDir then "dir"
  else if m =? ModeSymlink then "symlink"
  else if m =? ModeDevice + ModeCharDevice then "chardev"
  else if m =? ModeDevice then "dev"
  else if m =? ModeNamedPipe then "fifo"
  else if m =? ModeSocket then "socket"
  else "".

Definition FixTime (t : Time) : Time :=
  if Year t <? 0 then AddDate t (- Year t) 0 0
  else if 9999 <? Year t then AddDate t (- (Year t - 9999)) 0 0
  else t.

(** [MarshalJSON]: what it hands to [json.Marshal] besides the quoted name and
    the link target, which are encoded there. *)
Definition marshal_node (node : Node) : Node :=
  set_times node (FixTime (n_ModTime node)) (FixTime (n_AccessTime node)) (FixTime (n_ChangeTime node)).

Definition time_Equal (t u : Time) : bool := t_ns t =? t_ns u.

Definition sameContent (node other : Node) : bool :=
  match n_Content node, n_Content other with
  | None, None => true
  | None, Some _ | Some _, None => false
  | Some c, Some c' =>
      Nat.eqb (length c) (length c') && forallb (fun p => bool_decide (p.1 = p.2)) (combine c c')
  end.

Definition attribute_map (l : list ExtendedAttribute) : gmap string (list byte * bool) :=
  fold_left (fun m attr => <[xa_Name attr := (xa_Value attr, false)]> m) l ∅.
Fixpoint mark_attributes (attributes : gmap string (list byte * bool)) (l : list ExtendedAttribute)
    : option (gmap string (list byte * bool)) :=
  match l with
  | [] => Some attributes
  | attr :: l =>
      match attributes !! xa_Name attr with
      | None => None
      | Some (value, present) =>
          if bool_decide (value = xa_Value attr) then mark_attributes (<[xa_Name attr := (value, true)]> attributes) l else None
      end
  end.
Definition sameExtendedAttributes (node other : Node) : bool :=
  if negb (Nat.eqb (length (n_ExtendedAttributes node)) (length (n_ExtendedAttributes other))) then false
  else
    match mark_attributes (attribute_map (n_ExtendedAttributes node)) (n_ExtendedAttributes other) with
    | None => false
    | Some attributes => forallb (fun kv => kv.2.2) (map_to_list attributes)
    end.

Definition Node_Equals (node other : Node) : bool :=
  String.eqb (n_Name node) (n_Name other) && String.eqb (n_Type node) (n_Type other) && (n_Mode node =? n_Mode other)
  && time_Equal (n_ModTime node) (n_ModTime other) && time_Equal (n_AccessTime node) (n_AccessTime other)
  && time_Equal (n_ChangeTime node) (n_ChangeTime other) && (n_UID node =? n_UID other) && (n_GID node =? n_GID other)
  && String.eqb (n_User node) (n_User other) && String.eqb (n_Group node) (n_Group other) && (n_Inode node =? n_Inode other)
  && (n_DeviceID node =? n_DeviceID other) && (n_Size node =? n_Size other) && (n_Links node =? n_Links other)
  && String.eqb (n_LinkTarget node) (n_LinkTarget other) && (n_Device node =? n_Device other) && sameContent node other
  && sameExtendedAttributes node other && bool_decide (n_Subtree node = n_Subtree other) && String.eqb (n_Error node) (n_Error other).

(** * Trees *)

Abbreviation Tree := (list Node).

Definition Tree_Equals (t other : Tree) : bool :=
  Nat.eqb (length t) (length other) && forallb (fun p => Node_Equals p.1 p.2) (combine t other).

(** [sort.Search]: the binary search of a boundary in [0, n); the fuel is [n]. *)
Fixpoint search_loop (f : nat -> bool) (fuel i j : nat) : nat :=
  match fuel with
  | O => i
  | S fuel =>
      if (i <? j)%nat then
        let h := ((i + j) / 2)%nat in
        if negb (f h) then search_loop f fuel (h + 1)%nat j else search_loop f fuel i h
      else i
  end.
Definition sort_Search (n : nat) (f : nat -> bool) : nat := search_loop f n 0 n.

Definition name_at (t : Tree) (i : nat) : string := from_option n_Name "" (t !! i).
Definition find (t : Tree) (name : string) : nat * option Node :=
  let pos := sort_Search (length t) (fun i => negb (string_less (name_at t i) name)) in
  match t !! pos with
  | Some node => if String.eqb (n_Name node) name then (pos, Some node) else (pos, None)
  | None => (pos, None)
  end.

(** [Insert]: [append(t.Nodes, nil)], the copy to the right, and the store. *)
Definition Tree_Insert (t : Tree) (node : Node) : outcome Tree :=
  let '(pos, found) := find t (n_Name node) in
  match found with
  | Some _ => Err (ErrMsg "node %q already present")
  | None => Ok (take pos t ++ node :: drop pos t)
  end.

Definition Tree_Find (t : option Tree) (name : string) : option Node :=
  match t with None => None | Some t => (find t name).2 end.

Definition node_less (a b : Node) : bool := string_less (n_Name a) (n_Name b).
Definition Tree_Sort (t : Tree) : Tree := go_sort node_less t.

Definition Subtrees (t : Tree) : list ID :=
  concat ((fun node => if String.eqb (n_Type node) "dir" then match n_Subtree node with Some id => [id] | None => [] end else []) <$> t).

(** ** Loading and saving *)

Section LoadSave.
Context {St : Type} (LoadBlob : ID -> outcome (list byte)) (json_Unmarshal : list byte -> outcome Tree)
  (json_Marshal : Tree -> outcome (list byte)) (SaveBlob : St -> list byte -> outcome (St * ID)).

Definition newline : byte := byte_of_Z 10.

Definition LoadTree (id : ID) : outcome Tree := try buf <- LoadBlob id; json_Unmarshal buf.
Definition SaveTree (s : St) (t : Tree) : outcome (St * ID) :=
  try buf <- wrap_err "MarshalJSON" (json_Marshal t);
  SaveBlob s (buf ++ [newline]).

(** [FindTreeDirectory] below the components of the path. *)
Fixpoint find_dir (id : ID) (subfolder : string) (dirs : list string) : outcome ID :=
  match dirs with
  | [] => Ok id
  | name :: dirs =>
      if String.eqb name "" || String.eqb name "." then find_dir id subfolder dirs
      else
        let subfolder := path_Join [subfolder; name] in
        try tree <- wrap_err "path %s: %w" (LoadTree id);
        match Tree_Find (Some tree) name with
        | None => Err (ErrMsg "path %s: not found")
        | Some node =>
            match n_Subtree node with
            | Some sub => if negb (String.eqb (n_Type node) "dir") then Err (ErrMsg "path %s: not a directory") else find_dir sub subfolder dirs
            | None => Err (ErrMsg "path %s: not a directory")
            end
        end
  end.
Definition FindTreeDirectory (id : option ID) (dir : string) : outcome ID :=
  match id with
  | None => Err (ErrMsg "tree id is null")
  | Some id => find_dir id "" (split_on slash (path_Clean dir))
  end.
End LoadSave.

(** ** The JSON builder *)

Definition ErrTreeNotOrdered : error := ErrMsg "nodes are not ordered or duplicate".

Record TreeJSONBuilder := mkBuilder { tb_buf : list byte; tb_lastName : string }.

Definition string_bytes (s : string) : list byte := String.list_byte_of_string s.
Definition json_open : list byte := string_bytes "{" ++ [byte_of_Z 34] ++ string_bytes "nodes" ++ [byte_of_Z 34] ++ string_bytes ":[".
Definition json_close : list byte := string_bytes "]}".

Definition NewTreeJSONBuilder : TreeJSONBuilder := mkBuilder json_open "".

Section Builder.
Context (marshal : Node -> outcome (list byte)).

(** [AddNode]: the builder afterwards, and the error. *)
Definition AddNode (b : TreeJSONBuilder) (node : Node) : TreeJSONBuilder * outcome unit :=
  if negb (string_less (tb_lastName b) (n_Name node)) then (b, Err (ErrWrap ErrTreeNotOrdered "node %q, last%q: %w"))
  else
    let buf := if String.eqb (tb_lastName b) "" then tb_buf b else tb_buf b ++ string_bytes "," in
    match marshal node with
    | Err e => (mkBuilder buf (n_Name node), Err e)
    | Panic p => (mkBuilder buf (n_Name node), Panic p)
    | Ok val => (mkBuilder (buf ++ val) (n_Name node), Ok tt)
    end.
Definition Builder_Finalize (b : TreeJSONBuilder) : TreeJSONBuilder * outcome (list byte) :=
  (mkBuilder [] (tb_lastName b), Ok (tb_buf b ++ json_close ++ [newline])).

(** A tree built node by node. *)
Definition add_nodes (t : Tree) : outcome TreeJSONBuilder :=
  ofold (fun b node => let '(b, r) := AddNode b node in try _ <- r; Ok b) NewTreeJSONBuilder t.
End Builder.

(** * Correctness *)

(** ** The order of names *)

Lemma ascii_compare_lt a b : Ascii.compare a b = Lt <-> (Ascii.N_of_ascii a < Ascii.N_of_ascii b)%N.
Proof. unfold Ascii.compare. apply N.compare_lt_iff. Qed.
Lemma ascii_compare_eq a b : Ascii.compare a b = Eq <-> a = b.
Proof.
  unfold Ascii.compare. rewrite N.compare_eq_iff. split; [|by intros ->].
  intros E. rewrite <- (Ascii.ascii_N_embedding a), E. apply Ascii.ascii_N_embedding.
Qed.

Lemma string_compare_lt s t : String.compare s t = Lt <-> string_less s t = true.
Proof. unfold string_less, String.ltb. destruct (String.compare s t); naive_solver. Qed.

Lemma string_compare_trans s t u : String.compare s t = Lt -> String.compare t u = Lt -> String.compare s u = Lt.
Proof.
  revert t u; induction s as [|a s IH]; intros [|b t] [|c u]; cbn; try done.
  destruct (Ascii.compare a b) eqn:E1; try done; destruct (Ascii.compare b c) eqn:E2; try done.
  - apply ascii_compare_eq in E1, E2. subst. assert (Ascii.compare c c = Eq) as -> by by apply ascii_compare_eq. apply IH.
  - apply ascii_compare_eq in E1. subst. by rewrite E2.
  - apply ascii_compare_eq in E2. subst. by rewrite E1.
  - assert (Ascii.compare a c = Lt) as ->; [|done]. apply ascii_compare_lt in E1. apply ascii_compare_lt in E2.
    apply ascii_compare_lt. by eapply N.lt_trans.
Qed.

#[export] Instance string_less_order : StrictTotal string_less.
Proof.
  split.
  - intros s. apply not_true_is_false. rewrite <- string_compare_lt. intros E.
    pose proof (String.compare_antisym s s) as Ha. rewrite E in Ha. done.
  - intros s t u. rewrite <- !string_compare_lt. apply string_compare_trans.
  - intros s t. rewrite <- !string_compare_lt. destruct (String.compare s t) eqn:E; [right; left; by apply String.compare_eq_iff|by left|].
    right; right. rewrite String.compare_antisym, E. done.
Qed.

(** ** Binary search *)

Lemma search_loop_spec (f : nat -> bool) fuel i j :
  (j - i <= fuel)%nat -> (i <= j)%nat -> (forall a b, (a <= b)%nat -> (b < j)%nat -> f a = true -> f b = true) ->
  let r := search_loop f fuel i j in
  (i <= r <= j)%nat /\ (forall a, (i <= a < r)%nat -> f a = false) /\ (forall a, (r <= a < j)%nat -> f a = true).
Proof.
  revert i j; induction fuel as [|fuel IH]; intros i j Hf Hij Hmono; cbn [search_loop]; [split_and!; intros; lia|].
  destruct (Nat.ltb_spec i j); [|split_and!; intros; lia].
  set (h := ((i + j) / 2)%nat). assert (i <= h < j)%nat as Hh by (unfold h; pose proof (Nat.div_mod_eq (i + j) 2); pose proof (Nat.mod_upper_bound (i + j) 2); lia).
  destruct (f h) eqn:Eh; cbn [negb].
  - destruct (IH i h) as (H1 & H2 & H3); [lia|lia|intros; eapply Hmono; [..|done]; lia|]. split_and!; [lia|lia|done|].
    intros a Ha. destruct (decide (a < h)%nat); [apply H3; lia|]. apply (Hmono h); [lia|lia|done].
  - destruct (IH (h + 1)%nat j) as (H1 & H2 & H3); [lia|lia|done|]. split_and!; [lia|lia| |done].
    intros a Ha. destruct (decide (h < a)%nat); [apply H2; lia|]. apply not_true_is_false. intros Ea.
    rewrite (Hmono a h) in Eh; [done|lia|lia|done].
Qed.

Lemma sort_Search_spec (f : nat -> bool) n :
  (forall a b, (a <= b)%nat -> (b < n)%nat -> f a = true -> f b = true) ->
  let r := sort_Search n f in
  (r <= n)%nat /\ (forall a, (a < r)%nat -> f a = false) /\ (forall a, (r <= a < n)%nat -> f a = true).
Proof.
  intros Hm. destruct (search_loop_spec f n 0 n) as (H1 & H2 & H3); [lia|lia|done|]. unfold sort_Search. split_and!; [lia| |done].
  intros a Ha. apply H2. lia.
Qed.

(** ** Sorted trees *)

Definition sorted (t : Tree) : Prop := StronglySorted (fun a b => node_less a b = true) t.

Lemma sorted_lookup t i j a b : sorted t -> (i < j)%nat -> t !! i = Some a -> t !! j = Some b -> node_less a b = true.
Proof.
  intros Hs. revert i j. induction Hs as [|x t Hs IH Hx]; intros i j Hij Hi Hj; [done|]. destruct j as [|j]; [lia|].
  destruct i as [|i]; cbn in *; [|apply (IH i j); [lia|done|done]]. simplify_eq. rewrite Forall_forall in Hx. apply Hx.
  by eapply list_elem_of_lookup_2.
Qed.

Lemma less_irrefl s : string_less s s = false.
Proof. apply st_irrefl. Qed.

(** The result of a search in a sorted tree splits it at the name. *)
Lemma find_spec t name :
  sorted t -> exists t1 t2, t = t1 ++ t2 /\ (find t name).1 = length t1 /\
    Forall (fun n => string_less (n_Name n) name = true) t1 /\
    match (find t name).2 with
    | Some node => exists t3, t2 = node :: t3 /\ n_Name node = name
    | None => Forall (fun n => string_less name (n_Name n) = true) t2
    end.
Proof.
  intros Hs. unfold find. set (f := fun i => negb (string_less (name_at t i) name)).
  assert (forall i n, t !! i = Some n -> name_at t i = n_Name n) as Hname by (intros i n E; unfold name_at; by rewrite E).
  destruct (sort_Search_spec f (length t)) as (H1 & H2 & H3).
  { intros a b Hab Hb. unfold f. rewrite !negb_true_iff. destruct (decide (a = b)) as [->|Hne]; [done|].
    destruct (lookup_lt_is_Some_2 t a) as [na Ha]; [lia|]. destruct (lookup_lt_is_Some_2 t b) as [nb Hb']; [lia|].
    rewrite (Hname _ _ Ha), (Hname _ _ Hb'). intros Hna. apply not_true_is_false. intros Hnb.
    pose proof (sorted_lookup t a b na nb Hs ltac:(lia) Ha Hb') as Hl. assert (string_less (n_Name na) name = true) by (by eapply st_trans). congruence. }
  set (pos := sort_Search (length t) f) in *. exists (take pos t), (drop pos t).
  assert (Forall (fun n => string_less (n_Name n) name = true) (take pos t)) as Hlt.
  { apply Forall_lookup. intros i n [Hi Hip]%lookup_take_Some. specialize (H2 i Hip). unfold f in H2. rewrite (Hname _ _ Hi) in H2.
    by apply negb_false_iff in H2. }
  assert (Forall (fun n => string_less (n_Name n) name = false) (drop pos t)) as Hge.
  { apply Forall_lookup. intros i n Hi. rewrite lookup_drop in Hi. apply lookup_lt_Some in Hi as Hl.
    specialize (H3 (pos + i)%nat ltac:(lia)). unfold f in H3. rewrite (Hname _ _ Hi) in H3. by apply negb_true_iff in H3. }
  assert (forall n, t !! pos = Some n -> n_Name n <> name -> Forall (fun n => string_less name (n_Name n) = true) (drop pos t)) as Hgt.
  { intros n Hn Hne. apply Forall_lookup. intros i m Hi. rewrite lookup_drop in Hi.
    assert (string_less name (n_Name n) = true) as Hnn.
    { rewrite Forall_lookup in Hge. specialize (Hge 0%nat n). rewrite lookup_drop, Nat.add_0_r in Hge. specialize (Hge Hn).
      destruct (st_total (ltb:=string_less) (n_Name n) name) as [?|[?|?]]; [congruence|done|done]. }
    destruct i as [|i]; [rewrite Nat.add_0_r in Hi; by assert (m = n) as -> by congruence|]. eapply st_trans; [exact Hnn|].
    apply (sorted_lookup t pos (pos + S i)); [done|lia|done|done]. }
  assert (length (take pos t) = pos) as Hlen by (rewrite length_take; lia). rewrite Hlen, take_drop.
  destruct (t !! pos) as [node|] eqn:Ep.
  - destruct (String.eqb_spec (n_Name node) name) as [E|E]; cbn [fst snd]; (split_and!; [done..|]).
    + exists (drop (S pos) t). split; [|done]. by apply drop_S.
    + by apply (Hgt node).
  - cbn [fst snd]. split_and!; [done..|]. rewrite drop_ge by (by apply lookup_ge_None). constructor.
Qed.

Lemma sorted_app t1 t2 : sorted t1 -> sorted t2 -> (forall a b, a ∈ t1 -> b ∈ t2 -> node_less a b = true) -> sorted (t1 ++ t2).
Proof.
  intros H1 H2 H. induction H1 as [|x t1 H1 IH Hx]; [done|]. cbn. constructor.
  - apply IH. intros a b Ha Hb. apply H; [by right|done].
  - apply Forall_app. split; [done|]. apply Forall_forall. intros b Hb. apply H; [by left|done].
Qed.

Lemma sorted_app_inv t1 t2 : sorted (t1 ++ t2) -> sorted t1 /\ sorted t2.
Proof.
  induction t1 as [|x t1 IH]; cbn; intros Hs; [split; [constructor|done]|]. apply StronglySorted_inv in Hs as [Hs Hx].
  destruct (IH Hs) as [H1 H2]. split; [|done]. constructor; [done|]. by apply Forall_app in Hx as [? _].
Qed.

(** In a sorted tree there is one node of a name, and the search finds it. *)
Lemma find_In t name : sorted t -> forall node, (find t name).2 = Some node <-> node ∈ t /\ n_Name node = name.
Proof.
  intros Hs node. destruct (find_spec t name Hs) as (t1 & t2 & -> & _ & Hlt & H). rewrite Forall_forall in Hlt.
  destruct (find (t1 ++ t2) name).2 as [n|].
  - destruct H as (t3 & -> & Hn). split.
    + intros [= <-]. split; [|done]. apply elem_of_app. right. left.
    + intros [[Hin|Hin]%elem_of_app E].
      * specialize (Hlt _ Hin). rewrite E, less_irrefl in Hlt. done.
      * apply elem_of_cons in Hin as [->|Hin]; [done|]. apply sorted_app_inv in Hs as [_ Hs].
        apply StronglySorted_inv in Hs as [_ Hx]. rewrite Forall_forall in Hx. specialize (Hx _ Hin). unfold node_less in Hx.
        rewrite E, Hn, less_irrefl in Hx. done.
  - rewrite Forall_forall in H. split; [done|]. intros [[Hin|Hin]%elem_of_app E].
    + specialize (Hlt _ Hin). rewrite E, less_irrefl in Hlt. done.
    + specialize (H _ Hin). rewrite E, less_irrefl in H. done.
Qed.

(** [Insert] keeps a tree sorted and without duplicates: it fails exactly when a
    node with the name is there; otherwise the tree gains the node, [Find] finds
    it, and finds every other name as before. *)
Theorem tree_insert (t : Tree) (node : Node) (Hs : sorted t) :
  match Tree_Insert t node with
  | Ok t' => sorted t' /\ t' ≡ₚ node :: t /\ Tree_Find (Some t) (n_Name node) = None /\
      (forall name, Tree_Find (Some t') name = if String.eqb name (n_Name node) then Some node else Tree_Find (Some t) name)
  | Err _ => exists n, n ∈ t /\ n_Name n = n_Name node
  | Panic _ => False
  end.
Proof.
  destruct (find_spec t (n_Name node) Hs) as (t1 & t2 & Et & Hpos & Hlt & H). unfold Tree_Insert.
  destruct (find t (n_Name node)) as [pos found] eqn:Ef. cbn [fst snd] in *. destruct found as [n|].
  - destruct H as (t3 & -> & Hn). exists n. split; [|done]. rewrite Et. apply elem_of_app. right. left.
  - replace (take pos t ++ node :: drop pos t) with (t1 ++ node :: t2) by (by rewrite Et, Hpos, take_app_length, drop_app_length).
    assert (sorted (t1 ++ node :: t2)) as Hs'.
    { rewrite Et in Hs. destruct (sorted_app_inv _ _ Hs) as [Hs1 Hs2]. rewrite Forall_forall in Hlt. apply sorted_app; [done|by constructor|].
      intros a b Ha [->|Hb]%elem_of_cons; [by apply Hlt|]. rewrite Forall_forall in H. unfold node_less.
      eapply (st_trans (ltb:=string_less)); [by apply Hlt|by apply H]. }
    assert (t1 ++ node :: t2 ≡ₚ node :: t) as Hp by (rewrite Et; by rewrite Permutation_middle).
    split_and!; [done|done|cbn; by rewrite Ef|]. intros name. cbn. destruct (String.eqb_spec name (n_Name node)) as [->|Hne].
    + apply find_In; [done|]. split; [|done]. apply elem_of_app. right. left.
    + apply option_eq. intros m. rewrite !find_In by done. rewrite Hp, elem_of_cons. split; [|tauto]. by intros [[->|?] ?].
Qed.

Definition ex_time : Time := time_zero.
Definition ex_node (name type : string) (sub : option ID) : Node :=
  mkNode name type 0 ex_time ex_time ex_time 0 0 "" "" 0 0 0 0 "" [] 0 None sub "" "".

Lemma tree_insert_witness :
  match Tree_Insert [ex_node "a" "file" None; ex_node "c" "file" None] (ex_node "b" "file" None) with
  | Ok t' => sorted t' /\ t' = [ex_node "a" "file" None; ex_node "b" "file" None; ex_node "c" "file" None]
  | _ => False
  end.
Proof.
  assert (sorted [ex_node "a" "file" None; ex_node "c" "file" None]) as Hs by (repeat constructor; reflexivity).
  pose proof (tree_insert _ (ex_node "b" "file" None) Hs) as H.
  destruct (Tree_Insert _ _) as [t'|e|p] eqn:E; [|vm_compute in E; discriminate E..]. split; [apply H|]. vm_compute in E. by injection E as <-.
Defined.

(** ** The builder

    [json.Marshal] of a tree is the nodes' JSON in its frame, which is documented
    behaviour of [encoding/json] for a struct with one slice. *)

Definition elements_json (parts : list (list byte)) : list byte :=
  match parts with [] => [] | p :: ps => p ++ concat ((fun q => string_bytes "," ++ q) <$> ps) end.
Definition frame (parts : list (list byte)) : list byte := json_open ++ elements_json parts ++ json_close.

Lemma elements_snoc parts v :
  elements_json (parts ++ [v]) = elements_json parts ++ (match parts with [] => [] | _ => string_bytes "," end) ++ v.
Proof.
  destruct parts as [|p ps]; cbn; [by rewrite app_nil_r|]. rewrite fmap_app, concat_app. cbn. by rewrite app_nil_r, <- !app_assoc.
Qed.

Definition last_name (t : Tree) : string := from_option n_Name "" (last t).

Lemma less_empty s : string_less "" s = true <-> s <> "".
Proof. destruct s; [split; [by rewrite less_irrefl|done]|]. split; [done|]. intros _. reflexivity. Qed.

Definition ordered (t : Tree) : Prop := sorted t /\ Forall (fun n => n_Name n <> "") t.

(** A node may follow a tree when its name is greater than the last one. *)
Lemma ordered_snoc t n : ordered (t ++ [n]) <-> ordered t /\ string_less (last_name t) (n_Name n) = true.
Proof.
  unfold ordered, last_name. rewrite Forall_app, Forall_singleton. split.
  - intros [Hs [Hf Hn]]. destruct (sorted_app_inv _ _ Hs) as [Hs1 _]. split; [done|]. destruct (last t) as [m|] eqn:El; cbn; [|by apply less_empty].
    apply last_Some in El as [l' ->]. apply (sorted_lookup ((l' ++ [m]) ++ [n]) (length l') (S (length l')) m n Hs); [lia|..].
    + rewrite <- app_assoc. by apply list_lookup_middle.
    + rewrite lookup_app_r by (rewrite length_app; cbn; lia). rewrite length_app. cbn. by rewrite Nat.add_1_r, Nat.sub_diag.
  - intros [[Hs Hf] Hl].
    assert (forall m, m ∈ t -> string_less (n_Name m) (n_Name n) = true) as Hall.
    { intros m Hm. destruct (last t) as [k|] eqn:El; cbn in Hl; [|by apply last_None in El as ->; set_solver].
      apply last_Some in El as [l' ->]. apply elem_of_app in Hm as [Hm|Hm]; [|by apply list_elem_of_singleton in Hm as ->].
      apply list_elem_of_lookup in Hm as [i Hi]. apply lookup_lt_Some in Hi as Hlt. eapply (st_trans (ltb:=string_less)); [|exact Hl].
      apply (sorted_lookup (l' ++ [k]) i (length l') m k Hs); [done|by apply lookup_app_l_Some|by rewrite list_lookup_middle]. }
    split_and!; [|done|].
    + apply sorted_app; [done|by repeat constructor|]. intros a b Ha ->%list_elem_of_singleton. by apply Hall.
    + destruct (last t) as [m|] eqn:El; cbn in Hl; [|by apply less_empty]. intros E. rewrite E in Hl. by destruct (n_Name m).
Qed.

Section BuilderFacts.
Context (marshal : Node -> outcome (list byte)).

Lemma add_nodes_snoc t n :
  add_nodes marshal (t ++ [n]) = try b <- add_nodes marshal t; (let '(b, r) := AddNode marshal b n in try _ <- r; Ok b).
Proof.
  unfold add_nodes. rewrite ofold_app. destruct (ofold _ _ t) as [b|e|p]; cbn; [|done..].
  destruct (AddNode marshal b n) as [b' [[]|e|p]]; done.
Qed.

Lemma add_nodes_spec t vals :
  Forall2 (fun n v => marshal n = Ok v) t vals ->
  match add_nodes marshal t with
  | Ok b => ordered t /\ b = mkBuilder (json_open ++ elements_json vals) (last_name t)
  | Err _ => ~ ordered t
  | Panic _ => False
  end.
Proof.
  revert vals. induction t as [|n t IH] using rev_ind; intros vals Hv.
  - apply Forall2_nil_inv_l in Hv as ->. cbn. split; [by repeat constructor|]. done.
  - apply Forall2_app_inv_l in Hv as (vals0 & v' & Hv & Hv' & ->). apply Forall2_cons_inv_l in Hv' as (v & ? & Hm & Hn & ->).
    apply Forall2_nil_inv_l in Hn as ->. specialize (IH vals0 Hv). rewrite add_nodes_snoc.
    destruct (add_nodes marshal t) as [b|e|p]; cbn [mbind outcome_bind]; [|rewrite ordered_snoc; tauto|done]. destruct IH as [Ho ->].
    unfold AddNode. cbn [tb_lastName tb_buf]. rewrite Hm. destruct (string_less (last_name t) (n_Name n)) eqn:El; cbn [negb mbind outcome_bind].
    + split; [by apply ordered_snoc|]. f_equal; [|unfold last_name; by rewrite last_snoc].
      rewrite elements_snoc. assert (String.eqb (last_name t) "" = match vals0 with [] => true | _ => false end) as ->.
      { destruct Hv as [|m v0 t' vals' Hmv Hv]; [done|]. apply String.eqb_neq. destruct Ho as [_ Ho]. unfold last_name.
        destruct (last (m :: t')) as [k|] eqn:Ek; [|by apply last_None in Ek]. cbn. rewrite Forall_forall in Ho. apply Ho.
        by apply last_Some_elem_of. }
      destruct vals0; by rewrite <- ?app_assoc.
    + rewrite ordered_snoc. intros [_ ?]. congruence.
Qed.
End BuilderFacts.

(** C33. The builder accepts exactly the trees in strict order of names that are not
    empty, and yields the bytes that [SaveTree] saves. *)
Theorem builder_spec (marshal : Node -> outcome (list byte)) (json_Marshal : Tree -> outcome (list byte)) (t : Tree) (vals : list (list byte))
    (Hvals : Forall2 (fun n v => marshal n = Ok v) t vals) (Hjson : json_Marshal t = Ok (frame vals)) :
  match add_nodes marshal t with
  | Ok b => ordered t /\ (Builder_Finalize b).2 = Ok (frame vals ++ [newline]) /\
      (forall (St : Type) (SaveBlob : St -> list byte -> outcome (St * ID)) s, SaveTree json_Marshal SaveBlob s t = SaveBlob s (frame vals ++ [newline]))
  | Err _ => ~ ordered t
  | Panic _ => False
  end.
Proof.
  pose proof (add_nodes_spec marshal t vals Hvals) as H. destruct (add_nodes marshal t) as [b|e|p]; [|done..]. destruct H as [Ho ->].
  split; [done|]. split; [cbn; unfold frame; by rewrite <- !app_assoc|]. intros St SaveBlob s. unfold SaveTree. by rewrite Hjson.
Qed.

Lemma builder_spec_witness :
  match add_nodes (fun n => Ok (string_bytes (n_Name n))) [ex_node "a" "file" None; ex_node "b" "file" None] with
  | Ok b => (Builder_Finalize b).2 = Ok (frame [string_bytes "a"; string_bytes "b"] ++ [newline])
  | _ => False
  end.
Proof.
  pose proof (builder_spec (fun n => Ok (string_bytes (n_Name n))) (fun t => Ok (frame ((fun n => string_bytes (n_Name n)) <$> t)))
    [ex_node "a" "file" None; ex_node "b" "file" None] _ ltac:(repeat constructor) eq_refl) as H.
  destruct (add_nodes _ _) as [b|e|p] eqn:E; [apply H|vm_compute in E; discriminate E..].
Defined.
