(* ===== verification/TreeStream.v ===== *)
(** Which blobs a set of trees uses (src/restic/tree_stream.go and find.go).

    [StreamTrees] runs workers that load trees, the loop of [filterTrees] that
    decides what to load, and the caller's goroutines consume the trees: a record
    [consumer] says what they do, which is that of [FindUsedBlobs] or, in
    Checker.v, of the checker.  The goroutines are a step relation on the state of
    the loop, of the workers and of the consumers; a step is one case of the
    loop's [select], one round of its backlog, the worker of the huge trees taking one
    from its channel, or one tree consumed.  There are as many workers as the code
    starts, and a channel takes what its buffer and its readers take: a loop that waits for
    a worker which waits for the loop is a state without a step. *)

From S2P Require Import Prelude Bytes GoString Restic GoTime Snapshot Tree.

#[local] Open Scope Z_scope.

(** * The state *)

Definition trackedID : Type := ID * nat.
Definition TreeItem : Type := ID * outcome (list Node).

(** The workers: [regular] has the IDs that those reading from [loaderChan] load or have
    loaded, [hugeWorker] that of the one worker for huge trees, and [hugeTreeChan] what is
    in its channel, the next one first.  [loaderChan] and [loadedTreeChan] have no buffer. *)
Record pool := mkPool { regular : list trackedID; hugeTreeChan : list trackedID; hugeWorker : option trackedID }.
Definition empty_pool : pool := mkPool [] [] None.
Definition pool_ids (lo : pool) : list trackedID := regular lo ++ option_list (hugeWorker lo) ++ hugeTreeChan lo.

(** One worker is for huge trees only. *)
Definition workerCount (connections gomaxprocs : nat) : nat := connections + gomaxprocs + 1.
Definition hugeTreeChan_cap : nat := 10.

(** [loadCh] is not nil when [nextTreeID] is set, [outCh] when [job] is, and
    then [inCh] is nil; [backlog] has the ID that is processed next first.
    [outstandingLoadTreeJobs] is the number of IDs in [loading].  [output] is what the
    consumers have sent on. *)
Record stream (E : Type) := mkStream {
  backlog : list trackedID;
  nextTreeID : option trackedID;
  loading : pool;
  job : option TreeItem;
  rootCounter : list Z;
  progress : Z;
  current : list TreeItem;          (* the consumers' trees *)
  used_blobs : gset BlobHandle;
  output : list E;
  finished : option (outcome unit) }.
Arguments mkStream {E}. Arguments backlog {E}. Arguments nextTreeID {E}. Arguments loading {E}. Arguments job {E}.
Arguments rootCounter {E}. Arguments progress {E}. Arguments current {E}. Arguments used_blobs {E}. Arguments output {E}. Arguments finished {E}.

(** What is done with an item of the stream: the blobs it adds to the set, what is
    sent on, and the error it ends the stream with. *)
Record consumer (E : Type) := mkConsumer {
  c_contents : TreeItem -> gset BlobHandle;
  c_report : TreeItem -> list E;
  c_stop : TreeItem -> option (outcome unit);
  c_readers : nat }.
Arguments mkConsumer {E}. Arguments c_contents {E}. Arguments c_report {E}. Arguments c_stop {E}. Arguments c_readers {E}.

Definition tree_handle (id : ID) : BlobHandle := mkBlobHandle id TreeBlob.
Definition data_handle (id : ID) : BlobHandle := mkBlobHandle id DataBlob.

(** [rootCounter[idx] += d], and the progress when the counter is then zero. *)
Definition count_root (idx : nat) (d : Z) (counter : list Z) : list Z := alter (fun c => c + d) idx counter.
Definition root_done (idx : nat) (counter : list Z) (p : Z) : Z :=
  if bool_decide (counter !! idx = Some 0) then p + 1 else p.

(** The data blobs of the files of a tree. *)
Definition tree_contents (t : list Node) : gset BlobHandle :=
  list_to_set (concat ((fun node =>
    if String.eqb (n_Type node) "file" then data_handle <$> default [] (n_Content node) else []) <$> t)).

(** The subtrees that are added to the backlog, the next one first. *)
Definition new_trees (t : outcome (list Node)) : list ID :=
  match t with Ok t => filter (fun id => id <> nullID) (Subtrees t) | _ => [] end.

Definition init_stream {Out : Type} (trees : list ID) (blobs : gset BlobHandle) : stream Out :=
  mkStream (reverse (imap (fun idx id => (id, idx)) trees)) None empty_pool None ((fun _ => 1) <$> trees) 0 [] blobs [] None.

(** The consumer of [FindUsedBlobs]. *)
Definition used_blobs_consumer : consumer Empty_set :=
  mkConsumer (fun it => match it.2 with Ok t => tree_contents t | _ => ∅ end) (fun _ => [])
    (fun it => match it.2 with Ok _ => None | Err e => Some (Err e) | Panic p => Some (Panic p) end) 1.

(** The worker for huge trees takes the next one when it has none. *)
Definition pool_take (lo : pool) : option pool :=
  match hugeWorker lo, hugeTreeChan lo with None, x :: q => Some (mkPool (regular lo) q (Some x)) | _, _ => None end.

(** [<-inCh]: a worker that has loaded its tree hands it over. *)
Inductive pool_get : pool -> trackedID -> pool -> Prop :=
  | get_regular lo1 x lo2 q h : pool_get (mkPool (lo1 ++ x :: lo2) q h) x (mkPool (lo1 ++ lo2) q h)
  | get_huge lo q x : pool_get (mkPool lo q (Some x)) x (mkPool lo q None).

(** The first worker that can hand over its tree. *)
Definition pool_next (lo : pool) : option (trackedID * pool) :=
  match regular lo, hugeWorker lo with
  | x :: l, h => Some (x, mkPool l (hugeTreeChan lo) h)
  | [], Some x => Some (x, mkPool [] (hugeTreeChan lo) None)
  | [], None => None
  end.

(** ** The pool *)

Lemma pool_take_ids lo lo' : pool_take lo = Some lo' -> pool_ids lo' = pool_ids lo.
Proof. unfold pool_take, pool_ids. destruct lo as [l [|x q] [y|]]; try done. by intros [= <-]. Qed.

Lemma pool_get_ids lo x lo' : pool_get lo x lo' -> pool_ids lo ≡ₚ x :: pool_ids lo'.
Proof. intros [l1 y l2 q h|l q y]; unfold pool_ids; cbn; [by rewrite <- !app_assoc, <- app_comm_cons, <- Permutation_middle|by rewrite <- Permutation_middle]. Qed.

Lemma pool_next_get lo x lo' : pool_next lo = Some (x, lo') -> pool_get lo x lo'.
Proof. unfold pool_next. destruct lo as [[|y l] q [z|]]; try done; intros [= <- <-]; [apply get_huge|apply (get_regular [])..]. Qed.

(** A pool that neither takes nor hands over is empty, and then accepts any tree. *)
Lemma pool_idle lo : pool_take lo = None -> pool_next lo = None -> lo = empty_pool.
Proof. unfold pool_take, pool_next. by destruct lo as [[|x l] [|y q] [z|]]. Qed.

Section Stream.
Context (LoadTree : ID -> outcome (list Node)) (LookupBlobSize : BlobHandle -> option Z) (workers : nat) {Out : Type} (C : consumer Out).

(** Whether [loadCh] is [hugeTreeLoaderChan] for a tree. *)
Definition is_huge (id : ID) : bool := match LookupBlobSize (tree_handle id) with Some treeSize => 50 * 1024 * 1024 <? treeSize | None => false end.

(** [loadCh <- x]: a worker is free to take [x], or there is room in the buffer;
    [None]: it blocks. *)
Definition pool_put (x : trackedID) (lo : pool) : option pool :=
  if is_huge x.1 then
    if Nat.ltb (length (hugeTreeChan lo)) hugeTreeChan_cap then Some (mkPool (regular lo) (hugeTreeChan lo ++ [x]) (hugeWorker lo)) else None
  else if Nat.ltb (length (regular lo)) (workers - 1) then Some (mkPool (x :: regular lo) (hugeTreeChan lo) (hugeWorker lo)) else None.

(** The state after the tree [id] was received. *)
Definition received (bl : list trackedID) (nx : option trackedID) (lo : pool) (id : ID) (idx : nat) (c : list Z) (p : Z) (cu : list TreeItem) (b : gset BlobHandle) (o : list Out) : stream Out :=
  let c1 := count_root idx (zlen (new_trees (LoadTree id))) (count_root idx (-1) c) in
  mkStream (((fun sub => (sub, idx)) <$> new_trees (LoadTree id)) ++ bl) nx lo (Some (id, LoadTree id)) c1 (root_done idx c1 p) cu b o None.

(** The loop fills [nextTreeID] before it waits in its [select]: then the
    backlog is empty or [loadCh] is set. *)
Inductive sstep : stream Out -> stream Out -> Prop :=
  | s_skip bl id idx lo j c p cu b o :
      tree_handle id ∈ b ->
      sstep (mkStream ((id, idx) :: bl) None lo j c p cu b o None)
            (mkStream bl None lo j (count_root idx (-1) c) (root_done idx (count_root idx (-1) c) p) cu b o None)
  | s_pick bl id idx lo j c p cu b o :
      tree_handle id ∉ b ->
      sstep (mkStream ((id, idx) :: bl) None lo j c p cu b o None)
            (mkStream bl (Some (id, idx)) lo j c p cu ({[tree_handle id]} ∪ b) o None)
  | s_load bl x lo lo' j c p cu b o :
      pool_put x lo = Some lo' ->
      sstep (mkStream bl (Some x) lo j c p cu b o None) (mkStream bl None lo' j c p cu b o None)
  | s_take bl nx lo lo' j c p cu b o :
      pool_take lo = Some lo' ->
      sstep (mkStream bl nx lo j c p cu b o None) (mkStream bl nx lo' j c p cu b o None)
  | s_recv bl nx lo id idx lo' c p cu b o :
      nx <> None \/ bl = [] -> pool_get lo (id, idx) lo' ->
      sstep (mkStream bl nx lo None c p cu b o None) (received bl nx lo' id idx c p cu b o)
  | s_out bl nx lo item c p cu b o :
      nx <> None \/ bl = [] -> (length cu < c_readers C)%nat ->
      sstep (mkStream bl nx lo (Some item) c p cu b o None) (mkStream bl nx lo None c p (item :: cu) b o None)
  | s_consume bl nx lo j c p cu1 it cu2 b o :
      c_stop C it = None ->
      sstep (mkStream bl nx lo j c p (cu1 ++ it :: cu2) b o None)
            (mkStream bl nx lo j c p (cu1 ++ cu2) (c_contents C it ∪ b) (o ++ c_report C it) None)
  | s_stop bl nx lo j c p cu1 it cu2 b o r :
      c_stop C it = Some r ->
      sstep (mkStream bl nx lo j c p (cu1 ++ it :: cu2) b o None) (mkStream bl nx lo j c p (cu1 ++ cu2) b o (Some r))
  | s_exit c p b o :
      sstep (mkStream [] None empty_pool None c p [] b o None) (mkStream [] None empty_pool None c p [] b o (Some (Ok tt))).

(** One schedule: a consumer first, then the loop, then the newest worker. *)
Definition schedule (s : stream Out) : option (stream Out) :=
  let '(mkStream bl nx lo j c p cu b o fin) := s in
  match fin, cu with
  | Some _, _ => None
  | None, it :: cu =>
      match c_stop C it with
      | None => Some (mkStream bl nx lo j c p cu (c_contents C it ∪ b) (o ++ c_report C it) None)
      | Some r => Some (mkStream bl nx lo j c p cu b o (Some r))
      end
  | None, [] =>
      match x ← nx; pool_put x lo with
      | Some lo' => Some (mkStream bl None lo' j c p [] b o None)
      | None =>
          match nx, bl, j with
          | None, (id, idx) :: bl, _ =>
              if bool_decide (tree_handle id ∈ b) then
                Some (mkStream bl None lo j (count_root idx (-1) c) (root_done idx (count_root idx (-1) c) p) [] b o None)
              else Some (mkStream bl (Some (id, idx)) lo j c p [] ({[tree_handle id]} ∪ b) o None)
          | _, _, Some item => Some (mkStream bl nx lo None c p [item] b o None)
          | _, _, None =>
              match pool_take lo, pool_next lo, nx with
              | Some lo', _, _ => Some (mkStream bl nx lo' None c p [] b o None)
              | None, Some ((id, idx), lo'), _ => Some (received bl nx lo' id idx c p [] b o)
              | None, None, None => Some (mkStream [] None empty_pool None c p [] b o (Some (Ok tt)))
              | None, None, Some _ => None
              end
          end
      end
  end.

Fixpoint run_schedule (fuel : nat) (s : stream Out) : stream Out :=
  match fuel with
  | O => s
  | S fuel => match schedule s with Some s' => run_schedule fuel s' | None => s end
  end.

Lemma pool_put_ids x lo lo' : pool_put x lo = Some lo' -> pool_ids lo' ≡ₚ x :: pool_ids lo.
Proof.
  unfold pool_put, pool_ids. destruct (is_huge x.1), (Nat.ltb _ _); try done; intros [= <-]; cbn; [|done].
  rewrite !app_assoc. by rewrite <- Permutation_cons_append.
Qed.

Lemma pool_put_empty x : (2 <= workers)%nat -> is_Some (pool_put x empty_pool).
Proof. intros Hw. unfold pool_put. destruct (is_huge x.1); cbn [regular hugeTreeChan empty_pool length]; [done|]. destruct (Nat.ltb_spec 0 (workers - 1)); [done|lia]. Qed.

Lemma schedule_step s s' : (0 < c_readers C)%nat -> schedule s = Some s' -> sstep s s'.
Proof.
  intros Hr. destruct s as [bl nx lo j c p cu b o fin]. unfold schedule.
  destruct fin; [done|]. destruct cu as [|it cu].
  2: { destruct (c_stop C it) as [r|] eqn:Es; intros [= <-]; [by apply (s_stop _ _ _ _ _ _ [])|by apply (s_consume _ _ _ _ _ _ [])]. }
  destruct (x ← nx; pool_put x lo) as [lo'|] eqn:Ep.
  { destruct nx as [x|]; [|done]. intros [= <-]. by apply s_load. }
  assert (nx <> None \/ bl = [] -> match j with
    | Some item => Some (mkStream bl nx lo None c p [item] b o None)
    | None => match pool_take lo, pool_next lo, nx with
              | Some lo', _, _ => Some (mkStream bl nx lo' None c p [] b o None)
              | None, Some ((id, idx), lo'), _ => Some (received bl nx lo' id idx c p [] b o)
              | None, None, None => Some (mkStream [] None empty_pool None c p [] b o (Some (Ok tt)))
              | None, None, Some _ => None
              end end = Some s' -> sstep (mkStream bl nx lo j c p [] b o None) s') as Hwait.
  { intros Hb. destruct j as [item|]; [intros [= <-]; by apply s_out|]. destruct (pool_take lo) as [lo'|] eqn:Et; [intros [= <-]; by apply s_take|].
    destruct (pool_next lo) as [[[id idx] lo']|] eqn:En; [intros [= <-]; apply s_recv; [done|by apply pool_next_get]|].
    destruct nx as [x|]; [done|]. destruct Hb as [?| ->]; [done|]. intros [= <-]. rewrite (pool_idle lo Et En). apply s_exit. }
  destruct nx as [x|]; [intros E; apply Hwait; [by left|by destruct j]|]. destruct bl as [|[id idx] bl]; [intros E; apply Hwait; [by right|by destruct j]|].
  case_bool_decide; intros [= <-]; by constructor.
Qed.

Lemma run_schedule_steps fuel s : (0 < c_readers C)%nat -> rtc sstep s (run_schedule fuel s).
Proof.
  intros Hr. revert s; induction fuel as [|fuel IH]; intros s; cbn; [done|]. destruct (schedule s) as [s'|] eqn:Ef; [|done].
  eapply rtc_l; [by apply schedule_step|apply IH].
Qed.

(** No state is stuck. *)
Lemma schedule_total s : (2 <= workers)%nat -> finished s = None -> exists s', schedule s = Some s'.
Proof.
  intros Hw. destruct s as [bl nx lo j c p cu b o fin]. cbn. intros ->. destruct cu as [|it cu]; [|destruct (c_stop C it); by eexists].
  destruct (x ← nx; pool_put x lo) as [lo'|] eqn:Ep; [by eexists|].
  destruct nx as [x|]; [|destruct bl as [|[id idx] bl]; [|case_bool_decide; by eexists]];
    (destruct j as [item|]; [by eexists|]; destruct (pool_take lo) as [lo'|] eqn:Et; [by eexists|]; destruct (pool_next lo) as [[[id idx] lo']|] eqn:En; [by eexists|]).
  - rewrite (pool_idle lo Et En) in Ep. by destruct (pool_put_empty x Hw) as [? E]; cbn in Ep; rewrite E in Ep.
  - by eexists.
Qed.
End Stream.

(** [FindUsedBlobs] ends in [s]. *)
Definition FindUsedBlobs (LoadTree : ID -> outcome (list Node)) (LookupBlobSize : BlobHandle -> option Z) (connections gomaxprocs : nat)
    (trees : list ID) (blobs : gset BlobHandle) (s : stream Empty_set) : Prop :=
  rtc (sstep LoadTree LookupBlobSize (workerCount connections gomaxprocs) used_blobs_consumer) (init_stream trees blobs) s /\ finished s <> None.

(** * What is used *)

Lemma tree_not_data id t : tree_handle id ∉ tree_contents t.
Proof.
  unfold tree_contents. rewrite elem_of_list_to_set, list_elem_of_In, in_concat. intros (l & Hl & Hin).
  apply list_elem_of_In, list_elem_of_fmap in Hl as (node & -> & _). destruct (String.eqb _ _); [|done].
  apply list_elem_of_In, list_elem_of_fmap in Hin as (c & E & _). done.
Qed.

Section Facts.
Context (LoadTree : ID -> outcome (list Node)) {Out : Type} (C : consumer Out) (trees : list ID) (blobs : gset BlobHandle).

(** The trees that are visited: the given ones and their subtrees, those already
    in the set and their subtrees left out. *)
Inductive visited : ID -> Prop :=
  | v_root id : id ∈ trees -> tree_handle id ∉ blobs -> visited id
  | v_sub id t sub :
      visited id -> LoadTree id = Ok t -> sub ∈ Subtrees t -> sub <> nullID -> tree_handle sub ∉ blobs -> visited sub.

Definition used (h : BlobHandle) : Prop :=
  (exists id, visited id /\ h = tree_handle id) \/
  (exists id, visited id /\ h ∈ c_contents C (id, LoadTree id)).

(** Trees that may be picked. *)
Definition wanted (id : ID) : Prop := tree_handle id ∈ blobs \/ visited id.

Lemma wanted_sub id sub : visited id -> sub ∈ new_trees (LoadTree id) -> wanted sub.
Proof.
  intros Hv Hs. unfold new_trees in Hs. destruct (LoadTree id) as [t|e|e] eqn:E; [|set_solver..].
  apply list_elem_of_filter in Hs as [Hn Hs]. destruct (decide (tree_handle sub ∈ blobs)) as [?|?]; [by left|]. right. by eapply v_sub.
Qed.

Definition in_flight (s : stream Out) : list trackedID := option_list (nextTreeID s) ++ pool_ids (loading s).
Definition in_hand (s : stream Out) : list TreeItem := option_list (job s) ++ current s.

(** [id] is in the set or will be looked at. *)
Definition seen (s : stream Out) (id : ID) : Prop := tree_handle id ∈ used_blobs s \/ id ∈ (backlog s).*1.

(** The tree [id] was consumed. *)
Definition handled (s : stream Out) (id : ID) : Prop :=
  c_stop C (id, LoadTree id) = None /\ c_contents C (id, LoadTree id) ⊆ used_blobs s /\ (forall e, e ∈ c_report C (id, LoadTree id) -> e ∈ output s).

Record stream_ok (s : stream Out) : Prop := {
  so_base : blobs ⊆ used_blobs s;
  so_used h : h ∈ used_blobs s -> h ∈ blobs \/ used h;
  so_backlog x : x ∈ backlog s -> wanted x.1;
  so_flight x : x ∈ in_flight s -> visited x.1;
  so_hand it : it ∈ in_hand s -> visited it.1 /\ it.2 = LoadTree it.1;
  so_roots id : id ∈ trees -> seen s id;
  so_loaded id : visited id -> tree_handle id ∈ used_blobs s ->
    id ∈ (in_flight s).*1 \/ (forall sub, sub ∈ new_trees (LoadTree id) -> seen s sub);
  so_consumed id : visited id -> tree_handle id ∈ used_blobs s ->
    id ∈ (in_flight s).*1 \/ id ∈ (in_hand s).*1 \/ handled s id;
  so_output e : e ∈ output s -> exists id, visited id /\ e ∈ c_report C (id, LoadTree id) }.

Lemma visited_new id : visited id -> tree_handle id ∉ blobs.
Proof. by destruct 1. Qed.

Lemma init_ok : stream_ok (init_stream trees blobs).
Proof.
  assert (forall id, id ∈ (reverse (imap (fun idx id => (id, idx)) trees)).*1 <-> id ∈ trees) as Hback.
  { intros id. rewrite fmap_reverse, elem_of_reverse, fmap_imap.
    replace (imap _ trees) with trees; [done|]. symmetry. etrans; [apply (imap_const (fun x : ID => x))|apply list_fmap_id]. }
  split; cbn; try set_solver.
  - intros [id idx] Hx. cbn. assert (id ∈ trees) as Hid by (apply Hback, list_elem_of_fmap; by exists (id, idx)).
    destruct (decide (tree_handle id ∈ blobs)); [by left|right; by constructor].
  - intros id Hid. right. by apply Hback.
  - intros id Hv Hid. by apply visited_new in Hv.
  - intros id Hv Hid. by apply visited_new in Hv.
Qed.

(** Every step keeps the invariant, up to the end. *)
Lemma skip_ok bl id idx lo j c c' p p' cu b o :
  tree_handle id ∈ b -> stream_ok (mkStream ((id, idx) :: bl) None lo j c p cu b o None) ->
  stream_ok (mkStream bl None lo j c' p' cu b o None).
Proof.
  intros Hin [H1 H2 H3 H4 H5 H6 H7 H8 H9]. unfold seen, in_flight, in_hand, handled in *; cbn in *.
  assert (forall id', (tree_handle id' ∈ b \/ id' ∈ id :: bl.*1) -> tree_handle id' ∈ b \/ id' ∈ bl.*1) as Hseen.
  { intros id' [?|[->|?]%elem_of_cons]; auto. }
  split; unfold seen, in_flight, in_hand, handled; cbn; [done|done|intros x Hx; apply H3; by right|done|done|auto| |done|done].
  intros id' Hv Hid'. destruct (H7 id' Hv Hid'); auto.
Qed.

Lemma pick_ok bl id idx lo j c p cu b o :
  tree_handle id ∉ b -> stream_ok (mkStream ((id, idx) :: bl) None lo j c p cu b o None) ->
  stream_ok (mkStream bl (Some (id, idx)) lo j c p cu ({[tree_handle id]} ∪ b) o None).
Proof.
  intros Hn [H1 H2 H3 H4 H5 H6 H7 H8 H9]. unfold seen, in_flight, in_hand, handled in *; cbn in *.
  assert (visited id) as Hv by (destruct (H3 (id, idx)) as [Hb|?]; [by left|by apply H1 in Hb|done]).
  assert (forall id', (tree_handle id' ∈ b \/ id' ∈ id :: bl.*1) -> tree_handle id' ∈ {[tree_handle id]} ∪ b \/ id' ∈ bl.*1) as Hseen.
  { intros id' [?|[->|?]%elem_of_cons]; [left; by apply elem_of_union_r|left; by apply elem_of_union_l, elem_of_singleton|by right]. }
  split; unfold seen, in_flight, in_hand, handled; cbn.
  - etrans; [done|apply union_subseteq_r].
  - intros h [->%elem_of_singleton|Hh]%elem_of_union; [right; left; by exists id|auto].
  - intros x Hx. apply H3. by right.
  - intros x [->|Hx]%elem_of_cons; [done|auto].
  - done.
  - auto.
  - intros id' Hv' [E%elem_of_singleton|Hid']%elem_of_union; [simplify_eq; left; left|].
    destruct (H7 id' Hv' Hid') as [?|Hs]; [left; by right|]. auto.
  - intros id' Hv' [E%elem_of_singleton|Hid']%elem_of_union; [simplify_eq; left; left|].
    destruct (H8 id' Hv' Hid') as [?|[?|(? & Ht & ?)]]; [left; by right|by right; left|]. right; right. split_and!; [done| |done].
    etrans; [exact Ht|apply union_subseteq_r].
  - done.
Qed.

(** The IDs in flight are what counts, not where they are. *)
Lemma flight_ok bl nx nx' lo lo' j c p cu b o :
  option_list nx ++ pool_ids lo ≡ₚ option_list nx' ++ pool_ids lo' ->
  stream_ok (mkStream bl nx lo j c p cu b o None) -> stream_ok (mkStream bl nx' lo' j c p cu b o None).
Proof.
  intros Hp [H1 H2 H3 H4 H5 H6 H7 H8 H9]. unfold seen, in_flight, in_hand, handled in *; cbn in *.
  split; unfold seen, in_flight, in_hand, handled; cbn; try done.
  - intros x Hx. apply H4. by rewrite Hp.
  - intros id Hv Hid. rewrite <- Hp. auto.
  - intros id Hv Hid. rewrite <- Hp. auto.
Qed.

Lemma recv_ok bl nx lo id idx lo' c p cu b o :
  pool_get lo (id, idx) lo' -> stream_ok (mkStream bl nx lo None c p cu b o None) -> stream_ok (received LoadTree bl nx lo' id idx c p cu b o).
Proof.
  intros Hget%pool_get_ids [H1 H2 H3 H4 H5 H6 H7 H8 H9]. unfold seen, in_flight, in_hand, handled in *; cbn in *.
  assert (forall x : trackedID, x ∈ option_list nx ++ pool_ids lo <-> x = (id, idx) \/ x ∈ option_list nx ++ pool_ids lo') as Hfl.
  { intros x. rewrite Hget, !elem_of_app, elem_of_cons. tauto. }
  assert (visited id) as Hv by (apply (H4 (id, idx)), Hfl; by left).
  assert (forall id', id' ∈ (option_list nx ++ pool_ids lo).*1 -> id' = id \/ id' ∈ (option_list nx ++ pool_ids lo').*1) as Hsub'.
  { intros id'. rewrite Hget, !fmap_app, !elem_of_app. cbn. rewrite elem_of_cons. tauto. }
  assert ((((fun sub => (sub, idx)) <$> new_trees (LoadTree id)) ++ bl).*1 = new_trees (LoadTree id) ++ bl.*1) as Hback.
  { rewrite fmap_app. f_equal. rewrite <- list_fmap_compose. apply list_fmap_id. }
  split; unfold seen, in_flight, in_hand, handled; cbn; rewrite ?Hback; [done|done|..].
  - intros x [Hx|Hx]%elem_of_app; [|auto]. apply list_elem_of_fmap in Hx as (sub & -> & Hx). by eapply wanted_sub.
  - intros x Hx. apply H4, Hfl. by right.
  - intros it [->|Hit]%elem_of_cons; [done|]. auto.
  - intros id' Hid'. rewrite elem_of_app. destruct (H6 id' Hid'); auto.
  - intros id' Hv' Hid'. destruct (H7 id' Hv' Hid') as [[->|?]%Hsub'|Hs]; [|by left|].
    + right. intros sub Hsb. right. apply elem_of_app. by left.
    + right. intros sub Hsb. rewrite elem_of_app. destruct (Hs sub Hsb); auto.
  - intros id' Hv' Hid'. destruct (H8 id' Hv' Hid') as [[->|?]%Hsub'|[?|?]]; [right; left; left|by left|right; left; by right|auto].
  - done.
Qed.

(** What is in the set at the end. *)
Lemma exit_ok s : stream_ok s -> backlog s = [] -> in_flight s = [] -> in_hand s = [] ->
  (forall id, visited id -> c_stop C (id, LoadTree id) = None) /\
  (forall h, h ∈ used_blobs s <-> h ∈ blobs \/ used h) /\
  (forall e, e ∈ output s <-> exists id, visited id /\ e ∈ c_report C (id, LoadTree id)).
Proof.
  intros [H1 H2 H3 H4 H5 H6 H7 H8 H9] Hb Hf Hh. unfold seen in *. rewrite Hb, Hf, Hh in *. cbn in *.
  assert (forall id, visited id -> tree_handle id ∈ used_blobs s) as Hall.
  { induction 1 as [id Hid _|id t sub Hv IH Hl Hs Hn Hb']; [destruct (H6 id Hid); set_solver|].
    destruct (H7 id Hv IH) as [?|Hsub]; [set_solver|]. destruct (Hsub sub); [|done|set_solver].
    unfold new_trees. rewrite Hl. by apply list_elem_of_filter. }
  assert (forall id, visited id -> handled s id) as Hdata.
  { intros id Hv. destruct (H8 id Hv (Hall id Hv)) as [?|[?|?]]; [set_solver|set_solver|done]. }
  split_and!; [intros id Hv; by destruct (Hdata id Hv)| |].
  - intros h. split; [auto|]. intros [?|[(id & Hv & ->)|(id & Hv & Hh')]]; [by apply H1|auto|].
    destruct (Hdata id Hv) as (_ & Hsub & _). auto.
  - intros e. split; [auto|]. intros (id & Hv & He). destruct (Hdata id Hv) as (_ & _ & Ho). auto.
Qed.

(** ** The counters *)

Definition tracked (s : stream Out) : list nat := (backlog s).*2 ++ (in_flight s).*2.
Definition count_of (idx : nat) (l : list nat) : Z := zlen (filter (fun i => i = idx) l).

Record counters_ok (s : stream Out) : Prop := {
  co_tracked idx : idx ∈ tracked s -> (idx < length trees)%nat;
  co_counter : rootCounter s = (fun idx => count_of idx (tracked s)) <$> seq 0 (length trees);
  co_progress : progress s = zlen (filter (fun c => c = 0) (rootCounter s)) }.

Lemma count_of_cons idx i l : count_of idx (i :: l) = (if decide (i = idx) then 1 else 0) + count_of idx l.
Proof. unfold count_of. rewrite filter_cons. destruct (decide (i = idx)); [by rewrite zlen_cons|done]. Qed.
Lemma count_of_app idx l1 l2 : count_of idx (l1 ++ l2) = count_of idx l1 + count_of idx l2.
Proof. unfold count_of. by rewrite filter_app, zlen_app. Qed.

Lemma count_of_perm idx l l' : l ≡ₚ l' -> count_of idx l = count_of idx l'.
Proof. intros Hp. unfold count_of, zlen. f_equal. apply Permutation_length. by rewrite Hp. Qed.

Definition counts (l : list nat) (n : nat) : list Z := (fun i => count_of i l) <$> seq 0 n.

Lemma counts_lookup l n i : counts l n !! i = if decide (i < n)%nat then Some (count_of i l) else None.
Proof.
  unfold counts. rewrite list_lookup_fmap. case_decide; [by rewrite lookup_seq_lt|]. by rewrite lookup_seq_ge by lia.
Qed.

Lemma count_root_counts idx d l l' n :
  (forall i, count_of i l' = count_of i l + if decide (i = idx) then d else 0) -> count_root idx d (counts l n) = counts l' n.
Proof.
  intros Hl. apply list_eq. intros i. unfold count_root. rewrite list_lookup_alter, !counts_lookup.
  destruct (decide (idx = i)) as [->|]; destruct (decide (i < n)%nat); cbn [fmap option_fmap option_map]; try done; rewrite Hl;
    [by rewrite decide_True|by rewrite decide_False, Z.add_0_r].
Qed.

Lemma counts_perm l l' n : l ≡ₚ l' -> counts l n = counts l' n.
Proof.
  intros Hp. unfold counts. apply list_fmap_ext. intros _ i _. by rewrite (count_of_perm i l l').
Qed.

Lemma count_root_add idx d d' c : count_root idx d (count_root idx d' c) = count_root idx (d' + d) c.
Proof.
  unfold count_root. revert idx. induction c as [|x c IH]; intros [|idx]; cbn; [done|done|f_equal; lia|f_equal; apply IH].
Qed.

Definition zeros (c : list Z) : Z := zlen (filter (fun x => x = 0) c).

Lemma zeros_cons x c : zeros (x :: c) = (if decide (x = 0) then 1 else 0) + zeros c.
Proof. unfold zeros. rewrite filter_cons. destruct (decide (x = 0)); [by rewrite zlen_cons|done]. Qed.

Lemma zeros_count_root idx d c v : c !! idx = Some v -> v <> 0 -> root_done idx (count_root idx d c) (zeros c) = zeros (count_root idx d c).
Proof.
  unfold root_done, count_root. rewrite list_lookup_alter, decide_True by done. intros Hv Hn. rewrite Hv. cbn [fmap option_fmap option_map].
  revert idx Hv. induction c as [|x c IH]; intros idx Hv; [done|]. destruct idx as [|idx].
  - injection Hv as ->. change (alter (fun c => c + d) 0%nat (v :: c)) with ((v + d) :: c). rewrite !zeros_cons, (decide_False (P := v = 0)) by done.
    case_bool_decide as H0.
    + injection H0 as H0. rewrite decide_True by done. lia.
    + rewrite decide_False by congruence. done.
  - change (alter (fun c => c + d) (S idx) (x :: c)) with (x :: alter (fun c => c + d) idx c). specialize (IH idx Hv). rewrite !zeros_cons.
    case_bool_decide; lia.
Qed.

Lemma count_of_pos idx l : idx ∈ l -> count_of idx l <> 0.
Proof.
  intros Hin. unfold count_of, zlen. assert (idx ∈ filter (fun i => i = idx) l) as Hf by by apply list_elem_of_filter.
  destruct (filter _ l); [by apply not_elem_of_nil in Hf|cbn; lia].
Qed.

(** One item of a root is done, and [k] are added. *)
Lemma counters_change s s' idx k :
  counters_ok s -> idx ∈ tracked s ->
  (forall i, count_of i (tracked s') = count_of i (tracked s) + if decide (i = idx) then k - 1 else 0) ->
  (forall i, i ∈ tracked s' -> i ∈ tracked s) ->
  rootCounter s' = count_root idx (k - 1) (rootCounter s) -> progress s' = root_done idx (rootCounter s') (progress s) -> counters_ok s'.
Proof.
  intros [H1 H2 H3] Hin Hc Hsub Ec Ep. assert (rootCounter s' = counts (tracked s') (length trees)) as Ec'.
  { rewrite Ec, H2. by apply count_root_counts. }
  split; [auto|done|]. rewrite Ep, Ec, H3. fold (zeros (rootCounter s)) (zeros (count_root idx (k - 1) (rootCounter s))).
  apply (zeros_count_root _ _ _ (count_of idx (tracked s))); [|by apply count_of_pos]. rewrite H2.
  fold (counts (tracked s) (length trees)). by rewrite counts_lookup, decide_True by auto.
Qed.

Lemma counters_same s s' :
  counters_ok s -> tracked s ≡ₚ tracked s' -> rootCounter s' = rootCounter s -> progress s' = progress s -> counters_ok s'.
Proof.
  intros [H1 H2 H3] Hp Ec Ep. split; [intros i Hi; apply H1; by rewrite Hp| |by rewrite Ep, Ec].
  rewrite Ec, H2. by apply counts_perm.
Qed.

Lemma count_of_seq i n : count_of i (seq 0 n) = if decide (i < n)%nat then 1 else 0.
Proof.
  induction n as [|n IH]; [done|]. rewrite seq_S, count_of_app, IH, count_of_cons. cbn [Nat.add].
  destruct (decide (i < n)%nat), (decide (n = i)), (decide (i < S n)%nat); try lia; done.
Qed.

Lemma counters_init : counters_ok (init_stream (Out := Out) trees blobs).
Proof.
  assert (tracked (init_stream (Out := Out) trees blobs) = reverse (seq 0 (length trees))) as Et.
  { unfold tracked. cbn. rewrite app_nil_r, fmap_reverse, fmap_imap. f_equal. clear. 
    assert (forall n, imap (fun i => snd ∘ (fun id : ID => (id, (n + i)%nat))) trees = seq n (length trees)) as H; [|apply (H 0%nat)].
    induction trees as [|x l IH]; intros n; [done|]. cbn. rewrite Nat.add_0_r. f_equal. rewrite <- IH. apply imap_ext. intros i y _. cbn. lia. }
  assert (rootCounter (init_stream (Out := Out) trees blobs) = counts (tracked (init_stream (Out := Out) trees blobs)) (length trees)) as Ec.
  { rewrite Et, (counts_perm _ (seq 0 (length trees))) by by rewrite reverse_Permutation. cbn. apply list_eq. intros i.
    rewrite counts_lookup, list_lookup_fmap. case_decide as Hi; [|by rewrite lookup_ge_None_2 by lia].
    destruct (lookup_lt_is_Some_2 trees i Hi) as [x ->]. cbn [fmap option_fmap option_map]. by rewrite count_of_seq, decide_True. }
  split; [|done|].
  - intros idx. rewrite Et, elem_of_reverse, elem_of_seq. lia.
  - cbn. rewrite filter_none; [done|]. apply Forall_fmap, Forall_true. done.
Qed.

Lemma counters_recv bl nx lo id idx lo' c p cu b o :
  pool_get lo (id, idx) lo' -> counters_ok (mkStream bl nx lo None c p cu b o None) -> counters_ok (received LoadTree bl nx lo' id idx c p cu b o).
Proof.
  intros Hget%pool_get_ids Hok.
  assert (tracked (mkStream bl nx lo None c p cu b o None) ≡ₚ idx :: bl.*2 ++ (option_list nx ++ pool_ids lo').*2) as Hp.
  { unfold tracked, in_flight. cbn. rewrite Hget, !fmap_app. cbn. rewrite <- !Permutation_middle. done. }
  assert (forall i l, count_of i (replicate l idx) = if decide (i = idx) then Z.of_nat l else 0) as Hrep.
  { intros i l. induction l as [|l IH]; [by case_decide|]. cbn [replicate]. rewrite count_of_cons, IH. destruct (decide (i = idx)), (decide (idx = i)); subst; try done; lia. }
  assert (tracked (received LoadTree bl nx lo' id idx c p cu b o)
    = replicate (length (new_trees (LoadTree id))) idx ++ bl.*2 ++ (option_list nx ++ pool_ids lo').*2) as Et'.
  { unfold tracked, in_flight. cbn. rewrite fmap_app, <- app_assoc. f_equal. rewrite <- list_fmap_compose. clear.
    induction (new_trees (LoadTree id)); cbn; congruence. }
  eapply (counters_change _ _ idx (zlen (new_trees (LoadTree id))) Hok).
  - rewrite Hp. left.
  - intros i. rewrite Et', count_of_app, Hrep. rewrite (count_of_perm i _ _ Hp), count_of_cons. unfold zlen. destruct (decide (i = idx)), (decide (idx = i)); subst; try done; lia.
  - intros i. rewrite Et', Hp, elem_of_app, elem_of_cons. intros [Hi|?]; [|by right]. left. by apply elem_of_replicate in Hi as [-> _].
  - cbn. rewrite count_root_add. f_equal. lia.
  - done.
Qed.

Context (LookupBlobSize : BlobHandle -> option Z) (workers : nat).

Lemma counters_step s s' : sstep LoadTree LookupBlobSize workers C s s' -> counters_ok s -> counters_ok s'.
Proof.
  intros Hstep Hok. destruct Hstep; try (apply (counters_same _ _ Hok); unfold tracked, in_flight; cbn; done).
  - eapply (counters_change _ _ idx 0 Hok); try done; unfold tracked, in_flight; cbn.
    + left.
    + intros i. rewrite count_of_cons. destruct (decide (i = idx)), (decide (idx = i)); subst; try done; lia.
    + intros i Hi. by right.
  - apply (counters_same _ _ Hok); unfold tracked, in_flight; cbn; [|done..]. by rewrite Permutation_middle.
  - apply (counters_same _ _ Hok); unfold tracked, in_flight; cbn; [|done..]. by rewrite (pool_put_ids _ _ _ _ _ H).
  - apply (counters_same _ _ Hok); unfold tracked, in_flight; cbn; [|done..]. by rewrite (pool_take_ids _ _ H).
  - by eapply counters_recv.
Qed.

(** ** The end *)

(** Consumers add no trees. *)
Context (HC : forall it id, tree_handle id ∉ c_contents C it).

Lemma consume_ok bl nx lo j c p cu1 it cu2 b o :
  c_stop C it = None -> stream_ok (mkStream bl nx lo j c p (cu1 ++ it :: cu2) b o None) ->
  stream_ok (mkStream bl nx lo j c p (cu1 ++ cu2) (c_contents C it ∪ b) (o ++ c_report C it) None).
Proof using HC.
  intros Hst [H1 H2 H3 H4 H5 H6 H7 H8 H9]. unfold seen, in_flight, in_hand, handled in *; cbn in *.
  destruct it as [id r]. assert (visited id /\ r = LoadTree id) as [Hv ->] by (apply (H5 (id, r)); set_solver).
  assert (forall id', tree_handle id' ∈ c_contents C (id, LoadTree id) ∪ b -> tree_handle id' ∈ b) as Htree.
  { intros id' [Hc|?]%elem_of_union; [by apply HC in Hc|done]. }
  assert (forall id', (tree_handle id' ∈ b \/ id' ∈ bl.*1) -> tree_handle id' ∈ c_contents C (id, LoadTree id) ∪ b \/ id' ∈ bl.*1) as Hseen.
  { intros id' [?|?]; [left; by apply elem_of_union_r|by right]. }
  split; unfold seen, in_flight, in_hand, handled; cbn; [| |done|done|..].
  - etrans; [done|apply union_subseteq_r].
  - intros h [Hh|Hh]%elem_of_union; [|auto]. right. right. exists id. auto.
  - intros it Hit. apply H5. rewrite !elem_of_app, elem_of_cons in *. tauto.
  - auto.
  - intros id' Hv' Hid'%Htree. destruct (H7 id' Hv' Hid') as [?|Hs]; auto.
  - intros id' Hv' Hid'%Htree. destruct (H8 id' Hv' Hid') as [?|[Hh|(? & Ht' & Ho)]]; [by left|..].
    + rewrite !fmap_app, fmap_cons, !elem_of_app, elem_of_cons in *. cbn in Hh. destruct Hh as [?|[?|[->|?]]]; [tauto|tauto| |tauto].
      right; right. split_and!; [done|apply union_subseteq_l|]. intros e He. apply elem_of_app. by right.
    + right; right. split_and!; [done|etrans; [exact Ht'|apply union_subseteq_r]|]. intros e He. apply elem_of_app. left. auto.
  - intros e [He|He]%elem_of_app; [auto|]. by exists id.
Qed.

Lemma step_ok s s' : sstep LoadTree LookupBlobSize workers C s s' -> stream_ok s -> finished s' = None -> stream_ok s'.
Proof using HC.
  intros Hstep Hok Hf. destruct Hstep; cbn in Hf; try done; clear Hf.
  - by eapply skip_ok.
  - by apply pick_ok.
  - eapply flight_ok; [|done]. cbn. by erewrite (pool_put_ids _ _ _ _ _ H).
  - eapply flight_ok; [|done]. by rewrite (pool_take_ids _ _ H).
  - by eapply recv_ok.
  - destruct Hok. by split.
  - by eapply consume_ok.
Qed.

Definition final_ok (s : stream Out) : Prop :=
  match finished s with
  | None => stream_ok s
  | Some r =>
      (r = Ok tt /\ (forall id, visited id -> c_stop C (id, LoadTree id) = None) /\ (forall h, h ∈ used_blobs s <-> h ∈ blobs \/ used h) /\
        (forall e, e ∈ output s <-> exists id, visited id /\ e ∈ c_report C (id, LoadTree id)) /\ progress s = zlen trees) \/
      (exists id, visited id /\ c_stop C (id, LoadTree id) = Some r)
  end.

Lemma counters_end s : counters_ok s -> backlog s = [] -> in_flight s = [] -> progress s = zlen trees.
Proof.
  intros [_ H2 H3] Hb Hf. rewrite H3, H2. unfold tracked. rewrite Hb, Hf. cbn. rewrite filter_all; [unfold zlen; by rewrite length_fmap, length_seq|].
  by apply Forall_fmap, Forall_true.
Qed.

Lemma final_step s s' : sstep LoadTree LookupBlobSize workers C s s' -> counters_ok s -> final_ok s -> final_ok s'.
Proof using HC.
  intros Hstep Hc Hok. unfold final_ok in *. assert (finished s = None) as Hf by by destruct Hstep. rewrite Hf in Hok.
  destruct (finished s') as [o'|] eqn:Ef; [|by eapply step_ok]. destruct Hstep; cbn in Ef; try done; injection Ef as <-.
  - right. destruct it as [id r']. assert (visited id /\ r' = LoadTree id) as [Hv ->]; [|by exists id].
    apply (so_hand _ Hok (id, r')). unfold in_hand. cbn. set_solver.
  - left. destruct (exit_ok _ Hok) as (H1 & H2 & H3); [done..|]. split_and!; [done..|]. by apply (counters_end _ Hc).
Qed.

Lemma run_ok_ s : rtc (sstep LoadTree LookupBlobSize workers C) (init_stream trees blobs) s -> counters_ok s /\ final_ok s.
Proof using HC.
  assert (forall s s', rtc (sstep LoadTree LookupBlobSize workers C) s s' -> counters_ok s /\ final_ok s -> counters_ok s' /\ final_ok s') as H.
  { induction 1 as [|s1 s2 s3 Hs _ IH]; [done|]. intros [Hc Hf]. apply IH. split; [by eapply counters_step|by eapply final_step]. }
  intros Hr. apply (H _ _ Hr). split; [apply counters_init|apply init_ok].
Qed.

(** ** The steps come to an end *)

Definition weight (id : ID) : nat := length (new_trees (LoadTree id)).
Definition unseen (U : list ID) (b : gset BlobHandle) : nat :=
  sum_list_with (fun id => if decide (tree_handle id ∈ b) then 0%nat else (6 + weight id)%nat) U.

Definition measure (U : list ID) (s : stream Out) : nat :=
  (unseen U (used_blobs s) + match nextTreeID s with Some x => 5 + weight x.1 | None => 0 end
  + sum_list_with (fun x : trackedID => (3 + weight x.1)%nat) (pool_ids (loading s)) + length (hugeTreeChan (loading s)) + 2 * length (option_list (job s)) + length (current s)
  + length (backlog s) + match finished s with None => 1 | Some _ => 0 end)%nat.

Lemma unseen_mono U b b' : b ⊆ b' -> (unseen U b' <= unseen U b)%nat.
Proof.
  clear HC LookupBlobSize. intros Hb. induction U as [|id U IH]; [done|]. unfold unseen in *. cbn [sum_list_with].
  destruct (decide (tree_handle id ∈ b)), (decide (tree_handle id ∈ b')); first [lia|set_solver].
Qed.

Lemma unseen_pick U b id : id ∈ U -> tree_handle id ∉ b -> (unseen U ({[tree_handle id]} ∪ b) + (6 + weight id) <= unseen U b)%nat.
Proof.
  clear HC LookupBlobSize. intros Hin Hn. induction U as [|x U IH]; [by apply not_elem_of_nil in Hin|]. apply elem_of_cons in Hin as [->|Hin]; [clear IH|specialize (IH Hin)]; unfold unseen in *; cbn [sum_list_with].
  - rewrite (decide_True (P := tree_handle x ∈ {[tree_handle x]} ∪ b)), (decide_False (P := tree_handle x ∈ b)) by set_solver.
    pose proof (unseen_mono U b ({[tree_handle x]} ∪ b) ltac:(set_solver)) as Hm. unfold unseen in Hm. lia.
  - destruct (decide (tree_handle x ∈ b)), (decide (tree_handle x ∈ {[tree_handle id]} ∪ b)); first [lia|set_solver].
Qed.

Lemma pool_sum (f : trackedID -> nat) l l' : l ≡ₚ l' -> sum_list_with f l = sum_list_with f l'.
Proof. induction 1; cbn; lia. Qed.

Lemma pool_put_queue x lo lo' : pool_put LookupBlobSize workers x lo = Some lo' -> (length (hugeTreeChan lo') <= S (length (hugeTreeChan lo)))%nat.
Proof. clear HC. unfold pool_put. destruct (is_huge _ _), (Nat.ltb _ _); try done; intros [= <-]; cbn; rewrite ?length_app; cbn; lia. Qed.

Lemma pool_take_queue lo lo' : pool_take lo = Some lo' -> length (hugeTreeChan lo) = S (length (hugeTreeChan lo')).
Proof. unfold pool_take. destruct lo as [l [|x q] [y|]]; try done. by intros [= <-]. Qed.

Lemma pool_get_queue lo x lo' : pool_get lo x lo' -> hugeTreeChan lo' = hugeTreeChan lo.
Proof. by intros []. Qed.

Lemma step_measure (U : list ID) s s' :
  (forall id, visited id -> id ∈ U) -> sstep LoadTree LookupBlobSize workers C s s' -> stream_ok s -> (measure U s' < measure U s)%nat.
Proof.
  clear HC. intros HU Hstep Hok. destruct Hstep; unfold measure; cbn; try lia.
  - destruct Hok as [H1 _ H3 _ _ _ _ _]. cbn in *. assert (visited id) as Hv by (destruct (H3 (id, idx)) as [Hb|?]; [left|by apply H1 in Hb|done]).
    pose proof (unseen_pick U b id (HU id Hv) H). lia.
  - pose proof (pool_put_queue _ _ _ H). rewrite (pool_sum _ _ _ (pool_put_ids _ _ _ _ _ H)). cbn. lia.
  - rewrite (pool_take_ids _ _ H), (pool_take_queue _ _ H). lia.
  - rewrite (pool_sum _ _ _ (pool_get_ids _ _ _ H0)), (pool_get_queue _ _ _ H0), length_app, length_fmap. cbn.
    change (length (new_trees (LoadTree id))) with (weight id). lia.
  - pose proof (unseen_mono U b (c_contents C it ∪ b) ltac:(set_solver)). rewrite !length_app. cbn. lia.
  - rewrite !length_app. cbn. lia.
Qed.

Lemma steps_end (U : list ID) s : (forall id, visited id -> id ∈ U) -> final_ok s -> counters_ok s -> Acc (fun s2 s1 => sstep LoadTree LookupBlobSize workers C s1 s2) s.
Proof using HC.
  intros HU. remember (measure U s) as n eqn:En. assert (measure U s <= n)%nat as Hn by lia. clear En. revert s Hn.
  induction n as [|n IH]; intros s Hn Hf Hc; constructor; intros s2 Hs.
  - exfalso. assert (finished s = None) as E by by destruct Hs. unfold measure in Hn. rewrite E in Hn. lia.
  - apply IH; [|by eapply final_step|by eapply counters_step]. assert (finished s = None) as E by by destruct Hs.
    unfold final_ok in Hf. rewrite E in Hf. pose proof (step_measure U _ _ HU Hs Hf). lia.
Qed.
End Facts.

Lemma visited_roots LoadTree trees trees' blobs id : trees ⊆ trees' -> visited LoadTree trees blobs id -> visited LoadTree trees' blobs id.
Proof. intros Hsub. induction 1 as [id Hid|id t sub Hv IH]; [apply v_root; auto|by eapply v_sub]. Qed.

(** ** [FindUsedBlobs] *)

Lemma used_blobs_no_trees it id : tree_handle id ∉ c_contents used_blobs_consumer it.
Proof. cbn. destruct (it.2); [apply tree_not_data|apply not_elem_of_empty..]. Qed.


(** C32. On a repository with finitely many trees to visit every schedule of the loop, its
    workers - one for huge trees and at least one for the others - and the consumer ends:
    there is no infinite run, and a state that is not final has a next step, so the
    goroutines never wait for each other in a circle. *)
Theorem find_used_blobs_ends (LoadTree : ID -> outcome (list Node)) (LookupBlobSize : BlobHandle -> option Z) (connections gomaxprocs : nat)
    (trees : list ID) (blobs : gset BlobHandle) (U : list ID)
    (Hprocs : (0 < gomaxprocs)%nat) (HU : forall id, visited LoadTree trees blobs id -> id ∈ U) :
  let step := sstep LoadTree LookupBlobSize (workerCount connections gomaxprocs) used_blobs_consumer in
  Acc (fun s2 s1 => step s1 s2) (init_stream trees blobs) /\
  (forall s, rtc step (init_stream trees blobs) s -> finished s = None -> exists s', step s s').
Proof.
  split.
  - apply (steps_end LoadTree _ trees blobs _ _ used_blobs_no_trees U); [done|apply init_ok|apply counters_init].
  - intros s _ Hf. destruct (schedule_total LoadTree LookupBlobSize (workerCount connections gomaxprocs) used_blobs_consumer s) as [s' Hs]; [unfold workerCount; lia|done|].
    exists s'. apply schedule_step; [|done]. cbn. lia.
Qed.

(** ** A repository of two trees *)

Definition ex_tree_id (n : Z) : ID := copy_id [byte_of_Z n].
Definition ex_file (name : string) (content : list ID) : Node :=
  mkNode name "file" 0 time_zero time_zero time_zero 0 0 "" "" 0 0 0 0 "" [] 0 (Some content) None "" "".
Definition ex_load (id : ID) : outcome (list Node) :=
  if bool_decide (id = ex_tree_id 1) then Ok [ex_file "a" [ex_tree_id 10]; ex_node "d" "dir" (Some (ex_tree_id 2))]
  else if bool_decide (id = ex_tree_id 2) then Ok [ex_file "b" [ex_tree_id 11]]
  else Err (ErrMsg "tree not found").

(** The second tree is huge. *)
Definition ex_size (h : BlobHandle) : option Z := Some (if bool_decide (h = tree_handle (ex_tree_id 2)) then 60 * 1024 * 1024 else 1000).
Definition ex_run : stream Empty_set := run_schedule ex_load ex_size (workerCount 2 1) used_blobs_consumer 100 (init_stream [ex_tree_id 1] ∅).

(** A loop that waits for the worker of the huge trees has a step to go on with. *)
Example full_channel_goes_on :
  let lo := mkPool [] (replicate 10 (ex_tree_id 2, 0%nat)) (Some (ex_tree_id 2, 0%nat)) in
  pool_put ex_size 4 (ex_tree_id 2, 0%nat) lo = None /\ pool_put ex_size 4 (ex_tree_id 1, 0%nat) lo <> None /\
  schedule ex_load ex_size 4 used_blobs_consumer (mkStream [] (Some (ex_tree_id 2, 0%nat)) lo None [0] 0 [] ∅ [] None) <> None.
Proof. by vm_compute. Qed.


Lemma find_used_blobs_ends_witness : Acc (fun s2 s1 => sstep ex_load ex_size (workerCount 2 1) used_blobs_consumer s1 s2) (init_stream [ex_tree_id 1] ∅).
Proof.
  refine (proj1 (find_used_blobs_ends ex_load ex_size 2 1 [ex_tree_id 1] ∅ [ex_tree_id 1; ex_tree_id 2] _ _)); [lia|]. intros id Hv.
  induction Hv as [id Hid _|id t sub _ IH Hl Hs Hn _].
  - apply list_elem_of_singleton in Hid as ->. left.
  - unfold ex_load in Hl. case_bool_decide; [|case_bool_decide; [|discriminate Hl]]; injection Hl as <-; vm_compute in Hs.
    + apply list_elem_of_singleton in Hs as ->. right; left.
    + by apply not_elem_of_nil in Hs.
Defined.
