(* ===== verification/Walker.v ===== *)
(** Walking and rewriting trees (src/walker/walker.go and rewriter.go).

    The callbacks are functions on a state of their own; the errors a callback
    returns are those of [walk_err].  The recursion over subtrees takes fuel: the
    depth of the tree is enough. *)

From S2P Require Import Prelude Bytes GoString Restic GoTime Snapshot Tree.

#[local] Open Scope Z_scope.

Definition out_of_depth : error := ErrMsg "out of fuel".

(** * Walk *)

Inductive walk_err := NoError | ErrSkipNode | WalkError (e : error).

Section Walk.
Context {S : Type} (LoadTree : ID -> outcome (list Node)).

(** [walkFn(parentTreeID, path, node, nodeErr)]: its state, [ignore] and the
    error. *)
Context (walkFn : S -> ID -> string -> option Node -> option error -> S * bool * walk_err).

(** A tree pointer is nil when the tree could not be loaded. *)
Definition load_ptr (id : ID) : option (list Node) * option error * option string :=
  match LoadTree id with
  | Ok t => (Some t, None, None)
  | Err e => (None, Some e, None)
  | Panic p => (None, None, Some p)
  end.

(** The state, [ignoreTrees], and the result [ignore]. *)
Definition walk_result : Type := S * gset ID * outcome bool.

(** The loop over the nodes; [rec] walks a subtree. *)
Fixpoint walk_nodes (rec : string -> ID -> option (list Node) -> gset ID -> S -> walk_result) (prefix : string) (parentTreeID : ID)
    (nodes : list Node) (allNodesIgnored : bool) (ignoreTrees : gset ID) (s : S) : walk_result :=
  match nodes with
  | [] => (s, ignoreTrees, Ok allNodesIgnored)
  | node :: nodes =>
      let p := path_Join [prefix; n_Name node] in
      if String.eqb (n_Type node) "" then (s, ignoreTrees, Err (ErrMsg "node type is empty for node %q"))
      else if negb (String.eqb (n_Type node) "dir") then
        match walkFn s parentTreeID p (Some node) None with
        | (s, ignore, ErrSkipNode) => (s, ignoreTrees, Ok allNodesIgnored)
        | (s, ignore, WalkError e) => (s, ignoreTrees, Err e)
        | (s, ignore, NoError) => walk_nodes rec prefix parentTreeID nodes (allNodesIgnored && ignore) ignoreTrees s
        end
      else
        match n_Subtree node with
        | None => (s, ignoreTrees, Err (ErrMsg "subtree for node %v in tree %v is nil"))
        | Some sub =>
            if bool_decide (sub ∈ ignoreTrees) then walk_nodes rec prefix parentTreeID nodes allNodesIgnored ignoreTrees s
            else
              match load_ptr sub with
              | (_, _, Some panic) => (s, ignoreTrees, Panic panic)
              | (subtree, err, None) =>
                  match walkFn s parentTreeID p (Some node) err with
                  | (s, ignore, ErrSkipNode) =>
                      walk_nodes rec prefix parentTreeID nodes allNodesIgnored (if ignore then {[sub]} ∪ ignoreTrees else ignoreTrees) s
                  | (s, ignore, WalkError e) => (s, ignoreTrees, Err e)
                  | (s, ignore, NoError) =>
                      let ignoreTrees := if ignore then {[sub]} ∪ ignoreTrees else ignoreTrees in
                      let allNodesIgnored := allNodesIgnored && ignore in
                      match rec p sub subtree ignoreTrees s with
                      | (s, ignoreTrees, Ok ignore) =>
                          walk_nodes rec prefix parentTreeID nodes (allNodesIgnored && ignore)
                            (if ignore then {[sub]} ∪ ignoreTrees else ignoreTrees) s
                      | (s, ignoreTrees, Err e) => (s, ignoreTrees, Err e)
                      | (s, ignoreTrees, Panic p) => (s, ignoreTrees, Panic p)
                      end
                  end
              end
        end
  end.

Definition nil_tree : string := "nil pointer dereference".

Fixpoint walk (fuel : nat) (prefix : string) (parentTreeID : ID) (tree : option (list Node)) (ignoreTrees : gset ID) (s : S) : walk_result :=
  match tree, fuel with
  | None, _ => (s, ignoreTrees, Panic nil_tree)
  | Some _, O => (s, ignoreTrees, Err out_of_depth)
  | Some nodes, Datatypes.S fuel =>
      walk_nodes (walk fuel) prefix parentTreeID (Tree_Sort nodes) (negb (Nat.eqb (length nodes) 0)) ignoreTrees s
  end.

Definition Walk (fuel : nat) (root : ID) (ignoreTrees : option (gset ID)) (s : S) : S * gset ID * outcome unit :=
  match load_ptr root with
  | (_, _, Some panic) => (s, default ∅ ignoreTrees, Panic panic)
  | (tree, err, None) =>
      match walkFn s root "/" None err with
      | (s, _, ErrSkipNode) => (s, default ∅ ignoreTrees, Ok tt)
      | (s, _, WalkError e) => (s, default ∅ ignoreTrees, Err e)
      | (s, _, NoError) =>
          match walk fuel "/" root tree (default ∅ ignoreTrees) s with
          | (s, ign, r) => (s, ign, try _ <- r; Ok tt)
          end
      end
  end.
End Walk.

(** * Rewriting *)

Section Rewrite.
Context {St : Type} (LoadTree : St -> ID -> outcome (list Node)) (json_Marshal : list Node -> outcome (list byte))
  (marshal : Node -> outcome (list byte)) (SaveBlob : St -> list byte -> St * ID * outcome unit).

(** [NewTreeRewriter] sets the functions that are nil. *)
Record RewriteOpts := mkRewriteOpts {
  RewriteNode : Node -> string -> option Node;
  RewriteFailedTree : ID -> string -> error -> outcome ID;
  AllowUnstableSerialization : bool;
  DisableNodeCache : bool }.

Definition default_RewriteNode (node : Node) (path : string) : option Node := Some node.
Definition default_RewriteFailedTree (nodeID : ID) (path : string) (err : error) : outcome ID := Err err.
Definition NewTreeRewriter (node : option (Node -> string -> option Node)) (failed : option (ID -> string -> error -> outcome ID))
    (unstable nocache : bool) : RewriteOpts * option (gmap ID ID) :=
  (mkRewriteOpts (default default_RewriteNode node) (default default_RewriteFailedTree failed) unstable nocache,
   if nocache then None else Some ∅).

Context (opts : RewriteOpts).

Definition rewrite_state : Type := St * option (gmap ID ID).

(** [json.Marshal] of a tree, and [repo.SaveBlob]; the ID that is returned with
    an error is used by the code below. *)
Definition save_tree (s : St) (t : list Node) : St * outcome ID :=
  match wrap_err "MarshalJSON" (json_Marshal t) with
  | Err e => (s, Err e)
  | Panic p => (s, Panic p)
  | Ok buf => let '(s, id, r) := SaveBlob s (buf ++ [newline]) in (s, try _ <- r; Ok id)
  end.

Fixpoint rewrite_nodes (rec : rewrite_state -> string -> ID -> rewrite_state * outcome ID) (st : rewrite_state) (nodepath : string)
    (tb : TreeJSONBuilder) (nodes : list Node) : rewrite_state * outcome TreeJSONBuilder :=
  match nodes with
  | [] => (st, Ok tb)
  | node :: nodes =>
      let path := path_Join [nodepath; n_Name node] in
      match RewriteNode opts node path with
      | None => rewrite_nodes rec st nodepath tb nodes
      | Some node =>
          if negb (String.eqb (n_Type node) "dir") then
            match AddNode marshal tb node with
            | (tb, Ok _) => rewrite_nodes rec st nodepath tb nodes
            | (_, Err e) => (st, Err e)
            | (_, Panic p) => (st, Panic p)
            end
          else
            match rec st path (default nullID (n_Subtree node)) with
            | (st, Err e) => (st, Err e)
            | (st, Panic p) => (st, Panic p)
            | (st, Ok newID) =>
                match AddNode marshal tb (set_Subtree node (Some newID)) with
                | (tb, Ok _) => rewrite_nodes rec st nodepath tb nodes
                | (_, Err e) => (st, Err e)
                | (_, Panic p) => (st, Panic p)
                end
            end
      end
  end.

Fixpoint RewriteTree (fuel : nat) (st : rewrite_state) (nodepath : string) (nodeID : ID) : rewrite_state * outcome ID :=
  match fuel with
  | O => (st, Err out_of_depth)
  | S fuel =>
      match st.2 ≫= fun replaces => replaces !! nodeID with
      | Some newID => (st, Ok newID)
      | None =>
          match LoadTree st.1 nodeID with
          | Panic p => (st, Panic p)
          | Err e => (st, RewriteFailedTree opts nodeID nodepath e)
          | Ok curTree =>
              let '(s, testID) := if AllowUnstableSerialization opts then (st.1, Ok nodeID) else save_tree st.1 curTree in
              match testID with
              | Err e => ((s, st.2), Err e)
              | Panic p => ((s, st.2), Panic p)
              | Ok testID =>
                  if negb (bool_decide (nodeID = testID)) then ((s, st.2), Err (ErrMsg "cannot encode tree at %q without losing information"))
                  else
                    match rewrite_nodes (RewriteTree fuel) (s, st.2) nodepath NewTreeJSONBuilder curTree with
                    | (st, Err e) => (st, Err e)
                    | (st, Panic p) => (st, Panic p)
                    | (st, Ok tb) =>
                        match (Builder_Finalize tb).2 with
                        | Err e => (st, Err e)
                        | Panic p => (st, Panic p)
                        | Ok tree =>
                            let '(s, newTreeID, err) := SaveBlob st.1 tree in
                            ((s, (fun replaces => <[nodeID := newTreeID]> replaces) <$> st.2), try _ <- err; Ok newTreeID)
                        end
                    end
              end
          end
      end
  end.
End Rewrite.

(** * Walking is iterating over the preorder *)

Section WalkFacts.
Context {S : Type} (LoadTree : ID -> outcome (list Node))
  (walkFn : S -> ID -> string -> option Node -> option error -> S * bool * walk_err).

(** A tree of depth [n] that can be walked. *)
Fixpoint walkable (n : nat) (t : list Node) : Prop :=
  match n with
  | O => False
  | Datatypes.S n =>
      Forall (fun node => n_Type node <> "" /\
        (n_Type node = "dir" -> exists sub t', n_Subtree node = Some sub /\ LoadTree sub = Ok t' /\ walkable n t')) t
  end.

(** What there is to visit below a tree, in order: each directory before its
    entries, the entries by name. *)
Definition visit_item : Type := ID * string * Node.
Fixpoint preorder (n : nat) (prefix : string) (id : ID) (t : list Node) : list visit_item :=
  match n with
  | O => []
  | Datatypes.S n =>
      concat ((fun node =>
        (id, path_Join [prefix; n_Name node], node) ::
        (if String.eqb (n_Type node) "dir" then
           match n_Subtree node with
           | Some sub => match LoadTree sub with Ok t' => preorder n (path_Join [prefix; n_Name node]) sub t' | _ => [] end
           | None => []
           end
         else [])) <$> Tree_Sort t)
  end.

(** The calls for a list of items, up to the first error. *)
Fixpoint visit (s : S) (l : list visit_item) : S * outcome unit :=
  match l with
  | [] => (s, Ok tt)
  | (id, p, node) :: l =>
      match walkFn s id p (Some node) None with
      | (s, _, WalkError e) => (s, Err e)
      | (s, _, _) => visit s l
      end
  end.

Lemma visit_app s l1 l2 : visit s (l1 ++ l2) = match visit s l1 with (s, Ok _) => visit s l2 | r => r end.
Proof.
  revert s; induction l1 as [|[[id p] node] l1 IH]; intros s; cbn; [done|].
  destruct (walkFn s id p (Some node) None) as [[s' ig] [| |e]]; auto.
Qed.

Definition never_skips : Prop := forall s id p n err, exists s' e, walkFn s id p n err = (s', false, e) /\ e <> ErrSkipNode.

(** The result of walking, from that of the calls. *)
Definition of_visit (r : S * outcome unit) (all : bool) : walk_result (S := S) :=
  match r with (s, Ok _) => (s, ∅, Ok all) | (s, Err e) => (s, ∅, Err e) | (s, Panic p) => (s, ∅, Panic p) end.

Lemma of_visit_app s l1 l2 all :
  of_visit (visit s (l1 ++ l2)) all = match visit s l1 with (s, Ok _) => of_visit (visit s l2) all | r => of_visit r all end.
Proof. rewrite visit_app. by destruct (visit s l1) as [s' [[]|e|p]]. Qed.

Lemma load_ptr_ok id t : LoadTree id = Ok t -> load_ptr LoadTree id = (Some t, None, None).
Proof. unfold load_ptr. by intros ->. Qed.

Lemma walk_nodes_visit (Hns : never_skips) n prefix id nodes :
  (forall prefix id t s, walkable n t -> walk LoadTree walkFn n prefix id (Some t) ∅ s = of_visit (visit s (preorder n prefix id t)) false) ->
  walkable (Datatypes.S n) nodes -> forall all s,
  walk_nodes LoadTree walkFn (walk LoadTree walkFn n) prefix id nodes all ∅ s =
    of_visit (visit s (concat ((fun node =>
        (id, path_Join [prefix; n_Name node], node) ::
        (if String.eqb (n_Type node) "dir" then
           match n_Subtree node with
           | Some sub => match LoadTree sub with Ok t' => preorder n (path_Join [prefix; n_Name node]) sub t' | _ => [] end
           | None => []
           end
         else [])) <$> nodes))) (match nodes with [] => all | _ => false end).
Proof.
  intros IH. induction nodes as [|node nodes IHn]; intros Hw all s; [done|]. cbn [walkable] in Hw. apply Forall_cons in Hw as [[Ht Hd] Hw].
  assert (forall s all', of_visit (visit s (concat ((fun node =>
        (id, path_Join [prefix; n_Name node], node) ::
        (if String.eqb (n_Type node) "dir" then
           match n_Subtree node with
           | Some sub => match LoadTree sub with Ok t' => preorder n (path_Join [prefix; n_Name node]) sub t' | _ => [] end
           | None => []
           end
         else [])) <$> nodes))) (match nodes with [] => all' | _ => false end) = walk_nodes LoadTree walkFn (walk LoadTree walkFn n) prefix id nodes all' ∅ s) as IHn'.
  { intros s' all'. by rewrite IHn. }
  clear IHn. cbn [fmap list_fmap concat walk_nodes]. rewrite (proj2 (String.eqb_neq _ _) Ht).
  set (p := path_Join [prefix; n_Name node]). rewrite <- app_comm_cons. cbn [visit].
  destruct (String.eqb_spec (n_Type node) "dir") as [Hdir|Hdir]; cbn [negb].
  - destruct (Hd Hdir) as (sub & t' & Hsub & Hl & Hwt). rewrite Hsub, bool_decide_eq_false_2 by set_solver. rewrite (load_ptr_ok _ _ Hl), Hl.
    destruct (Hns s id p (Some node) None) as (s' & e & Ew & He). rewrite Ew. destruct e as [| |e]; [|done|done].
    rewrite (IH p sub t' s' Hwt), of_visit_app. destruct (visit s' (preorder n p sub t')) as [s2 [[]|e|e]]; cbn [of_visit]; [|done..].
    rewrite andb_false_r, <- IHn'. by destruct nodes.
  - destruct (Hns s id p (Some node) None) as (s' & e & Ew & He). rewrite Ew. destruct e as [| |e]; [|done|done].
    rewrite andb_false_r, app_nil_l, <- IHn'. by destruct nodes.
Qed.

Lemma walkable_perm n t t' : t ≡ₚ t' -> walkable n t -> walkable n t'.
Proof. destruct n as [|n]; [done|]. cbn. by intros ->. Qed.

Lemma walk_visit (Hns : never_skips) n prefix id t s :
  walkable n t -> walk LoadTree walkFn n prefix id (Some t) ∅ s = of_visit (visit s (preorder n prefix id t)) false.
Proof.
  revert prefix id t s. induction n as [|n IH]; intros prefix id t s Hw; [done|]. cbn [walk].
  rewrite (walk_nodes_visit Hns n prefix id (Tree_Sort t) IH); [|eapply walkable_perm; [symmetry; apply go_sort_Permutation|done]].
  cbn [preorder]. f_equal. destruct t as [|x t]; [done|]. cbn [length Nat.eqb negb].
  destruct (Tree_Sort (x :: t)) eqn:E; [|done]. pose proof (go_sort_Permutation node_less (x :: t)) as Hp. unfold Tree_Sort in E. rewrite E in Hp.
  by apply Permutation_nil_l in Hp.
Qed.
End WalkFacts.

(** With a callback that does not skip or ignore nodes, [Walk] calls it for the
    root and then for the nodes below it in preorder, each directory before its
    entries and these by name, up to the first error that the callback returns. *)
Theorem walk_preorder {S : Type} (LoadTree : ID -> outcome (list Node))
    (walkFn : S -> ID -> string -> option Node -> option error -> S * bool * walk_err)
    (Hns : never_skips walkFn) (n : nat) (root : ID) (t : list Node) (s : S)
    (Hl : LoadTree root = Ok t) (Hw : walkable LoadTree n t) :
  Walk LoadTree walkFn n root None s =
    match walkFn s root "/" None None with
    | (s, _, WalkError e) => (s, ∅, Err e)
    | (s, _, _) => let '(s, r) := visit walkFn s (preorder LoadTree n "/" root t) in (s, ∅, r)
    end.
Proof.
  unfold Walk. rewrite (load_ptr_ok _ _ _ Hl). destruct (Hns s root "/" None None) as (s' & e & -> & He).
  destruct e as [| |e]; [|done|done]. cbn [default from_option]. rewrite (walk_visit _ _ Hns) by done.
  by destruct (visit walkFn s' _) as [s2 [[]|e|p]].
Qed.

(** A callback that ignores the error of a tree that does not load makes [Walk]
    dereference a nil pointer. *)
Theorem walk_ignored_error_panics {S : Type} (LoadTree : ID -> outcome (list Node))
    (walkFn : S -> ID -> string -> option Node -> option error -> S * bool * walk_err)
    (n : nat) (root : ID) (e : error) (s s' : S) (ignore : bool) (ign : option (gset ID))
    (Hl : LoadTree root = Err e) (Hfn : walkFn s root "/" None (Some e) = (s', ignore, NoError)) :
  (Walk LoadTree walkFn n root ign s).2 = Panic nil_tree.
Proof. unfold Walk, load_ptr. rewrite Hl, Hfn. by destruct n. Qed.

Definition ex_walk_id (n : Z) : ID := copy_id [byte_of_Z n].
Definition ex_walk_load (id : ID) : outcome (list Node) :=
  if bool_decide (id = ex_walk_id 1) then Ok [ex_node "d" "dir" (Some (ex_walk_id 2)); ex_node "a" "file" None]
  else if bool_decide (id = ex_walk_id 2) then Ok [ex_node "b" "file" None]
  else Err (ErrMsg "tree not found").
Definition ex_record_path (s : list string) (_ : ID) (p : string) (_ : option Node) (err : option error) : list string * bool * walk_err :=
  (s ++ [p], false, match err with None => NoError | Some e => WalkError e end).

Lemma walk_preorder_witness : Walk ex_walk_load ex_record_path 2 (ex_walk_id 1) None [] = (["/"; "/a"; "/d"; "/d/b"], ∅, Ok tt).
Proof.
  rewrite (walk_preorder ex_walk_load ex_record_path) with (t := [ex_node "d" "dir" (Some (ex_walk_id 2)); ex_node "a" "file" None]).
  - vm_compute. reflexivity.
  - intros s id p n err. unfold ex_record_path. destruct err; eexists _, _; (split; [reflexivity|discriminate]).
  - reflexivity.
  - cbn [walkable]. repeat constructor; try discriminate. intros _. exists (ex_walk_id 2), [ex_node "b" "file" None].
    split; [reflexivity|]. split; [vm_compute; reflexivity|]. repeat constructor; discriminate.
Defined.

Lemma walk_ignored_error_panics_witness :
  (Walk (fun _ => Err (ErrMsg "tree not found")) (fun s _ _ _ _ => (s, false, NoError)) 5 (ex_walk_id 1) None tt).2 = Panic nil_tree.
Proof. eapply walk_ignored_error_panics; reflexivity. Defined.

(** * Rewriting without changes *)

Section RewriteFacts.
Context {St : Type} (LoadTree : St -> ID -> outcome (list Node)) (json_Marshal : list Node -> outcome (list byte))
  (marshal : Node -> outcome (list byte)) (SaveBlob : St -> list byte -> St * ID * outcome unit) (hash : list byte -> ID).

(** What the rewriter relies on: a saved blob has the hash of its content as its
    ID and the trees that were there remain, and the JSON of a tree is that of its
    nodes. *)
Record rewrite_env : Prop := {
  re_save s data : exists s', SaveBlob s data = (s', hash data, Ok tt) /\ forall id t, LoadTree s id = Ok t -> LoadTree s' id = Ok t;
  re_json t vals : Forall2 (fun n v => marshal n = Ok v) t vals -> json_Marshal t = Ok (frame vals) }.

(** A tree of depth [n] that the repository stores as this version writes it. *)
Fixpoint stored (s : St) (n : nat) (id : ID) : Prop :=
  match n with
  | O => False
  | S n => exists t vals, LoadTree s id = Ok t /\ Forall2 (fun n v => marshal n = Ok v) t vals /\ ordered t /\
      hash (frame vals ++ [newline]) = id /\
      Forall (fun node => n_Type node = "dir" -> exists sub, n_Subtree node = Some sub /\ stored s n sub) t
  end.

Definition extends (s s' : St) : Prop := forall id t, LoadTree s id = Ok t -> LoadTree s' id = Ok t.

Lemma stored_extends s s' n id : extends s s' -> stored s n id -> stored s' n id.
Proof.
  intros He. revert id. induction n as [|n IH]; intros id; [done|]. cbn. intros (t & vals & Hl & Hv & Ho & Hh & Hd).
  exists t, vals. split_and!; [by apply He|done..|]. eapply Forall_impl; [exact Hd|]. intros node Hn Ht. destruct (Hn Ht) as (sub & ? & ?). eauto.
Qed.

Definition cache_ok (m : option (gmap ID ID)) : Prop := forall r k v, m = Some r -> r !! k = Some v -> v = k.

Context (Henv : rewrite_env) (opts : RewriteOpts) (Hid : forall node path, RewriteNode opts node path = Some node)
  (Hstable : AllowUnstableSerialization opts = false).

Abbreviation rewrite := (RewriteTree LoadTree json_Marshal marshal SaveBlob opts).
Abbreviation rw_state := (rewrite_state (St := St)).

Definition unchanged (n : nat) : Prop := forall (st : rw_state) path id,
  stored st.1 n id -> cache_ok st.2 -> exists st' : rw_state, rewrite n st path id = (st', Ok id) /\ extends st.1 st'.1 /\ cache_ok st'.2.

Lemma set_Subtree_same node sub : n_Subtree node = Some sub -> set_Subtree node (Some sub) = node.
Proof. destruct node; cbn. by intros ->. Qed.

Lemma rewrite_nodes_unchanged n path nodes : unchanged n -> forall (st : rw_state) tb tb',
  Forall (fun node => n_Type node = "dir" -> exists sub, n_Subtree node = Some sub /\ stored st.1 n sub) nodes ->
  cache_ok st.2 ->
  ofold (fun b node => let '(b, r) := AddNode marshal b node in try _ <- r; Ok b) tb nodes = Ok tb' ->
  exists st' : rw_state, rewrite_nodes marshal opts (rewrite n) st path tb nodes = (st', Ok tb') /\ extends st.1 st'.1 /\ cache_ok st'.2.
Proof using Hid.
  intros Hrec. induction nodes as [|node nodes IH]; intros st tb tb' Hd Hc Hadd.
  - cbn in Hadd. injection Hadd as <-. exists st. split_and!; [done|by intros ? ?|done].
  - apply Forall_cons in Hd as [Hn Hd]. cbn [ofold] in Hadd. apply bind_Ok in Hadd as (tb1 & Hadd1 & Hadd).
    cbn [rewrite_nodes]. rewrite Hid. destruct (String.eqb_spec (n_Type node) "dir") as [Et|Et]; cbn [negb].
    + destruct (Hn Et) as (sub & Es & Hst). rewrite Es. change (default nullID (Some sub)) with sub.
      destruct (Hrec st (path_Join [path; n_Name node]) sub Hst Hc) as (st1 & Er & He & Hc1). rewrite Er, (set_Subtree_same _ _ Es).
      destruct (AddNode marshal tb node) as [tb2 [[]|e|p]]; [|done..]. cbn in Hadd1. injection Hadd1 as <-.
      destruct (IH st1 tb2 tb') as (st2 & ? & He2 & ?); [|done|done|].
      * eapply Forall_impl; [exact Hd|]. intros x Hx Hxt. destruct (Hx Hxt) as (sx & ? & ?). exists sx. split; [done|by eapply stored_extends].
      * exists st2. split_and!; [done| |done]. intros ? ? ?. by apply He2, He.
    + destruct (AddNode marshal tb node) as [tb2 [[]|e|p]]; [|done..]. cbn in Hadd1. injection Hadd1 as <-. by apply IH.
Qed.

Lemma rewrite_unchanged n : unchanged n.
Proof using Henv Hid Hstable.
  induction n as [|n IH]; intros [s m] path id Hst Hc; [done|]. cbn [RewriteTree fst snd] in *.
  destruct (m ≫= fun r => r !! id) as [newID|] eqn:Em.
  { destruct m as [r|]; [|done]. cbn in Em. rewrite (Hc r id newID eq_refl Em). exists (s, Some r). split_and!; [done|by intros ? ?|done]. }
  destruct Hst as (t & vals & Hl & Hv & Ho & Hh & Hd). rewrite Hl, Hstable. unfold save_tree. rewrite (re_json Henv t vals Hv). cbn [wrap_err].
  destruct (re_save Henv s (frame vals ++ [newline])) as (s1 & Es1 & He1). rewrite Es1. cbn [mbind outcome_bind]. rewrite Hh, bool_decide_eq_true_2 by done.
  cbn [negb]. pose proof (add_nodes_spec marshal t vals Hv) as Hadd. destruct (add_nodes marshal t) as [b|e|p] eqn:Ea; [|tauto|done].
  destruct Hadd as [_ ->]. destruct (rewrite_nodes_unchanged n path t IH (s1, m) NewTreeJSONBuilder
      (mkBuilder (json_open ++ elements_json vals) (last_name t)))
    as (st2 & Er & He2 & Hc2); [|done|exact Ea|].
  { eapply Forall_impl; [exact Hd|]. intros x Hx Hxt. destruct (Hx Hxt) as (sx & ? & ?). exists sx. split; [done|by apply (stored_extends s s1)]. }
  rewrite Er. cbn [Builder_Finalize snd tb_buf].
  assert ((json_open ++ elements_json vals) ++ json_close ++ [newline] = frame vals ++ [newline]) as -> by by unfold frame; rewrite <- !app_assoc.
  destruct (re_save Henv st2.1 (frame vals ++ [newline])) as (s3 & Es3 & He3). rewrite Es3, Hh. eexists. split; [done|]. split.
  - intros i u Hu. by apply He3, He2, He1.
  - intros r k v Hr Hk. destruct st2 as [s2 [r2|]]; cbn in Hr; [|done]. injection Hr as <-.
    apply lookup_insert_Some in Hk as [[<- <-]|[_ Hk]]; [done|]. by eapply Hc2.
Qed.
End RewriteFacts.

(** Rewriting a stored tree with a function that changes no node yields the same
    tree: its serialization is stable, and the builder writes the nodes as they
    were, with or without the cache. *)
Theorem rewrite_identity {St : Type} (LoadTree : St -> ID -> outcome (list Node)) (json_Marshal : list Node -> outcome (list byte))
    (marshal : Node -> outcome (list byte)) (SaveBlob : St -> list byte -> St * ID * outcome unit) (hash : list byte -> ID)
    (Henv : rewrite_env LoadTree json_Marshal marshal SaveBlob hash) (nocache : bool) (s : St) (n : nat) (path : string) (id : ID)
    (Hst : stored LoadTree marshal hash s n id) :
  let '(opts, replaces) := NewTreeRewriter None None false nocache in
  exists st', RewriteTree LoadTree json_Marshal marshal SaveBlob opts n (s, replaces) path id = (st', Ok id) /\
    (forall i t, LoadTree s i = Ok t -> LoadTree st'.1 i = Ok t).
Proof.
  unfold NewTreeRewriter. set (opts := mkRewriteOpts _ _ _ _).
  destruct (rewrite_unchanged LoadTree json_Marshal marshal SaveBlob hash Henv opts ltac:(done) eq_refl n (s, if nocache then None else Some ∅) path id Hst)
    as (st' & ? & ? & _); [|by exists st'].
  intros r k v Hr Hk. destruct nocache; [done|]. cbn in Hr. injection Hr as <-. by rewrite lookup_empty in Hk.
Qed.

Definition ex_marshal (n : Node) : outcome (list byte) := Ok (string_bytes (n_Name n)).
Definition ex_hash (data : list byte) : ID := copy_id data.
Definition ex_rewrite_tree : list Node := [ex_node "a" "file" None; ex_node "b" "file" None].
Definition ex_rewrite_id : ID := ex_hash (frame [string_bytes "a"; string_bytes "b"] ++ [newline]).
Definition ex_rewrite_load (_ : unit) (id : ID) : outcome (list Node) :=
  if bool_decide (id = ex_rewrite_id) then Ok ex_rewrite_tree else Err (ErrMsg "tree not found").

Lemma rewrite_identity_witness :
  exists st', RewriteTree ex_rewrite_load (fun t => Ok (frame ((fun n => string_bytes (n_Name n)) <$> t))) ex_marshal
    (fun _ data => (tt, ex_hash data, Ok tt)) (mkRewriteOpts default_RewriteNode default_RewriteFailedTree false false) 1 (tt, Some ∅) "/" ex_rewrite_id
    = (st', Ok ex_rewrite_id).
Proof.
  edestruct (rewrite_identity ex_rewrite_load (fun t => Ok (frame ((fun n => string_bytes (n_Name n)) <$> t))) ex_marshal
    (fun _ data => (tt, ex_hash data, Ok tt)) ex_hash) with (s := tt) (n := 1%nat) (path := "/") (id := ex_rewrite_id) (nocache := false) as (st' & E & _).
  - split.
    + intros [] data. exists tt. done.
    + intros t vals Hv. do 2 f_equal. induction Hv as [|x v t vals [= <-] _ IH]; cbn; congruence.
  - cbn [stored]. exists ex_rewrite_tree, [string_bytes "a"; string_bytes "b"]. split_and!.
    + unfold ex_rewrite_load. by rewrite bool_decide_eq_true_2.
    + repeat constructor.
    + split; repeat constructor; discriminate.
    + reflexivity.
    + repeat constructor; discriminate.
  - exists st'. exact E.
Defined.
