(* ===== verification/Filter.v ===== *)
(** Path patterns that include or exclude files (src/internal/filter/filter.go).

    A path is the list of its components, the first one "/" when it is absolute.
    A pattern is a list of parts, the empty one standing for "**". *)

From S2P Require Import Prelude Bytes GoString.

(** * Patterns *)

Record patternPart := mkPart { pattern : string; isSimple : bool }.
Record Pattern := mkPattern { original : string; parts : list patternPart; isNegated : bool }.

#[export] Instance patternPart_eq_dec : EqDecision patternPart.
Proof. solve_decision. Defined.

Definition ErrBadString : error := ErrMsg "filter.Match: string is empty".

Definition splitPath (p : string) : list string :=
  match split_on slash p with
  | w :: ws => (if String.eqb w "" then "/" else w) :: ws
  | [] => []
  end.

Definition prepareStr (str : string) : outcome (list string) :=
  if String.eqb str "" then Err ErrBadString else Ok (splitPath str).

(** [strings.ContainsAny(part, "\\[]*?")]. *)
Fixpoint has_meta (s : string) : bool :=
  match s with
  | EmptyString => false
  | String.String c s => is_code 92 c || is_code 91 c || is_code 93 c || is_code 42 c || is_code 63 c || has_meta s
  end.

Definition preparePart (part : string) : patternPart :=
  mkPart (if String.eqb part "**" then "" else part) (negb (has_meta part)).

(** [patternStr[0]] panics on the empty string, which callers exclude. *)
Definition preparePattern (patternStr : string) : outcome Pattern :=
  match patternStr with
  | EmptyString => Panic "index out of range"
  | String.String c rest =>
      let negate := is_code 33 c in
      let pathParts := splitPath (path_Clean (if negate then rest else patternStr)) in
      Ok (mkPattern patternStr (preparePart <$> pathParts) negate)
  end.

(** * Matching *)

(** The position of the first "**". *)
Fixpoint wildcard_pos (l : list patternPart) : option nat :=
  match l with
  | [] => None
  | item :: l => if String.eqb (pattern item) "" then Some O else S <$> wildcard_pos l
  end.
Definition hasDoubleWildcard (pat : Pattern) : bool * nat :=
  match wildcard_pos (parts pat) with Some i => (true, i) | None => (false, O) end.

Definition part_match (p : patternPart) (s : string) : outcome bool :=
  if isSimple p then Ok (String.eqb (pattern p) s) else wrap_err "Match" (filepath_Match (pattern p) s).

(** The inner loop: parts [i - 1] down to [0] against the components at [offset]. *)
Fixpoint match_at (i : nat) (ps : list patternPart) (strs : list string) (offset : nat) : outcome bool :=
  match i with
  | O => Ok true
  | S i =>
      match ps !! i, strs !! (offset + i) with
      | Some p, Some s => try ok <- part_match p s; match ok with true => match_at i ps strs offset | false => Ok false end
      | _, _ => Panic "index out of range"
      end
  end.

(** The outer loop, over the given offsets. *)
Fixpoint try_offsets (ps : list patternPart) (strs : list string) (offsets : list nat) : outcome bool :=
  match offsets with
  | [] => Ok false
  | offset :: offsets =>
      try ok <- match_at (length ps) ps strs offset;
      match ok with true => Ok true | false => try_offsets ps strs offsets end
  end.

Definition match_simple (ps : list patternPart) (strs : list string) : outcome bool :=
  match ps with
  | [] => Ok (Nat.eqb (length strs) 0)
  | p :: _ =>
      if length ps <=? length strs then
        let maxOffset := if String.eqb (pattern p) "/" then O else length strs - length ps in
        let minOffset :=
          if String.eqb (pattern p) "/" then O
          else match strs with s :: _ => if String.eqb s "/" then 1 else O | [] => O end in
        try_offsets ps strs (rev (seq minOffset (S maxOffset - minOffset)))
      else Ok false
  end.

Definition star_part : patternPart := mkPart "*" false.

(** The expansion of the "**" at [pos] into [i], [i + 1], ... wildcards; [k]
    rounds are left.  [newPat] is the buffer all rounds share: a round appends the
    rest of the pattern in place. *)
Fixpoint expand (recur : list patternPart -> outcome bool) (ps : list patternPart) (pos : nat) (k i : nat) (newPat : list patternPart) : outcome bool :=
  match k with
  | O => Ok false
  | S k =>
      let newPat := if Nat.eqb i 0 then newPat else <[(pos + i - 1)%nat := star_part]> newPat in
      let cur := take (pos + i) newPat ++ drop (S pos) ps in
      let newPat := cur ++ drop (length cur) newPat in
      try matched <- recur cur;
      match matched with true => Ok true | false => expand recur ps pos k (S i) newPat end
  end.

(** The zero value of the elements of the buffer. *)
Definition zero_part : patternPart := mkPart "" false.

Fixpoint match_parts (fuel : nat) (ps : list patternPart) (strs : list string) : outcome bool :=
  match wildcard_pos ps with
  | None => match_simple ps strs
  | Some pos =>
      match fuel with
      | O => Panic "out of fuel"
      | S fuel =>
          let newPat := go_copy (replicate (length strs) zero_part) (take pos ps) in
          expand (fun ps => match_parts fuel ps strs) ps pos (length strs + 2 - length ps) 0 newPat
      end
  end.

(** The fuel is the number of "**" at most. *)
Definition match_pattern (pat : Pattern) (strs : list string) : outcome bool :=
  match_parts (length (parts pat)) (parts pat) strs.

Definition childMatch (pat : Pattern) (strs : list string) : outcome bool :=
  match parts pat with
  | [] => Panic "index out of range"
  | p :: _ =>
      if negb (String.eqb (pattern p) "/") then Ok true
      else
        let '(ok, pos) := hasDoubleWildcard pat in
        let strs := if ok && (pos <=? length strs) then take pos strs else strs in
        let l := if length (parts pat) <? length strs then length (parts pat) else length strs in
        match_pattern (mkPattern (original pat) (take l (parts pat)) (isNegated pat)) strs
  end.

Definition Match (patternStr str : string) : outcome bool :=
  if String.eqb patternStr "" then Ok true
  else try pat <- preparePattern patternStr; try strs <- prepareStr str; match_pattern pat strs.
Definition ChildMatch (patternStr str : string) : outcome bool :=
  if String.eqb patternStr "" then Ok true
  else try pat <- preparePattern patternStr; try strs <- prepareStr str; childMatch pat strs.

(** * Lists of patterns *)

Definition ParsePatterns (pats : list string) : outcome (list Pattern) :=
  omap_list preparePattern (filter (fun pat => pat <> "") pats).

(** [ValidatePatterns] returns the patterns with a malformed part, once per
    malformed part. *)
Definition invalid_parts (pat : Pattern) : list string :=
  (fun _ => original pat) <$> filter (fun part => is_ok (filepath_Match (pattern part) (pattern part)) = false) (parts pat).
Definition ValidatePatterns (patterns : list string) : outcome (list string) :=
  try pats <- ParsePatterns patterns; Ok (concat (invalid_parts <$> pats)).

Fixpoint list_loop (hasNegatedPattern checkChildMatches : bool) (strs : list string) (patterns : list Pattern) (matched childMayMatch : bool) : outcome (bool * bool) :=
  match patterns with
  | [] => Ok (matched, childMayMatch)
  | pat :: patterns =>
      try m <- match_pattern pat strs;
      try c <- (if checkChildMatches then childMatch pat strs else Ok true);
      if isNegated pat then
        list_loop hasNegatedPattern checkChildMatches strs patterns (matched && negb m) (childMayMatch && negb m)
      else
        let matched := matched || m in
        let childMayMatch := childMayMatch || c in
        if matched && childMayMatch && negb hasNegatedPattern then Ok (matched, childMayMatch)
        else list_loop hasNegatedPattern checkChildMatches strs patterns matched childMayMatch
  end.

Definition list_patterns (patterns : list Pattern) (checkChildMatches : bool) (str : string) : outcome (bool * bool) :=
  match patterns with
  | [] => Ok (false, false)
  | _ =>
      try strs <- prepareStr str;
      let hasNegatedPattern := existsb isNegated patterns in
      list_loop hasNegatedPattern checkChildMatches strs patterns false false
  end.
Definition List (patterns : list Pattern) (str : string) : outcome bool := fst <$> list_patterns patterns false str.
Definition ListWithChild (patterns : list Pattern) (str : string) : outcome (bool * bool) := list_patterns patterns true str.

Example Match_tests :
  Match "foo/**/bar/*.go" "/home/user/foo/work/special/project/bar/test.go" = Ok true /\
  Match "foo/**/bar/**/x" "/home/user/foo/bar/x" = Ok true /\ Match "user/**/hidden*/**/c" "/home/user/work/x/y/hidden/z/a/b/c" = Ok true /\
  Match "/foo/../bar" "/foo/bar" = Ok false /\ Match "/foo/*/test.*" "/foo/bar/test.go" = Ok true /\ Match "**" "/foo/bar/test.go" = Ok true /\
  ChildMatch "/foo/*/qux" "/foo/bar/boo" = Ok false /\ ChildMatch "/foo/**/qux" "/foo/bar/baz" = Ok true /\ ChildMatch "/baz/bar" "/foo" = Ok false.
Proof. vm_compute. done. Qed.

(** * Reference semantics

    A part matches one component, "**" any number of them.  An absolute pattern
    matches from the start of a path; another one matches anywhere, but not the
    marker of an absolute path.  What follows the match does not matter. *)

Definition part_valid (p : patternPart) : Prop := isSimple p = true \/ valid_pattern (pattern p) = Ok tt.
Definition part_matches (p : patternPart) (s : string) : Prop := part_match p s = Ok true.

Inductive segs : list patternPart -> list string -> Prop :=
  | segs_nil : segs [] []
  | segs_part p ps s ss : pattern p <> "" -> part_matches p s -> segs ps ss -> segs (p :: ps) (s :: ss)
  | segs_wild p ps mid ss : pattern p = "" -> Forall (fun s => has_slash s = false) mid -> segs ps ss -> segs (p :: ps) (mid ++ ss).

Definition absolute (ps : list patternPart) : bool :=
  match ps with p :: _ => String.eqb (pattern p) "/" | [] => false end.
Definition anchored (ps : list patternPart) (strs pre : list string) : Prop :=
  if absolute ps then pre = [] else head strs = Some "/" -> pre <> [].
Definition glob (ps : list patternPart) (strs : list string) : Prop :=
  exists pre mid post, strs = pre ++ mid ++ post /\ segs ps mid /\ anchored ps strs pre.

(** The "**" that [match] tries: in a path of [n] components a "**" stands for as many
    of them as leave one for every part after it, be it another "**".  [k] components
    were matched before. *)
Inductive segs_room (n : nat) : nat -> list patternPart -> list string -> Prop :=
  | room_nil k : segs_room n k [] []
  | room_part k p ps s ss : pattern p <> "" -> part_matches p s -> segs_room n (S k) ps ss -> segs_room n k (p :: ps) (s :: ss)
  | room_wild k p ps mid ss : pattern p = "" -> Forall (fun s => has_slash s = false) mid -> k + length mid + length ps <= n ->
      segs_room n (k + length mid) ps ss -> segs_room n k (p :: ps) (mid ++ ss).
Definition glob_room (ps : list patternPart) (strs : list string) : Prop :=
  exists pre mid post, strs = pre ++ mid ++ post /\ segs_room (length strs) 0 ps mid /\ anchored ps strs pre.

Definition wilds (ps : list patternPart) : nat := length (filter (fun p => pattern p = "") ps).

(** * The loops *)

Lemma part_match_Ok p s : part_valid p -> exists b, part_match p s = Ok b.
Proof.
  unfold part_match. intros [->|Hv]; [by eexists|]. destruct (isSimple p); [by eexists|].
  destruct (filepath_Match_Ok _ s Hv) as [b ->]. by exists b.
Qed.

Lemma star_part_matches s : part_matches star_part s <-> has_slash s = false.
Proof. unfold part_matches, part_match. cbn [isSimple star_part pattern]. rewrite filepath_Match_star. cbn. destruct (has_slash s); cbn; split; congruence. Qed.

Lemma star_part_valid : part_valid star_part.
Proof. by right. Qed.

Lemma match_at_spec i ps strs offset :
  Forall part_valid ps -> i <= length ps -> offset + i <= length strs ->
  exists b, match_at i ps strs offset = Ok b /\ (b = true <-> Forall2 part_matches (take i ps) (take i (drop offset strs))).
Proof.
  intros Hv. induction i as [|i IH]; intros Hp Hs; [by exists true|]. cbn [match_at].
  destruct (lookup_lt_is_Some_2 ps i) as [p Ep]; [lia|]. destruct (lookup_lt_is_Some_2 strs (offset + i)) as [s Es]; [lia|].
  rewrite Ep, Es. destruct (part_match_Ok p s) as [b Eb]; [by apply (Forall_lookup_1 _ _ _ _ Hv Ep)|].
  rewrite (take_S_r _ _ _ Ep), (take_S_r (drop offset strs) i s) by (by rewrite lookup_drop). rewrite Eb. cbn [mbind outcome_bind].
  destruct IH as (b' & -> & Hb); [lia..|]. destruct b.
  - exists b'. split; [done|]. rewrite Hb. split; intros HF.
    + apply Forall2_app; [done|]. by constructor.
    + apply Forall2_app_inv in HF as [??]; [done|]. rewrite !length_take, length_drop. lia.
  - exists false. split; [done|]. split; [done|]. intros HF. apply Forall2_app_inv in HF as [_ HF].
    + apply Forall2_cons in HF as [HF _]. unfold part_matches in HF. congruence.
    + rewrite !length_take, length_drop. lia.
Qed.

Lemma try_offsets_spec ps strs offsets :
  Forall part_valid ps -> Forall (fun o => o + length ps <= length strs) offsets ->
  exists b, try_offsets ps strs offsets = Ok b /\
    (b = true <-> exists o, o ∈ offsets /\ Forall2 part_matches ps (take (length ps) (drop o strs))).
Proof.
  intros Hv. induction 1 as [|o offsets Ho _ (b & IH & Hb)].
  - exists false. split; [done|]. split; [done|]. by intros (? & ?%elem_of_nil & _).
  - cbn [try_offsets]. destruct (match_at_spec (length ps) ps strs o Hv) as (b' & -> & Hb'); [lia..|].
    rewrite take_ge in Hb' by lia. cbn [mbind outcome_bind]. destruct b'.
    + exists true. split; [done|]. split; [|done]. intros _. exists o. split; [by left|by apply Hb'].
    + exists b. split; [done|]. rewrite Hb. split.
      * intros (o' & ? & ?). exists o'. split; [by right|done].
      * intros (o' & [->|?]%elem_of_cons & HF); [by apply Hb' in HF|by exists o'].
Qed.

(** What a pattern without "**" matches. *)
Definition simple_matches (ps : list patternPart) (strs : list string) : Prop :=
  match ps with
  | [] => strs = []
  | _ => exists pre mid post, strs = pre ++ mid ++ post /\ Forall2 part_matches ps mid /\ anchored ps strs pre
  end.

Lemma match_simple_spec ps strs :
  Forall part_valid ps -> exists b, match_simple ps strs = Ok b /\ (b = true <-> simple_matches ps strs).
Proof.
  intros Hv. destruct ps as [|p ps]; [cbn; eexists; split; [done|]; destruct strs; cbn; naive_solver|].
  set (l := p :: ps) in *. unfold match_simple. change (match l with [] => _ | p :: _ => _ end) with
    (if length l <=? length strs then
        let maxOffset := if absolute l then O else length strs - length l in
        let minOffset := if absolute l then O else match strs with s :: _ => if String.eqb s "/" then 1 else O | [] => O end in
        try_offsets l strs (rev (seq minOffset (S maxOffset - minOffset)))
      else Ok false).
  assert (simple_matches l strs <-> exists o, (o + length l <= length strs /\ (if absolute l then o = 0 else head strs = Some "/" -> 1 <= o)) /\
    Forall2 part_matches l (take (length l) (drop o strs))) as Hsm.
  { unfold simple_matches. cbn [l]. fold l. split.
    - intros (pre & mid & post & -> & HF & Ha). apply Forall2_length in HF as Hl. exists (length pre).
      rewrite !length_app, drop_app_length, take_app_length' by lia. split_and!; [lia| |done].
      unfold anchored in Ha. destruct (absolute l); [by subst|]. intros Hh. destruct pre; [by destruct (Ha Hh)|cbn; lia].
    - intros (o & [Ho Ha] & HF). exists (take o strs), (take (length l) (drop o strs)), (drop (length l) (drop o strs)).
      rewrite !take_drop. split_and!; [done..|]. unfold anchored. destruct (absolute l); [by subst|].
      intros Hh Ht. apply Ha in Hh. apply (f_equal length) in Ht. rewrite length_take in Ht. cbn in Ht. lia. }
  destruct (Nat.leb_spec (length l) (length strs)) as [Hle|Hlt]; cbn zeta.
  - set (mx := if absolute l then 0 else length strs - length l).
    set (mn := if absolute l then 0 else match strs with s :: _ => if String.eqb s "/" then 1 else 0 | [] => 0 end).
    assert (forall o, o ∈ rev (seq mn (S mx - mn)) <-> mn <= o <= mx) as Hin.
    { intros o. rewrite list_elem_of_In, <- in_rev, in_seq. lia. }
    destruct (try_offsets_spec l strs (rev (seq mn (S mx - mn))) Hv) as (b & -> & Hb).
    { apply Forall_forall. intros o Ho%Hin. unfold mx in Ho. destruct (absolute l); lia. }
    exists b. split; [done|]. rewrite Hb, Hsm. split; intros (o & Ho & HF); exists o; (split; [|done]).
    + apply Hin in Ho. subst mx mn. destruct (absolute l); [lia|]. split; [lia|]. intros Hh. destruct strs as [|s strs]; [done|]. injection Hh as ->. by destruct Ho.
    + apply Hin. destruct Ho as [Ho Ha]. subst mx mn. destruct (absolute l); [lia|]. split; [|lia].
      destruct strs as [|s strs]; [lia|]. destruct (String.eqb_spec s "/") as [->|]; [by apply Ha|lia].
  - exists false. split; [done|]. rewrite Hsm. split; [done|]. intros (o & [Ho _] & _). lia.
Qed.

(** * Expansion of "**" *)

Definition expanded (ps : list patternPart) (pos i : nat) : list patternPart :=
  take pos ps ++ replicate i star_part ++ drop (S pos) ps.

(** The expansions that are tried for a path of [n] components: a "**" that is
    still to be expanded counts as one part. *)
Inductive expands (n : nat) : list patternPart -> list patternPart -> Prop :=
  | expands_done ps : wildcard_pos ps = None -> expands n ps ps
  | expands_at ps pos i ps' : wildcard_pos ps = Some pos -> i + length ps <= n + 1 ->
      expands n (expanded ps pos i) ps' -> expands n ps ps'.

Lemma wildcard_pos_Some ps pos :
  wildcard_pos ps = Some pos -> exists p, ps = take pos ps ++ p :: drop (S pos) ps /\ pattern p = "" /\ wilds (take pos ps) = 0 /\ length (take pos ps) = pos.
Proof.
  revert pos; induction ps as [|p ps IH]; intros pos; [done|]. cbn [wildcard_pos].
  destruct (String.eqb_spec (pattern p) "") as [Hp|Hp].
  - intros [= <-]. exists p. done.
  - destruct (wildcard_pos ps) as [k|]; [|done]. intros [= <-]. destruct (IH k eq_refl) as (q & E & Hq & Hw & Hl). exists q.
    cbn [take drop app length]. split_and!; [by f_equal|done| |by rewrite Hl].
    unfold wilds in *. rewrite filter_cons, decide_False by done. done.
Qed.

Lemma wildcard_pos_None ps : wildcard_pos ps = None <-> wilds ps = 0.
Proof.
  unfold wilds. induction ps as [|p ps IH]; [done|]. cbn [wildcard_pos]. rewrite filter_cons.
  destruct (String.eqb_spec (pattern p) "") as [Hp|Hp].
  - rewrite decide_True by done. done.
  - rewrite decide_False by done. rewrite <- IH. by destruct (wildcard_pos ps).
Qed.

Lemma wilds_app a b : wilds (a ++ b) = wilds a + wilds b.
Proof. unfold wilds. by rewrite filter_app, length_app. Qed.

Lemma wilds_stars i : wilds (replicate i star_part) = 0.
Proof. induction i; done. Qed.

Lemma wilds_expanded ps pos i : wildcard_pos ps = Some pos -> wilds ps = S (wilds (expanded ps pos i)).
Proof.
  intros (p & E & Hp & Hw & _)%wildcard_pos_Some. unfold expanded. rewrite E at 1. rewrite !wilds_app, wilds_stars.
  change (p :: drop (S pos) ps) with ([p] ++ drop (S pos) ps). rewrite wilds_app. unfold wilds at 2. rewrite filter_cons, decide_True by done. cbn. lia.
Qed.

Lemma length_expanded ps pos i : wildcard_pos ps = Some pos -> length (expanded ps pos i) + 1 = length ps + i.
Proof.
  intros (p & E & _ & _ & Hl)%wildcard_pos_Some. unfold expanded. rewrite E at 3. rewrite !length_app, length_replicate, Hl. cbn. lia.
Qed.

Lemma wildcard_pos_lt ps pos : wildcard_pos ps = Some pos -> pos < length ps.
Proof. intros (p & E & _ & _ & Hl)%wildcard_pos_Some. rewrite E, length_app, Hl. cbn. lia. Qed.

(** The shared buffer always holds the static prefix and the wildcards of the
    rounds before. *)
Lemma expand_spec recur (R : list patternPart -> Prop) ps pos n k i newPat :
  wildcard_pos ps = Some pos ->
  (forall j, exists b, recur (expanded ps pos j) = Ok b /\ (b = true <-> R (expanded ps pos j))) ->
  length newPat = n ->
  (k = 0 \/ i + k + length ps <= n + 2 /\ take (pos + pred i) newPat = take pos ps ++ replicate (pred i) star_part) ->
  exists b, expand recur ps pos k i newPat = Ok b /\ (b = true <-> exists j, i <= j < i + k /\ R (expanded ps pos j)).
Proof.
  intros Hw Hrec. pose proof (wildcard_pos_lt _ _ Hw) as Hlt.
  revert i newPat; induction k as [|k IH]; intros i newPat Hn Hk.
  { exists false. split; [done|]. split; [done|]. intros (j & ? & _). lia. }
  destruct Hk as [?|[Hk Ht]]; [lia|]. cbn [expand].
  set (buf := if Nat.eqb i 0 then newPat else _).
  assert (take (pos + i) buf = take pos ps ++ replicate i star_part /\ length buf = n) as [Hb Hlb].
  { unfold buf. destruct i as [|i]; [done|]. cbn [Nat.eqb pred] in *. rewrite length_insert. split; [|done].
    replace (pos + S i - 1) with (pos + i) by lia. replace (pos + S i) with (S (pos + i)) by lia.
    rewrite (take_S_r _ _ star_part) by (apply list_lookup_insert_eq; lia).
    rewrite take_insert by lia. rewrite Ht, replicate_S_end, decide_False by lia. by rewrite <- app_assoc. }
  assert (take (pos + i) buf ++ drop (S pos) ps = expanded ps pos i) as Hcur by (by rewrite Hb, <- app_assoc).
  rewrite Hcur. destruct (Hrec i) as (b & -> & HR). cbn [mbind outcome_bind]. pose proof (length_expanded ps pos i Hw) as Hle.
  destruct b.
  - exists true. split; [done|]. split; [|done]. intros _. exists i. split; [lia|by apply HR].
  - destruct (IH (S i) (expanded ps pos i ++ drop (length (expanded ps pos i)) buf)) as (b & -> & Hb').
    + rewrite length_app, length_drop. lia.
    + right. split; [lia|]. cbn [pred]. rewrite take_app_le by lia. unfold expanded. rewrite app_assoc, take_app_le by (rewrite length_app, length_replicate, length_take; lia).
      apply take_ge. rewrite length_app, length_replicate, length_take. lia.
    + exists b. split; [done|]. rewrite Hb'. split; intros (j & Hj & HRj).
      * exists j. split; [lia|done].
      * destruct (decide (i = j)) as [<-|]; [by apply HR in HRj|]. exists j. split; [lia|done].
Qed.

Lemma valid_expanded ps pos i : Forall part_valid ps -> Forall part_valid (expanded ps pos i).
Proof.
  intros Hv. unfold expanded. rewrite !Forall_app. split_and!; [by apply Forall_take| |by apply Forall_drop].
  apply Forall_replicate, star_part_valid.
Qed.

(** A well-formed pattern never fails, and matches when one of its expansions
    does. *)
Lemma match_parts_spec fuel ps strs :
  Forall part_valid ps -> wilds ps <= fuel ->
  exists b, match_parts fuel ps strs = Ok b /\ (b = true <-> exists ps', expands (length strs) ps ps' /\ simple_matches ps' strs).
Proof.
  revert ps; induction fuel as [|fuel IH]; intros ps Hv Hf.
  - assert (wildcard_pos ps = None) as E by (apply wildcard_pos_None; lia). cbn [match_parts]. rewrite E.
    destruct (match_simple_spec ps strs Hv) as (b & -> & Hb). exists b. split; [done|]. rewrite Hb. split.
    + intros Hs. exists ps. split; [by constructor|done].
    + intros (ps' & He & Hs). inversion He; [by simplify_eq|congruence].
  - cbn [match_parts]. destruct (wildcard_pos ps) as [pos|] eqn:E.
    + pose proof (wildcard_pos_lt _ _ E) as Hlt.
      destruct (expand_spec (fun ps => match_parts fuel ps strs) (fun ps => exists ps', expands (length strs) ps ps' /\ simple_matches ps' strs)
        ps pos (length strs) (length strs + 2 - length ps) 0 (go_copy (replicate (length strs) zero_part) (take pos ps)) E) as (b & -> & Hb).
      * intros j. apply IH; [by apply valid_expanded|]. pose proof (wilds_expanded ps pos j E). lia.
      * by rewrite length_go_copy, length_replicate.
      * destruct (decide (length ps <= length strs + 1)) as [Hl|Hl]; [right; split; [lia|]|left; lia].
        cbn [pred replicate]. rewrite app_nil_r, Nat.add_0_r. unfold go_copy. rewrite length_replicate.
           rewrite (take_ge (take pos ps)) by (rewrite length_take; lia). rewrite take_app_le by (rewrite length_take; lia).
           rewrite take_ge by (rewrite length_take; lia). done.
      * exists b. split; [done|]. rewrite Hb. split.
        -- intros (j & Hj & ps' & He & Hs). exists ps'. split; [|done]. eapply expands_at; [done| |done]. lia.
        -- intros (ps' & He & Hs). inversion He as [? E'|? pos' i ? E' Hi He']; [congruence|]. assert (pos' = pos) as -> by congruence.
           exists i. split; [lia|]. by exists ps'.
    + destruct (match_simple_spec ps strs Hv) as (b & -> & Hb). exists b. split; [done|]. rewrite Hb. split.
      * intros Hs. exists ps. split; [by constructor|done].
      * intros (ps' & He & Hs). inversion He; [by simplify_eq|congruence].
Qed.

(** * Expansions and the reference *)

Lemma segs_simple ps mid : wilds ps = 0 -> segs ps mid <-> Forall2 part_matches ps mid.
Proof.
  intros Hw. split.
  - induction 1 as [|p ps s ss Hp Hm Hs IH|p ps m ss Hp Hm Hs IH]; unfold wilds in Hw; rewrite ?filter_cons in Hw; [done| |].
    + rewrite decide_False in Hw by done. constructor; auto.
    + rewrite decide_True in Hw by done. done.
  - induction 1 as [|p s ps ss Hm Hs IH]; unfold wilds in Hw; rewrite ?filter_cons in Hw; [constructor|].
    destruct (decide (pattern p = "")) as [|Hp]; [done|]. constructor; auto.
Qed.

Lemma stars_match i m : Forall2 part_matches (replicate i star_part) m <-> length m = i /\ Forall (fun s => has_slash s = false) m.
Proof.
  revert i; induction m as [|s m IH]; intros [|i]; cbn [replicate length].
  - by split; [intros _; split|intros _].
  - split; [intros H; by inversion H|by intros [? _]].
  - split; [intros H; by inversion H|by intros [? _]].
  - rewrite Forall2_cons, Forall_cons, star_part_matches, IH. naive_solver lia.
Qed.

Lemma room_app n a b k mid :
  wilds a = 0 -> segs_room n k (a ++ b) mid <-> exists m1 m2, mid = m1 ++ m2 /\ Forall2 part_matches a m1 /\ segs_room n (k + length a) b m2.
Proof.
  revert k mid. induction a as [|p a IH]; intros k mid Hw; cbn [app length].
  { rewrite Nat.add_0_r. split; [intros H; by exists [], mid|]. intros (m1 & m2 & -> & HF & H). by inversion HF. }
  unfold wilds in Hw. rewrite filter_cons in Hw. destruct (decide (pattern p = "")) as [|Hp]; [done|]. split.
  - intros H. inversion H as [|k' p' ps' s ss _ Hm Hs|k' p' ps' m ss Hp' _ _ _]; subst; [|done].
    apply IH in Hs as (m1 & m2 & -> & HF & H2); [|done]. exists (s :: m1), m2. split_and!; [done|by constructor|]. by replace (k + S (length a)) with (S k + length a) by lia.
  - intros (m1 & m2 & -> & HF & H2). inversion HF as [|? s ? m1' Hm HF']; subst. cbn [app]. apply room_part; [done..|]. apply IH; [done|].
    exists m1', m2. split_and!; [done..|]. by replace (S k + length a) with (k + S (length a)) by lia.
Qed.

Lemma room_simple n k ps mid : wilds ps = 0 -> segs_room n k ps mid <-> Forall2 part_matches ps mid.
Proof.
  intros Hw. rewrite <- (app_nil_r ps) at 1. rewrite room_app by done. split.
  - intros (m1 & m2 & -> & HF & H). inversion H; subst. by rewrite app_nil_r.
  - intros HF. exists mid, []. rewrite app_nil_r. split_and!; [done..|constructor].
Qed.

(** One "**" stands for a number of stars. *)
Lemma room_expanded n ps pos mid :
  wildcard_pos ps = Some pos -> segs_room n 0 ps mid <-> exists i, i + length ps <= n + 1 /\ segs_room n 0 (expanded ps pos i) mid.
Proof.
  intros (p & E & Hp & Hw & Hl)%wildcard_pos_Some. assert (length ps = pos + 1 + length (drop (S pos) ps)) as Hlen by (rewrite E at 1; rewrite length_app, Hl; cbn; lia).
  rewrite E at 1. unfold expanded. rewrite room_app, Hl by done. setoid_rewrite (room_app n (take pos ps)); [|done]. setoid_rewrite (room_app n (replicate _ star_part)); [|apply wilds_stars].
  rewrite Hl. cbn [Nat.add]. split.
  - intros (m1 & m2 & -> & H1 & H2). inversion H2 as [|k' p' ps' s ss Hp' _ _|k' p' ps' m ss _ Hm Hn Hs]; subst; [done|].
    exists (length m). split; [lia|]. exists m1, (m ++ ss). split_and!; [done..|]. exists m, ss. split_and!; [done|by apply stars_match|]. by rewrite length_replicate.
  - intros (i & Hi & m1 & ? & -> & H1 & m & ss & -> & [<- Hm]%stars_match & Hs). exists m1, (m ++ ss). split_and!; [done..|].
    rewrite length_replicate in Hs. apply room_wild; [done..|lia|done].
Qed.

Lemma room_expands n ps mid : segs_room n 0 ps mid <-> exists ps', expands n ps ps' /\ Forall2 part_matches ps' mid.
Proof.
  remember (wilds ps) as w eqn:Ew. revert ps Ew. induction w as [|w IH]; intros ps Ew.
  - rewrite (room_simple n 0) by done. split; [intros HF; exists ps; split; [apply expands_done; by apply wildcard_pos_None|done]|].
    intros (ps' & He & HF). inversion He as [|? pos i ? E]; subst; [done|]. pose proof (wilds_expanded ps pos i E). lia.
  - destruct (wildcard_pos ps) as [pos|] eqn:E; [|apply wildcard_pos_None in E; lia]. rewrite (room_expanded n ps pos) by done. split.
    + intros (i & Hi & Hs). apply IH in Hs as (ps' & He & HF); [|pose proof (wilds_expanded ps pos i E); lia]. exists ps'. split; [by eapply expands_at|done].
    + intros (ps' & He & HF). inversion He as [? E'|? pos' i ? E' Hi He']; subst; [congruence|]. assert (pos' = pos) as -> by congruence.
      exists i. split; [done|]. apply IH; [pose proof (wilds_expanded ps pos i E); lia|]. by exists ps'.
Qed.

Lemma segs_of_room n k ps mid : segs_room n k ps mid -> segs ps mid.
Proof. induction 1; by constructor. Qed.

(** With one "**" there is always room. *)
Lemma room_of_segs n k ps mid : segs ps mid -> wilds ps <= 1 -> k + length mid <= n -> segs_room n k ps mid.
Proof.
  intros Hs. revert k. induction Hs as [|p ps s ss Hp Hm Hs IH|p ps m ss Hp Hm Hs IH]; intros k Hw Hn; unfold wilds in Hw; rewrite ?filter_cons in Hw; [constructor| |].
  - rewrite decide_False in Hw by done. apply room_part; [done..|]. apply IH; [done|]. cbn in Hn. lia.
  - rewrite decide_True in Hw by done. cbn in Hw. assert (wilds ps = 0) as Hw0 by (unfold wilds; lia). rewrite length_app in Hn.
    pose proof Hs as HF%segs_simple%Forall2_length; [|done]. apply room_wild; [done..|lia|]. apply IH; [unfold wilds in *; lia|lia].
Qed.

(** A pattern of "**" alone can also stand for one component. *)
Lemma expands_star n ps : ps <> [] -> 1 <= n -> expands n ps [] -> expands n ps [star_part].
Proof.
  intros Hne Hn He. remember [] as ps' eqn:E'. revert Hne E'. induction He as [ps Hw|ps pos i ps' Hw Hi He IH]; intros Hne ->; [done|].
  destruct (expanded ps pos i) as [|q qs] eqn:Ex.
  - pose proof (length_expanded ps pos i Hw) as Hl. rewrite Ex in Hl. cbn in Hl. assert (pos = 0 /\ length ps = 1) as [-> Hl1].
    { pose proof (wildcard_pos_lt _ _ Hw). destruct ps; [done|]. cbn in *. lia. }
    destruct ps as [|w [|? ?]]; try done. apply (expands_at _ _ 0 1); [done|cbn; lia|by constructor].
  - eapply expands_at; [exact Hw|exact Hi|]. rewrite Ex. by apply IH.
Qed.

(** * Prepared patterns and paths *)

Definition wf_parts (ps : list patternPart) : Prop := Forall (fun p => pattern p <> "/") (tail ps).
Definition wf_strs (strs : list string) : Prop :=
  match strs with
  | [] => False
  | s :: ss => Forall (fun s => has_slash s = false) ss /\ (if String.eqb s "/" then ss <> [] else has_slash s = false)
  end.

Lemma expanded_wf ps pos i :
  wildcard_pos ps = Some pos -> wf_parts ps -> wf_parts (expanded ps pos i) /\ absolute (expanded ps pos i) = absolute ps.
Proof.
  intros (p & E & Hp & _ & Hl)%wildcard_pos_Some. unfold wf_parts, expanded. intros Hwf.
  assert (Forall (fun p => pattern p <> "/") (replicate i star_part ++ drop (S pos) ps)) as Hr.
  { rewrite Forall_app. split; [by apply Forall_replicate|]. destruct ps as [|q ps]; [done|]. cbn [drop]; by apply Forall_drop. }
  destruct pos as [|pos].
  - rewrite take_0 in E |- *. cbn [app] in E |- *.
    assert (absolute ps = false) as -> by (rewrite E; cbn; by rewrite Hp).
    destruct (replicate i star_part ++ drop 1 ps) as [|r rs]; [done|]. apply Forall_cons in Hr as [Hr1 Hr2].
    split; [done|]. cbn. by apply String.eqb_neq.
  - destruct ps as [|q ps]; [done|]. cbn [take app tail absolute] in *. split; [|done]. rewrite Forall_app. split; [by apply Forall_take|done].
Qed.

Lemma expands_wf n ps ps' : expands n ps ps' -> wf_parts ps -> wf_parts ps' /\ absolute ps' = absolute ps.
Proof.
  induction 1 as [|ps pos i ps' Hw Hi He IH]; intros Hwf; [done|]. destruct (expanded_wf _ _ i Hw Hwf) as [H1 <-]. auto.
Qed.

Lemma anchored_absolute ps ps' strs pre : absolute ps' = absolute ps -> anchored ps' strs pre <-> anchored ps strs pre.
Proof. unfold anchored. by intros ->. Qed.

Lemma star_matches_path strs : wf_strs strs -> simple_matches [star_part] strs.
Proof.
  intros Hstrs. destruct strs as [|s0 ss] using rev_ind; [done|]. exists ss, [s0], []. split_and!; [done| |].
  - constructor; [|constructor]. apply star_part_matches. destruct ss as [|s1 ss]; cbn in Hstrs.
    + destruct Hstrs as [_ Hh]. by destruct (String.eqb s0 "/").
    + destruct Hstrs as [Hall _]. by apply Forall_app in Hall as [_ [? _]%Forall_cons].
  - unfold anchored. cbn. intros Hh ->. cbn in Hh, Hstrs. simplify_eq. by destruct Hstrs.
Qed.

(** Matching is the reference with room for the parts that follow a "**". *)
Lemma match_parts_glob ps strs :
  ps <> [] -> Forall part_valid ps -> wf_parts ps -> wf_strs strs ->
  exists b, match_parts (length ps) ps strs = Ok b /\ (b = true <-> glob_room ps strs).
Proof.
  intros Hne Hv Hwf Hstrs. destruct (match_parts_spec (length ps) ps strs Hv) as (b & E & Hb); [apply length_filter|].
  exists b. split; [done|]. rewrite Hb. split.
  - intros (ps' & He & Hs). destruct (expands_wf _ _ _ He Hwf) as [_ Ha]. destruct ps' as [|p' ps']; [by rewrite Hs in Hstrs|].
    destruct Hs as (pre & mid & post & Es & HF & Hanc). exists pre, mid, post. split_and!; [done|apply room_expands; by exists (p' :: ps')|by apply (anchored_absolute _ _ _ _ Ha)].
  - intros (pre & mid & post & Es & (ps' & He & HF)%room_expands & Hanc). destruct (expands_wf _ _ _ He Hwf) as [_ Ha]. destruct ps' as [|p' ps'].
    + exists [star_part]. split; [|by apply star_matches_path]. apply expands_star; [done| |done]. destruct strs; [done|cbn; lia].
    + exists (p' :: ps'). split; [done|]. exists pre, mid, post. split_and!; [done..|by apply (anchored_absolute _ _ _ _ Ha)].
Qed.

Lemma glob_of_room ps strs : glob_room ps strs -> glob ps strs.
Proof. intros (pre & mid & post & E & Hs & Ha). exists pre, mid, post. split_and!; [done|by eapply segs_of_room|done]. Qed.

Lemma room_of_glob ps strs : wilds ps <= 1 -> glob ps strs -> glob_room ps strs.
Proof.
  intros Hw (pre & mid & post & E & Hs & Ha). exists pre, mid, post. split_and!; [done| |done]. apply room_of_segs; [done..|]. rewrite E, !length_app. lia.
Qed.

(** A path below a matched one is matched. *)
Lemma anchored_mono ps strs more pre : strs <> [] -> anchored ps strs pre -> anchored ps (strs ++ more) pre.
Proof. unfold anchored. destruct (absolute ps); [done|]. by destruct strs. Qed.

Lemma expands_mono n m ps ps' : n <= m -> expands n ps ps' -> expands m ps ps'.
Proof. intros Hnm. induction 1 as [|ps pos i ps' Hw Hi He IH]; [by constructor|]. apply (expands_at _ _ pos i); [done|lia|done]. Qed.

Lemma match_parts_ok ps strs : Forall part_valid ps -> exists b, match_parts (length ps) ps strs = Ok b.
Proof. intros Hv. destruct (match_parts_spec (length ps) ps strs Hv) as (b & E & _); [apply length_filter|by exists b]. Qed.

Lemma match_parts_true ps strs :
  Forall part_valid ps ->
  match_parts (length ps) ps strs = Ok true <-> exists ps', expands (length strs) ps ps' /\ simple_matches ps' strs.
Proof.
  intros Hv. destruct (match_parts_spec (length ps) ps strs Hv) as (b & -> & <-); [apply length_filter|].
  split; [by intros [= ->]|by intros ->].
Qed.

Lemma match_parts_mono ps strs more :
  Forall part_valid ps -> strs <> [] -> match_parts (length ps) ps strs = Ok true -> match_parts (length ps) ps (strs ++ more) = Ok true.
Proof.
  intros Hv Hne. rewrite !match_parts_true by done. intros (ps' & He & Hs). exists ps'. split.
  - eapply expands_mono; [|done]. rewrite length_app. lia.
  - destruct ps' as [|p ps']; [by rewrite Hs in Hne|]. destruct Hs as (pre & mid & post & -> & HF & Ha).
    exists pre, mid, (post ++ more). rewrite <- !app_assoc. split_and!; [done..|]. apply (anchored_mono _ _ more) in Ha; [|done]. by rewrite <- !app_assoc in Ha.
Qed.

(** The prefix up to the first "**" is kept by expansion. *)
Lemma expands_prefix n ps ps' k :
  expands n ps ps' -> wilds (take k ps) = 0 -> k <= length ps -> take k ps' = take k ps /\ k <= length ps'.
Proof.
  induction 1 as [|ps pos i ps' Hw Hi He IH]; intros Hk Hl; [done|].
  destruct (wildcard_pos_Some _ _ Hw) as (p & E & Hp & _ & Hlp).
  assert (k <= pos) as Hkp.
  { apply Nat.nlt_ge. intros Hlt. rewrite E in Hk. rewrite take_app_ge in Hk by lia. rewrite Hlp in Hk.
    destruct (k - pos) as [|j] eqn:Ej; [lia|]. cbn [take] in Hk. rewrite wilds_app in Hk. unfold wilds at 2 in Hk. rewrite filter_cons, decide_True in Hk by done. cbn in Hk. lia. }
  assert (take k (expanded ps pos i) = take k ps) as Ht.
  { unfold expanded. rewrite take_app_le by lia. rewrite take_take. f_equal. lia. }
  rewrite Ht in IH. apply IH; [done|]. unfold expanded. rewrite length_app. lia.
Qed.

Lemma wilds_take_pos ps pos k : wildcard_pos ps = Some pos -> k <= pos -> wilds (take k ps) = 0.
Proof.
  intros (p & E & _ & Hw & _)%wildcard_pos_Some Hk. rewrite <- (take_drop k (take pos ps)), wilds_app, take_take in Hw.
  rewrite Nat.min_l in Hw by done. lia.
Qed.

Lemma wilds_take_none ps k : wildcard_pos ps = None -> wilds (take k ps) = 0.
Proof. intros Hw%wildcard_pos_None. rewrite <- (take_drop k ps), wilds_app in Hw. lia. Qed.

Lemma Forall2_take_take {A B} (R : A -> B -> Prop) l l' n : Forall2 R l l' -> Forall2 R (take n l) (take n l').
Proof. intros HF. revert n; induction HF; intros [|n]; cbn; constructor; auto. Qed.

(** What [childMatch] compares: a prefix of the pattern without "**" with as long
    a prefix of the path. *)
Lemma childMatch_prefix pat strs :
  absolute (parts pat) = true ->
  exists k m, childMatch pat strs = match_parts (length (take k (parts pat))) (take k (parts pat)) (take m strs) /\
    wilds (take k (parts pat)) = 0 /\ k <= length (parts pat) /\ k <= m /\ (1 <= length strs -> 1 <= k) /\ k <= length strs.
Proof.
  unfold childMatch, hasDoubleWildcard. destruct (parts pat) as [|p ps] eqn:Ep; [done|]. cbn [absolute]. intros Habs. rewrite Habs. cbn [negb].
  set (l := p :: ps). assert (l <> []) as Hl by done.
  destruct (wildcard_pos l) as [pos|] eqn:E; cbn [andb].
  - pose proof (wildcard_pos_lt _ _ E) as Hlt.
    assert (1 <= pos) as Hpos.
    { destruct pos; [|lia]. subst l. cbn [wildcard_pos] in E. destruct (String.eqb_spec (pattern p) ""); [apply String.eqb_eq in Habs; congruence|]. by destruct (wildcard_pos ps). }
    destruct (Nat.leb_spec pos (length strs)).
    + exists pos, pos. rewrite length_take, Nat.min_l by lia. rewrite (proj2 (Nat.ltb_ge _ _)) by lia.
      unfold match_pattern. cbn [parts]. split_and!; [done|by eapply wilds_take_pos|lia..].
    + exists (length strs), (length strs). rewrite (take_ge strs) by done. rewrite (proj2 (Nat.ltb_ge _ _)) by lia.
      split_and!; [done|eapply wilds_take_pos; [done|lia]|lia..].
  - exists (if length l <? length strs then length l else length strs), (length strs). rewrite (take_ge strs) by done.
    split_and!; [done|by apply wilds_take_none|..]; destruct (Nat.ltb_spec (length l) (length strs)); try lia. subst l. cbn. lia.
Qed.

Lemma childMatch_ok pat strs : parts pat <> [] -> Forall part_valid (parts pat) -> exists b, childMatch pat strs = Ok b.
Proof.
  intros Hne Hv. destruct (absolute (parts pat)) eqn:Habs.
  - destruct (childMatch_prefix pat strs Habs) as (k & m & -> & _). by apply match_parts_ok, Forall_take.
  - unfold childMatch. destruct (parts pat) as [|p ps]; [done|]. cbn in Habs. rewrite Habs. by exists true.
Qed.

(** A directory above a matched path may have matching children. *)
Lemma childMatch_sound pat strs more :
  parts pat <> [] -> Forall part_valid (parts pat) -> wf_parts (parts pat) -> strs <> [] ->
  match_pattern pat (strs ++ more) = Ok true -> childMatch pat strs = Ok true.
Proof.
  intros Hne Hv Hwf Hs Hm. unfold match_pattern in Hm. apply (match_parts_true _ _ Hv) in Hm as (ps' & He & Hsm).
  destruct (absolute (parts pat)) eqn:Habs.
  - destruct (childMatch_prefix pat strs Habs) as (k & m & -> & Hw & Hk & Hkm & Hk1 & Hkl).
    destruct (expands_prefix _ _ _ k He Hw Hk) as [Ht Hkl']. destruct (expands_wf _ _ _ He Hwf) as [_ Ha].
    destruct strs as [|s ss]; [done|]. specialize (Hk1 ltac:(cbn; lia)).
    destruct ps' as [|p' ps']; [cbn in Hkl'; lia|]. destruct Hsm as (pre & mid & post & Es & HF & Hanc).
    unfold anchored in Hanc. rewrite Ha, Habs in Hanc. subst pre. cbn [app] in Es.
    apply match_parts_true; [by apply Forall_take|]. exists (take k (parts pat)). split; [constructor; by apply wildcard_pos_None|].
    apply (Forall2_take_take _ _ _ k) in HF. rewrite Ht in HF. pose proof (Forall2_length _ _ _ HF) as Hlen. rewrite !length_take in Hlen.
    assert (take k (s :: ss) = take k mid) as Hmid.
    { transitivity (take k ((s :: ss) ++ more)); [by rewrite take_app_le|]. change ((s :: ss) ++ more) with (s :: ss ++ more). rewrite Es. apply take_app_le. lia. }
    destruct (take k (parts pat)) as [|q qs] eqn:Eq; [destruct (parts pat); [done|]; destruct k; [lia|done]|].
    exists [], (take k mid), (drop k (take m (s :: ss))). split_and!; [|done|].
    + rewrite <- Hmid. cbn [app]. rewrite <- (take_drop k (take m (s :: ss))) at 1. rewrite take_take, Nat.min_l by lia. done.
    + unfold anchored. replace (absolute (q :: qs)) with true; [done|]. rewrite <- Eq, <- Habs. destruct (parts pat); [done|]. by destruct k; [lia|].
  - unfold childMatch. destruct (parts pat) as [|p ps]; [done|]. cbn in Habs. by rewrite Habs.
Qed.

(** * Strings *)

Lemma splitPath_wf str : str <> "" -> wf_strs (splitPath str).
Proof.
  unfold splitPath. intros Hne. pose proof (split_on_no_slash str) as Hs.
  destruct str as [|c str]; [done|]. cbn [split_on] in *. destruct (Ascii.eqb c slash) eqn:Ec.
  - apply Forall_cons in Hs as [_ Hs]. split; [done|]. apply split_on_not_nil.
  - assert (forall w (ws : list string), has_slash w = false -> if String.eqb w "/" then ws <> [] else has_slash w = false) as Hhead.
    { intros w ws Hw. destruct (String.eqb_spec w "/") as [->|]; done. }
    by destruct (split_on slash str) as [|w ws]; apply Forall_cons in Hs as [Hw Hs]; (split; [|apply Hhead]).
Qed.

Lemma splitPath_below dir rest :
  splitPath (dir +:+ String.String slash rest) = splitPath dir ++ split_on slash rest.
Proof. unfold splitPath. rewrite split_on_app. pose proof (split_on_not_nil slash dir). by destruct (split_on slash dir). Qed.

Lemma string_app_not_empty a b : a <> "" -> a +:+ b <> "".
Proof. by destruct a. Qed.

Definition wf_pattern (pat : Pattern) : Prop := parts pat <> [] /\ wf_parts (parts pat).
Definition valid (pat : Pattern) : Prop := Forall part_valid (parts pat).

Lemma preparePattern_wf s pat : preparePattern s = Ok pat -> wf_pattern pat.
Proof.
  destruct s as [|c rest]; [done|]. unfold preparePattern, splitPath. set (p := path_Clean _). intros [= <-].
  pose proof (split_on_not_nil slash p) as Hne. pose proof (split_on_no_slash p) as Hs. unfold wf_pattern, wf_parts. cbn [parts].
  destruct (split_on slash p) as [|w ws]; [done|]. rewrite fmap_cons. cbn [tail]. split; [done|]. apply Forall_cons in Hs as [_ Hs]. clear Hne.
  induction Hs as [|x xs Hx Hs IH]; [constructor|]. rewrite fmap_cons.
  constructor; [|done]. unfold preparePart. cbn [pattern]. destruct (String.eqb x "**"); [done|]. by intros ->.
Qed.

Lemma ParsePatterns_ok pats : exists ps, ParsePatterns pats = Ok ps /\ Forall wf_pattern ps.
Proof.
  unfold ParsePatterns. induction pats as [|s pats (ps & E & Hw)]; [by exists []|]. rewrite filter_cons. case_decide as Hs; [|by exists ps].
  destruct (preparePattern s) as [p|e|m] eqn:Ep; [|by destruct s..]. exists (p :: ps). cbn [omap_list]. rewrite Ep, E. cbn.
  split; [done|]. constructor; [by eapply preparePattern_wf|done].
Qed.

Lemma ValidatePatterns_valid pats ps :
  ParsePatterns pats = Ok ps -> ValidatePatterns pats = Ok [] -> Forall wf_pattern ps /\ Forall valid ps.
Proof.
  intros E. unfold ValidatePatterns. rewrite E. cbn. intros [= Hn]. split.
  { destruct (ParsePatterns_ok pats) as (ps' & E' & Hw). rewrite E in E'. by injection E' as <-. }
  apply Forall_forall. intros pat Hin. unfold valid. apply Forall_forall. intros part Hp. right.
  assert (invalid_parts pat = []) as Hi.
  { apply list_elem_of_In, in_split in Hin as (l1 & l2 & ->). rewrite fmap_app, concat_app in Hn. apply app_eq_nil in Hn as [_ Hn].
    cbn in Hn. by apply app_eq_nil in Hn as [Hn _]. }
  unfold invalid_parts in Hi. apply fmap_nil_inv in Hi. rewrite <- (filepath_Match_valid _ (pattern part)).
  destruct (filepath_Match (pattern part) (pattern part)) as [b|e|m] eqn:Em; [done|..].
  all: assert (part ∈ filter (fun part => is_ok (filepath_Match (pattern part) (pattern part)) = false) (parts pat)) as Hf
    by (apply list_elem_of_filter; by rewrite Em); rewrite Hi in Hf; by apply elem_of_nil in Hf.
Qed.

Lemma list_loop_ok neg chk strs ps m c :
  Forall wf_pattern ps -> Forall valid ps -> exists r, list_loop neg chk strs ps m c = Ok r.
Proof.
  intros Hw. revert m c. induction Hw as [|pat ps [Hne Hw] _ IH]; intros m c Hv; [by eexists|]. apply Forall_cons in Hv as [Hv Hvs]. cbn [list_loop].
  destruct (match_parts_ok _ strs Hv) as [b Eb]. unfold match_pattern. rewrite Eb. cbn [mbind outcome_bind].
  destruct (childMatch_ok pat strs Hne Hv) as [b' Eb']. rewrite Eb'.
  destruct chk; cbn [mbind outcome_bind]; repeat case_if; auto; by eexists.
Qed.

Lemma list_loop_child_stays neg strs ps m r :
  Forall (fun pat => isNegated pat = false) ps -> list_loop neg true strs ps m true = Ok r -> r.2 = true.
Proof.
  intros Hp. revert m. induction Hp as [|pat ps Hn _ IH]; intros m; [by intros [= <-]|]. cbn [list_loop]. rewrite Hn.
  intros (m' & _ & (c & _ & H)%bind_Ok)%bind_Ok. cbn in H. case_if; [by simplify_eq|by apply IH in H].
Qed.

Lemma list_loop_sound neg strs more ps mc xc md cd y r :
  Forall wf_pattern ps -> Forall valid ps -> strs <> [] ->
  (neg = false -> Forall (fun pat => isNegated pat = false) ps) -> (mc = true -> cd = true) ->
  list_loop neg false (strs ++ more) ps mc xc = Ok (true, y) -> list_loop neg true strs ps md cd = Ok r -> r.2 = true.
Proof.
  intros Hw Hv Hne. revert mc xc md cd Hv. induction Hw as [|pat ps [Hpn Hpw] _ IH]; intros mc xc md cd Hv Hneg Hinv.
  { cbn. intros [= -> _] [= <-]. by apply Hinv. }
  apply Forall_cons in Hv as [Hv Hvs]. cbn [list_loop].
  assert (forall P, (neg = false -> Forall P (pat :: ps)) -> neg = false -> Forall P ps) as Htl by (intros P H Hn; apply H in Hn; by apply Forall_cons in Hn as [_ ?]).
  intros (m & Em & H1)%bind_Ok (m' & Em' & (c' & Ec' & H2)%bind_Ok)%bind_Ok. cbn in H1.
  destruct (isNegated pat) eqn:En.
  - eapply IH in H1; [exact H1|done|by apply Htl| |exact H2]. intros (Hmc & Hm)%andb_true_iff. rewrite (Hinv Hmc).
    destruct m'; [|done]. unfold match_pattern in *. rewrite (match_parts_mono _ _ more Hv Hne Em') in Em. by simplify_eq.
  - assert (mc || m = true -> cd || c' = true) as Hinv'.
    { intros [Hmc| ->]%orb_true_iff; [by rewrite (Hinv Hmc)|]. rewrite (childMatch_sound _ _ more Hpn Hv Hpw Hne Em) in Ec'. simplify_eq. apply orb_true_r. }
    destruct ((mc || m) && (xc || true) && negb neg) eqn:Eb1.
    + apply andb_true_iff in Eb1 as [[Eb1 _]%andb_true_iff Hng%negb_true_iff]. rewrite (Hinv' Eb1) in H2. cbn [andb] in H2.
      case_if; [by simplify_eq|]. apply list_loop_child_stays in H2; [done|by apply Htl].
    + cbn in H2. case_if; [|by eapply IH in H1; [exact H1|done|apply Htl| |exact H2]].
      apply andb_true_iff in Heqb as [[_ ?]%andb_true_iff _]. by simplify_eq.
Qed.

Lemma existsb_isNegated ps : existsb isNegated ps = false -> Forall (fun pat => isNegated pat = false) ps.
Proof. induction ps as [|p ps IH]; cbn; [by constructor|]. intros [? ?]%orb_false_iff. constructor; auto. Qed.

(** * Correctness *)

(** Patterns that [ValidatePatterns] accepts never make the lists of patterns
    fail on a path. *)
Theorem valid_patterns_never_fail pats ps str :
  ValidatePatterns pats = Ok [] -> ParsePatterns pats = Ok ps -> str <> "" ->
  (exists m, List ps str = Ok m) /\ exists r, ListWithChild ps str = Ok r.
Proof.
  intros Hv Hp Hs. destruct (ValidatePatterns_valid _ _ Hp Hv) as [Hw Hvs]. unfold List, ListWithChild, list_patterns, prepareStr.
  destruct ps as [|p ps]; [by split; eexists|]. destruct (String.eqb_spec str ""); [done|]. cbn [mbind outcome_bind].
  destruct (list_loop_ok (existsb isNegated (p :: ps)) false (splitPath str) (p :: ps) false false Hw Hvs) as [r1 ->].
  destruct (list_loop_ok (existsb isNegated (p :: ps)) true (splitPath str) (p :: ps) false false Hw Hvs) as [r2 ->]. by split; eexists.
Qed.

Lemma valid_patterns_never_fail_witness :
  let pats := ["*.[ch]"; "!keep/**"; ""] in
  ValidatePatterns pats = Ok [] /\ exists ps, ParsePatterns pats = Ok ps /\ length ps = 2 /\ exists m, List ps "/x/y" = Ok m.
Proof.
  split; [vm_compute; done|]. eexists. split; [vm_compute; reflexivity|]. split; [done|].
  apply (valid_patterns_never_fail ["*.[ch]"; "!keep/**"; ""]); [vm_compute; reflexivity..|done].
Defined.

(** A list of patterns that matches a path tells, for every directory above
    it, that children may match: negated patterns included, the search that skips
    the other directories finds every match. *)
Theorem ListWithChild_sound pats ps dir rest :
  ValidatePatterns pats = Ok [] -> ParsePatterns pats = Ok ps -> dir <> "" ->
  List ps (dir +:+ String.String slash rest) = Ok true ->
  exists m, ListWithChild ps dir = Ok (m, true).
Proof.
  intros Hv Hp Hd. destruct (ValidatePatterns_valid _ _ Hp Hv) as [Hw Hvs].
  unfold List, ListWithChild, list_patterns, prepareStr. destruct ps as [|p ps]; [done|]. set (l := p :: ps) in *.
  pose proof (string_app_not_empty dir (String.String slash rest) Hd) as Hd'.
  destruct (String.eqb_spec (dir +:+ String.String slash rest) ""); [done|]. destruct (String.eqb_spec dir ""); [done|].
  cbn [mbind outcome_bind]. rewrite splitPath_below. set (neg := existsb isNegated l).
  destruct (list_loop neg false _ l false false) as [[m y]|e|q] eqn:E1; cbn [fmap outcome_fmap fst]; [|done..]. intros [= ->].
  destruct (list_loop_ok neg true (splitPath dir) l false false Hw Hvs) as [[m c] E2]. exists m. rewrite E2. do 2 f_equal.
  eapply (list_loop_sound neg _ _ l false false false false y (m, c)); [done|done| | |done|exact E1|exact E2].
  - pose proof (splitPath_wf dir Hd). by destruct (splitPath dir).
  - apply existsb_isNegated.
Qed.

Lemma ListWithChild_sound_witness :
  let pats := ["/src/**/*.go"; "!/src/vendor"] in
  exists ps, ParsePatterns pats = Ok ps /\ List ps "/src/a/b.go" = Ok true /\ List ps "/src/vendor/b.go" = Ok false /\
  exists m, ListWithChild ps "/src/a" = Ok (m, true).
Proof.
  eexists. split; [vm_compute; reflexivity|]. split; [vm_compute; reflexivity|]. split; [vm_compute; reflexivity|].
  apply (ListWithChild_sound ["/src/**/*.go"; "!/src/vendor"] _ "/src/a" "b.go"); [vm_compute; reflexivity..|done|vm_compute; reflexivity].
Defined.

(** C28. [Match] decides what a well-formed pattern means, where a "**" stands for as many
    components as leave one for every part after it.  That implies the plain
    meaning, in which a "**" stands for any number of components, and is the same for
    patterns with at most one "**"; with more, [Match] misses short paths
    ([two_wildcards_short_path]). *)
Theorem Match_is_glob patternStr str pat :
  ValidatePatterns [patternStr] = Ok [] -> preparePattern patternStr = Ok pat -> str <> "" ->
  exists b, Match patternStr str = Ok b /\ (b = true <-> glob_room (parts pat) (splitPath str)) /\
    (b = true -> glob (parts pat) (splitPath str)) /\
    (wilds (parts pat) <= 1 -> glob (parts pat) (splitPath str) -> b = true).
Proof.
  intros Hv Hp Hs. unfold Match, prepareStr. destruct (String.eqb_spec patternStr "") as [->|Hne]; [done|].
  rewrite Hp. cbn [mbind outcome_bind]. destruct (String.eqb_spec str ""); [done|]. cbn [mbind outcome_bind].
  assert (ParsePatterns [patternStr] = Ok [pat]) as HP.
  { unfold ParsePatterns. rewrite filter_cons, decide_True by done. cbn [omap_list filter]. by rewrite Hp. }
  destruct (ValidatePatterns_valid _ _ HP Hv) as [[[Hne' Hwf] _]%Forall_cons [Hvp _]%Forall_cons].
  destruct (match_parts_glob (parts pat) (splitPath str)) as (b & E & Hb); [done..|by apply splitPath_wf|]. exists b. split_and!; [done|done|..].
  - intros H%Hb. by apply glob_of_room.
  - intros Hw Hg. by apply Hb, room_of_glob.
Qed.

Lemma Match_is_glob_witness :
  ValidatePatterns ["a/**/b/**/c?"] = Ok [] /\ exists pat, preparePattern "a/**/b/**/c?" = Ok pat /\ wilds (parts pat) = 2 /\
  glob_room (parts pat) (splitPath "/x/a/1/b/cd") /\ glob (parts pat) (splitPath "a/b/cd") /\ ~ glob_room (parts pat) (splitPath "a/b/cd").
Proof.
  split; [vm_compute; done|]. eexists. split; [vm_compute; reflexivity|]. split; [done|]. split; [|split].
  - destruct (Match_is_glob "a/**/b/**/c?" "/x/a/1/b/cd" _ eq_refl eq_refl) as (b & E & H & _); [done|]. apply H. vm_compute in E. by injection E as <-.
  - exists [], ["a"; "b"; "cd"], []. split_and!; [done| |done]. cbn [parts].
    apply segs_part; [done..|]. apply (segs_wild _ _ []); [done..|]. apply segs_part; [done..|]. apply (segs_wild _ _ []); [done..|].
    apply segs_part; [done..|]. constructor.
  - destruct (Match_is_glob "a/**/b/**/c?" "a/b/cd" _ eq_refl eq_refl) as (b & E & H & _); [done|]. intros Hg. apply H in Hg as ->. vm_compute in E. discriminate E.
Defined.

(** With two "**", a path with no component to spare is not matched although both
    can stand for nothing. *)
Lemma two_wildcards_short_path :
  exists pat, preparePattern "foo/**/bar/**/x" = Ok pat /\
    Match "foo/**/bar/**/x" "foo/bar/x" = Ok false /\ Match "foo/**/bar/**/x" "/home/user/foo/bar/x" = Ok true /\
    glob (parts pat) (splitPath "foo/bar/x").
Proof.
  eexists. split; [vm_compute; reflexivity|]. split; [vm_compute; reflexivity|]. split; [vm_compute; reflexivity|].
  exists [], ["foo"; "bar"; "x"], []. split_and!; [done| |done]. vm_compute (parts _).
  apply segs_part; [done..|]. apply (segs_wild _ _ []); [done..|]. apply segs_part; [done..|]. apply (segs_wild _ _ []); [done..|].
  apply segs_part; [done..|]. constructor.
Qed.
