(* ===== verification/Keys.v ===== *)
(** Key files, the configuration, and opening a repository
    (src/repository/key.go, src/restic/config.go, json.go, and [Init] and
    [SearchKey] of src/repository/repository.go).

    The JSON encodings, scrypt, random bytes, the clock, the names of host and
    user, and the arithmetic of the chunker's polynomials are parameters.  [nil]
    pointers to keys are [None].  A listing ends when its context is cancelled. *)

From S2P Require Import Prelude Bytes Restic GoString Sets GoTime HashedArrayTree IndexMap Index MasterIndex Crypto Pack Backend PackerManager Repository RepoFacts Snapshot.

#[local] Open Scope Z_scope.

Definition ErrNoKeyFound : error := ErrMsg "wrong password or no key found".
Definition ErrMaxKeysReached : error := ErrMsg "maximum number of keys reached".

(** The fields of a key that are stored, and the key. *)
Record jsonKey := mkJsonKey {
  Created : Z;
  Username : string;
  Hostname : string;
  k_KDF : string;
  k_N : Z;
  k_R : Z;
  k_P : Z;
  Salt : list byte;
  Data : list byte }.
Record Key := mkKeyFile { k_json : jsonKey; user : option Crypto.Key; master : option Crypto.Key; k_id : ID }.

(** [Valid] panics on a nil pointer, which no caller has. *)
Definition Key_Valid (k : Key) : bool :=
  match user k, master k with Some u, Some m => Crypto.Key_Valid u && Crypto.Key_Valid m | _, _ => false end.

(** What [AddKey] reads from its surroundings. *)
Record keyEnv := mkKeyEnv {
  ke_now : Z;
  ke_Hostname : string;                (* os.Hostname, its error ignored *)
  ke_Username : option string;         (* user.Current *)
  ke_Calibrate : outcome Params;
  ke_salt : outcome (list byte);       (* crypto.NewSalt *)
  ke_encrypt : list byte;              (* the random bytes of a new master key *)
  ke_mac_k : list byte;
  ke_mac_r : list byte;
  ke_nonce : list byte }.

(** The configuration of a repository. *)
Record fullConfig := mkFullConfig { c_Version : Z; c_ID : string; ChunkerPolynomial : Z }.
Definition MinRepoVersion : Z := 1.
Definition MaxRepoVersion : Z := 2.

Section Keys.
Context {B : Type} `{Backend B}.
Context (aes_Encrypt : list byte -> list byte -> list byte).
Context (poly1305_Sum : list byte -> list byte -> list byte).
Context (poly1305_Verify : list byte -> list byte -> list byte -> bool).
Context (Hash : list byte -> ID).
Context (params_Check : Params -> outcome unit).
Context (scrypt_Key : string -> list byte -> Params -> Z -> outcome (list byte)).

(** [encoding/json]: a key, its master key as an object of two encoded members,
    and the two members. *)
Context (json_MarshalKey : jsonKey -> outcome (list byte)) (json_UnmarshalKey : list byte -> outcome jsonKey).
Context (json_Object : list byte -> list byte -> list byte) (json_Fields : list byte -> outcome (list byte * list byte)).
Context (json_MarshalMAC : jsonMACKey -> outcome (list byte)) (json_UnmarshalMAC : list byte -> outcome jsonMACKey).
Context (json_MarshalBytes : list byte -> outcome (list byte)) (json_UnmarshalBytes : list byte -> outcome (list byte)).

(** [json.Marshal] of a [crypto.Key] and [json.Unmarshal] into a zero one. *)
Definition master_Marshal (k : Crypto.Key) : outcome (list byte) :=
  try mac <- MACKey_MarshalJSON json_MarshalMAC (k_MACKey k);
  try enc <- EncryptionKey_MarshalJSON json_MarshalBytes (k_EncryptionKey k);
  Ok (json_Object mac enc).
Definition master_Unmarshal (data : list byte) : outcome Crypto.Key :=
  try (mac, enc) <- json_Fields data;
  try m <- MACKey_UnmarshalJSON json_UnmarshalMAC (k_MACKey zeroKey) mac;
  try e <- EncryptionKey_UnmarshalJSON json_UnmarshalBytes (k_EncryptionKey zeroKey) enc;
  Ok (mkKey m e).

Definition LoadKey (b : B) (id : ID) : outcome Key :=
  try data <- LoadAll Hash b (mkHandle KeyFile false (ID_String id));
  try j <- wrap_err "Unmarshal" (json_UnmarshalKey data);
  Ok (mkKeyFile j None None nullID).

Definition OpenKey (b : B) (id : ID) (password : string) : outcome Key :=
  try k <- LoadKey b id;
  let j := k_json k in
  if negb (String.eqb (k_KDF j) "scrypt") then Err (ErrMsg "only supported KDF is scrypt()") else
  try user <- wrap_err "crypto.KDF" (KDF params_Check scrypt_Key (mkParams (k_N j) (k_R j) (k_P j)) (Salt j) password);
  if zlen (Data j) <? NonceSize then Panic "slice bounds out of range" else
  try (buf, user) <- Open aes_Encrypt poly1305_Verify user [] (slice_to (Data j) NonceSize) (slice_from (Data j) NonceSize);
  try master <- wrap_err "Unmarshal" (master_Unmarshal buf);
  let k := mkKeyFile j (Some user) (Some master) id in
  if negb (Key_Valid k) then Err (ErrMsg "Invalid key for repository") else Ok k.

(** [List] of a repository, as far as its identifiers. *)
Definition list_ids (b : B) (t : FileType) : outcome (list ID) :=
  try fis <- be_List b t;
  Ok (omap (fun fi => match ParseID (fi_Name fi) with Ok id => Some id | _ => None end) fis).

(** The listing of [SearchKey]; a key that opens cancels it. *)
Fixpoint search_loop (b : B) (password : string) (maxKeys checked : Z) (ids : list ID) : outcome (option Key) :=
  match ids with
  | [] => Ok None
  | id :: ids =>
      let checked := checked + 1 in
      if (0 <? maxKeys) && (maxKeys <? checked) then Err ErrMaxKeysReached
      else
        match OpenKey b id password with
        | Ok k => Ok (Some k)
        | Err e => if error_Is e ErrUnauthenticated then search_loop b password maxKeys checked ids else Err e
        | Panic p => Panic p
        end
  end.

(** The hinted key, when it opens; its errors are ignored. *)
Definition try_hint (b : B) (password keyHint : string) : outcome (option Key) :=
  if String.eqb keyHint "" then Ok None else
  match (try ids <- list_ids b KeyFile; Find keyHint ids) with
  | Ok id => match OpenKey b id password with Ok k => Ok (Some k) | Err _ => Ok None | Panic p => Panic p end
  | Err _ => Ok None
  | Panic p => Panic p
  end.

Definition SearchKey (b : B) (password : string) (maxKeys : Z) (keyHint : string) : outcome Key :=
  try hinted <- try_hint b password keyHint;
  match hinted with
  | Some k => Ok k
  | None =>
      try ids <- list_ids b KeyFile;
      try found <- search_loop b password maxKeys 0 ids;
      match found with Some k => Ok k | None => Err ErrNoKeyFound end
  end.

(** [AddKey]: [Params] is the global variable of the KDF's parameters. *)
Definition AddKey (e : keyEnv) (params : option Params) (b : B) (password username hostname : string) (template : option Crypto.Key)
    : B * option Params * outcome Key :=
  match (match params with Some p => Ok p | None => wrap_err "Calibrate" (ke_Calibrate e) end) with
  | Err err => (b, params, Err err)
  | Panic p => (b, params, Panic p)
  | Ok p =>
      let built :=
        let hostname := if String.eqb hostname "" then ke_Hostname e else hostname in
        let username := if String.eqb username "" then match ke_Username e with Some u => u | None => username end else username in
        try salt <- match ke_salt e with Err _ => Panic "unable to read enough random bytes for salt: " | s => s end;
        try user <- KDF params_Check scrypt_Key p salt password;
        try master <- match template with None => NewRandomKey (ke_encrypt e) (ke_mac_k e) (ke_mac_r e) | Some t => Ok t end;
        try buf <- wrap_err "Marshal" (master_Marshal master);
        try nonce <- NewRandomNonce (ke_nonce e);
        try (ciphertext, user) <- Seal aes_Encrypt poly1305_Sum user nonce nonce buf [];
        let j := mkJsonKey (ke_now e) username hostname "scrypt" (p_N p) (p_R p) (p_P p) salt ciphertext in
        try buf <- wrap_err "Marshal" (json_MarshalKey j);
        Ok (mkKeyFile j (Some user) (Some master) nullID, buf) in
      match built with
      | Ok (newkey, buf) =>
          let id := Hash buf in
          let '(b, res) := be_Save b (mkHandle KeyFile false (ID_String id)) buf in
          (b, Some p, match res with
                      | Ok _ => Ok (mkKeyFile (k_json newkey) (user newkey) (master newkey) id)
                      | Err err => Err err
                      | Panic p => Panic p
                      end)
      | Err err => (b, Some p, Err err)
      | Panic m => (b, Some p, Panic m)
      end
  end.

Definition createMasterKey (e : keyEnv) (params : option Params) (b : B) (password : string) : B * option Params * outcome Key :=
  AddKey e params b password "" "" None.

(** * Configuration, initialisation and opening *)

Context (zstd_EncodeAll : CompressionMode -> list byte -> list byte -> list byte).
Context (zstd_DecodeAll : list byte -> outcome (list byte)).
Context (rand : nat -> list byte).
Context (json_MarshalConfig : fullConfig -> outcome (list byte)) (json_UnmarshalConfig : list byte -> outcome fullConfig).
Context (Pol_Irreducible : Z -> bool).

Definition LoadJSONUnpacked {A : Type} (unmarshal : list byte -> outcome A) (r : Repository (B := B)) (t : FileType) (id : ID) : outcome A :=
  try buf <- LoadUnpacked aes_Encrypt poly1305_Verify Hash zstd_DecodeAll r t id; unmarshal buf.
Definition SaveJSONUnpacked {A : Type} (marshal : A -> outcome (list byte)) (r : Repository (B := B)) (t : FileType) (item : A) : Repository (B := B) * outcome ID :=
  match wrap_err "json.Marshal" (marshal item) with
  | Ok plaintext => SaveUnpacked aes_Encrypt poly1305_Sum Hash zstd_EncodeAll rand r t plaintext
  | Err e => (r, Err e)
  | Panic p => (r, Panic p)
  end.

(** [RandomPolynomial] and [NewRandomID] are given. *)
Definition CreateConfig (version : Z) (pol : outcome Z) (id : ID) : outcome fullConfig :=
  try p <- wrap_err "chunker.RandomPolynomial" pol; Ok (mkFullConfig version (ID_String id) p).

Definition LoadConfig (checkPolynomial : bool) (r : Repository (B := B)) : outcome fullConfig :=
  try c <- LoadJSONUnpacked json_UnmarshalConfig r ConfigFile nullID;
  if (c_Version c <? MinRepoVersion) || (MaxRepoVersion <? c_Version c) then Err (ErrMsg "unsupported repository version %v")
  else if checkPolynomial && negb (Pol_Irreducible (ChunkerPolynomial c)) then Err (ErrMsg "invalid chunker polynomial")
  else Ok c.

Definition SaveConfig (r : Repository (B := B)) (c : fullConfig) : Repository (B := B) * outcome unit :=
  let '(r, res) := SaveJSONUnpacked json_MarshalConfig r ConfigFile c in (r, (fun _ => tt) <$> res).

Definition repo_config (c : fullConfig) : Config := mkConfig (c_Version c) (c_ID c).
Definition set_key (r : Repository (B := B)) (k : Crypto.Key) : Repository (B := B) :=
  mkRepo (be r) (cfg r) k (idx r) (opts r) (noAutoIndexUpdate r) (pms r) (env r).

(** [Repository.SearchKey]; the ID of the key it stores is its result. *)
Definition Repository_SearchKey (checkPolynomial : bool) (r : Repository (B := B)) (password : string) (maxKeys : Z) (keyHint : string)
    : Repository (B := B) * outcome ID :=
  match SearchKey (be r) password maxKeys keyHint with
  | Ok k =>
      match master k with
      | None => (r, Panic "nil pointer dereference")
      | Some m =>
          let r := set_key r m in
          match LoadConfig checkPolynomial r with
          | Ok c => (setConfig r (repo_config c), Ok (k_id k))
          | Err e => (r, Err (ErrWrap e (if bool_decide (e = ErrUnauthenticated) then "config or key %v is damaged: %w" else "config cannot be loaded: %w")))
          | Panic p => (r, Panic p)
          end
      end
  | Err e => (r, Err e)
  | Panic p => (r, Panic p)
  end.

Definition init (e : keyEnv) (params : option Params) (r : Repository (B := B)) (password : string) (c : fullConfig)
    : Repository (B := B) * option Params * outcome unit :=
  let '(b, params, res) := createMasterKey e params (be r) password in
  let r := set_be r b in
  match res with
  | Ok k =>
      match master k with
      | None => (r, params, Panic "nil pointer dereference")
      | Some m => let '(r, res) := SaveConfig (setConfig (set_key r m) (repo_config c)) c in (r, params, res)
      end
  | Err err => (r, params, Err err)
  | Panic p => (r, params, Panic p)
  end.

Definition Init (e : keyEnv) (params : option Params) (pol : outcome Z) (id : ID) (r : Repository (B := B)) (version : Z) (password : string)
    (chunkerPolynomial : option Z) : Repository (B := B) * option Params * outcome unit :=
  if MaxRepoVersion <? version then (r, params, Err (ErrMsg "repository version %v too high"))
  else if version <? MinRepoVersion then (r, params, Err (ErrMsg "repository version %v too low"))
  else
    match be_Stat (be r) (mkHandle ConfigFile false "") with
    | Ok _ => (r, params, Err (ErrMsg "repository master key and config already initialized"))
    | Panic p => (r, params, Panic p)
    | Err err =>
        if negb (be_IsNotExist err) then (r, params, Err err)
        else
          match CreateConfig version pol id with
          | Ok c =>
              let c := match chunkerPolynomial with Some p => mkFullConfig (c_Version c) (c_ID c) p | None => c end in
              init e params r password c
          | Err err => (r, params, Err err)
          | Panic p => (r, params, Panic p)
          end
    end.
End Keys.

(** * Correctness *)

(** The key as it is read back: its bytes, not yet marked as masked. *)
Definition unmasked (k : Crypto.Key) : Crypto.Key :=
  mkKey (mkMACKey (K (k_MACKey k)) (R (k_MACKey k)) false) (k_EncryptionKey k).

Lemma byte_and_absorb a b : byte_and (byte_and a b) b = byte_and a b.
Proof.
  unfold byte_and at 1 3. f_equal. rewrite Z_of_byte_and. by rewrite <- Z.land_assoc, Z.land_diag.
Qed.

Lemma zip_and_absorb l m : zip_with byte_and (zip_with byte_and l m) m = zip_with byte_and l m.
Proof. revert m; induction l as [|a l IH]; intros [|b m]; [done..|]. cbn. by rewrite byte_and_absorb, IH. Qed.

Lemma masked_unmasked m : masked m = false -> masked_key (unmasked (mkKey (maskKey m) [])) = mkKey (maskKey m) [].
Proof. intros Hm. unfold maskKey, masked_key, unmasked, with_mac. rewrite Hm. cbn. unfold maskKey. cbn. by rewrite zip_and_absorb. Qed.

Lemma NewRandomKey_spec e k r m : NewRandomKey e k r = Ok m -> key_wf m /\ masked_key (unmasked m) = m.
Proof.
  unfold NewRandomKey. destruct (negb _) eqn:H1; [done|]. destruct (negb (zlen k =? _)) eqn:H2; [done|]. destruct (negb (zlen r =? _)) eqn:H3; [done|].
  intros [= <-]. bool_to_prop. unfold zlen, aesKeySize, macKeySizeK, macKeySizeR in *. split.
  - unfold key_wf. cbn. rewrite length_zip_with. cbn [length]. lia.
  - pose proof (masked_unmasked (mkMACKey k r false) eq_refl) as Hm. unfold masked_key, unmasked, with_mac in *. cbn in *. by injection Hm as ->.
Qed.

Lemma KDF_masked check scrypt p salt password u : KDF check scrypt p salt password = Ok u -> masked_key u = u.
Proof.
  unfold KDF. case_if; [done|]. intros ([] & _ & E)%bind_Ok. apply bind_Ok in E as (keys & _ & E). case_if; [done|].
  apply bind_Ok in E as (m & Em & [= <-]). unfold macKeyFromSlice in Em. case_if; [done|]. injection Em as <-.
  unfold masked_key, with_mac. cbn [k_MACKey k_EncryptionKey]. by rewrite maskKey_idem.
Qed.

(** Opening with a key whose bytes are masked already. *)
Lemma open_buffer_masked aes verify k f :
  Crypto.Key_Valid (masked_key k) = Crypto.Key_Valid k -> open_buffer aes verify (masked_key k) f = open_buffer aes verify k f.
Proof.
  intros Hv. unfold open_buffer. case_if; [done|]. unfold Open. rewrite Hv. case_if; [done|]. case_if; [done|]. case_if; [done|].
  case_if; [done|]. unfold poly1305Verify, poly1305PrepareKey, masked_key. cbn [with_mac k_MACKey k_EncryptionKey]. by rewrite maskKey_idem.
Qed.

Section Facts.
Context {B : Type} `{HL : BackendLaws B}.
Context (aes_Encrypt : list byte -> list byte -> list byte).
Context (poly1305_Sum : list byte -> list byte -> list byte).
Context (poly1305_Verify : list byte -> list byte -> list byte -> bool).
Context (Hash : list byte -> ID).
Context (params_Check : Params -> outcome unit).
Context (scrypt_Key : string -> list byte -> Params -> Z -> outcome (list byte)).
Context (json_MarshalKey : jsonKey -> outcome (list byte)) (json_UnmarshalKey : list byte -> outcome jsonKey).
Context (json_Object : list byte -> list byte -> list byte) (json_Fields : list byte -> outcome (list byte * list byte)).
Context (json_MarshalMAC : jsonMACKey -> outcome (list byte)) (json_UnmarshalMAC : list byte -> outcome jsonMACKey).
Context (json_MarshalBytes : list byte -> outcome (list byte)) (json_UnmarshalBytes : list byte -> outcome (list byte)).

(** The encodings can be read back, and the cipher works. *)
Record keys_ok : Prop := {
  ko_cipher : cipher_ok aes_Encrypt poly1305_Sum poly1305_Verify;
  ko_key : forall j buf, json_MarshalKey j = Ok buf -> json_UnmarshalKey buf = Ok j;
  ko_object : forall a b, json_Fields (json_Object a b) = Ok (a, b);
  ko_mac : forall j buf, json_MarshalMAC j = Ok buf -> json_UnmarshalMAC buf = Ok j;
  ko_bytes : forall d buf, json_MarshalBytes d = Ok buf -> json_UnmarshalBytes buf = Ok d }.
Context (Hok : keys_ok).

Abbreviation master_Unmarshal' := (master_Unmarshal json_Fields json_UnmarshalMAC json_UnmarshalBytes).
Abbreviation OpenKey' := (OpenKey aes_Encrypt poly1305_Verify Hash params_Check scrypt_Key json_UnmarshalKey json_Fields json_UnmarshalMAC json_UnmarshalBytes).
Abbreviation AddKey' := (AddKey aes_Encrypt poly1305_Sum Hash params_Check scrypt_Key json_MarshalKey json_Object json_MarshalMAC json_MarshalBytes).
Abbreviation SearchKey' := (SearchKey aes_Encrypt poly1305_Verify Hash params_Check scrypt_Key json_UnmarshalKey json_Fields json_UnmarshalMAC json_UnmarshalBytes).

Lemma master_roundtrip k buf :
  key_wf k -> master_Marshal json_Object json_MarshalMAC json_MarshalBytes k = Ok buf -> master_Unmarshal' buf = Ok (unmasked k).
Proof using Hok.
  intros (HK & HR & HE). unfold master_Marshal, master_Unmarshal. intros (mac & Em & E)%bind_Ok. apply bind_Ok in E as (enc & Ee & [= <-]).
  rewrite (ko_object Hok). cbn [mbind outcome_bind]. unfold MACKey_UnmarshalJSON, EncryptionKey_UnmarshalJSON.
  rewrite (ko_mac Hok _ _ Em), (ko_bytes Hok _ _ Ee). cbn [wrap_err mbind outcome_bind jm_K jm_R].
  rewrite !go_copy_same by (cbn; by rewrite ?HK, ?HR, ?HE). done.
Qed.

(** What a successful [AddKey] did. *)
Lemma AddKey_inv e params b password username hostname template b' params' k :
  AddKey' e params b password username hostname template = (b', params', Ok k) ->
  exists m u j buf, master k = Some m /\ user k = Some u /\ k_json k = j /\ k_id k = Hash buf /\
    match template with Some t => m = t | None => NewRandomKey (ke_encrypt e) (ke_mac_k e) (ke_mac_r e) = Ok m end /\
    json_MarshalKey j = Ok buf /\ k_KDF j = "scrypt" /\
    KDF params_Check scrypt_Key (mkParams (k_N j) (k_R j) (k_P j)) (Salt j) password = Ok u /\
    Crypto.Key_Valid u = true /\
    (exists mb nonce, master_Marshal json_Object json_MarshalMAC json_MarshalBytes m = Ok mb /\ zlen nonce = ivSize /\ validNonce nonce = true /\
      Data j = nonce ++ sealed aes_Encrypt poly1305_Sum u nonce mb) /\
    be_Save b (mkHandle KeyFile false (ID_String (Hash buf))) buf = (b', Ok tt).
Proof.
  unfold AddKey. destruct (match params with Some p => _ | None => _ end) as [p|err|pm]; [|done..].
  match goal with |- context [match ?built with Ok _ => _ | Err _ => _ | Panic _ => _ end] => destruct built as [[k1 buf]|err|pm] eqn:Eb end; [|done..].
  destruct (be_Save b _ buf) as [b1 res] eqn:Es. destruct res as [[]|err|pm]; intros [= <- _ <-].
  apply bind_Ok in Eb as (salt & _ & E). apply bind_Ok in E as (u & Eu & E). apply bind_Ok in E as (m & Em & E).
  apply bind_Ok in E as (mb & Emb & E). apply bind_Ok in E as (nonce & En & E). apply bind_Ok in E as ([ct u'] & Ect & E). apply bind_Ok in E as (buf' & Ebuf & E).
  injection E as <- <-. unfold NewRandomNonce in En. destruct (negb (zlen (ke_nonce e) =? ivSize)); [done|]. injection En as <-.
  assert (Crypto.Key_Valid u = true /\ zlen (ke_nonce e) = ivSize /\ validNonce (ke_nonce e) = true) as (Hu & Hn & Hv).
  { unfold Seal in Ect. destruct (Crypto.Key_Valid u); [|done]. destruct (0 <? _); [done|]. destruct (zlen (ke_nonce e) =? ivSize) eqn:En; [|done].
    destruct (validNonce (ke_nonce e)); [|done]. by apply Z.eqb_eq in En. }
  rewrite Seal_ok in Ect by done. injection Ect as <- <-.
  assert (masked_key u = u) as Hmu by (by eapply KDF_masked).
  eexists m, u, _, buf'. cbn. rewrite Hmu. split_and!; try done.
  - destruct template; [by injection Em|done].
  - destruct (json_MarshalKey _); [by injection Ebuf as ->|done..].
  - by destruct p.
  - destruct (master_Marshal _ _ _ m) as [mb'|e'|p'] eqn:Emm; [|done..]. injection Emb as ->. by exists mb, (ke_nonce e).
Qed.

(** Opening a key file that holds a sealed master key. *)
Lemma OpenKey_stored b j buf u m mb nonce password :
  be_files b !! mkHandle KeyFile false (ID_String (Hash buf)) = Some buf ->
  json_MarshalKey j = Ok buf -> k_KDF j = "scrypt" ->
  KDF params_Check scrypt_Key (mkParams (k_N j) (k_R j) (k_P j)) (Salt j) password = Ok u ->
  Crypto.Key_Valid u = true -> key_wf m -> Crypto.Key_Valid m = true ->
  master_Marshal json_Object json_MarshalMAC json_MarshalBytes m = Ok mb -> zlen nonce = ivSize -> validNonce nonce = true ->
  Data j = nonce ++ sealed aes_Encrypt poly1305_Sum u nonce mb ->
  OpenKey' b (Hash buf) password = Ok (mkKeyFile j (Some u) (Some (unmasked m)) (Hash buf)).
Proof using Hok HL.
  intros Hf Hj Hkdf Hu Hv Hwf Hm Hmb Hn Hnv Hd. unfold OpenKey, LoadKey.
  rewrite (LoadAll_stored Hash b KeyFile false (Hash buf) buf) by done. cbn [mbind outcome_bind].
  rewrite (ko_key Hok _ _ Hj). cbn [wrap_err mbind outcome_bind k_json]. rewrite Hkdf. cbn [String.eqb negb]. 
  change (String.eqb "scrypt" "scrypt") with true. cbn [negb]. rewrite Hu. cbn [wrap_err mbind outcome_bind]. rewrite Hd, zlen_app, Hn.
  pose proof (zlen_nonneg (sealed aes_Encrypt poly1305_Sum u nonce mb)). destruct (Z.ltb_spec (ivSize + zlen (sealed aes_Encrypt poly1305_Sum u nonce mb)) NonceSize) as [Hlt|_]; [unfold NonceSize in Hlt; lia|].
  assert (Z.to_nat NonceSize = length nonce) as El by (unfold zlen, ivSize in Hn; unfold NonceSize, ivSize; lia).
  unfold slice_to, slice_from. rewrite El, take_app_length, drop_app_length.
  assert (Open aes_Encrypt poly1305_Verify u [] nonce (sealed aes_Encrypt poly1305_Sum u nonce mb) = Ok ([] ++ mb, masked_key u)) as ->
    by (apply (Open_iff _ _ _ (ko_cipher Hok)); eauto).
  cbn [mbind outcome_bind app]. rewrite (master_roundtrip m mb Hwf Hmb). cbn [wrap_err mbind outcome_bind]. rewrite (KDF_masked _ _ _ _ _ _ Hu).
  unfold Key_Valid. cbn [user master]. rewrite Hv. change (Crypto.Key_Valid (unmasked m)) with (Crypto.Key_Valid m). by rewrite Hm.
Qed.

(** The key that [AddKey] adds opens with its password, on the new state of the
    backend and every later one that still has the file, and yields the bytes of
    the master key. *)
Theorem AddKey_OpenKey e params b password username hostname template b' params' k m later :
  AddKey' e params b password username hostname template = (b', params', Ok k) -> master k = Some m ->
  match template with Some t => key_wf t | None => True end -> Crypto.Key_Valid m = true ->
  be_files b' ⊆ be_files later ->
  exists k', OpenKey' later (k_id k) password = Ok k' /\ k_json k' = k_json k /\ k_id k' = k_id k /\ master k' = Some (unmasked m).
Proof using Hok HL.
  intros HA Hmk Ht Hv Hlater. destruct (AddKey_inv _ _ _ _ _ _ _ _ _ _ HA) as (m' & u & j & buf & Hm & Hu & Hj & Hid & Htm & Hbuf & Hs & Hkdf & Huv & (mb & nonce & Hmb & Hn & Hnv & Hd) & Hsave).
  rewrite Hmk in Hm. injection Hm as <-.
  assert (key_wf m) as Hwf by (destruct template; [by subst|by apply NewRandomKey_spec in Htm as [? _]]).
  apply law_Save in Hsave as [_ Hfs]. rewrite Hid.
  assert (be_files later !! mkHandle KeyFile false (ID_String (Hash buf)) = Some buf) as Hlk.
  { eapply lookup_weaken; [|exact Hlater]. rewrite Hfs. apply lookup_insert_eq. }
  rewrite (OpenKey_stored later j buf u m mb nonce password) by done. eexists. split; [done|]. by rewrite Hj.
Qed.

(** A key file with too few encrypted bytes makes [OpenKey] panic. *)
Lemma OpenKey_short_panics b j buf u password :
  be_files b !! mkHandle KeyFile false (ID_String (Hash buf)) = Some buf -> json_UnmarshalKey buf = Ok j -> k_KDF j = "scrypt" ->
  KDF params_Check scrypt_Key (mkParams (k_N j) (k_R j) (k_P j)) (Salt j) password = Ok u -> zlen (Data j) < NonceSize ->
  OpenKey' b (Hash buf) password = Panic "slice bounds out of range".
Proof using HL.
  intros Hf Hj Hk Hu Hl. unfold OpenKey, LoadKey. rewrite (LoadAll_stored Hash b KeyFile false (Hash buf) buf) by done. cbn [mbind outcome_bind].
  rewrite Hj. cbn [wrap_err mbind outcome_bind k_json]. rewrite Hk. change (negb (String.eqb "scrypt" "scrypt")) with false. cbn iota. rewrite Hu. cbn [wrap_err mbind outcome_bind].
  by rewrite (proj2 (Z.ltb_lt _ _)).
Qed.
End Facts.

(** ** Initialising a repository and opening it *)

Section Opening.
Context {B : Type} `{HL : BackendLaws B}.
Context (aes_Encrypt : list byte -> list byte -> list byte).
Context (poly1305_Sum : list byte -> list byte -> list byte).
Context (poly1305_Verify : list byte -> list byte -> list byte -> bool).
Context (Hash : list byte -> ID).
Context (params_Check : Params -> outcome unit).
Context (scrypt_Key : string -> list byte -> Params -> Z -> outcome (list byte)).
Context (json_MarshalKey : jsonKey -> outcome (list byte)) (json_UnmarshalKey : list byte -> outcome jsonKey).
Context (json_Object : list byte -> list byte -> list byte) (json_Fields : list byte -> outcome (list byte * list byte)).
Context (json_MarshalMAC : jsonMACKey -> outcome (list byte)) (json_UnmarshalMAC : list byte -> outcome jsonMACKey).
Context (json_MarshalBytes : list byte -> outcome (list byte)) (json_UnmarshalBytes : list byte -> outcome (list byte)).
Context (zstd_EncodeAll : CompressionMode -> list byte -> list byte -> list byte).
Context (zstd_DecodeAll : list byte -> outcome (list byte)).
Context (json_Encode : jsonIndex -> outcome (list byte)) (json_Unmarshal : list byte -> outcome jsonIndex).
Context (rand : nat -> list byte).
Context (json_MarshalConfig : fullConfig -> outcome (list byte)) (json_UnmarshalConfig : list byte -> outcome fullConfig).
Context (Pol_Irreducible : Z -> bool).
Context (Hok : keys_ok aes_Encrypt poly1305_Sum poly1305_Verify json_MarshalKey json_UnmarshalKey json_Object json_Fields
  json_MarshalMAC json_UnmarshalMAC json_MarshalBytes json_UnmarshalBytes).
Context (Henv : env_ok aes_Encrypt poly1305_Sum poly1305_Verify Hash zstd_EncodeAll zstd_DecodeAll json_Encode json_Unmarshal rand).
Context (Hconfig : forall c buf, json_MarshalConfig c = Ok buf -> json_UnmarshalConfig buf = Ok c).

Abbreviation Init' := (Init aes_Encrypt poly1305_Sum Hash params_Check scrypt_Key json_MarshalKey json_Object json_MarshalMAC json_MarshalBytes
  zstd_EncodeAll rand json_MarshalConfig).
Abbreviation RepoSearchKey' := (Repository_SearchKey aes_Encrypt poly1305_Verify Hash params_Check scrypt_Key json_UnmarshalKey json_Fields
  json_UnmarshalMAC json_UnmarshalBytes zstd_DecodeAll json_UnmarshalConfig Pol_Irreducible).
Abbreviation init' := (init aes_Encrypt poly1305_Sum Hash params_Check scrypt_Key json_MarshalKey json_Object json_MarshalMAC json_MarshalBytes
  zstd_EncodeAll rand json_MarshalConfig).

Lemma set_be_setConfig (r : Repository (B := B)) c k : be (setConfig (set_key r k) c) = be r /\ key (setConfig (set_key r k) c) = k /\ cfg (setConfig (set_key r k) c) = c.
Proof. unfold setConfig. by destruct (2 <=? Version c). Qed.

(** What a successful [init] stores: one key file and the config. *)
Lemma init_inv e params (r r1 : Repository (B := B)) password c params' :
  init' e params r password c = (r1, params', Ok tt) -> Crypto.Key_Valid (key r1) = true -> be_ok (be r) ->
  exists m id k, key r1 = m /\ masked_key (unmasked m) = m /\ be_ok (be r1) /\ cfg r1 = repo_config c /\
    OpenKey aes_Encrypt poly1305_Verify Hash params_Check scrypt_Key json_UnmarshalKey json_Fields json_UnmarshalMAC json_UnmarshalBytes (be r1) id password = Ok k /\
    master k = Some (unmasked m) /\ k_id k = id /\
    (exists buf f, json_MarshalConfig c = Ok buf /\ open_buffer aes_Encrypt poly1305_Verify m f = Ok buf /\
      be_files (be r1) !! mkHandle ConfigFile false "" = Some f) /\
    (forall name, is_Some (be_files (be r1) !! mkHandle KeyFile false name) -> name = ID_String id \/ is_Some (be_files (be r) !! mkHandle KeyFile false name)) /\
    is_Some (be_files (be r1) !! mkHandle KeyFile false (ID_String id)).
Proof using Hok Henv HL.
  unfold init, createMasterKey. destruct (AddKey _ _ _ _ _ _ _ _ _ _ _ _ _ _ _ _) as [[b1 p1] res] eqn:EA. destruct res as [k|err|pm]; [|done..].
  destruct (AddKey_inv _ _ _ _ _ _ _ _ _ _ _ _ _ _ _ _ _ _ _ EA) as (m & u & j & buf & Hm & Hu & Hj & Hid & Htm & Hbuf & Hs & Hkdf & Huv & (mb & nonce & Hmb & Hn & Hnv & Hd) & Hsave).
  rewrite Hm. unfold SaveConfig, SaveJSONUnpacked. set (rc := setConfig (set_key (set_be r b1) m) (repo_config c)).
  destruct (set_be_setConfig (set_be r b1) (repo_config c) m) as (Hrb & Hrk & Hrc). fold rc in Hrb, Hrk, Hrc. cbn [be set_be] in Hrb.
  destruct (json_MarshalConfig c) as [cb|e'|p'] eqn:Ec; [|done..]. cbn [wrap_err].
  destruct (SaveUnpacked _ _ _ _ _ rc ConfigFile cb) as [r2 res2] eqn:Esv. intros [= <- <- Hres] Hv Hbok.
  destruct res2 as [id2|e2|p2]; [|done..]. clear Hres.
  (* the key of a successful SaveUnpacked is valid *)
  assert (key r2 = m) as Hk2.
  { unfold SaveUnpacked in Esv. destruct (NewRandomNonce _) as [no|?|?]; [|done..]. destruct (Seal _ _ _ no no _ []) as [[ct ?]|?|?]; [|done..].
    destruct (be_Save _ _ ct) as [b3 res3]. destruct res3; [|done..]. injection Esv as <- _. exact Hrk. }
  rewrite Hk2 in Hv. apply NewRandomKey_spec in Htm as [Hwf Hmask].
  destruct (SaveUnpacked_eq _ _ _ Hash _ _ _ _ rand Henv rc ConfigFile cb) as (f & Hopen & Heq); [by rewrite Hrk|]. cbn zeta in Heq.
  destruct (be_Save (be rc) (mkHandle ConfigFile false (ID_String nullID)) f) as [b3 res3] eqn:Es3. change (ConfigFile =? ConfigFile) with true in Heq. cbn iota in Heq.
  rewrite (Heq b3 res3 Es3) in Esv. destruct res3 as [[]|e3|p3]; [|done..]. injection Esv as <- <-.
  pose proof (law_ok _ _ _ _ _ Hbok Hsave) as Hok1. rewrite Hrb in Es3. pose proof (law_ok _ _ _ _ _ Hok1 Es3) as Hok3.
  apply law_Save in Hsave as [_ Hf1]. apply law_Save in Es3 as [_ Hf3]. change (canon (mkHandle ConfigFile false (ID_String nullID))) with (mkHandle ConfigFile false "") in Hf3.
  change (canon (mkHandle KeyFile false (ID_String (Hash buf)))) with (mkHandle KeyFile false (ID_String (Hash buf))) in Hf1.
  assert (be_files b3 !! mkHandle KeyFile false (ID_String (Hash buf)) = Some buf) as Hkf.
  { rewrite Hf3, lookup_insert_ne by done. rewrite Hf1. apply lookup_insert_eq. }
  exists m, (Hash buf), (mkKeyFile j (Some u) (Some (unmasked m)) (Hash buf)). cbn [be key cfg set_be tick].
  split_and!; [done|done|done|done| |done|done| | |by eexists].
  - eapply OpenKey_stored; done.
  - exists cb, f. split; [done|]. split; [by rewrite Hrk in Hopen|]. rewrite Hf3. apply lookup_insert_eq.
  - intros name. rewrite Hf3, lookup_insert_ne by done. rewrite Hf1. destruct (decide (name = ID_String (Hash buf))) as [->|Hne]; [by left|].
    rewrite lookup_insert_ne by congruence. by right.
Qed.

(** The key files of a backend with a single one. *)
Lemma list_ids_single (b : B) id fis :
  be_ok b -> be_List b KeyFile = Ok fis -> is_Some (be_files b !! mkHandle KeyFile false (ID_String id)) ->
  (forall name, is_Some (be_files b !! mkHandle KeyFile false name) -> name = ID_String id) ->
  exists ids, list_ids b KeyFile = Ok (id :: ids).
Proof.
  intros Hb HLs Hin Hall. unfold list_ids. rewrite HLs. cbn [mbind outcome_bind].
  pose proof (law_List b KeyFile fis Hb HLs) as Hl. apply Hl in Hin.
  assert (forall fi, fi ∈ fis -> fi_Name fi = ID_String id) as Hn.
  { intros fi Hfi. apply Hall, Hl. by apply list_elem_of_fmap_2. }
  destruct fis as [|fi fis]; [by apply elem_of_nil in Hin|]. cbn [omap list_omap]. rewrite (Hn fi) by by left. rewrite ParseID_String_ok. by eexists.
Qed.

(** C16. A repository that was initialised can be opened from its backend with its
    password: the key is found among the key files, the master key has the same
    bytes, and the configuration is the one that was created. *)
Theorem Init_SearchKey e params pol id (r r1 r2 : Repository (B := B)) version password cp params' check fis :
  Init' e params pol id r version password cp = (r1, params', Ok tt) ->
  be_ok (be r) -> (forall name, be_files (be r) !! mkHandle KeyFile false name = None) ->
  Crypto.Key_Valid (key r1) = true ->
  (forall p, pol = Ok p \/ cp = Some p -> Pol_Irreducible p = true) ->
  be r2 = be r1 -> be_List (be r1) KeyFile = Ok fis ->
  exists r3 keyID, RepoSearchKey' check r2 password 0 "" = (r3, Ok keyID) /\ masked_key (key r3) = key r1 /\ cfg r3 = cfg r1 /\ be r3 = be r1.
Proof using Hok Henv Hconfig HL.
  unfold Init. intros HI Hbok Hnokey Hv Hirr Hbe HLs. destruct (MaxRepoVersion <? version) eqn:Hmax; [done|]. destruct (version <? MinRepoVersion) eqn:Hmin; [done|].
  destruct (be_Stat _ _) as [?|err|?]; [done| |done]. destruct (negb _); [done|]. unfold CreateConfig in HI.
  destruct pol as [p|ep|pp]; [|done..]. cbn [wrap_err mbind outcome_bind] in HI.
  set (c := match cp with Some q => _ | None => _ end) in HI.
  assert (c_Version c = version /\ Pol_Irreducible (ChunkerPolynomial c) = true) as [Hcv Hcp] by (subst c; destruct cp; split; [done|by apply Hirr; right|done|by apply Hirr; left]).
  destruct (init_inv _ _ _ _ _ _ _ HI Hv Hbok) as (m & kid & k & Hk & Hmask & Hok1 & Hcfg & Hopen & Hmk & Hkid & (buf & f & Hbuf & Hof & Hff) & Hnames & Hsome).
  destruct (list_ids_single (be r1) kid fis Hok1 HLs Hsome) as [ids Hids].
  { intros name Hn. destruct (Hnames name Hn) as [|[x Hx]]; [done|]. by rewrite Hnokey in Hx. }
  unfold Repository_SearchKey, SearchKey, try_hint. change (String.eqb "" "") with true. cbn iota. cbn [mbind outcome_bind]. rewrite Hbe, Hids. cbn [mbind outcome_bind].
  cbn [search_loop]. change (0 <? 0) with false. cbn [andb]. rewrite Hopen. cbn [mbind outcome_bind]. rewrite Hmk.
  assert (LoadConfig aes_Encrypt poly1305_Verify Hash zstd_DecodeAll json_UnmarshalConfig Pol_Irreducible check (set_key r2 (unmasked m)) = Ok c) as ->.
  { unfold LoadConfig, LoadJSONUnpacked. rewrite (LoadUnpacked_eq _ _ Hash _ _ ConfigFile nullID f buf).
    - cbn [negb mbind outcome_bind]. change (ConfigFile =? ConfigFile) with true. cbn [negb mbind outcome_bind]. rewrite (Hconfig _ _ Hbuf). cbn [mbind outcome_bind].
      rewrite Hcv, Hmin, Hmax, Hcp. cbn [orb negb]. by rewrite andb_false_r.
    - cbn [be set_key]. by rewrite Hbe.
    - done.
    - cbn [key set_key]. rewrite <- open_buffer_masked; [by rewrite Hmask|]. rewrite Hmask. done. }
  destruct (set_be_setConfig r2 (repo_config c) (unmasked m)) as (H1 & H2 & H3).
  eexists _, _. split; [done|]. rewrite H1, H2, H3. split_and!; [by rewrite Hmask|done|done].
Qed.
End Opening.

(** * Parameters that can be evaluated *)

(** Two members: the length of the first one in unary, and both. *)
Definition ex_Object (a b : list byte) : list byte := replicate (length a) "x"%byte ++ ","%byte :: a ++ b.
Fixpoint ex_count (l : list byte) : nat := match l with b :: l => if Byte.eqb b "x"%byte then S (ex_count l) else O | [] => O end.
Definition ex_Fields (d : list byte) : outcome (list byte * list byte) :=
  let n := ex_count d in
  match drop n d with _ :: rest => Ok (take n rest, drop n rest) | [] => Err (ErrMsg "json: syntax error") end.

Lemma ex_Fields_Object a b : ex_Fields (ex_Object a b) = Ok (a, b).
Proof.
  unfold ex_Fields, ex_Object. assert (forall n l, ex_count (replicate n "x"%byte ++ ","%byte :: l) = n) as Hc by (induction n; intros l; cbn; auto).
  rewrite Hc, drop_app_length' by (by rewrite length_replicate). by rewrite take_app_length, drop_app_length.
Qed.

Definition ex_MarshalMAC (j : jsonMACKey) : outcome (list byte) := Ok (ex_Object (jm_K j) (jm_R j)).
Definition ex_UnmarshalMAC (d : list byte) : outcome jsonMACKey := try (k, r) <- ex_Fields d; Ok (mkJsonMACKey k r).

Definition ex_MarshalKey (j : jsonKey) : outcome (list byte) :=
  Ok (ex_Object (encode_bytes (Created j, Username j, Hostname j, k_KDF j, k_N j, k_R j, k_P j)) (ex_Object (Salt j) (Data j))).
Definition ex_UnmarshalKey (d : list byte) : outcome jsonKey :=
  try (head, rest) <- ex_Fields d;
  try (salt, data) <- ex_Fields rest;
  match decode_bytes head with
  | Some (c, u, h, kdf, n, r, p) => Ok (mkJsonKey c u h kdf n r p salt data)
  | None => Err (ErrMsg "json: syntax error")
  end.

Definition ex_MarshalConfig (c : fullConfig) : outcome (list byte) := Ok (encode_bytes (c_Version c, c_ID c, ChunkerPolynomial c)).
Definition ex_UnmarshalConfig (d : list byte) : outcome fullConfig :=
  match decode_bytes d with Some (v, i, p) => Ok (mkFullConfig v i p) | None => Err (ErrMsg "json: syntax error") end.

Lemma ex_keys_ok : keys_ok ex_aes ex_sum ex_verify ex_MarshalKey ex_UnmarshalKey ex_Object ex_Fields ex_MarshalMAC ex_UnmarshalMAC Ok Ok.
Proof.
  split.
  - exact ex_cipher_ok.
  - intros [] buf [= <-]. unfold ex_UnmarshalKey. rewrite ex_Fields_Object. cbn [mbind outcome_bind]. rewrite ex_Fields_Object. cbn [mbind outcome_bind]. by rewrite decode_encode_bytes.
  - exact ex_Fields_Object.
  - intros [] buf [= <-]. unfold ex_UnmarshalMAC. by rewrite ex_Fields_Object.
  - by intros d buf [= <-].
Qed.

Lemma ex_config_roundtrip c buf : ex_MarshalConfig c = Ok buf -> ex_UnmarshalConfig buf = Ok c.
Proof. destruct c. intros [= <-]. unfold ex_UnmarshalConfig. by rewrite decode_encode_bytes. Qed.

Definition ex_scrypt (password : string) (salt : list byte) (p : Params) (n : Z) : outcome (list byte) :=
  Ok (replicate (Z.to_nat n) (byte_of_Z (7 + Z.of_nat (String.length password)))).
Definition ex_keyEnv : keyEnv :=
  mkKeyEnv 0 "host" (Some "user") (Ok (mkParams 2 1 1)) (Ok (replicate 64 "s"%byte)) (replicate 32 "e"%byte) (replicate 16 "k"%byte)
    (replicate 16 "r"%byte) (replicate 16 "n"%byte).

Abbreviation ex_AddKey := (AddKey ex_aes ex_sum ex_sha (fun _ => Ok tt) ex_scrypt ex_MarshalKey ex_Object ex_MarshalMAC Ok).
Abbreviation ex_OpenKey := (OpenKey ex_aes ex_verify ex_sha (fun _ => Ok tt) ex_scrypt ex_UnmarshalKey ex_Fields ex_UnmarshalMAC Ok).
Abbreviation ex_Init := (Init ex_aes ex_sum ex_sha (fun _ => Ok tt) ex_scrypt ex_MarshalKey ex_Object ex_MarshalMAC Ok ex_zstd_EncodeAll ex_rand ex_MarshalConfig).
Abbreviation ex_Repository_SearchKey := (Repository_SearchKey ex_aes ex_verify ex_sha (fun _ => Ok tt) ex_scrypt ex_UnmarshalKey ex_Fields ex_UnmarshalMAC Ok
  ex_zstd_DecodeAll ex_UnmarshalConfig (fun _ => true)).

(** The right password opens the key, another one does not. *)
Abbreviation ex_added := (ex_AddKey ex_keyEnv None mem_New "secret" "" "" (Some ex_key)).

Lemma AddKey_OpenKey_witness :
  exists k k', ex_added.2 = Ok k /\ ex_OpenKey ex_added.1.1 (k_id k) "wrong" = Err ErrUnauthenticated /\
    ex_OpenKey ex_added.1.1 (k_id k) "secret" = Ok k' /\ master k' = Some (unmasked ex_key).
Proof.
  assert (match ex_added.2 with Ok k => master k = Some ex_key /\ ex_OpenKey ex_added.1.1 (k_id k) "wrong" = Err ErrUnauthenticated | _ => False end) as Hok
    by (vm_compute; split; reflexivity).
  destruct ex_added as [[b' params'] [k|e|p]] eqn:E; [|destruct Hok..]. destruct Hok as [Hm Hw]. cbn [fst snd] in *.
  destruct (AddKey_OpenKey ex_aes ex_sum ex_verify ex_sha (fun _ => Ok tt) ex_scrypt ex_MarshalKey ex_UnmarshalKey ex_Object ex_Fields ex_MarshalMAC ex_UnmarshalMAC Ok Ok
    ex_keys_ok ex_keyEnv None mem_New "secret" "" "" (Some ex_key) b' params' k ex_key b' E Hm ltac:(vm_compute; repeat split) eq_refl (reflexivity _)) as (k' & Hk' & _ & _ & Hmk').
  exists k, k'. split; [reflexivity|]. split; [exact Hw|]. split; [exact Hk'|exact Hmk'].
Defined.

(** A new repository of version 2, opened again. *)
Definition ex_empty : Repository (B := MemoryBackend) :=
  mkRepo mem_New (mkConfig 0 "") zeroKey (NewMasterIndex 0) (mkOptions CompressionAuto DefaultPackSize) false None 0.
Abbreviation ex_inited := (ex_Init ex_keyEnv None (Ok 5) nullID ex_empty 2 "secret" None).

Lemma Init_SearchKey_witness :
  exists r3 keyID, ex_inited.2 = Ok tt /\
    ex_Repository_SearchKey true (set_be ex_empty (be ex_inited.1.1)) "secret" 0 "" = (r3, Ok keyID) /\ Version (cfg r3) = 2.
Proof.
  assert (match ex_inited.2 with Ok _ => Crypto.Key_Valid (key ex_inited.1.1) = true /\ Version (cfg ex_inited.1.1) = 2 /\ is_ok (be_List (be ex_inited.1.1) KeyFile) = true | _ => False end) as Hok
    by (vm_compute; repeat split).
  destruct ex_inited as [[r1 params'] [[]|e|p]] eqn:E; [|destruct Hok..]. destruct Hok as (Hv & Hc & HL). cbn [fst snd] in *.
  destruct (be_List (be r1) KeyFile) as [fis|e|p] eqn:EL; [|discriminate HL..].
  destruct (Init_SearchKey ex_aes ex_sum ex_verify ex_sha (fun _ => Ok tt) ex_scrypt ex_MarshalKey ex_UnmarshalKey ex_Object ex_Fields ex_MarshalMAC ex_UnmarshalMAC Ok Ok
    ex_zstd_EncodeAll ex_zstd_DecodeAll ex_json_Encode ex_json_Unmarshal ex_rand ex_MarshalConfig ex_UnmarshalConfig (fun _ => true)
    ex_keys_ok ex_env_ok ex_config_roundtrip ex_keyEnv None (Ok 5) nullID ex_empty r1 (set_be ex_empty (be r1)) 2 "secret" None params' true fis E
    mem_New_ok (fun _ => lookup_empty _) Hv (fun _ _ => eq_refl) eq_refl EL) as (r3 & keyID & Hs & _ & Hcfg & _).
  exists r3, keyID. split; [reflexivity|]. split; [exact Hs|]. rewrite Hcfg. exact Hc.
Defined.
