(* ===== verification/Checker.v ===== *)
(** Checking a repository (src/internal/checker/checker.go).

    The checker's state is a record; errors are values of [check_error].  Channels
    of errors are the lists of what is sent on them, the goroutines that read
    packs run one after the other, and those that check trees are consumers of the
    tree stream.  The checks are not cancelled. *)

From S2P Require Import Prelude Bytes GoString Restic Sets HashedArrayTree IndexMap Index MasterIndex Crypto Pack Backend PackerManager Repository StreamPack GoTime Snapshot Tree TreeStream.

#[local] Open Scope Z_scope.

(** * The header of a pack, read backwards

    What [List] accepts has the shape that [readHeader_ok] expects. *)

Definition header_bounds (enc : list byte) : Prop := Extension <= zlen enc /\ zlen enc <= MaxHeaderSize - headerLengthSize.

Lemma slice_app_split {A} (l : list A) a b : 0 <= a -> a <= b -> b <= zlen l -> exists pre post, l = pre ++ slice l a b ++ post /\ zlen pre = a /\ zlen post = zlen l - b.
Proof.
  intros Ha Hb Hl. unfold zlen in *. exists (take (Z.to_nat a) l), (drop (Z.to_nat b) l). unfold slice, slice_from, slice_to.
  rewrite length_take, length_drop. split_and!; [|lia..].
  replace (drop (Z.to_nat b) l) with (drop (Z.to_nat (b - a)) (drop (Z.to_nat a) l)) by (rewrite drop_drop; f_equal; lia).
  by rewrite !take_drop.
Qed.

Lemma slice_suffix {A} (a p : list A) : slice (a ++ p) (zlen a) (zlen (a ++ p)) = p.
Proof.
  unfold slice, slice_from, slice_to, zlen. rewrite length_app, Nat2Z.id, drop_app_length. apply take_ge. lia.
Qed.

Lemma readRecords_inv f bufsize b c :
  minFileSize <= zlen f -> headerLengthSize <= bufsize -> readRecords (file_ReadAt f) (zlen f) bufsize = Ok (b, c) ->
  exists pre enc, f = pre ++ enc ++ put_uint32 (zlen enc) /\ header_bounds enc.
Proof.
  unfold minFileSize, plainEntrySize, headerLengthSize, Extension, ivSize, macSize. intros Hsz Hb. unfold readRecords.
  set (bs := if zlen f <? bufsize then zlen f else bufsize). assert (4 <= bs <= zlen f) as Hbs by (unfold bs; destruct (Z.ltb_spec (zlen f) bufsize); lia).
  unfold file_ReadAt. destruct (Z.ltb_spec (zlen f - bs) 0); [lia|]. destruct (Z.ltb_spec (zlen f) (zlen f - bs + bs)); [lia|].
  cbn [orb mbind outcome_bind]. rewrite zlen_slice by lia. replace (zlen f - bs + bs - (zlen f - bs)) with bs by lia.
  change headerLengthSize with 4. destruct (Z.ltb_spec bs 4); [lia|].
  replace (slice_from (slice f (zlen f - bs) (zlen f - bs + bs)) (bs - 4)) with (slice f (zlen f - 4) (zlen f)).
  2: { rewrite <- (slice_slice_from f (zlen f - bs)) by lia. f_equal; [f_equal|]; lia. }
  intros (v & Hv & E)%bind_Ok. apply bind_Ok in E as (u & Hc & _). pose proof (get_uint32_range _ _ Hv) as Hr. apply put_get_uint32 in Hv.
  rewrite take_ge in Hv by (rewrite length_slice by lia; lia).
  assert (16 + 16 <= v <= 16 * 1024 * 1024 /\ v + 4 <= zlen f) as [Hb1 Hb2].
  { unfold wrap_err, MaxHeaderSize, headerLengthSize, Extension, ivSize, macSize in Hc.
    repeat case_if; try done; bool_to_prop; unfold headerLengthSize in *; lia. }
  destruct (slice_app_split f (zlen f - 4 - v) (zlen f - 4)) as (pre & post & Ef & _ & Hpost); [lia..|].
  exists pre, (slice f (zlen f - 4 - v) (zlen f - 4)). rewrite zlen_slice by lia. replace (zlen f - 4 - (zlen f - 4 - v)) with v by lia.
  split.
  - rewrite <- Hv. rewrite Ef at 1. do 2 f_equal.
    pose proof (slice_suffix (pre ++ slice f (zlen f - 4 - v) (zlen f - 4)) post) as Hsuf.
    assert (zlen (pre ++ slice f (zlen f - 4 - v) (zlen f - 4)) = zlen f - 4) as Hl.
    { apply (f_equal zlen) in Ef. rewrite !zlen_app in *. lia. }
    rewrite <- app_assoc, <- Ef, Hl in Hsuf. done.
  - unfold header_bounds, MaxHeaderSize, headerLengthSize, Extension, ivSize, macSize. rewrite zlen_slice by lia. lia.
Qed.

Lemma readHeader_inv f buf : readHeader (file_ReadAt f) (zlen f) = Ok buf ->
  minFileSize <= zlen f /\ exists pre, f = pre ++ buf ++ put_uint32 (zlen buf) /\ header_bounds buf.
Proof.
  intros E. pose proof E as E0. unfold readHeader in E. destruct (Z.ltb_spec (zlen f) minFileSize) as [|Hsz]; [done|]. split; [done|].
  apply bind_Ok in E as ([b c] & E & _). apply readRecords_inv in E as (pre & enc & Ef & Hl & Hu); [|done|done].
  assert (readHeader (file_ReadAt f) (zlen f) = Ok enc) as E1 by (rewrite Ef in Hsz |- *; by apply readHeader_ok).
  assert (buf = enc) as -> by congruence. by exists pre.
Qed.

(** The loop of [List] numbers the entries and uses up the header; an entry takes
    at least the size that [CalculateEntrySize] says. *)
Fixpoint chained (pos : Z) (bs : list Blob) : Prop :=
  match bs with [] => True | b :: bs => b_Offset b = pos /\ chained (u64 (pos + b_Length b)) bs end.

Definition known_type (b : Blob) : Prop := valid_type (b_handle b).

Lemma parseHeaderEntry_size p b n : parseHeaderEntry p = Ok (b, n) -> CalculateEntrySize b <= n <= zlen p /\ known_type b.
Proof.
  unfold parseHeaderEntry, CalculateEntrySize, entrySize, plainEntrySize, headerLengthSize.
  destruct (Z.ltb_spec (zlen p) (1 + 4 + 32)); [done|]. intros (ty & Hty & E)%bind_Ok. apply bind_Ok in E as (v & _ & E).
  assert (ty = DataBlob \/ ty = TreeBlob) as Ht by (repeat case_if; try done; injection Hty as <-; auto).
  assert (forall h l o u, known_type (mkBlob (mkBlobHandle h ty) l o u)) as Hk by (intros; unfold known_type, valid_type; cbn; destruct Ht as [-> | ->]; vm_compute; done).
  destruct ((_ =? 2) || (_ =? 3)).
  - destruct (Z.ltb_spec (zlen p) (1 + 2 * 4 + 32)); [done|]. apply bind_Ok in E as (w & _ & [= <- <-]). split; [|apply Hk]. cbn. destruct (negb (w =? 0)); lia.
  - injection E as <- <-. split; [|apply Hk]. cbn. lia.
Qed.

Lemma List_loop_inv fuel buf pos entries es :
  List_loop fuel buf pos entries = Ok es -> exists new, es = entries ++ new /\ chained pos new /\ entries_size new <= zlen buf /\ Forall known_type new.
Proof.
  revert buf pos entries. induction fuel as [|fuel IH]; intros buf pos entries; cbn [List_loop].
  - destruct (negb _) eqn:Eb; [|done]. intros [= <-]. exists []. rewrite app_nil_r. pose proof (zlen_nonneg buf). split_and!; [done|done|done|constructor].
  - destruct (negb _) eqn:Eb. { intros [= <-]. exists []. rewrite app_nil_r. pose proof (zlen_nonneg buf). split_and!; [done|done|done|constructor]. }
    intros ([b n] & Ep & E)%bind_Ok. apply IH in E as (new & -> & Hc & Hs & Hk). apply parseHeaderEntry_size in Ep as [[Hn Hl] Hkb].
    eexists (_ :: new). rewrite <- app_assoc. cbn [chained b_Offset b_Length]. split_and!; [done..| |by constructor].
    unfold entries_size in *. cbn [fold_right]. pose proof (CalculateEntrySize_pos b).
    change (CalculateEntrySize (mkBlob (b_handle b) (b_Length b) pos (b_UncompressedLength b))) with (CalculateEntrySize b).
    rewrite zlen_slice_from in Hs by lia. lia.
Qed.

Lemma Open_length aes_Encrypt poly1305_Verify k nonce c pt k' :
  Open aes_Encrypt poly1305_Verify k [] nonce c = Ok (pt, k') -> zlen pt + 16 <= zlen c.
Proof.
  unfold Open. destruct (negb _); [done|]. destruct (negb _); [done|]. destruct (negb _); [done|].
  destruct (Z.ltb_spec (zlen c) Overhead) as [|Hl]; [done|]. unfold Overhead, macSize in Hl. cbn zeta.
  destruct (poly1305Verify _ _ _ _ _ _) as [b m]. destruct (negb b); [done|]. intros [= <- _].
  unfold XORKeyStream, zlen, slice_to in *. cbn [app]. rewrite length_zip_with, length_take. unfold macSize. lia.
Qed.

(** [List] on a tail of a file that holds the header is [List] on the file. *)
Lemma Pack_List_tail aes_Encrypt poly1305_Verify f pre h k r :
  f = pre ++ h -> Pack_List aes_Encrypt poly1305_Verify (file_ReadAt h) k (zlen h) = Ok r ->
  Pack_List aes_Encrypt poly1305_Verify (file_ReadAt f) k (zlen f) = Ok r.
Proof.
  intros -> E. unfold Pack_List in *. apply bind_Ok in E as (buf & Eh & E). apply readHeader_inv in Eh as (Hm & pre' & -> & Hl & Hu).
  rewrite app_assoc. rewrite readHeader_ok; [done..|]. rewrite <- app_assoc, zlen_app. pose proof (zlen_nonneg pre). lia.
Qed.

Lemma Pack_List_inv aes_Encrypt poly1305_Verify f k es n k' :
  Pack_List aes_Encrypt poly1305_Verify (file_ReadAt f) k (zlen f) = Ok (es, n, k') ->
  chained 0 es /\ headerSize + entries_size es <= n <= MaxHeaderSize /\ Forall known_type es.
Proof.
  unfold Pack_List. intros (buf & Eh & E)%bind_Ok. apply readHeader_inv in Eh as (_ & pre' & _ & Hl & Hu).
  destruct (_ <? _); [done|]. apply bind_Ok in E as ([pt k1] & Eo & E). apply bind_Ok in E as (es' & El & [= <- <- <-]).
  apply List_loop_inv in El as (new & -> & Hc & Hs & Hk). cbn [app]. split; [done|]. split; [|done].
  unfold MaxHeaderSize, headerLengthSize, Extension, ivSize, macSize in *. rewrite !u32_id by (rewrite ?u32_id; unfold is_u32; lia).
  unfold headerSize, headerLengthSize, Extension, ivSize, macSize.
  enough (zlen pt + 16 + 16 <= zlen buf) by lia. apply Open_length in Eo. rewrite zlen_slice_from in Eo by (unfold NonceSize, ivSize; lia).
  unfold NonceSize, ivSize in Eo. lia.
Qed.

(** ... and the other way round. *)
Lemma Pack_List_drop aes_Encrypt poly1305_Verify f k es n k' m :
  Pack_List aes_Encrypt poly1305_Verify (file_ReadAt f) k (zlen f) = Ok (es, n, k') ->
  0 <= m <= zlen f - n -> minFileSize <= zlen f - m ->
  Pack_List aes_Encrypt poly1305_Verify (file_ReadAt (slice_from f m)) k (zlen (slice_from f m)) = Ok (es, n, k').
Proof.
  intros E Hm Hmin. pose proof (Pack_List_inv _ _ _ _ _ _ _ E) as [_ [[Hn _] _]].
  assert (0 <= n) as Hn0.
  { unfold headerSize, headerLengthSize, Extension, ivSize, macSize in Hn. destruct es as [|b bs]; [cbn in Hn; lia|].
    pose proof (entries_size_pos (b :: bs) ltac:(done)) as Hp. unfold plainEntrySize, headerLengthSize in Hp. lia. }
  unfold Pack_List in *. apply bind_Ok in E as (buf & Eh & E).
  assert (n = zlen buf + 4) as En.
  { apply readHeader_inv in Eh as (_ & _ & _ & Hl & Hu). destruct (_ <? _); [done|]. apply bind_Ok in E as ([pt k1] & Eo & E).
    apply bind_Ok in E as (es' & El & [= _ <- _]). unfold MaxHeaderSize, headerLengthSize, Extension, ivSize, macSize in *.
    rewrite !u32_id by (rewrite ?u32_id; unfold is_u32; lia). lia. }
  apply readHeader_inv in Eh as (_ & pre & Ef & Hl & Hu).
  assert (zlen f = zlen pre + zlen buf + 4) as Hlf by (rewrite Ef, !zlen_app; unfold zlen at 3; cbn; lia).
  assert (slice_from f m = slice_from pre m ++ buf ++ put_uint32 (zlen buf)) as Es.
  { rewrite Ef. unfold slice_from, zlen in *. apply drop_app_le. lia. }
  rewrite <- (zlen_slice_from f m) in Hmin by lia. rewrite Es in Hmin |- *. by rewrite readHeader_ok.
Qed.

(** * The checker *)

(** What is wrong with a tree: it does not load, or a node is faulty ([Error]). *)
Inductive tree_fault :=
  | LoadFault (err : error)
  | NodeFault (TreeID : ID) (err : error).

(** The errors the checker reports. *)
Inductive check_error :=
  | Plain (err : error)
  | ErrDuplicatePacks (PackID : ID) (Indexes : gset ID)
  | ErrMixedPack (PackID : ID)
  | ErrOldIndexFormat (id : ID)
  | ErrPackData (PackID : ID) (errs : list error)
  | PackError (id : ID) (Orphaned : bool) (err : error)
  | TreeError (id : ID) (Errors : list tree_fault).

Definition ErrLegacyLayout : error := ErrMsg "repository uses S3 legacy layout".

Definition IsOrphanedPack (err : check_error) : bool := match err with PackError _ o _ => o | _ => false end.

Record Checker (B : Type) := mkChecker {
  c_packs : gmap ID Z;
  blobRefs : gset BlobHandle;
  trackUnused : bool;
  c_masterIndex : MasterIndex;
  c_snapshots : list (ID * Z);
  c_repo : Repository (B := B) }.
Arguments mkChecker {B}. Arguments c_packs {B}. Arguments blobRefs {B}. Arguments trackUnused {B}.
Arguments c_masterIndex {B}. Arguments c_snapshots {B}. Arguments c_repo {B}.

Section Checker.
Context {B : Type} `{HB : Backend B}.
Context (aes_Encrypt : list byte -> list byte -> list byte) (poly1305_Verify : list byte -> list byte -> list byte -> bool).
Context (Hash : list byte -> ID) (zstd_DecodeAll : list byte -> outcome (list byte)) (sum64 : list byte -> Z).

Definition Checker_New (repo : Repository (B := B)) (now : Z) (trackUnused_ : bool) : Checker B :=
  mkChecker ∅ ∅ trackUnused_ (NewMasterIndex now) [] repo.

(** ** Packs *)

(** What the closures of [checkPack] share: the errors so far, the hash of what was
    read and the rest of it. *)
Record packState := mkPackState { ps_errs : list error; ps_hash : ID; ps_hdrBuf : list byte }.

(** [bufio.Reader.Discard]. *)
Definition Discard (n : Z) (rd : list byte) : outcome (list byte) :=
  if n <? 0 then Err (ErrMsg "bufio: negative count") else if zlen rd <? n then Err (ErrMsg "EOF") else Ok (slice_from rd n).

(** The callback of [Load] in [hashingLoader]; all of [data] is read. *)
Definition hashing_callback (size length_ offset : Z) (fn : packState -> list byte -> packState * outcome (list byte))
    (s : packState) (data : list byte) : packState * outcome unit :=
  match Discard offset data with
  | Ok rd =>
      let '(s, err) := fn s rd in
      match err with
      | Ok rd =>
          let curPos := i64 (length_ + offset) in
          let minHdrStart := i64 (size - MaxHeaderSize) in
          match (if curPos <? minHdrStart then Discard (i64 (minHdrStart - curPos)) rd else Ok rd) with
          | Ok hdrBuf => (mkPackState (ps_errs s) (Hash data) hdrBuf, Ok tt)
          | Err e => (s, Err e)
          | Panic p => (s, Panic p)
          end
      | Err e => (s, Err e)
      | Panic p => (s, Panic p)
      end
  | Err e => (s, Err e)
  | Panic p => (s, Panic p)
  end.

Definition hashingLoader (b : B) (size : Z) (h : Handle) (length_ offset : Z)
    (fn : packState -> list byte -> packState * outcome (list byte)) (s : packState) : packState * outcome unit :=
  Load b h size 0 (hashing_callback size length_ offset fn) s.

(** The callback of [StreamPack]. *)
Definition pack_callback (s : packState) (blob : BlobHandle) (res : outcome (list byte)) : packState * option error :=
  (match res with
   | Err e => mkPackState (ps_errs s ++ [ErrWrap e "blob %v: %v"]) (ps_hash s) (ps_hdrBuf s)
   | _ => s
   end, None).

(** The blobs of the index leave no gaps and do not overlap. *)
Fixpoint continuous (lastBlobEnd : Z) (blobs : list Blob) : bool :=
  match blobs with
  | [] => true
  | blob :: rest => (lastBlobEnd =? i64 (b_Offset blob)) && continuous (i64 (u64 (b_Offset blob + b_Length blob))) rest
  end.

Definition idx_has (idx : MasterIndex) (id : ID) (blob : Blob) : outcome bool :=
  try pbs <- Lookup sum64 idx (b_handle blob);
  Ok (existsb (fun pb => bool_decide (pb_PackID pb = id) && bool_decide (pb_Blob pb = blob)) pbs).

(** Which header entries are not in the index. *)
Definition check_header (idx : MasterIndex) (id : ID) (errs : list error) (blob : Blob) : outcome (list error) :=
  try idxHas <- idx_has idx id blob;
  Ok (if idxHas : bool then errs else errs ++ [ErrMsg "Blob %v is not contained in index or position is incorrect"]).

Definition checkPack (r : Repository (B := B)) (id : ID) (blobs : list Blob) (size : Z) : outcome (option check_error) :=
  if Nat.eqb (length blobs) 0 then Ok (Some (Plain (ErrMsg "pack %v is empty or not indexed"))) else
  let blobs := go_sort offset_less blobs in
  let idxHdrSize := CalculateHeaderSize blobs in
  let errs := if continuous 0 blobs then [] else [ErrMsg "Index for pack contains gaps / overlapping blobs"] in
  let '(s, err) := StreamPack aes_Encrypt poly1305_Verify Hash zstd_DecodeAll (hashingLoader (be r) size) (key r) id pack_callback
    (mkPackState errs nullID []) blobs in
  match err with
  | Panic p => Panic p
  | Err e => Ok (Some (Plain (ErrWrap e "pack %v failed to download: %v")))
  | Ok _ =>
      if negb (ID_Equal (ps_hash s) id) then Ok (Some (Plain (ErrMsg "Pack ID does not match, want %v, got %v"))) else
      match Pack_List aes_Encrypt poly1305_Verify (file_ReadAt (ps_hdrBuf s)) (key r) (zlen (ps_hdrBuf s)) with
      | Panic p => Panic p
      | Err e => Ok (Some (Plain e))
      | Ok (blobs, hdrSize, _) =>
          let errs := if u32 idxHdrSize =? hdrSize then ps_errs s
                      else ps_errs s ++ [ErrMsg "Pack header size does not match, want %v, got %v"] in
          try errs <- ofold (check_header (idx r) id) errs blobs;
          Ok (if Nat.eqb (length errs) 0 then None else Some (ErrPackData id errs))
      end
  end.

(** [ReadPacks]: the packs of the index are checked one after the other; what is
    sent on the channel. *)
Definition check_task (r : Repository (B := B)) (packs : gmap ID Z) (errChan : list check_error) (pbs : PackBlobs) : outcome (list check_error) :=
  try err <- checkPack r (pbs_PackID pbs) (pbs_Blobs pbs) (default 0 (packs !! pbs_PackID pbs));
  Ok (errChan ++ option_list err).

Definition ReadPacks (c : Checker B) (packs : gmap ID Z) : outcome (list check_error) :=
  try queue <- ListPacks (idx (c_repo c)) (fold_left IDSet_Insert (map_to_list packs).*1 (NewIDSet []));
  ofold (check_task (c_repo c) packs) [] queue.

Definition ReadData (c : Checker B) : outcome (list check_error) := ReadPacks c (c_packs c).

(** ** The index *)

Definition pack_type_step (packs : gmap ID BlobType) (pb : PackedBlob) : gmap ID BlobType :=
  let tpe := match packs !! pb_PackID pb with
             | Some tpe => if negb (b_Type (pb_Blob pb) =? tpe) then InvalidBlob else tpe
             | None => b_Type (pb_Blob pb)
             end in
  <[pb_PackID pb := tpe]> packs.

Definition computePackTypes (mi : MasterIndex) : outcome (gmap ID BlobType) :=
  Each (fun _ => false) mi (fun packs pb => Ok (pack_type_step packs pb)) ∅.

(** [restic.MemorizeList]. *)
Definition MemorizeList (r : Repository (B := B)) (t : FileType) : outcome (list (ID * Z)) := RepoList r t.

Section LoadIndex.
Context (json_Unmarshal : list byte -> outcome jsonIndex) (json_Unmarshal_old : list byte -> outcome (list (option packJSON))).
Context (clock : nat -> Z).

Record loadState := mkLoad {
  ls_mi : MasterIndex;
  ls_hints : list check_error;
  ls_errs : list check_error;
  ls_packToIndex : gmap ID (gset ID) }.

Definition pack_to_index (id : ID) (packToIndex : gmap ID (gset ID)) (blob : PackedBlob) : gmap ID (gset ID) :=
  let packToIndex := match packToIndex !! pb_PackID blob with Some _ => packToIndex | None => <[pb_PackID blob := NewIDSet []]> packToIndex end in
  alter (fun s => IDSet_Insert s id) (pb_PackID blob) packToIndex.

(** The callback of [ForAllIndexes], which holds a mutex; the files come in the
    order of the list. *)
Definition check_index_file (r : Repository (B := B)) (st : loadState) (file : ID * Z) : outcome loadState :=
  match (try buf <- LoadUnpacked aes_Encrypt poly1305_Verify Hash zstd_DecodeAll r IndexFile file.1;
         DecodeIndex sum64 json_Unmarshal json_Unmarshal_old (clock (env r)) buf file.1) with
  | Panic p => Panic p
  | Err err => Ok (mkLoad (ls_mi st) (ls_hints st) (ls_errs st ++ [Plain (ErrWrap err "error loading index %v")]) (ls_packToIndex st))
  | Ok (index, oldFormat) =>
      let hints := if oldFormat : bool then ls_hints st ++ [ErrOldIndexFormat file.1] else ls_hints st in
      let '(mi, l) := alloc_index (ls_mi st) index in
      let mi := Insert mi l in
      try packToIndex <- Index_Each (fun _ => false) index (fun m blob => Ok (pack_to_index file.1 m blob)) (ls_packToIndex st);
      Ok (mkLoad mi hints (ls_errs st) packToIndex)
  end.

(** The hints about one pack. *)
Definition pack_hints (packToIndex : gmap ID (gset ID)) (packTypes : gmap ID BlobType) (packID : ID) : list check_error :=
  let indexes := default ∅ (packToIndex !! packID) in
  (if 1 <? Z.of_nat (base.size indexes) then [ErrDuplicatePacks packID indexes] else []) ++
  (if default InvalidBlob (packTypes !! packID) =? InvalidBlob then [ErrMixedPack packID] else []).

(** The checker afterwards, the hints and the errors. *)
Definition Checker_LoadIndex (c : Checker B) : outcome (Checker B * list check_error * list check_error) :=
  match MemorizeList (c_repo c) IndexFile with
  | Panic p => Panic p
  | Err err => Ok (c, [], [Plain err])
  | Ok indexList =>
      try st <- ofold (check_index_file (c_repo c)) (mkLoad (c_masterIndex c) [] [] ∅) indexList;
      match MergeFinalIndexes sum64 (ls_mi st) with
      | Panic p => Panic p
      | Err err => Ok (mkChecker (c_packs c) (blobRefs c) (trackUnused c) (ls_mi st) (c_snapshots c) (c_repo c), ls_hints st, ls_errs st ++ [Plain err])
      | Ok mi =>
          try packs <- Pack_Size mi false;
          try packTypes <- computePackTypes mi;
          let hints := ls_hints st ++ concat (pack_hints (ls_packToIndex st) packTypes <$> (map_to_list packs).*1) in
          Ok (mkChecker packs (blobRefs c) (trackUnused c) mi (c_snapshots c) (set_repo_idx (c_repo c) mi), hints, ls_errs st)
      end
  end.
End LoadIndex.

(** ** Which packs there are *)

(** One round over the packs of the index: what is sent, and the packs of the
    repository that were not in the index so far. *)
Definition pack_step (st : list check_error * gmap ID Z) (pack : ID * Z) : list check_error * gmap ID Z :=
  let '(sent, repoPacks) := st in
  let '(id, size) := pack in
  let reposize := repoPacks !! id in
  let repoPacks := delete id repoPacks in
  match reposize with
  | None => (sent ++ [PackError id false (ErrMsg "does not exist")], repoPacks)
  | Some reposize =>
      if negb (size =? reposize) then (sent ++ [PackError id false (ErrMsg "unexpected file size: got %d, expected %d")], repoPacks)
      else (sent, repoPacks)
  end.

Definition Packs (c : Checker B) (isS3Legacy : bool) : outcome (list check_error) :=
  let sent := if isS3Legacy then [Plain ErrLegacyLayout] else [] in
  try (sent, repoPacks) <-
    match RepoList (c_repo c) PackFile with
    | Panic p => Panic p
    | Err err => Ok (sent ++ [Plain err], (∅ : gmap ID Z))
    | Ok files => Ok (sent, fold_left (fun m (file : ID * Z) => <[file.1 := file.2]> m) files ∅)
    end;
  let '(sent, repoPacks) := fold_left pack_step (map_to_list (c_packs c)) (sent, repoPacks) in
  Ok (sent ++ ((fun orphan : ID * Z => PackError orphan.1 true (ErrMsg "not referenced in any index")) <$> map_to_list repoPacks)).

Definition CountPacks (c : Checker B) : Z := u64 (Z.of_nat (base.size (c_packs c))).
Definition GetPacks (c : Checker B) : gmap ID Z := c_packs c.

(** ** Trees *)

Definition node_fault (id : ID) (msg : string) : tree_fault := NodeFault id (ErrMsg msg).

(** One blob of a file. *)
Definition check_content (r : Repository (B := B)) (id : ID) (errs : list tree_fault) (blobID : ID) : outcome (list tree_fault) :=
  if IsNull blobID then Ok (errs ++ [node_fault id "file %q blob %d has null ID"])
  else
    try found <- LookupBlobSize sum64 r blobID DataBlob;
    Ok (match found with Some _ => errs | None => errs ++ [node_fault id "file %q blob %v not found in index"] end).

Definition check_name (id : ID) (errs : list tree_fault) (node : Node) : list tree_fault :=
  if String.eqb (n_Name node) "" then errs ++ [node_fault id "node with empty name"] else errs.

Definition check_node (r : Repository (B := B)) (id : ID) (errs : list tree_fault) (node : Node) : outcome (list tree_fault) :=
  if String.eqb (n_Type node) "file" then
    let errs := match n_Content node with None => errs ++ [node_fault id "file %q has nil blob list"] | Some _ => errs end in
    try errs <- ofold (check_content r id) errs (default [] (n_Content node));
    Ok (check_name id errs node)
  else if String.eqb (n_Type node) "dir" then
    match n_Subtree node with
    | None => Ok (errs ++ [node_fault id "dir node %q has no subtree"])
    | Some subtree =>
        if IsNull subtree then Ok (errs ++ [node_fault id "dir node %q subtree id is null"]) else Ok (check_name id errs node)
    end
  else if existsb (String.eqb (n_Type node)) ["symlink"; "socket"; "chardev"; "dev"; "fifo"] then Ok (check_name id errs node)
  else Ok (check_name id (errs ++ [node_fault id "node %q with invalid type %q"]) node).

Definition checkTree (r : Repository (B := B)) (id : ID) (tree : list Node) : outcome (list tree_fault) := ofold (check_node r id) [] tree.

(** The blobs that [checkTree] records when unused ones are tracked. *)
Definition tracked_blobs (tree : list Node) : gset BlobHandle :=
  list_to_set (concat ((fun node =>
    if String.eqb (n_Type node) "file" then data_handle <$> filter (fun blobID => blobID <> nullID) (default [] (n_Content node)) else []) <$> tree)).

(** [checkTreeWorker]: the errors of one tree. *)
Definition tree_errors (r : Repository (B := B)) (job : TreeItem) : outcome (list tree_fault) :=
  match job.2 with
  | Err e => Ok [LoadFault e]
  | Panic p => Panic p
  | Ok tree => checkTree r job.1 tree
  end.

Definition checkTreeWorker (c : Checker B) (workerCount : nat) : consumer check_error :=
  mkConsumer (fun job => match job.2 with Ok tree => if trackUnused c then tracked_blobs tree else ∅ | _ => ∅ end)
    (fun job => match tree_errors (c_repo c) job with Ok (err :: errs) => [TreeError job.1 (err :: errs)] | _ => [] end)
    (fun job => match tree_errors (c_repo c) job with Ok _ => None | Err e => Some (Err e) | Panic p => Some (Panic p) end) workerCount.

Section Structure.
Context (json_UnmarshalTree : list byte -> outcome (list Node)) (json_UnmarshalSnapshot : list byte -> outcome Snapshot).

Definition LoadSnapshot (r : Repository (B := B)) (id : ID) : outcome Snapshot :=
  match (try buf <- LoadUnpacked aes_Encrypt poly1305_Verify Hash zstd_DecodeAll r SnapshotFile id; json_UnmarshalSnapshot buf) with
  | Err e => Err (ErrWrap e "failed to load snapshot %v: %w")
  | o => o
  end.

(** The callback of [ForAllSnapshots]. *)
Definition snapshot_tree (r : Repository (B := B)) (st : list ID * list error) (file : ID * Z) : outcome (list ID * list error) :=
  let '(ids, errs) := st in
  match LoadSnapshot r file.1 with
  | Panic p => Panic p
  | Err e => Ok (ids, errs ++ [e])
  | Ok sn => match sn_Tree sn with None => Panic "nil pointer dereference" | Some treeID => Ok (ids ++ [treeID], errs) end
  end.

Definition loadSnapshotTreeIDs (c : Checker B) : outcome (list ID * list error) := ofold (snapshot_tree (c_repo c)) ([], []) (c_snapshots c).

Definition Checker_LoadSnapshots (c : Checker B) : Checker B * outcome unit :=
  match MemorizeList (c_repo c) SnapshotFile with
  | Ok l => (mkChecker (c_packs c) (blobRefs c) (trackUnused c) (c_masterIndex c) l (c_repo c), Ok tt)
  | Err e => (mkChecker (c_packs c) (blobRefs c) (trackUnused c) (c_masterIndex c) [] (c_repo c), Err e)
  | Panic p => (c, Panic p)
  end.

Definition check_LoadTree (r : Repository (B := B)) : ID -> outcome (list Node) :=
  Tree.LoadTree (fun id => LoadBlob aes_Encrypt poly1305_Verify Hash sum64 zstd_DecodeAll None r TreeBlob id) json_UnmarshalTree.

(** The size of a tree in the index of the checker's repository, which does not panic
    on an index that is well-formed. *)
Definition check_BlobSize (r : Repository (B := B)) (h : BlobHandle) : option Z :=
  match LookupBlobSize sum64 r (bh_ID h) (bh_Type h) with Ok size => size | _ => None end.

(** [Structure] of the checker [c] can send the errors [errChan] and end with the
    checker [c'], or panic. *)
Definition Structure (c : Checker B) (connections gomaxprocs : nat) (errChan : list check_error) (c' : Checker B) (result : outcome unit) : Prop :=
  match loadSnapshotTreeIDs c with
  | Ok (trees, errs) =>
      exists s, rtc (sstep (check_LoadTree (c_repo c)) (check_BlobSize (c_repo c)) (workerCount connections gomaxprocs) (checkTreeWorker c gomaxprocs)) (init_stream trees (blobRefs c)) s /\
        finished s = Some result /\ errChan = (Plain <$> errs) ++ output s /\
        c' = mkChecker (c_packs c) (used_blobs s) (trackUnused c) (c_masterIndex c) (c_snapshots c) (c_repo c)
  | Err e => False
  | Panic p => errChan = [] /\ c' = c /\ result = Panic p
  end.
End Structure.

(** [UnusedBlobs]. *)
Definition UnusedBlobs (c : Checker B) : outcome (list BlobHandle) :=
  if negb (trackUnused c) then Panic "only works when tracking blob references"
  else
    Each (fun _ => false) (idx (c_repo c)) (fun blobs blob =>
      let h := b_handle (pb_Blob blob) in
      Ok (if bool_decide (h ∈ blobRefs c) then blobs else blobs ++ [h])) [].
End Checker.

(** * What [checkPack] accepts *)

(** Offsets and lengths are values of type [uint]. *)
Definition blob_u64 (b : Blob) : Prop := is_u64 (b_Offset b) /\ is_u64 (b_Length b).
Definition end_of (pos : Z) (bs : list Blob) : Z := pos + fold_right (fun b n => b_Length b + n) 0 bs.

Lemma i64_inj a b : is_u64 a -> is_u64 b -> i64 a = i64 b -> a = b.
Proof.
  unfold is_u64, i64. intros Ha Hb E. zdiv_lia.
Qed.

Lemma continuous_chained pos bs : is_u64 pos -> Forall blob_u64 bs -> continuous (i64 pos) bs = true <-> chained pos bs.
Proof.
  intros Hp HF. revert pos Hp. induction HF as [|b bs [Ho Hl] HF IH]; intros pos Hp; [done|]. cbn [continuous chained].
  rewrite andb_true_iff, Z.eqb_eq, IH by apply u64_range. split.
  - intros [E%i64_inj Hc]; [|done..]. by subst pos.
  - intros [<- Hc]. done.
Qed.

(** A failed attempt keeps what the callback keeps; the one that succeeds delivers
    the file. *)
Lemma run_attempts_Ok_inv {S} (K : S -> Prop) (fn : S -> list byte -> S * outcome unit) s attempts s' :
  (forall s data, K s -> K (fn s data).1) -> run_attempts fn s attempts = (s', Ok tt) ->
  exists s1 data, Ok data ∈ attempts /\ fn s1 data = (s', Ok tt) /\ (K s -> K s1).
Proof.
  intros HK. revert s. induction attempts as [|a rest IH]; intros s; cbn [run_attempts]; [done|].
  destruct (match a with Ok data => fn s data | Err e => (s, Err e) | Panic p => (s, Panic p) end) as [s2 r] eqn:Ea.
  assert (K s -> K s2) as Hk.
  { intros Hs. destruct a as [data|e|p]; [|by injection Ea as <- <-..]. specialize (HK s data Hs). by rewrite Ea in HK. }
  assert (forall e, r = Err e -> run_attempts fn s2 rest = (s', Ok tt) -> exists s1 data, Ok data ∈ a :: rest /\ fn s1 data = (s', Ok tt) /\ (K s -> K s1)) as Hrec.
  { intros e _ Hr. apply IH in Hr as (s1 & data & Hin & Hf & Hks). exists s1, data. split_and!; [by right|done|auto]. }
  destruct r as [[]|e|p].
  - destruct a as [data|e|p]; [|by injection Ea..]. intros Hs. exists s, data. split_and!; [left| |done].
    destruct rest; by injection Hs as <-.
  - destruct rest as [|a' rest]; [done|]. destruct (is_permanent e); [done|]. by eapply Hrec.
  - by destruct rest.
Qed.

Section CheckPack.
Context {B : Type} `{HB : Backend B}.
Context (aes_Encrypt : list byte -> list byte -> list byte) (poly1305_Verify : list byte -> list byte -> list byte -> bool).
Context (Hash : list byte -> ID) (zstd_DecodeAll : list byte -> outcome (list byte)) (sum64 : list byte -> Z).
Context (r : Repository (B := B)) (id : ID) (size : Z).

Abbreviation decode := (stream_decode aes_Encrypt poly1305_Verify Hash zstd_DecodeAll (key r)).
Abbreviation stream := (stream_blobs aes_Encrypt poly1305_Verify Hash zstd_DecodeAll (key r) pack_callback).
Abbreviation part_ := (streamPackPart aes_Encrypt poly1305_Verify Hash zstd_DecodeAll (hashingLoader Hash (be r) size) (key r) id pack_callback).
Abbreviation parts := (stream_parts aes_Encrypt poly1305_Verify Hash zstd_DecodeAll (hashingLoader Hash (be r) size) (key r) id pack_callback).
Abbreviation pack_handle := (mkHandle PackFile false (ID_String id)).

(** The blob lies in the file and its bytes decode to content with its hash. *)
Definition intact_blob (f : list byte) (b : Blob) : Prop :=
  NonceSize < b_Length b /\ 0 <= b_Offset b /\ b_Offset b + b_Length b <= zlen f /\
  exists d, decode b (slice f (b_Offset b) (b_Offset b + b_Length b)) = Ok d.

Definition faulty (s : packState) : Prop := ps_errs s <> [].

Lemma stream_faulty bs s rd cur : faulty s -> faulty (stream s rd cur bs).1.
Proof.
  revert s rd cur. induction bs as [|b bs IH]; intros s rd cur Hs; [done|]. cbn [stream_blobs].
  destruct (_ <? 0); [done|]. destruct (_ <? _); [done|]. destruct (ReadFull _ _); [|done..]. destruct (_ <=? _); [done|].
  unfold pack_callback. destruct (stream_decode _ _ _ _ _ b _) as [d|e|p]; [by apply IH| |done].
  apply IH. unfold faulty. cbn. by destruct (ps_errs s).
Qed.

Lemma hashing_faulty length_ offset cur bs s data :
  faulty s -> faulty (hashing_callback Hash size length_ offset (fun s rd => stream s rd cur bs) s data).1.
Proof.
  intros Hs. unfold hashing_callback. destruct (Discard offset data) as [rd|e|p]; [|done..].
  pose proof (stream_faulty bs s rd cur Hs) as H1. destruct (stream s rd cur bs) as [s1 [rd1|e|p]]; cbn [fst] in H1; [|done..].
  by destruct (if i64 (length_ + offset) <? _ then _ else _).
Qed.

(** Lengths are checked. *)
Lemma stream_lengths bs s rd cur s' rest :
  stream s rd cur bs = (s', Ok rest) -> Forall (fun b => NonceSize < i64 (b_Length b)) bs.
Proof.
  revert s rd cur. induction bs as [|b bs IH]; intros s rd cur; [by constructor|]. cbn [stream_blobs].
  destruct (_ <? 0); [done|]. destruct (_ <? _); [done|]. destruct (ReadFull _ _); [|done..].
  destruct (Z.leb_spec (i64 (b_Length b)) NonceSize); [done|]. unfold pack_callback.
  destruct (stream_decode _ _ _ _ _ b _) as [d|e|p]; [| |done]; intros Hs; constructor; try lia; by eapply IH.
Qed.

Lemma part_faulty bs s : faulty s -> faulty (part_ s bs).1.
Proof.
  intros Hs. unfold streamPackPart, hashingLoader, Load. destruct bs as [|first bs]; [done|]. destruct (last _) as [l|]; [|done].
  match goal with |- context [run_attempts ?fn s ?at_] => pose proof (run_attempts_inv faulty fn s at_ (fun s d => hashing_faulty _ _ _ _ s d) Hs) as H end.
  by destruct (run_attempts _ s _).
Qed.

Lemma parts_faulty bs part s lastPos : faulty s -> faulty (parts s part lastPos bs).1.
Proof.
  revert part s lastPos. induction bs as [|b bs IH]; intros part s lastPos Hs; cbn [stream_parts]; [by apply part_faulty|].
  destruct (_ <? lastPos); [done|]. destruct (_ <? _); [|by apply IH]. pose proof (part_faulty part s Hs) as H1.
  destruct (part_ s part) as [s1 [u|e|p]]; [|done..]. by apply IH.
Qed.

Lemma part_inv bs s s' :
  part_ s bs = (s', Ok tt) -> exists first last_ s1 data,
    head bs = Some first /\ last bs = Some last_ /\ Ok data ∈ be_Load (be r) pack_handle size 0 /\
    hashing_callback Hash size (i64 (u64 (b_Offset last_ + b_Length last_) - b_Offset first)) (i64 (b_Offset first))
      (fun s rd => stream s rd (b_Offset first) bs) s1 data = (s', Ok tt) /\
    (faulty s -> faulty s1) /\ (faulty s1 -> faulty s').
Proof.
  unfold streamPackPart, hashingLoader, Load. destruct bs as [|first bs]; [done|]. destruct (last _) as [l|] eqn:El; [|done].
  destruct (run_attempts _ s _) as [s2 err] eqn:Er. destruct err as [[]|e|p]; [|done..]. intros [= <-].
  apply (run_attempts_Ok_inv faulty) in Er as (s1 & data & Hin & Hf & Hk); [|intros; by apply hashing_faulty].
  exists first, l, s1, data. split_and!; try done. intros Hs.
  pose proof (hashing_faulty (i64 (u64 (b_Offset l + b_Length l) - b_Offset first)) (i64 (b_Offset first)) (b_Offset first) (first :: bs) s1 data Hs) as H.
  by rewrite Hf in H.
Qed.

Lemma hashing_inv length_ offset cur bs s data s' :
  hashing_callback Hash size length_ offset (fun s rd => stream s rd cur bs) s data = (s', Ok tt) ->
  exists rd s1 rest hdr, Discard offset data = Ok rd /\ stream s rd cur bs = (s1, Ok rest) /\
    (hdr = rest \/ exists n, Discard n rest = Ok hdr) /\ s' = mkPackState (ps_errs s1) (Hash data) hdr.
Proof.
  unfold hashing_callback. destruct (Discard offset data) as [rd|e|p]; [|done..]. destruct (stream s rd cur bs) as [s1 [rest|e|p]] eqn:Es; [|done..].
  case_if.
  - destruct (Discard _ rest) as [hdr|e|p] eqn:Ed; [|done..]. intros [= <-]. exists rd, s1, rest, hdr. split_and!; try done. right. by eexists.
  - intros [= <-]. exists rd, s1, rest, rest. split_and!; try done. by left.
Qed.

Lemma part_lengths bs s s' : part_ s bs = (s', Ok tt) -> Forall (fun b => NonceSize < i64 (b_Length b)) bs.
Proof. intros (? & ? & s1 & data & _ & _ & _ & (? & ? & ? & ? & _ & Hs & _)%hashing_inv & _)%part_inv. by eapply stream_lengths. Qed.

Lemma parts_lengths bs part s lastPos s' :
  parts s part lastPos bs = (s', Ok tt) -> Forall (fun b => NonceSize < i64 (b_Length b)) (part ++ bs).
Proof.
  revert part s lastPos. induction bs as [|b bs IH]; intros part s lastPos; cbn [stream_parts].
  - rewrite app_nil_r. apply part_lengths.
  - destruct (_ <? lastPos); [done|]. destruct (_ <? _).
    + destruct (part_ s part) as [s1 [[]|e|p]] eqn:E1; [|done..]. intros H2%IH. apply part_lengths in E1.
      apply Forall_app. split; [done|]. done.
    + intros H%IH. by rewrite <- app_assoc in H.
Qed.

(** Blobs without gaps are streamed in one part. *)
Lemma parts_chained bs part s lastPos :
  is_u64 lastPos -> Forall blob_u64 bs -> chained lastPos bs -> parts s part lastPos bs = part_ s (part ++ bs).
Proof.
  intros Hp HF. revert part lastPos Hp. induction HF as [|b bs [Ho Hl] HF IH]; intros part lastPos Hp; cbn [stream_parts chained].
  - by rewrite app_nil_r.
  - intros [-> Hc]. destruct (Z.ltb_spec lastPos lastPos); [lia|]. rewrite Z.sub_diag. change (maxUnusedRange <? u64 0) with false.
    rewrite IH by (done || apply u64_range). by rewrite <- app_assoc.
Qed.

Lemma stream_cons b bs f pos s :
  0 <= pos <= zlen f -> zlen f < 2 ^ 62 -> b_Offset b = pos -> is_u64 (b_Length b) ->
  stream s (slice_from f pos) pos (b :: bs) =
    match ReadFull (b_Length b) (slice_from f pos) with
    | Err e => (s, Err (ErrWrap e "ReadFull"))
    | Panic p => (s, Panic p)
    | Ok buf =>
        if b_Length b <=? NonceSize then (s, Err (ErrMsg "invalid blob length %v"))
        else
          match decode b (slice f pos (pos + b_Length b)) with
          | Panic p => (s, Panic p)
          | res => stream (pack_callback s (b_handle b) res).1 (slice_from f (pos + b_Length b)) (pos + b_Length b) bs
          end
    end.
Proof.
  intros Hpos Hf <- Hl. unfold is_u64 in Hl. cbn [stream_blobs]. rewrite Z.sub_diag. change (i64 0) with 0. cbn [Z.ltb Z.compare].
  destruct (Z.ltb_spec (zlen (slice_from f (b_Offset b))) 0) as [Hn|_]; [pose proof (zlen_nonneg (slice_from f (b_Offset b))); lia|].
  change (slice_from (slice_from f (b_Offset b)) 0) with (slice_from f (b_Offset b)).
  destruct (ReadFull _ _) as [buf|e|p] eqn:Er; [|done..]. unfold ReadFull in Er. rewrite zlen_slice_from in Er by lia.
  destruct (Z.ltb_spec (zlen f - b_Offset b) (b_Length b)); [done|]. injection Er as <-.
  rewrite i64_id by (unfold is_i64; lia). destruct (_ <=? _); [done|].
  assert (slice_to (slice_from f (b_Offset b)) (b_Length b) = slice f (b_Offset b) (b_Offset b + b_Length b)) as ->.
  { unfold slice. f_equal. lia. }
  assert (slice_from (slice_from f (b_Offset b)) (b_Length b) = slice_from f (b_Offset b + b_Length b)) as ->.
  { unfold slice_from. rewrite drop_drop. f_equal. lia. }
  rewrite u64_id by (unfold is_u64; lia). destruct (decode b _); done.
Qed.

Lemma chained_cons pos b bs : chained pos (b :: bs) <-> b_Offset b = pos /\ chained (u64 (pos + b_Length b)) bs.
Proof. done. Qed.

(** Blobs that decode are passed without a trace. *)
Lemma stream_intact bs f pos s :
  chained pos bs -> 0 <= pos <= zlen f -> zlen f < 2 ^ 62 -> Forall (intact_blob f) bs ->
  stream s (slice_from f pos) pos bs = (s, Ok (slice_from f (end_of pos bs))).
Proof.
  intros Hc Hpos Hf HF. revert pos s Hc Hpos. induction HF as [|b bs (Hn & Ho & He & d & Hd) HF IH]; intros pos s Hc Hpos.
  - unfold end_of. cbn. by rewrite Z.add_0_r.
  - destruct Hc as [Eo Hc]. change NonceSize with 16 in Hn. rewrite stream_cons by (done || unfold is_u64; lia).
    unfold ReadFull. rewrite zlen_slice_from by lia. destruct (Z.ltb_spec (zlen f - pos) (b_Length b)); [lia|].
    change NonceSize with 16. destruct (Z.leb_spec (b_Length b) 16); [lia|]. rewrite <- Eo, Hd. cbn [pack_callback fst].
    rewrite <- Eo, u64_id in Hc by (unfold is_u64; lia). rewrite IH by (done || lia). do 3 f_equal. unfold end_of. cbn [fold_right]. lia.
Qed.

Lemma stream_clean bs f pos s s' rest :
  chained pos bs -> Forall blob_u64 bs -> 0 <= pos <= zlen f -> zlen f < 2 ^ 62 ->
  stream s (slice_from f pos) pos bs = (s', Ok rest) -> ~ faulty s' ->
  Forall (intact_blob f) bs /\ rest = slice_from f (end_of pos bs) /\ s' = s.
Proof.
  intros Hc HF Hpos Hf. revert pos s Hc Hpos. induction HF as [|b bs [_ Hl] HF IH]; intros pos s Hc Hpos.
  - intros [= <- <-] _. unfold end_of. cbn. by rewrite Z.add_0_r.
  - destruct Hc as [Eo Hc]. rewrite stream_cons by done. unfold ReadFull. rewrite zlen_slice_from by lia. unfold is_u64 in Hl.
    destruct (Z.ltb_spec (zlen f - pos) (b_Length b)); [done|]. destruct (Z.leb_spec (b_Length b) NonceSize) as [|Hn]; [done|].
    change NonceSize with 16 in Hn. destruct (decode b _) as [d|e|p] eqn:Ed; [| |done].
    + cbn [pack_callback fst]. intros Hs Hf'. rewrite u64_id in Hc by (unfold is_u64; lia). apply IH in Hs as (H1 & -> & ->); [|done|lia|done].
      split_and!; [|f_equal; unfold end_of; cbn [fold_right]; lia|done]. constructor; [|done].
      unfold intact_blob. change NonceSize with 16. rewrite Eo. split_and!; [lia..|]. by exists d.
    + intros Hs Hf'. exfalso. apply Hf'. pose proof (stream_faulty bs (pack_callback s (b_handle b) (Err e)).1 (slice_from f (pos + b_Length b)) (pos + b_Length b)) as H1.
      rewrite Hs in H1. apply H1. unfold faulty. cbn. by destruct (ps_errs s).
Qed.

Lemma Discard_suffix n (f : list byte) hdr : Discard n f = Ok hdr -> exists pre, f = pre ++ hdr.
Proof.
  unfold Discard. destruct (n <? 0); [done|]. destruct (_ <? n); [done|]. intros [= <-]. exists (slice_to f n). unfold slice_to, slice_from. by rewrite take_drop.
Qed.

(** Gapless blobs with positive lengths have one sorted order. *)
Lemma resort bs :
  chained 0 (go_sort offset_less bs) -> Forall blob_u64 bs -> Forall (fun b => NonceSize < i64 (b_Length b)) bs ->
  go_sort offset_less (go_sort offset_less bs) = go_sort offset_less bs.
Proof.
  set (l := go_sort offset_less bs). intros Hc Hu Hl. pose proof (go_sort_Permutation offset_less bs) as Hp. fold l in Hp. rewrite <- Hp in Hu, Hl.
  pose proof (StronglySorted_merge_sort (le_of offset_less) bs) as Hs. fold (go_sort offset_less bs) in Hs. fold l in Hs.
  assert (forall i j b1 b2, (i < j)%nat -> l !! i = Some b1 -> l !! j = Some b2 -> b_Offset b1 < b_Offset b2) as Hlt.
  { clear Hp. generalize dependent 0. clearbody l. induction Hs as [|b l Hs IH Hall]; intros pos Hc; [done|].
    apply Forall_cons in Hu as [[Hob Hlb] Hu]. apply Forall_cons in Hl as [Hnb Hl]. destruct Hc as [Eo Hc].
    intros [|i] [|j] b1 b2 Hij H1 H2; [lia| |lia|eapply (IH Hu Hl); [exact Hc| |exact H1|exact H2]; lia].
    injection H1 as <-. cbn in H2. destruct l as [|b' l]; [done|]. destruct Hc as [Eo' Hc]. apply Forall_cons in Hall as [Hle Hall].
    unfold le_of, offset_less in Hle. apply Z.ltb_ge in Hle. assert (b_Offset b < b_Offset b') as Hlt.
    { assert (b_Length b <> 0) as Hn0 by (intros E0; rewrite E0 in Hnb; by vm_compute in Hnb).
      rewrite Eo', <- Eo in Hle |- *. unfold is_u64 in *. destruct (decide (b_Offset b + b_Length b < 2 ^ 64)) as [Hs1|Hs1].
      - rewrite u64_id by (unfold is_u64; lia). lia.
      - enough (u64 (b_Offset b + b_Length b) = b_Offset b + b_Length b - 2 ^ 64) by lia. unfold u64. symmetry. apply (Z.mod_unique _ _ 1); lia. }
    destruct j as [|j]; [by injection H2 as <-|]. cbn in H2. enough (b_Offset b' < b_Offset b2) by lia.
    eapply (IH Hu Hl _ (conj Eo' Hc) 0%nat (S j)); [lia|done|done]. }
  apply (StronglySorted_unique_strong (le_of offset_less)).
  - intros b1 b2 H1 H2 H12 H21. apply list_elem_of_lookup in H1 as [i Hi], H2 as [j Hj].
    pose proof (go_sort_Permutation offset_less l) as Hpl. assert (b1 ∈ l) as [i' Hi']%list_elem_of_lookup by (rewrite <- Hpl; by eapply list_elem_of_lookup_2).
    unfold le_of, offset_less in *. apply Z.ltb_ge in H12, H21. destruct (decide (i' = j)) as [->|Hne]; [congruence|].
    destruct (decide (i' < j)%nat); [specialize (Hlt i' j b1 b2 ltac:(lia) Hi' Hj)|specialize (Hlt j i' b2 b1 ltac:(lia) Hj Hi')]; lia.
  - apply (StronglySorted_merge_sort (le_of offset_less)).
  - done.
  - apply go_sort_Permutation.
Qed.

(** What the index says of the header entries. *)
Lemma check_headers_clean idx errs hs :
  ofold (check_header sum64 idx id) errs hs = Ok [] ->
  errs = [] /\ Forall (fun h => idx_has sum64 idx id h = Ok true) hs.
Proof.
  revert errs. induction hs as [|h hs IH]; intros errs; cbn [ofold]; [by intros [= ->]|]. unfold check_header at 1.
  intros (errs' & Eh & E)%bind_Ok. apply IH in E as [-> HF]. apply bind_Ok in Eh as (b & Hb & [= E]).
  destruct b; [|by destruct errs]. subst. by split; [|constructor].
Qed.

Lemma check_headers_ok idx hs :
  Forall (fun h => idx_has sum64 idx id h = Ok true) hs -> ofold (check_header sum64 idx id) [] hs = Ok [].
Proof.
  induction 1 as [|h hs Hh HF IH]; [done|]. cbn [ofold]. assert (check_header sum64 idx id [] h = Ok []) as -> by (unfold check_header; by rewrite Hh). done.
Qed.

(** Entries in the index that are chained are a prefix of its sorted blobs. *)
Lemma chained_prefix f hs bs pos :
  chained pos hs -> chained pos bs -> 0 <= pos -> zlen f < 2 ^ 62 -> Forall (intact_blob f) bs -> 
  (forall h, h ∈ hs -> b_Offset h >= pos -> h ∈ bs) -> (forall h, h ∈ hs -> NonceSize < b_Length h /\ b_Offset h + b_Length h <= zlen f) -> hs `prefix_of` bs.
Proof.
  intros Hh Hb Hpos Hf HF Hin Hlen. revert bs pos Hh Hb Hpos HF Hin. induction hs as [|h hs IH]; intros bs pos Hh Hb Hpos HF Hin; [apply prefix_nil|].
  destruct Hh as [Eh Hh]. destruct bs as [|b bs]; [by specialize (Hin h ltac:(left) ltac:(lia)) as ?%elem_of_nil|].
  destruct Hb as [Eb Hb]. apply Forall_cons in HF as [(Hn & Ho & He & _) HF]. change NonceSize with 16 in Hn.
  destruct (Hlen h ltac:(left)) as [Hnh Heh]. change NonceSize with 16 in Hnh.
  assert (forall bs pos', chained pos' bs -> 0 <= pos' -> Forall (intact_blob f) bs -> forall x, x ∈ bs -> pos' <= b_Offset x) as Hge.
  { clear -Hf. induction bs as [|y bs IH]; intros pos' Hc Hp HF x Hx; [by apply elem_of_nil in Hx|]. destruct Hc as [Ey Hc].
    apply Forall_cons in HF as [(Hny & Hoy & Hey & _) HF]. change NonceSize with 16 in Hny. apply elem_of_cons in Hx as [->|Hx]; [lia|].
    rewrite u64_id in Hc by (unfold is_u64; lia). specialize (IH _ Hc ltac:(lia) HF x Hx). lia. }
  rewrite u64_id in Hb, Hh by (unfold is_u64; lia).
  assert (h = b) as ->.
  { specialize (Hin h ltac:(left) ltac:(lia)). apply elem_of_cons in Hin as [->|Hx]; [done|].
    specialize (Hge bs _ Hb ltac:(lia) HF h Hx). lia. }
  apply prefix_cons, (IH ltac:(intros; apply Hlen; by right) bs (pos + b_Length b)); [done|done|lia|done|].
  intros x Hx Hox. specialize (Hin x ltac:(by right) ltac:(lia)). apply elem_of_cons in Hin as [->|?]; [lia|done].
Qed.

Lemma checkPack_inv blobs :
  checkPack aes_Encrypt poly1305_Verify Hash zstd_DecodeAll sum64 r id blobs size = Ok None ->
  exists s' hs hdrSize k', blobs <> [] /\ continuous 0 (go_sort offset_less blobs) = true /\
    StreamPack aes_Encrypt poly1305_Verify Hash zstd_DecodeAll (hashingLoader Hash (be r) size) (key r) id pack_callback (mkPackState [] nullID []) (go_sort offset_less blobs) = (s', Ok tt) /\
    ps_hash s' = id /\ ps_errs s' = [] /\
    Pack_List aes_Encrypt poly1305_Verify (file_ReadAt (ps_hdrBuf s')) (key r) (zlen (ps_hdrBuf s')) = Ok (hs, hdrSize, k') /\
    u32 (CalculateHeaderSize (go_sort offset_less blobs)) = hdrSize /\ Forall (fun h => idx_has sum64 (idx r) id h = Ok true) hs.
Proof.
  unfold checkPack. destruct blobs as [|b blobs]; [done|]. cbn [length Nat.eqb]. set (l := go_sort offset_less _).
  set (errs := if continuous 0 l then _ else _).
  destruct (StreamPack _ _ _ _ _ _ _ _ _ l) as [s' err] eqn:Es. destruct err as [[]|e|p]; [|done..].
  destruct (ID_Equal (ps_hash s') id) eqn:Eid; [|done]. apply ID_Equal_spec in Eid. cbn [negb].
  destruct (Pack_List _ _ _ _ _) as [[[hs hdrSize] k']|e|p] eqn:El; [|done..]. intros (errs' & Ec & E)%bind_Ok.
  destruct errs' as [|]; [|done]. apply check_headers_clean in Ec as [Ee HF]. 
  destruct (Z.eqb_spec (u32 (CalculateHeaderSize l)) hdrSize) as [Hh|]; [|by destruct (ps_errs s')].
  assert (continuous 0 l = true) as Hc.
  { destruct (continuous 0 l) eqn:Ec; [done|]. exfalso.
    assert (faulty s') as Hf; [|by apply Hf]. apply (f_equal fst) in Es. cbn [fst] in Es. rewrite <- Es. unfold StreamPack.
    destruct (go_sort offset_less l); [by unfold faulty, errs|]. apply parts_faulty. by unfold faulty, errs. }
  unfold errs in Es. rewrite Hc in Es. by exists s', hs, hdrSize, k'.
Qed.

(** ** Sound *)

(** The pack is what its index says: its name is its hash, every blob decodes to
    content with its hash, the blobs fill the pack from its start, and the header
    has their size and lists them in order, or a first part of them. *)
Record pack_intact (f : list byte) (blobs : list Blob) : Prop := {
  pi_hash : Hash f = id;
  pi_blobs : Forall (intact_blob f) blobs;
  pi_chained : chained 0 (go_sort offset_less blobs);
  pi_header : exists hs k', Pack_List aes_Encrypt poly1305_Verify (file_ReadAt f) (key r) (zlen f) = Ok (hs, CalculateHeaderSize blobs, k') /\
    hs `prefix_of` go_sort offset_less blobs /\
    (headerSize + entries_size hs = CalculateHeaderSize blobs -> hs = go_sort offset_less blobs) }.

(** The blobs are those of the pack in the index. *)
Definition indexed (blobs : list Blob) : Prop :=
  forall b pbs pb, known_type b -> Lookup sum64 (idx r) (b_handle b) = Ok pbs -> pb ∈ pbs -> pb_PackID pb = id -> pb_Blob pb ∈ blobs.

Lemma CalculateHeaderSize_perm bs bs' : bs ≡ₚ bs' -> CalculateHeaderSize bs = CalculateHeaderSize bs'.
Proof.
  intros Hp. rewrite !CalculateHeaderSize_entries. f_equal. unfold entries_size. induction Hp; cbn [fold_right]; lia.
Qed.

Lemma idx_has_elem blobs h : indexed blobs -> known_type h -> idx_has sum64 (idx r) id h = Ok true -> h ∈ blobs.
Proof.
  intros Hi Hk. unfold idx_has. intros (pbs & El & [= E])%bind_Ok. apply existsb_exists in E as (pb & Hin & E).
  apply andb_true_iff in E as [E1%bool_decide_eq_true E2%bool_decide_eq_true]. subst h. eapply Hi; [exact Hk|exact El|by apply list_elem_of_In|done].
Qed.

Lemma prefix_entries hs bs : hs `prefix_of` bs -> entries_size hs = entries_size bs -> hs = bs.
Proof.
  intros [rest ->]. unfold entries_size. rewrite foldr_app. intros E. enough (rest = []) as -> by by rewrite app_nil_r.
  destruct rest as [|b rest]; [done|]. exfalso. pose proof (entries_size_pos (b :: rest) ltac:(done)) as Hp. unfold entries_size in Hp.
  revert E. generalize dependent (fold_right (fun b n => CalculateEntrySize b + n) 0 (b :: rest)). intros z Hz. 
  assert (forall l z, fold_right (fun b n => CalculateEntrySize b + n) z l = fold_right (fun b n => CalculateEntrySize b + n) 0 l + z) as Hf.
  { induction l as [|x l IH]; intros z'; [done|]. cbn. rewrite IH. lia. }
  rewrite (Hf hs z). unfold plainEntrySize, headerLengthSize in Hz. lia.
Qed.

Lemma checkPack_intact blobs :
  Forall blob_u64 blobs -> CalculateHeaderSize blobs < 2 ^ 32 -> indexed blobs ->
  (forall f, Ok f ∈ be_Load (be r) pack_handle size 0 -> zlen f < 2 ^ 62) ->
  checkPack aes_Encrypt poly1305_Verify Hash zstd_DecodeAll sum64 r id blobs size = Ok None ->
  exists f, Ok f ∈ be_Load (be r) pack_handle size 0 /\ pack_intact f blobs.
Proof.
  intros Hu Hh Hi Hsmall (s' & hs & n & k' & Hne & Hc & Hs & Hid & He & Hl & Hn & Hx)%checkPack_inv.
  pose proof (go_sort_Permutation offset_less blobs) as Hp. set (l := go_sort offset_less blobs) in *.
  assert (Forall blob_u64 l) as Hul by by rewrite Hp. apply (continuous_chained 0) in Hc; [|done|done].
  assert (l <> []) as Hlne by (intros E; rewrite E in Hp; by apply Permutation_nil_l in Hp).
  (* one part *)
  assert (part_ (mkPackState [] nullID []) l = (s', Ok tt)) as Hpart.
  { assert (Forall (fun b => NonceSize < i64 (b_Length b)) l) as Hlen.
    { unfold StreamPack in Hs. pose proof (go_sort_Permutation offset_less l) as Hpl. rewrite <- Hpl.
      destruct (go_sort offset_less l) as [|b bs]; [constructor|]. by apply parts_lengths in Hs. }
    assert (go_sort offset_less l = l) as Er by (apply resort; [done|done|by rewrite <- Hp]).
    unfold StreamPack in Hs. rewrite Er in Hs. clear Hp Er Hlen. clearbody l. destruct l as [|b bs]; [done|]. 
    pose proof Hc as [Eo _]. rewrite <- Eo in Hc. by rewrite (parts_chained (b :: bs) []) in Hs by (done || by rewrite Eo). }
  apply part_inv in Hpart as (first & last_ & s1 & f & Hfi & Hla & Hin & Hcb & _ & Hk). specialize (Hsmall f Hin).
  apply hashing_inv in Hcb as (rd & s2 & rest & hdr & Hd & Hst & Hhdr & ->). cbn [ps_errs ps_hash ps_hdrBuf] in *.
  assert (b_Offset first = 0) as E0 by (destruct l; [done|]; injection Hfi as ->; by destruct Hc).
  rewrite E0 in Hd, Hst. change (i64 0) with 0 in Hd. unfold Discard in Hd. cbn [Z.ltb Z.compare] in Hd. pose proof (zlen_nonneg f).
  destruct (Z.ltb_spec (zlen f) 0); [lia|]. injection Hd as <-.
  apply stream_clean in Hst as (Hint & -> & ->); [|done|done|lia|done|unfold faulty; congruence].
  assert (exists pre, f = pre ++ hdr) as [pre Ef].
  { destruct Hhdr as [->|[m (p & Ep)%Discard_suffix]]; [by exists (slice_to f (end_of 0 l)); unfold slice_to, slice_from; rewrite take_drop|].
    exists (slice_to f (end_of 0 l) ++ p). rewrite <- app_assoc, <- Ep. unfold slice_to, slice_from. by rewrite take_drop. }
  pose proof (Pack_List_tail _ _ f pre hdr _ _ Ef Hl) as Hlf. apply Pack_List_inv in Hl as (Hch & Hsz & Hkt).
  assert (CalculateHeaderSize l = CalculateHeaderSize blobs) as Ec by by apply CalculateHeaderSize_perm.
  assert (0 <= CalculateHeaderSize blobs) as Hpos.
  { rewrite CalculateHeaderSize_entries. destruct blobs as [|b0 bs0]; [done|]. pose proof (entries_size_pos (b0 :: bs0) ltac:(done)) as Hp0.
    unfold plainEntrySize, headerSize, headerLengthSize, Extension, ivSize, macSize in *. lia. }
  rewrite Ec, u32_id in Hn by (unfold is_u32; lia). subst n.
  assert (hs `prefix_of` l) as Hpre.
  { assert (forall h, h ∈ hs -> h ∈ l) as Hsub by (intros h Hh'; rewrite Hp; rewrite Forall_forall in Hx; rewrite Forall_forall in Hkt; apply (idx_has_elem blobs); [done|by apply Hkt|by apply Hx]).
    apply (chained_prefix f hs l 0); [done|done|done|done|done|auto|]. intros h Hh'. rewrite Forall_forall in Hint.
    destruct (Hint h (Hsub h Hh')) as (? & ? & ? & _). done. }
  exists f. split; [done|]. split; [done|by rewrite <- Hp|done|]. exists hs, k'. split_and!; [done|done|].
  intros E. apply prefix_entries; [done|]. rewrite <- Ec, (CalculateHeaderSize_entries l) in E. change (entries_size hs = entries_size l). lia.
Qed.

(** ** Complete *)

Lemma end_of_le pos bs : Forall blob_u64 bs -> pos <= end_of pos bs.
Proof.
  intros HF. unfold end_of. enough (0 <= fold_right (fun b n => b_Length b + n) 0 bs) by lia.
  induction HF as [|x l [_ Hx] HF IH]; cbn [fold_right]; [lia|]. unfold is_u64 in Hx. lia.
Qed.

Lemma chained_last pos bs l : chained pos bs -> Forall blob_u64 bs -> 0 <= pos -> end_of pos bs < 2 ^ 62 -> last bs = Some l -> b_Offset l + b_Length l = end_of pos bs.
Proof.
  intros Hc HF. revert pos Hc. induction HF as [|b bs [_ Hb] HF IH]; intros pos Hc Hp He Hl; [done|]. destruct Hc as [Eo Hc]. unfold is_u64 in Hb.
  assert (end_of (pos + b_Length b) bs = end_of pos (b :: bs)) as Ee by (unfold end_of; cbn [fold_right]; lia).
  pose proof (end_of_le 0 bs HF) as Hpos. unfold end_of in Hpos. destruct bs as [|b' bs]; [injection Hl as ->; unfold end_of; cbn; lia|].
  rewrite <- Ee. unfold end_of in He. cbn [fold_right] in He, Hpos. rewrite u64_id in Hc by (unfold is_u64; lia).
  apply (IH (pos + b_Length b)); [done|lia| |done]. unfold end_of. cbn [fold_right]. lia.
Qed.

Lemma intact_u64 f bs : zlen f < 2 ^ 62 -> Forall (intact_blob f) bs -> Forall blob_u64 bs.
Proof.
  intros Hf HF. eapply Forall_impl; [exact HF|]. intros b (Hn & Ho & He & _). change NonceSize with 16 in Hn. unfold blob_u64, is_u64. lia.
Qed.

Lemma checkPack_accepts_intact blobs f hs k' `{HL : !BackendLaws B} :
  be_files (be r) !! pack_handle = Some f -> size = zlen f -> zlen f < 2 ^ 62 -> blobs <> [] ->
  Hash f = id -> Forall (intact_blob f) blobs -> chained 0 (go_sort offset_less blobs) ->
  zlen f = end_of 0 (go_sort offset_less blobs) + CalculateHeaderSize blobs ->
  Pack_List aes_Encrypt poly1305_Verify (file_ReadAt f) (key r) (zlen f) = Ok (hs, CalculateHeaderSize blobs, k') ->
  Forall (fun h => idx_has sum64 (idx r) id h = Ok true) hs ->
  checkPack aes_Encrypt poly1305_Verify Hash zstd_DecodeAll sum64 r id blobs size = Ok None.
Proof.
  intros Hfile Hsize Hsmall Hne Hid Hint Hc Hend Hl Hx. pose proof (go_sort_Permutation offset_less blobs) as Hp.
  pose proof (intact_u64 f blobs Hsmall Hint) as Hu. pose proof (Pack_List_inv _ _ _ _ _ _ _ Hl) as (_ & [_ Hmax] & _).
  assert (CalculateHeaderSize (go_sort offset_less blobs) = CalculateHeaderSize blobs) as Ec by by apply CalculateHeaderSize_perm.
  assert (minFileSize <= CalculateHeaderSize blobs) as Hmin.
  { rewrite CalculateHeaderSize_entries. pose proof (entries_size_pos blobs Hne). unfold minFileSize, headerSize in *. lia. }
  pose proof (resort blobs Hc Hu) as Er. set (l := go_sort offset_less blobs) in *.
  assert (Forall (intact_blob f) l) as Hintl by by rewrite Hp. assert (Forall blob_u64 l) as Hul by by rewrite Hp.
  assert (l <> []) as Hlne by (intros E; rewrite E in Hp; by apply Permutation_nil_l in Hp).
  assert (Forall (fun b => NonceSize < i64 (b_Length b)) blobs) as Hlen.
  { eapply Forall_impl; [exact Hint|]. intros b (Hn & Ho & He & _). change NonceSize with 16 in *. rewrite i64_id; [done|]. unfold is_i64. lia. }
  specialize (Er Hlen). pose proof (end_of_le 0 l Hul) as Hpos. unfold minFileSize, plainEntrySize, headerLengthSize, Extension, ivSize, macSize in Hmin.
  assert (StreamPack aes_Encrypt poly1305_Verify Hash zstd_DecodeAll (hashingLoader Hash (be r) size) (key r) id pack_callback (mkPackState [] nullID []) l
    = (mkPackState [] id (slice_from f (Z.max (end_of 0 l) (zlen f - MaxHeaderSize))), Ok tt)) as Hs.
  { unfold StreamPack. rewrite Er. clear Er Hp Hlen. clearbody l. destruct l as [|first bs]; [done|]. pose proof Hc as [E0 _].
    rewrite <- E0 in Hc. rewrite parts_chained by (done || by rewrite E0). cbn [app]. rewrite E0 in Hc.
    unfold streamPackPart. destruct (last (first :: bs)) as [last_|] eqn:El; [|by apply last_None in El].
    rewrite (chained_last 0 (first :: bs) last_), E0 by (done || lia). rewrite Z.sub_0_r.
    rewrite u64_id, !i64_id by (unfold is_u64, is_i64; lia). unfold hashingLoader.
    rewrite (Load_ok _ _ f _ _ _ _ (mkPackState [] id (slice_from f (Z.max (end_of 0 (first :: bs)) (zlen f - MaxHeaderSize))))); [done|done|pose proof (zlen_nonneg f); lia|].
    assert (cut f size 0 = f) as ->.
    { unfold cut, slice_from. cbn [Z.to_nat drop]. rewrite Hsize. rewrite Z.ltb_irrefl. by destruct (0 <? zlen f). }
    unfold hashing_callback, Discard at 1. cbn [Z.ltb Z.compare]. pose proof (zlen_nonneg f). destruct (Z.ltb_spec (zlen f) 0); [lia|].
    rewrite stream_intact by (done || lia). unfold MaxHeaderSize, headerLengthSize in *. rewrite Z.add_0_r, !i64_id by (unfold is_i64; lia).
    rewrite Hsize, Hid. destruct (Z.ltb_spec (end_of 0 (first :: bs)) (zlen f - (16 * 1024 * 1024 + 4))) as [Hlt|Hge].
    - unfold Discard. destruct (Z.ltb_spec (zlen f - (16 * 1024 * 1024 + 4) - end_of 0 (first :: bs)) 0); [lia|].
      rewrite zlen_slice_from by lia. destruct (Z.ltb_spec (zlen f - end_of 0 (first :: bs)) (zlen f - (16 * 1024 * 1024 + 4) - end_of 0 (first :: bs))); [lia|].
      rewrite Z.max_r by lia. do 2 f_equal. unfold slice_from. rewrite drop_drop. f_equal. lia.
    - by rewrite Z.max_l by lia. }
  unfold checkPack. assert (Nat.eqb (length blobs) 0 = false) as -> by (by destruct blobs). fold l.
  assert (continuous 0 l = true) as -> by by apply (continuous_chained 0).
  rewrite Hs. cbn [ps_hash ps_errs ps_hdrBuf]. assert (ID_Equal id id = true) as -> by by apply ID_Equal_spec. cbn [negb].
  pose proof (Pack_List_drop _ _ f (key r) hs _ k' (Z.max (end_of 0 l) (zlen f - MaxHeaderSize)) Hl) as Hd.
  rewrite Hd; [|unfold MaxHeaderSize, headerLengthSize in *; lia|unfold minFileSize, plainEntrySize, MaxHeaderSize, headerLengthSize, Extension, ivSize, macSize in *; lia].
  rewrite Ec, u32_id, Z.eqb_refl by (unfold is_u32, MaxHeaderSize, headerLengthSize in *; lia). by rewrite check_headers_ok.
Qed.
End CheckPack.
