(* ===== verification/CheckerFacts.v ===== *)
(** What the checker finds: trees, packs and unused blobs.

    The repository's index is described by its content ([mi_repr]); the theorems
    say that the checker reports nothing exactly when nothing is wrong. *)

From S2P Require Import Prelude Bytes GoString Restic Sets HashedArrayTree IndexMap Index MasterIndex Crypto Pack Backend PackerManager Repository RepoFacts RepoSafety StreamPack GoTime Snapshot Tree TreeStream Checker.

#[local] Open Scope Z_scope.

(** * The content of a master index *)

Section Content.
Context (sum64 : list byte -> Z) (mi : MasterIndex) (C : loc -> content) (HR : mi_repr sum64 mi C).

(** All copies, in the order [Each] visits them. *)
Definition all_copies : list PackedBlob := concat ((fun l => all_blobs (C l)) <$> mi_idx mi).

Lemma Each_content {S} (fn : S -> PackedBlob -> outcome S) s : Each (fun _ => false) mi fn s = ofold fn s all_copies.
Proof using HR.
  unfold Each, all_copies. assert (forall ls s, ls ⊆ mi_idx mi ->
    ofold (fun s l => try idx <- deref mi l; Index_Each (fun _ => false) idx fn s) s ls = ofold fn s (concat ((fun l => all_blobs (C l)) <$> ls))) as H; [|by apply H].
  induction ls as [|l ls IH]; intros s' Hsub; [done|]. cbn [ofold fmap list_fmap concat]. rewrite ofold_app.
  destruct (mi_deref sum64 mi C l HR) as (idx & -> & HI); [set_solver|]. cbn [mbind outcome_bind].
  rewrite (Index_Each_ok sum64 _ idx (C l)), each_until_never by done. destruct (ofold fn s' (all_blobs (C l))); cbn; [apply IH; set_solver|done..].
Qed.

Lemma Each_total {S} (f : S -> PackedBlob -> S) s : Each (fun _ => false) mi (fun s pb => Ok (f s pb)) s = Ok (fold_left f all_copies s).
Proof using HR. rewrite Each_content. apply ofold_total. Qed.

Lemma all_copies_elem pb : pb ∈ all_copies <-> exists l t, l ∈ mi_idx mi /\ (t < NumBlobTypes)%nat /\ pb ∈ C l t.
Proof using HR.
  unfold all_copies. rewrite elem_of_concat_fmap. split.
  - intros (l & Hl & Hpb). destruct (mi_deref sum64 mi C l HR Hl) as (idx & _ & HI). apply (all_blobs_In sum64 idx) in Hpb as (t & Ht & Hpb); [|done]. by exists l, t.
  - intros (l & t & Hl & Ht & Hpb). destruct (mi_deref sum64 mi C l HR Hl) as (idx & _ & HI). exists l. split; [done|]. apply (all_blobs_In sum64 idx); [done|by exists t].
Qed.

(** The entries of an index are 32 bits wide and have the type of their table. *)
Lemma copies_wide pb : pb ∈ all_copies -> is_u32 (b_Offset (pb_Blob pb)) /\ is_u32 (b_Length (pb_Blob pb)) /\ 0 <= b_Type (pb_Blob pb) < Z.of_nat NumBlobTypes.
Proof using HR.
  intros (l & t & Hl & Ht & Hpb)%all_copies_elem. destruct (mi_deref sum64 mi C l HR Hl) as (idx & _ & HI).
  destruct (table_Ok sum64 idx (C l) t HI Ht) as (m & _ & es & _ & Hok & E). rewrite E in Hpb. apply list_elem_of_fmap in Hpb as (e & -> & He).
  unfold entries_ok in Hok. rewrite Forall_forall in Hok. destruct (Hok e He) as (_ & Ho & Hln & _). cbn. split; [done|]. split; [done|]. unfold b_Type. cbn. lia.
Qed.

(** Copies of the type [t] are in the tables of [t]. *)
Lemma Lookup_copies bh pbs : valid_type bh -> Lookup sum64 mi bh = Ok pbs -> pbs ⊆ all_copies.
Proof using HR.
  intros Ht. rewrite (Lookup_ok sum64 mi C bh HR Ht). intros [= <-] pb. rewrite elem_of_concat_fmap.
  intros (l & Hl & Hpb). apply all_copies_elem.
  unfold with_pid in Hpb. apply list_elem_of_filter in Hpb as [_ Hpb]. rewrite elem_of_reverse in Hpb. exists l, (bh_type bh). split; [done|]. split; [|done].
  unfold valid_type, bh_type in *. lia.
Qed.

Lemma Lookup_finds pb : pb ∈ all_copies -> exists pbs, Lookup sum64 mi (b_handle (pb_Blob pb)) = Ok pbs /\ pb ∈ pbs.
Proof using HR.
  intros Hin. pose proof (copies_wide pb Hin) as (_ & _ & Ht). apply all_copies_elem in Hin as (l & t & Hl & Hlt & Hpb).
  rewrite (Lookup_ok sum64 mi C _ HR) by done. eexists. split; [done|]. apply elem_of_concat_fmap. exists l. split; [done|].
  assert (t = bh_type (b_handle (pb_Blob pb))) as ->.
  { destruct (mi_deref sum64 mi C l HR Hl) as (idx & _ & HI). destruct (table_Ok sum64 idx (C l) t HI Hlt) as (m & _ & es & _ & _ & E).
    rewrite E in Hpb. apply list_elem_of_fmap in Hpb as (e & -> & _). unfold bh_type. cbn. lia. }
  unfold with_pid. apply list_elem_of_filter. split; [done|]. by rewrite elem_of_reverse.
Qed.

(** ** [ListPacks] *)

Definition pack_blobs (id : ID) : list Blob := pb_Blob <$> filter (fun pb => pb_PackID pb = id) all_copies.

Lemma round_range id : 0 <= pack_round id < 16.
Proof. unfold pack_round. change 15 with (Z.ones 4). rewrite Z.land_ones by lia. apply Z.mod_pos_bound. lia. Qed.

Definition in_round (packs : gset ID) (i : Z) (id : ID) : bool := IDSet_Has packs id && (pack_round id =? i).

Lemma start_lookup (packs : gset ID) i id :
  (fold_left (fun (m : gmap ID (list Blob)) pack => if pack_round pack =? i then <[pack := []]> m else m) (elements packs) ∅) !! id =
    if in_round packs i id then Some [] else None.
Proof.
  assert (forall l (m : gmap ID (list Blob)), (fold_left (fun m pack => if pack_round pack =? i then <[pack := []]> m else m) l m) !! id =
    if bool_decide (id ∈ l) && (pack_round id =? i) then Some [] else m !! id) as H.
  { induction l as [|x l IH]; intros m; cbn [fold_left]; [done|]. rewrite IH. destruct (decide (x = id)) as [->|Hne].
    - rewrite (bool_decide_eq_true_2 (id ∈ id :: l)) by left. destruct (pack_round id =? i); [rewrite lookup_insert_eq; by case_bool_decide|].
      by rewrite !andb_false_r.
    - rewrite (bool_decide_ext (id ∈ x :: l) (id ∈ l)) by (rewrite elem_of_cons; naive_solver).
      destruct (bool_decide (id ∈ l) && _); [done|]. destruct (pack_round x =? i); [by rewrite lookup_insert_ne|done]. }
  rewrite H. unfold in_round, IDSet_Has. rewrite (bool_decide_ext (id ∈ elements packs) (id ∈ packs)) by apply elem_of_elements. by rewrite lookup_empty.
Qed.

Definition round_step (packs : gset ID) (i : Z) (m : gmap ID (list Blob)) (pb : PackedBlob) : gmap ID (list Blob) :=
  if in_round packs i (pb_PackID pb) then <[pb_PackID pb := default [] (m !! pb_PackID pb) ++ [pb_Blob pb]]> m else m.

Lemma round_lookup packs i l m id :
  (forall id, in_round packs i id = true <-> is_Some (m !! id)) ->
  (fold_left (round_step packs i) l m) !! id = (fun bs => bs ++ (pb_Blob <$> filter (fun pb => pb_PackID pb = id) l)) <$> m !! id.
Proof.
  revert m. induction l as [|pb l IH]; intros m Hm; cbn [fold_left].
  - destruct (m !! id); cbn; by rewrite ?app_nil_r.
  - assert (forall id, in_round packs i id = true <-> is_Some (round_step packs i m pb !! id)) as Hm'.
    { intros id'. unfold round_step. destruct (in_round packs i (pb_PackID pb)) eqn:E; [|done].
      destruct (decide (pb_PackID pb = id')) as [<-|]; [rewrite lookup_insert_eq; by split|by rewrite lookup_insert_ne]. }
    rewrite IH by done. unfold round_step. destruct (decide (pb_PackID pb = id)) as [Heq|Hne].
    + rewrite filter_cons_True by done. subst id. destruct (in_round packs i (pb_PackID pb)) eqn:E.
      * rewrite lookup_insert_eq. apply Hm in E as [bs ->]. cbn. by rewrite <- app_assoc.
      * assert (m !! pb_PackID pb = None) as ->; [|done]. apply eq_None_not_Some. intros Hs%Hm. congruence.
    + rewrite filter_cons_False by done. destruct (in_round packs i (pb_PackID pb)); [by rewrite lookup_insert_ne|done].
Qed.

Definition round_packs (packs : gset ID) (i : Z) : list PackBlobs :=
  let m := fold_left (fun (m : gmap ID (list Blob)) pack => if pack_round pack =? i then <[pack := []]> m else m) (elements packs) ∅ in
  (fun kv => mkPackBlobs kv.1 kv.2) <$> map_to_list (fold_left (round_step packs i) all_copies m).

Lemma round_packs_elem packs i pbs : pbs ∈ round_packs packs i <-> exists id, in_round packs i id = true /\ pbs = mkPackBlobs id (pack_blobs id).
Proof.
  unfold round_packs. cbn zeta. rewrite list_elem_of_fmap. setoid_rewrite elem_of_map_to_list'.
  assert (forall id, (fold_left (round_step packs i) all_copies
    (fold_left (fun (m : gmap ID (list Blob)) pack => if pack_round pack =? i then <[pack := []]> m else m) (elements packs) ∅)) !! id =
    if in_round packs i id then Some (pack_blobs id) else None) as H.
  { intros id. rewrite round_lookup, start_lookup.
    - by destruct (in_round packs i id).
    - intros id'. rewrite start_lookup. destruct (in_round packs i id'); split; [done|done|done|by intros []]. }
  split.
  - intros ([id bs] & -> & Hk). rewrite H in Hk. cbn in Hk. exists id. destruct (in_round packs i id); [|done]. by injection Hk as <-.
  - intros (id & Hin & ->). exists (id, pack_blobs id). split; [done|]. cbn. by rewrite H, Hin.
Qed.

(** Every pack of the set is listed with its blobs. *)
Lemma ListPacks_ok packs :
  exists out, ListPacks mi packs = Ok out /\ forall pbs, pbs ∈ out <-> exists id, id ∈ packs /\ pbs = mkPackBlobs id (pack_blobs id).
Proof using HR.
  exists (concat (round_packs packs <$> (Z.of_nat <$> seq 0 16))). split.
  - unfold ListPacks. rewrite (ofold_ok _ (fun out i => out ++ round_packs packs i)); [by rewrite fold_left_app_acc|].
    intros out i _. set (m := fold_left _ (elements packs) ∅). destruct (Nat.eqb_spec (base.size m) 0) as [E|E].
    + apply map_size_empty_inv in E. assert (round_packs packs i = []) as ->; [|by rewrite app_nil_r].
      destruct (round_packs packs i) as [|pbs l] eqn:El; [done|]. exfalso. assert (pbs ∈ round_packs packs i) as Hin by (rewrite El; left).
      apply round_packs_elem in Hin as (id & Hin & _). pose proof (start_lookup packs i id) as Hl. fold m in Hl. rewrite E, lookup_empty, Hin in Hl. done.
    + rewrite Each_content. rewrite (ofold_ok _ (round_step packs i)); [done|].
      intros s pb _. unfold round_step, in_round. by destruct (_ && _).
  - intros pbs. rewrite elem_of_concat_fmap. split.
    + intros (i & _ & Hp). apply round_packs_elem in Hp as (id & Hin & ->). exists id. split; [|done]. unfold in_round, IDSet_Has in Hin.
      apply andb_true_iff in Hin as [Hin _]. by apply bool_decide_eq_true in Hin.
    + intros (id & Hin & ->). exists (pack_round id). split.
      * apply list_elem_of_fmap. exists (Z.to_nat (pack_round id)).
        pose proof (round_range id). split; [lia|]. apply elem_of_seq. lia.
      * apply round_packs_elem. exists id. split; [|done]. unfold in_round, IDSet_Has. rewrite Z.eqb_refl, andb_true_r. by apply bool_decide_eq_true.
Qed.
End Content.

Lemma inserted_elem (l : list ID) (s : gset ID) id : id ∈ fold_left IDSet_Insert l s <-> id ∈ l \/ id ∈ s.
Proof.
  revert s. induction l as [|x l IH]; intros s; cbn [fold_left]; [set_solver|]. rewrite IH. unfold IDSet_Insert, set_Insert. set_solver.
Qed.

(** * Reading all data *)

Section Facts.
Context {B : Type} `{HB : Backend B}.
Context (aes_Encrypt : list byte -> list byte -> list byte) (poly1305_Verify : list byte -> list byte -> list byte -> bool).
Context (Hash : list byte -> ID) (zstd_DecodeAll : list byte -> outcome (list byte)) (sum64 : list byte -> Z).

Lemma ReadPacks_silent (c : Checker B) (C : loc -> content) packs :
  mi_repr sum64 (idx (c_repo c)) C ->
  ReadPacks aes_Encrypt poly1305_Verify Hash zstd_DecodeAll sum64 c packs = Ok [] <->
  forall id size, packs !! id = Some size ->
    checkPack aes_Encrypt poly1305_Verify Hash zstd_DecodeAll sum64 (c_repo c) id (pack_blobs (idx (c_repo c)) C id) size = Ok None.
Proof.
  intros HR. unfold ReadPacks. set (ids := fold_left IDSet_Insert _ _).
  destruct (ListPacks_ok sum64 _ C HR ids) as (queue & -> & Hq). cbn [mbind outcome_bind].
  assert (forall id, id ∈ ids <-> is_Some (packs !! id)) as Hids.
  { intros id. unfold ids. rewrite inserted_elem, list_elem_of_fmap. unfold NewIDSet. split.
    - intros [((id' & sz) & -> & Hk%elem_of_map_to_list)|?]; [by exists sz|set_solver].
    - intros [sz Hk]. left. exists (id, sz). split; [done|by apply elem_of_map_to_list]. }
  rewrite (ofold_clean _ (fun pbs => checkPack aes_Encrypt poly1305_Verify Hash zstd_DecodeAll sum64 (c_repo c) (pbs_PackID pbs) (pbs_Blobs pbs)
    (default 0 (packs !! pbs_PackID pbs)) = Ok None)).
  2: { intros errs p _. unfold check_task. destruct (checkPack _ _ _ _ _ _ _ (pbs_Blobs p) _) as [[err|]|e|m]; cbn [mbind outcome_bind option_list].
       - split; [intros [= E]; by destruct errs|by intros [_ ?]].
       - rewrite app_nil_r. split; [by intros [= ->]|by intros [-> _]].
       - split; [done|by intros [_ ?]].
       - split; [done|by intros [_ ?]]. }
  rewrite Forall_forall. split.
  - intros [_ Hp] id size Hk. specialize (Hp (mkPackBlobs id (pack_blobs (idx (c_repo c)) C id))). cbn in Hp. rewrite Hk in Hp. apply Hp, Hq.
    exists id. split; [by apply Hids|done].
  - intros Hp. split; [done|]. intros pbs (id & [size Hk]%Hids & ->)%Hq. cbn. rewrite Hk. by apply Hp.
Qed.

Lemma pack_blobs_indexed (r : Repository (B := B)) C id : mi_repr sum64 (idx r) C -> indexed sum64 r id (pack_blobs (idx r) C id).
Proof.
  intros HR b pbs pb Hk El Hin Hid. apply (Lookup_copies sum64 _ C HR _ _ Hk El) in Hin. unfold pack_blobs.
  apply list_elem_of_fmap. exists pb. split; [done|]. by apply list_elem_of_filter.
Qed.

Lemma pack_blobs_u64 (r : Repository (B := B)) C id : mi_repr sum64 (idx r) C -> Forall blob_u64 (pack_blobs (idx r) C id).
Proof.
  intros HR. apply Forall_forall. intros b Hb. unfold pack_blobs in Hb. apply list_elem_of_fmap in Hb as (pb & -> & Hpb).
  apply list_elem_of_filter in Hpb as [_ Hpb]. destruct (copies_wide sum64 _ C HR pb Hpb) as (H1 & H2 & _). unfold blob_u64, is_u64, is_u32 in *. lia.
Qed.

(** What the backend delivers for a pack. *)
Definition delivered (r : Repository (B := B)) (id : ID) (size : Z) (f : list byte) : Prop :=
  Ok f ∈ be_Load (be r) (mkHandle PackFile false (ID_String id)) size 0.

(** C5. When reading the packs reports nothing, then every one of them was delivered
    by the backend in a version that is intact: its hash is its name, its blobs
    fill it without gaps and decode to contents with their hashes, and its header
    is the one the index describes.  The index is any, the backend may deliver
    anything. *)
Theorem ReadPacks_sound (c : Checker B) (C : loc -> content) (packs : gmap ID Z)
    (HR : mi_repr sum64 (idx (c_repo c)) C)
    (Hhdr : forall id, CalculateHeaderSize (pack_blobs (idx (c_repo c)) C id) < 2 ^ 32)
    (Hmem : forall id size f, packs !! id = Some size -> delivered (c_repo c) id size f -> zlen f < 2 ^ 62)
    (Hread : ReadPacks aes_Encrypt poly1305_Verify Hash zstd_DecodeAll sum64 c packs = Ok []) :
  forall id size, packs !! id = Some size ->
    exists f, delivered (c_repo c) id size f /\
      pack_intact aes_Encrypt poly1305_Verify Hash zstd_DecodeAll (c_repo c) id f (pack_blobs (idx (c_repo c)) C id).
Proof.
  intros id size Hk. pose proof (proj1 (ReadPacks_silent c C packs HR) Hread id size Hk) as Hc.
  eapply checkPack_intact; [by apply pack_blobs_u64|done|by apply pack_blobs_indexed| |exact Hc]. intros f. by apply Hmem.
Qed.

(** ... and no false alarm: packs that are intact, of the size the index says, and
    stored in a backend that obeys its laws pass the check, whatever temporary
    failures their loading meets. *)
Theorem ReadPacks_complete `{HL : !BackendLaws B} (c : Checker B) (C : loc -> content) (packs : gmap ID Z)
    (HR : mi_repr sum64 (idx (c_repo c)) C)
    (Hpacks : forall id size, packs !! id = Some size ->
      let blobs := pack_blobs (idx (c_repo c)) C id in
      exists f k', be_files (be (c_repo c)) !! mkHandle PackFile false (ID_String id) = Some f /\ size = zlen f /\ zlen f < 2 ^ 62 /\ blobs <> [] /\
        Hash f = id /\ Forall (intact_blob aes_Encrypt poly1305_Verify Hash zstd_DecodeAll (c_repo c) f) blobs /\
        chained 0 (go_sort offset_less blobs) /\ zlen f = end_of 0 (go_sort offset_less blobs) + CalculateHeaderSize blobs /\
        Pack_List aes_Encrypt poly1305_Verify (file_ReadAt f) (key (c_repo c)) (zlen f) = Ok (go_sort offset_less blobs, CalculateHeaderSize blobs, k')) :
  ReadPacks aes_Encrypt poly1305_Verify Hash zstd_DecodeAll sum64 c packs = Ok [].
Proof.
  apply (ReadPacks_silent c C packs HR). intros id size Hk. destruct (Hpacks id size Hk) as (f & k' & Hf & Hs & Hm & Hne & Hh & Hi & Hc & He & Hl).
  eapply checkPack_accepts_intact; try done. apply Forall_forall. intros h Hh'. rewrite (go_sort_Permutation offset_less) in Hh'.
  unfold pack_blobs in Hh'. apply list_elem_of_fmap in Hh' as (pb & -> & Hpb). apply list_elem_of_filter in Hpb as [Hid Hpb].
  destruct (Lookup_finds sum64 _ C HR pb Hpb) as (pbs & El & Hin). unfold idx_has. rewrite El. cbn [mbind outcome_bind]. f_equal.
  apply existsb_exists. exists pb. split; [by apply list_elem_of_In|]. by rewrite !bool_decide_eq_true_2.
Qed.

(** * Which packs there are *)

Lemma fold_insert_lookup (files : list (ID * Z)) (m : gmap ID Z) id s :
  NoDup files.*1 -> (fold_left (fun m (file : ID * Z) => <[file.1 := file.2]> m) files m) !! id = Some s <->
    (id, s) ∈ files \/ (id ∉ files.*1) /\ m !! id = Some s.
Proof.
  revert m. induction files as [|[id' s'] files IH]; intros m Hnd; cbn [fold_left fmap list_fmap] in *; [set_solver|].
  apply NoDup_cons in Hnd as [Hn Hnd]. cbn [fst snd] in *. rewrite IH by done. rewrite !elem_of_cons. destruct (decide (id' = id)) as [->|Hne].
  - rewrite lookup_insert_eq. split.
    + intros [Hin|[_ [= <-]]]; [by left; right|by left; left].
    + intros [[[= <-]|Hin]|[Hx _]]; [by right|by left|]. exfalso. apply Hx. by left.
  - rewrite lookup_insert_ne by done. naive_solver.
Qed.

(** What one pack of the index gives rise to. *)
Definition pack_fault (id : ID) (size : Z) (reposize : option Z) : list check_error :=
  match reposize with
  | None => [PackError id false (ErrMsg "does not exist")]
  | Some reposize => if negb (size =? reposize) then [PackError id false (ErrMsg "unexpected file size: got %d, expected %d")] else []
  end.

Lemma pack_steps l sent (repoPacks : gmap ID Z) :
  NoDup l.*1 ->
  let st := fold_left pack_step l (sent, repoPacks) in
  st.1 = sent ++ concat ((fun p : ID * Z => pack_fault p.1 p.2 (repoPacks !! p.1)) <$> l) /\
  (forall id, st.2 !! id = if bool_decide (id ∈ l.*1) then None else repoPacks !! id).
Proof.
  revert sent repoPacks. induction l as [|[id size] l IH]; intros sent rp Hnd; cbn [fold_left].
  - cbn. rewrite app_nil_r. done.
  - cbn [fmap list_fmap] in Hnd. apply NoDup_cons in Hnd as [Hn Hnd].
    assert (pack_step (sent, rp) (id, size) = (sent ++ pack_fault id size (rp !! id), delete id rp)) as ->.
    { unfold pack_step, pack_fault. destruct (rp !! id) as [rs|]; [|done]. destruct (negb _); [done|]. by rewrite app_nil_r. }
    destruct (IH (sent ++ pack_fault id size (rp !! id)) (delete id rp) Hnd) as [E1 E2]. split.
    + rewrite E1. cbn [fmap list_fmap concat fst snd]. rewrite <- app_assoc. do 3 f_equal. apply list_fmap_ext. intros i [id' s'] Hi.
      cbn [fst snd]. rewrite lookup_delete_ne; [done|]. intros ->. apply Hn, list_elem_of_fmap. exists (id', s'). split; [done|]. by eapply list_elem_of_lookup_2.
    + intros id'. rewrite E2. cbn [fmap list_fmap fst]. destruct (decide (id' = id)) as [->|Hne].
      * rewrite (bool_decide_eq_true_2 (id ∈ id :: l.*1)) by left. by rewrite lookup_delete_eq; case_bool_decide.
      * rewrite lookup_delete_ne by done. by rewrite (bool_decide_ext (id' ∈ id :: l.*1) (id' ∈ l.*1)) by (rewrite elem_of_cons; naive_solver).
Qed.

(** C7. [Packs] reports exactly the packs that the index knows and the repository does
    not have or has with another size, and those that no index knows. *)
Theorem Packs_exact (c : Checker B) (files : list (ID * Z))
    (Hfiles : RepoList (c_repo c) PackFile = Ok files) (Hnd : NoDup files.*1) :
  exists errs, Packs c false = Ok errs /\
    forall e, e ∈ errs <->
      (exists id size, c_packs c !! id = Some size /\ (id ∉ files.*1) /\ e = PackError id false (ErrMsg "does not exist")) \/
      (exists id size reposize, c_packs c !! id = Some size /\ (id, reposize) ∈ files /\ size <> reposize /\
        e = PackError id false (ErrMsg "unexpected file size: got %d, expected %d")) \/
      (exists id, id ∈ files.*1 /\ c_packs c !! id = None /\ e = PackError id true (ErrMsg "not referenced in any index")).
Proof.
  unfold Packs. rewrite Hfiles. cbn [mbind outcome_bind]. set (rp := fold_left _ files ∅).
  assert (forall id s, rp !! id = Some s <-> (id, s) ∈ files) as Hrp.
  { intros id s. unfold rp. rewrite fold_insert_lookup by done. rewrite lookup_empty. naive_solver. }
  assert (forall id, rp !! id = None <-> id ∉ files.*1) as Hnone.
  { intros id. rewrite list_elem_of_fmap. split.
    - intros E ([id' s] & -> & Hin). apply Hrp in Hin. cbn in E. congruence.
    - intros Hn. apply eq_None_not_Some. intros [s Hs%Hrp]. apply Hn. by exists (id, s). }
  destruct (pack_steps (map_to_list (c_packs c)) [] rp (NoDup_fst_map_to_list _)) as [E1 E2].
  destruct (fold_left pack_step _ _) as [sent left_] eqn:Ef. cbn [fst snd] in E1, E2. eexists. split; [reflexivity|].
  intros e. subst sent. rewrite elem_of_app. cbn [app]. rewrite elem_of_concat_fmap. split.
  - intros [([id size] & Hk%elem_of_map_to_list & He)|He].
    + cbn [fst snd] in He. unfold pack_fault in He.
      destruct (rp !! id) as [rs|] eqn:Er.
      * destruct (Z.eqb_spec size rs); cbn [negb] in He; [by apply elem_of_nil in He|]. apply list_elem_of_singleton in He as ->.
        right; left. exists id, size, rs. split_and!; try done. by apply Hrp.
      * apply list_elem_of_singleton in He as ->. left. exists id, size. split_and!; try done. by apply Hnone.
    + apply list_elem_of_fmap in He as ([id s] & -> & Hk%elem_of_map_to_list). right; right. exists id. cbn [fst]. rewrite E2 in Hk.
      case_bool_decide as Hin; [done|]. split_and!; [|by apply eq_None_not_Some; intros [s' Hs]; apply Hin, list_elem_of_fmap; exists (id, s'); split; [|apply elem_of_map_to_list]|done].
      apply list_elem_of_fmap. exists (id, s). split; [done|]. by apply Hrp.
  - intros [(id & size & Hk & Hn & ->)|[(id & size & rs & Hk & Hin & Hne & ->)|(id & Hin & Hn & ->)]].
    + left. exists (id, size). split; [by apply elem_of_map_to_list|]. cbn [fst snd].
      apply Hnone in Hn as ->. left.
    + left. exists (id, size). split; [by apply elem_of_map_to_list|]. cbn [fst snd].
      apply Hrp in Hin as ->. cbn. destruct (Z.eqb_spec size rs); [done|]. left.
    + right. apply list_elem_of_fmap in Hin as ([id' s] & -> & Hin). apply list_elem_of_fmap. exists (id', s). split; [done|]. apply elem_of_map_to_list.
      rewrite E2. rewrite bool_decide_eq_false_2; [by apply Hrp|]. intros ([id'' s'] & E & Hk%elem_of_map_to_list)%list_elem_of_fmap. cbn in E, Hn. congruence.
Qed.

(** * Trees *)

(** A node as a sound repository has it: it has a name, a file's blobs are listed,
    not null and in the index, a directory's tree is not null. *)
Definition node_intact (r : Repository (B := B)) (node : Node) : Prop :=
  n_Name node <> "" /\
  ((n_Type node = "file" /\ exists content, n_Content node = Some content /\
      Forall (fun blobID => blobID <> nullID /\ exists n, LookupBlobSize sum64 r blobID DataBlob = Ok (Some n)) content) \/
   (n_Type node = "dir" /\ exists subtree, n_Subtree node = Some subtree /\ subtree <> nullID) \/
   n_Type node ∈ ["symlink"; "socket"; "chardev"; "dev"; "fifo"]).

Lemma IsNull_false id : IsNull id = false <-> id <> nullID.
Proof. unfold IsNull. apply bool_decide_eq_false. Qed.

Lemma check_content_clean (r : Repository (B := B)) id errs content :
  ofold (check_content sum64 r id) errs content = Ok [] <->
  errs = [] /\ Forall (fun blobID => blobID <> nullID /\ exists n, LookupBlobSize sum64 r blobID DataBlob = Ok (Some n)) content.
Proof.
  apply ofold_clean. clear errs. intros errs b _. unfold check_content. destruct (IsNull b) eqn:En.
  - apply bool_decide_eq_true in En. split; [intros [= E]; by destruct errs|by intros (_ & ? & _)].
  - apply IsNull_false in En. destruct (LookupBlobSize _ _ _ _) as [[n|]|e|p] eqn:El; cbn [mbind outcome_bind].
    + split; [intros [= ->]; eauto|by intros [-> _]].
    + split; [intros [= E]; by destruct errs|by intros (_ & _ & n & [= ])].
    + split; [done|by intros (_ & _ & n & [= ])].
    + split; [done|by intros (_ & _ & n & [= ])].
Qed.

Lemma check_name_clean id errs node : check_name id errs node = [] <-> errs = [] /\ n_Name node <> "".
Proof.
  unfold check_name. destruct (String.eqb_spec (n_Name node) "").
  - split; [by destruct errs|by intros [_ ?]].
  - split; [by intros ->|by intros [-> _]].
Qed.

Lemma Ok_inj_iff {A} (a b : A) : Ok a = Ok b <-> a = b.
Proof. split; congruence. Qed.

Lemma existsb_eqb x (l : list string) : existsb (String.eqb x) l = true <-> x ∈ l.
Proof.
  rewrite existsb_exists. split.
  - intros (y & Hy & ->%String.eqb_eq). by apply list_elem_of_In.
  - intros Hx. exists x. split; [by apply list_elem_of_In|by apply String.eqb_eq].
Qed.

Lemma check_node_clean (r : Repository (B := B)) id errs node : check_node sum64 r id errs node = Ok [] <-> errs = [] /\ node_intact r node.
Proof.
  unfold check_node, node_intact. destruct (String.eqb_spec (n_Type node) "file") as [Et|Et].
  { assert (forall o : outcome (list tree_fault), (try errs <- o; Ok (check_name id errs node)) = Ok [] <-> o = Ok [] /\ n_Name node <> "") as Hb.
    { intros [a|e|p]; cbn [mbind outcome_bind]; [rewrite !Ok_inj_iff; apply check_name_clean|split; [done|by intros [? _]]..]. }
    rewrite Hb, check_content_clean. rewrite Et. destruct (n_Content node) as [content|]; cbn [default].
    - split; [intros ((-> & HF) & Hn); split; [done|]; split; [done|left; by eauto]|].
      intros (-> & Hn & [(_ & c & [= <-] & HF)|[(Hd & _)|Hin]]); [done|done|set_solver].
    - split; [intros ((E & _) & _); by destruct errs|]. intros (_ & _ & [(_ & c & [= ] & _)|[(Hd & _)|Hin]]); [done|set_solver]. }
  destruct (String.eqb_spec (n_Type node) "dir") as [Ed|Ed].
  { rewrite Ed in *. destruct (n_Subtree node) as [t|].
    - destruct (IsNull t) eqn:En.
      + apply bool_decide_eq_true in En. rewrite Ok_inj_iff. split; [by destruct errs|].
        intros (_ & _ & [(? & _)|[(_ & t' & [= <-] & ?)|?]]); [done|done|set_solver].
      + apply IsNull_false in En. rewrite Ok_inj_iff, check_name_clean. split; [intros [-> ?]; split; [done|]; split; [done|right; left; eauto]|].
        by intros (-> & ? & _).
    - rewrite Ok_inj_iff. split; [by destruct errs|]. intros (_ & _ & [(? & _)|[(_ & t' & [= ] & _)|?]]); [done|set_solver]. }
  destruct (existsb _ _) eqn:Ex.
  - apply existsb_eqb in Ex. rewrite Ok_inj_iff, check_name_clean. split; [intros [-> ?]; auto|]. by intros (-> & ? & _).
  - rewrite Ok_inj_iff, check_name_clean. split; [intros [E _]; by destruct errs|].
    intros (_ & _ & [(? & _)|[(? & _)|Hin]]); [done|done|]. apply existsb_eqb in Hin. congruence.
Qed.

Lemma checkTree_clean (r : Repository (B := B)) id tree : checkTree sum64 r id tree = Ok [] <-> Forall (node_intact r) tree.
Proof.
  unfold checkTree. rewrite (ofold_clean _ (node_intact r)); [by split; [intros [_ ?]|]|]. intros errs node _. apply check_node_clean.
Qed.

Lemma tracked_no_trees (c : Checker B) w it id : tree_handle id ∉ c_contents (checkTreeWorker sum64 c w) it.
Proof.
  cbn. destruct (it.2) as [t|e|p]; [|apply not_elem_of_empty..]. destruct (trackUnused c); [|apply not_elem_of_empty].
  unfold tracked_blobs. rewrite elem_of_list_to_set, elem_of_concat_fmap. intros (node & _ & Hin). destruct (String.eqb _ _); [|by apply elem_of_nil in Hin].
  by apply list_elem_of_fmap in Hin as (b & [=] & _).
Qed.

Section Structure.
Context (json_UnmarshalTree : list byte -> outcome (list Node)) (json_UnmarshalSnapshot : list byte -> outcome Snapshot).

Abbreviation load_snapshot := (LoadSnapshot aes_Encrypt poly1305_Verify Hash zstd_DecodeAll json_UnmarshalSnapshot).
Abbreviation load_tree := (check_LoadTree aes_Encrypt poly1305_Verify Hash zstd_DecodeAll sum64 json_UnmarshalTree).

(** The trees of the snapshots. *)
Definition snapshot_root (c : Checker B) (id : ID) : Prop :=
  exists file sn, file ∈ c_snapshots c /\ load_snapshot (c_repo c) file.1 = Ok sn /\ sn_Tree sn = Some id.

Lemma snapshot_trees (c : Checker B) trees errs :
  loadSnapshotTreeIDs aes_Encrypt poly1305_Verify Hash zstd_DecodeAll json_UnmarshalSnapshot c = Ok (trees, errs) ->
  (forall id, id ∈ trees <-> snapshot_root c id) /\
  (errs = [] <-> forall file, file ∈ c_snapshots c -> exists sn, load_snapshot (c_repo c) file.1 = Ok sn).
Proof.
  unfold loadSnapshotTreeIDs, snapshot_root. enough (forall l ids0 errs0, 
    ofold (snapshot_tree aes_Encrypt poly1305_Verify Hash zstd_DecodeAll json_UnmarshalSnapshot (c_repo c)) (ids0, errs0) l = Ok (trees, errs) ->
    (forall id, id ∈ trees <-> id ∈ ids0 \/ exists file sn, file ∈ l /\ load_snapshot (c_repo c) file.1 = Ok sn /\ sn_Tree sn = Some id) /\
    (errs = [] <-> errs0 = [] /\ forall file, file ∈ l -> exists sn, load_snapshot (c_repo c) file.1 = Ok sn)) as H.
  { intros [H1 H2]%H. split; [intros id; rewrite H1; split; [intros [?%elem_of_nil|?]; done|auto]|]. rewrite H2. by split; [intros [_ ?]|]. }
  induction l as [|file l IH]; intros ids0 errs0; cbn [ofold].
  - intros [= -> ->]. split; [|by split; [intros ->; split; [|by intros ? ?%elem_of_nil]|intros [-> _]]].
    intros id. split; [auto|]. intros [?|(? & ? & ?%elem_of_nil & _)]; done.
  - intros ([ids1 errs1] & E1 & E2)%bind_Ok. revert E1 E2. unfold snapshot_tree at 1. destruct (load_snapshot (c_repo c) file.1) as [sn|e|p] eqn:El; [| |done].
    + destruct (sn_Tree sn) as [t|] eqn:Et; [|done]. intros [= <- <-] [H1 H2]%IH. split.
      * intros id. rewrite H1, elem_of_app, list_elem_of_singleton. setoid_rewrite elem_of_cons. split.
        -- intros [[?| ->]|(f & s & ? & ? & ?)]; [by left|right; exists file, sn; auto|right; exists f, s; auto].
        -- intros [?|(f & s & [->|?] & E & Es)]; [auto|left; right; congruence|right; by exists f, s].
      * rewrite H2. setoid_rewrite elem_of_cons. split; intros [-> Hf]; (split; [done|]); intros f; [intros [->|?]; eauto|auto].
    + intros [= <- <-] [H1 H2]%IH. split.
      * intros id. rewrite H1. setoid_rewrite elem_of_cons. split.
        -- intros [?|(f & s & ? & ? & ?)]; [by left|right; exists f, s; auto].
        -- intros [?|(f & s & [->|?] & E & Es)]; [auto|congruence|right; by exists f, s].
      * rewrite H2. split; [intros [E _]; by destruct errs0|]. intros [_ Hf]. destruct (Hf file ltac:(left)) as [sn E]. congruence.
Qed.

(** What the trees of a repository use. *)
Definition tree_used (c : Checker B) (trees : list ID) (h : BlobHandle) : Prop :=
  exists id, visited (load_tree (c_repo c)) trees (blobRefs c) id /\
    (h = tree_handle id \/ exists tree, load_tree (c_repo c) id = Ok tree /\ trackUnused c = true /\ h ∈ tracked_blobs tree).

Lemma Structure_run (c : Checker B) connections w errChan c' :
  Structure aes_Encrypt poly1305_Verify Hash zstd_DecodeAll sum64 json_UnmarshalTree json_UnmarshalSnapshot c connections w errChan c' (Ok tt) ->
  exists trees, (forall id, id ∈ trees <-> snapshot_root c id) /\
    (errChan = [] <->
      (forall file, file ∈ c_snapshots c -> exists sn, load_snapshot (c_repo c) file.1 = Ok sn) /\
      (forall id, visited (load_tree (c_repo c)) trees (blobRefs c) id ->
         exists tree, load_tree (c_repo c) id = Ok tree /\ Forall (node_intact (c_repo c)) tree)) /\
    (forall h, h ∈ blobRefs c' <-> h ∈ blobRefs c \/ tree_used c trees h).
Proof.
  unfold Structure, tree_used. generalize (load_tree (c_repo c)). intros LT. destruct (loadSnapshotTreeIDs _ _ _ _ _ c) as [[trees errs]|e|p] eqn:El; [|done|by intros (_ & _ & [=])].
  intros (s & Hr & Hf & -> & ->). exists trees. destruct (snapshot_trees c trees errs El) as [Ht He]. split; [done|].
  destruct (run_ok_ _ _ trees (blobRefs c) _ _ (tracked_no_trees c w) s Hr) as [_ Hok]. unfold final_ok in Hok. rewrite Hf in Hok.
  destruct Hok as [(_ & Hst & Hu & Ho & _)|(id & _ & Hst)].
  2: { cbn in Hst. by destruct (tree_errors sum64 (c_repo c) (id, _)). }
  split.
  - assert (forall (l : list error) (l' : list check_error), (Plain <$> l) ++ l' = [] <-> l = [] /\ l' = []) as -> by (intros [|x l] l'; cbn; naive_solver).
    rewrite He. apply and_iff_compat_l. split.
    + intros E id Hv. specialize (Hst id Hv). cbn in Hst. unfold tree_errors in Hst. cbn in Hst.
      assert (forall errs, tree_errors sum64 (c_repo c) (id, LT id) = Ok errs -> errs = []) as Hn.
      { intros [|err l] Et; [done|]. exfalso. assert (TreeError id (err :: l) ∈ output s) as Hin; [|rewrite E in Hin; by apply elem_of_nil in Hin].
        apply Ho. exists id. split; [done|]. unfold checkTreeWorker, c_report. rewrite Et. left. }
      unfold tree_errors in Hn. cbn in Hn. destruct (LT id) as [tree|e|p] eqn:Elt; [|by specialize (Hn _ eq_refl)|done].
      exists tree. split; [done|]. apply (checkTree_clean _ id). destruct (checkTree sum64 (c_repo c) id tree) as [l|e|p] eqn:Ec; [f_equal; by apply Hn|done|done].
    + intros Hall. destruct (output s) as [|err l] eqn:E; [done|]. exfalso. destruct (proj1 (Ho err)) as (id & Hv & Hin); [left|].
      cbn in Hin. unfold tree_errors in Hin. cbn in Hin. destruct (Hall id Hv) as (tree & Elt & HF). rewrite Elt in Hin.
      apply (checkTree_clean _ id) in HF. rewrite HF in Hin. by apply elem_of_nil in Hin.
  - intros h. cbn. rewrite Hu. unfold used. apply or_iff_compat_l. cbn. split.
    + intros [(id & Hv & ->)|(id & Hv & Hin)]; exists id; [auto|]. split; [done|]. right. destruct (LT id) as [tree|e|p]; [|set_solver..].
      exists tree. destruct (trackUnused c); [done|set_solver].
    + intros (id & Hv & [->|(tree & Elt & Etr & Hin)]); [by left; exists id|]. right. exists id. split; [done|]. by rewrite Elt, Etr.
Qed.

(** C6. The checks of the structure, for a checker whose index has the content [C]:
    nothing is reported exactly when every snapshot loads and every tree that is
    reachable from one loads and is intact, whatever the order of the goroutines;
    and then the blobs reported as unused are those of the index that no such tree
    refers to. *)
Theorem Structure_finds (c : Checker B) (C : loc -> content) connections w errChan c'
    (HR : mi_repr sum64 (idx (c_repo c)) C) (Htrack : trackUnused c = true) (Hnew : blobRefs c = ∅)
    (Hrun : Structure aes_Encrypt poly1305_Verify Hash zstd_DecodeAll sum64 json_UnmarshalTree json_UnmarshalSnapshot c connections w errChan c' (Ok tt)) :
  exists trees unused, (forall id, id ∈ trees <-> snapshot_root c id) /\
    (errChan = [] <->
      (forall file, file ∈ c_snapshots c -> exists sn, load_snapshot (c_repo c) file.1 = Ok sn) /\
      (forall id, visited (load_tree (c_repo c)) trees ∅ id ->
         exists tree, load_tree (c_repo c) id = Ok tree /\ Forall (node_intact (c_repo c)) tree)) /\
    UnusedBlobs c' = Ok unused /\
    (forall h, h ∈ unused <-> (exists pb, pb ∈ all_copies (idx (c_repo c)) C /\ b_handle (pb_Blob pb) = h) /\
      ~ exists id, visited (load_tree (c_repo c)) trees ∅ id /\
          (h = tree_handle id \/ exists tree, load_tree (c_repo c) id = Ok tree /\ h ∈ tracked_blobs tree)).
Proof.
  assert (c_repo c' = c_repo c /\ trackUnused c' = trackUnused c) as [Er Et].
  { unfold Structure in Hrun. destruct (loadSnapshotTreeIDs _ _ _ _ _ c) as [[t e]|e|p]; [|done|by destruct Hrun as (_ & _ & [=])]. by destruct Hrun as (s & _ & _ & _ & ->). }
  destruct (Structure_run c connections w errChan c' Hrun) as (trees & Ht & He & Hu). unfold tree_used in Hu. rewrite Hnew in *.
  exists trees. eexists. split; [done|]. split; [done|]. split.
  { unfold UnusedBlobs. rewrite Et, Htrack, Er. cbn [negb]. by apply (Each_total sum64 _ C HR). }
  intros h. assert (forall l acc, h ∈ fold_left (fun blobs pb => if bool_decide (b_handle (pb_Blob pb) ∈ blobRefs c') then blobs else blobs ++ [b_handle (pb_Blob pb)]) l acc <->
    h ∈ acc \/ (exists pb, pb ∈ l /\ b_handle (pb_Blob pb) = h) /\ h ∉ blobRefs c') as Hfold.
  { induction l as [|pb l IH]; intros acc; cbn [fold_left].
    - split; [auto|]. intros [?|[(pb & ?%elem_of_nil & _) _]]; done.
    - rewrite IH. setoid_rewrite elem_of_cons. case_bool_decide as Hd; [|rewrite elem_of_app, list_elem_of_singleton]; naive_solver. }
  rewrite Hfold, Hu, elem_of_nil. split.
  - intros [[]|[Hin Hn]]. split; [done|]. intros (id & Hv & Hh). apply Hn. right. exists id. split; [done|].
    destruct Hh as [?|(tree & ? & ?)]; [by left|right; eauto].
  - intros [Hin Hn]. right. split; [done|]. intros [?%elem_of_empty|(id & Hv & Hh)]; [done|]. apply Hn. exists id. split; [done|].
    destruct Hh as [?|(tree & ? & _ & ?)]; [by left|right; eauto].
Qed.
End Structure.
End Facts.

(** * A session that is checked

    The repository of the session in RepoSafety.v, with a snapshot. *)

Abbreviation ex_sum64 := (fun _ : list byte => 7).
Definition ex_flushed : option (Repository (B := MemoryBackend)) :=
  match ex_session_run with
  | Ok (_, r2, _) => match ex_Flush r2 with (r3, Ok _) => Some r3 | _ => None end
  | _ => None
  end.

Lemma ex_flushed_ok : exists r C, ex_flushed = Some r /\ mi_repr ex_sum64 (idx r) C.
Proof.
  unfold ex_flushed. destruct ex_session as (r0 & r1 & r2 & r3 & saved & E0 & E1 & E2 & E3).
  assert (ex_session_run = Ok (r0, r2, saved)) as ->.
  { unfold ex_session_run. rewrite E0. cbn [mbind outcome_bind]. rewrite E1. cbn [mbind outcome_bind]. by rewrite E2. }
  rewrite E3. destruct (session_ok ex_aes ex_sum ex_verify ex_sha ex_sum64 ex_zstd_EncodeAll ex_zstd_DecodeAll ex_json_Encode ex_json_Unmarshal
    ex_rand (fun _ => 0) 3 ex_env_ok ex_contents mem_New mem_New_ok ex_key eq_refl (mkOptions CompressionAuto 0) 0 ex_config
    r0 r1 r2 r3 ex_ops saved E0 (ex_new_files r0 E0) E1 ex_ops_ok E2 E3) as (_ & C & Hmi & _).
  exists r3, C. split; [done|]. apply Hmi.
Qed.

Definition ex_packs (r : Repository (B := MemoryBackend)) : gmap ID Z := match Pack_Size (idx r) false with Ok p => p | _ => ∅ end.
Definition ex_checker (r : Repository (B := MemoryBackend)) (snapshots : list (ID * Z)) : Checker MemoryBackend :=
  mkChecker (ex_packs r) ∅ true (idx r) snapshots r.
Abbreviation ex_ReadPacks := (ReadPacks ex_aes ex_verify ex_sha ex_zstd_DecodeAll ex_sum64).

(** Two packs are read, and nothing is reported. *)
Definition ex_read_ok (r : Repository (B := MemoryBackend)) : bool :=
  match ex_ReadPacks (ex_checker r []) (ex_packs r), map_to_list (ex_packs r),
        Each (fun _ => false) (idx r) (fun (n : Z) _ => Ok (n + 1)) 0 with
  | Ok [], [p1; p2], Ok n =>
      (n <? 10) && forallb (fun p : ID * Z => forallb (fun a => match a with Ok f => zlen f <? 1000 | _ => true end)
        (be_Load (be r) (mkHandle PackFile false (ID_String p.1)) p.2 0)) [p1; p2]
  | _, _, _ => false
  end.

Lemma ex_read : match ex_flushed with Some r => ex_read_ok r | None => false end = true.
Proof. vm_compute. reflexivity. Qed.

Lemma header_small sum64 mi C id : mi_repr sum64 mi C -> zlen (all_copies mi C) < 10 -> CalculateHeaderSize (pack_blobs mi C id) < 2 ^ 32.
Proof.
  intros _ Hn. pose proof (CalculateHeaderSize_bound (pack_blobs mi C id)) as Hb.
  assert (zlen (pack_blobs mi C id) <= zlen (all_copies mi C)) as Hl.
  { unfold pack_blobs, zlen. rewrite length_fmap. apply inj_le. apply length_filter. }
  unfold headerSize, entrySize, headerLengthSize, Extension, ivSize, macSize in Hb. lia.
Qed.

Lemma ReadPacks_sound_witness :
  exists r C id size f, ex_packs r !! id = Some size /\ delivered r id size f /\
    pack_intact ex_aes ex_verify ex_sha ex_zstd_DecodeAll r id f (pack_blobs (idx r) C id).
Proof.
  destruct ex_flushed_ok as (r & C & Er & HR). pose proof ex_read as Ht. rewrite Er in Ht. unfold ex_read_ok in Ht.
  destruct (ex_ReadPacks (ex_checker r []) (ex_packs r)) as [[|]|e|p] eqn:Ep; [|discriminate Ht..].
  destruct (map_to_list (ex_packs r)) as [|[id size] [|p2 [|]]] eqn:El; [discriminate Ht..| |discriminate Ht].
  rewrite (Each_total ex_sum64 _ C HR) in Ht. apply andb_true_iff in Ht as [Hn Hmem].
  assert (forall id size, ex_packs r !! id = Some size -> (id, size) ∈ map_to_list (ex_packs r)) as Hk by (intros; by apply elem_of_map_to_list).
  rewrite El in Hk. exists r, C, id, size.
  destruct (ReadPacks_sound ex_aes ex_verify ex_sha ex_zstd_DecodeAll ex_sum64 (ex_checker r []) C (ex_packs r) HR) with (id := id) (size := size) as (f & Hd & Hi).
  - intros id'. apply (header_small ex_sum64); [exact HR|]. apply Z.ltb_lt in Hn.
    assert (forall l z, fold_left (fun n (_ : PackedBlob) => n + 1) l z = z + zlen l) as Hf.
    { induction l as [|x l IH]; intros z; cbn [fold_left]; [unfold zlen; cbn; lia|]. rewrite IH, zlen_cons. lia. }
    rewrite Hf in Hn. exact Hn.
  - intros id' size' f Hin%Hk Hdel. rewrite forallb_forall in Hmem. apply list_elem_of_In, Hmem in Hin. rewrite forallb_forall in Hin.
    apply list_elem_of_In, Hin, Z.ltb_lt in Hdel. cbn in Hdel. lia.
  - exact Ep.
  - apply elem_of_map_to_list. rewrite El. left.
  - exists f. split; [apply elem_of_map_to_list; rewrite El; left|]. split; [exact Hd|exact Hi].
Defined.

(** An index that knows another pack. *)
Definition ex_wrong (r : Repository (B := MemoryBackend)) : Checker MemoryBackend := mkChecker {[ex_id "p"%byte := 5]} ∅ true (idx r) [] r.
Definition ex_files_ok (r : Repository (B := MemoryBackend)) : bool :=
  match RepoList r PackFile with Ok files => bool_decide (NoDup files.*1) && negb (bool_decide (ex_id "p"%byte ∈ files.*1)) | _ => false end.

Lemma ex_files_listed : match ex_flushed with Some r => ex_files_ok r | None => false end = true.
Proof. vm_compute. reflexivity. Qed.

Lemma Packs_exact_witness :
  exists r errs, ex_flushed = Some r /\ Packs (ex_wrong r) false = Ok errs /\ PackError (ex_id "p"%byte) false (ErrMsg "does not exist") ∈ errs.
Proof.
  destruct ex_flushed_ok as (r & C & Er & _). pose proof ex_files_listed as Ht. rewrite Er in Ht. unfold ex_files_ok in Ht.
  destruct (RepoList r PackFile) as [files|e|p] eqn:El; [|discriminate Ht..]. apply andb_true_iff in Ht as [Hnd%bool_decide_eq_true Hn].
  apply negb_true_iff, bool_decide_eq_false in Hn. destruct (Packs_exact (ex_wrong r) files El Hnd) as (errs & Ep & Hin).
  exists r, errs. split; [exact Er|]. split; [exact Ep|]. apply Hin. left. exists (ex_id "p"%byte), 5. split; [apply lookup_singleton_eq|]. split; [exact Hn|reflexivity].
Defined.

(** The snapshot's tree is one file with one blob. *)
Definition ex_tree_ID : ID := ex_sha ["t"%byte].
Definition ex_UnmarshalTree (buf : list byte) : outcome (list Node) :=
  if bool_decide (buf = ["t"%byte]) then Ok [ex_file "f" [ex_sha ["a"; "b"]%byte]] else Err (ErrMsg "invalid JSON").
Definition ex_UnmarshalSnapshot (_ : list byte) : outcome Snapshot :=
  Ok (mkSnapshot time_zero None (Some ex_tree_ID) [] "" "" 0 0 [] [] None "" None).
Definition ex_with_snapshot (r : Repository (B := MemoryBackend)) : Repository (B := MemoryBackend) * list (ID * Z) :=
  match SaveUnpacked ex_aes ex_sum ex_sha ex_zstd_EncodeAll ex_rand r SnapshotFile ["s"%byte] with
  | (r, Ok id) => (r, [(id, 1)])
  | (r, _) => (r, [])
  end.
Definition ex_tree_checker (r : Repository (B := MemoryBackend)) : Checker MemoryBackend :=
  let '(r, l) := ex_with_snapshot r in ex_checker r l.
Abbreviation ex_load_tree := (check_LoadTree ex_aes ex_verify ex_sha ex_zstd_DecodeAll ex_sum64 ex_UnmarshalTree).

Definition ex_stream (r : Repository (B := MemoryBackend)) : stream check_error :=
  let c := ex_tree_checker r in
  run_schedule (ex_load_tree (c_repo c)) (check_BlobSize ex_sum64 (c_repo c)) (workerCount 5 2) (checkTreeWorker ex_sum64 c 2) 100 (init_stream [ex_tree_ID] ∅).
Definition ex_structure_ok (r : Repository (B := MemoryBackend)) : bool :=
  match loadSnapshotTreeIDs ex_aes ex_verify ex_sha ex_zstd_DecodeAll ex_UnmarshalSnapshot (ex_tree_checker r), finished (ex_stream r), output (ex_stream r) with
  | Ok ([id], []), Some (Ok _), [] => bool_decide (id = ex_tree_ID)
  | _, _, _ => false
  end.

Lemma ex_structure : match ex_flushed with Some r => ex_structure_ok r | None => false end = true.
Proof. vm_compute. reflexivity. Qed.

Lemma SaveUnpacked_idx {B} `{Backend B} aes sum Hash zstd rand (r : Repository (B := B)) t p : idx (SaveUnpacked aes sum Hash zstd rand r t p).1 = idx r.
Proof.
  unfold SaveUnpacked. destruct (NewRandomNonce _) as [nonce|e|m]; [|done..]. destruct (Seal _ _ _ _ _ _) as [[ct k]|e|m]; [|done..].
  by destruct (be_Save _ _ _) as [b res].
Qed.

Lemma Structure_finds_witness :
  exists r (c' : Checker MemoryBackend) unused, ex_flushed = Some r /\ UnusedBlobs c' = Ok unused /\
    (forall id, visited (ex_load_tree (c_repo (ex_tree_checker r))) [ex_tree_ID] ∅ id ->
       exists tree, ex_load_tree (c_repo (ex_tree_checker r)) id = Ok tree /\ Forall (node_intact ex_sum64 (c_repo (ex_tree_checker r))) tree).
Proof.
  destruct ex_flushed_ok as (r & C & Er & HR). pose proof ex_structure as Ht. rewrite Er in Ht. unfold ex_structure_ok in Ht.
  set (c := ex_tree_checker r) in *.
  destruct (loadSnapshotTreeIDs ex_aes ex_verify ex_sha ex_zstd_DecodeAll ex_UnmarshalSnapshot c) as [[[|id [|]] [|]]|e|p] eqn:El; try discriminate Ht.
  destruct (finished (ex_stream r)) as [[[]|e|p]|] eqn:Ef; try discriminate Ht. destruct (output (ex_stream r)) as [|x l] eqn:Eo; [|discriminate Ht].
  apply bool_decide_eq_true in Ht as ->.
  assert (idx (c_repo c) = idx r /\ trackUnused c = true /\ blobRefs c = ∅) as (Ei & Et & Eb).
  { unfold c, ex_tree_checker. pose proof (SaveUnpacked_idx ex_aes ex_sum ex_sha ex_zstd_EncodeAll ex_rand r SnapshotFile ["s"%byte]) as Hi.
    unfold ex_with_snapshot. destruct (SaveUnpacked _ _ _ _ _ _ _ _) as [r4 [i|e|p]]; cbn in Hi |- *; rewrite Hi; auto. }
  rewrite <- Ei in HR.
  set (c' := mkChecker (c_packs c) (used_blobs (ex_stream r)) (trackUnused c) (c_masterIndex c) (c_snapshots c) (c_repo c)).
  destruct (Structure_finds ex_aes ex_verify ex_sha ex_zstd_DecodeAll ex_sum64 ex_UnmarshalTree ex_UnmarshalSnapshot c C 5 2 [] c' HR Et Eb)
    as (trees & unused & Hroots & Hiff & Hunused & _).
  - unfold Structure. rewrite El. exists (ex_stream r). split; [|split; [exact Ef|split; [by rewrite Eo|done]]].
    rewrite Eb. apply run_schedule_steps. cbn. lia.
  - exists r, c', unused. split; [exact Er|]. split; [exact Hunused|]. destruct (proj1 Hiff eq_refl) as [_ Hv].
    intros id Hid. apply Hv. eapply visited_roots; [|exact Hid]. intros x Hx%list_elem_of_singleton. subst x. apply Hroots.
    apply (proj1 (snapshot_trees _ _ _ _ _ c _ _ El)). left.
Defined.
