(* ===== verification/FsPath.v ===== *)
(** Paths of the file system: [filepath.Base], [filepath.Dir] and
    [fs.HasPathPrefix] (src/internal/fs/path_prefix.go), on systems whose paths have
    slashes and no volume names. *)

From S2P Require Import Prelude GoString.

#[local] Open Scope Z_scope.

Fixpoint drop_empty (l : list string) : list string :=
  match l with "" :: l => drop_empty l | _ => l end.

(** The last component, without slashes after it. *)
Definition filepath_Base (p : string) : string :=
  if String.eqb p "" then "." else match drop_empty (rev (split_on slash p)) with [] => "/" | c :: _ => c end.

(** All up to the last slash, cleaned. *)
Definition filepath_Dir (p : string) : string :=
  path_Clean (match rev (split_on slash p) with
              | [] | [_] => ""
              | _ :: rest => strings_Join "/" (rev rest) +:+ "/"
              end).

Definition filepath_IsAbs (p : string) : bool := rooted p.

(** The loop of [HasPathPrefix]; a round removes a component of [p]. *)
Fixpoint prefix_loop (fuel : nat) (base p : string) : bool :=
  match fuel with
  | O => false
  | S fuel =>
      let dir := filepath_Dir p in
      if String.eqb base dir then true else if String.eqb p dir then false else prefix_loop fuel base dir
  end.

Definition HasPathPrefix (base p : string) : bool :=
  if negb (Bool.eqb (filepath_IsAbs base) (filepath_IsAbs p)) then false
  else
    let base := path_Clean base in
    let p := path_Clean p in
    if String.eqb base p then true else prefix_loop (S (String.length p)) base p.

Example prefix_examples :
  HasPathPrefix "/a" "/a/b" = true /\ HasPathPrefix "/a" "/ab" = false /\ HasPathPrefix "/" "/x" = true /\ HasPathPrefix "a" "/a/b" = false.
Proof. done. Qed.

(** A relative path that leaves the base is taken to be below it when the base is
    the current directory. *)
Example prefix_of_dot : HasPathPrefix "." "../secret" = true.
Proof. done. Qed.

(** * Components *)

(** The components of a cleaned path. *)
Definition components (p : string) : list string := rev (clean_fold (rooted p) (split_on slash p) []).

Lemma has_slash_app a b : has_slash (a +:+ b) = has_slash a || has_slash b.
Proof. induction a as [|c a IH]; [done|]. change (String.String c a +:+ b) with (String.String c (a +:+ b)). cbn [has_slash]. by rewrite IH, orb_assoc. Qed.

Lemma components_clean p : clean_stack (rooted p) (rev (components p)).
Proof. unfold components. rewrite rev_involutive. apply clean_fold_stack; [apply split_on_no_slash|done]. Qed.

Lemma Join_app l m : l <> [] -> m <> [] -> strings_Join "/" (l ++ m) = strings_Join "/" l +:+ "/" +:+ strings_Join "/" m.
Proof.
  intros Hl Hm. induction l as [|x l IH]; [done|]. destruct l as [|y l]; [by destruct m|].
  change ((x :: y :: l) ++ m) with (x :: y :: (l ++ m)). rewrite !strings_Join_cons. change (y :: l ++ m) with ((y :: l) ++ m). rewrite IH by done.
  rewrite string_app_assoc. done.
Qed.

(** Splitting a string and joining it again. *)
Lemma Join_split s : strings_Join "/" (split_on slash s) = s.
Proof.
  induction s as [|c s IH]; [done|]. cbn [split_on]. destruct (Ascii.eqb_spec c slash) as [->|Hc].
  - destruct (split_on slash s) as [|w l] eqn:E; [by apply split_on_not_nil in E|]. rewrite strings_Join_cons, IH. done.
  - destruct (split_on slash s) as [|w l] eqn:E; [by apply split_on_not_nil in E|]. rewrite <- IH. by destruct l.
Qed.

Lemma Clean_components p : path_Clean p = render (rooted p) (components p).
Proof. apply path_Clean_render. Qed.

Lemma render_components root out : clean_stack root out -> rooted (render root (rev out)) = root /\ components (render root (rev out)) = rev out.
Proof. intros Hs. destruct (render_clean root out Hs) as (_ & Hr & Hf). split; [done|]. unfold components. by rewrite Hr, Hf. Qed.

Lemma render_stack_inj root out1 out2 : clean_stack root out1 -> clean_stack root out2 -> render root (rev out1) = render root (rev out2) -> out1 = out2.
Proof.
  intros H1 H2 E. destruct (render_components root out1 H1) as [_ E1]. destruct (render_components root out2 H2) as [_ E2].
  rewrite E, E2 in E1. by apply (f_equal (@rev string)) in E1; rewrite !rev_involutive in E1.
Qed.

Lemma Clean_slash x : path_Clean (x +:+ "/") = render (rooted (x +:+ "/")) (rev (clean_fold (rooted (x +:+ "/")) (split_on slash x) [])).
Proof.
  rewrite path_Clean_render. change "/" with ("" +:+ String.String slash "") at 3.
  change ("" +:+ String.String slash "") with (String.String slash ""). rewrite split_on_app, clean_fold_app. done.
Qed.

(** [Dir] removes the last component. *)
Lemma Dir_render root out : clean_stack root out -> filepath_Dir (render root (rev out)) = render root (rev (tail out)).
Proof.
  intros Hs. pose proof (clean_stack_comps _ _ Hs) as Hc. apply Forall_and in Hc as [Hns Hne]. unfold filepath_Dir. destruct out as [|c out]; [by destruct root|].
  cbn [tail rev] in *. apply Forall_app in Hns as [Hns Hcs]. apply Forall_app in Hne as [Hne Hce].
  assert (clean_stack root out) as Hs' by (by destruct Hs). pose proof (clean_fold_rev root out Hs') as Hfold.
  assert (split_on slash (render root (rev out ++ [c])) = (if root then [""] else []) ++ rev out ++ [c]) as ->.
  { unfold render. destruct root.
    - change ("/" +:+ strings_Join "/" (rev out ++ [c])) with ("" +:+ String.String slash (strings_Join "/" (rev out ++ [c]))).
      rewrite split_on_app, split_on_Join_comps; [done|by destruct (rev out)|by apply Forall_app].
    - destruct (rev out ++ [c]) as [|x l] eqn:E; [by destruct (rev out)|]. rewrite <- E, split_on_Join_comps; [done|by destruct (rev out)|by apply Forall_app]. }
  rewrite !rev_app_distr. cbn [rev app]. rewrite rev_involutive.
  destruct root; cbn [app rev].
  - destruct (out ++ [""]) as [|y l] eqn:E; [by destruct out|]. rewrite <- E, rev_app_distr. cbn [rev app].
    rewrite Clean_slash. destruct (rev out) as [|z zs] eqn:Er; [done|].
    assert (strings_Join "/" ("" :: z :: zs) = "" +:+ String.String slash (strings_Join "/" (z :: zs))) as -> by apply strings_Join_cons.
    rewrite split_on_app, split_on_Join_comps by done. change (rooted _) with true.
    change (clean_fold true (split_on slash "" ++ z :: zs) []) with (clean_fold true (z :: zs) []). by rewrite Hfold, Er.
  - rewrite app_nil_r. destruct out as [|y l]; [done|]. rewrite Clean_slash.
    rewrite split_on_Join_comps; [|by intros E; apply (f_equal (@length string)) in E; rewrite length_rev in E|done].
    assert (rooted (strings_Join "/" (rev (y :: l)) +:+ "/") = false) as ->; [|by rewrite Hfold].
    destruct (render_components false (y :: l) Hs') as [Hr _]. unfold render in Hr. destruct (rev (y :: l)) as [|z zs] eqn:Er; [by apply (f_equal (@length string)) in Er; rewrite length_rev in Er|].
    rewrite rooted_app; [done|]. intros E. rewrite E in Hr. apply Forall_cons in Hne as [Hz _]. destruct zs; [done|]. rewrite strings_Join_cons in E. by destruct z.
Qed.

Lemma length_render root out : clean_stack root out -> (length out <= String.length (render root (rev out)))%nat.
Proof.
  intros Hs. pose proof (clean_stack_comps _ _ Hs) as Hc. apply Forall_and in Hc as [_ Hne].
  assert (forall l : list string, Forall (fun c => c <> "") l -> (length l <= String.length (strings_Join "/" l))%nat) as Hg.
  { induction l as [|x [|y l] IH]; intros HF; [done| |].
    - apply Forall_cons in HF as [Hx _]. cbn. by destruct x; cbn; [|lia].
    - apply Forall_cons in HF as [Hx HF]. rewrite strings_Join_cons, string_length_app. specialize (IH HF). cbn in IH |- *. lia. }
  specialize (Hg _ Hne). rewrite length_rev in Hg. unfold render. destruct root; [rewrite string_length_app; lia|]. destruct (rev out) eqn:E; [|done].
  apply (f_equal (@length string)) in E. rewrite length_rev in E. cbn in E |- *. lia.
Qed.

Lemma prefix_snoc_cases {A} (l k : list A) x : l `prefix_of` k ++ [x] -> l = k ++ [x] \/ l `prefix_of` k.
Proof.
  intros [k' E]. destruct k' as [|y k' _] using rev_ind; [left; by rewrite app_nil_r in E|right].
  rewrite app_assoc in E. apply app_inj_tail in E as [-> _]. by exists k'.
Qed.

Lemma prefix_loop_spec root fuel base out :
  clean_stack root base -> clean_stack root out -> (length out < fuel)%nat ->
  prefix_loop fuel (render root (rev base)) (render root (rev out)) = true <-> rev base `prefix_of` rev (tail out).
Proof.
  intros Hb. revert out. induction fuel as [|fuel IH]; intros out Ho Hl; [lia|]. cbn [prefix_loop]. rewrite Dir_render by done.
  assert (clean_stack root (tail out)) as Ht by (by destruct out as [|c out]; [|destruct Ho]).
  destruct (String.eqb_spec (render root (rev base)) (render root (rev (tail out)))) as [E|E].
  { apply render_stack_inj in E as ->; [|done..]. done. }
  assert (rev base <> rev (tail out)) as Hne by (intros E'; by rewrite E' in E).
  destruct (String.eqb_spec (render root (rev out)) (render root (rev (tail out)))) as [E2|E2].
  - apply render_stack_inj in E2; [|done..]. destruct out as [|c out]; [|by apply (f_equal length) in E2; cbn in E2; lia]. cbn [tail rev] in *.
    split; [done|]. intros Hp. apply prefix_nil_inv in Hp. done.
  - destruct out as [|c out]; [done|]. cbn [tail] in *. rewrite IH by (done || cbn in Hl; lia). destruct out as [|c' out]; [done|]. cbn [tail rev].
    split; intros Hp; [by apply prefix_app_r|]. apply prefix_snoc_cases in Hp. cbn [rev tail] in Hne. by destruct Hp.
Qed.

(** [HasPathPrefix] compares the components of the cleaned paths: those of the base
    come first in those of the path, both being absolute or both relative. *)
Theorem HasPathPrefix_spec (base p : string) :
  HasPathPrefix base p = true <-> rooted base = rooted p /\ components base `prefix_of` components p.
Proof.
  unfold HasPathPrefix, filepath_IsAbs. rewrite !Clean_components.
  destruct (Bool.eqb (rooted base) (rooted p)) eqn:Er; cbn [negb]; [apply Bool.eqb_prop in Er|apply Bool.eqb_false_iff in Er; split; [done|by intros [? _]]].
  rewrite Er. pose proof (components_clean p) as Hp. pose proof (components_clean base) as Hb. rewrite Er in Hb.
  rewrite <- (rev_involutive (components base)), <- (rev_involutive (components p)).
  set (ob := rev (components base)) in *. set (op := rev (components p)) in *.
  destruct (String.eqb_spec (render (rooted p) (rev ob)) (render (rooted p) (rev op))) as [E|E].
  - apply render_stack_inj in E as ->; [|done..]. by split.
  - rewrite prefix_loop_spec by (done || pose proof (length_render _ _ Hp); lia).
    assert (rev ob <> rev op) as Hne by (intros E'; by rewrite E' in E). destruct op as [|c op]; cbn [tail rev].
    + split; [by split|]. intros [_ Hpre]. done.
    + split; [intros Hpre; split; [done|by apply prefix_app_r]|]. intros [_ Hpre]. apply prefix_snoc_cases in Hpre as [?|?]; [|done].
      by cbn [rev] in Hne.
Qed.

(** * Joining *)

Lemma Join_components root out name : clean_stack root out -> good_comp name -> path_Join [render root (rev out); name] = render root (rev out ++ [name]).
Proof.
  intros Hs Hg. destruct (render_clean root out Hs) as (Hne & Hr & Hf). pose proof Hg as (Hn & _ & _ & Hslash).
  rewrite path_Join_render; [|by repeat constructor|done].
  unfold elems_stack. change (elems_root [render root (rev out); name]) with (rooted (render root (rev out))). rewrite Hr. cbn [fmap list_fmap concat].
  rewrite app_nil_r, clean_fold_app, Hf, split_on_single by done. cbn [clean_fold fold_left]. rewrite clean_step_good by done. done.
Qed.

(** A name that is its own base below the root is a component, or the root. *)
Lemma Base_of_name name : filepath_Base (path_Join ["/"; name]) = name -> good_comp name \/ name = "/".
Proof.
  intros H. destruct (decide (name = "")) as [->|Hne]; [done|].
  rewrite path_Join_render in H; [|by repeat constructor|done]. cbn [elems_root] in H. change (rooted "/") with true in H.
  pose proof (elems_stack_clean ["/"; name]) as Hs. cbn [elems_root] in Hs. change (rooted "/") with true in Hs.
  set (out := elems_stack ["/"; name]) in *. unfold filepath_Base in H. destruct out as [|c out]; [right; by cbn in H|].
  assert (good_comp c) as Hc by (destruct Hs as [_ [?|(_ & ? & _)]]; [done|discriminate]). left.
  pose proof (clean_stack_comps _ _ Hs) as Hc'. apply Forall_and in Hc' as [Hns _]. cbn [rev] in *.
  destruct (String.eqb_spec (render true (rev out ++ [c])) "") as [E|_]; [by destruct (render_clean true (c :: out) Hs) as (Hx & _)|].
  change (render true (rev out ++ [c])) with ("" +:+ String.String slash (strings_Join "/" (rev out ++ [c]))) in H.
  rewrite split_on_app, split_on_Join_comps in H by (done || by destruct (rev out)). rewrite !rev_app_distr in H. cbn [rev app] in H.
  destruct Hc as (Hc1 & Hc2). cbn [drop_empty] in H. destruct c as [|x c]; [done|]. by subst name.
Qed.

(** ** Rooted paths *)

Lemma good_stack root l : Forall good_comp l -> clean_stack root (rev l).
Proof.
  intros H. induction l as [|c l IH] using rev_ind; [done|]. apply Forall_app in H as [Hl Hc].
  rewrite rev_app_distr. split; [by apply IH|left]. by inversion Hc.
Qed.

Lemma rooted_components p : rooted p = true -> Forall good_comp (components p).
Proof.
  intros Hr. pose proof (components_clean p) as Hs. rewrite Hr in Hs. rewrite <- (rev_involutive (components p)). apply Forall_rev.
  induction (rev (components p)) as [|c l IH]; [constructor|]. destruct Hs as [Hs [Hc|(_ & ? & _)]]; [|done]. constructor; [done|by apply IH].
Qed.

Lemma components_render l : Forall good_comp l -> rooted (render true l) = true /\ components (render true l) = l.
Proof. intros Hl. destruct (render_components true _ (good_stack true l Hl)) as [R1 R2]. by rewrite rev_involutive in R1, R2. Qed.
