(* ===== verification/Os.v ===== *)
(** The part of Go's [os] package that restoring uses: a file system whose
    regular files are inodes with a content, so that hard links and handles
    share it.

    A path names at most one entry; the parents of a path and symbolic links
    inside it are not resolved, so that a path that leads nowhere is one of the
    failures.  Every call may fail: it takes the head of [os_faults], which is the
    error and, for a write, how many bytes were written before it. *)

From S2P Require Import Prelude Bytes GoString.

#[local] Open Scope Z_scope.

Inductive entry :=
  | Regular (ino : nat)
  | Directory
  | Symlink (target : string)
  | Special.

#[export] Instance entry_eq_dec : EqDecision entry.
Proof. solve_decision. Defined.

Record os := mkOs {
  os_paths : gmap string entry;
  os_data : gmap nat (list byte);
  os_faults : list (option (error * nat)) }.

Definition ErrNotExist : error := ErrMsg "file does not exist".
Definition ErrExist : error := ErrMsg "file already exists".

Definition next_fault (s : os) : option (error * nat) * os :=
  match os_faults s with
  | [] => (None, s)
  | f :: rest => (f, mkOs (os_paths s) (os_data s) rest)
  end.

Definition set_data (s : os) (ino : nat) (c : list byte) : os := mkOs (os_paths s) (<[ino := c]> (os_data s)) (os_faults s).
Definition set_path (s : os) (path : string) (e : entry) : os := mkOs (<[path := e]> (os_paths s)) (os_data s) (os_faults s).

(** A new inode without content. *)
Definition create_file (s : os) (path : string) : os * nat :=
  let ino := fresh (dom (os_data s)) in (set_data (set_path s path (Regular ino)) ino [], ino).

(** [os.OpenFile] for writing; [create] is [O_CREATE|O_TRUNC]. *)
Definition OpenFile (create : bool) (path : string) (s : os) : os * outcome nat :=
  let '(f, s) := next_fault s in
  match f with
  | Some (e, _) => (s, Err e)
  | None =>
      match os_paths s !! path with
      | Some (Regular ino) => (if create then set_data s ino [] else s, Ok ino)
      | Some _ => (s, Err (ErrMsg "not a regular file"))
      | None => if create then let '(s, ino) := create_file s path in (s, Ok ino) else (s, Err ErrNotExist)
      end
  end.

Definition zeros (n : nat) : list byte := replicate n "000"%byte.

(** The content after a write at an offset, which fills a gap with zeros. *)
Definition write_at (c : list byte) (offset : nat) (p : list byte) : list byte :=
  match p with
  | [] => c
  | _ => take offset (c ++ zeros (offset - length c)) ++ p ++ drop (offset + length p) c
  end.

(** [File.WriteAt]; the number of bytes written and the error. *)
Definition File_WriteAt (ino : nat) (p : list byte) (offset : Z) (s : os) : os * (Z * option error) :=
  if offset <? 0 then (s, (0, Some (ErrMsg "negative offset"))) else
  let '(f, s) := next_fault s in
  let '(done, err) := match f with Some (e, n) => (take n p, Some e) | None => (p, None) end in
  (set_data s ino (write_at (default [] (os_data s !! ino)) (Z.to_nat offset) done), (zlen done, err)).

(** [File.Truncate]. *)
Definition resize (c : list byte) (size : nat) : list byte := take size c ++ zeros (size - length c).

Definition File_Truncate (ino : nat) (size : Z) (s : os) : os * option error :=
  let '(f, s) := next_fault s in
  match f with
  | Some (e, _) => (s, Some e)
  | None => if size <? 0 then (s, Some (ErrMsg "invalid argument"))
            else (set_data s ino (resize (default [] (os_data s !! ino)) (Z.to_nat size)), None)
  end.

(** [fallocate] with mode 0: the file grows, it is never cut. *)
Definition Fallocate (ino : nat) (size : Z) (s : os) : os * option error :=
  let '(f, s) := next_fault s in
  match f with
  | Some (e, _) => (s, Some e)
  | None => let c := default [] (os_data s !! ino) in (set_data s ino (c ++ zeros (Z.to_nat size - length c)), None)
  end.

Definition File_Close (s : os) : os * option error :=
  let '(f, s) := next_fault s in (s, fst <$> f).

(** What can be read at a path. *)
Definition file_content (o : os) (path : string) : option (list byte) :=
  match os_paths o !! path with Some (Regular ino) => os_data o !! ino | _ => None end.

(** ** Directories and links *)

(** Is there an entry below the directory? *)
Definition has_children (s : os) (path : string) : bool :=
  existsb (fun p => String.prefix (path +:+ "/") p) (map_to_list (os_paths s)).*1.

Definition Mkdir (path : string) (s : os) : os * option error :=
  let '(f, s) := next_fault s in
  match f with
  | Some (e, _) => (s, Some e)
  | None => match os_paths s !! path with Some _ => (s, Some ErrExist) | None => (set_path s path Directory, None) end
  end.

(** The directories on the way to a path, the path included. *)
Fixpoint path_prefixes (done : string) (comps : list string) : list string :=
  match comps with
  | [] => []
  | c :: comps =>
      let p := done +:+ c in
      (if String.eqb c "" then [] else [p]) ++ path_prefixes (p +:+ "/") comps
  end.

Fixpoint mkdir_all (paths : list string) (s : os) : os * option error :=
  match paths with
  | [] => (s, None)
  | p :: rest =>
      match os_paths s !! p with
      | Some Directory => mkdir_all rest s
      | Some _ => (s, Some (ErrMsg "not a directory"))
      | None => match Mkdir p s with (s, None) => mkdir_all rest s | (s, Some e) => (s, Some e) end
      end
  end.

Definition MkdirAll (path : string) (s : os) : os * option error := mkdir_all (path_prefixes "" (split_on slash path)) s.

Definition Remove (path : string) (s : os) : os * option error :=
  let '(f, s) := next_fault s in
  match f with
  | Some (e, _) => (s, Some e)
  | None =>
      match os_paths s !! path with
      | None => (s, Some ErrNotExist)
      | Some Directory => if has_children s path then (s, Some (ErrMsg "directory not empty")) else (mkOs (delete path (os_paths s)) (os_data s) (os_faults s), None)
      | Some _ => (mkOs (delete path (os_paths s)) (os_data s) (os_faults s), None)
      end
  end.

Definition Link (oldname newname : string) (s : os) : os * option error :=
  let '(f, s) := next_fault s in
  match f with
  | Some (e, _) => (s, Some e)
  | None =>
      match os_paths s !! oldname, os_paths s !! newname with
      | None, _ => (s, Some ErrNotExist)
      | Some _, Some _ => (s, Some ErrExist)
      | Some Directory, None => (s, Some (ErrMsg "operation not permitted"))
      | Some e, None => (set_path s newname e, None)
      end
  end.

(** A new symbolic link, device or pipe. *)
Definition make_entry (e : entry) (path : string) (s : os) : os * option error :=
  let '(f, s) := next_fault s in
  match f with
  | Some (e, _) => (s, Some e)
  | None => match os_paths s !! path with Some _ => (s, Some ErrExist) | None => (set_path s path e, None) end
  end.

(** A call that changes nothing that is modelled. *)
Definition os_call (s : os) : os * option error := let '(f, s) := next_fault s in (s, fst <$> f).

(** * What the calls do to a content *)

Lemma length_zeros n : length (zeros n) = n.
Proof. apply length_replicate. Qed.

Lemma lookup_zeros n i : zeros n !! i = if decide (i < n)%nat then Some "000"%byte else None.
Proof. unfold zeros. case_decide; [by apply lookup_replicate_2|apply lookup_replicate_None; lia]. Qed.

Lemma length_write_at c off p : p <> [] -> length (write_at c off p) = (length c `max` (off + length p))%nat.
Proof.
  intros Hp. unfold write_at. destruct p as [|x p]; [done|]. rewrite !length_app, length_take, length_drop, length_app, length_zeros. lia.
Qed.

Lemma lookup_write_at c off p i :
  p <> [] ->
  write_at c off p !! i =
    if decide (i < off)%nat then (if decide (i < length c)%nat then c !! i else Some "000"%byte)
    else if decide (i < off + length p)%nat then p !! (i - off)%nat else c !! i.
Proof.
  intros Hp. assert (write_at c off p = take off (c ++ zeros (off - length c)) ++ p ++ drop (off + length p) c) as -> by by destruct p.
  assert (length (take off (c ++ zeros (off - length c))) = off) as Hl by (rewrite length_take, length_app, length_zeros; lia).
  repeat case_decide.
  - rewrite lookup_app_l by lia. rewrite lookup_take_lt by done. by rewrite lookup_app_l.
  - rewrite lookup_app_l by lia. rewrite lookup_take_lt by done. rewrite lookup_app_r by lia. rewrite lookup_zeros. by rewrite decide_True by lia.
  - rewrite lookup_app_r by lia. rewrite lookup_app_l by lia. by rewrite Hl.
  - rewrite lookup_app_r by lia. rewrite lookup_app_r by lia. rewrite lookup_drop. f_equal. lia.
Qed.

Lemma lookup_resize c n i : resize c n !! i = if decide (i < n)%nat then (if decide (i < length c)%nat then c !! i else Some "000"%byte) else None.
Proof.
  unfold resize. repeat case_decide.
  - rewrite lookup_app_l by (rewrite length_take; lia). by apply lookup_take_lt.
  - rewrite lookup_app_r by (rewrite length_take; lia). rewrite lookup_zeros, length_take. by rewrite decide_True by lia.
  - apply lookup_ge_None. rewrite length_app, length_take, length_zeros. lia.
Qed.

(** A content on the way to [t]: it has zeros where [t] was not written yet. *)
Definition towards (t c : list byte) : Prop :=
  (length c <= length t)%nat /\ forall i b, c !! i = Some b -> b = "000"%byte \/ t !! i = Some b.

(** The bytes of [t] from [off] on are there. *)
Definition holds_at (t c : list byte) (off n : nat) : Prop := forall i, (off <= i < off + n)%nat -> c !! i = t !! i.

Lemma towards_nil t : towards t [].
Proof. split; [cbn; lia|]. intros i b Hb. by rewrite lookup_nil in Hb. Qed.

Lemma towards_zeros t : towards t (zeros (length t)).
Proof. split; [by rewrite length_zeros|]. intros i b Hb. rewrite lookup_zeros in Hb. case_decide; [|done]. injection Hb as <-. by left. Qed.

(** A write of bytes of [t], or of the first of them. *)
Lemma write_towards t c off p :
  towards t c -> (off + length p <= length t)%nat -> (forall i, (i < length p)%nat -> p !! i = t !! (off + i)%nat) ->
  towards t (write_at c off p) /\ holds_at t (write_at c off p) off (length p) /\
  (length c <= length (write_at c off p))%nat /\
  (forall off' n, holds_at t c off' n -> (off' + n <= length t)%nat -> holds_at t (write_at c off p) off' n).
Proof.
  intros [Hl Hc] Hfit Hp. destruct (decide (p = [])) as [->|Hne].
  { cbn [write_at length]. split_and!; try done. intros i Hi. lia. }
  assert (forall i, (i < off)%nat \/ (off + length p <= i)%nat -> (i < length c)%nat -> write_at c off p !! i = c !! i) as Hout.
  { intros i Hi Hic. rewrite lookup_write_at by done. repeat case_decide; try done; lia. }
  assert (forall i, (off <= i < off + length p)%nat -> write_at c off p !! i = t !! i) as Hin.
  { intros i Hi. rewrite lookup_write_at by done. rewrite decide_False, decide_True by lia. rewrite Hp by lia. f_equal. lia. }
  split_and!.
  - split; [rewrite length_write_at by done; lia|]. intros i b Hb. rewrite lookup_write_at in Hb by done.
    repeat case_decide; [by apply Hc| |right|by apply Hc].
    + injection Hb as <-. by left.
    + rewrite <- Hb. rewrite Hp by lia. f_equal. lia.
  - intros i Hi. by apply Hin.
  - rewrite length_write_at by done. lia.
  - intros off' n Hh Hn i Hi. specialize (Hh i Hi). destruct (decide (off <= i < off + length p)%nat) as [?|Hi']; [by apply Hin|].
    assert (is_Some (t !! i)) as [x Hx] by (apply lookup_lt_is_Some; lia). rewrite Hx in Hh |- *.
    apply lookup_lt_Some in Hh as Hlt. rewrite Hout by lia. done.
Qed.

Lemma holds_all t c : towards t c -> (forall i, (i < length t)%nat -> c !! i = t !! i) -> c = t.
Proof.
  intros [Hl _] Hh. apply list_eq. intros i. destruct (decide (i < length t)%nat) as [Hi|Hi]; [by apply Hh|].
  by rewrite !lookup_ge_None_2 by lia.
Qed.
