(* ===== verification/FilesWriter.v ===== *)
(** Writing blobs to the files that are restored
    (src/internal/restorer/fileswriter.go, sparsewrite.go, truncate_other.go).

    Open files are kept in buckets and shared by their users.  [acquireWriter]
    and [releaseWriter] hold the lock of the bucket, so that each is one step;
    [writeToFile] is both with the write between them. *)

From S2P Require Import Prelude Bytes Restic Backend PackerManager Repository RepoFacts Os.

#[local] Open Scope Z_scope.

Record partialFile := mkPartialFile { pf_File : nat; pf_users : Z; pf_sparse : bool }.

(** The buckets; a path is only in the bucket of its hash. *)
Abbreviation filesWriter := (list (gmap string partialFile)).

Definition newFilesWriter (count : nat) : filesWriter := replicate count ∅.

Definition truncateSparse (ino : nat) (size : Z) (s : os) : os * option error := File_Truncate ino size s.

(** [partialFile.WriteAt]: zeros at the start of [p] are left out in a sparse
    file. *)
Definition partialFile_WriteAt (f : partialFile) (p : list byte) (offset : Z) (s : os) : os * (Z * option error) :=
  if negb (pf_sparse f) then File_WriteAt (pf_File f) p offset s else
  let n := zlen p in
  let skipped := ZeroPrefixLen p in
  let p := slice_from p skipped in
  let offset := i64 (offset + skipped) in
  if zlen p =? 0 then (s, (n, None)) else
  let '(s, (n2, err)) := File_WriteAt (pf_File f) p offset s in (s, (skipped + n2, err)).

Section FilesWriter.
Context (Sum64String : string -> Z).

Definition bucket_index (w : filesWriter) (path : string) : nat := Z.to_nat (u64 (Sum64String path) mod zlen w).
Definition get_writer (w : filesWriter) (path : string) : option partialFile := w !! bucket_index w path ≫= fun m => m !! path.
Definition put_writer (w : filesWriter) (path : string) (f : partialFile) : filesWriter := alter (fun m => <[path := f]> m) (bucket_index w path) w.
Definition delete_writer (w : filesWriter) (path : string) : filesWriter := alter (delete path) (bucket_index w path) w.

Definition acquireWriter (path : string) (createSize : Z) (sparse : bool) (w : filesWriter) (s : os) : filesWriter * os * outcome partialFile :=
  match get_writer w path with
  | Some wr => (put_writer w path (mkPartialFile (pf_File wr) (pf_users wr + 1) (pf_sparse wr)), s, Ok wr)
  | None =>
      let '(s, f) := OpenFile (0 <=? createSize) path s in
      match f with
      | Err e => (w, s, Err e)
      | Panic p => (w, s, Panic p)
      | Ok f =>
          let wr := mkPartialFile f 1 sparse in
          let w := put_writer w path wr in
          if 0 <=? createSize then
            if sparse then
              let '(s, err) := truncateSparse f createSize s in
              match err with Some e => (w, s, Err e) | None => (w, s, Ok wr) end
            else let '(s, _) := Fallocate f createSize s in (w, s, Ok wr)
          else (w, s, Ok wr)
      end
  end.

Definition releaseWriter (path : string) (w : filesWriter) (s : os) : filesWriter * os * outcome unit :=
  match get_writer w path with
  | None => (w, s, Panic "nil pointer dereference")
  | Some wr =>
      if pf_users wr =? 1 then
        let '(s, err) := File_Close s in
        (delete_writer w path, s, match err with Some e => Err e | None => Ok tt end)
      else (put_writer w path (mkPartialFile (pf_File wr) (pf_users wr - 1) (pf_sparse wr)), s, Ok tt)
  end.

Definition writeToFile (path : string) (blob : list byte) (offset createSize : Z) (sparse : bool) (w : filesWriter) (s : os)
    : filesWriter * os * outcome unit :=
  if Nat.eqb (length w) 0 then (w, s, Panic "integer divide by zero") else
  match acquireWriter path createSize sparse w s with
  | (w, s, Err e) => (w, s, Err e)
  | (w, s, Panic p) => (w, s, Panic p)
  | (w, s, Ok wr) =>
      match partialFile_WriteAt wr blob offset s with
      | (s, (_, Some e)) => let '(w, s, r) := releaseWriter path w s in (w, s, match r with Panic p => Panic p | _ => Err e end)
      | (s, (_, None)) => releaseWriter path w s
      end
  end.

(** * The table of open files *)

Lemma bucket_range w path : (0 < length w)%nat -> (bucket_index w path < length w)%nat.
Proof. intros Hw. unfold bucket_index, zlen. pose proof (Z.mod_pos_bound (u64 (Sum64String path)) (Z.of_nat (length w))). lia. Qed.

Lemma length_put w path f : length (put_writer w path f) = length w.
Proof. apply length_alter. Qed.
Lemma length_delete w path : length (delete_writer w path) = length w.
Proof. apply length_alter. Qed.

Lemma bucket_length w w' path : length w' = length w -> bucket_index w' path = bucket_index w path.
Proof. intros H. unfold bucket_index, zlen. by rewrite H. Qed.

Lemma get_alter (g : gmap string partialFile -> gmap string partialFile) w path path' :
  (0 < length w)%nat -> (forall m p, p <> path -> g m !! p = m !! p) ->
  get_writer (alter g (bucket_index w path) w) path' =
    if decide (path' = path) then w !! bucket_index w path ≫= fun m => g m !! path else get_writer w path'.
Proof.
  intros Hw Hg. unfold get_writer. rewrite (bucket_length w) by apply length_alter. rewrite list_lookup_alter. destruct (decide (path' = path)) as [->|Hne].
  - rewrite decide_True by done. by destruct (w !! _).
  - case_decide as Hb; [|done]. rewrite <- Hb. destruct (w !! bucket_index w path) as [m|] eqn:E; [|done]. cbn. by apply Hg.
Qed.

Lemma get_put w path f path' : (0 < length w)%nat -> get_writer (put_writer w path f) path' = if decide (path' = path) then Some f else get_writer w path'.
Proof.
  intros Hw. unfold put_writer. rewrite get_alter by (try done; intros; by apply lookup_insert_ne). case_decide; [|done].
  destruct (lookup_lt_is_Some_2 w (bucket_index w path) (bucket_range w path Hw)) as [m ->]. cbn. apply lookup_insert_eq.
Qed.

Lemma get_delete w path path' : (0 < length w)%nat -> get_writer (delete_writer w path) path' = if decide (path' = path) then None else get_writer w path'.
Proof.
  intros Hw. unfold delete_writer. rewrite get_alter by (try done; intros; by apply lookup_delete_ne). case_decide; [|done].
  destruct (lookup_lt_is_Some_2 w (bucket_index w path) (bucket_range w path Hw)) as [m ->]. cbn. apply lookup_delete_eq.
Qed.

Lemma get_new n path : get_writer (newFilesWriter n) path = None.
Proof. unfold get_writer, newFilesWriter. destruct (replicate n ∅ !! _) as [m|] eqn:E; [|done]. apply lookup_replicate in E as [-> _]. apply lookup_empty. Qed.
End FilesWriter.
