(* ===== verification/FileRestorer.v ===== *)
(** Restoring the contents of files (src/internal/restorer/filerestorer.go).

    [restoreFiles] first decides which packs have to be downloaded and in which
    order ([plan_file]); then workers download the packs, and write every blob to
    all the files that contain it.  The goroutines are a step relation: the
    dispatcher hands out packs, and a worker goes through the calls [StreamPack]
    makes of its callback ([pack_actions], see [StreamPack_replay]), of which each
    takes several steps, since it shares the files with the other workers.

    Two operations of the code are one step here where no other goroutine can
    tell: checking [inProgress], which is never reset, and the call of
    [acquireWriter] that follows, which holds the lock of its bucket.  [iter] is the
    order in which a Go map is iterated. *)

From S2P Require Import Prelude Bytes GoString Restic Crypto Pack Backend PackerManager Repository StreamPack Os FilesWriter.

#[local] Open Scope Z_scope.

Definition largeFileBlobCount : Z := 25.

Record fileBlobInfo := mkFileBlobInfo { fb_id : ID; fb_offset : Z }.

(** [fileInfo.blobs] is the list of blobs, or for large files the blobs of each
    pack. *)
Inductive fileBlobs :=
  | BlobIDs (ids : list ID)
  | PacksMap (m : gmap ID (list fileBlobInfo)).

Record fileInfo := mkFileInfo {
  fr_inProgress : bool;
  fr_sparse : bool;
  fr_size : Z;
  fr_location : string;
  fr_blobs : fileBlobs }.

(** Files are shared: they are their positions in the list. *)
Record packInfo := mkPackInfo { pi_id : ID; pi_files : gset nat }.

Record fileRestorer := mkFileRestorer { r_dst : string; r_sparse : bool; r_workerCount : nat; r_files : list fileInfo }.

Definition newFileRestorer (dst : string) (connections : nat) (sparse : bool) : fileRestorer := mkFileRestorer dst sparse connections [].

Definition addFile (r : fileRestorer) (location : string) (content : list ID) (size : Z) : fileRestorer :=
  mkFileRestorer (r_dst r) (r_sparse r) (r_workerCount r) (r_files r ++ [mkFileInfo false false size location (BlobIDs content)]).

Definition targetPath (r : fileRestorer) (location : string) : string := path_Join [r_dst r; location].

(** * Which packs to download *)

Record plan := mkPlan { pl_packs : gmap ID packInfo; pl_packOrder : list ID; pl_files : list fileInfo }.

(** The blobs of a pack, for each the files that contain it, for each the offsets. *)
Abbreviation blob_files := (gmap ID (gmap nat (list Z))).

Section Plan.
Context (idx : BlobHandle -> outcome (list PackedBlob)) (zeroChunk : ID) (iter : gset nat -> list nat).

Definition forEachBlob {S} (fn : S -> ID -> Blob -> S) (s : S) (blobIDs : list ID) : outcome S :=
  ofold (fun s blobID =>
    try packs <- idx (mkBlobHandle blobID DataBlob);
    match packs with
    | [] => Err (ErrMsg "Unknown blob %s")
    | p :: _ => Ok (fn s (pb_PackID p) (pb_Blob p))
    end) s blobIDs.

(** The callback of [restoreFiles] for the blobs of file [i]. *)
Record file_plan := mkFilePlan {
  fp_packsMap : gmap ID (list fileBlobInfo);
  fp_offset : Z;
  fp_packs : gmap ID packInfo;
  fp_packOrder : list ID;
  fp_sparse : bool }.

Definition plan_blob (sparse largeFile : bool) (i : nat) (st : file_plan) (packID : ID) (blob : Blob) : file_plan :=
  let '(mkFilePlan packsMap fileOffset packs packOrder file_sparse) := st in
  let '(packsMap, fileOffset) :=
    if largeFile then
      (<[packID := default [] (packsMap !! packID) ++ [mkFileBlobInfo (b_ID blob) fileOffset]]> packsMap, i64 (fileOffset + i64 (DataLength blob)))
    else (packsMap, fileOffset) in
  let '(pack, packOrder) :=
    match packs !! packID with
    | Some pack => (pack, packOrder)
    | None => (mkPackInfo packID ∅, packOrder ++ [packID])
    end in
  mkFilePlan packsMap fileOffset (<[packID := mkPackInfo (pi_id pack) ({[i]} ∪ pi_files pack)]> packs) packOrder
    (if ID_Equal (b_ID blob) zeroChunk then sparse else file_sparse).

Definition set_plan (f : fileInfo) (sparse : bool) (blobs : fileBlobs) : fileInfo :=
  mkFileInfo (fr_inProgress f) sparse (fr_size f) (fr_location f) blobs.

Definition plan_file (sparse : bool) (pl : plan) (i : nat) : outcome plan :=
  match pl_files pl !! i with
  | None => Ok pl
  | Some file =>
      match fr_blobs file with
      | PacksMap _ => Panic "interface conversion"
      | BlobIDs fileBlobs =>
          let largeFile := largeFileBlobCount <? zlen fileBlobs in
          try st <- forEachBlob (plan_blob sparse largeFile i) (mkFilePlan ∅ 0 (pl_packs pl) (pl_packOrder pl) (fr_sparse file)) fileBlobs;
          let file_sparse := if zlen fileBlobs =? 1 then sparse else fp_sparse st in
          let blobs := if largeFile then PacksMap (fp_packsMap st) else BlobIDs fileBlobs in
          Ok (mkPlan (fp_packs st) (fp_packOrder st) (<[i := set_plan file file_sparse blobs]> (pl_files pl)))
      end
  end.

Definition plan_files (r : fileRestorer) : outcome plan :=
  ofold (plan_file (r_sparse r)) (mkPlan ∅ [] (r_files r)) (seq 0 (length (r_files r))).

(** * What a pack is downloaded for *)


Definition addBlob (i : nat) (st : blob_files * list Blob) (blob : Blob) (fileOffset : Z) : blob_files * list Blob :=
  let '(blobs, blobList) := st in
  let '(files, blobList) := match blobs !! b_ID blob with Some files => (files, blobList) | None => (∅, blobList ++ [blob]) end in
  (<[b_ID blob := <[i := default [] (files !! i) ++ [fileOffset]]> files]> blobs, blobList).

Definition pack_blob (packID : ID) (i : nat) (st : blob_files * list Blob * Z) (id : ID) (blob : Blob) : blob_files * list Blob * Z :=
  let '(m, fileOffset) := st in
  (if ID_Equal id packID then addBlob i m blob fileOffset else m, i64 (fileOffset + i64 (DataLength blob))).

Definition large_blob (packID : ID) (i : nat) (st : blob_files * list Blob) (blob : fileBlobInfo) : outcome (blob_files * list Blob) :=
  try idxPacks <- idx (mkBlobHandle (fb_id blob) DataBlob);
  match find (fun p => ID_Equal (pb_PackID p) packID) idxPacks with
  | Some idxPack => Ok (addBlob i st (pb_Blob idxPack) (fb_offset blob))
  | None => Ok st
  end.

Definition pack_file (files : list fileInfo) (packID : ID) (st : blob_files * list Blob) (i : nat) : outcome (blob_files * list Blob) :=
  match files !! i with
  | None => Ok st
  | Some file =>
      match fr_blobs file with
      | BlobIDs fileBlobs =>
          match forEachBlob (pack_blob packID i) (st, 0) fileBlobs with
          | Ok (st, _) => Ok st
          | Err _ => Panic "Unknown blob %s"
          | Panic p => Panic p
          end
      | PacksMap packsMap => ofold (large_blob packID i) st (default [] (packsMap !! packID))
      end
  end.

Definition pack_mapping (files : list fileInfo) (pack : packInfo) : outcome (blob_files * list Blob) :=
  ofold (pack_file files (pi_id pack)) (∅, []) (iter (pi_files pack)).
End Plan.

(** * Downloading *)

(** The calls that write a blob or report an error, in their order. *)
Inductive action :=
  | Write (i : nat) (data : list byte) (offset : Z)
  | Report (i : nat) (e : error).

(** Where a worker is in [writeToFile]; [own]: it holds the lock of the file. *)
Inductive phase :=
  | Ready
  | Opened (own : bool) (wr : partialFile)
  | Written (own : bool) (err : option error).

Inductive worker :=
  | Waiting
  | Streaming (pack : packInfo) (todo : list action) (result : outcome unit) (ph : phase)
  | Failing (e : error) (todo : list nat)      (* the files of the pack, after [StreamPack] *)
  | Returned.

Inductive dispatcher :=
  | Sending (ids : list ID)
  | Closed
  | Stopped.

(** What the workers share; [s_errors] are the calls of [Error], and [s_group] is
    the first error of the group: when it is set, the context is cancelled. *)
Record shared := mkShared {
  s_files : list fileInfo;
  s_writer : filesWriter;
  s_os : os;
  s_locks : gset nat;
  s_errors : list (nat * error);
  s_group : outcome unit }.

Record world := mkWorld { w_shared : shared; w_workers : list worker; w_dispatch : dispatcher }.

Definition set_inProgress (f : fileInfo) : fileInfo := mkFileInfo true (fr_sparse f) (fr_size f) (fr_location f) (fr_blobs f).

Section Download.
Context (aes_Encrypt : list byte -> list byte -> list byte).
Context (poly1305_Verify : list byte -> list byte -> list byte -> bool).
Context (Hash : list byte -> ID) (zstd_DecodeAll : list byte -> outcome (list byte)).
Context (Sum64String : string -> Z).
Context (idx : BlobHandle -> outcome (list PackedBlob)) (iter : gset nat -> list nat).
Context (beLoad : Handle -> Z -> Z -> list (outcome (list byte))) (key : Key).
Context (Error : string -> error -> option error).
Context (r : fileRestorer).

Definition event_actions (blobs : blob_files) (ev : event) : list action :=
  let files := default ∅ (blobs !! bh_ID ev.1) in
  match ev.2 with
  | Ok blobData => concat ((fun i => Write i blobData <$> default [] (files !! i)) <$> iter (dom files))
  | Err e => (fun i => Report i e) <$> iter (dom files)
  | Panic _ => []
  end.

(** [downloadPack]: the calls of the callback, and how [StreamPack] ends. *)
Definition downloadPack (files : list fileInfo) (pack : packInfo) : outcome (list action * outcome unit) :=
  try (blobs, blobList) <- pack_mapping idx iter files pack;
  let '(events, err) := StreamPack aes_Encrypt poly1305_Verify Hash zstd_DecodeAll (load_attempts beLoad) key (pi_id pack) record_event [] blobList in
  Ok (concat (event_actions blobs <$> events), err).

Definition start_pack (files : list fileInfo) (pack : packInfo) : worker * outcome unit :=
  match downloadPack files pack with
  | Ok (todo, err) => (Streaming pack todo err Ready, Ok tt)
  | Err e => (Returned, Err e)
  | Panic p => (Returned, Panic p)
  end.

Definition fail (s : shared) (err : outcome unit) : shared :=
  mkShared (s_files s) (s_writer s) (s_os s) (s_locks s) (s_errors s) (match err, s_group s with Panic _, _ | _, Ok _ => err | _, g => g end).

(** [sanitizeError]. *)
Definition sanitizeError (s : shared) (i : nat) (e : error) : shared * option error :=
  (mkShared (s_files s) (s_writer s) (s_os s) (s_locks s) (s_errors s ++ [(i, e)]) (s_group s),
   match s_files s !! i with Some f => Error (fr_location f) e | None => None end).

Definition set_io (s : shared) (w : filesWriter) (o : os) : shared := mkShared (s_files s) w o (s_locks s) (s_errors s) (s_group s).
Definition lock_file (s : shared) (i : nat) : shared :=
  mkShared (alter set_inProgress i (s_files s)) (s_writer s) (s_os s) ({[i]} ∪ s_locks s) (s_errors s) (s_group s).
Definition unlock_file (own : bool) (i : nat) (s : shared) : shared :=
  if own then mkShared (s_files s) (s_writer s) (s_os s) (s_locks s ∖ {[i]}) (s_errors s) (s_group s) else s.

(** An error that the callback returns ends [StreamPack]. *)
Definition callback_error (pack : packInfo) (e : error) : worker := Failing (ErrWrap (Permanent e) "StreamPack") (iter (pi_files pack)).

(** A call of the callback ends; [err] is the result of [writeToFile] or the error
    it was passed. *)
Definition call_ends (s : shared) (pack : packInfo) (i : nat) (todo : list action) (result : outcome unit) (err : option error) : shared * worker :=
  match err with
  | None => (s, Streaming pack todo result Ready)
  | Some e =>
      let '(s, errFile) := sanitizeError s i e in
      (s, match errFile with None => Streaming pack todo result Ready | Some e => callback_error pack e end)
  end.

(** The first part of [writeToFile]. *)
Definition open_step (s : shared) (pack : packInfo) (i : nat) (rest : list action) (todo : list action) (result : outcome unit) : option (shared * worker) :=
  match s_files s !! i with
  | None => None
  | Some file =>
      if bool_decide (i ∈ s_locks s) then None else
      let own := negb (fr_inProgress file) in
      let s := if own then lock_file s i else s in
      let createSize := if own then fr_size file else -1 in
      let '(w, o, res) := acquireWriter Sum64String (targetPath r (fr_location file)) createSize (fr_sparse file) (s_writer s) (s_os s) in
      let s := set_io s w o in
      Some match res with
      | Ok wr => (s, Streaming pack todo result (Opened own wr))
      | Err e => call_ends (unlock_file own i s) pack i rest result (Some e)
      | Panic p => (fail s (Panic p), Returned)
      end
  end.

Definition release_step (s : shared) (pack : packInfo) (i : nat) (rest : list action) (result : outcome unit) (own : bool) (err : option error)
    : option (shared * worker) :=
  match s_files s !! i with
  | None => None
  | Some file =>
      let '(w, o, res) := releaseWriter Sum64String (targetPath r (fr_location file)) (s_writer s) (s_os s) in
      let s := unlock_file own i (set_io s w o) in
      Some match res with
      | Panic p => (fail s (Panic p), Returned)
      | Ok _ => call_ends s pack i rest result err
      | Err e => call_ends s pack i rest result (Some (default e err))
      end
  end.

Definition worker_step (s : shared) (wk : worker) : option (shared * worker) :=
  match wk with
  | Waiting | Returned => None
  | Streaming pack [] result _ =>
      Some match result with
      | Ok _ => (s, Waiting)
      | Err e => (s, Failing e (iter (pi_files pack)))
      | Panic p => (fail s (Panic p), Returned)
      end
  | Streaming pack (Report i e :: rest) result _ => Some (call_ends s pack i rest result (Some e))
  | Streaming pack (Write i blobData offset :: rest) result ph =>
      match ph with
      | Ready => open_step s pack i rest (Write i blobData offset :: rest) result
      | Opened own wr =>
          let '(o, (_, err)) := partialFile_WriteAt wr blobData offset (s_os s) in
          Some (set_io s (s_writer s) o, Streaming pack (Write i blobData offset :: rest) result (Written own err))
      | Written own err => release_step s pack i rest result own err
      end
  | Failing e [] => Some (s, Waiting)
  | Failing e (i :: rest) =>
      let '(s, errFile) := sanitizeError s i e in
      Some match errFile with None => (s, Failing e rest) | Some e => (fail s (Err e), Returned) end
  end.

Definition crashed (s : shared) : bool := match s_group s with Panic _ => true | _ => false end.

Inductive rstep (packs : gmap ID packInfo) : world -> world -> Prop :=
  | r_work s ws d k wk s' wk' :
      crashed s = false -> ws !! k = Some wk -> worker_step s wk = Some (s', wk') ->
      rstep packs (mkWorld s ws d) (mkWorld s' (<[k := wk']> ws) d)
  | r_send s ws id ids k pack :
      crashed s = false -> ws !! k = Some Waiting -> packs !! id = Some pack ->
      rstep packs (mkWorld s ws (Sending (id :: ids)))
        (mkWorld (fail s (start_pack (s_files s) pack).2) (<[k := (start_pack (s_files s) pack).1]> ws) (Sending ids))
  | r_close s ws :
      crashed s = false -> rstep packs (mkWorld s ws (Sending [])) (mkWorld s ws Closed)
  | r_stop s ws id ids :
      crashed s = false -> s_group s <> Ok tt -> rstep packs (mkWorld s ws (Sending (id :: ids))) (mkWorld s ws Stopped)
  | r_return s ws k :
      crashed s = false -> ws !! k = Some Waiting -> rstep packs (mkWorld s ws Closed) (mkWorld s (<[k := Returned]> ws) Closed).

Definition init_world (pl : plan) (o : os) : world :=
  mkWorld (mkShared (pl_files pl) (newFilesWriter (r_workerCount r)) o ∅ [] (Ok tt)) (replicate (r_workerCount r) Waiting) (Sending (pl_packOrder pl)).

(** [wg.Wait] returns. *)
Definition all_returned (w : world) : Prop :=
  crashed (w_shared w) = true \/ (Forall (fun wk => wk = Returned) (w_workers w) /\ (w_dispatch w = Closed \/ w_dispatch w = Stopped)).

(** [restoreFiles] on the file system [o]; [w] is the world it leaves. *)
Definition restoreFiles (zeroChunk : ID) (o : os) (w : world) (result : outcome unit) : Prop :=
  match plan_files idx zeroChunk r with
  | Ok pl => rtc (rstep (pl_packs pl)) (init_world pl o) w /\ all_returned w /\ result = s_group (w_shared w)
  | Err e => w = mkWorld (mkShared (r_files r) (newFilesWriter (r_workerCount r)) o ∅ [] (Err e)) [] Stopped /\ result = Err e
  | Panic p => w = mkWorld (mkShared (r_files r) (newFilesWriter (r_workerCount r)) o ∅ [] (Panic p)) [] Stopped /\ result = Panic p
  end.

Definition is_waiting (wk : worker) : bool := match wk with Waiting => true | _ => false end.

(** One schedule: the first worker that can go on, then the dispatcher. *)
Fixpoint first_step (s : shared) (k : nat) (ws : list worker) : option (shared * nat * worker) :=
  match ws with
  | [] => None
  | wk :: ws => match worker_step s wk with Some (s, wk) => Some (s, k, wk) | None => first_step s (S k) ws end
  end.

Definition rschedule (packs : gmap ID packInfo) (w : world) : option world :=
  let '(mkWorld s ws d) := w in
  if crashed s then None else
  match first_step s 0 ws with
  | Some (s, k, wk) => Some (mkWorld s (<[k := wk]> ws) d)
  | None =>
      match d, list_find (fun wk => is_waiting wk = true) ws with
      | Sending [], _ => Some (mkWorld s ws Closed)
      | Sending (id :: ids), Some (k, _) =>
          match packs !! id with
          | Some pack => Some (mkWorld (fail s (start_pack (s_files s) pack).2) (<[k := (start_pack (s_files s) pack).1]> ws) (Sending ids))
          | None => None
          end
      | Closed, Some (k, _) => Some (mkWorld s (<[k := Returned]> ws) Closed)
      | _, _ => None
      end
  end.

Fixpoint run_restore (packs : gmap ID packInfo) (fuel : nat) (w : world) : world :=
  match fuel with
  | O => w
  | S fuel => match rschedule packs w with Some w' => run_restore packs fuel w' | None => w end
  end.
End Download.
