(* ===== verification/RestoreFacts.v ===== *)
(** Correctness of restoring the contents of files: what the plan and the mapping
    of a pack hold, the invariant of the goroutines, and the content, progress and
    termination theorems of [restoreFiles]. *)

From S2P Require Import Prelude Bytes GoString Restic Index Crypto Pack Backend PackerManager Repository RepoFacts StreamPack Os FilesWriter FileRestorer.

#[local] Open Scope Z_scope.

Lemma default_Some {A} (d x : A) : default d (Some x) = x.
Proof. done. Qed.

Definition ids_of (f : fileInfo) : list ID := match fr_blobs f with BlobIDs ids => ids | PacksMap _ => [] end.

(** * The plan *)

Section Plan.
Context (idx : BlobHandle -> outcome (list PackedBlob)) (zeroChunk : ID).
Context (r : fileRestorer) (data : ID -> list byte).

Definition content_of (ids : list ID) : list byte := concat (data <$> ids).
Definition offset_of (ids : list ID) (k : nat) : Z := zlen (content_of (take k ids)).

(** The index has a blob, with the length of its content in every copy. *)
Definition blob_known (id : ID) : Prop :=
  exists pb rest, idx (mkBlobHandle id DataBlob) = Ok (pb :: rest) /\
    Forall (fun pb => b_handle (pb_Blob pb) = mkBlobHandle id DataBlob /\ DataLength (pb_Blob pb) = zlen (data id)) (pb :: rest).

(** The pack a blob is read from. *)
Definition home (id : ID) : ID := match idx (mkBlobHandle id DataBlob) with Ok (pb :: _) => pb_PackID pb | _ => nullID end.

Record files_ok : Prop := {
  fo_fresh : forall i f, r_files r !! i = Some f -> fr_inProgress f = false /\ fr_blobs f = BlobIDs (ids_of f) /\ ids_of f <> [];
  fo_size : forall i f, r_files r !! i = Some f -> fr_size f = zlen (content_of (ids_of f)) /\ fr_size f < 2 ^ 63;
  fo_known : forall i f id, r_files r !! i = Some f -> id ∈ ids_of f -> blob_known id }.

Context (HF : files_ok).

(** A blob at its place in a file. *)
Definition piece (i : nat) (off : Z) (id : ID) : Prop :=
  exists f k, r_files r !! i = Some f /\ ids_of f !! k = Some id /\ off = offset_of (ids_of f) k.

Lemma offset_of_S ids k id : ids !! k = Some id -> offset_of ids (S k) = offset_of ids k + zlen (data id).
Proof. intros Hk. unfold offset_of, content_of. rewrite (take_S_r _ _ _ Hk), fmap_app, concat_app, zlen_app. cbn. by rewrite app_nil_r. Qed.

Lemma offset_of_le ids k : offset_of ids k <= zlen (content_of ids).
Proof.
  unfold offset_of, content_of. rewrite <- (take_drop k ids) at 2. rewrite fmap_app, concat_app, zlen_app.
  pose proof (zlen_nonneg (concat (data <$> drop k ids))). lia.
Qed.

Lemma offset_bounds i f k id :
  r_files r !! i = Some f -> ids_of f !! k = Some id ->
  0 <= offset_of (ids_of f) k /\ offset_of (ids_of f) k + zlen (data id) <= zlen (content_of (ids_of f)) < 2 ^ 63.
Proof using HF.
  intros Hf Hk. pose proof (fo_size HF i f Hf) as [Hs Hm]. pose proof (offset_of_le (ids_of f) (S k)) as Hle.
  rewrite (offset_of_S _ _ _ Hk) in Hle. pose proof (zlen_nonneg (content_of (take k (ids_of f)))). unfold offset_of in *. lia.
Qed.

(** Adding the lengths of the index does not overflow. *)
Lemma offset_step i f k id pb :
  r_files r !! i = Some f -> ids_of f !! k = Some id -> DataLength (pb_Blob pb) = zlen (data id) ->
  i64 (offset_of (ids_of f) k + i64 (DataLength (pb_Blob pb))) = offset_of (ids_of f) (S k).
Proof using HF.
  intros Hf Hk Hl. destruct (offset_bounds i f k id Hf Hk) as [H0 H1]. pose proof (zlen_nonneg (data id)).
  rewrite Hl. rewrite (i64_id (zlen (data id))) by (unfold is_i64; lia). rewrite i64_id by (unfold is_i64; lia). symmetry. by apply offset_of_S.
Qed.

(** The loop of [forEachBlob] over the blobs of a file; [P k] holds after [k] of
    them. *)
Lemma forEachBlob_inv {S} (fn : S -> ID -> Blob -> S) s i f (P : nat -> S -> Prop) :
  r_files r !! i = Some f -> P 0%nat s ->
  (forall k s id pb, ids_of f !! k = Some id -> pb_PackID pb = home id -> b_handle (pb_Blob pb) = mkBlobHandle id DataBlob ->
     DataLength (pb_Blob pb) = zlen (data id) -> P k s -> P (k + 1)%nat (fn s (pb_PackID pb) (pb_Blob pb))) ->
  exists s', forEachBlob idx fn s (ids_of f) = Ok s' /\ P (length (ids_of f)) s'.
Proof using HF.
  intros Hf H0 Hstep. unfold forEachBlob.
  destruct (ofold_step (fun l s => P (length l) s) (fun s blobID => try packs <- idx (mkBlobHandle blobID DataBlob);
    match packs with [] => Err (ErrMsg "Unknown blob %s") | p :: _ => Ok (fn s (pb_PackID p) (pb_Blob p)) end) s (ids_of f)) as (s' & E & HP).
  - exact H0.
  - intros l1 id l2 s1 El HP. assert (ids_of f !! length l1 = Some id) as Hk by (rewrite El; by apply list_lookup_middle).
    destruct (fo_known HF i f id Hf) as (pb & rest & Ei & Hall); [by apply list_elem_of_lookup_2 in Hk|].
    apply Forall_cons in Hall as [[Hh Hl] _]. rewrite Ei. cbn [mbind outcome_bind]. eexists. split; [done|].
    rewrite length_app. apply (Hstep _ _ id pb); try done. unfold home. by rewrite Ei.
  - by exists s'.
Qed.

(** The entries of a large file. *)
Definition packs_map_ok (ids : list ID) (m : gmap ID (list fileBlobInfo)) (n : nat) : Prop :=
  (forall pk e, e ∈ default [] (m !! pk) -> exists k, ids !! k = Some (fb_id e) /\ fb_offset e = offset_of ids k /\ home (fb_id e) = pk) /\
  (forall k id, (k < n)%nat -> ids !! k = Some id -> mkFileBlobInfo id (offset_of ids k) ∈ default [] (m !! home id)).

Definition blobs_planned (f : fileInfo) (blobs : fileBlobs) : Prop :=
  match blobs with
  | BlobIDs ids => ids = ids_of f
  | PacksMap m => packs_map_ok (ids_of f) m (length (ids_of f))
  end.

(** The packs known after a part of the loop, with the file [i] in those of the
    first [n] blobs. *)
Definition packs_ok (packs : gmap ID packInfo) (order : list ID) : Prop :=
  (forall pk, is_Some (packs !! pk) <-> pk ∈ order) /\ forall pk pack, packs !! pk = Some pack -> pi_id pack = pk.
Definition in_packs (packs : gmap ID packInfo) (i : nat) (ids : list ID) : Prop :=
  forall id, id ∈ ids -> exists pack, packs !! home id = Some pack /\ i ∈ pi_files pack.
Definition packs_grow (packs packs' : gmap ID packInfo) : Prop :=
  forall pk pack, packs !! pk = Some pack -> exists pack', packs' !! pk = Some pack' /\ pi_files pack ⊆ pi_files pack'.

Lemma in_packs_grow packs packs' i ids : packs_grow packs packs' -> in_packs packs i ids -> in_packs packs' i ids.
Proof. clear HF data r. intros Hg Hin id Hid. destruct (Hin id Hid) as (pack & E & Hi). destruct (Hg _ _ E) as (pack' & E' & Hsub). exists pack'. split; [done|set_solver]. Qed.

Record file_plan_ok (packs0 : gmap ID packInfo) (f : fileInfo) (large : bool) (i k : nat) (st : file_plan) : Prop := {
  fpo_offset : large = true -> fp_offset st = offset_of (ids_of f) k;
  fpo_map : large = true -> packs_map_ok (ids_of f) (fp_packsMap st) k;
  fpo_packs : packs_ok (fp_packs st) (fp_packOrder st);
  fpo_in : in_packs (fp_packs st) i (take k (ids_of f));
  fpo_grow : packs_grow packs0 (fp_packs st) }.

Lemma plan_blob_ok packs0 f sparse large i k st id pb :
  r_files r !! i = Some f -> ids_of f !! k = Some id -> pb_PackID pb = home id -> b_handle (pb_Blob pb) = mkBlobHandle id DataBlob ->
  DataLength (pb_Blob pb) = zlen (data id) -> file_plan_ok packs0 f large i k st ->
  file_plan_ok packs0 f large i (k + 1) (plan_blob zeroChunk sparse large i st (pb_PackID pb) (pb_Blob pb)).
Proof using HF.
  intros Hf Hk Hp Hh Hl [Ho Hm Hpk Hin Hg]. destruct st as [m off packs order sp]. cbn [fp_offset fp_packsMap fp_packs fp_packOrder] in *.
  assert (b_ID (pb_Blob pb) = id) as Hid by (unfold b_ID; by rewrite Hh). rewrite Nat.add_1_r. unfold plan_blob. rewrite Hid, Hp.
  set (mo := if large then _ else _). destruct mo as [m' off'] eqn:Emo. subst mo.
  set (pk0 := match packs !! home id with Some pack => _ | None => _ end). destruct pk0 as [pack order'] eqn:Epk. subst pk0.
  assert (packs_ok (<[home id := mkPackInfo (pi_id pack) ({[i]} ∪ pi_files pack)]> packs) order' /\
    (forall p, packs !! home id = Some p -> p = pack)) as [Hpk' Hold].
  { destruct Hpk as [Hd Hid']. destruct (packs !! home id) as [p|] eqn:E; injection Epk as <- <-.
    - split; [|congruence]. split.
      + intros pk. destruct (decide (pk = home id)) as [->|Hne]; [rewrite lookup_insert_eq, <- Hd, E|by rewrite lookup_insert_ne]. split; intros _; by eexists.
      + intros pk q. destruct (decide (pk = home id)) as [->|Hne]; [rewrite lookup_insert_eq; intros [= <-]; cbn; by apply Hid'|rewrite lookup_insert_ne by done; apply Hid'].
    - split; [|done]. split.
      + intros pk. rewrite elem_of_app, list_elem_of_singleton, <- Hd.
        destruct (decide (pk = home id)) as [->|Hne]; [rewrite lookup_insert_eq; split; [by right|intros _; by eexists]|rewrite lookup_insert_ne by done; split; [by left|by intros [?|?]]].
      + intros pk q. destruct (decide (pk = home id)) as [->|Hne]; [by rewrite lookup_insert_eq; intros [= <-]|rewrite lookup_insert_ne by done; apply Hid']. }
  assert (packs_grow packs (<[home id := mkPackInfo (pi_id pack) ({[i]} ∪ pi_files pack)]> packs)) as Hgrow.
  { intros pk q Hq. destruct (decide (pk = home id)) as [->|Hne].
    - rewrite lookup_insert_eq. eexists. split; [done|]. apply Hold in Hq as ->. cbn. set_solver.
    - rewrite lookup_insert_ne by done. by exists q. }
  split; cbn [fp_offset fp_packsMap fp_packs fp_packOrder].
  - intros ->. injection Emo as _ <-. rewrite Ho by done. by apply (offset_step i f k id).
  - intros ->. injection Emo as <- _. rewrite Ho by done. destruct (Hm eq_refl) as [H1 H2]. split.
    + intros pk e. destruct (decide (pk = home id)) as [->|Hne]; [|rewrite lookup_insert_ne by done; apply H1].
      rewrite lookup_insert_eq. rewrite default_Some. rewrite elem_of_app, list_elem_of_singleton. intros [He| ->]; [by apply H1|].
      exists k. by split_and!.
    + intros k' id' Hk' Hid'. destruct (decide (home id' = home id)) as [E|Hne].
      * rewrite E, lookup_insert_eq. rewrite default_Some. rewrite elem_of_app, list_elem_of_singleton.
        destruct (decide (k' = k)) as [->|]; [right; congruence|left]. rewrite <- E. apply H2; [lia|done].
      * rewrite lookup_insert_ne by done. apply H2; [|done]. destruct (decide (k' = k)) as [->|]; [congruence|lia].
  - done.
  - intros id'. rewrite (take_S_r _ _ _ Hk), elem_of_app, list_elem_of_singleton. intros [Hid'| ->].
    + by apply (in_packs_grow packs _ i (take k (ids_of f))).
    + rewrite lookup_insert_eq. eexists. split; [done|]. cbn. set_solver.
  - intros pk q Hq. destruct (Hg _ _ Hq) as (q' & E' & Hsub). destruct (Hgrow _ _ E') as (q2 & E2 & Hsub2). exists q2. split; [done|set_solver].
Qed.

(** The whole plan: every file knows its blobs, and is in the packs they are read
    from. *)
Record plan_ok (n : nat) (pl : plan) : Prop := {
  pk_files : forall i f, r_files r !! i = Some f -> exists f', pl_files pl !! i = Some f' /\
    fr_inProgress f' = false /\ fr_size f' = fr_size f /\ fr_location f' = fr_location f /\
    (if decide (i < n)%nat then blobs_planned f (fr_blobs f') else f' = f);
  pk_length : length (pl_files pl) = length (r_files r);
  pk_packs : packs_ok (pl_packs pl) (pl_packOrder pl);
  pk_in : forall i f, (i < n)%nat -> r_files r !! i = Some f -> in_packs (pl_packs pl) i (ids_of f) }.

Lemma plan_file_ok sparse pl i :
  (i < length (r_files r))%nat -> plan_ok i pl -> exists pl', plan_file idx zeroChunk sparse pl i = Ok pl' /\ plan_ok (S i) pl'.
Proof using HF.
  intros Hi [Hfi Hlen Hpk Hin]. destruct (lookup_lt_is_Some_2 _ _ Hi) as [f Hf].
  destruct (Hfi i f Hf) as (f' & Ef' & _ & _ & _ & Hb). rewrite decide_False in Hb by lia. subst f'.
  destruct (fo_fresh HF i f Hf) as (Hprog & Hids & _). unfold plan_file. rewrite Ef', Hids.
  set (large := largeFileBlobCount <? zlen (ids_of f)).
  destruct (forEachBlob_inv (plan_blob zeroChunk sparse large i) (mkFilePlan ∅ 0 (pl_packs pl) (pl_packOrder pl) (fr_sparse f)) i f
    (file_plan_ok (pl_packs pl) f large i)) as (st & -> & [Ho Hm Hpk' Hin' Hg]); [done|..].
  { split; cbn [fp_offset fp_packsMap fp_packs fp_packOrder]; try done.
    - intros _. split; [|intros; lia]. intros pk e. rewrite lookup_empty. by intros ?%elem_of_nil.
    - by intros id ?%elem_of_nil.
    - intros pk p Hp. by exists p. }
  { intros k s1 id pb Hk Hp Hh Hl Hs. by apply (plan_blob_ok _ f _ _ i k s1 id pb). }
  cbn [mbind outcome_bind]. eexists. split; [done|]. rewrite firstn_all in Hin'.
  assert (forall j g, (j < S i)%nat -> r_files r !! j = Some g -> in_packs (fp_packs st) j (ids_of g)) as Hall.
  { intros j g Hj Hgj. destruct (decide (j = i)) as [->|]; [rewrite Hf in Hgj; by injection Hgj as <-|]. apply (in_packs_grow (pl_packs pl)); [done|]. apply Hin; [lia|done]. }
  split; cbn [pl_files pl_packs pl_packOrder]; [|by rewrite length_insert|done|done].
  intros j g Hgj. destruct (decide (j = i)) as [->|Hne].
  - rewrite Hf in Hgj. injection Hgj as <-. rewrite list_lookup_insert_eq by lia. eexists. split; [done|]. cbn. split_and!; try done.
    rewrite decide_True by lia. destruct large; cbn; [by apply Hm|done].
  - rewrite list_lookup_insert_ne by done. destruct (Hfi j g Hgj) as (g' & Eg' & H1 & H2 & H3 & H4). exists g'. split_and!; try done.
    destruct (decide (j < i)%nat); [rewrite decide_True by lia|rewrite decide_False by lia]; done.
Qed.

Lemma plan_files_ok : exists pl, plan_files idx zeroChunk r = Ok pl /\ plan_ok (length (r_files r)) pl.
Proof using HF.
  unfold plan_files. destruct (ofold_step (fun l pl => plan_ok (length l) pl) (plan_file idx zeroChunk (r_sparse r))
    (mkPlan ∅ [] (r_files r)) (seq 0 (length (r_files r)))) as (pl & E & HP).
  - split; cbn; try done; [| |intros i f Hi; lia].
    + intros i f Hf. exists f. split_and!; try done. by apply (fo_fresh HF i f).
    + split; [|by intros]. intros pk. rewrite lookup_empty. split; [by intros [? [=]]|by intros ?%elem_of_nil].
  - intros l1 i l2 pl El HP. assert (i = length l1 /\ (i < length (r_files r))%nat) as [-> Hlt].
    { assert (seq 0 (length (r_files r)) !! length l1 = Some i) as Hl by (rewrite El; by apply list_lookup_middle).
      apply lookup_seq in Hl. lia. }
    destruct (plan_file_ok (r_sparse r) pl _ Hlt HP) as (pl' & E & HP'). exists pl'. split; [done|]. by rewrite length_app, Nat.add_1_r.
  - exists pl. by rewrite length_seq in HP.
Qed.

(** * The mapping of a pack *)

(** The file [i] has the blob at an offset. *)
Definition mapped (m : blob_files) (i : nat) (off : Z) (id : ID) : Prop := exists files, m !! id = Some files /\ off ∈ default [] (files !! i).

Definition listed (st : blob_files * list Blob) : Prop :=
  forall id, is_Some (st.1 !! id) -> exists b, b ∈ st.2 /\ b_handle b = mkBlobHandle id DataBlob.

Lemma addBlob_mapped i st b off i' off' id' :
  mapped (addBlob i st b off).1 i' off' id' <-> mapped st.1 i' off' id' \/ (i' = i /\ off' = off /\ id' = b_ID b).
Proof.
  destruct st as [m l]. unfold addBlob, mapped. cbn [fst].
  set (p := match m !! b_ID b with Some files => _ | None => _ end).
  assert (exists files l', p = (files, l') /\ files = default ∅ (m !! b_ID b)) as (files & l' & -> & ->).
  { subst p. destruct (m !! b_ID b); by do 2 eexists. }
  cbn [fst]. destruct (decide (id' = b_ID b)) as [->|Hid]; [|rewrite lookup_insert_ne by done; naive_solver].
  rewrite lookup_insert_eq. destruct (decide (i' = i)) as [->|Hi].
  - split.
    + intros (files & [= <-] & Ho). rewrite lookup_insert_eq, default_Some, elem_of_app, list_elem_of_singleton in Ho.
      destruct Ho as [Ho| ->]; [left|by right]. destruct (m !! b_ID b) as [fs|] eqn:E; cbn in Ho; [by exists fs|rewrite lookup_empty in Ho; by apply elem_of_nil in Ho].
    + intros H. eexists. split; [done|]. rewrite lookup_insert_eq, default_Some, elem_of_app, list_elem_of_singleton.
      destruct H as [(fs & E & Ho)|(_ & -> & _)]; [left; by rewrite E|by right].
  - split.
    + intros (files & [= <-] & Ho). rewrite lookup_insert_ne in Ho by done. left.
      destruct (m !! b_ID b) as [fs|] eqn:E; cbn in Ho; [by exists fs|rewrite lookup_empty in Ho; by apply elem_of_nil in Ho].
    + intros [(fs & E & Ho)|(-> & _)]; [|done]. eexists. split; [done|]. rewrite lookup_insert_ne by done. by rewrite E.
Qed.

Lemma addBlob_listed i st b off : b_handle b = mkBlobHandle (b_ID b) DataBlob -> listed st -> listed (addBlob i st b off).
Proof.
  intros Hb Hl id. destruct st as [m l]. unfold addBlob.
  assert (forall files (l' : list Blob), (forall x, x ∈ l -> x ∈ l') -> (exists b', b' ∈ l' /\ b_handle b' = mkBlobHandle (b_ID b) DataBlob) ->
    is_Some (<[b_ID b := files]> m !! id) -> exists b0, b0 ∈ l' /\ b_handle b0 = mkBlobHandle id DataBlob) as Hg.
  { intros files l' Hsub Hb' Hs. destruct (decide (id = b_ID b)) as [->|Hne]; [done|]. rewrite lookup_insert_ne in Hs by done.
    destruct (Hl id Hs) as (b0 & Hb0 & Eb0). exists b0. split; [by apply Hsub|done]. }
  destruct (m !! b_ID b) as [files|] eqn:E; cbn [fst snd].
  - apply Hg; [done|]. apply Hl. by exists files.
  - apply Hg; [intros x Hx; apply elem_of_app; by left|]. exists b. split; [|done]. apply elem_of_app. right. by left.
Qed.

Definition sound (m : blob_files) : Prop := forall i off id, mapped m i off id -> piece i off id.
Definition mapped_more (m m' : blob_files) : Prop := forall i off id, mapped m i off id -> mapped m' i off id.

(** The blobs that were at hand and those of the first [n] of the file that are in
    the pack. *)
Definition mapping_ok (packID : ID) (m0 : blob_files) (i : nat) (ids : list ID) (n : nat) (st : blob_files * list Blob) : Prop :=
  sound st.1 /\ listed st /\ mapped_more m0 st.1 /\
  forall k id, (k < n)%nat -> ids !! k = Some id -> home id = packID -> mapped st.1 i (offset_of ids k) id.

Lemma addBlob_ok m0 i f st b k id :
  r_files r !! i = Some f -> ids_of f !! k = Some id -> b_handle b = mkBlobHandle id DataBlob ->
  sound st.1 /\ listed st /\ mapped_more m0 st.1 ->
  let st' := addBlob i st b (offset_of (ids_of f) k) in
  (sound st'.1 /\ listed st' /\ mapped_more m0 st'.1) /\ mapped_more st.1 st'.1 /\ mapped st'.1 i (offset_of (ids_of f) k) id.
Proof.
  intros Hf Hk Hh (Hs & Hl & Hm) st'. assert (b_ID b = id) as Hid by (unfold b_ID; by rewrite Hh).
  assert (mapped_more st.1 st'.1) as Hmore by (intros i' o' id' H'; apply addBlob_mapped; by left).
  split_and!; [| |by intros i' o' id' H'%Hm%Hmore|done|].
  - intros i' o' id' [H'|(-> & -> & ->)]%addBlob_mapped; [by apply Hs|]. exists f, k. by rewrite Hid.
  - apply addBlob_listed; [by rewrite Hid|done].
  - apply addBlob_mapped. right. by rewrite Hid.
Qed.

Lemma pack_file_ok files packID st i f f' :
  r_files r !! i = Some f -> files !! i = Some f' -> blobs_planned f (fr_blobs f') -> sound st.1 -> listed st ->
  exists st', pack_file idx files packID st i = Ok st' /\ mapping_ok packID st.1 i (ids_of f) (length (ids_of f)) st'.
Proof using HF.
  intros Hf Hf' Hb Hs Hl. unfold pack_file. rewrite Hf'. unfold blobs_planned in Hb. destruct (fr_blobs f') as [ids|m].
  - subst ids. destruct (forEachBlob_inv (pack_blob packID i) (st, 0) i f (fun k s => s.2 = offset_of (ids_of f) k /\ mapping_ok packID st.1 i (ids_of f) k s.1))
      as ([st' off] & -> & _ & Hok); [done| | |by exists st'].
    { split; [done|]. split_and!; [done|done|by intros i' o' id'|intros; lia]. }
    intros k [s1 off] id pb Hk Hp Hh Hlen [Ho (H1 & H2 & H3 & H4)]. cbn [fst snd] in *. subst off. unfold pack_blob.
    split; [cbn [snd]; rewrite Nat.add_1_r; by apply (offset_step i f k id)|]. cbn [fst].
    assert (b_ID (pb_Blob pb) = id) as Hid by (unfold b_ID; by rewrite Hh).
    destruct (ID_Equal (pb_PackID pb) packID) eqn:Eq.
    + destruct (addBlob_ok st.1 i f s1 (pb_Blob pb) k id Hf Hk Hh (conj H1 (conj H2 H3))) as ((A1 & A2 & A3) & Am & Ai).
      split_and!; [done..|]. intros k' id' Hk' Hid' Hhome. destruct (decide (k' = k)) as [->|]; [|apply Am, H4; [lia|done..]].
      rewrite Hk in Hid'. by injection Hid' as <-.
    + split_and!; [done..|]. intros k' id' Hk' Hid' Hhome. destruct (decide (k' = k)) as [->|]; [|apply H4; [lia|done..]].
      exfalso. rewrite Hk in Hid'. injection Hid' as <-. rewrite Hp, Hhome in Eq. by rewrite (proj2 (ID_Equal_spec packID packID) eq_refl) in Eq.
  - destruct Hb as [Hsnd Hcmp].
    destruct (ofold_step (fun l s => (sound s.1 /\ listed s /\ mapped_more st.1 s.1) /\
        forall e, e ∈ l -> home (fb_id e) = packID -> mapped s.1 i (fb_offset e) (fb_id e))
      (large_blob idx packID i) st (default [] (m !! packID))) as (st' & -> & (H1 & H2 & H3) & H4).
    { split; [split_and!; [done|done|by intros i' o' id']|]. by intros e ?%elem_of_nil. }
    { intros l1 e l2 s1 El [H123 H4]. destruct (Hsnd packID e) as (k & Hk & Ho & Hhome); [rewrite El; set_solver|].
      destruct (fo_known HF i f (fb_id e) Hf) as (pb & rest & Ei & Hall); [by apply list_elem_of_lookup_2 in Hk|].
      unfold large_blob. rewrite Ei. cbn [mbind outcome_bind].
      assert (ID_Equal (pb_PackID pb) packID = true) as Eq.
      { apply ID_Equal_spec. rewrite <- Hhome. unfold home. by rewrite Ei. }
      cbn [find]. rewrite Eq. eexists. split; [done|]. apply Forall_cons in Hall as [[Hh _] _].
      destruct (addBlob_ok st.1 i f s1 (pb_Blob pb) k (fb_id e) Hf Hk Hh H123) as (A & Am & Ai).
      rewrite Ho. split; [done|]. intros e' [He'|He'%list_elem_of_singleton]%elem_of_app Hh'; [by apply Am, H4|]. subst e'. by rewrite Ho. }
    exists st'. split; [done|]. split_and!; try done. intros k id Hk Hid Hhome.
    specialize (H4 _ ltac:(rewrite <- Hhome; by apply Hcmp) Hhome). exact H4.
Qed.
End Plan.

Section Actions.
Context (aes_Encrypt : list byte -> list byte -> list byte).
Context (poly1305_Verify : list byte -> list byte -> list byte -> bool).
Context (Hash : list byte -> ID) (zstd_DecodeAll : list byte -> outcome (list byte)).
Context (idx : BlobHandle -> outcome (list PackedBlob)) (iter : gset nat -> list nat).
Context (beLoad : Handle -> Z -> Z -> list (outcome (list byte))) (key : Key).
Context (r : fileRestorer) (data : ID -> list byte).
Context (Hiter : forall s, iter s ≡ₚ elements s) (HF : files_ok idx r data).

Abbreviation home := (home idx).
Abbreviation piece := (piece r data).
Abbreviation mapping := (pack_mapping idx iter).
Abbreviation download := (downloadPack aes_Encrypt poly1305_Verify Hash zstd_DecodeAll idx iter beLoad key).
Abbreviation events_of id := (StreamPack aes_Encrypt poly1305_Verify Hash zstd_DecodeAll (load_attempts beLoad) key id record_event []).

(** The plan's files, as far as the mapping looks at them. *)
Definition planned (files : list fileInfo) : Prop :=
  forall i f, r_files r !! i = Some f -> exists f', files !! i = Some f' /\ blobs_planned idx data f (fr_blobs f').

Lemma elem_of_iter i s : i ∈ iter s <-> i ∈ s.
Proof using Hiter. rewrite Hiter. apply elem_of_elements. Qed.

Lemma pack_mapping_ok files pack :
  planned files -> length files = length (r_files r) ->
  exists st, mapping files pack = Ok st /\ sound r data st.1 /\ listed st /\
    forall i f k id, r_files r !! i = Some f -> i ∈ pi_files pack -> ids_of f !! k = Some id -> home id = pi_id pack ->
      mapped st.1 i (offset_of data (ids_of f) k) id.
Proof using HF Hiter.
  intros Hp Hlen. unfold pack_mapping.
  destruct (ofold_step (fun l st => sound r data st.1 /\ listed st /\
      forall i f k id, r_files r !! i = Some f -> i ∈ l -> ids_of f !! k = Some id -> home id = pi_id pack -> mapped st.1 i (offset_of data (ids_of f) k) id)
    (pack_file idx files (pi_id pack)) ((∅ : blob_files), []) (iter (pi_files pack))) as (st & E & H1 & H2 & H3).
  - split_and!; [| |by intros i f k id _ ?%elem_of_nil].
    + intros i off id (m & Hm & _). cbn in Hm. by rewrite lookup_empty in Hm.
    + intros id [x Hx]. cbn in Hx. by rewrite lookup_empty in Hx.
  - intros l1 i l2 st El (H1 & H2 & H3). destruct (r_files r !! i) as [f|] eqn:Hf.
    + destruct (Hp i f Hf) as (f' & Hf' & Hb).
      destruct (pack_file_ok idx r data HF files (pi_id pack) st i f f' Hf Hf' Hb H1 H2) as (st' & E & A1 & A2 & A3 & A4).
      exists st'. split; [done|]. split_and!; [done..|]. intros j g k id Hg [Hj|Hj%list_elem_of_singleton]%elem_of_app Hk Hh.
      * apply A3. by apply H3.
      * subst j. rewrite Hf in Hg. injection Hg as <-. apply A4; [by apply lookup_lt_Some in Hk|done..].
    + exists st. split.
      * unfold pack_file. apply lookup_ge_None in Hf. by rewrite lookup_ge_None_2 by lia.
      * split_and!; [done..|]. intros j g k id Hg [Hj|Hj%list_elem_of_singleton]%elem_of_app Hk Hh; [by apply H3|]. subst j. congruence.
  - exists st. split_and!; [done..|]. intros i f k id Hf Hi. apply H3; [done|]. by apply elem_of_iter.
Qed.

(** The mapping does not depend on which files are in progress. *)
Lemma pack_mapping_ext files files' pack : fr_blobs <$> files = fr_blobs <$> files' -> mapping files pack = mapping files' pack.
Proof.
  intros E. unfold pack_mapping. apply ofold_ext. intros st i _. unfold pack_file.
  assert (fr_blobs <$> (files !! i) = fr_blobs <$> (files' !! i)) as Ei by by rewrite <- !list_lookup_fmap, E.
  destruct (files !! i) as [f|], (files' !! i) as [f'|]; cbn in Ei; [|done..]. by injection Ei as ->.
Qed.

(** A content that [StreamPack] hands over for one of the packs. *)
Definition handed (files : list fileInfo) (packs : gmap ID packInfo) (id : ID) (d : list byte) : Prop :=
  exists pk pack m blobList h, packs !! pk = Some pack /\ mapping files pack = Ok (m, blobList) /\
    bh_ID h = id /\ (h, Ok d) ∈ (events_of (pi_id pack) blobList).1.

Lemma elem_of_event_actions m ev a :
  a ∈ event_actions iter m ev <->
    match ev.2 with
    | Ok d => exists i off, a = Write i d off /\ mapped m i off (bh_ID ev.1)
    | Err e => exists i files, a = Report i e /\ m !! bh_ID ev.1 = Some files /\ is_Some (files !! i)
    | Panic _ => False
    end.
Proof using Hiter.
  unfold event_actions, mapped. destruct ev as [h [d|e|p]]; cbn [fst snd].
  - rewrite elem_of_concat_fmap. setoid_rewrite elem_of_iter. setoid_rewrite elem_of_dom. split.
    + intros (i & Hi & (off & -> & Ho)%list_elem_of_fmap). exists i, off. split; [done|].
      destruct (m !! bh_ID h) as [fs|]; [by exists fs|]. cbn in Hi. rewrite lookup_empty in Hi. by destruct Hi.
    + intros (i & off & -> & fs & E & Ho). exists i. rewrite E. cbn. split.
      * destruct (fs !! i); [by eexists|by apply elem_of_nil in Ho].
      * apply list_elem_of_fmap. by exists off.
  - rewrite list_elem_of_fmap. setoid_rewrite elem_of_iter. setoid_rewrite elem_of_dom. split.
    + intros (i & -> & Hi). destruct (m !! bh_ID h) as [fs|]; [by exists i, fs|]. cbn in Hi. rewrite lookup_empty in Hi. by destruct Hi.
    + intros (i & fs & -> & E & Hi). exists i. by rewrite E.
  - split; [by intros ?%elem_of_nil|done].
Qed.

(** The calls for a pack write blobs at their places, and when [StreamPack] ends
    without an error, every blob that is read from the pack. *)
Lemma downloadPack_ok files0 files packs pk pack :
  planned files0 -> length files0 = length (r_files r) -> fr_blobs <$> files = fr_blobs <$> files0 -> packs !! pk = Some pack ->
  (forall id d, handed files0 packs id d -> Hash d = id -> d = data id) ->
  exists todo err, download files pack = Ok (todo, err) /\
    (forall i d off, Write i d off ∈ todo -> exists id, piece i off id /\ d = data id) /\
    (err = Ok tt -> forall i f k id, r_files r !! i = Some f -> i ∈ pi_files pack -> ids_of f !! k = Some id -> home id = pi_id pack ->
       Write i (data id) (offset_of data (ids_of f) k) ∈ todo \/ exists e, Report i e ∈ todo).
Proof using HF Hiter.
  intros Hp Hlen Efiles Hpk Hcoll. unfold downloadPack. rewrite (pack_mapping_ext files files0) by done.
  destruct (pack_mapping_ok files0 pack Hp Hlen) as ([m blobList] & Em & Hs & Hl & Hc). rewrite Em. cbn [mbind outcome_bind fst].
  destruct (events_of (pi_id pack) blobList) as [events err] eqn:Ee.
  pose proof (events_verified _ _ _ _ _ _ _ _ _ _ Ee) as Hv. rewrite Forall_forall in Hv.
  assert (forall h d, (h, Ok d) ∈ events -> d = data (bh_ID h)) as Hdata.
  { intros h d Hev. apply Hcoll.
    - exists pk, pack, m, blobList, h. rewrite Ee. done.
    - by apply (Hv (h, Ok d) Hev). }
  eexists _, _. split; [done|]. split.
  - intros i d off (ev & Hev & Ha%elem_of_event_actions)%elem_of_concat_fmap. destruct ev as [h [d'|e|p]]; cbn [fst snd] in Ha.
    + destruct Ha as (i' & off' & [= -> -> ->] & Hmap). exists (bh_ID h). split; [by apply Hs|]. by apply Hdata.
    + by destruct Ha as (? & ? & [=] & _).
    + done.
  - intros -> i f k id Hf Hi Hk Hh. specialize (Hc i f k id Hf Hi Hk Hh). pose proof Hc as (fs & Efs & Ho).
    destruct (Hl id) as (b & Hb & Eb); [by exists fs|]. destruct (events_complete _ _ _ _ _ _ _ _ _ Ee b Hb) as (o & Hev). rewrite Eb in Hev.
    setoid_rewrite elem_of_concat_fmap. destruct o as [d|e|p].
    + left. exists (mkBlobHandle id DataBlob, Ok d). split; [done|]. apply elem_of_event_actions. cbn [fst snd bh_ID]. eexists i, _.
      split; [|exact Hc]. by rewrite (Hdata _ _ Hev).
    + right. exists e, (mkBlobHandle id DataBlob, Err e). split; [done|]. apply elem_of_event_actions. cbn [fst snd bh_ID]. exists i, fs.
      split_and!; [done..|]. destruct (fs !! i); [by eexists|by apply elem_of_nil in Ho].
    + destruct (Hv _ Hev) as (_ & _ & Hnp). destruct Hnp. by exists p.
Qed.
End Actions.

(** * Opening files *)

Section Open.
Context (Sum64String : string -> Z).
Abbreviation get := (get_writer Sum64String).

Lemma os_data_fault o f o' : next_fault o = (f, o') -> os_paths o' = os_paths o /\ os_data o' = os_data o.
Proof. unfold next_fault. destruct (os_faults o); by intros [= <- <-]. Qed.

(** What opening the file at [path] leaves alone, with the entry it may add. *)
Record opens (path : string) (o o' : os) : Prop := mk_opens {
  op_paths : forall p, p <> path -> os_paths o' !! p = os_paths o !! p;
  op_path : os_paths o' !! path = os_paths o !! path \/ exists ino, os_data o !! ino = None /\ os_paths o' !! path = Some (Regular ino);
  op_data : forall ino c, os_data o !! ino = Some c -> os_paths o !! path <> Some (Regular ino) -> os_data o' !! ino = Some c;
  op_dom : forall ino, is_Some (os_data o !! ino) -> is_Some (os_data o' !! ino);
  op_reg : forall ino, os_paths o' !! path = Some (Regular ino) -> os_paths o !! path = Some (Regular ino) \/ is_Some (os_data o' !! ino) }.

Lemma OpenFile_create path o o' res :
  OpenFile true path o = (o', res) -> opens path o o' /\
    match res with
    | Ok ino => os_paths o' !! path = Some (Regular ino) /\ os_data o' !! ino = Some []
    | Err _ => True
    | Panic _ => False
    end.
Proof.
  unfold OpenFile. destruct (next_fault o) as [f o1] eqn:Ef. apply os_data_fault in Ef as [Ep Ed].
  assert (opens path o o1) as Hsame.
  { split; rewrite ?Ep, ?Ed; try done; auto. }
  destruct f as [[e n]|]; [by intros [= <- <-]|]. rewrite Ep.
  destruct (os_paths o !! path) as [[ino| | |]|] eqn:Epath; [|by intros [= <- <-]..|].
  - intros [= <- <-]. cbn. rewrite Ep, Ed. split; [|split; [done|apply lookup_insert_eq]]. split; cbn; rewrite ?Ep, ?Ed; try done; auto.
    + intros ino' c Hc Hne. rewrite lookup_insert_ne by (intros ->; by rewrite Epath in Hne). done.
    + intros ino' Hs. destruct (decide (ino' = ino)) as [->|Hne]; [rewrite lookup_insert_eq; by eexists|by rewrite lookup_insert_ne].
  - unfold create_file. set (ino := fresh _). assert (os_data o !! ino = None) as Hfresh.
    { apply not_elem_of_dom. rewrite <- Ed. apply is_fresh. }
    intros [= <- <-]. split; [|cbn; by rewrite !lookup_insert_eq]. split; cbn; rewrite ?Ep, ?Ed.
    + intros p Hp. by rewrite lookup_insert_ne.
    + right. exists ino. by rewrite lookup_insert_eq.
    + intros ino' c Hc _. rewrite lookup_insert_ne by congruence. done.
    + intros ino' Hs. destruct (decide (ino' = ino)) as [->|Hne]; [rewrite lookup_insert_eq; by eexists|by rewrite lookup_insert_ne].
    + intros ino'. rewrite lookup_insert_eq. intros [= <-]. right. rewrite lookup_insert_eq. by eexists.
Qed.

Lemma OpenFile_existing path o o' res :
  OpenFile false path o = (o', res) -> os_paths o' = os_paths o /\ os_data o' = os_data o /\
    match res with Ok ino => os_paths o !! path = Some (Regular ino) | Err _ => True | Panic _ => False end.
Proof.
  unfold OpenFile. destruct (next_fault o) as [f o1] eqn:Ef. apply os_data_fault in Ef as [Ep Ed].
  destruct f as [[e n]|]; [by intros [= <- <-]|]. rewrite Ep.
  destruct (os_paths o !! path) as [[ino| | |]|] eqn:Epath; by intros [= <- <-].
Qed.

(** Changes of the content of one inode. *)
Definition only_ino (ino : nat) (o o' : os) : Prop :=
  os_paths o' = os_paths o /\ (forall j, j <> ino -> os_data o' !! j = os_data o !! j) /\ (forall j, is_Some (os_data o !! j) -> is_Some (os_data o' !! j)).

Lemma only_ino_refl ino o o' : os_paths o' = os_paths o -> os_data o' = os_data o -> only_ino ino o o'.
Proof. intros Hp Hd. unfold only_ino. by rewrite Hp, Hd. Qed.

Lemma only_ino_set ino o o1 c : os_paths o1 = os_paths o -> os_data o1 = os_data o -> only_ino ino o (set_data o1 ino c).
Proof.
  intros Hp Hd. unfold only_ino, set_data. cbn. rewrite Hp, Hd. split_and!; [done|intros; by rewrite lookup_insert_ne|].
  intros j Hj. destruct (decide (j = ino)) as [->|]; [rewrite lookup_insert_eq; by eexists|by rewrite lookup_insert_ne].
Qed.

Lemma opens_only path ino o o1 o2 :
  opens path o o1 -> os_paths o1 !! path = Some (Regular ino) -> only_ino ino o1 o2 -> opens path o o2.
Proof.
  intros [H1 H2 H3 H4 H5] Hp (Ep & Hd & Hs). split; rewrite ?Ep; try done.
  - intros j c Hj Hne. specialize (H3 j c Hj Hne). rewrite Hd; [done|]. intros ->. destruct H2 as [H2|(k & Hk & H2)].
    + by rewrite <- H2 in Hne.
    + rewrite H2 in Hp. injection Hp as ->. congruence.
  - auto.
  - intros j Hj. destruct (H5 j Hj); auto.
Qed.

Lemma towards_grow t c : towards t c -> towards t (c ++ zeros (length t - length c)).
Proof.
  intros [Hl Hc]. split; [rewrite length_app, length_zeros; lia|]. intros i b Hb. apply lookup_app_Some in Hb as [Hb|[_ Hb]]; [by apply Hc|].
  rewrite lookup_zeros in Hb. case_decide; [|done]. injection Hb as <-. by left.
Qed.

(** The first worker that gets to a file. *)
Lemma acquireWriter_create path (t : list byte) sparse w o w' o' res :
  (0 < length w)%nat -> get w path = None -> acquireWriter Sum64String path (zlen t) sparse w o = (w', o', res) ->
  opens path o o' /\ length w' = length w /\ (forall p, p <> path -> get w' p = get w p) /\
  (forall pf, get w' path = Some pf -> os_paths o' !! path = Some (Regular (pf_File pf)) /\ pf_sparse pf = sparse /\ pf_users pf = 1) /\
  match res with
  | Ok wr => get w' path = Some wr /\
      exists c, os_data o' !! pf_File wr = Some c /\ towards t c /\ (sparse = true -> length c = length t)
  | Err _ => True
  | Panic _ => False
  end.
Proof.
  intros Hw Hg. unfold acquireWriter. rewrite Hg. pose proof (zlen_nonneg t) as H0. destruct (Z.leb_spec 0 (zlen t)) as [_|]; [|lia].
  destruct (OpenFile true path o) as [o1 f] eqn:Eo. apply OpenFile_create in Eo as [Hop Hf].
  destruct f as [ino|e|p]; [|intros [= <- <- <-]; split_and!; try done; by rewrite Hg|done]. destruct Hf as [Hp Hd].
  assert (forall pf, get (put_writer Sum64String w path (mkPartialFile ino 1 sparse)) path = Some pf -> pf = mkPartialFile ino 1 sparse) as Hput.
  { intros pf. rewrite get_put by done. rewrite decide_True by done. by intros [= <-]. }
  assert (forall p, p <> path -> get (put_writer Sum64String w path (mkPartialFile ino 1 sparse)) p = get w p) as Hother.
  { intros p Hne. rewrite get_put by done. by rewrite decide_False. }
  assert (get (put_writer Sum64String w path (mkPartialFile ino 1 sparse)) path = Some (mkPartialFile ino 1 sparse)) as Hself.
  { rewrite get_put by done. by rewrite decide_True. }
  destruct sparse.
  - unfold truncateSparse, File_Truncate. destruct (next_fault o1) as [f2 o2] eqn:Ef2. apply os_data_fault in Ef2 as [Ep2 Ed2].
    destruct f2 as [[e n]|].
    + intros [= <- <- <-]. split_and!; [|by rewrite length_put|done| |done].
      * eapply opens_only; [done..|]. by apply only_ino_refl.
      * intros pf ->%Hput. cbn. rewrite Ep2. done.
    + destruct (Z.ltb_spec (zlen t) 0); [lia|]. intros [= <- <- <-]. split_and!; [|by rewrite length_put|done| | |].
      * eapply opens_only; [done..|]. by apply only_ino_set.
      * intros pf ->%Hput. cbn. rewrite Ep2. done.
      * done.
      * cbn. rewrite Ed2, Hd, lookup_insert_eq. eexists. split; [done|]. unfold zlen. rewrite Nat2Z.id, default_Some. unfold resize.
        rewrite take_nil, Nat.sub_0_r. cbn [app]. split; [apply towards_zeros|]. intros _. apply length_zeros.
  - unfold Fallocate. destruct (next_fault o1) as [f2 o2] eqn:Ef2. apply os_data_fault in Ef2 as [Ep2 Ed2].
    destruct f2 as [[e n]|].
    + intros [= <- <- <-]. split_and!; [|by rewrite length_put|done| | |].
      * eapply opens_only; [done..|]. by apply only_ino_refl.
      * intros pf ->%Hput. cbn. rewrite Ep2. done.
      * done.
      * cbn. rewrite Ed2, Hd. eexists. split; [done|]. split; [apply towards_nil|done].
    + intros [= <- <- <-]. split_and!; [|by rewrite length_put|done| | |].
      * eapply opens_only; [done..|]. by apply only_ino_set.
      * intros pf ->%Hput. cbn. rewrite Ep2. done.
      * done.
      * cbn. rewrite Ed2, Hd, lookup_insert_eq. eexists. split; [done|]. unfold zlen. rewrite Nat2Z.id, default_Some. split; [|done].
        apply (towards_grow t []). apply towards_nil.
Qed.

(** The others. *)
Lemma acquireWriter_again path sparse w o w' o' res :
  (0 < length w)%nat -> acquireWriter Sum64String path (-1) sparse w o = (w', o', res) ->
  os_paths o' = os_paths o /\ os_data o' = os_data o /\ length w' = length w /\ (forall p, p <> path -> get w' p = get w p) /\
  match res with
  | Ok wr =>
      match get w path with
      | Some pf => wr = pf /\ get w' path = Some (mkPartialFile (pf_File pf) (pf_users pf + 1) (pf_sparse pf))
      | None => get w' path = Some wr /\ wr = mkPartialFile (pf_File wr) 1 sparse /\ os_paths o !! path = Some (Regular (pf_File wr))
      end
  | Err _ => w' = w
  | Panic _ => False
  end.
Proof.
  intros Hw. unfold acquireWriter. destruct (get w path) as [pf|] eqn:Hg.
  - intros [= <- <- <-]. split_and!; try done; [by rewrite length_put|intros p Hp; rewrite get_put by done; by rewrite decide_False|].
    rewrite get_put by done. by rewrite decide_True.
  - destruct (OpenFile (0 <=? -1) path o) as [o1 f] eqn:Eo. change (0 <=? -1) with false in *. apply OpenFile_existing in Eo as (Ep & Ed & Hf).
    destruct f as [ino|e|p]; [|by intros [= <- <- <-]|done]. intros [= <- <- <-].
    split_and!; try done; [by rewrite length_put|intros p Hp; rewrite get_put by done; by rewrite decide_False|].
    rewrite get_put by done. by rewrite decide_True.
Qed.

Lemma releaseWriter_ok path w o w' o' res pf :
  (0 < length w)%nat -> get w path = Some pf -> releaseWriter Sum64String path w o = (w', o', res) ->
  os_paths o' = os_paths o /\ os_data o' = os_data o /\ length w' = length w /\ (forall p, p <> path -> get w' p = get w p) /\
  get w' path = (if decide (pf_users pf = 1) then None else Some (mkPartialFile (pf_File pf) (pf_users pf - 1) (pf_sparse pf))) /\ ~ panics res.
Proof.
  intros Hw Hg. unfold releaseWriter. rewrite Hg. destruct (Z.eqb_spec (pf_users pf) 1) as [E|E].
  - unfold File_Close. destruct (next_fault o) as [f o1] eqn:Ef. apply os_data_fault in Ef as [Ep Ed]. intros [= <- <- <-].
    split_and!; [done..|by rewrite length_delete|intros p Hp; rewrite get_delete by done; by rewrite decide_False| |].
    + rewrite get_delete by done. by rewrite !decide_True.
    + destruct (fst <$> f); [apply Err_no_panic|apply Ok_no_panic].
  - intros [= <- <- <-]. split_and!; [done..|by rewrite length_put|intros p Hp; rewrite get_put by done; by rewrite decide_False| |apply Ok_no_panic].
    rewrite get_put by done. by rewrite decide_True, decide_False.
Qed.
End Open.

(** * Writing to files *)

Lemma File_WriteAt_only ino p off o o' res : File_WriteAt ino p off o = (o', res) -> only_ino ino o o'.
Proof.
  unfold File_WriteAt. destruct (off <? 0); [intros [= <- <-]; by apply only_ino_refl|].
  destruct (next_fault o) as [f o1] eqn:Ef. apply os_data_fault in Ef as [Ep Ed].
  destruct f as [[e n]|]; intros [= <- <-]; by apply only_ino_set.
Qed.

Lemma partialFile_WriteAt_only pf d off o o' res : partialFile_WriteAt pf d off o = (o', res) -> only_ino (pf_File pf) o o'.
Proof.
  unfold partialFile_WriteAt. destruct (negb (pf_sparse pf)); [apply File_WriteAt_only|]. destruct (_ =? 0); [intros [= <- _]; by apply only_ino_refl|].
  destruct (File_WriteAt _ _ _ o) as [o1 [n2 err]] eqn:E. intros [= <- _]. by apply File_WriteAt_only in E.
Qed.

(** The content [d] is that of [t] at [off]. *)
Definition part_of (t d : list byte) (off : nat) : Prop :=
  (off + length d <= length t)%nat /\ forall i, (i < length d)%nat -> d !! i = t !! (off + i)%nat.

(** How a content may change while others have written to it. *)
Definition improves (t c c' : list byte) : Prop :=
  towards t c' /\ (length c <= length c')%nat /\
  forall off n, holds_at t c off n -> (off + n <= length t)%nat -> holds_at t c' off n.

Lemma improves_refl t c : towards t c -> improves t c c.
Proof. intros Ht. split; [done|split; [lia|done]]. Qed.

Lemma part_of_take t d off n : part_of t d off -> part_of t (take n d) off.
Proof.
  intros [Hl Hd]. split; [rewrite length_take; lia|]. intros i Hi. rewrite length_take in Hi. rewrite lookup_take_lt by lia. apply Hd. lia.
Qed.

Lemma File_WriteAt_ok ino p off o o' n err t c :
  File_WriteAt ino p (Z.of_nat off) o = (o', (n, err)) -> os_data o !! ino = Some c -> towards t c -> part_of t p off ->
  exists c', os_data o' !! ino = Some c' /\ improves t c c' /\ (err = None -> holds_at t c' off (length p)).
Proof.
  intros Hw Hc Ht Hp. unfold File_WriteAt in Hw. destruct (Z.ltb_spec (Z.of_nat off) 0); [lia|]. rewrite Nat2Z.id in Hw.
  destruct (next_fault o) as [f o1] eqn:Ef. apply os_data_fault in Ef as [Ep Ed].
  assert (exists q, part_of t q off /\ (err = None -> q = p) /\ o' = set_data o1 ino (write_at (default [] (os_data o1 !! ino)) off q)) as (q & Hq & Hqp & ->).
  { destruct f as [[e k]|]; injection Hw as <- _ <-; [exists (take k p)|exists p]; split_and!; try done. by apply part_of_take. }
  rewrite Ed, Hc, default_Some. destruct Hq as [Hq1 Hq2]. destruct (write_towards t c off q Ht Hq1 Hq2) as (H1 & H2 & H3 & H4).
  eexists. split; [cbn; by rewrite lookup_insert_eq|]. split; [split; [done|by split]|]. intros He. by rewrite <- (Hqp He).
Qed.

Lemma leading_zeros_lookup p i : (i < leading_zeros p)%nat -> p !! i = Some "000"%byte.
Proof.
  revert i. induction p as [|b p IH]; intros i Hi; cbn in Hi; [lia|]. destruct (Byte.eqb b "000"%byte) eqn:E; [|lia].
  apply Byte.byte_dec_bl in E as ->. destruct i as [|i]; [done|]. apply IH. lia.
Qed.

Lemma leading_zeros_le p : (leading_zeros p <= length p)%nat.
Proof. induction p as [|b p IH]; cbn; [done|]. destruct (Byte.eqb b "000"%byte); lia. Qed.

Lemma partialFile_WriteAt_ok pf d off o o' n err t c :
  partialFile_WriteAt pf d (Z.of_nat off) o = (o', (n, err)) -> os_data o !! pf_File pf = Some c -> towards t c ->
  (pf_sparse pf = true -> length c = length t) -> part_of t d off -> Z.of_nat (length t) < 2 ^ 63 ->
  exists c', os_data o' !! pf_File pf = Some c' /\ improves t c c' /\ (err = None -> holds_at t c' off (length d)).
Proof.
  intros Hw Hc Ht Hs Hd Hmax. unfold partialFile_WriteAt in Hw. destruct (pf_sparse pf); cbn [negb] in Hw; [|by eapply File_WriteAt_ok].
  rewrite ZeroPrefixLen_counts in Hw. pose proof (leading_zeros_le d) as Hle. destruct Hd as [Hfit Hd].
  (* the zeros that are left out are there *)
  assert (forall c', towards t c' -> length c' = length t -> forall i, (off <= i < off + leading_zeros d)%nat -> c' !! i = t !! i) as Hzeros.
  { intros c' [Hl' Hc'] Hlen i Hi. assert (t !! i = Some "000"%byte) as Hti.
    { rewrite <- (leading_zeros_lookup d (i - off)) by lia. rewrite Hd by lia. f_equal. lia. }
    rewrite Hti. destruct (lookup_lt_is_Some_2 c' i) as [b Hb]; [lia|]. destruct (Hc' i b Hb) as [->|Hb']; [done|congruence]. }
  unfold slice_from in Hw. rewrite Nat2Z.id in Hw. set (p := drop (leading_zeros d) d) in *.
  assert (part_of t p (off + leading_zeros d)) as Hp.
  { split; [unfold p; rewrite length_drop; lia|]. intros i Hi. unfold p in *. rewrite length_drop in Hi. rewrite lookup_drop, Hd by lia. f_equal. lia. }
  destruct (Z.eqb_spec (zlen p) 0) as [Hp0|Hp0].
  - injection Hw as <- _ <-. exists c. split; [done|]. split; [by apply improves_refl|]. intros _ i Hi. apply Hzeros; [done|by apply Hs|].
    unfold zlen, p in Hp0. rewrite length_drop in Hp0. lia.
  - destruct (File_WriteAt _ p _ o) as [o1 [n2 err']] eqn:E. injection Hw as <- _ <-.
    rewrite <- Nat2Z.inj_add, i64_id in E by (unfold is_i64; lia).
    destruct (File_WriteAt_ok _ _ _ _ _ _ _ t c E Hc Ht Hp) as (c' & Hc' & Hi' & Hh). exists c'. split; [done|]. split; [done|].
    intros He i Hi. destruct (decide (i < off + leading_zeros d)%nat).
    + apply Hzeros; [apply Hi'| |lia]. specialize (Hs eq_refl). destruct Hi' as ([Hl' _] & Hg & _). lia.
    + apply (Hh He). unfold p. rewrite length_drop. lia.
Qed.

(** * The goroutines *)

(** The file a worker has open, and the file it has locked. *)
Definition uses (i : nat) (wk : worker) : bool :=
  match wk with Streaming _ (Write j _ _ :: _) _ (Opened _ _ | Written _ _) => Nat.eqb i j | _ => false end.
Definition owns (i : nat) (wk : worker) : bool :=
  match wk with Streaming _ (Write j _ _ :: _) _ (Opened true _ | Written true _) => Nat.eqb i j | _ => false end.

Fixpoint users (i : nat) (ws : list worker) : Z :=
  match ws with [] => 0 | wk :: ws => Z.b2z (uses i wk) + users i ws end.

Lemma users_nonneg i ws : 0 <= users i ws.
Proof. induction ws as [|wk ws IH]; cbn; [lia|]. destruct (uses i wk); cbn; lia. Qed.

Lemma users_insert i ws k wk wk' : ws !! k = Some wk -> users i (<[k := wk']> ws) = users i ws - Z.b2z (uses i wk) + Z.b2z (uses i wk').
Proof.
  revert k. induction ws as [|w ws IH]; intros [|k]; [done..| |].
  - intros [= ->]. change (users i (<[0%nat := wk']> (wk :: ws))) with (Z.b2z (uses i wk') + users i ws). cbn [users]. lia.
  - intros Hk. specialize (IH k Hk). change (users i (<[S k := wk']> (w :: ws))) with (Z.b2z (uses i w) + users i (<[k := wk']> ws)). cbn [users]. lia.
Qed.

Lemma users_pos i ws k wk : ws !! k = Some wk -> uses i wk = true -> 0 < users i ws.
Proof.
  revert k. induction ws as [|w ws IH]; intros [|k]; [done..| |]; cbn.
  - intros [= ->] ->. pose proof (users_nonneg i ws). cbn. lia.
  - intros Hk Hu. specialize (IH k Hk Hu). destruct (uses i w); cbn; lia.
Qed.

Section World.
Context (aes_Encrypt : list byte -> list byte -> list byte).
Context (poly1305_Verify : list byte -> list byte -> list byte -> bool).
Context (Hash : list byte -> ID) (zstd_DecodeAll : list byte -> outcome (list byte)).
Context (Sum64String : string -> Z).
Context (idx : BlobHandle -> outcome (list PackedBlob)) (iter : gset nat -> list nat) (zeroChunk : ID).
Context (beLoad : Handle -> Z -> Z -> list (outcome (list byte))) (key : Key).
Context (Error : string -> error -> option error).
Context (r : fileRestorer) (data : ID -> list byte) (pl : plan).
Context (Hiter : forall s, iter s ≡ₚ elements s) (HF : files_ok idx r data) (Hpl : plan_ok idx r data (length (r_files r)) pl).

Abbreviation get := (get_writer Sum64String).
Abbreviation tgt f := (targetPath r (fr_location f)).
Abbreviation piece := (piece r data).
Abbreviation step_worker := (worker_step Sum64String iter Error r).

(** The restored content. *)
Definition goal (f : fileInfo) : list byte := content_of data (ids_of f).

(** Different files have different targets. *)
Context (Htargets : forall i j f g, r_files r !! i = Some f -> r_files r !! j = Some g -> tgt f = tgt g -> i = j).
Context (Hcoll : forall id d, handed aes_Encrypt poly1305_Verify Hash zstd_DecodeAll idx iter beLoad key (pl_files pl) (pl_packs pl) id d ->
  Hash d = id -> d = data id).

(** The files differ from those of the plan in [inProgress] only. *)
Definition files_inv (s : shared) : Prop :=
  length (s_files s) = length (pl_files pl) /\
  forall i f, pl_files pl !! i = Some f -> exists f', s_files s !! i = Some f' /\ (f' = f \/ f' = set_inProgress f).

(** Regular files have a content, and those at different targets are not linked. *)
Definition os_inv (o : os) : Prop :=
  (forall p ino, os_paths o !! p = Some (Regular ino) -> is_Some (os_data o !! ino)) /\
  forall i j f g ino, r_files r !! i = Some f -> r_files r !! j = Some g ->
    os_paths o !! tgt f = Some (Regular ino) -> os_paths o !! tgt g = Some (Regular ino) -> i = j.

Definition reported (s : shared) (i : nat) : Prop := exists e, (i, e) ∈ s_errors s.
Definition started (s : shared) (i : nat) : Prop := exists f', s_files s !! i = Some f' /\ fr_inProgress f' = true.
Definition sparse_of (s : shared) (i : nat) : bool := match s_files s !! i with Some f' => fr_sparse f' | None => false end.

(** What is in the file [i] has the property [P]. *)
Definition file_has (s : shared) (f : fileInfo) (P : list byte -> Prop) : Prop :=
  exists ino c, os_paths (s_os s) !! tgt f = Some (Regular ino) /\ os_data (s_os s) !! ino = Some c /\ P c.

Definition underway (s : shared) (i : nat) (f : fileInfo) : Prop :=
  file_has s f (fun c => towards (goal f) c /\ (sparse_of s i = true -> length c = length (goal f))).

Definition placed (s : shared) (i : nat) (f : fileInfo) (off n : nat) : Prop :=
  started s i /\ file_has s f (fun c => holds_at (goal f) c off n).

Record file_inv (s : shared) (i : nat) (f : fileInfo) (n : Z) : Prop := {
  fi_fresh : ~ started s i -> get (s_writer s) (tgt f) = None /\ n = 0;
  fi_started : started s i -> reported s i \/ underway s i f;
  fi_used : 0 < n -> is_Some (get (s_writer s) (tgt f));
  fi_writer : forall pf, get (s_writer s) (tgt f) = Some pf ->
    os_paths (s_os s) !! tgt f = Some (Regular (pf_File pf)) /\ pf_sparse pf = sparse_of s i /\ 1 <= pf_users pf /\ n <= pf_users pf }.

(** The actions write blobs at their places. *)
Definition actions_ok (todo : list action) : Prop := forall i d off, Write i d off ∈ todo -> exists id, piece i off id /\ d = data id.

Definition worker_inv (s : shared) (wk : worker) : Prop :=
  match wk with
  | Streaming pack todo _ ph =>
      actions_ok todo /\
      match todo, ph with
      | Write i d off :: _, Opened _ wr => started s i /\ pf_sparse wr = sparse_of s i /\
          forall f, r_files r !! i = Some f -> os_paths (s_os s) !! tgt f = Some (Regular (pf_File wr))
      | Write i d off :: _, Written _ err => started s i /\
          (err = None -> reported s i \/ forall f, r_files r !! i = Some f -> placed s i f (Z.to_nat off) (length d))
      | _, _ => True
      end
  | _ => True
  end.

Record world_inv (s : shared) (ws : list worker) : Prop := {
  wi_files : files_inv s;
  wi_os : os_inv (s_os s);
  wi_buckets : (0 < length (s_writer s))%nat;
  wi_file : forall i f, r_files r !! i = Some f -> file_inv s i f (users i ws);
  wi_worker : forall k wk, ws !! k = Some wk -> worker_inv s wk;
  wi_locks : forall i, i ∈ s_locks s -> exists k wk, ws !! k = Some wk /\ owns i wk = true }.

(** How the state of the others may change. *)
Record evolves (s s' : shared) : Prop := {
  ev_started : forall i, started s i -> started s' i;
  ev_sparse : forall i, sparse_of s' i = sparse_of s i;
  ev_reported : forall i, reported s i -> reported s' i;
  ev_path : forall i f ino, r_files r !! i = Some f -> started s i -> os_paths (s_os s) !! tgt f = Some (Regular ino) ->
    os_paths (s_os s') !! tgt f = Some (Regular ino);
  ev_data : forall i f ino c, r_files r !! i = Some f -> started s i -> ~ reported s i ->
    os_paths (s_os s) !! tgt f = Some (Regular ino) -> os_data (s_os s) !! ino = Some c ->
    towards (goal f) c -> (sparse_of s i = true -> length c = length (goal f)) ->
    exists c', os_data (s_os s') !! ino = Some c' /\ improves (goal f) c c' }.

Lemma piece_part i off id f : r_files r !! i = Some f -> piece i off id ->
  0 <= off /\ part_of (goal f) (data id) (Z.to_nat off) /\ Z.of_nat (length (goal f)) < 2 ^ 63 /\ Z.of_nat (Z.to_nat off) = off.
Proof using HF.
  intros Hf (f' & k & Hf' & Hk & ->). rewrite Hf in Hf'. injection Hf' as <-.
  destruct (offset_bounds idx r data HF i f k id Hf Hk) as [H0 [H1 H2]]. split; [done|].
  assert (goal f = content_of data (take k (ids_of f)) ++ data id ++ content_of data (drop (S k) (ids_of f))) as Hg.
  { unfold goal. rewrite <- (take_drop_middle _ _ _ Hk) at 1. unfold content_of. by rewrite fmap_app, concat_app. }
  split; [|split; [exact H2|lia]]. unfold offset_of, zlen in *. rewrite Nat2Z.id. split.
  - rewrite Hg, !length_app. lia.
  - intros i' Hi'. rewrite Hg, lookup_app_r by lia. rewrite lookup_app_l by lia. f_equal. lia.
Qed.

(** What others do keeps what is known of a file that is in progress. *)
Lemma evolves_underway s s' i f :
  evolves s s' -> r_files r !! i = Some f -> started s i -> reported s i \/ underway s i f -> reported s' i \/ underway s' i f.
Proof.
  intros He Hf Hst [Hr|(ino & c & Hp & Hc & Ht & Hs)]; [left; by apply (ev_reported _ _ He)|].
  destruct (decide (i ∈ (s_errors s).*1)) as [Hin|Hn].
  { left. apply (ev_reported _ _ He). apply list_elem_of_fmap in Hin as ([i' e] & -> & Hin). by exists e. }
  right. destruct (ev_data _ _ He i f ino c) as (c' & Hc' & Hi); try done.
  { intros [e Hr]. apply Hn. apply list_elem_of_fmap. by exists (i, e). }
  exists ino, c'. split; [by apply (ev_path _ _ He i)|]. split; [done|]. destruct Hi as (Ht' & Hl & _). split; [done|].
  rewrite (ev_sparse _ _ He). intros Hsp. specialize (Hs Hsp). destruct Ht' as [Hl' _]. lia.
Qed.

Lemma evolves_placed s s' i f off id :
  evolves s s' -> r_files r !! i = Some f -> piece i off id -> (started s i -> reported s i \/ underway s i f) ->
  reported s i \/ placed s i f (Z.to_nat off) (length (data id)) -> reported s' i \/ placed s' i f (Z.to_nat off) (length (data id)).
Proof using HF.
  intros He Hf Hpc Hu [Hr|(Hst & ino & c & Hp & Hc & Hh)]; [left; by apply (ev_reported _ _ He)|].
  destruct (decide (i ∈ (s_errors s).*1)) as [Hin|Hn].
  { left. apply (ev_reported _ _ He). apply list_elem_of_fmap in Hin as ([i' e] & -> & Hin). by exists e. }
  assert (~ reported s i) as Hnr by (intros [e Hr]; apply Hn; apply list_elem_of_fmap; by exists (i, e)).
  destruct (Hu Hst) as [?|(ino' & c' & Hp' & Hc' & Ht & Hs)]; [done|]. rewrite Hp in Hp'. injection Hp' as <-. rewrite Hc in Hc'. injection Hc' as <-.
  right. destruct (ev_data _ _ He i f ino c) as (c' & Hc' & _ & _ & Hi); try done.
  destruct (piece_part i off id f Hf Hpc) as (_ & [Hfit _] & _). split; [by apply (ev_started _ _ He)|].
  exists ino, c'. split; [by apply (ev_path _ _ He i)|]. split; [done|]. by apply Hi.
Qed.

Lemma evolves_worker s s' wk :
  evolves s s' -> (forall i f, r_files r !! i = Some f -> started s i -> reported s i \/ underway s i f) -> worker_inv s wk -> worker_inv s' wk.
Proof using HF.
  intros He Hu. destruct wk as [|pack todo res ph| |]; try done. intros [Ha Hw]. split; [done|].
  destruct todo as [|[i d off|i e] todo]; [done| |done]. destruct (Ha i d off ltac:(left)) as (id & Hpc & ->).
  destruct ph as [|own wr|own err]; [done| |].
  - destruct Hw as (Hst & Hsp & Hp). split_and!; [by apply (ev_started _ _ He)|by rewrite (ev_sparse _ _ He)|].
    intros f Hf. apply (ev_path _ _ He i); auto.
  - destruct Hw as (Hst & Hp). split; [by apply (ev_started _ _ He)|]. intros Hn. pose proof Hpc as (f & k & Hf & _).
    destruct (evolves_placed s s' i f off id He Hf Hpc (Hu i f Hf)) as [H|H].
    + destruct (Hp Hn) as [?|H]; [by left|right; by apply H].
    + by left.
    + right. intros f' Hf'. by simplify_eq.
Qed.

Lemma inv_step s ws k wk s' wk' :
  world_inv s ws -> ws !! k = Some wk -> evolves s s' -> files_inv s' -> os_inv (s_os s') -> length (s_writer s') = length (s_writer s) ->
  (forall i f, r_files r !! i = Some f -> file_inv s i f (users i ws) -> file_inv s' i f (users i ws - Z.b2z (uses i wk) + Z.b2z (uses i wk'))) ->
  worker_inv s' wk' ->
  (forall i, i ∈ s_locks s' -> owns i wk' = true \/ (i ∈ s_locks s /\ owns i wk = false)) ->
  world_inv s' (<[k := wk']> ws).
Proof using HF.
  intros [Hf Ho Hb Hfi Hw Hl] Hk He Hf' Ho' Hb' Hfi' Hw' Hl'. split; [done|done|lia| | |].
  - intros i f Hif. rewrite (users_insert i ws k wk) by done. apply Hfi'; [done|]. by apply Hfi.
  - intros j wj Hj. destruct (decide (j = k)) as [->|Hne].
    + rewrite list_lookup_insert_eq in Hj by (by eapply lookup_lt_Some). by injection Hj as <-.
    + rewrite list_lookup_insert_ne in Hj by done. apply (evolves_worker s); [done| |by apply (Hw j)].
      intros i f Hif. apply (fi_started _ _ _ _ (Hfi i f Hif)).
  - intros i [Hi|[Hi Hn]]%Hl'.
    + exists k, wk'. rewrite list_lookup_insert_eq by (by eapply lookup_lt_Some). done.
    + destruct (Hl i Hi) as (j & wj & Hj & Hoj). exists j, wj. split; [|done]. rewrite list_lookup_insert_ne; [done|]. intros ->. congruence.
Qed.

(** Steps that change nothing but the errors. *)
Definition same_core (s s' : shared) : Prop :=
  s_files s' = s_files s /\ s_writer s' = s_writer s /\ s_os s' = s_os s /\ s_locks s' = s_locks s /\ (forall x, x ∈ s_errors s -> x ∈ s_errors s').

Lemma same_core_evolves s s' : same_core s s' -> evolves s s'.
Proof.
  intros (Ef & Ew & Eo & El & He). split; unfold started, sparse_of, reported; rewrite ?Ef, ?Eo; try done.
  - intros i (e & Hi). exists e. by apply He.
  - intros i f ino c _ _ _ _ Hc Ht _. exists c. split; [done|]. by apply improves_refl.
Qed.

Lemma same_core_file s s' i f n : same_core s s' -> file_inv s i f n -> file_inv s' i f n.
Proof.
  intros Hs. pose proof Hs as (Ef & Ew & Eo & El & He). intros [H1 H2 H3 H4].
  split; unfold started, sparse_of, reported, underway, file_has in *; rewrite ?Ef, ?Ew, ?Eo; try done.
  intros Hst. destruct (H2 Hst) as [(e & Hi)|Hu]; [left; exists e; by apply He|]. right. unfold sparse_of. by rewrite Ef.
Qed.

Lemma inv_quiet s ws k wk s' wk' :
  world_inv s ws -> ws !! k = Some wk -> same_core s s' -> worker_inv s' wk' ->
  (forall i, uses i wk = false /\ uses i wk' = false /\ owns i wk = false) ->
  world_inv s' (<[k := wk']> ws).
Proof using HF.
  intros Hi Hk Hs Hw Hu. pose proof Hs as (Ef & Ew & Eo & El & He). apply (inv_step s ws k wk); try done.
  - by apply same_core_evolves.
  - destruct Hi as [Hf _ _ _ _ _]. unfold files_inv. by rewrite Ef.
  - destruct Hi as [_ Ho _ _ _ _]. by rewrite Eo.
  - by rewrite Ew.
  - intros i f _ Hfi. destruct (Hu i) as (-> & -> & _). rewrite Z.sub_0_r, Z.add_0_r. by apply (same_core_file s).
  - intros i Hil. right. rewrite El in Hil. split; [done|]. by destruct (Hu i) as (_ & _ & ->).
Qed.

Lemma call_ends_core s pack i todo res err s' wk :
  call_ends iter Error s pack i todo res err = (s', wk) ->
  same_core s s' /\ (is_Some err -> reported s' i) /\
    (wk = Streaming pack todo res Ready \/ exists e, wk = Failing e (iter (pi_files pack))).
Proof.
  unfold call_ends. destruct err as [e|]; cbn.
  - intros E. assert (s' = mkShared (s_files s) (s_writer s) (s_os s) (s_locks s) (s_errors s ++ [(i, e)]) (s_group s)) as -> by (by injection E).
    split; [|split].
    + split_and!; try done. intros x Hx. apply elem_of_app. by left.
    + intros _. exists e. apply elem_of_app. right. by left.
    + injection E as <-. destruct (match s_files s !! i with Some f => _ | None => _ end); [right; by eexists|by left].
  - intros [= <- <-]. split; [by split_and!|]. split; [by intros []|by left].
Qed.

Lemma call_ends_worker s0 s pack i todo res err s' wk :
  call_ends iter Error s pack i todo res err = (s', wk) -> actions_ok todo -> worker_inv s0 wk.
Proof. intros (_ & _ & [->|[e ->]])%call_ends_core Ha; [|done]. cbn. split; [done|]. by destruct todo as [|[]]. Qed.

Lemma call_ends_quiet s pack i todo res err s' wk :
  call_ends iter Error s pack i todo res err = (s', wk) -> forall j, uses j wk = false /\ owns j wk = false.
Proof. intros (_ & _ & [->|[e ->]])%call_ends_core j; [|done]. by destruct todo as [|[]]. Qed.

Lemma actions_ok_tail a todo : actions_ok (a :: todo) -> actions_ok todo.
Proof. intros Ha i d off Hi. apply Ha. by right. Qed.

Lemma goal_bound i f : r_files r !! i = Some f -> Z.of_nat (length (goal f)) < 2 ^ 63.
Proof using HF. intros Hf. destruct (fo_size _ _ _ HF i f Hf) as [Hs Hm]. unfold goal. unfold zlen in Hs. lia. Qed.

(** A change of the content of the file [i] is none of the others. *)
Lemma only_evolves s o' i f ino :
  os_inv (s_os s) -> r_files r !! i = Some f -> os_paths (s_os s) !! tgt f = Some (Regular ino) -> only_ino ino (s_os s) o' ->
  (forall c, started s i -> ~ reported s i -> os_data (s_os s) !! ino = Some c -> towards (goal f) c -> (sparse_of s i = true -> length c = length (goal f)) ->
     exists c', os_data o' !! ino = Some c' /\ improves (goal f) c c') ->
  evolves s (set_io s (s_writer s) o') /\ os_inv o'.
Proof.
  intros [Ho1 Ho2] Hf Hp (Ep & Hd & Hs) Hc. split.
  - split; try done.
    + intros j g ino' Hg _. cbn. by rewrite Ep.
    + intros j g ino' c Hg Hst Hnr Hpg Hcg Ht Hsp. cbn. destruct (decide (ino' = ino)) as [->|Hne].
      * assert (j = i) as -> by (by apply (Ho2 j i g f ino)). rewrite Hf in Hg. injection Hg as <-. by apply Hc.
      * exists c. rewrite Hd by done. split; [done|]. by apply improves_refl.
  - split.
    + intros p ino' Hp'. rewrite Ep in Hp'. apply Hs. by apply (Ho1 p).
    + intros j1 j2 g1 g2 ino' H1 H2. rewrite Ep. by apply Ho2.
Qed.

Lemma write_step_inv s ws k pack i d off rest res own wr s' wk' :
  world_inv s ws -> ws !! k = Some (Streaming pack (Write i d off :: rest) res (Opened own wr)) ->
  step_worker s (Streaming pack (Write i d off :: rest) res (Opened own wr)) = Some (s', wk') ->
  world_inv s' (<[k := wk']> ws) /\ evolves s s' /\ s_group s' = s_group s.
Proof using HF.
  intros Hi Hk. cbn. destruct (partialFile_WriteAt wr d off (s_os s)) as [o' [n err]] eqn:Ew. intros [= <- <-].
  pose proof Hi as [Hf Ho Hb Hfi Hwk Hl]. destruct (Hwk k _ Hk) as (Ha & Hst & Hsp & Hpath).
  destruct (Ha i d off ltac:(left)) as (id & Hpc & ->). pose proof Hpc as (f & kk & Hif & _). specialize (Hpath f Hif).
  destruct (piece_part i off id f Hif Hpc) as (H0 & Hpart & Hmax & Eoff).
  assert (forall c, os_data (s_os s) !! pf_File wr = Some c -> towards (goal f) c -> (sparse_of s i = true -> length c = length (goal f)) ->
    exists c', os_data o' !! pf_File wr = Some c' /\ improves (goal f) c c' /\ (err = None -> holds_at (goal f) c' (Z.to_nat off) (length (data id)))) as Hwrite.
  { intros c Hc Ht Hs. rewrite <- Eoff in Ew. eapply partialFile_WriteAt_ok; [exact Ew|done|done|by rewrite Hsp|done|done]. }
  pose proof (partialFile_WriteAt_only _ _ _ _ _ _ Ew) as Honly.
  destruct (only_evolves s o' i f (pf_File wr) Ho Hif Hpath Honly) as [He Ho'].
  { intros c _ _ Hc Ht Hs. destruct (Hwrite c Hc Ht Hs) as (c' & ? & ? & _). by exists c'. }
  split; [|by split]. apply (inv_step s ws k _ _ _ Hi Hk He); try done.
  - intros j g Hg Hfj. destruct Hfj as [H1 H2 H3 H4]. destruct Honly as (Ep & _).
    split; cbn [s_writer s_os set_io uses Z.b2z]; rewrite ?Z.sub_add; try done.
    + intros Hstj. apply (evolves_underway s); [done..|]. by apply H2.
    + intros pf Hpf. rewrite Ep. by apply H4.
  - split; [done|]. split; [done|]. intros ->. destruct (fi_started _ _ _ _ (Hfi i f Hif) Hst) as [Hr|(ino & c & Hp & Hc & Ht & Hs)]; [by left|].
    rewrite Hpath in Hp. injection Hp as <-. right. intros f' Hf'. rewrite Hif in Hf'. injection Hf' as <-. split; [done|].
    destruct (Hwrite c Hc Ht Hs) as (c' & Hc' & _ & Hh). exists (pf_File wr), c'. cbn. destruct Honly as (Ep & _). rewrite Ep.
    split_and!; [done..|by apply Hh].
  - intros j Hj. cbn in Hj |- *. destruct own; [|by right]. destruct (Nat.eqb_spec j i); [by left|by right].
Qed.

Lemma same_core_refl s : same_core s s.
Proof. by split_and!. Qed.

(** Changes of the table of open files and of the locks. *)
Definition same_content (s s' : shared) : Prop :=
  s_files s' = s_files s /\ os_paths (s_os s') = os_paths (s_os s) /\ os_data (s_os s') = os_data (s_os s) /\ (forall x, x ∈ s_errors s -> x ∈ s_errors s').

Lemma same_content_evolves s s' : same_content s s' -> evolves s s'.
Proof.
  intros (Ef & Ep & Ed & He). split; unfold started, sparse_of, reported; rewrite ?Ef, ?Ep, ?Ed; try done.
  - intros i (e & Hi). exists e. by apply He.
  - intros i f ino c _ _ _ _ Hc Ht _. exists c. split; [done|]. by apply improves_refl.
Qed.

Lemma release_step_inv s ws k pack i d off rest res own err s' wk' :
  world_inv s ws -> ws !! k = Some (Streaming pack (Write i d off :: rest) res (Written own err)) ->
  step_worker s (Streaming pack (Write i d off :: rest) res (Written own err)) = Some (s', wk') ->
  world_inv s' (<[k := wk']> ws) /\ evolves s s' /\ s_group s' = s_group s.
Proof using HF Hpl Htargets.
  intros Hi Hk. cbn. unfold release_step. pose proof Hi as [Hf Ho Hb Hfi Hwk Hl]. destruct (Hwk k _ Hk) as (Ha & Hst & Hpl0).
  pose proof (Ha i d off ltac:(left)) as (id & (f & kk & Hif & _) & _). destruct Hst as (f' & Hf' & Hpr). rewrite Hf'.
  assert (targetPath r (fr_location f') = tgt f) as Etgt.
  { destruct (pk_files _ _ _ _ _ Hpl i f Hif) as (g & Hg & _ & _ & Hloc & _). destruct Hf as [_ Hf]. destruct (Hf i g Hg) as (g' & Hg' & Hor).
    rewrite Hf' in Hg'. injection Hg' as <-. by destruct Hor as [->| ->]; cbn; rewrite Hloc. }
  rewrite Etgt.
  assert (uses i (Streaming pack (Write i d off :: rest) res (Written own err)) = true) as Hus by (cbn; apply Nat.eqb_refl).
  destruct (fi_used _ _ _ _ (Hfi i f Hif) (users_pos i ws k _ Hk Hus)) as [pf Hpf].
  destruct (fi_writer _ _ _ _ (Hfi i f Hif) pf Hpf) as (Hpath & Hsp & Hu1 & Hu2). pose proof (users_pos i ws k _ Hk Hus) as Hpos.
  destruct (releaseWriter Sum64String (tgt f) (s_writer s) (s_os s)) as [[w o'] res'] eqn:Er.
  apply (releaseWriter_ok _ _ _ _ _ _ _ pf Hb Hpf) in Er as (Ep & Ed & Elen & Hother & Hself & Hnp).
  set (s1 := unlock_file own i (set_io s w o')).
  assert (s_files s1 = s_files s /\ s_writer s1 = w /\ s_os s1 = o' /\ s_errors s1 = s_errors s /\ s_group s1 = s_group s /\
    (forall j, j ∈ s_locks s1 -> j ∈ s_locks s /\ (own = true -> j <> i))) as (E1 & E2 & E3 & E4 & E5 & E6).
  { subst s1. destruct own; cbn; split_and!; try done. intros j [Hj Hn]%elem_of_difference. split; [done|]. intros _ ->. by apply Hn, elem_of_singleton. }
  intros H. assert (exists err', call_ends iter Error s1 pack i rest res err' = (s', wk')) as (err' & Hce).
  { destruct res' as [[]|e|p]; [apply (inj Some) in H; eexists; exact H..|]. destruct Hnp. by exists p. }
  clear H. pose proof (call_ends_quiet _ _ _ _ _ _ _ _ Hce) as Hquiet. pose proof (call_ends_worker s' _ _ _ _ _ _ _ _ Hce (actions_ok_tail _ _ Ha)) as Hw'.
  apply call_ends_core in Hce as Hcore. destruct Hcore as ((F1 & F2 & F3 & F4 & F5) & _ & _).
  assert (evolves s s') as He.
  { apply same_content_evolves. unfold same_content. rewrite F1, F3, E1, E3. split_and!; try done. intros x Hx. apply F5. by rewrite E4. }
  split; [|split; [done|unfold call_ends in Hce; destruct err'; cbn in Hce; injection Hce as <- _; done]].
  apply (inv_step s ws k _ _ _ Hi Hk He); try done.
  - unfold files_inv. rewrite F1, E1. done.
  - rewrite F3, E3. destruct Ho as [Ho1 Ho2]. split; intros *; rewrite Ep, ?Ed; [apply Ho1|by apply Ho2].
  - by rewrite F2, E2.
  - intros j g Hg Hfj. destruct (Hquiet j) as [-> _]. cbn [Z.b2z]. rewrite Z.add_0_r. destruct Hfj as [H1 H2 H3 H4].
    assert (forall P, file_has s g P -> file_has s' g P) as Hhas.
    { intros P (ino & c & A & B & C). exists ino, c. rewrite F3, E3, Ep, Ed. done. }
    assert (forall j, sparse_of s' j = sparse_of s j) as Hsparse by (intros; unfold sparse_of; by rewrite F1, E1).
    assert (forall j, started s' j <-> started s j) as Hstart by (intros; unfold started; by rewrite F1, E1).
    assert (started s j -> reported s' j \/ underway s' j g) as Hunder.
    { intros Hs. destruct (H2 Hs) as [(e & Hre)|Hun]; [left; exists e; apply F5; by rewrite E4|right]. unfold underway. rewrite Hsparse. by apply Hhas. }
    destruct (decide (j = i)) as [->|Hne].
    + rewrite Hif in Hg. injection Hg as <-. rewrite Hus. cbn [Z.b2z]. split; rewrite ?Hstart, ?F2, ?E2, ?F3, ?E3, ?Hsparse, ?Hself.
      * intros Hn. destruct Hn. by exists f'.
      * done.
      * intros Hn. rewrite decide_False by lia. by eexists.
      * intros pf'. case_decide; [done|]. intros [= <-]. cbn. rewrite Ep. split_and!; try done; lia.
    + cbn [uses]. destruct (Nat.eqb_spec j i); [done|]. cbn [Z.b2z]. rewrite Z.sub_0_r.
      assert (tgt g <> tgt f) as Htne by (intros E; apply Hne; by apply (Htargets j i g f)).
      split; rewrite ?Hstart, ?F2, ?E2, ?F3, ?E3, ?Hsparse, ?(Hother _ Htne), ?Ep; done.
  - intros j Hj. rewrite F4 in Hj. destruct (E6 j Hj) as [Hjl Hj2]. right. split; [done|]. cbn. destruct own; [|done]. apply Nat.eqb_neq. by apply Hj2.
Qed.

Lemma tgt_of s i f f' : files_inv s -> r_files r !! i = Some f -> s_files s !! i = Some f' -> targetPath r (fr_location f') = tgt f /\ fr_size f' = zlen (goal f).
Proof using HF Hpl.
  intros [_ Hf] Hif Hf'. destruct (pk_files _ _ _ _ _ Hpl i f Hif) as (g & Hg & _ & Hsz & Hloc & _). destruct (Hf i g Hg) as (g' & Hg' & Hor).
  rewrite Hf' in Hg'. injection Hg' as <-. destruct (fo_size _ _ _ HF i f Hif) as [Hs _].
  by destruct Hor as [->| ->]; cbn; rewrite Hloc, Hsz, Hs.
Qed.

Lemma opens_os_inv i f o o' : r_files r !! i = Some f -> os_inv o -> opens (tgt f) o o' -> os_inv o'.
Proof using Htargets.
  intros Hif [Ho1 Ho2] [H1 H2 H3 H4 H5]. split.
  - intros p ino Hp. destruct (decide (p = tgt f)) as [->|Hne]; [|apply H4, (Ho1 p); by rewrite <- H1].
    destruct (H5 ino Hp) as [Hp'|?]; [|done]. by apply H4, (Ho1 (tgt f)).
  - assert (forall j g ino, r_files r !! j = Some g -> j <> i -> os_paths o' !! tgt g = Some (Regular ino) -> os_paths o' !! tgt f = Some (Regular ino) -> False) as Hg.
    { intros j g ino Hjg Hne Hg Hi. rewrite H1 in Hg by (intros E; apply Hne; by apply (Htargets j i g f)).
      destruct H2 as [H2|(ino' & Hfr & H2)].
      - rewrite H2 in Hi. apply Hne. by apply (Ho2 j i g f ino).
      - rewrite Hi in H2. injection H2 as <-. destruct (Ho1 _ _ Hg) as [c Hc]. congruence. }
    intros j1 j2 g1 g2 ino E1 E2 P1 P2. destruct (decide (j1 = i)) as [->|N1], (decide (j2 = i)) as [->|N2]; [done|..].
    + rewrite Hif in E1. injection E1 as <-. by destruct (Hg j2 g2 ino).
    + rewrite Hif in E2. injection E2 as <-. by destruct (Hg j1 g1 ino).
    + rewrite H1 in P1, P2 by (intros E; first [apply N1; by apply (Htargets j1 i g1 f)|apply N2; by apply (Htargets j2 i g2 f)]). by apply (Ho2 j1 j2 g1 g2 ino).
Qed.

(** The file is created: [s1] is the state with the file in progress, opened with
    the result of [acquireWriter], or reported. *)
Lemma create_inv s ws k pack i f f' todo res (s1 : shared) wk' w o' aw :
  world_inv s ws -> ws !! k = Some (Streaming pack todo res Ready) ->
  r_files r !! i = Some f -> s_files s !! i = Some f' -> fr_inProgress f' = false ->
  acquireWriter Sum64String (tgt f) (zlen (goal f)) (fr_sparse f') (s_writer s) (s_os s) = (w, o', aw) ->
  s_files s1 = alter set_inProgress i (s_files s) -> s_writer s1 = w -> s_os s1 = o' -> (forall x, x ∈ s_errors s -> x ∈ s_errors s1) ->
  match aw with
  | Ok wr => wk' = Streaming pack todo res (Opened true wr) /\ (exists d off rest, todo = Write i d off :: rest) /\ s_locks s1 = {[i]} ∪ s_locks s
  | Err _ => reported s1 i /\ (forall j, uses j wk' = false) /\ worker_inv s1 wk' /\ s_locks s1 ⊆ s_locks s
  | Panic _ => True
  end ->
  world_inv s1 (<[k := wk']> ws) /\ evolves s s1.
Proof using HF Hpl Htargets.
  intros Hi Hk Hif Hf' Hpr Haw E1 E2 E3 E4 Hres. pose proof Hi as [Hf Ho Hb Hfi Hwk Hl].
  assert (~ started s i) as Hns by (intros (g & Hg & Hgp); congruence).
  destruct (fi_fresh _ _ _ _ (Hfi i f Hif) Hns) as [Hget Hn0].
  destruct (acquireWriter_create _ _ _ _ _ _ _ _ _ Hb Hget Haw) as (Hop & Hlen & Hother & Hself & Hok).
  assert (sparse_of s i = fr_sparse f') as Hspi by (unfold sparse_of; by rewrite Hf').
  assert (forall j, sparse_of s1 j = sparse_of s j) as Hsparse.
  { intros j. unfold sparse_of. rewrite E1, list_lookup_alter. case_decide as Hji; [|done]. subst j. rewrite Hf'. done. }
  assert (forall j, started s j -> started s1 j) as Hstart.
  { intros j (g & Hg & Hgp). exists (if decide (i = j) then set_inProgress g else g). rewrite E1, list_lookup_alter.
    destruct (decide (i = j)) as [<-|]; by rewrite Hg. }
  assert (forall j, started s1 j -> j = i \/ started s j) as Hstart'.
  { intros j (g & Hg & Hgp). rewrite E1, list_lookup_alter in Hg. case_decide; [by left|right; by exists g]. }
  assert (started s1 i) as Hsti.
  { exists (set_inProgress f'). rewrite E1, list_lookup_alter, decide_True, Hf' by done. done. }
  assert (forall j g, r_files r !! j = Some g -> j <> i -> tgt g <> tgt f) as Htne.
  { intros j g Hg Hne E. apply Hne. by apply (Htargets j i g f). }
  assert (evolves s s1) as He.
  { split; [done|done| | |].
    - intros j (e & He). exists e. by apply E4.
    - intros j g ino Hg Hst Hp. assert (j <> i) by (intros ->; done). rewrite E3, (op_paths _ _ _ Hop) by (by apply (Htne j)). done.
    - intros j g ino c Hg Hst _ Hp Hc Ht _. assert (j <> i) by (intros ->; done). exists c. rewrite E3. split; [|by apply improves_refl].
      apply (op_data _ _ _ Hop); [done|]. intros Hpf. destruct Ho as [_ Ho2]. by apply (Ho2 j i g f ino) in Hpf. }
  assert (forall j, owns j (Streaming pack todo res Ready) = false /\ uses j (Streaming pack todo res Ready) = false) as Hready.
  { intros j. cbn. by destruct todo as [|[] ?]. }
  split; [|done]. apply (inv_step s ws k _ _ _ Hi Hk He).
  - destruct Hf as [Hfl Hff]. split; [by rewrite E1, length_alter|]. intros j g Hg. destruct (Hff j g Hg) as (g' & Hg' & Hor).
    rewrite E1, list_lookup_alter. destruct (decide (i = j)) as [<-|]; rewrite Hg'; [|by exists g']. exists (set_inProgress g'). split; [done|right]. by destruct Hor as [->| ->].
  - rewrite E3. by apply (opens_os_inv i f (s_os s)).
  - by rewrite E2.
  - intros j g Hg Hfj. destruct (Hready j) as [_ ->]. cbn [Z.b2z]. rewrite Z.sub_0_r. destruct (decide (j = i)) as [->|Hne].
    + rewrite Hif in Hg. injection Hg as <-. rewrite Hn0. assert (Z.b2z (uses i wk') <= 1) as Hu1 by (destruct (uses i wk'); cbn; lia). split.
      * done.
      * intros _. destruct aw as [wr|e|p]; [right|left; apply Hres|done]. destruct Hok as (Hg & c & Hc & Ht & Hs). apply Hself in Hg as (Hp & _).
        exists (pf_File wr), c. rewrite E3, Hsparse, Hspi. done.
      * intros Hu. destruct aw as [wr|e|p]; [rewrite E2; destruct Hok as [-> _]; by eexists| |done].
        destruct Hres as (_ & Hu0 & _). rewrite Hu0 in Hu. cbn in Hu. lia.
      * intros pf. rewrite E2, E3, Hsparse, Hspi. intros (Hp & Hs & Hu)%Hself. split_and!; [done|done|lia|lia].
    + assert (uses j wk' = false) as ->.
      { destruct aw as [wr|e|p]; [|apply Hres|done]. destruct Hres as (-> & (d & off & rest & ->) & _). cbn. by apply Nat.eqb_neq. }
      cbn [Z.b2z]. rewrite Z.add_0_r. destruct Hfj as [H1 H2 H3 H4]. pose proof (Htne j g Hg Hne) as Ht. split.
      * intros Hn. rewrite E2, (Hother _ Ht). apply H1. intros Hs. by apply Hn, Hstart.
      * intros [?|Hs]%Hstart'; [done|]. by apply (evolves_underway s), H2.
      * rewrite E2, (Hother _ Ht). done.
      * intros pf. rewrite E2, E3, (Hother _ Ht), (op_paths _ _ _ Hop) by done. rewrite Hsparse. apply H4.
  - destruct aw as [wr|e|p]; [|apply Hres|done]. destruct Hres as (-> & (d & off & rest & ->) & _). split; [by apply (Hwk k _ Hk)|].
    destruct Hok as (Hg & _). apply Hself in Hg as (Hp & Hs & _). split_and!; [done|by rewrite Hsparse, Hspi|].
    intros g Hg. rewrite Hif in Hg. injection Hg as <-. by rewrite E3.
  - intros j Hj. destruct (Hready j) as [-> _]. destruct aw as [wr|e|p]; [|right; split; [by apply Hres|done]|done].
    destruct Hres as (-> & (d & off & rest & ->) & El). rewrite El in Hj. apply elem_of_union in Hj as [->%elem_of_singleton|Hj]; [left; cbn; apply Nat.eqb_refl|by right].
Qed.

(** The file is opened again, without truncating it. *)
Lemma reopen_inv s ws k pack i f f' todo res (s1 : shared) wk' w o' aw :
  world_inv s ws -> ws !! k = Some (Streaming pack todo res Ready) ->
  r_files r !! i = Some f -> s_files s !! i = Some f' -> fr_inProgress f' = true ->
  acquireWriter Sum64String (tgt f) (-1) (fr_sparse f') (s_writer s) (s_os s) = (w, o', aw) ->
  s_files s1 = s_files s -> s_writer s1 = w -> s_os s1 = o' -> (forall x, x ∈ s_errors s -> x ∈ s_errors s1) -> s_locks s1 = s_locks s ->
  match aw with
  | Ok wr => wk' = Streaming pack todo res (Opened false wr) /\ (exists d off rest, todo = Write i d off :: rest)
  | Err _ => (forall j, uses j wk' = false) /\ worker_inv s1 wk'
  | Panic _ => True
  end ->
  world_inv s1 (<[k := wk']> ws) /\ evolves s s1.
Proof using HF Htargets.
  intros Hi Hk Hif Hf' Hpr Haw E1 E2 E3 E4 E5 Hres. pose proof Hi as [Hf Ho Hb Hfi Hwk Hl].
  assert (started s i) as Hst by by exists f'.
  destruct (acquireWriter_again _ _ _ _ _ _ _ _ Hb Haw) as (Ep & Ed & Hlen & Hother & Hok).
  assert (sparse_of s i = fr_sparse f') as Hspi by (unfold sparse_of; by rewrite Hf').
  assert (forall j, sparse_of s1 j = sparse_of s j) as Hsparse by (intros; unfold sparse_of; by rewrite E1).
  assert (forall j, started s1 j <-> started s j) as Hstart by (intros; unfold started; by rewrite E1).
  assert (evolves s s1) as He by (apply same_content_evolves; unfold same_content; by rewrite E1, E3, Ep, Ed).
  assert (forall j, owns j (Streaming pack todo res Ready) = false /\ uses j (Streaming pack todo res Ready) = false) as Hready.
  { intros j. cbn. by destruct todo as [|[] ?]. }
  split; [|done]. apply (inv_step s ws k _ _ _ Hi Hk He).
  - unfold files_inv. by rewrite E1.
  - rewrite E3. destruct Ho as [Ho1 Ho2]. split; intros *; rewrite Ep, ?Ed; [apply Ho1|by apply Ho2].
  - by rewrite E2.
  - intros j g Hg Hfj. destruct (Hready j) as [_ ->]. cbn [Z.b2z]. rewrite Z.sub_0_r. destruct Hfj as [H1 H2 H3 H4]. destruct (decide (j = i)) as [->|Hne].
    + rewrite Hif in Hg. injection Hg as <-. split; rewrite ?Hstart; [done| | |].
      * intros _. by apply (evolves_underway s), H2.
      * intros Hu. rewrite E2. destruct aw as [wr|e|p]; [|destruct Hres as [Hu0 _]; rewrite Hu0, Z.add_0_r in Hu; rewrite Hok; by apply H3|done].
        destruct (get (s_writer s) (tgt f)) as [pf|]; [destruct Hok as [_ ->]|destruct Hok as [-> _]]; by eexists.
      * intros pf. rewrite E2, E3, Ep, Hsparse. destruct aw as [wr|e|p]; [|destruct Hres as [Hu0 _]; rewrite Hu0, Z.add_0_r, Hok; apply H4|done].
        assert (Z.b2z (uses i wk') <= 1) as Hu1 by (destruct (uses i wk'); cbn; lia).
        destruct (get (s_writer s) (tgt f)) as [pf0|] eqn:Eg.
        -- destruct Hok as [-> ->]. intros [= <-]. cbn. destruct (H4 pf0 eq_refl) as (Hp & Hs & Hu & Hn). split_and!; [done|done|lia|lia].
        -- destruct Hok as (-> & Hwr & Hp). intros [= <-]. rewrite Hwr. cbn. split_and!; [by rewrite Hwr in Hp|done|lia|].
           destruct (decide (0 < users i ws)) as [Hu|Hu]; [|lia]. by destruct (H3 Hu).
    + assert (uses j wk' = false) as ->.
      { destruct aw as [wr|e|p]; [|apply Hres|done]. destruct Hres as (-> & d & off & rest & ->). cbn. by apply Nat.eqb_neq. }
      cbn [Z.b2z]. rewrite Z.add_0_r. assert (tgt g <> tgt f) as Ht by (intros E; apply Hne; by apply (Htargets j i g f)).
      split; rewrite ?Hstart, ?E2, ?E3, ?(Hother _ Ht), ?Ep, ?Hsparse; try done. intros Hs. by apply (evolves_underway s), H2.
  - destruct aw as [wr|e|p]; [|apply Hres|done]. destruct Hres as (-> & d & off & rest & ->). split; [by apply (Hwk k _ Hk)|].
    split_and!; [by apply Hstart|rewrite Hsparse|intros g Hg; rewrite Hif in Hg; injection Hg as <-; rewrite E3, Ep].
    + destruct (get (s_writer s) (tgt f)) as [pf0|] eqn:Eg; [destruct Hok as [-> _]; by apply (fi_writer _ _ _ _ (Hfi i f Hif) pf0 Eg)|].
      destruct Hok as (_ & -> & _). done.
    + destruct (get (s_writer s) (tgt f)) as [pf0|] eqn:Eg; [destruct Hok as [-> _]; by apply (fi_writer _ _ _ _ (Hfi i f Hif) pf0 Eg)|].
      by destruct Hok as (_ & _ & Hp).
  - intros j Hj. destruct (Hready j) as [-> _]. right. by rewrite E5 in Hj.
Qed.

Lemma open_step_inv s ws k pack i d off rest res s' wk' :
  world_inv s ws -> ws !! k = Some (Streaming pack (Write i d off :: rest) res Ready) ->
  step_worker s (Streaming pack (Write i d off :: rest) res Ready) = Some (s', wk') ->
  world_inv s' (<[k := wk']> ws) /\ evolves s s' /\ s_group s' = s_group s.
Proof using HF Hpl Htargets.
  intros Hi Hk. cbn. unfold open_step. pose proof Hi as [Hf Ho Hb Hfi Hwk Hl]. destruct (s_files s !! i) as [f'|] eqn:Hf'; [|done].
  case_bool_decide as Hlock; [done|]. destruct (Hwk k _ Hk) as (Ha & _). destruct (Ha i d off ltac:(left)) as (id & (f & kk & Hif & _) & _).
  destruct (tgt_of s i f f' Hf Hif Hf') as [Etgt Esz]. rewrite Etgt, Esz. destruct (fr_inProgress f') eqn:Hpr; cbn [negb].
  - destruct (acquireWriter _ _ _ _ _ _) as [[w o'] aw] eqn:Eaw. intros H. apply (inj Some) in H. destruct aw as [wr|e|p].
    + injection H as <- <-. apply and_assoc; split; [|done]. eapply reopen_inv; try done. split; [done|by do 3 eexists].
    + cbn [unlock_file] in H. pose proof (call_ends_quiet _ _ _ _ _ _ _ _ H) as Hq. pose proof (fun s0 => call_ends_worker s0 _ _ _ _ _ _ _ _ H (actions_ok_tail _ _ Ha)) as Hw'.
      pose proof (call_ends_core _ _ _ _ _ _ _ _ H) as ((F1 & F2 & F3 & F4 & F5) & _ & _). cbn in F1, F2, F3, F4, F5. apply and_assoc; split.
      * eapply reopen_inv; try done. split; [apply Hq|apply Hw'].
      * unfold call_ends in H. cbn in H. by injection H as <- _.
    + exfalso. destruct (acquireWriter_again _ _ _ _ _ _ _ _ Hb Eaw) as (_ & _ & _ & _ & []).
  - cbn [lock_file s_writer s_os]. destruct (acquireWriter _ _ _ _ _ _) as [[w o'] aw] eqn:Eaw. intros H. apply (inj Some) in H. destruct aw as [wr|e|p].
    + injection H as <- <-. apply and_assoc; split; [|done]. eapply create_inv; try done. split; [done|]. split; [by do 3 eexists|done].
    + cbn [unlock_file] in H. pose proof (call_ends_quiet _ _ _ _ _ _ _ _ H) as Hq. pose proof (fun s0 => call_ends_worker s0 _ _ _ _ _ _ _ _ H (actions_ok_tail _ _ Ha)) as Hw'.
      pose proof (call_ends_core _ _ _ _ _ _ _ _ H) as ((F1 & F2 & F3 & F4 & F5) & Hrep & _). cbn in F1, F2, F3, F4, F5. apply and_assoc; split.
      * eapply create_inv; try done. split; [by apply Hrep|]. split; [apply Hq|]. split; [apply Hw'|]. rewrite F4.
        intros j [[->%elem_of_singleton|Hj]%elem_of_union Hn]%elem_of_difference; [|done]. by destruct Hn; apply elem_of_singleton.
      * unfold call_ends in H. cbn in H. by injection H as <- _.
    + exfalso. assert (~ started s i) as Hns by (intros (g & Hg & Hgp); congruence). destruct (fi_fresh _ _ _ _ (Hfi i f Hif) Hns) as [Hget _].
      destruct (acquireWriter_create _ _ _ _ _ _ _ _ _ Hb Hget Eaw) as (_ & _ & _ & _ & []).
Qed.

(** * What is still to be done *)

(** The worker will write the blob, or report the file. *)
Definition covers (i : nat) (off : Z) (id : ID) (wk : worker) : Prop :=
  match wk with
  | Streaming pack todo res _ => i ∈ pi_files pack /\ (Write i (data id) off ∈ todo \/ (exists e, Report i e ∈ todo) \/ res <> Ok tt)
  | Failing _ todo => i ∈ todo
  | _ => False
  end.

Definition settled (s : shared) (i : nat) (f : fileInfo) (off : Z) (id : ID) : Prop :=
  reported s i \/ placed s i f (Z.to_nat off) (length (data id)).

Lemma call_ends_covers s pack i todo res err s' wk j off id :
  call_ends iter Error s pack i todo res err = (s', wk) -> j ∈ pi_files pack ->
  (Write j (data id) off ∈ todo \/ (exists e, Report j e ∈ todo) \/ res <> Ok tt) -> covers j off id wk.
Proof using Hiter.
  intros (_ & _ & [->|[e ->]])%call_ends_core Hj Hc; cbn; [by split|]. by apply elem_of_iter.
Qed.

Definition action_file (a : action) : nat := match a with Write i _ _ => i | Report i _ => i end.

(** Of the actions at hand the first is done or reported. *)
Lemma head_covers s' pack a rest (res : outcome unit) err wk j f off id s1 :
  call_ends iter Error s1 pack (action_file a) rest res err = (s', wk) ->
  j ∈ pi_files pack -> (Write j (data id) off ∈ a :: rest \/ (exists e, Report j e ∈ a :: rest) \/ res <> Ok tt) ->
  ((exists e, a = Report j e) -> is_Some err) -> (err = None -> a = Write j (data id) off -> settled s' j f off id) ->
  settled s' j f off id \/ covers j off id wk.
Proof using Hiter.
  intros Hce Hj Hc Ha Hdone. pose proof (call_ends_core _ _ _ _ _ _ _ _ Hce) as (_ & Hrep & _).
  assert (a = Write j (data id) off \/ (exists e, a = Report j e) \/ (Write j (data id) off ∈ rest \/ (exists e, Report j e ∈ rest) \/ res <> Ok tt)) as [H|[H|H]].
  { destruct Hc as [[H|H]%elem_of_cons|[(e & [H|H]%elem_of_cons)|H]]; [by left|right; right; by left|right; left; by exists e|right; right; right; left; by exists e|by right; right; right; right]. }
  - left. destruct err as [e|]; [|by apply Hdone]. left. subst a. by apply Hrep.
  - left. left. specialize (Ha H). destruct H as [e ->]. by apply Hrep.
  - right. by eapply call_ends_covers.
Qed.

Lemma open_ready s pack i d off rest res s' wk' :
  step_worker s (Streaming pack (Write i d off :: rest) res Ready) = Some (s', wk') ->
  crashed s' = false -> (exists ph, wk' = Streaming pack (Write i d off :: rest) res ph) \/
    exists s1 e, call_ends iter Error s1 pack i rest res (Some e) = (s', wk').
Proof.
  unfold worker_step, open_step. destruct (s_files s !! i); [|done]. case_bool_decide; [done|]. destruct (acquireWriter _ _ _ _ _ _) as [[w o'] [wr|e|p]]; intros H'; apply (inj Some) in H'.
  - injection H' as <- <-. intros _. left. by eexists.
  - intros _. right. eexists _, _. exact H'.
  - injection H' as <- <-. done.
Qed.

(** One step of a worker. *)
Lemma worker_step_ok s ws k wk s' wk' :
  world_inv s ws -> ws !! k = Some wk -> crashed s = false -> step_worker s wk = Some (s', wk') ->
  (crashed s' = false -> world_inv s' (<[k := wk']> ws) /\ evolves s s') /\ (s_group s' = Ok tt -> s_group s = Ok tt).
Proof using HF Hpl Htargets.
  intros Hi Hk Hcr Hs. pose proof Hi as [Hf Ho Hb Hfi Hwk Hl]. destruct wk as [|pack todo res ph|e todo|]; [done| | |done].
  2: { (* after StreamPack *) destruct todo as [|i todo]; cbn in Hs.
    - injection Hs as <- <-. split; [|done]. intros _. split; [|apply same_core_evolves, same_core_refl]. by apply (inv_quiet s _ _ _ _ _ Hi Hk (same_core_refl s)).
    - assert (same_core s (mkShared (s_files s) (s_writer s) (s_os s) (s_locks s) (s_errors s ++ [(i, e)]) (s_group s))) as Hsc.
      { split_and!; try done. intros x Hx. apply elem_of_app. by left. }
      destruct (match s_files s !! i with Some f => _ | None => _ end) as [e'|]; injection Hs as <- <-.
      + split; [|by cbn; destruct (s_group s)]. intros _. split; [|by apply same_core_evolves]. apply (inv_quiet s _ _ _ _ _ Hi Hk); [|done|done]. by destruct Hsc as (? & ? & ? & ? & ?).
      + split; [|done]. intros _. split; [|by apply same_core_evolves]. by apply (inv_quiet s _ _ _ _ _ Hi Hk Hsc). }
  destruct todo as [|[i d off|i e] rest].
  - cbn in Hs. destruct res as [[]|e|p]; injection Hs as <- <-.
    + split; [|done]. intros _. split; [|apply same_core_evolves, same_core_refl]. by apply (inv_quiet s _ _ _ _ _ Hi Hk (same_core_refl s)).
    + split; [|done]. intros _. split; [|apply same_core_evolves, same_core_refl]. by apply (inv_quiet s _ _ _ _ _ Hi Hk (same_core_refl s)).
    + by split.
  - destruct ph as [|own wr|own err].
    + apply (open_step_inv s ws k) in Hs; [|done..]. destruct Hs as (H1 & H2 & H3). by rewrite H3.
    + apply (write_step_inv s ws k) in Hs; [|done..]. destruct Hs as (H1 & H2 & H3). by rewrite H3.
    + apply (release_step_inv s ws k) in Hs; [|done..]. destruct Hs as (H1 & H2 & H3). by rewrite H3.
  - unfold worker_step in Hs. apply (inj Some) in Hs. destruct (Hwk k _ Hk) as (Ha & _).
    pose proof (call_ends_core _ _ _ _ _ _ _ _ Hs) as (Hsc & _ & _). pose proof (call_ends_quiet _ _ _ _ _ _ _ _ Hs) as Hq.
    split; [|unfold call_ends in Hs; cbn in Hs; by injection Hs as <- _]. intros _. split; [|by apply same_core_evolves].
    apply (inv_quiet s _ _ _ _ _ Hi Hk Hsc); [|intros j; split; [done|]; split; [apply Hq|done]].
    apply (call_ends_worker s' _ _ _ _ _ _ _ _ Hs). by apply (actions_ok_tail (Report i e)).
Qed.

Lemma evolves_settled s s' i f off id :
  evolves s s' -> r_files r !! i = Some f -> piece i off id -> (started s i -> reported s i \/ underway s i f) -> settled s i f off id -> settled s' i f off id.
Proof using HF. intros He Hf Hp Hu. by apply evolves_placed. Qed.

(** What a worker will do is done, reported, or still to be done. *)
Lemma worker_covers s ws k wk s' wk' i f off id :
  world_inv s ws -> ws !! k = Some wk -> step_worker s wk = Some (s', wk') -> s_group s' = Ok tt -> (crashed s' = false -> evolves s s') ->
  r_files r !! i = Some f -> piece i off id -> covers i off id wk -> settled s' i f off id \/ covers i off id wk'.
Proof using HF Hiter.
  intros Hi Hk Hs Hg He Hf Hpc Hc. assert (crashed s' = false) as Hcr by (unfold crashed; by rewrite Hg). specialize (He Hcr).
  pose proof Hi as [_ _ _ Hfi Hwk _]. destruct wk as [|pack todo res ph|e todo|]; [done| | |done].
  2: { destruct todo as [|j todo]; cbn in Hs; [by apply elem_of_nil in Hc|]. cbn in Hc. apply elem_of_cons in Hc.
    destruct (match s_files s !! j with Some f => _ | None => _ end) as [e'|] eqn:Ee; injection Hs as <- <-.
    - exfalso. cbn in Hg. by destruct (s_group s).
    - destruct Hc as [->|Hc]; [|by right]. left. left. exists e. apply elem_of_app. right. by left. }
  destruct Hc as [Hj Hc]. destruct todo as [|a rest].
  - right. cbn in Hs. destruct Hc as [H|[(e & H)|H]]; [by apply elem_of_nil in H..|]. destruct res as [[]|e|p]; injection Hs as <- <-; [done| |done].
    cbn. by apply elem_of_iter.
  - destruct a as [i' d off'|i' e].
    + destruct ph as [|own wr|own err].
      * destruct (open_ready _ _ _ _ _ _ _ _ _ Hs Hcr) as [[ph ->]|(s1 & e & Hce)]; [by right|].
        apply (head_covers _ _ (Write i' d off') _ _ _ _ _ _ _ _ _ Hce Hj Hc); [by intros _|done].
      * cbn in Hs. destruct (partialFile_WriteAt _ _ _ _) as [o' [n err]]. injection Hs as <- <-. by right.
      * destruct (Hwk k _ Hk) as (Ha & Hst & Hpl0). cbn in Hs. unfold release_step in Hs. destruct (s_files s !! i') as [f'|]; [|done].
        destruct (releaseWriter _ _ _ _) as [[w o'] res']. apply (inj Some) in Hs.
        assert (exists s1 err', call_ends iter Error s1 pack i' rest res err' = (s', wk') /\ (err' = None -> err = None)) as (s1 & err' & Hce & Herr).
        { destruct res' as [u|e|p]; [by do 2 eexists|by do 2 eexists|]. exfalso. injection Hs as <- _. done. }
        apply (head_covers _ _ (Write i' d off') _ _ _ _ _ _ _ _ _ Hce Hj Hc); [by intros [? ?]|].
        intros He' [= -> -> ->]. apply (evolves_settled s); [done..|by apply (fi_started _ _ _ _ (Hfi i f Hf))|].
        destruct (Hpl0 (Herr He')) as [Hr|Hp]; [by left|right]. by apply Hp.
    + unfold worker_step in Hs. apply (inj Some) in Hs. apply (head_covers _ _ (Report i' e) _ _ _ _ _ _ _ _ _ Hs Hj Hc); [by intros _|done].
Qed.

Abbreviation step_ := (rstep aes_Encrypt poly1305_Verify Hash zstd_DecodeAll Sum64String idx iter beLoad key Error r (pl_packs pl)).
Abbreviation start_ := (start_pack aes_Encrypt poly1305_Verify Hash zstd_DecodeAll idx iter beLoad key).

(** * Runs *)

Record run_inv (w : world) : Prop := {
  ri_world : crashed (w_shared w) = false -> world_inv (w_shared w) (w_workers w);
  ri_cover : s_group (w_shared w) = Ok tt -> forall i f n id, r_files r !! i = Some f -> ids_of f !! n = Some id ->
    settled (w_shared w) i f (offset_of data (ids_of f) n) id \/
    (exists ids, w_dispatch w = Sending ids /\ home idx id ∈ ids) \/
    exists k wk, w_workers w !! k = Some wk /\ covers i (offset_of data (ids_of f) n) id wk;
  ri_ids : forall ids, w_dispatch w = Sending ids -> forall id, id ∈ ids -> is_Some (pl_packs pl !! id);
  ri_stopped : w_dispatch w = Stopped -> s_group (w_shared w) <> Ok tt;
  ri_returned : Returned ∈ w_workers w -> w_dispatch w = Closed \/ s_group (w_shared w) <> Ok tt;
  ri_workers : length (w_workers w) = r_workerCount r }.

Lemma piece_at i f n id : r_files r !! i = Some f -> ids_of f !! n = Some id -> piece i (offset_of data (ids_of f) n) id.
Proof. intros Hf Hn. by exists f, n. Qed.

Lemma files_blobs s : files_inv s -> fr_blobs <$> s_files s = fr_blobs <$> pl_files pl.
Proof.
  intros [Hl Hf]. apply list_eq. intros i. rewrite !list_lookup_fmap. destruct (pl_files pl !! i) as [f|] eqn:E.
  - destruct (Hf i f E) as (f' & -> & [->| ->]); done.
  - apply lookup_ge_None in E. by rewrite lookup_ge_None_2 by lia.
Qed.

Lemma plan_planned : planned idx r data (pl_files pl).
Proof using Hpl.
  intros i f Hf. destruct (pk_files _ _ _ _ _ Hpl i f Hf) as (f' & Hf' & _ & _ & _ & Hb). exists f'. split; [done|].
  rewrite decide_True in Hb; [done|]. by apply lookup_lt_Some in Hf.
Qed.

(** What a worker is given. *)
Lemma start_ok s id pack :
  files_inv s -> pl_packs pl !! id = Some pack ->
  exists todo err, start_ (s_files s) pack = (Streaming pack todo err Ready, Ok tt) /\ actions_ok todo /\
    (forall i f n b, r_files r !! i = Some f -> ids_of f !! n = Some b -> home idx b = id -> covers i (offset_of data (ids_of f) n) b (Streaming pack todo err Ready)).
Proof using HF Hiter Hpl Hcoll.
  intros Hfi Hp. destruct (downloadPack_ok aes_Encrypt poly1305_Verify Hash zstd_DecodeAll idx iter beLoad key r data Hiter HF (pl_files pl) (s_files s) (pl_packs pl) id pack)
    as (todo & err & E & Hw & Hc); [apply plan_planned|apply (pk_length _ _ _ _ _ Hpl)|by apply files_blobs|done|done|].
  exists todo, err. unfold start_pack. rewrite E. split; [done|]. split; [exact Hw|]. intros i f n b Hf Hn Hh. cbn.
  destruct (pk_packs _ _ _ _ _ Hpl) as [_ Hid]. pose proof (Hid id pack Hp) as Hpid.
  destruct (pk_in _ _ _ _ _ Hpl i f (lookup_lt_Some _ _ _ Hf) Hf b) as (pack' & Hp' & Hi); [by apply list_elem_of_lookup_2 in Hn|].
  rewrite Hh, Hp in Hp'. injection Hp' as <-. split; [done|].
  destruct err as [[]|e|p]; [|by right; right..]. destruct (Hc eq_refl i f n b Hf Hi Hn) as [H|H]; [by rewrite Hpid|by left|by right; left].
Qed.

Lemma fail_ok s : same_core s (fail s (Ok tt)) /\ s_group (fail s (Ok tt)) = match s_group s with Ok _ => Ok tt | g => g end.
Proof. split; [by split_and!|]. cbn. by destruct (s_group s) as [[]| |]. Qed.

(** A worker returns only when it fails. *)
Lemma worker_not_returned s wk s' : step_worker s wk = Some (s', Returned) -> s_group s' <> Ok tt.
Proof.
  intros Hs Hg'. destruct wk as [|pack todo res ph|e todo|]; [done| | |done].
  - destruct todo as [|[i d off|i e] rest].
     + cbn in Hs. destruct res as [[]|e|p]; injection Hs as <-; try done; cbn in Hg'; by destruct (s_group s).
     + destruct ph as [|own wr|own err].
        * destruct (open_ready _ _ _ _ _ _ _ _ _ Hs) as [[ph [=]]|(s1 & e & Hce)]; [unfold crashed; by rewrite Hg'|].
           apply call_ends_core in Hce as (_ & _ & [[=]|[e' [=]]]).
        * cbn in Hs. by destruct (partialFile_WriteAt _ _ _ _) as [? [? ?]].
        * cbn in Hs. unfold release_step in Hs. destruct (s_files s !! i); [|done]. destruct (releaseWriter _ _ _ _) as [[w o'] res']. apply (inj Some) in Hs.
           destruct res' as [u|e|p]; [| |injection Hs as <-; cbn in Hg'; done];
             apply call_ends_core in Hs as (_ & _ & [[=]|[e' [=]]]).
     + unfold worker_step in Hs. apply (inj Some) in Hs. apply call_ends_core in Hs as (_ & _ & [[=]|[e' [=]]]).
  - destruct todo as [|i todo]; cbn in Hs; [done|]. destruct (match s_files s !! i with Some f => _ | None => _ end); injection Hs as <-; [|done].
     cbn in Hg'. by destruct (s_group s).
Qed.

Lemma step_inv w w' : run_inv w -> step_ w w' -> run_inv w'.
Proof using HF Hiter Hpl Hcoll Htargets.
  intros [H1 H2 H3 H4 H5 H6] Hstep. destruct Hstep as [s ws d k wk s' wk' Hcr Hk Hs|s ws id ids k pack Hcr Hk Hp|s ws Hcr|s ws id ids Hcr Hg|s ws k Hcr Hk]; cbn [w_shared w_workers w_dispatch] in *.
  - specialize (H1 Hcr). destruct (worker_step_ok s ws k wk s' wk' H1 Hk Hcr Hs) as [Hw Hg].
    split; cbn [w_shared w_workers w_dispatch]; [intros; by apply Hw| |done|by intros E Hg'; apply (H4 E), Hg| |by rewrite length_insert].
    + intros Hg' i f n id Hf Hn. pose proof (piece_at i f n id Hf Hn) as Hpc. assert (crashed s' = false) as Hcr' by (unfold crashed; by rewrite Hg').
      destruct (Hw Hcr') as [_ He]. destruct (H2 (Hg Hg') i f n id Hf Hn) as [H|[H|(k' & wk2 & Hk' & Hc)]].
      * left. apply (evolves_settled s); [done..|by apply (fi_started _ _ _ _ (wi_file _ _ H1 i f Hf))|done].
      * by right; left.
      * destruct (decide (k' = k)) as [->|Hne].
        -- rewrite Hk in Hk'. injection Hk' as <-.
           destruct (worker_covers s ws k wk s' wk' i f _ id H1 Hk Hs Hg' (fun _ => He) Hf Hpc Hc) as [H|H]; [by left|right; right].
           exists k, wk'. rewrite list_lookup_insert_eq by (by eapply lookup_lt_Some). done.
        -- right; right. exists k', wk2. by rewrite list_lookup_insert_ne.
    + intros Hin. apply list_elem_of_lookup in Hin as [k' Hk']. destruct (decide (k' = k)) as [->|Hne].
      * rewrite list_lookup_insert_eq in Hk' by (by eapply lookup_lt_Some). injection Hk' as ->. right. intros Hg'.
        by apply (worker_not_returned _ _ _ Hs).
      * rewrite list_lookup_insert_ne in Hk' by done. destruct (H5 (list_elem_of_lookup_2 _ _ _ Hk')) as [?|Hn]; [by left|right]. by intros Hg'%Hg.
  - specialize (H1 Hcr). destruct (start_ok s id pack (wi_files _ _ H1) Hp) as (todo & err & -> & Ha & Hc). cbn [fst snd].
    destruct (fail_ok s) as [Hsc Hg].
    split; cbn [w_shared w_workers w_dispatch]; rewrite ?length_insert; try done.
    + intros _. apply (inv_quiet s ws k Waiting); [done..| |intros i; by destruct todo as [|[] ?]]. split; [done|]. by destruct todo as [|[] ?].
    + rewrite Hg. intros Hg' i f n b Hf Hn. assert (s_group s = Ok tt) as Hgs by (by destruct (s_group s) as [[]| |]).
      destruct (H2 Hgs i f n b Hf Hn) as [H|[(ids' & [= <-] & H)|(k' & wk2 & Hk' & Hcv)]].
      * left. apply (evolves_settled s); [by apply same_core_evolves|done|by apply piece_at|by apply (fi_started _ _ _ _ (wi_file _ _ H1 i f Hf))|done].
      * apply elem_of_cons in H as [H|H].
        -- right; right. exists k. eexists. rewrite list_lookup_insert_eq by (by eapply lookup_lt_Some). split; [done|]. by apply Hc.
        -- right; left. by exists ids.
      * right; right. destruct (decide (k' = k)) as [->|Hne]; [rewrite Hk in Hk'; by injection Hk' as <-|]. exists k', wk2. by rewrite list_lookup_insert_ne.
    + intros ids' [= <-] b Hb. apply (H3 (id :: ids) eq_refl). by right.
    + intros Hin. apply list_elem_of_lookup in Hin as [k' Hk']. destruct (decide (k' = k)) as [->|Hne].
      * by rewrite list_lookup_insert_eq in Hk' by (by eapply lookup_lt_Some).
      * rewrite list_lookup_insert_ne in Hk' by done. destruct (H5 (list_elem_of_lookup_2 _ _ _ Hk')) as [?|Hn]; [done|right]. rewrite Hg. by destruct (s_group s) as [[]| |].
  - split; cbn [w_shared w_workers w_dispatch]; try done; [|by left].
    intros Hg i f n id Hf Hn. destruct (H2 Hg i f n id Hf Hn) as [H|[(ids' & [= <-] & H)|H]]; [by left|by apply elem_of_nil in H|by right; right].
  - split; cbn [w_shared w_workers w_dispatch]; try done. by right.
  - specialize (H1 Hcr). split; cbn [w_shared w_workers w_dispatch]; try done; [| |by left|by rewrite length_insert].
    + intros _. by apply (inv_quiet s ws k Waiting _ _ H1 Hk (same_core_refl s)).
    + intros Hg i f n id Hf Hn. destruct (H2 Hg i f n id Hf Hn) as [H|[(ids' & [=] & H)|(k' & wk2 & Hk' & Hcv)]]; [by left|].
      right; right. destruct (decide (k' = k)) as [->|Hne]; [rewrite Hk in Hk'; by injection Hk' as <-|]. exists k', wk2. by rewrite list_lookup_insert_ne.
Qed.

Abbreviation init_ o := (init_world r pl o).

Lemma restore_init_inv o : os_inv o -> (0 < r_workerCount r)%nat -> run_inv (init_ o).
Proof using HF Hpl.
  intros Ho Hw. pose proof (pk_packs _ _ _ _ _ Hpl) as [Hdom Hid].
  assert (forall i, users i (replicate (r_workerCount r) Waiting) = 0) as Hu.
  { intros i. induction (r_workerCount r) as [|n IH]; [done|]. cbn. destruct n; [done|]. rewrite IH by lia. done. }
  assert (forall k wk, replicate (r_workerCount r) Waiting !! k = Some wk -> wk = Waiting) as Hwait.
  { intros k wk [-> _]%lookup_replicate. done. }
  split; cbn [w_shared w_workers w_dispatch init_world s_group]; [|intros _ i f n id Hf Hn|intros ids [= <-] id|done|intros Hin|apply length_replicate].
  - intros _. split; cbn [s_files s_os s_writer s_locks].
    + split; [done|]. intros i f Hf. exists f. auto.
    + done.
    + unfold newFilesWriter. by rewrite length_replicate.
    + intros i f Hf. rewrite Hu. assert (~ started (mkShared (pl_files pl) (newFilesWriter (r_workerCount r)) o ∅ [] (Ok tt)) i) as Hns.
      { intros (f' & Hf' & Hp). destruct (pk_files _ _ _ _ _ Hpl i f Hf) as (g & Hg & Hng & _). cbn in Hf'. congruence. }
      split; cbn [s_writer s_os]; [|done|lia|].
      * intros _. by rewrite get_new.
      * intros pf. by rewrite get_new.
    + intros k wk ->%Hwait. done.
    + done.
  - right; left. eexists. split; [done|]. destruct (pk_in _ _ _ _ _ Hpl i f (lookup_lt_Some _ _ _ Hf) Hf id) as (pack & Hp & _); [by apply list_elem_of_lookup_2 in Hn|].
    apply Hdom. by exists pack.
  - apply Hdom.
  - apply list_elem_of_lookup in Hin as [k Hk]. by apply Hwait in Hk.
Qed.

Lemma run_inv_rtc o w : os_inv o -> (0 < r_workerCount r)%nat -> rtc step_ (init_ o) w -> run_inv w.
Proof using HF Hiter Hpl Hcoll Htargets.
  intros Ho Hw Hrun. pose proof (restore_init_inv o Ho Hw) as Hi. induction Hrun as [|w1 w2 w3 Hs _ IH]; [done|]. apply IH. by apply (step_inv w1).
Qed.

(** Every byte of the content is in one of the blobs. *)
Lemma goal_piece ids p : (p < length (content_of data ids))%nat ->
  exists n id, ids !! n = Some id /\ offset_of data ids n <= Z.of_nat p < offset_of data ids n + zlen (data id).
Proof.
  intros Hp. induction ids as [|id ids IH] using rev_ind; [cbn in Hp; lia|].
  unfold content_of in *. rewrite fmap_app, concat_app, length_app in Hp. cbn [fmap list_fmap concat] in Hp. rewrite app_nil_r in Hp.
  destruct (decide (p < length (concat (data <$> ids)))%nat) as [Hlt|Hge].
  - destruct (IH Hlt) as (n & id' & Hn & Hr). exists n, id'. pose proof (lookup_lt_Some _ _ _ Hn). split; [by rewrite lookup_app_l by done|].
    unfold offset_of, content_of in *. by rewrite take_app_le by lia.
  - exists (length ids), id. split; [by apply list_lookup_middle|]. unfold offset_of, content_of, zlen. rewrite take_app_length. lia.
Qed.

(** At the end every file is complete, or was reported. *)
Lemma finished_content w i f :
  run_inv w -> all_returned w -> s_group (w_shared w) = Ok tt -> r_files r !! i = Some f ->
  reported (w_shared w) i \/ file_has (w_shared w) f (fun c => c = goal f).
Proof using HF.
  intros [H1 H2 H3 H4 H5 H6] Hend Hg Hf. assert (crashed (w_shared w) = false) as Hcr by (unfold crashed; by rewrite Hg).
  destruct Hend as [?|[Hall Hd]]; [congruence|]. rewrite Forall_forall in Hall. specialize (H1 Hcr).
  assert (forall n id, ids_of f !! n = Some id -> settled (w_shared w) i f (offset_of data (ids_of f) n) id) as Hset.
  { intros n id Hn. destruct (H2 Hg i f n id Hf Hn) as [H|[(ids & E & _)|(k & wk & Hk & Hc)]]; [done| |].
    - destruct Hd as [Hd|Hd]; congruence.
    - apply list_elem_of_lookup_2, Hall in Hk. by subst wk. }
  destruct (decide (i ∈ (s_errors (w_shared w)).*1)) as [Hin|Hn].
  { left. apply list_elem_of_fmap in Hin as ([i' e] & -> & Hin). by exists e. }
  assert (~ reported (w_shared w) i) as Hnr by (intros [e Hr]; apply Hn; apply list_elem_of_fmap; by exists (i, e)).
  assert (forall n id, ids_of f !! n = Some id -> placed (w_shared w) i f (Z.to_nat (offset_of data (ids_of f) n)) (length (data id))) as Hpl'.
  { intros n id Hid. by destruct (Hset n id Hid). }
  right. destruct (fo_fresh _ _ _ HF i f Hf) as (_ & _ & Hne). destruct (ids_of f) as [|id0 ids] eqn:Eids; [done|].
  destruct (Hpl' 0%nat id0 eq_refl) as (Hst & _).
  destruct (fi_started _ _ _ _ (wi_file _ _ H1 i f Hf) Hst) as [?|(ino & c & Hp & Hc & Ht & _)]; [done|].
  exists ino, c. split; [done|]. split; [done|]. apply holds_all; [done|]. intros p Hpl2. unfold goal in *. rewrite Eids in *.
  destruct (goal_piece _ p Hpl2) as (n & id & Hid & Hr). destruct (Hpl' n id Hid) as (_ & ino' & c' & Hp' & Hc' & Hh).
  rewrite Hp in Hp'. injection Hp' as <-. rewrite Hc in Hc'. injection Hc' as <-. unfold goal in Hh. rewrite Eids in Hh. apply Hh.
  unfold offset_of, zlen in *. lia.
Qed.

(** * Progress *)

Definition is_idle (wk : worker) : bool := match wk with Waiting | Returned => true | _ => false end.
Definition can_go (s : shared) (wk : worker) : Prop := exists x, step_worker s wk = Some x.

(** A worker that has a file open can go on. *)
Lemma user_goes s wk i : worker_inv s wk -> uses i wk = true -> can_go s wk.
Proof.
  intros Hw Hu. destruct wk as [|pack [|[j d off|j e] todo] res ph|e todo|]; try done. destruct ph as [|own wr|own err]; [done| |].
  - unfold can_go. cbn. destruct (partialFile_WriteAt wr d off (s_os s)) as [o' [n err]]. by eexists.
  - destruct Hw as (_ & (f & Hf & _) & _). unfold can_go. cbn. unfold release_step. rewrite Hf. destruct (releaseWriter _ _ _ _) as [[w o'] res']. by eexists.
Qed.

Lemma owner_uses i wk : owns i wk = true -> uses i wk = true.
Proof. destruct wk as [|pack [|[j d off|j e] todo] res [|[] ?|[] ?]|e todo|]; done. Qed.

Lemma worker_goes s ws k wk : world_inv s ws -> ws !! k = Some wk -> wk <> Waiting -> wk <> Returned ->
  exists k' wk', ws !! k' = Some wk' /\ can_go s wk'.
Proof using Hpl.
  intros Hi Hk Hw Hr. pose proof Hi as [Hf _ _ _ Hwk Hl]. destruct wk as [|pack todo res ph|e todo|]; [done| | |done].
  - destruct todo as [|[i d off|i e] rest].
    + exists k. eexists. split; [done|]. unfold can_go. cbn. destruct res; by eexists.
    + destruct ph as [|own wr|own err].
      * destruct (decide (i ∈ s_locks s)) as [Hin|Hnin].
        -- destruct (Hl i Hin) as (k' & wk' & Hk' & Ho). exists k', wk'. split; [done|]. apply (user_goes s wk' i); [by apply (Hwk k')|by apply owner_uses].
        -- destruct (Hwk k _ Hk) as (Ha & _). destruct (Ha i d off ltac:(left)) as (id & (f & kk & Hif & _) & _).
           exists k. eexists. split; [done|]. unfold can_go. cbn. unfold open_step.
           assert (is_Some (s_files s !! i)) as [f' ->].
           { apply lookup_lt_is_Some. destruct Hf as [-> _]. rewrite (pk_length _ _ _ _ _ Hpl). by apply lookup_lt_Some in Hif. }
           rewrite bool_decide_eq_false_2 by done. destruct (acquireWriter _ _ _ _ _ _) as [[w o'] res']. by eexists.
      * exists k. eexists. split; [done|]. apply (user_goes s _ i); [by apply (Hwk k)|cbn; apply Nat.eqb_refl].
      * exists k. eexists. split; [done|]. apply (user_goes s _ i); [by apply (Hwk k)|cbn; apply Nat.eqb_refl].
    + exists k. eexists. split; [done|]. by eexists.
  - exists k. eexists. split; [done|]. unfold can_go. destruct todo as [|i todo]; [by eexists|]. cbn.
    destruct (match s_files s !! i with Some f => _ | None => _ end); by eexists.
Qed.

(** Unless the dispatcher has given up, something can go on until [Wait] returns. *)
Lemma run_goes w : run_inv w -> (0 < r_workerCount r)%nat -> w_dispatch w <> Stopped -> ~ all_returned w -> exists w', step_ w w'.
Proof using Hpl.
  intros [H1 H2 H3 H4 H5 H6] Hw Hd Hn. destruct w as [s ws d]. cbn [w_shared w_workers w_dispatch] in *.
  assert (crashed s = false) as Hcr by (destruct (crashed s) eqn:E; [by destruct Hn; left|done]). specialize (H1 Hcr).
  destruct (decide (Forall (fun wk => is_idle wk = true) ws)) as [Hall|Hex].
  2: { apply not_Forall_Exists in Hex; [|apply _].
    apply Exists_exists in Hex as (wk & Hin & Hne). apply list_elem_of_lookup in Hin as [k Hk].
    destruct (worker_goes s ws k wk H1 Hk) as (k' & wk' & Hk' & [[s' wk2] Hs]); [intros ->; by apply Hne|intros ->; by apply Hne|].
    eexists. by apply (r_work _ _ _ _ _ _ _ _ _ _ _ _ s ws d k' wk' s' wk2). }
  rewrite Forall_forall in Hall.
  destruct (decide (Exists (fun wk => is_waiting wk = true) ws)) as [Hwait|Hnw].
  - apply Exists_exists in Hwait as (wk & Hin & Hwt). apply list_elem_of_lookup in Hin as [k Hk]. destruct wk; try done.
    destruct d as [[|id ids]| |]; [| | |done].
    + eexists. by apply r_close.
    + destruct (H3 _ eq_refl id ltac:(left)) as [pack Hp]. eexists. by apply (r_send _ _ _ _ _ _ _ _ _ _ _ _ s ws id ids k pack).
    + eexists. by apply (r_return _ _ _ _ _ _ _ _ _ _ _ _ s ws k).
  - assert (forall wk, wk ∈ ws -> wk = Returned) as Hret.
    { intros wk Hin. specialize (Hall wk Hin). destruct wk; try done. exfalso. apply Hnw, Exists_exists. by exists Waiting. }
    destruct ws as [|wk ws]; [cbn in H6; lia|]. assert (Returned ∈ wk :: ws) as Hin by (pose proof (Hret wk ltac:(left)) as ->; left).
    destruct d as [[|id ids]| |]; [| | |done].
    + eexists. by apply r_close.
    + destruct (H5 Hin) as [[=]|Hg]. eexists. by apply r_stop.
    + exfalso. apply Hn. right. split; [by apply Forall_forall|by left].
Qed.

(** ** Every run ends *)

Definition fail_weight (pack : packInfo) : nat := 2 + length (iter (pi_files pack)).
Definition phase_weight (ph : phase) : nat := match ph with Ready => 2 | Opened _ _ => 1 | Written _ _ => 0 end.
Definition worker_weight (wk : worker) : nat :=
  match wk with
  | Waiting => 1
  | Streaming pack todo _ ph => 4 * length todo + phase_weight ph + fail_weight pack + 1
  | Failing _ todo => 2 + length todo
  | Returned => 0
  end.
Definition pack_weight (id : ID) : nat :=
  match pl_packs pl !! id with
  | Some pack => 1 + worker_weight (start_ (pl_files pl) pack).1
  | None => 0
  end.
Fixpoint workers_weight (ws : list worker) : nat := match ws with [] => 0 | wk :: ws => worker_weight wk + workers_weight ws end.
Fixpoint packs_weight (ids : list ID) : nat := match ids with [] => 0 | id :: ids => pack_weight id + packs_weight ids end.
Definition world_weight (w : world) : nat :=
  workers_weight (w_workers w) + match w_dispatch w with Sending ids => 1 + packs_weight ids | _ => 0 end.

Lemma workers_weight_insert ws k wk wk' :
  ws !! k = Some wk -> (workers_weight (<[k := wk']> ws) + worker_weight wk = workers_weight ws + worker_weight wk')%nat.
Proof.
  revert k. induction ws as [|w ws IH]; intros [|k]; [done..| |].
  - intros [= ->]. change (workers_weight (<[0%nat := wk']> (wk :: ws))) with (worker_weight wk' + workers_weight ws)%nat. cbn [workers_weight]. lia.
  - intros Hk. specialize (IH k Hk). change (workers_weight (<[S k := wk']> (w :: ws))) with (worker_weight w + workers_weight (<[k := wk']> ws))%nat. cbn [workers_weight]. lia.
Qed.

Lemma call_ends_weight s pack i a todo res err s' wk ph :
  call_ends iter Error s pack i todo res err = (s', wk) -> (worker_weight wk < worker_weight (Streaming pack (a :: todo) res ph))%nat.
Proof. intros (_ & _ & [->|[e ->]])%call_ends_core; cbn; unfold fail_weight; destruct ph; cbn; lia. Qed.

Lemma worker_step_weight s wk s' wk' : step_worker s wk = Some (s', wk') -> (worker_weight wk' < worker_weight wk)%nat.
Proof.
  intros Hs. destruct wk as [|pack todo res ph|e todo|]; [done| | |done].
  - destruct todo as [|[i d off|i e] rest].
    + cbn in Hs. destruct res as [[]|e|p]; injection Hs as _ <-; cbn; unfold fail_weight; lia.
    + destruct ph as [|own wr|own err].
      * unfold worker_step, open_step in Hs. destruct (s_files s !! i); [|done]. case_bool_decide; [done|]. destruct (acquireWriter _ _ _ _ _ _) as [[w o'] [wr|e|p]]; apply (inj Some) in Hs.
        -- injection Hs as _ <-. cbn. lia.
        -- by eapply call_ends_weight.
        -- injection Hs as _ <-. cbn. lia.
      * cbn in Hs. destruct (partialFile_WriteAt _ _ _ _) as [? [? ?]]. injection Hs as _ <-. cbn. lia.
      * cbn in Hs. unfold release_step in Hs. destruct (s_files s !! i); [|done]. destruct (releaseWriter _ _ _ _) as [[w o'] [u|e|p]]; apply (inj Some) in Hs.
        -- by eapply call_ends_weight.
        -- by eapply call_ends_weight.
        -- injection Hs as _ <-. cbn. lia.
    + unfold worker_step in Hs. apply (inj Some) in Hs. by eapply call_ends_weight.
  - destruct todo as [|i todo]; cbn in Hs; [injection Hs as _ <-; cbn; lia|].
    destruct (match s_files s !! i with Some f => _ | None => _ end); injection Hs as _ <-; cbn; lia.
Qed.

Lemma step_weight w w' : run_inv w -> step_ w w' -> (world_weight w' < world_weight w)%nat.
Proof.
  intros Hi Hs. destruct Hs as [s ws d k wk s' wk' Hcr Hk Hs|s ws id ids k pack Hcr Hk Hp|s ws Hcr|s ws id ids Hcr Hg|s ws k Hcr Hk]; unfold world_weight; cbn [w_workers w_dispatch packs_weight].
  - pose proof (workers_weight_insert ws k wk wk' Hk). apply worker_step_weight in Hs. lia.
  - pose proof (workers_weight_insert ws k Waiting (start_ (s_files s) pack).1 Hk) as Hw. unfold pack_weight. rewrite Hp.
    assert (start_ (s_files s) pack = start_ (pl_files pl) pack) as E.
    { unfold start_pack, downloadPack. rewrite (pack_mapping_ext idx iter (s_files s) (pl_files pl)); [done|]. apply files_blobs. by apply (wi_files _ _ (ri_world _ Hi Hcr)). }
    rewrite E in *. cbn [worker_weight] in Hw. lia.
  - lia.
  - lia.
  - pose proof (workers_weight_insert ws k Waiting Returned Hk) as Hw. cbn in Hw. lia.
Qed.

Lemma runs_end w : run_inv w -> Acc (fun w2 w1 => step_ w1 w2) w.
Proof using HF Hiter Hpl Hcoll Htargets.
  remember (world_weight w) as n eqn:En. revert w En. induction (lt_wf n) as [n _ IH]. intros w -> Hi. constructor. intros w' Hs.
  apply (IH (world_weight w')); [by apply step_weight|done|by apply (step_inv w)].
Qed.
End World.

Section Theorems.
Context (aes_Encrypt : list byte -> list byte -> list byte).
Context (poly1305_Verify : list byte -> list byte -> list byte -> bool).
Context (Hash : list byte -> ID) (zstd_DecodeAll : list byte -> outcome (list byte)).
Context (Sum64String : string -> Z).
Context (idx : BlobHandle -> outcome (list PackedBlob)) (iter : gset nat -> list nat) (zeroChunk : ID).
Context (beLoad : Handle -> Z -> Z -> list (outcome (list byte))) (key : Key).
Context (Error : string -> error -> option error).
Context (r : fileRestorer) (data : ID -> list byte) (o : os).
Context (Hiter : forall s, iter s ≡ₚ elements s).

(** The contents that are handed over for the blobs of the files are those that
    were saved: no other content with the same hash is met. *)
Definition no_collision : Prop :=
  forall pl id d, plan_files idx zeroChunk r = Ok pl ->
    handed aes_Encrypt poly1305_Verify Hash zstd_DecodeAll idx iter beLoad key (pl_files pl) (pl_packs pl) id d -> Hash d = id -> d = data id.

(** The files have different targets, and where those exist already they are not
    links to the same file. *)
Definition separate_targets : Prop :=
  forall i j f g, r_files r !! i = Some f -> r_files r !! j = Some g -> targetPath r (fr_location f) = targetPath r (fr_location g) -> i = j.

Context (HF : files_ok idx r data) (Hworkers : (0 < r_workerCount r)%nat).
Context (Htargets : separate_targets) (Hos : os_inv r o) (Hcoll : no_collision).

(** C8. When [restoreFiles] ends without an error, every file has the content of its
    blobs, or an error of its was reported to [Error]: whatever the order of the
    workers, whichever calls of the file system fail or write only a part,
    whatever the backend delivers, and for sparse files too. *)
Theorem restore_content (w : world)
    (Hrun : restoreFiles aes_Encrypt poly1305_Verify Hash zstd_DecodeAll Sum64String idx iter beLoad key Error r zeroChunk o w (Ok tt)) :
  forall i f, r_files r !! i = Some f ->
    (exists e, (i, e) ∈ s_errors (w_shared w)) \/
    file_content (s_os (w_shared w)) (targetPath r (fr_location f)) = Some (content_of data (ids_of f)).
Proof using Hiter HF Hworkers Htargets Hos Hcoll.
  intros i f Hf. unfold restoreFiles in Hrun. destruct (plan_files_ok idx zeroChunk r data HF) as (pl & Epl & Hpl). rewrite Epl in Hrun.
  destruct Hrun as (Hrtc & Hend & Hg). symmetry in Hg.
  assert (run_inv Sum64String idx r data pl w) as Hi by (eapply run_inv_rtc; try done; intros; by eapply Hcoll).
  destruct (finished_content Sum64String idx r data pl HF w i f Hi Hend Hg Hf) as [Hr|(ino & c & Hp & Hc & ->)]; [by left|right].
  unfold file_content. by rewrite Hp.
Qed.

(** C9. Every run of [restoreFiles] ends, and as long as the dispatcher has not given
    up something can go on: no lock is waited for in vain. *)
Theorem restore_ends :
  exists pl, plan_files idx zeroChunk r = Ok pl /\
    let step := rstep aes_Encrypt poly1305_Verify Hash zstd_DecodeAll Sum64String idx iter beLoad key Error r (pl_packs pl) in
    Acc (fun w2 w1 => step w1 w2) (init_world r pl o) /\
    forall w, rtc step (init_world r pl o) w -> w_dispatch w <> Stopped -> ~ all_returned w -> exists w', step w w'.
Proof using Hiter HF Hworkers Htargets Hos Hcoll.
  destruct (plan_files_ok idx zeroChunk r data HF) as (pl & Epl & Hpl). exists pl. split; [done|]. split.
  - eapply runs_end; try done; [intros; by eapply Hcoll|]. by eapply restore_init_inv.
  - intros w Hrtc Hd Hn. eapply run_goes; try done. eapply run_inv_rtc; try done. intros; by eapply Hcoll.
Qed.
End Theorems.

(** * The schedule of [run_restore] is one of the runs *)

Lemma first_step_inv Sum64String iter Error r s k ws s' k' wk' :
  first_step Sum64String iter Error r s k ws = Some (s', k', wk') ->
  (k <= k')%nat /\ exists wk, ws !! (k' - k)%nat = Some wk /\ worker_step Sum64String iter Error r s wk = Some (s', wk').
Proof.
  revert k. induction ws as [|wk ws IH]; intros k; [done|]. cbn. destruct (worker_step _ _ _ _ s wk) as [[s1 wk1]|] eqn:E.
  - intros [= <- <- <-]. split; [lia|]. exists wk. by rewrite Nat.sub_diag.
  - intros (Hle & wk2 & Hk & Hs)%IH. split; [lia|]. exists wk2. by replace (k' - k)%nat with (S (k' - S k)) by lia.
Qed.

Section Schedule.
Context (aes_Encrypt : list byte -> list byte -> list byte).
Context (poly1305_Verify : list byte -> list byte -> list byte -> bool).
Context (Hash : list byte -> ID) (zstd_DecodeAll : list byte -> outcome (list byte)).
Context (Sum64String : string -> Z).
Context (idx : BlobHandle -> outcome (list PackedBlob)) (iter : gset nat -> list nat).
Context (beLoad : Handle -> Z -> Z -> list (outcome (list byte))) (key : Key).
Context (Error : string -> error -> option error) (r : fileRestorer) (packs : gmap ID packInfo).

Abbreviation step_ := (rstep aes_Encrypt poly1305_Verify Hash zstd_DecodeAll Sum64String idx iter beLoad key Error r packs).
Abbreviation run_ := (run_restore aes_Encrypt poly1305_Verify Hash zstd_DecodeAll Sum64String idx iter beLoad key Error r packs).

Lemma rschedule_step w w' :
  rschedule aes_Encrypt poly1305_Verify Hash zstd_DecodeAll Sum64String idx iter beLoad key Error r packs w = Some w' -> step_ w w'.
Proof.
  destruct w as [s ws d]. unfold rschedule. destruct (crashed s) eqn:Hcr; [done|].
  destruct (first_step Sum64String iter Error r s 0 ws) as [[[s' k] wk']|] eqn:E.
  - intros [= <-]. apply first_step_inv in E as (_ & wk & Hk & Hs). rewrite Nat.sub_0_r in Hk. by apply (r_work _ _ _ _ _ _ _ _ _ _ _ _ _ _ _ _ wk).
  - destruct (list_find _ ws) as [[k wk]|] eqn:Ef.
    + apply list_find_Some in Ef as (Hk & Hw & _). destruct wk; try done. destruct d as [[|id ids]| |]; [| | |done].
      * intros [= <-]. by apply r_close.
      * destruct (packs !! id) as [pack|] eqn:Ep; [|done]. intros [= <-]. by apply r_send.
      * intros [= <-]. by apply r_return.
    + destruct d as [[|id ids]| |]; try done. intros [= <-]. by apply r_close.
Qed.

Lemma run_restore_rtc fuel w : rtc step_ w (run_ fuel w).
Proof.
  revert w. induction fuel as [|fuel IH]; intros w; [done|]. cbn [run_restore]. destruct (rschedule _ _ _ _ _ _ _ _ _ _ _ _ w) as [w'|] eqn:E; [|done].
  eapply rtc_l; [by apply rschedule_step|apply IH].
Qed.

(** A dispatcher that has given up has not closed the channel: a worker that waits
    for a pack then waits for ever, and so does [wg.Wait]. *)
Lemma stopped_waits w w' :
  rtc step_ w w' -> w_dispatch w = Stopped -> Waiting ∈ w_workers w -> w_dispatch w' = Stopped /\ Waiting ∈ w_workers w'.
Proof.
  induction 1 as [|w1 w2 w3 Hs _ IH]; [done|]. intros Hd Hw. apply IH; clear IH.
  - by destruct Hs.
  - destruct Hs as [s ws d k wk s' wk' Hcr Hk Hs| | | |]; cbn in *; try done. apply list_elem_of_lookup in Hw as [j Hj].
    apply list_elem_of_lookup. exists j. rewrite list_lookup_insert_ne; [done|]. intros ->. rewrite Hk in Hj. by injection Hj as ->.
Qed.
End Schedule.

(** ** Two files from one pack *)

Definition ex_data (id : ID) : list byte :=
  if bool_decide (id = ex_sha ["x"; "y"]%byte) then ["x"; "y"]%byte else if bool_decide (id = ex_sha ["z"]%byte) then ["z"]%byte else [].
Definition ex_lookup (h : BlobHandle) : outcome (list PackedBlob) :=
  Ok ((fun b => mkPackedBlob b (ex_id "p"%byte)) <$> filter (fun b => b_handle b = h) ex_pack_blobs).
Definition ex_restorer : fileRestorer :=
  let r := newFileRestorer "/dst" 2 true in
  let r := addFile r "/a" [ex_sha ["x"; "y"]; ex_sha ["z"]; ex_sha ["x"; "y"]]%byte 5 in
  addFile r "/b" [ex_sha ["z"]%byte] 1.
Definition ex_os : os := mkOs {["/dst/b" := Regular 7]} {[7%nat := ["o"; "l"; "d"]%byte]} [].
Definition ex_hash (s : string) : Z := Z.of_nat (String.length s).
Definition abort_on_error (_ : string) (e : error) : option error := Some e.

Definition ex_plan : plan := match plan_files ex_lookup nullID ex_restorer with Ok pl => pl | _ => mkPlan ∅ [] [] end.
Lemma ex_plan_eq : plan_files ex_lookup nullID ex_restorer = Ok ex_plan.
Proof. vm_compute. reflexivity. Qed.

Abbreviation ex_init := (init_world ex_restorer ex_plan ex_os).
Definition ex_world : world :=
  run_restore ex_aes ex_verify ex_sha ex_zstd_DecodeAll ex_hash ex_lookup elements ex_beLoad ex_key abort_on_error ex_restorer (pl_packs ex_plan) 100 ex_init.

Lemma ex_files_ok : files_ok ex_lookup ex_restorer ex_data.
Proof.
  split.
  - intros i f Hf. destruct i as [|[|i]]; cbn in Hf; simplify_eq; done.
  - intros i f Hf. destruct i as [|[|i]]; cbn in Hf; simplify_eq; split; vm_compute; reflexivity.
  - intros i f id Hf Hid.
    assert (id = ex_sha ["x"; "y"]%byte \/ id = ex_sha ["z"]%byte) as [->| ->].
    { destruct i as [|[|i]]; cbn in Hf; simplify_eq; unfold ids_of in Hid; cbn [fr_blobs] in Hid; set_solver. }
    + eexists _, []. split; [vm_compute; reflexivity|]. constructor; [|constructor]. split; vm_compute; reflexivity.
    + eexists _, []. split; [vm_compute; reflexivity|]. constructor; [|constructor]. split; vm_compute; reflexivity.
Qed.

Lemma ex_separate : separate_targets ex_restorer.
Proof.
  intros i j f g Hf Hg. destruct i as [|[|i]], j as [|[|j]]; cbn in Hf, Hg; simplify_eq; try done; vm_compute; intros [=].
Qed.

Lemma ex_os_inv : os_inv ex_restorer ex_os.
Proof.
  split.
  - intros p ino Hp. cbn in Hp. apply lookup_singleton_Some in Hp as [_ [= <-]]. cbn. rewrite lookup_singleton_eq. by eexists.
  - intros i j f g ino Hf Hg Hp Hq. cbn in Hp, Hq. apply lookup_singleton_Some in Hp as [Hp _]. apply lookup_singleton_Some in Hq as [Hq _].
    apply (ex_separate i j f g Hf Hg). congruence.
Qed.

(** The contents of a pack that are handed over. *)
Definition ex_handed_ok : bool :=
  forallb (fun p : ID * packInfo =>
    match pack_mapping ex_lookup elements (pl_files ex_plan) p.2 with
    | Ok (m, blobList) =>
        forallb (fun ev : event => match ev.2 with Ok d => bool_decide (d = ex_data (bh_ID ev.1)) | _ => true end)
          (StreamPack ex_aes ex_verify ex_sha ex_zstd_DecodeAll (load_attempts ex_beLoad) ex_key (pi_id p.2) record_event [] blobList).1
    | _ => true
    end) (map_to_list (pl_packs ex_plan)).

Lemma ex_restore_no_collision : no_collision ex_aes ex_verify ex_sha ex_zstd_DecodeAll ex_lookup elements nullID ex_beLoad ex_key ex_restorer ex_data.
Proof.
  intros pl id d Epl (pk & pack & m & bl & h & Hp & Hm & <- & Hin) _. rewrite ex_plan_eq in Epl. injection Epl as <-.
  assert (ex_handed_ok = true) as Hok by (vm_compute; reflexivity). unfold ex_handed_ok in Hok. rewrite forallb_forall in Hok.
  apply elem_of_map_to_list in Hp. apply list_elem_of_In in Hp. specialize (Hok _ Hp). cbn [snd] in Hok. rewrite Hm in Hok.
  rewrite forallb_forall in Hok. apply list_elem_of_In in Hin. specialize (Hok _ Hin). cbn in Hok. by apply bool_decide_eq_true in Hok.
Qed.

Definition is_returned (wk : worker) : bool := match wk with Returned => true | _ => false end.
Definition ex_finished (w : world) : bool :=
  forallb is_returned (w_workers w) && match w_dispatch w, s_group (w_shared w), s_errors (w_shared w) with Closed, Ok _, [] => true | _, _, _ => false end.

Lemma ex_finished_inv w : ex_finished w = true -> all_returned w /\ s_group (w_shared w) = Ok tt /\ s_errors (w_shared w) = [].
Proof.
  unfold ex_finished, all_returned. intros [Hret Hend]%andb_true_iff.
  destruct (w_dispatch w); try done. destruct (s_group (w_shared w)) as [[]|e|p]; try done. destruct (s_errors (w_shared w)); [|done].
  split_and!; [|done|done]. right. split; [|by left]. apply Forall_forall. intros wk Hin. rewrite forallb_forall in Hret.
  apply list_elem_of_In, Hret in Hin. by destruct wk.
Qed.

Lemma ex_finishes : ex_finished ex_world = true.
Proof. vm_compute. reflexivity. Qed.

Lemma ex_restores : restoreFiles ex_aes ex_verify ex_sha ex_zstd_DecodeAll ex_hash ex_lookup elements ex_beLoad ex_key abort_on_error ex_restorer nullID ex_os ex_world (Ok tt).
Proof.
  unfold restoreFiles. rewrite ex_plan_eq. destruct (ex_finished_inv _ ex_finishes) as (H1 & H2 & _).
  split; [apply run_restore_rtc|]. split; [exact H1|]. by rewrite H2.
Qed.

Lemma restore_content_witness :
  file_content (s_os (w_shared ex_world)) "/dst/a" = Some ["x"; "y"; "z"; "x"; "y"]%byte /\
  file_content (s_os (w_shared ex_world)) "/dst/b" = Some ["z"]%byte.
Proof.
  pose proof (restore_content ex_aes ex_verify ex_sha ex_zstd_DecodeAll ex_hash ex_lookup elements nullID ex_beLoad ex_key abort_on_error ex_restorer ex_data ex_os
    (fun s => reflexivity (R := Permutation) (elements s)) ex_files_ok ltac:(cbn; lia) ex_separate ex_os_inv ex_restore_no_collision ex_world ex_restores) as H.
  destruct (ex_finished_inv _ ex_finishes) as (_ & _ & Ee). rewrite Ee in H. generalize dependent ex_world. intros w H _. split.
  - destruct (H 0%nat _ eq_refl) as [[e He%elem_of_nil]|Hc]; [done|]. exact Hc.
  - destruct (H 1%nat _ eq_refl) as [[e He%elem_of_nil]|Hc]; [done|]. exact Hc.
Defined.

Lemma restore_ends_witness :
  Acc (fun w2 w1 => rstep ex_aes ex_verify ex_sha ex_zstd_DecodeAll ex_hash ex_lookup elements ex_beLoad ex_key abort_on_error ex_restorer (pl_packs ex_plan) w1 w2) ex_init.
Proof.
  destruct (restore_ends ex_aes ex_verify ex_sha ex_zstd_DecodeAll ex_hash ex_lookup elements nullID ex_beLoad ex_key abort_on_error ex_restorer ex_data ex_os
    (fun s => reflexivity (R := Permutation) (elements s)) ex_files_ok ltac:(cbn; lia) ex_separate ex_os_inv ex_restore_no_collision) as (pl & Epl & Hacc & _).
  rewrite ex_plan_eq in Epl. injection Epl as <-. exact Hacc.
Defined.

(** ** A failing download *)

Lemma idle_stopped_stuck {aes_Encrypt poly1305_Verify Hash zstd_DecodeAll Sum64String idx iter beLoad key Error r packs} w w' :
  forallb is_idle (w_workers w) = true -> w_dispatch w = Stopped ->
  ~ rstep aes_Encrypt poly1305_Verify Hash zstd_DecodeAll Sum64String idx iter beLoad key Error r packs w w'.
Proof.
  intros Hall Hd Hs. rewrite forallb_forall in Hall. destruct Hs as [s ws d k wk s' wk' Hcr Hk Hs| | | |]; cbn in *; try done.
  apply list_elem_of_lookup_2, list_elem_of_In, Hall in Hk. by destruct wk.
Qed.

Definition ex2_lookup (h : BlobHandle) : outcome (list PackedBlob) :=
  Ok [mkPackedBlob (mkBlob h 33 0 0) (if bool_decide (bh_ID h = ex_id "1"%byte) then ex_id "p"%byte else ex_id "q"%byte)].
Definition ex2_restorer : fileRestorer := addFile (addFile (newFileRestorer "/dst" 2 false) "/a" [ex_id "1"%byte] 1) "/b" [ex_id "2"%byte] 1.
Definition ex2_beLoad (_ : Handle) (_ _ : Z) : list (outcome (list byte)) := [Err (ErrMsg "connection lost")].
Definition ex2_plan : plan := match plan_files ex2_lookup nullID ex2_restorer with Ok pl => pl | _ => mkPlan ∅ [] [] end.
Definition ex2_world : world :=
  run_restore ex_aes ex_verify ex_sha ex_zstd_DecodeAll ex_hash ex2_lookup elements ex2_beLoad ex_key abort_on_error ex2_restorer (pl_packs ex2_plan) 3
    (init_world ex2_restorer ex2_plan ex_os).
Definition ex2_check (w : world) : bool :=
  match w with mkWorld s [Returned; Waiting] (Sending [_]) => match s_group s with Err _ => true | _ => false end | _ => false end.

(** When a worker fails, the dispatcher may see the cancelled context first: it
    returns without closing the channel, and then [restoreFiles] never returns if
    another worker waits for a pack. *)
Theorem restore_hangs :
  exists w, rtc (rstep ex_aes ex_verify ex_sha ex_zstd_DecodeAll ex_hash ex2_lookup elements ex2_beLoad ex_key abort_on_error ex2_restorer (pl_packs ex2_plan))
      (init_world ex2_restorer ex2_plan ex_os) w /\
    ~ all_returned w /\
    ~ exists w', rstep ex_aes ex_verify ex_sha ex_zstd_DecodeAll ex_hash ex2_lookup elements ex2_beLoad ex_key abort_on_error ex2_restorer (pl_packs ex2_plan) w w'.
Proof.
  assert (ex2_check ex2_world = true) as Hc by (vm_compute; reflexivity).
  assert (rtc (rstep ex_aes ex_verify ex_sha ex_zstd_DecodeAll ex_hash ex2_lookup elements ex2_beLoad ex_key abort_on_error ex2_restorer (pl_packs ex2_plan))
      (init_world ex2_restorer ex2_plan ex_os) ex2_world) as Hrun by apply run_restore_rtc.
  generalize dependent ex2_world. intros [s ws d] Hc Hrun. unfold ex2_check in Hc.
  destruct ws as [|[| | |] [|[| | |] [|]]]; try discriminate Hc. destruct d as [[|id [|]]| |]; try discriminate Hc.
  destruct (s_group s) as [|e|] eqn:Eg; try discriminate Hc. exists (mkWorld s [Returned; Waiting] Stopped). split_and!.
  - eapply rtc_r; [exact Hrun|]. apply r_stop; [unfold crashed; by rewrite Eg|by rewrite Eg].
  - intros [Hcr|[Hall _]]; [unfold crashed in Hcr; cbn in Hcr; by rewrite Eg in Hcr|]. cbn in Hall. apply Forall_cons in Hall as [_ Hall]. by apply Forall_cons in Hall as [? _].
  - intros [w' Hs]. by apply idle_stopped_stuck in Hs.
Qed.
