(* ===== verification/NodeRestore.v ===== *)
(** Creating nodes on a file system and restoring their metadata
    (src/restic/node.go, node_linux.go, node_unix.go, node_xattr.go).

    The modelled file system holds no metadata: the calls that set them are
    recorded in the order they are made, each with the error it ended with. *)

From S2P Require Import Prelude Bytes GoString GoTime Restic Snapshot Tree FsPath Os.

#[local] Open Scope Z_scope.

Inductive meta_call :=
  | Lchown (path : string) (uid gid : Z)
  | Chmod (path : string) (mode : Z)
  | UtimesNano (path : string) (atime mtime : Z)
  | UtimesNanoAt (dir name : string) (atime mtime : Z)
  | Lsetxattr (path name : string) (value : list byte).

(** The file system and the calls made. *)
Record node_os := mkNodeOs { no_os : os; no_calls : list (meta_call * option error) }.

Definition ErrPermission : error := ErrMsg "operation not permitted".
Definition ENOTSUP : error := ErrMsg "operation not supported".
Definition ENOATTR : error := ErrMsg "no data available".
Definition IsPermission (e : error) : bool := bool_decide (e = ErrPermission).

Definition call (c : meta_call) (s : node_os) : node_os * option error :=
  let '(o, err) := os_call (no_os s) in (mkNodeOs o (no_calls s ++ [(c, err)]), err).
Definition on_os (s : node_os) (f : os -> os * option error) : node_os * option error :=
  let '(o, err) := f (no_os s) in (mkNodeOs o (no_calls s), err).

(** * Metadata *)

(** Nanoseconds since 1970, as an [int64]. *)
Definition unix_epoch : Z := 62135596800 * second_ns.
Definition UnixNano (t : Time) : Z := i64 (t_ns t - unix_epoch).

(** [fs.Chmod] ignores that the file system does not support it. *)
Definition fs_Chmod (path : string) (mode : Z) (s : node_os) : node_os * option error :=
  let '(s, err) := call (Chmod path mode) s in
  (s, match err with Some e => if bool_decide (e = ENOTSUP) then None else Some e | None => None end).

Definition handleXattrErr (err : option error) : option error :=
  match err with Some e => if bool_decide (e = ENOTSUP) || bool_decide (e = ENOATTR) then None else Some e | None => None end.

Definition Setxattr (path name : string) (value : list byte) (s : node_os) : node_os * option error :=
  let '(s, err) := call (Lsetxattr path name value) s in (s, handleXattrErr err).

Definition restoreSymlinkTimestamps (path : string) (atime mtime : Z) (s : node_os) : node_os * option error :=
  match on_os s os_call with                       (* fs.Open(filepath.Dir(path)) *)
  | (s, Some e) => (s, Some e)
  | (s, None) =>
      match call (UtimesNanoAt (filepath_Dir path) (filepath_Base path) atime mtime) s with
      | (s, Some e) => let '(s, _) := on_os s os_call in (s, Some (ErrWrap e "UtimesNanoAt"))
      | (s, None) => on_os s os_call
      end
  end.

Definition RestoreTimestamps (node : Node) (path : string) (s : node_os) : node_os * option error :=
  let atime := UnixNano (n_AccessTime node) in
  let mtime := UnixNano (n_ModTime node) in
  if String.eqb (n_Type node) "symlink" then restoreSymlinkTimestamps path atime mtime s
  else match call (UtimesNano path atime mtime) s with
       | (s, Some e) => (s, Some (ErrWrap e "UtimesNano"))
       | (s, None) => (s, None)
       end.

Fixpoint restoreExtendedAttributes (attrs : list ExtendedAttribute) (path : string) (s : node_os) : node_os * option error :=
  match attrs with
  | [] => (s, None)
  | attr :: rest =>
      match Setxattr path (xa_Name attr) (xa_Value attr) s with
      | (s, Some e) => (s, Some e)
      | (s, None) => restoreExtendedAttributes rest path s
      end
  end.

(** A later error takes the place of [firsterr] only when there is one. *)
Definition keep_err (firsterr err : option error) : option error :=
  match err, firsterr with Some e, Some _ => Some e | _, _ => firsterr end.

(** [restoreMetadata]; [euid] is [os.Geteuid()]. *)
Definition restoreMetadata (euid : Z) (node : Node) (path : string) (s : node_os) : node_os * option error :=
  let '(s, err) := call (Lchown path (n_UID node) (n_GID node)) s in
  let firsterr := match err with Some e => if (0 <? euid) && IsPermission e then None else Some e | None => None end in
  let '(s, firsterr) :=
    if negb (String.eqb (n_Type node) "symlink") then
      let '(s, err) := fs_Chmod path (n_Mode node) s in (s, keep_err firsterr err)
    else (s, firsterr) in
  let '(s, err) := RestoreTimestamps node path s in
  let firsterr := keep_err firsterr err in
  let '(s, err) := restoreExtendedAttributes (n_ExtendedAttributes node) path s in
  (s, keep_err firsterr err).

Definition RestoreMetadata (euid : Z) (node : Node) (path : string) (s : node_os) : node_os * option error := restoreMetadata euid node path s.

(** * Creating nodes *)

Section Create.
Context (LoadBlob : ID -> outcome (list byte)).

Definition createDirAt (path : string) (s : os) : os * option error :=
  match Mkdir path s with
  | (s, Some e) => (s, if bool_decide (e = ErrExist) then None else Some e)
  | (s, None) => (s, None)
  end.

(** [File.Write] at the end of what was written. *)
Fixpoint writeNodeContent (ino : nat) (content : list ID) (pos : Z) (s : os) : os * outcome unit :=
  match content with
  | [] => (s, Ok tt)
  | id :: rest =>
      match LoadBlob id with
      | Err e => (s, Err e)
      | Panic p => (s, Panic p)
      | Ok buf =>
          match File_WriteAt ino buf pos s with
          | (s, (_, Some e)) => (s, Err e)
          | (s, (_, None)) => writeNodeContent ino rest (pos + zlen buf) s
          end
      end
  end.

Definition createFileAt (node : Node) (path : string) (s : os) : os * outcome unit :=
  match OpenFile true path s with
  | (s, Err e) => (s, Err e)
  | (s, Panic p) => (s, Panic p)
  | (s, Ok ino) =>
      let '(s, err) := writeNodeContent ino (default [] (n_Content node)) 0 s in
      match err with
      | Panic p => (s, Panic p)
      | _ =>
          let '(s, closeErr) := File_Close s in
          (s, match err, closeErr with
              | Err e, _ => Err e
              | _, Some e => Err e
              | _, None => Ok tt
              end)
      end
  end.

Definition createSymlinkAt (node : Node) (path : string) (s : os) : os * option error :=
  match Remove path s with
  | (s, Some e) => if bool_decide (e = ErrNotExist) then make_entry (Symlink (n_LinkTarget node)) path s else (s, Some (ErrWrap e "Symlink"))
  | (s, None) => make_entry (Symlink (n_LinkTarget node)) path s
  end.

(** [mknod] and [mkfifo]. *)
Definition createSpecialAt (path : string) (s : os) : os * option error := make_entry Special path s.

Definition to_outcome (r : os * option error) : os * outcome unit := (r.1, match r.2 with Some e => Err e | None => Ok tt end).

Definition CreateAt (node : Node) (path : string) (s : os) : os * outcome unit :=
  let t := n_Type node in
  if String.eqb t "dir" then to_outcome (createDirAt path s)
  else if String.eqb t "file" then createFileAt node path s
  else if String.eqb t "symlink" then to_outcome (createSymlinkAt node path s)
  else if String.eqb t "dev" || String.eqb t "chardev" || String.eqb t "fifo" then to_outcome (createSpecialAt path s)
  else if String.eqb t "socket" then (s, Ok tt)
  else (s, Err (ErrMsg "filetype %q not implemented")).
End Create.

(** * Errors of the metadata *)

Lemma keep_err_some firsterr err : is_Some (keep_err firsterr err) <-> is_Some firsterr.
Proof. destruct firsterr, err; cbn; split; intros [? [=]]; by eexists. Qed.

(** C40. [restoreMetadata] fails exactly when changing the owner fails with an error that
    counts: errors of the mode, the times and the attributes are never reported
    on their own, since they are kept only in place of an earlier one. *)
Theorem restoreMetadata_error (euid : Z) (node : Node) (path : string) (s : node_os) :
  is_Some (RestoreMetadata euid node path s).2 <->
    exists e, (call (Lchown path (n_UID node) (n_GID node)) s).2 = Some e /\ (euid <= 0 \/ IsPermission e = false).
Proof.
  unfold RestoreMetadata, restoreMetadata. destruct (call (Lchown _ _ _) s) as [s1 err]. cbn [snd].
  set (firsterr := match err with Some e => _ | None => None end).
  assert (is_Some firsterr <-> exists e, err = Some e /\ (euid <= 0 \/ IsPermission e = false)) as <-.
  { subst firsterr. destruct err as [e|]; [|split; [by intros []|by intros (? & [=] & _)]]. destruct (Z.ltb_spec 0 euid); cbn [andb].
    - destruct (IsPermission e) eqn:Ep; split; intros [x Hx]; try done; [|by exists e; auto].
      destruct Hx as [[= <-] [?|?]]; [lia|congruence].
    - split; [intros _; exists e; auto|by eexists]. }
  destruct (negb (String.eqb (n_Type node) "symlink")).
  - destruct (fs_Chmod path (n_Mode node) s1) as [s2 e2]. destruct (RestoreTimestamps node path s2) as [s3 e3].
    destruct (restoreExtendedAttributes _ path s3) as [s4 e4]. cbn [snd]. by rewrite !keep_err_some.
  - destruct (RestoreTimestamps node path s1) as [s3 e3]. destruct (restoreExtendedAttributes _ path s3) as [s4 e4]. cbn [snd]. by rewrite !keep_err_some.
Qed.

(** Nothing can be changed but the owner, and no error is returned. *)
Example errors_lost :
  let '(s, err) := RestoreMetadata 0 (mkNode "f" "file" 420 time_zero time_zero time_zero 0 0 "" "" 0 0 0 0 "" [mkXattr "user.a" []] 0 (Some []) None "" "") "/f"
    (mkNodeOs (mkOs ∅ ∅ [None; Some (ErrPermission, 0%nat); Some (ErrPermission, 0%nat); Some (ErrPermission, 0%nat)]) []) in
  err = None /\ ((fun c : meta_call * option error => c.2) <$> no_calls s) = [None; Some ErrPermission; Some ErrPermission; Some ErrPermission].
Proof. by vm_compute. Qed.

(** * The content of a created file *)

Lemma write_at_end c p : write_at c (length c) p = c ++ p.
Proof.
  destruct p as [|x p]; [by rewrite app_nil_r|]. unfold write_at. rewrite Nat.sub_diag. change (zeros 0) with (@nil byte).
  rewrite app_nil_r, firstn_all, drop_ge by lia. by rewrite app_nil_r.
Qed.

Lemma os_fault_same o f o' : next_fault o = (f, o') -> os_paths o' = os_paths o /\ os_data o' = os_data o.
Proof. unfold next_fault. destruct (os_faults o); by intros [= <- <-]. Qed.

Lemma writeNodeContent_ok LoadBlob ino content c s s' :
  os_data s !! ino = Some c -> writeNodeContent LoadBlob ino content (zlen c) s = (s', Ok tt) ->
  exists datas, Forall2 (fun id d => LoadBlob id = Ok d) content datas /\ os_paths s' = os_paths s /\ os_data s' !! ino = Some (c ++ concat datas).
Proof.
  revert c s. induction content as [|id content IH]; intros c s Hc; cbn [writeNodeContent].
  - intros [= <-]. exists []. by rewrite app_nil_r.
  - destruct (LoadBlob id) as [d|e|p] eqn:El; [|done..]. unfold File_WriteAt. destruct (Z.ltb_spec (zlen c) 0); [unfold zlen in *; lia|].
    destruct (next_fault s) as [f s1] eqn:Ef. apply os_fault_same in Ef as [Ep Ed]. destruct f as [[e n]|]; [done|]. rewrite Ed, Hc.
    assert (Z.to_nat (zlen c) = length c) as -> by (unfold zlen; lia). change (default [] (Some c)) with c.
    intros Hw. destruct (IH (c ++ d) (set_data s1 ino (c ++ d))) as (datas & HF & Hp & Hd).
    + cbn. by rewrite lookup_insert_eq.
    + rewrite zlen_app. rewrite <- Hw. by rewrite <- write_at_end.
    + exists (d :: datas). split; [by constructor|]. cbn in Hp. rewrite Hp, Ep. split; [done|]. rewrite Hd. cbn [concat]. by rewrite app_assoc.
Qed.

(** A file that was created without an error has the content of its blobs. *)
Theorem createFileAt_content LoadBlob (node : Node) (path : string) (s s' : os)
    (Hcreate : createFileAt LoadBlob node path s = (s', Ok tt)) :
  exists datas, Forall2 (fun id d => LoadBlob id = Ok d) (default [] (n_Content node)) datas /\ file_content s' path = Some (concat datas).
Proof.
  unfold createFileAt in Hcreate. unfold OpenFile in Hcreate. destruct (next_fault s) as [f s1] eqn:Ef. destruct f as [[e n]|]; [done|].
  assert (exists s2 ino, os_paths s2 !! path = Some (Regular ino) /\ os_data s2 !! ino = Some [] /\
    (let '(s, err) := writeNodeContent LoadBlob ino (default [] (n_Content node)) 0 s2 in
     match err with Panic p => (s, Panic p) | _ => let '(s, closeErr) := File_Close s in
       (s, match err, closeErr with Err e, _ => Err e | _, Some e => Err e | _, None => Ok tt end) end) = (s', Ok tt)) as (s2 & ino & Hp & Hd & Hw).
  { destruct (os_paths s1 !! path) as [[ino| | |]|] eqn:Epath; [|done..|].
    - exists (set_data s1 ino []), ino. split; [done|]. split; [cbn; by rewrite lookup_insert_eq|exact Hcreate].
    - cbn in Hcreate. do 2 eexists. split; [|split; [|exact Hcreate]]; cbn; by rewrite lookup_insert_eq. }
  destruct (writeNodeContent LoadBlob ino _ 0 s2) as [s3 err] eqn:E. destruct err as [[]|e|p]; [| |done].
  - destruct (writeNodeContent_ok _ _ _ [] _ _ Hd E) as (datas & HF & Hp3 & Hd3). exists datas. split; [done|].
    unfold File_Close in Hw. destruct (next_fault s3) as [f3 s4] eqn:Ef3. apply os_fault_same in Ef3 as [Ep Ed].
    destruct (fst <$> f3); [done|]. injection Hw as <-. unfold file_content. by rewrite Ep, Hp3, Hp, Ed, Hd3.
  - unfold File_Close in Hw. destruct (next_fault s3) as [f3 s4]. done.
Qed.

Definition ex_node_file : Node := mkNode "f" "file" 420 time_zero time_zero time_zero 0 0 "" "" 0 0 3 1 "" [] 0 (Some [nullID; nullID]) None "" "".
Definition ex_load_ab (_ : ID) : outcome (list byte) := Ok ["a"; "b"]%byte.

Lemma createFileAt_content_witness : file_content (createFileAt ex_load_ab ex_node_file "/f" (mkOs ∅ ∅ [])).1 "/f" = Some ["a"; "b"; "a"; "b"]%byte.
Proof.
  assert (snd (createFileAt ex_load_ab ex_node_file "/f" (mkOs ∅ ∅ [])) = Ok tt) as E by (vm_compute; reflexivity).
  destruct (createFileAt ex_load_ab ex_node_file "/f" (mkOs ∅ ∅ [])) as [s' r] eqn:Ec. cbn in E. subst r.
  destruct (createFileAt_content ex_load_ab ex_node_file "/f" (mkOs ∅ ∅ []) s' Ec) as (datas & HF & Hc). cbn [fst]. rewrite Hc.
  cbn in HF. apply Forall2_cons_inv_l in HF as (d1 & l1 & H1 & HF & ->). apply Forall2_cons_inv_l in HF as (d2 & l2 & H2 & HF & ->).
  apply Forall2_nil_inv_l in HF as ->. injection H1 as <-. injection H2 as <-. reflexivity.
Defined.
