(* ===== verification/Restorer.v ===== *)
(** Restoring a snapshot (src/internal/restorer/restorer.go, hardlinks_index.go).

    [traverseTree] walks a snapshot and calls a visitor whose functions work on a
    state; [RestoreTo] uses it twice, with [restoreFiles] between the passes, and
    [VerifyFiles] once.  The recursion over subtrees takes fuel: the depth of the
    tree is enough. *)

From S2P Require Import Prelude Bytes GoString Restic Crypto Pack Backend PackerManager Repository StreamPack GoTime Snapshot Tree FsPath Os FilesWriter FileRestorer NodeRestore.

#[local] Open Scope Z_scope.

(** * Hard links *)

Definition HardlinkKey : Type := Z * Z.
Definition HardlinkIndex (T : Type) : Type := gmap HardlinkKey T.
Definition NewHardlinkIndex {T} : gmap HardlinkKey T := ∅.
Definition hl_Has {T} (idx : gmap HardlinkKey T) (inode device : Z) : bool := bool_decide (is_Some (idx !! (inode, device))).
Definition hl_Add {T} (idx : gmap HardlinkKey T) (inode device : Z) (value : T) : gmap HardlinkKey T :=
  if hl_Has idx inode device then idx else <[(inode, device) := value]> idx.
Definition hl_Value (idx : gmap HardlinkKey string) (inode device : Z) : string := default "" (idx !! (inode, device)).
Definition hl_Remove {T} (idx : gmap HardlinkKey T) (inode device : Z) : gmap HardlinkKey T := delete (inode, device) idx.

(** * Traversal *)

Definition out_of_depth : string := "out of fuel".
Definition context_error (e : error) : bool :=
  bool_decide (e = ErrMsg "context canceled") || bool_decide (e = ErrMsg "context deadline exceeded").

Record treeVisitor (St : Type) := mkVisitor {
  v_enterDir : option (St -> Node -> string -> string -> St * outcome unit);
  v_visitNode : St -> Node -> string -> string -> St * outcome unit;
  v_leaveDir : option (St -> Node -> string -> string -> St * outcome unit) }.
Arguments mkVisitor {St}. Arguments v_enterDir {St}. Arguments v_visitNode {St}. Arguments v_leaveDir {St}.

Section Traverse.
Context (LoadTree : ID -> outcome (list Node)) (Error : string -> error -> option error).
Context (SelectFilter : string -> string -> Node -> bool * bool).
Context {St : Type} (visitor : treeVisitor St).

Definition err_outcome (e : option error) : outcome unit := match e with Some e => Err e | None => Ok tt end.

(** Errors of the context are not passed to [Error]. *)
Definition sanitizeError_at (location : string) (r : outcome unit) : outcome unit :=
  match r with
  | Err e => if context_error e then Err e else err_outcome (Error location e)
  | r => r
  end.

Definition optional (f : option (St -> Node -> string -> string -> St * outcome unit)) (s : St) (node : Node) (target location : string) : St * outcome unit :=
  match f with Some f => f s node target location | None => (s, Ok tt) end.

(** The name of a node may not refer to another directory. *)
Definition valid_name (node : Node) : bool := String.eqb (filepath_Base (path_Join ["/"; n_Name node])) (n_Name node).
Definition valid_target (target nodeTarget : string) : bool := negb (String.eqb target nodeTarget || negb (HasPathPrefix target nodeTarget)).

(** One node; the booleans are [hasRestored] before and after it. *)
Definition traverse_node (rec : St -> string -> string -> ID -> St * (bool * outcome unit)) (s : St) (hasRestored : bool) (target location : string) (node : Node)
    : St * (bool * outcome unit) :=
  if negb (valid_name node) then (s, (hasRestored, err_outcome (Error location (ErrMsg "invalid child node name %s"))))
  else
    let nodeTarget := path_Join [target; n_Name node] in
    let nodeLocation := path_Join [location; n_Name node] in
    if negb (valid_target target nodeTarget) then (s, (hasRestored, err_outcome (Error nodeLocation (ErrMsg "node has invalid path"))))
    else if String.eqb (n_Type node) "socket" then (s, (hasRestored, Ok tt))
    else
      let '(selectedForRestore, childMayBeSelected) := SelectFilter nodeLocation nodeTarget node in
      let hasRestored := hasRestored || selectedForRestore in
      if String.eqb (n_Type node) "dir" then
        match n_Subtree node with
        | None => (s, (hasRestored, Err (ErrMsg "Dir without subtree in tree %v")))
        | Some subtree =>
            let '(s, err) := if selectedForRestore : bool then optional (v_enterDir visitor) s node nodeTarget nodeLocation else (s, Ok tt) in
            match sanitizeError_at nodeLocation err with
            | Ok _ =>
                let '(s, (childHasRestored, err)) := if childMayBeSelected : bool then rec s nodeTarget nodeLocation subtree else (s, (false, Ok tt)) in
                match sanitizeError_at nodeLocation err with
                | Ok _ =>
                    let hasRestored := hasRestored || childHasRestored in
                    let '(s, err) := if (selectedForRestore || childHasRestored) : bool then optional (v_leaveDir visitor) s node nodeTarget nodeLocation else (s, Ok tt) in
                    (s, (hasRestored, sanitizeError_at nodeLocation err))
                | r => (s, (hasRestored, r))
                end
            | r => (s, (hasRestored, r))
            end
        end
      else if selectedForRestore : bool then
        let '(s, err) := v_visitNode visitor s node nodeTarget nodeLocation in (s, (hasRestored, sanitizeError_at nodeLocation err))
      else (s, (hasRestored, Ok tt)).

Fixpoint traverse_nodes (rec : St -> string -> string -> ID -> St * (bool * outcome unit)) (s : St) (hasRestored : bool) (target location : string) (nodes : list Node)
    : St * (bool * outcome unit) :=
  match nodes with
  | [] => (s, (hasRestored, Ok tt))
  | node :: nodes =>
      match traverse_node rec s hasRestored target location node with
      | (s, (hasRestored, Ok _)) => traverse_nodes rec s hasRestored target location nodes
      | r => r
      end
  end.

Fixpoint traverseTree (fuel : nat) (s : St) (target location : string) (treeID : ID) : St * (bool * outcome unit) :=
  match fuel with
  | O => (s, (false, Panic out_of_depth))
  | S fuel =>
      match LoadTree treeID with
      | Err e => (s, (false, err_outcome (Error location e)))
      | Panic p => (s, (false, Panic p))
      | Ok tree => traverse_nodes (traverseTree fuel) s false target location tree
      end
  end.
End Traverse.

(** * [RestoreTo] *)

Record restore_state := mkRestoreState { rs_node : node_os; rs_idx : gmap HardlinkKey string; rs_files : fileRestorer }.

Definition rs_on (s : restore_state) (f : node_os -> node_os * option error) : restore_state * outcome unit :=
  let '(n, err) := f (rs_node s) in (mkRestoreState n (rs_idx s) (rs_files s), err_outcome err).
Definition set_idx (s : restore_state) (idx : gmap HardlinkKey string) : restore_state := mkRestoreState (rs_node s) idx (rs_files s).

Section RestoreTo.
Context (LoadBlob : ID -> outcome (list byte)) (euid : Z).

Definition restoreNodeMetadataTo (s : restore_state) (node : Node) (target : string) : restore_state * outcome unit :=
  rs_on s (RestoreMetadata euid node target).

Definition restoreNodeTo (s : restore_state) (node : Node) (target : string) : restore_state * outcome unit :=
  let '(o, r) := CreateAt LoadBlob node target (no_os (rs_node s)) in
  let s := mkRestoreState (mkNodeOs o (no_calls (rs_node s))) (rs_idx s) (rs_files s) in
  match r with Ok _ => restoreNodeMetadataTo s node target | r => (s, r) end.

(** Anything but that there is nothing to remove is returned; no error at all is
    wrapped to none. *)
Definition restoreHardlinkAt (s : restore_state) (node : Node) (target path : string) : restore_state * outcome unit :=
  match rs_on s (fun n => on_os n (Remove path)) with
  | (s, Err e) =>
      if negb (bool_decide (e = ErrNotExist)) then (s, Err (ErrWrap e "RemoveCreateHardlink"))
      else match rs_on s (fun n => on_os n (Link target path)) with
           | (s, Ok _) => restoreNodeMetadataTo s node path
           | r => r
           end
  | (s, r) => (s, r)
  end.

Definition restoreEmptyFileAt (s : restore_state) (node : Node) (target : string) : restore_state * outcome unit :=
  match rs_on s (fun n => on_os n (fun o => match OpenFile true target o with (o, Err e) => (o, Some e) | (o, _) => File_Close o end)) with
  | (s, Ok _) => restoreNodeMetadataTo s node target
  | r => r
  end.

Definition mkdirAll (s : restore_state) (path : string) : restore_state * outcome unit := rs_on s (fun n => on_os n (MkdirAll path)).

(** The visitors of the two passes. *)
Definition first_visit (s : restore_state) (node : Node) (target location : string) : restore_state * outcome unit :=
  match mkdirAll s (filepath_Dir target) with
  | (s, Ok _) =>
      if negb (String.eqb (n_Type node) "file") then (s, Ok tt)
      else if n_Size node =? 0 then (s, Ok tt)
      else if (1 <? n_Links node) && hl_Has (rs_idx s) (n_Inode node) (n_DeviceID node) then (s, Ok tt)
      else
        let idx := if 1 <? n_Links node then hl_Add (rs_idx s) (n_Inode node) (n_DeviceID node) location else rs_idx s in
        (mkRestoreState (rs_node s) idx (addFile (rs_files s) location (default [] (n_Content node)) (i64 (n_Size node))), Ok tt)
  | r => r
  end.

Definition first_pass : treeVisitor restore_state :=
  mkVisitor (Some (fun s _ target _ => mkdirAll s target)) first_visit None.

Definition second_visit (s : restore_state) (node : Node) (target location : string) : restore_state * outcome unit :=
  if negb (String.eqb (n_Type node) "file") then restoreNodeTo s node target
  else if (n_Size node =? 0) && ((n_Links node <? 2) || negb (hl_Has (rs_idx s) (n_Inode node) (n_DeviceID node))) then
    let s := if 1 <? n_Links node then set_idx s (hl_Add (rs_idx s) (n_Inode node) (n_DeviceID node) location) else s in
    restoreEmptyFileAt s node target
  else if hl_Has (rs_idx s) (n_Inode node) (n_DeviceID node) && negb (String.eqb (hl_Value (rs_idx s) (n_Inode node) (n_DeviceID node)) location) then
    restoreHardlinkAt s node (targetPath (rs_files s) (hl_Value (rs_idx s) (n_Inode node) (n_DeviceID node))) target
  else restoreNodeMetadataTo s node target.

Definition second_pass : treeVisitor restore_state :=
  mkVisitor None second_visit (Some (fun s node target _ => restoreNodeMetadataTo s node target)).
End RestoreTo.

Section Restore.
Context (aes_Encrypt : list byte -> list byte -> list byte).
Context (poly1305_Verify : list byte -> list byte -> list byte -> bool).
Context (Hash : list byte -> ID) (zstd_DecodeAll : list byte -> outcome (list byte)).
Context (Sum64String : string -> Z).
Context (idx : BlobHandle -> outcome (list PackedBlob)) (LookupBlobSize : BlobHandle -> option Z) (iter : gset nat -> list nat).
Context (beLoad : Handle -> Z -> Z -> list (outcome (list byte))) (key : Key) (zeroChunk : ID) (connections : nat).
Context (LoadTree : ID -> outcome (list Node)) (LoadBlob : ID -> outcome (list byte)) (euid : Z) (Getwd : outcome string).
Context (Error : string -> error -> option error) (SelectFilter : string -> string -> Node -> bool * bool).

Definition Abs (dst : string) : outcome string :=
  if filepath_IsAbs dst then Ok (path_Clean dst)
  else match Getwd with Ok wd => Ok (path_Join [wd; dst]) | Err e => Err e | Panic p => Panic p end.

Definition dst_of (dst : string) : outcome string := if negb (filepath_IsAbs dst) then wrap_err "Abs" (Abs dst) else Ok dst.

(** [RestoreTo] of the snapshot's tree below [dst]; [s'] is the state it leaves.  A
    snapshot without a tree is a nil pointer. *)
Definition RestoreTo (fuel : nat) (sn : Snapshot) (sparse : bool) (dst : string) (s : node_os) (s' : restore_state) (result : outcome unit) : Prop :=
  match dst_of dst, sn_Tree sn with
  | Ok dst, Some root =>
      let s0 := mkRestoreState s NewHardlinkIndex (newFileRestorer dst connections sparse) in
      match traverseTree LoadTree Error SelectFilter first_pass fuel s0 dst "/" root with
      | (s1, (_, Ok _)) =>
          exists w res,
            restoreFiles aes_Encrypt poly1305_Verify Hash zstd_DecodeAll Sum64String idx iter beLoad key Error (rs_files s1) zeroChunk (no_os (rs_node s1)) w res /\
            let s2 := mkRestoreState (mkNodeOs (s_os (w_shared w)) (no_calls (rs_node s1))) (rs_idx s1) (rs_files s1) in
            match res with
            | Ok _ =>
                let '(s3, (_, r)) := traverseTree LoadTree Error SelectFilter (second_pass LoadBlob euid) fuel s2 dst "/" root in
                s' = s3 /\ result = r
            | r => s' = s2 /\ result = r
            end
      | (s1, (_, r)) => s' = s1 /\ result = r
      end
  | Ok _, None => s' = mkRestoreState s NewHardlinkIndex (newFileRestorer dst connections sparse) /\ result = Panic "nil pointer dereference"
  | r, _ => s' = mkRestoreState s NewHardlinkIndex (newFileRestorer dst connections sparse) /\ result = (try _ <- r; Ok tt)
  end.

End Restore.

(** * Targets stay below the destination *)

Lemma Join_path p name : p <> "" -> good_comp name -> path_Join [p; name] = render (rooted p) (components p ++ [name]).
Proof.
  intros Hp Hg. pose proof Hg as (Hn & _ & _ & Hslash). rewrite path_Join_render; [|by repeat constructor|done].
  unfold elems_stack. change (elems_root [p; name]) with (rooted p). cbn [fmap list_fmap concat].
  rewrite app_nil_r, clean_fold_app, split_on_single by done. cbn [clean_fold fold_left]. by rewrite clean_step_good.
Qed.

Lemma Join_root p : p <> "" -> path_Join [p; "/"] = render (rooted p) (components p).
Proof.
  intros Hp. rewrite path_Join_render; [|by repeat constructor|done]. unfold elems_stack. change (elems_root [p; "/"]) with (rooted p). cbn [fmap list_fmap concat].
  rewrite app_nil_r, clean_fold_app. done.
Qed.

(** A target and its location in the snapshot have the same components below [dst]
    and below the root. *)
Definition below (dst : string) (comps : list string) (target location : string) : Prop :=
  Forall good_comp comps /\ rooted target = true /\ components target = components dst ++ comps /\ location = render true comps.

Lemma below_child dst comps target location node :
  below dst comps target location -> rooted dst = true -> valid_name node = true ->
  exists comps', below dst comps' (path_Join [target; n_Name node]) (path_Join [location; n_Name node]).
Proof.
  intros (Hg & Hr & Hc & Hl) Hdst Hn. assert (target <> "") as Hne by by intros ->.
  assert (location <> "" /\ rooted location = true /\ components location = comps) as (Hln & Hlr & Hlc).
  { destruct (components_render comps Hg) as [R1 R2]. subst location. split_and!; [by intros E; rewrite E in R1|done|done]. }
  unfold valid_name in Hn. apply String.eqb_eq, Base_of_name in Hn as [Hn|Hn].
  - exists (comps ++ [n_Name node]). assert (Forall good_comp (comps ++ [n_Name node])) as Hg' by (apply Forall_app; split; [done|by constructor]).
    assert (Forall good_comp (components dst ++ comps ++ [n_Name node])) as Hall by (apply Forall_app; split; [by apply rooted_components|done]).
    rewrite !Join_path by done. rewrite Hr, Hc, Hlr, Hlc, <- app_assoc. destruct (components_render _ Hall) as [R1 R2]. by split_and!.
  - exists comps. rewrite Hn, !Join_root by done. rewrite Hr, Hc, Hlr, Hlc.
    assert (Forall good_comp (components dst ++ comps)) as Hall by (apply Forall_app; split; [by apply rooted_components|done]).
    destruct (components_render _ Hall) as [R1 R2]. by split_and!.
Qed.

Section Below.
Context (LoadTree : ID -> outcome (list Node)) (Error : string -> error -> option error).
Context (SelectFilter : string -> string -> Node -> bool * bool) {St : Type} (visitor : treeVisitor St) (dst : string) (Hdst : rooted dst = true).
Context (P : St -> Prop).

(** A function of the visitor keeps [P] for targets below [dst]. *)
Definition keeps (f : St -> Node -> string -> string -> St * outcome unit) : Prop :=
  forall s node comps target location, P s -> below dst comps target location -> P (f s node target location).1.

Context (Henter : forall f, v_enterDir visitor = Some f -> keeps f) (Hvisit : keeps (v_visitNode visitor)) (Hleave : forall f, v_leaveDir visitor = Some f -> keeps f).

Lemma optional_keeps f s node comps target location :
  (forall g, f = Some g -> keeps g) -> P s -> below dst comps target location -> P (optional f s node target location).1.
Proof. intros Hf Hs Hb. destruct f as [g|]; [by eapply Hf|done]. Qed.

Lemma traverse_node_keeps rec s h comps target location node :
  (forall s comps target location id, P s -> below dst comps target location -> P (rec s target location id).1) ->
  P s -> below dst comps target location -> P (traverse_node Error SelectFilter visitor rec s h target location node).1.
Proof using Hdst Henter Hvisit Hleave.
  intros Hrec Hs Hb. unfold traverse_node. destruct (valid_name node) eqn:Hn; cbn [negb]; [|done].
  destruct (below_child dst comps target location node Hb Hdst Hn) as [comps' Hb'].
  destruct (negb (valid_target _ _)); [done|]. destruct (String.eqb (n_Type node) "socket"); [done|]. destruct (SelectFilter _ _ node) as [sel child].
  destruct (String.eqb (n_Type node) "dir").
  - destruct (n_Subtree node) as [sub|]; [|done].
    assert (P (if sel then optional (v_enterDir visitor) s node (path_Join [target; n_Name node]) (path_Join [location; n_Name node]) else (s, Ok tt)).1) as H1
      by (destruct sel; [by eapply optional_keeps|done]).
    destruct (if sel then _ else _) as [s1 r1]. cbn [fst] in H1. destruct (sanitizeError_at Error _ r1); [|done..].
    assert (P (if child then rec s1 (path_Join [target; n_Name node]) (path_Join [location; n_Name node]) sub else (s1, (false, Ok tt))).1) as H2
      by (destruct child; [by eapply Hrec|done]).
    destruct (if child then _ else _) as [s2 [ch r2]]. cbn [fst] in H2. destruct (sanitizeError_at Error _ r2); [|done..].
    assert (P (if sel || ch then optional (v_leaveDir visitor) s2 node (path_Join [target; n_Name node]) (path_Join [location; n_Name node]) else (s2, Ok tt)).1) as H3
      by (destruct (sel || ch); [by eapply optional_keeps|done]).
    by destruct (if sel || ch then _ else _) as [s3 r3].
  - destruct sel; [|done]. pose proof (Hvisit s node _ _ _ Hs Hb') as H1. by destruct (v_visitNode visitor s node _ _).
Qed.

Lemma traverse_nodes_keeps rec nodes s h comps target location :
  (forall s comps target location id, P s -> below dst comps target location -> P (rec s target location id).1) ->
  P s -> below dst comps target location -> P (traverse_nodes Error SelectFilter visitor rec s h target location nodes).1.
Proof using Hdst Henter Hvisit Hleave.
  intros Hrec. revert s h. induction nodes as [|node nodes IH]; intros s h Hs Hb; cbn [traverse_nodes]; [done|].
  pose proof (traverse_node_keeps rec s h comps target location node Hrec Hs Hb) as H1.
  destruct (traverse_node _ _ _ rec s h target location node) as [s1 [h1 [u|e|p]]]; [by apply IH|done..].
Qed.

Lemma traverseTree_keeps fuel s comps target location id :
  P s -> below dst comps target location -> P (traverseTree LoadTree Error SelectFilter visitor fuel s target location id).1.
Proof using Hdst Henter Hvisit Hleave.
  revert s comps target location id. induction fuel as [|fuel IH]; intros s comps target location id Hs Hb; cbn [traverseTree]; [done|].
  destruct (LoadTree id); [by eapply traverse_nodes_keeps|done..].
Qed.
End Below.

(** C10. Whatever the snapshot holds, and whatever the filter selects, the functions of a
    visitor are only called for targets that are [dst] or below it, with the
    location of the same names below the root: no name leads out of [dst].  Stated
    for a property of the state that the functions keep for such targets. *)
Theorem traverse_below (LoadTree : ID -> outcome (list Node)) (Error : string -> error -> option error)
    (SelectFilter : string -> string -> Node -> bool * bool) {St : Type} (visitor : treeVisitor St) (dst : string) (P : St -> Prop)
    (fuel : nat) (s : St) (root : ID)
    (Hdst : filepath_IsAbs dst = true)
    (Henter : forall f, v_enterDir visitor = Some f -> keeps dst P f) (Hvisit : keeps dst P (v_visitNode visitor))
    (Hleave : forall f, v_leaveDir visitor = Some f -> keeps dst P f) (Hs : P s) :
  P (traverseTree LoadTree Error SelectFilter visitor fuel s dst "/" root).1.
Proof.
  apply (traverseTree_keeps LoadTree Error SelectFilter visitor dst Hdst P Henter Hvisit Hleave _ _ []); [done|].
  split_and!; [done|done|by rewrite app_nil_r|done].
Qed.

(** A directory with a name that refers to its parent, one with a slash in its name,
    and a file: only the file is visited, below the destination. *)
Definition ex_evil (name type : string) : Node := mkNode name type 0 time_zero time_zero time_zero 0 0 "" "" 0 0 0 0 "" [] 0 None None "" "".
Definition ex_evil_tree (_ : ID) : outcome (list Node) := Ok [ex_evil ".." "dir"; ex_evil "a/../../b" "file"; ex_evil "" "file"; ex_evil "/" "file"; ex_evil "x" "file"].
Definition ex_collect : treeVisitor (list (string * string)) := mkVisitor None (fun s _ target location => (s ++ [(target, location)], Ok tt)) None.

Lemma traverse_below_witness :
  let '(s, (_, r)) := traverseTree ex_evil_tree (fun _ _ => None) (fun _ _ _ => (true, true)) ex_collect 2 [] "/dst" "/" nullID in
  s = [("/dst/x", "/x")] /\ r = Ok tt /\ Forall (fun t : string * string => components "/dst" `prefix_of` components t.1) s.
Proof.
  pose proof (traverse_below ex_evil_tree (fun _ _ => None) (fun _ _ _ => (true, true)) ex_collect "/dst"
    (Forall (fun t : string * string => components "/dst" `prefix_of` components t.1)) 2 [] nullID eq_refl) as H.
  destruct (traverseTree _ _ _ _ _ _ _ _ _) as [s [h r]] eqn:E. cbn [fst] in H. split; [|split].
  - vm_compute in E. injection E as <- <- <-. reflexivity.
  - vm_compute in E. injection E as <- <- <-. reflexivity.
  - apply H; try discriminate; [|constructor]. intros s' node comps target location Hs (_ & _ & Hc & _). apply Forall_app. split; [exact Hs|].
    constructor; [|constructor]. cbn [fst]. exists comps. exact Hc.
Defined.

(** * Hard links over existing files *)

(** When a file is in the place of a hard link, restoring the link removes it,
    creates nothing, calls nothing else and returns no error: the test for an error
    other than that the file is missing is passed by no error as well. *)
Theorem restoreHardlinkAt_removes (euid : Z) (s : restore_state) (node : Node) (target path : string) (e : entry) (faults : list (option (error * nat)))
    (Hfaults : os_faults (no_os (rs_node s)) = [] \/ os_faults (no_os (rs_node s)) = None :: faults)
    (Hpath : os_paths (no_os (rs_node s)) !! path = Some e) (He : e <> Directory) :
  exists s', restoreHardlinkAt euid s node target path = (s', Ok tt) /\
    os_paths (no_os (rs_node s')) = delete path (os_paths (no_os (rs_node s))) /\
    os_data (no_os (rs_node s')) = os_data (no_os (rs_node s)) /\
    no_calls (rs_node s') = no_calls (rs_node s).
Proof.
  unfold restoreHardlinkAt, rs_on, on_os, Remove.
  assert (exists rest, next_fault (no_os (rs_node s)) = (None, mkOs (os_paths (no_os (rs_node s))) (os_data (no_os (rs_node s))) rest)) as (rest & ->).
  { unfold next_fault. destruct Hfaults as [Hf|Hf]; rewrite Hf; [|by eexists]. exists []. rewrite <- Hf. by destruct (no_os (rs_node s)). }
  cbn [os_paths]. rewrite Hpath. destruct e; [|done|..]; by eexists.
Qed.

Lemma restoreHardlinkAt_removes_witness :
  let o := mkOs {["/dst/a" := Regular 0; "/dst/b" := Regular 1]} {[0%nat := []; 1%nat := []]} [] in
  let '(s', r) := restoreHardlinkAt 0 (mkRestoreState (mkNodeOs o []) ∅ (newFileRestorer "/dst" 2 false)) (ex_evil "b" "file") "/dst/a" "/dst/b" in
  r = Ok tt /\ os_paths (no_os (rs_node s')) = {["/dst/a" := Regular 0]}.
Proof.
  destruct (restoreHardlinkAt_removes 0 (mkRestoreState (mkNodeOs (mkOs {["/dst/a" := Regular 0; "/dst/b" := Regular 1]} {[0%nat := []; 1%nat := []]} []) [])
    ∅ (newFileRestorer "/dst" 2 false)) (ex_evil "b" "file") "/dst/a" "/dst/b" (Regular 1) []) as (s' & E & Hp & _);
    [by left|vm_compute; reflexivity|done|].
  cbv zeta. rewrite E. split; [reflexivity|]. rewrite Hp. vm_compute. reflexivity.
Defined.
