(* ===== verification/VerifyFiles.v ===== *)
(** What [VerifyFiles] of the restorer verifies (src/internal/restorer/restorer.go).

    One goroutine traverses the tree and sends the files to a channel with a buffer;
    [nVerifyWorkers] workers receive and verify them.  They share the context of an
    error group, which is done when the caller cancels it or when the first of them
    has returned an error.  The goroutines are a step relation. *)

From S2P Require Import Prelude Bytes GoString Restic Crypto Pack Backend GoTime Snapshot Tree FsPath Os Restorer.

#[local] Open Scope Z_scope.

(** * Files *)

Section Files.
Context (Hash : list byte -> ID) (LookupBlobSize : BlobHandle -> option Z).

(** The blobs of a file, read from [offset] on. *)
Fixpoint verify_blobs (content : list byte) (offset : Z) (ids : list ID) : outcome unit :=
  match ids with
  | [] => Ok tt
  | blobID :: rest =>
      match LookupBlobSize (mkBlobHandle blobID DataBlob) with
      | None => Err (ErrMsg "Unable to fetch blob %s")
      | Some length_ =>
          match ReadFull length_ (slice_from content offset) with
          | Err e => Err (ErrMsg "EOF")
          | Panic p => Panic p
          | Ok buf =>
              if negb (ID_Equal blobID (Hash buf)) then Err (ErrMsg "Unexpected content in %s, starting at offset %d")
              else verify_blobs content (i64 (offset + i64 length_)) rest
          end
      end
  end.

Definition verifyFile (o : os) (target : string) (node : Node) : outcome unit :=
  match file_content o target with
  | None => Err ErrNotExist
  | Some content =>
      if negb (i64 (n_Size node) =? zlen content) then Err (ErrMsg "Invalid file size for %s: expected %d, got %d")
      else verify_blobs content 0 (default [] (n_Content node))
  end.
End Files.

(** A file to verify and its target. *)
Definition mustCheck : Type := Node * string.

Definition collect_files : treeVisitor (list mustCheck) :=
  mkVisitor None (fun jobs node target _ => (if negb (String.eqb (n_Type node) "file") then jobs else jobs ++ [(node, target)], Ok tt)) None.

(** * The goroutines *)

Definition nVerifyWorkers : nat := 8.
Definition work_cap : nat := 2 * nVerifyWorkers.

(** What the traversal has still to send and what it returns then, the channel, the
    workers that have not returned with their jobs, the first error of the group,
    whether the caller's context is done, and the panic that ends the program. *)
Record verifying := mkVerifying {
  v_walk : option (list mustCheck * outcome unit);
  v_work : list mustCheck;
  v_workers : list (option mustCheck);
  v_nchecked : Z;
  v_err : option error;
  v_external : bool;
  v_panic : option string }.

(** [ctx.Err() != nil]. *)
Definition ctx_done (err : option error) (ext : bool) : bool := bool_decide (is_Some err) || ext.

(** A goroutine of the group returns [e]. *)
Definition group_err (err : option error) (e : error) : option error := match err with None => Some e | e0 => e0 end.

Section Verifying.
Context (Hash : list byte -> ID) (LookupBlobSize : BlobHandle -> option Z) (Error : string -> error -> option error) (o : os).

(** The error a worker has after a job. *)
Definition check_job (job : mustCheck) : outcome unit :=
  match verifyFile Hash LookupBlobSize o job.2 job.1 with
  | Err e => err_outcome (Error job.2 e)
  | r => r
  end.

(** [v_give_up]: the traversal ends with an error when its context is done, that of
    the context where it would send a file, or that of a tree it cannot load any more.
    [v_lost]: the files of such a tree are left out when [Error] ignores it. *)
Inductive vstep : verifying -> verifying -> Prop :=
  | v_cancel wk q ws n err :
      vstep (mkVerifying wk q ws n err false None) (mkVerifying wk q ws n err true None)
  | v_send job jobs r q ws n err ext :
      (length q < work_cap)%nat ->
      vstep (mkVerifying (Some (job :: jobs, r)) q ws n err ext None) (mkVerifying (Some (jobs, r)) (q ++ [job]) ws n err ext None)
  | v_walked q ws n err ext :
      vstep (mkVerifying (Some ([], Ok tt)) q ws n err ext None) (mkVerifying None q ws n err ext None)
  | v_walk_failed e q ws n err ext :
      vstep (mkVerifying (Some ([], Err e)) q ws n err ext None) (mkVerifying None q ws n (group_err err e) ext None)
  | v_walk_panics p q ws n err ext :
      vstep (mkVerifying (Some ([], Panic p)) q ws n err ext None) (mkVerifying None q ws n err ext (Some p))
  | v_give_up e jobs r q ws n err ext :
      ctx_done err ext = true ->
      vstep (mkVerifying (Some (jobs, r)) q ws n err ext None) (mkVerifying None q ws n (group_err err e) ext None)
  | v_lost job jobs r q ws n err ext :
      ctx_done err ext = true -> (exists location e, Error location e = None) ->
      vstep (mkVerifying (Some (job :: jobs, r)) q ws n err ext None) (mkVerifying (Some (jobs, r)) q ws n err ext None)
  | v_receive wk job q ws1 ws2 n err ext :
      vstep (mkVerifying wk (job :: q) (ws1 ++ None :: ws2) n err ext None) (mkVerifying wk q (ws1 ++ Some job :: ws2) n err ext None)
  | v_closed ws1 ws2 n err ext :
      vstep (mkVerifying None [] (ws1 ++ None :: ws2) n err ext None) (mkVerifying None [] (ws1 ++ ws2) n err ext None)
  | v_checked wk q ws1 job ws2 n err ext :
      check_job job = Ok tt -> ctx_done err ext = false ->
      vstep (mkVerifying wk q (ws1 ++ Some job :: ws2) n err ext None) (mkVerifying wk q (ws1 ++ None :: ws2) (n + 1) err ext None)
  | v_break wk q ws1 job ws2 n err ext :
      check_job job = Ok tt -> ctx_done err ext = true ->
      vstep (mkVerifying wk q (ws1 ++ Some job :: ws2) n err ext None) (mkVerifying wk q (ws1 ++ ws2) n err ext None)
  | v_failed wk q ws1 job ws2 n err ext e :
      check_job job = Err e ->
      vstep (mkVerifying wk q (ws1 ++ Some job :: ws2) n err ext None) (mkVerifying wk q (ws1 ++ ws2) n (group_err err e) ext None)
  | v_panics wk q ws1 job ws2 n err ext p :
      check_job job = Panic p ->
      vstep (mkVerifying wk q (ws1 ++ Some job :: ws2) n err ext None) (mkVerifying wk q (ws1 ++ ws2) n err ext (Some p)).

(** What [g.Wait] returns: all goroutines have. *)
Definition waited (s : verifying) : option (outcome unit) :=
  match v_panic s, v_walk s, v_workers s with
  | Some p, _, _ => Some (Panic p)
  | None, None, [] => Some (match v_err s with None => Ok tt | Some e => Err e end)
  | None, _, _ => None
  end.

(** One schedule of a call that is not cancelled by its caller: the first worker, then
    the traversal. *)
Definition vschedule (s : verifying) : option verifying :=
  let '(mkVerifying wk q ws n err ext pn) := s in
  match pn, ws, q, wk with
  | Some _, _, _, _ => None
  | None, Some job :: ws, _, _ =>
      Some (match check_job job with
            | Ok _ => if ctx_done err ext then mkVerifying wk q ws n err ext None else mkVerifying wk q (None :: ws) (n + 1) err ext None
            | Err e => mkVerifying wk q ws n (group_err err e) ext None
            | Panic p => mkVerifying wk q ws n err ext (Some p)
            end)
  | None, None :: ws, job :: q, _ => Some (mkVerifying wk q (Some job :: ws) n err ext None)
  | None, None :: ws, [], None => Some (mkVerifying None [] ws n err ext None)
  | None, [], _, None => None
  | None, _, _, Some ([], Ok _) => Some (mkVerifying None q ws n err ext None)
  | None, _, _, Some ([], Err e) => Some (mkVerifying None q ws n (group_err err e) ext None)
  | None, _, _, Some ([], Panic p) => Some (mkVerifying None q ws n err ext (Some p))
  | None, _, _, Some (job :: jobs, r) =>
      if Nat.ltb (length q) work_cap then Some (mkVerifying (Some (jobs, r)) (q ++ [job]) ws n err ext None)
      else if ctx_done err ext then Some (mkVerifying None q ws n (group_err err (ErrMsg "context canceled")) ext None)
      else None
  end.

Fixpoint run_verify (fuel : nat) (s : verifying) : verifying :=
  match fuel with
  | O => s
  | S fuel => match vschedule s with Some s' => run_verify fuel s' | None => s end
  end.
End Verifying.

Section VerifyFiles.
Context (Hash : list byte -> ID) (LookupBlobSize : BlobHandle -> option Z) (LoadTree : ID -> outcome (list Node)).
Context (Error : string -> error -> option error) (SelectFilter : string -> string -> Node -> bool * bool).

(** A snapshot without a tree is a nil pointer. *)
Definition verify_init (fuel : nat) (sn : Snapshot) (dst : string) : verifying :=
  let walk := match sn_Tree sn with
              | Some root => let '(jobs, (_, r)) := traverseTree LoadTree Error SelectFilter collect_files fuel [] dst "/" root in (jobs, r)
              | None => ([], Panic "nil pointer dereference")
              end in
  mkVerifying (Some walk) [] (replicate nVerifyWorkers None) 0 None false None.

(** [VerifyFiles] can return [n] and [result]; [cancelled]: its caller has cancelled the
    context before.  The language does not say whether [nchecked] is read before or
    after [g.Wait] has returned. *)
Definition VerifyFiles (fuel : nat) (sn : Snapshot) (dst : string) (o : os) (cancelled : bool) (n : Z) (result : outcome unit) : Prop :=
  exists s0 s, rtc (vstep Hash LookupBlobSize Error o) (verify_init fuel sn dst) s0 /\ rtc (vstep Hash LookupBlobSize Error o) s0 s /\
    n = v_nchecked s0 /\ cancelled = v_external s /\ waited s = Some result.
End VerifyFiles.

(** * What the traversal finds *)

Section Selected.
Context (LoadTree : ID -> outcome (list Node)) (SelectFilter : string -> string -> Node -> bool * bool).

(** The nodes a traversal visits: those that are no directories, that have a name
    and a target that is accepted and that the filter selects. *)
Inductive selected_at : string -> string -> ID -> Node -> string -> string -> Prop :=
  | selected_here target location id nodes node :
      LoadTree id = Ok nodes -> node ∈ nodes -> valid_name node = true -> valid_target target (path_Join [target; n_Name node]) = true ->
      n_Type node <> "socket" -> n_Type node <> "dir" ->
      (SelectFilter (path_Join [location; n_Name node]) (path_Join [target; n_Name node]) node).1 = true ->
      selected_at target location id node (path_Join [target; n_Name node]) (path_Join [location; n_Name node])
  | selected_child target location id nodes dir sub node t l :
      LoadTree id = Ok nodes -> dir ∈ nodes -> valid_name dir = true -> valid_target target (path_Join [target; n_Name dir]) = true ->
      n_Type dir = "dir" -> n_Subtree dir = Some sub ->
      (SelectFilter (path_Join [location; n_Name dir]) (path_Join [target; n_Name dir]) dir).2 = true ->
      selected_at (path_Join [target; n_Name dir]) (path_Join [location; n_Name dir]) sub node t l ->
      selected_at target location id node t l.
End Selected.

Section Collect.
Context (LoadTree : ID -> outcome (list Node)) (Error : string -> error -> option error) (SelectFilter : string -> string -> Node -> bool * bool).
(** [Error] tolerates nothing, as the default does. *)
Context (Hstrict : forall location e, Error location e <> None).

Abbreviation collecting rec s h target location node := (traverse_node Error SelectFilter collect_files rec s h target location node).

Lemma strict_error location e : err_outcome (Error location e) <> Ok tt.
Proof using Hstrict. pose proof (Hstrict location e) as H. by destruct (Error location e). Qed.

Lemma strict_sanitize location r : sanitizeError_at Error location r = Ok tt -> r = Ok tt.
Proof using Hstrict.
  destruct r as [[]|e|p]; cbn; [done| |done]. destruct (context_error e); [done|]. intros E. by apply strict_error in E.
Qed.

(** What one call collects. *)
Definition collects (f : list (Node * string) -> list (Node * string) * (bool * outcome unit)) (sel : Node -> string -> Prop) : Prop :=
  forall s s' h, f s = (s', (h, Ok tt)) -> s `prefix_of` s' /\ forall node t, sel node t -> n_Type node = "file" -> (node, t) ∈ s'.

Lemma collect_node rec h target location (node : Node) :
  (forall target location id, collects (fun s => rec s target location id) (fun n t => exists l, selected_at LoadTree SelectFilter target location id n t l)) ->
  collects (fun s => collecting rec s h target location node)
    (fun n t => valid_name node = true /\ valid_target target (path_Join [target; n_Name node]) = true /\ n_Type node <> "socket" /\
      let f := SelectFilter (path_Join [location; n_Name node]) (path_Join [target; n_Name node]) node in
      (n_Type node <> "dir" /\ f.1 = true /\ n = node /\ t = path_Join [target; n_Name node] \/
       n_Type node = "dir" /\ f.2 = true /\ exists sub l, n_Subtree node = Some sub /\
         selected_at LoadTree SelectFilter (path_Join [target; n_Name node]) (path_Join [location; n_Name node]) sub n t l)).
Proof using Hstrict.
  intros Hrec s s' h' E. unfold traverse_node in E. cbn zeta in E.
  destruct (valid_name node) eqn:Hn; cbn [negb] in E; [|injection E as _ _ E; by apply strict_error in E].
  destruct (valid_target _ _) eqn:Ht; cbn [negb] in E; [|injection E as _ _ E; by apply strict_error in E].
  destruct (String.eqb_spec (n_Type node) "socket") as [Hsock|Hsock].
  { injection E as <- _. split; [done|]. intros n t (_ & _ & ? & _). done. }
  destruct (SelectFilter _ _ node) as [sel child]. cbn [fst snd]. destruct (String.eqb_spec (n_Type node) "dir") as [Hd|Hd].
  - destruct (n_Subtree node) as [sub|] eqn:Esub; [|done].
    replace (if sel then _ else _) with (s, Ok tt : outcome unit) in E at 1 by (by destruct sel). cbn [sanitizeError_at] in E.
    destruct child.
    + destruct (rec s _ _ sub) as [s2 [h2 r2]] eqn:Er. destruct (sanitizeError_at Error _ r2) as [[]|e|p] eqn:Es; [|done..].
      apply strict_sanitize in Es as ->. replace (if sel || h2 then _ else _) with (s2, Ok tt : outcome unit) in E by (by destruct (sel || h2)).
      injection E as <- _. destruct (Hrec _ _ _ _ _ _ Er) as [Hpre Hin]. split; [done|].
      intros n t (_ & _ & _ & [(? & _)|(_ & _ & sub' & l & [= <-] & Hsel)]) Hf; [done|]. apply Hin; [by exists l|done].
    + cbn [sanitizeError_at] in E. replace (if sel || false then _ else _) with (s, Ok tt : outcome unit) in E by (by destruct sel).
      injection E as <- _. split; [done|]. intros n t (_ & _ & _ & [(? & _)|(_ & ? & _)]); done.
  - destruct sel.
    + cbn [v_visitNode collect_files] in E. injection E as <- _.
      destruct (String.eqb_spec (n_Type node) "file") as [Hf|Hf]; cbn [negb].
      * split; [by apply prefix_app_r|]. intros n t (_ & _ & _ & [(_ & _ & -> & ->)|(? & _)]) _; [|done]. apply elem_of_app. right. by apply list_elem_of_singleton.
      * split; [done|]. intros n t (_ & _ & _ & [(_ & _ & -> & ->)|(? & _)]); done.
    + injection E as <- _. split; [done|]. intros n t (_ & _ & _ & [(_ & ? & _)|(? & _)]); done.
Qed.

Lemma collect_nodes rec target location id nodes nodes0 :
  LoadTree id = Ok nodes0 -> (forall n, n ∈ nodes -> n ∈ nodes0) ->
  (forall target location id, collects (fun s => rec s target location id) (fun n t => exists l, selected_at LoadTree SelectFilter target location id n t l)) ->
  forall h, collects (fun s => traverse_nodes Error SelectFilter collect_files rec s h target location nodes)
    (fun n t => exists node, node ∈ nodes /\ valid_name node = true /\ valid_target target (path_Join [target; n_Name node]) = true /\ n_Type node <> "socket" /\
      let f := SelectFilter (path_Join [location; n_Name node]) (path_Join [target; n_Name node]) node in
      (n_Type node <> "dir" /\ f.1 = true /\ n = node /\ t = path_Join [target; n_Name node] \/
       n_Type node = "dir" /\ f.2 = true /\ exists sub l, n_Subtree node = Some sub /\
         selected_at LoadTree SelectFilter (path_Join [target; n_Name node]) (path_Join [location; n_Name node]) sub n t l)).
Proof using Hstrict.
  intros Hl Hsub Hrec. induction nodes as [|node nodes IH]; intros h s s' h' E; cbn [traverse_nodes] in E.
  { injection E as <- _. split; [done|]. intros n t (node & Hin & _). by apply elem_of_nil in Hin. }
  destruct (collecting rec s h target location node) as [s1 [h1 [[]|e|p]]] eqn:En; [|done..].
  destruct (collect_node rec h target location node Hrec _ _ _ En) as [Hp1 Hn].
  assert (forall n, n ∈ nodes -> n ∈ nodes0) as Hsub' by (intros n Hin; apply Hsub; by right).
  destruct (IH Hsub' h1 _ _ _ E) as [Hp2 Hns]. split; [by etrans|].
  intros n t (node' & [->|Hin]%elem_of_cons & Hrest) Hf; [|apply Hns; [by exists node'|done]].
  eapply elem_of_prefix; [|exact Hp2]. apply Hn; [exact Hrest|done].
Qed.

Lemma collect_tree fuel target location id :
  collects (fun s => traverseTree LoadTree Error SelectFilter collect_files fuel s target location id)
    (fun n t => exists l, selected_at LoadTree SelectFilter target location id n t l).
Proof using Hstrict.
  revert target location id. induction fuel as [|fuel IH]; intros target location id s s' h E; cbn [traverseTree] in E; [done|].
  destruct (LoadTree id) as [nodes|e|p] eqn:El; [|injection E as _ _ E; by apply strict_error in E|done].
  destruct (collect_nodes _ target location id nodes nodes El (fun n H => H) IH false _ _ _ E) as [Hp Hin]. split; [done|].
  intros n t [l Hs] Hf. apply Hin; [|done]. inversion Hs; subst; match goal with H : LoadTree id = Ok ?ns |- _ => assert (ns = nodes) as -> by congruence end.
  - exists n. split_and!; try done. by left.
  - exists dir. split_and!; try done; [congruence|]. right. split_and!; [done|done|]. by exists sub, l.
Qed.
End Collect.

Section Verify.
Context (Hash : list byte -> ID) (LookupBlobSize : BlobHandle -> option Z) (Hsize : forall h n, LookupBlobSize h = Some n -> 0 <= n).

(** The chunks of a content that the blobs name. *)
Definition chunk_of (id : ID) (chunk : list byte) : Prop := Hash chunk = id /\ LookupBlobSize (mkBlobHandle id DataBlob) = Some (zlen chunk).
Definition verified (o : os) (target : string) (node : Node) : Prop :=
  exists content chunks, file_content o target = Some content /\ zlen content = i64 (n_Size node) /\
    Forall2 chunk_of (default [] (n_Content node)) chunks /\ concat chunks `prefix_of` content.

Lemma verify_blobs_spec content ids offset :
  zlen content < 2 ^ 63 -> 0 <= offset <= zlen content ->
  verify_blobs Hash LookupBlobSize content offset ids = Ok tt <->
  exists chunks, Forall2 chunk_of ids chunks /\ concat chunks `prefix_of` slice_from content offset.
Proof using Hsize.
  intros Hc. revert offset. induction ids as [|id ids IH]; intros offset Ho; cbn [verify_blobs].
  { split; [|done]. intros _. exists []. split; [done|]. apply prefix_nil. }
  destruct (LookupBlobSize (mkBlobHandle id DataBlob)) as [n|] eqn:El.
  2: { split; [done|]. intros (chunks & HF & _). apply Forall2_cons_inv_l in HF as (c & cs & [_ H] & _ & _). congruence. }
  pose proof (Hsize _ _ El) as Hn. assert (zlen (slice_from content offset) = zlen content - offset) as Hlen by by apply zlen_slice_from.
  unfold ReadFull. destruct (Z.ltb_spec (zlen (slice_from content offset)) n) as [Hlt|Hge].
  { split; [done|]. intros (chunks & HF & [tail Htail]). apply Forall2_cons_inv_l in HF as (c & cs & [_ H] & _ & ->).
    rewrite El in H. injection H as ->. rewrite Htail in Hlt. cbn [concat] in Hlt. rewrite !zlen_app in Hlt. pose proof (zlen_nonneg (concat cs)). pose proof (zlen_nonneg tail). lia. }
  assert (i64 n = n /\ i64 (offset + n) = offset + n) as [-> ->] by (split; apply i64_id; unfold is_i64; lia).
  assert (slice_from content (offset + n) = slice_from (slice_from content offset) n) as Hrest.
  { unfold slice_from. rewrite drop_drop. f_equal. lia. }
  assert (zlen (slice_to (slice_from content offset) n) = n) as Hchunk by (apply zlen_slice_to; lia).
  destruct (ID_Equal id (Hash _)) eqn:Eid; cbn [negb].
  - apply ID_Equal_spec in Eid. rewrite IH by lia. rewrite Hrest. split.
    + intros (chunks & HF & [tail Ht]). exists (slice_to (slice_from content offset) n :: chunks). split.
      * constructor; [|done]. split; [done|]. by rewrite Hchunk.
      * exists tail. cbn [concat]. rewrite <- app_assoc, <- Ht. symmetry. apply take_drop.
    + intros (chunks & HF & [tail Ht]). apply Forall2_cons_inv_l in HF as (c & cs & [_ H] & HF & ->). exists cs. split; [done|].
      rewrite El in H. injection H as ->. exists tail. rewrite Ht. cbn [concat]. rewrite <- app_assoc. unfold slice_from, zlen. rewrite Nat2Z.id. by rewrite drop_app_length.
  - split; [done|]. intros (chunks & HF & [tail Ht]). apply Forall2_cons_inv_l in HF as (c & cs & [Hh H] & HF & ->).
    rewrite El in H. injection H as ->. assert (slice_to (slice_from content offset) (zlen c) = c) as Hs.
    { rewrite Ht. cbn [concat]. rewrite <- app_assoc. unfold slice_to, zlen. rewrite Nat2Z.id. by rewrite take_app_length. }
    rewrite Hs, Hh in Eid. assert (ID_Equal id id = true) as E by by apply ID_Equal_spec. congruence.
Qed.

Lemma verifyFile_ok o target node :
  (forall content, file_content o target = Some content -> zlen content < 2 ^ 63) ->
  verifyFile Hash LookupBlobSize o target node = Ok tt <-> verified o target node.
Proof using Hsize.
  intros Ho. unfold verifyFile, verified. destruct (file_content o target) as [content|] eqn:Ef; [|split; [done|by intros (? & ? & ? & _)]].
  specialize (Ho _ eq_refl). destruct (Z.eqb_spec (i64 (n_Size node)) (zlen content)) as [Hs|Hs]; cbn [negb].
  - rewrite verify_blobs_spec by (done || (pose proof (zlen_nonneg content); lia)). split.
    + intros (chunks & HF & Hp). by exists content, chunks.
    + intros (content' & chunks & [= <-] & _ & HF & Hp). by exists chunks.
  - split; [done|]. intros (content' & chunks & [= <-] & Hs' & _). congruence.
Qed.
End Verify.

(** * The goroutines *)

Section Runs.
Context (Hash : list byte -> ID) (LookupBlobSize : BlobHandle -> option Z) (Error : string -> error -> option error) (o : os).

Abbreviation step := (vstep Hash LookupBlobSize Error o).

(** ** They come to an end *)

Definition walk_work (wk : option (list mustCheck * outcome unit)) : nat := match wk with Some (jobs, _) => 4 * length jobs + 1 | None => 0 end.
Definition worker_work (w : option mustCheck) : nat := match w with Some _ => 2 | None => 1 end.
Definition verify_work (s : verifying) : nat :=
  walk_work (v_walk s) + 3 * length (v_work s) + sum_list_with worker_work (v_workers s) + (if v_external s then 0 else 1) +
  match v_panic s with Some _ => 0 | None => 1 end.

Lemma vstep_work s s' : step s s' -> (verify_work s' < verify_work s)%nat.
Proof.
  intros Hs. destruct Hs; unfold verify_work; cbn [v_walk v_work v_workers v_external v_panic];
    rewrite ?sum_list_with_app, ?length_app; cbn [sum_list_with walk_work worker_work length]; lia.
Qed.

Lemma vstep_ends s : Acc (fun s2 s1 => step s1 s2) s.
Proof.
  remember (verify_work s) as n eqn:En. revert s En. induction (lt_wf n) as [n _ IH]. intros s ->. constructor. intros s2 Hs. eapply IH; [by apply vstep_work|done].
Qed.

Lemma group_err_done err e ext : ctx_done (group_err err e) ext = true.
Proof. by destruct err. Qed.

Lemma ctx_done_err err e ext : ctx_done err ext = true -> ctx_done (group_err err e) ext = true.
Proof. intros _. apply group_err_done. Qed.

(** Workers only return when there is nothing more to do or the context is done. *)
Definition working (s : verifying) : Prop :=
  length (v_workers s) = nVerifyWorkers \/ ctx_done (v_err s) (v_external s) = true \/ v_walk s = None.

Lemma vstep_working s s' : step s s' -> working s -> v_panic s' = None -> working s'.
Proof.
  intros Hs. unfold working. destruct Hs; cbn [v_walk v_work v_workers v_err v_external v_panic]; rewrite ?length_app; cbn [length];
    rewrite ?group_err_done; intros [?|[?|?]] ?; try done; auto; try (right; left; unfold ctx_done; by rewrite orb_true_r).
Qed.

Lemma vschedule_step s s' : vschedule Hash LookupBlobSize Error o s = Some s' -> step s s'.
Proof.
  destruct s as [wk q ws n err ext pn]. unfold vschedule. destruct pn; [done|].
  assert (forall r, match wk with
    | Some ([], Ok _) => Some (mkVerifying None q ws n err ext None)
    | Some ([], Err e) => Some (mkVerifying None q ws n (group_err err e) ext None)
    | Some ([], Panic p) => Some (mkVerifying None q ws n err ext (Some p))
    | Some (job :: jobs, r) =>
        if Nat.ltb (length q) work_cap then Some (mkVerifying (Some (jobs, r)) (q ++ [job]) ws n err ext None)
        else if ctx_done err ext then Some (mkVerifying None q ws n (group_err err (ErrMsg "context canceled")) ext None)
        else None
    | None => None end = Some r -> step (mkVerifying wk q ws n err ext None) r) as Hwalk.
  { intros r. destruct wk as [[[|job jobs] r0]|]; [destruct r0 as [[]|e|p]; intros [= <-]; by constructor| |done].
    destruct (Nat.ltb_spec (length q) work_cap); [intros [= <-]; by constructor|]. destruct (ctx_done err ext) eqn:Ed; [|done]. intros [= <-]. by apply v_give_up. }
  destruct ws as [|[job|] ws].
  - intros E. apply Hwalk. destruct wk as [[[|job jobs] [[]|e|p]]|]; by destruct q.
  - intros [= <-]. destruct (check_job _ _ _ _ job) as [[]|e|p] eqn:Ec; [destruct (ctx_done err ext) eqn:Ed| |].
    + by apply (v_break _ _ _ _ _ _ []).
    + by apply (v_checked _ _ _ _ _ _ []).
    + by apply (v_failed _ _ _ _ _ _ []).
    + by apply (v_panics _ _ _ _ _ _ []).
  - destruct q as [|job q]; [|intros [= <-]; by apply (v_receive _ _ _ _ _ _ _ [])].
    destruct wk as [[[|job jobs] [[]|e|p]]|]; try (intros E; by apply Hwalk). intros [= <-]. by apply (v_closed _ _ _ _ []).
Qed.

Lemma run_verify_steps fuel s : rtc step s (run_verify Hash LookupBlobSize Error o fuel s).
Proof.
  revert s; induction fuel as [|fuel IH]; intros s; cbn [run_verify]; [done|]. destruct (vschedule Hash LookupBlobSize Error o s) as [s'|] eqn:E; [|done].
  eapply rtc_l; [by apply vschedule_step|apply IH].
Qed.

(** Before all have returned some goroutine can go on. *)
Lemma vstep_goes_on s : working s -> waited s = None -> exists s', step s s'.
Proof.
  destruct s as [wk q ws n err ext pn]. unfold working, waited. cbn [v_walk v_workers v_err v_external v_panic]. intros Hw Hf.
  destruct pn; [done|]. destruct ws as [|[job|] ws].
  - destruct wk as [[jobs r]|]; [|done]. destruct Hw as [?|[Hd|?]]; [done| |done]. eexists. by apply (v_give_up _ _ _ _ (ErrMsg "context canceled")).
  - destruct (check_job Hash LookupBlobSize Error o job) as [[]|e|p] eqn:Ec; [destruct (ctx_done err ext) eqn:Ed|..]; eexists.
    + by apply (v_break _ _ _ _ _ _ []).
    + by apply (v_checked _ _ _ _ _ _ []).
    + by apply (v_failed _ _ _ _ _ _ []).
    + by apply (v_panics _ _ _ _ _ _ []).
  - destruct q as [|job q]; [|eexists; by apply (v_receive _ _ _ _ _ _ _ [])].
    destruct wk as [[[|job jobs] r]|]; [destruct r as [[]|e|p]; eexists; by constructor| |eexists; by apply (v_closed _ _ _ _ [])].
    eexists. apply v_send. cbn. lia.
Qed.

(** ** What is verified *)

Context (Hstrict : forall location e, Error location e <> None) (jobs0 : list mustCheck) (r0 : outcome unit).

Definition job_ok (job : mustCheck) : Prop := verifyFile Hash LookupBlobSize o job.2 job.1 = Ok tt.

Lemma check_job_ok job : check_job Hash LookupBlobSize Error o job = Ok tt -> job_ok job.
Proof using Hstrict.
  unfold check_job, job_ok. destruct (verifyFile _ _ o job.2 job.1) as [[]|e|p]; [done| |done]. intros E. by apply (strict_error Error Hstrict) in E.
Qed.

(** A run in which nothing has failed and nobody has cancelled: no file is lost. *)
Record calm (s : verifying) : Prop := {
  cm_walk : match v_walk s with Some (_, r) => r = r0 | None => r0 = Ok tt end;
  cm_workers : length (v_workers s) = nVerifyWorkers \/ v_walk s = None /\ v_work s = [];
  cm_jobs job : job ∈ jobs0 -> job ∈ match v_walk s with Some (jobs, _) => jobs | None => [] end \/ job ∈ v_work s \/ Some job ∈ v_workers s \/ job_ok job }.

Definition calm_or_done (s : verifying) : Prop := v_panic s = None -> v_err s = None -> v_external s = false -> calm s.

Lemma group_err_some err e : group_err err e <> None.
Proof. by destruct err. Qed.

Lemma vstep_calm s s' : step s s' -> calm_or_done s -> calm_or_done s'.
Proof using Hstrict.
  intros Hs Hc. unfold calm_or_done in *. destruct Hs; cbn [v_panic v_err v_external] in *; intros Hp He Hx; try done; try (by apply group_err_some in He); subst;
    try done; specialize (Hc eq_refl eq_refl eq_refl); destruct Hc as [H1 H2 H3]; cbn [v_walk v_work v_workers] in *;
    split; cbn [v_walk v_work v_workers]; try done; rewrite ?length_app in *; cbn [length] in *; auto.
  - destruct H2 as [?|[? _]]; [by left|done].
  - intros j Hj. destruct (H3 j Hj) as [[->|?]%elem_of_cons|?]; [right; left; set_solver|by left|right; set_solver].
  - destruct H2 as [?|[? _]]; [by left|done].
  - destruct H2 as [?|[? E]]; [by left|done].
  - intros j Hj. destruct (H3 j Hj) as [?|[[->|?]%elem_of_cons|[?|?]]]; [by left|right; right; left; set_solver|right; left; done|right; right; left; set_solver|auto].
  - intros j Hj. destruct (H3 j Hj) as [?|[?|[Hin|?]]]; [by left|by right; left| |auto]. right; right; left.
    rewrite elem_of_app, elem_of_cons in Hin. destruct Hin as [?|[?|?]]; [set_solver|done|set_solver].
  - intros j Hj. destruct (H3 j Hj) as [?|[?|[Hin|?]]]; [by left|by right; left| |auto]. rewrite elem_of_app, elem_of_cons in Hin.
    destruct Hin as [?|[[= ->]|?]]; [right; right; left; set_solver|right; right; right; by apply check_job_ok|right; right; left; set_solver].
Qed.
End Runs.

(** C11. Every run of [VerifyFiles] comes to an end, and until all goroutines have returned
    one of them can go on.  When it then returns no error, its caller has not cancelled
    the context, and [Error] ignores no error, every file of the snapshot that the
    filter selects is at its target, has the size of its node and begins with the
    content of its blobs, which it has the hashes of.  The size is only compared with that
    of the file, not with that of the blobs. *)
Theorem VerifyFiles_sound (Hash : list byte -> ID) (LookupBlobSize : BlobHandle -> option Z) (LoadTree : ID -> outcome (list Node))
    (Error : string -> error -> option error) (SelectFilter : string -> string -> Node -> bool * bool) (fuel : nat) (sn : Snapshot) (root : ID) (dst : string) (o : os)
    (Hsize : forall h n, LookupBlobSize h = Some n -> 0 <= n) (Hos : forall path content, file_content o path = Some content -> zlen content < 2 ^ 63)
    (Hroot : sn_Tree sn = Some root) :
  let step := vstep Hash LookupBlobSize Error o in
  let start := verify_init LoadTree Error SelectFilter fuel sn dst in
  Acc (fun s2 s1 => step s1 s2) start /\
  (forall s, rtc step start s -> waited s = None -> exists s', step s s') /\
  (forall n, (forall location e, Error location e <> None) -> VerifyFiles Hash LookupBlobSize LoadTree Error SelectFilter fuel sn dst o false n (Ok tt) ->
    forall node target location, selected_at LoadTree SelectFilter dst "/" root node target location -> n_Type node = "file" ->
      verified Hash LookupBlobSize o target node).
Proof.
  intros step start. split; [apply vstep_ends|]. split.
  - intros s Hr Hw. apply vstep_goes_on; [|done].
    assert (v_panic s = None) as Hp by (unfold waited in Hw; by destruct (v_panic s)). clear Hw.
    assert (forall s s', rtc step s s' -> working s -> v_panic s' = None -> working s') as Hinv; [|apply (Hinv _ _ Hr); [left; apply length_replicate|done]].
    clear. induction 1 as [s|s s1 s2 Hs Hr IH]; [done|]. intros Hw Hp. apply IH; [|done]. eapply vstep_working; [exact Hs|done|].
    destruct Hr as [s1|s1 s2 s3 H12 _]; [done|by destruct H12].
  - intros n Hstrict (s0 & s & Hr0 & Hr & _ & Hx & Hw) node target location Hsel Hf. assert (rtc step start s) as Hrun by by etransitivity.
    unfold start, verify_init in Hrun. rewrite Hroot in Hrun. destruct (traverseTree _ _ _ _ _ _ _ _ root) as [jobs [h r]] eqn:Et.
    assert (calm Hash LookupBlobSize o jobs r s) as [H1 H2 H3].
    { unfold waited in Hw. assert (v_panic s = None /\ v_err s = None) as [Hp He].
      { destruct (v_panic s); [done|]. destruct (v_walk s), (v_workers s), (v_err s); done. }
      revert Hp He. symmetry in Hx. revert Hx. clear -Hrun Hstrict. intros Hx Hp He.
      assert (calm_or_done Hash LookupBlobSize o jobs r s) as Hc; [|by apply Hc].
      revert Hrun. apply rtc_ind_r; [|by intros s1 s2 _ Hs; apply (vstep_calm _ _ _ _ Hstrict)].
      intros _ _ _. split; cbn [v_walk v_workers v_work]; [done|left; apply length_replicate|by left]. }
    assert (v_walk s = None /\ v_workers s = []) as [Ew Ek].
    { unfold waited in Hw. destruct (v_panic s); [done|]. by destruct (v_walk s), (v_workers s). }
    rewrite Ew, Ek in *. destruct H2 as [?|[_ Eq]]; [done|]. rewrite Eq in *. subst r.
    destruct (collect_tree LoadTree Error SelectFilter Hstrict fuel dst "/" root _ _ _ Et) as [_ Hin].
    destruct (H3 (node, target)) as [?%elem_of_nil|[?%elem_of_nil|[?%elem_of_nil|Hok]]]; [apply Hin; [by exists location|done]|done..|].
    apply verifyFile_ok in Hok; [done..|]. intros c. apply Hos.
Qed.

(** ** A snapshot of one file *)

Definition ex_size (_ : BlobHandle) : option Z := Some 2.
Definition ex_verify_node (name : string) : Node := mkNode name "file" 420 time_zero time_zero time_zero 0 0 "" "" 0 0 4 1 "" [] 0 (Some [nullID; nullID]) None "" "".
Definition ex_verify_tree (names : list string) (_ : ID) : outcome (list Node) := Ok (ex_verify_node <$> names).
Definition ex_os (names : list string) : os := mkOs (list_to_map ((fun name => ("/dst/" +:+ name, Regular 0)) <$> names)) {[0%nat := ["a"; "b"; "c"; "d"]%byte]} [].
Definition ex_sn : Snapshot := mkSnapshot time_zero None (Some nullID) [] "" "" 0 0 [] [] None "" None.
Abbreviation ex_start names := (verify_init (ex_verify_tree names) (fun _ e => Some e) (fun _ _ _ => (true, true)) 2 ex_sn "/dst").
Abbreviation ex_VerifyFiles names := (VerifyFiles (fun _ => nullID) ex_size (ex_verify_tree names) (fun _ e => Some e) (fun _ _ _ => (true, true)) 2 ex_sn "/dst").

Lemma VerifyFiles_sound_witness :
  ex_VerifyFiles ["f"] (ex_os ["f"]) false 1 (Ok tt) /\ verified (fun _ => nullID) ex_size (ex_os ["f"]) "/dst/f" (ex_verify_node "f").
Proof.
  assert (ex_VerifyFiles ["f"] (ex_os ["f"]) false 1 (Ok tt)) as Hrun.
  { set (s := run_verify (fun _ => nullID) ex_size (fun _ e => Some e) (ex_os ["f"]) 100 (ex_start ["f"])). exists s, s.
    split; [apply run_verify_steps|]. split; [constructor|]. by vm_compute. }
  split; [exact Hrun|].
  assert (forall path content, file_content (ex_os ["f"]) path = Some content -> zlen content < 2 ^ 63) as Hos.
  { intros path content H. unfold file_content in H. destruct (decide (path = "/dst/f")) as [->|Hne].
    + vm_compute in H. injection H as <-. reflexivity.
    + cbn [os_paths ex_os] in H. change (list_to_map _) with ({["/dst/f" := Regular 0]} : gmap string entry) in H. rewrite lookup_singleton_ne in H; done. }
  assert (forall h n, ex_size h = Some n -> 0 <= n) as Hsize by (intros h n [= <-]; lia).
  eapply (proj2 (proj2 (VerifyFiles_sound (fun _ => nullID) ex_size (ex_verify_tree ["f"]) (fun _ e => Some e) (fun _ _ _ => (true, true)) 2 ex_sn nullID "/dst"
    (ex_os ["f"]) Hsize Hos eq_refl))) with (location := "/f").
  - done.
  - exact Hrun.
  - refine (selected_here _ _ "/dst" "/" nullID _ _ eq_refl _ _ _ _ _ _); try reflexivity; try discriminate. by left.
  - reflexivity.
Defined.

(** A call whose caller cancels the context can return no error although a file is missing:
    each worker stops after its next file, with no error of its own. *)
Lemma cancelled_VerifyFiles :
  let names := ["1"; "2"; "3"; "4"; "5"; "6"; "7"; "8"] in
  ex_VerifyFiles (names ++ ["missing"]) (ex_os names) true 0 (Ok tt) /\ file_content (ex_os names) "/dst/missing" = None.
Proof.
  intros names. split; [|by vm_compute]. set (jobs := (fun name => (ex_verify_node name, "/dst/" +:+ name)) <$> names).
  set (lost := (ex_verify_node "missing", "/dst/missing")).
  assert (ex_start (names ++ ["missing"]) = mkVerifying (Some (jobs ++ [lost], Ok tt)) [] (replicate 8 None) 0 None false None) as Es by by vm_compute.
  exists (mkVerifying None [lost] [] 0 None true None), (mkVerifying None [lost] [] 0 None true None). rewrite Es. clear Es. split; [|by repeat constructor].
  assert (Forall (fun job => check_job (fun _ => nullID) ex_size (fun _ e => Some e) (ex_os names) job = Ok tt) jobs) as HF by (repeat constructor; by vm_compute).
  unfold jobs, names in *. cbn [fmap list_fmap app] in *. rewrite !Forall_cons in HF. destruct HF as (C1 & C2 & C3 & C4 & C5 & C6 & C7 & C8 & _).
  do 9 (eapply rtc_l; [apply v_send; cbn; lia|cbn [app]]). eapply rtc_l; [apply v_walked|]. eapply rtc_l; [apply v_cancel|].
  cbn [replicate].
  do 8 (eapply rtc_l; [apply (v_receive _ _ _ _ _ _ _ []); cbn|]; cbn [app];
    eapply rtc_l; [apply (v_break _ _ _ _ _ _ []); [eassumption|done]|]; cbn [app]).
  apply rtc_refl.
Qed.
