(* ===== verification/FS.v ===== *)
(** The file systems the archiver reads (src/internal/fs/interface.go, helpers.go,
    stat.go, stat_unix.go, fs_local.go, fs_reader.go).

    The interface [FS] is a class over a state, which a call may change: files
    change while they are read, and a [Reader] can be opened once.  An open file is
    the results of its calls. *)

From S2P Require Import Prelude Bytes GoString GoTime Restic Snapshot Tree FsPath.

#[local] Open Scope Z_scope.

(** [syscall.Stat_t]. *)
Record stat_t := mkStat {
  st_Dev : Z; st_Ino : Z; st_Nlink : Z; st_Uid : Z; st_Gid : Z; st_Rdev : Z; st_Size : Z;
  st_Atim : Time; st_Mtim : Time; st_Ctim : Time }.

(** [os.FileInfo]; [ofi_Sys] is nothing when the file is not one of the system. *)
Record OsFileInfo := mkOsFileInfo {
  ofi_Name : string; ofi_Size : Z; ofi_Mode : Z; ofi_ModTime : Time; ofi_Sys : option stat_t }.

Definition ModePerm : Z := 511.
Definition mode_IsDir (m : Z) : bool := negb (Z.land m ModeDir =? 0).
Definition mode_IsRegular (m : Z) : bool := Z.land m ModeType =? 0.

Definition IsRegularFile (fi : OsFileInfo) : bool := Z.land (ofi_Mode fi) ModeType =? 0.

(** What [extendedStat] adds and the archiver uses; a type assertion on nothing
    panics. *)
Record ExtendedFileInfo := mkExtendedFileInfo {
  ext_DeviceID : Z; ext_Inode : Z; ext_Links : Z; ext_UID : Z; ext_GID : Z; ext_Device : Z; ext_Size : Z;
  ext_AccessTime : Time; ext_ModTime : Time; ext_ChangeTime : Time }.

Definition extendedStat (fi : OsFileInfo) : outcome ExtendedFileInfo :=
  match ofi_Sys fi with
  | None => Panic "interface conversion"
  | Some s => Ok (mkExtendedFileInfo (st_Dev s) (st_Ino s) (st_Nlink s) (st_Uid s) (st_Gid s) (st_Rdev s) (st_Size s) (st_Atim s) (st_Mtim s) (st_Ctim s))
  end.

(** An open file; reading it delivers bytes and then ends, with an error unless the
    end of the file was reached. *)
Record File := mkFile {
  file_Name : string;
  file_Stat : outcome OsFileInfo;
  file_Readdirnames : outcome (list string);
  file_Read : list byte * option error;
  file_Close : option error }.

Definition O_RDONLY : Z := 0.
Definition O_NOFOLLOW : Z := 131072.

Class FS (F : Type) := {
  fs_OpenFile : string -> Z -> F -> F * outcome File;
  fs_Stat : string -> F -> F * outcome OsFileInfo;
  fs_Lstat : string -> F -> F * outcome OsFileInfo;
  fs_Join : list string -> string;
  fs_Separator : string;
  fs_Abs : string -> outcome string;
  fs_Clean : string -> string;
  fs_VolumeName : string -> string;
  fs_IsAbs : string -> bool;
  fs_Dir : string -> string;
  fs_Base : string -> string }.

(** The paths of a system with slashes and without volumes. *)
Class UnixPaths F `{FS F} : Prop := {
  unix_Join l : fs_Join l = path_Join l;
  unix_Separator : fs_Separator = "/";
  unix_Clean p : fs_Clean p = path_Clean p;
  unix_VolumeName p : fs_VolumeName p = "";
  unix_Dir p : fs_Dir p = filepath_Dir p;
  unix_Base p : fs_Base p = filepath_Base p;
  unix_IsAbs p : rooted p = true -> fs_IsAbs p = true }.

(** * The local file system *)

Section Local.
Context {W : Type} (os_OpenFile : string -> Z -> W -> W * outcome File) (os_Stat os_Lstat : string -> W -> W * outcome OsFileInfo) (Getwd : outcome string).

Definition filepath_Abs (p : string) : outcome string :=
  if filepath_IsAbs p then Ok (path_Clean p)
  else match Getwd with Ok wd => Ok (path_Join [wd; p]) | Err e => Err e | Panic p => Panic p end.

Definition Local : FS W := {|
  fs_OpenFile := os_OpenFile;
  fs_Stat := os_Stat;
  fs_Lstat := os_Lstat;
  fs_Join := path_Join;
  fs_Separator := "/";
  fs_Abs := filepath_Abs;
  fs_Clean := path_Clean;
  fs_VolumeName := fun _ => "";
  fs_IsAbs := filepath_IsAbs;
  fs_Dir := filepath_Dir;
  fs_Base := filepath_Base |}.

Lemma Local_unix : @UnixPaths W Local.
Proof. by constructor. Qed.
End Local.

(** * A directory with one file, which is read from a stream *)

Section Reader.
Context (Name : string) (Mode : Z) (ModTime : Time) (Size : Z) (AllowEmptyFile : bool) (ReadCloser : list byte * option error) (close : option error).
Context (Now : Time).

(** The state: whether the stream was handed out. *)
Abbreviation reader := bool.

Definition pathError (op name : string) (e : error) : error := ErrWrap e (op +:+ " " +:+ name).
Definition EIO : error := ErrMsg "input/output error".
Definition ENOENT : error := ErrMsg "no such file or directory".
Definition ErrInvalid : error := ErrMsg "invalid argument".
Definition ErrFileEmpty : error := ErrMsg "no data read".

Definition reader_fi : OsFileInfo := mkOsFileInfo Name Size Mode ModTime None.

(** A stream without data ends with an error unless empty files are allowed. *)
Definition newReaderFile : File :=
  mkFile Name (Ok reader_fi) (Err (pathError "readdirnames" Name ErrInvalid))
    (match ReadCloser with
     | ([], None) => ([], if AllowEmptyFile then None else Some (pathError "read" Name ErrFileEmpty))
     | r => r
     end) close.

Definition fakeDir : File := mkFile "" (Panic "nil pointer dereference") (Ok [Name]) ([], Some (pathError "read" "" ErrInvalid)) None.

Definition reader_open_once (name : string) (opened : reader) : reader * outcome File :=
  (true, if opened then Err (pathError "open" name EIO) else Ok newReaderFile).

Definition reader_Open (name : string) (opened : reader) : reader * outcome File :=
  if String.eqb name Name then reader_open_once name opened
  else if String.eqb name "/" || String.eqb name "." then (opened, Ok fakeDir)
  else (opened, Err (pathError "open" name ENOENT)).

(** [OpenFile] opens the stream whatever the name is. *)
Definition reader_OpenFile (name : string) (flag : Z) (opened : reader) : reader * outcome File :=
  if negb (Z.land flag (Z.lnot (Z.lor O_RDONLY O_NOFOLLOW)) =? 0) then (opened, Err (pathError "open" name (ErrMsg "invalid combination of flags 0x%x")))
  else reader_open_once name opened.

Definition getDirInfo (name : string) : OsFileInfo := mkOsFileInfo (filepath_Base name) 0 (Z.lor ModeDir 493) Now None.

(** The loop over the parents of the file. *)
Fixpoint reader_dirs (fuel : nat) (name dir : string) : bool :=
  match fuel with
  | O => false
  | S fuel => if String.eqb dir "/" || String.eqb dir "." then false else if String.eqb name dir then true else reader_dirs fuel name (filepath_Dir dir)
  end.

Definition reader_Lstat (name : string) (opened : reader) : reader * outcome OsFileInfo :=
  (opened,
   if String.eqb name Name then Ok reader_fi
   else if String.eqb name "/" || String.eqb name "." then Ok (getDirInfo name)
   else if reader_dirs (S (String.length Name)) name (filepath_Dir Name) then Ok (getDirInfo name)
   else Err (pathError "lstat" name (ErrMsg "file does not exist"))).

Definition Reader : FS reader := {|
  fs_OpenFile := reader_OpenFile;
  fs_Stat := reader_Lstat;
  fs_Lstat := reader_Lstat;
  fs_Join := path_Join;
  fs_Separator := "/";
  fs_Abs := fun p => Ok (path_Clean p);
  fs_Clean := path_Clean;
  fs_VolumeName := fun _ => "";
  fs_IsAbs := fun _ => true;
  fs_Dir := filepath_Dir;
  fs_Base := filepath_Base |}.

Lemma Reader_unix : @UnixPaths reader Reader.
Proof. by constructor. Qed.
End Reader.

(** * Directories *)

Section Readdir.
Context {F : Type} `{FS F}.

(** [readdirnames] of the archiver. *)
Definition readdirnames (dir : string) (flags : Z) (s : F) : F * outcome (list string) :=
  let '(s, f) := fs_OpenFile dir (Z.lor O_RDONLY flags) s in
  (s, match f with
      | Err e => Err e
      | Panic p => Panic p
      | Ok f =>
          match file_Readdirnames f with
          | Err e => Err (ErrWrap e "Readdirnames %v failed")
          | Panic p => Panic p
          | Ok entries => match file_Close f with Some e => Err e | None => Ok entries end
          end
      end).
End Readdir.

(** * The components of a path *)

Lemma Base_render root out c : clean_stack root (c :: out) -> filepath_Base (render root (rev (c :: out))) = c.
Proof.
  intros Hs. pose proof (clean_stack_comps _ _ Hs) as Hc. apply Forall_and in Hc as [Hns Hne]. cbn [rev] in *.
  destruct (render_clean root (c :: out) Hs) as (Hx & _). cbn [rev] in Hx. unfold filepath_Base.
  destruct (String.eqb_spec (render root (rev out ++ [c])) "") as [E|_]; [done|].
  assert (split_on slash (render root (rev out ++ [c])) = (if root then [""] else []) ++ rev out ++ [c]) as ->.
  { unfold render. destruct root.
    - change ("/" +:+ strings_Join "/" (rev out ++ [c])) with ("" +:+ String.String slash (strings_Join "/" (rev out ++ [c]))).
      rewrite split_on_app, split_on_Join_comps; [done|by destruct (rev out)|done].
    - destruct (rev out ++ [c]) as [|x l] eqn:E; [by destruct (rev out)|]. rewrite <- E, split_on_Join_comps; [done|by destruct (rev out)|by rewrite E]. }
  rewrite !rev_app_distr. cbn [rev app]. apply Forall_app in Hne as [_ Hcne]. apply Forall_cons in Hcne as [Hcne _]. by destruct c.
Qed.
