(* ===== verification/ArchTree.v ===== *)
(** The tree of the targets of a backup (src/internal/archiver/tree.go).

    A map of subtrees is an association list whose keys are distinct; nothing
    depends on its order, since it is only read by name or in the order of the names,
    except which of several errors [unrollTree] returns. *)

From S2P Require Import Prelude Bytes GoString Restic GoTime Snapshot Tree FsPath FS.

#[local] Open Scope Z_scope.

(** * Maps of names *)

Section Assoc.
Context {A : Type}.

Fixpoint get_name (l : list (string * A)) (name : string) : option A :=
  match l with
  | [] => None
  | (n, a) :: l => if String.eqb n name then Some a else get_name l name
  end.

Fixpoint set_name (l : list (string * A)) (name : string) (a : A) : list (string * A) :=
  match l with
  | [] => [(name, a)]
  | (n, b) :: l => if String.eqb n name then (n, a) :: l else (n, b) :: set_name l name a
  end.

Lemma get_set l name a name' : get_name (set_name l name a) name' = if String.eqb name name' then Some a else get_name l name'.
Proof.
  induction l as [|[n b] l IH]; cbn; [done|]. destruct (String.eqb_spec n name) as [->|Hn]; cbn.
  - by destruct (String.eqb_spec name name').
  - destruct (String.eqb_spec n name') as [->|Hn']; [|done]. by destruct (String.eqb_spec name name').
Qed.

Lemma set_name_keys l name a : get_name l name = None -> (set_name l name a).*1 = l.*1 ++ [name].
Proof. induction l as [|[n b] l IH]; cbn; [done|]. destruct (String.eqb n name); [done|]. intros E. cbn. by rewrite IH. Qed.

Lemma set_name_same l name a b : get_name l name = Some b -> (set_name l name a).*1 = l.*1.
Proof. induction l as [|[n c] l IH]; cbn; [done|]. destruct (String.eqb n name); [done|]. intros E. cbn. by rewrite IH. Qed.

Lemma get_name_In l name a : get_name l name = Some a -> (name, a) ∈ l.
Proof. induction l as [|[n b] l IH]; cbn; [done|]. destruct (String.eqb_spec n name) as [->|]; [intros [= ->]; by left|intros E; right; by apply IH]. Qed.

Lemma get_name_None l name : get_name l name = None <-> name ∉ l.*1.
Proof.
  induction l as [|[n b] l IH]; cbn; [set_solver|]. destruct (String.eqb_spec n name) as [->|Hn]; [set_solver|]. rewrite IH, not_elem_of_cons. naive_solver.
Qed.

Lemma get_name_NoDup l name a : NoDup l.*1 -> (name, a) ∈ l -> get_name l name = Some a.
Proof.
  induction l as [|[n b] l IH]; cbn; [by intros _ ?%elem_of_nil|]. intros [Hn Hl]%NoDup_cons [[= -> ->]|Hin]%elem_of_cons; [by rewrite String.eqb_refl|].
  destruct (String.eqb_spec n name) as [->|]; [|by apply IH]. exfalso. apply Hn. apply list_elem_of_fmap. by exists (name, a).
Qed.
End Assoc.

(** * The tree *)

Inductive ATree := mkATree { at_Nodes : list (string * ATree); at_Path : string; at_FileInfoPath : string; at_Root : string }.

Definition emptyTree : ATree := mkATree [] "" "" "".
Definition set_nodes (t : ATree) (nodes : list (string * ATree)) : ATree := mkATree nodes (at_Path t) (at_FileInfoPath t) (at_Root t).
Definition set_Path (t : ATree) (p : string) : ATree := mkATree (at_Nodes t) p (at_FileInfoPath t) (at_Root t).
Definition set_FileInfoPath (t : ATree) (p : string) : ATree := mkATree (at_Nodes t) (at_Path t) p (at_Root t).

Definition Leaf (t : ATree) : bool := negb (String.eqb (at_Path t) "").

(** [NodeNames]. *)
Definition NodeNames (t : ATree) : list string := sort_Strings (at_Nodes t).*1.

Section Paths.
Context {F : Type} `{FS F}.

(** The loop of [pathComponents], which collects the components from the last one
    on; a round shortens the path. *)
Fixpoint path_loop (fuel : nat) (p : string) (components : list string) : list string :=
  match fuel with
  | O => components
  | S fuel => if String.eqb p (fs_Dir p) then components else path_loop fuel (fs_Dir p) (components ++ [fs_Base p])
  end.

(** The volume without its colon. *)
Definition volume_component (volume : string) : string :=
  match volume with
  | String.String a (String.String c EmptyString) => if is_code 58 c then String.String a EmptyString else volume
  | _ => volume
  end.

Definition pathComponents (p : string) (includeRelative : bool) : list string * bool :=
  let volume := fs_VolumeName p in
  let p := if fs_IsAbs p then p else if includeRelative then p else fs_Join [fs_Separator; p] in
  let p := fs_Clean p in
  let components := rev (path_loop (S (String.length p)) p []) in
  if String.eqb volume "" then (components, false) else (volume_component volume :: components, true).

Definition rootDirectory (target : string) : string :=
  if String.eqb target "" then ""
  else if fs_IsAbs target then fs_Join [fs_VolumeName target; fs_Separator]
  else fold_left (fun rel c => if String.eqb c ".." then fs_Join [rel; c] else rel) (pathComponents (fs_Clean target) true).1 ".".

(** [add]. *)
Fixpoint tree_add (t : ATree) (target root : string) (pc : list string) : outcome ATree :=
  match pc with
  | [] => Err (ErrMsg "invalid path %q")
  | [name] =>
      match get_name (at_Nodes t) name with
      | None => Ok (set_nodes t (set_name (at_Nodes t) name (mkATree [] target "" "")))
      | Some tree =>
          if negb (String.eqb (at_Path tree) "") then Err (ErrMsg "path is already set for target %v")
          else Ok (set_nodes t (set_name (at_Nodes t) name (set_Path tree target)))
      end
  | name :: pc =>
      let tree := default emptyTree (get_name (at_Nodes t) name) in
      let subroot := fs_Join [root; name] in
      try tree <- tree_add (set_FileInfoPath tree subroot) target subroot pc;
      Ok (set_nodes t (set_name (at_Nodes t) name tree))
  end.

(** The loop of [Add] that chooses the name: the tree is the one that has it, if it
    has the same root. *)
Fixpoint choose_name (fuel : nat) (nodes : list (string * ATree)) (root origName name : string) (i : Z) : outcome (string * option ATree) :=
  match fuel with
  | O => Panic "out of fuel"
  | S fuel =>
      match get_name nodes name with
      | None => Ok (name, None)
      | Some other =>
          let i := i + 1 in
          if String.eqb (at_Root other) root then Ok (name, Some other)
          else choose_name fuel nodes root origName (origName +:+ "-" +:+ pretty i) i
      end
  end.

Definition Tree_Add (t : ATree) (path : string) : outcome ATree :=
  if String.eqb path "" then Panic "invalid path (empty string)"
  else
    let '(pc, virtualPrefix) := pathComponents path false in
    match pc with
    | [] => Err (ErrMsg "invalid path (no path components)")
    | origName :: rest =>
        let root := rootDirectory path in
        try (name, other) <- choose_name (S (length (at_Nodes t))) (at_Nodes t) root origName origName 0;
        let tree := default (mkATree [] "" "" root) other in
        try tree <-
          match rest with
          | [] => Ok (set_Path tree path)
          | _ =>
              let subroot := if virtualPrefix : bool then root else fs_Join [root; origName] in
              try tree <- tree_add tree path subroot rest;
              Ok (set_FileInfoPath tree subroot)
          end;
        Ok (set_nodes t (set_name (at_Nodes t) name tree))
    end.

(** * Unrolling *)

(** The loop over the entries of the directory [path]. *)
Definition unroll_entry (path : string) (nodes : list (string * ATree)) (entry : string) : outcome (list (string * ATree)) :=
  let p := fs_Join [path; entry] in
  match get_name nodes entry with
  | Some node =>
      if String.eqb (at_Path node) "" then Ok (set_name nodes entry (set_Path node p))
      else if String.eqb (at_Path node) p then Ok nodes
      else Err (ErrMsg "tree unrollTree: collision on path, node %#v, path %q")
  | None => Ok (set_name nodes entry (mkATree [] p "" ""))
  end.

Definition unroll_node (t : ATree) (s : F) : F * outcome ATree :=
  match at_Nodes t with
  | (_ :: _) as nodes =>
      if String.eqb (at_Path t) "" then (s, Ok t)
      else
        let '(s, entries) := readdirnames (at_Path t) 0 s in
        (s, try entries <- entries;
            try nodes <- ofold (unroll_entry (at_Path t)) nodes entries;
            Ok (mkATree nodes "" (at_FileInfoPath t) (at_Root t)))
  | [] => (s, Ok t)
  end.

Fixpoint unroll_all (rec : ATree -> F -> F * outcome ATree) (l : list (string * ATree)) (s : F) : F * outcome (list (string * ATree)) :=
  match l with
  | [] => (s, Ok [])
  | (name, sub) :: l =>
      match rec sub s with
      | (s, Ok sub) =>
          match unroll_all rec l s with
          | (s, Ok l) => (s, Ok ((name, sub) :: l))
          | r => r
          end
      | (s, Err e) => (s, Err e)
      | (s, Panic p) => (s, Panic p)
      end
  end.

(** [unrollTree]; the fuel bounds the depth of the tree. *)
Fixpoint unrollTree (fuel : nat) (t : ATree) (s : F) : F * outcome ATree :=
  match fuel with
  | O => (s, Panic "out of fuel")
  | S fuel =>
      match unroll_node t s with
      | (s, Ok t) =>
          match unroll_all (unrollTree fuel) (at_Nodes t) s with
          | (s, Ok nodes) => (s, Ok (set_nodes t nodes))
          | (s, Err e) => (s, Err e)
          | (s, Panic p) => (s, Panic p)
          end
      | r => r
      end
  end.

(** * [NewTree] *)

(** The targets that are added, each once. *)
Definition add_target (st : ATree * gset string) (target : string) : outcome (ATree * gset string) :=
  let '(tree, seen) := st in
  let target := fs_Clean target in
  if bool_decide (target ∈ seen) then Ok (tree, seen)
  else try tree <- Tree_Add tree target; Ok (tree, {[target]} ∪ seen).

Fixpoint depth (t : ATree) : nat := S (foldr (fun n d => Nat.max (depth n.2) d) 0%nat (at_Nodes t)).

Definition NewTree (targets : list string) (s : F) : F * outcome ATree :=
  match ofold add_target (emptyTree, ∅) targets with
  | Ok (tree, _) => unrollTree (S (depth tree)) tree s
  | Err e => (s, Err e)
  | Panic p => (s, Panic p)
  end.
End Paths.

(** * Positions *)

Fixpoint node_at (t : ATree) (pos : list string) : option ATree :=
  match pos with
  | [] => Some t
  | name :: pos => get_name (at_Nodes t) name ≫= fun t => node_at t pos
  end.

(** What is to be saved at a position, nothing where [Path] is not set. *)
Definition path_at (t : ATree) (pos : list string) : string := from_option at_Path "" (node_at t pos).
Definition info_at (t : ATree) (pos : list string) : string := from_option at_FileInfoPath "" (node_at t pos).

Lemma path_at_cons t name pos : path_at t (name :: pos) = from_option (fun t => path_at t pos) "" (get_name (at_Nodes t) name).
Proof. unfold path_at. cbn [node_at]. by destruct (get_name (at_Nodes t) name). Qed.

Lemma path_at_empty pos p i r : pos <> [] -> path_at (mkATree [] p i r) pos = "".
Proof. by destruct pos. Qed.

Lemma path_at_default t name pos : pos <> [] -> path_at (default emptyTree (get_name (at_Nodes t) name)) pos = path_at t (name :: pos).
Proof. intros Hp. rewrite path_at_cons. destruct (get_name (at_Nodes t) name); [done|]. by apply path_at_empty. Qed.

(** Replacing a subtree. *)
Lemma path_at_set t name sub pos :
  path_at (set_nodes t (set_name (at_Nodes t) name sub)) pos =
  match pos with [] => at_Path t | n :: pos' => if String.eqb name n then path_at sub pos' else path_at t pos end.
Proof.
  destruct pos as [|n pos]; [done|]. rewrite !path_at_cons. cbn [set_nodes at_Nodes]. rewrite get_set. by destruct (String.eqb_spec name n).
Qed.

Section Facts.
Context {F : Type} `{HU : UnixPaths F}.

Lemma path_loop_render fuel root out acc :
  clean_stack root out -> (length out < fuel)%nat -> path_loop fuel (render root (rev out)) acc = acc ++ out.
Proof using HU.
  revert out acc. induction fuel as [|fuel IH]; intros out acc Hs Hl; [lia|]. cbn [path_loop]. rewrite unix_Dir, unix_Base, Dir_render by done.
  destruct out as [|c out]; cbn [tail].
  - by rewrite String.eqb_refl, app_nil_r.
  - destruct (String.eqb_spec (render root (rev (c :: out))) (render root (rev out))) as [E|E].
    { apply render_stack_inj in E; [|done|by destruct Hs]. apply (f_equal length) in E. cbn in E. lia. }
    rewrite Base_render by done. rewrite IH; [|by destruct Hs|cbn in Hl; lia]. by rewrite <- app_assoc.
Qed.

Lemma pathComponents_abs p rel : rooted p = true -> pathComponents p rel = (components p, false).
Proof using HU.
  intros Hp. unfold pathComponents. rewrite unix_VolumeName, unix_IsAbs, unix_Clean, Clean_components by done. cbn [String.eqb].
  pose proof (components_clean p) as Hs. rewrite <- (rev_involutive (components p)) at 2. rewrite path_loop_render; [|done|].
  - cbn [app]. by rewrite rev_involutive.
  - pose proof (length_render _ _ Hs) as Hl. rewrite rev_involutive in Hl. lia.
Qed.

Lemma rootDirectory_abs p : rooted p = true -> rootDirectory p = "/".
Proof using HU.
  intros Hp. unfold rootDirectory. destruct (String.eqb_spec p "") as [->|_]; [done|]. rewrite unix_IsAbs by done.
  by rewrite unix_Join, unix_VolumeName, unix_Separator.
Qed.

(** [add] sets one path, and fails when it is set already. *)
Lemma tree_add_spec pc t target root :
  pc <> [] ->
  if String.eqb (path_at t pc) "" then
    exists t', tree_add t target root pc = Ok t' /\ at_Path t' = at_Path t /\ at_Root t' = at_Root t /\
      forall pos, path_at t' pos = if bool_decide (pos = pc) then target else path_at t pos
  else exists e, tree_add t target root pc = Err e.
Proof.
  revert t root. induction pc as [|name pc IH]; intros t root Hne; [done|]. destruct pc as [|name' pc].
  - cbn [tree_add]. rewrite path_at_cons. destruct (get_name (at_Nodes t) name) as [tree|] eqn:E; cbn [from_option].
    + change (path_at tree []) with (at_Path tree). destruct (String.eqb_spec (at_Path tree) "") as [Ep|Ep]; cbn [negb]; [|by eexists].
      eexists. split_and!; [done..|]. intros pos. rewrite path_at_set. destruct pos as [|n pos]; [done|].
      destruct (String.eqb_spec name n) as [<-|Hn]; [|rewrite bool_decide_eq_false_2; [done|congruence]].
      destruct pos as [|n' pos]; [by rewrite bool_decide_eq_true_2|]. rewrite bool_decide_eq_false_2 by congruence.
      by rewrite (path_at_cons t), E.
    + eexists. split_and!; [done..|]. intros pos. rewrite path_at_set. destruct pos as [|n pos]; [done|].
      destruct (String.eqb_spec name n) as [<-|Hn]; [|rewrite bool_decide_eq_false_2; [done|congruence]].
      destruct pos as [|n' pos]; [by rewrite bool_decide_eq_true_2|]. rewrite bool_decide_eq_false_2 by congruence.
      by rewrite (path_at_cons t), E.
  - set (tree := default emptyTree (get_name (at_Nodes t) name)). set (subroot := fs_Join [root; name]).
    change (tree_add t target root (name :: name' :: pc)) with
      (try tree' <- tree_add (set_FileInfoPath tree subroot) target subroot (name' :: pc); Ok (set_nodes t (set_name (at_Nodes t) name tree'))).
    specialize (IH (set_FileInfoPath tree subroot) subroot ltac:(done)).
    assert (forall pos, path_at (set_FileInfoPath tree subroot) pos = path_at tree pos) as Hinfo by by intros [].
    assert (path_at tree (name' :: pc) = path_at t (name :: name' :: pc)) as Htree by by apply path_at_default.
    rewrite Hinfo, Htree in IH. destruct (String.eqb _ ""); [|by destruct IH as [e ->]; exists e].
    destruct IH as (t' & -> & Hp & Hr & Ht'). rewrite bind_Ok_l. eexists. split_and!; [done..|]. intros pos. rewrite path_at_set.
    destruct pos as [|n pos]; [done|]. destruct (String.eqb_spec name n) as [<-|Hn]; [|rewrite bool_decide_eq_false_2; [done|congruence]].
    rewrite Ht', Hinfo. destruct (decide (pos = name' :: pc)) as [->|Hpos]; [by rewrite !bool_decide_eq_true_2|].
    rewrite !bool_decide_eq_false_2 by congruence. rewrite path_at_cons. unfold tree.
    destruct (get_name (at_Nodes t) name); [done|]. by destruct pos.
Qed.

(** All top-level nodes are for the root directory. *)
Definition rooted_tree (t : ATree) : Prop := at_Path t = "" /\ Forall (fun n => at_Root n.2 = "/") (at_Nodes t).

Lemma set_name_Forall {A} (P : string * A -> Prop) l name a : P (name, a) -> Forall P l -> Forall P (set_name l name a).
Proof.
  intros Ha Hl. induction Hl as [|[n b] l Hb Hl IH]; cbn; [by constructor|].
  destruct (String.eqb_spec n name) as [->|]; by constructor.
Qed.

Lemma Tree_Add_abs t p :
  rooted p = true -> components p <> [] -> rooted_tree t -> path_at t (components p) = "" ->
  exists t', Tree_Add t p = Ok t' /\ rooted_tree t' /\ forall pos, path_at t' pos = if bool_decide (pos = components p) then p else path_at t pos.
Proof using HU.
  intros Hp Hc [Ht Hroots] Hfree. unfold Tree_Add. destruct (String.eqb_spec p "") as [->|_]; [done|].
  rewrite pathComponents_abs by done. destruct (components p) as [|origName rest] eqn:Ec; [done|].
  rewrite rootDirectory_abs by done. change (S (length (at_Nodes t))) with (1 + length (at_Nodes t))%nat.
  set (other := get_name (at_Nodes t) origName).
  assert (choose_name (1 + length (at_Nodes t)) (at_Nodes t) "/" origName origName 0 = Ok (origName, other)) as ->.
  { cbn [Nat.add choose_name]. fold other. destruct other as [o|] eqn:Eo; [|done]. apply get_name_In in Eo.
    rewrite Forall_forall in Hroots. apply Hroots in Eo. cbn in Eo. by rewrite Eo. }
  rewrite bind_Ok_l. set (tree := default (mkATree [] "" "" "/") other).
  assert (at_Root tree = "/" /\ forall pos, path_at tree pos = path_at t (origName :: pos)) as [Hroot Htree].
  { unfold tree. split.
    - destruct other as [o|] eqn:Eo; [|done]. apply get_name_In in Eo. rewrite Forall_forall in Hroots. by apply (Hroots (origName, o)).
    - intros pos. rewrite path_at_cons. fold other. destruct other; [done|]. by destruct pos. }
  assert (exists tree', (match rest with
      | [] => Ok (set_Path tree p)
      | _ => try tree <- tree_add tree p (fs_Join ["/"; origName]) rest; Ok (set_FileInfoPath tree (fs_Join ["/"; origName]))
      end) = Ok tree' /\ at_Root tree' = "/" /\ forall pos, path_at tree' pos = if bool_decide (pos = rest) then p else path_at tree pos) as (tree' & Et & Hr' & Hp').
  { destruct rest as [|c rest].
    - eexists. split_and!; [done|done|]. intros [|n pos]; [done|]. by rewrite bool_decide_eq_false_2.
    - pose proof (tree_add_spec (c :: rest) tree p (fs_Join ["/"; origName]) ltac:(done)) as Hadd. rewrite Htree, Hfree in Hadd. cbn [String.eqb] in Hadd.
      destruct Hadd as (t' & -> & Hpath & Hr & Hat). eexists. split_and!; [done|by rewrite <- Hr in Hroot|].
      intros pos. rewrite <- Hat. by destruct pos. }
  rewrite Et, bind_Ok_l. eexists. split; [done|]. split; [split; [done|by apply set_name_Forall]|].
  intros pos. rewrite path_at_set. destruct pos as [|n pos]; [done|].
  destruct (String.eqb_spec origName n) as [<-|Hn]; [|rewrite bool_decide_eq_false_2; [done|congruence]].
  rewrite Hp', Htree. destruct (decide (pos = rest)) as [->|Hpos]; [by rewrite !bool_decide_eq_true_2|]. by rewrite !bool_decide_eq_false_2 by congruence.
Qed.

Lemma elem_of_fmap_snoc {A B} (f : A -> B) l a y : y ∈ f <$> l ++ [a] <-> y ∈ f <$> l \/ y = f a.
Proof. rewrite fmap_app, elem_of_app. change (f <$> [a]) with [f a]. by rewrite list_elem_of_singleton. Qed.

(** A target that can be placed: an absolute path that is not the root. *)
Definition placeable (target : string) : Prop := rooted target = true /\ components target <> [].

Lemma add_targets_places targets :
  Forall placeable targets ->
  exists t seen, ofold add_target (emptyTree, ∅) targets = Ok (t, seen) /\ rooted_tree t /\
    forall pos, path_at t pos = if bool_decide (pos ∈ components <$> targets) then render true pos else "".
Proof using HU.
  intros HT. assert (exists t seen, ofold add_target (emptyTree, ∅) targets = Ok (t, seen) /\ rooted_tree t /\
    (forall pos, path_at t pos = if bool_decide (pos ∈ components <$> targets) then render true pos else "") /\
    forall p, p ∈ seen <-> p ∈ path_Clean <$> targets) as (t & seen & E & Hr & Hp & _); [|by exists t, seen].
  induction targets as [|target targets IH] using rev_ind.
  { exists emptyTree, ∅. split_and!; [done|by split|by intros []|]. intros p. cbn. set_solver. }
  apply Forall_app in HT as [HT Ht]. apply Forall_cons in Ht as [[Htr Htc] _]. destruct (IH HT) as (t & seen & E & Hr & Hp & Hs).
  rewrite ofold_app, E, bind_Ok_l. cbn [ofold add_target]. rewrite unix_Clean.
  assert (path_Clean target = render true (components target)) as Hclean by (rewrite Clean_components; by rewrite Htr).
  destruct (components_render (components target) (rooted_components _ Htr)) as [Hcr Hcc].
  assert (forall p, rooted p = true -> components p = components target -> path_Clean p = path_Clean target) as Hinj.
  { intros p' Hp' Hc'. by rewrite !Clean_components, Hp', Htr, Hc'. }
  assert (forall pos, pos ∈ components <$> targets ++ [target] <-> pos ∈ components <$> targets \/ pos = components target) as Hin.
  { intros pos. apply elem_of_fmap_snoc. }
  destruct (decide (path_Clean target ∈ seen)) as [Hseen|Hseen].
  - rewrite bool_decide_eq_true_2 by done. exists t, seen. split_and!; [done|done| |].
    + intros pos. rewrite Hp. apply Hs in Hseen. apply list_elem_of_fmap in Hseen as (t2 & E2 & Ht2).
      assert (components target ∈ components <$> targets) as Hct.
      { apply list_elem_of_fmap. exists t2. split; [|done]. rewrite Forall_forall in HT. destruct (HT _ Ht2) as [Hr2 _].
        rewrite Hclean, Clean_components, Hr2 in E2. destruct (components_render (components t2) (rooted_components _ Hr2)) as [_ Hc2].
        by rewrite E2, Hc2 in Hcc. }
      destruct (decide (pos ∈ components <$> targets)) as [H1|H1]; [rewrite !bool_decide_eq_true_2; [done|by apply Hin; left|done]|].
      rewrite !bool_decide_eq_false_2; [done| |done]. intros [?| ->]%Hin; done.
    + intros p. rewrite Hs, elem_of_fmap_snoc. split; [by left|]. intros [?| ->]; [done|]. by apply Hs.
  - rewrite bool_decide_eq_false_2 by done. rewrite Hclean.
    destruct (Tree_Add_abs t (render true (components target))) as (t' & Ea & Hr' & Hp'); [done|by rewrite Hcc|done| |].
    { rewrite Hcc, Hp. rewrite bool_decide_eq_false_2; [done|]. intros (t2 & E2 & Ht2)%list_elem_of_fmap. apply Hseen, Hs, list_elem_of_fmap.
      exists t2. split; [|done]. rewrite Forall_forall in HT. destruct (HT _ Ht2) as [Hr2 _]. symmetry. by apply Hinj. }
    rewrite Ea, bind_Ok_l. eexists _, _. split_and!; [done|done| |].
    + intros pos. rewrite Hp', Hcc, Hp. destruct (decide (pos = components target)) as [->|Hne].
      * rewrite (bool_decide_eq_true_2 (components target = _)) by done. rewrite bool_decide_eq_true_2; [done|]. apply Hin. by right.
      * rewrite (bool_decide_eq_false_2 (pos = _)) by done. apply (f_equal (fun b : bool => if b then render true pos else "")).
        apply bool_decide_ext. rewrite Hin. naive_solver.
    + intros p. rewrite <- Hclean, elem_of_union, elem_of_singleton, Hs, elem_of_fmap_snoc. naive_solver.
Qed.

(** * Unrolling *)

Section Unroll.
(** The directories do not change while the targets are resolved. *)
Context (entries : string -> outcome (list string)).
Context (Hdir : forall dir s, (readdirnames (F := F) dir 0 s).2 = entries dir).
Context (Hgood : forall dir es, entries dir = Ok es -> Forall good_comp es).

Lemma unroll_entry_spec path l e l' :
  unroll_entry path l e = Ok l' ->
  let n := default emptyTree (get_name l e) in
  get_name l' e = Some (set_Path n (fs_Join [path; e])) /\ (at_Path n = "" \/ at_Path n = fs_Join [path; e]) /\
  forall b, b <> e -> get_name l' b = get_name l b.
Proof using Type.
  unfold unroll_entry. cbn zeta.
  assert (forall a b, get_name (set_name l e a) b = if String.eqb e b then Some a else get_name l b) as Hset by (intros; apply get_set).
  assert (forall a b, b <> e -> get_name (set_name l e a) b = get_name l b) as Hother by (intros a b Hb; rewrite Hset; by destruct (String.eqb_spec e b)).
  destruct (get_name l e) as [node|] eqn:Eg; cbn [default from_option id].
  - destruct (String.eqb_spec (at_Path node) "") as [Ep|Ep].
    + intros [= <-]. split_and!; [by rewrite Hset, String.eqb_refl|by left|by apply Hother].
    + destruct (String.eqb_spec (at_Path node) (fs_Join [path; e])) as [Ep2|]; [|done]. intros [= <-]. split_and!; [|by right|done].
      rewrite Eg, <- Ep2. by destruct node.
  - intros [= <-]. split_and!; [by rewrite Hset, String.eqb_refl|by left|by apply Hother].
Qed.

Lemma unroll_entries_spec path es l l' :
  ofold (unroll_entry path) l es = Ok l' ->
  forall name, let n := default emptyTree (get_name l name) in
    if bool_decide (name ∈ es) then get_name l' name = Some (set_Path n (fs_Join [path; name])) /\ (at_Path n = "" \/ at_Path n = fs_Join [path; name])
    else get_name l' name = get_name l name.
Proof using Type.
  revert l'. induction es as [|e es IH] using rev_ind; intros l' E name; cbn zeta; [by injection E as <-|].
  rewrite ofold_app in E. apply bind_Ok in E as (l1 & E1 & E). specialize (IH _ E1 name). cbn zeta in IH. cbn [ofold] in E. apply bind_Ok in E as (l2 & E & [= <-]).
  apply unroll_entry_spec in E as (Hg & Hp & Ho). destruct (decide (name = e)) as [->|Hne].
  - rewrite bool_decide_eq_true_2 by (apply elem_of_app; right; by apply list_elem_of_singleton). case_bool_decide.
    + destruct IH as [Hg1 Hp1]. by rewrite Hg1 in Hg.
    + by rewrite IH in Hg, Hp.
  - rewrite Ho by done. assert (name ∈ es ++ [e] <-> name ∈ es) as Hin by (rewrite elem_of_app, list_elem_of_singleton; naive_solver).
    by rewrite (bool_decide_ext _ _ Hin).
Qed.

(** What is below the node [t] of an unrolled tree for a path: the node is a leaf for
    it, or it has a node for each entry of the directory. *)
Inductive covered : ATree -> string -> Prop :=
  | covered_leaf t p : at_Path t = p -> at_Nodes t = [] -> covered t p
  | covered_dir t p es :
      entries p = Ok es -> (forall e, e ∈ es -> exists sub, get_name (at_Nodes t) e = Some sub /\ covered sub (fs_Join [p; e])) -> covered t p.

Definition unrolled (t : ATree) : Prop := forall pos n, node_at t pos = Some n -> at_Path n = "" \/ at_Nodes n = [].

Lemma unroll_all_spec (rec : ATree -> F -> F * outcome ATree) l s s' l' :
  unroll_all rec l s = (s', Ok l') ->
  forall name, match get_name l' name with
    | Some sub' => exists sub s1 s2, get_name l name = Some sub /\ rec sub s1 = (s2, Ok sub')
    | None => get_name l name = None
    end.
Proof using Type.
  revert s s' l'. induction l as [|[n sub] l IH]; intros s s' l' E name; cbn [unroll_all] in E; [by injection E as _ <-|].
  destruct (rec sub s) as [s1 [sub'|e|p]] eqn:Er; [|done..]. destruct (unroll_all rec l s1) as [s2 [l1|e|p]] eqn:El; [|done..]. injection E as <- <-.
  cbn [get_name]. destruct (String.eqb n name); [by exists sub, s, s1|]. by eapply IH.
Qed.

(** One level of [unrollTree]. *)
Lemma unrollTree_inv fuel t (s s' : F) t' :
  unrollTree (S fuel) t s = (s', Ok t') ->
  exists t1 s1, unroll_node t s = (s1, Ok t1) /\ at_Path t' = at_Path t1 /\
    (at_Path t1 = "" \/ at_Nodes t1 = []) /\ (at_Nodes t1 = [] -> at_Nodes t' = []) /\
    forall name, match get_name (at_Nodes t') name with
      | Some sub' => exists sub s1 s2, get_name (at_Nodes t1) name = Some sub /\ unrollTree fuel sub s1 = (s2, Ok sub')
      | None => get_name (at_Nodes t1) name = None
      end.
Proof using Type.
  cbn [unrollTree]. destruct (unroll_node t s) as [s1 [t1|e|p]] eqn:E1; [|done..].
  destruct (unroll_all (unrollTree fuel) (at_Nodes t1) s1) as [s2 [l|e|p]] eqn:E2; [|done..]. intros [= <- <-]. exists t1, s1. split_and!; [done|done| | |].
  - unfold unroll_node in E1. destruct (at_Nodes t) as [|x nodes] eqn:En; [injection E1 as _ <-; by right|].
    destruct (String.eqb_spec (at_Path t) "") as [Ep|Ep]; [injection E1 as _ <-; by left|]. destruct (readdirnames _ _ _) as [s3 r]. injection E1 as _ E1.
    apply bind_Ok in E1 as (es & _ & E1). apply bind_Ok in E1 as (nodes' & _ & [= <-]). by left.
  - intros En. rewrite En in E2. by injection E2 as _ <-.
  - by eapply unroll_all_spec.
Qed.

(** What [unroll_node] does to a subtree. *)
Lemma unroll_node_spec t (s s1 : F) t1 :
  unroll_node t s = (s1, Ok t1) ->
  (t1 = t /\ (at_Nodes t = [] \/ at_Path t = "")) \/
  exists es, at_Path t <> "" /\ at_Nodes t <> [] /\ at_Path t1 = "" /\ entries (at_Path t) = Ok es /\
    forall name, let n := default emptyTree (get_name (at_Nodes t) name) in
      if bool_decide (name ∈ es)
      then get_name (at_Nodes t1) name = Some (set_Path n (fs_Join [at_Path t; name])) /\ (at_Path n = "" \/ at_Path n = fs_Join [at_Path t; name])
      else get_name (at_Nodes t1) name = get_name (at_Nodes t) name.
Proof using Hdir.
  unfold unroll_node. destruct (at_Nodes t) as [|x nodes] eqn:En; [intros [= _ <-]; left; split; [done|by left]|].
  destruct (String.eqb_spec (at_Path t) "") as [Ep|Ep]; [intros [= _ <-]; left; split; [done|by right]|].
  pose proof (Hdir (at_Path t) s) as Hd. destruct (readdirnames _ _ _) as [s3 r]. cbn [snd] in Hd. subst r. intros [= _ E].
  apply bind_Ok in E as (es & He & E). apply bind_Ok in E as (nodes' & Hf & [= <-]). right. exists es. split_and!; [done|done|done|done|].
  intros name. exact (unroll_entries_spec _ _ _ _ Hf name).
Qed.

Lemma Join_nonempty p name : p <> "" -> name <> "" -> fs_Join [p; name] <> "".
Proof using HU.
  intros Hp Hn. rewrite unix_Join, path_Join_render; [|by do 2 (constructor; [done|])|done].
  by destruct (render_clean (elems_root [p; name]) (elems_stack [p; name]) (elems_stack_clean [p; name])) as [Hx _].
Qed.

(** Everything that is to be saved is still to be saved. *)
Lemma unroll_covers fuel t (s s' : F) t' :
  unrollTree fuel t s = (s', Ok t') ->
  forall pos, path_at t pos <> "" -> exists n, node_at t' pos = Some n /\ covered n (path_at t pos).
Proof using HU Hdir Hgood.
  revert t s s' t'. induction fuel as [|fuel IH]; intros t s s' t' E; [done|].
  apply unrollTree_inv in E as (t1 & s1 & E1 & Hpath & Hshape & Hempty & Hsub). apply unroll_node_spec in E1. intros pos Hpos.
  assert (forall name sub, get_name (at_Nodes t1) name = Some sub -> exists sub' s2 s3, get_name (at_Nodes t') name = Some sub' /\ unrollTree fuel sub s2 = (s3, Ok sub')) as Hget.
  { intros name sub Hg. specialize (Hsub name). destruct (get_name (at_Nodes t') name) as [sub'|]; [|congruence].
    destruct Hsub as (sub2 & s2 & s3 & Hg2 & Hu). rewrite Hg in Hg2. injection Hg2 as <-. by exists sub', s2, s3. }
  destruct pos as [|name pos]; cbn [node_at].
  - exists t'. split; [done|]. change (path_at t []) with (at_Path t) in *. destruct E1 as [[-> [Hn|Hp]]|(es & Hp & Hn & Hp1 & He & Hspec)]; [|done|].
    + apply covered_leaf; [done|by apply Hempty].
    + apply (covered_dir _ _ es He). intros e Hin. specialize (Hspec e). cbn zeta in Hspec. rewrite bool_decide_eq_true_2 in Hspec by done. destruct Hspec as [Hg _].
      apply Hget in Hg as (sub' & s2 & s3 & Hg' & Hu). exists sub'. split; [done|].
      destruct (IH _ _ _ _ Hu []) as (n & [= <-] & Hc); [|exact Hc].
      apply (Join_nonempty _ e Hp). pose proof (Hgood _ _ He) as Hes. rewrite Forall_forall in Hes. by destruct (Hes _ Hin).
  - assert (exists sub1, get_name (at_Nodes t1) name = Some sub1 /\ path_at sub1 pos = path_at t (name :: pos)) as (sub1 & Hg1 & Hp1).
    { rewrite path_at_cons in Hpos |- *. destruct (get_name (at_Nodes t) name) as [sub|] eqn:Hg; [|done]. cbn [from_option] in *.
      destruct E1 as [[-> _]|(es & Hp & Hn & Hp1 & He & Hspec)]; [by exists sub|]. specialize (Hspec name). rewrite Hg in Hspec. cbn [default from_option id] in Hspec.
      case_bool_decide; [|by exists sub; rewrite Hspec]. destruct Hspec as [Hg1 Hp2]. eexists. split; [done|]. destruct pos as [|? ?]; [|done].
      change (path_at sub []) with (at_Path sub) in *. destruct Hp2 as [?|Hp2]; [done|]. by rewrite Hp2. }
    apply Hget in Hg1 as (sub' & s2 & s3 & Hg' & Hu). rewrite Hg'. rewrite <- Hp1 in Hpos |- *. by apply (IH _ _ _ _ Hu).
Qed.

(** Only leaves have a path, and each is one of the targets or below one. *)
Lemma unroll_leaves fuel t (s s' : F) t' :
  unrollTree fuel t s = (s', Ok t') ->
  forall pos n, node_at t' pos = Some n ->
    (at_Path n = "" \/ at_Nodes n = []) /\
    (at_Path n <> "" -> exists pos0 rest, pos = pos0 ++ rest /\ path_at t pos0 <> "" /\ Forall good_comp rest /\
      at_Path n = fold_left (fun p e => fs_Join [p; e]) rest (path_at t pos0)).
Proof using Hdir Hgood.
  revert t s s' t'. induction fuel as [|fuel IH]; intros t s s' t' E; [done|].
  apply unrollTree_inv in E as (t1 & s1 & E1 & Hpath & Hshape & Hempty & Hsub). apply unroll_node_spec in E1. intros pos n Hn.
  destruct pos as [|name pos]; cbn [node_at] in Hn.
  - injection Hn as <-. rewrite Hpath. split; [destruct Hshape; [by left|right; by apply Hempty]|]. intros Hp. exists [], [].
    destruct E1 as [[-> _]|(es & _ & _ & Hp1 & _)]; [|congruence]. split_and!; [done|done|constructor|done].
  - specialize (Hsub name). destruct (get_name (at_Nodes t') name) as [sub'|]; [|done]. cbn in Hn. destruct Hsub as (sub1 & s2 & s3 & Hg1 & Hu).
    destruct (IH _ _ _ _ Hu pos n Hn) as [Hleaf Hbelow]. split; [done|]. intros Hp. destruct (Hbelow Hp) as (pos0 & rest & -> & Hp0 & Hrest & Hfold).
    destruct E1 as [[-> _]|(es & Htp & Htn & Hp1 & He & Hspec)].
    { exists (name :: pos0), rest. rewrite path_at_cons, Hg1. by split_and!. }
    specialize (Hspec name). cbn zeta in Hspec. case_bool_decide as Hin.
    + destruct Hspec as [Hg Hd]. rewrite Hg in Hg1. injection Hg1 as <-. destruct pos0 as [|c pos0].
      * exists [], (name :: rest). change (path_at (set_Path _ _) []) with (fs_Join [at_Path t; name]) in Hfold. split_and!; [done|done| |done].
        constructor; [|done]. eapply Forall_forall; [by eapply Hgood|done].
      * exists (name :: c :: pos0), rest. rewrite <- path_at_default by done. by split_and!.
    + exists (name :: pos0), rest. rewrite path_at_cons, <- Hspec, Hg1. by split_and!.
Qed.
End Unroll.

(** ** The depth is enough fuel *)

Definition nodes_depth (l : list (string * ATree)) : nat := foldr (fun n d => Nat.max (depth n.2) d) 0%nat l.

Lemma nodes_depth_cons x l : nodes_depth (x :: l) = Nat.max (depth x.2) (nodes_depth l).
Proof using Type. done. Qed.

Lemma nodes_depth_In l n : n ∈ l -> (depth n.2 <= nodes_depth l)%nat.
Proof using Type. induction l as [|x l IH]; [by intros ?%elem_of_nil|]. rewrite nodes_depth_cons. intros [->|Hin]%elem_of_cons; [lia|]. specialize (IH Hin). lia. Qed.

Lemma depth_set_Path t p : depth (set_Path t p) = depth t.
Proof using Type. by destruct t. Qed.

Lemma set_name_depth l name a d : (depth a <= d)%nat -> (nodes_depth l <= d)%nat -> (nodes_depth (set_name l name a) <= d)%nat.
Proof using Type.
  intros Ha Hl. induction l as [|[n b] l IH]; cbn [set_name]; [rewrite nodes_depth_cons; cbn [nodes_depth foldr snd]; lia|].
  rewrite nodes_depth_cons in Hl. cbn [snd] in Hl. specialize (IH ltac:(lia)). destruct (String.eqb n name); rewrite nodes_depth_cons; cbn [snd]; lia.
Qed.

Lemma unroll_entry_depth path l e l' d :
  (1 <= d)%nat -> unroll_entry path l e = Ok l' -> (nodes_depth l <= d)%nat -> (nodes_depth l' <= d)%nat.
Proof using Type.
  intros Hd E Hl. unfold unroll_entry in E. destruct (get_name l e) as [node|] eqn:Eg.
  - assert (depth node <= d)%nat as Hn by (apply get_name_In in Eg; apply nodes_depth_In in Eg; cbn in Eg; lia).
    destruct (String.eqb (at_Path node) ""); [injection E as <-; apply set_name_depth; by rewrite ?depth_set_Path|]. destruct (String.eqb _ _); [by injection E as <-|done].
  - injection E as <-. by apply set_name_depth.
Qed.

Lemma unroll_node_depth t (s s1 : F) t1 : unroll_node t s = (s1, Ok t1) -> (depth t1 <= depth t)%nat.
Proof using Type.
  unfold unroll_node. destruct t as [nodes p i r]. cbn [at_Nodes at_Path at_FileInfoPath at_Root]. destruct nodes as [|x nodes]; [by intros [= _ <-]|].
  destruct (String.eqb p ""); [by intros [= _ <-]|]. destruct (readdirnames _ _ _) as [s3 r']. intros [= _ E].
  apply bind_Ok in E as (es & _ & E). apply bind_Ok in E as (nodes' & Hf & [= <-]). cbn [depth at_Nodes]. apply le_n_S.
  assert (1 <= nodes_depth (x :: nodes))%nat as H1 by (destruct x as [n [? ? ? ?]]; cbn; lia).
  apply (ofold_inv (fun l => (nodes_depth l <= nodes_depth (x :: nodes))%nat) _ _ _ _) in Hf; [done|done|].
  intros l e l' Hl _ E. by eapply unroll_entry_depth.
Qed.

(** Nothing panics when the file system does not. *)
Lemma unrollTree_total fuel t (s : F) :
  (forall dir s, ~ panics (readdirnames (F := F) dir 0 s).2) -> (depth t <= fuel)%nat -> ~ panics (unrollTree fuel t s).2.
Proof using Type.
  intros Hread. revert t s. induction fuel as [|fuel IH]; intros t s Hd; [destruct t; cbn in Hd; lia|]. cbn [unrollTree].
  destruct (unroll_node t s) as [s1 [t1|e|p]] eqn:E1; [|apply Err_no_panic|].
  - pose proof (unroll_node_depth _ _ _ _ E1) as Hd1.
    assert (forall l s, (nodes_depth l <= fuel)%nat -> ~ panics (unroll_all (unrollTree fuel) l s).2) as Hall.
    { induction l as [|[n sub] l IHl]; intros s2 Hl; [apply Ok_no_panic|]. cbn [unroll_all]. rewrite nodes_depth_cons in Hl. cbn [snd] in Hl. specialize (IH sub s2 ltac:(lia)).
      destruct (unrollTree fuel sub s2) as [s3 [sub'|e|p]]; [|apply Err_no_panic|exfalso; apply IH; by exists p]. specialize (IHl s3 ltac:(lia)).
      destruct (unroll_all _ l s3) as [s4 [l'|e|p]]; [apply Ok_no_panic|apply Err_no_panic|exfalso; apply IHl; by exists p]. }
    assert (nodes_depth (at_Nodes t1) <= fuel)%nat as Hn by (destruct t1; cbn in Hd1 |- *; unfold nodes_depth; lia).
    specialize (Hall _ s1 Hn). destruct (unroll_all _ _ s1) as [s2 [l|e|p]]; [apply Ok_no_panic|apply Err_no_panic|exfalso; apply Hall; by exists p].
  - unfold unroll_node in E1. destruct (at_Nodes t); [done|]. destruct (String.eqb _ _); [done|]. specialize (Hread (at_Path t) s).
    destruct (readdirnames _ _ _) as [s3 r]. injection E1 as <- E1. cbn [snd] in Hread |- *. rewrite <- E1. apply bind_no_panic; [done|]. intros es _.
    apply bind_no_panic; [|intros; apply Ok_no_panic]. clear. generalize (p0 :: l). induction es as [|e es IH]; intros nodes; [apply Ok_no_panic|].
    cbn [ofold]. apply bind_no_panic; [|intros; apply IH]. unfold unroll_entry. destruct (get_name nodes e) as [node|]; [|apply Ok_no_panic].
    destruct (String.eqb _ _); [apply Ok_no_panic|]. destruct (String.eqb _ _); [apply Ok_no_panic|apply Err_no_panic].
Qed.
End Facts.

Lemma Join_rest {F} `{UnixPaths F} rest pos :
  Forall good_comp pos -> Forall good_comp rest -> fold_left (fun p e => fs_Join [p; e]) rest (render true pos) = render true (pos ++ rest).
Proof.
  revert pos. induction rest as [|c rest IH]; intros pos Hp Hr; cbn [fold_left]; [by rewrite app_nil_r|]. apply Forall_cons in Hr as [Hc Hr].
  pose proof (Join_components true (rev pos) c (good_stack true pos Hp) Hc) as Hj. rewrite rev_involutive in Hj. rewrite unix_Join, Hj.
  rewrite IH by (done || by apply Forall_app; split; [|constructor]). by rewrite <- app_assoc.
Qed.

(** C14. The tree for absolute targets: each target is at the position of its components, as
    a leaf or, when other targets are below it, as nodes for all entries of the
    directory; every leaf is one of the targets or an entry below one, has the path
    of its position, and has no subtrees.  Nothing panics. *)
Theorem NewTree_covers {F : Type} `{UnixPaths F} (entries : string -> outcome (list string)) (targets : list string) (s : F)
    (Hdir : forall dir s, (readdirnames (F := F) dir 0 s).2 = entries dir) (Hgood : forall dir es, entries dir = Ok es -> Forall good_comp es)
    (Hsafe : forall dir, ~ panics (entries dir)) (Htargets : Forall placeable targets) :
  match (NewTree targets s).2 with
  | Ok tree =>
      (forall target, target ∈ targets -> exists n, node_at tree (components target) = Some n /\ covered entries n (path_Clean target)) /\
      (forall pos n, node_at tree pos = Some n -> at_Path n <> "" ->
        at_Nodes n = [] /\ at_Path n = render true pos /\ exists target, target ∈ targets /\ components target `prefix_of` pos)
  | Err _ => True
  | Panic _ => False
  end.
Proof.
  unfold NewTree. destruct (add_targets_places targets Htargets) as (t & seen & -> & _ & Hplace).
  assert (forall pos, path_at t pos <> "" -> exists target, target ∈ targets /\ components target = pos /\ path_at t pos = render true pos) as Hat.
  { intros pos. rewrite Hplace. case_bool_decide as Hin; [|done]. intros _. apply list_elem_of_fmap in Hin as (target & -> & Hin). by exists target. }
  pose proof (unrollTree_total (S (depth t)) t s ltac:(intros; by rewrite Hdir) ltac:(lia)) as Htotal.
  destruct (unrollTree (S (depth t)) t s) as [s' [tree|e|p]] eqn:E; [|done|by apply Htotal; exists p]. split.
  - intros target Hin. rewrite Forall_forall in Htargets. destruct (Htargets _ Hin) as [Hr Hc].
    assert (path_at t (components target) = path_Clean target) as Hp.
    { rewrite Hplace, bool_decide_eq_true_2, Clean_components, Hr; [done|]. apply list_elem_of_fmap. by exists target. }
    rewrite <- Hp. apply (unroll_covers entries Hdir Hgood _ _ _ _ _ E). rewrite Hp, Clean_components, Hr. unfold render. done.
  - intros pos n Hn Hpn. destruct (unroll_leaves entries Hdir Hgood _ _ _ _ _ E _ _ Hn) as [Hleaf Hbelow].
    split; [by destruct Hleaf|]. destruct (Hbelow Hpn) as (pos0 & rest & -> & Hp0 & Hrest & Hfold).
    destruct (Hat _ Hp0) as (target & Hin & <- & Hpath). rewrite Forall_forall in Htargets. destruct (Htargets _ Hin) as [Hr _].
    rewrite Hfold, Hpath, Join_rest by (done || by apply rooted_components). split; [done|]. exists target. split; [done|by eexists].
Qed.

(** Two targets, one below the other. *)
Definition ex_entries (dir : string) : outcome (list string) :=
  if String.eqb dir "/a" then Ok ["x"; "y"] else if String.eqb dir "/a/x" then Ok ["z"] else Err (ErrMsg "not a directory").
Definition ex_dir (dir : string) : outcome File :=
  try es <- ex_entries dir; Ok (mkFile dir (Err (ErrMsg "stat")) (Ok es) ([], None) None).
Definition ex_fs : FS unit := Local (fun name _ s => (s, ex_dir name)) (fun _ s => (s, Err (ErrMsg "stat"))) (fun _ s => (s, Err (ErrMsg "lstat"))) (Ok "/").

Lemma NewTree_covers_witness :
  let tree := mkATree [("a", mkATree [("x", mkATree [("z", mkATree [] "/a/x/z" "" "")] "" "/a/x" ""); ("y", mkATree [] "/a/y" "" "")] "" "/a" "/")] "" "" "" in
  (NewTree (H := ex_fs) ["/a/x/z"; "/a/"; "/a"] tt).2 = Ok tree /\ exists n, node_at tree ["a"] = Some n /\ covered (F := unit) (H := ex_fs) ex_entries n "/a".
Proof.
  pose proof (NewTree_covers (F := unit) (H := ex_fs) (H0 := Local_unix _ _ _ _) ex_entries ["/a/x/z"; "/a/"; "/a"] tt) as Hc.
  assert ((NewTree (H := ex_fs) ["/a/x/z"; "/a/"; "/a"] tt).2 = Ok (mkATree [("a", mkATree [("x", mkATree [("z", mkATree [] "/a/x/z" "" "")] "" "/a/x" ""); ("y", mkATree [] "/a/y" "" "")] "" "/a" "/")] "" "" "")) as E
    by (vm_compute; reflexivity).
  cbv zeta. split; [exact E|]. rewrite E in Hc. apply Hc with (target := "/a").
  - intros dir []. unfold readdirnames. cbn. unfold ex_dir. by destruct (ex_entries dir).
  - intros dir es. unfold ex_entries. repeat destruct (String.eqb dir _); intros [= <-]; repeat constructor; discriminate.
  - intros dir. unfold ex_entries. repeat destruct (String.eqb dir _); intros [p ?]; discriminate.
  - repeat constructor; discriminate.
  - set_solver.
Defined.

(** * Name conflicts *)

Fixpoint leaf_paths (t : ATree) : list string :=
  (if Leaf t then [at_Path t] else []) ++ flat_map (fun n => leaf_paths n.2) (at_Nodes t).

(** The name chosen for a target that conflicts with one of another directory may be
    that of a different target of the same directory, which is then dropped: of the
    targets foo, ../foo-1 and ../foo the second one is not saved. *)
Theorem NewTree_drops_target {W : Type} (os_OpenFile : string -> Z -> W -> W * outcome File) (os_Stat os_Lstat : string -> W -> W * outcome OsFileInfo)
    (Getwd : outcome string) (s : W) :
  exists tree, NewTree (H := Local os_OpenFile os_Stat os_Lstat Getwd) ["foo"; "../foo-1"; "../foo"] s = (s, Ok tree) /\ leaf_paths tree = ["foo"; "../foo"].
Proof.
  unfold NewTree. match goal with |- context [ofold ?f ?i ?l] => set (r := ofold f i l) end.
  assert (r = Ok (mkATree [("foo", mkATree [] "foo" "" "."); ("foo-1", mkATree [] "../foo" "" "..")] "" "" "", {["../foo"; "../foo-1"; "foo"]})) as ->.
  { subst r. vm_compute. reflexivity. }
  eexists. split; reflexivity.
Qed.
