(* ===== verification/NodeStat.v ===== *)
(** The node of a file from its metadata (src/restic/node.go, node_unix.go,
    node_linux.go, node_xattr.go).

    The system calls are parameters that change a state; the names of users and
    groups are cached. *)

From S2P Require Import Prelude Bytes GoString GoTime Restic Snapshot Tree FsPath Os NodeRestore FS.

#[local] Open Scope Z_scope.

(** The system calls, those of [os/user] and of the library for extended attributes. *)
Class NodeCalls (E : Type) := {
  nc_Getuid : Z;
  nc_Getgid : Z;
  nc_Readlink : string -> E -> E * outcome string;
  nc_LList : string -> E -> E * (list string * option error);
  nc_LGet : string -> string -> E -> E * (list byte * option error);
  nc_LookupId : string -> E -> E * outcome string;
  nc_LookupGroupId : string -> E -> E * outcome string }.

(** The two caches are global variables. *)
Record node_env (E : Type) := mkNodeEnv { ne_env : E; ne_uids : gmap Z string; ne_gids : gmap Z string }.
Arguments mkNodeEnv {E}. Arguments ne_env {E}. Arguments ne_uids {E}. Arguments ne_gids {E}.

Definition set_UserGroup (n : Node) (uid gid : Z) (user group : string) : Node :=
  mkNode (n_Name n) (n_Type n) (n_Mode n) (n_ModTime n) (n_AccessTime n) (n_ChangeTime n) uid gid user group
    (n_Inode n) (n_DeviceID n) (n_Size n) (n_Links n) (n_LinkTarget n) (n_ExtendedAttributes n) (n_Device n) (n_Content n) (n_Subtree n)
    (n_Error n) (n_Path n).
Definition set_inode (n : Node) (inode device : Z) : Node :=
  mkNode (n_Name n) (n_Type n) (n_Mode n) (n_ModTime n) (n_AccessTime n) (n_ChangeTime n) (n_UID n) (n_GID n) (n_User n) (n_Group n)
    inode device (n_Size n) (n_Links n) (n_LinkTarget n) (n_ExtendedAttributes n) (n_Device n) (n_Content n) (n_Subtree n) (n_Error n) (n_Path n).
Definition set_kind (n : Node) (size links : Z) (target : string) (device : Z) : Node :=
  mkNode (n_Name n) (n_Type n) (n_Mode n) (n_ModTime n) (n_AccessTime n) (n_ChangeTime n) (n_UID n) (n_GID n) (n_User n) (n_Group n)
    (n_Inode n) (n_DeviceID n) size links target (n_ExtendedAttributes n) device (n_Content n) (n_Subtree n) (n_Error n) (n_Path n).
Definition set_xattrs (n : Node) (l : list ExtendedAttribute) : Node :=
  mkNode (n_Name n) (n_Type n) (n_Mode n) (n_ModTime n) (n_AccessTime n) (n_ChangeTime n) (n_UID n) (n_GID n) (n_User n) (n_Group n)
    (n_Inode n) (n_DeviceID n) (n_Size n) (n_Links n) (n_LinkTarget n) l (n_Device n) (n_Content n) (n_Subtree n) (n_Error n) (n_Path n).

Section Stat.
Context {E : Type} `{NodeCalls E}.

Definition on_env {A} (s : node_env E) (f : E -> E * A) : node_env E * A :=
  let '(e, a) := f (ne_env s) in (mkNodeEnv e (ne_uids s) (ne_gids s), a).

(** The empty name when none is found. *)
Definition name_or_empty (r : outcome string) : string := match r with Ok name => name | _ => "" end.

Definition lookupUsername (uid : Z) (s : node_env E) : node_env E * string :=
  match ne_uids s !! uid with
  | Some username => (s, username)
  | None =>
      let '(s, u) := on_env s (nc_LookupId (pretty uid)) in
      let username := name_or_empty u in
      (mkNodeEnv (ne_env s) (<[uid := username]> (ne_uids s)) (ne_gids s), username)
  end.

Definition lookupGroup (gid : Z) (s : node_env E) : node_env E * string :=
  match ne_gids s !! gid with
  | Some group => (s, group)
  | None =>
      let '(s, g) := on_env s (nc_LookupGroupId (pretty gid)) in
      let group := name_or_empty g in
      (mkNodeEnv (ne_env s) (ne_uids s) (<[gid := group]> (ne_gids s)), group)
  end.

Definition fillUser (node : Node) (stat : stat_t) (s : node_env E) : node_env E * Node :=
  let '(s, user) := lookupUsername (st_Uid stat) s in
  let '(s, group) := lookupGroup (st_Gid stat) s in
  (s, set_UserGroup node (st_Uid stat) (st_Gid stat) user group).

Definition fillTimes (node : Node) (stat : stat_t) : Node := set_times node (n_ModTime node) (st_Atim stat) (st_Ctim stat).

Definition Listxattr (path : string) (s : node_env E) : node_env E * (list string * option error) :=
  let '(s, (l, err)) := on_env s (nc_LList path) in (s, (l, handleXattrErr err)).
Definition Getxattr (path name : string) (s : node_env E) : node_env E * (list byte * option error) :=
  let '(s, (b, err)) := on_env s (nc_LGet path name) in (s, (b, handleXattrErr err)).

(** Attributes that cannot be read are left out. *)
Fixpoint get_xattrs (path : string) (names : list string) (s : node_env E) : node_env E * list ExtendedAttribute :=
  match names with
  | [] => (s, [])
  | attr :: names =>
      let '(s, (attrVal, err)) := Getxattr path attr s in
      let '(s, l) := get_xattrs path names s in
      (s, match err with Some _ => l | None => mkXattr attr attrVal :: l end)
  end.

Definition fillExtendedAttributes (node : Node) (path : string) (s : node_env E) : node_env E * (Node * option error) :=
  match Listxattr path s with
  | (s, (_, Some e)) => (s, (node, Some e))
  | (s, (xattrs, None)) => let '(s, l) := get_xattrs path xattrs s in (s, (set_xattrs node l, None))
  end.

Definition fillExtra (node : Node) (path : string) (fi : OsFileInfo) (s : node_env E) : node_env E * (Node * option error) :=
  match ofi_Sys fi with
  | None => (s, (set_times (set_UserGroup node (u32 nc_Getuid) (u32 nc_Getgid) (n_User node) (n_Group node)) (n_ModTime node) (n_AccessTime node) (n_ModTime node), None))
  | Some stat =>
      let node := fillTimes (set_inode node (st_Ino stat) (st_Dev stat)) stat in
      let '(s, node) := fillUser node stat s in
      let t := n_Type node in
      if String.eqb t "file" then fillExtendedAttributes (set_kind node (u64 (st_Size stat)) (st_Nlink stat) (n_LinkTarget node) (n_Device node)) path s
      else if String.eqb t "dir" then fillExtendedAttributes node path s
      else if String.eqb t "symlink" then
        let '(s, target) := on_env s (nc_Readlink path) in
        let node := set_kind node (n_Size node) (st_Nlink stat) (name_or_empty target) (n_Device node) in
        match target with
        | Err e => (s, (node, Some e))
        | _ => fillExtendedAttributes node path s
        end
      else if String.eqb t "dev" || String.eqb t "chardev" then
        fillExtendedAttributes (set_kind node (n_Size node) (st_Nlink stat) (n_LinkTarget node) (st_Rdev stat)) path s
      else if String.eqb t "fifo" || String.eqb t "socket" then fillExtendedAttributes node path s
      else (s, (node, Some (ErrMsg "invalid node type %q")))
  end.

Definition ModeSetuid : Z := 2 ^ 23.
Definition ModeSetgid : Z := 2 ^ 22.
Definition ModeSticky : Z := 2 ^ 20.
Definition mode_mask : Z := Z.lor ModePerm (Z.lor ModeType (Z.lor ModeSetuid (Z.lor ModeSetgid ModeSticky))).

(** The node and the first error. *)
Definition NodeFromFileInfo (path : string) (fi : OsFileInfo) (s : node_env E) : node_env E * (Node * option error) :=
  let type := nodeTypeFromFileInfo (ofi_Mode fi) in
  let size := if String.eqb type "file" then u64 (ofi_Size fi) else 0 in
  fillExtra (mkNode (ofi_Name fi) type (Z.land (ofi_Mode fi) mode_mask) (ofi_ModTime fi) time_zero time_zero 0 0 "" "" 0 0 size 0 "" [] 0 None None "" path) path fi s.
End Stat.

(** * The nodes of files *)

Definition node_types : list string := ["file"; "dir"; "symlink"; "dev"; "chardev"; "fifo"; "socket"].

(** The data that a node of each type has. *)
Record typed_node (n : Node) : Prop := mkTyped {
  typed_type : n_Type n ∈ node_types;
  typed_size : n_Type n <> "file" -> n_Size n = 0;
  typed_content : n_Type n <> "file" -> n_Content n = None;
  typed_subtree : n_Type n <> "dir" -> n_Subtree n = None;
  typed_target : n_Type n <> "symlink" -> n_LinkTarget n = "";
  typed_device : n_Type n <> "dev" -> n_Type n <> "chardev" -> n_Device n = 0 }.

Lemma fillExtendedAttributes_ok {E : Type} `{NodeCalls E} node path (s s' : node_env E) n :
  fillExtendedAttributes node path s = (s', (n, None)) -> exists l, n = set_xattrs node l.
Proof.
  unfold fillExtendedAttributes. destruct (Listxattr path s) as [s1 [xattrs [e|]]]; [done|].
  destruct (get_xattrs path xattrs s1) as [s2 l]. intros [= _ <-]. by exists l.
Qed.

(** C39. The node of a file of the system is well typed when there is no error: its type is
    the one of the mode, only files have a size, only links a target, only devices a
    device number, and none has a content or a subtree yet. *)
Theorem NodeFromFileInfo_typed {E : Type} `{NodeCalls E} (path : string) (fi : OsFileInfo) (s s' : node_env E) (node : Node)
    (Hsys : ofi_Sys fi <> None) (Hok : NodeFromFileInfo path fi s = (s', (node, None))) :
  typed_node node /\ n_Type node = nodeTypeFromFileInfo (ofi_Mode fi) /\ n_Content node = None /\ n_Subtree node = None /\
  (n_Type node = "file" -> exists stat, ofi_Sys fi = Some stat /\ n_Size node = u64 (st_Size stat)).
Proof.
  unfold NodeFromFileInfo, fillExtra in Hok. cbn zeta in Hok. destruct (ofi_Sys fi) as [stat|]; [|done]. unfold fillUser in Hok.
  destruct (lookupUsername _ s) as [s1 user]. destruct (lookupGroup _ s1) as [s2 group]. cbn [n_Type set_UserGroup fillTimes set_times set_inode] in Hok.
  set (t := nodeTypeFromFileInfo (ofi_Mode fi)) in *.
  destruct (String.eqb_spec t "file") as [Et|Hfile]; [|destruct (String.eqb_spec t "dir") as [Et|Hdir]; [|destruct (String.eqb_spec t "symlink") as [Et|Hlink]]].
  - apply fillExtendedAttributes_ok in Hok as [l ->]. cbn. split_and!; [|done..|by exists stat]. constructor; cbn; rewrite ?Et; try done. set_solver.
  - apply fillExtendedAttributes_ok in Hok as [l ->]. cbn. split_and!; [|done..]. constructor; cbn; rewrite ?Et; try done. set_solver.
  - destruct (on_env s2 _) as [s3 target]. destruct target as [target|e|p]; [|done|];
      apply fillExtendedAttributes_ok in Hok as [l ->]; cbn; (split_and!; [|done..]); constructor; cbn; rewrite ?Et; try done; set_solver.
  - destruct (String.eqb t "dev" || String.eqb t "chardev") eqn:Edev.
    + apply fillExtendedAttributes_ok in Hok as [l ->]. cbn. apply orb_true_iff in Edev as [Et%String.eqb_eq|Et%String.eqb_eq];
        (split_and!; [|done..]); constructor; cbn; rewrite ?Et; try done; set_solver.
    + destruct (String.eqb t "fifo" || String.eqb t "socket") eqn:Eother; [|done].
      apply fillExtendedAttributes_ok in Hok as [l ->]. cbn. apply orb_true_iff in Eother as [Et%String.eqb_eq|Et%String.eqb_eq];
        (split_and!; [|done..]); constructor; cbn; rewrite ?Et; try done; set_solver.
Qed.

(** A symbolic link, with an attribute that cannot be read. *)
Definition ex_calls : NodeCalls unit := {|
  nc_Getuid := 0; nc_Getgid := 0;
  nc_Readlink := fun _ s => (s, Ok "target");
  nc_LList := fun _ s => (s, (["user.a"; "user.b"], None));
  nc_LGet := fun _ name s => (s, if String.eqb name "user.a" then ([], Some (ErrMsg "EIO")) else (["x"%byte], None));
  nc_LookupId := fun _ s => (s, Ok "root");
  nc_LookupGroupId := fun _ s => (s, Err (ErrMsg "unknown group")) |}.
Definition ex_stat : stat_t := mkStat 1 2 3 4 5 6 7 time_zero time_zero time_zero.

Lemma NodeFromFileInfo_typed_witness :
  let '(s, (node, err)) := NodeFromFileInfo (H := ex_calls) "/l" (mkOsFileInfo "l" 6 (ModeSymlink + 511) time_zero (Some ex_stat)) (mkNodeEnv tt ∅ ∅) in
  err = None /\ typed_node node /\ n_LinkTarget node = "target" /\ n_User node = "root" /\ n_ExtendedAttributes node = [mkXattr "user.b" ["x"%byte]].
Proof.
  destruct (NodeFromFileInfo (H := ex_calls) _ _ _) as [s [node err]] eqn:E. assert (err = None) as -> by (vm_compute in E; congruence).
  assert (typed_node node) as Ht by (eapply (NodeFromFileInfo_typed (H := ex_calls)); [|exact E]; discriminate). split; [done|]. split; [exact Ht|].
  vm_compute in E. injection E as _ <-. split_and!; reflexivity.
Defined.
