(* ===== verification/FileSaver.v ===== *)
(** Saving files (src/internal/archiver/blob_saver.go, file_saver.go).

    A worker reads a file chunk by chunk and hands each chunk to the workers that
    save blobs; these call back in any order, and the last call finishes the file.
    [file_step] interleaves the reading with the savings.  The chunker is a library:
    what its [Next] returns for what is read from a file, up to the end of the file
    or an error.  When the context is cancelled the whole backup fails, whatever
    the workers still do. *)

From S2P Require Import Prelude Bytes GoString GoTime Restic Snapshot Tree FsPath Os NodeRestore FS NodeStat.

#[local] Open Scope Z_scope.

(** * Saving blobs *)

Record ItemStats := mkItemStats {
  st_DataBlobs : Z; st_DataSize : Z; st_DataSizeInRepo : Z; st_TreeBlobs : Z; st_TreeSize : Z; st_TreeSizeInRepo : Z }.
Definition no_stats : ItemStats := mkItemStats 0 0 0 0 0 0.
Definition ItemStats_Add (s other : ItemStats) : ItemStats :=
  mkItemStats (i64 (st_DataBlobs s + st_DataBlobs other)) (u64 (st_DataSize s + st_DataSize other)) (u64 (st_DataSizeInRepo s + st_DataSizeInRepo other))
    (i64 (st_TreeBlobs s + st_TreeBlobs other)) (u64 (st_TreeSize s + st_TreeSize other)) (u64 (st_TreeSizeInRepo s + st_TreeSizeInRepo other)).

(** The interface of the repository: the ID, whether the blob was known, and the size
    it takes. *)
Class Saver (R : Type) := {
  Saver_SaveBlob : BlobType -> list byte -> R -> R * outcome (ID * bool * Z) }.

Record SaveBlobResponse := mkResponse { sbr_id : ID; sbr_length : Z; sbr_sizeInRepo : Z; sbr_known : bool }.

Definition saveBlob {R} `{Saver R} (t : BlobType) (buf : list byte) (r : R) : R * outcome SaveBlobResponse :=
  let '(r, res) := Saver_SaveBlob t buf r in
  (r, match res with
      | Ok (id, known, sizeInRepo) => Ok (mkResponse id (zlen buf) sizeInRepo known)
      | Err e => Err e
      | Panic p => Panic p
      end).

(** What is relied on: a blob that was saved has the hash of its content as its ID,
    and no call loses a blob or panics. *)
Class SaverLaws R `{Saver R} (Hash : list byte -> ID) := {
  Saved : R -> BlobType -> list byte -> Prop;
  SaveBlob_ok r t data r' id known size : Saver_SaveBlob t data r = (r', Ok (id, known, size)) -> id = Hash data /\ Saved r' t data;
  SaveBlob_keeps r t data r' res t' data' : Saver_SaveBlob t data r = (r', res) -> Saved r t' data' -> Saved r' t' data';
  SaveBlob_safe r t data : ~ panics (Saver_SaveBlob t data r).2 }.

(** * Saving a file *)

Record futureNodeResult := mkResult {
  fnr_snPath : string; fnr_target : string; fnr_node : option Node; fnr_stats : ItemStats; fnr_err : option error }.

Definition set_Content (n : Node) (content : option (list ID)) : Node :=
  mkNode (n_Name n) (n_Type n) (n_Mode n) (n_ModTime n) (n_AccessTime n) (n_ChangeTime n) (n_UID n) (n_GID n) (n_User n) (n_Group n)
    (n_Inode n) (n_DeviceID n) (n_Size n) (n_Links n) (n_LinkTarget n) (n_ExtendedAttributes n) (n_Device n) content (n_Subtree n)
    (n_Error n) (n_Path n).
Definition set_Size (n : Node) (size : Z) : Node :=
  mkNode (n_Name n) (n_Type n) (n_Mode n) (n_ModTime n) (n_AccessTime n) (n_ChangeTime n) (n_UID n) (n_GID n) (n_User n) (n_Group n)
    (n_Inode n) (n_DeviceID n) size (n_Links n) (n_LinkTarget n) (n_ExtendedAttributes n) (n_Device n) (n_Content n) (n_Subtree n)
    (n_Error n) (n_Path n).
Definition content (n : Node) : list ID := default [] (n_Content n).

(** A file being saved.  [sv_todo] is what the chunker still returns, nothing once
    [saveFile] has returned; [sv_pending] are the chunks that are not saved yet, with
    their positions; [sv_ended] is whether [fnr.node] was set; [sv_result] is what
    [finish] was called with. *)
Record saving := mkSaving {
  sv_snPath : string;
  sv_target : string;
  sv_node : Node;
  sv_todo : option (list (list byte) * option error);
  sv_close : option error;
  sv_idx : nat;
  sv_pending : list (nat * list byte);
  sv_remaining : Z;
  sv_ended : bool;
  sv_isCompleted : bool;
  sv_err : option error;
  sv_stats : ItemStats;
  sv_result : option futureNodeResult }.

Definition finish (s : saving) (node : option Node) (stats : ItemStats) (err : option error) : outcome saving :=
  match sv_result s with
  | Some _ => Panic "send on closed channel"
  | None =>
      Ok (mkSaving (sv_snPath s) (sv_target s) (sv_node s) (sv_todo s) (sv_close s) (sv_idx s) (sv_pending s) (sv_remaining s) (sv_ended s)
            (sv_isCompleted s) (sv_err s) (sv_stats s) (Some (mkResult (sv_snPath s) (sv_target s) node stats err)))
  end.

Definition set_completed (s : saving) (err : option error) (stats : ItemStats) (ended : bool) : saving :=
  mkSaving (sv_snPath s) (sv_target s) (sv_node s) (sv_todo s) (sv_close s) (sv_idx s) (sv_pending s) (sv_remaining s) ended true err stats (sv_result s).
Definition set_remaining (s : saving) (n : Z) : saving :=
  mkSaving (sv_snPath s) (sv_target s) (sv_node s) (sv_todo s) (sv_close s) (sv_idx s) (sv_pending s) n (sv_ended s) (sv_isCompleted s) (sv_err s) (sv_stats s) (sv_result s).
Definition set_todo (s : saving) (todo : option (list (list byte) * option error)) : saving :=
  mkSaving (sv_snPath s) (sv_target s) (sv_node s) todo (sv_close s) (sv_idx s) (sv_pending s) (sv_remaining s) (sv_ended s) (sv_isCompleted s) (sv_err s) (sv_stats s) (sv_result s).

Definition completeBlob (s : saving) : outcome saving :=
  let s := set_remaining s (sv_remaining s - 1) in
  match sv_err s with
  | None =>
      if sv_remaining s =? 0 then
        if sv_isCompleted s then Panic "completed twice"
        else if negb (sv_ended s) then Panic "nil pointer dereference"
        else if existsb IsNull (content (sv_node s)) then Panic "completed file with null ID"
        else let s := set_completed s None (sv_stats s) (sv_ended s) in finish s (Some (sv_node s)) (sv_stats s) None
      else Ok s
  | Some _ => Ok s
  end.

Definition completeError (s : saving) (err : error) : outcome saving :=
  match sv_err s with
  | None =>
      if sv_isCompleted s then Panic "completed twice"
      else let e := Some (ErrWrap err "failed to save %v: %w") in finish (set_completed s e no_stats false) None no_stats e
  | Some _ => Ok s
  end.

Section FileSaver.
Context {W : Type} `{Saver W}.
Context (NodeFromFileInfo : string -> string -> OsFileInfo -> W -> W * (Node * option error)).
Context (Chunks : list byte * option error -> list (list byte) * option error).

(** The start of [saveFile], up to the loop. *)
Definition start_file (snPath target : string) (f : File) (fi : OsFileInfo) (s : W) : W * outcome saving :=
  let '(s, (node, err)) := NodeFromFileInfo snPath (file_Name f) fi s in
  let sv := mkSaving snPath target node None (file_Close f) 0 [] 0 false false None no_stats None in
  (s, match err with
      | Some e => completeError sv e
      | None =>
          if negb (String.eqb (n_Type node) "file") then completeError sv (ErrMsg "node type %q is wrong")
          else Ok (mkSaving snPath target (set_Size (set_Content node (Some [])) 0) (Some (Chunks (file_Read f))) (file_Close f) 0 [] 0 false false None no_stats None)
      end).

(** A round of the loop, or what follows it. *)
Definition read_step (s : saving) : option (outcome saving) :=
  match sv_todo s with
  | None => None
  | Some (chunk :: chunks, err) =>
      let node := set_Size (sv_node s) (u64 (n_Size (sv_node s) + zlen chunk)) in
      let node := set_Content node (Some (content node ++ [nullID])) in
      Some (Ok (mkSaving (sv_snPath s) (sv_target s) node (Some (chunks, err)) (sv_close s) (S (sv_idx s)) (sv_pending s ++ [(sv_idx s, chunk)])
                  (sv_remaining s) (sv_ended s) (sv_isCompleted s) (sv_err s) (sv_stats s) (sv_result s)))
  | Some ([], Some err) => Some (completeError (set_todo s None) err)
  | Some ([], None) =>
      let s := set_todo s None in
      Some match sv_close s with
           | Some err => completeError s err
           | None =>
               completeBlob (mkSaving (sv_snPath s) (sv_target s) (sv_node s) (sv_todo s) (sv_close s) (sv_idx s) (sv_pending s)
                 (sv_remaining s + (Z.of_nat (sv_idx s) + 1)) true (sv_isCompleted s) (sv_err s) (sv_stats s) (sv_result s))
           end
  end.

(** The callback for the chunk at [pos], number [k] of those pending. *)
Definition blob_done (s : saving) (k pos : nat) (sbr : SaveBlobResponse) : outcome saving :=
  let stats := if sbr_known sbr then sv_stats s
               else ItemStats_Add (sv_stats s) (mkItemStats 1 (sbr_length sbr) (sbr_sizeInRepo sbr) 0 0 0) in
  if Nat.ltb pos (length (content (sv_node s))) then
    completeBlob (mkSaving (sv_snPath s) (sv_target s) (set_Content (sv_node s) (Some (<[pos := sbr_id sbr]> (content (sv_node s))))) (sv_todo s) (sv_close s)
      (sv_idx s) (delete k (sv_pending s)) (sv_remaining s) (sv_ended s) (sv_isCompleted s) (sv_err s) stats (sv_result s))
  else Panic "index out of range".

(** An error of a worker that saves blobs ends the backup. *)
Definition save_step (s : saving) (k : nat) (r : W) : option (W * outcome saving) :=
  match sv_pending s !! k with
  | None => None
  | Some (pos, data) =>
      let '(r, res) := saveBlob DataBlob data r in
      Some (r, match res with Ok sbr => blob_done s k pos sbr | Err e => Err e | Panic p => Panic p end)
  end.

Inductive file_step : W * saving -> W * outcome saving -> Prop :=
  | step_read r s res : read_step s = Some res -> file_step (r, s) (r, res)
  | step_save r s k r' res : save_step s k r = Some (r', res) -> file_step (r, s) (r', res).
End FileSaver.

(** * Every order of the savings gives the same node *)

Definition size_of (chunks : list (list byte)) : Z := fold_left (fun n c => u64 (n + zlen c)) chunks 0.

Lemma size_of_snoc chunks c : size_of (chunks ++ [c]) = u64 (size_of chunks + zlen c).
Proof. unfold size_of. by rewrite fold_left_app. Qed.

(** The node of a file with these chunks. *)
Definition file_node (Hash : list byte -> ID) (node : Node) (chunks : list (list byte)) : Node :=
  set_Content (set_Size node (size_of chunks)) (Some (Hash <$> chunks)).

Section Saving.
Context {W : Type} `{HL : SaverLaws W Hash}.
(** The chunks of the file, how reading and closing it end, and its node before. *)
Context (all : list (list byte)) (rerr cerr : option error) (node0 : Node) (snPath target : string).
Context (Hnull : Forall (fun c => Hash c <> nullID) all).

(** A chunk that was read is pending, or it is saved and its ID is in the node. *)
Record placed (r : W) (s : saving) : Prop := mkPlaced {
  pl_length : length (content (sv_node s)) = sv_idx s;
  pl_idx : (sv_idx s <= length all)%nat;
  pl_nodup : NoDup (sv_pending s).*1;
  pl_pending : forall pos c, (pos, c) ∈ sv_pending s -> (pos < sv_idx s)%nat /\ all !! pos = Some c;
  pl_saved : forall pos c, all !! pos = Some c -> (pos < sv_idx s)%nat -> pos ∉ (sv_pending s).*1 ->
    content (sv_node s) !! pos = Some (Hash c) /\ Saved r DataBlob c;
  pl_node : sv_node s = set_Content (set_Size node0 (size_of (take (sv_idx s) all))) (Some (content (sv_node s))) }.

Definition good_result (stats : ItemStats) : futureNodeResult := mkResult snPath target (Some (file_node Hash node0 all)) stats None.
Definition bad_result (e : error) : futureNodeResult := mkResult snPath target None no_stats (Some (ErrWrap e "failed to save %v: %w")).

Inductive saving_inv (r : W) (s : saving) : Prop :=
  | inv_reading :
      placed r s -> sv_todo s = Some (drop (sv_idx s) all, rerr) -> sv_close s = cerr ->
      sv_remaining s = zlen (sv_pending s) - Z.of_nat (sv_idx s) -> sv_isCompleted s = false -> sv_err s = None -> sv_result s = None -> saving_inv r s
  | inv_ended :
      placed r s -> rerr = None -> cerr = None -> sv_todo s = None -> sv_idx s = length all -> sv_remaining s = zlen (sv_pending s) -> sv_pending s <> [] ->
      sv_ended s = true -> sv_isCompleted s = false -> sv_err s = None -> sv_result s = None -> saving_inv r s
  | inv_finished stats :
      rerr = None -> cerr = None -> sv_todo s = None -> sv_pending s = [] -> Forall (Saved r DataBlob) all -> sv_result s = Some (good_result stats) -> saving_inv r s
  | inv_failed e :
      (rerr = Some e \/ rerr = None /\ cerr = Some e) -> sv_todo s = None -> is_Some (sv_err s) -> (forall pos c, (pos, c) ∈ sv_pending s -> (pos < length (content (sv_node s)))%nat) ->
      sv_result s = Some (bad_result e) -> saving_inv r s.

Definition named (s : saving) : Prop := sv_snPath s = snPath /\ sv_target s = target.

Lemma placed_all r s : placed r s -> sv_idx s = length all -> sv_pending s = [] -> content (sv_node s) = Hash <$> all /\ Forall (Saved r DataBlob) all.
Proof using Type.
  intros [Hl _ _ _ Hs _] Hidx Hp. assert (forall pos c, all !! pos = Some c -> content (sv_node s) !! pos = Some (Hash c) /\ Saved r DataBlob c) as Hall.
  { intros pos c Hc. apply Hs; [done|apply lookup_lt_Some in Hc; lia|]. rewrite Hp. by intros ?%elem_of_nil. }
  split; [|apply Forall_forall; intros c [pos Hc]%list_elem_of_lookup; by eapply Hall].
  apply list_eq. intros pos. rewrite list_lookup_fmap. destruct (all !! pos) as [c|] eqn:Hc; cbn; [by apply Hall|].
  apply lookup_ge_None in Hc. apply lookup_ge_None. lia.
Qed.

(** [completeBlob] after the last chunk finishes, before it does nothing. *)
Lemma completeBlob_last r s :
  placed r s -> named s -> sv_idx s = length all -> sv_pending s = [] -> sv_remaining s = 1 -> sv_ended s = true -> sv_isCompleted s = false -> sv_err s = None ->
  sv_result s = None -> sv_todo s = None -> rerr = None -> cerr = None ->
  exists s', completeBlob s = Ok s' /\ saving_inv r s' /\ named s'.
Proof using Hnull.
  intros Hpl [Hn1 Hn2] Hidx Hp Hr He Hc Herr Hres Ht Hre Hce. destruct (placed_all r s Hpl Hidx Hp) as [Hcont Hsaved].
  unfold completeBlob. cbn [sv_err set_remaining sv_remaining sv_isCompleted sv_ended sv_node]. rewrite Herr, Hr, Hc, He. cbn [Z.sub Z.eqb negb].
  change (1 - 1 =? 0) with true. cbn match.
  assert (existsb IsNull (content (sv_node s)) = false) as ->.
  { rewrite Hcont. apply not_true_iff_false. intros (id & Hin & Hnul)%existsb_exists. apply list_elem_of_In, list_elem_of_fmap in Hin as (c & -> & Hin).
    apply bool_decide_eq_true in Hnul. rewrite Forall_forall in Hnull. by apply (Hnull c). }
  unfold finish, set_completed, set_remaining. cbn [sv_result sv_snPath sv_target sv_node sv_stats]. rewrite Hres. eexists. split; [done|]. split; [|by split].
  eapply inv_finished with (stats := sv_stats s); cbn; try done. rewrite Hn1, Hn2. unfold good_result, file_node. do 2 f_equal. f_equal.
  rewrite (pl_node _ _ Hpl), Hidx, firstn_all, Hcont. done.
Qed.

Lemma completeBlob_more s :
  sv_err s = None -> sv_remaining s <> 1 -> completeBlob s = Ok (set_remaining s (sv_remaining s - 1)).
Proof using Type.
  intros He Hr. unfold completeBlob. cbn [sv_err set_remaining sv_remaining]. rewrite He. destruct (Z.eqb_spec (sv_remaining s - 1) 0); [lia|done].
Qed.

Lemma completeError_ok r s e :
  (rerr = Some e \/ rerr = None /\ cerr = Some e) -> named s -> sv_err s = None -> sv_isCompleted s = false -> sv_result s = None -> sv_todo s = None ->
  (forall pos c, (pos, c) ∈ sv_pending s -> (pos < length (content (sv_node s)))%nat) ->
  exists s', completeError s e = Ok s' /\ saving_inv r s' /\ named s'.
Proof using Type.
  intros Hre [Hn1 Hn2] Herr Hc Hres Ht Hp. unfold completeError. rewrite Herr, Hc. unfold finish, set_completed. cbn [sv_result sv_snPath sv_target]. rewrite Hres.
  eexists. split; [done|]. split; [|by split]. eapply (inv_failed _ _ e); cbn; try done. unfold bad_result. by rewrite Hn1, Hn2.
Qed.

Lemma pending_bound r s : placed r s -> (length (sv_pending s) <= sv_idx s)%nat.
Proof using Type.
  intros [_ _ Hnd Hp _ _]. rewrite <- (length_fmap fst). transitivity (length (seq 0 (sv_idx s))); [|by rewrite length_seq]. apply submseteq_length, NoDup_submseteq; [done|].
  intros pos ([pos' c] & -> & Hin)%list_elem_of_fmap. apply elem_of_seq. cbn. destruct (Hp _ _ Hin). lia.
Qed.

Lemma placed_content r s pos c : placed r s -> (pos, c) ∈ sv_pending s -> (pos < length (content (sv_node s)))%nat.
Proof using Type. intros [Hl _ _ Hp _ _] Hin. rewrite Hl. by destruct (Hp _ _ Hin). Qed.

Lemma read_step_inv r s res :
  saving_inv r s -> named s -> read_step s = Some res -> exists s', res = Ok s' /\ saving_inv r s' /\ named s'.
Proof using Hnull.
  intros Hi Hn E. unfold read_step in E. destruct Hi as [Hpl Ht Hc Hr Hcomp Herr Hres|_ _ _ Ht|? _ _ Ht|? _ Ht]; rewrite Ht in E; try done.
  destruct (drop (sv_idx s) all) as [|chunk chunks] eqn:Ed.
  - assert (sv_idx s = length all) as Hidx by (apply (f_equal length) in Ed; rewrite length_drop in Ed; cbn in Ed; pose proof (pl_idx _ _ Hpl); lia).
    destruct rerr as [e|] eqn:Ere.
    + injection E as <-. apply completeError_ok; cbn; try done; [rewrite Ere; by left|]. intros pos c Hin. by eapply placed_content.
    + injection E as <-. cbn [set_todo sv_close]. rewrite Hc. destruct cerr as [e|] eqn:Ece.
      * apply completeError_ok; cbn; try done; [rewrite Ere, Ece; by right|]. intros pos c Hin. by eapply placed_content.
      * assert (forall rem close, placed r (mkSaving (sv_snPath s) (sv_target s) (sv_node s) None close (sv_idx s) (sv_pending s) rem true (sv_isCompleted s) (sv_err s) (sv_stats s) (sv_result s))) as Hpl'
          by (intros rem close; by destruct Hpl; constructor).
        cbn [sv_snPath sv_target sv_node sv_todo sv_close sv_idx sv_pending sv_remaining sv_isCompleted sv_err sv_stats sv_result].
        destruct (sv_pending s) as [|x pending] eqn:Ep.
        { apply completeBlob_last; cbn; try done. rewrite Hr. unfold zlen. cbn. lia. }
        rewrite <- Ep in *. rewrite completeBlob_more; cbn; [|done|rewrite Hr, Ep, zlen_cons; pose proof (zlen_nonneg pending); lia].
        eexists. split; [done|]. split; [|done]. apply inv_ended; cbn; try done; [apply Hpl'|rewrite Hr; lia|by rewrite Ep].
  - injection E as <-. eexists. split; [done|]. split; [|done]. assert (all !! sv_idx s = Some chunk) as Hchunk.
    { rewrite <- (take_drop (sv_idx s) all), Ed. rewrite lookup_app_r by (rewrite length_take; lia). rewrite length_take.
      rewrite Nat.min_l by apply Hpl. by rewrite Nat.sub_diag. }
    destruct Hpl as [Hl Hidx Hnd Hp Hs Hnode]. apply inv_reading; cbn; try done.
    + constructor; cbn -[size_of take]; fold (content (sv_node s)).
      * rewrite length_app. cbn [length]. lia.
      * apply lookup_lt_Some in Hchunk. lia.
      * rewrite fmap_app. apply NoDup_app. split_and!; [done| |apply NoDup_singleton]. intros pos ([pos' c] & -> & Hin)%list_elem_of_fmap.
        change ([(sv_idx s, chunk)].*1) with [sv_idx s]. rewrite list_elem_of_singleton. destruct (Hp _ _ Hin). cbn. lia.
      * intros pos c [Hin|[= -> ->]%list_elem_of_singleton]%elem_of_app; [|split; [lia|done]]. destruct (Hp _ _ Hin). split; [lia|done].
      * intros pos c Hc' Hlt Hnin. rewrite fmap_app, elem_of_app in Hnin. change ([(sv_idx s, chunk)].*1) with [sv_idx s] in Hnin. rewrite list_elem_of_singleton in Hnin.
        rewrite lookup_app_l by lia. apply Hs; [done|lia|naive_solver].
      * assert (n_Size (sv_node s) = size_of (take (sv_idx s) all)) as Hsz by by rewrite Hnode.
        rewrite (take_S_r _ _ _ Hchunk), size_of_snoc, <- Hsz. rewrite Hnode at 1. done.
    + rewrite (drop_S _ _ _ Hchunk) in Ed. by injection Ed as ->.
    + rewrite Hr, zlen_app, zlen_cons, zlen_nil. lia.
Qed.

(** One chunk is saved. *)
Lemma placed_save r r' s k pos data rem stats res :
  placed r s -> sv_pending s !! k = Some (pos, data) -> Saved r' DataBlob data -> (forall t d, Saved r t d -> Saved r' t d) ->
  placed r' (mkSaving (sv_snPath s) (sv_target s) (set_Content (sv_node s) (Some (<[pos := Hash data]> (content (sv_node s))))) (sv_todo s) (sv_close s)
      (sv_idx s) (delete k (sv_pending s)) rem (sv_ended s) (sv_isCompleted s) (sv_err s) stats res).
Proof using Type.
  intros [Hl Hidx Hnd Hp Hs Hnode] Hk Hd Hkeep. assert ((pos, data) ∈ sv_pending s) as Hin by by eapply list_elem_of_lookup_2.
  destruct (Hp _ _ Hin) as [Hpos Hall]. pose proof (delete_Permutation _ _ _ Hk) as Hperm.
  assert (NoDup (pos :: (delete k (sv_pending s)).*1)) as Hnd' by by rewrite <- (fmap_cons fst (pos, data)), <- Hperm.
  apply NoDup_cons in Hnd' as [Hnin Hnd']. constructor; cbn -[size_of take]; fold (content (sv_node s)).
  - by rewrite length_insert.
  - done.
  - done.
  - intros pos' c Hin'. apply Hp. rewrite Hperm. by right.
  - intros pos' c Hc Hlt Hnin'. destruct (decide (pos' = pos)) as [->|Hne].
    + assert (c = data) as -> by congruence. split; [|done]. apply list_lookup_insert_eq. lia.
    + rewrite list_lookup_insert_ne by done. destruct (Hs pos' c Hc Hlt) as [H1 H2]; [|by split; [|apply Hkeep]].
      rewrite Hperm. cbn. rewrite not_elem_of_cons. by split.
  - rewrite Hnode at 1. done.
Qed.

Lemma save_step_inv r s k r' res :
  saving_inv r s -> named s -> save_step s k r = Some (r', res) ->
  (forall t d, Saved r t d -> Saved r' t d) /\ match res with Ok s' => saving_inv r' s' /\ named s' | Err _ => True | Panic _ => False end.
Proof using Hnull.
  intros Hi Hn E. unfold save_step in E. destruct (sv_pending s !! k) as [[pos data]|] eqn:Hk; [|done]. unfold saveBlob in E.
  destruct (Saver_SaveBlob DataBlob data r) as [r1 rs] eqn:Es. pose proof (SaveBlob_safe r DataBlob data) as Hsafe. rewrite Es in Hsafe.
  assert (forall t d, Saved r t d -> Saved r1 t d) as Hkeep by (intros t d; by eapply SaveBlob_keeps).
  assert ((pos, data) ∈ sv_pending s) as Hin by by eapply list_elem_of_lookup_2.
  destruct rs as [[[id known] size]|e|p]; [|by injection E as <- <-|exfalso; apply Hsafe; by exists p].
  injection E as <- <-. split; [done|]. destruct (SaveBlob_ok _ _ _ _ _ _ _ Es) as [-> Hd]. unfold blob_done. cbn [sbr_known sbr_length sbr_sizeInRepo sbr_id].
  set (stats := if known then _ else _). pose proof (delete_Permutation _ _ _ Hk) as Hperm. pose proof (Permutation_length Hperm) as Hlen. cbn in Hlen.
  destruct Hi as [Hpl Ht Hc Hr Hcomp Herr Hres|Hpl Hre Hce Ht Hidx Hr Hpend He Hcomp Herr Hres|? _ _ _ Hp|e Hre Ht Herr Hpos Hres].
  - pose proof (placed_content _ _ _ _ Hpl Hin) as Hlt. apply Nat.ltb_lt in Hlt as ->. pose proof (pending_bound _ _ Hpl) as Hb.
    rewrite completeBlob_more; cbn; [|done|rewrite Hr; unfold zlen; lia]. split; [|done]. apply inv_reading; cbn; try done.
    + by apply (placed_save r r1 s k pos data).
    + rewrite Hr. unfold zlen. lia.
  - pose proof (placed_content _ _ _ _ Hpl Hin) as Hlt. apply Nat.ltb_lt in Hlt as ->.
    destruct (decide (delete k (sv_pending s) = [])) as [Hnil|Hmore].
    + edestruct (completeBlob_last r1) as (s' & -> & Hi' & Hn'); [by apply (placed_save r r1 s k pos data)|done|cbn; try done..|by split].
      rewrite Hnil in Hlen. rewrite Hr. unfold zlen. cbn in Hlen. lia.
    + assert (length (delete k (sv_pending s)) <> 0%nat) as Hl0 by (by destruct (delete k (sv_pending s))).
      rewrite completeBlob_more; cbn; [|done|rewrite Hr; unfold zlen; lia]. split; [|done]. apply inv_ended; cbn; try done.
      * by apply (placed_save r r1 s k pos data).
      * rewrite Hr. unfold zlen. lia.
  - by rewrite Hp in Hk.
  - pose proof (Hpos _ _ Hin) as Hlt. apply Nat.ltb_lt in Hlt as ->. destruct Herr as [e' Herr]. unfold completeBlob. cbn [sv_err set_remaining]. rewrite Herr.
    split; [|done]. apply (inv_failed _ _ e); cbn; try done. intros pos' c Hin'. rewrite length_insert. apply (Hpos pos' c). rewrite Hperm. by right.
Qed.

(** As long as there is no result something can go on. *)
Lemma saving_goes r s : saving_inv r s -> sv_result s = None -> read_step s <> None \/ forall r', exists r'' res, save_step s 0 r' = Some (r'', res).
Proof using Type.
  intros [Hpl Ht|Hpl _ _ _ _ _ Hp|? _ _ _ _ _ Hres|? _ _ _ _ Hres] Hnone; [left|right|congruence|congruence].
  - unfold read_step. rewrite Ht. destruct (drop _ _); [destruct rerr|]; done.
  - intros r'. unfold save_step. destruct (sv_pending s) as [|[pos data] pending]; [done|]. cbn. destruct (saveBlob DataBlob data r') as [r2 rs]. by eexists _, _.
Qed.
End Saving.

(** ** Every run ends *)

Definition file_next {W} `{Saver W} (a b : W * saving) : Prop := exists r' s', file_step a (r', Ok s') /\ b = (r', s').

Definition todo_length (s : saving) : nat := match sv_todo s with None => 0 | Some (l, _) => S (length l) end.
Definition saving_weight (s : saving) : nat := (2 * todo_length s + length (sv_pending s))%nat.

Lemma finish_weight s node stats err s' : finish s node stats err = Ok s' -> saving_weight s' = saving_weight s.
Proof. unfold finish. destruct (sv_result s); [done|]. by intros [= <-]. Qed.

Lemma completeBlob_weight s s' : completeBlob s = Ok s' -> saving_weight s' = saving_weight s.
Proof.
  unfold completeBlob. cbn zeta. destruct (sv_err _); [by intros [= <-]|]. destruct (_ =? 0); [|by intros [= <-]]. destruct (sv_isCompleted _); [done|].
  destruct (negb _); [done|]. destruct (existsb _ _); [done|]. intros E. by apply finish_weight in E.
Qed.

Lemma completeError_weight s e s' : completeError s e = Ok s' -> saving_weight s' = saving_weight s.
Proof.
  unfold completeError. destruct (sv_err s); [by intros [= <-]|]. destruct (sv_isCompleted s); [done|]. intros E. by apply finish_weight in E.
Qed.

Lemma file_next_weight {W} `{Saver W} (r r' : W) s s' : file_next (r, s) (r', s') -> (saving_weight s' < saving_weight s)%nat.
Proof.
  intros (r1 & s1 & Hs & [= <- <-]). inversion Hs as [? ? ? E|? ? ? ? ? E]; subst.
  - unfold read_step in E. unfold saving_weight at 2. unfold todo_length. destruct (sv_todo s) as [[[|chunk chunks] err]|] eqn:Et; [|injection E as <-|done].
    + destruct err as [e|]; injection E as E.
      * apply completeError_weight in E as ->. unfold saving_weight, todo_length. cbn. lia.
      * cbn [set_todo sv_close] in E. destruct (sv_close s) as [e|].
        -- apply completeError_weight in E as ->. unfold saving_weight, todo_length. cbn. lia.
        -- apply completeBlob_weight in E as ->. unfold saving_weight, todo_length. cbn. lia.
    + unfold saving_weight, todo_length. cbn. rewrite length_app. cbn. lia.
  - unfold save_step in E. destruct (sv_pending s !! k) as [[pos data]|] eqn:Hk; [|done]. destruct (saveBlob DataBlob data r) as [r2 [sbr|e|p]]; injection E as <- E; try done.
    unfold blob_done in E. cbn zeta in E. destruct (Nat.ltb pos _); [|done]. apply completeBlob_weight in E as ->.
    pose proof (Permutation_length (delete_Permutation _ _ _ Hk)) as Hlen. cbn in Hlen. unfold saving_weight, todo_length. cbn. lia.
Qed.

Lemma file_runs_end {W} `{Saver W} n (r : W) s : (saving_weight s < n)%nat -> Acc (fun b a => file_next a b) (r, s).
Proof.
  revert r s. induction n as [|n IH]; intros r s Hn; [lia|]. constructor. intros [r' s'] Hs. apply IH. apply file_next_weight in Hs. lia.
Qed.

Lemma saving_inv_run {W} `{SaverLaws W Hash} all rerr cerr node0 snPath target (Hnull : Forall (fun c => Hash c <> nullID) all) (a b : W * saving) :
  rtc file_next a b -> saving_inv all rerr cerr node0 snPath target a.1 a.2 -> named snPath target a.2 ->
  saving_inv all rerr cerr node0 snPath target b.1 b.2 /\ named snPath target b.2.
Proof.
  induction 1 as [a|[r2 s2] ? b (r3 & s3 & Hs & ->) Hrtc IH]; [done|]. intros Hi Hn. cbn [fst snd] in *. apply IH; inversion Hs as [? ? ? E|? ? ? ? ? E]; subst.
  - by destruct (read_step_inv _ _ _ _ _ _ Hnull _ _ _ Hi Hn E) as (s' & [= <-] & Hi' & Hn').
  - by destruct (save_step_inv _ _ _ _ _ _ Hnull _ _ _ _ _ Hi Hn E) as [_ [Hi' Hn']].
  - by destruct (read_step_inv _ _ _ _ _ _ Hnull _ _ _ Hi Hn E) as (s' & [= <-] & Hi' & Hn').
  - by destruct (save_step_inv _ _ _ _ _ _ Hnull _ _ _ _ _ Hi Hn E) as [_ [Hi' Hn']].
Qed.

(** C13. However the savings of the chunks interleave with the reading of the file and with
    each other, nothing panics, every run ends, and something can go on until the
    file is finished.  It is then finished once and for all: with the IDs of its chunks in
    their order, their size, and every chunk saved, if reading and closing the file
    ended well, and else with that error. *)
Theorem save_file {W : Type} `{SaverLaws W Hash} (NodeFromFileInfo : string -> string -> OsFileInfo -> W -> W * (Node * option error))
    (Chunks : list byte * option error -> list (list byte) * option error) (snPath target : string) (f : File) (fi : OsFileInfo) (r0 r1 : W) (node : Node)
    (Hnode : NodeFromFileInfo snPath (file_Name f) fi r0 = (r1, (node, None))) (Htype : n_Type node = "file")
    (Hnull : Forall (fun c => Hash c <> nullID) (Chunks (file_Read f)).1) :
  exists s0, start_file NodeFromFileInfo Chunks snPath target f fi r0 = (r1, Ok s0) /\
    Acc (fun b a => file_next a b) (r1, s0) /\
    forall r s, rtc file_next (r1, s0) (r, s) ->
      (forall res, file_step (r, s) res -> ~ panics res.2) /\
      match sv_result s with
      | None => exists res, file_step (r, s) res
      | Some res =>
          match (Chunks (file_Read f)).2, file_Close f with
          | None, None => (exists stats, res = mkResult snPath target (Some (file_node Hash node (Chunks (file_Read f)).1)) stats None) /\
                          Forall (Saved r DataBlob) (Chunks (file_Read f)).1
          | Some e, _ | None, Some e => res = mkResult snPath target None no_stats (Some (ErrWrap e "failed to save %v: %w"))
          end
      end.
Proof.
  destruct (Chunks (file_Read f)) as [all rerr] eqn:Ec. cbn [fst snd] in *. unfold start_file. rewrite Hnode, Htype. cbn [negb String.eqb Ascii.eqb Bool.eqb].
  rewrite Ec. eexists. split; [done|]. split; [eapply file_runs_end; eauto|]. intros r s Hrtc.
  assert (saving_inv all rerr (file_Close f) node snPath target r s /\ named snPath target s) as [Hi Hn].
  { eapply (saving_inv_run _ _ _ _ _ _ Hnull _ _ Hrtc); [|done]. cbn [fst snd]. apply inv_reading; cbn; try done.
    constructor; cbn; try done; [lia|constructor|by intros ? ? ?%elem_of_nil|intros; lia]. }
  split.
  - intros res Hs. inversion Hs as [? ? ? E|? ? ? ? ? E]; subst; cbn.
    + destruct (read_step_inv _ _ _ _ _ _ Hnull _ _ _ Hi Hn E) as (s' & -> & _). by intros [p ?].
    + destruct (save_step_inv _ _ _ _ _ _ Hnull _ _ _ _ _ Hi Hn E) as [_ Hr]. by destruct res0; [intros [p ?]..|].
  - destruct (sv_result s) as [res|] eqn:Eres.
    + destruct Hi as [? ? ? ? ? ? Hres|? ? ? ? ? ? ? ? ? ? Hres|stats -> -> _ _ Hsaved Hres|e He _ _ _ Hres]; rewrite Eres in Hres; try done; injection Hres as ->.
      * split; [by exists stats|done].
      * destruct He as [->|[-> ->]]; [done|]. done.
    + destruct (saving_goes _ _ _ _ _ _ _ _ Hi Eres) as [Hr|Hr].
      * destruct (read_step s) as [res|] eqn:E; [|done]. exists (r, res). by constructor.
      * destruct (Hr r) as (r' & res & E). exists (r', res). by eapply step_save.
Qed.

(** A file of two chunks, in a repository that is a list of blobs. *)
Definition ex_archive_hash (data : list byte) : ID := copy_id ("x"%byte :: data).
Definition ex_saver : Saver (list (BlobType * list byte)) := {| Saver_SaveBlob t data r := (r ++ [(t, data)], Ok (ex_archive_hash data, false, zlen data)) |}.
Lemma ex_saver_laws : @SaverLaws _ ex_saver ex_archive_hash.
Proof.
  unshelve econstructor; [exact (fun r t data => (t, data) ∈ r)|..].
  - intros r t data r' id known size [= <- <- _ _]. split; [done|]. apply elem_of_app. right. by apply list_elem_of_singleton.
  - intros r t data r' res t' data' [= <- _] Hin. apply elem_of_app. by left.
  - intros r t data [p ?]. discriminate.
Defined.
Definition ex_new_node : Node := mkNode "f" "file" 420 time_zero time_zero time_zero 0 0 "" "" 0 0 3 1 "" [] 0 None None "" "".
Definition ex_file : File := mkFile "f" (Err (ErrMsg "stat")) (Err (ErrMsg "no directory")) (["a"; "b"; "c"]%byte, None) None.
Definition ex_chunks (r : list byte * option error) : list (list byte) * option error := ([take 2 r.1; drop 2 r.1], r.2).

Lemma save_file_witness :
  exists s, rtc (file_next (H := ex_saver)) ([], mkSaving "/f" "f" (set_Size (set_Content ex_new_node (Some [])) 0) (Some (ex_chunks (file_Read ex_file))) None 0 [] 0 false false None no_stats None)
      ([(DataBlob, ["c"%byte]); (DataBlob, ["a"; "b"]%byte)], s) /\
    exists stats, sv_result s = Some (mkResult "/f" "f" (Some (file_node ex_archive_hash ex_new_node [["a"; "b"]%byte; ["c"%byte]])) stats None).
Proof.
  destruct (save_file (H := ex_saver) (H0 := ex_saver_laws) (fun _ _ _ r => (r, (ex_new_node, None))) ex_chunks "/f" "f" ex_file (mkOsFileInfo "f" 3 0 time_zero None) [] [] ex_new_node
    eq_refl eq_refl) as (s0 & E & _ & Hrun); [by repeat constructor|].
  vm_compute in E. injection E as <-.
  match type of Hrun with forall r s, rtc _ (?r0, ?s0) _ -> _ => assert (exists s, rtc (file_next (H := ex_saver)) (r0, s0) ([(DataBlob, ["c"%byte]); (DataBlob, ["a"; "b"]%byte)], s) /\ sv_result s <> None) as (s & Hrtc & Hres) end.
  { eexists. split.
    - eapply rtc_l; [do 2 eexists; split; [apply step_read; reflexivity|reflexivity]|].
      eapply rtc_l; [do 2 eexists; split; [apply step_read; reflexivity|reflexivity]|].
      eapply rtc_l; [do 2 eexists; split; [eapply (step_save _ _ 1); vm_compute; reflexivity|reflexivity]|].
      eapply rtc_l; [do 2 eexists; split; [apply step_read; vm_compute; reflexivity|reflexivity]|].
      eapply rtc_l; [do 2 eexists; split; [eapply (step_save _ _ 0); vm_compute; reflexivity|reflexivity]|]. apply rtc_refl.
    - discriminate. }
  exists s. split; [exact Hrtc|]. destruct (Hrun _ _ Hrtc) as [_ Hr]. destruct (sv_result s) as [res|]; [|done]. destruct Hr as [[stats ->] _]. by exists stats.
Defined.
