(* ===== verification/Archiver.v ===== *)
(** The archiver (src/internal/archiver/archiver.go, tree_saver.go).

    [Save], [SaveDir] and [SaveTree] walk the file system and give the files and
    directories they find to workers; what they return is a [future].  The workers
    are the relation [fstep] on the future of the root: it starts files, reads and
    saves their chunks, and saves a directory when the nodes of its entries are
    known, in any order.  The walk is complete before the workers start here: they
    share nothing but the repository, of which the walk asks what it has.

    [W] is the state of the file system, the repository and the caches.  Progress
    messages are left out. *)

From S2P Require Import Prelude Bytes GoString GoTime Restic Snapshot Tree FsPath Os NodeRestore FS ArchTree NodeStat FileSaver.

#[local] Open Scope Z_scope.

Definition ChangeIgnoreCtime : Z := 1.
Definition ChangeIgnoreInode : Z := 2.

Definition set_Name (n : Node) (name : string) : Node :=
  mkNode name (n_Type n) (n_Mode n) (n_ModTime n) (n_AccessTime n) (n_ChangeTime n) (n_UID n) (n_GID n) (n_User n) (n_Group n)
    (n_Inode n) (n_DeviceID n) (n_Size n) (n_Links n) (n_LinkTarget n) (n_ExtendedAttributes n) (n_Device n) (n_Content n) (n_Subtree n)
    (n_Error n) (n_Path n).

(** [&restic.Node{}]. *)
Definition zero_node : Node := mkNode "" "" 0 time_zero time_zero time_zero 0 0 "" "" 0 0 0 0 "" [] 0 None None "" "".

(** * Futures *)

(** A directory whose entries are being added to its tree. *)
Record tree_job := mkTreeJob {
  tj_snPath : string; tj_target : string; tj_node : Node; tj_builder : TreeJSONBuilder; tj_last : option Node }.

Inductive future :=
  | FResult (res : futureNodeResult)
  | FQueued (snPath target : string) (f : File) (fi : OsFileInfo)
  | FFile (sv : saving)
  | FTree (j : tree_job) (nodes : list future).

Section Archiver.
Context {W : Type} `{FS W} `{Saver W}.
Context (NodeFromFileInfo : string -> OsFileInfo -> W -> W * (Node * option error)).
Context (Error : option (string -> error -> option error)) (SelectByName : string -> bool) (Select : string -> OsFileInfo -> bool).
Context (WithAtime : bool) (ChangeIgnoreFlags : Z).
Context (LoadTree : ID -> W -> W * outcome Tree) (Has : BlobHandle -> W -> bool).

(** [arch.error]. *)
Definition arch_error (item : string) (err : error) : option error :=
  match Error with
  | None => Some err
  | Some f => if bool_decide (err = ErrMsg "context canceled") then Some err else f item err
  end.

Definition nodeFromFileInfo (snPath filename : string) (fi : OsFileInfo) (s : W) : W * (Node * option error) :=
  let '(s, (node, err)) := NodeFromFileInfo filename fi s in
  let node := if WithAtime then node else set_times node (n_ModTime node) (n_ModTime node) (n_ChangeTime node) in
  (s, (set_Name node (filepath_Base snPath), err)).

Definition wrapLoadTreeError (id : ID) (err : error) (s : W) : error :=
  if Has (mkBlobHandle id TreeBlob) s then ErrMsg "tree %v could not be loaded; the repository could be damaged: %v"
  else ErrMsg "tree %v is not known; the repository could be damaged, run `repair index` to try to repair it".

Definition loadSubtree (node : option Node) (s : W) : W * outcome (option Tree) :=
  match node with
  | Some n =>
      match n_Subtree n with
      | Some id =>
          if String.eqb (n_Type n) "dir" then
            match LoadTree id s with
            | (s, Ok tree) => (s, Ok (Some tree))
            | (s, Err e) => (s, Err (wrapLoadTreeError id e s))
            | (s, Panic p) => (s, Panic p)
            end
          else (s, Ok None)
      | None => (s, Ok None)
      end
  | None => (s, Ok None)
  end.

Definition allBlobsPresent (previous : Node) (s : W) : bool := forallb (fun id => Has (mkBlobHandle id DataBlob) s) (default [] (n_Content previous)).

Definition fileChanged (fi : OsFileInfo) (node : Node) (ignoreFlags : Z) : outcome bool :=
  if negb (String.eqb (n_Type node) "file") then Ok true
  else if negb (u64 (ofi_Size fi) =? n_Size node) then Ok true
  else if negb (time_Equal (ofi_ModTime fi) (n_ModTime node)) then Ok true
  else
    let checkCtime := Z.land ignoreFlags ChangeIgnoreCtime =? 0 in
    let checkInode := Z.land ignoreFlags ChangeIgnoreInode =? 0 in
    try extFI <- extendedStat fi;
    Ok (checkCtime && negb (time_Equal (ext_ChangeTime extFI) (n_ChangeTime node)) || checkInode && negb (n_Inode node =? ext_Inode extFI)).

(** An error that [Error] may tolerate: the item is left out. *)
Definition filtered (abstarget : string) (err : error) : outcome (option future) :=
  match arch_error abstarget err with Some e => Err e | None => Ok None end.

(** ** Files *)

Definition result_node (snPath target : string) (node : Node) : future := FResult (mkResult snPath target (Some node) no_stats None).

(** A file that has changed, or whose blobs are missing. *)
Definition save_changed (snPath target abstarget : string) (s : W) : W * outcome (option future) :=
  let '(s, file) := fs_OpenFile target (Z.lor O_RDONLY O_NOFOLLOW) s in
  (s, match file with
      | Panic p => Panic p
      | Err e => filtered abstarget e
      | Ok file =>
          match file_Stat file with
          | Panic p => Panic p
          | Err e => filtered abstarget e
          | Ok fi =>
              if negb (IsRegularFile fi) then filtered abstarget (ErrMsg "file %v changed type, refusing to archive")
              else Ok (Some (FQueued snPath target file fi))
          end
      end).

Definition save_regular (snPath target abstarget : string) (fi : OsFileInfo) (previous : option Node) (s : W) : W * outcome (option future) :=
  match previous with
  | None => save_changed snPath target abstarget s
  | Some previous =>
      match fileChanged fi previous ChangeIgnoreFlags with
      | Panic p => (s, Panic p)
      | Err e => (s, Err e)
      | Ok true => save_changed snPath target abstarget s
      | Ok false =>
          if allBlobsPresent previous s then
            match nodeFromFileInfo snPath target fi s with
            | (s, (_, Some e)) => (s, Err e)
            | (s, (node, None)) => (s, Ok (Some (result_node snPath target (set_Content node (n_Content previous)))))
            end
          else
            match arch_error abstarget (ErrMsg "parts of %v not found in the repository index; storing the file again") with
            | Some e => (s, Err e)
            | None => save_changed snPath target abstarget s
            end
      end
  end.

(** ** Directories *)

Definition new_tree_job (snPath target : string) (node : Node) : tree_job := mkTreeJob snPath target node NewTreeJSONBuilder None.

(** The loop over the names of a directory. *)
Fixpoint save_names (save : string -> string -> option Node -> W -> W * outcome (option future)) (snPath dir : string) (previous : option Tree)
    (names : list string) (s : W) : W * outcome (list future) :=
  match names with
  | [] => (s, Ok [])
  | name :: names =>
      let pathname := fs_Join [dir; name] in
      let '(s, r) := save (path_Join [snPath; name]) pathname (Tree_Find previous name) s in
      match match r with Err e => match arch_error pathname e with Some e => Err e | None => Ok None end | r => r end with
      | Err e => (s, Err e)
      | Panic p => (s, Panic p)
      | Ok fn =>
          let '(s, nodes) := save_names save snPath dir previous names s in
          (s, try nodes <- nodes; Ok (option_list fn ++ nodes))
      end
  end.

Definition SaveDir_with (save : string -> string -> option Node -> W -> W * outcome (option future)) (snPath dir : string) (fi : OsFileInfo)
    (previous : option Tree) (s : W) : W * outcome future :=
  match nodeFromFileInfo snPath dir fi s with
  | (s, (_, Some e)) => (s, Err e)
  | (s, (treeNode, None)) =>
      let '(s, names) := readdirnames dir O_NOFOLLOW s in
      match names with
      | Err e => (s, Err e)
      | Panic p => (s, Panic p)
      | Ok names =>
          let '(s, nodes) := save_names save snPath dir previous (sort_Strings names) s in
          (s, try nodes <- nodes; Ok (FTree (new_tree_job snPath dir treeNode) nodes))
      end
  end.

(** [Save]; no future is an item that is excluded.  The fuel bounds the depth of the
    directories. *)
Fixpoint Save (fuel : nat) (snPath target : string) (previous : option Node) (s : W) : W * outcome (option future) :=
  match fuel with
  | O => (s, Panic "out of fuel")
  | S fuel =>
      match fs_Abs target with
      | Err e => (s, Err e)
      | Panic p => (s, Panic p)
      | Ok abstarget =>
          if negb (SelectByName abstarget) then (s, Ok None)
          else
            let '(s, fi) := fs_Lstat target s in
            match fi with
            | Err e => (s, filtered abstarget e)
            | Panic p => (s, Panic p)
            | Ok fi =>
                if negb (Select abstarget fi) then (s, Ok None)
                else if IsRegularFile fi then save_regular snPath target abstarget fi previous s
                else if mode_IsDir (ofi_Mode fi) then
                  let '(s, oldSubtree) := loadSubtree previous s in
                  match match oldSubtree with Err e => match arch_error abstarget e with Some e => Err e | None => Ok None end | r => r end with
                  | Err e => (s, Err e)
                  | Panic p => (s, Panic p)
                  | Ok oldSubtree =>
                      let '(s, fn) := SaveDir_with (Save fuel) snPath target fi oldSubtree s in (s, try fn <- fn; Ok (Some fn))
                  end
                else if negb (Z.land (ofi_Mode fi) ModeSocket =? 0) then (s, Ok None)
                else
                  match nodeFromFileInfo snPath target fi s with
                  | (s, (_, Some e)) => (s, Err e)
                  | (s, (node, None)) => (s, Ok (Some (result_node snPath target node)))
                  end
            end
      end
  end.

Definition SaveDir (fuel : nat) := SaveDir_with (Save fuel).

(** ** The tree of the targets *)

Definition statDir (dir : string) (s : W) : W * outcome OsFileInfo :=
  match fs_Stat dir s with
  | (s, Ok fi) => (s, if Z.land (ofi_Mode fi) (Z.lor ModeType ModeCharDevice) =? ModeDir then Ok fi else Err (ErrMsg "path is not a directory: %v"))
  | r => r
  end.

(** The node of an intermediate directory; the root has none. *)
Definition tree_node (snPath : string) (atree : ATree) (s : W) : W * outcome Node :=
  if String.eqb snPath "/" then (s, Ok zero_node)
  else if String.eqb (at_FileInfoPath atree) "" then (s, Err (ErrMsg "FileInfoPath for %v is empty"))
  else
    match statDir (at_FileInfoPath atree) s with
    | (s, Err e) => (s, Err e)
    | (s, Panic p) => (s, Panic p)
    | (s, Ok fi) =>
        match nodeFromFileInfo snPath (at_FileInfoPath atree) fi s with
        | (s, (_, Some e)) => (s, Err e)
        | (s, (node, None)) => (s, Ok node)
        end
    end.

(** The loop of [SaveTree] over the names of the nodes. *)
Fixpoint save_tree_nodes (save : string -> string -> option Node -> W -> W * outcome (option future)) (save_tree : string -> ATree -> option Tree -> W -> W * outcome (future * nat))
    (snPath : string) (atree : ATree) (previous : option Tree) (names : list string) (s : W) : W * outcome (list future) :=
  match names with
  | [] => (s, Ok [])
  | name :: names =>
      let subatree := default emptyTree (get_name (at_Nodes atree) name) in
      let item := path_Join [snPath; name] in
      let '(s, fn) :=
        if Leaf subatree then
          let '(s, r) := save item (at_Path subatree) (Tree_Find previous name) s in
          (s, match r with Err e => match arch_error (at_Path subatree) e with Some e => Err e | None => Ok None end | r => r end)
        else
          let '(s, oldSubtree) := loadSubtree (Tree_Find previous name) s in
          match match oldSubtree with Err e => match arch_error item e with Some e => Err e | None => Ok None end | r => r end with
          | Err e => (s, Err e)
          | Panic p => (s, Panic p)
          | Ok oldSubtree => let '(s, r) := save_tree item subatree oldSubtree s in (s, try r <- r; Ok (Some r.1))
          end in
      match fn with
      | Err e => (s, Err e)
      | Panic p => (s, Panic p)
      | Ok fn =>
          let '(s, nodes) := save_tree_nodes save save_tree snPath atree previous names s in
          (s, try nodes <- nodes; Ok (option_list fn ++ nodes))
      end
  end.

(** [SaveTree]; [depth] bounds the depth of directories, the fuel that of the tree. *)
Fixpoint Archiver_SaveTree (depth fuel : nat) (snPath : string) (atree : ATree) (previous : option Tree) (s : W) : W * outcome (future * nat) :=
  match fuel with
  | O => (s, Panic "out of fuel")
  | S fuel =>
      match tree_node snPath atree s with
      | (s, Err e) => (s, Err e)
      | (s, Panic p) => (s, Panic p)
      | (s, Ok node) =>
          let '(s, nodes) := save_tree_nodes (Save depth) (Archiver_SaveTree depth fuel) snPath atree previous (NodeNames atree) s in
          (s, try nodes <- nodes; Ok (FTree (new_tree_job snPath (at_FileInfoPath atree) node) nodes, length nodes))
      end
  end.

(** Targets that have no components are replaced by what the directory holds. *)
Fixpoint resolveRelativeTargets (targets : list string) (s : W) : W * outcome (list string) :=
  match targets with
  | [] => (s, Ok [])
  | target :: targets =>
      let target := fs_Clean target in
      let '(s, resolved) :=
        match (pathComponents target false).1 with
        | _ :: _ => (s, Ok [target])
        | [] =>
            let '(s, entries) := readdirnames target O_NOFOLLOW s in
            (s, try entries <- entries; Ok ((fun name => fs_Join [target; name]) <$> sort_Strings entries))
        end in
      match resolved with
      | Ok resolved => let '(s, result) := resolveRelativeTargets targets s in (s, try result <- result; Ok (resolved ++ result))
      | r => (s, r)
      end
  end.

(** * The workers *)

Context (marshal : Node -> outcome (list byte)) (Chunks : list byte * option error -> list (list byte) * option error).

(** [errors.Is]. *)
Fixpoint errors_Is (e target : error) : bool :=
  bool_decide (e = target) || match e with ErrWrap cause _ => errors_Is cause target | ErrMsg _ => false end.

(** The function [arch.Error] itself: calling it when it is not set panics. *)
Definition errFn (item : string) (err : error) : outcome (option error) :=
  match Error with None => Panic "nil pointer dereference" | Some f => Ok (f item err) end.

(** A round of the loop of [TreeSaver.save]. *)
Definition take_node (j : tree_job) (fnr : futureNodeResult) : outcome tree_job :=
  match fnr_err fnr with
  | Some e => try e <- errFn (fnr_target fnr) e; match e with None => Ok j | Some e => Err e end
  | None =>
      match fnr_node fnr with
      | None => Ok j
      | Some node =>
          let '(builder, r) := AddNode marshal (tj_builder j) node in
          let same := match tj_last j with Some lastNode => Node_Equals node lastNode | None => false end in
          let j := mkTreeJob (tj_snPath j) (tj_target j) (tj_node j) builder (Some node) in
          match r with
          | Ok _ => Ok j
          | Panic p => Panic p
          | Err e => if errors_Is e ErrTreeNotOrdered && same then try _ <- errFn (fnr_target fnr) e; Ok j else Err e
          end
      end
  end.

(** The end of [TreeSaver.save]; the blob is saved by a worker for blobs. *)
Definition finish_tree (j : tree_job) (s : W) : W * outcome futureNodeResult :=
  match (Builder_Finalize (tj_builder j)).2 with
  | Err e => (s, Err e)
  | Panic p => (s, Panic p)
  | Ok buf =>
      let '(s, res) := saveBlob TreeBlob buf s in
      (s, match res with
          | Err e => Err e
          | Panic p => Panic p
          | Ok sbr =>
              let stats := if sbr_known sbr then no_stats else mkItemStats 0 0 0 1 (u64 (sbr_length sbr)) (u64 (sbr_sizeInRepo sbr)) in
              Ok (mkResult (tj_snPath j) (tj_target j) (Some (set_Subtree (tj_node j) (Some (sbr_id sbr)))) stats None)
          end)
  end.

(** [take], when there is a result; what is left of a file are the chunks that are
    still being saved. *)
Definition taken (f : future) : option (futureNodeResult * list (list byte)) :=
  match f with
  | FResult res => Some (res, [])
  | FFile sv => match sv_result sv with Some res => Some (res, (sv_pending sv).*2) | None => None end
  | _ => None
  end.

Definition file_future (res : outcome saving) : outcome (future * list (list byte)) := try sv <- res; Ok (FFile sv, []).

(** A step of a worker: the new future and the chunks that are left. *)
Inductive fstep : W -> future -> W -> outcome (future * list (list byte)) -> Prop :=
  | fs_start snPath target f fi s s' res :
      start_file nodeFromFileInfo Chunks snPath target f fi s = (s', res) -> fstep s (FQueued snPath target f fi) s' (file_future res)
  | fs_file sv s s' res :
      sv_result sv = None \/ sv_pending sv <> [] -> file_step (s, sv) (s', res) -> fstep s (FFile sv) s' (file_future res)
  | fs_take j f nodes s res pending :
      taken f = Some (res, pending) ->
      fstep s (FTree j (f :: nodes)) s (try j <- take_node j res; Ok (FTree j nodes, pending))
  | fs_finish j s s' res :
      finish_tree j s = (s', res) -> fstep s (FTree j []) s' (try res <- res; Ok (FResult res, []))
  | fs_child j pre f post s s' res :
      fstep s f s' res -> fstep s (FTree j (pre ++ f :: post)) s' (try r <- res; Ok (FTree j (pre ++ r.1 :: post), r.2)).

(** The backup: the future of the root, and the chunks of files that failed and are
    still being saved.  An error ends it, as does the cancellation of the context. *)
Inductive backup :=
  | Running (s : W) (f : future) (left : list (list byte))
  | Stopped (s : W) (r : outcome (Snapshot * ID)).

Definition proceed (s : W) (left : list (list byte)) (r : outcome (future * list (list byte))) : backup :=
  match r with
  | Ok (f, more) => Running s f (left ++ more)
  | Err e => Stopped s (Err e)
  | Panic p => Stopped s (Panic p)
  end.

Definition save_left (s : W) (f : future) (left : list (list byte)) (k : nat) : option backup :=
  match left !! k with
  | None => None
  | Some data =>
      let '(s, res) := saveBlob DataBlob data s in
      Some match res with
           | Ok _ => Running s f (delete k left)
           | Err e => Stopped s (Err e)
           | Panic p => Stopped s (Panic p)
           end
  end.

Inductive astep : backup -> backup -> Prop :=
  | as_future s f left s' r : fstep s f s' r -> astep (Running s f left) (proceed s' left r)
  | as_left s f left k b : save_left s f left k = Some b -> astep (Running s f left) b
  | as_cancel s f left : astep (Running s f left) (Stopped s (Err (ErrMsg "context canceled"))).

(** One schedule: the first future that can go on, then the chunks that are left. *)
Fixpoint fschedule (s : W) (f : future) : option (W * outcome (future * list (list byte))) :=
  match f with
  | FResult _ => None
  | FQueued snPath target f fi => let '(s, res) := start_file nodeFromFileInfo Chunks snPath target f fi s in Some (s, file_future res)
  | FFile sv =>
      match sv_result sv with
      | Some _ => None
      | None =>
          match read_step sv with
          | Some res => Some (s, file_future res)
          | None => match save_step sv 0 s with Some (s, res) => Some (s, file_future res) | None => None end
          end
      end
  | FTree j [] => let '(s, res) := finish_tree j s in Some (s, try res <- res; Ok (FResult res, []))
  | FTree j (f :: nodes) =>
      match taken f with
      | Some (res, pending) => Some (s, try j <- take_node j res; Ok (FTree j nodes, pending))
      | None => match fschedule s f with Some (s, r) => Some (s, try r <- r; Ok (FTree j (r.1 :: nodes), r.2)) | None => None end
      end
  end.

Fixpoint run_backup (fuel : nat) (b : backup) : backup :=
  match fuel, b with
  | S fuel, Running s f rest =>
      match fschedule s f with
      | Some (s, r) => run_backup fuel (proceed s rest r)
      | None => match save_left s f rest 0 with Some b => run_backup fuel b | None => b end
      end
  | _, _ => b
  end.

(** ** A snapshot *)

(** [SnapshotOptions]. *)
Record SnapshotOptions := mkSnapshotOptions {
  so_Tags : list string; so_Hostname : string; so_Excludes : list string; so_Time : Time; so_ParentSnapshot : option Snapshot; so_ProgramVersion : string }.

(** A parent whose tree does not load is left out, whatever [Error] returns. *)
Definition loadParentTree (sn : option Snapshot) (s : W) : W * outcome (option Tree) :=
  match sn with
  | None => (s, Ok None)
  | Some sn =>
      match sn_Tree sn with
      | None => (s, Ok None)
      | Some id =>
          match LoadTree id s with
          | (s, Ok tree) => (s, Ok (Some tree))
          | (s, Err _) => (s, Ok None)
          | (s, Panic p) => (s, Panic p)
          end
      end
  end.

Context (Getwd : outcome string) (user_Current : option (string * outcome (Z * Z))).

(** [NewSnapshot]: paths that cannot be made absolute are kept; [fillUserInfo]. *)
Definition NewSnapshot (paths tags : list string) (hostname : string) (time : Time) : outcome Snapshot :=
  let absPaths := (fun p => match filepath_Abs Getwd p with Ok a => a | _ => p end) <$> paths in
  let sn name uid gid := mkSnapshot time None None absPaths hostname name uid gid [] tags None "" None in
  match user_Current with
  | None => Ok (sn "" 0 0)
  | Some (name, Ok (uid, gid)) => Ok (sn name uid gid)
  | Some (_, Err e) => Err e
  | Some (_, Panic p) => Panic p
  end.

Definition finish_snapshot (opts : SnapshotOptions) (root : ID) (sn : Snapshot) : Snapshot :=
  mkSnapshot (sn_Time sn) (match so_ParentSnapshot opts with Some p => sn_id p | None => sn_Parent sn end) (Some root) (sn_Paths sn) (sn_Hostname sn)
    (sn_Username sn) (sn_UID sn) (sn_GID sn) (so_Excludes opts) (sn_Tags sn) (sn_Original sn) (so_ProgramVersion opts) (sn_id sn).

Context (Flush : W -> W * outcome unit) (SaveSnapshot : Snapshot -> W -> W * outcome ID).

(** What follows the workers: the node of the root has the ID of its tree. *)
Definition end_snapshot (targets : list string) (opts : SnapshotOptions) (nodeCount : nat) (fnr : futureNodeResult) (s : W) : W * outcome (Snapshot * ID) :=
  match fnr_err fnr with
  | Some e => (s, Err e)
  | None =>
      if Nat.eqb nodeCount 0 then (s, Err (ErrMsg "snapshot is empty"))
      else
        match fnr_node fnr with
        | None => (s, Panic "nil pointer dereference")
        | Some node =>
            match n_Subtree node with
            | None => (s, Panic "nil pointer dereference")
            | Some root =>
                match Flush s with
                | (s, Err e) => (s, Err e)
                | (s, Panic p) => (s, Panic p)
                | (s, Ok _) =>
                    match NewSnapshot targets (so_Tags opts) (so_Hostname opts) (so_Time opts) with
                    | Err e => (s, Err e)
                    | Panic p => (s, Panic p)
                    | Ok sn =>
                        let sn := finish_snapshot opts root sn in
                        let '(s, id) := SaveSnapshot sn s in (s, try id <- id; Ok (sn, id))
                    end
                end
            end
        end
  end.

(** The part of [Snapshot] before the workers. *)
Definition start_snapshot (depth : nat) (targets : list string) (opts : SnapshotOptions) (s : W) : W * outcome (future * nat) :=
  match resolveRelativeTargets targets s with
  | (s, Err e) => (s, Err e)
  | (s, Panic p) => (s, Panic p)
  | (s, Ok cleanTargets) =>
      match NewTree cleanTargets s with
      | (s, Err e) => (s, Err e)
      | (s, Panic p) => (s, Panic p)
      | (s, Ok atree) =>
          match loadParentTree (so_ParentSnapshot opts) s with
          | (s, Err e) => (s, Err e)
          | (s, Panic p) => (s, Panic p)
          | (s, Ok parent) => Archiver_SaveTree depth (ArchTree.depth atree) "/" atree parent s
          end
      end
  end.

(** [Snapshot] from state [s], which leaves [s'] with the result. *)
Definition Archiver_Snapshot (depth : nat) (targets : list string) (opts : SnapshotOptions) (s s' : W) (result : outcome (Snapshot * ID)) : Prop :=
  match start_snapshot depth targets opts s with
  | (s0, Ok (fn, nodeCount)) =>
      (exists s1 res, rtc astep (Running s0 fn []) (Running s1 (FResult res) []) /\ end_snapshot targets opts nodeCount res s1 = (s', result)) \/
      rtc astep (Running s0 fn []) (Stopped s' result)
  | (s0, Err e) => s' = s0 /\ result = Err e
  | (s0, Panic p) => s' = s0 /\ result = Panic p
  end.
End Archiver.
