(* ===== verification/ArchiverFacts.v ===== *)
(** What the workers of the archiver compute: theorems about [fstep] and [astep] of
    Archiver, which hold for every schedule. *)

From S2P Require Import Prelude Bytes GoString GoTime Restic Snapshot Tree FsPath Os NodeRestore FS ArchTree NodeStat FileSaver Archiver.

#[local] Open Scope Z_scope.

(** * Futures *)

Fixpoint future_rect' (P : future -> Prop) (Hr : forall res, P (FResult res)) (Hq : forall snPath target f fi, P (FQueued snPath target f fi))
    (Hf : forall sv, P (FFile sv)) (Ht : forall j nodes, Forall P nodes -> P (FTree j nodes)) (f : future) : P f :=
  match f with
  | FResult res => Hr res
  | FQueued snPath target f fi => Hq snPath target f fi
  | FFile sv => Hf sv
  | FTree j nodes => Ht j nodes ((fix all (l : list future) : Forall P l :=
      match l with [] => Forall_nil_2 P | f :: l => Forall_cons_2 P f l (future_rect' P Hr Hq Hf Ht f) (all l) end) nodes)
  end.

(** A result, and the blobs that have to be saved for it. *)
Abbreviation expected := (option (futureNodeResult * list (BlobType * list byte))).

Definition same_result (a b : futureNodeResult) : Prop :=
  fnr_snPath a = fnr_snPath b /\ fnr_target a = fnr_target b /\ fnr_node a = fnr_node b /\ fnr_err a = fnr_err b.

Section Reference.
Context {W : Type} (Hash : list byte -> ID) (meta : string -> OsFileInfo -> Node * option error).
Context (Error : option (string -> error -> option error)) (WithAtime : bool) (marshal : Node -> outcome (list byte)).
Context (Chunks : list byte * option error -> list (list byte) * option error).

(** [nodeFromFileInfo] for metadata that do not change. *)
Definition arch_meta (snPath filename : string) (fi : OsFileInfo) : Node * option error :=
  let '(node, err) := meta filename fi in
  (set_Name (if WithAtime then node else set_times node (n_ModTime node) (n_ModTime node) (n_ChangeTime node)) (filepath_Base snPath), err).

Definition failed_file (snPath target : string) (e : error) : expected :=
  Some (mkResult snPath target None no_stats (Some (ErrWrap e "failed to save %v: %w")), []).

Definition file_expected (snPath target : string) (node : Node) (all : list (list byte)) (rerr cerr : option error) : expected :=
  match rerr, cerr with
  | None, None => Some (mkResult snPath target (Some (file_node Hash node all)) no_stats None, (fun c => (DataBlob, c)) <$> all)
  | Some e, _ | None, Some e => failed_file snPath target e
  end.

Definition queued_expected (snPath target : string) (f : File) (fi : OsFileInfo) : expected :=
  match arch_meta snPath (file_Name f) fi with
  | (_, Some e) => failed_file snPath target e
  | (node, None) =>
      if negb (String.eqb (n_Type node) "file") then failed_file snPath target (ErrMsg "node type %q is wrong")
      else file_expected snPath target node (Chunks (file_Read f)).1 (Chunks (file_Read f)).2 (file_Close f)
  end.

(** A directory whose entries have these results: their nodes are added in order, the
    tree is saved, and the node has its ID.  Nothing when an error ends the backup. *)
Definition tree_expected (saved : list (BlobType * list byte)) (j : tree_job) (xs : list expected) : expected :=
  match mapM id xs with
  | None => None
  | Some l =>
      match ofold (take_node Error marshal) j l.*1 with
      | Ok j =>
          match (Builder_Finalize (tj_builder j)).2 with
          | Ok buf => Some (mkResult (tj_snPath j) (tj_target j) (Some (set_Subtree (tj_node j) (Some (Hash buf)))) no_stats None,
                            (TreeBlob, buf) :: saved ++ concat l.*2)
          | _ => None
          end
      | _ => None
      end
  end.

(** What a future of the walk comes to, without workers. *)
Fixpoint reference (f : future) : expected :=
  match f with
  | FResult res => Some (res, [])
  | FQueued snPath target f fi => queued_expected snPath target f fi
  | FFile _ => None
  | FTree j nodes => tree_expected [] j (reference <$> nodes)
  end.

(** The futures of the walk. *)
Fixpoint walked (f : future) : bool :=
  match f with FFile _ => false | FTree _ nodes => forallb walked nodes | _ => true end.

(** No chunk of a file has the null ID. *)
Fixpoint chunks_not_null (f : future) : Prop :=
  match f with
  | FQueued _ _ f _ => Forall (fun c => Hash c <> nullID) (Chunks (file_Read f)).1
  | FTree _ nodes => foldr (fun f P => chunks_not_null f /\ P) True nodes
  | _ => True
  end.
End Reference.

(** * The invariant *)

Lemma same_result_refl r : same_result r r.
Proof. done. Qed.

Lemma take_node_same Error marshal j r r' : same_result r r' -> take_node Error marshal j r = take_node Error marshal j r'.
Proof. intros (_ & Ht & Hn & He). unfold take_node. by rewrite Ht, Hn, He. Qed.

Section Refines.
Context {W : Type} `{HL : SaverLaws W Hash}.
Context (NodeFromFileInfo : string -> OsFileInfo -> W -> W * (Node * option error)) (meta : string -> OsFileInfo -> Node * option error).
Context (Error : option (string -> error -> option error)) (WithAtime : bool) (marshal : Node -> outcome (list byte)).
Context (Chunks : list byte * option error -> list (list byte) * option error).
(** The metadata of a file do not change, and reading them saves nothing. *)
Context (Hmeta : forall filename fi s, (NodeFromFileInfo filename fi s).2 = meta filename fi).
Context (Hmeta_keeps : forall filename fi s t d, Saved s t d -> Saved (NodeFromFileInfo filename fi s).1 t d).

Abbreviation reference_ := (reference Hash meta Error WithAtime marshal Chunks).
Abbreviation tree_expected_ := (tree_expected Hash Error marshal).
Abbreviation fstep_ := (fstep NodeFromFileInfo Error WithAtime marshal Chunks).
Abbreviation astep_ := (astep NodeFromFileInfo Error WithAtime marshal Chunks).
Abbreviation saved_all s l := (Forall (fun b : BlobType * list byte => Saved s b.1 b.2) l).

Definition keeps_saved (s s' : W) : Prop := forall t d, Saved s t d -> Saved s' t d.

Inductive expects (s : W) : future -> expected -> Prop :=
  | exp_result r r' needs : same_result r r' -> saved_all s needs -> expects s (FResult r) (Some (r', needs))
  | exp_queued snPath target f fi :
      Forall (fun c => Hash c <> nullID) (Chunks (file_Read f)).1 ->
      expects s (FQueued snPath target f fi) (queued_expected Hash meta WithAtime Chunks snPath target f fi)
  | exp_file sv all rerr cerr node snPath target :
      Forall (fun c => Hash c <> nullID) all -> saving_inv all rerr cerr node snPath target s sv -> named snPath target sv ->
      expects s (FFile sv) (file_expected Hash snPath target node all rerr cerr)
  | exp_tree j nodes xs prev : Forall2 (expects s) nodes xs -> saved_all s prev -> expects s (FTree j nodes) (tree_expected_ prev j xs).

Lemma placed_mono all node s s' sv : keeps_saved s s' -> placed all node s sv -> placed all node s' sv.
Proof using Type. intros Hk [? ? ? ? Hs ?]. constructor; try done. intros pos c H1 H2 H3. destruct (Hs pos c H1 H2 H3). split; [done|by apply Hk]. Qed.

Lemma saving_inv_mono all rerr cerr node snPath target s s' sv :
  keeps_saved s s' -> saving_inv all rerr cerr node snPath target s sv -> saving_inv all rerr cerr node snPath target s' sv.
Proof using Type.
  intros Hk [Hp ? ? ? ? ? ?|Hp ? ? ? ? ? ? ? ? ? ?|stats ? ? ? ? Hs ?|e ? ? ? ? ?].
  - apply inv_reading; try done. by eapply placed_mono.
  - apply inv_ended; try done. by eapply placed_mono.
  - eapply inv_finished; try done. eapply Forall_impl; [exact Hs|]. intros c. apply Hk.
  - by eapply inv_failed.
Qed.

Lemma saved_all_mono s s' l : keeps_saved s s' -> saved_all s l -> saved_all s' l.
Proof using Type. intros Hk Hs. eapply Forall_impl; [exact Hs|]. intros b. apply Hk. Qed.

Lemma expects_mono s s' f x : keeps_saved s s' -> expects s f x -> expects s' f x.
Proof using Type.
  intros Hk. revert x. induction f as [r|snPath target f fi|sv|j nodes IH] using future_rect'; intros x Hx; inversion Hx; subst.
  - constructor; [done|by eapply saved_all_mono].
  - by constructor.
  - econstructor; [done| |done]. by eapply saving_inv_mono.
  - constructor; [|by eapply saved_all_mono]. clear Hx. match goal with H : Forall2 _ _ _ |- _ => induction H end; [constructor|].
    apply Forall_cons in IH as [IH1 IH2]. constructor; [by apply IH1|auto].
Qed.

(** What [take] yields is what is expected, and saved. *)
Lemma taken_expects s f x res pending :
  expects s f x -> taken f = Some (res, pending) -> exists r needs, x = Some (r, needs) /\ same_result res r /\ saved_all s needs.
Proof using Type.
  intros Hx Ht. inversion Hx as [r r' needs Hs Hsaved|snPath target f0 fi Hn|sv all rerr cerr node snPath target Hn Hi Hnm|j nodes xs prev HF Hd]; subst; cbn in Ht; [|done| |done].
  - injection Ht as <- _. by exists r', needs.
  - destruct (sv_result sv) as [r|] eqn:Er; [|done]. injection Ht as <- _.
    destruct Hi as [? ? ? ? ? ? Hr|? ? ? ? ? ? ? ? ? ? Hr|stats -> -> _ _ Hs Hr|e He _ _ _ Hr]; rewrite Er in Hr; try done; injection Hr as ->.
    + eexists _, _. split; [done|]. split; [done|]. by apply Forall_fmap.
    + exists (mkResult snPath target None no_stats (Some (ErrWrap e "failed to save %v: %w"))), []. split; [|by split; [|constructor]].
      unfold file_expected. destruct He as [->|[-> ->]]; done.
Qed.

Lemma mapM_id_cons {A} (x : option A) xs : mapM id (x :: xs) = (a ← x; l ← mapM id xs; Some (a :: l)).
Proof using Type. done. Qed.

Lemma tree_expected_take prev j r needs res xs :
  same_result res r ->
  match take_node Error marshal j res with
  | Ok j' => tree_expected_ prev j (Some (r, needs) :: xs) = tree_expected_ (prev ++ needs) j' xs
  | _ => tree_expected_ prev j (Some (r, needs) :: xs) = None
  end.
Proof using Type.
  intros Hs. rewrite (take_node_same _ _ _ _ _ Hs). unfold tree_expected. rewrite mapM_id_cons. cbn [mbind option_bind id].
  destruct (mapM id xs) as [l|]; cbn [mbind option_bind fmap list_fmap fst snd ofold concat].
  - destruct (take_node Error marshal j r) as [j'|e|p]; [|done..]. rewrite bind_Ok_l. destruct (ofold _ j' _); [|done..]. by rewrite app_assoc.
  - by destruct (take_node Error marshal j r).
Qed.

Lemma start_file_expects snPath target f fi s s' res :
  Forall (fun c => Hash c <> nullID) (Chunks (file_Read f)).1 ->
  start_file (nodeFromFileInfo NodeFromFileInfo WithAtime) Chunks snPath target f fi s = (s', res) ->
  keeps_saved s s' /\ exists sv, res = Ok sv /\ expects s' (FFile sv) (queued_expected Hash meta WithAtime Chunks snPath target f fi).
Proof using Hmeta Hmeta_keeps.
  intros Hn E. unfold start_file in E. assert (exists s1, nodeFromFileInfo NodeFromFileInfo WithAtime snPath (file_Name f) fi s = (s1, arch_meta meta WithAtime snPath (file_Name f) fi) /\ keeps_saved s s1) as (s1 & Em & Hk).
  { unfold nodeFromFileInfo, arch_meta. pose proof (Hmeta (file_Name f) fi s) as Hm. pose proof (fun t d => Hmeta_keeps (file_Name f) fi s t d) as Hk.
    destruct (NodeFromFileInfo (file_Name f) fi s) as [s1 [node err]]. cbn [fst snd] in *. rewrite <- Hm. exists s1. by split. }
  rewrite Em in E. unfold queued_expected. destruct (arch_meta meta WithAtime snPath (file_Name f) fi) as [node err].
  assert (forall e, exists sv, completeError (mkSaving snPath target node None (file_Close f) 0 [] 0 false false None no_stats None) e = Ok sv /\ expects s1 (FFile sv) (failed_file snPath target e)) as Hfail.
  { intros e. eexists. split; [reflexivity|]. change (failed_file snPath target e) with (file_expected Hash snPath target node [] (Some e) None).
    apply exp_file; [constructor| |done]. apply (inv_failed _ _ _ _ _ _ _ _ e); cbn; try done; [by left|by intros ? ? ?%elem_of_nil]. }
  destruct err as [e|]; [|destruct (negb (String.eqb (n_Type node) "file"))].
  - injection E as <- <-. split; [done|]. destruct (Hfail e) as (sv & E & Hx). by exists sv.
  - injection E as <- <-. split; [done|]. destruct (Hfail (ErrMsg "node type %q is wrong")) as (sv & E & Hx). by exists sv.
  - injection E as <- <-. split; [done|]. eexists. split; [done|]. apply exp_file; [done| |done].
    apply inv_reading; cbn; try done; [|by destruct (Chunks (file_Read f))].
    constructor; cbn; try done; [lia|constructor|by intros ? ? ?%elem_of_nil|intros; lia].
Qed.

(** A step of a worker keeps what is expected; a panic is one of [Error]. *)
Lemma fstep_expects s f s' r :
  fstep_ s f s' r -> forall x, expects s f x ->
  keeps_saved s s' /\ match r with Ok (f', _) => expects s' f' x | Err _ => True | Panic _ => x = None end.
Proof using Hmeta Hmeta_keeps.
  induction 1 as [snPath target f fi s s' res E|sv s s' res Hlive E|j f nodes s res pending E|j s s' res E|j pre f post s s' res E IH]; intros x Hx.
  - inversion Hx; subst. destruct (start_file_expects _ _ _ _ _ _ _ ltac:(eassumption) E) as (Hk & sv & -> & Hx'). by split.
  - inversion Hx as [| |sv' all rerr cerr node snPath target Hn Hi Hnm|]; subst. inversion E as [? ? ? Er|? ? ? ? ? Es]; subst.
    + destruct (read_step_inv _ _ _ _ _ _ Hn _ _ _ Hi Hnm Er) as (sv' & -> & Hi' & Hn'). split; [by intros ? ?|]. by econstructor.
    + destruct (save_step_inv _ _ _ _ _ _ Hn _ _ _ _ _ Hi Hnm Es) as [Hk Hr]. split; [done|]. destruct res as [sv'|e|p]; cbn; [|done..].
      destruct Hr as [Hi' Hn']. by econstructor.
  - inversion Hx as [| | |j' nodes' xs prev HF Hd]; subst. apply Forall2_cons_inv_l in HF as (y & xs' & Hy & HF & ->).
    destruct (taken_expects _ _ _ _ _ Hy E) as (r & needs & -> & Hs & Hneeds). split; [by intros ? ?|].
    pose proof (tree_expected_take prev j r needs res xs' Hs) as Ht. destruct (take_node Error marshal j res) as [j'|e|p]; cbn; [|done|done].
    rewrite Ht. constructor; [done|]. by apply Forall_app.
  - inversion Hx as [| | |j' nodes' xs prev HF Hd]; subst. apply Forall2_nil_inv_l in HF as ->. unfold finish_tree in E. cbn [Builder_Finalize snd] in E.
    unfold saveBlob in E. destruct (Saver_SaveBlob TreeBlob _ s) as [s1 rs] eqn:Es. injection E as <- <-.
    assert (keeps_saved s s1) as Hk by (intros t d; by eapply SaveBlob_keeps). split; [done|].
    destruct rs as [[[id known] size]|e|p]; cbn; [|done|].
    + destruct (SaveBlob_ok _ _ _ _ _ _ _ Es) as [-> Hsaved]. unfold tree_expected. cbn. constructor; [done|]. constructor; [done|].
      rewrite app_nil_r. by eapply saved_all_mono.
    + pose proof (SaveBlob_safe s TreeBlob (tb_buf (tj_builder j) ++ json_close ++ [newline])) as Hsafe. rewrite Es in Hsafe. exfalso. apply Hsafe. by exists p.
  - inversion Hx as [| | |j' nodes' xs prev HF Hd]; subst. apply Forall2_app_inv_l in HF as (xs1 & xs2 & HF1 & HF2 & ->).
    apply Forall2_cons_inv_l in HF2 as (y & xs3 & Hy & HF2 & ->). destruct (IH _ Hy) as [Hk Hr]. split; [done|].
    destruct res as [[f' left]|e|p]; cbn; [|done|].
    + constructor; [|by eapply saved_all_mono]. apply Forall2_app; [eapply Forall2_impl; [exact HF1|]; intros; by eapply expects_mono|].
      constructor; [done|]. eapply Forall2_impl; [exact HF2|]. intros; by eapply expects_mono.
    + unfold tree_expected. rewrite Hr. assert (mapM id (xs1 ++ None :: xs3) = None) as ->; [|done].
      clear. induction xs1 as [|x xs1 IH]; [done|]. cbn [app]. rewrite mapM_id_cons, IH. by destruct x.
Qed.

(** A future that is expected to have a result has one, or a worker can go on. *)
Lemma future_goes s f x : expects s f x -> (exists y, taken f = Some y) \/ exists s' r, fstep_ s f s' r.
Proof using Type.
  revert x. induction f as [r|snPath target f fi|sv|j nodes IH] using future_rect'; intros x Hx.
  - left. by eexists.
  - right. destruct (start_file (nodeFromFileInfo NodeFromFileInfo WithAtime) Chunks snPath target f fi s) as [s' res] eqn:E. exists s', (file_future res). by constructor.
  - inversion Hx as [| |sv' all rerr cerr node snPath target Hn Hi Hnm|]; subst. cbn. destruct (sv_result sv) as [r|] eqn:Er; [left; by eexists|right].
    destruct (saving_goes _ _ _ _ _ _ _ _ Hi Er) as [Hr|Hr].
    + destruct (read_step sv) as [res|] eqn:E; [|done]. exists s, (file_future res). apply fs_file; [by left|by constructor].
    + destruct (Hr s) as (s' & res & E). exists s', (file_future res). apply fs_file; [by left|by eapply step_save].
  - right. inversion Hx as [| | |j' nodes' xs prev HF Hd]; subst. destruct nodes as [|f nodes].
    + destruct (finish_tree j s) as [s' res] eqn:E. do 2 eexists. by apply fs_finish.
    + apply Forall2_cons_inv_l in HF as (y & xs' & Hy & _ & ->). apply Forall_cons in IH as [IH _]. destruct (IH _ Hy) as [[[res pending] Ht]|(s' & r & Hs)].
      * do 2 eexists. by eapply fs_take.
      * do 2 eexists. by apply (fs_child _ _ _ _ _ j [] f nodes).
Qed.

Lemma reference_expects s f : walked f = true -> chunks_not_null Hash Chunks f -> expects s f (reference_ f).
Proof using Type.
  induction f as [r|snPath target f fi|sv|j nodes IH] using future_rect'; intros Hw Hn; cbn [reference walked chunks_not_null] in *; [by constructor|by constructor|done|].
  constructor; [|constructor]. induction nodes as [|f nodes IHn]; [constructor|]. cbn in Hw, Hn. apply andb_true_iff in Hw as [Hw1 Hw2].
  apply Forall_cons in IH as [IH1 IH2]. destruct Hn as [Hn1 Hn2]. constructor; [by apply IH1|by apply IHn].
Qed.

(** ** Every run ends *)

Fixpoint future_weight (f : future) : nat :=
  match f with
  | FResult _ => 1
  | FQueued _ _ f _ => 4 + 2 * length (Chunks (file_Read f)).1
  | FFile sv => 1 + saving_weight sv
  | FTree _ nodes => 2 + sum_list (future_weight <$> nodes)
  end.

Lemma fstep_weight s f s' f' left : fstep_ s f s' (Ok (f', left)) -> (future_weight f' + length left < future_weight f)%nat.
Proof using Type.
  remember (Ok (f', left)) as r eqn:Er. intros Hs. revert f' left Er.
  induction Hs as [snPath target f fi s s' res E|sv s s' res Hlive E|j f nodes s res pending E|j s s' res E|j pre f post s s' res E IH]; intros f' left Er.
  - destruct res as [sv|e|p]; [|done..]. injection Er as <- <-. cbn. unfold start_file in E. destruct (nodeFromFileInfo _ _ _ _ _ s) as [s1 [node err]].
    destruct err as [e|]; [injection E as _ <-; unfold saving_weight, todo_length; cbn; lia|].
    destruct (negb _); [injection E as _ <-; unfold saving_weight, todo_length; cbn; lia|].
    injection E as _ <-. unfold saving_weight, todo_length. cbn. destruct (Chunks (file_Read f)) as [l e]. cbn. lia.
  - destruct res as [sv'|e|p]; [|done..]. injection Er as <- <-. pose proof (file_next_weight s s' sv sv' ltac:(by exists s', sv')). cbn [future_weight length]. lia.
  - destruct (take_node Error marshal j res) as [j'|e|p]; [|done..]. injection Er as <- <-. cbn [future_weight fmap list_fmap sum_list sum_list_with].
    assert (length pending < future_weight f)%nat; [|cbn; lia]. destruct f as [r|?|sv|?]; cbn in E; try done; [by injection E as _ <-; cbn; lia|].
    destruct (sv_result sv); [|done]. injection E as _ <-. cbn. rewrite length_fmap. unfold saving_weight. lia.
  - destruct res; [|done..]. injection Er as <- <-. cbn. lia.
  - destruct res as [[f1 left1]|e|p]; [|done..]. injection Er as <- <-. specialize (IH _ _ eq_refl). cbn [future_weight].
    rewrite !fmap_app, !fmap_cons, !sum_list_with_app. cbn. lia.
Qed.

Definition backup_weight (b : @backup W) : nat := match b with Running _ f chunks => 1 + future_weight f + length chunks | Stopped _ _ => 0 end.

Lemma astep_weight b b' : astep_ b b' -> (backup_weight b' < backup_weight b)%nat.
Proof using Type.
  intros [s f left s' r Hs|s f left k b1 E|s f left].
  - destruct r as [[f' more]|e|p]; cbn; [|lia..]. apply fstep_weight in Hs. rewrite length_app. lia.
  - unfold save_left in E. destruct (left !! k) as [data|] eqn:Hk; [|done]. destruct (saveBlob DataBlob data s) as [s1 [sbr|e|p]]; injection E as <-; cbn; [|lia..].
    pose proof (Permutation_length (delete_Permutation _ _ _ Hk)) as Hl. cbn in Hl. lia.
  - cbn. lia.
Qed.

Lemma backup_ends b : Acc (fun b' b => astep_ b b') b.
Proof using Type.
  assert (forall n b, (backup_weight b < n)%nat -> Acc (fun b' b => astep_ b b') b) as Hn; [|apply (Hn (S (backup_weight b)) b); lia].
  induction n as [|n IH]; intros b' Hb; [lia|]. constructor. intros b2 Hs. apply IH. apply astep_weight in Hs. lia.
Qed.

(** The invariant of a run. *)
Definition backup_inv (x : expected) (b : @backup W) : Prop :=
  match b with Running s f _ => expects s f x | Stopped _ (Panic _) => x = None | Stopped _ (Ok _) => False | Stopped _ (Err _) => True end.

Lemma astep_inv x b b' : astep_ b b' -> backup_inv x b -> backup_inv x b'.
Proof using Hmeta Hmeta_keeps.
  intros [s f left s' r Hs|s f left k b1 E|s f left] Hx; cbn in *; [|clear Hmeta Hmeta_keeps|done].
  - destruct (fstep_expects _ _ _ _ Hs _ Hx) as [_ Hr]. by destruct r as [[f' more]|e|p].
  - unfold save_left in E. destruct (left !! k) as [data|] eqn:Hk; [|done]. unfold saveBlob in E. destruct (Saver_SaveBlob DataBlob data s) as [s1 rs] eqn:Es.
    assert (keeps_saved s s1) as Hkeep by (intros t d; by eapply SaveBlob_keeps). pose proof (SaveBlob_safe s DataBlob data) as Hsafe. rewrite Es in Hsafe.
    destruct rs as [[[id known] size]|e|p]; injection E as <-; [|done|exfalso; apply Hsafe; by exists p]. cbn. by eapply expects_mono.
Qed.

Lemma backup_run x b b' : rtc astep_ b b' -> backup_inv x b -> backup_inv x b'.
Proof using Hmeta Hmeta_keeps. induction 1 as [|b1 b2 b3 Hs _ IH]; [done|]. intros Hx. by apply IH, (astep_inv _ b1). Qed.

(** No step loses a blob. *)
Lemma astep_keeps x s f chunks b :
  astep_ (Running s f chunks) b -> expects s f x -> match b with Running s' _ _ => keeps_saved s s' | Stopped _ _ => True end.
Proof using Hmeta Hmeta_keeps.
  intros Hs Hx. inversion Hs as [? ? ? s' r Hf|? ? ? k ? E|]; subst.
  - destruct (fstep_expects _ _ _ _ Hf _ Hx) as [Hk _]. by destruct r as [[f' more]|e|p].
  - clear Hmeta Hmeta_keeps. unfold save_left in E. destruct (chunks !! k) as [data|] eqn:Hk; [|done]. unfold saveBlob in E.
    destruct (Saver_SaveBlob DataBlob data s) as [s1 rs] eqn:Es. destruct rs as [[[id known] size]|e|p]; injection E as <-; [|done..].
    intros t d. by eapply SaveBlob_keeps.
  - done.
Qed.

Lemma backup_keeps x s f chunks b :
  rtc astep_ (Running s f chunks) b -> expects s f x -> match b with Running s' _ _ => keeps_saved s s' | Stopped _ _ => True end.
Proof using Hmeta Hmeta_keeps.
  intros Hrtc. remember (Running s f chunks) as b0 eqn:E. revert s f chunks E. induction Hrtc as [b|b0 b1 b2 Hs Hrtc IH]; intros s f chunks -> Hx; [by intros ? ?|].
  pose proof (astep_keeps _ _ _ _ _ Hs Hx) as Hk. pose proof (astep_inv _ _ _ Hs Hx) as Hi. destruct b1 as [s1 f1 chunks1|s1 r1].
  - specialize (IH _ _ _ eq_refl Hi). destruct b2 as [s2 f2 chunks2|]; [|done]. intros t d Hd. by apply IH, Hk.
  - inversion Hrtc as [|? ? ? Hs' _]; subst; [done|]. inversion Hs'.
Qed.

(** The schedule of [run_backup] is one of the runs. *)
Lemma fschedule_step f s s' r : fschedule NodeFromFileInfo Error WithAtime marshal Chunks s f = Some (s', r) -> fstep_ s f s' r.
Proof using Type.
  revert s s' r. induction f as [res|snPath target f fi|sv|j nodes IH] using future_rect'; intros s s' r E; cbn [fschedule] in E; [done|..].
  - destruct (start_file _ _ _ _ _ _ s) as [s1 res] eqn:Es. injection E as <- <-. by constructor.
  - destruct (sv_result sv) eqn:Er; [done|]. destruct (read_step sv) as [res|] eqn:Es.
    + injection E as <- <-. apply fs_file; [by left|by constructor].
    + destruct (save_step sv 0 s) as [[s1 res]|] eqn:Ess; [|done]. injection E as <- <-. apply fs_file; [by left|by eapply step_save].
  - destruct nodes as [|f nodes].
    + destruct (finish_tree j s) as [s1 res] eqn:Ef. injection E as <- <-. by apply fs_finish.
    + apply Forall_cons in IH as [IH _]. destruct (taken f) as [[res pending]|] eqn:Et; [injection E as <- <-; by apply fs_take|].
      destruct (fschedule _ _ _ _ _ s f) as [[s1 r1]|] eqn:Ef; [|done]. injection E as <- <-. by apply (fs_child _ _ _ _ _ j [] f nodes), IH.
Qed.

Lemma run_backup_rtc fuel b : rtc astep_ b (run_backup NodeFromFileInfo Error WithAtime marshal Chunks fuel b).
Proof using Type.
  revert b. induction fuel as [|fuel IH]; intros b; [apply rtc_refl|]. cbn [run_backup]. destruct b as [s f rest|]; [|apply rtc_refl].
  destruct (fschedule _ _ _ _ _ s f) as [[s1 r]|] eqn:Ef.
  - eapply rtc_l; [apply as_future; by apply fschedule_step|apply IH].
  - destruct (save_left s f rest 0) as [b|] eqn:El; [|apply rtc_refl]. eapply rtc_l; [by eapply as_left|apply IH].
Qed.
End Refines.

(** C12. Every run of the workers, of any number of them at a time, ends.  Until the root has
    its result some worker can go on,
    and that result is the one of [reference], which adds the nodes of a directory
    in order and knows no workers: whatever the schedule, the result has the same
    node or error, and every chunk and every tree it needs was saved.  When
    [reference] has a result nothing panics. *)
Theorem backup_refines {W : Type} `{SaverLaws W Hash} (NodeFromFileInfo : string -> OsFileInfo -> W -> W * (Node * option error)) (meta : string -> OsFileInfo -> Node * option error)
    (Error : option (string -> error -> option error)) (WithAtime : bool) (marshal : Node -> outcome (list byte))
    (Chunks : list byte * option error -> list (list byte) * option error) (s0 : W) (f0 : future)
    (Hmeta : forall filename fi s, (NodeFromFileInfo filename fi s).2 = meta filename fi)
    (Hmeta_keeps : forall filename fi s t d, Saved s t d -> Saved (NodeFromFileInfo filename fi s).1 t d)
    (Hwalked : walked f0 = true) (Hnull : chunks_not_null Hash Chunks f0) :
  let step := astep NodeFromFileInfo Error WithAtime marshal Chunks in
  Acc (fun b' b => step b b') (Running s0 f0 []) /\
  forall b, rtc step (Running s0 f0 []) b ->
    match b with
    | Running s f _ =>
        match taken f with
        | Some (res, _) => exists r needs, reference Hash meta Error WithAtime marshal Chunks f0 = Some (r, needs) /\ same_result res r /\
                             Forall (fun b => Saved s b.1 b.2) needs
        | None => exists s' r, fstep NodeFromFileInfo Error WithAtime marshal Chunks s f s' r
        end
    | Stopped _ (Panic _) => reference Hash meta Error WithAtime marshal Chunks f0 = None
    | Stopped _ (Err _) => True
    | Stopped _ (Ok _) => False
    end.
Proof.
  cbv zeta. split; [apply backup_ends|]. intros b Hrtc.
  pose proof (backup_run _ meta Error WithAtime marshal Chunks Hmeta Hmeta_keeps _ _ _ Hrtc (reference_expects meta Error WithAtime marshal Chunks s0 f0 Hwalked Hnull)) as Hi.
  destruct b as [s f chunks|s [r|e|p]]; try exact Hi.
  destruct (taken f) as [[res pending]|] eqn:Et; [by eapply taken_expects|].
  destruct (future_goes NodeFromFileInfo meta Error WithAtime marshal Chunks s f _ Hi) as [[y Hy]|Hgo]; [by rewrite Et in Hy|done].
Qed.

(** A directory with one file of two chunks. *)
Definition ex_marshal (n : Node) : outcome (list byte) := Ok (string_bytes (n_Name n)).
Definition ex_meta (filename : string) (fi : OsFileInfo) : Node * option error := (ex_new_node, None).
Definition ex_future : future := FTree (new_tree_job "/" "" zero_node) [FQueued "/f" "f" ex_file (mkOsFileInfo "f" 3 0 time_zero None)].

Lemma backup_refines_witness :
  let step := astep (H0 := ex_saver) (fun filename fi r => (r, ex_meta filename fi)) None false ex_marshal ex_chunks in
  exists s res, rtc step (Running [] ex_future []) (Running s (FResult res) []) /\
    Forall (fun b => b ∈ s) [(DataBlob, ["a"; "b"]%byte); (DataBlob, ["c"%byte])] /\ fnr_err res = None.
Proof.
  cbv zeta. destruct (run_backup (H0 := ex_saver) (fun filename fi r => (r, ex_meta filename fi)) None false ex_marshal ex_chunks 12 (Running [] ex_future [])) as [s [res| | |] [|]|] eqn:E;
    try (vm_compute in E; discriminate).
  exists s, res.
  assert (rtc (astep (H0 := ex_saver) (fun filename fi r => (r, ex_meta filename fi)) None false ex_marshal ex_chunks) (Running [] ex_future []) (Running s (FResult res) [])) as Hrtc.
  { rewrite <- E. apply run_backup_rtc. }
  split; [exact Hrtc|].
  destruct (backup_refines (H := ex_saver) (H0 := ex_saver_laws) (fun filename fi r => (r, ex_meta filename fi)) ex_meta None false ex_marshal ex_chunks [] ex_future
    (fun _ _ _ => eq_refl) (fun _ _ _ _ _ Hs => Hs) eq_refl) as [_ Hrun]; [by repeat constructor|].
  destruct (Hrun _ Hrtc) as (r & needs & Er & (_ & _ & _ & He) & Hneeds). vm_compute in Er. injection Er as <- <-. rewrite He.
  split; [|done]. apply Forall_cons in Hneeds as [_ Hneeds]. eapply Forall_impl; [exact Hneeds|]. intros [t data] Hb. exact Hb.
Defined.
