(* ===== verification/Backup.v ===== *)
(** What a backup records: a specification of the snapshot in terms of what the file
    system holds, and the proof that the archiver implements it.

    [on_disk] relates a path to the entry a snapshot has to have for it; it knows no
    workers, chunks or blobs.  [recorded] says that a node and the blobs below it that
    the repository holds stand for an entry. *)

From S2P Require Import Prelude Bytes GoString GoTime Restic Snapshot Tree FsPath Os NodeRestore FS ArchTree NodeStat FileSaver Archiver ArchiverFacts.

#[local] Open Scope Z_scope.

(** * Entries *)

(** A file that was read, one that has not changed since the parent snapshot, another
    item, or a directory with its entries. *)
Inductive entry :=
  | EFile (node : Node) (data : list byte)
  | EKept (node : Node) (content : option (list ID))
  | EOther (node : Node)
  | EDir (node : Node) (entries : list entry).

(** A file system, and a repository of old trees, that do not change during the backup:
    what a call returns does not depend on the state.  No call loses a blob. *)
Class StillDisk (W : Type) `{HFS : FS W} `{HL : SaverLaws W Hash} (NodeFromFileInfo : string -> OsFileInfo -> W -> W * (Node * option error))
    (LoadTree : ID -> W -> W * outcome Tree) (Has : BlobHandle -> W -> bool) := {
  disk_lstat : string -> outcome OsFileInfo;
  disk_stat : string -> outcome OsFileInfo;
  disk_open : string -> outcome File;
  disk_names : string -> outcome (list string);
  disk_meta : string -> OsFileInfo -> Node * option error;
  old_tree : ID -> outcome Tree;
  still_lstat p s : (fs_Lstat p s).2 = disk_lstat p;
  still_stat p s : (fs_Stat p s).2 = disk_stat p;
  still_open p s : (fs_OpenFile p (Z.lor O_RDONLY O_NOFOLLOW) s).2 = disk_open p;
  still_names p s : (readdirnames p O_NOFOLLOW s).2 = disk_names p;
  still_meta p fi s : (NodeFromFileInfo p fi s).2 = disk_meta p fi;
  still_tree id s : (LoadTree id s).2 = old_tree id;
  keeps_lstat p s : keeps_saved s (fs_Lstat p s).1;
  keeps_stat p s : keeps_saved s (fs_Stat p s).1;
  keeps_open p flags s : keeps_saved s (fs_OpenFile p flags s).1;
  keeps_meta p fi s : keeps_saved s (NodeFromFileInfo p fi s).1;
  keeps_tree id s : keeps_saved s (LoadTree id s).1;
  Has_saved id s : Has (mkBlobHandle id DataBlob) s = true -> exists data, Hash data = id /\ Saved s DataBlob data }.

Section Spec.
Context {W : Type} `{HFS : FS W} `{HL : SaverLaws W Hash} {NodeFromFileInfo : string -> OsFileInfo -> W -> W * (Node * option error)}
  {LoadTree : ID -> W -> W * outcome Tree} {Has : BlobHandle -> W -> bool} `{HD : !StillDisk W NodeFromFileInfo LoadTree Has}.
Context (SelectByName : string -> bool) (Select : string -> OsFileInfo -> bool) (WithAtime : bool) (ChangeIgnoreFlags : Z).

Abbreviation node_of := (arch_meta disk_meta WithAtime).

(** The tree of a directory in the parent snapshot. *)
Definition old_subtree (previous : option Node) : outcome (option Tree) :=
  match previous with
  | Some n =>
      match n_Subtree n with
      | Some id => if String.eqb (n_Type n) "dir" then match old_tree id with Ok t => Ok (Some t) | Err e => Err e | Panic p => Panic p end else Ok None
      | None => Ok None
      end
  | None => Ok None
  end.

Inductive on_disk : option Node -> string -> string -> option entry -> Prop :=
  | od_excluded_name previous snPath target abs :
      fs_Abs target = Ok abs -> SelectByName abs = false -> on_disk previous snPath target None
  | od_excluded previous snPath target abs fi :
      fs_Abs target = Ok abs -> SelectByName abs = true -> disk_lstat target = Ok fi -> Select abs fi = false -> on_disk previous snPath target None
  | od_socket previous snPath target abs fi :
      fs_Abs target = Ok abs -> SelectByName abs = true -> disk_lstat target = Ok fi -> Select abs fi = true ->
      IsRegularFile fi = false -> mode_IsDir (ofi_Mode fi) = false -> Z.land (ofi_Mode fi) ModeSocket <> 0 -> on_disk previous snPath target None
  | od_other previous snPath target abs fi node :
      fs_Abs target = Ok abs -> SelectByName abs = true -> disk_lstat target = Ok fi -> Select abs fi = true ->
      IsRegularFile fi = false -> mode_IsDir (ofi_Mode fi) = false -> Z.land (ofi_Mode fi) ModeSocket = 0 ->
      node_of snPath target fi = (node, None) -> on_disk previous snPath target (Some (EOther node))
  | od_kept previous old snPath target abs fi node :
      fs_Abs target = Ok abs -> SelectByName abs = true -> disk_lstat target = Ok fi -> Select abs fi = true -> IsRegularFile fi = true ->
      previous = Some old -> fileChanged fi old ChangeIgnoreFlags = Ok false ->
      node_of snPath target fi = (node, None) -> on_disk previous snPath target (Some (EKept node (n_Content old)))
  | od_file previous snPath target abs fi file fi' node data :
      fs_Abs target = Ok abs -> SelectByName abs = true -> disk_lstat target = Ok fi -> Select abs fi = true -> IsRegularFile fi = true ->
      match previous with Some old => fileChanged fi old ChangeIgnoreFlags = Ok true | None => True end ->
      disk_open target = Ok file -> file_Stat file = Ok fi' -> IsRegularFile fi' = true -> node_of snPath (file_Name file) fi' = (node, None) ->
      n_Type node = "file" -> file_Read file = (data, None) -> file_Close file = None -> on_disk previous snPath target (Some (EFile node data))
  | od_dir previous snPath target abs fi node old names entries :
      fs_Abs target = Ok abs -> SelectByName abs = true -> disk_lstat target = Ok fi -> Select abs fi = true ->
      IsRegularFile fi = false -> mode_IsDir (ofi_Mode fi) = true -> node_of snPath target fi = (node, None) ->
      disk_names target = Ok names -> old_subtree previous = Ok old ->
      Forall2 (fun name e => on_disk (Tree_Find old name) (path_Join [snPath; name]) (fs_Join [target; name]) e) (sort_Strings names) entries ->
      on_disk previous snPath target (Some (EDir node (omap id entries))).

(** The node of an intermediate directory of the targets. *)
Definition intermediate (snPath : string) (atree : ATree) (node : Node) : Prop :=
  if String.eqb snPath "/" then node = zero_node
  else at_FileInfoPath atree <> "" /\ exists fi, disk_stat (at_FileInfoPath atree) = Ok fi /\
    Z.land (ofi_Mode fi) (Z.lor ModeType ModeCharDevice) = ModeDir /\ node_of snPath (at_FileInfoPath atree) fi = (node, None).

(** The tree of the targets. *)
Inductive targets_on_disk : option Tree -> string -> ATree -> option entry -> Prop :=
  | td_tree old snPath atree node entries :
      intermediate snPath atree node ->
      Forall2 (fun name e => target_on_disk (Tree_Find old name) (path_Join [snPath; name]) (default emptyTree (get_name (at_Nodes atree) name)) e)
        (NodeNames atree) entries ->
      targets_on_disk old snPath atree (Some (EDir node (omap id entries)))
with target_on_disk : option Node -> string -> ATree -> option entry -> Prop :=
  | td_leaf previous snPath atree e : Leaf atree = true -> on_disk previous snPath (at_Path atree) e -> target_on_disk previous snPath atree e
  | td_node previous old snPath atree e :
      Leaf atree = false -> old_subtree previous = Ok old -> targets_on_disk old snPath atree e -> target_on_disk previous snPath atree e.

(** ** What the repository holds *)

Context (marshal : Node -> outcome (list byte)).

(** The bytes of the tree with these nodes. *)
Definition tree_bytes (nodes : list Node) (buf : list byte) : Prop :=
  exists b, add_nodes marshal nodes = Ok b /\ (Builder_Finalize b).2 = Ok buf.

Inductive recorded (s : W) : Node -> entry -> Prop :=
  | rec_file node chunks :
      Forall (Saved s DataBlob) chunks ->
      recorded s (set_Content (set_Size node (u64 (zlen (concat chunks)))) (Some (Hash <$> chunks))) (EFile node (concat chunks))
  | rec_kept node content :
      Forall (fun id => exists data, Hash data = id /\ Saved s DataBlob data) (default [] content) ->
      recorded s (set_Content node content) (EKept node content)
  | rec_other node : recorded s node (EOther node)
  | rec_dir node nodes entries buf :
      tree_bytes nodes buf -> Saved s TreeBlob buf -> Forall2 (recorded s) nodes entries ->
      recorded s (set_Subtree node (Some (Hash buf))) (EDir node entries).
End Spec.

(** * The archiver implements the specification *)

Lemma size_of_concat chunks : size_of chunks = u64 (zlen (concat chunks)).
Proof.
  induction chunks as [|c chunks IH] using rev_ind; [done|]. rewrite size_of_snoc, concat_app, zlen_app, IH. cbn. rewrite app_nil_r.
  unfold u64. by rewrite Zplus_mod_idemp_l.
Qed.

Section Implements.
Context {W : Type} `{HFS : FS W} `{HL : SaverLaws W Hash} {NodeFromFileInfo : string -> OsFileInfo -> W -> W * (Node * option error)}
  {LoadTree : ID -> W -> W * outcome Tree} {Has : BlobHandle -> W -> bool} `{HD : !StillDisk W NodeFromFileInfo LoadTree Has}.
Context (SelectByName : string -> bool) (Select : string -> OsFileInfo -> bool) (WithAtime : bool) (ChangeIgnoreFlags : Z).
Context (marshal : Node -> outcome (list byte)) (Chunks : list byte * option error -> list (list byte) * option error).
(** The chunks of a file that was read to its end are its content, and no content has
    the null ID as its hash.  The chunker returns no error of its own. *)
Context (Hchunks : forall data, concat (Chunks (data, None)).1 = data /\ (Chunks (data, None)).2 = None)
  (Herrors : forall data e, is_Some (Chunks (data, Some e)).2) (Hnull : forall c, Hash c <> nullID).

Abbreviation on_disk_ := (on_disk SelectByName Select WithAtime ChangeIgnoreFlags).
Abbreviation recorded_ := (recorded marshal).
Abbreviation reference_ := (reference Hash disk_meta None WithAtime marshal Chunks).
Abbreviation saved_all s l := (Forall (fun b : BlobType * list byte => Saved s b.1 b.2) l).
Abbreviation Save_ := (Save NodeFromFileInfo None SelectByName Select WithAtime ChangeIgnoreFlags LoadTree Has).

(** A future of the walk stands for an entry that satisfies [P]: its result, if it has
    one without an error, records the entry when the blobs it needs are saved. *)
Definition sees (s : W) (P : option entry -> Prop) (fn : option future) : Prop :=
  match fn with
  | None => P None
  | Some f =>
      walked f = true /\
      forall r needs, reference_ f = Some (r, needs) -> fnr_err r = None ->
        exists e n, P (Some e) /\ fnr_node r = Some n /\ forall s', keeps_saved s s' -> saved_all s' needs -> recorded_ s' n e
  end.

Lemma saved_refl (s : W) : keeps_saved s s.
Proof using Type. by intros t d. Qed.
Lemma saved_trans (s s' s'' : W) : keeps_saved s s' -> keeps_saved s' s'' -> keeps_saved s s''.
Proof using Type. intros H1 H2 t d Hs. by apply H2, H1. Qed.

Lemma sees_mono s s' P fn : keeps_saved s s' -> sees s P fn -> sees s' P fn.
Proof using Type.
  intros Hk. destruct fn as [f|]; [|done]. intros [Hw Hs]. split; [done|]. intros r needs Hr He. destruct (Hs r needs Hr He) as (e & n & HP & Hn & Hrec).
  exists e, n. split_and!; [done..|]. intros s'' Hk' Hsv. apply Hrec; [by eapply saved_trans|done].
Qed.

Lemma sees_impl s (P Q : option entry -> Prop) fn : (forall e, P e -> Q e) -> sees s P fn -> sees s Q fn.
Proof using Type.
  intros HPQ. destruct fn as [f|]; [|apply HPQ]. intros [Hw Hs]. split; [done|]. intros r needs Hr He. destruct (Hs r needs Hr He) as (e & n & HP & Hrest).
  exists e, n. split; [by apply HPQ|done].
Qed.

(** ** Directories *)

(** When no error is tolerated the nodes of the entries make a tree. *)
Lemma take_nodes_strict (rs : list futureNodeResult) j j' :
  ofold (take_node None marshal) j rs = Ok j' ->
  Forall (fun r => fnr_err r = None) rs /\ tj_snPath j' = tj_snPath j /\ tj_target j' = tj_target j /\ tj_node j' = tj_node j /\
  ofold (fun b node => let '(b, r) := AddNode marshal b node in try _ <- r; Ok b) (tj_builder j) (omap fnr_node rs) = Ok (tj_builder j').
Proof using Type.
  revert j. induction rs as [|r rs IH]; intros j E; [injection E as <-; by repeat constructor|].
  cbn [ofold] in E. apply bind_Ok in E as (j1 & E1 & E). destruct (IH _ E) as (HF & -> & -> & -> & Hb). clear IH E. unfold take_node, errFn in E1.
  destruct (fnr_err r) as [e|] eqn:Er; [done|]. cbn [omap list_omap]. destruct (fnr_node r) as [node|].
  - destruct (AddNode marshal (tj_builder j) node) as [b [[]|e|p]] eqn:Ea; [|by destruct (_ && _)|done]. injection E1 as <-.
    split; [by constructor|]. split_and!; [done..|]. cbn [ofold]. rewrite Ea. exact Hb.
  - injection E1 as <-. by repeat constructor.
Qed.

Lemma sees_all s Ps fns :
  Forall2 (sees s) Ps fns -> forall l, Forall2 (fun f x => reference_ f = Some x) (omap id fns) l -> Forall (fun r => fnr_err r = None) l.*1 ->
  exists es, Forall2 (fun (P : option entry -> Prop) e => P e) Ps es /\
    forall s', keeps_saved s s' -> saved_all s' (concat l.*2) -> Forall2 (recorded_ s') (omap fnr_node l.*1) (omap id es).
Proof using Type.
  induction 1 as [|P fn Ps fns Hs HF IH]; intros l Hl He.
  - apply Forall2_nil_inv_l in Hl as ->. exists []. by split; [|constructor].
  - destruct fn as [f|]; cbn [omap list_omap id] in Hl.
    + apply Forall2_cons_inv_l in Hl as ([r needs] & l' & Hr & Hl & ->). cbn [fmap list_fmap] in He. apply Forall_cons in He as [He1 He].
      destruct (IH l' Hl He) as (es & Hes & Hrec). destruct Hs as [_ Hs]. destruct (Hs r needs Hr He1) as (e & n & HP & Hn & Hrec1).
      exists (Some e :: es). split; [by constructor|]. intros s' Hk Hsv. cbn in Hsv. apply Forall_app in Hsv as [Hsv1 Hsv].
      cbn. rewrite Hn. constructor; [by apply Hrec1|by apply Hrec].
    + destruct (IH l Hl He) as (es & Hes & Hrec). exists (None :: es). by split; [constructor|].
Qed.

(** A directory whose entries are seen. *)
Lemma sees_tree s snPath target node Ps fns :
  Forall2 (sees s) Ps fns ->
  sees s (fun e => exists es, Forall2 (fun (P : option entry -> Prop) e => P e) Ps es /\ e = Some (EDir node (omap id es))) (Some (FTree (new_tree_job snPath target node) (omap id fns))).
Proof using Type.
  intros HF. split.
  - cbn. induction HF as [|P [f|] Ps fns Hs HF IH]; cbn; [done|by destruct Hs as [-> _]|done].
  - intros r needs Hr _. cbn [reference] in Hr. unfold tree_expected in Hr. destruct (mapM id _) as [l|] eqn:El; [|done].
    apply mapM_Some in El. apply Forall2_fmap_l in El. destruct (ofold _ _ _) as [j| |] eqn:Ej; [|done..].
    destruct (take_nodes_strict _ _ _ Ej) as (He & Hsn & Ht & Hn & Hb). destruct (Builder_Finalize (tj_builder j)).2 as [buf| |] eqn:Ebuf; [|done..].
    injection Hr as <- <-. destruct (sees_all s Ps fns HF l El He) as (es & Hes & Hrec). exists (EDir node (omap id es)). eexists.
    split; [by exists es|]. split; [done|]. intros s' Hk Hsv. apply Forall_cons in Hsv as [Htree Hsv]. cbn in Htree. rewrite Hn. cbn [new_tree_job tj_node].
    apply rec_dir with (nodes := omap fnr_node l.*1); [|done|by apply Hrec]. by exists (tj_builder j).
Qed.

(** ** Files *)

Lemma node_still snPath filename fi s :
  exists s', nodeFromFileInfo NodeFromFileInfo WithAtime snPath filename fi s = (s', arch_meta disk_meta WithAtime snPath filename fi) /\ keeps_saved s s'.
Proof using Type.
  unfold nodeFromFileInfo, arch_meta. pose proof (still_meta filename fi s) as Hm. pose proof (keeps_meta filename fi s) as Hk.
  destruct (NodeFromFileInfo filename fi s) as [s' [node err]]. cbn [fst snd] in *. rewrite <- Hm. by exists s'.
Qed.

Lemma sees_node s snPath target node e n :
  (forall s', keeps_saved s s' -> recorded_ s' n e) -> forall P : option entry -> Prop, P (Some e) -> node = n -> sees s P (Some (result_node snPath target node)).
Proof using Type.
  intros Hrec P HP ->. split; [done|]. intros r needs [= <- <-] _. exists e, n. split_and!; [done..|]. intros s' Hk _. by apply Hrec.
Qed.

(** A file that is read. *)
Lemma sees_queued s snPath target file fi (P : option entry -> Prop) :
  (forall node data, arch_meta disk_meta WithAtime snPath (file_Name file) fi = (node, None) -> n_Type node = "file" -> file_Read file = (data, None) ->
    file_Close file = None -> P (Some (EFile node data))) ->
  sees s P (Some (FQueued snPath target file fi)).
Proof using Hchunks Herrors.
  intros HP. split; [done|]. intros r needs Hr He. cbn [reference] in Hr. unfold queued_expected in Hr.
  destruct (arch_meta disk_meta WithAtime snPath (file_Name file) fi) as [node [e|]] eqn:Em; [by injection Hr as <- <-|].
  destruct (String.eqb_spec (n_Type node) "file") as [Et|?]; [|by injection Hr as <- <-]. cbn [negb] in Hr. unfold file_expected in Hr.
  destruct (file_Read file) as [data [e|]] eqn:Ed.
  { destruct (Herrors data e) as [e' Ee]. rewrite Ee in Hr. by injection Hr as <- <-. }
  destruct (Hchunks data) as [Hc Hnone]. rewrite Hnone in Hr. destruct (file_Close file) as [e|] eqn:Ec; [by injection Hr as <- <-|]. injection Hr as <- <-.
  eexists _, _. split; [by apply (HP node data)|]. split; [done|]. intros s' Hk Hsv. apply Forall_fmap in Hsv. unfold file_node. rewrite size_of_concat.
  rewrite <- Hc at 3. by apply rec_file.
Qed.

Lemma save_changed_sees previous snPath target abs fi s s' fn :
  fs_Abs target = Ok abs -> SelectByName abs = true -> disk_lstat target = Ok fi -> Select abs fi = true -> IsRegularFile fi = true ->
  match previous with Some old => fileChanged fi old ChangeIgnoreFlags = Ok true | None => True end ->
  save_changed None snPath target abs s = (s', Ok fn) -> keeps_saved s s' /\ sees s' (on_disk_ previous snPath target) fn.
Proof using Hchunks Herrors.
  intros Ha Hn Hl Hs Hreg Hch E. unfold save_changed in E. pose proof (still_open target s) as Ho. pose proof (keeps_open target (Z.lor O_RDONLY O_NOFOLLOW) s) as Hk.
  destruct (fs_OpenFile _ _ s) as [s1 file]. cbn [fst snd] in *. injection E as <- E. split; [done|].
  destruct file as [file|e|p]; [|done|done]. destruct (file_Stat file) as [fi'|e|p] eqn:Ef; [|done|done].
  destruct (IsRegularFile fi') eqn:Er; [|done]. cbn in E. injection E as <-. apply sees_queued. intros. by eapply od_file.
Qed.

Lemma save_regular_sees previous snPath target abs fi s s' fn :
  fs_Abs target = Ok abs -> SelectByName abs = true -> disk_lstat target = Ok fi -> Select abs fi = true -> IsRegularFile fi = true ->
  save_regular NodeFromFileInfo None WithAtime ChangeIgnoreFlags Has snPath target abs fi previous s = (s', Ok fn) ->
  keeps_saved s s' /\ sees s' (on_disk_ previous snPath target) fn.
Proof using Hchunks Herrors.
  intros Ha Hn Hl Hs Hreg E. destruct previous as [old|]; cbn [save_regular] in E; [|by eapply save_changed_sees].
  destruct (fileChanged fi old ChangeIgnoreFlags) as [[]|e|p] eqn:Ec; [by eapply save_changed_sees| |done|done].
  destruct (allBlobsPresent Has old s) eqn:Eb; [|done]. destruct (node_still snPath target fi s) as (s1 & En & Hk). rewrite En in E.
  destruct (arch_meta disk_meta WithAtime snPath target fi) as [node [e|]] eqn:Em; [done|]. injection E as <- <-. split; [done|].
  eapply sees_node with (e := EKept node (n_Content old)); [|by eapply od_kept|reflexivity]. intros s' Hk'. apply rec_kept.
  apply Forall_forall. intros id Hin. unfold allBlobsPresent in Eb. rewrite forallb_forall in Eb. specialize (Eb id). rewrite <- list_elem_of_In in Eb.
  destruct (Has_saved id s (Eb Hin)) as (data & Hh & Hsv). exists data. split; [done|]. by apply Hk', Hk.
Qed.

(** ** The walk *)

Lemma loadSubtree_still previous s :
  exists s' r, loadSubtree LoadTree Has previous s = (s', r) /\ keeps_saved s s' /\ forall old, r = Ok old -> old_subtree previous = Ok old.
Proof using Type.
  unfold loadSubtree, old_subtree. destruct previous as [n|]; [|by do 2 eexists; split_and!; [done|by intros ? ?|]].
  destruct (n_Subtree n) as [id|]; [|by do 2 eexists; split_and!; [done|by intros ? ?|]].
  destruct (String.eqb _ _); [|by do 2 eexists; split_and!; [done|by intros ? ?|]].
  pose proof (still_tree id s) as Ht. pose proof (keeps_tree id s) as Hk. destruct (LoadTree id s) as [s' [t|e|p]]; cbn [fst snd] in *; rewrite <- Ht;
    do 2 eexists; (split_and!; [done|done|]); by intros old.
Qed.

Definition sees_save (save : string -> string -> option Node -> W -> W * outcome (option future)) : Prop :=
  forall snPath target previous s s' fn, save snPath target previous s = (s', Ok fn) -> keeps_saved s s' /\ sees s' (on_disk_ previous snPath target) fn.

Lemma save_names_sees save snPath dir old names s s' nodes :
  sees_save save -> save_names None save snPath dir old names s = (s', Ok nodes) ->
  keeps_saved s s' /\ exists fns, nodes = omap id fns /\
    Forall2 (sees s') ((fun name => on_disk_ (Tree_Find old name) (path_Join [snPath; name]) (fs_Join [dir; name])) <$> names) fns.
Proof using Type.
  intros Hsave. revert s nodes. induction names as [|name names IH]; intros s nodes E; cbn [save_names] in E.
  - injection E as <- <-. split; [by intros ? ?|]. exists []. by split; [|constructor].
  - destruct (save _ _ _ s) as [s1 r] eqn:Es. destruct r as [fn|e|p]; [|done|done].
    destruct (Hsave _ _ _ _ _ _ Es) as [Hk1 Hs1]. destruct (save_names _ _ _ _ _ _ s1) as [s2 r] eqn:En. injection E as <- E.
    destruct r as [nodes'|e|p]; [|done..]. injection E as <-. destruct (IH _ _ En) as (Hk2 & fns & -> & HF).
    split; [by eapply saved_trans|]. exists (fn :: fns). split; [by destruct fn|]. constructor; [by eapply sees_mono|done].
Qed.

Lemma SaveDir_sees save previous snPath target abs fi old s s' f :
  fs_Abs target = Ok abs -> SelectByName abs = true -> disk_lstat target = Ok fi -> Select abs fi = true -> IsRegularFile fi = false ->
  mode_IsDir (ofi_Mode fi) = true -> old_subtree previous = Ok old ->
  sees_save save -> SaveDir_with NodeFromFileInfo None WithAtime save snPath target fi old s = (s', Ok f) ->
  keeps_saved s s' /\ sees s' (on_disk_ previous snPath target) (Some f).
Proof using Type.
  intros Ha Hn Hl Hs Hreg Hdir Hold Hsave E. unfold SaveDir_with in E. destruct (node_still snPath target fi s) as (s1 & En & Hk1). rewrite En in E.
  destruct (arch_meta disk_meta WithAtime snPath target fi) as [node [e|]] eqn:Em; [done|].
  pose proof (still_names target s1) as Hnames. assert (keeps_saved s1 (readdirnames target O_NOFOLLOW s1).1) as Hk2.
  { unfold readdirnames. pose proof (keeps_open target (Z.lor O_RDONLY O_NOFOLLOW) s1) as Hk. by destruct (fs_OpenFile _ _ s1). }
  destruct (readdirnames target O_NOFOLLOW s1) as [s2 names]. cbn [fst snd] in *. destruct names as [names|e|p]; [|done..].
  destruct (save_names _ _ _ _ _ _ s2) as [s3 r] eqn:Es. injection E as <- E. destruct r as [nodes|e|p]; [|done..]. injection E as <-.
  destruct (save_names_sees _ _ _ _ _ _ _ _ Hsave Es) as (Hk3 & fns & -> & HF).
  split; [by eapply saved_trans; [|eapply saved_trans]|]. eapply sees_impl; [|by apply sees_tree]. intros e (es & HF' & ->).
  eapply od_dir; try done. by apply Forall2_fmap_l in HF'.
Qed.

Lemma Save_sees fuel : sees_save (Save_ fuel).
Proof using Hchunks Herrors.
  induction fuel as [|fuel IH]; intros snPath target previous s s' fn E; cbn [Save] in E; [done|].
  destruct (fs_Abs target) as [abs|e|p] eqn:Ha; [|done..]. destruct (SelectByName abs) eqn:Hn; cbn [negb] in E.
  2: { injection E as <- <-. split; [by intros ? ?|by eapply od_excluded_name]. }
  pose proof (still_lstat target s) as Hl. pose proof (keeps_lstat target s) as Hk1. destruct (fs_Lstat target s) as [s1 fi]. cbn [fst snd] in *.
  destruct fi as [fi|e|p]; [|done|done]. destruct (Select abs fi) eqn:Hs; cbn [negb] in E.
  2: { injection E as <- <-. split; [done|by eapply od_excluded]. }
  destruct (IsRegularFile fi) eqn:Hreg.
  { destruct (save_regular_sees _ _ _ _ _ _ _ _ Ha Hn (eq_sym Hl) Hs Hreg E) as [Hk Hsee]. split; [by eapply saved_trans|done]. }
  destruct (mode_IsDir (ofi_Mode fi)) eqn:Hdir.
  { destruct (loadSubtree_still previous s1) as (s2 & r & El & Hk2 & Hold). rewrite El in E. destruct r as [old|e|p]; [|done|done].
    destruct (SaveDir_with _ _ _ _ _ _ _ _ s2) as [s3 r] eqn:Ed. destruct r as [f|e|p]; [|done..]. injection E as <- <-.
    destruct (SaveDir_sees _ _ _ _ _ _ _ _ _ _ Ha Hn (eq_sym Hl) Hs Hreg Hdir (Hold _ eq_refl) IH Ed) as [Hk3 Hsee].
    split; [|done]. by eapply saved_trans; [|eapply saved_trans]. }
  destruct (Z.eqb_spec (Z.land (ofi_Mode fi) ModeSocket) 0) as [Hsock|Hsock]; cbn [negb] in E.
  - destruct (node_still snPath target fi s1) as (s2 & En & Hk2). rewrite En in E.
    destruct (arch_meta disk_meta WithAtime snPath target fi) as [node [e|]] eqn:Em; [done|]. injection E as <- <-. split; [by eapply saved_trans|].
    eapply sees_node with (e := EOther node); [|by eapply od_other|reflexivity]. intros s' _. apply rec_other.
  - injection E as <- <-. split; [done|by eapply od_socket].
Qed.
(** ** The targets *)

Abbreviation SaveTree_ := (Archiver_SaveTree NodeFromFileInfo None SelectByName Select WithAtime ChangeIgnoreFlags LoadTree Has).
Abbreviation targets_on_disk_ := (targets_on_disk SelectByName Select WithAtime ChangeIgnoreFlags).
Abbreviation target_on_disk_ := (target_on_disk SelectByName Select WithAtime ChangeIgnoreFlags).

Lemma tree_node_still snPath atree s s' node :
  tree_node NodeFromFileInfo WithAtime snPath atree s = (s', Ok node) -> keeps_saved s s' /\ intermediate WithAtime snPath atree node.
Proof using Type.
  unfold tree_node, intermediate. destruct (String.eqb snPath "/"); [intros [= <- <-]; split; [by intros ? ?|done]|].
  destruct (String.eqb_spec (at_FileInfoPath atree) ""); [done|]. unfold statDir.
  pose proof (still_stat (at_FileInfoPath atree) s) as Hs. pose proof (keeps_stat (at_FileInfoPath atree) s) as Hk1.
  destruct (fs_Stat _ s) as [s1 [fi|e|p]]; cbn [fst snd] in *; [|done..]. destruct (Z.eqb_spec (Z.land (ofi_Mode fi) (Z.lor ModeType ModeCharDevice)) ModeDir); [|done].
  destruct (node_still snPath (at_FileInfoPath atree) fi s1) as (s2 & En & Hk2). rewrite En.
  destruct (arch_meta disk_meta WithAtime _ _ fi) as [n' [e'|]] eqn:Em; [done|]. intros [= <- <-]. split; [by eapply saved_trans|]. split; [done|]. by exists fi.
Qed.

Lemma save_tree_nodes_sees depth save_tree snPath atree old names s s' nodes :
  (forall snPath atree old s s' f n, save_tree snPath atree old s = (s', Ok (f, n)) -> keeps_saved s s' /\ sees s' (targets_on_disk_ old snPath atree) (Some f)) ->
  save_tree_nodes None LoadTree Has (Save_ depth) save_tree snPath atree old names s = (s', Ok nodes) ->
  keeps_saved s s' /\ exists fns, nodes = omap id fns /\
    Forall2 (sees s') ((fun name => target_on_disk_ (Tree_Find old name) (path_Join [snPath; name]) (default emptyTree (get_name (at_Nodes atree) name))) <$> names) fns.
Proof using Hchunks Herrors.
  intros Htree. revert s nodes. induction names as [|name names IH]; intros s nodes E; cbn [save_tree_nodes] in E.
  - injection E as <- <-. split; [by intros ? ?|]. exists []. by split; [|constructor].
  - set (sub := default emptyTree (get_name (at_Nodes atree) name)) in *.
    match type of E with (let '(_, _) := ?x in _) = _ => destruct x as [s1 fn] eqn:E1 end. destruct fn as [fn|e|p]; [|done..].
    assert (keeps_saved s s1 /\ sees s1 (target_on_disk_ (Tree_Find old name) (path_Join [snPath; name]) sub) fn) as [Hk1 Hs1].
    { destruct (Leaf sub) eqn:Hleaf.
      - destruct (Save_ depth _ _ _ s) as [s2 r] eqn:Es. injection E1 as -> E1. destruct r as [fn'|e|p]; [|done|done]. injection E1 as <-.
        destruct (Save_sees _ _ _ _ _ _ _ Es) as [Hk Hsee]. split; [done|]. eapply sees_impl; [|exact Hsee]. intros e. by apply td_leaf.
      - destruct (loadSubtree_still (Tree_Find old name) s) as (s2 & r & El & Hk & Hold). rewrite El in E1. destruct r as [old'|e|p]; [|done|done].
        destruct (save_tree _ _ _ s2) as [s3 r] eqn:Et. injection E1 as -> E1. destruct r as [[f n]|e|p]; [|done..]. injection E1 as <-.
        destruct (Htree _ _ _ _ _ _ _ Et) as [Hk' Hsee]. split; [by eapply saved_trans|]. eapply sees_impl; [|exact Hsee]. intros e. by apply td_node, Hold. }
    destruct (save_tree_nodes _ _ _ _ _ _ _ _ _ s1) as [s2 r] eqn:En. injection E as <- E.
    destruct r as [nodes'|e|p]; [|done..]. injection E as <-. destruct (IH _ _ En) as (Hk2 & fns & -> & HF).
    split; [by eapply saved_trans|]. exists (fn :: fns). split; [by destruct fn|]. constructor; [by eapply sees_mono|done].
Qed.

Lemma SaveTree_sees depth fuel snPath atree old s s' f n :
  SaveTree_ depth fuel snPath atree old s = (s', Ok (f, n)) -> keeps_saved s s' /\ sees s' (targets_on_disk_ old snPath atree) (Some f).
Proof using Hchunks Herrors.
  revert snPath atree old s s' f n. induction fuel as [|fuel IH]; intros snPath atree old s s' f n E; [done|]. cbn [Archiver_SaveTree] in E.
  destruct (tree_node _ _ _ _ s) as [s1 [node|e|p]] eqn:En; [|done..]. apply tree_node_still in En as [Hk1 Hi].
  destruct (save_tree_nodes _ _ _ _ _ _ _ _ _ s1) as [s2 r] eqn:Es. injection E as <- E. destruct r as [nodes|e|p]; [|done..]. injection E as <- <-.
  destruct (save_tree_nodes_sees _ _ _ _ _ _ _ _ _ IH Es) as (Hk2 & fns & -> & HF). split; [by eapply saved_trans|].
  eapply sees_impl; [|by apply sees_tree]. intros e (es & HF' & ->). apply td_tree; [done|]. by apply Forall2_fmap_l in HF'.
Qed.

Lemma chunks_never_null f : chunks_not_null Hash Chunks f.
Proof using Hnull.
  induction f as [r|snPath target f fi|sv|j nodes IH] using future_rect'; cbn; [done| |done|].
  - apply Forall_forall. intros c _. apply Hnull.
  - induction IH as [|f nodes Hf _ IH]; [done|]. by split.
Qed.
End Implements.

(** The tree of the parent snapshot: one that does not load is not used. *)
Definition parent_tree {W} `{HD : StillDisk W} (parent : option Snapshot) : option Tree :=
  match parent with
  | Some sn => match sn_Tree sn with Some id => match old_tree id with Ok t => Some t | _ => None end | None => None end
  | None => None
  end.

(** C2. A snapshot is what was on the disk.  When no error is tolerated and the workers
    save a snapshot, whatever their schedule, there is a root node whose tree is the one
    of the snapshot, and the repository holds, below it, exactly the entries that the
    file system holds below the targets and that are selected: the metadata of each,
    the whole content of each file that was read (the chunks of a file that has not
    changed since the parent snapshot are those of its old node), and the sorted tree
    of each directory. *)
Theorem Snapshot_records {W : Type} `{HFS : FS W} `{HL : SaverLaws W Hash} (NodeFromFileInfo : string -> OsFileInfo -> W -> W * (Node * option error))
    (LoadTree : ID -> W -> W * outcome Tree) (Has : BlobHandle -> W -> bool) `{HD : !StillDisk W NodeFromFileInfo LoadTree Has}
    (SelectByName : string -> bool) (Select : string -> OsFileInfo -> bool) (WithAtime : bool) (ChangeIgnoreFlags : Z)
    (marshal : Node -> outcome (list byte)) (Chunks : list byte * option error -> list (list byte) * option error)
    (Getwd : outcome string) (user_Current : option (string * outcome (Z * Z))) (Flush : W -> W * outcome unit) (SaveSnapshot : Snapshot -> W -> W * outcome ID)
    (Hchunks : forall data, concat (Chunks (data, None)).1 = data /\ (Chunks (data, None)).2 = None)
    (Herrors : forall data e, is_Some (Chunks (data, Some e)).2) (Hnull : forall c, Hash c <> nullID)
    (Hflush : forall s, keeps_saved s (Flush s).1) (Hsnap : forall sn s, keeps_saved s (SaveSnapshot sn s).1)
    (depth : nat) (targets : list string) (opts : SnapshotOptions) (s s' : W) (sn : Snapshot) (id : ID)
    (Hrun : Archiver_Snapshot NodeFromFileInfo None SelectByName Select WithAtime ChangeIgnoreFlags LoadTree Has marshal Chunks Getwd user_Current Flush SaveSnapshot
              depth targets opts s s' (Ok (sn, id))) :
  exists s1 s2 clean atree e root node,
    resolveRelativeTargets targets s = (s1, Ok clean) /\ NewTree clean s1 = (s2, Ok atree) /\
    targets_on_disk SelectByName Select WithAtime ChangeIgnoreFlags (parent_tree (so_ParentSnapshot opts)) "/" atree (Some e) /\
    recorded marshal s' node e /\ n_Subtree node = Some root /\ sn_Tree sn = Some root /\
    exists s3, SaveSnapshot sn s3 = (s', Ok id).
Proof.
  unfold Archiver_Snapshot, start_snapshot in Hrun.
  destruct (resolveRelativeTargets targets s) as [s1 [clean|e|p]] eqn:E1; [|by destruct Hrun..].
  destruct (NewTree clean s1) as [s2 [atree|e|p]] eqn:E2; [|by destruct Hrun..].
  destruct (loadParentTree LoadTree (so_ParentSnapshot opts) s2) as [s3 [old|e|p]] eqn:E3; [|by destruct Hrun..].
  destruct (Archiver_SaveTree _ _ _ _ _ _ _ _ _ _ _ _ _ s3) as [s4 [[f n]|e|p]] eqn:E4; [|by destruct Hrun..].
  assert (old = parent_tree (so_ParentSnapshot opts)) as ->.
  { unfold loadParentTree in E3. unfold parent_tree. destruct (so_ParentSnapshot opts) as [sn0|]; [|by injection E3 as _ <-]. destruct (sn_Tree sn0) as [id0|]; [|by injection E3 as _ <-].
    pose proof (still_tree id0 s2) as Ht. destruct (LoadTree id0 s2) as [s5 [t|e|p]]; cbn [snd] in Ht; rewrite <- Ht; [by injection E3 as _ <-..|done]. }
  destruct (SaveTree_sees SelectByName Select WithAtime ChangeIgnoreFlags marshal Chunks Hchunks Herrors _ _ _ _ _ _ _ _ _ E4) as [_ [Hw Hsee]].
  pose proof (reference_expects disk_meta None WithAtime marshal Chunks s4 f Hw (chunks_never_null Chunks Hnull f)) as Hx.
  pose proof (fun fn fi s t d => keeps_meta fn fi s t d) as Hmk.
  destruct Hrun as [(s5 & res & Hrtc & Hend)|Hrtc]; pose proof (backup_run _ disk_meta None WithAtime marshal Chunks still_meta Hmk _ _ _ Hrtc Hx) as Hi; [|by destruct Hi].
  pose proof (backup_keeps _ disk_meta None WithAtime marshal Chunks still_meta Hmk _ _ _ _ _ Hrtc Hx) as Hk. cbn in Hk.
  destruct (taken_expects _ _ _ _ _ _ _ _ _ _ Hi eq_refl) as (r & needs & Er & (_ & _ & Hn & Herr) & Hsaved).
  unfold end_snapshot in Hend. rewrite Hn, Herr in Hend. destruct (fnr_err r) as [e|] eqn:Ee; [done|]. destruct (Hsee r needs Er Ee) as (e & node & He & Hnode & Hrec).
  rewrite Hnode in Hend. destruct (Nat.eqb n 0); [done|]. destruct (n_Subtree node) as [root|] eqn:Eroot; [|done].
  pose proof (Hflush s5) as Hk2. destruct (Flush s5) as [s6 [[]|e'|p]]; [|done..]. cbn [fst] in Hk2.
  destruct (NewSnapshot _ _ _ _ _) as [sn'|e'|p]; [|done..]. destruct (SaveSnapshot _ s6) as [s7 rid] eqn:Es. injection Hend as <- Hend.
  destruct rid as [id'|e'|p]; [|done..]. injection Hend as <- <-. pose proof (Hsnap (finish_snapshot opts root sn') s6) as Hk3. rewrite Es in Hk3. cbn [fst] in Hk3.
  exists s1, s2, clean, atree, e, root, node. split_and!; [done|done|exact He| |done|done|by exists s6].
  apply Hrec; [by eapply saved_trans; [|eapply saved_trans]|]. eapply Forall_impl; [exact Hsaved|]. intros b Hb. by apply Hk3, Hk2.
Qed.

(** A directory with a file and a symbolic link, in a repository that is a list. *)
Abbreviation ex_repo := (list (BlobType * list byte)).
Definition ex_disk_lstat (p : string) : outcome OsFileInfo :=
  if String.eqb p "/d" then Ok (mkOsFileInfo "d" 0 (Z.lor ModeDir 493) time_zero None)
  else if String.eqb p "/d/f" then Ok (mkOsFileInfo "f" 3 420 time_zero None)
  else if String.eqb p "/d/l" then Ok (mkOsFileInfo "l" 0 (Z.lor ModeSymlink 511) time_zero None)
  else Err (ErrMsg "no such file or directory").
Definition ex_disk_open (p : string) : outcome File :=
  try fi <- ex_disk_lstat p;
  Ok (mkFile (ofi_Name fi) (Ok fi) (if String.eqb p "/d" then Ok ["l"; "f"] else Err (ErrMsg "not a directory")) (["a"; "b"; "c"]%byte, None) None).
Definition ex_disk_fs : FS ex_repo := Local (fun p _ s => (s, ex_disk_open p)) (fun p s => (s, ex_disk_lstat p)) (fun p s => (s, ex_disk_lstat p)) (Ok "/").
Definition ex_disk_meta (p : string) (fi : OsFileInfo) : Node * option error :=
  (mkNode "" (nodeTypeFromFileInfo (ofi_Mode fi)) (ofi_Mode fi) time_zero time_zero time_zero 0 0 "" "" 0 0 (ofi_Size fi) 1 "" [] 0 None None "" "", None).
Definition ex_no_tree (id : ID) (s : ex_repo) : ex_repo * outcome Tree := (s, Err (ErrMsg "tree is not known")).

Lemma ex_disk : StillDisk (HFS := ex_disk_fs) (HL := ex_saver_laws) ex_repo (fun p fi s => (s, ex_disk_meta p fi)) ex_no_tree (fun _ _ => false).
Proof.
  refine {| disk_lstat := ex_disk_lstat; disk_stat := ex_disk_lstat; disk_open := ex_disk_open;
    disk_names := fun p => (readdirnames (H := ex_disk_fs) p O_NOFOLLOW []).2;
    disk_meta := ex_disk_meta; old_tree := fun _ => Err (ErrMsg "tree is not known") |}; try done; by intros ? ? ? ?.
Defined.

Abbreviation ex_node_from := (fun (p : string) (fi : OsFileInfo) (s : ex_repo) => (s, ex_disk_meta p fi)).
Abbreviation ex_node_json := (fun n : Node => Ok (string_bytes (n_Name n))).
Definition ex_options : SnapshotOptions := mkSnapshotOptions [] "host" [] time_zero None "restic".
Definition ex_snapshot : ex_repo -> outcome (Snapshot * ID) -> Prop :=
  Archiver_Snapshot (H := ex_disk_fs) (H0 := ex_saver) ex_node_from None (fun _ => true) (fun _ _ => true) false 0 ex_no_tree (fun _ _ => false)
    ex_node_json ex_chunks (Ok "/") None (fun s => (s, Ok tt)) (fun sn s => (s, Ok (ex_archive_hash []))) 5 ["/d"] ex_options [].

(** Its run, one file after the other. *)
Definition ex_start : ex_repo * outcome (future * nat) :=
  start_snapshot (H := ex_disk_fs) ex_node_from None (fun _ => true) (fun _ _ => true) false 0 ex_no_tree (fun _ _ => false) 5 ["/d"] ex_options [].
Definition ex_run : backup :=
  match ex_start with
  | (s, Ok (f, _)) => run_backup (H0 := ex_saver) ex_node_from None false ex_node_json ex_chunks 30 (Running s f [])
  | (s, _) => Stopped s (Err (ErrMsg "walk"))
  end.

Lemma ex_snapshot_runs : exists s sn id, ex_snapshot s (Ok (sn, id)) /\ (DataBlob, ["a"; "b"]%byte) ∈ s.
Proof.
  destruct ex_start as [s0 [[f n]|e|p]] eqn:E0; [|vm_compute in E0; discriminate..].
  destruct ex_run as [s1 [res| | |] [|]|] eqn:E1; try (vm_compute in E1; discriminate).
  assert ((DataBlob, ["a"; "b"]%byte) ∈ s1) as Hin by (vm_compute in E1; injection E1 as <- _; set_solver).
  destruct (end_snapshot (Ok "/") None (fun s : ex_repo => (s, Ok tt)) (fun sn s => (s, Ok (ex_archive_hash []))) ["/d"] ex_options n res s1) as [s2 [[sn id]|e|p]] eqn:E2;
    [|vm_compute in E0, E1; injection E0 as _ _ <-; injection E1 as <- <-; vm_compute in E2; discriminate..].
  assert (s2 = s1) as ->.
  { clear E0 Hin. revert E2. unfold end_snapshot. repeat case_match; intros [= <- _]; try done; by simplify_eq. }
  exists s1, sn, id. split; [|done]. unfold ex_snapshot, Archiver_Snapshot. unfold ex_run in E1. fold ex_start. rewrite E0 in E1 |- *. left. exists s1, res. split; [|done].
  rewrite <- E1. apply run_backup_rtc.
Qed.

Lemma Snapshot_records_witness :
  exists s sn id node e, ex_snapshot s (Ok (sn, id)) /\ recorded (HL := ex_saver_laws) ex_node_json s node e /\ n_Subtree node = sn_Tree sn /\ sn_Tree sn <> None /\
    (DataBlob, ["a"; "b"]%byte) ∈ s.
Proof.
  destruct ex_snapshot_runs as (s & sn & id & Hrun & Hin).
  destruct (Snapshot_records (HFS := ex_disk_fs) (HL := ex_saver_laws) (HD := ex_disk) _ _ _ _ _ _ _ _ ex_chunks _ _ (fun s => (s, Ok tt)) (fun sn s => (s, Ok (ex_archive_hash [])))
    ltac:(intros data; split; [unfold ex_chunks; cbn [fst concat]; rewrite app_nil_r; apply take_drop|done]) ltac:(by eexists) ltac:(discriminate)
    ltac:(by intros ? ? ?) ltac:(by intros ? ? ? ?) _ _ _ _ _ _ _ Hrun)
    as (s1 & s2 & clean & atree & e & root & node & _ & _ & _ & Hrec & Hsub & Htree & _).
  exists s, sn, id, node, e. split; [exact Hrun|]. split; [exact Hrec|]. rewrite Hsub, Htree. done.
Defined.
