(* ===== verification/Scanner.v ===== *)
(** The scanner that counts what a backup will save (src/internal/archiver/scanner.go),
    and how its counts compare with what the backup saves.

    The calls of [Result] are the list of its arguments.  Whether the context is
    cancelled is read from the state. *)

From S2P Require Import Prelude Bytes GoString GoTime Restic Snapshot Tree FsPath Os NodeRestore FS ArchTree NodeStat FileSaver Archiver ArchiverFacts Backup.

#[local] Open Scope Z_scope.

Record ScanStats := mkScanStats { sc_Files : Z; sc_Dirs : Z; sc_Others : Z; sc_Bytes : Z }.
Definition no_scan : ScanStats := mkScanStats 0 0 0 0.

Definition add_file (st : ScanStats) (size : Z) : ScanStats := mkScanStats (u64 (sc_Files st + 1)) (sc_Dirs st) (sc_Others st) (u64 (sc_Bytes st + u64 size)).
Definition add_dir (st : ScanStats) : ScanStats := mkScanStats (sc_Files st) (u64 (sc_Dirs st + 1)) (sc_Others st) (sc_Bytes st).
Definition add_other (st : ScanStats) : ScanStats := mkScanStats (sc_Files st) (sc_Dirs st) (u64 (sc_Others st + 1)) (sc_Bytes st).

Abbreviation reports := (list (string * ScanStats)).

Section Scanner.
Context {F : Type} `{FS F} (canceled : F -> bool).
Context (SelectByName : string -> bool) (Select : string -> OsFileInfo -> bool) (Error : string -> error -> option error).

(** The state, the reports, the counts and the error. *)
Abbreviation scanned := (F * reports * outcome (ScanStats * option error))%type.

(** The loop over the names of a directory. *)
Fixpoint scan_names (scan : ScanStats -> string -> F -> scanned) (st : ScanStats) (dir : string) (names : list string) (s : F) : scanned :=
  match names with
  | [] => (s, [], Ok (st, None))
  | name :: names =>
      match scan st (path_Join [dir; name]) s with
      | (s, log, Ok (st, None)) => let '(s, log', r) := scan_names scan st dir names s in (s, log ++ log', r)
      | r => r
      end
  end.

Fixpoint scan (fuel : nat) (st : ScanStats) (target : string) (s : F) : scanned :=
  match fuel with
  | O => (s, [], Panic "out of fuel")
  | S fuel =>
      if canceled s then (s, [], Ok (st, None))
      else if negb (SelectByName target) then (s, [], Ok (st, None))
      else
        match fs_Lstat target s with
        | (s, Err e) => (s, [], Ok (st, Error target e))
        | (s, Panic p) => (s, [], Panic p)
        | (s, Ok fi) =>
            if negb (Select target fi) then (s, [], Ok (st, None))
            else if mode_IsRegular (ofi_Mode fi) then let st := add_file st (ofi_Size fi) in (s, [(target, st)], Ok (st, None))
            else if mode_IsDir (ofi_Mode fi) then
              match readdirnames target O_NOFOLLOW s with
              | (s, Err e) => (s, [], Ok (st, Error target e))
              | (s, Panic p) => (s, [], Panic p)
              | (s, Ok names) =>
                  match scan_names (scan fuel) st target (sort_Strings names) s with
                  | (s, log, Ok (st, None)) => let st := add_dir st in (s, log ++ [(target, st)], Ok (st, None))
                  | r => r
                  end
              end
            else let st := add_other st in (s, [(target, st)], Ok (st, None))
        end
  end.

(** [scanTree]; [depth] bounds the depth of directories, the fuel that of the tree. *)
Fixpoint scanTree_names (rec : ScanStats -> ATree -> F -> scanned) (st : ScanStats) (tree : ATree) (names : list string) (s : F) : scanned :=
  match names with
  | [] => (s, [], Ok (st, None))
  | name :: names =>
      match rec st (default emptyTree (get_name (at_Nodes tree) name)) s with
      | (s, log, Ok (st, None)) =>
          if canceled s then (s, log, Ok (st, None))
          else let '(s, log', r) := scanTree_names rec st tree names s in (s, log ++ log', r)
      | (s, log, Ok (_, Some e)) => (s, log, Ok (no_scan, Some e))
      | r => r
      end
  end.

Fixpoint scanTree (depth fuel : nat) (st : ScanStats) (tree : ATree) (s : F) : scanned :=
  match fuel with
  | O => (s, [], Panic "out of fuel")
  | S fuel =>
      if Leaf tree then
        match fs_Abs (at_Path tree) with
        | Err e => (s, [], Ok (no_scan, Some e))
        | Panic p => (s, [], Panic p)
        | Ok abstarget =>
            match scan depth st abstarget s with
            | (s, log, Ok (_, Some e)) => (s, log, Ok (no_scan, Some e))
            | r => r
            end
        end
      else scanTree_names (scanTree depth fuel) st tree (NodeNames tree) s
  end.

(** [Scan], which ends with a report for no item. *)
Definition Scan (depth : nat) (targets : list string) (s : F) : F * reports * outcome unit :=
  match resolveRelativeTargets targets s with
  | (s, Err e) => (s, [], Err e)
  | (s, Panic p) => (s, [], Panic p)
  | (s, Ok cleanTargets) =>
      match NewTree cleanTargets s with
      | (s, Err e) => (s, [], Err e)
      | (s, Panic p) => (s, [], Panic p)
      | (s, Ok tree) =>
          match scanTree depth (ArchTree.depth tree) no_scan tree s with
          | (s, log, Ok (st, None)) => (s, log ++ [("", st)], Ok tt)
          | (s, log, Ok (_, Some e)) => (s, log, Err e)
          | (s, log, Err e) => (s, log, Err e)
          | (s, log, Panic p) => (s, log, Panic p)
          end
      end
  end.
End Scanner.

(** * The scanner and the backup *)

(** The files, directories and other items of an entry. *)
Fixpoint entry_files (e : entry) : nat :=
  match e with EFile _ _ | EKept _ _ => 1 | EOther _ => 0 | EDir _ es => sum_list (entry_files <$> es) end.
Fixpoint entry_dirs (e : entry) : nat :=
  match e with EDir _ es => S (sum_list (entry_dirs <$> es)) | _ => 0 end.
Fixpoint entry_others (e : entry) : nat :=
  match e with EOther _ => 1 | EDir _ es => sum_list (entry_others <$> es) | _ => 0 end.
Fixpoint entry_height (e : entry) : nat :=
  match e with EDir _ es => S (foldr Nat.max 0%nat (entry_height <$> es)) | _ => 0 end.

Definition counts (f : entry -> nat) (e : option entry) : nat := from_option f 0%nat e.

(** The counts of [st'] are those of [st] and of the entries, and of [sockets]. *)
Definition counted (st st' : ScanStats) (files dirs others : nat) : Prop :=
  sc_Files st' = u64 (sc_Files st + Z.of_nat files) /\ sc_Dirs st' = u64 (sc_Dirs st + Z.of_nat dirs) /\ sc_Others st' = u64 (sc_Others st + Z.of_nat others).

Lemma u64_add a b c : u64 (u64 (a + b) + c) = u64 (a + (b + c)).
Proof. unfold u64. rewrite Zplus_mod_idemp_l. f_equal. lia. Qed.

Lemma counted_trans st st' st'' f d o f' d' o' : counted st st' f d o -> counted st' st'' f' d' o' -> counted st st'' (f + f') (d + d') (o + o').
Proof. intros (Hf & Hd & Ho) (Hf' & Hd' & Ho'). unfold counted. rewrite Hf', Hd', Ho', Hf, Hd, Ho, !u64_add, !Nat2Z.inj_add. done. Qed.

Definition wide_stats (st : ScanStats) : Prop := is_u64 (sc_Files st) /\ is_u64 (sc_Dirs st) /\ is_u64 (sc_Others st).

Lemma counted_refl st : wide_stats st -> counted st st 0 0 0.
Proof. intros (Hf & Hd & Ho). unfold counted. change (Z.of_nat 0) with 0. rewrite !Z.add_0_r, !u64_id by done. done. Qed.

Lemma counted_eq st st' f d o f' d' o' : counted st st' f d o -> f = f' -> d = d' -> o = o' -> counted st st' f' d' o'.
Proof. by intros Hc -> -> ->. Qed.

Lemma counted_file st size : wide_stats st -> counted st (add_file st size) 1 0 (0 + 0).
Proof. intros (Hf & Hd & Ho). unfold counted. cbn. split_and!; try done; by rewrite Z.add_0_r, u64_id. Qed.
Lemma counted_other st : wide_stats st -> counted st (add_other st) 0 0 1.
Proof. intros (Hf & Hd & Ho). unfold counted. cbn. split_and!; try done; by rewrite Z.add_0_r, u64_id. Qed.
Lemma counted_dir st st' f d o : counted st st' f d o -> counted st (add_dir st') f (S d) o.
Proof. intros (Hf & Hd & Ho). unfold counted, add_dir. cbn [sc_Files sc_Dirs sc_Others]. rewrite Hd, u64_add, Nat2Z.inj_succ. done. Qed.

Lemma height_In e l : e ∈ l -> (entry_height e <= foldr Nat.max 0 (entry_height <$> l))%nat.
Proof. induction 1 as [e l|e x l _ IH]; cbn; lia. Qed.

Lemma counted_wide st st' f d o : counted st st' f d o -> wide_stats st'.
Proof. intros (Hf & Hd & Ho). unfold wide_stats. rewrite Hf, Hd, Ho. split_and!; apply u64_range. Qed.

(** Absolute paths of the local file system. *)
Definition absolute (p : string) : Prop := rooted p = true /\ path_Clean p = p.

Lemma Clean_clean p : path_Clean (path_Clean p) = path_Clean p.
Proof.
  rewrite !Clean_components. destruct (render_components _ _ (components_clean p)) as [Hr Hc]. rewrite rev_involutive in Hr, Hc. by rewrite Hr, Hc.
Qed.

Lemma absolute_Join dir name : absolute dir -> absolute (path_Join [dir; name]).
Proof.
  intros [Hr Hc]. assert (forall p, rooted p = true -> absolute (path_Clean p)) as Hcl.
  { intros p Hp. split; [|apply Clean_clean]. rewrite Clean_components. destruct (render_components _ _ (components_clean p)) as [Hr' _].
    rewrite rev_involutive in Hr'. by rewrite Hr'. }
  unfold path_Join. rewrite filter_cons, decide_True by (by destruct dir). rewrite filter_cons. destruct (decide (name <> "")).
  - apply Hcl. by destruct dir.
  - rewrite filter_nil. by apply Hcl.
Qed.

Section Counts.
Context {W : Type} `{HFS : FS W} `{HL : SaverLaws W Hash} {NodeFromFileInfo : string -> OsFileInfo -> W -> W * (Node * option error)}
  {LoadTree : ID -> W -> W * outcome Tree} {Has : BlobHandle -> W -> bool} `{HD : !StillDisk W NodeFromFileInfo LoadTree Has} `{HU : !UnixPaths W}.
Context (SelectByName : string -> bool) (Select : string -> OsFileInfo -> bool) (WithAtime : bool) (ChangeIgnoreFlags : Z).
Context (Error : string -> error -> option error) (Habs : forall p, absolute p -> fs_Abs p = Ok p).

Abbreviation on_disk_ := (on_disk SelectByName Select WithAtime ChangeIgnoreFlags).
Abbreviation scan_ := (scan (fun _ : W => false) SelectByName Select Error).

Definition scan_counts_at (fuel : nat) (target : string) (e : option entry) : Prop :=
  forall st s, wide_stats st -> exists s' log st' sockets,
    scan_ fuel st target s = (s', log, Ok (st', None)) /\ counted st st' (counts entry_files e) (counts entry_dirs e) (counts entry_others e + sockets).

Lemma scan_names_counts fuel dir names es :
  Forall2 (fun name e => scan_counts_at fuel (path_Join [dir; name]) e) names es ->
  forall st s, wide_stats st -> exists s' log st' sockets,
    scan_names (scan_ fuel) st dir names s = (s', log, Ok (st', None)) /\
    counted st st' (sum_list (entry_files <$> omap id es)) (sum_list (entry_dirs <$> omap id es)) (sum_list (entry_others <$> omap id es) + sockets).
Proof using Type.
  induction 1 as [|name e names es Hscan HF IH]; intros st s Hst.
  - exists s, [], st, 0%nat. split; [done|by apply counted_refl].
  - destruct (Hscan st s Hst) as (s1 & log1 & st1 & k1 & E1 & Hc1). destruct (IH st1 s1 ltac:(by eapply counted_wide)) as (s2 & log2 & st2 & k2 & E2 & Hc2).
    exists s2, (log1 ++ log2), st2, (k1 + k2)%nat. cbn [scan_names]. rewrite E1, E2. split; [done|]. pose proof (counted_trans _ _ _ _ _ _ _ _ _ Hc1 Hc2) as Hc.
    destruct e as [e|]; cbn [omap list_omap id fmap list_fmap sum_list sum_list_with counts from_option] in *; eapply counted_eq; (exact Hc || lia).
Qed.

(** What is on the disk is counted, and no error stops the scanner. *)
Lemma scan_on_disk fuel previous snPath target e :
  (counts entry_height e < fuel)%nat -> absolute target -> on_disk_ previous snPath target e -> scan_counts_at fuel target e.
Proof using Habs HU.
  revert previous snPath target e. induction fuel as [|fuel IH]; intros previous snPath target e Hfuel Ht He st s Hst; [lia|]. cbn [scan].
  pose proof (still_lstat target s) as Hl. pose proof (Habs _ Ht) as Ha. destruct (fs_Lstat target s) as [s1 r]. cbn [snd] in Hl.
  inversion He; subst; match goal with H : fs_Abs target = Ok _ |- _ => rewrite Ha in H; injection H as <- end;
    repeat match goal with H : SelectByName _ = _ |- _ => rewrite H; clear H | H : disk_lstat _ = _ |- _ => rewrite H; clear H | H : Select _ _ = _ |- _ => rewrite H; clear H end; cbn [negb];
    try (do 4 eexists; split; [reflexivity|by apply (counted_refl st)]).
  all: unfold IsRegularFile in *; unfold mode_IsRegular; repeat match goal with H : (_ =? _) = _ |- _ => rewrite H; clear H | H : mode_IsDir _ = _ |- _ => rewrite H; clear H end.
  - do 3 eexists. exists 1%nat. split; [reflexivity|]. by apply counted_other.
  - do 3 eexists. exists 0%nat. split; [reflexivity|]. by apply counted_other.
  - do 3 eexists. exists 0%nat. split; [reflexivity|]. by apply counted_file.
  - do 3 eexists. exists 0%nat. split; [reflexivity|]. by apply counted_file.
  - pose proof (still_names target s1) as Hn. destruct (readdirnames target O_NOFOLLOW s1) as [s2 r]. cbn [snd] in Hn. rewrite Hn.
    match goal with H : disk_names target = _ |- _ => rewrite H end.
    match goal with H : Forall2 _ (sort_Strings names) entries |- _ => rename H into HF end.
    destruct (scan_names_counts fuel target (sort_Strings names) entries) with (st := st) (s := s2) as (s3 & log & st' & k & E & Hc); [|done|].
    { cbn in Hfuel. clear -HF Hfuel Ht IH HU. assert (Forall (fun e => (counts entry_height e < fuel)%nat) entries) as Hh.
      { clear HF. apply Forall_forall. intros e Hin. destruct e as [e|]; cbn [counts from_option]; [|lia].
        assert (entry_height e <= foldr Nat.max 0%nat (entry_height <$> omap id entries))%nat; [|lia]. apply height_In. apply list_elem_of_omap. by exists (Some e). }
      clear Hfuel. induction HF as [|name e l l' Hx HF IHF]; [constructor|]. apply Forall_cons in Hh as [Hh1 Hh]. constructor; [|by apply IHF].
      rewrite unix_Join in Hx. eapply IH; [done|by apply absolute_Join|done]. }
    rewrite E. do 3 eexists. exists k. split; [reflexivity|]. by apply counted_dir.
Qed.
End Counts.

(** The scanner announces what the backup saves: for an absolute target it ends without
    an error, and it counts the files and directories that a snapshot has to have for
    it; its other items are those of the snapshot and the sockets, which no snapshot
    has. *)
Theorem scan_counts {W : Type} `{HFS : FS W} `{HL : SaverLaws W Hash} (NodeFromFileInfo : string -> OsFileInfo -> W -> W * (Node * option error))
    (LoadTree : ID -> W -> W * outcome Tree) (Has : BlobHandle -> W -> bool) `{HD : !StillDisk W NodeFromFileInfo LoadTree Has} `{HU : !UnixPaths W}
    (SelectByName : string -> bool) (Select : string -> OsFileInfo -> bool) (WithAtime : bool) (ChangeIgnoreFlags : Z) (Error : string -> error -> option error)
    (fuel : nat) (previous : option Node) (snPath target : string) (e : option entry) (st : ScanStats) (s : W)
    (Habs : forall p, absolute p -> fs_Abs p = Ok p) (Htarget : absolute target) (Hfuel : (counts entry_height e < fuel)%nat) (Hst : wide_stats st)
    (Hdisk : on_disk SelectByName Select WithAtime ChangeIgnoreFlags previous snPath target e) :
  exists s' log st' sockets,
    scan (fun _ => false) SelectByName Select Error fuel st target s = (s', log, Ok (st', None)) /\
    sc_Files st' = u64 (sc_Files st + Z.of_nat (counts entry_files e)) /\ sc_Dirs st' = u64 (sc_Dirs st + Z.of_nat (counts entry_dirs e)) /\
    sc_Others st' = u64 (sc_Others st + Z.of_nat (counts entry_others e + sockets)).
Proof.
  destruct (scan_on_disk SelectByName Select WithAtime ChangeIgnoreFlags Error Habs fuel previous snPath target e Hfuel Htarget Hdisk st s Hst)
    as (s' & log & st' & sockets & E & Hc). exists s', log, st', sockets. by split.
Qed.

Definition ex_disk_entry : entry :=
  EDir (arch_meta ex_disk_meta false "/d" "/d" (mkOsFileInfo "d" 0 (Z.lor ModeDir 493) time_zero None)).1
      [EFile (arch_meta ex_disk_meta false "/d/f" "f" (mkOsFileInfo "f" 3 420 time_zero None)).1 ["a"; "b"; "c"]%byte;
       EOther (arch_meta ex_disk_meta false "/d/l" "/d/l" (mkOsFileInfo "l" 0 (Z.lor ModeSymlink 511) time_zero None)).1].

Lemma ex_disk_target :
  on_disk (HL := ex_saver_laws) (HD := ex_disk) (fun _ => true) (fun _ _ => true) false 0 None "/d" "/d"
    (Some ex_disk_entry).
Proof.
  unfold ex_disk_entry.
  match goal with |- on_disk _ _ _ _ _ _ _ (Some (EDir _ [?f; ?l])) => change [f; l] with (omap id [Some f; Some l]) end.
  eapply od_dir with (names := ["l"; "f"]); try reflexivity. change (sort_Strings ["l"; "f"]) with ["f"; "l"]. constructor; [|constructor; [|constructor]].
  - eapply od_file; reflexivity || exact I.
  - eapply od_other; reflexivity.
Qed.

Lemma scan_counts_witness :
  let '(_, log, r) := scan (H := ex_disk_fs) (fun _ => false) (fun _ => true) (fun _ _ => true) (fun _ e => Some e) 2 no_scan "/d" [] in
  exists st sockets, r = Ok (st, None) /\ sc_Files st = 1 /\ sc_Dirs st = 1 /\ sc_Others st = u64 (1 + Z.of_nat sockets) /\ log.*1 = ["/d/f"; "/d/l"; "/d"].
Proof.
  destruct (scan_counts (HL := ex_saver_laws) _ _ _ (HD := ex_disk) (HU := Local_unix _ _ _ _) (fun _ => true) (fun _ _ => true) false 0 (fun _ e => Some e) 2 None "/d" "/d" (Some ex_disk_entry)
    no_scan [] ltac:(intros p [Hr Hc]; cbn; unfold filepath_Abs, filepath_IsAbs; by rewrite Hr, Hc) ltac:(by split) ltac:(cbn; lia) ltac:(by repeat split) ex_disk_target)
    as (s' & log & st & sockets & E & Hf & Hd & Ho).
  rewrite E. exists st, sockets. split; [done|]. split; [exact Hf|]. split; [exact Hd|]. split; [rewrite Ho; cbn; f_equal; lia|].
  vm_compute in E. injection E as _ <- _. reflexivity.
Defined.
