(* ===== verification/BlobCache.v ===== *)
(** The cache of blobs (src/internal/bloblru/cache.go).

    A blob is a slice: a place in memory with a length and a capacity; the content of
    the place is in the memory of the clients.  The list of least recently used
    entries is a library, of which its documented behaviour is assumed. *)

From S2P Require Import Prelude Bytes Restic.

#[local] Open Scope Z_scope.

Record buffer := mkBuffer { buf_loc : nat; buf_len : Z; buf_cap : Z }.

#[export] Instance buffer_eq_dec : EqDecision buffer.
Proof. solve_decision. Defined.

(** * The library *)

(** [simplelru.LRU]; the entries that a call evicts are part of its result, since they
    are passed to the callback. *)
Class LRU (L : Type) := {
  lru_New : Z -> outcome L;
  lru_Contains : ID -> L -> bool;
  lru_Get : ID -> L -> L * option buffer;
  lru_Add : ID -> buffer -> L -> L * list (ID * buffer);
  lru_RemoveOldest : L -> L * option (ID * buffer) }.

(** The entries of an LRU list, the most recent one first, and how many it holds at
    most. *)
Class LRULaws L `{LRU L} := {
  entries : L -> list (ID * buffer);
  capacity : L -> Z;
  New_ok n : match lru_New n with Ok l => 0 < n /\ entries l = [] /\ capacity l = n | Err _ => n <= 0 | Panic _ => False end;
  Contains_ok id l : lru_Contains id l = bool_decide (id ∈ (entries l).*1);
  Get_ok id l :
    let '(l', r) := lru_Get id l in
    capacity l' = capacity l /\
    match r with
    | Some b => exists l1 l2, entries l = l1 ++ (id, b) :: l2 /\ (id ∉ l1.*1) /\ entries l' = (id, b) :: l1 ++ l2
    | None => (id ∉ (entries l).*1) /\ entries l' = entries l
    end;
  Add_ok id b l :
    id ∉ (entries l).*1 ->
    let '(l', evicted) := lru_Add id b l in
    capacity l' = capacity l /\
    (if Z.of_nat (length (entries l)) <? capacity l then evicted = [] /\ entries l' = (id, b) :: entries l
     else exists e rest, (id, b) :: entries l = rest ++ [e] /\ evicted = [e] /\ entries l' = rest);
  RemoveOldest_ok l :
    let '(l', r) := lru_RemoveOldest l in
    capacity l' = capacity l /\
    match r with
    | Some e => entries l = entries l' ++ [e]
    | None => entries l = [] /\ entries l' = []
    end }.

(** * The cache *)

Definition overhead : Z := 32 + 64.

Record Cache (L : Type) := mkCache { ca_c : L; ca_free : Z; ca_size : Z }.
Arguments mkCache {L}. Arguments ca_c {L}. Arguments ca_free {L}. Arguments ca_size {L}.

Section Cache.
Context {L : Type} `{LRU L}.

Definition New (size : Z) : outcome (Cache L) :=
  match lru_New (Z.quot size overhead) with
  | Ok l => Ok (mkCache l size size)
  | Err _ => Panic "panic(err)"
  | Panic p => Panic p
  end.

(** The callback. *)
Definition evict (c : Cache L) (blob : buffer) : Cache L := mkCache (ca_c c) (ca_free c + (buf_cap blob + overhead)) (ca_size c).

(** The loop of [Add]; each round frees something. *)
Fixpoint make_room (fuel : nat) (c : Cache L) (size : Z) (old : option buffer) : outcome (Cache L * option buffer) :=
  if ca_free c <? size then
    match fuel with
    | O => Panic "the loop does not end"
    | S fuel =>
        let '(l, r) := lru_RemoveOldest (ca_c c) in
        let c := mkCache l (ca_free c) (ca_size c) in
        match r with
        | Some (_, b) => make_room fuel (evict c b) size (if from_option buf_cap 0 old <? buf_cap b then Some b else old)
        | None => make_room fuel c size old
        end
    end
  else Ok (c, old).

Definition Cache_Add (c : Cache L) (id : ID) (blob : buffer) : outcome (Cache L * option buffer) :=
  let size := buf_cap blob + overhead in
  if ca_size c <? size then Ok (c, None)
  else if lru_Contains id (ca_c c) then Ok (c, None)
  else
    try (c, old) <- make_room (Z.to_nat (size - ca_free c)) c size None;
    let '(l, evicted) := lru_Add id blob (ca_c c) in
    let c := fold_left evict evicted.*2 (mkCache l (ca_free c) (ca_size c)) in
    Ok (mkCache (ca_c c) (ca_free c - size) (ca_size c), old).

Definition Cache_Get (c : Cache L) (id : ID) : Cache L * option buffer :=
  let '(l, r) := lru_Get id (ca_c c) in (mkCache l (ca_free c) (ca_size c), r).
End Cache.

(** * Correctness *)

Section Facts.
Context {L : Type} `{HL : LRULaws L}.

Definition cost (b : buffer) : Z := buf_cap b + overhead.
Definition total (l : list (ID * buffer)) : Z := foldr (fun e n => cost e.2 + n) 0 l.

Lemma total_app l1 l2 : total (l1 ++ l2) = total l1 + total l2.
Proof using Type. induction l1 as [|e l1 IH]; [done|]. cbn [app total foldr] in *. fold (total (l1 ++ l2)). fold (total l1). lia. Qed.
Lemma total_cons e l : total (e :: l) = cost e.2 + total l.
Proof using Type. done. Qed.

(** The invariant: the books are right, and every entry is an id with a blob that was
    added for it. *)
Record cache_inv (added : ID -> buffer -> Prop) (c : Cache L) : Prop := mkInv {
  inv_caps : Forall (fun e => 0 <= buf_cap e.2) (entries (ca_c c));
  inv_free : ca_free c = ca_size c - total (entries (ca_c c));
  inv_bound : 0 <= ca_free c;
  inv_keys : NoDup (entries (ca_c c)).*1;
  inv_added : Forall (fun e => added e.1 e.2) (entries (ca_c c));
  inv_capacity : capacity (ca_c c) = Z.quot (ca_size c) overhead }.

Lemma total_count l : Forall (fun e : ID * buffer => 0 <= buf_cap e.2) l -> overhead * Z.of_nat (length l) <= total l.
Proof using Type. induction 1 as [|e l He _ IH]; [done|]. rewrite total_cons. unfold cost, overhead in *. cbn [length]. lia. Qed.

Lemma New_inv size added : overhead <= size -> exists c, New (L := L) size = Ok c /\ cache_inv added c /\ ca_size c = size /\ entries (ca_c c) = [].
Proof using HL.
  intros Hs. unfold New. pose proof (New_ok (L := L) (Z.quot size overhead)) as Hn. assert (1 <= Z.quot size overhead) as Hq.
  { apply Z.quot_le_lower_bound; unfold overhead in *; lia. }
  destruct (lru_New _) as [l|e|p]; [|lia|done]. destruct Hn as (_ & He & Hc). eexists. split; [done|]. split; [|by split].
  constructor; cbn; rewrite ?He; cbn; try done; try constructor; unfold overhead in *; lia.
Qed.

Lemma evict_inv added c e rest :
  cache_inv added c -> entries (ca_c c) = rest ++ [e] -> forall l', entries l' = rest -> capacity l' = capacity (ca_c c) ->
  cache_inv added (evict (mkCache l' (ca_free c) (ca_size c)) e.2).
Proof using Type.
  intros [Hc Hf Hb Hk Ha Hcap] He l' El El'. rewrite He in *. apply Forall_app in Hc as [Hc Hce]. apply Forall_app in Ha as [Ha _].
  rewrite fmap_app in Hk. apply NoDup_app in Hk as (Hk & _ & _). rewrite total_app, total_cons in Hf. apply Forall_cons in Hce as [Hce _].
  change (total []) with 0 in Hf. constructor; cbn; rewrite ?El; try done; [unfold cost in *; lia|unfold overhead in *; lia|congruence].
Qed.

Lemma make_room_inv added fuel c size old :
  cache_inv added c -> size <= ca_size c -> size - ca_free c <= Z.of_nat fuel ->
  (forall b, old = Some b -> exists id, added id b /\ (id, b) ∉ entries (ca_c c)) -> NoDup (entries (ca_c c)).*1 ->
  exists c' old', make_room fuel c size old = Ok (c', old') /\ cache_inv added c' /\ ca_size c' = ca_size c /\ size <= ca_free c' /\
    (exists dropped, entries (ca_c c) = entries (ca_c c') ++ dropped /\ forall b, old' = Some b -> old = Some b \/ exists id, (id, b) ∈ dropped).
Proof using HL.
  revert c old. induction fuel as [|fuel IH]; intros c old Hi Hs Hf Hold Hnd; cbn [make_room].
  - destruct (Z.ltb_spec (ca_free c) size); [lia|]. exists c, old. split_and!; try done. exists []. rewrite app_nil_r. split; [done|by left].
  - destruct (Z.ltb_spec (ca_free c) size) as [Hlt|]; [|exists c, old; split_and!; try done; exists []; rewrite app_nil_r; split; [done|by left]].
    pose proof (RemoveOldest_ok (ca_c c)) as Hr. destruct (lru_RemoveOldest (ca_c c)) as [l' [[id b]|]].
    + destruct Hr as [Hcap He]. pose proof (evict_inv added c (id, b) (entries l') Hi He l' eq_refl Hcap) as Hi'. cbn [snd] in Hi'.
      set (c1 := evict (mkCache l' (ca_free c) (ca_size c)) b) in *. set (old1 := if _ <? _ then Some b else old).
      assert (0 <= buf_cap b) as Hb by (pose proof (inv_caps _ _ Hi) as Hc; rewrite He in Hc; apply Forall_app in Hc as [_ Hc]; by apply Forall_cons in Hc as [? _]).
      destruct (IH c1 old1) as (c' & old' & E & Hi2 & Hs2 & Hf2 & dropped & Hd & Hsub); [done|done|unfold c1, evict, overhead; cbn; lia| |apply Hi'|].
      * intros b' Eb. rewrite He, fmap_app in Hnd. apply NoDup_app in Hnd as (_ & Hdis & _). unfold old1 in Eb. destruct (_ <? _).
        -- injection Eb as <-. exists id. split; [pose proof (inv_added _ _ Hi) as Ha; rewrite He in Ha; apply Forall_app in Ha as [_ Ha]; by apply Forall_cons in Ha as [? _]|].
           intros Hin. apply (Hdis id); [apply list_elem_of_fmap; by exists (id, b)|by left].
        -- destruct (Hold _ Eb) as (id' & Ha' & Hn'). exists id'. split; [done|]. rewrite He in Hn'. intros Hin. apply Hn'. apply elem_of_app. by left.
      * exists c', old'. split_and!; try done. exists (dropped ++ [(id, b)]). split; [rewrite He; change (entries l') with (entries (ca_c c1)); rewrite Hd; by rewrite app_assoc|].
        intros b' Eb. destruct (Hsub _ Eb) as [Eo|[id' Hin]]; [|right; exists id'; apply elem_of_app; by left].
        unfold old1 in Eo. destruct (_ <? _); [|by left]. injection Eo as <-. right. exists id. apply elem_of_app. right. by left.
    + destruct Hr as (_ & He & _). pose proof (inv_free _ _ Hi) as Hf'. rewrite He in Hf'. cbn in Hf'. lia.
Qed.

(** Adding never panics: the loop ends, and the list never evicts an entry by itself.
    The evicted buffer that is returned is no longer in the cache. *)
Lemma Add_inv (added : ID -> buffer -> Prop) c id b :
  cache_inv added c -> 0 <= buf_cap b -> added id b ->
  exists c' old, Cache_Add c id b = Ok (c', old) /\ cache_inv added c' /\ ca_size c' = ca_size c /\
    (entries (ca_c c') = entries (ca_c c) /\ old = None \/
     (id ∉ (entries (ca_c c)).*1) /\ exists kept dropped, entries (ca_c c) = kept ++ dropped /\ entries (ca_c c') = (id, b) :: kept /\
       forall b', old = Some b' -> exists id', (id', b') ∈ dropped).
Proof using HL.
  intros Hi Hb Ha. unfold Cache_Add. destruct (Z.ltb_spec (ca_size c) (buf_cap b + overhead)) as [|Hs]; [exists c, None; split_and!; try done; by left|].
  rewrite Contains_ok. case_bool_decide as Hin; [exists c, None; split_and!; try done; by left|].
  destruct (make_room_inv added (Z.to_nat (buf_cap b + overhead - ca_free c)) c (buf_cap b + overhead) None) as (c1 & old & E & Hi1 & Hs1 & Hf1 & dropped & Hd & Hsub);
    [done|done|lia|done|apply Hi|]. rewrite E. cbn [mbind outcome_bind].
  assert (id ∉ (entries (ca_c c1)).*1) as Hin1 by (rewrite Hd, fmap_app in Hin; set_solver).
  pose proof (Add_ok id b (ca_c c1) Hin1) as Hadd. destruct (lru_Add id b (ca_c c1)) as [l' evicted]. destruct Hadd as [Hcap Hadd].
  assert (Z.of_nat (length (entries (ca_c c1))) < capacity (ca_c c1)) as Hlt.
  { pose proof (total_count _ (inv_caps _ _ Hi1)) as Ht. rewrite (inv_capacity _ _ Hi1). pose proof (inv_free _ _ Hi1) as Hf'. rewrite Hs1 in *.
    apply Z.lt_le_pred. rewrite <- Z.sub_1_r. apply Z.le_add_le_sub_r. apply Z.quot_le_lower_bound; unfold overhead in *; lia. }
  apply Z.ltb_lt in Hlt. rewrite Hlt in Hadd. destruct Hadd as [-> He]. cbn. eexists _, old. split; [done|]. destruct Hi1 as [Hc Hf Hbd Hk Hadd Hcp]. split.
  - constructor; cbn; rewrite ?He; try done.
    + by constructor.
    + rewrite total_cons. unfold cost. cbn [snd]. rewrite Hf. lia.
    + lia.
    + cbn. by constructor.
    + by constructor.
    + congruence.
  - split; [done|]. right. split; [done|]. exists (entries (ca_c c1)), dropped. split; [done|]. split; [done|]. intros b' Eb. destruct (Hsub _ Eb) as [|Hx]; [done|exact Hx].
Qed.

Lemma Get_inv added c id :
  cache_inv added c -> let '(c', r) := Cache_Get c id in cache_inv added c' /\ ca_size c' = ca_size c /\ entries (ca_c c') ≡ₚ entries (ca_c c) /\
    match r with Some b => (id, b) ∈ entries (ca_c c) /\ added id b | None => id ∉ (entries (ca_c c)).*1 end.
Proof using HL.
  intros Hi. unfold Cache_Get. pose proof (Get_ok id (ca_c c)) as Hg. destruct (lru_Get id (ca_c c)) as [l' r]. destruct Hg as [Hcap Hg].
  assert (entries l' ≡ₚ entries (ca_c c)) as Hp.
  { destruct r as [b|]; [|by destruct Hg as [_ ->]]. destruct Hg as (l1 & l2 & -> & _ & ->). by rewrite Permutation_middle. }
  assert (forall l l', l ≡ₚ l' -> total l = total l') as Htot by (induction 1; rewrite ?total_cons; lia).
  destruct Hi as [Hc Hf Hb Hk Ha Hcp]. split.
  - constructor; cbn; try done; [by rewrite Hp|by rewrite (Htot _ _ Hp)|by rewrite Hp|by rewrite Hp|congruence].
  - split_and!; try done. destruct r as [b|]; [|by destruct Hg]. destruct Hg as (l1 & l2 & He & _ & _).
    assert ((id, b) ∈ entries (ca_c c)) as Hin by (rewrite He; apply elem_of_app; right; by left). split; [done|]. rewrite Forall_forall in Ha. by apply (Ha (id, b)).
Qed.
End Facts.

(** ** Sessions *)

Inductive cache_call := CallAdd (id : ID) (b : buffer) | CallGet (id : ID).

(** What the calls of [Get] return, with what was asked. *)
Fixpoint session {L} `{LRU L} (c : Cache L) (calls : list cache_call) : outcome (Cache L * list (ID * option buffer)) :=
  match calls with
  | [] => Ok (c, [])
  | CallAdd id b :: calls => try (c, _) <- Cache_Add c id b; session c calls
  | CallGet id :: calls =>
      let '(c, r) := Cache_Get c id in
      try (c, rs) <- session c calls; Ok (c, (id, r) :: rs)
  end.

Definition call_adds (calls : list cache_call) (id : ID) (b : buffer) : Prop := CallAdd id b ∈ calls.

Lemma inv_mono {L} `{LRULaws L} (P Q : ID -> buffer -> Prop) (c : Cache L) : (forall id b, P id b -> Q id b) -> cache_inv P c -> cache_inv Q c.
Proof. intros HPQ [? ? ? ? Ha ?]. constructor; try done. eapply Forall_impl; [exact Ha|]. intros e. apply HPQ. Qed.

Lemma session_inv {L} `{HL : LRULaws L} (all calls : list cache_call) (c : Cache L) :
  cache_inv (call_adds all) c -> (forall call, call ∈ calls -> call ∈ all) -> (forall id b, CallAdd id b ∈ calls -> 0 <= buf_cap b) ->
  exists c' rs, session c calls = Ok (c', rs) /\ cache_inv (call_adds all) c' /\ ca_size c' = ca_size c /\
    Forall (fun r => forall b, r.2 = Some b -> CallAdd r.1 b ∈ all) rs.
Proof.
  revert c. induction calls as [|call calls IH]; intros c Hi Hall Hcap; [by exists c, []|].
  assert (forall c, cache_inv (call_adds all) c -> exists c' rs, session c calls = Ok (c', rs) /\ cache_inv (call_adds all) c' /\ ca_size c' = ca_size c /\
    Forall (fun r => forall b, r.2 = Some b -> CallAdd r.1 b ∈ all) rs) as IH' by (intros c1 Hi1; apply IH; [done|intros; apply Hall; by right|intros; eapply Hcap; by right]).
  destruct call as [id b|id]; cbn [session].
  - destruct (Add_inv (call_adds all) c id b Hi) as (c1 & old & E & Hi1 & Hs1 & _); [apply (Hcap id); by left|apply Hall; by left|].
    rewrite E. cbn. destruct (IH' c1 Hi1) as (c' & rs & -> & Hi' & Hs' & Hrs). exists c', rs. split_and!; try done. congruence.
  - pose proof (Get_inv (call_adds all) c id Hi) as Hg. destruct (Cache_Get c id) as [c1 r]. destruct Hg as (Hi1 & Hs1 & _ & Hr).
    destruct (IH' c1 Hi1) as (c' & rs & -> & Hi' & Hs' & Hrs). exists c', ((id, r) :: rs). split_and!; try done; [congruence|]. constructor; [|done].
    cbn. intros b ->. by destruct Hr.
Qed.

(** C38. In any session nothing panics and no loop runs forever; the blobs in the cache and
    their overhead never take more than its size, its books are exact, no ID is
    there twice, and [Get] returns only blobs that were added for the ID. *)
Theorem cache_session {L : Type} `{LRULaws L} (size : Z) (calls : list cache_call)
    (Hsize : overhead <= size) (Hcap : forall id b, CallAdd id b ∈ calls -> 0 <= buf_cap b) :
  exists c0 c rs, New (L := L) size = Ok c0 /\ session c0 calls = Ok (c, rs) /\
    total (entries (ca_c c)) <= size /\ ca_free c = size - total (entries (ca_c c)) /\ NoDup (entries (ca_c c)).*1 /\
    Forall (fun e => CallAdd e.1 e.2 ∈ calls) (entries (ca_c c)) /\ Forall (fun r => forall b, r.2 = Some b -> CallAdd r.1 b ∈ calls) rs.
Proof.
  destruct (New_inv size (call_adds calls) Hsize) as (c0 & E0 & Hi0 & Hs0 & _).
  destruct (session_inv calls calls c0 Hi0) as (c & rs & E & Hi & Hs & Hrs); [done|done|].
  exists c0, c, rs. destruct Hi as [_ Hf Hb Hk Ha _]. split_and!; try done; [lia|congruence].
Qed.

(** A list as such a library. *)
Fixpoint list_pick (id : ID) (l : list (ID * buffer)) : option (buffer * list (ID * buffer)) :=
  match l with
  | [] => None
  | (i, b) :: l => if bool_decide (i = id) then Some (b, l) else match list_pick id l with Some (b', l) => Some (b', (i, b) :: l) | None => None end
  end.

Lemma list_pick_spec id l :
  match list_pick id l with
  | Some (b, l') => exists l1 l2, l = l1 ++ (id, b) :: l2 /\ (id ∉ l1.*1) /\ l' = l1 ++ l2
  | None => id ∉ l.*1
  end.
Proof.
  induction l as [|[i b] l IH]; cbn; [by apply not_elem_of_nil|]. case_bool_decide as Hi.
  - subst i. exists [], l. split_and!; [done|by apply not_elem_of_nil|done].
  - destruct (list_pick id l) as [[b' l']|].
    + destruct IH as (l1 & l2 & -> & Hn & ->). exists ((i, b) :: l1), l2. split_and!; [done| |done]. cbn. rewrite not_elem_of_cons. by split.
    + rewrite not_elem_of_cons. by split.
Qed.

Abbreviation ex_lru := (Z * list (ID * buffer))%type.
Definition ex_LRU : LRU ex_lru := {|
  lru_New := fun n => if 0 <? n then Ok (n, []) else Err (ErrMsg "must provide a positive size");
  lru_Contains := fun id l => bool_decide (id ∈ l.2.*1);
  lru_Get := fun id l => match list_pick id l.2 with Some (b, l') => ((l.1, (id, b) :: l'), Some b) | None => (l, None) end;
  lru_Add := fun id b l =>
    if Z.of_nat (length l.2) <? l.1 then ((l.1, (id, b) :: l.2), [])
    else ((l.1, removelast ((id, b) :: l.2)), [List.last l.2 (id, b)]);
  lru_RemoveOldest := fun l => match last l.2 with Some e => ((l.1, removelast l.2), Some e) | None => (l, None) end |}.

Lemma ex_LRULaws : @LRULaws ex_lru ex_LRU.
Proof.
  refine {| entries := snd; capacity := fst |}; cbn.
  - intros n. by destruct (Z.ltb_spec 0 n).
  - done.
  - intros id [n l]. cbn. pose proof (list_pick_spec id l) as Hp. destruct (list_pick id l) as [[b l']|]; cbn; [|by split].
    split; [done|]. destruct Hp as (l1 & l2 & -> & Hn & ->). by exists l1, l2.
  - intros id b [n l] Hn. cbn. destruct (Z.of_nat (length l) <? n); [by split|]. split; [done|]. exists (List.last l (id, b)), (removelast ((id, b) :: l)).
    split_and!; [|done|done]. rewrite (app_removelast_last (l := (id, b) :: l) (id, b)) at 1 by done. by destruct l.
  - intros [n l]. cbn. destruct (last l) as [e|] eqn:El; cbn; [|apply last_None in El as ->; by split].
    split; [done|]. apply last_Some in El as [l' ->]. by rewrite removelast_last.
Defined.

(** Three blobs in a cache for two; the second one is used again before the third. *)
Definition ex_id (n : nat) : ID := copy_id (replicate (S n) "x"%byte).
Definition ex_buffer (n : nat) : buffer := mkBuffer n 100 100.
Definition ex_calls : list cache_call :=
  [CallAdd (ex_id 0) (ex_buffer 0); CallAdd (ex_id 1) (ex_buffer 1); CallGet (ex_id 0); CallAdd (ex_id 2) (ex_buffer 2); CallGet (ex_id 0); CallGet (ex_id 1)].

Lemma cache_session_witness :
  exists c0 c rs, New (H := ex_LRU) 400 = Ok c0 /\ session (H := ex_LRU) c0 ex_calls = Ok (c, rs) /\ total (ca_c c).2 <= 400 /\
    rs.*2 = [Some (ex_buffer 0); Some (ex_buffer 0); None].
Proof.
  destruct (cache_session (H0 := ex_LRULaws) 400 ex_calls) as (c0 & c & rs & E0 & E & Ht & _); [by vm_compute| |].
  - intros id b Hin. repeat (apply elem_of_cons in Hin as [Hin|Hin]; [first [injection Hin as _ ->; done|discriminate]|]). by apply elem_of_nil in Hin.
  - exists c0, c, rs. split; [exact E0|]. split; [exact E|]. split; [exact Ht|]. vm_compute in E0. injection E0 as <-. vm_compute in E. injection E as _ <-. reflexivity.
Defined.
