(* ===== verification/Buffers.v ===== *)
(** The memory of the buffers that blobs are loaded into: [LoadBlob] of
    src/repository/repository.go with the buffer it is given, which its callers use to
    avoid allocations.  Repository models what it returns; here is where that lies. *)

From S2P Require Import Prelude Bytes Restic Backend BlobCache Repository.

#[local] Open Scope Z_scope.

(** The content of a place in memory, as far as it was written. *)
Abbreviation memory := (gmap nat (list byte)).

Definition content (mem : memory) (b : buffer) : list byte := take (Z.to_nat (buf_len b)) (default [] (mem !! buf_loc b)).

(** [make]. *)
Definition alloc (mem : memory) (data : list byte) (cap : Z) : memory * buffer :=
  let l := fresh (dom mem) in (<[l := data]> mem, mkBuffer l (zlen data) cap).

Section Load.
(** What a copy of the blob yields, and what an attempt leaves in the buffer. *)
Context (load_one : PackedBlob -> outcome (list byte)) (junk : PackedBlob -> list byte).

(** The buffer for a copy of [len] bytes. *)
Definition buffer_for (mem : memory) (buf : option buffer) (len : Z) : memory * buffer :=
  match buf with
  | Some b => if buf_cap b <? len then alloc mem (replicate (Z.to_nat len) "000"%byte) len else (mem, mkBuffer (buf_loc b) len (buf_cap b))
  | None => alloc mem (replicate (Z.to_nat len) "000"%byte) len
  end.

(** The loop of [LoadBlob] over the copies of a blob. *)
Fixpoint load_into (lastError : option error) (blobs : list PackedBlob) (buf : option buffer) (mem : memory) : memory * outcome buffer :=
  match blobs with
  | [] => (mem, Err (default (ErrMsg "loading blob %v from %v packs failed") lastError))
  | blob :: blobs =>
      let '(mem, b) := buffer_for mem buf (b_Length (pb_Blob blob)) in
      let mem := <[buf_loc b := junk blob]> mem in
      match load_one blob with
      | Err e => load_into (Some e) blobs (Some b) mem
      | Panic p => (mem, Panic p)
      | Ok plaintext =>
          if buf_cap b <? zlen plaintext then
            let '(mem, b) := alloc mem plaintext (Z.max (DataLength (pb_Blob blob)) (zlen plaintext)) in (mem, Ok b)
          else (<[buf_loc b := plaintext]> mem, Ok (mkBuffer (buf_loc b) (zlen plaintext) (buf_cap b)))
      end
  end.

(** Its result without the memory, as in Repository. *)
Fixpoint load_first (lastError : option error) (blobs : list PackedBlob) : outcome (list byte) :=
  match blobs with
  | [] => Err (default (ErrMsg "loading blob %v from %v packs failed") lastError)
  | blob :: blobs => match load_one blob with Ok plaintext => Ok plaintext | Err e => load_first (Some e) blobs | Panic p => Panic p end
  end.

(** * What a call changes *)

(** Nothing but the buffer it is given and places that were free. *)
Definition keeps_memory (mem mem' : memory) (buf : option buffer) : Prop :=
  forall l, l ∈ dom mem -> (forall b, buf = Some b -> buf_loc b <> l) -> mem' !! l = mem !! l.

Lemma alloc_spec mem data cap mem' b :
  alloc mem data cap = (mem', b) -> (buf_loc b ∉ dom mem) /\ mem' = <[buf_loc b := data]> mem /\ buf_len b = zlen data /\ buf_cap b = cap.
Proof using Type. unfold alloc. intros [= <- <-]. cbn. split_and!; try done. apply is_fresh. Qed.

Lemma content_insert mem b data : content (<[buf_loc b := data]> mem) b = take (Z.to_nat (buf_len b)) data.
Proof using Type. unfold content. by rewrite lookup_insert_eq. Qed.

Lemma take_zlen {A} (l : list A) : take (Z.to_nat (zlen l)) l = l.
Proof using Type. unfold zlen. rewrite Nat2Z.id. apply firstn_all. Qed.

Lemma buffer_for_spec mem buf len mem' b :
  0 <= len -> buffer_for mem buf len = (mem', b) ->
  (buf_loc b ∉ dom mem \/ exists b0, buf = Some b0 /\ buf_loc b = buf_loc b0) /\ (forall l, l <> buf_loc b -> mem' !! l = mem !! l) /\ dom mem ⊆ dom mem' /\
  len <= buf_cap b.
Proof using Type.
  unfold buffer_for. intros Hlen E. destruct buf as [b0|]; [destruct (Z.ltb_spec (buf_cap b0) len)|]; try (apply alloc_spec in E as (Hf & -> & Hl & Hc); split_and!;
    [by left|intros l Hl'; by rewrite lookup_insert_ne|rewrite dom_insert; set_solver|lia]).
  injection E as <- <-. cbn. split_and!; [right; by exists b0|done|done|done].
Qed.

Lemma load_into_spec lastError blobs buf mem mem' r :
  Forall (fun blob => 0 <= b_Length (pb_Blob blob)) blobs ->
  load_into lastError blobs buf mem = (mem', r) ->
  keeps_memory mem mem' buf /\ dom mem ⊆ dom mem' /\
  match r with
  | Ok b => load_first lastError blobs = Ok (content mem' b) /\ buf_loc b ∈ dom mem' /\ 0 <= buf_cap b /\
      (buf_loc b ∉ dom mem \/ exists b0, buf = Some b0 /\ buf_loc b = buf_loc b0)
  | Err e => load_first lastError blobs = Err e
  | Panic p => load_first lastError blobs = Panic p
  end.
Proof using Type.
  intros HF. revert lastError buf mem. induction HF as [|blob blobs Hlen HF IH]; intros lastError buf mem E; cbn [load_into load_first] in *; [by injection E as <- <-|].
  destruct (buffer_for mem buf (b_Length (pb_Blob blob))) as [mem1 b] eqn:Eb. destruct (buffer_for_spec _ _ _ _ _ Hlen Eb) as (Hloc & Hkeep & Hdom & Hcap).
  assert (keeps_memory mem (<[buf_loc b := junk blob]> mem1) buf) as Hk1.
  { intros l Hl Hne. assert (l <> buf_loc b) as Hlb by (destruct Hloc as [Hn|(b0 & -> & Hb)]; [by intros ->|rewrite Hb; intros ->; by apply (Hne b0)]).
    rewrite lookup_insert_ne by done. by apply Hkeep. }
  assert (dom mem ⊆ dom (<[buf_loc b := junk blob]> mem1)) as Hd1 by (rewrite dom_insert; set_solver).
  destruct (load_one blob) as [plaintext|e|p].
  - destruct (Z.ltb_spec (buf_cap b) (zlen plaintext)).
    + destruct (alloc _ _ _) as [mem2 b2] eqn:Ea. apply alloc_spec in Ea as (Hf & -> & Hl2 & Hc2). injection E as <- <-.
      split; [|split; [rewrite dom_insert; set_solver|]].
      * intros l Hl Hne. rewrite lookup_insert_ne by (intros <-; apply Hf; by apply Hd1). by apply Hk1.
      * rewrite content_insert, Hl2, take_zlen, Hc2. split_and!; [done|rewrite dom_insert; set_solver|pose proof (zlen_nonneg plaintext); lia|].
        left. intros Hin. apply Hf. by apply Hd1.
    + injection E as <- <-. rewrite insert_insert_eq. split; [|split; [rewrite dom_insert; set_solver|]].
      * intros l Hl Hne. specialize (Hk1 l Hl Hne). destruct (decide (l = buf_loc b)) as [->|Hlb].
        { exfalso. destruct Hloc as [Hn|(b0 & -> & Hb)]; [done|]. by apply (Hne b0). }
        rewrite lookup_insert_ne by done. by rewrite lookup_insert_ne in Hk1 by done.
      * unfold content. cbn [buf_loc buf_len buf_cap]. rewrite lookup_insert_eq. cbn. rewrite take_zlen. split_and!; [done|rewrite dom_insert; set_solver|lia|done].
  - apply IH in E as (Hk2 & Hd2 & Hr). split; [|split; [set_solver|]].
    + intros l Hl Hne. rewrite <- (Hk1 l Hl Hne). apply Hk2; [by apply Hd1|]. intros b0 [= <-] <-. destruct Hloc as [Hn|(b0 & -> & Hb)]; [done|]. by apply (Hne b0).
    + destruct r as [b'|e'|p]; try done. destruct Hr as (Hl & Hin & Hc & Hfresh). split_and!; try done. destruct Hfresh as [Hn|(b0 & [= <-] & ->)]; [left; by intros Hin'; apply Hn, Hd1|done].
  - by injection E as <- <-.
Qed.
End Load.

(** [LoadBlob] of the repository is the loop over the candidates. *)
Lemma load_first_candidates {B} `{Backend B} (aes_Encrypt poly1305_Verify : _) Hash zstd_DecodeAll r t id lastError blobs :
  load_first (load_candidate (B := B) aes_Encrypt poly1305_Verify Hash zstd_DecodeAll r t id) lastError blobs =
  LoadBlob_loop aes_Encrypt poly1305_Verify Hash zstd_DecodeAll r t id lastError blobs.
Proof.
  revert lastError. induction blobs as [|blob blobs IH]; intros lastError; cbn [load_first LoadBlob_loop]; [by destruct lastError|].
  destruct (load_candidate _ _ _ _ r t id blob); [done|apply IH|done].
Qed.

(** * Blobs in a cache *)

(** [LoadBlob] with buffers yields what [load] does and changes no other memory. *)
Definition loads_into (LoadBlob : ID -> option buffer -> memory -> memory * outcome buffer) (load : ID -> outcome (list byte)) : Prop :=
  forall id buf mem mem' r, LoadBlob id buf mem = (mem', r) ->
    keeps_memory mem mem' buf /\ dom mem ⊆ dom mem' /\
    match r with
    | Ok b => load id = Ok (content mem' b) /\ buf_loc b ∈ dom mem' /\ 0 <= buf_cap b /\
        ((buf_loc b ∉ dom mem) \/ exists b0, buf = Some b0 /\ buf_loc b = buf_loc b0)
    | Err e => load id = Err e
    | Panic p => load id = Panic p
    end.

Section Cached.
Context {L : Type} `{HL : LRULaws L}.
Context (LoadBlob : ID -> option buffer -> memory -> memory * outcome buffer) (load : ID -> outcome (list byte)) (Hload : loads_into LoadBlob load).

Abbreviation locs c := ((fun e => buf_loc e.2) <$> entries (ca_c c)).
Abbreviation intact mem e := (load e.1 = Ok (content mem e.2) /\ buf_loc e.2 ∈ dom mem).

(** The blobs in the cache are intact, and the buffer that is used again is none of
    theirs. *)
Record cached (c : Cache L) (mem : memory) (buf : option buffer) : Prop := mkCached {
  cd_cache : cache_inv (fun _ _ => True) c;
  cd_blobs : Forall (fun e => intact mem e) (entries (ca_c c));
  cd_locs : NoDup (locs c);
  cd_buf : forall b, buf = Some b -> buf_loc b ∉ locs c }.

(** A new cache is empty. *)
Lemma New_cached size c : overhead <= size -> BlobCache.New size = Ok c -> cached c ∅ None.
Proof using HL.
  intros Hs E. destruct (New_inv size (fun _ _ => True) Hs) as (c' & E' & Hc & _ & He). rewrite E' in E. injection E as ->.
  constructor; rewrite ?He; [done|constructor|constructor|done].
Qed.

Lemma cached_no_buffer c mem buf : cached c mem buf -> cached c mem None.
Proof using Type. intros [? ? ? _]. by constructor. Qed.

(** What a call that leaves the cache alone preserves. *)
Lemma cached_keep c mem mem' buf : keeps_memory mem mem' buf -> dom mem ⊆ dom mem' -> cached c mem buf -> cached c mem' None.
Proof using Type.
  intros Hk Hd [Hc HF Hl Hbuf]. constructor; try done. rewrite Forall_forall in *. intros e Hin. destruct (HF e Hin) as [Hid He]. split; [|by apply Hd].
  rewrite Hid. f_equal. unfold content. do 2 f_equal. symmetry. apply Hk; [done|]. intros b Hb E. apply (Hbuf b Hb). rewrite E.
  apply list_elem_of_fmap. by exists e.
Qed.

Lemma Get_cached c mem buf id :
  cached c mem buf -> let '(c, hit) := Cache_Get c id in
  cached c mem buf /\ match hit with Some b => load id = Ok (content mem b) /\ buf_loc b ∈ dom mem | None => True end.
Proof using HL.
  intros [Hc Hb Hl Hbuf]. pose proof (Get_inv _ _ id Hc) as Hg. destruct (Cache_Get c id) as [c' hit]. destruct Hg as (Hc' & _ & Hp & Hhit). split.
  - constructor; [done|by rewrite Hp|by rewrite Hp|intros b E; rewrite Hp; by apply Hbuf].
  - destruct hit as [b|]; [|done]. rewrite Forall_forall in Hb. by destruct (Hb (id, b) (proj1 Hhit)).
Qed.

(** The result of loading a blob and adding it. *)
Lemma Add_cached c mem buf id mem' blob :
  cached c mem buf -> LoadBlob id buf mem = (mem', Ok blob) ->
  exists c' buf', Cache_Add c id blob = Ok (c', buf') /\ cached c' mem' buf' /\ load id = Ok (content mem' blob).
Proof using HL Hload.
  intros Hcd E. destruct (Hload _ _ _ _ _ E) as (Hk & Hd & Hid & Hin & Hcap & Hfresh). pose proof (cd_blobs _ _ _ (cached_keep _ _ _ _ Hk Hd Hcd)) as Hb'.
  destruct Hcd as [Hc Hb Hl Hbuf].
  destruct (Add_inv (fun _ _ => True) c id blob Hc Hcap I) as (c' & old & Ea & Hc' & _ & Hcases). exists c', old. split; [done|]. split; [|done].
  assert (buf_loc blob ∉ locs c) as Hnew.
  { destruct Hfresh as [Hn|(b0 & -> & ->)]; [|by apply Hbuf]. intros (e & Ee & Hie)%list_elem_of_fmap. rewrite Forall_forall in Hb. destruct (Hb e Hie) as [_ He]. by rewrite <- Ee in He. }
  destruct Hcases as [[He ->]|(Hn & kept & dropped & He & He' & Hold)].
  - constructor; rewrite ?He; done.
  - rewrite He in Hb', Hl, Hnew. rewrite fmap_app in Hl, Hnew. apply Forall_app in Hb' as [Hb' _]. apply NoDup_app in Hl as (Hl & Hdis & _).
    constructor; rewrite ?He'; cbn [fmap list_fmap].
    + done.
    + constructor; [by split|done].
    + constructor; [set_solver|done].
    + intros b Eb. destruct (Hold _ Eb) as [id' Hin']. assert (buf_loc b ∈ (fun e : ID * buffer => buf_loc e.2) <$> dropped) as Hdrop by (apply list_elem_of_fmap; by exists (id', b)).
      rewrite not_elem_of_cons. split; [intros Eq; apply Hnew; cbn in Eq; rewrite <- Eq; set_solver|]. intros Hk'. by apply (Hdis _ Hk').
Qed.
End Cached.
