(* ===== verification/Dump.v ===== *)
(** Dumping trees as archives (src/internal/dump/common.go, tar.go, zip.go, acl.go).

    The writers of archives, of packages archive/tar and archive/zip, are a class of
    calls over a state.  The goroutine that walks the tree is complete before the
    archive is written: it only depends on the repository, and after an error of the
    writer what it still sends is not read.  The blobs lie in the buffers of a cache,
    which are used again. *)

From S2P Require Import Prelude Bytes GoString Restic GoTime Snapshot Tree Walker FsPath FS NodeStat Backend MasterIndex BlobCache Repository Buffers.

#[local] Open Scope Z_scope.

Definition IsDir (node : Node) : bool := String.eqb (n_Type node) "dir".
Definition IsLink (node : Node) : bool := String.eqb (n_Type node) "symlink".
Definition IsFile (node : Node) : bool := String.eqb (n_Type node) "file".

Definition set_NodePath (n : Node) (path : string) : Node :=
  mkNode (n_Name n) (n_Type n) (n_Mode n) (n_ModTime n) (n_AccessTime n) (n_ChangeTime n) (n_UID n) (n_GID n) (n_User n) (n_Group n)
    (n_Inode n) (n_DeviceID n) (n_Size n) (n_Links n) (n_LinkTarget n) (n_ExtendedAttributes n) (n_Device n) (n_Content n) (n_Subtree n)
    (n_Error n) path.

(** * Walking *)

Section Send.
Context (LoadTree : ID -> outcome Tree).

(** The callback of [sendNodes]; the state is what was sent. *)
Definition send_visit (root_path : string) (sent : list Node) (parentTreeID : ID) (nodepath : string) (node : option Node) (err : option error)
    : list Node * bool * walk_err :=
  match err with
  | Some e => (sent, false, WalkError e)
  | None =>
      match node with
      | None => (sent, false, NoError)
      | Some node =>
          let node := set_NodePath node (path_Join [root_path; nodepath]) in
          if negb (IsFile node) && negb (IsDir node) && negb (IsLink node) then (sent, false, NoError) else (sent ++ [node], false, NoError)
      end
  end.

Definition sendNodes (fuel : nat) (root : Node) (sent : list Node) : list Node * outcome unit :=
  let sent := sent ++ [root] in
  if negb (IsDir root) then (sent, Ok tt)
  else
    match n_Subtree root with
    | None => (sent, Panic "nil pointer dereference")
    | Some sub => let '(sent, _, r) := Walk LoadTree (send_visit (n_Path root)) fuel sub None sent in (sent, r)
    end.

(** An error ends the loop and is lost. *)
Fixpoint sendTrees (fuel : nat) (rootPath : string) (tree : Tree) (sent : list Node) : list Node * outcome unit :=
  match tree with
  | [] => (sent, Ok tt)
  | root :: tree =>
      match sendNodes fuel (set_NodePath root (path_Join [rootPath; n_Name root])) sent with
      | (sent, Ok _) => sendTrees fuel rootPath tree sent
      | (sent, Err _) => (sent, Ok tt)
      | (sent, Panic p) => (sent, Panic p)
      end
  end.
End Send.

(** * Writing *)

(** The writer of an archive with headers of type [H]. *)
Class Archive (A H : Type) := {
  ar_Header : H -> A -> A * option error;
  ar_Write : list byte -> A -> A * option error;
  ar_Close : A -> A * option error }.

Section Write.
Context {L : Type} `{LRU L} {A HT : Type} `{Archive A HT}.
(** [LoadBlob] of a data blob into a buffer. *)
Context (LoadBlob : ID -> option buffer -> memory -> memory * outcome buffer).

Record dumper := mkDumper { d_cache : Cache L; d_mem : memory; d_w : A }.

Definition write_out (data : list byte) (d : dumper) : dumper * outcome unit :=
  let '(w, err) := ar_Write data (d_w d) in
  (mkDumper (d_cache d) (d_mem d) w, match err with Some e => Err (ErrWrap e "Write") | None => Ok tt end).

(** The loop of [writeNode]; [buf] is the evicted buffer that is used again. *)
Fixpoint write_blobs (content : list ID) (buf : option buffer) (d : dumper) : dumper * outcome unit :=
  match content with
  | [] => (d, Ok tt)
  | id :: content =>
      let '(c, hit) := Cache_Get (d_cache d) id in
      let d := mkDumper c (d_mem d) (d_w d) in
      match hit with
      | Some blob =>
          match write_out (Buffers.content (d_mem d) blob) d with
          | (d, Ok _) => write_blobs content buf d
          | r => r
          end
      | None =>
          match LoadBlob id buf (d_mem d) with
          | (mem, Err e) => (mkDumper (d_cache d) mem (d_w d), Err e)
          | (mem, Panic p) => (mkDumper (d_cache d) mem (d_w d), Panic p)
          | (mem, Ok blob) =>
              match Cache_Add (d_cache d) id blob with
              | Err e => (mkDumper (d_cache d) mem (d_w d), Err e)
              | Panic p => (mkDumper (d_cache d) mem (d_w d), Panic p)
              | Ok (c, buf) =>
                  match write_out (Buffers.content mem blob) (mkDumper c mem (d_w d)) with
                  | (d, Ok _) => write_blobs content buf d
                  | r => r
                  end
              end
          end
      end
  end.

Definition writeNode (node : Node) (d : dumper) : dumper * outcome unit := write_blobs (default [] (n_Content node)) None d.

(** A header, and what follows it. *)
Definition dump_entry (header : Node -> outcome HT) (wrap : string) (link_content : bool) (node : Node) (d : dumper) : dumper * outcome unit :=
  match header node with
  | Err e => (d, Err e)
  | Panic p => (d, Panic p)
  | Ok h =>
      match ar_Header h (d_w d) with
      | (w, Some e) => (mkDumper (d_cache d) (d_mem d) w, Err (ErrWrap e wrap))
      | (w, None) =>
          let d := mkDumper (d_cache d) (d_mem d) w in
          if link_content && IsLink node then write_out (string_bytes (n_LinkTarget node)) d else writeNode node d
      end
  end.

(** The loop over the nodes of the channel, and the deferred [Close]. *)
Fixpoint dump_nodes (dump : Node -> dumper -> dumper * outcome unit) (nodes : list Node) (d : dumper) : dumper * outcome unit :=
  match nodes with
  | [] => (d, Ok tt)
  | node :: nodes => match dump node d with (d, Ok _) => dump_nodes dump nodes d | r => r end
  end.

Definition dump_all (dump : Node -> dumper -> dumper * outcome unit) (nodes : list Node) (d : dumper) : dumper * outcome unit :=
  match dump_nodes dump nodes d with
  | (d, Ok _) =>
      let '(w, err) := ar_Close (d_w d) in
      (mkDumper (d_cache d) (d_mem d) w, match err with Some e => Err (ErrWrap e "Close") | None => Ok tt end)
  | r => r
  end.
End Write.

(** * Access control lists *)

Definition get_uint16 (b0 b1 : byte) : Z := Z_of_byte b0 + 2 ^ 8 * Z_of_byte b1.

Definition aclPermText (p : Z) : string :=
  (if negb (Z.land p 4 =? 0) then "r" else "-") +:+ (if negb (Z.land p 2 =? 0) then "w" else "-") +:+ (if negb (Z.land p 1 =? 0) then "x" else "-").

Definition acl_tag (tag id : Z) : outcome string :=
  if tag =? 1 then Ok "user:"
  else if tag =? 2 then Ok ("user:" +:+ pretty id)
  else if tag =? 4 then Ok "group:"
  else if tag =? 8 then Ok ("group:" +:+ pretty id)
  else if tag =? 16 then Ok "mask:"
  else if tag =? 32 then Ok "other:"
  else Err (ErrMsg "unknown tag").

Definition line_feed : string := String.String (Ascii.ascii_of_nat 10) EmptyString.

Fixpoint acl_entries (acl : list byte) : outcome string :=
  match acl with
  | t0 :: t1 :: p0 :: p1 :: i0 :: i1 :: i2 :: i3 :: acl =>
      try id <- get_uint32 [i0; i1; i2; i3];
      try text <- acl_tag (get_uint16 t0 t1) id;
      try rest <- acl_entries acl;
      Ok (text +:+ ":" +:+ aclPermText (get_uint16 p0 p1) +:+ line_feed +:+ rest)
  | _ => Ok ""
  end.

Definition formatLinuxACL (acl : list byte) : outcome string :=
  if (zlen acl - 4 <? 0) || negb (Z.rem (zlen acl - 4) 8 =? 0) then Err (ErrMsg "wrong length")
  else
    try version <- get_uint32 acl;
    if negb (version =? 2) then Err (ErrMsg "unsupported ACL format version") else acl_entries (drop 4 acl).

(** * Tar and zip *)

(** [filepath.Rel] with the base "/". *)
Definition filepath_Rel_root (p : string) : outcome string :=
  let targ := path_Clean p in
  if negb (rooted targ) then Err (ErrMsg "Rel: can't make targpath relative to basepath")
  else if String.eqb targ "/" then Ok "." else Ok (match targ with String.String _ s => s | EmptyString => "" end).

Record tar_Header := mkTarHeader {
  th_Typeflag : Z; th_Name : string; th_Linkname : string; th_Size : Z; th_Mode : Z; th_Uid : Z; th_Gid : Z; th_Uname : string; th_Gname : string;
  th_ModTime : Time; th_AccessTime : Time; th_ChangeTime : Time; th_PAXRecords : gmap string string }.

Definition TypeReg : Z := 48.
Definition TypeSymlink : Z := 50.
Definition TypeDir : Z := 53.
Definition cISUID : Z := 2048.
Definition cISGID : Z := 1024.
Definition cISVTX : Z := 512.

Definition tarIdentifier (id : Z) : Z := if id =? -1 then 0 else id.

Definition string_of_bytes (l : list byte) : string := String.string_of_list_byte l.

Definition xattr_record (tmpMap : gmap string string) (attr : ExtendedAttribute) : gmap string string :=
  let aclKey := if String.eqb (xa_Name attr) "system.posix_acl_access" then "SCHILY.acl.access"
                else if String.eqb (xa_Name attr) "system.posix_acl_default" then "SCHILY.acl.default" else "" in
  if negb (String.eqb aclKey "") then match formatLinuxACL (xa_Value attr) with Ok text => <[aclKey := text]> tmpMap | _ => tmpMap end
  else <["SCHILY.xattr." +:+ xa_Name attr := string_of_bytes (xa_Value attr)]> tmpMap.
Definition parseXattrs (xattrs : list ExtendedAttribute) : gmap string string := fold_left xattr_record xattrs ∅.

Definition tar_header (node : Node) : outcome tar_Header :=
  try relPath <- filepath_Rel_root (n_Path node);
  let mode := Z.land (n_Mode node) ModePerm in
  let mode := if negb (Z.land (n_Mode node) ModeSetuid =? 0) then Z.lor mode cISUID else mode in
  let mode := if negb (Z.land (n_Mode node) ModeSetgid =? 0) then Z.lor mode cISGID else mode in
  let mode := if negb (Z.land (n_Mode node) ModeSticky =? 0) then Z.lor mode cISVTX else mode in
  let type := if IsDir node then TypeDir else if IsLink node then TypeSymlink else if IsFile node then TypeReg else 0 in
  Ok (mkTarHeader type (if IsDir node then relPath +:+ "/" else relPath) (if IsLink node then n_LinkTarget node else "") (i64 (n_Size node)) mode
        (tarIdentifier (n_UID node)) (tarIdentifier (n_GID node)) (n_User node) (n_Group node) (n_ModTime node) (n_AccessTime node) (n_ChangeTime node)
        (parseXattrs (n_ExtendedAttributes node))).

Record zip_Header := mkZipHeader { zh_Name : string; zh_UncompressedSize64 : Z; zh_Modified : Time; zh_Mode : Z }.

Definition zip_header (node : Node) : outcome zip_Header :=
  try relPath <- filepath_Rel_root (n_Path node);
  Ok (mkZipHeader (if IsDir node then relPath +:+ "/" else relPath) (n_Size node) (n_ModTime node) (n_Mode node)).

Section Dump.
Context {L : Type} `{LRU L} {A : Type} `{!Archive A tar_Header, !Archive A zip_Header}.
Context (LoadTree : ID -> outcome Tree) (LoadBlob : ID -> option buffer -> memory -> memory * outcome buffer).

Abbreviation dumper_ := (@dumper L A).

Definition dumpNodeTar (node : Node) (d : dumper_) : dumper_ * outcome unit := dump_entry LoadBlob tar_header "writing header for %q: %w" false node d.
Definition dumpNodeZip (node : Node) (d : dumper_) : dumper_ * outcome unit := dump_entry LoadBlob zip_header "ZipHeader" true node d.
Definition dumpTar (nodes : list Node) (d : dumper_) : dumper_ * outcome unit := dump_all (HT := tar_Header) dumpNodeTar nodes d.
Definition dumpZip (nodes : list Node) (d : dumper_) : dumper_ * outcome unit := dump_all (HT := zip_Header) dumpNodeZip nodes d.

(** [DumpTree]; the fuel bounds the depth of the tree. *)
Definition DumpTree (fuel : nat) (format : string) (tree : Tree) (rootPath : string) (d : dumper_) : dumper_ * outcome unit :=
  match sendTrees LoadTree fuel rootPath tree [] with
  | (_, Panic p) => (d, Panic p)
  | (nodes, _) =>
      if String.eqb format "tar" then dumpTar nodes d
      else if String.eqb format "zip" then dumpZip nodes d
      else (d, Panic "unknown dump format")
  end.
End Dump.

(** ** The text of a list *)

Record acl_entry := mkAcl { ae_tag : Z; ae_perm : Z; ae_id : Z }.
Definition put_uint16 (v : Z) : list byte := [byte_of_Z v; byte_of_Z (Z.shiftr v 8)].
Definition put_acl (e : acl_entry) : list byte := put_uint16 (ae_tag e) ++ put_uint16 (ae_perm e) ++ put_uint32 (ae_id e).

Definition acl_line (e : acl_entry) : string :=
  (if ae_tag e =? 1 then "user:" else if ae_tag e =? 2 then "user:" +:+ pretty (ae_id e) else if ae_tag e =? 4 then "group:"
   else if ae_tag e =? 8 then "group:" +:+ pretty (ae_id e) else if ae_tag e =? 16 then "mask:" else "other:")
  +:+ ":" +:+ aclPermText (ae_perm e) +:+ line_feed.

Lemma get_put_uint16 v : 0 <= v < 2 ^ 16 -> get_uint16 (byte_of_Z v) (byte_of_Z (Z.shiftr v 8)) = v.
Proof. intros Hv. unfold get_uint16. rewrite !Z_of_byte_of_Z, Z.shiftr_div_pow2 by lia. change (2 ^ 8) with 256. zdiv_lia. Qed.

(** A list in the format of Linux is printed entry by entry. *)
Theorem formatLinuxACL_prints (entries : list acl_entry)
    (Hentries : Forall (fun e => ae_tag e ∈ [1; 2; 4; 8; 16; 32] /\ 0 <= ae_perm e < 2 ^ 16 /\ is_u32 (ae_id e)) entries) :
  formatLinuxACL (put_uint32 2 ++ concat (put_acl <$> entries)) = Ok (foldr String.append "" (acl_line <$> entries)).
Proof.
  assert (forall entries, length (concat (put_acl <$> entries)) = (8 * length entries)%nat) as Hlen.
  { clear. induction entries as [|e l IH]; [done|]. cbn [fmap list_fmap concat]. rewrite length_app, IH. cbn [length put_acl]. unfold put_acl, put_uint16, put_uint32. cbn. lia. }
  unfold formatLinuxACL, zlen. rewrite length_app, length_put_uint32, Hlen.
  replace (Z.of_nat (4 + 8 * length entries) - 4) with (8 * Z.of_nat (length entries)) by lia.
  destruct (Z.ltb_spec (8 * Z.of_nat (length entries)) 0); [lia|]. rewrite Z.mul_comm, Z.rem_mul by done. cbn [Z.eqb negb orb].
  rewrite get_put_uint32. cbn [mbind outcome_bind]. change (u32 2 =? 2) with true. cbn [negb]. change (drop 4 (put_uint32 2 ++ concat (put_acl <$> entries))) with (concat (put_acl <$> entries)).
  clear Hlen H. induction Hentries as [|e l (Htag & Hperm & Hid) _ IH]; [done|]. cbn [fmap list_fmap concat]. unfold put_acl at 1, put_uint16, put_uint32 at 1.
  cbn [app acl_entries]. pose proof (get_put_uint32 (ae_id e) []) as Hg. rewrite app_nil_r in Hg. unfold put_uint32 in Hg. rewrite Hg, u32_id by done. cbn [mbind outcome_bind].
  rewrite !get_put_uint16 by (done || (repeat (apply elem_of_cons in Htag as [->|Htag]; [lia|]); by apply elem_of_nil in Htag)). rewrite IH.
  assert (acl_tag (ae_tag e) (ae_id e) = Ok (if ae_tag e =? 1 then "user:" else if ae_tag e =? 2 then "user:" +:+ pretty (ae_id e) else if ae_tag e =? 4 then "group:"
   else if ae_tag e =? 8 then "group:" +:+ pretty (ae_id e) else if ae_tag e =? 16 then "mask:" else "other:")) as ->.
  { unfold acl_tag. repeat (apply elem_of_cons in Htag as [->|Htag]; [reflexivity|]). by apply elem_of_nil in Htag. }
  cbn [mbind outcome_bind]. f_equal. cbn [foldr]. unfold acl_line at 2. by rewrite !string_app_assoc.
Qed.

(** * The archive holds the tree *)

(** What is done to the writer, and how it ends early. *)
Inductive event (HT : Type) := EvHeader (h : HT) (wrap : string) | EvWrite (data : list byte) | EvEnd (r : outcome unit).
Arguments EvHeader {HT}. Arguments EvWrite {HT}. Arguments EvEnd {HT}.

Fixpoint replay {A HT} `{Archive A HT} (l : list (event HT)) (w : A) : A * outcome unit :=
  match l with
  | [] => (w, Ok tt)
  | EvHeader h wrap :: l => match ar_Header h w with (w, None) => replay l w | (w, Some e) => (w, Err (ErrWrap e wrap)) end
  | EvWrite data :: l => match ar_Write data w with (w, None) => replay l w | (w, Some e) => (w, Err (ErrWrap e "Write")) end
  | EvEnd r :: _ => (w, r)
  end.

Lemma events_app {A HT} `{Archive A HT} (l1 l2 : list (event HT)) (w : A) :
  replay (l1 ++ l2) w = match replay l1 w with (w, Ok _) => replay l2 w | r => r end \/ exists r, EvEnd r ∈ l1.
Proof.
  revert w. induction l1 as [|e l1 IH]; intros w; [by left|]. destruct e as [h wrap|data|r]; cbn [app replay]; [| |right; exists r; by left].
  - destruct (ar_Header h w) as [w' [e|]]; [by left|]. destruct (IH w') as [->|[r Hr]]; [by left|right; exists r; by right].
  - destruct (ar_Write data w) as [w' [e|]]; [by left|]. destruct (IH w') as [->|[r Hr]]; [by left|right; exists r; by right].
Qed.

Section Facts.
Context {L : Type} `{HL : LRULaws L} {A HT : Type} `{HA : Archive A HT}.
Context (LoadBlob : ID -> option buffer -> memory -> memory * outcome buffer) (load : ID -> outcome (list byte)) (Hload : loads_into LoadBlob load).

Abbreviation dumper_ := (@dumper L A).
(** What Buffers states of a cache, its memory and a buffer. *)
Abbreviation dump_inv d buf := (cached load (d_cache d) (d_mem d) buf).

Definition blob_event (id : ID) : event HT :=
  match load id with Ok data => EvWrite data | Err e => EvEnd (Err e) | Panic p => EvEnd (Panic p) end.

(** Each blob is written with its content, whatever was in the cache before. *)
Lemma write_blobs_spec ids : forall buf d d' r,
  dump_inv d buf -> write_blobs LoadBlob ids buf d = (d', r) ->
  (exists buf', dump_inv d' buf') /\ replay (blob_event <$> ids) (d_w d) = (d_w d', r).
Proof using HL Hload.
  induction ids as [|id ids IH]; intros buf d d' r Hi E; cbn [write_blobs fmap list_fmap replay] in *.
  { injection E as <- <-. split; [by exists buf|done]. }
  pose proof (Get_cached load _ _ _ id Hi) as Hg. destruct (Cache_Get (d_cache d) id) as [c hit]. destruct Hg as [Hi1 Hhit].
  unfold blob_event at 1. destruct hit as [blob|].
  - rewrite (proj1 Hhit). unfold write_out in E. cbn [d_w d_mem d_cache] in E. destruct (ar_Write _ (d_w d)) as [w [e|]] ; cbn [replay].
    + injection E as <- <-. split; [|done]. by exists buf.
    + by apply IH in E.
  - cbn [d_mem d_cache d_w] in E. destruct (LoadBlob id buf (d_mem d)) as [mem rl] eqn:El. destruct rl as [blob|e|p].
    + destruct (Add_cached LoadBlob load Hload _ _ _ _ _ _ Hi1 El) as (c2 & buf2 & Ea & Hi2 & Hid). rewrite Ea in E. rewrite Hid. cbn [replay].
      unfold write_out in E. cbn [d_w d_cache d_mem] in E. destruct (ar_Write _ (d_w d)) as [w [e|]].
      * injection E as <- <-. split; [|done]. by exists buf2.
      * by apply IH in E.
    + injection E as <- <-. destruct (Hload _ _ _ _ _ El) as (Hk & Hd & ->). split; [|done]. exists None. by eapply cached_keep.
    + injection E as <- <-. destruct (Hload _ _ _ _ _ El) as (Hk & Hd & ->). split; [|done]. exists None. by eapply cached_keep.
Qed.

(** The events of a node. *)
Definition node_events (header : Node -> outcome HT) (wrap : string) (link_content : bool) (node : Node) : list (event HT) :=
  match header node with
  | Err e => [EvEnd (Err e)]
  | Panic p => [EvEnd (Panic p)]
  | Ok h => EvHeader h wrap :: (if link_content && IsLink node then [EvWrite (string_bytes (n_LinkTarget node))] else blob_event <$> default [] (n_Content node))
  end.

Lemma dump_entry_spec header wrap link_content node d d' r :
  dump_inv d None -> dump_entry LoadBlob header wrap link_content node d = (d', r) ->
  dump_inv d' None /\ replay (node_events header wrap link_content node) (d_w d) = (d_w d', r).
Proof using HL Hload.
  intros Hi E. unfold dump_entry in E. unfold node_events. destruct (header node) as [h|e|p]; [|by injection E as <- <-..]. cbn [replay].
  destruct (ar_Header h (d_w d)) as [w [e|]]; [by injection E as <- <-|]. destruct (link_content && IsLink node).
  - unfold write_out in E. cbn [d_w d_cache d_mem replay] in *. by destruct (ar_Write _ w) as [w' [e|]]; injection E as <- <-.
  - destruct (write_blobs_spec _ _ _ _ _ (Hi : dump_inv (mkDumper (d_cache d) (d_mem d) w) None) E) as [[buf Hb] Hr]. split; [by eapply cached_no_buffer|exact Hr].
Qed.

(** The blobs of a node end with an error or a panic, or are all written. *)
Lemma replay_nodes (ev : Node -> list (event HT)) node nodes w w' r :
  replay (ev node) w = (w', r) ->
  replay (ev node ++ nodes) w = match r with Ok _ => replay nodes w' | _ => (w', r) end \/ exists u, EvEnd (Ok u) ∈ ev node.
Proof using Type.
  generalize (ev node) as l. intros l. revert w. induction l as [|e l IH]; intros w E; cbn [app replay] in *; [left; by injection E as <- <-|].
  destruct e as [h wrap|data|r0].
  - destruct (ar_Header h w) as [w1 [e|]]; [left; by injection E as <- <-|]. destruct (IH w1 E) as [->|[u Hu]]; [by left|right; exists u; by right].
  - destruct (ar_Write data w) as [w1 [e|]]; [left; by injection E as <- <-|]. destruct (IH w1 E) as [->|[u Hu]]; [by left|right; exists u; by right].
  - injection E as <- <-. destruct r0 as [u|e|p]; [|by left..]. right. exists u. by left.
Qed.

Lemma node_events_end header wrap link_content node u : EvEnd (Ok u) ∉ node_events header wrap link_content node.
Proof using Type.
  unfold node_events. destruct (header node) as [h|e|p]; [|by intros ?%list_elem_of_singleton..]. rewrite not_elem_of_cons. split; [done|].
  destruct (link_content && IsLink node); [by intros ?%list_elem_of_singleton|]. intros (id & E & _)%list_elem_of_fmap. unfold blob_event in E. by destruct (load id).
Qed.

Lemma dump_nodes_spec header wrap link_content nodes d d' r :
  dump_inv d None -> dump_nodes (dump_entry LoadBlob header wrap link_content) nodes d = (d', r) ->
  dump_inv d' None /\ replay (concat (node_events header wrap link_content <$> nodes)) (d_w d) = (d_w d', r).
Proof using HL Hload.
  revert d. induction nodes as [|node nodes IH]; intros d Hi E; cbn [dump_nodes fmap list_fmap concat] in *; [by injection E as <- <-|].
  destruct (dump_entry _ _ _ _ node d) as [d1 r1] eqn:E1. destruct (dump_entry_spec _ _ _ _ _ _ _ Hi E1) as [Hi1 Hr1].
  destruct (replay_nodes (node_events header wrap link_content) node (concat (node_events header wrap link_content <$> nodes)) _ _ _ Hr1) as [->|[u Hu]];
    [|by apply node_events_end in Hu].
  destruct r1 as [[]|e|p]; [by apply IH|by injection E as <- <-..].
Qed.

(** The whole archive. *)
Definition archive_events (header : Node -> outcome HT) (wrap : string) (link_content : bool) (nodes : list Node) (w : A) : A * outcome unit :=
  match replay (concat (node_events header wrap link_content <$> nodes)) w with
  | (w, Ok _) => let '(w, err) := ar_Close w in (w, match err with Some e => Err (ErrWrap e "Close") | None => Ok tt end)
  | r => r
  end.

Lemma dump_all_spec header wrap link_content nodes d d' r :
  dump_inv d None -> dump_all (dump_entry LoadBlob header wrap link_content) nodes d = (d', r) ->
  archive_events header wrap link_content nodes (d_w d) = (d_w d', r).
Proof using HL Hload.
  intros Hi E. unfold dump_all in E. unfold archive_events. destruct (dump_nodes _ nodes d) as [d1 r1] eqn:E1. destruct (dump_nodes_spec _ _ _ _ _ _ _ Hi E1) as [_ ->].
  destruct r1 as [[]|e|p]; [|by injection E as <- <-..]. destruct (ar_Close (d_w d1)) as [w [e|]]; by injection E as <- <-.
Qed.
End Facts.

(** ** What is listed *)

Section Listing.
Context (LoadTree : ID -> outcome Tree).

(** The nodes of an archive below a root: the special files are left out, except a root
    itself. *)
Definition listed (root_path : string) (item : ID * string * Node) : option Node :=
  let node := set_NodePath item.2 (path_Join [root_path; item.1.2]) in
  if IsFile node || IsDir node || IsLink node then Some node else None.

Definition list_root (n : nat) (rootPath : string) (root : Node) : list Node :=
  let root := set_NodePath root (path_Join [rootPath; n_Name root]) in
  root :: (if IsDir root then
             match n_Subtree root with
             | Some sub => match LoadTree sub with Ok t => omap (listed (n_Path root)) (preorder LoadTree n "/" sub t) | _ => [] end
             | None => []
             end
           else []).

Lemma send_never_skips root_path : never_skips (send_visit root_path).
Proof using Type.
  intros s id p node err. unfold send_visit. destruct err as [e|]; [by do 2 eexists|]. destruct node as [node|]; [|by do 2 eexists].
  destruct (_ && _); by do 2 eexists.
Qed.

Lemma send_visits root_path l sent : visit (send_visit root_path) sent l = (sent ++ omap (listed root_path) l, Ok tt).
Proof using Type.
  revert sent. induction l as [|[[id p] node] l IH]; intros sent; [by rewrite app_nil_r|]. cbn [visit send_visit omap list_omap].
  assert (listed root_path (id, p, node) = if negb (IsFile node) && negb (IsDir node) && negb (IsLink node) then None else Some (set_NodePath node (path_Join [root_path; p]))) as ->
    by (unfold listed; cbn [fst snd]; unfold IsFile, IsDir, IsLink, set_NodePath; cbn [n_Type]; by destruct (String.eqb _ "file"), (String.eqb _ "dir"), (String.eqb _ "symlink")).
  change (IsFile (set_NodePath node _)) with (IsFile node). change (IsDir (set_NodePath node _)) with (IsDir node). change (IsLink (set_NodePath node _)) with (IsLink node).
  destruct (_ && _); rewrite IH; by rewrite <- ?app_assoc.
Qed.

Lemma sendNodes_lists n rootPath root sent :
  (IsDir root = true -> exists sub t, n_Subtree root = Some sub /\ LoadTree sub = Ok t /\ walkable LoadTree n t) ->
  sendNodes LoadTree n (set_NodePath root (path_Join [rootPath; n_Name root])) sent = (sent ++ list_root n rootPath root, Ok tt).
Proof using Type.
  intros Hw. unfold sendNodes, list_root. change (IsDir (set_NodePath root _)) with (IsDir root). change (n_Subtree (set_NodePath root _)) with (n_Subtree root).
  destruct (IsDir root); cbn [negb]; [|done]. destruct (Hw eq_refl) as (sub & t & -> & Hl & Hwt). unfold Walk. rewrite (load_ptr_ok _ _ _ Hl), Hl. cbn [send_visit default from_option].
  rewrite (walk_visit _ _ (send_never_skips _)) by done. rewrite send_visits. cbn. by rewrite <- app_assoc.
Qed.

Lemma sendTrees_lists n rootPath tree sent :
  walkable LoadTree (S n) tree -> sendTrees LoadTree n rootPath tree sent = (sent ++ concat (list_root n rootPath <$> tree), Ok tt).
Proof using Type.
  cbn [walkable]. intros HF. revert sent. induction HF as [|root tree [_ Hr] _ IH]; intros sent; cbn [sendTrees fmap list_fmap concat]; [by rewrite app_nil_r|].
  rewrite sendNodes_lists.
  - by rewrite IH, app_assoc.
  - intros Hd. apply String.eqb_eq in Hd. destruct (Hr Hd) as (sub & t & ? & ? & ?). by exists sub, t.
Qed.
End Listing.

(** ** The two formats *)

(** C37. An archive has an entry for every file, directory and symbolic link of the tree,
    each directory before its entries and these by name, with the header of its node
    and the whole content of its blobs, up to the first error of the writer or of
    a blob that does not load; what the cache holds and which buffers are used again
    makes no difference. *)
Theorem DumpTree_archives {L : Type} `{LRULaws L} {A : Type} `{!Archive A tar_Header, !Archive A zip_Header}
    (LoadTree : ID -> outcome Tree) (LoadBlob : ID -> option buffer -> memory -> memory * outcome buffer) (load : ID -> outcome (list byte))
    (n : nat) (format : string) (tree : Tree) (rootPath : string) (c : Cache L) (w : A)
    (Hload : loads_into LoadBlob load) (Hwalk : walkable LoadTree (S n) tree) (Hcache : BlobCache.New (64 * 2 ^ 20) = Ok c) :
  let nodes := concat (list_root LoadTree n rootPath <$> tree) in
  let '(d, r) := DumpTree LoadTree LoadBlob n format tree rootPath (mkDumper c ∅ w) in
  (d_w d, r) =
    if String.eqb format "tar" then archive_events load tar_header "writing header for %q: %w" false nodes w
    else if String.eqb format "zip" then archive_events load zip_header "ZipHeader" true nodes w
    else (w, Panic "unknown dump format").
Proof.
  cbv zeta. assert (cached load c ∅ None) as Hi by (by apply (New_cached load (64 * 2 ^ 20))).
  unfold DumpTree. rewrite sendTrees_lists by done. cbn [app].
  destruct (String.eqb format "tar"); [|destruct (String.eqb format "zip"); [|done]].
  - destruct (dumpTar LoadBlob _ _) as [d r] eqn:E. symmetry. by apply (dump_all_spec LoadBlob load Hload) in E.
  - destruct (dumpZip LoadBlob _ _) as [d r] eqn:E. symmetry. by apply (dump_all_spec LoadBlob load Hload) in E.
Qed.

(** When the tree of a directory does not load the archive ends before it, and there is
    no error. *)
Lemma DumpTree_loses_error {L : Type} `{LRU L} {A : Type} `{!Archive A tar_Header, !Archive A zip_Header}
    (LoadTree : ID -> outcome Tree) (LoadBlob : ID -> option buffer -> memory -> memory * outcome buffer) (n : nat) (root : Node) (tree : Tree) (rootPath : string)
    (d : @dumper L A) (sub : ID) (e : error) (Hdir : IsDir root = true) (Hsub : n_Subtree root = Some sub) (Htree : LoadTree sub = Err e) :
  DumpTree LoadTree LoadBlob n "tar" (root :: tree) rootPath d = dumpTar LoadBlob [set_NodePath root (path_Join [rootPath; n_Name root])] d.
Proof.
  unfold DumpTree. cbn [sendTrees]. unfold sendNodes. change (IsDir (set_NodePath root _)) with (IsDir root). change (n_Subtree (set_NodePath root _)) with (n_Subtree root).
  rewrite Hdir, Hsub. unfold Walk, load_ptr. rewrite Htree. reflexivity.
Qed.

(** ** Loading from a repository *)

Section Repository.
Context {B : Type} `{Backend.Backend B} (aes_Encrypt : list byte -> list byte -> list byte) (poly1305_Verify : list byte -> list byte -> list byte -> bool)
  (Hash : list byte -> ID) (sum64 : list byte -> Z) (zstd_DecodeAll : list byte -> outcome (list byte)) (junk : PackedBlob -> list byte).
Context (cache : option (PackedBlob -> bool)) (r : @Repository.Repository B) (t : BlobType).

(** [LoadBlob] with its buffer. *)
Definition LoadBlob_buffer (id : ID) (buf : option buffer) (mem : memory) : memory * outcome buffer :=
  match MasterIndex.Lookup sum64 (idx r) (mkBlobHandle id t) with
  | Err e => (mem, Err e)
  | Panic p => (mem, Panic p)
  | Ok blobs =>
      if Nat.eqb (length blobs) 0 then (mem, Err (ErrMsg "id %v not found in repository"))
      else load_into (load_candidate aes_Encrypt poly1305_Verify Hash zstd_DecodeAll r t id) junk None (sortCachedPacksFirst cache blobs) buf mem
  end.

Lemma LoadBlob_buffer_loads :
  (forall id blobs, MasterIndex.Lookup sum64 (idx r) (mkBlobHandle id t) = Ok blobs -> Forall (fun blob => 0 <= b_Length (pb_Blob blob)) (sortCachedPacksFirst cache blobs)) ->
  loads_into LoadBlob_buffer (LoadBlob aes_Encrypt poly1305_Verify Hash sum64 zstd_DecodeAll cache r t).
Proof using Type.
  intros Hlen id buf mem mem' res E. unfold LoadBlob_buffer in E. unfold LoadBlob. specialize (Hlen id).
  destruct (MasterIndex.Lookup sum64 (idx r) (mkBlobHandle id t)) as [blobs|e|p]; [|by injection E as <- <-..]. cbn [mbind outcome_bind].
  destruct (Nat.eqb (length blobs) 0); [by injection E as <- <-|]. rewrite <- load_first_candidates.
  apply (load_into_spec _ junk None _ _ _ _ _ (Hlen blobs eq_refl)) in E. exact E.
Qed.
End Repository.

(** A directory with a file whose two blobs are the same, and a pipe. *)
Definition ex_load (id : ID) : outcome (list byte) := if bool_decide (id = ex_id 0) then Ok (string_bytes "ab") else Err (ErrMsg "not found").
Definition ex_copy : PackedBlob := mkPackedBlob (mkBlob (mkBlobHandle (ex_id 0) DataBlob) 34 0 0) (ex_id 1).
Definition ex_LoadBlob (id : ID) (buf : option buffer) (mem : memory) : memory * outcome buffer := load_into (fun _ => ex_load id) (fun _ => []) None [ex_copy] buf mem.
Lemma ex_loads : loads_into ex_LoadBlob ex_load.
Proof.
  intros id buf mem mem' r E. apply (load_into_spec _ (fun _ => [])) in E; [|by repeat constructor]. assert (load_first (fun _ => ex_load id) None [ex_copy] = ex_load id) as Hl.
  { cbn. by destruct (ex_load id). }
  by rewrite Hl in E.
Qed.
Definition ex_dump_file : Node := mkNode "f" "file" 420 time_zero time_zero time_zero 0 0 "" "" 0 0 4 1 "" [] 0 (Some [ex_id 0; ex_id 0]) None "" "".
Definition ex_dump_tree (id : ID) : outcome Tree := if bool_decide (id = ex_id 2) then Ok [ex_node "p" "fifo" None; ex_dump_file] else Err (ErrMsg "not found").
Definition ex_root : Node := ex_node "d" "dir" (Some (ex_id 2)).

(** A writer that logs the names and the data. *)
Definition ex_log (H : Type) (name : H -> string) : Archive (list string) H := {|
  ar_Header h w := (w ++ [name h], None);
  ar_Write data w := (w ++ [string_of_bytes data], None);
  ar_Close w := (w ++ ["end"], None) |}.

Lemma DumpTree_archives_witness :
  exists c d, BlobCache.New (H := ex_LRU) (64 * 2 ^ 20) = Ok c /\
    DumpTree (H := ex_LRU) (Archive0 := ex_log tar_Header th_Name) (Archive1 := ex_log zip_Header zh_Name) ex_dump_tree ex_LoadBlob 2 "tar" [ex_root] "/" (mkDumper c ∅ []) = (d, Ok tt) /\
    d_w d = ["d/"; "d/f"; "ab"; "ab"; "end"].
Proof.
  destruct (BlobCache.New (H := ex_LRU) (64 * 2 ^ 20)) as [c|e|p] eqn:Ec; [|vm_compute in Ec; discriminate..]. exists c.
  pose proof (DumpTree_archives (H0 := ex_LRULaws) (Archive0 := ex_log tar_Header th_Name) (Archive1 := ex_log zip_Header zh_Name) ex_dump_tree ex_LoadBlob ex_load
    2 "tar" [ex_root] "/" c []) as Hd. cbv zeta in Hd. destruct (DumpTree _ _ _ _ _ _ _) as [d r] eqn:Ed. exists d. split; [done|].
  assert (walkable ex_dump_tree 3 [ex_root]) as Hwalk.
  { constructor; [|constructor]. split; [done|]. intros _. exists (ex_id 2), [ex_node "p" "fifo" None; ex_dump_file]. split_and!; [done|by vm_compute|].
    constructor; [|constructor; [|constructor]]; (split; [done|by intros ?]). }
  specialize (Hd ex_loads Hwalk Ec).
  vm_compute in Hd. injection Hd as Hw ->. by split.
Defined.
