(* ===== verification/Fuse.v ===== *)
(** The files and directories of a mount (src/internal/fuse/file.go, dir.go, inode.go,
    link.go, other.go, xattr.go).

    The requests of the kernel are calls; the cache of blobs and the memory of its
    buffers are the state they share.  A slice of a buffer that a call holds lies in a
    buffer nobody writes to again: [LoadBlob] is called without one, and the evicted
    buffers are left to the garbage collector. *)

From S2P Require Import Prelude Bytes GoString Restic GoTime Snapshot Tree FsPath FileSaver Backend MasterIndex BlobCache Repository Buffers Dump.

#[local] Open Scope Z_scope.

Definition ctx_Canceled : error := ErrMsg "context canceled".

Fixpoint errors_Is (e target : error) : bool :=
  bool_decide (e = target) || match e with ErrWrap cause _ => errors_Is cause target | ErrMsg _ => false end.

Definition unwrapCtxCanceled (err : error) : error := if errors_Is err ctx_Canceled then ctx_Canceled else err.

Definition unwrapped {A} (o : outcome A) : outcome A := match o with Err e => Err (unwrapCtxCanceled e) | _ => o end.

Definition blockSize : Z := 512.

(** [fuse.Attr], as far as the file system sets it. *)
Record Attr := mkAttr {
  a_Inode : Z; a_Mode : Z; a_Size : Z; a_Blocks : Z; a_BlockSize : Z; a_Nlink : Z; a_Uid : Z; a_Gid : Z; a_Atime : Time; a_Ctime : Time; a_Mtime : Time }.

Definition blocks_of (size : Z) : Z := u64 (size + blockSize - 1) / blockSize.

(** * Files *)

Record file := mkFile { f_inode : Z; f_node : Node }.
Record openFile := mkOpenFile { of_file : file; of_cumsize : list Z }.

Definition newFile (inode : Z) (node : Node) : file := mkFile inode node.

Definition file_Attr (OwnerIsRoot : bool) (f : file) (a : Attr) : Attr :=
  let n := f_node f in
  mkAttr (f_inode f) (n_Mode n) (n_Size n) (blocks_of (n_Size n)) blockSize (u32 (n_Links n))
    (if OwnerIsRoot then a_Uid a else n_UID n) (if OwnerIsRoot then a_Gid a else n_GID n) (n_AccessTime n) (n_ChangeTime n) (n_ModTime n).

Section Open.
Context (LookupBlobSize : ID -> outcome (option Z)).

(** The loop of [Open]. *)
Fixpoint cumulate (content : list ID) (bytes : Z) (cumsize : list Z) : outcome (Z * list Z) :=
  match content with
  | [] => Ok (bytes, cumsize)
  | id :: content =>
      try found <- LookupBlobSize id;
      match found with
      | None => Err (ErrMsg "id %v not found in repository")
      | Some size => let bytes := u64 (bytes + u64 size) in cumulate content bytes (cumsize ++ [bytes])
      end
  end.

Definition file_Open (f : file) : outcome openFile :=
  try (bytes, cumsize) <- cumulate (default [] (n_Content (f_node f))) 0 [0];
  let f := if bytes =? n_Size (f_node f) then f else mkFile (f_inode f) (set_Size (f_node f) bytes) in
  Ok (mkOpenFile f cumsize).
End Open.

Section Read.
Context {L : Type} `{LRU L} (LoadBlob : ID -> option buffer -> memory -> memory * outcome buffer).

Record mount := mkMount { m_cache : Cache L; m_mem : memory }.

Definition getBlobAt (f : openFile) (i : nat) (m : mount) : mount * outcome buffer :=
  match default [] (n_Content (f_node (of_file f))) !! i with
  | None => (m, Panic "index out of range")
  | Some id =>
      let '(c, hit) := Cache_Get (m_cache m) id in
      match hit with
      | Some blob => (mkMount c (m_mem m), Ok blob)
      | None =>
          match LoadBlob id None (m_mem m) with
          | (mem, Err e) => (mkMount c mem, Err (unwrapCtxCanceled e))
          | (mem, Panic p) => (mkMount c mem, Panic p)
          | (mem, Ok blob) =>
              match Cache_Add c id blob with
              | Ok (c, _) => (mkMount c mem, Ok blob)
              | Err e => (mkMount c mem, Err e)
              | Panic p => (mkMount c mem, Panic p)
              end
          end
      end
  end.

(** The loop of [Read] from the blob [i] on, over the number of blobs that are left;
    [resp] is what was copied so far. *)
Fixpoint read_loop (f : openFile) (n i : nat) (offset remainingBytes : Z) (resp : list byte) (m : mount) : mount * outcome (list byte) :=
  match n with
  | O => (m, Ok resp)
  | S n =>
      if 0 <? remainingBytes then
        match getBlobAt f i m with
        | (m, Err e) => (m, Err e)
        | (m, Panic p) => (m, Panic p)
        | (m, Ok b) =>
            let blob := Buffers.content (m_mem m) b in
            if (0 <? offset) && (zlen blob <? offset) then (m, Panic "slice bounds out of range")
            else
              let blob := if 0 <? offset then slice_from blob offset else blob in
              let copied := Z.min remainingBytes (zlen blob) in
              read_loop f n (S i) 0 (remainingBytes - copied) (resp ++ slice_to blob copied) m
        end
      else (m, Ok resp)
  end.

(** [Read] of [size] bytes, into a response with room for [room]. *)
Definition Read (f : openFile) (offset size room : Z) (m : mount) : mount * outcome (list byte) :=
  let offset := u64 offset in
  if n_Size (f_node (of_file f)) =? 0 then (m, Ok [])
  else
    let found := sort_Search (length (of_cumsize f)) (fun i => offset <? default 0 (of_cumsize f !! i)) in
    match found with
    | O => (m, Panic "index out of range")
    | S startContent =>
        match of_cumsize f !! startContent with
        | None => (m, Panic "index out of range")
        | Some before =>
            if (size <? 0) || (room <? size) then (m, Panic "slice bounds out of range")
            else read_loop f (length (of_cumsize f) - 1 - startContent) startContent (u64 (offset - before)) size [] m
        end
    end.
End Read.

(** ** What is read *)

Section ReadFacts.
Context {L : Type} `{HL : LRULaws L}.
Context (LoadBlob : ID -> option buffer -> memory -> memory * outcome buffer) (load : ID -> outcome (list byte)) (Hload : loads_into LoadBlob load).

(** The blobs in the cache are intact. *)
Abbreviation mounted m := (cached load (m_cache m) (m_mem m) None).

Lemma getBlobAt_spec (f : openFile) i id m m' r :
  mounted m -> default [] (n_Content (f_node (of_file f))) !! i = Some id -> getBlobAt LoadBlob f i m = (m', r) ->
  mounted m' /\
  match r with
  | Ok b => load id = Ok (Buffers.content (m_mem m') b)
  | Err e => exists e0, load id = Err e0 /\ e = unwrapCtxCanceled e0
  | Panic p => load id = Panic p
  end.
Proof using HL Hload.
  intros Hm Hi E. unfold getBlobAt in E. rewrite Hi in E. pose proof (Get_cached load _ _ _ id Hm) as Hg. destruct (Cache_Get (m_cache m) id) as [c hit].
  destruct Hg as [Hc Hhit]. destruct hit as [b|]; [injection E as <- <-; by destruct Hhit|]. destruct (LoadBlob id None (m_mem m)) as [mem rl] eqn:El.
  destruct rl as [blob|e|p].
  - destruct (Add_cached LoadBlob load Hload _ _ _ _ _ _ Hc El) as (c2 & buf & Ea & Hc2 & Hid). rewrite Ea in E. injection E as <- <-.
    split; [by eapply cached_no_buffer|done].
  - injection E as <- <-. destruct (Hload _ _ _ _ _ El) as (Hk & Hd & Hid). split; [by eapply cached_keep|by exists e].
  - injection E as <- <-. destruct (Hload _ _ _ _ _ El) as (Hk & Hd & Hid). split; [by eapply cached_keep|done].
Qed.

(** A blob whose size is known holds [data], or cannot be loaded. *)
Definition blob_data (id : ID) (data : list byte) : Prop := load id = Ok data \/ exists e, load id = Err e.

Definition range (offset size : Z) (data : list byte) : list byte := slice_to (slice_from data offset) size.

Lemma range_step offset size d rest :
  0 <= offset <= zlen d -> 0 <= size ->
  let copied := Z.min size (zlen (slice_from d offset)) in
  range offset size (d ++ rest) = slice_to (slice_from d offset) copied ++ range 0 (size - copied) rest.
Proof using Type.
  intros Ho Hs. unfold range, slice_from, slice_to, zlen in *. rewrite drop_app_le by lia. rewrite drop_0, take_app, length_drop.
  replace (Z.to_nat (Z.min size (Z.of_nat (length d - Z.to_nat offset)))) with (Z.to_nat size `min` (length d - Z.to_nat offset))%nat by lia.
  rewrite <- length_drop. f_equal; [by rewrite <- take_take, firstn_all|]. f_equal. lia.
Qed.

Lemma read_loop_spec (f : openFile) ids datas :
  Forall2 blob_data ids datas ->
  forall i offset remaining resp m m' r,
  drop i (default [] (n_Content (f_node (of_file f)))) = ids -> mounted m -> 0 <= offset -> 0 <= remaining ->
  (forall d ds, datas = d :: ds -> offset <= zlen d) ->
  read_loop LoadBlob f (length ids) i offset remaining resp m = (m', r) ->
  mounted m' /\
  match r with
  | Ok out => out = resp ++ range offset remaining (concat datas)
  | Err e => exists id e0, id ∈ ids /\ load id = Err e0 /\ e = unwrapCtxCanceled e0
  | Panic _ => False
  end.
Proof using HL Hload.
  assert (forall offset, range offset 0 (concat datas) = []) as H0 by done.
  induction 1 as [|id d ids datas Hd HF IH]; intros i offset remaining resp m m' r Hdrop Hm Ho Hr Hle E; cbn [length read_loop] in E.
  { injection E as <- <-. split; [done|]. unfold range, slice_to, slice_from. cbn. by rewrite drop_nil, take_nil, app_nil_r. }
  destruct (Z.ltb_spec 0 remaining) as [Hpos|Hz]; cycle 1.
  { injection E as <- <-. split; [done|]. assert (remaining = 0) as -> by lia. by rewrite app_nil_r. }
  assert (default [] (n_Content (f_node (of_file f))) !! i = Some id) as Hi by (rewrite <- (Nat.add_0_r i), <- lookup_drop; by rewrite Hdrop).
  destruct (getBlobAt LoadBlob f i m) as [m1 rb] eqn:Eb. destruct (getBlobAt_spec _ _ _ _ _ _ Hm Hi Eb) as [Hm1 Hrb].
  destruct rb as [b|e|p].
  - assert (Buffers.content (m_mem m1) b = d) as Hb by (destruct Hd as [Hd|[e Hd]]; congruence). rewrite Hb in E. specialize (Hle d datas eq_refl).
    replace ((0 <? offset) && (zlen d <? offset)) with false in E by (symmetry; apply andb_false_iff; right; apply Z.ltb_ge; lia).
    replace (if 0 <? offset then slice_from d offset else d) with (slice_from d offset) in E
      by (destruct (Z.ltb_spec 0 offset); [done|]; assert (offset = 0) as -> by lia; by unfold slice_from).
    cbn [concat]. pose proof (zlen_nonneg (slice_from d offset)). apply IH in E; [|done|by rewrite <- (Nat.add_1_r i), <- drop_drop, Hdrop|done|lia|lia|intros; apply zlen_nonneg].
    destruct E as [Hm' Hres]. split; [done|]. destruct r as [out|e|p]; [|destruct Hres as (id' & e0 & Hin & ?); exists id', e0; split; [by right|done]|done].
    rewrite Hres, <- app_assoc. f_equal. symmetry. apply range_step; lia.
  - injection E as <- <-. split; [done|]. destruct Hrb as (e0 & He & ->). exists id, e0. split_and!; [by left|done|done].
  - destruct Hd as [Hd|[e Hd]]; congruence.
Qed.

(** The sums of the sizes. *)
Fixpoint sums (b : Z) (datas : list (list byte)) : list Z :=
  match datas with [] => [] | d :: datas => (b + zlen d) :: sums (b + zlen d) datas end.

Lemma sums_lookup datas : forall b k, (k <= length datas)%nat -> (b :: sums b datas) !! k = Some (b + zlen (concat (take k datas))).
Proof using Type.
  induction datas as [|d datas IH]; intros b k Hk.
  - assert (k = 0%nat) as -> by (cbn in Hk; lia). cbn. by rewrite Z.add_0_r.
  - destruct k as [|k]; [cbn; by rewrite Z.add_0_r|]. cbn [lookup list_lookup sums take concat]. cbn [length] in Hk. rewrite IH by lia. rewrite zlen_app. f_equal. lia.
Qed.

Lemma length_sums datas b : length (sums b datas) = length datas.
Proof using Type. revert b. induction datas as [|d datas IH]; intros b; [done|]. cbn. by rewrite IH. Qed.

Lemma cumulate_spec (LookupBlobSize : ID -> outcome (option Z)) ids datas :
  Forall2 (fun id d => LookupBlobSize id = Ok (Some (zlen d))) ids datas ->
  forall bytes cumsize, 0 <= bytes -> bytes + zlen (concat datas) < 2 ^ 64 ->
  cumulate LookupBlobSize ids bytes cumsize = Ok (bytes + zlen (concat datas), cumsize ++ sums bytes datas).
Proof using Type.
  induction 1 as [|id d ids datas Hd HF IH]; intros bytes cumsize Hb Hlt; cbn [cumulate concat sums] in *.
  { by rewrite zlen_nil, Z.add_0_r, app_nil_r. }
  rewrite zlen_app in *. pose proof (zlen_nonneg d). pose proof (zlen_nonneg (concat datas)). rewrite Hd. cbn [mbind outcome_bind].
  rewrite (u64_id (zlen d)), u64_id by (unfold is_u64; lia). rewrite IH by lia. rewrite <- app_assoc. cbn [app]. do 2 f_equal. lia.
Qed.
End ReadFacts.

Section Session.
Context {L : Type} `{LRU L}.
Context (LookupBlobSize : ID -> outcome (option Z)) (LoadBlob : ID -> option buffer -> memory -> memory * outcome buffer).

Definition blobCacheSize : Z := 64 * 2 ^ 20.

(** A request on a file: it is opened, and then read. *)
Record request := mkRequest { rq_file : file; rq_offset : Z; rq_size : Z }.

Definition answer (q : request) (m : mount) : mount * outcome (list byte) :=
  match file_Open LookupBlobSize (rq_file q) with
  | Ok f => Read LoadBlob f (rq_offset q) (rq_size q) (rq_size q) m
  | Err e => (m, Err e)
  | Panic p => (m, Panic p)
  end.

Fixpoint answers (qs : list request) (m : mount) : list (outcome (list byte)) :=
  match qs with [] => [] | q :: qs => let '(m, r) := answer q m in r :: answers qs m end.
End Session.

(** The blob where a range begins. *)
Lemma start_spec (datas : list (list byte)) (offset : Z) :
  0 <= offset -> let cumsize := 0 :: sums 0 datas in
  exists start, sort_Search (length cumsize) (fun i => offset <? default 0 (cumsize !! i)) = S start /\ (start <= length datas)%nat /\
    cumsize !! start = Some (zlen (concat (take start datas))) /\ zlen (concat (take start datas)) <= offset /\
    forall d ds, drop start datas = d :: ds -> offset - zlen (concat (take start datas)) <= zlen d.
Proof.
  intros Ho. cbv zeta. destruct (sort_Search_spec (fun i => offset <? default 0 ((0 :: sums 0 datas) !! i)) (length (0 :: sums 0 datas))) as (Hle & Hbefore & Hafter).
  { intros a b Hab Hb Ha. cbn [length] in Hb. rewrite length_sums in Hb. rewrite sums_lookup in Ha |- * by lia. cbn [from_option id] in *.
    replace b with (a + (b - a))%nat by lia. rewrite <- take_take_drop, concat_app, zlen_app. apply Z.ltb_lt in Ha. apply Z.ltb_lt.
    pose proof (zlen_nonneg (concat (take (b - a) (drop a datas)))). lia. }
  set (found := sort_Search _ _) in *. clearbody found. destruct found as [|start].
  { specialize (Hafter 0%nat ltac:(cbn; lia)). cbn in Hafter. apply Z.ltb_lt in Hafter. lia. }
  cbn [length] in *. rewrite length_sums in *. exists start. pose proof (Hbefore start ltac:(lia)) as Hs. rewrite sums_lookup in Hs |- * by lia. rewrite Z.add_0_l in *.
  cbn [from_option id] in Hs. apply Z.ltb_ge in Hs. split_and!; [done|lia|done|done|]. intros d ds Hd.
  assert (datas !! start = Some d) as Hl by (rewrite <- (Nat.add_0_r start), <- lookup_drop; by rewrite Hd).
  apply lookup_lt_Some in Hl as Hlt. specialize (Hafter (S start) ltac:(lia)). rewrite sums_lookup in Hafter by lia. cbn [from_option id] in Hafter.
  apply Z.ltb_lt in Hafter. rewrite (take_S_r _ _ _ Hl), concat_app, zlen_app in Hafter. cbn [concat] in Hafter. rewrite app_nil_r in Hafter. lia.
Qed.

(** What a request is about: the sizes of its blobs are known, and what they hold. *)
Definition known (LookupBlobSize : ID -> outcome (option Z)) (load : ID -> outcome (list byte)) (q : request) (datas : list (list byte)) : Prop :=
  Forall2 (fun id d => LookupBlobSize id = Ok (Some (zlen d)) /\ blob_data load id d) (default [] (n_Content (f_node (rq_file q)))) datas /\
  zlen (concat datas) < 2 ^ 64 /\ 0 <= rq_offset q < 2 ^ 63 /\ 0 <= rq_size q.

(** Its answer: the bytes of the file in the range, or the error of a blob. *)
Definition answered (load : ID -> outcome (list byte)) (q : request) (datas : list (list byte)) (r : outcome (list byte)) : Prop :=
  match r with
  | Ok out => out = range (rq_offset q) (rq_size q) (concat datas)
  | Err e => exists id e0, id ∈ default [] (n_Content (f_node (rq_file q))) /\ load id = Err e0 /\ e = unwrapCtxCanceled e0
  | Panic _ => False
  end.

(** [Open] computes the sums, and corrects the size. *)
Lemma Open_spec LookupBlobSize load q datas :
  known LookupBlobSize load q datas ->
  exists f, file_Open LookupBlobSize (rq_file q) = Ok f /\ of_cumsize f = 0 :: sums 0 datas /\ n_Size (f_node (of_file f)) = zlen (concat datas) /\
    n_Content (f_node (of_file f)) = n_Content (f_node (rq_file q)).
Proof.
  intros (HF & Htotal & _). unfold file_Open. rewrite (cumulate_spec LookupBlobSize _ datas) by (lia || (eapply Forall2_impl; [exact HF|by intros ? ? []])).
  cbn [mbind outcome_bind app]. rewrite Z.add_0_l. eexists. split_and!; [done|done|..]; cbn; destruct (Z.eqb_spec (zlen (concat datas)) (n_Size (f_node (rq_file q)))); by cbn.
Qed.

Lemma Read_spec {L : Type} `{HL : LRULaws L} LookupBlobSize LoadBlob load (Hload : loads_into LoadBlob load) (q : request) (datas : list (list byte)) (m m' : mount) r :
  known LookupBlobSize load q datas -> cached load (m_cache m) (m_mem m) None -> answer LookupBlobSize LoadBlob q m = (m', r) ->
  cached load (m_cache m') (m_mem m') None /\ answered load q datas r.
Proof.
  intros Hk Hm E. unfold answer in E. destruct (Open_spec _ _ _ _ Hk) as (f & Ef & Hcum & Hsz & Hcontent). rewrite Ef in E.
  destruct Hk as (HF & Htotal & Hoff & Hsize). unfold answered, Read in *. rewrite <- Hcontent in *. set (content := default [] (n_Content (f_node (of_file f)))) in *.
  assert (Forall2 (blob_data load) content datas) as Hdatas by (eapply Forall2_impl; [exact HF|by intros ? ? []]).
  assert (length content = length datas) as Hlen by (by eapply Forall2_length). set (offset := rq_offset q) in *. rewrite Hsz, Hcum, u64_id in E by (unfold is_u64; lia).
  destruct (Z.eqb_spec (zlen (concat datas)) 0) as [Hz|Hnz].
  { injection E as <- <-. split; [done|]. destruct (concat datas) eqn:Ec; [|by rewrite zlen_cons in Hz; pose proof (zlen_nonneg l); lia].
    unfold range, slice_to, slice_from. by rewrite drop_nil, take_nil. }
  destruct (start_spec datas offset) as (start & Hfound & Hle & Hbefore & Hb & Hnext); [lia|]. rewrite Hfound, Hbefore in E. clear Hfound.
  set (before := zlen (concat (take start datas))) in *. pose proof (zlen_nonneg (concat (take start datas))).
  replace ((rq_size q <? 0) || (rq_size q <? rq_size q)) with false in E by (symmetry; apply orb_false_iff; split; apply Z.ltb_ge; lia).
  rewrite u64_id in E by (unfold is_u64, before; lia). cbn [length] in E. rewrite length_sums in E.
  replace (S (length datas) - 1 - start)%nat with (length (drop start content)) in E by (rewrite length_drop; lia).
  apply (read_loop_spec LoadBlob load Hload f (drop start content) (drop start datas)) in E as [Hm' Hr]; [|by apply Forall2_drop|done|done|lia|lia|done].
  split; [done|]. destruct r as [out|e|p]; [|destruct Hr as (id & e0 & Hin & ?); exists id, e0; split; [rewrite <- (take_drop start content); set_solver|done]|done].
  rewrite Hr. cbn [app]. unfold range, slice_from. rewrite <- (take_drop start datas) at 2. rewrite concat_app. rewrite drop_app_ge by (unfold before, zlen in *; lia).
  do 2 f_equal. unfold before, zlen. lia.
Qed.

(** C34. Whatever was read before, a read of a mounted file yields the bytes of the file in
    its range, or the error of a blob that cannot be loaded. *)
Theorem Read_answers {L : Type} `{LRULaws L} (LookupBlobSize : ID -> outcome (option Z)) (LoadBlob : ID -> option buffer -> memory -> memory * outcome buffer)
    (load : ID -> outcome (list byte)) (qs : list request) (contents : list (list (list byte))) (c : Cache L)
    (Hload : loads_into LoadBlob load) (Hcache : BlobCache.New blobCacheSize = Ok c) (Hknown : Forall2 (known LookupBlobSize load) qs contents) :
  Forall2 (fun q_datas r => answered load q_datas.1 q_datas.2 r) (zip qs contents) (answers LookupBlobSize LoadBlob qs (mkMount c ∅)).
Proof.
  assert (cached load (m_cache (mkMount c ∅)) (m_mem (mkMount c ∅)) None) as Hm by (by apply (New_cached load blobCacheSize)).
  revert Hm. generalize (mkMount c ∅) as m.
  induction Hknown as [|q datas qs contents Hk _ IH]; intros m Hm; [constructor|]. cbn [answers zip zip_with].
  destruct (answer _ _ q m) as [m' r] eqn:E. destruct (Read_spec _ _ _ Hload _ _ _ _ _ Hk Hm E) as [Hm' Hr]. constructor; [done|by apply IH].
Qed.

(** Files of two blobs; one of the second file is lost. *)
Definition ex_sizes (id : ID) : outcome (option Z) := Ok (if bool_decide (id = ex_id 0) then Some 2 else if bool_decide (id = ex_id 1) then Some 3 else None).
Definition ex_content (ids : list ID) : file := mkFile 7 (mkNode "f" "file" 420 time_zero time_zero time_zero 0 0 "" "" 0 0 9 1 "" [] 0 (Some ids) None "" "").
Definition ex_requests : list request :=
  [mkRequest (ex_content [ex_id 0; ex_id 0]) 1 2; mkRequest (ex_content [ex_id 0; ex_id 0]) 3 100; mkRequest (ex_content [ex_id 0; ex_id 0]) 4 1;
   mkRequest (ex_content [ex_id 0; ex_id 1]) 0 2; mkRequest (ex_content [ex_id 0; ex_id 1]) 1 2].

Definition ex_contents : list (list (list byte)) :=
  let ab := [string_bytes "ab"; string_bytes "ab"] in let xyz := [string_bytes "ab"; string_bytes "xyz"] in [ab; ab; ab; xyz; xyz].

Lemma Read_answers_witness :
  exists c, BlobCache.New (H := ex_LRU) blobCacheSize = Ok c /\
    answers (H := ex_LRU) ex_sizes ex_LoadBlob ex_requests (mkMount c ∅) =
      [Ok (string_bytes "ba"); Ok (string_bytes "b"); Ok []; Ok (string_bytes "ab"); Err (ErrMsg "not found")] /\
    Forall2 (fun q_datas r => answered ex_load q_datas.1 q_datas.2 r) (zip ex_requests ex_contents) (answers (H := ex_LRU) ex_sizes ex_LoadBlob ex_requests (mkMount c ∅)).
Proof.
  destruct (BlobCache.New (H := ex_LRU) blobCacheSize) as [c|e|p] eqn:Ec; [|vm_compute in Ec; discriminate..]. exists c. split; [done|].
  assert (Forall2 (known ex_sizes ex_load) ex_requests ex_contents) as Hk.
  { repeat first [apply Forall2_nil_2|apply Forall2_cons_2];
      (split_and!; [repeat first [apply Forall2_nil_2|apply Forall2_cons_2]; (split; [by vm_compute|first [left; by vm_compute|right; eexists; by vm_compute]])|by vm_compute..]). }
  pose proof (Read_answers (H0 := ex_LRULaws) ex_sizes ex_LoadBlob ex_load ex_requests ex_contents c ex_loads Ec Hk) as Ha. split; [|exact Ha].
  clear Ha. vm_compute in Ec. injection Ec as <-. by vm_compute.
Defined.

(** * Directories *)

Definition cleanupNodeName (name : string) : string := filepath_Base name.

Definition prime : Z := 11400714785074694791.

Definition ENOENT : error := ErrMsg "no such file or directory".

Inductive DirentType := DT_Unknown | DT_Dir | DT_File | DT_Link.
Record Dirent := mkDirent { de_Inode : Z; de_Type : DirentType; de_Name : string }.

Record dir := mkDir { d_items : option (gmap string Node); d_inode : Z; d_parentInode : Z; d_node : Node }.

Inductive child := ChildDir (d : dir) | ChildFile (f : file) | ChildLink (inode : Z) (node : Node) | ChildOther (inode : Z) (node : Node).

Definition put_uint64 (v : Z) : list byte := put_uint32 v ++ put_uint32 (Z.shiftr v 32).

Definition remap (inode : Z) : Z := if inode <? 2 then inode + 2 else inode.

Section Dir.
Context (Sum64 : list byte -> Z) (LoadTree : ID -> outcome Tree).

Definition inodeFromName (parent : Z) (name : string) : Z :=
  remap (Z.lxor (u64 (prime * parent)) (Sum64 (string_bytes (cleanupNodeName name)))).

Definition inodeFromNode (parent : Z) (node : Node) : Z :=
  remap (if (1 <? n_Links node) && negb (String.eqb (n_Type node) "dir") then Sum64 (put_uint64 (n_DeviceID node) ++ put_uint64 (n_Inode node))
         else Z.lxor (u64 (prime * parent)) (Sum64 (string_bytes (cleanupNodeName (n_Name node))))).

Definition newDir (inode parentInode : Z) (node : Node) : dir := mkDir None inode parentInode node.

Definition newDirFromSnapshot (inode : Z) (snapshot : Snapshot) : dir :=
  mkDir None inode 0 (mkNode "" "" (ModeDir + 365) (sn_Time snapshot) (sn_Time snapshot) (sn_Time snapshot) 0 0 "" "" 0 0 0 0 "" [] 0 None (sn_Tree snapshot) "" "").

Definition replaceSpecialNodes (node : Node) : outcome (list Node) :=
  match n_Subtree node with
  | Some subtree =>
      if negb (String.eqb (n_Type node) "dir") then Ok [node]
      else if negb (String.eqb (n_Name node) ".") && negb (String.eqb (n_Name node) "/") then Ok [node]
      else unwrapped (LoadTree subtree)
  | None => Ok [node]
  end.

Definition add_nodes (items : gmap string Node) (nodes : list Node) : gmap string Node :=
  fold_left (fun items node => <[cleanupNodeName (n_Name node) := node]> items) nodes items.

Fixpoint open_nodes (tree : Tree) (items : gmap string Node) : outcome (gmap string Node) :=
  match tree with
  | [] => Ok items
  | n :: tree => try nodes <- replaceSpecialNodes n; open_nodes tree (add_nodes items nodes)
  end.

Definition open (d : dir) : dir * outcome unit :=
  match d_items d with
  | Some _ => (d, Ok tt)
  | None =>
      match n_Subtree (d_node d) with
      | None => (d, Panic "nil pointer dereference")
      | Some subtree =>
          match (try tree <- unwrapped (LoadTree subtree); open_nodes tree ∅) with
          | Ok items => (mkDir (Some items) (d_inode d) (d_parentInode d) (d_node d), Ok tt)
          | Err e => (d, Err e)
          | Panic p => (d, Panic p)
          end
      end
  end.

(** The runtime chooses the order of a map. *)
Definition nodes_of (d : dir) : list Node := (map_to_list (default ∅ (d_items d))).*2.

Definition calcNumberOfLinks (d : dir) : Z := fold_left (fun count node => if String.eqb (n_Type node) "dir" then u32 (count + 1) else count) (nodes_of d) 2.

Definition dir_Attr (OwnerIsRoot : bool) (d : dir) (a : Attr) : Attr :=
  let n := d_node d in
  mkAttr (d_inode d) (Z.lor ModeDir (n_Mode n)) (a_Size a) (a_Blocks a) (a_BlockSize a) (calcNumberOfLinks d)
    (if OwnerIsRoot then a_Uid a else n_UID n) (if OwnerIsRoot then a_Gid a else n_GID n) (n_AccessTime n) (n_ChangeTime n) (n_ModTime n).

Definition node_dirent (inode : Z) (node : Node) : Dirent :=
  let typ := if String.eqb (n_Type node) "dir" then DT_Dir else if String.eqb (n_Type node) "file" then DT_File
             else if String.eqb (n_Type node) "symlink" then DT_Link else DT_Unknown in
  mkDirent (inodeFromNode inode node) typ (cleanupNodeName (n_Name node)).

Definition ReadDirAll (d : dir) : dir * outcome (list Dirent) :=
  match open d with
  | (d, Ok _) => (d, Ok (mkDirent (d_inode d) DT_Dir "." :: mkDirent (d_parentInode d) DT_Dir ".." :: (node_dirent (d_inode d) <$> nodes_of d)))
  | (d, Err e) => (d, Err e)
  | (d, Panic p) => (d, Panic p)
  end.

Definition node_child (d : dir) (node : Node) : outcome child :=
  let inode := inodeFromNode (d_inode d) node in
  if String.eqb (n_Type node) "dir" then Ok (ChildDir (newDir inode (d_inode d) node))
  else if String.eqb (n_Type node) "file" then Ok (ChildFile (newFile inode node))
  else if String.eqb (n_Type node) "symlink" then Ok (ChildLink inode node)
  else if existsb (String.eqb (n_Type node)) ["dev"; "chardev"; "fifo"; "socket"] then Ok (ChildOther inode node)
  else Err ENOENT.

Definition Lookup (d : dir) (name : string) : dir * outcome child :=
  match open d with
  | (d, Ok _) => (d, match default ∅ (d_items d) !! name with None => Err ENOENT | Some node => node_child d node end)
  | (d, Err e) => (d, Err e)
  | (d, Panic p) => (d, Panic p)
  end.
End Dir.

(** Symbolic links and special files. *)
Definition Readlink (node : Node) : string := n_LinkTarget node.

Definition link_Attr (OwnerIsRoot : bool) (inode : Z) (n : Node) (a : Attr) : Attr :=
  let size := Z.of_nat (String.length (n_LinkTarget n)) in
  mkAttr inode (n_Mode n) size (blocks_of size) (a_BlockSize a) (u32 (n_Links n))
    (if OwnerIsRoot then a_Uid a else n_UID n) (if OwnerIsRoot then a_Gid a else n_GID n) (n_AccessTime n) (n_ChangeTime n) (n_ModTime n).

Definition other_Attr (OwnerIsRoot : bool) (inode : Z) (n : Node) (a : Attr) : Attr :=
  mkAttr inode (n_Mode n) (a_Size a) (a_Blocks a) (a_BlockSize a) (u32 (n_Links n))
    (if OwnerIsRoot then a_Uid a else n_UID n) (if OwnerIsRoot then a_Gid a else n_GID n) (n_AccessTime n) (n_ChangeTime n) (n_ModTime n).

Definition nodeToXattrList (node : Node) (resp : list string) : list string := resp ++ (xa_Name <$> n_ExtendedAttributes node).

(** ** What a directory shows *)

Section DirFacts.
Context (Sum64 : list byte -> Z) (LoadTree : ID -> outcome Tree).

(** The nodes of a tree, with the content of the special ones in their place. *)
Fixpoint shown_nodes (tree : Tree) : outcome (list Node) :=
  match tree with
  | [] => Ok []
  | n :: tree => try nodes <- replaceSpecialNodes LoadTree n; try rest <- shown_nodes tree; Ok (nodes ++ rest)
  end.

(** The last of those with a name. *)
Definition shown (nodes : list Node) (name : string) : option Node := last (filter (fun n => cleanupNodeName (n_Name n) = name) nodes).

Lemma open_nodes_shown tree : forall items, open_nodes LoadTree tree items = (try nodes <- shown_nodes tree; Ok (add_nodes items nodes)).
Proof using Type.
  induction tree as [|n tree IH]; intros items; [done|]. cbn [open_nodes shown_nodes]. destruct (replaceSpecialNodes LoadTree n) as [nodes|e|p]; [|done..].
  cbn [mbind outcome_bind]. rewrite IH. destruct (shown_nodes tree) as [rest|e|p]; [|done..]. cbn. unfold add_nodes. by rewrite fold_left_app.
Qed.

Lemma add_nodes_lookup nodes name : forall items,
  add_nodes items nodes !! name = match shown nodes name with Some n => Some n | None => items !! name end.
Proof using Type.
  unfold shown. induction nodes as [|n nodes IH] using rev_ind; intros items; [done|]. unfold add_nodes in *. rewrite fold_left_app, filter_app, last_app. cbn [fold_left].
  rewrite filter_cons, filter_nil. case_decide as Hn; [rewrite Hn; by rewrite lookup_insert_eq|]. rewrite lookup_insert_ne by done. apply IH.
Qed.

Lemma shown_name nodes name n : shown nodes name = Some n -> cleanupNodeName (n_Name n) = name.
Proof using Type. unfold shown. intros H. apply last_Some_elem_of, list_elem_of_filter in H. by destruct H. Qed.

(** The entries of a map whose nodes have the names of their keys. *)
Lemma map_entries (m : gmap string Node) (inode : Z) :
  (forall k n, m !! k = Some n -> cleanupNodeName (n_Name n) = k) ->
  let entries := node_dirent Sum64 inode <$> (map_to_list m).*2 in
  NoDup (de_Name <$> entries) /\ forall name, filter (fun e => de_Name e = name) entries = match m !! name with Some n => [node_dirent Sum64 inode n] | None => [] end.
Proof using Type.
  intros Hk. cbv zeta.
  assert (de_Name <$> (node_dirent Sum64 inode <$> (map_to_list m).*2) = (map_to_list m).*1) as Hnames.
  { rewrite <- !list_fmap_compose. apply list_fmap_ext. intros i [k n] Hi. cbn. apply Hk. apply elem_of_map_to_list. by eapply list_elem_of_lookup_2. }
  split; [rewrite Hnames; apply NoDup_fst_map_to_list|]. intros name.
  assert (forall l, NoDup l.*1 -> (forall k n, (k, n) ∈ l -> cleanupNodeName (n_Name n) = k) ->
    filter (fun e => de_Name e = name) (node_dirent Sum64 inode <$> l.*2) = match (list_to_map l : gmap string Node) !! name with Some n => [node_dirent Sum64 inode n] | None => [] end) as Hl.
  { induction l as [|[k n] l IH]; intros Hnd Hkeys; [done|]. cbn [fmap list_fmap fst snd] in *. apply NoDup_cons in Hnd as [Hnin Hnd]. cbn [list_to_map foldr fst snd].
    rewrite filter_cons. change (de_Name (node_dirent Sum64 inode n)) with (cleanupNodeName (n_Name n)). rewrite (Hkeys k n) by left.
    specialize (IH Hnd (fun k n H => Hkeys k n (list_elem_of_further _ _ _ H))). case_decide as Hkn.
    - subst k. rewrite lookup_insert_eq. rewrite IH. by rewrite (not_elem_of_list_to_map_1 _ _ Hnin).
    - by rewrite lookup_insert_ne. }
  rewrite Hl; [by rewrite list_to_map_to_list|apply NoDup_fst_map_to_list|intros k n H; apply Hk; by apply elem_of_map_to_list].
Qed.

(** The result of a lookup that finds [n]. *)
Definition found (d : dir) (n : option Node) : outcome child := match n with Some n => node_child Sum64 d n | None => Err ENOENT end.

End DirFacts.

(** A directory shows each name of its tree once, the last node that has it, with the
    inode and the type a lookup then yields; and nothing else. *)
Theorem dir_serves (Sum64 : list byte -> Z) (LoadTree : ID -> outcome Tree) (d : dir) (subtree : ID) (tree : Tree) (nodes : list Node)
    (Hnew : d_items d = None) (Hsub : n_Subtree (d_node d) = Some subtree) (Htree : LoadTree subtree = Ok tree) (Hnodes : shown_nodes LoadTree tree = Ok nodes) :
  exists d' entries,
    ReadDirAll Sum64 LoadTree d = (d', Ok (mkDirent (d_inode d) DT_Dir "." :: mkDirent (d_parentInode d) DT_Dir ".." :: entries)) /\
    NoDup (de_Name <$> entries) /\
    forall name,
      filter (fun e => de_Name e = name) entries = match shown nodes name with Some n => [node_dirent Sum64 (d_inode d) n] | None => [] end /\
      Lookup Sum64 LoadTree d name = (d', found Sum64 d (shown nodes name)) /\
      Lookup Sum64 LoadTree d' name = (d', found Sum64 d (shown nodes name)).
Proof.
  set (items := add_nodes ∅ nodes). set (d' := mkDir (Some items) (d_inode d) (d_parentInode d) (d_node d)).
  assert (open LoadTree d = (d', Ok tt)) as Eo by (unfold open; rewrite Hnew, Hsub, Htree; cbn [unwrapped mbind outcome_bind]; by rewrite open_nodes_shown, Hnodes).
  assert (forall name, items !! name = shown nodes name) as Hlook by (intros name; unfold items; rewrite add_nodes_lookup; by destruct (shown nodes name)).
  assert (forall k n, items !! k = Some n -> cleanupNodeName (n_Name n) = k) as Hkeys by (intros k n; rewrite Hlook; apply shown_name).
  destruct (map_entries Sum64 items (d_inode d) Hkeys) as [Hnd Hf]. exists d', (node_dirent Sum64 (d_inode d) <$> (map_to_list items).*2).
  split; [by unfold ReadDirAll; rewrite Eo|]. split; [done|]. intros name. split; [by rewrite Hf, Hlook|]. split.
  - unfold Lookup. rewrite Eo. cbn [d_items d' from_option id]. rewrite Hlook. by destruct (shown nodes name).
  - unfold Lookup, open. cbn [d_items d' from_option id]. rewrite Hlook. by destruct (shown nodes name).
Qed.

(** The directory "." is shown by its content, and a name has one node. *)
Definition ex_dir_tree (id : ID) : outcome Tree :=
  if bool_decide (id = ex_id 2) then Ok [ex_node "." "dir" (Some (ex_id 3)); ex_node "b" "file" None; ex_node "a/b" "symlink" None]
  else if bool_decide (id = ex_id 3) then Ok [ex_node "c" "dir" (Some (ex_id 4))] else Err (ErrMsg "not found").
Definition ex_Sum64 (data : list byte) : Z := zlen data.

Lemma dir_serves_witness :
  let d := newDir 5 1 ex_root in
  exists d' entries, ReadDirAll ex_Sum64 ex_dir_tree d = (d', Ok (mkDirent 5 DT_Dir "." :: mkDirent 1 DT_Dir ".." :: entries)) /\
    filter (fun e => de_Name e = "b") entries = [node_dirent ex_Sum64 5 (ex_node "a/b" "symlink" None)] /\
    Lookup ex_Sum64 ex_dir_tree d' "c" = (d', Ok (ChildDir (newDir (inodeFromNode ex_Sum64 5 (ex_node "c" "dir" None)) 5 (ex_node "c" "dir" (Some (ex_id 4)))))) /\
    Lookup ex_Sum64 ex_dir_tree d' "." = (d', Err ENOENT).
Proof.
  cbv zeta. destruct (dir_serves ex_Sum64 ex_dir_tree (newDir 5 1 ex_root) (ex_id 2)
    [ex_node "." "dir" (Some (ex_id 3)); ex_node "b" "file" None; ex_node "a/b" "symlink" None]
    [ex_node "c" "dir" (Some (ex_id 4)); ex_node "b" "file" None; ex_node "a/b" "symlink" None]) as (d' & entries & Hr & _ & Hn); [by vm_compute..|].
  exists d', entries. split; [done|]. split; [apply (Hn "b")|]. split; [apply (Hn "c")|apply (Hn ".")].
Defined.
