(* ===== verification/SnapshotsDirs.v ===== *)
(** The directories of snapshots of a mount (src/internal/fuse/snapshots_dirstruct.go,
    snapshots_dir.go, root.go).

    An entry of the structure is known by its path and, from its parent, by its name;
    both lead to one [MetaDirData] in a heap.  The format of times (package time) is an
    argument, and so is SHA-256.  Templates are read byte by byte, which is the same as
    by runes where they are valid UTF-8. *)

From Stdlib Require Import Ascii.
From S2P Require Import Prelude Bytes GoString Restic GoTime Snapshot SnapshotFind Tree FsPath Fuse.

#[local] Open Scope Z_scope.

(** * Names *)

Definition one (c : ascii) : string := String.String c EmptyString.

Fixpoint replace_slashes (s : string) : string :=
  match s with
  | EmptyString => ""
  | String.String c s => String.String (if Ascii.eqb c slash then "_"%char else c) (replace_slashes s)
  end.

Definition filenameFromTag (tag : string) : string :=
  if String.eqb tag "" || String.eqb tag "." then "_" else if String.eqb tag ".." then "__" else replace_slashes tag.

Section Template.
Context (timeformat : string) (sn : Snapshot).

(** A round of the loop of [pathsFromSn]: the paths so far, [inVerb] and [writeTime];
    [None] when the snapshot has no tags. *)
Definition template_step (st : option (list string * bool * bool)) (c : ascii) : outcome (option (list string * bool * bool)) :=
  match st with
  | None => Ok None
  | Some (out, inVerb, writeTime) =>
      let out := if writeTime : bool then (fun o => o +:+ timeformat) <$> out else out in
      if negb inVerb then
        if Ascii.eqb c "%"%char then Ok (Some (out, true, false)) else Ok (Some ((fun o => o +:+ one c) <$> out, false, false))
      else if Ascii.eqb c "T"%char then Ok (Some (out, false, true))
      else if Ascii.eqb c "t"%char && Nat.eqb (length (sn_Tags sn)) 0 then Ok None
      else if Ascii.eqb c "t"%char && negb (Nat.eqb (length (sn_Tags sn)) 1) then
        Ok (Some (concat ((fun tag => (fun o => o +:+ filenameFromTag tag) <$> out) <$> sn_Tags sn), false, false))
      else
        try repl <- (if Ascii.eqb c "t"%char then Ok (default "" (head (sn_Tags sn)))
                     else if Ascii.eqb c "i"%char then Ok (ID_Str (sn_id sn))
                     else if Ascii.eqb c "I"%char then try id <- snapshot_id sn; Ok (ID_String id)
                     else if Ascii.eqb c "u"%char then Ok (sn_Username sn)
                     else if Ascii.eqb c "h"%char then Ok (sn_Hostname sn)
                     else Ok (one c));
        Ok (Some ((fun o => o +:+ repl) <$> out, false, false))
  end.

Definition string_chars (s : string) : list ascii := String.list_ascii_of_string s.

Definition expand_template (pathTemplate : string) : outcome (list string * string) :=
  try r <- ofold template_step (Some ([""], false, false)) (string_chars pathTemplate);
  Ok (match r with
      | None => ([], "")
      | Some (out, _, writeTime) => (out, if writeTime : bool then timeformat else "")
      end).
End Template.

Definition pathsFromSn (Format : Time -> string -> string) (pathTemplate timeTemplate : string) (sn : Snapshot) : outcome (list string * string) :=
  expand_template (Format (sn_Time sn) timeTemplate) sn pathTemplate.

(** The position of the first verb that is replaced. *)
Fixpoint pattern_start (s : string) (i : nat) (inVerb : bool) : option nat :=
  match s with
  | EmptyString => None
  | String.String c s =>
      if negb inVerb then pattern_start s (S i) (Ascii.eqb c "%"%char)
      else if existsb (Ascii.eqb c) ["i"; "I"; "u"; "h"; "t"; "T"]%char then Some i
      else pattern_start s (S i) false
  end.

(** Cut at the last slash. *)
Fixpoint cut_last (s : string) : option (string * string) :=
  match s with
  | EmptyString => None
  | String.String c s =>
      match cut_last s with
      | Some (before, after) => Some (String.String c before, after)
      | None => if Ascii.eqb c slash then Some ("", s) else None
      end
  end.

Definition staticPrefix (pathTemplate : string) : string :=
  match pattern_start pathTemplate 0 false with
  | None => ""
  | Some patternStart => match cut_last (String.substring 0 patternStart pathTemplate) with None => "" | Some (before, _) => before end
  end.

(** * The structure *)

Record MetaDirData := mkMeta { md_linkTarget : string; md_snapshot : option Snapshot; md_names : option (gmap string nat) }.

Record entries := mkEntries { en_paths : gmap string nat; en_heap : list MetaDirData }.

Definition meta_at (e : entries) (path : string) : option MetaDirData := en_paths e !! path ≫= fun l => en_heap e !! l.

(** The loop of [uniqueName]. *)
Fixpoint unique_loop (fuel : nat) (e : entries) (prefix name newname : string) (i : Z) : outcome string :=
  match fuel with
  | O => Panic "out of fuel"
  | S fuel =>
      match en_paths e !! (prefix +:+ newname) with
      | None => Ok newname
      | Some _ => unique_loop fuel e prefix name (name +:+ "-" +:+ pretty i) (i + 1)
      end
  end.
Definition uniqueName (e : entries) (prefix name : string) : outcome string := unique_loop (S (size (en_paths e))) e prefix name name 1.

(** [mountData]: a snapshot or a child. *)
Inductive mountData := MountSnapshot (sn : Snapshot) (linkTarget : string) | MountChild (child : option (string * nat)).

Definition mount_meta (e : MetaDirData) (data : mountData) : MetaDirData :=
  match data with
  | MountSnapshot sn linkTarget => mkMeta linkTarget (Some sn) (md_names e)
  | MountChild child =>
      let names := default ∅ (md_names e) in
      mkMeta (md_linkTarget e) (md_snapshot e) (Some (match child with Some (fn, l) => <[fn := l]> names | None => names end))
  end.

(** What [mount] does to one path: the object is created or found, and changed. *)
Definition mount_at (path : string) (data : mountData) (e : entries) : nat * entries :=
  match en_paths e !! path with
  | Some l => (l, mkEntries (en_paths e) (alter (fun m => mount_meta m data) l (en_heap e)))
  | None => let l := length (en_heap e) in (l, mkEntries (<[path := l]> (en_paths e)) (en_heap e ++ [mount_meta (mkMeta "" None None) data]))
  end.

(** [mount]; a parent is shorter, and the fuel is the length of the path. *)
Fixpoint mount_loop (fuel : nat) (path : string) (data : mountData) (e : entries) : entries :=
  let '(l, e) := mount_at path data e in
  match fuel, cut_last path with
  | S fuel, Some (parent, fn) => mount_loop fuel parent (MountChild (Some (fn, l))) e
  | _, _ => e
  end.
Definition mount (path : string) (data : mountData) (e : entries) : entries := mount_loop (String.length path) path data e.

Section MakeDirs.
Context (Format : Time -> string -> string) (pathTemplates : list string) (timeTemplate : string).

Record dirs := mkDirs { ds_entries : entries; ds_latestTime : gmap string Time }.

(** The innermost round of [makeDirs]. *)
Definition mount_snapshot (sn : Snapshot) (timeSuffix : string) (d : dirs) (p : string) : outcome dirs :=
  let p := if String.eqb p "" then p else "/" +:+ p in
  try suffix <- uniqueName (ds_entries d) p timeSuffix;
  let e := mount (path_Clean (p +:+ suffix)) (MountSnapshot sn "") (ds_entries d) in
  if negb (String.eqb timeSuffix "") && match ds_latestTime d !! p with Some lt => negb (Before (sn_Time sn) lt) | None => true end
  then Ok (mkDirs (mount (path_Clean (p +:+ "/latest")) (MountSnapshot sn suffix) e) (<[p := sn_Time sn]> (ds_latestTime d)))
  else Ok (mkDirs e (ds_latestTime d)).

Definition mount_template (sn : Snapshot) (d : dirs) (templ : string) : outcome dirs :=
  try (paths, timeSuffix) <- pathsFromSn Format templ timeTemplate sn;
  ofold (mount_snapshot sn timeSuffix) d paths.

Definition mount_prefix (e : entries) (templ : string) : entries :=
  let p := staticPrefix templ in if negb (String.eqb p "") then mount (path_Clean ("/" +:+ p)) (MountChild None) e else e.

Definition makeDirs (snapshots : list Snapshot) : outcome entries :=
  let e := mount "" (MountChild None) (mkEntries ∅ []) in
  let e := fold_left mount_prefix pathTemplates e in
  try d <- ofold (fun d sn => ofold (mount_template sn) d pathTemplates) (mkDirs e ∅) snapshots;
  Ok (ds_entries d).
End MakeDirs.

(** * Updates and visits *)

Definition minSnapshotsReloadTime : Z := 60 * second_ns.

Record SnapshotsDirStructure := mkStructure { st_entries : entries; st_hash : ID; st_lastCheck : Time }.

Definition by_time_and_id (si sj : Snapshot) : bool :=
  if time_Equal (sn_Time si) (sn_Time sj) then bytes_ltb (id_bytes (default nullID (sn_id si))) (id_bytes (default nullID (sn_id sj)))
  else Before (sn_Time si) (sn_Time sj).

Definition collect_snapshot (name : string) (sn : option Snapshot) (err : option error) (snapshots : list Snapshot) : list Snapshot * option error :=
  (match sn with Some sn => snapshots ++ [sn] | None => snapshots end, None).

Section Update.
Context (Format : Time -> string -> string) (pathTemplates : list string) (timeTemplate : string) (Filter : SnapshotFilter).
Context (filepath_IsAbs : string -> bool) (filepath_Abs : string -> outcome string) (filepath_Clean : string -> string) (Hash : list byte -> ID).
(** The repository and the clock: at the check of the time, and when it is noted. *)
Context (listed : outcome (list ID)) (LoadSnapshot : ID -> outcome Snapshot) (LoadIndex : outcome unit) (now later : Time).

Definition sorted_snapshots : outcome (list Snapshot) :=
  let '(snapshots, r) := FindAll filepath_IsAbs filepath_Abs filepath_Clean listed LoadSnapshot collect_snapshot Filter [] [] in
  try _ <- r; Ok (go_sort by_time_and_id snapshots).

Definition updateSnapshots (d : SnapshotsDirStructure) : SnapshotsDirStructure * outcome unit :=
  if t_ns now - t_ns (st_lastCheck d) <? minSnapshotsReloadTime then (d, Ok tt)
  else
    match (try snapshots <- sorted_snapshots; try ids <- omap_list snapshot_id snapshots; Ok (snapshots, Hash (concat (id_bytes <$> ids)))) with
    | Err e => (d, Err e)
    | Panic p => (d, Panic p)
    | Ok (snapshots, hash) =>
        if bool_decide (st_hash d = hash) then (mkStructure (st_entries d) (st_hash d) later, Ok tt)
        else
          match LoadIndex with
          | Err e => (d, Err e)
          | Panic p => (d, Panic p)
          | Ok _ =>
              match makeDirs Format pathTemplates timeTemplate snapshots with
              | Ok e => (mkStructure e hash later, Ok tt)
              | Err e => (mkStructure (st_entries d) hash later, Err e)
              | Panic p => (mkStructure (st_entries d) hash later, Panic p)
              end
          end
    end.

Definition UpdatePrefix (prefix : string) (d : SnapshotsDirStructure) : SnapshotsDirStructure * outcome (option MetaDirData) :=
  let '(d, r) := updateSnapshots d in (d, try _ <- r; Ok (meta_at (st_entries d) prefix)).
End Update.

Record SnapshotsDir := mkSnapshotsDir { sd_inode : Z; sd_parentInode : Z; sd_prefix : string }.
Inductive meta_child := MetaLink (inode : Z) (target : string) (snapshot : option Snapshot) | MetaSnapshot (d : dir) | MetaSub (d : SnapshotsDir).

Section Visit.
Context (Sum64 : list byte -> Z).

(** The part of [ReadDirAll] and [Lookup] after [UpdatePrefix]; the runtime chooses the
    order of a map. *)
Definition meta_dirents (d : SnapshotsDir) (e : entries) (m : MetaDirData) : outcome (list Dirent) :=
  omap_list (fun nl : string * nat =>
    match en_heap e !! nl.2 with
    | None => Panic "nil pointer dereference"
    | Some entry => Ok (mkDirent (inodeFromName Sum64 (sd_inode d) nl.1) (if negb (String.eqb (md_linkTarget entry) "") then DT_Link else DT_Dir) nl.1)
    end) (map_to_list (default ∅ (md_names m))).

Definition SnapshotsDir_ReadDirAll (d : SnapshotsDir) (e : entries) (meta : outcome (option MetaDirData)) : outcome (list Dirent) :=
  match meta with
  | Err err => Err (unwrapCtxCanceled err)
  | Panic p => Panic p
  | Ok None => Err ENOENT
  | Ok (Some m) =>
      try items <- meta_dirents d e m;
      Ok (mkDirent (sd_inode d) DT_Dir "." :: mkDirent (sd_parentInode d) DT_Dir ".." :: items)
  end.

Definition entry_child (d : SnapshotsDir) (name : string) (entry : MetaDirData) : meta_child :=
  let inode := inodeFromName Sum64 (sd_inode d) name in
  if negb (String.eqb (md_linkTarget entry) "") then MetaLink inode (md_linkTarget entry) (md_snapshot entry)
  else
    match md_snapshot entry with
    | Some sn => MetaSnapshot (newDirFromSnapshot inode sn)
    | None => MetaSub (mkSnapshotsDir inode (sd_inode d) (sd_prefix d +:+ "/" +:+ name))
    end.

Definition SnapshotsDir_Lookup (d : SnapshotsDir) (name : string) (e : entries) (meta : outcome (option MetaDirData)) : outcome meta_child :=
  match meta with
  | Err err => Err (unwrapCtxCanceled err)
  | Panic p => Panic p
  | Ok None => Err ENOENT
  | Ok (Some m) =>
      match default ∅ (md_names m) !! name ≫= fun l => en_heap e !! l with
      | Some entry => Ok (entry_child d name entry)
      | None => Err ENOENT
      end
  end.
End Visit.

Definition SnapshotsDir_Attr (uid gid : Z) (d : SnapshotsDir) (a : Attr) : Attr :=
  mkAttr (sd_inode d) (ModeDir + 365) (a_Size a) (a_Blocks a) (a_BlockSize a) (a_Nlink a) uid gid (a_Atime a) (a_Ctime a) (a_Mtime a).

Definition snapshotLink_Attr (uid gid inode : Z) (target : string) (snapshot : Snapshot) (a : Attr) : Attr :=
  let size := Z.of_nat (String.length target) in
  mkAttr inode (ModeSymlink + 511) size (blocks_of size) (a_BlockSize a) 1 uid gid (sn_Time snapshot) (sn_Time snapshot) (sn_Time snapshot).

Definition default_templates : list string := ["ids/%i"; "snapshots/%T"; "hosts/%h/%T"; "tags/%t/%T"].
Definition rootInode : Z := 1.
Definition NewRoot (PathTemplates : list string) : SnapshotsDir * list string :=
  (mkSnapshotsDir rootInode rootInode "", if Nat.eqb (length PathTemplates) 0 then default_templates else PathTemplates).

(** * The tree of entries *)

Lemma cut_last_spec s :
  match cut_last s with
  | Some (before, after) => s = before +:+ "/" +:+ after /\ has_slash after = false
  | None => has_slash s = false
  end.
Proof.
  induction s as [|c s IH]; [done|]. cbn [cut_last has_slash]. destruct (cut_last s) as [[before after]|].
  - destruct IH as [-> Ha]. split; [done|done].
  - rewrite IH, orb_false_r. destruct (Ascii.eqb c slash) eqn:E; [|done]. apply Ascii.eqb_eq in E as ->. by split.
Qed.

Lemma cut_last_app before after : has_slash after = false -> cut_last (before +:+ "/" +:+ after) = Some (before, after).
Proof.
  intros Ha. induction before as [|c before IH].
  - change (cut_last (String.String slash after) = Some ("", after)). cbn [cut_last]. assert (cut_last after = None) as ->; [|by rewrite Ascii.eqb_refl]. pose proof (cut_last_spec after) as Hs. destruct (cut_last after) as [[b a]|]; [|done].
    destruct Hs as [-> _]. exfalso. clear -Ha. induction b as [|c b IH]; [done|]. cbn in Ha. apply orb_false_iff in Ha as [_ Ha]. by apply IH.
  - change (String.String c before +:+ "/" +:+ after) with (String.String c (before +:+ "/" +:+ after)). cbn [cut_last]. by rewrite IH.
Qed.

(** The object that a directory has under a name. *)
Definition child_of (e : entries) (path fn : string) : option nat := m ← meta_at e path; default ∅ (md_names m) !! fn.

(** Every entry but [pending] is a child of the directory of its path, and all
    children are entries. *)
Record tree_but (pending : option string) (e : entries) : Prop := mkTree {
  tb_valid : forall path l, en_paths e !! path = Some l -> (l < length (en_heap e))%nat;
  tb_inj : forall p q l, en_paths e !! p = Some l -> en_paths e !! q = Some l -> p = q;
  tb_parent : forall before fn l, en_paths e !! (before +:+ "/" +:+ fn) = Some l -> has_slash fn = false -> Some (before +:+ "/" +:+ fn) <> pending ->
    child_of e before fn = Some l;
  tb_child : forall path fn l, child_of e path fn = Some l -> en_paths e !! (path +:+ "/" +:+ fn) = Some l /\ has_slash fn = false;
  tb_link : forall path m, meta_at e path = Some m -> md_snapshot m = None -> md_linkTarget m = "" }.
Abbreviation tree_of := (tree_but None).

(** What an entry shows to a visitor besides its children. *)
Definition shows (e : entries) (path : string) : option (Snapshot * string) := m ← meta_at e path; (fun sn => (sn, md_linkTarget m)) <$> md_snapshot m.

Section Mount.
Context (pending : option string) (e : entries) (HT : tree_but pending e).

Lemma meta_dom path l : en_paths e !! path = Some l -> exists m, meta_at e path = Some m /\ en_heap e !! l = Some m.
Proof using HT. intros Hl. unfold meta_at. rewrite Hl. cbn. destruct (lookup_lt_is_Some_2 (en_heap e) l) as [m Hm]; [by eapply tb_valid|]. by exists m. Qed.

Lemma mount_at_spec path data :
  let '(l, e') := mount_at path data e in
  en_paths e' = <[path := l]> (en_paths e) /\ (forall l0, en_paths e !! path = Some l0 -> l = l0) /\
  (en_paths e !! path = None -> l = length (en_heap e)) /\
  (forall q, meta_at e' q = if decide (q = path) then Some (mount_meta (default (mkMeta "" None None) (meta_at e path)) data) else meta_at e q) /\
  (forall q l, en_paths e' !! q = Some l -> (l < length (en_heap e'))%nat) /\
  (forall p q l, en_paths e' !! p = Some l -> en_paths e' !! q = Some l -> p = q).
Proof using HT.
  unfold mount_at. destruct (en_paths e !! path) as [l0|] eqn:El.
  - destruct (meta_dom _ _ El) as (m0 & Hm0 & Hh0). cbn [en_paths]. rewrite insert_id by done. split_and!; [done|by intros ? [= <-]|done| | |].
    + intros q. unfold meta_at. cbn [en_paths en_heap]. case_decide as Hq.
      * subst q. rewrite El. cbn. rewrite list_lookup_alter, decide_True, Hh0 by done. done.
      * destruct (en_paths e !! q) as [l|] eqn:Eq; [|done]. cbn. rewrite list_lookup_alter, decide_False; [done|]. intros ->. by rewrite (tb_inj _ _ HT _ _ _ El Eq) in Hq.
    + intros q l Hq. cbn [en_heap]. rewrite length_alter. by eapply tb_valid.
    + intros p q l. cbn [en_paths]. by eapply tb_inj.
  - cbn [en_paths]. split_and!; [done|done|done| | |].
    + intros q. unfold meta_at. cbn [en_paths en_heap]. case_decide as Hq.
      * subst q. rewrite lookup_insert_eq, El. cbn. rewrite lookup_app_r, Nat.sub_diag by lia. done.
      * rewrite lookup_insert_ne by done. destruct (en_paths e !! q) as [l|] eqn:Eq; [|done]. cbn. rewrite lookup_app_l; [done|]. by eapply tb_valid.
    + intros q l Hq. cbn [en_heap en_paths] in *. rewrite length_app. cbn [length]. destruct (decide (q = path)) as [->|Hne].
      * rewrite lookup_insert_eq in Hq. injection Hq as <-. lia.
      * rewrite lookup_insert_ne in Hq by done. apply (tb_valid _ _ HT) in Hq. lia.
    + intros p q l Hp Hq. cbn [en_paths] in *. destruct (decide (p = path)) as [->|Hp'], (decide (q = path)) as [->|Hq']; [done|..].
      * rewrite lookup_insert_eq in Hp. rewrite lookup_insert_ne in Hq by done. injection Hp as <-. apply (tb_valid _ _ HT) in Hq. lia.
      * rewrite lookup_insert_eq in Hq. rewrite lookup_insert_ne in Hp by done. injection Hq as <-. apply (tb_valid _ _ HT) in Hp. lia.
      * rewrite lookup_insert_ne in Hp, Hq by done. by eapply tb_inj.
Qed.
End Mount.

(** What is pending when a child is mounted. *)
Definition pending_of (path : string) (data : mountData) : option string :=
  match data with MountChild (Some (fn, _)) => Some (path +:+ "/" +:+ fn) | _ => None end.
Definition data_ok (e : entries) (path : string) (data : mountData) : Prop :=
  match data with MountChild (Some (fn, l)) => en_paths e !! (path +:+ "/" +:+ fn) = Some l /\ has_slash fn = false | _ => True end.

Lemma app_slash_inj a b c d : has_slash b = false -> has_slash d = false -> a +:+ "/" +:+ b = c +:+ "/" +:+ d -> a = c /\ b = d.
Proof. intros Hb Hd E. pose proof (cut_last_app a b Hb) as H1. rewrite E, cut_last_app in H1 by done. by injection H1 as -> ->. Qed.

Lemma child_of_mount pending e path data :
  tree_but pending e -> let '(_, e') := mount_at path data e in
  forall q fn, child_of e' q fn =
    if decide (q = path) then
      match data with
      | MountChild (Some (fn0, l0)) => if decide (fn = fn0) then Some l0 else child_of e path fn
      | _ => child_of e path fn
      end
    else child_of e q fn.
Proof.
  intros HT. pose proof (mount_at_spec pending e HT path data) as Hm. destruct (mount_at path data e) as [l e']. destruct Hm as (_ & _ & _ & Hmeta & _).
  intros q fn. unfold child_of at 1. rewrite Hmeta. case_decide as Hq; [subst q|done]. cbn. unfold child_of.
  destruct (meta_at e path) as [m|]; cbn [default mbind option_bind from_option id].
  - destruct data as [sn link|[[fn0 l0]|]]; cbn; [done| |done]. case_decide as Hf; [by rewrite Hf, lookup_insert_eq|by rewrite lookup_insert_ne].
  - destruct data as [sn link|[[fn0 l0]|]]; cbn; [apply lookup_empty| |apply lookup_empty]. case_decide as Hf; [by rewrite Hf, lookup_insert_eq|rewrite lookup_insert_ne by done; apply lookup_empty].
Qed.

Lemma shows_mount_at pending e path data :
  tree_but pending e -> let '(_, e') := mount_at path data e in
  forall q, shows e' q = match data with MountSnapshot sn link => if decide (q = path) then Some (sn, link) else shows e q | _ => shows e q end.
Proof.
  intros HT. pose proof (mount_at_spec pending e HT path data) as Hm. destruct (mount_at path data e) as [l e']. destruct Hm as (_ & _ & _ & Hmeta & _).
  intros q. unfold shows at 1. rewrite Hmeta. case_decide as Hq; [subst q|by destruct data]. cbn. destruct data as [sn link|c]; [done|]. unfold shows.
  by destruct (meta_at e path).
Qed.

(** One path: what is pending afterwards is the path itself, if it has a parent. *)
Lemma mount_at_tree e path data :
  tree_but (pending_of path data) e -> data_ok e path data -> let '(l, e') := mount_at path data e in
  tree_but (match cut_last path with Some _ => Some path | None => None end) e' /\ en_paths e' !! path = Some l /\
  forall q l, en_paths e !! q = Some l -> en_paths e' !! q = Some l.
Proof.
  intros HT Hd. pose proof (mount_at_spec _ e HT path data) as Hm. pose proof (child_of_mount _ e path data HT) as Hc. destruct (mount_at path data e) as [l e'].
  destruct Hm as (Hp & Hold & _ & Hmeta & Hv & Hi). rewrite Hp. split; [|split; [by rewrite lookup_insert_eq|]].
  2:{ intros q l' Hq. destruct (decide (q = path)) as [->|Hne]; [rewrite lookup_insert_eq; by rewrite (Hold l')|by rewrite lookup_insert_ne]. }
  constructor; [done|done| | |].
  3:{ intros q m Hq Hn. rewrite Hmeta in Hq. case_decide; [|by apply (tb_link _ _ HT) with q]. injection Hq as <-. destruct data as [|c]; [done|]. cbn in *.
      destruct (meta_at e path) as [m|] eqn:Em; [|done]. by apply (tb_link _ _ HT) with path. }
  - intros before fn l' Hl' Hf Hpend. destruct (decide (before +:+ "/" +:+ fn = path)) as [Eq|Hne].
    { rewrite <- Eq, cut_last_app in Hpend by done. done. }
    rewrite Hp, lookup_insert_ne in Hl' by done. rewrite Hc. destruct (decide (pending_of path data = Some (before +:+ "/" +:+ fn))) as [Epend|Hnp].
    + unfold pending_of in Epend. destruct data as [|[[fn0 l0]|]]; [done| |done]. injection Epend as E. destruct Hd as [Hl0 Hf0].
      apply app_slash_inj in E as [<- <-]; [|done..]. rewrite !decide_True by done. by rewrite <- Hl0, <- Hl'.
    + pose proof (tb_parent _ _ HT _ _ _ Hl' Hf (fun E => Hnp (eq_sym E))) as Hch. case_decide as Hb; [subst before|done].
      destruct data as [|[[fn0 l0]|]]; [done| |done]. case_decide as Hf0; [|done]. subst fn0. by destruct Hnp.
  - intros q fn l' Hch. rewrite Hc in Hch. assert (forall l1, en_paths e !! (q +:+ "/" +:+ fn) = Some l1 -> en_paths e' !! (q +:+ "/" +:+ fn) = Some l1) as Hkeep.
    { intros l1 H1. rewrite Hp. destruct (decide (q +:+ "/" +:+ fn = path)) as [Eq|Hne]; [rewrite Eq, lookup_insert_eq; rewrite Eq in H1; by rewrite (Hold l1)|by rewrite lookup_insert_ne]. }
    assert (child_of e q fn = Some l' \/ exists l0, data = MountChild (Some (fn, l0)) /\ q = path /\ l' = l0) as [Ho|(l0 & -> & -> & ->)].
    { case_decide as Hq; [subst q|by left]. destruct data as [|[[fn0 l0]|]]; [by left| |by left]. case_decide as Hf; [|by left]. subst fn0. injection Hch as ->. right. by exists l'. }
    + apply (tb_child _ _ HT) in Ho as [Ho Hf]. split; [by apply Hkeep|done].
    + destruct Hd as [Hl0 Hf]. split; [by apply Hkeep|done].
Qed.

Lemma mount_loop_spec fuel : forall path data e,
  (String.length path <= fuel)%nat -> tree_but (pending_of path data) e -> data_ok e path data ->
  let e' := mount_loop fuel path data e in
  tree_of e' /\ (forall q l, en_paths e !! q = Some l -> en_paths e' !! q = Some l) /\ is_Some (en_paths e' !! path) /\
  forall q, shows e' q = match data with MountSnapshot sn link => if decide (q = path) then Some (sn, link) else shows e q | _ => shows e q end.
Proof.
  induction fuel as [|fuel IH]; intros path data e Hlen HT Hd; cbn [mount_loop];
    pose proof (mount_at_tree e path data HT Hd) as Hm; pose proof (shows_mount_at _ e path data HT) as Hs; destruct (mount_at path data e) as [l e1]; destruct Hm as (HT1 & Hl & Hkeep).
  - assert (path = "") as -> by (destruct path; [done|cbn in Hlen; lia]). cbn in HT1. by split_and!.
  - pose proof (cut_last_spec path) as Hcut. destruct (cut_last path) as [[parent fn]|]; [|by split_and!]. destruct Hcut as [Hpath Hf].
    destruct (IH parent (MountChild (Some (fn, l))) e1) as (HT' & Hkeep' & _ & Hs').
    + apply (f_equal String.length) in Hpath as Hl2. rewrite !string_length_app in Hl2. change (String.length "/") with 1%nat in Hl2. lia.
    + cbn [pending_of]. by rewrite <- Hpath.
    + cbn [data_ok]. by rewrite <- Hpath.
    + split_and!; [done|intros q l' Hq; by apply Hkeep', Hkeep|exists l; by apply Hkeep'|intros q; by rewrite Hs'].
Qed.

(** [mount] keeps the tree, and shows the snapshot at its path. *)
Lemma mount_spec path data e :
  tree_of e -> (match data with MountChild (Some _) => False | _ => True end) ->
  let e' := mount path data e in
  tree_of e' /\ (forall q l, en_paths e !! q = Some l -> en_paths e' !! q = Some l) /\ is_Some (en_paths e' !! path) /\
  forall q, shows e' q = match data with MountSnapshot sn link => if decide (q = path) then Some (sn, link) else shows e q | _ => shows e q end.
Proof. intros HT Hd. apply mount_loop_spec; [done|by destruct data as [|[[]|]]..]. Qed.

(** * Unique names *)

(** The names that [uniqueName] tries. *)
Definition variant (name : string) (i : nat) : string := match i with O => name | S _ => name +:+ "-" +:+ pretty (Z.of_nat i) end.

Lemma string_app_inj_l (a b c : string) : a +:+ b = a +:+ c -> b = c.
Proof. induction a as [|x a IH]; [done|]. intros E. injection E as E. by apply IH. Qed.

Lemma variant_inj prefix name i j : prefix +:+ variant name i = prefix +:+ variant name j -> i = j.
Proof.
  intros E%string_app_inj_l. assert (forall k s, name <> name +:+ String.String k s) as Hne.
  { intros k s E'. apply (f_equal String.length) in E'. rewrite string_length_app in E'.
    change (String.length (String.String k s)) with (S (String.length s)) in E'. lia. }
  destruct i as [|i], j as [|j]; [done|by apply Hne in E|by symmetry in E; apply Hne in E|].
  unfold variant in E. apply string_app_inj_l in E. apply (string_app_inj_l "-") in E. apply (inj pretty) in E. by apply Nat2Z.inj in E.
Qed.

Lemma unique_loop_spec fuel e prefix name i :
  (exists j, unique_loop fuel e prefix name (variant name i) (Z.of_nat i + 1) = Ok (variant name j) /\ en_paths e !! (prefix +:+ variant name j) = None) \/
  forall j, (i <= j < i + fuel)%nat -> is_Some (en_paths e !! (prefix +:+ variant name j)).
Proof.
  revert i. induction fuel as [|fuel IH]; intros i; [right; lia|]. cbn [unique_loop]. destruct (en_paths e !! (prefix +:+ variant name i)) as [l|] eqn:El; [|left; by exists i].
  replace (name +:+ "-" +:+ pretty (Z.of_nat i + 1)) with (variant name (S i)) by (cbn [variant]; by rewrite Nat2Z.inj_succ, <- Z.add_1_r).
  replace (Z.of_nat i + 1 + 1) with (Z.of_nat (S i) + 1) by lia. destruct (IH (S i)) as [H|H]; [by left|right].
  intros j Hj. destruct (decide (j = i)) as [->|]; [by rewrite El|apply H; lia].
Qed.

(** The loop ends: one of as many names as there are entries, and one more, is free. *)
Lemma uniqueName_spec e prefix name : exists i, uniqueName e prefix name = Ok (variant name i) /\ en_paths e !! (prefix +:+ variant name i) = None.
Proof.
  destruct (unique_loop_spec (S (size (en_paths e))) e prefix name 0) as [H|H]; [done|exfalso].
  set (taken := (fun j => prefix +:+ variant name j) <$> seq 0 (S (size (en_paths e)))).
  assert (NoDup taken) as Hnd by (apply NoDup_fmap_2; [intros i j; apply variant_inj|apply NoDup_seq]).
  assert (list_to_set taken ⊆@{gset string} dom (en_paths e)) as Hsub.
  { intros p Hp%elem_of_list_to_set. apply list_elem_of_fmap in Hp as (j & -> & Hj%elem_of_seq). apply elem_of_dom, H. lia. }
  apply subseteq_size in Hsub. rewrite size_list_to_set, size_dom in Hsub by done. unfold taken in Hsub. rewrite length_fmap, length_seq in Hsub. lia.
Qed.

(** ** Paths that are clean *)

(** An absolute path below the root that [Clean] leaves alone. *)
Definition proper (p : string) : Prop := rooted p = true /\ path_Clean p = p /\ p <> "/".

Lemma pretty_no_slash (n : N) : has_slash (pretty n) = false.
Proof.
  assert (forall x s, has_slash s = false -> has_slash (pretty_N_go x s) = false) as Hgo.
  { intros x. induction x as [x IH] using (well_founded_induction N.lt_wf_0). intros s Hs. destruct (decide (0 < x)%N) as [Hx|Hx].
    - rewrite pretty_N_go_step by done. apply IH; [by apply N.div_lt|]. cbn [has_slash]. rewrite Hs, orb_false_r.
      unfold pretty_N_char. repeat case_match; done.
    - assert (x = 0%N) as -> by lia. by rewrite pretty_N_go_0. }
  unfold pretty, pretty_N. case_decide; [done|by apply Hgo].
Qed.

Lemma Join_snoc_app l x s : strings_Join "/" (l ++ [x]) +:+ s = strings_Join "/" (l ++ [x +:+ s]).
Proof.
  induction l as [|y l IH]; [done|]. destruct l as [|z l].
  - cbn [app]. rewrite !strings_Join_cons. by rewrite string_app_assoc.
  - change ((y :: z :: l) ++ [x]) with (y :: z :: (l ++ [x])). change ((y :: z :: l) ++ [x +:+ s]) with (y :: z :: (l ++ [x +:+ s])).
    rewrite !strings_Join_cons, string_app_assoc. f_equal. change (String.String slash (strings_Join "/" ((z :: l) ++ [x])) +:+ s = String.String slash (strings_Join "/" ((z :: l) ++ [x +:+ s]))).
    change (String.String slash (strings_Join "/" ((z :: l) ++ [x]) +:+ s) = String.String slash (strings_Join "/" ((z :: l) ++ [x +:+ s]))). by rewrite IH.
Qed.

Lemma proper_render p : proper p <-> exists l c, Forall good_comp (l ++ [c]) /\ p = render true (l ++ [c]).
Proof.
  split.
  - intros (Hr & Hc & Hne). rewrite Clean_components, Hr in Hc. pose proof (rooted_components p Hr) as Hg.
    destruct (exists_last (l := components p)) as (l & c & E); [intros E; rewrite E in Hc; by rewrite <- Hc in Hne|]. exists l, c. by rewrite <- E.
  - intros (l & c & Hg & ->). destruct (components_render _ Hg) as [Hr Hc]. split_and!; [done|by rewrite Clean_components, Hr, Hc|].
    intros E. apply (f_equal components) in E. rewrite Hc in E. change (components "/") with (@nil string) in E. by destruct l.
Qed.

Lemma good_variant c i : good_comp c -> good_comp (variant c i).
Proof.
  intros (H1 & H2 & H3 & H4). destruct i as [|i]; [done|]. cbn [variant]. split_and!.
  - by destruct c.
  - destruct c as [|x [|y c]]; [done|intros E; injection E as _ E; done|intros E; by injection E].
  - destruct c as [|x [|y [|z c]]]; [done|intros E; injection E as _ E; done|intros E; injection E as _ _ E; done|intros E; by injection E].
  - rewrite !has_slash_app, H4. cbn [has_slash orb]. apply (pretty_no_slash (N.of_nat (S i))).
Qed.

Lemma variant_app a b i : a +:+ variant b i = variant (a +:+ b) i.
Proof. destruct i; [done|]. cbn [variant]. by rewrite string_app_assoc. Qed.

Lemma proper_variant p i : proper p -> exists l c, Forall good_comp (l ++ [c]) /\ p = render true (l ++ [c]) /\ variant p i = render true (l ++ [variant c i]) /\ proper (variant p i).
Proof.
  intros (l & c & Hg & ->)%proper_render. exists l, c. assert (variant (render true (l ++ [c])) i = render true (l ++ [variant c i])) as E.
  { destruct i as [|i]; [done|]. cbn [variant]. unfold render. rewrite string_app_assoc. f_equal. apply Join_snoc_app. }
  split_and!; [done|done|done|]. apply proper_render. exists l, (variant c i). split; [|done]. apply Forall_app in Hg as [Hl Hc]. apply Forall_app. split; [done|].
  apply Forall_cons in Hc as [Hc _]. constructor; [by apply good_variant|done].
Qed.

(** The path of a latest link. *)
Definition latest_path (p : string) : string := path_Clean (p +:+ "/latest").

Lemma latest_render p : p = "" \/ rooted p = true -> exists l, Forall good_comp (l ++ ["latest"]) /\ latest_path p = render true (l ++ ["latest"]).
Proof.
  intros Hp. assert (rooted (p +:+ "/latest") = true) as Hr by (destruct Hp as [->|Hp]; [done|by destruct p]).
  unfold latest_path. rewrite Clean_components, Hr. pose proof (rooted_components _ Hr) as Hg. unfold components in *. rewrite Hr in *.
  change (p +:+ "/latest") with (p +:+ String.String slash "latest") in *. rewrite split_on_app, clean_fold_app in *.
  change (split_on slash "latest") with ["latest"] in *. unfold clean_fold at 1 in Hg. unfold clean_fold at 1. cbn [fold_left] in *.
  rewrite clean_step_good in Hg |- * by (by split_and!). cbn [rev] in *. eauto.
Qed.

(** A variant is never the path of a link. *)
Lemma variant_not_latest p q i : proper q -> p = "" \/ rooted p = true -> q <> latest_path p -> variant q i <> latest_path p.
Proof.
  intros Hq Hp Hne E. destruct i as [|i]; [done|]. destruct (proper_variant q (S i) Hq) as (l & c & Hg & _ & Ev & Hpv). destruct (latest_render p Hp) as (l' & Hg' & El).
  rewrite Ev, El in E. assert (Forall good_comp (l ++ [variant c (S i)])) as Hgv by (apply Forall_app in Hg as [Hl Hc]; apply Forall_app; split; [done|]; apply Forall_cons in Hc as [Hc _]; constructor; [by apply good_variant|done]).
  apply (f_equal components) in E. rewrite (proj2 (components_render _ Hgv)), (proj2 (components_render _ Hg')) in E. apply app_inj_tail in E as [_ E].
  cbn [variant] in E. clear -E. do 6 (destruct c as [|? c]; [discriminate E|injection E as _ E]). destruct c; discriminate E.
Qed.

(** * What is mounted *)

(** A path that a template yields for a snapshot, and the rest of its name. *)
Record job := mkJob { j_path : string; j_suffix : string; j_sn : Snapshot }.
Definition slashed (p : string) : string := if String.eqb p "" then p else "/" +:+ p.

Section Jobs.
Context (Format : Time -> string -> string) (pathTemplates : list string) (timeTemplate : string).

Definition template_jobs (sn : Snapshot) (templ : string) : outcome (list job) :=
  try (paths, timeSuffix) <- pathsFromSn Format templ timeTemplate sn;
  Ok ((fun p => mkJob (slashed p) timeSuffix sn) <$> paths).
Definition snapshot_jobs (sn : Snapshot) : outcome (list job) := try l <- omap_list (template_jobs sn) pathTemplates; Ok (concat l).
Definition all_jobs (snapshots : list Snapshot) : outcome (list job) := try l <- omap_list snapshot_jobs snapshots; Ok (concat l).

Definition run_job (d : dirs) (j : job) : outcome dirs :=
  try suffix <- uniqueName (ds_entries d) (j_path j) (j_suffix j);
  let e := mount (path_Clean (j_path j +:+ suffix)) (MountSnapshot (j_sn j) "") (ds_entries d) in
  if negb (String.eqb (j_suffix j) "") && match ds_latestTime d !! j_path j with Some lt => negb (Before (sn_Time (j_sn j)) lt) | None => true end
  then Ok (mkDirs (mount (latest_path (j_path j)) (MountSnapshot (j_sn j) suffix) e) (<[j_path j := sn_Time (j_sn j)]> (ds_latestTime d)))
  else Ok (mkDirs e (ds_latestTime d)).

(** When the templates can be expanded, [makeDirs] runs the jobs one by one. *)
Lemma ofold_concat {A B} (f : A -> outcome (list B)) (g : dirs -> A -> outcome dirs) (l : list A) (ll : list (list B)) (h : dirs -> B -> outcome dirs) :
  (forall x bs, x ∈ l -> f x = Ok bs -> forall d, g d x = ofold h d bs) -> omap_list f l = Ok ll -> forall d, ofold g d l = ofold h d (concat ll).
Proof using Type.
  revert ll. induction l as [|x l IH]; intros ll Hg E d; cbn [omap_list] in E; [by injection E as <-|].
  destruct (f x) as [bs|e|p] eqn:Ef; [|done..]. cbn [mbind outcome_bind] in E. destruct (omap_list f l) as [ys|e|p]; [|done..]. cbn [mbind outcome_bind] in E. injection E as <-.
  cbn [ofold concat]. rewrite ofold_app, (Hg x bs ltac:(left) Ef d). destruct (ofold h d bs) as [d'|e|p]; [|done..]. cbn [mbind outcome_bind].
  apply IH; [|done]. intros y ys' Hy. apply Hg. by right.
Qed.

Lemma makeDirs_jobs snapshots jobs : all_jobs snapshots = Ok jobs ->
  makeDirs Format pathTemplates timeTemplate snapshots =
    (try d <- ofold run_job (mkDirs (fold_left mount_prefix pathTemplates (mount "" (MountChild None) (mkEntries ∅ []))) ∅) jobs; Ok (ds_entries d)).
Proof using Type.
  unfold all_jobs, makeDirs. intros E. destruct (omap_list snapshot_jobs snapshots) as [ll|e|p] eqn:El; [|done..]. injection E as <-.
  erewrite (ofold_concat snapshot_jobs _ snapshots ll run_job); [done| |exact El]. clear. intros sn jobs _ E d. unfold snapshot_jobs in E.
  destruct (omap_list (template_jobs sn) pathTemplates) as [ll|e|p] eqn:El; [|done..]. injection E as <-. apply (ofold_concat (template_jobs sn)); [|done].
  clear. intros templ jobs _ E d. unfold template_jobs, mount_template in *. destruct (pathsFromSn _ _ _ sn) as [[paths ts]|e|p]; [|done..]. cbn [mbind outcome_bind] in *. injection E as <-.
  revert d. induction paths as [|p paths IH]; intros d; [done|]. cbn [fmap list_fmap ofold]. change (mount_snapshot sn ts d p) with (run_job d (mkJob (slashed p) ts sn)).
  destruct (run_job d _) as [d'|e|p']; [|done..]. apply IH.
Qed.
End Jobs.

(** The jobs have paths of their own: the paths are clean, no snapshot is where a link
    is, and each link belongs to one path. *)
Record good_jobs (jobs : list job) : Prop := mkGood {
  gj_slashed : forall j, j ∈ jobs -> j_path j = "" \/ rooted (j_path j) = true;
  gj_proper : forall j, j ∈ jobs -> proper (j_path j +:+ j_suffix j);
  gj_latest : forall j k, j ∈ jobs -> k ∈ jobs -> j_suffix k <> "" -> j_path j +:+ j_suffix j <> latest_path (j_path k);
  gj_link : forall j k, j ∈ jobs -> k ∈ jobs -> j_suffix j <> "" -> j_suffix k <> "" -> latest_path (j_path j) = latest_path (j_path k) -> j_path j = j_path k }.

(** The snapshot of a job is at one of its names. *)
Definition mounted (e : entries) (j : job) : Prop := exists i, shows e (j_path j +:+ variant (j_suffix j) i) = Some (j_sn j, "").

(** The link of a path leads to the newest snapshot of the path. *)
Definition links_newest (e : entries) (jobs : list job) (p : string) (t : Time) : Prop :=
  exists j i, j ∈ jobs /\ j_path j = p /\ j_suffix j <> "" /\ t = sn_Time (j_sn j) /\
    shows e (latest_path p) = Some (j_sn j, variant (j_suffix j) i) /\ shows e (p +:+ variant (j_suffix j) i) = Some (j_sn j, "") /\
    forall k, k ∈ jobs -> j_path k = p -> j_suffix k <> "" -> Before (sn_Time (j_sn j)) (sn_Time (j_sn k)) = false.

Record jobs_done (jobs : list job) (d : dirs) : Prop := mkDone {
  jd_tree : tree_of (ds_entries d);
  jd_mounted : forall j, j ∈ jobs -> mounted (ds_entries d) j;
  jd_latest : forall p t, ds_latestTime d !! p = Some t -> links_newest (ds_entries d) jobs p t;
  jd_times : forall j, j ∈ jobs -> j_suffix j <> "" -> is_Some (ds_latestTime d !! j_path j) }.

Lemma shows_none e path : en_paths e !! path = None -> shows e path = None.
Proof. intros H. unfold shows, meta_at. by rewrite H. Qed.

Section Run.
Context (all : list job) (Hgood : good_jobs all).

Lemma name_not_latest j k i : j ∈ all -> k ∈ all -> j_suffix k <> "" -> j_path j +:+ variant (j_suffix j) i <> latest_path (j_path k).
Proof using Hgood.
  intros Hj Hk Hne. rewrite variant_app. apply variant_not_latest; [by apply gj_proper with all|by apply gj_slashed with all|by apply gj_latest with all].
Qed.

(** The new entry of a snapshot takes nothing away. *)
Lemma run_job_done jobs d j :
  (forall k, k ∈ jobs -> k ∈ all) -> j ∈ all -> jobs_done jobs d -> exists d', run_job d j = Ok d' /\ jobs_done (jobs ++ [j]) d'.
Proof using Hgood.
  intros Hsub Hj [HT Hm Hlt Htimes]. unfold run_job. destruct (uniqueName_spec (ds_entries d) (j_path j) (j_suffix j)) as (i & -> & Hfree). cbn [mbind outcome_bind].
  set (path := j_path j +:+ variant (j_suffix j) i) in *.
  assert (path_Clean path = path) as Hclean by (unfold path; rewrite variant_app; by destruct (proper_variant _ i (gj_proper _ Hgood j Hj)) as (l & c & _ & _ & _ & _ & ? & _)).
  rewrite Hclean. destruct (mount_spec path (MountSnapshot (j_sn j) "") (ds_entries d) HT I) as (HT1 & _ & _ & Hs1). set (e1 := mount path _ _) in *.
  assert (forall q v, shows (ds_entries d) q = Some v -> shows e1 q = Some v) as Hkeep1.
  { intros q v Hq. rewrite Hs1, decide_False; [done|]. intros ->. by rewrite (shows_none _ _ Hfree) in Hq. }
  assert (shows e1 path = Some (j_sn j, "")) as Hj1 by (by rewrite Hs1, decide_True).
  assert (forall k, k ∈ jobs -> mounted e1 k) as Hm1 by (intros k Hk; destruct (Hm k Hk) as [n Hn]; exists n; by apply Hkeep1).
  destruct (negb (String.eqb (j_suffix j) "") && _) eqn:Eup.
  - apply andb_true_iff in Eup as [Hne Hnew]. apply negb_true_iff, String.eqb_neq in Hne.
    destruct (mount_spec (latest_path (j_path j)) (MountSnapshot (j_sn j) (variant (j_suffix j) i)) e1 HT1 I) as (HT2 & _ & _ & Hs2). set (e2 := mount (latest_path _) _ _) in *.
    assert (forall k n v, k ∈ all -> shows e1 (j_path k +:+ variant (j_suffix k) n) = Some v -> shows e2 (j_path k +:+ variant (j_suffix k) n) = Some v) as Hkeep2.
    { intros k n v Hk Hv. rewrite Hs2, decide_False; [done|by apply name_not_latest]. }
    eexists. split; [done|]. constructor; cbn [ds_entries ds_latestTime]; [done| | |].
    + intros k [Hk|Hk]%elem_of_app; [destruct (Hm1 k Hk) as [n Hn]; exists n; by apply Hkeep2; [apply Hsub|]|apply list_elem_of_singleton in Hk as ->; exists i; by apply Hkeep2].
    + intros p t Hp. destruct (decide (p = j_path j)) as [->|Hpne].
      * rewrite lookup_insert_eq in Hp. injection Hp as <-. exists j, i. split_and!; [set_solver|done|done|done|by rewrite Hs2, decide_True|by apply Hkeep2|].
        intros k [Hk|Hk]%elem_of_app Hkp Hkne; [|apply list_elem_of_singleton in Hk as ->; by apply Z.ltb_irrefl].
        destruct (Htimes k Hk Hkne) as [t Ht]. rewrite Hkp in Ht. rewrite Ht in Hnew. destruct (Hlt _ _ Ht) as (k' & n & _ & _ & _ & -> & _ & _ & Hmax).
        specialize (Hmax k Hk Hkp Hkne). unfold Before in *. apply negb_true_iff in Hnew. apply Z.ltb_ge in Hnew, Hmax. apply Z.ltb_ge. lia.
      * rewrite lookup_insert_ne in Hp by done. destruct (Hlt p t Hp) as (k & n & Hk & Hkp & Hkne & Ht & Hl & Hkt & Hmax). exists k, n.
        split_and!; [set_solver|done|done|done| |subst p; by apply Hkeep2; [apply Hsub|apply Hkeep1]|].
        -- rewrite Hs2, decide_False; [by apply Hkeep1|]. intros E. apply Hpne. subst p. by apply (gj_link _ Hgood); [apply Hsub|..].
        -- intros k' [Hk'|Hk']%elem_of_app Hp' Hne'; [by apply Hmax|]. apply list_elem_of_singleton in Hk' as ->. by destruct Hpne.
    + intros k [Hk|Hk]%elem_of_app Hkne; [|apply list_elem_of_singleton in Hk as ->; rewrite lookup_insert_eq; by eexists].
      destruct (decide (j_path k = j_path j)) as [->|Hpne]; [rewrite lookup_insert_eq; by eexists|rewrite lookup_insert_ne by done; by apply Htimes].
  - eexists. split; [done|]. constructor; cbn [ds_entries ds_latestTime]; [done| | |].
    + intros k [Hk|Hk]%elem_of_app; [by apply Hm1|]. apply list_elem_of_singleton in Hk as ->. by exists i.
    + intros p t Hp. destruct (Hlt p t Hp) as (k & n & Hk & Hkp & Hkne & Ht & Hl & Hkt & Hmax). exists k, n. split_and!; [set_solver|done|done|done|by apply Hkeep1|by apply Hkeep1|].
      intros k' [Hk'|Hk']%elem_of_app Hp' Hne'; [by apply Hmax|]. apply list_elem_of_singleton in Hk' as ->. apply andb_false_iff in Eup as [E|E].
      * apply negb_false_iff, String.eqb_eq in E. done.
      * rewrite Hp', Hp in E. apply negb_false_iff in E. rewrite Ht in E. unfold Before in *. apply Z.ltb_lt in E. apply Z.ltb_ge. lia.
    + intros k [Hk|Hk]%elem_of_app Hkne; [by apply Htimes|]. apply list_elem_of_singleton in Hk as ->. apply andb_false_iff in Eup as [E|E].
      * apply negb_false_iff, String.eqb_eq in E. done.
      * destruct (ds_latestTime d !! j_path j); [by eexists|done].
Qed.
End Run.

(** The structure before any snapshot. *)
Lemma prefixes_tree templates e : tree_of e -> is_Some (en_paths e !! "") -> tree_of (fold_left mount_prefix templates e) /\ is_Some (en_paths (fold_left mount_prefix templates e) !! "").
Proof.
  revert e. induction templates as [|templ templates IH]; intros e HT Hr; [done|]. cbn [fold_left]. unfold mount_prefix at 2 4. destruct (negb _); [|by apply IH].
  destruct (mount_spec (path_Clean ("/" +:+ staticPrefix templ)) (MountChild None) e HT I) as (HT' & Hk & _). apply IH; [done|]. destruct Hr as [l Hl]. exists l. by apply Hk.
Qed.

Lemma root_tree : tree_of (mount "" (MountChild None) (mkEntries ∅ [])) /\ is_Some (en_paths (mount "" (MountChild None) (mkEntries ∅ [])) !! "").
Proof.
  assert (tree_of (mkEntries ∅ [])) as H0 by (constructor; cbn; [by intros ? ?; rewrite lookup_empty..|unfold child_of, meta_at; cbn; intros ? ? ?; rewrite lookup_empty; done|unfold meta_at; cbn; intros ? ?; by rewrite lookup_empty]).
  destruct (mount_spec "" (MountChild None) (mkEntries ∅ []) H0 I) as (? & _ & ? & _). done.
Qed.

(** C35. When the paths that the templates give the snapshots are good (each is clean and
    below the root, no snapshot is where a link is, and each link belongs to one
    path), the entries form a tree below the root, every snapshot is at one of the names
    its templates give it, and the link of a path leads to its newest snapshot.  Without
    that a snapshot can be out of the tree ([time_template_dangles]). *)
Theorem makeDirs_mounts (Format : Time -> string -> string) (pathTemplates : list string) (timeTemplate : string) (snapshots : list Snapshot) (jobs : list job)
    (Hjobs : all_jobs Format pathTemplates timeTemplate snapshots = Ok jobs) (Hgood : good_jobs jobs) :
  exists e, makeDirs Format pathTemplates timeTemplate snapshots = Ok e /\ tree_of e /\
    (forall j, j ∈ jobs -> mounted e j) /\
    forall j, j ∈ jobs -> j_suffix j <> "" -> exists t, links_newest e jobs (j_path j) t.
Proof.
  rewrite (makeDirs_jobs _ _ _ _ _ Hjobs). destruct (prefixes_tree pathTemplates _ (proj1 root_tree) (proj2 root_tree)) as [HT _].
  set (e0 := fold_left mount_prefix pathTemplates _) in *.
  destruct (ofold_step (fun l1 d => jobs_done l1 d) run_job (mkDirs e0 ∅) jobs) as (d & Ed & Hd).
  - constructor; cbn; [done|by intros ? ?%elem_of_nil|intros ? ?; by rewrite lookup_empty|by intros ? ?%elem_of_nil].
  - intros l1 j l2 d E Hd. apply (run_job_done jobs Hgood); [intros k Hk; rewrite E; set_solver|rewrite E; set_solver|done].
  - rewrite Ed. exists (ds_entries d). destruct Hd as [HT' Hm Hl Ht]. split_and!; [done|done|done|]. intros j Hj Hne. destruct (Ht j Hj Hne) as [t Htt]. exists t. by apply Hl.
Qed.

Definition ex_Format (t : Time) (template : string) : string := pretty (Year t) +:+ template.
Definition ex_snap (n : Z) (year : Z) (tags : list string) : Snapshot := mkSnapshot (Date year 1 1 0) None (Some (ex_id_ 9)) ["/a"] "h" "u" 0 0 [] tags None "" (Some (ex_id_ n)).
Definition ex_templates : list string := ["ids/%i"; "snapshots/%T"; "tags/%t/%T"].
Definition ex_snaps : list Snapshot := [ex_snap 1 2023 ["x/y"; ".."]; ex_snap 2 2024 []; ex_snap 3 2024 ["z"]].

Lemma good_jobs_of jobs :
  Forall (fun j => (j_path j = "" \/ rooted (j_path j) = true) /\ rooted (j_path j +:+ j_suffix j) = true /\ path_Clean (j_path j +:+ j_suffix j) = j_path j +:+ j_suffix j /\
    j_path j +:+ j_suffix j <> "/") jobs ->
  Forall (fun j => Forall (fun k => (j_suffix k = "" \/ j_path j +:+ j_suffix j <> latest_path (j_path k)) /\
    (latest_path (j_path j) <> latest_path (j_path k) \/ j_path j = j_path k)) jobs) jobs -> good_jobs jobs.
Proof.
  rewrite !Forall_forall. intros H1 H2. assert (forall j k, j ∈ jobs -> k ∈ jobs -> (j_suffix k = "" \/ j_path j +:+ j_suffix j <> latest_path (j_path k)) /\
    (latest_path (j_path j) <> latest_path (j_path k) \/ j_path j = j_path k)) as H3 by (intros j k Hj Hk; specialize (H2 j Hj); rewrite Forall_forall in H2; by apply H2).
  constructor.
  - intros j Hj. by apply H1.
  - intros j Hj. by apply H1.
  - intros j k Hj Hk Hne. by destruct (H3 j k Hj Hk) as [[?|?] _].
  - intros j k Hj Hk _ _ E. by destruct (H3 j k Hj Hk) as [_ [?|?]].
Qed.

Lemma makeDirs_mounts_witness :
  exists jobs e, all_jobs ex_Format ex_templates "t" ex_snaps = Ok jobs /\ makeDirs ex_Format ex_templates "t" ex_snaps = Ok e /\
    (forall j, j ∈ jobs -> mounted e j) /\
    shows e "/snapshots/2024t" = Some (ex_snap 2 2024 [], "") /\ shows e "/snapshots/latest" = Some (ex_snap 3 2024 ["z"], "2024t-1") /\
    shows e "/tags/x_y/2023t" = Some (ex_snap 1 2023 ["x/y"; ".."], "").
Proof.
  destruct (all_jobs ex_Format ex_templates "t" ex_snaps) as [jobs|e|p] eqn:Ej; [|vm_compute in Ej; discriminate..]. exists jobs.
  destruct (makeDirs_mounts ex_Format ex_templates "t" ex_snaps jobs Ej) as (e & Ee & _ & Hm & _).
  - clear -Ej. vm_compute in Ej. injection Ej as <-. apply good_jobs_of; apply (bool_decide_unpack _); by vm_compute.
  - exists e. split; [done|]. split; [done|]. split; [done|]. clear Hm. vm_compute in Ee. injection Ee as <-. by vm_compute.
Defined.

(** The template "%T" alone leaves the snapshot outside of the tree and its link in the
    root, where it leads nowhere. *)
Lemma time_template_dangles :
  exists e, makeDirs ex_Format ["%T"] "t" [ex_snap 1 2023 []] = Ok e /\ child_of e "" "2023t" = None /\ shows e "/latest" = Some (ex_snap 1 2023 [], "2023t") /\
    en_paths e !! "/2023t" = None.
Proof. eexists. split; [by vm_compute|]. by vm_compute. Qed.

(** ** Visiting *)

(** Whatever the templates, the entries are a tree. *)
Lemma makeDirs_tree Format pathTemplates timeTemplate snapshots e :
  makeDirs Format pathTemplates timeTemplate snapshots = Ok e -> tree_of e /\ is_Some (en_paths e !! "").
Proof.
  unfold makeDirs. set (P := fun d : dirs => tree_of (ds_entries d) /\ is_Some (en_paths (ds_entries d) !! "")).
  destruct (ofold _ _ snapshots) as [d|err|p] eqn:Ed; [|done..]. intros [= <-]. change (P d). revert Ed. apply (ofold_inv P); [apply prefixes_tree; apply root_tree|].
  intros d1 sn d2 HP1 _ E2. revert HP1 E2. intros HP1. apply (ofold_inv P); [done|]. clear. intros d1 templ d2 HP1 _ E2. unfold mount_template in E2.
  destruct (pathsFromSn _ _ _ sn) as [[paths ts]|err|p]; [|done..]. cbn [mbind outcome_bind] in E2. revert E2. apply (ofold_inv P); [done|]. clear. intros d1 p d2 [HT [l Hl]] _ E2.
  unfold mount_snapshot in E2. set (q := if String.eqb p "" then p else "/" +:+ p) in *. destruct (uniqueName_spec (ds_entries d1) q ts) as (i & Eu & _). rewrite Eu in E2. cbn [mbind outcome_bind] in E2.
  destruct (mount_spec (path_Clean (q +:+ variant ts i)) (MountSnapshot sn "") (ds_entries d1) HT I) as (HT1 & Hk1 & _).
  destruct (mount_spec (path_Clean (q +:+ "/latest")) (MountSnapshot sn (variant ts i)) _ HT1 I) as (HT2 & Hk2 & _).
  destruct (_ && _); injection E2 as <-; split; cbn [ds_entries]; [done|exists l; by apply Hk2, Hk1|done|exists l; by apply Hk1].
Qed.

Section Visit.
Context (Sum64 : list byte -> Z) (e : entries) (HT : tree_of e).

Lemma child_meta path fn l : child_of e path fn = Some l -> has_slash fn = false /\ exists m, en_heap e !! l = Some m /\ meta_at e (path +:+ "/" +:+ fn) = Some m.
Proof using HT. intros [Hl Hf]%(tb_child _ _ HT). split; [done|]. destruct (meta_dom _ _ HT _ _ Hl) as (m & Hm & Hh). by exists m. Qed.

Lemma Lookup_child d m name :
  meta_at e (sd_prefix d) = Some m ->
  SnapshotsDir_Lookup Sum64 d name e (Ok (Some m)) =
    match (if has_slash name then None else meta_at e (sd_prefix d +:+ "/" +:+ name)) with Some entry => Ok (entry_child Sum64 d name entry) | None => Err ENOENT end.
Proof using HT.
  intros Hm. unfold SnapshotsDir_Lookup. assert (default ∅ (md_names m) !! name = child_of e (sd_prefix d) name) as -> by (unfold child_of; by rewrite Hm).
  destruct (child_of e (sd_prefix d) name) as [l|] eqn:Ec; cbn [mbind option_bind].
  - destruct (child_meta _ _ _ Ec) as (-> & entry & -> & ->). done.
  - destruct (has_slash name) eqn:Es; [done|]. destruct (meta_at e (sd_prefix d +:+ "/" +:+ name)) as [entry|] eqn:Em; [|done]. unfold meta_at in Em.
    destruct (en_paths e !! (sd_prefix d +:+ "/" +:+ name)) as [l|] eqn:El; [|done]. by rewrite (tb_parent _ _ HT _ _ _ El Es ltac:(done)) in Ec.
Qed.

Definition is_link (c : meta_child) : bool := match c with MetaLink _ _ _ => true | _ => false end.
Definition child_ok (c : meta_child) : Prop :=
  match c with MetaLink _ target sn => target <> "" /\ is_Some sn | MetaSnapshot _ => True | MetaSub d => is_Some (meta_at e (sd_prefix d)) end.

Lemma dirents_names d m :
  meta_at e (sd_prefix d) = Some m -> exists items, meta_dirents Sum64 d e m = Ok items /\ de_Name <$> items = (map_to_list (default ∅ (md_names m))).*1 /\
    forall name l, (name, l) ∈ map_to_list (default ∅ (md_names m)) -> exists entry, en_heap e !! l = Some entry /\
      mkDirent (inodeFromName Sum64 (sd_inode d) name) (if negb (String.eqb (md_linkTarget entry) "") then DT_Link else DT_Dir) name ∈ items.
Proof using HT.
  intros Hm. unfold meta_dirents. assert (forall name l, (name, l) ∈ map_to_list (default ∅ (md_names m)) -> is_Some (en_heap e !! l)) as Hall.
  { intros name l Hin%elem_of_map_to_list. assert (child_of e (sd_prefix d) name = Some l) as Hc by (unfold child_of; by rewrite Hm). by destruct (child_meta _ _ _ Hc) as (_ & entry & -> & _). }
  induction (map_to_list (default ∅ (md_names m))) as [|[name l] rest IH]; [exists []; split_and!; [done|done|by intros ? ? ?%elem_of_nil]|].
  destruct IH as (items & Ei & Hn & Hin); [intros; eapply Hall; by right|]. destruct (Hall name l ltac:(left)) as [entry He]. cbn [omap_list snd fst]. rewrite He. cbn [mbind outcome_bind]. rewrite Ei.
  eexists. split_and!; [done|cbn; by rewrite Hn|]. intros name' l' [[= -> ->]|Hr]%elem_of_cons; [exists entry; split; [done|by left]|].
  destruct (Hin name' l' Hr) as (entry' & ? & ?). exists entry'. split; [done|by right].
Qed.
End Visit.

(** C36. A directory of a mount lists what it finds, each name once, with the type it then
    has; what it finds are links to something, snapshots, and directories that exist. *)
Theorem SnapshotsDir_serves (Sum64 : list byte -> Z) (Format : Time -> string -> string) (pathTemplates : list string) (timeTemplate : string) (snapshots : list Snapshot)
    (e : entries) (d : SnapshotsDir) (m : MetaDirData)
    (Hdirs : makeDirs Format pathTemplates timeTemplate snapshots = Ok e) (Hm : meta_at e (sd_prefix d) = Some m) :
  exists items,
    SnapshotsDir_ReadDirAll Sum64 d e (Ok (Some m)) = Ok (mkDirent (sd_inode d) DT_Dir "." :: mkDirent (sd_parentInode d) DT_Dir ".." :: items) /\
    NoDup (de_Name <$> items) /\
    forall name, match SnapshotsDir_Lookup Sum64 d name e (Ok (Some m)) with
      | Ok c => child_ok e c /\ mkDirent (inodeFromName Sum64 (sd_inode d) name) (if is_link c then DT_Link else DT_Dir) name ∈ items
      | Err err => err = ENOENT /\ (name ∉ de_Name <$> items)
      | Panic _ => False
      end.
Proof.
  destruct (makeDirs_tree _ _ _ _ _ Hdirs) as [HT _]. destruct (dirents_names Sum64 e HT d m Hm) as (items & Ei & Hn & Hin). exists items.
  split; [unfold SnapshotsDir_ReadDirAll; by rewrite Ei|]. split; [rewrite Hn; apply NoDup_fst_map_to_list|]. intros name.
  unfold SnapshotsDir_Lookup. destruct (default ∅ (md_names m) !! name) as [l|] eqn:El; cbn [mbind option_bind].
  - assert (child_of e (sd_prefix d) name = Some l) as Hc by (unfold child_of; by rewrite Hm). destruct (child_meta e HT _ _ _ Hc) as (_ & entry & He & Hentry). rewrite He.
    destruct (Hin name l) as (entry' & He' & Hd); [by apply elem_of_map_to_list|]. rewrite He in He'. injection He' as <-. unfold entry_child.
    destruct (String.eqb_spec (md_linkTarget entry) "") as [Elink|Hlink]; cbn [negb] in *.
    + destruct (md_snapshot entry); [by split|]. split; [by exists entry|done].
    + split; [|done]. split; [done|]. destruct (md_snapshot entry) eqn:Es; [by eexists|]. by rewrite (tb_link _ _ HT _ _ Hentry Es) in Hlink.
  - split; [done|]. rewrite Hn. intros (kl & -> & Hkl)%list_elem_of_fmap. destruct kl as [k l]. apply elem_of_map_to_list in Hkl. cbn in El. by rewrite El in Hkl.
Qed.

Lemma SnapshotsDir_serves_witness :
  exists e m items, makeDirs ex_Format ex_templates "t" ex_snaps = Ok e /\ meta_at e "/snapshots" = Some m /\
    SnapshotsDir_ReadDirAll ex_Sum64 (mkSnapshotsDir 7 1 "/snapshots") e (Ok (Some m)) = Ok (mkDirent 7 DT_Dir "." :: mkDirent 1 DT_Dir ".." :: items) /\
    NoDup (de_Name <$> items) /\ length items = 4%nat.
Proof.
  destruct (makeDirs ex_Format ex_templates "t" ex_snaps) as [e|err|p] eqn:Ee; [|vm_compute in Ee; discriminate..].
  destruct (meta_at e "/snapshots") as [m|] eqn:Em; [|exfalso; vm_compute in Ee; injection Ee as <-; vm_compute in Em; discriminate].
  destruct (SnapshotsDir_serves ex_Sum64 ex_Format ex_templates "t" ex_snaps e (mkSnapshotsDir 7 1 "/snapshots") m Ee Em) as (items & Hi & Hnd & _).
  exists e, m, items. split_and!; [done|done|done|done|]. vm_compute in Ee. injection Ee as <-. vm_compute in Em. injection Em as <-. vm_compute in Hi. by injection Hi as <-.
Defined.
