(* ===== verification/OsFiles.v ===== *)
(** More calls of Go's [os] package, on the file system of Os: temporary files,
    renaming, reading; and what it takes to replace a file in one step, which the
    local backend and the cache both do.

    A crash is a run whose calls fail from some point on: a call that fails changes
    nothing, but for a write, which may have written some bytes. *)

From S2P Require Import Prelude Bytes GoString FsPath FS Backend Os.

#[local] Open Scope Z_scope.

(** Is the error, or one it wraps, the given one? *)
Fixpoint os_error_Is (e target : error) : bool :=
  bool_decide (e = target) || match e with ErrWrap cause _ => os_error_Is cause target | ErrMsg _ => false end.

Definition ErrPermission : error := ErrMsg "permission denied".
Definition ENOTSUP : error := ErrMsg "operation not supported".
Definition ENOSPC : error := ErrMsg "no space left on device".

(** The random part of the names that [os.CreateTemp] tries, chosen such that the name
    is free.  It takes the place of the last star of the pattern, or follows it. *)
Definition asterisk : Ascii.ascii := Ascii.ascii_of_nat 42.
Fixpoint cut_star (s : string) : option (string * string) :=
  match s with
  | EmptyString => None
  | String.String c s =>
      match cut_star s with
      | Some (before, after) => Some (String.String c before, after)
      | None => if Ascii.eqb c asterisk then Some ("", s) else None
      end
  end.

Definition temp_name (pattern random : string) : string :=
  match cut_star pattern with None => pattern +:+ random | Some (before, after) => before +:+ random +:+ after end.

Class TempNames := { temp_random : gset string -> string -> string -> string }.
Class TempNamesLaws `{TempNames} : Prop := {
  temp_fresh taken dir pattern : has_slash pattern = false -> path_Join [dir; temp_name pattern (temp_random taken dir pattern)] ∉ taken;
  temp_no_slash taken dir pattern : has_slash (temp_random taken dir pattern) = false }.

Definition is_dir (s : os) (path : string) : bool := bool_decide (os_paths s !! path = Some Directory).

Section Temp.
Context `{TempNames}.

Definition temp_path (s : os) (dir pattern : string) : string := path_Join [dir; temp_name pattern (temp_random (dom (os_paths s)) dir pattern)].

(** The name and the inode. *)
Definition CreateTemp (dir pattern : string) (s : os) : os * outcome (string * nat) :=
  if has_slash pattern then (s, Err (ErrMsg "pattern contains path separator")) else
  let '(f, s) := next_fault s in
  match f with
  | Some (e, _) => (s, Err e)
  | None =>
      if is_dir s dir then
        let path := temp_path s dir pattern in
        let '(s, ino) := create_file s path in (s, Ok (path, ino))
      else (s, Err ErrNotExist)
  end.
End Temp.

(** [io.Copy] to a new file: how many bytes were copied.  A reader is what it delivers,
    and the error it ends with. *)
Definition reader : Type := list byte * option error.

Definition Copy (ino : nat) (rd : reader) (s : os) : os * (Z * option error) :=
  match rd.1 with
  | [] => (s, (0, rd.2))
  | data => let '(s, (n, err)) := File_WriteAt ino data 0 s in (s, (n, match err with Some _ => err | None => rd.2 end))
  end.

Definition Rename (oldname newname : string) (s : os) : os * option error :=
  let '(f, s) := next_fault s in
  match f with
  | Some (e, _) => (s, Some e)
  | None =>
      match os_paths s !! oldname, os_paths s !! newname with
      | None, _ => (s, Some ErrNotExist)
      | Some _, Some Directory => (s, Some ErrExist)
      | Some e, _ => (mkOs (<[newname := e]> (delete oldname (os_paths s))) (os_data s) (os_faults s), None)
      end
  end.

(** [os.Open] of a regular file for reading. *)
Definition Open (path : string) (s : os) : os * outcome nat := OpenFile false path s.

(** [File.Stat], [os.Stat]: the size. *)
Definition File_Stat (ino : nat) (s : os) : os * outcome Z :=
  let '(f, s) := next_fault s in
  (s, match f with Some (e, _) => Err e | None => Ok (zlen (default [] (os_data s !! ino))) end).

Definition Stat (path : string) (s : os) : os * outcome Z :=
  let '(f, s) := next_fault s in
  (s, match f with
      | Some (e, _) => Err e
      | None => match os_paths s !! path with None => Err ErrNotExist | Some (Regular ino) => Ok (zlen (default [] (os_data s !! ino))) | Some _ => Ok 0 end
      end).

(** Reading from an offset on: reading may fail after some bytes. *)
Definition read_from (ino : nat) (offset limit : Z) (s : os) : os * reader :=
  let '(f, s) := next_fault s in
  let data := slice_from (default [] (os_data s !! ino)) offset in
  let data := if (0 <? limit) && (limit <? zlen data) then slice_to data limit else data in
  (s, match f with Some (e, n) => (take n data, Some e) | None => (data, None) end).

(** [os.ReadFile], and [os.WriteFile] of a file that may exist. *)
Definition ReadFile (path : string) (s : os) : os * outcome (list byte) :=
  match Open path s with
  | (s, Ok ino) => let '(s, rd) := read_from ino 0 0 s in let s := (File_Close s).1 in (s, match rd.2 with Some e => Err e | None => Ok rd.1 end)
  | (s, Err e) => (s, Err e)
  | (s, Panic p) => (s, Panic p)
  end.

(** The bytes go to a file, which is closed; the first error counts. *)
Definition write_and_close (ino : nat) (data : list byte) (s : os) : os * option error :=
  let '(s, (n, err)) := File_WriteAt ino data 0 s in
  let '(s, cerr) := File_Close s in
  (s, match err with Some _ => err | None => cerr end).

Definition WriteFile (path : string) (data : list byte) (s : os) : os * option error :=
  match OpenFile true path s with
  | (s, Ok ino) => write_and_close ino data s
  | (s, Err e) => (s, Some e)
  | (s, Panic p) => (s, Some (ErrMsg p))
  end.

(** [File.Readdir]: the entries of a directory, in the order of the system. *)
Definition children (s : os) (dir : string) : list (string * entry) :=
  filter (fun pe : string * entry => filepath_Dir pe.1 = dir /\ pe.1 <> dir) (map_to_list (os_paths s)).

(** Opening a directory, which may be a file, for reading. *)
Definition open_dir (dir : string) (s : os) : os * outcome entry :=
  let '(f, s) := next_fault s in
  (s, match f with
      | Some (e, _) => Err e
      | None => match os_paths s !! dir with Some e => Ok e | None => Err ErrNotExist end
      end).

(** * Invariants *)

(** Every regular file has a content. *)
Definition os_wf (s : os) : Prop := forall path ino, os_paths s !! path = Some (Regular ino) -> is_Some (os_data s !! ino).

(** Calls that leave files and contents alone. *)
Definition same_files (s s' : os) : Prop := os_data s' = os_data s /\ forall path ino, os_paths s' !! path = Some (Regular ino) <-> os_paths s !! path = Some (Regular ino).

#[export] Instance same_files_pre : PreOrder same_files.
Proof. split; [done|]. intros a b c [H1 H2] [H3 H4]. split; [by rewrite H3|]. intros path ino. by rewrite H4, H2. Qed.

Lemma same_content s s' path : same_files s s' -> file_content s' path = file_content s path.
Proof.
  intros [Hd Hp]. unfold file_content. rewrite Hd. specialize (Hp path). destruct (os_paths s !! path) as [[ino| |t|]|] eqn:E; [by rewrite (proj2 (Hp ino) eq_refl)|..];
    (destruct (os_paths s' !! path) as [[ino'| |t'|]|] eqn:E'; [by pose proof (proj1 (Hp ino') eq_refl)|done..]).
Qed.

Lemma same_wf s s' : same_files s s' -> os_wf s -> os_wf s'.
Proof. intros [Hd Hp] Hw path ino Hi. rewrite Hd. apply (Hw path). by apply Hp. Qed.

Lemma next_fault_same s f s' : next_fault s = (f, s') -> os_paths s' = os_paths s /\ os_data s' = os_data s.
Proof. unfold next_fault. destruct (os_faults s); by intros [= <- <-]. Qed.

Lemma next_fault_files s f s' : next_fault s = (f, s') -> same_files s s'.
Proof. intros E. destruct (next_fault_same _ _ _ E) as [Hp Hd]. split; [done|]. intros path ino. by rewrite Hp. Qed.

Lemma os_call_files s s' r : os_call s = (s', r) -> same_files s s'.
Proof. unfold os_call. destruct (next_fault s) as [f s1] eqn:E. intros [= <- _]. by apply next_fault_files with f. Qed.

Lemma File_Close_files s s' r : File_Close s = (s', r) -> same_files s s'.
Proof. apply os_call_files. Qed.

Lemma Stat_files path s s' r : Stat path s = (s', r) -> same_files s s'.
Proof. unfold Stat. destruct (next_fault s) as [f s1] eqn:E. intros [= <- _]. by apply next_fault_files with f. Qed.

Lemma File_Stat_files ino s s' r : File_Stat ino s = (s', r) -> same_files s s' /\ forall p, r <> Panic p.
Proof. unfold File_Stat. destruct (next_fault s) as [f s1] eqn:E. intros [= <- <-]. split; [by apply next_fault_files with f|]. by destruct f as [[]|]. Qed.

(** What is read without an error is the part that was asked for. *)
Lemma read_from_cut ino offset limit s s' rd data :
  os_data s !! ino = Some data -> read_from ino offset limit s = (s', rd) -> rd.2 = None -> rd.1 = cut data limit offset.
Proof.
  intros Hd. unfold read_from. destruct (next_fault s) as [f s1] eqn:E. destruct (next_fault_same _ _ _ E) as [_ Hdata]. rewrite Hdata, Hd. cbn [default from_option id].
  destruct f as [[e n]|]; by intros [= <- <-].
Qed.

Lemma read_from_files ino offset limit s s' r : read_from ino offset limit s = (s', r) -> same_files s s'.
Proof. unfold read_from. destruct (next_fault s) as [f s1] eqn:E. intros [= <- _]. by apply next_fault_files with f. Qed.

Lemma Open_files path s s' r :
  Open path s = (s', r) -> same_files s s' /\ match r with Ok ino => os_paths s !! path = Some (Regular ino) | Err _ => True | Panic _ => False end.
Proof.
  unfold Open, OpenFile. destruct (next_fault s) as [f s1] eqn:E. pose proof (next_fault_files _ _ _ E) as Hs. destruct (next_fault_same _ _ _ E) as [Hp _]. destruct f as [[e n]|]; [by intros [= <- <-]|].
  destruct (os_paths s1 !! path) as [[ino| |t|]|] eqn:Ep; intros [= <- <-]; (split; [done|]); try done. by rewrite <- Hp.
Qed.

(** A new directory where there was nothing. *)
Lemma Mkdir_files path s s' r : Mkdir path s = (s', r) -> same_files s s'.
Proof.
  unfold Mkdir. destruct (next_fault s) as [f s1] eqn:E. pose proof (next_fault_files _ _ _ E) as Hs. destruct f as [[e n]|]; [by intros [= <- <-]|].
  destruct (os_paths s1 !! path) eqn:Ep; intros [= <- <-]; [done|]. etransitivity; [exact Hs|]. split; [done|]. intros q ino. cbn.
  destruct (decide (q = path)) as [->|Hne]; [rewrite lookup_insert_eq, Ep|by rewrite lookup_insert_ne]. done.
Qed.

Lemma mkdir_all_files paths s s' r : mkdir_all paths s = (s', r) -> same_files s s'.
Proof.
  revert s. induction paths as [|p paths IH]; intros s; cbn [mkdir_all]; [by intros [= <- _]|].
  destruct (os_paths s !! p) as [[ino| |t|]|]; try (by intros [= <- _]); [by apply IH|].
  destruct (Mkdir p s) as [s1 [e|]] eqn:E; apply Mkdir_files in E; [by intros [= <- _]|]. intros Hr%IH. by etransitivity.
Qed.

Lemma MkdirAll_files path s s' r : MkdirAll path s = (s', r) -> same_files s s'.
Proof. apply mkdir_all_files. Qed.

(** * Replacing a file *)

(** A file that nobody else has: at the path [p], with the content [c]; the rest is as
    it was in [s0]. *)
Record temp_at (s0 : os) (p : string) (ino : nat) (c : list byte) (s : os) : Prop := mkTempAt {
  ta_wf : os_wf s;
  ta_path : os_paths s !! p = Some (Regular ino);
  ta_data : os_data s !! ino = Some c;
  ta_alone : forall q, q <> p -> os_paths s !! q <> Some (Regular ino);
  ta_rest : forall q, q <> p -> file_content s q = file_content s0 q }.

Lemma CreateTemp_temp `{TempNamesLaws} dir pattern s s' r :
  os_wf s -> CreateTemp dir pattern s = (s', r) ->
  match r with
  | Ok (p, ino) => temp_at s p ino [] s' /\ p = temp_path s dir pattern /\ os_paths s !! p = None
  | Err _ => same_files s s'
  | Panic _ => False
  end.
Proof.
  intros Hw. unfold CreateTemp. destruct (has_slash pattern) eqn:Hpat; [by intros [= <- <-]|]. destruct (next_fault s) as [f s1] eqn:E. pose proof (next_fault_files _ _ _ E) as Hs. destruct (next_fault_same _ _ _ E) as [Hp Hd].
  destruct f as [[e n]|]; [by intros [= <- <-]|]. destruct (is_dir s1 dir); [|by intros [= <- <-]]. unfold create_file.
  assert (temp_path s1 dir pattern = temp_path s dir pattern) as Ht by (unfold temp_path; by rewrite Hp). rewrite Ht. set (p := temp_path s dir pattern). set (ino := fresh (dom (os_data s1))). intros [= <- <-].
  assert (os_paths s !! p = None) as Hnone by (apply not_elem_of_dom; by apply temp_fresh).
  assert (os_data s1 !! ino = None) as Hino by (apply not_elem_of_dom; apply is_fresh).
  assert (forall q i, os_paths s1 !! q = Some (Regular i) -> i <> ino) as Hne.
  { intros q i Hq ->. destruct (same_wf _ _ Hs Hw _ _ Hq) as [x Hx]. by rewrite Hino in Hx. }
  split; [|done]. constructor; cbn.
  - intros q i Hq. cbn in *. destruct (decide (q = p)) as [->|Hqp].
    + rewrite lookup_insert_eq in Hq. injection Hq as <-. rewrite lookup_insert_eq. by eexists.
    + rewrite lookup_insert_ne in Hq by done. rewrite lookup_insert_ne by (symmetry; by eapply Hne). by apply (same_wf _ _ Hs Hw q).
  - by rewrite lookup_insert_eq.
  - by rewrite lookup_insert_eq.
  - intros q Hqp. rewrite lookup_insert_ne by done. intros Hq. by apply Hne in Hq.
  - intros q Hqp. rewrite <- (same_content s s1 q Hs). unfold file_content. cbn. rewrite lookup_insert_ne by done.
    destruct (os_paths s1 !! q) as [[i| |t|]|] eqn:Eq; try done. by rewrite lookup_insert_ne by (symmetry; by eapply Hne).
Qed.

(** Calls that leave files alone, writes, removal and renaming. *)
Lemma temp_same s0 p ino c s s' : same_files s s' -> temp_at s0 p ino c s -> temp_at s0 p ino c s'.
Proof.
  intros Hs [Hw Hp Hd Ha Hr]. constructor; [by eapply same_wf|by apply Hs|by rewrite (proj1 Hs)|intros q Hq Hi; apply (Ha q Hq); by apply Hs|].
  intros q Hq. rewrite (same_content _ _ _ Hs). by apply Hr.
Qed.

Lemma temp_set s0 p ino c c' s : temp_at s0 p ino c s -> temp_at s0 p ino c' (set_data s ino c').
Proof.
  intros [Hw Hp Hd Ha Hr]. constructor; cbn.
  - intros q i Hq. cbn in *. destruct (decide (i = ino)) as [->|Hi]; [rewrite lookup_insert_eq; by eexists|rewrite lookup_insert_ne by done; by eapply Hw].
  - done.
  - by rewrite lookup_insert_eq.
  - done.
  - intros q Hq. rewrite <- Hr by done. unfold file_content. cbn. destruct (os_paths s !! q) as [[i| |t|]|] eqn:Eq; try done.
    rewrite lookup_insert_ne; [done|]. intros ->. by apply (Ha q Hq).
Qed.

Lemma Fallocate_temp s0 p ino c size s s' r :
  temp_at s0 p ino c s -> Fallocate ino size s = (s', r) -> temp_at s0 p ino c s' \/ temp_at s0 p ino (c ++ zeros (Z.to_nat size - length c)) s'.
Proof.
  intros Ht. unfold Fallocate. destruct (next_fault s) as [f s1] eqn:E. apply next_fault_files in E. apply (temp_same _ _ _ _ _ _ E) in Ht.
  destruct f as [[e n]|]; intros [= <- <-]; [by left|right]. rewrite (ta_data _ _ _ _ _ Ht). by eapply temp_set.
Qed.

(** A copy that ends without an error has written all. *)
Lemma Copy_temp s0 p ino c rd s s' n err :
  temp_at s0 p ino c s -> Copy ino rd s = (s', (n, err)) ->
  exists c', temp_at s0 p ino c' s' /\ (err = None -> n = zlen rd.1 /\ rd.2 = None /\ ((length c <= length rd.1)%nat -> c' = rd.1)).
Proof.
  intros Ht. unfold Copy. destruct rd as [[|b data] rerr]; cbn [fst snd] in *.
  { intros [= <- <- <-]. exists c. split; [done|]. intros ->. split_and!; [done|done|]. intros Hlen. destruct c; [done|cbn in Hlen; lia]. }
  unfold File_WriteAt. cbn [Z.ltb Z.compare]. destruct (next_fault s) as [f s1] eqn:E. apply next_fault_files in E. apply (temp_same _ _ _ _ _ _ E) in Ht.
  rewrite (ta_data _ _ _ _ _ Ht). destruct f as [[e k]|]; intros [= <- <- <-].
  - eexists. split; [by eapply temp_set|done].
  - eexists. split; [by eapply temp_set|]. intros ->. split_and!; [done|done|]. intros Hlen. cbn [default from_option id Z.to_nat write_at Nat.add].
    cbn [app length]. rewrite drop_ge by exact Hlen. by rewrite app_nil_r.
Qed.

Lemma Remove_temp s0 p ino c s s' r :
  temp_at s0 p ino c s -> Remove p s = (s', r) ->
  os_wf s' /\ (forall q, q <> p -> file_content s' q = file_content s0 q).
Proof.
  intros Ht. unfold Remove. destruct (next_fault s) as [f s1] eqn:E. apply next_fault_files in E. apply (temp_same _ _ _ _ _ _ E) in Ht.
  destruct Ht as [Hw Hp Hd Ha Hr]. destruct f as [[e n]|]; [intros [= <- <-]; by split|]. rewrite Hp. intros [= <- <-]. split.
  - intros q i Hq. cbn in *. destruct (decide (q = p)) as [->|Hqp]; [by rewrite lookup_delete_eq in Hq|]. rewrite lookup_delete_ne in Hq by done. by eapply Hw.
  - intros q Hq. rewrite <- Hr by done. unfold file_content. cbn. by rewrite lookup_delete_ne.
Qed.

(** Renaming is one step: the new content is at the new path, or nothing changed. *)
Lemma Rename_temp s0 p ino c final s s' r :
  p <> final -> temp_at s0 p ino c s -> Rename p final s = (s', r) ->
  match r with
  | Some _ => temp_at s0 p ino c s'
  | None => os_wf s' /\ file_content s' final = Some c /\ (forall q, q <> p -> q <> final -> file_content s' q = file_content s0 q) /\ file_content s' p = None
  end.
Proof.
  intros Hne Ht. unfold Rename. destruct (next_fault s) as [f s1] eqn:E. apply next_fault_files in E. apply (temp_same _ _ _ _ _ _ E) in Ht.
  destruct f as [[e n]|]; [by intros [= <- <-]|]. rewrite (ta_path _ _ _ _ _ Ht).
  assert (forall s2, s2 = mkOs (<[final := Regular ino]> (delete p (os_paths s1))) (os_data s1) (os_faults s1) ->
    os_wf s2 /\ file_content s2 final = Some c /\ (forall q, q <> p -> q <> final -> file_content s2 q = file_content s0 q) /\ file_content s2 p = None) as Hok.
  { intros s2 ->. destruct Ht as [Hw Hp Hd Ha Hr]. split_and!.
    - intros q i Hq. cbn in *. destruct (decide (q = final)) as [->|Hqf]; [rewrite lookup_insert_eq in Hq; injection Hq as <-; by eexists|].
      rewrite lookup_insert_ne in Hq by done. destruct (decide (q = p)) as [->|Hqp]; [by rewrite lookup_delete_eq in Hq|]. rewrite lookup_delete_ne in Hq by done. by eapply Hw.
    - unfold file_content. cbn. by rewrite lookup_insert_eq.
    - intros q Hqp Hqf. rewrite <- Hr by done. unfold file_content. cbn. by rewrite lookup_insert_ne, lookup_delete_ne.
    - unfold file_content. cbn. by rewrite lookup_insert_ne, lookup_delete_eq by done. }
  destruct (os_paths s1 !! final) as [[i| |t|]|]; intros [= <- <-]; by first [apply Hok|done].
Qed.

(** Removing what is not a file. *)
Lemma Remove_other_files p s s' r : os_wf s -> file_content s p = None -> Remove p s = (s', r) -> same_files s s'.
Proof.
  intros Hw Hnone. unfold Remove. destruct (next_fault s) as [f s1] eqn:E. pose proof (next_fault_files _ _ _ E) as Hs. destruct f as [[e n]|]; [by intros [= <- <-]|].
  rewrite <- (same_content _ _ p Hs) in Hnone. unfold file_content in Hnone.
  assert (forall i, os_paths s1 !! p <> Some (Regular i)) as Hi.
  { intros i Hi. rewrite Hi in Hnone. destruct (same_wf _ _ Hs Hw _ _ Hi) as [x Hx]. by rewrite Hx in Hnone. }
  assert (same_files s (mkOs (delete p (os_paths s1)) (os_data s1) (os_faults s1))) as Hd.
  { etransitivity; [exact Hs|]. split; [done|]. intros q i. cbn. destruct (decide (q = p)) as [->|Hq]; [|by rewrite lookup_delete_ne].
    rewrite lookup_delete_eq. split; [done|]. intros Hq. by apply Hi in Hq. }
  destruct (os_paths s1 !! p) as [[i| |t|]|]; [by intros [= <- <-]| |by intros [= <- <-]..]. destruct (has_children s1 p); by intros [= <- <-].
Qed.

(** * Names of temporary files *)

(** A path that ends in a component. *)
Definition ends_in (p : string) : Prop := exists root out c, good_comp c /\ clean_stack root (c :: out) /\ p = render root (rev (c :: out)).

Lemma Join_last elems c :
  good_comp c -> exists root out, clean_stack root (c :: out) /\ path_Join (elems ++ [c]) = render root (rev (c :: out)).
Proof.
  intros Hc. set (l := filter (fun e => e <> "") elems).
  assert (path_Join (elems ++ [c]) = path_Join (l ++ [c])) as ->.
  { assert (filter (fun e => e <> "") (l ++ [c]) = filter (fun e => e <> "") (elems ++ [c])) as Hf; [|unfold path_Join; by rewrite Hf].
    rewrite !filter_app. f_equal. apply filter_all. apply Forall_forall. by intros x [Hx _]%list_elem_of_filter. }
  assert (Forall (fun e => e <> "") (l ++ [c])) as Hne.
  { apply Forall_app. split; [apply Forall_forall; by intros x [Hx _]%list_elem_of_filter|]. constructor; [by destruct Hc|done]. }
  rewrite path_Join_render by (done || by destruct l). pose proof (elems_stack_clean (l ++ [c])) as Hs. unfold elems_stack in *.
  set (root := elems_root (l ++ [c])) in *. rewrite fmap_app, concat_app, clean_fold_app in *. cbn [fmap list_fmap concat] in *. rewrite app_nil_r, split_on_single in * by apply Hc.
  unfold clean_fold at 1. unfold clean_fold at 1 in Hs. cbn [fold_left] in *. rewrite clean_step_good in Hs |- * by done. by eexists _, _.
Qed.

Lemma Join_ends elems c : good_comp c -> ends_in (path_Join (elems ++ [c])).
Proof. intros Hc. destruct (Join_last elems c Hc) as (root & out & Hs & ->). by exists root, out, c. Qed.

Lemma Base_Join elems c : good_comp c -> filepath_Base (path_Join (elems ++ [c])) = c.
Proof. intros Hc. destruct (Join_last elems c Hc) as (root & out & Hs & ->). by apply Base_render. Qed.

Lemma cut_star_app s before after : cut_star s = Some (before, after) -> s = before +:+ "*" +:+ after.
Proof.
  revert before. induction s as [|c s IH]; intros before; cbn [cut_star]; [done|]. destruct (cut_star s) as [[b a]|].
  - intros [= <- <-]. by rewrite (IH b eq_refl).
  - destruct (Ascii.eqb_spec c asterisk) as [->|]; [|done]. by intros [= <- <-].
Qed.

Lemma temp_name_slash pattern random : has_slash (temp_name pattern random) = has_slash pattern || has_slash random.
Proof.
  unfold temp_name. destruct (cut_star pattern) as [[b a]|] eqn:E; [|apply has_slash_app]. apply cut_star_app in E as ->. rewrite !has_slash_app. cbn [has_slash].
  destruct (has_slash b), (has_slash a), (has_slash random); done.
Qed.

Lemma temp_name_length pattern random : (String.length pattern + String.length random <= S (String.length (temp_name pattern random)))%nat.
Proof.
  unfold temp_name. destruct (cut_star pattern) as [[b a]|] eqn:E; [|rewrite string_length_app; lia]. apply cut_star_app in E as ->. rewrite !string_length_app. cbn [String.length]. lia.
Qed.

Lemma good_long c : has_slash c = false -> (3 <= String.length c)%nat -> good_comp c.
Proof. intros Hs Hl. split_and!; [..|done]; intros ->; cbn in Hl; lia. Qed.

(** Names that are longer than all others. *)
Definition zero_digit : Ascii.ascii := Ascii.ascii_of_nat 48.
Fixpoint zeros_text (n : nat) : string := match n with O => "" | S n => String.String zero_digit (zeros_text n) end.
#[export] Instance long_temps : TempNames := {| temp_random taken dir pattern := zeros_text (4 + max_list ((fun q => String.length (filepath_Base q)) <$> elements taken)) |}.

Lemma zeros_text_spec n : String.length (zeros_text n) = n /\ has_slash (zeros_text n) = false.
Proof. induction n as [|n [H1 H2]]; [done|]. cbn. by rewrite H1. Qed.

#[export] Instance long_temps_laws : TempNamesLaws.
Proof.
  split; [|intros taken dir pattern; apply zeros_text_spec]. intros taken dir pattern Hp Hin. cbn [temp_random long_temps] in Hin.
  set (n := max_list _) in Hin. destruct (zeros_text_spec (4 + n)) as [Hl Hs]. set (z := zeros_text (4 + n)) in *. pose proof (temp_name_length pattern z) as Hlen.
  assert (good_comp (temp_name pattern z)) as Hg by (apply good_long; [by rewrite temp_name_slash, Hp, Hs|lia]).
  assert (String.length (filepath_Base (path_Join [dir; temp_name pattern z])) <= n)%nat as Hle.
  { apply max_list_elem_of_le. apply (list_elem_of_fmap_2 (fun q => String.length (filepath_Base q))). by apply elem_of_elements. }
  change [dir; temp_name pattern z] with ([dir] ++ [temp_name pattern z]) in Hle. rewrite Base_Join in Hle by done. lia.
Qed.

(** Removing loses at most the file itself. *)
Lemma Remove_files p s s' r :
  os_wf s -> Os.Remove p s = (s', r) ->
  os_wf s' /\ (forall q, q <> p -> file_content s' q = file_content s q) /\ (file_content s' p = file_content s p \/ file_content s' p = None).
Proof.
  intros Hw. unfold Remove. destruct (next_fault s) as [f s1] eqn:E. apply next_fault_files in E. pose proof (same_wf _ _ E Hw) as Hw1.
  assert (os_wf s1 /\ (forall q, q <> p -> file_content s1 q = file_content s q) /\ (file_content s1 p = file_content s p \/ file_content s1 p = None)) as Hsame.
  { split_and!; [done|intros q _; by apply same_content|left; by apply same_content]. }
  set (s2 := mkOs (delete p (os_paths s1)) (os_data s1) (os_faults s1)).
  assert (os_wf s2 /\ (forall q, q <> p -> file_content s2 q = file_content s q) /\ (file_content s2 p = file_content s p \/ file_content s2 p = None)) as Hdel.
  { split_and!.
    - intros q i Hq. cbn in *. apply lookup_delete_Some in Hq as [_ Hq]. by eapply Hw1.
    - intros q Hq. rewrite <- (same_content _ _ q E). unfold file_content. cbn. by rewrite lookup_delete_ne.
    - right. unfold file_content. cbn. by rewrite lookup_delete_eq. }
  destruct f as [[e n]|]; [by intros [= <- <-]|]. destruct (os_paths s1 !! p) as [[i| |t|]|]; [by intros [= <- <-]| |by intros [= <- <-]..].
  destruct (has_children s1 p); by intros [= <- <-].
Qed.

Lemma Remove_gone p s s' : Os.Remove p s = (s', None) -> file_content s' p = None.
Proof.
  unfold Remove. destruct (next_fault s) as [[[e n]|] s1]; [done|]. unfold file_content.
  destruct (os_paths s1 !! p) as [[i| |t|]|]; [|destruct (has_children s1 p)| | |]; intros [= <-]; cbn; by rewrite lookup_delete_eq.
Qed.

(** * Directories that are made *)

(** Making directories keeps those there are. *)
Lemma Mkdir_keeps path s s' r q : Mkdir path s = (s', r) -> is_dir s q = true -> is_dir s' q = true.
Proof.
  unfold Mkdir, is_dir. destruct (next_fault s) as [f s1] eqn:E. destruct (next_fault_same _ _ _ E) as [Hp _]. rewrite <- Hp. destruct f as [[e n]|]; [by intros [= <- _]|].
  destruct (os_paths s1 !! path) eqn:Ep; intros [= <- _]; [done|]. intros Hq%bool_decide_eq_true. apply bool_decide_eq_true. cbn. rewrite lookup_insert_ne; [done|]. by intros ->; rewrite Ep in Hq.
Qed.

Lemma mkdir_all_keeps paths s s' r q : mkdir_all paths s = (s', r) -> is_dir s q = true -> is_dir s' q = true.
Proof.
  revert s. induction paths as [|p paths IH]; intros s; cbn [mkdir_all]; [by intros [= <- _]|].
  destruct (os_paths s !! p) as [[ino| |t|]|]; try (by intros [= <- _]); [by apply IH|].
  destruct (Mkdir p s) as [s1 [e|]] eqn:E; [intros [= <- _]; by eapply Mkdir_keeps|]. intros Hr Hq. eapply IH; [exact Hr|]. by eapply Mkdir_keeps.
Qed.

Lemma mkdir_all_made paths s s' : mkdir_all paths s = (s', None) -> forall p, p ∈ paths -> is_dir s' p = true.
Proof.
  revert s. induction paths as [|p paths IH]; intros s; cbn [mkdir_all]; [by intros _ q Hq%elem_of_nil|].
  destruct (os_paths s !! p) as [[ino| |t|]|] eqn:Ep; try done.
  - intros Hr q [->|Hq]%elem_of_cons; [|by eapply IH]. eapply mkdir_all_keeps; [exact Hr|]. unfold is_dir. by rewrite Ep.
  - destruct (Mkdir p s) as [s1 [e|]] eqn:E; [done|]. intros Hr q [->|Hq]%elem_of_cons; [|by eapply IH]. eapply mkdir_all_keeps; [exact Hr|].
    unfold Mkdir in E. destruct (next_fault s) as [[[e n]|] s2]; [done|]. destruct (os_paths s2 !! p); [done|]. injection E as <-. apply bool_decide_eq_true. cbn. by rewrite lookup_insert_eq.
Qed.

(** The path itself is one of its prefixes. *)
Lemma path_prefixes_last dne comps c : c <> "" -> dne +:+ strings_Join "/" (comps ++ [c]) ∈ path_prefixes dne (comps ++ [c]).
Proof.
  intros Hc. revert dne. induction comps as [|x comps IH]; intros dne; cbn [app path_prefixes].
  - destruct (String.eqb_spec c "") as [|_]; [done|]. by left.
  - apply elem_of_app. right. destruct (comps ++ [c]) as [|y l] eqn:E; [by destruct comps|]. rewrite strings_Join_cons. specialize (IH ((dne +:+ x) +:+ "/")).
    rewrite string_app_assoc, string_app_assoc in IH at 1. exact IH.
Qed.

Lemma MkdirAll_made p s s' : ends_in p -> MkdirAll p s = (s', None) -> is_dir s' p = true.
Proof.
  intros (root & out & c & Hc & Hs & ->) Hr. eapply mkdir_all_made; [exact Hr|]. cbn [rev] in *.
  pose proof (clean_stack_comps _ _ Hs) as Hcs. apply Forall_and in Hcs as [Hns Hne]. cbn [rev] in Hns, Hne.
  assert (c <> "") as Hce by by destruct Hc. unfold render. destruct root.
  - change ("/" +:+ strings_Join "/" (rev out ++ [c])) with ("" +:+ String.String slash (strings_Join "/" (rev out ++ [c]))). rewrite split_on_app, split_on_Join_comps; [|by destruct (rev out)|done].
    change (split_on slash "") with [""]. apply (path_prefixes_last "" ("" :: rev out) c) in Hce. cbn [app] in Hce |- *. destruct (rev out ++ [c]) as [|y l] eqn:E; [by destruct (rev out)|]. exact Hce.
  - destruct (rev out ++ [c]) as [|y l] eqn:E; [by destruct (rev out)|]. rewrite <- E. rewrite split_on_Join_comps; [|by destruct (rev out)|by rewrite E]. apply (path_prefixes_last "" (rev out) c Hce).
Qed.

(** * Whole files *)

Lemma set_data_wf s ino data : os_wf s -> os_wf (set_data s ino data).
Proof. intros Hw p i Hp. cbn in *. destruct (decide (i = ino)) as [->|Hi]; [rewrite lookup_insert_eq; by eexists|rewrite lookup_insert_ne by done; by eapply Hw]. Qed.

Lemma create_file_wf s path s' ino : os_wf s -> create_file s path = (s', ino) -> os_wf s' /\ os_paths s' !! path = Some (Regular ino).
Proof.
  intros Hw [= <- <-]. split; [|cbn; by rewrite lookup_insert_eq]. intros p i Hp. cbn in *. destruct (decide (i = fresh (dom (os_data s)))) as [->|Hi]; [rewrite lookup_insert_eq; by eexists|].
  rewrite lookup_insert_ne by done. destruct (decide (p = path)) as [->|Hne]; [rewrite lookup_insert_eq in Hp; by injection Hp as <-|]. rewrite lookup_insert_ne in Hp by done. by eapply Hw.
Qed.

Lemma ReadFile_spec path s s' r : os_wf s -> ReadFile path s = (s', r) -> same_files s s' /\ forall buf, r = Ok buf -> file_content s path = Some buf.
Proof.
  intros Hw. unfold ReadFile. destruct (Open path s) as [s1 x] eqn:E1. apply Open_files in E1 as [Hs1 Hx]. destruct x as [ino|e|]; [|by intros [= <- <-]|done].
  destruct (read_from ino 0 0 s1) as [s2 rd] eqn:E2. pose proof (read_from_files _ _ _ _ _ _ E2) as Hs2. destruct (File_Close s2) as [s3 cerr] eqn:E3. apply File_Close_files in E3. intros [= <- <-].
  split; [by repeat (etransitivity; [eassumption|])|]. intros buf Hbuf. destruct (Hw _ _ Hx) as [data Hdata]. rewrite <- (proj1 Hs1) in Hdata.
  destruct (rd.2) eqn:Er; [done|]. injection Hbuf as <-. rewrite (read_from_cut _ _ _ _ _ _ _ Hdata E2 Er). unfold file_content. rewrite Hx, <- (proj1 Hs1). exact Hdata.
Qed.

Lemma write_and_close_spec ino data path s s' r :
  os_wf s -> os_paths s !! path = Some (Regular ino) -> os_data s !! ino = Some [] -> write_and_close ino data s = (s', r) ->
  os_wf s' /\ (r = None -> file_content s' path = Some data).
Proof.
  intros Hw Hp Hd. unfold write_and_close. destruct (File_WriteAt ino data 0 s) as [s1 [n err]] eqn:E1. destruct (File_Close s1) as [s2 cerr] eqn:E2. apply File_Close_files in E2. intros [= <- <-].
  unfold File_WriteAt in E1. cbn [Z.ltb Z.compare] in E1. destruct (next_fault s) as [f s3] eqn:E3. pose proof (next_fault_files _ _ _ E3) as Hs3. destruct (next_fault_same _ _ _ E3) as [Hp3 Hd3].
  assert (os_wf s1) as Hw1 by (destruct f as [[e k]|]; injection E1 as <- _ _; apply set_data_wf; by eapply same_wf). split; [by eapply same_wf|].
  destruct f as [[e k]|]; injection E1 as <- _ <-; [done|]. intros _. rewrite (same_content _ _ _ E2). unfold file_content. cbn. rewrite Hp3, Hp, lookup_insert_eq, Hd3, Hd. f_equal. cbn [default from_option id Z.to_nat].
  destruct data as [|b data]; [done|]. cbn. by rewrite app_nil_r.
Qed.

Lemma WriteFile_spec path data s s' r : os_wf s -> WriteFile path data s = (s', r) -> os_wf s' /\ (r = None -> file_content s' path = Some data).
Proof.
  intros Hw. unfold WriteFile, OpenFile. destruct (next_fault s) as [f s1] eqn:E1. pose proof (same_wf _ _ (next_fault_files _ _ _ E1) Hw) as Hw1. destruct f as [[e n]|]; [by intros [= <- <-]|].
  destruct (os_paths s1 !! path) as [[ino| |t|]|] eqn:Ep; try by intros [= <- <-].
  - apply write_and_close_spec; [by apply set_data_wf|done|cbn; by rewrite lookup_insert_eq].
  - destruct (create_file s1 path) as [s2 ino] eqn:E2. destruct (create_file_wf _ _ _ _ Hw1 E2) as [Hw2 Hp2]. apply write_and_close_spec; [done|done|]. injection E2 as <- <-. cbn. by rewrite lookup_insert_eq.
Qed.

(** [os.RemoveAll]: a path and all below it; a failure may leave some of them, and a path
    that does not exist is no error. *)
Definition below (path p : string) : bool := String.eqb p path || String.prefix (path +:+ "/") p.
Definition RemoveAll (path : string) (s : os) : os * option error :=
  let '(f, s) := next_fault s in
  let gone := List.filter (below path) (map_to_list (os_paths s)).*1 in
  let '(gone, err) := match f with Some (e, n) => (take n gone, Some e) | None => (gone, None) end in
  (mkOs (foldr (fun p m => delete p m) (os_paths s) gone) (os_data s) (os_faults s), err).
