(* ===== verification/LocalBackend.v ===== *)
(** The backend in a local directory (src/backend/local/local.go, local_unix.go,
    config.go), on the file system of Os, whose calls may fail at any time.

    [errors.WithStack] keeps an error as it is.  The modes of files are not modelled. *)

From S2P Require Import Prelude Bytes GoString Restic FsPath FS Backend Layout Os OsFiles.

#[local] Open Scope Z_scope.

Record Config := mkConfig { cf_Path : string; cf_Layout : string; cf_Connections : Z }.

Definition NewConfig : Config := mkConfig "" "" 2.

Definition ParseConfig (s : string) : outcome Config :=
  if negb (String.prefix "local:" s) then Err (ErrMsg "invalid format, prefix local not found")
  else Ok (mkConfig (drop_bytes 6 s) (cf_Layout NewConfig) (cf_Connections NewConfig)).

Definition local_IsNotExist (err : error) : bool := os_error_Is err ErrNotExist.

Definition EINVAL : error := ErrMsg "invalid argument".

(** [fsyncDir]; opening, syncing and closing the directory. *)
Definition fsyncDir (dir : string) (s : os) : os * option error :=
  match os_call s with
  | (s, Some e) => (s, Some e)
  | (s, None) =>
      let '(s, err) := os_call s in
      let err := match err with
                 | Some e => if os_error_Is e ENOTSUP || os_error_Is e ErrNotExist || os_error_Is e EINVAL then None else Some e
                 | None => None
                 end in
      let '(s, cerr) := File_Close s in
      (s, match err with None => cerr | Some _ => err end)
  end.

(** [fs.Chmod]. *)
Definition Chmod (path : string) (s : os) : os * option error :=
  let '(f, s) := next_fault s in
  let err := match f with Some (e, _) => Some e | None => match os_paths s !! path with None => Some ErrNotExist | Some _ => None end end in
  (s, match err with Some e => if os_error_Is e ENOTSUP then None else Some e | None => None end).
Definition setFileReadonly (path : string) (s : os) : os * option error := Chmod path s.

Section Local.
Context `{TempNames} (l : Layout).

(** The part of [Save] after the temporary file was created. *)
Definition write_and_rename (name : string) (ino : nat) (rd : reader) (Length : Z) (dir finalname : string) (s : os) : os * option error :=
  let s := if 0 <? Length then (Fallocate ino Length s).1 else s in
  let '(s, (wbytes, err)) := Copy ino rd s in
  match err with
  | Some e => (s, Some e)
  | None =>
      if negb (wbytes =? Length) then (s, Some (ErrMsg "wrote %d bytes instead of the expected %d bytes"))
      else
        let '(s, err) := os_call s in
        let syncNotSup := match err with Some e => os_error_Is e ENOTSUP | None => false end in
        match (if syncNotSup then None else err) with
        | Some e => (s, Some e)
        | None =>
            match File_Close s with
            | (s, Some e) => (s, Some e)
            | (s, None) =>
                match Rename name finalname s with
                | (s, Some e) => (s, Some e)
                | (s, None) =>
                    match (if syncNotSup then (s, None) else fsyncDir dir s) with
                    | (s, Some e) => (s, Some e)
                    | (s, None) =>
                        let '(s, err) := setFileReadonly finalname s in
                        (s, match err with Some e => if os_error_Is e ErrPermission then None else Some e | None => None end)
                    end
                end
            end
        end
  end.

(** The temporary file, in a directory that is made when it is missing. *)
Definition temp_in_dir (dir tmpname : string) (s : os) : os * outcome (string * nat) :=
  match CreateTemp dir tmpname s with
  | (s, Err e) =>
      if local_IsNotExist e then
        match MkdirAll dir s with
        | (s, None) => CreateTemp dir tmpname s
        | (s, Some _) => (s, Err e)
        end
      else (s, Err e)
  | r => r
  end.

(** The first deferred function. *)
Definition mark_permanent (err : error) : error := if os_error_Is err ENOSPC || os_error_Is err ErrPermission then Permanent err else err.

Definition local_Save (h : Handle) (rd : reader) (Length : Z) (s : os) : os * outcome unit :=
  let finalname := Filename l h in
  let dir := filepath_Dir finalname in
  match temp_in_dir dir (filepath_Base finalname +:+ "-tmp-") s with
  | (s, Err e) => (s, Err (mark_permanent e))
  | (s, Panic p) => (s, Panic p)
  | (s, Ok (name, ino)) =>
      match write_and_rename name ino rd Length dir finalname s with
      | (s, None) => (s, Ok tt)
      | (s, Some e) => let s := (File_Close s).1 in let s := (Remove name s).1 in (s, Err (mark_permanent e))
      end
  end.

Definition openReader (h : Handle) (length_ offset : Z) (s : os) : os * outcome reader :=
  match Open (Filename l h) s with
  | (s, Err e) => (s, Err e)
  | (s, Panic p) => (s, Panic p)
  | (s, Ok ino) =>
      match (if 0 <? offset then os_call s else (s, None)) with
      | (s, Some e) => ((File_Close s).1, Err e)
      | (s, None) => let '(s, rd) := read_from ino offset length_ s in (s, Ok rd)
      end
  end.

(** [util.DefaultLoad] with [openReader]. *)
Definition local_Load {S} (h : Handle) (length_ offset : Z) (fn : S -> reader -> S * option error) (st : S) (s : os) : os * (S * outcome unit) :=
  match openReader h length_ offset s with
  | (s, Err e) => (s, (st, Err e))
  | (s, Panic p) => (s, (st, Panic p))
  | (s, Ok rd) =>
      match fn st rd with
      | (st, Some e) => ((File_Close s).1, (st, Err e))
      | (st, None) => let '(s, err) := File_Close s in (s, (st, match err with Some e => Err e | None => Ok tt end))
      end
  end.

Definition local_Stat (h : Handle) (s : os) : os * outcome FileInfo :=
  let '(s, fi) := Stat (Filename l h) s in
  (s, match fi with Ok size => Ok (mkFileInfo size (h_Name h)) | Err e => Err e | Panic p => Panic p end).

Definition local_Remove (h : Handle) (s : os) : os * outcome unit :=
  let '(s, err) := Chmod (Filename l h) s in
  match (match err with Some e => if os_error_Is e ErrPermission then None else Some e | None => None end) with
  | Some e => (s, Err e)
  | None => let '(s, err) := Remove (Filename l h) s in (s, match err with Some e => Err e | None => Ok tt end)
  end.

Definition entry_info (s : os) (pe : string * entry) : FileInfo :=
  mkFileInfo (match pe.2 with Regular ino => zlen (default [] (os_data s !! ino)) | _ => 0 end) (filepath_Base pe.1).

(** Reading and closing a directory. *)
Definition read_dir (dir : string) (s : os) : os * outcome (list (string * entry)) :=
  let '(f, s) := next_fault s in
  match f, os_paths s !! dir with
  | Some (e, _), _ => ((File_Close s).1, Err e)
  | None, Some Directory => let entries := children s dir in let '(s, err) := File_Close s in (s, match err with Some e => Err e | None => Ok entries end)
  | None, _ => ((File_Close s).1, Err (ErrMsg "not a directory"))
  end.

Section List.
Context {S : Type} (fn : FileInfo -> S -> S * option error).

Fixpoint visit_infos (fis : list FileInfo) (st : S) : S * outcome unit :=
  match fis with
  | [] => (st, Ok tt)
  | fi :: fis => match fn fi st with (st, Some e) => (st, Err e) | (st, None) => visit_infos fis st end
  end.

Definition read_and_visit (dir : string) (st : S) (s : os) : os * (S * outcome unit) :=
  match read_dir dir s with
  | (s, Ok entries) => (s, visit_infos (entry_info s <$> entries) st)
  | (s, Err e) => (s, (st, Err e))
  | (s, Panic p) => (s, (st, Panic p))
  end.

Definition visitFiles (dir : string) (ignoreNotADirectory : bool) (st : S) (s : os) : os * (S * outcome unit) :=
  match open_dir dir s with
  | (s, Err e) => (s, (st, Err e))
  | (s, Panic p) => (s, (st, Panic p))
  | (s, Ok found) =>
      if ignoreNotADirectory then
        match os_call s with
        | (s, Some e) => ((File_Close s).1, (st, Err e))
        | (s, None) => if bool_decide (found = Directory) then read_and_visit dir st s else ((File_Close s).1, (st, Ok tt))
        end
      else read_and_visit dir st s
  end.

Fixpoint visit_subdirs (dir : string) (sub : list string) (st : S) (s : os) : os * (S * outcome unit) :=
  match sub with
  | [] => (s, (st, Ok tt))
  | f :: sub =>
      match visitFiles (path_Join [dir; f]) true st s with
      | (s, (st, Ok _)) => visit_subdirs dir sub st s
      | r => r
      end
  end.

Definition visitDirs (dir : string) (st : S) (s : os) : os * (S * outcome unit) :=
  match open_dir dir s with
  | (s, Err e) => (s, (st, Err e))
  | (s, Panic p) => (s, (st, Panic p))
  | (s, Ok _) =>
      match read_dir dir s with
      | (s, Ok entries) => visit_subdirs dir ((fun pe => filepath_Base pe.1) <$> entries) st s
      | (s, Err e) => (s, (st, Err e))
      | (s, Panic p) => (s, (st, Panic p))
      end
  end.

Definition local_List (t : FileType) (st : S) (s : os) : os * (S * outcome unit) :=
  let '(basedir, subdirs) := Basedir l t in
  match (if subdirs then visitDirs basedir st s else visitFiles basedir false st s) with
  | (s, (st, Err e)) => (s, (st, if local_IsNotExist e then Ok tt else Err e))
  | r => r
  end.
End List.

(** [Create], after [open] found the layout. *)
Fixpoint create_paths (paths : list string) (s : os) : os * outcome unit :=
  match paths with
  | [] => (s, Ok tt)
  | d :: paths => match MkdirAll d s with (s, Some e) => (s, Err e) | (s, None) => create_paths paths s end
  end.

Definition local_Create (s : os) : os * outcome unit :=
  match Stat (Filename l (mkHandle ConfigFile false "")) s with
  | (s, Ok _) => (s, Err (ErrMsg "config file already exists"))
  | (s, _) => create_paths (Paths l) s
  end.
End Local.

Definition local_Delete (cfg : Config) (s : os) : os * option error := RemoveAll (cf_Path cfg) s.

(** * A file is replaced in one step *)

(** The layouts a local backend can have. *)
Definition local_layout (l : Layout) : Prop := exists p, l = DefaultLayout (mkLayout "" p path_Join) \/ l = S3LegacyLayout (mkLayout "" p path_Join).
Definition local_handle (h : Handle) : Prop := h_Type h = ConfigFile \/ good_comp (h_Name h).

Lemma Filename_ends l h : local_layout l -> local_handle h -> ends_in (Filename l h).
Proof.
  intros [p [-> | ->]] Hh; cbn [Filename].
  - unfold DefaultLayout_Filename. cbn [l_Join l_Path]. destruct (Z.eqb_spec (h_Type h) ConfigFile) as [Ht|Ht].
    + by apply (Join_ends [p]).
    + destruct Hh as [?|Hg]; [done|]. by apply (Join_ends [_]).
  - unfold S3LegacyLayout_Filename, s3_join. cbn [l_Join l_Path l_URL]. rewrite andb_false_r.
    set (name := if Z.eqb (h_Type h) ConfigFile then "config" else h_Name h). assert (good_comp name) as Hg by (unfold name; destruct (Z.eqb_spec (h_Type h) ConfigFile); [done|by destruct Hh]).
    assert (exists els, drop_empty [p; s3LayoutPaths (h_Type h); name] = els ++ [name]) as [els ->].
    { cbn [drop_empty]. destruct (String.eqb p ""); [|by exists [p; s3LayoutPaths (h_Type h)]]. destruct (String.eqb (s3LayoutPaths (h_Type h)) ""); [|by exists [s3LayoutPaths (h_Type h)]].
      destruct (String.eqb_spec name ""); [by destruct Hg|]. by exists (@nil string). }
    by apply Join_ends.
Qed.

(** The temporary file has another name. *)
Lemma temp_not_final final random : ends_in final -> has_slash random = false -> path_Join [filepath_Dir final; temp_name (filepath_Base final +:+ "-tmp-") random] <> final.
Proof.
  intros (root & out & c & Hc & Hs & ->) Hr E. rewrite Base_render in E by done. set (name := temp_name _ random) in E.
  pose proof (temp_name_length (c +:+ "-tmp-") random) as Hl. rewrite string_length_app in Hl. fold name in Hl. change (String.length "-tmp-") with 5%nat in Hl.
  assert (good_comp name) as Hn by (apply good_long; [unfold name; rewrite temp_name_slash, has_slash_app, Hr; by destruct Hc as (_ & _ & _ & ->)|lia]).
  apply (f_equal filepath_Base) in E. rewrite Base_render in E by done. change [filepath_Dir (render root (rev (c :: out))); name] with ([filepath_Dir (render root (rev (c :: out)))] ++ [name]) in E.
  rewrite Base_Join in E by done. rewrite E in Hl. lia.
Qed.

(** The file was replaced. *)
Definition committed (s0 : os) (final : string) (data : list byte) (s : os) : Prop :=
  os_wf s /\ file_content s final = Some data /\ forall q, q <> final -> is_Some (file_content s0 q) -> file_content s q = file_content s0 q.

Lemma committed_same s0 final data s s' : same_files s s' -> committed s0 final data s -> committed s0 final data s'.
Proof. intros Hs (Hw & Hf & Hr). split_and!; [by eapply same_wf|by rewrite (same_content _ _ _ Hs)|]. intros q Hq Hc. rewrite (same_content _ _ _ Hs). by apply Hr. Qed.

Lemma fsyncDir_files dir s s' r : fsyncDir dir s = (s', r) -> same_files s s'.
Proof.
  unfold fsyncDir. destruct (os_call s) as [s1 [e|]] eqn:E1; apply os_call_files in E1; [by intros [= <- _]|]. destruct (os_call s1) as [s2 err] eqn:E2. apply os_call_files in E2.
  destruct (File_Close s2) as [s3 cerr] eqn:E3. apply File_Close_files in E3. intros [= <- _]. by repeat (etransitivity; [eassumption|]).
Qed.

Lemma Chmod_files path s s' r : Chmod path s = (s', r) -> same_files s s'.
Proof. unfold Chmod. destruct (next_fault s) as [f s1] eqn:E. intros [= <- _]. by apply next_fault_files with f. Qed.

(** Up to the renaming the new content is in the temporary file, and afterwards it is
    the file. *)
Lemma write_and_rename_spec s0 p ino rd Length dir final s s' err :
  temp_at s0 p ino [] s -> p <> final -> file_content s0 p = None -> write_and_rename p ino rd Length dir final s = (s', err) ->
  ((exists c, temp_at s0 p ino c s') /\ err <> None) \/ (committed s0 final rd.1 s' /\ file_content s' p = None /\ rd.2 = None /\ Length = zlen rd.1).
Proof.
  intros Ht Hne Hp0 E. unfold write_and_rename in E.
  set (s1 := if 0 <? Length then (Fallocate ino Length s).1 else s) in E.
  assert (temp_at s0 p ino [] s1 \/ temp_at s0 p ino (zeros (Z.to_nat Length)) s1) as Hs1.
  { unfold s1. destruct (0 <? Length); [|by left]. destruct (Fallocate ino Length s) as [s2 r] eqn:Ef. apply (Fallocate_temp _ _ _ _ _ _ _ _ Ht) in Ef as [?|Hz]; [by left|right].
    cbn [length app] in Hz. by rewrite Nat.sub_0_r in Hz. }
  clearbody s1. assert (exists c, temp_at s0 p ino c s1 /\ (length c = 0 \/ length c = Z.to_nat Length)%nat) as (c & Hc & Hl)
    by (destruct Hs1; eexists; (split; [eassumption|]); rewrite ?length_zeros; auto).
  destruct (Copy ino rd s1) as [s2 [wbytes cerr]] eqn:Ec. destruct (Copy_temp _ _ _ _ _ _ _ _ _ Hc Ec) as (c' & Hc' & Hdone). clear Hs1 Hc.
  destruct cerr as [e|]; [injection E as <- <-; left; split; [by exists c'|done]|]. destruct (Hdone eq_refl) as (Hn & Hr & Hcopy).
  destruct (Z.eqb_spec wbytes Length) as [Hw|Hw]; cbn [negb] in E; [|injection E as <- <-; left; split; [by exists c'|done]].
  rewrite Hcopy in Hc' by (unfold zlen in Hn; lia). clear Hcopy Hl Hdone Ec.
  destruct (os_call s2) as [s3 serr] eqn:E3. apply os_call_files in E3. apply (temp_same _ _ _ _ _ _ E3) in Hc'. set (nosync := match serr with Some e => os_error_Is e ENOTSUP | None => false end) in E.
  destruct (if nosync then None else serr) as [e|]; [injection E as <- <-; left; split; [by exists rd.1|done]|].
  destruct (File_Close s3) as [s4 [e|]] eqn:E4; apply File_Close_files in E4; apply (temp_same _ _ _ _ _ _ E4) in Hc'; [injection E as <- <-; left; split; [by exists rd.1|done]|].
  destruct (Rename p final s4) as [s5 [e|]] eqn:E5; apply (Rename_temp _ _ _ _ _ _ _ _ Hne Hc') in E5; [injection E as <- <-; left; split; [by exists rd.1|done]|].
  right. destruct E5 as (Hw5 & Hf5 & Hr5 & Hp5). assert (committed s0 final rd.1 s5) as Hcom.
  { split_and!; [done|done|]. intros q Hq [x Hx]. apply Hr5; [intros ->; by rewrite Hp0 in Hx|done]. }
  assert (forall s'', same_files s5 s'' -> committed s0 final rd.1 s'' /\ file_content s'' p = None /\ rd.2 = None /\ Length = zlen rd.1) as Hend.
  { intros s'' Hs. split_and!; [by eapply committed_same|by rewrite (same_content _ _ _ Hs)|done|lia]. }
  destruct (if nosync then (s5, None) else fsyncDir dir s5) as [s6 ferr] eqn:E6.
  assert (same_files s5 s6) as Hs6 by (destruct nosync; [by injection E6 as <- _|by apply fsyncDir_files in E6]).
  destruct ferr as [e|]; [injection E as <- <-; by apply Hend|]. destruct (setFileReadonly final s6) as [s7 merr] eqn:E7. apply Chmod_files in E7.
  injection E as <- _. apply Hend. by etransitivity.
Qed.

Section Save.
Context `{TempNamesLaws} (l : Layout) (Hl : local_layout l).

Lemma temp_in_dir_spec dir tmpname s s' r :
  os_wf s -> temp_in_dir dir tmpname s = (s', r) ->
  match r with
  | Ok (p, ino) => exists s0, same_files s s0 /\ temp_at s0 p ino [] s' /\ p = temp_path s0 dir tmpname /\ file_content s0 p = None
  | Err _ => same_files s s'
  | Panic _ => False
  end.
Proof using All.
  intros Hw E. unfold temp_in_dir in E. destruct (CreateTemp dir tmpname s) as [s1 r1] eqn:E1. apply (CreateTemp_temp _ _ _ _ _ Hw) in E1.
  assert (forall s0 s2 r2, same_files s s0 -> os_wf s0 -> CreateTemp dir tmpname s0 = (s2, r2) -> match r2 with
    | Ok (p, ino) => exists s0, same_files s s0 /\ temp_at s0 p ino [] s2 /\ p = temp_path s0 dir tmpname /\ file_content s0 p = None | Err _ => same_files s s2 | Panic _ => False end) as Htemp.
  { intros s0 s2 r2 Hs Hw0 E2. apply (CreateTemp_temp _ _ _ _ _ Hw0) in E2. destruct r2 as [[p ino]|e|]; [|by etransitivity|done].
    destruct E2 as (Ht & Hp & Hn). exists s0. split_and!; [done|done|done|]. unfold file_content. by rewrite Hn. }
  destruct r1 as [[p ino]|e|]; [|destruct (local_IsNotExist e)|done].
  - injection E as <- <-. destruct E1 as (Ht & Hp & Hn). exists s. split_and!; [done|done|done|]. unfold file_content. by rewrite Hn.
  - destruct (MkdirAll dir s1) as [s2 [e2|]] eqn:E2; apply MkdirAll_files in E2; [injection E as <- <-; by etransitivity|].
    assert (same_files s s2) as Hs2 by (by etransitivity). apply (Htemp s2); [done|by eapply same_wf|done].
  - by injection E as <- <-.
Qed.

(** [Save]: the file is the old one or the new one, and without an error the new one. *)
Lemma local_Save_spec h rd Length s s' r :
  os_wf s -> local_handle h -> local_Save l h rd Length s = (s', r) ->
  let final := Filename l h in
  os_wf s' /\ (forall q, q <> final -> is_Some (file_content s q) -> file_content s' q = file_content s q) /\
  match r with
  | Ok _ => file_content s' final = Some rd.1 /\ rd.2 = None /\ Length = zlen rd.1
  | Err _ => file_content s' final = file_content s final \/ file_content s' final = Some rd.1 /\ rd.2 = None /\ Length = zlen rd.1
  | Panic _ => False
  end.
Proof using All.
  intros Hw Hh E. cbv zeta. pose proof (Filename_ends l h Hl Hh) as Hends. unfold local_Save in E. set (final := Filename l h) in *.
  destruct (temp_in_dir _ _ s) as [s1 r1] eqn:E1. apply (temp_in_dir_spec _ _ _ _ _ Hw) in E1.
  destruct r1 as [[p ino]|e|]; [|injection E as <- <-|done].
  2:{ split_and!; [by eapply same_wf|intros q _ _; by apply same_content|left; by apply same_content]. }
  destruct E1 as (s0 & Hs0 & Ht & Hp & Hp0). assert (p <> final) as Hne.
  { rewrite Hp. unfold temp_path. apply temp_not_final; [done|apply temp_no_slash]. }
  destruct (write_and_rename p ino rd Length _ final s1) as [s2 err] eqn:E2. apply (write_and_rename_spec _ _ _ _ _ _ _ _ _ _ Ht Hne Hp0) in E2.
  assert (forall s3, committed s0 final rd.1 s3 -> os_wf s3 /\ file_content s3 final = Some rd.1 /\ forall q, q <> final -> is_Some (file_content s q) -> file_content s3 q = file_content s q) as Hcom.
  { intros s3 (Hw3 & Hf3 & Hr3). split_and!; [done|done|]. intros q Hq Hc. rewrite <- (same_content s s0 q Hs0) in Hc |- *. by apply Hr3. }
  destruct err as [e|]; [|destruct E2 as [[_ ?]|(Hc & _ & Hr & HL)]; [done|]; injection E as <- <-; destruct (Hcom _ Hc) as (? & ? & ?); by split_and!].
  injection E as <- <-. destruct (File_Close s2) as [s3 cerr] eqn:E3. apply File_Close_files in E3. cbn [fst]. destruct (Remove p s3) as [s4 rerr] eqn:E4. cbn [fst].
  destruct E2 as [[[c Hc] _]|(Hc & Hpn & Hr & HL)].
  - apply (temp_same _ _ _ _ _ _ E3) in Hc. destruct (Remove_temp _ _ _ _ _ _ _ Hc E4) as [Hw4 Hr4]. split_and!; [done| |left; rewrite Hr4 by done; by apply same_content].
    intros q Hq Hcq. rewrite Hr4; [by apply same_content|]. intros ->. rewrite <- (same_content s s0 p Hs0), Hp0 in Hcq. by destruct Hcq.
  - apply (committed_same _ _ _ _ _ E3) in Hc. assert (same_files s3 s4) as Hs4; [|apply (committed_same _ _ _ _ _ Hs4) in Hc; destruct (Hcom _ Hc) as (? & ? & ?); split_and!; [done|done|by right]].
    rewrite <- (same_content _ _ p E3) in Hpn. destruct Hc as [Hw3 _]. by apply (Remove_other_files _ _ _ _ Hw3 Hpn E4).
Qed.
(** What [openReader] delivers when nothing fails. *)
Lemma openReader_delivers h data length_ offset s :
  file_content s (Filename l h) = Some data -> os_faults s = [] -> openReader l h length_ offset s = (s, Ok (cut data length_ offset, None)).
Proof using Type.
  intros Hf Hno. unfold file_content in Hf. unfold openReader, Open, OpenFile, os_call, read_from, next_fault. rewrite Hno.
  destruct (os_paths s !! Filename l h) as [[ino| |t|]|]; try done. destruct (0 <? offset); rewrite ?Hno; cbn; by rewrite Hf.
Qed.

(** C24. Saving a file in the local backend replaces it in one step, whatever calls of
    the operating system fail and wherever a crash stops it: the file has its old
    content or all of the new one, no other file changes, the temporary file is never
    the file itself; without an error it has the new content, which was read to the end
    and is as long as announced, and loading delivers the bytes asked for. *)
Theorem Save_atomic h rd Length s s' r (Hw : os_wf s) (Hh : local_handle h) :
  local_Save l h rd Length s = (s', r) ->
  let final := Filename l h in
  os_wf s' /\ (forall q, q <> final -> is_Some (file_content s q) -> file_content s' q = file_content s q) /\
  match r with
  | Ok _ =>
      file_content s' final = Some rd.1 /\ rd.2 = None /\ Length = zlen rd.1 /\
      forall length_ offset, os_faults s' = [] -> openReader l h length_ offset s' = (s', Ok (cut rd.1 length_ offset, None))
  | Err _ => file_content s' final = file_content s final \/ file_content s' final = Some rd.1 /\ rd.2 = None /\ Length = zlen rd.1
  | Panic _ => False
  end.
Proof using All.
  intros E. pose proof (local_Save_spec _ _ _ _ _ _ Hw Hh E) as (H1 & H2 & H3). split_and!; [done|done|]. destruct r as [u|e|]; [|done|done].
  destruct H3 as (Hf & Hr & HL). split_and!; [done|done|done|]. intros length_ offset Hno. by apply openReader_delivers.
Qed.
End Save.

(** ** A witness: a system that fails when the directory is synced *)

Definition demo_layout : Layout := DefaultLayout (mkLayout "" "/repo" path_Join).
Definition demo_handle : Handle := mkHandle KeyFile false "ab".
Definition demo_os (faults : list (option (error * nat))) : os :=
  mkOs (<["/repo/keys/ab" := Regular 0]> (<["/repo/keys" := Directory]> (<["/repo" := Directory]> ∅))) {[ 0%nat := ["a"%byte] ]} faults.
Definition sync_fails : list (option (error * nat)) := replicate 6 None ++ [Some (ErrMsg "input/output error", 0%nat)].
Definition saved_content (faults : list (option (error * nat))) : option (list byte) * bool :=
  let '(s, r) := local_Save demo_layout demo_handle (["b"%byte; "c"%byte], None) 2 (demo_os faults) in
  (file_content s "/repo/keys/ab", is_ok r).

Example saved_ok : saved_content [] = (Some ["b"%byte; "c"%byte], true).
Proof. by vm_compute. Qed.
Example saved_copy_fails : saved_content [None; None; Some (ENOSPC, 1%nat)] = (Some ["a"%byte], false).
Proof. by vm_compute. Qed.
Example saved_sync_fails : saved_content sync_fails = (Some ["b"%byte; "c"%byte], false).
Proof. by vm_compute. Qed.

Lemma demo_os_wf faults : os_wf (demo_os faults).
Proof.
  intros path ino. cbn. destruct (decide (path = "/repo/keys/ab")) as [->|H1]; [rewrite lookup_insert_eq; intros [= <-]; by eexists|]. rewrite lookup_insert_ne by done.
  destruct (decide (path = "/repo/keys")) as [->|H2]; [by rewrite lookup_insert_eq|]. rewrite lookup_insert_ne by done.
  destruct (decide (path = "/repo")) as [->|H3]; [by rewrite lookup_insert_eq|]. by rewrite lookup_insert_ne.
Qed.

Lemma demo_local : local_layout demo_layout /\ local_handle demo_handle.
Proof. split; [exists "/repo"; by left|right; by vm_compute]. Qed.

Lemma Save_atomic_witness :
  let rd : reader := (["b"%byte; "c"%byte], None) in
  (let '(s', r) := local_Save demo_layout demo_handle rd 2 (demo_os []) in r = Ok tt /\ file_content s' (Filename demo_layout demo_handle) = Some rd.1 /\ openReader demo_layout demo_handle 0 1 s' = (s', Ok (["c"%byte], None))) /\
  (let '(s', r) := local_Save demo_layout demo_handle rd 2 (demo_os sync_fails) in is_ok r = false /\ os_wf s').
Proof.
  cbv zeta. set (rd := (["b"%byte; "c"%byte], None) : reader). split.
  - destruct (local_Save demo_layout demo_handle rd 2 (demo_os [])) as [s' r] eqn:E.
    assert (is_ok r = true) as Hok by (change r with (s', r).2; rewrite <- E; by vm_compute). assert (os_faults s' = []) as Hno by (change s' with (s', r).1; rewrite <- E; by vm_compute).
    pose proof (Save_atomic demo_layout (proj1 demo_local) demo_handle rd 2 _ _ _ (demo_os_wf []) (proj2 demo_local) E) as (_ & _ & H).
    destruct r as [[]|e|]; [|done..]. destruct H as (Hf & _ & _ & Hread). split_and!; [done|done|]. exact (Hread 0 1 Hno).
  - destruct (local_Save demo_layout demo_handle rd 2 (demo_os sync_fails)) as [s' r] eqn:E.
    assert (is_ok r = false) as Hok by (change r with (s', r).2; rewrite <- E; by vm_compute).
    pose proof (Save_atomic demo_layout (proj1 demo_local) demo_handle rd 2 _ _ _ (demo_os_wf sync_fails) (proj2 demo_local) E) as (Hw & _ & _). by split.
Defined.

(** ** A listing that ends early

    An error of the callback that says that something does not exist is taken for a
    missing directory: the listing ends without an error. *)

Definition packs_os (faults : list (option (error * nat))) : os :=
  mkOs (<["/repo/data/00/00a" := Regular 0]> (<["/repo/data/01/01a" := Regular 1]> (<["/repo/data/00" := Directory]> (<["/repo/data/01" := Directory]> (<["/repo/data" := Directory]> ∅)))))
    (<[0%nat := []]> {[ 1%nat := [] ]}) faults.

Definition collect (fi : FileInfo) (names : list string) : list string * option error := (names ++ [fi_Name fi], None).

(** Opening the second directory fails, as when it was removed meanwhile. *)
Definition second_is_gone : list (option (error * nat)) := replicate 7 None ++ [Some (ErrNotExist, 0%nat)].
Definition listed (faults : list (option (error * nat))) : list string * bool :=
  let '(_, (names, r)) := local_List demo_layout collect PackFile [] (packs_os faults) in (names, is_ok r).

Lemma List_loses_directories : (length (listed []).1 = 2)%nat /\ (length (listed second_is_gone).1 = 1)%nat /\ (listed second_is_gone).2 = true.
Proof. by vm_compute. Qed.

Lemma List_loses_error :
  let fails (fi : FileInfo) (n : nat) : nat * option error := (S n, Some (ErrWrap ErrNotExist "callback")) in
  (local_List demo_layout fails PackFile 0%nat (packs_os [])).2 = (1%nat, Ok tt).
Proof. by vm_compute. Qed.
