(* ===== verification/Cache.v ===== *)
(** The local cache of files (src/internal/cache/file.go, backend.go), on the file system
    of Os, and the backend that uses it.

    A [*Cache] that may be [nil] is an option.  A method of the wrapped backend is one
    step, but where it waits for the download of another goroutine, others go on
    ([wait]).  [errors.WithStack] keeps an error as it is. *)

From S2P Require Import Prelude Bytes GoString Restic Sets Crypto FsPath FS Backend Layout Retry Os OsFiles.

#[local] Open Scope Z_scope.

Record Cache := mkCache { c_path : string; c_Base : string; c_Created : bool }.

Definition cacheLayoutPaths (t : FileType) : option string :=
  if t =? PackFile then Some "data" else if t =? SnapshotFile then Some "snapshots" else if t =? IndexFile then Some "index" else None.

Definition as_outcome (err : option error) : outcome unit := match err with Some e => Err e | None => Ok tt end.

Definition is_Panic {A} (o : outcome A) : bool := match o with Panic _ => true | _ => false end.

Section Files.
Context `{TempNames} (c : option Cache).

Definition filename (h : Handle) : outcome string :=
  if Nat.ltb (String.length (h_Name h)) 2 then Panic "Name is empty or too short"
  else
    let subdir := take_bytes 2 (h_Name h) in
    match c with
    | None => Panic "nil pointer dereference"
    | Some c => Ok (path_Join [c_path c; default "" (cacheLayoutPaths (h_Type h)); subdir; h_Name h])
    end.

Definition canBeCached (t : FileType) : bool :=
  match c, cacheLayoutPaths t with Some _, Some _ => true | _, _ => false end.

(** Going on with the name of the file. *)
Definition with_filename {A} (h : Handle) (k : string -> os -> os * outcome A) (s : os) : os * outcome A :=
  match filename h with Ok name => k name s | Err e => (s, Err e) | Panic p => (s, Panic p) end.

Definition Has (h : Handle) (s : os) : os * outcome bool :=
  if negb (canBeCached (h_Type h)) then (s, Ok false)
  else with_filename h (fun name s => let '(s, fi) := OsFiles.Stat name s in (s, Ok (is_ok fi))) s.

Definition cache_remove (h : Handle) (s : os) : os * outcome unit :=
  match Has h s with
  | (s, Ok true) => with_filename h (fun name s => let '(s, err) := Os.Remove name s in (s, as_outcome err)) s
  | (s, Ok false) => (s, Ok tt)
  | (s, Err e) => (s, Err e)
  | (s, Panic p) => (s, Panic p)
  end.

(** Closing and removing a file that is too short. *)
Definition drop_file (h : Handle) (e : error) (s : os) : os * outcome reader :=
  let s := (File_Close s).1 in
  match cache_remove h s with (s, Panic p) => (s, Panic p) | (s, _) => (s, Err e) end.

Definition load (h : Handle) (length_ offset : Z) (s : os) : os * outcome reader :=
  if negb (canBeCached (h_Type h)) then (s, Err (ErrMsg "cannot be cached"))
  else with_filename h (fun name s =>
    match OsFiles.Open name s with
    | (s, Err e) => (s, Err e)
    | (s, Panic p) => (s, Panic p)
    | (s, Ok f) =>
        match File_Stat f s with
        | (s, Err e) => ((File_Close s).1, Err e)
        | (s, Panic p) => (s, Panic p)
        | (s, Ok size) =>
            if size <=? CiphertextLength 0 then drop_file h (ErrMsg "cached file %v is truncated, removing") s
            else if size <? i64 (offset + length_) then drop_file h (ErrMsg "cached file %v is too small, removing") s
            else
              match (if 0 <? offset then os_call s else (s, None)) with
              | (s, Some e) => ((File_Close s).1, Err e)
              | (s, None) => let '(s, rd) := read_from f offset length_ s in (s, Ok rd)
              end
        end
    end) s.

(** The part of [Save] from the temporary file on. *)
Definition save_in (dir finalname : string) (rd : reader) (s : os) : os * outcome unit :=
  match CreateTemp dir "tmp-" s with
  | (s, Err e) => (s, Err e)
  | (s, Panic p) => (s, Panic p)
  | (s, Ok (name, f)) =>
      let '(s, (n, err)) := Copy f rd s in
      match err with
      | Some e => let s := (File_Close s).1 in ((Os.Remove name s).1, Err (ErrWrap e "Copy"))
      | None =>
          if n <=? CiphertextLength 0 then let s := (File_Close s).1 in ((Os.Remove name s).1, Ok tt)
          else
            match File_Close s with
            | (s, Some e) => ((Os.Remove name s).1, Err e)
            | (s, None) =>
                match Rename name finalname s with
                | (s, Some e) => ((Os.Remove name s).1, Err e)
                | (s, None) => (s, Ok tt)
                end
            end
      end
  end.

Definition cache_Save (h : Handle) (rd : option reader) (s : os) : os * outcome unit :=
  match rd with
  | None => (s, Err (ErrMsg "Save() called with nil reader"))
  | Some rd =>
      if negb (canBeCached (h_Type h)) then (s, Err (ErrMsg "cannot be cached"))
      else with_filename h (fun finalname s =>
        let dir := filepath_Dir finalname in
        match Mkdir dir s with
        | (s, Some e) => if os_error_Is e ErrExist then save_in dir finalname rd s else (s, Err e)
        | (s, None) => save_in dir finalname rd s
        end) s
  end.

(** [filepath.Walk] over the files below a directory: one of its calls may fail. *)
Definition walk_files (dir : string) (s : os) : os * outcome (list string) :=
  let '(f, s) := next_fault s in
  (s, match f with
      | Some (e, _) => Err e
      | None =>
          match os_paths s !! dir with
          | None => Err ErrNotExist
          | Some _ => Ok (omap (fun pe : string * entry => match pe.2 with Regular _ => if String.eqb pe.1 dir || String.prefix (dir +:+ "/") pe.1 then Some pe.1 else None | _ => None end) (map_to_list (os_paths s)))
          end
      end).

Definition cache_list (t : FileType) (s : os) : os * outcome (gset ID) :=
  match c, cacheLayoutPaths t with
  | Some ca, Some sub =>
      match walk_files (path_Join [c_path ca; sub]) s with
      | (s, Ok names) => (s, Ok (NewIDSet (omap (fun name => match ParseID (filepath_Base name) with Ok id => Some id | _ => None end) names)))
      | (s, Err e) => (s, Err (ErrWrap e "Walk"))
      | (s, Panic p) => (s, Panic p)
      end
  | _, _ => (s, Err (ErrMsg "cannot be cached"))
  end.

(** The loop of [Clear], over the set in some order. *)
Fixpoint clear_loop (t : FileType) (valid : gset ID) (ids : list ID) (s : os) : os * outcome unit :=
  match ids with
  | [] => (s, Ok tt)
  | id :: ids =>
      if bool_decide (id ∈ valid) then clear_loop t valid ids s
      else
        match with_filename (mkHandle t false (ID_String id)) (fun name s => let '(s, err) := Os.Remove name s in (s, as_outcome err)) s with
        | (s, Ok _) => clear_loop t valid ids s
        | r => r
        end
  end.

Definition Clear (t : FileType) (valid : gset ID) (s : os) : os * outcome unit :=
  if negb (canBeCached t) then (s, Ok tt)
  else
    match cache_list t s with
    | (s, Ok ids) => clear_loop t valid (elements ids) s
    | (s, Err e) => (s, Err e)
    | (s, Panic p) => (s, Panic p)
    end.
End Files.

(** * The wrapped backend *)

(** The backend below: its readers may fail before the end, and a [Load] may run its
    callback several times. *)
Class Inner (W R : Type) := {
  in_Save : W -> Handle -> R -> (W * R) * option error;
  in_Load : forall St : Type, W -> Handle -> Z -> Z -> (St -> reader -> St * outcome unit) -> St -> (W * St) * outcome unit;
  in_Stat : W -> Handle -> W * outcome FileInfo;
  in_Remove : W -> Handle -> W * option error;
  in_IsNotExist : error -> bool }.

Record wrapped (W : Type) := mkWrapped { w_os : os; w_be : W; w_inProgress : gset Handle }.
Arguments mkWrapped {W}.
Arguments w_os {W}.
Arguments w_be {W}.
Arguments w_inProgress {W}.

Definition autoCacheTypes (h : Handle) : bool :=
  if (h_Type h =? IndexFile) || (h_Type h =? SnapshotFile) then true else if h_Type h =? PackFile then h_IsMetadata h else false.

Section Wrapped.
Context `{TempNames} {W R : Type} `{RewindReader R} `{Inner W R} (c : option Cache).
Abbreviation world := (wrapped W).

(** What happens until the download of a handle by another goroutine is finished. *)
Context (wait : Handle -> world -> world).

Definition on_cache {A} (f : os -> os * outcome A) (w : world) : world * outcome A :=
  let '(s, r) := f (w_os w) in (mkWrapped s (w_be w) (w_inProgress w), r).
Definition set_be (w : world) (be : W) : world := mkWrapped (w_os w) be (w_inProgress w).
Definition set_progress (w : world) (p : gset Handle) : world := mkWrapped (w_os w) (w_be w) p.

(** An error of [Cache.remove] is ignored; a panic is not. *)
Definition try_remove (h : Handle) (err : outcome unit) (w : world) : world * outcome unit :=
  match on_cache (cache_remove c h) w with (w, Panic p) => (w, Panic p) | (w, _) => (w, err) end.

Definition wrapped_Remove (h : Handle) (w : world) : world * outcome unit :=
  match in_Remove (R := R) (w_be w) h with
  | (be, Some e) => (set_be w be, Err e)
  | (be, None) => on_cache (cache_remove c h) (set_be w be)
  end.

Definition wrapped_Save (h : Handle) (rd : R) (w : world) : world * outcome unit :=
  if negb (autoCacheTypes h) then
    let '((be, _), err) := in_Save (w_be w) h rd in (set_be w be, as_outcome err)
  else
    match Rewind rd with
    | (_, Some e) => (w, Err e)
    | (rd, None) =>
        match in_Save (w_be w) h rd with
        | ((be, _), Some e) => (set_be w be, Err e)
        | ((be, rd), None) =>
            let w := set_be w be in
            match Rewind rd with
            | (_, Some e) => (w, Err e)
            | (rd, None) =>
                match on_cache (cache_Save c h (Some (unread rd, None))) w with
                | (w, Err e) => try_remove h (Err e) w
                | r => r
                end
            end
        end
    end.

(** The deferred function of [cacheFile]. *)
Definition finish (h : Handle) (w : world) : world := set_progress w (w_inProgress w ∖ {[h]}).

(** The download: the callback works on the file system. *)
Definition download (h : Handle) (w : world) : world * outcome unit :=
  let '((be, s), err) := in_Load (R := R) os (w_be w) h 0 0 (fun s rd => cache_Save c h (Some rd) s) (w_os w) in
  let w := mkWrapped s be (w_inProgress w) in
  match err with Err e => try_remove h (Err e) w | r => (w, r) end.

Definition cacheFile (h : Handle) (w : world) : world * outcome unit :=
  if bool_decide (h ∈ w_inProgress w) then (wait h w, Ok tt)
  else
    let w := set_progress w ({[h]} ∪ w_inProgress w) in
    let '(w, err) := match on_cache (Has c h) w with
      | (w, Ok true) => (w, Ok tt)
      | (w, Ok false) => download h w
      | (w, Err e) => (w, Err e)
      | (w, Panic p) => (w, Panic p)
      end in
    (finish h w, err).

Section Consumer.
Context {St : Type} (consumer : St -> reader -> St * outcome unit).

Definition loadFromCache (h : Handle) (length_ offset : Z) (w : world) (st : St) : (world * St) * (bool * outcome unit) :=
  match on_cache (load c h length_ offset) w with
  | (w, Err e) => ((w, st), (false, Err e))
  | (w, Panic p) => ((w, st), (false, Panic p))
  | (w, Ok rd) =>
      match consumer st rd with
      | (st, Panic p) => ((w, st), (true, Panic p))
      | (st, Err e) => ((mkWrapped (File_Close (w_os w)).1 (w_be w) (w_inProgress w), st), (true, Err e))
      | (st, Ok _) => let '(s, err) := File_Close (w_os w) in ((mkWrapped s (w_be w) (w_inProgress w), st), (true, as_outcome err))
      end
  end.

Definition delegate (h : Handle) (length_ offset : Z) (w : world) (st : St) : (world * St) * outcome unit :=
  let '((be, st), r) := in_Load (R := R) St (w_be w) h length_ offset consumer st in ((set_be w be, st), r).

(** What [Load] does once the file was not delivered from the cache. *)
Definition load_and_cache (h : Handle) (length_ offset : Z) (w : world) (st : St) : (world * St) * outcome unit :=
  if negb (autoCacheTypes h) then delegate h length_ offset w st
  else
    match cacheFile h w with
    | (w, Err e) => ((w, st), Err e)
    | (w, Panic p) => ((w, st), Panic p)
    | (w, Ok _) =>
        match loadFromCache h length_ offset w st with
        | ((w, st), (_, Panic p)) => ((w, st), Panic p)
        | ((w, st), (true, r)) => ((w, st), r)
        | ((w, st), (false, _)) => delegate h length_ offset w st
        end
    end.

Definition wrapped_Load (h : Handle) (length_ offset : Z) (w : world) (st : St) : (world * St) * outcome unit :=
  let w := if bool_decide (h ∈ w_inProgress w) then wait h w else w in
  match loadFromCache h length_ offset w st with
  | ((w, st), (_, Panic p)) => ((w, st), Panic p)
  | ((w, st), (true, Ok _)) => ((w, st), Ok tt)
  | ((w, st), (true, Err e)) =>
      match try_remove h (Err e) w with
      | (w, Panic p) => ((w, st), Panic p)
      | (w, _) => load_and_cache h length_ offset w st
      end
  | ((w, st), (false, _)) => load_and_cache h length_ offset w st
  end.
End Consumer.

Definition wrapped_Stat (h : Handle) (w : world) : world * outcome FileInfo :=
  match in_Stat (R := R) (w_be w) h with
  | (be, Err e) =>
      let w := set_be w be in
      if in_IsNotExist (W := W) (R := R) e then
        match on_cache (cache_remove c h) w with (w, Panic p) => (w, Panic p) | (w, _) => (w, Err e) end
      else (w, Err e)
  | (be, r) => (set_be w be, r)
  end.
End Wrapped.

Lemma walk_files_files dir s s' r : walk_files dir s = (s', r) -> same_files s s' /\ is_Panic r = false.
Proof.
  unfold walk_files. destruct (next_fault s) as [f s1] eqn:E. intros [= <- <-]. split; [by apply next_fault_files with f|]. destruct f as [[e n]|]; [done|]. by destruct (os_paths s1 !! dir).
Qed.

Lemma cache_list_files c t s s' r : cache_list c t s = (s', r) -> same_files s s'.
Proof.
  unfold cache_list. destruct c as [ca|]; [|by intros [= <- _]]. destruct (cacheLayoutPaths t) as [sub|]; [|by intros [= <- _]].
  destruct (walk_files _ s) as [s1 x] eqn:E. apply walk_files_files in E as [Hs _]. by destruct x; intros [= <- _].
Qed.

Lemma cache_list_safe c t s s' r : cache_list c t s = (s', r) -> is_Panic r = false.
Proof.
  unfold cache_list. destruct c as [ca|]; [|by intros [= _ <-]]. destruct (cacheLayoutPaths t) as [sub|]; [|by intros [= _ <-]].
  destruct (walk_files _ s) as [s1 x] eqn:E. apply walk_files_files in E as [_ Hp]. by destruct x; intros [= _ <-].
Qed.

(** * What the cache holds

    A name stands for one content: it is the hash of it. *)
Section Honest.
Context `{TempNamesLaws} (c : option Cache) (named : FileType -> string -> list byte).

Definition cached_path (ca : Cache) (sub : string) (id : ID) : string := path_Join [c_path ca; sub; take_bytes 2 (ID_String id); ID_String id].

(** Every file of the cache has the content its name stands for. *)
Definition cache_ok (s : os) : Prop :=
  os_wf s /\ forall ca t sub id x, c = Some ca -> cacheLayoutPaths t = Some sub -> file_content s (cached_path ca sub id) = Some x -> x = named t (ID_String id).

(** What a reader delivers if it delivers all. *)
Definition honest (h : Handle) (length_ offset : Z) (rd : reader) : Prop := rd.2 = None -> rd.1 = cut (named (h_Type h) (h_Name h)) length_ offset.

Lemma layout_dir_good t sub : cacheLayoutPaths t = Some sub -> good_comp sub.
Proof. unfold cacheLayoutPaths. repeat case_match; intros [= <-]; done. Qed.

Lemma layout_dir_inj t t' sub : cacheLayoutPaths t = Some sub -> cacheLayoutPaths t' = Some sub -> t = t'.
Proof.
  unfold cacheLayoutPaths. destruct (Z.eqb_spec t PackFile) as [->|]; [|destruct (Z.eqb_spec t SnapshotFile) as [->|]; [|destruct (Z.eqb_spec t IndexFile) as [->|]; [|done]]]; intros [= <-];
    (destruct (Z.eqb_spec t' PackFile) as [->|]; [|destruct (Z.eqb_spec t' SnapshotFile) as [->|]; [|destruct (Z.eqb_spec t' IndexFile) as [->|]; [|done]]]); done.
Qed.

Lemma cached_path_render ca sub id :
  good_comp sub -> let out := take_bytes 2 (ID_String id) :: sub :: path_base (c_path ca) in
  clean_stack (path_root (c_path ca) false) (ID_String id :: out) /\ cached_path ca sub id = render (path_root (c_path ca) false) (rev (ID_String id :: out)).
Proof.
  intros Hg out. destruct (ID_String_good id) as (H1 & H2 & _). split.
  - apply (clean_stack_good _ [sub; take_bytes 2 (ID_String id); ID_String id]); [by forall_list|apply path_base_clean].
  - unfold cached_path. rewrite path_Join_good by (by forall_list || done). unfold out. cbn [rev]. by rewrite <- !app_assoc.
Qed.

Lemma cached_path_inj ca sub id sub' id' : good_comp sub -> good_comp sub' -> cached_path ca sub id = cached_path ca sub' id' -> sub = sub' /\ id = id'.
Proof.
  intros Hg Hg' E. destruct (cached_path_render ca sub id Hg) as [Hs E1]. destruct (cached_path_render ca sub' id' Hg') as [Hs' E2]. rewrite E1, E2 in E.
  apply (render_stack_inj _ _ _ Hs Hs') in E. injection E as E _ Esub. split; [done|]. assert (Ok id = Ok id') as Eid by (rewrite <- !ParseID_String_ok; by rewrite E). by injection Eid.
Qed.

(** A temporary file is never the file of an ID. *)
Lemma temp_not_cached ca sub id sub' id' random :
  good_comp sub -> good_comp sub' -> has_slash random = false -> path_Join [filepath_Dir (cached_path ca sub id); temp_name "tmp-" random] <> cached_path ca sub' id'.
Proof.
  intros Hg Hg' Hr E. destruct (cached_path_render ca sub id Hg) as [Hs E1]. destruct (cached_path_render ca sub' id' Hg') as [Hs' E2]. rewrite E1, E2, Dir_render in E by done. cbn [tail] in E.
  change (temp_name "tmp-" random) with ("tmp-" +:+ random) in E.
  assert (good_comp ("tmp-" +:+ random)) as Hn by (apply good_long; [by rewrite has_slash_app|rewrite string_length_app; cbn; lia]).
  assert (clean_stack (path_root (c_path ca) false) (take_bytes 2 (ID_String id) :: sub :: path_base (c_path ca))) as Hs0 by (by destruct Hs).
  rewrite Join_components in E by done.
  assert (clean_stack (path_root (c_path ca) false) (("tmp-" +:+ random) :: take_bytes 2 (ID_String id) :: sub :: path_base (c_path ca))) as Hs1 by (split; [done|by left]).
  apply (render_stack_inj _ (_ :: _) _ Hs1 Hs') in E. injection E as E _ _.
  pose proof (ParseID_String_ok id') as Hp. change ("tmp-" +:+ random = ID_String id') in E. rewrite <- E in Hp. unfold ParseID in Hp. cbn in Hp. by repeat case_match.
Qed.

(** ** Operations on the files *)

Lemma cache_ok_frame s s' :
  cache_ok s -> os_wf s' ->
  (forall ca t sub id, c = Some ca -> cacheLayoutPaths t = Some sub -> let q := cached_path ca sub id in
    file_content s' q = file_content s q \/ file_content s' q = None \/ file_content s' q = Some (named t (ID_String id))) ->
  cache_ok s'.
Proof using Type.
  intros [Hw Hc] Hw' Hf. split; [done|]. intros ca t sub id x Hca Hsub Hx. destruct (Hf ca t sub id Hca Hsub) as [E|[E|E]]; rewrite E in Hx; [by eapply Hc|done|by injection Hx].
Qed.

Lemma cache_ok_same s s' : same_files s s' -> cache_ok s -> cache_ok s'.
Proof using Type. intros Hs Hc. apply (cache_ok_frame s); [done|by eapply same_wf; [|apply Hc]|]. intros. left. by apply same_content. Qed.

Lemma cache_ok_Remove p s s' r : cache_ok s -> Os.Remove p s = (s', r) -> cache_ok s'.
Proof using Type.
  intros Hc E. apply Remove_files in E as (Hw & Hq & Hp); [|by apply Hc]. apply (cache_ok_frame s); [done|done|]. intros ca t sub id _ _. cbn.
  destruct (decide (cached_path ca sub id = p)) as [->|Hne]; [destruct Hp as [?|?]; auto|left; by apply Hq].
Qed.

(** A temporary file and the file of the ID it will become. *)
Lemma cache_ok_temp s0 s p ino content :
  cache_ok s0 -> temp_at s0 p ino content s -> (forall ca t sub id, c = Some ca -> cacheLayoutPaths t = Some sub -> cached_path ca sub id <> p) -> cache_ok s.
Proof using Type. intros Hc Ht Hp. apply (cache_ok_frame s0); [done|apply Ht|]. intros ca t sub id Hca Hsub. left. apply (ta_rest _ _ _ _ _ Ht). by eapply Hp. Qed.

Lemma cacheable_name h :
  repo_handle h -> canBeCached c (h_Type h) = true ->
  exists ca sub id, c = Some ca /\ cacheLayoutPaths (h_Type h) = Some sub /\ h_Name h = ID_String id /\
    forall A (k : string -> os -> os * outcome A) s, with_filename c h k s = k (cached_path ca sub id) s.
Proof using Type.
  intros Hh. unfold canBeCached. destruct c as [ca|] eqn:Ec; [|done]. destruct (cacheLayoutPaths (h_Type h)) as [sub|] eqn:Esub; [|done]. intros _.
  destruct Hh as [Hh|[_ [id Hid]]]; [by rewrite Hh in Esub|]. exists ca, sub, id. split_and!; [done..|]. intros A k s. unfold with_filename, filename. rewrite Hid, Esub.
  assert (String.length (ID_String id) = 64%nat) as Hl by (unfold ID_String; by rewrite length_hex_encode, length_id_bytes). by rewrite Hl.
Qed.

Lemma Has_keeps h s s' r : repo_handle h -> cache_ok s -> Has c h s = (s', r) -> cache_ok s' /\ is_Panic r = false.
Proof using Type.
  intros Hh Hc. unfold Has. destruct (canBeCached c (h_Type h)) eqn:Ecan; cbn [negb]; [|by intros [= <- <-]].
  destruct (cacheable_name h Hh Ecan) as (ca & sub & id & _ & _ & _ & ->). destruct (Stat _ s) as [s1 fi] eqn:E. apply Stat_files in E. intros [= <- <-]. split; [by eapply cache_ok_same|done].
Qed.

Lemma remove_keeps h s s' r : repo_handle h -> cache_ok s -> cache_remove c h s = (s', r) -> cache_ok s' /\ is_Panic r = false.
Proof using Type.
  intros Hh Hc. unfold cache_remove. destruct (Has c h s) as [s1 r1] eqn:E1. pose proof (Has_keeps _ _ _ _ Hh Hc E1) as [Hc1 Hp].
  destruct r1 as [[]|e|]; [|by intros [= <- <-]..|done]. unfold Has in E1. destruct (canBeCached c (h_Type h)) eqn:Ecan; [|done].
  destruct (cacheable_name h Hh Ecan) as (ca & sub & id & _ & _ & _ & ->). destruct (Os.Remove _ s1) as [s2 err] eqn:E2. apply cache_ok_Remove in E2; [|done]. intros [= <- <-]. by destruct err.
Qed.

Lemma drop_file_keeps h e s s' r : repo_handle h -> cache_ok s -> drop_file c h e s = (s', r) -> cache_ok s' /\ r = Err e.
Proof using Type.
  intros Hh Hc. unfold drop_file. destruct (File_Close s) as [s1 err] eqn:E1. apply File_Close_files in E1. cbn [fst].
  destruct (cache_remove c h s1) as [s2 r2] eqn:E2. apply remove_keeps in E2 as [Hc2 Hp]; [|done|by eapply cache_ok_same]. destruct r2; by intros [= <- <-].
Qed.

(** Whatever fails, a reader of the cache delivers what was asked for. *)
Lemma load_honest h length_ offset s s' r :
  repo_handle h -> cache_ok s -> load c h length_ offset s = (s', r) ->
  cache_ok s' /\ match r with Ok rd => honest h length_ offset rd | Err _ => True | Panic _ => False end.
Proof using Type.
  intros Hh Hc. unfold load. destruct (canBeCached c (h_Type h)) eqn:Ecan; cbn [negb]; [|by intros [= <- <-]].
  destruct (cacheable_name h Hh Ecan) as (ca & sub & id & Hca & Hsub & Hid & ->). set (name := cached_path ca sub id).
  destruct (OsFiles.Open name s) as [s1 r1] eqn:E1. apply Open_files in E1 as [Hs1 Hino]. pose proof (cache_ok_same _ _ Hs1 Hc) as Hc1.
  destruct r1 as [ino|e|p]; [|by intros [= <- <-]|done].
  destruct (File_Stat ino s1) as [s2 r2] eqn:E2. apply File_Stat_files in E2 as [Hs2 Hp2]. pose proof (cache_ok_same _ _ Hs2 Hc1) as Hc2.
  assert (forall s3 s4 e, s3 = s4 -> cache_ok s4 -> (((File_Close s3).1, Err e) : os * outcome reader) = (s', r) -> cache_ok s' /\ match r with Ok rd => honest h length_ offset rd | Err _ => True | Panic _ => False end) as Hclose.
  { intros s3 s4 e -> Hc4. destruct (File_Close s4) as [s5 err] eqn:E5. apply File_Close_files in E5. intros [= <- <-]. split; [by eapply cache_ok_same|done]. }
  assert (forall e, drop_file c h e s2 = (s', r) -> cache_ok s' /\ match r with Ok rd => honest h length_ offset rd | Err _ => True | Panic _ => False end) as Hdrop.
  { intros e Hd. by apply drop_file_keeps in Hd as [? ->]. }
  destruct r2 as [size|e|p]; [|by apply (Hclose s2 s2)|by destruct (Hp2 p)]. destruct (size <=? CiphertextLength 0); [apply Hdrop|]. destruct (size <? i64 (offset + length_)); [apply Hdrop|].
  destruct (if 0 <? offset then os_call s2 else (s2, None)) as [s3 serr] eqn:E3. assert (same_files s2 s3) as Hs3 by (destruct (0 <? offset); [by apply os_call_files in E3|by injection E3 as <- _]).
  pose proof (cache_ok_same _ _ Hs3 Hc2) as Hc3. destruct serr as [e|]; [by apply (Hclose s3 s3)|].
  destruct (read_from ino offset length_ s3) as [s4 rd] eqn:E4. intros [= <- <-]. split; [apply read_from_files in E4; by eapply cache_ok_same|].
  intros Hnone. assert (exists data, os_data s3 !! ino = Some data) as [data Hdata].
  { rewrite (proj1 Hs3), (proj1 Hs2), (proj1 Hs1). by eapply Hc. }
  rewrite (read_from_cut _ _ _ _ _ _ _ Hdata E4 Hnone). f_equal. rewrite Hid. apply (proj2 Hc ca (h_Type h) sub id); [done|done|].
  rewrite <- (same_content s s3) by (by repeat (etransitivity; [eassumption|])). unfold file_content. fold name. by rewrite (proj2 (proj2 Hs3 name ino) (proj2 (proj2 Hs2 name ino) (proj2 (proj2 Hs1 name ino) Hino))).
Qed.

(** Saving what the name stands for. *)
Lemma save_in_keeps ca t sub id rd s s' r :
  c = Some ca -> cacheLayoutPaths t = Some sub -> (rd.2 = None -> rd.1 = named t (ID_String id)) -> cache_ok s ->
  save_in (filepath_Dir (cached_path ca sub id)) (cached_path ca sub id) rd s = (s', r) -> cache_ok s' /\ is_Panic r = false.
Proof using All.
  intros Hca Hsub Hrd Hc. unfold save_in. destruct (CreateTemp _ "tmp-" s) as [s1 r1] eqn:E1. apply CreateTemp_temp in E1; [|by apply Hc].
  destruct r1 as [[p ino]|e|]; [|intros [= <- <-]; split; [by eapply cache_ok_same|done]|done]. destruct E1 as (Ht & Hp & Hnone).
  assert (forall ca' t' sub' id', c = Some ca' -> cacheLayoutPaths t' = Some sub' -> cached_path ca' sub' id' <> p) as Hne.
  { intros ca' t' sub' id' Hca' Hsub' E. rewrite Hca in Hca'. injection Hca' as <-. rewrite Hp in E. unfold temp_path in E. symmetry in E.
    eapply temp_not_cached in E; [done|by eapply layout_dir_good|by eapply layout_dir_good|apply temp_no_slash]. }
  assert (forall s2 x, cache_ok s2 -> is_Panic x = false -> ((Os.Remove p s2).1, x) = (s', r) -> cache_ok s' /\ is_Panic r = false) as Hrem.
  { intros s2 x Hc2 Hx. destruct (Os.Remove p s2) as [s3 err] eqn:E3. apply cache_ok_Remove in E3; [|done]. by intros [= <- <-]. }
  destruct (Copy ino rd s1) as [s2 [n err]] eqn:E2. destruct (Copy_temp _ _ _ _ _ _ _ _ _ Ht E2) as (content & Ht2 & Hdone). clear Ht E2.
  assert (forall s3 cerr, File_Close s2 = (s3, cerr) -> temp_at s p ino content s3 /\ cache_ok s3) as Hclose.
  { intros s3 cerr E. apply File_Close_files in E. assert (temp_at s p ino content s3) as Ht3 by (by eapply temp_same). split; [done|by eapply cache_ok_temp]. }
  destruct (File_Close s2) as [s3 cerr] eqn:E3. destruct (Hclose _ _ eq_refl) as [Ht3 Hc3]. cbn [fst].
  destruct err as [e|]; [by apply Hrem|]. destruct (n <=? CiphertextLength 0); [by apply Hrem|]. destruct cerr as [e|]; [by apply Hrem|].
  destruct (Hdone eq_refl) as (_ & Hnone2 & Hcontent). rewrite Hcontent in Ht3 by (cbn; lia).
  assert (p <> cached_path ca sub id) as Hpf by (symmetry; by eapply Hne).
  destruct (Rename p _ s3) as [s4 [e|]] eqn:E4; apply (Rename_temp _ _ _ _ _ _ _ _ Hpf Ht3) in E4.
  { apply Hrem; [|done]. exact (cache_ok_temp _ _ _ _ _ Hc E4 Hne). }
  destruct E4 as (Hw & Hf & Hq & Hpn). intros [= <- <-]. split; [|done]. apply (cache_ok_frame s); [done|done|]. intros ca' t' sub' id' Hca' Hsub'. cbn.
  rewrite Hca in Hca'. injection Hca' as <-. destruct (decide (cached_path ca sub' id' = cached_path ca sub id)) as [E|Hqf]; [|left; apply Hq; [by eapply Hne|done]].
  right; right. rewrite E, Hf, Hrd by done. apply cached_path_inj in E as [-> ->]; [|by eapply layout_dir_good..]. by rewrite (layout_dir_inj t t' sub).
Qed.

Lemma Save_keeps h rd s s' r :
  repo_handle h -> (forall x, rd = Some x -> x.2 = None -> x.1 = named (h_Type h) (h_Name h)) -> cache_ok s -> cache_Save c h rd s = (s', r) -> cache_ok s' /\ is_Panic r = false.
Proof using All.
  intros Hh Hrd Hc. unfold cache_Save. destruct rd as [rd|]; [|by intros [= <- <-]]. destruct (canBeCached c (h_Type h)) eqn:Ecan; cbn [negb]; [|by intros [= <- <-]].
  destruct (cacheable_name h Hh Ecan) as (ca & sub & id & Hca & Hsub & Hid & ->). rewrite Hid in Hrd. specialize (Hrd rd eq_refl).
  destruct (Mkdir _ s) as [s1 [e|]] eqn:E1; apply Mkdir_files in E1; pose proof (cache_ok_same _ _ E1 Hc) as Hc1; [destruct (os_error_Is e ErrExist)|]; [|by intros [= <- <-]|]; by apply (save_in_keeps ca (h_Type h)).
Qed.

Lemma clear_loop_keeps t valid ids s s' r : t ∈ layoutTypes -> canBeCached c t = true -> cache_ok s -> clear_loop c t valid ids s = (s', r) -> cache_ok s' /\ is_Panic r = false.
Proof using Type.
  intros Ht Ecan. revert s. induction ids as [|id ids IH]; intros s Hc; cbn [clear_loop]; [by intros [= <- <-]|]. case_bool_decide; [by apply IH|].
  assert (repo_handle (mkHandle t false (ID_String id))) as Hh by (right; split; [done|by exists id]). destruct (cacheable_name _ Hh Ecan) as (ca & sub & id' & _ & _ & _ & ->).
  destruct (Os.Remove _ s) as [s1 [e|]] eqn:E1; apply cache_ok_Remove in E1; try done; cbn [as_outcome]; [by intros [= <- <-]|by apply IH].
Qed.

Lemma Clear_keeps t valid s s' r : cache_ok s -> Clear c t valid s = (s', r) -> cache_ok s' /\ is_Panic r = false.
Proof using Type.
  intros Hc. unfold Clear. destruct (canBeCached c t) eqn:Ecan; cbn [negb]; [|by intros [= <- <-]].
  assert (t ∈ layoutTypes) as Ht.
  { unfold canBeCached, cacheLayoutPaths in Ecan. destruct c; [|done]. destruct (Z.eqb_spec t PackFile) as [->|]; [|destruct (Z.eqb_spec t SnapshotFile) as [->|]; [|destruct (Z.eqb_spec t IndexFile) as [->|]; [|done]]];
      unfold layoutTypes; rewrite !elem_of_cons; auto. }
  destruct (cache_list c t s) as [s1 r1] eqn:E1. pose proof (cache_list_files _ _ _ _ _ E1) as Hs. pose proof (cache_list_safe _ _ _ _ _ E1) as Hp.
  pose proof (cache_ok_same _ _ Hs Hc) as Hc1. destruct r1 as [ids|e|p]; [by apply clear_loop_keeps|by intros [= <- <-]|done].
Qed.
End Honest.

(** * Clearing *)

Lemma prefix_app a b : String.prefix a (a +:+ b) = true.
Proof. induction a as [|x a IH]; [by destruct b|]. change (String.String x a +:+ b) with (String.String x (a +:+ b)). cbn [String.prefix]. by destruct (Ascii.ascii_dec x x). Qed.

Section Clearing.
Context `{TempNames} (ca : Cache) (t : FileType) (sub : string) (Hsub : cacheLayoutPaths t = Some sub) (valid : gset ID).

Lemma cached_path_below id : String.prefix (path_Join [c_path ca; sub] +:+ "/") (cached_path ca sub id) = true.
Proof using Hsub.
  pose proof (layout_dir_good _ _ Hsub) as Hg. destruct (cached_path_render ca sub id Hg) as [_ ->]. rewrite path_Join_good by (by forall_list || done).
  cbn [rev]. rewrite <- !app_assoc. change ([sub] ++ [take_bytes 2 (ID_String id)] ++ [ID_String id]) with ([sub] ++ [take_bytes 2 (ID_String id); ID_String id]). rewrite app_assoc.
  set (l := rev (path_base (c_path ca)) ++ [sub]). assert (l <> []) as Hl by (unfold l; by destruct (rev _)).
  assert (render (path_root (c_path ca) false) (l ++ [take_bytes 2 (ID_String id); ID_String id]) = (render (path_root (c_path ca) false) l +:+ "/") +:+ strings_Join "/" [take_bytes 2 (ID_String id); ID_String id]) as ->; [|apply prefix_app].
  unfold render. destruct (path_root (c_path ca) false); [by rewrite Join_app, !string_app_assoc|].
  destruct (l ++ _) as [|x m] eqn:E; [by destruct l|]. rewrite <- E, Join_app by done. destruct l; [done|]. by rewrite !string_app_assoc.
Qed.

Lemma cached_path_Base id : filepath_Base (cached_path ca sub id) = ID_String id.
Proof using Hsub. destruct (cached_path_render ca sub id (layout_dir_good _ _ Hsub)) as [Hs ->]. by apply Base_render. Qed.

(** The listing has every ID with a file. *)
Lemma cache_list_all s s' ids id : cache_list (Some ca) t s = (s', Ok ids) -> is_Some (file_content s (cached_path ca sub id)) -> id ∈ ids.
Proof using Hsub.
  unfold cache_list, walk_files. rewrite Hsub. destruct (next_fault s) as [f s1] eqn:E. destruct (next_fault_same _ _ _ E) as [Hp Hd]. destruct f as [[e n]|]; [done|].
  destruct (os_paths s1 !! path_Join [c_path ca; sub]); [|done]. intros [= <- <-] [x Hx]. unfold file_content in Hx. rewrite <- Hp in Hx. destruct (os_paths s1 !! cached_path ca sub id) as [[ino| |l|]|] eqn:Ep; try done.
  apply set_New_spec. apply list_elem_of_omap. exists (cached_path ca sub id). split; [|by rewrite cached_path_Base, ParseID_String_ok].
  apply list_elem_of_omap. exists (cached_path ca sub id, Regular ino). split; [by apply elem_of_map_to_list|]. cbn [fst snd]. by rewrite cached_path_below, orb_true_r.
Qed.

Lemma clear_loop_spec ids s s' :
  os_wf s -> clear_loop (Some ca) t valid ids s = (s', Ok tt) ->
  os_wf s' /\ (forall id, id ∈ ids -> id ∉ valid -> file_content s' (cached_path ca sub id) = None) /\
  (forall q, file_content s' q = file_content s q \/ file_content s' q = None) /\
  (forall q, (forall id, id ∈ ids -> id ∉ valid -> q <> cached_path ca sub id) -> file_content s' q = file_content s q).
Proof using Hsub.
  revert s. induction ids as [|id ids IH]; intros s Hw; cbn [clear_loop].
  { intros [= <-]. split_and!; [done|intros id Hin; by apply elem_of_nil in Hin|by left|done]. }
  case_bool_decide as Hv.
  { intros (Hw' & H1 & H2 & H3)%IH; [|done]. split_and!; [done| |done|].
    - intros id' [->|Hin]%elem_of_cons Hv'; [done|by apply H1].
    - intros q Hq. apply H3. intros id' Hin. apply Hq. by right. }
  assert (with_filename (Some ca) (mkHandle t false (ID_String id)) = fun k : string -> os -> os * outcome unit => k (cached_path ca sub id)) as ->.
  { unfold with_filename, filename. cbn [h_Name h_Type]. rewrite Hsub. assert (String.length (ID_String id) = 64%nat) as -> by (unfold ID_String; by rewrite length_hex_encode, length_id_bytes). done. }
  destruct (Os.Remove (cached_path ca sub id) s) as [s1 [e|]] eqn:E1; cbn [as_outcome]; [done|]. pose proof (Remove_gone _ _ _ E1) as Hgone.
  destruct (Remove_files _ _ _ _ Hw E1) as (Hw1 & Hq1 & Hp1). intros (Hw' & H1 & H2 & H3)%IH; [|done]. split_and!; [done|..].
  - intros id' [->|Hin]%elem_of_cons Hv'; [|by apply H1]. destruct (H2 (cached_path ca sub id)) as [E|E]; [by rewrite E|done].
  - intros q. destruct (H2 q) as [E|E]; [|by right]. rewrite E. destruct (decide (q = cached_path ca sub id)) as [->|Hne]; [done|left; by apply Hq1].
  - intros q Hq. rewrite H3; [apply Hq1; apply Hq; [by left|done]|]. intros id' Hin. apply Hq. by right.
Qed.

(** A successful [Clear] removes the files of the type that are not valid, and nothing
    else. *)
Theorem Clear_spec s s' (Hw : os_wf s) :
  Clear (Some ca) t valid s = (s', Ok tt) ->
  (forall id, file_content s' (cached_path ca sub id) = if bool_decide (id ∈ valid) then file_content s (cached_path ca sub id) else None) /\
  (forall q, (forall id, q <> cached_path ca sub id) -> file_content s' q = file_content s q).
Proof using Hsub.
  unfold Clear, canBeCached. rewrite Hsub. cbn [negb]. destruct (cache_list (Some ca) t s) as [s1 [ids|e|p]] eqn:E1; [|done..].
  pose proof (cache_list_files _ _ _ _ _ E1) as Hs. intros (Hw' & H1 & H2 & H3)%clear_loop_spec; [|by eapply same_wf]. pose proof (layout_dir_good _ _ Hsub) as Hg. split.
  - intros id. case_bool_decide as Hv.
    + rewrite H3; [by apply same_content|]. intros id' _ Hv' E. by apply cached_path_inj in E as [_ ->].
    + destruct (file_content s (cached_path ca sub id)) as [x|] eqn:Ex.
      * apply H1; [|done]. apply elem_of_elements. eapply cache_list_all; [done|]. rewrite Ex. by eexists.
      * destruct (H2 (cached_path ca sub id)) as [E|E]; [|done]. rewrite E, (same_content _ _ _ Hs). done.
  - intros q Hq. rewrite H3; [by apply same_content|]. intros id _ _. apply Hq.
Qed.

Lemma Clear_wf s s' r (Hw : os_wf s) : Clear (Some ca) t valid s = (s', Ok r) -> os_wf s'.
Proof using Hsub.
  unfold Clear, canBeCached. rewrite Hsub. cbn [negb]. destruct (cache_list (Some ca) t s) as [s1 [ids|e|p]] eqn:E1; [|done..].
  destruct r. intros (Hw' & _)%clear_loop_spec; [done|]. eapply same_wf; [by eapply cache_list_files|done].
Qed.
End Clearing.

(** * The wrapped backend gives what the names stand for *)

(** How a [Load] of the backend below may use its callback: it fails before, or it runs
    the callback on readers until it ends; what counts is the last run, unless closing
    the reader fails. *)
Inductive load_runs {St : Type} (ok : reader -> Prop) (cb : St -> reader -> St * outcome unit) : St -> St -> outcome unit -> Prop :=
  | run_fails st e : load_runs ok cb st st (Err e)
  | run_accepts st rd st' : ok rd -> cb st rd = (st', Ok tt) -> load_runs ok cb st st' (Ok tt)
  | run_panics st rd st' p : ok rd -> cb st rd = (st', Panic p) -> load_runs ok cb st st' (Panic p)
  | run_again st rd st1 x st' r : ok rd -> cb st rd = (st1, x) -> load_runs ok cb st1 st' r -> load_runs ok cb st st' r.

Class InnerLaws (W R : Type) `{RewindReaderLaws R} `{!Inner W R} (named : FileType -> string -> list byte) : Prop := {
  law_in_Save : forall w h rd w' rd' e, in_Save w h rd = ((w', rd'), e) -> content rd' = content rd;
  law_in_Load : forall (St : Type) w h length_ offset (cb : St -> reader -> St * outcome unit) st w' st' r,
    in_Load (R := R) St w h length_ offset cb st = ((w', st'), r) -> load_runs (honest named h length_ offset) cb st st' r;
  law_in_Stat : forall w h w' p, in_Stat (R := R) w h <> (w', Panic p) }.

(** What a callback keeps, a [Load] keeps. *)
Lemma load_runs_inv {St} ok cb (P : St -> Prop) st st' r :
  (forall st rd, P st -> ok rd -> P (cb st rd).1) -> load_runs ok cb st st' r -> P st ->
  P st' /\
  match r with
  | Ok _ => exists st0 rd, P st0 /\ ok rd /\ cb st0 rd = (st', Ok tt)
  | Panic p => exists st0 rd, P st0 /\ ok rd /\ cb st0 rd = (st', Panic p)
  | Err _ => True
  end.
Proof.
  intros HP. induction 1 as [st e|st rd st' Hrd E|st rd st' p Hrd E|st rd st1 x st' r Hrd E Hruns IH]; intros Hst; [done|..]; pose proof (HP st rd Hst Hrd) as H'; rewrite E in H'; cbn in H'.
  - split; [done|]. by exists st, rd.
  - split; [done|]. by exists st, rd.
  - by apply IH.
Qed.

Section Safe.
Context `{TempNamesLaws} {W R : Type} `{RewindReaderLaws R} (named : FileType -> string -> list byte) `{!Inner W R} `{!InnerLaws W R named} (c : option Cache).
Context (wait : Handle -> wrapped W -> wrapped W).
Abbreviation ok w := (cache_ok c named (w_os (W:=W) w)).
Hypothesis wait_ok : forall h w, ok w -> ok (wait h w).

Lemma on_cache_keeps {A} (f : os -> os * outcome A) (P : outcome A -> Prop) (w w' : wrapped W) r :
  (forall s s' x, cache_ok c named s -> f s = (s', x) -> cache_ok c named s' /\ P x) -> ok w -> on_cache f w = (w', r) -> ok w' /\ P r.
Proof using Type. intros Hf Hw. unfold on_cache. destruct (f (w_os w)) as [s x] eqn:E. intros [= <- <-]. by eapply Hf. Qed.

Lemma try_remove_keeps h err (w w' : wrapped W) r : repo_handle h -> ok w -> try_remove c h err w = (w', r) -> ok w' /\ r = err.
Proof using Type.
  intros Hh Hw. unfold try_remove. destruct (on_cache (cache_remove c h) w) as [w1 x] eqn:E. eapply (on_cache_keeps _ (fun x => is_Panic x = false)) in E as [Hw1 Hx]; [|intros s s' y; by apply remove_keeps|done].
  destruct x; by intros [= <- <-].
Qed.

Lemma wrapped_Remove_keeps h w w' r : repo_handle h -> ok w -> wrapped_Remove (R := R) c h w = (w', r) -> ok w' /\ is_Panic r = false.
Proof using Type.
  intros Hh Hw. unfold wrapped_Remove. destruct (in_Remove (w_be w) h) as [be [e|]]; [by intros [= <- <-]|]. apply (on_cache_keeps _ (fun x => is_Panic x = false)); [|done]. intros s s' x. by apply remove_keeps.
Qed.

Lemma wrapped_Stat_keeps h w w' r : repo_handle h -> ok w -> wrapped_Stat (R := R) c h w = (w', r) -> ok w' /\ is_Panic r = false.
Proof using All.
  intros Hh Hw. unfold wrapped_Stat. destruct (in_Stat (w_be w) h) as [be [fi|e|p]] eqn:E; [by intros [= <- <-]| |by apply law_in_Stat in E].
  destruct (in_IsNotExist e); [|by intros [= <- <-]]. destruct (on_cache (cache_remove c h) (set_be w be)) as [w1 x] eqn:E1.
  eapply (on_cache_keeps _ (fun x => is_Panic x = false)) in E1 as [Hw1 Hx]; [|intros s s' y; by apply remove_keeps|done]. destruct x; by intros [= <- <-].
Qed.

Lemma wrapped_Save_keeps h rd w w' r : repo_handle h -> content rd = named (h_Type h) (h_Name h) -> ok w -> wrapped_Save c h rd w = (w', r) -> ok w' /\ is_Panic r = false.
Proof using All.
  intros Hh Hrd Hw. unfold wrapped_Save. destruct (autoCacheTypes h); cbn [negb]; [|by destruct (in_Save (w_be w) h rd) as [[be rd'] [e|]]; intros [= <- <-]].
  destruct (Rewind rd) as [rd1 [e|]] eqn:E1; [by intros [= <- <-]|]. apply law_Rewind in E1 as [Hc1 _].
  destruct (in_Save (w_be w) h rd1) as [[be rd2] [e|]] eqn:E2; [by intros [= <- <-]|]. apply law_in_Save in E2.
  destruct (Rewind rd2) as [rd3 [e|]] eqn:E3; [by intros [= <- <-]|]. apply law_Rewind in E3 as [Hc3 Hu3].
  destruct (on_cache (cache_Save c h _) (set_be w be)) as [w1 x] eqn:E4. eapply (on_cache_keeps _ (fun x => is_Panic x = false)) in E4 as [Hw1 Hx]; [| |done].
  - destruct x; [by intros [= <- <-]| |done]. intros Ht. by apply try_remove_keeps in Ht as [? ->].
  - intros s s' y Hs. apply Save_keeps; [done| |done]. intros z [= <-] _. cbn. rewrite Hu3 by done. by rewrite E2, Hc1.
Qed.

Lemma cacheFile_keeps h w w' r : repo_handle h -> ok w -> cacheFile (R := R) c wait h w = (w', r) -> ok w' /\ is_Panic r = false.
Proof using All.
  intros Hh Hw. unfold cacheFile. case_bool_decide; [intros [= <- <-]; split; [by apply wait_ok|done]|]. set (w0 := set_progress w _). assert (ok w0) as Hw0 by done.
  destruct (on_cache (Has c h) w0) as [w1 x] eqn:E1. eapply (on_cache_keeps _ (fun x => is_Panic x = false)) in E1 as [Hw1 Hx]; [|intros s s' y; by apply Has_keeps|done].
  assert (forall w2 y, ok w2 -> is_Panic y = false -> (finish h w2, y) = (w', r) -> ok w' /\ is_Panic r = false) as Hend by (by intros w2 y Hw2 Hy [= <- <-]).
  destruct x as [[]|e|p]; [by apply Hend| |by apply Hend|done]. unfold download.
  destruct (in_Load _ (w_be w1) h 0 0 _ (w_os w1)) as [[be s] err] eqn:E2. apply law_in_Load in E2.
  apply (load_runs_inv _ _ (cache_ok c named)) in E2 as [Hs Hr]; [| |done].
  - destruct err as [u|e|p]; [by apply Hend| |].
    + destruct (try_remove c h (Err e) _) as [w2 y] eqn:E3. apply try_remove_keeps in E3 as [Hw2 ->]; [|done|done]. by apply Hend.
    + destruct Hr as (s0 & rd & Hs0 & Hrd & Hp). apply (Save_keeps _ named) in Hp as [_ Hp]; [done|done| |done]. intros x [= <-] Hn. by apply Hrd.
  - intros s0 rd Hs0 Hrd. destruct (cache_Save c h (Some rd) s0) as [s1 y] eqn:E3. apply (Save_keeps _ named) in E3 as [? _]; [done|done| |done]. intros x [= <-] Hn. by apply Hrd.
Qed.

(** A consumer with something it keeps as long as it is given what it asked for. *)
Section Consumer.
Context {St : Type} (consumer : St -> reader -> St * outcome unit) (P : St -> Prop) (h : Handle) (length_ offset : Z) (Hh : repo_handle h).
Hypothesis HP : forall st rd, P st -> honest named h length_ offset rd -> P (consumer st rd).1.

(** Success is that of the consumer on an honest reader. *)
Definition delivered (st' : St) (r : outcome unit) : Prop :=
  match r with
  | Ok _ => exists st0 rd, P st0 /\ honest named h length_ offset rd /\ consumer st0 rd = (st', Ok tt)
  | Panic p => exists st0 rd, P st0 /\ honest named h length_ offset rd /\ consumer st0 rd = (st', Panic p)
  | Err _ => True
  end.

Lemma loadFromCache_keeps w st w' st' inCache r :
  ok w -> P st -> loadFromCache c consumer h length_ offset w st = ((w', st'), (inCache, r)) ->
  ok w' /\ P st' /\ delivered st' r /\ (inCache = false -> is_ok r = false /\ is_Panic r = false).
Proof using All.
  intros Hw Hst. unfold loadFromCache. destruct (on_cache (load c h length_ offset) w) as [w1 x] eqn:E1.
  apply (on_cache_keeps _ (fun r => match r with Ok rd => honest named h length_ offset rd | Err _ => True | Panic _ => False end)) in E1 as [Hw1 Hx]; [|intros s s' y; by apply load_honest|done].
  destruct x as [rd|e|]; [|by intros [= <- <- <- <-]|done]. pose proof (HP st rd Hst Hx) as Hst'.
  destruct (File_Close (w_os w1)) as [s2 err] eqn:E2. apply File_Close_files in E2. pose proof (cache_ok_same _ _ _ _ E2 Hw1) as Hw2.
  destruct (consumer st rd) as [st1 [[]|e|p]] eqn:Ec; cbn in Hst'; intros [= <- <- <- <-]; (split_and!; [done|done| |done]).
  - destruct err; [done|]. by exists st, rd.
  - done.
  - by exists st, rd.
Qed.

Lemma delegate_keeps w st w' st' r : ok w -> P st -> delegate (R := R) consumer h length_ offset w st = ((w', st'), r) -> ok w' /\ P st' /\ delivered st' r.
Proof using All.
  intros Hw Hst. unfold delegate. destruct (in_Load St (w_be w) h length_ offset consumer st) as [[be st1] x] eqn:E1. apply law_in_Load in E1. intros [= <- <- <-].
  by destruct (load_runs_inv _ _ P _ _ _ HP E1 Hst) as [Hst1 Hx].
Qed.

Lemma load_and_cache_keeps w st w' st' r : ok w -> P st -> load_and_cache (R := R) c wait consumer h length_ offset w st = ((w', st'), r) -> ok w' /\ P st' /\ delivered st' r.
Proof using All.
  intros Hw Hst. unfold load_and_cache. destruct (autoCacheTypes h); cbn [negb]; [|by apply delegate_keeps].
  destruct (cacheFile c wait h w) as [w1 x] eqn:E1. apply cacheFile_keeps in E1 as [Hw1 Hx]; [|done|done]. destruct x as [u|e|p]; [|by intros [= <- <- <-]|done].
  destruct (loadFromCache c consumer h length_ offset w1 st) as [[w2 st2] [inCache y]] eqn:E2. apply loadFromCache_keeps in E2 as (Hw2 & Hst2 & Hd & Hno); [|done|done].
  destruct inCache, y as [v|e|p]; try (by intros [= <- <- <-]); try by destruct (Hno eq_refl). by apply delegate_keeps.
Qed.

Lemma wrapped_Load_keeps w st w' st' r : ok w -> P st -> wrapped_Load (R := R) c wait consumer h length_ offset w st = ((w', st'), r) -> ok w' /\ P st' /\ delivered st' r.
Proof using All.
  intros Hw Hst. unfold wrapped_Load. set (w0 := if bool_decide _ then _ else w). assert (ok w0) as Hw0 by (unfold w0; case_bool_decide; [by apply wait_ok|done]). clearbody w0.
  destruct (loadFromCache c consumer h length_ offset w0 st) as [[w1 st1] [inCache y]] eqn:E1. apply loadFromCache_keeps in E1 as (Hw1 & Hst1 & Hd & Hno); [|done|done].
  destruct inCache, y as [u|e|p]; try by destruct (Hno eq_refl).
  - intros [= <- <- <-]. split_and!; [done|done|]. by destruct u.
  - destruct (try_remove c h (Err e) w1) as [w2 z] eqn:E2. apply try_remove_keeps in E2 as [Hw2 ->]; [|done|done]. by apply load_and_cache_keeps.
  - by intros [= <- <- <-].
  - by apply load_and_cache_keeps.
Qed.
End Consumer.

(** ** Sessions *)

(** A call of the wrapped backend, or of [Clear]; what is saved is what its name stands
    for. *)
Inductive wrapped_call : wrapped W -> wrapped W -> Prop :=
  | call_Save h rd w : repo_handle h -> content rd = named (h_Type h) (h_Name h) -> wrapped_call w (wrapped_Save c h rd w).1
  | call_Load St (consumer : St -> reader -> St * outcome unit) h length_ offset w st : repo_handle h -> wrapped_call w (wrapped_Load (R := R) c wait consumer h length_ offset w st).1.1
  | call_Stat h w : repo_handle h -> wrapped_call w (wrapped_Stat (R := R) c h w).1
  | call_Remove h w : repo_handle h -> wrapped_call w (wrapped_Remove (R := R) c h w).1
  | call_Clear t valid w : wrapped_call w (on_cache (Clear c t valid) w).1.

Lemma wrapped_call_keeps w w' : wrapped_call w w' -> ok w -> ok w'.
Proof using All.
  intros [h rd w0 Hh Hrd|St consumer h length_ offset w0 st Hh|h w0 Hh|h w0 Hh|t valid w0] Hw.
  - destruct (wrapped_Save c h rd w0) as [w1 r] eqn:E. by apply wrapped_Save_keeps in E as [? _].
  - destruct (wrapped_Load c wait consumer h length_ offset w0 st) as [[w1 st1] r] eqn:E. by apply (wrapped_Load_keeps consumer (fun _ => True)) in E as [? _].
  - destruct (wrapped_Stat c h w0) as [w1 r] eqn:E. by apply wrapped_Stat_keeps in E as [? _].
  - destruct (wrapped_Remove c h w0) as [w1 r] eqn:E. by apply wrapped_Remove_keeps in E as [? _].
  - destruct (on_cache (Clear c t valid) w0) as [w1 r] eqn:E. apply (on_cache_keeps _ (fun _ => True)) in E as [? _]; [done| |done]. intros s s' x Hs E'. by apply (Clear_keeps _ named) in E' as [? _].
Qed.

(** C25. The cache never makes a difference to what is read: after any calls of the wrapped
    backend, whatever calls of the operating system fail, a consumer of [Load] is only
    given readers that deliver the part of the file it asked for, or end with an error;
    [Load] succeeds only if the consumer did, and panics only if it did. *)
Theorem cached_loads_honest w w' {St : Type} (consumer : St -> reader -> St * outcome unit) (P : St -> Prop) h length_ offset st w'' st' r
    (Hw : ok w) (Hcalls : rtc wrapped_call w w') (Hh : repo_handle h) (Hst : P st)
    (HP : forall st rd, P st -> honest named h length_ offset rd -> P (consumer st rd).1) :
  wrapped_Load (R := R) c wait consumer h length_ offset w' st = ((w'', st'), r) ->
  P st' /\
  match r with
  | Ok _ => exists st0 rd, P st0 /\ honest named h length_ offset rd /\ consumer st0 rd = (st', Ok tt)
  | Panic p => exists st0 rd, P st0 /\ honest named h length_ offset rd /\ consumer st0 rd = (st', Panic p)
  | Err _ => True
  end.
Proof using All.
  assert (ok w') as Hw' by (clear Hst HP; induction Hcalls as [|w w1 w2 Hcall _ IH]; [done|]; apply IH; by eapply wrapped_call_keeps).
  intros E. by apply (wrapped_Load_keeps consumer P h length_ offset Hh HP _ _ _ _ _ Hw' Hst) in E as (_ & ? & ?).
Qed.
End Safe.

(** ** A witness: a backend whose first reader fails, on a file system that fails *)

Definition wit_id : ID := copy_id ["i"%byte].
Definition wit_handle : Handle := mkHandle IndexFile false (ID_String wit_id).
Definition wit_named (t : FileType) (name : string) : list byte := replicate 40 "y"%byte.

#[local] Instance wit_inner : Inner nat ByteReader := {|
  in_Save w h rd := ((S w, rd), None);
  in_Load St w h length_ offset cb st :=
    let st := (cb st (["y"%byte], Some (ErrMsg "unexpected EOF"))).1 in
    let '(st, r) := cb st (cut (wit_named (h_Type h) (h_Name h)) length_ offset, None) in ((S w, st), r);
  in_Stat w h := (w, Err (ErrMsg "not found"));
  in_Remove w h := (w, None);
  in_IsNotExist e := true |}.

Lemma wit_laws : InnerLaws nat ByteReader wit_named.
Proof.
  split; [by intros w h rd w' rd' e [= <- <- <-]| |done]. intros St w h length_ offset cb st w' st' r. cbn [in_Load wit_inner].
  set (rd1 := (["y"%byte], Some (ErrMsg "unexpected EOF"))). set (rd2 := (cut (wit_named (h_Type h) (h_Name h)) length_ offset, None)).
  destruct (cb st rd1) as [st1 x1] eqn:E1. cbn [fst]. destruct (cb st1 rd2) as [st2 x2] eqn:E2. intros [= <- <- <-].
  eapply run_again; [|exact E1|]; [by intros ?|]. destruct x2 as [[]|e|p].
  - eapply run_accepts; [|exact E2]. by intros ?.
  - eapply run_again; [|exact E2|apply run_fails]. by intros ?.
  - eapply run_panics; [|exact E2]. by intros ?.
Qed.

Definition wit_cache : option Cache := Some (mkCache "/cache" "/" false).
Definition wit_wait (h : Handle) (w : wrapped nat) : wrapped nat := w.

(** The fourth call, which creates the temporary file, fails. *)
Definition wit_start : wrapped nat :=
  mkWrapped (mkOs (<["/cache/index/69" := Directory]> (<["/cache/index" := Directory]> ∅)) ∅ [None; None; None; Some (ENOSPC, 0%nat)]) 0%nat ∅.

(** A consumer that keeps what it is given and fails with the reader. *)
Definition wit_consumer (st : list reader) (rd : reader) : list reader * outcome unit := (st ++ [rd], as_outcome rd.2).
Definition wit_load (length_ offset : Z) (w : wrapped nat) := wrapped_Load (R := ByteReader) wit_cache wit_wait wit_consumer wit_handle length_ offset w [].

Lemma wit_start_ok : cache_ok wit_cache wit_named (w_os wit_start).
Proof.
  assert (forall path ino, os_paths (w_os wit_start) !! path <> Some (Regular ino)) as Hno.
  { intros path ino. cbn. destruct (decide (path = "/cache/index/69")) as [->|H1]; [by rewrite lookup_insert_eq|]. rewrite lookup_insert_ne by done.
    destruct (decide (path = "/cache/index")) as [->|H2]; [by rewrite lookup_insert_eq|]. by rewrite lookup_insert_ne. }
  split; [intros path ino Hp; by apply Hno in Hp|]. intros ca t sub id x _ _. unfold file_content. destruct (os_paths (w_os wit_start) !! cached_path ca sub id) as [[ino| |l|]|] eqn:E; done.
Qed.

(** The second load is served from the cache. *)
Example wit_loads :
  let '(w, _, _) := wit_load 0 0 wit_start in let '(w', st, r) := wit_load 3 30 w in
  (w_be w, w_be w', st, r) = (1%nat, 1%nat, [(replicate 3 "y"%byte, None)], Ok tt).
Proof. by vm_compute. Qed.

Lemma cached_loads_honest_witness :
  Forall (honest wit_named wit_handle 3 30) (wit_load 3 30 (wit_load 0 0 wit_start).1.1).1.2 /\ (wit_load 3 30 (wit_load 0 0 wit_start).1.1).2 = Ok tt.
Proof.
  split; [|by vm_compute]. assert (repo_handle wit_handle) as Hh by (right; split; [unfold layoutTypes; rewrite !elem_of_cons; auto|by exists wit_id]).
  set (w1 := (wit_load 0 0 wit_start).1.1). destruct (wit_load 3 30 w1) as [[w2 st2] r] eqn:E.
  pose proof wit_laws as Hlaws.
  apply (cached_loads_honest wit_named wit_cache wit_wait (fun h w Hw => Hw) wit_start w1 wit_consumer (Forall (honest wit_named wit_handle 3 30)) wit_handle 3 30 [] w2 st2 r); [exact wit_start_ok| |exact Hh|by apply Forall_nil_2| |exact E].
  - apply rtc_once. by apply (call_Load wit_named wit_cache wit_wait (list reader) wit_consumer wit_handle 0 0 wit_start []).
  - intros st rd Hst Hrd. cbn. apply Forall_app. split; [done|]. by apply Forall_cons_2.
Defined.
