(* ===== verification/CacheDir.v ===== *)
(** The directories of the local caches (src/internal/cache/cache.go, dir.go): opening
    or creating the cache of a repository, and finding old ones.

    The environment, the directory of the user's caches and the times of directories are
    parameters; a map is iterated in some order. *)

From S2P Require Import Prelude Bytes GoString GoTime FsPath FS Backend Tree Os OsFiles Cache.

#[local] Open Scope Z_scope.

(** [strconv.ParseUint] to the base 10. *)
Fixpoint parse_digits (s : list byte) (v : Z) : option Z :=
  match s with
  | [] => Some v
  | b :: s => let d := Z_of_byte b - 48 in if (0 <=? d) && (d <=? 9) then parse_digits s (10 * v + d) else None
  end.
Definition ParseUint (s : list byte) (bits : Z) : outcome Z :=
  match s, parse_digits s 0 with
  | [], _ | _, None => Err (ErrMsg "invalid syntax")
  | _, Some v => if v <? 2 ^ bits then Ok v else Err (ErrMsg "value out of range")
  end.

Definition version_file (dir : string) : string := path_Join [dir; "version"].
Definition readVersion (dir : string) (s : os) : os * outcome Z :=
  let '(s, buf) := ReadFile (version_file dir) s in
  (s, wrap_err "readVersion" (try buf <- buf; ParseUint buf 32)).

Definition cacheVersion : Z := 1.
Definition version_text : list byte := ["1"%byte].

Definition cachedirTagSignature : list byte := string_bytes "Signature: 8a477f597d28d172789f06886806bc55
".

(** [O_CREATE|O_EXCL]. *)
Definition create_new (path : string) (s : os) : os * outcome nat :=
  let '(f, s) := next_fault s in
  match f with
  | Some (e, _) => (s, Err e)
  | None => match os_paths s !! path with Some _ => (s, Err ErrExist) | None => let '(s, ino) := create_file s path in (s, Ok ino) end
  end.

Definition writeCachedirTag (dir : string) (s : os) : os * option error :=
  match create_new (path_Join [dir; "CACHEDIR.TAG"]) s with
  | (s, Err e) => (s, if os_error_Is e ErrExist then None else Some e)
  | (s, Panic p) => (s, Some (ErrMsg p))
  | (s, Ok ino) => write_and_close ino cachedirTagSignature s
  end.

Definition DefaultDir (EnvDir : string) (UserCacheDir : outcome string) : outcome string :=
  if negb (String.eqb EnvDir "") then Ok EnvDir
  else match UserCacheDir with Ok d => Ok (path_Join [d; "restic"]) | Err e => Err (ErrMsg "unable to locate cache directory: %v") | Panic p => Panic p end.

(** [updateTimestamp]: the times of files are not modelled. *)
Definition updateTimestamp (s : os) : os * option error := os_call s.

Section New.
Context (EnvDir : string) (UserCacheDir : outcome string) (layout_order : list string).

Fixpoint make_layout (cachedir : string) (subs : list string) (s : os) : os * option error :=
  match subs with
  | [] => (s, None)
  | p :: subs => match MkdirAll (path_Join [cachedir; p]) s with (s, Some e) => (s, Some e) | (s, None) => make_layout cachedir subs s end
  end.

(** The [switch] on what [readVersion] returned: the version and whether the directory
    was created. *)
Definition check_version (cachedir : string) (s : os) : os * outcome (Z * bool) :=
  match readVersion cachedir s with
  | (s, Ok v) =>
      if cacheVersion <? v then (s, Err (ErrMsg "cache version is newer"))
      else match updateTimestamp s with (s, Some e) => (s, Err e) | (s, None) => (s, Ok (v, false)) end
  | (s, Err e) =>
      if os_error_Is e ErrNotExist then
        match Mkdir cachedir s with
        | (s, None) => (s, Ok (0, true))
        | (s, Some e) => (s, if os_error_Is e ErrExist then Ok (0, false) else Err e)
        end
      else (s, Err (ErrWrap e "readVersion"))
  | (s, Panic p) => (s, Panic p)
  end.

(** The part of [New] that makes the directory of the cache. *)
Definition open_cachedir (basedir cachedir : string) (s : os) : os * outcome Cache :=
  match check_version cachedir s with
  | (s, Err e) => (s, Err e)
  | (s, Panic p) => (s, Panic p)
  | (s, Ok (v, created)) =>
      match (if v <? cacheVersion then WriteFile (version_file cachedir) version_text s else (s, None)) with
      | (s, Some e) => (s, Err e)
      | (s, None) =>
          match make_layout cachedir layout_order s with
          | (s, Some e) => (s, Err e)
          | (s, None) => (s, Ok (mkCache cachedir basedir created))
          end
      end
  end.

Definition New (id basedir : string) (s : os) : os * outcome Cache :=
  match (if String.eqb basedir "" then DefaultDir EnvDir UserCacheDir else Ok basedir) with
  | Err e => (s, Err e)
  | Panic p => (s, Panic p)
  | Ok basedir =>
      match MkdirAll basedir s with
      | (s, Some e) => (s, Err e)
      | (s, None) =>
          match writeCachedirTag basedir s with
          | (s, Some e) => (s, Err e)
          | (s, None) => open_cachedir basedir (path_Join [basedir; id]) s
          end
      end
  end.
End New.

(** ** Finding old directories *)

Definition MaxCacheAge : Z := 30 * 24 * 3600 * 1000000000.

Fixpoint all_chars (ok : Ascii.ascii -> bool) (s : string) : bool :=
  match s with EmptyString => true | String.String c s => ok c && all_chars ok s end.
Definition in_range (lo hi : nat) (c : Ascii.ascii) : bool := Nat.leb lo (Ascii.nat_of_ascii c) && Nat.leb (Ascii.nat_of_ascii c) hi.
Definition digit (c : Ascii.ascii) : bool := in_range 48 57 c.
Definition hexdigit (c : Ascii.ascii) : bool := in_range 97 102 c || in_range 65 70 c || digit c.

(** [^[a-fA-F0-9]{64}$|^restic-check-cache-[0-9]+$]. *)
Definition validCacheDirName (s : string) : bool :=
  let pre := "restic-check-cache-" in
  Nat.eqb (String.length s) 64 && all_chars hexdigit s ||
  String.prefix pre s && negb (String.eqb (drop_bytes (String.length pre) s) "") && all_chars digit (drop_bytes (String.length pre) s).

Section Old.
Context (ModTime : string -> Time) (Now : Time).

Definition listCacheDirs (basedir : string) (s : os) : os * outcome (list string) :=
  match open_dir basedir s with
  | (s, Err e) => (s, if os_error_Is e ErrNotExist then Ok [] else Err e)
  | (s, Panic p) => (s, Panic p)
  | (s, Ok _) =>
      match os_call s with
      | (s, Some e) => (s, Err e)
      | (s, None) =>
          let entries := children s basedir in
          match File_Close s with
          | (s, Some e) => (s, Err e)
          | (s, None) => (s, Ok (filter (fun name => validCacheDirName (filepath_Base name) = true) (omap (fun pe : string * entry => match pe.2 with Directory => Some pe.1 | _ => None end) entries)))
          end
      end
  end.
Definition All (basedir : string) (s : os) : os * outcome (list string) := listCacheDirs basedir s.

Definition IsOld (t : Time) (maxAge : Z) : bool := Before t (Add Now (i64 (- maxAge))).

Definition OlderThan (basedir : string) (max : Z) (s : os) : os * outcome (list string) :=
  match listCacheDirs basedir s with
  | (s, Ok entries) => (s, Ok (filter (fun name => IsOld (ModTime name) max = true) entries))
  | r => r
  end.
Definition Old (basedir : string) (s : os) : os * outcome (list string) := OlderThan basedir MaxCacheAge s.
End Old.

Example valid_names :
  validCacheDirName "restic-check-cache-0123" = true /\ validCacheDirName "restic-check-cache-" = false /\ validCacheDirName "restic-check-cache-12a" = false /\
  validCacheDirName "00112233445566778899aabbccddeeff00112233445566778899aabbccddeeFF" = true /\ validCacheDirName "0011" = false.
Proof. by vm_compute. Qed.

(** * A cache that was opened can be used *)

Section Ready.
Context (EnvDir : string) (UserCacheDir : outcome string) (layout_order : list string).
Hypothesis layout_all : forall t sub, cacheLayoutPaths t = Some sub -> sub ∈ layout_order.
Hypothesis layout_only : forall sub, sub ∈ layout_order -> good_comp sub.

Lemma make_layout_spec cachedir subs s s' :
  (forall sub, sub ∈ subs -> good_comp sub) -> make_layout cachedir subs s = (s', None) ->
  same_files s s' /\ (forall q, is_dir s q = true -> is_dir s' q = true) /\ forall sub, sub ∈ subs -> is_dir s' (path_Join [cachedir; sub]) = true.
Proof using Type.
  revert s. induction subs as [|p subs IH]; intros s Hg; cbn [make_layout]; [intros [= <-]; split_and!; [done|done|by intros sub Hs%elem_of_nil]|].
  destruct (MkdirAll _ s) as [s1 [e|]] eqn:E1; [done|]. intros (Hs & Hk & Hd)%IH; [|intros sub Hsub; apply Hg; by right]. pose proof (MkdirAll_files _ _ _ _ E1) as Hs1. split_and!.
  - by etransitivity.
  - intros q Hq. apply Hk. by eapply mkdir_all_keeps.
  - intros sub [->|Hsub]%elem_of_cons; [|by apply Hd]. apply Hk. eapply MkdirAll_made; [|exact E1]. apply (Join_ends [cachedir]). apply Hg. by left.
Qed.

Lemma readVersion_spec dir s s' r : os_wf s -> readVersion dir s = (s', r) -> same_files s s' /\ forall v, r = Ok v -> exists buf, file_content s (version_file dir) = Some buf /\ ParseUint buf 32 = Ok v.
Proof using Type.
  intros Hw. unfold readVersion. destruct (ReadFile (version_file dir) s) as [s1 x] eqn:E. apply ReadFile_spec in E as [Hs Hx]; [|done]. intros [= <- <-]. split; [done|]. intros v Hv.
  destruct x as [buf|e|p]; [|done..]. cbn in Hv. exists buf. split; [by apply Hx|]. by destruct (ParseUint buf 32).
Qed.

Lemma ParseUint_nonneg buf bits v : ParseUint buf bits = Ok v -> 0 <= v.
Proof using Type.
  unfold ParseUint. destruct buf as [|b buf]; [done|]. set (l := b :: buf). destruct (parse_digits l 0) as [n|] eqn:E; [|done]. destruct (n <? 2 ^ bits); [|done]. intros [= <-].
  assert (forall l v n, 0 <= v -> parse_digits l v = Some n -> 0 <= n) as H; [|by eapply (H l 0)]. clear. intros l. induction l as [|b l IH]; intros v n Hv; cbn [parse_digits]; [by intros [= <-]|].
  destruct (Z.leb_spec 0 (Z_of_byte b - 48)); [|done]. destruct (Z_of_byte b - 48 <=? 9); [|done]. apply IH. lia.
Qed.

(** A version that was read is there; one that is 0 is to be written. *)
Lemma check_version_spec cachedir s s' v created :
  os_wf s -> check_version cachedir s = (s', Ok (v, created)) ->
  same_files s s' /\ (v = 0 \/ v = 1 /\ exists buf, file_content s (version_file cachedir) = Some buf /\ ParseUint buf 32 = Ok v).
Proof using Type.
  intros Hw. unfold check_version. destruct (readVersion cachedir s) as [s1 x] eqn:E1. apply readVersion_spec in E1 as [Hs1 Hx]; [|done]. destruct x as [n|e|p]; [| |done].
  - destruct (Hx n eq_refl) as (buf & Hbuf & Hp). pose proof (ParseUint_nonneg _ _ _ Hp) as Hn. destruct (Z.ltb_spec cacheVersion n) as [?|Hle]; [done|]. unfold cacheVersion in Hle.
    unfold updateTimestamp. destruct (os_call s1) as [s2 [e|]] eqn:E2; [done|]. apply os_call_files in E2. intros [= <- <- _]. split; [by etransitivity|].
    destruct (decide (n = 0)) as [->|Hn0]; [by left|right]. split; [lia|by exists buf].
  - destruct (os_error_Is e ErrNotExist); [|done]. destruct (Mkdir cachedir s1) as [s2 [e2|]] eqn:E2; apply Mkdir_files in E2.
    + destruct (os_error_Is e2 ErrExist); [|done]. intros [= <- <- _]. split; [by etransitivity|by left].
    + intros [= <- <- _]. split; [by etransitivity|by left].
Qed.

Lemma writeCachedirTag_wf dir s s' r : os_wf s -> writeCachedirTag dir s = (s', r) -> os_wf s'.
Proof using Type.
  intros Hw. unfold writeCachedirTag, create_new. destruct (next_fault s) as [f s1] eqn:E1. pose proof (same_wf _ _ (next_fault_files _ _ _ E1) Hw) as Hw1. destruct f as [[e n]|]; [by intros [= <- _]|].
  destruct (os_paths s1 !! _); [by intros [= <- _]|]. destruct (create_file s1 _) as [s2 ino] eqn:E2. destruct (create_file_wf _ _ _ _ Hw1 E2) as [Hw2 Hp2].
  intros Hwr. eapply write_and_close_spec in Hwr as [? _]; [done|done|done|]. injection E2 as <- <-. cbn. by rewrite lookup_insert_eq.
Qed.

(** A cache that [New] returns has the directories of every type of file, and a version
    file with the version of the program; a newer version is refused. *)
Theorem New_ready id basedir s s' ca (Hw : os_wf s) :
  New EnvDir UserCacheDir layout_order id basedir s = (s', Ok ca) ->
  c_path ca = path_Join [c_Base ca; id] /\
  (forall t sub, cacheLayoutPaths t = Some sub -> is_dir s' (path_Join [c_path ca; sub]) = true) /\
  exists buf, file_content s' (version_file (c_path ca)) = Some buf /\ ParseUint buf 32 = Ok cacheVersion.
Proof using All.
  unfold New. destruct (if String.eqb basedir "" then _ else _) as [base|e|p]; [|done..]. destruct (MkdirAll base s) as [s1 [e|]] eqn:E1; [done|]. apply MkdirAll_files in E1. pose proof (same_wf _ _ E1 Hw) as Hw1.
  destruct (writeCachedirTag base s1) as [s2 [e|]] eqn:E2; [done|]. apply writeCachedirTag_wf in E2; [|done]. unfold open_cachedir. set (dir := path_Join [base; id]).
  destruct (check_version dir s2) as [s3 [[v created]|e|p]] eqn:E3; [|done..]. apply check_version_spec in E3 as [Hs3 Hv]; [|done]. pose proof (same_wf _ _ Hs3 E2) as Hw3.
  destruct (if v <? cacheVersion then _ else _) as [s4 [e|]] eqn:E4; [done|]. destruct (make_layout dir layout_order s4) as [s5 [e|]] eqn:E5; [done|]. intros [= <- <-]. cbn [c_path c_Base].
  apply make_layout_spec in E5 as (Hs5 & _ & Hd); [|done]. split_and!; [done|intros t sub Hsub; apply Hd; by eapply layout_all|]. unfold cacheVersion in E4.
  destruct (Z.ltb_spec v 1) as [Hlt|Hge].
  - exists version_text. split; [|done]. rewrite (same_content _ _ _ Hs5). apply WriteFile_spec in E4 as [_ Hc]; [by apply Hc|done].
  - injection E4 as <-. destruct Hv as [->|(-> & buf & Hbuf & Hp)]; [lia|]. exists buf. split; [|done]. by rewrite (same_content _ _ _ Hs5), (same_content _ _ _ Hs3).
Qed.
End Ready.

Definition demo_order : list string := ["index"; "data"; "snapshots"].
Definition demo_new (s : os) : os * outcome Cache := New "" (Ok "/home/user/.cache") demo_order "r1" "" s.

(** A new cache is made, and opened again; one of a newer program is refused. *)
Example New_twice :
  let '(s, r) := demo_new (mkOs ∅ ∅ []) in
  r = Ok (mkCache "/home/user/.cache/restic/r1" "/home/user/.cache/restic" true) /\
  (demo_new s).2 = Ok (mkCache "/home/user/.cache/restic/r1" "/home/user/.cache/restic" false) /\
  (demo_new (WriteFile "/home/user/.cache/restic/r1/version" ["2"%byte] s).1).2 = Err (ErrMsg "cache version is newer").
Proof. by vm_compute. Qed.

Lemma demo_order_all t sub : cacheLayoutPaths t = Some sub -> sub ∈ demo_order.
Proof. unfold cacheLayoutPaths, demo_order. repeat case_match; intros [= <-]; rewrite !elem_of_cons; auto. Qed.

Lemma demo_order_good sub : sub ∈ demo_order -> good_comp sub.
Proof. unfold demo_order. rewrite !elem_of_cons, elem_of_nil. by intros [->|[->|[->|[]]]]. Qed.

Lemma New_ready_witness :
  let '(s, r) := demo_new (mkOs ∅ ∅ []) in
  match r with Ok ca => forall t sub, cacheLayoutPaths t = Some sub -> is_dir s (path_Join [c_path ca; sub]) = true | _ => False end.
Proof.
  assert (is_ok (demo_new (mkOs ∅ ∅ [])).2 = true) as Hok by by vm_compute.
  destruct (demo_new (mkOs ∅ ∅ [])) as [s [ca|e|p]] eqn:E; [|discriminate Hok..]. clear Hok.
  assert (os_wf (mkOs ∅ ∅ [])) as Hw by (clear E; by intros p ino).
  exact (proj1 (proj2 (New_ready "" (Ok "/home/user/.cache") demo_order demo_order_all demo_order_good "r1" "" _ s ca Hw E))).
Defined.
