(* ===== verification/Sema.v ===== *)
(** The backend that limits the number of concurrent operations
    (src/backend/sema/backend.go, semaphore.go).

    Calls of the backend are goroutines: one step of a call is what it does up to the
    next place where it can block.  A channel is the number of its elements, a mutex
    whether it is held; [typeDependentLimit] takes and returns the mutex in one step.
    [List] and [Delete] are not defined for the limited backend: they are those of the
    backend embedded in it, which neither take a token nor wait for the mutex. *)

From S2P Require Import Prelude Bytes Restic Backend.

#[local] Open Scope Z_scope.

Record semaphore := mkSema { capacity : nat; ch : nat }.

Definition newSemaphore (n : nat) : outcome semaphore :=
  if Nat.eqb n 0 then Err (ErrMsg "capacity must be a positive number") else Ok (mkSema n 0).

(** [None]: the goroutine blocks. *)
Definition GetToken (s : semaphore) : option semaphore := if Nat.ltb (ch s) (capacity s) then Some (mkSema (capacity s) (S (ch s))) else None.
Definition ReleaseToken (s : semaphore) : option semaphore := match ch s with O => None | S n => Some (mkSema (capacity s) n) end.

Record connectionLimitedBackend := mkLimited { sem : semaphore; freezeLock : bool }.

Definition NewBackend (connections : nat) : outcome connectionLimitedBackend :=
  match newSemaphore connections with Ok s => Ok (mkLimited s false) | _ => Panic "capacity must be a positive number" end.

Definition Freeze (be : connectionLimitedBackend) : option connectionLimitedBackend := if freezeLock be then None else Some (mkLimited (sem be) true).
Definition Unfreeze (be : connectionLimitedBackend) : option connectionLimitedBackend := if freezeLock be then Some (mkLimited (sem be) false) else None.

(** ** Calls *)

Inductive request :=
  | SaveRequest (h : Handle)
  | LoadRequest (h : Handle) (length_ offset : Z)
  | StatRequest (h : Handle)
  | RemoveRequest (h : Handle)
  | ListRequest (t : FileType)
  | DeleteRequest.

(** The handle of a request; [None]: the method of the embedded backend is called. *)
Definition handle_of (r : request) : option Handle :=
  match r with
  | SaveRequest h | LoadRequest h _ _ | StatRequest h | RemoveRequest h => Some h
  | ListRequest _ | DeleteRequest => None
  end.

(** The checks of the arguments. *)
Definition validate (r : request) : option error :=
  match (h ← handle_of r; Some (Handle_Valid h)) with
  | Some (Err e) => Some (Permanent e)
  | _ =>
      match r with
      | LoadRequest _ length_ offset =>
          if offset <? 0 then Some (Permanent (ErrMsg "offset is negative"))
          else if length_ <? 0 then Some (Permanent (ErrMsg "invalid length %d"))
          else None
      | _ => None
      end
  end.

Inductive phase :=
  | Called
  | GotToken
  | Allowed
  | Calling
  | Returning (r : outcome unit)
  | Returned (r : outcome unit).

Record call := mkCall { cl_request : request; cl_phase : phase }.
Definition promoted (c : call) : bool := bool_decide (handle_of (cl_request c) = None).
Definition unlimited (c : call) : bool := match handle_of (cl_request c) with Some h => h_Type h =? LockFile | None => true end.
Definition at_phase (c : call) (p : phase) : call := mkCall (cl_request c) p.

(** The next step of a call, with the error of its context and the result of the backend
    below; [None]: it blocks or is over. *)
Definition advance (ctx : option error) (result : outcome unit) (be : connectionLimitedBackend) (c : call) : option (connectionLimitedBackend * call) :=
  match cl_phase c with
  | Called =>
      match validate (cl_request c) with
      | Some e => Some (be, at_phase c (Returned (Err e)))
      | None =>
          if promoted c then Some (be, at_phase c Calling)
          else if unlimited c then Some (be, at_phase c Allowed)
          else s ← GetToken (sem be); Some (mkLimited s (freezeLock be), at_phase c GotToken)
      end
  | GotToken => if freezeLock be then None else Some (be, at_phase c Allowed)
  | Allowed => Some (be, at_phase c (match ctx with Some e => Returning (Err e) | None => Calling end))
  | Calling => Some (be, at_phase c (Returning result))
  | Returning r =>
      if unlimited c then Some (be, at_phase c (Returned r))
      else s ← ReleaseToken (sem be); Some (mkLimited s (freezeLock be), at_phase c (Returned r))
  | Returned _ => None
  end.

(** ** The calls together *)

Record system := mkSystem { sy_be : connectionLimitedBackend; sy_calls : list call }.

Definition call_step (i : nat) (ctx : option error) (result : outcome unit) (y : system) : option system :=
  c ← sy_calls y !! i;
  x ← advance ctx result (sy_be y) c;
  Some (mkSystem x.1 (<[i := x.2]> (sy_calls y))).

Inductive sema_step : system -> system -> Prop :=
  | step_new r y : sema_step y (mkSystem (sy_be y) (sy_calls y ++ [mkCall r Called]))
  | step_call i ctx result y y' : call_step i ctx result y = Some y' -> sema_step y y'
  | step_freeze y be : Freeze (sy_be y) = Some be -> sema_step y (mkSystem be (sy_calls y))
  | step_unfreeze y be : Unfreeze (sy_be y) = Some be -> sema_step y (mkSystem be (sy_calls y)).

Definition has_token (c : call) : bool :=
  negb (unlimited c) && match cl_phase c with GotToken | Allowed | Calling | Returning _ => true | _ => false end.
Definition is_calling (c : call) : bool := match cl_phase c with Calling => true | _ => false end.
Definition active (c : call) : bool := match cl_phase c with Returned _ => false | _ => true end.

Definition count (f : call -> bool) (l : list call) : nat := sum_list_with (fun c => if f c then 1 else 0)%nat l.

(** How many steps a call is away from its end. *)
Definition remaining (c : call) : nat := match cl_phase c with Called => 5 | GotToken => 4 | Allowed => 3 | Calling => 2 | Returning _ => 1 | Returned _ => 0 end.
Definition work (y : system) : nat := sum_list_with remaining (sy_calls y).

(** * The limit *)

(** The tokens are with the calls. *)
Definition sema_inv (n : nat) (y : system) : Prop := capacity (sem (sy_be y)) = n /\ ch (sem (sy_be y)) = count has_token (sy_calls y) /\ (ch (sem (sy_be y)) <= n)%nat.

Lemma sum_insert (f : call -> nat) l i c c' : l !! i = Some c -> (sum_list_with f (<[i := c']> l) + f c = sum_list_with f l + f c')%nat.
Proof. revert i. induction l as [|x l IH]; intros [|i]; simpl; try done; [by intros [= ->]; lia|]. intros Hi%IH. lia. Qed.

Lemma call_step_inv i ctx result y y' : call_step i ctx result y = Some y' -> exists c be' c', sy_calls y !! i = Some c /\ advance ctx result (sy_be y) c = Some (be', c') /\ y' = mkSystem be' (<[i := c']> (sy_calls y)).
Proof.
  unfold call_step. destruct (sy_calls y !! i) as [c|]; cbn [mbind option_bind]; [|done]. destruct (advance ctx result (sy_be y) c) as [[be' c']|] eqn:E; cbn [mbind option_bind fst snd]; [|done].
  intros [= <-]. by exists c, be', c'.
Qed.

(** What a step does to the tokens and to the work. *)
Lemma advance_tokens ctx result be c be' c' :
  advance ctx result be c = Some (be', c') ->
  capacity (sem be') = capacity (sem be) /\ freezeLock be' = freezeLock be /\ cl_request c' = cl_request c /\
  (ch (sem be') + (if has_token c then 1 else 0) = ch (sem be) + (if has_token c' then 1 else 0))%nat /\
  ((ch (sem be) <= capacity (sem be))%nat -> (ch (sem be') <= capacity (sem be))%nat) /\ (remaining c' < remaining c)%nat.
Proof.
  unfold advance, has_token, unlimited, remaining. destruct c as [r p], be as [[cap n] fl]. cbn [cl_phase cl_request sem freezeLock at_phase]. set (t := match handle_of r with Some h => h_Type h =? LockFile | None => true end).
  assert (promoted (mkCall r p) = true -> t = true) as Hprom by (unfold promoted; cbn; rewrite bool_decide_eq_true; unfold t; by intros ->).
  assert (forall m p', Some (mkLimited (mkSema cap m) fl, mkCall r p') = Some (be', c') ->
    be' = mkLimited (mkSema cap m) fl /\ c' = mkCall r p') as Hinj by (by intros m p' [= <- <-]).
  destruct p as [| | | |x|x]; [| | | | |done].
  - destruct (validate r) as [e|]; [|destruct (promoted _) eqn:Epr; [pose proof (Hprom eq_refl) as Et|destruct t eqn:Et; [|unfold GetToken; cbn [ch capacity]; destruct (Nat.ltb_spec n cap); cbn; [|done]]]]; intros [-> ->]%Hinj; cbn; fold t; rewrite ?Et, ?andb_false_r; cbn; split_and!; (done || lia).
  - destruct fl; [done|]. intros [-> ->]%Hinj. cbn. fold t. destruct t; cbn; split_and!; (done || lia).
  - intros [-> ->]%Hinj. cbn. fold t. destruct t, ctx; cbn; split_and!; (done || lia).
  - intros [-> ->]%Hinj. cbn. fold t. destruct t; cbn; split_and!; (done || lia).
  - destruct t eqn:Et; [|unfold ReleaseToken; cbn; destruct n as [|n]; cbn; [done|]]; intros [-> ->]%Hinj; cbn; fold t; rewrite Et; cbn; split_and!; (done || lia).
Qed.

Lemma sema_step_inv n y y' : sema_step y y' -> sema_inv n y -> sema_inv n y'.
Proof.
  intros [r y0|i ctx result y0 y1 E|y0 be E|y0 be E] (Hcap & Hch & Hle).
  - unfold sema_inv, count. cbn. rewrite sum_list_with_app. cbn. replace (has_token (mkCall r Called)) with false by (unfold has_token; by rewrite andb_false_r). rewrite Nat.add_0_r. done.
  - apply call_step_inv in E as (c & be' & c' & Hc & Ha & ->). apply advance_tokens in Ha as (H1 & _ & _ & H2 & H3 & _). pose proof (sum_insert (fun c => if has_token c then 1 else 0)%nat _ _ _ c' Hc) as H4. cbn beta in H4.
    unfold sema_inv. cbn. rewrite Hcap in *. split_and!; [done| |by apply H3]. unfold count in *. lia.
  - unfold Freeze in E. destruct (freezeLock _); [done|]. by injection E as <-.
  - unfold Unfreeze in E. destruct (freezeLock _); [|done]. by injection E as <-.
Qed.

Lemma sema_reach_inv n y y' : rtc sema_step y y' -> sema_inv n y -> sema_inv n y'.
Proof. induction 1 as [|y y1 y2 H _ IH]; [done|]. intros Hi. apply IH. by eapply sema_step_inv. Qed.

Lemma count_le (f g : call -> bool) l : (forall c, c ∈ l -> f c = true -> g c = true) -> (count f l <= count g l)%nat.
Proof.
  unfold count. induction l as [|c l IH]; intros H; cbn; [done|]. assert (sum_list_with (fun c => if f c then 1 else 0)%nat l <= sum_list_with (fun c => if g c then 1 else 0)%nat l)%nat by (apply IH; intros x Hx; apply H; by right).
  pose proof (H c ltac:(by left)). destruct (f c), (g c); lia || (specialize (H0 eq_refl); done).
Qed.

(** ** Freezing *)

(** A limited call that is in the backend below, or may go there without waiting. *)
Definition passed (c : call) : bool := negb (unlimited c) && match cl_phase c with Allowed | Calling => true | _ => false end.

(** Steps while the backend is frozen. *)
Definition frozen_step (y y' : system) : Prop := sema_step y y' /\ freezeLock (sy_be y) = true /\ freezeLock (sy_be y') = true.

Lemma promoted_unlimited c : promoted c = true -> unlimited c = true.
Proof. unfold promoted, unlimited. rewrite bool_decide_eq_true. by intros ->. Qed.

Lemma advance_frozen ctx result be c be' c' : advance ctx result be c = Some (be', c') -> freezeLock be = true -> passed c' = true -> passed c = true.
Proof.
  assert (forall p, unlimited (at_phase c p) = unlimited c) as Hu by done. unfold advance, passed. intros E Hf. rewrite Hf in E.
  destruct (cl_phase c) eqn:Ep; [|done| | | |done].
  - destruct (validate _); [injection E as <- <-; cbn; by rewrite andb_false_r|]. destruct (promoted c) eqn:Epr; [injection E as <- <-; by rewrite Hu, (promoted_unlimited c Epr)|].
    destruct (unlimited c) eqn:Et; [injection E as <- <-; by rewrite Hu|]. destruct (GetToken (sem be)); cbn in E; [|done]. injection E as <- <-. cbn. by rewrite andb_false_r.
  - injection E as <- <-. rewrite Hu. by intros [-> _]%andb_true_iff.
  - injection E as <- <-. cbn. by rewrite andb_false_r.
  - destruct (unlimited c); [injection E as <- <-; cbn; by rewrite andb_false_r|]. destruct (ReleaseToken (sem be)); cbn in E; [|done]. injection E as <- <-. cbn. by rewrite andb_false_r.
Qed.

Lemma frozen_step_passed y y' i c' : frozen_step y y' -> sy_calls y' !! i = Some c' -> passed c' = true -> exists c, sy_calls y !! i = Some c /\ passed c = true.
Proof.
  intros ([r y0|j ctx result y0 y1 E|y0 be E|y0 be E] & Hf & _); cbn.
  - rewrite lookup_app. destruct (sy_calls y0 !! i) as [c|] eqn:Ei; [intros [= <-] Hp; by exists c|]. destruct (i - length (sy_calls y0))%nat; cbn; [|done]. intros [= <-]. unfold passed. cbn. by rewrite andb_false_r.
  - apply call_step_inv in E as (c & be' & c1 & Hc & Ha & ->). cbn. destruct (decide (i = j)) as [->|Hne].
    + rewrite list_lookup_insert_eq by (by eapply lookup_lt_Some). intros [= <-] Hp. exists c. split; [done|]. by eapply advance_frozen.
    + rewrite list_lookup_insert_ne by done. intros Hi Hp. by exists c'.
  - intros Hi Hp. by exists c'.
  - intros Hi Hp. by exists c'.
Qed.

Lemma frozen_passed y y' i c' : rtc frozen_step y y' -> sy_calls y' !! i = Some c' -> passed c' = true -> exists c, sy_calls y !! i = Some c /\ passed c = true.
Proof.
  intros Hr. revert c'. induction Hr as [y|y y1 y2 H _ IH]; intros c' Hi Hp; [by exists c'|]. destruct (IH c' Hi Hp) as (c1 & H1 & Hp1). by eapply frozen_step_passed.
Qed.

(** ** Progress *)

Lemma call_step_work i ctx result y y' : call_step i ctx result y = Some y' -> (work y' < work y)%nat.
Proof.
  intros (c & be' & c' & Hc & Ha & ->)%call_step_inv. apply advance_tokens in Ha as (_ & _ & _ & _ & _ & Hr). unfold work. cbn. pose proof (sum_insert remaining _ _ _ c' Hc). lia.
Qed.

(** Calls for lock files never wait for the mutex, and the holders of a token go on
    unless the backend is frozen. *)
Definition lock_file_free (y : system) : Prop := forall c, c ∈ sy_calls y -> unlimited c = true -> cl_phase c <> GotToken.

Lemma advance_lock_free ctx result be c be' c' : advance ctx result be c = Some (be', c') -> unlimited c = true -> cl_phase c' <> GotToken.
Proof.
  unfold advance. intros E Hu. rewrite Hu in E. destruct c as [r p]. cbn [cl_phase cl_request at_phase] in E. destruct p as [| | | |x|x]; [destruct (validate r); [|destruct (promoted _)]|destruct (freezeLock be); [done|]|destruct ctx| | |done]; by injection E as <- <-.
Qed.

Lemma sema_step_lock_free y y' : sema_step y y' -> lock_file_free y -> lock_file_free y'.
Proof.
  intros [r y0|i ctx result y0 y1 E|y0 be E|y0 be E] Hl c; cbn; try by apply Hl.
  - intros [Hc|Hc]%elem_of_app; [by apply Hl|]. apply list_elem_of_singleton in Hc as ->. done.
  - apply call_step_inv in E as (c0 & be' & c' & Hc & Ha & ->). cbn. intros Hin. apply list_elem_of_lookup_1 in Hin as [j Hj]. destruct (decide (j = i)) as [->|Hne].
    + rewrite list_lookup_insert_eq in Hj by (by eapply lookup_lt_Some). injection Hj as <-. intros Hu. eapply advance_lock_free; [done|]. unfold unlimited in *.
      apply advance_tokens in Ha as (_ & _ & Hreq & _). by rewrite <- Hreq.
    + rewrite list_lookup_insert_ne in Hj by done. apply Hl. by eapply list_elem_of_lookup_2.
Qed.

Lemma sema_reach_lock_free y y' : rtc sema_step y y' -> lock_file_free y -> lock_file_free y'.
Proof. induction 1 as [|y y1 y2 H _ IH]; [done|]. intros Hl. apply IH. by eapply sema_step_lock_free. Qed.

Lemma advance_unlimited ctx result be c : unlimited c = true -> active c = true -> cl_phase c <> GotToken -> is_Some (advance ctx result be c).
Proof. unfold active, advance. intros -> Ha Hg. destruct (cl_phase c); [destruct (validate _); [done|by destruct (promoted c)]|done..]. Qed.

Lemma advance_holder ctx result be c : has_token c = true -> freezeLock be = false -> ch (sem be) <> 0%nat -> is_Some (advance ctx result be c).
Proof.
  unfold has_token, advance. intros [Hu Hp]%andb_true_iff Hf Hch. rewrite Hf. destruct (cl_phase c); try done. destruct (unlimited c); [done|]. unfold ReleaseToken. by destruct (ch (sem be)).
Qed.

Lemma advance_called ctx result be c : cl_phase c = Called -> (ch (sem be) < capacity (sem be))%nat -> is_Some (advance ctx result be c).
Proof. unfold advance. intros -> Hlt. destruct (validate _); [done|]. destruct (promoted c); [done|]. destruct (unlimited c); [done|]. unfold GetToken. by destruct (Nat.ltb_spec (ch (sem be)) (capacity (sem be))); [|lia]. Qed.

Lemma call_step_some i ctx result y c : sy_calls y !! i = Some c -> is_Some (advance ctx result (sy_be y) c) -> is_Some (call_step i ctx result y).
Proof. intros Hc [x Hx]. unfold call_step. rewrite Hc. cbn. by rewrite Hx. Qed.

Lemma count_zero f l : count f l = 0%nat -> forall c, c ∈ l -> f c = false.
Proof.
  unfold count. induction l as [|c l IH]; cbn; [by intros _ c Hc%elem_of_nil|]. intros H x [->|Hx]%elem_of_cons; [by destruct (f c)|apply IH; [lia|done]].
Qed.

Lemma some_call_runs n y :
  (0 < n)%nat -> sema_inv n y -> lock_file_free y -> freezeLock (sy_be y) = false -> (exists c, c ∈ sy_calls y /\ active c = true) -> exists i, forall ctx result, is_Some (call_step i ctx result y).
Proof.
  intros Hn (Hcap & Hch & Hle) Hl Hf (c & Hc & Ha). destruct (decide (count has_token (sy_calls y) = 0)%nat) as [H0|H0].
  - pose proof (count_zero _ _ H0 c Hc) as Ht. apply list_elem_of_lookup_1 in Hc as [i Hi]. exists i. intros ctx result. eapply call_step_some; [exact Hi|].
    destruct (unlimited c) eqn:Hu; [apply advance_unlimited; [done|done|]; apply Hl; [by eapply list_elem_of_lookup_2|done]|].
    apply advance_called; [|lia]. unfold has_token, active in *. rewrite Hu in Ht. by destruct (cl_phase c).
  - assert (exists c, c ∈ sy_calls y /\ has_token c = true) as (c1 & Hc1 & Ht).
    { clear -H0. unfold count in H0. induction (sy_calls y) as [|x l IH]; [done|]. cbn in H0. destruct (has_token x) eqn:E; [exists x; split; [by left|done]|].
      destruct IH as (c & Hc & Ht); [done|]. exists c. split; [by right|done]. }
    apply list_elem_of_lookup_1 in Hc1 as [i Hi]. exists i. intros ctx result. eapply call_step_some; [exact Hi|]. apply advance_holder; [done|done|lia].
Qed.


(** ** A witness: two connections, three packs and a lock *)

Definition wit_pack : Handle := mkHandle PackFile false "foobar".
Definition wit_lock : Handle := mkHandle LockFile false "foobar".
Definition run_calls (l : list nat) (y : system) : option system := foldl (fun y i => y ≫= call_step i None (Ok tt)) (Some y) l.
Definition wit_system : system :=
  mkSystem (mkLimited (mkSema 2 0) false) [mkCall (SaveRequest wit_pack) Called; mkCall (LoadRequest wit_pack 10 0) Called; mkCall (StatRequest wit_pack) Called; mkCall (RemoveRequest wit_lock) Called; mkCall (ListRequest PackFile) Called].

Definition runs (l : list nat) : bool := match run_calls l wit_system with Some _ => true | None => false end.
Example third_blocks :
  (runs [0; 0; 0; 1; 1; 1; 3; 3; 3; 3], runs [0; 0; 0; 1; 1; 1; 2], runs [0; 0; 0; 1; 1; 1; 0; 0; 2; 2; 2], runs [0; 0; 0; 1; 1; 1; 4])%nat = (true, false, true, true) /\
  validate (LoadRequest wit_pack 10 (-1)) = Some (Permanent (ErrMsg "offset is negative")).
Proof. by vm_compute. Qed.

Lemma run_calls_reach l y y' : run_calls l y = Some y' -> rtc sema_step y y'.
Proof.
  unfold run_calls. revert y. induction l as [|i l IH]; intros y; cbn; [by intros [= ->]|]. destruct (call_step i None (Ok tt) y) as [y1|] eqn:E.
  - intros H. eapply rtc_l; [by eapply step_call|by apply IH].
  - intros H. exfalso. clear -H. induction l as [|j l IH]; [done|]. by apply IH.
Qed.

Lemma wit_system_reach : rtc sema_step (mkSystem (mkLimited (mkSema 2 0) false) []) wit_system.
Proof. unfold wit_system. do 5 (eapply rtc_l; [apply step_new|cbn [sy_be sy_calls app]]). apply rtc_refl. Qed.

