(* ===== verification/Migration.v ===== *)
(** The upgrade of a repository to version 2 (src/internal/migrations/upgrade_repo_v2.go).

    The backend is one that may fail at any time ([Flaky] of Retry), the backup of the
    config goes to the file system of Os.  What the repository contributes is the class
    [ConfigRepo]: its config, and saving one (Keys).  [fmt.Errorf] with %w is [ErrWrap]. *)

From S2P Require Import Prelude Bytes GoString Restic FsPath FS Backend Retry Os OsFiles.

#[local] Open Scope Z_scope.

(** The version, and the rest of the config. *)
Record UpgradeConfig := mkUpgradeConfig { uc_Version : Z; uc_ID : string; uc_ChunkerPolynomial : Z }.

(** What the migration uses of a repository. *)
Class ConfigRepo (W : Type) := {
  repo_Config : W -> UpgradeConfig;
  SaveConfig : W -> UpgradeConfig -> W * option error }.

Record UpgradeRepoV2Error := mkUpgradeError { UploadNewConfigError : error; ReuploadOldConfigError : option error; BackupFilePath : string }.

(** The errors of [Apply]. *)
Inductive apply_error :=
  | Early (e : error)
  | Upgrade (e : UpgradeRepoV2Error).

Definition config_handle : Handle := mkHandle ConfigFile false "".

Section Upgrade.
Context {W : Type} `{!Flaky W ByteReader} `{!ConfigRepo W} `{TempNames} (TempDir : string).

(** Whether the migration applies, and why not. *)
Definition Check_upgrade (w : W) : bool * string :=
  if uc_Version (repo_Config w) =? 1 then (true, "") else (false, "repository is already upgraded to version %v").

Definition upgrade (w : W) : W * option error :=
  let '(w, err) :=
    if negb (f_HasAtomicReplace (W := W) (R := ByteReader)) then f_Remove (R := ByteReader) w config_handle else (w, None) in
  match err with
  | Some e => (w, Some (ErrWrap e "remove config failed"))
  | None =>
      let cfg := repo_Config w in
      match SaveConfig w (mkUpgradeConfig 2 (uc_ID cfg) (uc_ChunkerPolynomial cfg)) with
      | (w, Some e) => (w, Some (ErrWrap e "save new config file failed"))
      | (w, None) => (w, None)
      end
  end.

(** [os.MkdirTemp]. *)
Definition MkdirTemp (dir pattern : string) (s : os) : os * outcome string :=
  let '(f, s) := next_fault s in
  match f with
  | Some (e, _) => (s, Err e)
  | None => if is_dir s dir then let path := temp_path s dir pattern in (set_path s path Directory, Ok path) else (s, Err ErrNotExist)
  end.

(** Reading the config: the callback keeps what it read last. *)
Definition load_raw (w : W) : W * outcome (list byte) :=
  let '((w, raw), err) := f_Load (R := ByteReader) (list byte) w config_handle 0 0 (fun _ data => (data, None)) [] in
  (w, match err with Some e => Err (ErrWrap e "load config file failed") | None => Ok raw end).

(** The contingency after a failed upgrade. *)
Definition reupload (raw : list byte) (w : W) : W * option error :=
  let w := (f_Remove (R := ByteReader) w config_handle).1 in
  let '((w, _), err) := f_Save w config_handle (NewByteReader raw None) in (w, err).

Definition Apply (w : W) (s : os) : (W * os) * option apply_error :=
  match MkdirTemp TempDir "restic-migrate-upgrade-repo-v2-" s with
  | (s, Err e) => ((w, s), Some (Early (ErrWrap e "create temp dir failed")))
  | (s, Panic p) => ((w, s), Some (Early (ErrMsg p)))
  | (s, Ok tempdir) =>
      match load_raw w with
      | (w, Err e) => ((w, s), Some (Early e))
      | (w, Panic p) => ((w, s), Some (Early (ErrMsg p)))
      | (w, Ok rawConfigFile) =>
          let backupFileName := path_Join [tempdir; "config"] in
          match WriteFile backupFileName rawConfigFile s with
          | (s, Some e) => ((w, s), Some (Early (ErrWrap e "write config file backup to %v failed")))
          | (s, None) =>
              match upgrade w with
              | (w, Some e) =>
                  let '(w, err) := reupload rawConfigFile w in
                  ((w, s), Some (Upgrade (mkUpgradeError e err backupFileName)))
              | (w, None) =>
                  let s := (Os.Remove backupFileName s).1 in
                  let s := (Os.Remove tempdir s).1 in
                  ((w, s), None)
              end
          end
      end
  end.
End Upgrade.

(** * The config is never lost *)

(** What the migration relies on: a [Load] that succeeds ran its callback last on the
    whole file, and changes nothing; [SaveConfig] touches only the config, and when it
    succeeds the config is there. *)
Class UpgradeLaws (W : Type) `{!Flaky W ByteReader} `{!FlakyLaws W ByteReader} `{!ConfigRepo W} (encodes : UpgradeConfig -> list byte -> Prop) : Prop := {
  law_f_Load : forall (St : Type) w h length_ offset (cb : St -> list byte -> St * option error) st w' st' e,
    f_Load (R := ByteReader) St w h length_ offset cb st = ((w', st'), e) ->
    f_files w' = f_files w /\
    (e = None -> exists f st0, f_files w !! canon h = Some f /\ cb st0 (cut f length_ offset) = (st', None));
  law_SaveConfig : forall w cfg w' e, SaveConfig w cfg = (w', e) ->
    delete config_handle (f_files w') = delete config_handle (f_files w) /\
    (e = None -> exists f, f_files w' !! config_handle = Some f /\ encodes cfg f);
  law_Remove_Config : forall w w' h e, f_Remove (R := ByteReader) w h = (w', e) -> repo_Config w' = repo_Config w }.

Section Facts.
Context {W : Type} `{!Flaky W ByteReader} `{!FlakyLaws W ByteReader} `{!ConfigRepo W} (encodes : UpgradeConfig -> list byte -> Prop) `{!UpgradeLaws W encodes} `{TempNamesLaws} (TempDir : string).

Lemma upgrade_spec w w' e :
  upgrade w = (w', e) ->
  delete config_handle (f_files w') = delete config_handle (f_files w) /\
  (e = None -> exists f, f_files w' !! config_handle = Some f /\ encodes (mkUpgradeConfig 2 (uc_ID (repo_Config w)) (uc_ChunkerPolynomial (repo_Config w))) f).
Proof using encodes UpgradeLaws0.
  unfold upgrade. destruct (if negb f_HasAtomicReplace then _ else _) as [w1 err] eqn:E1.
  assert (delete config_handle (f_files w1) = delete config_handle (f_files w) /\ repo_Config w1 = repo_Config w) as [Hd Hc].
  { destruct (negb f_HasAtomicReplace); [|by injection E1 as <- _]. split; [by apply flaky_Remove in E1|by apply law_Remove_Config in E1]. }
  destruct err as [err|]; [by intros [= <- <-]|]. rewrite Hc. destruct (SaveConfig w1 _) as [w2 err] eqn:E2. apply law_SaveConfig in E2 as [Hd2 Hs]. rewrite Hd in Hd2. destruct err as [err|]; by intros [= <- <-].
Qed.

Lemma reupload_spec raw w w' e :
  reupload raw w = (w', e) ->
  delete config_handle (f_files w') = delete config_handle (f_files w) /\ (e = None -> f_files w' !! config_handle = Some raw).
Proof using Type.
  unfold reupload. destruct (f_Remove w config_handle) as [w1 e1] eqn:E1. apply flaky_Remove in E1. cbn [fst]. destruct (f_Save w1 config_handle _) as [[w2 rd] e2] eqn:E2. apply flaky_Save in E2 as [_ Hf]. intros [= <- <-].
  change (canon config_handle) with config_handle in *. destruct e2 as [e2|]; [split; [by rewrite Hf|done]|]. rewrite Hf, delete_insert_eq. split; [done|]. intros _. by rewrite lookup_insert_eq.
Qed.

Lemma MkdirTemp_files dir pattern s s' r : MkdirTemp dir pattern s = (s', r) -> has_slash pattern = false -> same_files s s' /\ (forall p, r <> Panic p).
Proof using All.
  unfold MkdirTemp. destruct (next_fault s) as [f s1] eqn:E. pose proof (next_fault_files _ _ _ E) as Hs. destruct f as [[e n]|]; [by intros [= <- <-]|].
  destruct (is_dir s1 dir); [|by intros [= <- <-]]. intros [= <- <-] Hp. split; [|done]. etransitivity; [exact Hs|]. split; [done|]. intros q ino. cbn. destruct (decide (q = temp_path s1 dir pattern)) as [->|Hne]; [|by rewrite lookup_insert_ne].
  rewrite lookup_insert_eq. split; [done|]. intros Hq. exfalso. assert (os_paths s1 !! temp_path s1 dir pattern = None) as Hn by (apply not_elem_of_dom; by apply temp_fresh). by rewrite Hn in Hq.
Qed.

(** C27. However the upgrade ends, the config is not lost and no other file of the backend is
    touched: without an error the backend has the config with version 2; when it fails
    early the backend is as it was; and when it fails later the backup that the error
    names holds the old config, and so does the backend if it could be uploaded again. *)
Theorem Apply_keeps_config w s w' s' r (Hw : os_wf s) :
  Apply TempDir w s = ((w', s'), r) ->
  delete config_handle (f_files w') = delete config_handle (f_files w) /\
  match r with
  | None => exists f cfg, f_files w' !! config_handle = Some f /\ encodes cfg f /\ uc_Version cfg = 2
  | Some (Early _) => f_files w' = f_files w
  | Some (Upgrade err) =>
      exists raw, f_files w !! config_handle = Some raw /\ file_content s' (BackupFilePath err) = Some raw /\
        (ReuploadOldConfigError err = None -> f_files w' !! config_handle = Some raw)
  end.
Proof using All.
  unfold Apply. destruct (MkdirTemp TempDir _ s) as [s1 [tempdir|e|p]] eqn:E1; [|by intros [= <- <- <-]|by intros [= <- <- <-]]. apply MkdirTemp_files in E1 as [Hs1 _]; [|done].
  destruct (load_raw w) as [w1 r1] eqn:E2. unfold load_raw in E2. destruct (f_Load _ w config_handle 0 0 _ []) as [[w2 raw] err] eqn:EL. apply law_f_Load in EL as [HfL HL]. injection E2 as <- <-.
  destruct err as [e|]; [intros [= <- <- <-]; by rewrite HfL|]. destruct (HL eq_refl) as (f & st0 & Hf & [= Hraw]). change (canon config_handle) with config_handle in Hf.
  assert (raw = f) as -> by (by rewrite <- Hraw). clear HL Hraw.
  destruct (WriteFile _ f s1) as [s2 [e|]] eqn:E3; [intros [= <- <- <-]; by rewrite HfL|]. apply WriteFile_spec in E3 as [Hw2 Hb]; [|by eapply same_wf]. specialize (Hb eq_refl).
  destruct (upgrade w2) as [w3 [e|]] eqn:E4; apply upgrade_spec in E4 as [Hd4 Hc4]; rewrite HfL in Hd4.
  - destruct (reupload f w3) as [w4 err] eqn:E5. apply reupload_spec in E5 as [Hd5 Hc5]. intros [= <- <- <-]. split; [by rewrite Hd5|]. exists f. by split_and!.
  - intros [= <- <- <-]. split; [done|]. destruct (Hc4 eq_refl) as (g & Hg & He). by eexists g, _.
Qed.
End Facts.

(** ** A witness: the new config cannot be saved, nor the old one again *)

Definition wit_encode (cfg : UpgradeConfig) : list byte := [byte_of_Z (uc_Version cfg)].
#[local] Instance wit_repo : ConfigRepo flaky_world := {|
  repo_Config w := mkUpgradeConfig 1 "id" 3;
  SaveConfig w cfg := let '((w, _), e) := flaky_save w config_handle (NewByteReader (wit_encode cfg) None) in (w, e) |}.

Lemma wit_upgrade_laws : UpgradeLaws flaky_world (fun cfg f => f = wit_encode cfg).
Proof.
  split; [| |by intros w w' h e [= <- <-]].
  - intros St w h length_ offset cb st w' st' e. cbn. destruct (w_files w !! canon h) as [f|] eqn:Ef; [|by intros [= <- <- <-]].
    destruct (cb st (cut f length_ offset)) as [st1 e1] eqn:Ec. intros [= <- <- <-]. split; [done|]. intros ->. by exists f, st.
  - intros w cfg w' e. cbn. unfold flaky_save. destruct (next_fails w); intros [= <- <-]; cbn; (split; [by rewrite delete_insert_eq|]); [done|]. intros _. exists (wit_encode cfg). by rewrite lookup_insert_eq.
Qed.

Definition old_config : list byte := ["o"%byte; "l"%byte; "d"%byte].
Definition wit_world (fails : list bool) : flaky_world := mkWorld {[ config_handle := old_config ]} fails.
Definition wit_os : os := mkOs {[ "/tmp" := Directory ]} ∅ [].
Definition wit_apply (fails : list bool) := Apply "/tmp" (wit_world fails) wit_os.

Example upgrade_works :
  let '((w, s), r) := wit_apply [] in w_files w !! config_handle = Some ["002"%byte] /\ r = None /\ os_data s = {[ 0%nat := old_config ]} /\ is_dir s "/tmp" = true.
Proof. by vm_compute. Qed.

Lemma wit_os_wf : os_wf wit_os.
Proof. intros p ino Hp. change (({[ "/tmp" := Directory ]} : gmap string entry) !! p = Some (Regular ino)) in Hp. by apply lookup_singleton_Some in Hp as [_ ?]. Qed.

Lemma Apply_keeps_config_witness :
  match wit_apply [false; true; false; true] with
  | ((_, s), Some (Upgrade err)) => exists raw, file_content s (BackupFilePath err) = Some raw /\ raw = old_config
  | _ => False
  end.
Proof.
  pose proof wit_upgrade_laws as Hlaws.
  assert (match (wit_apply [false; true; false; true]).2 with Some (Upgrade err) => is_Some (ReuploadOldConfigError err) | _ => False end) as Hk by (vm_compute; by eexists).
  destruct (wit_apply [false; true; false; true]) as [[w s] r] eqn:E. cbn in Hk.
  pose proof (Apply_keeps_config (fun cfg f => f = wit_encode cfg) "/tmp" _ wit_os w s r wit_os_wf E) as [_ H].
  destruct r as [[e|err]|]; [destruct Hk| |destruct Hk]. destruct H as (raw & Hraw & Hb & _). exists raw. split; [exact Hb|]. change (f_files (wit_world [false; true; false; true]) !! config_handle) with (Some old_config) in Hraw. by injection Hraw.
Defined.
