(* ===== verification/Options.v ===== *)
(** Extended options of the form key=value (src/internal/options/options.go).

    A struct is the list of its fields with their tags; [reflect] sets a field by its
    index.  [strings.ToLower] and the parsers of [strconv] and [time] are parameters; a
    Go map is a [gmap], and a loop over it visits its pairs in the order given. *)

From S2P Require Import Prelude Bytes GoString Snapshot.

#[local] Open Scope Z_scope.

(** [strings.Cut] at the first equals sign: what follows is empty without one. *)
Definition equals_sign : Ascii.ascii := Ascii.ascii_of_nat 61.
Fixpoint cut_at (c : Ascii.ascii) (s : string) : string * string :=
  match s with
  | EmptyString => ("", "")
  | String.String x s => if Ascii.eqb x c then ("", s) else let '(before, after) := cut_at c s in (String.String x before, after)
  end.

(** ** Listing *)

Record Help := mkHelp { hp_Namespace : string; hp_Name : string; hp_Text : string }.

Inductive FieldValue :=
  | VString (v : string)
  | VInt (v : Z)
  | VUint (v : Z)
  | VBool (v : bool)
  | VDuration (v : Z)
  | VOther (typename : string).

Record Field := mkField { fd_option : string; fd_help : string; fd_value : FieldValue }.

Definition listOptions (cfg : list Field) : list Help :=
  omap (fun f => if String.eqb (fd_option f) "" then None else Some (mkHelp "" (fd_option f) (fd_help f))) cfg.

Definition Less (a b : Help) : bool :=
  if String.eqb (hp_Namespace a) (hp_Namespace b) then String.ltb (hp_Name a) (hp_Name b) else String.ltb (hp_Namespace a) (hp_Namespace b).

Section Options.
Context (ToLower : string -> string) (ParseInt ParseUint : string -> outcome Z) (ParseBool : string -> outcome bool) (ParseDuration : string -> outcome Z).

Definition splitKeyValue (s : string) : string * string :=
  let '(key, value) := cut_at equals_sign s in (ToLower (TrimSpace key), TrimSpace value).

Fixpoint parse_opts (l : list string) (opts : gmap string string) : outcome (gmap string string) :=
  match l with
  | [] => Ok opts
  | opt :: l =>
      let '(key, value) := splitKeyValue opt in
      if String.eqb key "" then Err (ErrMsg "empty key is not a valid option")
      else if match opts !! key with Some v => negb (String.eqb v value) | None => false end then Err (ErrMsg "key %q present more than once")
      else parse_opts l (<[key := value]> opts)
  end.
Definition Parse (l : list string) : outcome (gmap string string) := parse_opts l ∅.

(** The namespace with its dot; an empty one panics. *)
Fixpoint ends_with_dot (s : string) : bool :=
  match s with EmptyString => false | String.String c EmptyString => is_code 46 c | String.String _ s => ends_with_dot s end.

Definition Extract (o : gmap string string) (ns : string) : outcome (gmap string string) :=
  if String.eqb ns "" then Panic "index out of range [-1]"
  else
    let ns := if ends_with_dot ns then ns else ns +:+ "." in
    Ok (list_to_map (omap (fun '(k, v) => if String.prefix ns k then Some (drop_bytes (String.length ns) k, v) else None) (map_to_list o))).

(** The fields with an option, by their tag. *)
Fixpoint tagged (i : nat) (fields : list Field) (m : gmap string nat) : outcome (gmap string nat) :=
  match fields with
  | [] => Ok m
  | f :: fields =>
      if String.eqb (fd_option f) "" then tagged (S i) fields m
      else if bool_decide (is_Some (m !! fd_option f)) then Panic "option tag is not unique"
      else tagged (S i) fields (<[fd_option f := i]> m)
  end.

(** The value of a field from its text. *)
Definition parse_value (old : FieldValue) (value : string) : outcome FieldValue :=
  match old with
  | VString _ => Ok (VString value)
  | VInt _ => VInt <$> ParseInt value
  | VUint _ => VUint <$> ParseUint value
  | VBool _ => VBool <$> ParseBool value
  | VDuration _ => VDuration <$> ParseDuration value
  | VOther _ => Panic "type not handled"
  end.

Fixpoint apply_opts (m : gmap string nat) (opts : list (string * string)) (dst : list Field) : list Field * outcome unit :=
  match opts with
  | [] => (dst, Ok tt)
  | (key, value) :: opts =>
      match m !! key ≫= fun i => (fun f => (i, f)) <$> dst !! i with
      | None => (dst, Err (ErrMsg "option %v is not known"))
      | Some (i, f) =>
          match parse_value (fd_value f) value with
          | Ok v => apply_opts m opts (<[i := mkField (fd_option f) (fd_help f) v]> dst)
          | Err e => (dst, Err e)
          | Panic p => (dst, Panic p)
          end
      end
  end.

Definition Apply_options (order : list (string * string)) (dst : list Field) : list Field * outcome unit :=
  match tagged 0 dst ∅ with
  | Ok m => apply_opts m order dst
  | Err e => (dst, Err e)
  | Panic p => (dst, Panic p)
  end.

(** * Parsing *)

Lemma parse_opts_spec l opts m :
  parse_opts l opts = Ok m <->
  (forall o, o ∈ l -> (splitKeyValue o).1 <> "" /\ m !! (splitKeyValue o).1 = Some (splitKeyValue o).2) /\
  opts ⊆ m /\ (forall k v, m !! k = Some v -> opts !! k = Some v \/ exists o, o ∈ l /\ splitKeyValue o = (k, v)).
Proof.
  revert opts. induction l as [|o l IH]; intros opts; cbn [parse_opts].
  - split.
    + intros [= <-]. split_and!; [by intros o Ho%elem_of_nil|done|by left].
    + intros (_ & Hsub & Hback). f_equal. apply map_eq. intros k. destruct (m !! k) as [v|] eqn:E.
      * destruct (Hback k v E) as [?|(o & Ho%elem_of_nil & _)]; done.
      * destruct (opts !! k) as [v|] eqn:E2; [|done]. apply (lookup_weaken _ _ _ _ E2) in Hsub. by rewrite Hsub in E.
  - destruct (splitKeyValue o) as [key value] eqn:Es. destruct (String.eqb_spec key "") as [->|Hk].
    { split; [done|]. intros (H & _). destruct (H o ltac:(by left)) as [Hn _]. by rewrite Es in Hn. }
    destruct (opts !! key) as [v|] eqn:Ek; [destruct (String.eqb_spec v value) as [->|Hv]|]; cbn [negb].
    + rewrite insert_id by done. rewrite IH. split; intros (H1 & H2 & H3); (split_and!; [|done|]).
      * intros o' [->|Ho]%elem_of_cons; [|by apply H1]. rewrite Es. split; [done|]. by eapply lookup_weaken.
      * intros k v Hm. destruct (H3 k v Hm) as [?|(o' & Ho & E)]; [by left|right; exists o'; split; [by right|done]].
      * intros o' Ho. apply H1. by right.
      * intros k v Hm. destruct (H3 k v Hm) as [?|(o' & [->|Ho]%elem_of_cons & E)]; [by left| |right; by exists o']. rewrite Es in E. injection E as <- <-. by left.
    + split; [done|]. intros (H1 & H2 & _). destruct (H1 o ltac:(by left)) as [_ Hm]. rewrite Es in Hm. cbn in Hm. apply (lookup_weaken _ _ _ _ Ek) in H2. rewrite H2 in Hm. by injection Hm.
    + rewrite IH. split; intros (H1 & H2 & H3); split_and!.
      * intros o' [->|Ho]%elem_of_cons; [|by apply H1]. rewrite Es. split; [done|]. eapply lookup_weaken; [|exact H2]. by rewrite lookup_insert_eq.
      * etransitivity; [|exact H2]. by apply insert_subseteq.
      * intros k v Hm. destruct (H3 k v Hm) as [Hi|(o' & Ho & E)]; [|right; exists o'; split; [by right|done]].
        apply lookup_insert_Some in Hi as [[<- <-]|[_ ?]]; [right; exists o; split; [by left|done]|by left].
      * intros o' Ho. apply H1. by right.
      * destruct (H1 o ltac:(by left)) as [_ Hm]. rewrite Es in Hm. by apply insert_subseteq_l.
      * intros k v Hm. destruct (H3 k v Hm) as [Ho|(o' & [->|Ho]%elem_of_cons & E)]; [| |right; by exists o'].
        -- left. rewrite lookup_insert_ne; [done|]. intros ->. by rewrite Ek in Ho.
        -- rewrite Es in E. injection E as <- <-. left. by rewrite lookup_insert_eq.
Qed.

(** [Parse] accepts the options whose keys are not empty and have one value each, and
    yields these pairs. *)
Theorem Parse_spec l m :
  Parse l = Ok m <->
  (forall o, o ∈ l -> (splitKeyValue o).1 <> "") /\ (forall k v, m !! k = Some v <-> exists o, o ∈ l /\ splitKeyValue o = (k, v)).
Proof.
  unfold Parse. rewrite parse_opts_spec. split.
  - intros (H1 & _ & H3). split; [intros o Ho; by apply H1|]. intros k v. split.
    + intros Hm. destruct (H3 k v Hm) as [?|?]; [by rewrite lookup_empty in H|done].
    + intros (o & Ho & E). destruct (H1 o Ho) as [_ Hm]. by rewrite E in Hm.
  - intros (H1 & H2). split_and!; [|apply map_empty_subseteq|].
    + intros o Ho. split; [by apply H1|]. apply H2. exists o. split; [done|]. by destruct (splitKeyValue o).
    + intros k v Hm. right. by apply H2.
Qed.

(** The order of the options does not matter. *)
Lemma Parse_perm l l' m : l ≡ₚ l' -> Parse l = Ok m -> Parse l' = Ok m.
Proof. intros Hp. rewrite !Parse_spec. intros (H1 & H2). split; [intros o; rewrite <- Hp; apply H1|]. intros k v. rewrite H2. by setoid_rewrite Hp. Qed.

(** * Applying *)

Lemma tagged_spec i fields m0 m :
  tagged i fields m0 = Ok m -> (forall tag j, m0 !! tag = Some j -> (j < i)%nat) ->
  forall tag j, m !! tag = Some j <-> m0 !! tag = Some j \/ ((i <= j)%nat /\ tag <> "" /\ exists f, fields !! (j - i)%nat = Some f /\ fd_option f = tag).
Proof.
  revert i m0. induction fields as [|f fields IH]; intros i m0; cbn [tagged].
  { intros [= <-] _ tag j. split; [by left|]. intros [?|(_ & _ & f & Hf & _)]; [done|]. by rewrite lookup_nil in Hf. }
  destruct (String.eqb_spec (fd_option f) "") as [Ef|Ef].
  - intros Ht Hlt tag j. rewrite (IH (S i) m0 Ht) by (intros tag' j' H'; apply Hlt in H'; lia). split; (intros [?|(Hj & Htag & g & Hg & Eg)]; [by left|right]).
    + split_and!; [lia|done|]. exists g. split; [|done]. by replace (j - i)%nat with (S (j - S i))%nat by lia.
    + destruct (decide (j = i)) as [->|Hne]; [rewrite Nat.sub_diag in Hg; injection Hg as <-; by rewrite Ef in Eg|]. split_and!; [lia|done|]. exists g. split; [|done].
      by replace (j - i)%nat with (S (j - S i))%nat in Hg by lia.
  - case_bool_decide as Hs; [done|]. intros Ht Hlt tag j. rewrite (IH (S i) _ Ht).
    2:{ intros tag' j' [[_ <-]|[_ H']]%lookup_insert_Some; [lia|]. apply Hlt in H'. lia. }
    rewrite lookup_insert_Some. split.
    + intros [[[<- <-]|[_ ?]]|(Hj & Htag & g & Hg & Eg)]; [right|by left|right].
      * split_and!; [done|done|]. exists f. by rewrite Nat.sub_diag.
      * split_and!; [lia|done|]. exists g. split; [|done]. by replace (j - i)%nat with (S (j - S i))%nat by lia.
    + intros [Hm|(Hj & Htag & g & Hg & Eg)].
      * left. right. split; [|done]. intros <-. apply Hs. by rewrite Hm.
      * destruct (decide (j = i)) as [->|Hne]; [rewrite Nat.sub_diag in Hg; injection Hg as <-; left; by left|]. right. split_and!; [lia|done|]. exists g. split; [|done].
        by replace (j - i)%nat with (S (j - S i))%nat in Hg by lia.
Qed.

(** What [Apply] has done to the field [f]. *)
Definition applied (order : list (string * string)) (f f' : Field) : Prop :=
  fd_option f' = fd_option f /\ fd_help f' = fd_help f /\
  (forall v, fd_option f <> "" -> (fd_option f, v) ∈ order -> parse_value (fd_value f) v = Ok (fd_value f')) /\
  ((fd_option f = "" \/ fd_option f ∉ order.*1) -> f' = f).

Lemma apply_opts_spec (m : gmap string nat) dst0 order dst dst' :
  (forall tag j, m !! tag = Some j <-> tag <> "" /\ exists f, dst0 !! j = Some f /\ fd_option f = tag) ->
  (fd_option <$> dst) = (fd_option <$> dst0) -> NoDup order.*1 ->
  apply_opts m order dst = (dst', Ok tt) ->
  Forall2 (applied order) dst dst'.
Proof.
  intros Hm. revert dst. induction order as [|[key value] order IH]; intros dst Htags Hnd; cbn [apply_opts].
  { intros [= <-]. apply Forall2_same_length_lookup_2; [done|]. intros i f f' H1 H2. rewrite H1 in H2. injection H2 as <-. split_and!; [done|done| |done]. by intros v _ Hv%elem_of_nil. }
  cbn [fmap list_fmap fst] in Hnd. apply NoDup_cons in Hnd as [Hkey Hnd]. destruct (m !! key) as [i|] eqn:Ei; cbn [mbind option_bind]; [|done]. destruct (dst !! i) as [f|] eqn:Ef; cbn [fmap option_fmap option_map]; [|done].
  destruct (proj1 (Hm key i) Ei) as (Hne & f0 & Hf0 & Ekey). assert (fd_option f = key) as Efk.
  { apply (f_equal (.!! i)) in Htags. rewrite !list_lookup_fmap, Ef, Hf0 in Htags. cbn in Htags. injection Htags as ->. done. }
  destruct (parse_value (fd_value f) value) as [v|e|p] eqn:Ep; [|done..]. intros Hrest. set (f1 := mkField (fd_option f) (fd_help f) v) in *.
  apply IH in Hrest; [|by rewrite list_fmap_insert, Htags; apply list_insert_id; rewrite list_lookup_fmap, Hf0; cbn; rewrite Ekey, Efk|done].
  apply Forall2_same_length_lookup in Hrest as [Hlen Hall]. rewrite length_insert in Hlen. apply Forall2_same_length_lookup_2; [done|]. intros j g g' Hg Hg'.
  destruct (decide (j = i)) as [->|Hji].
  - rewrite Ef in Hg. injection Hg as <-. destruct (Hall i f1 g') as (H1 & H2 & H3 & H4); [by apply list_lookup_insert_eq; eapply lookup_lt_Some|done|]. cbn in H1, H2, H3, H4. rewrite Efk in *.
    assert (g' = f1) as -> by (apply H4; by right). split_and!; [by rewrite Efk|done| |].
    + rewrite Efk. intros w _ [E|Hin]%elem_of_cons; [injection E as ->; by rewrite Ep|]. exfalso. apply Hkey. apply list_elem_of_fmap. by exists (key, w).
    + rewrite Efk. intros [?|Hn]; [done|]. exfalso. apply Hn. by left.
  - destruct (Hall j g g') as (H1 & H2 & H3 & H4); [by rewrite list_lookup_insert_ne|done|]. split_and!; [done|done| |].
    + intros w Hgn [E|Hin]%elem_of_cons; [|by apply H3]. injection E as Egk ->. exfalso. apply Hji.
      assert (m !! key = Some j) as Hj; [|rewrite Ei in Hj; by injection Hj]. apply Hm. split; [done|].
      apply (f_equal (.!! j)) in Htags. rewrite !list_lookup_fmap, Hg in Htags. cbn in Htags. destruct (dst0 !! j) as [g0|] eqn:E0; [|done]. exists g0. split; [done|]. cbn in Htags. injection Htags as <-. done.
    + intros Hn. apply H4. destruct Hn as [?|Hn]; [by left|right]. intros Hin. apply Hn. by right.
Qed.

(** When [Apply] succeeds every field whose option is given has its value, and all others
    are as they were, whatever the order in which the map is visited. *)
Theorem Apply_sets order dst dst' :
  NoDup order.*1 -> Apply_options order dst = (dst', Ok tt) -> Forall2 (applied order) dst dst'.
Proof.
  intros Hnd. unfold Apply_options. destruct (tagged 0 dst ∅) as [m|e|p] eqn:Et; [|done..]. apply apply_opts_spec with (dst0 := dst); [|done|done].
  intros tag j. rewrite (tagged_spec _ _ _ _ Et) by (intros tag' j'; by rewrite lookup_empty). rewrite lookup_empty, Nat.sub_0_r. split; [by intros [?|(_ & ? & ?)]|]. intros [? ?]. right. split_and!; [lia|done|done].
Qed.
End Options.

(** The options of the local backend. *)
Definition local_fields : list Field := [mkField "" "" (VString "/repo"); mkField "layout" "use this backend directory layout (default: auto-detect)" (VString ""); mkField "connections" "" (VUint 2)].
Example apply_local :
  let parse := fun s => if String.eqb s "5" then Ok 5 else Err (ErrMsg "invalid syntax") in
  let apply opts := Apply_options parse parse (fun _ => Ok true) parse opts local_fields in
  (fd_value <$> (apply [("connections", "5"); ("layout", "default")]).1) = [VString "/repo"; VString "default"; VUint 5] /\
  (apply [("connections", "x")]).2 = Err (ErrMsg "invalid syntax") /\ (apply [("path", "x")]).2 = Err (ErrMsg "option %v is not known") /\
  map_to_list <$> Parse id ["a=b=c"; " a = b=c "] = Ok [("a", "b=c")] /\ Parse id ["a=1"; "a=2"] = Err (ErrMsg "key %q present more than once") /\
  map_to_list <$> (try o <- Parse id ["local.layout = default"; "s3.x=1"]; Extract o "local") = Ok [("layout", "default")].
Proof. by vm_compute. Qed.
