(* ===== verification/ShellSplit.v ===== *)
(** Splitting a command into its arguments (src/backend/shell_split.go).

    A rune is its code point; the loop over a string decodes UTF-8.  Between the start of
    a field and the current position the model keeps the bytes of the field. *)

From S2P Require Import Prelude Bytes GoString.

#[local] Open Scope Z_scope.

(** [unicode.IsSpace]. *)
Definition IsSpace (r : Z) : bool :=
  ((9 <=? r) && (r <=? 13)) || (r =? 32) || (r =? 133) || (r =? 160) || (r =? 5760) || ((8192 <=? r) && (r <=? 8202)) ||
  (r =? 8232) || (r =? 8233) || (r =? 8239) || (r =? 8287) || (r =? 12288).

Definition backslash : Z := 92.
Definition single_quote : Z := 39.
Definition double_quote : Z := 34.

Record shellSplitter := mkSplitter { quote : Z; lastChar : Z }.

Definition isSplitChar (s : shellSplitter) (c : Z) : shellSplitter * bool :=
  if negb (lastChar s =? backslash) && negb (quote s =? 0) && (c =? quote s) then (mkSplitter 0 (lastChar s), true)
  else if negb (lastChar s =? backslash) && (quote s =? 0) && ((c =? double_quote) || (c =? single_quote)) then (mkSplitter c (lastChar s), true)
  else
    let s := mkSplitter (quote s) c in
    if negb (quote s =? 0) then (s, false) else (s, (c =? backslash) || IsSpace c).

(** The loop: [field] is the field that was started. *)
Fixpoint split_loop (fuel : nat) (s : shellSplitter) (data : string) (field : option string) (strs : list string) : shellSplitter * list string :=
  match fuel, data with
  | _, EmptyString | O, _ => (s, match field with Some f => strs ++ [f] | None => strs end)
  | S fuel, _ =>
      let '(r, n) := decode_rune data in
      let chunk := take_bytes n data in
      let rest := drop_bytes n data in
      let '(s, split) := isSplitChar s r in
      if split then split_loop fuel s rest None (match field with Some f => strs ++ [f] | None => strs end)
      else split_loop fuel s rest (Some (match field with Some f => f +:+ chunk | None => chunk end)) strs
  end.

Definition SplitShellStrings (data : string) : outcome (list string) :=
  let '(s, strs) := split_loop (String.length data) (mkSplitter 0 0) data None [] in
  if quote s =? single_quote then Err (ErrMsg "single-quoted string not terminated")
  else if quote s =? double_quote then Err (ErrMsg "double-quoted string not terminated")
  else match strs with [] => Err (ErrMsg "command string is empty") | _ => Ok strs end.

(** The fuel is enough: every round consumes a rune. *)
Lemma split_loop_fuel fuel fuel' s data field strs :
  (String.length data <= fuel)%nat -> (String.length data <= fuel')%nat -> split_loop fuel s data field strs = split_loop fuel' s data field strs.
Proof.
  revert fuel' s data field strs. induction fuel as [|fuel IH]; intros fuel' s data field strs H1 H2; [destruct data; [by destruct fuel'|cbn in H1; lia]|].
  destruct data as [|c data]; [by destruct fuel'|]. destruct fuel' as [|fuel']; [cbn in H2; lia|]. cbn [split_loop]. pose proof (decode_rune_width (String.String c data)) as Hw.
  destruct (decode_rune (String.String c data)) as [r n]. cbn [snd] in Hw. destruct n as [|n]; [lia|]. cbn [drop_bytes].
  assert (String.length (drop_bytes n data) <= String.length data)%nat as Hd by (rewrite length_drop_bytes; lia). cbn in H1, H2.
  destruct (isSplitChar s r) as [s' []]; apply IH; lia.
Qed.

(** * Quoted arguments come back *)

(** A character that single quotes keep. *)
Definition quotable (c : Ascii.ascii) : bool := (code c <? 128) && negb (code c =? backslash) && negb (code c =? single_quote).
Fixpoint all_quotable (s : string) : bool := match s with EmptyString => true | String.String c s => quotable c && all_quotable s end.

Definition quoted (a : string) : string := String.String (Ascii.ascii_of_nat 39) (a +:+ String.String (Ascii.ascii_of_nat 39) "").

Lemma code_pos c : 0 <= code c.
Proof. unfold code. lia. Qed.

Lemma split_loop_ascii fuel s c data field strs :
  (code c <? 128) = true ->
  split_loop (S fuel) s (String.String c data) field strs =
  (let '(s, split) := isSplitChar s (code c) in
   if split then split_loop fuel s data None (match field with Some f => strs ++ [f] | None => strs end)
   else split_loop fuel s data (Some (match field with Some f => f +:+ String.String c "" | None => String.String c "" end)) strs).
Proof. intros Hc. cbn [split_loop]. unfold decode_rune. rewrite Hc. cbn [take_bytes drop_bytes]. done. Qed.

(** Inside the quotes. *)
Lemma split_loop_quoted a : forall fuel l rest f strs,
  all_quotable a = true -> l <> backslash ->
  exists l', l' <> backslash /\
  split_loop (String.length a + S fuel) (mkSplitter single_quote l) (a +:+ String.String (Ascii.ascii_of_nat 39) rest) (Some f) strs =
  split_loop fuel (mkSplitter 0 l') rest None (strs ++ [f +:+ a]).
Proof.
  induction a as [|c a IH]; intros fuel l rest f strs Ha Hl.
  - exists l. split; [done|]. change ("" +:+ ?x) with x. cbn [String.length Nat.add]. rewrite split_loop_ascii by done. unfold isSplitChar. cbn [lastChar quote].
    assert ((l =? backslash) = false) as -> by (by apply Z.eqb_neq). cbn. by rewrite string_app_nil_r.
  - cbn [all_quotable] in Ha. apply andb_true_iff in Ha as [Hc Ha]. unfold quotable in Hc. apply andb_true_iff in Hc as [[H1 H2%negb_true_iff]%andb_true_iff H3%negb_true_iff].
    destruct (IH fuel (code c) rest (f +:+ String.String c "") strs Ha) as (l' & Hl' & E); [by apply Z.eqb_neq|]. exists l'. split; [done|].
    change (String.String c a +:+ ?x) with (String.String c (a +:+ x)). cbn [String.length Nat.add]. rewrite split_loop_ascii by done. unfold isSplitChar. cbn [lastChar quote].
    assert ((l =? backslash) = false) as -> by (by apply Z.eqb_neq). rewrite H3. cbn [negb andb Z.eqb single_quote Pos.eqb]. cbn iota beta. cbn [quote]. change (single_quote =? 0) with false. cbn [negb].
    rewrite E. f_equal. f_equal. by rewrite string_app_assoc.
Qed.

(** A quoted argument that is not empty. *)
Lemma split_loop_argument a fuel l rest strs :
  a <> "" -> all_quotable a = true -> l <> backslash ->
  exists l', l' <> backslash /\
  split_loop (String.length (quoted a) + fuel) (mkSplitter 0 l) (quoted a +:+ rest) None strs = split_loop fuel (mkSplitter 0 l') rest None (strs ++ [a]).
Proof.
  intros Hne Ha Hl. destruct a as [|c a]; [done|]. cbn [all_quotable] in Ha. apply andb_true_iff in Ha as [Hc Ha]. unfold quotable in Hc. apply andb_true_iff in Hc as [[H1 H2%negb_true_iff]%andb_true_iff H3%negb_true_iff].
  destruct (split_loop_quoted a fuel (code c) rest (String.String c "") strs Ha) as (l' & Hl' & E); [by apply Z.eqb_neq|]. exists l'. split; [done|].
  assert (String.length (quoted (String.String c a)) + fuel = S (S (String.length a + S fuel)))%nat as ->.
  { unfold quoted. cbn [String.length]. rewrite string_length_app. cbn [String.length]. lia. }
  change (quoted (String.String c a) +:+ rest) with (String.String (Ascii.ascii_of_nat 39) (String.String c ((a +:+ String.String (Ascii.ascii_of_nat 39) "") +:+ rest))).
  rewrite split_loop_ascii by done. unfold isSplitChar at 1. cbn [lastChar quote]. assert ((l =? backslash) = false) as Hlb by (by apply Z.eqb_neq). rewrite Hlb. cbn [negb andb].
  change (code (Ascii.ascii_of_nat 39)) with single_quote. change (0 =? 0) with true. change ((single_quote =? double_quote) || (single_quote =? single_quote)) with true. cbn [negb andb].
  rewrite split_loop_ascii by done. unfold isSplitChar. cbn [lastChar quote]. rewrite Hlb, H3. change (single_quote =? 0) with false. cbn [negb andb quote]. change (single_quote =? 0) with false. cbn [negb].
  rewrite string_app_assoc. change (String.String (Ascii.ascii_of_nat 39) "" +:+ rest) with (String.String (Ascii.ascii_of_nat 39) rest). exact E.
Qed.

(** Arguments in single quotes, with spaces between, are split into these arguments:
    words of ASCII characters without backslash and single quote. *)
Theorem SplitShellStrings_quoted args :
  args <> [] -> Forall (fun a => a <> "" /\ all_quotable a = true) args -> SplitShellStrings (strings_Join " " (quoted <$> args)) = Ok args.
Proof.
  intros Hne Hargs. assert (forall l strs, l <> backslash -> exists l', split_loop (String.length (strings_Join " " (quoted <$> args))) (mkSplitter 0 l) (strings_Join " " (quoted <$> args)) None strs = (mkSplitter 0 l', strs ++ args)) as H.
  { induction Hargs as [|a args [Ha Hq] Hargs IH]; [done|]. intros l strs Hl. destruct args as [|b args].
    - change (strings_Join " " (quoted <$> [a])) with (quoted a). destruct (split_loop_argument a 0 l "" strs Ha Hq Hl) as (l' & Hl' & E).
      rewrite Nat.add_0_r, string_app_nil_r in E. rewrite E. by exists l'.
    - change (strings_Join " " (quoted <$> a :: b :: args)) with (quoted a +:+ String.String (Ascii.ascii_of_nat 32) (strings_Join " " (quoted <$> b :: args))). set (rest := strings_Join " " (quoted <$> b :: args)) in *.
      rewrite string_length_app. cbn [String.length]. destruct (split_loop_argument a (S (String.length rest)) l (String.String (Ascii.ascii_of_nat 32) rest) strs Ha Hq Hl) as (l' & Hl' & E). rewrite E.
      rewrite split_loop_ascii by done. unfold isSplitChar. cbn [lastChar quote]. rewrite (proj2 (Z.eqb_neq _ _) Hl'). change (code (Ascii.ascii_of_nat 32)) with 32. cbn [negb andb orb Z.eqb single_quote double_quote quote]. change (32 =? backslash) with false. change (IsSpace 32) with true. cbn [orb].
      destruct (IH ltac:(done) 32 (strs ++ [a])) as (l2 & E2); [done|]. exists l2. etransitivity; [exact E2|by rewrite <- app_assoc]. }
  unfold SplitShellStrings. destruct (H 0 [] ltac:(done)) as (l' & ->). cbn. by destruct args.
Qed.

Example split_tests :
  SplitShellStrings "foo bar baz" = Ok ["foo"; "bar"; "baz"] /\ SplitShellStrings "foo'" = Err (ErrMsg "single-quoted string not terminated") /\
  SplitShellStrings "" = Err (ErrMsg "command string is empty") /\ SplitShellStrings "'bar box' baz" = Ok ["bar box"; "baz"] /\
  SplitShellStrings "--opt='a b'" = Ok ["--opt="; "a b"] /\ SplitShellStrings "cmd '' x" = Ok ["cmd"; "x"].
Proof. by vm_compute. Qed.
