(* ===== verification/Facade.v ===== *)
(** Opening a repository from its location (src/rapi.go, src/backend/location/,
    src/internal/textfile/read.go).

    The configurations of the backends and how to open one are parameters, with the
    fields that options set; wrapping a backend for logging, limits and retries does not
    change what it does here (Sema, Retry).  Warnings are collected. *)

From S2P Require Import Prelude Bytes GoString GoTime Restic Snapshot Crypto Backend Repository Keys Os OsFiles LocalBackend Cache CacheDir Options.

#[local] Open Scope Z_scope.

(** * Locations *)

Definition colon : Ascii.ascii := Ascii.ascii_of_nat 58.
Definition extractScheme (s : string) : string := (cut_at colon s).1.
Fixpoint ContainsRune (s : string) (c : Ascii.ascii) : bool := match s with EmptyString => false | String.String x s => Ascii.eqb x c || ContainsRune s c end.

Definition one_of (l : list nat) (c : Ascii.ascii) : bool := existsb (Nat.eqb (Ascii.nat_of_ascii c)) l.
Definition letter (c : Ascii.ascii) : bool := let n := Ascii.nat_of_ascii c in (Nat.leb 97 n && Nat.leb n 122) || (Nat.leb 65 n && Nat.leb n 90).
Definition backslash_char : string := String.String (Ascii.ascii_of_nat 92) "".

Definition isPath (s : string) : bool :=
  if String.prefix "../" s || String.prefix (".." +:+ backslash_char) s then true
  else if String.prefix "/" s || String.prefix backslash_char s then true
  else match s with
       | String.String drive (String.String c1 (String.String c2 _)) =>
           if negb (letter drive) then false else if negb (Ascii.eqb c1 colon) then false else one_of [92; 47]%nat c2
       | _ => false
       end.

Section Location.
Context {C B : Type}.

Record Factory := mkFactory {
  fc_Scheme : string;
  fc_ParseConfig : string -> outcome C;
  fc_StripPassword : string -> outcome string;
  fc_Open : C -> outcome B }.

Definition Registry : Type := gmap string Factory.
Definition NewRegistry : Registry := ∅.
Definition Register (r : Registry) (f : Factory) : outcome Registry :=
  match r !! fc_Scheme f with Some _ => Panic "duplicate backend" | None => Ok (<[fc_Scheme f := f]> r) end.
Definition Lookup (r : Registry) (scheme : string) : option Factory := r !! scheme.

Record Location := mkLocation { lc_Scheme : string; lc_Config : C }.

Definition Parse (registry : Registry) (s : string) : outcome Location :=
  let scheme := extractScheme s in
  match Lookup registry scheme with
  | Some factory => try config <- fc_ParseConfig factory s; Ok (mkLocation scheme config)
  | None =>
      if negb (isPath s) && ContainsRune s colon then Err (ErrMsg "invalid backend")
      else
        match Lookup registry "local" with
        | None => Err (ErrMsg "local backend not available")
        | Some factory => try config <- fc_ParseConfig factory ("local:" +:+ s); Ok (mkLocation "local" config)
        end
  end.

Definition StripPassword (registry : Registry) (s : string) : outcome string :=
  match Lookup registry (extractScheme s) with Some factory => fc_StripPassword factory s | None => Ok s end.
End Location.
Arguments Registry : clear implicits.
Arguments Location : clear implicits.

(** * Text files *)

Definition bomUTF8 : list byte := byte_of_Z <$> [239; 187; 191].
Definition bomUTF16BigEndian : list byte := byte_of_Z <$> [254; 255].
Definition bomUTF16LittleEndian : list byte := byte_of_Z <$> [255; 254].
Definition HasPrefix (data p : list byte) : bool := bool_decide (take (length p) data = p).

(** [utf16] is the decoder of golang.org/x/text. *)
Definition Decode (utf16 : list byte -> outcome (list byte)) (data : list byte) : outcome (list byte) :=
  if HasPrefix data bomUTF8 then Ok (drop (length bomUTF8) data)
  else if negb (HasPrefix data bomUTF16BigEndian) && negb (HasPrefix data bomUTF16LittleEndian) then Ok data
  else utf16 data.

Definition Read (utf16 : list byte -> outcome (list byte)) (filename : string) (s : os) : os * outcome (list byte) :=
  match ReadFile filename s with
  | (s, Ok data) => (s, Decode utf16 data)
  | r => r
  end.

(** * Opening *)

Record RepositoryOptions := mkRepositoryOptions {
  ro_Repo : string;
  ro_RepositoryFile : string;
  ro_KeyHint : string;
  ro_CacheDir : string;
  ro_NoCache : bool;
  ro_CleanupCache : bool;
  ro_Compression : CompressionMode;
  ro_PackSize : Z;
  ro_Password : string;
  ro_Extended : gmap string string }.

Definition ReadRepo (utf16 : list byte -> outcome (list byte)) (opts : RepositoryOptions) (s : os) : os * outcome string :=
  if String.eqb (ro_Repo opts) "" && String.eqb (ro_RepositoryFile opts) "" then (s, Err (ErrMsg "Please specify repository location (-r or --repository-file)"))
  else if String.eqb (ro_RepositoryFile opts) "" then (s, Ok (ro_Repo opts))
  else if negb (String.eqb (ro_Repo opts) "") then (s, Err (ErrMsg "Options -r and --repository-file are mutually exclusive, please specify only one"))
  else
    match Read utf16 (ro_RepositoryFile opts) s with
    | (s, Ok data) => (s, Ok (TrimSpace (String.string_of_list_byte data)))
    | (s, Err e) => (s, Err (if os_error_Is e ErrNotExist then ErrMsg "%s does not exist" else e))
    | (s, Panic p) => (s, Panic p)
    end.

Section Open.
Context {C B : Type} `{Backend.Backend B}.
Context (aes_Encrypt : list byte -> list byte -> list byte) (poly1305_Verify : list byte -> list byte -> list byte -> bool) (Hash : list byte -> ID).
Context (params_Check : Params -> outcome unit) (scrypt_Key : string -> list byte -> Params -> Z -> outcome (list byte)).
Context (json_UnmarshalKey : list byte -> outcome jsonKey) (json_Fields : list byte -> outcome (list byte * list byte)).
Context (json_UnmarshalMAC : list byte -> outcome jsonMACKey) (json_UnmarshalBytes : list byte -> outcome (list byte)).
Context (zstd_DecodeAll : list byte -> outcome (list byte)) (json_UnmarshalConfig : list byte -> outcome fullConfig) (Pol_Irreducible : Z -> bool).

(** The environment: decoders and parsers, the fields of a configuration, the fields that
    [ApplyEnvironment] sets, the directories of the user and the clock. *)
Context (utf16 : list byte -> outcome (list byte)) (ParseInt ParseUint : string -> outcome Z) (ParseBool : string -> outcome bool) (ParseDuration : string -> outcome Z).
Context (ApplyEnvironment : C -> C) (fields : C -> list Field) (with_fields : C -> list Field -> C).
Context (EnvDir : string) (UserCacheDir : outcome string) (layout_order : list string) (ModTime : string -> Time) (Now : Time).
Context (backends : Registry C B) (zero_key : Crypto.Key).

Definition parseConfig (loc : Location C) (o : gmap string string) : outcome C :=
  let cfg := ApplyEnvironment (lc_Config loc) in
  try o <- Extract o (lc_Scheme loc);
  let '(dst, r) := Apply_options ParseInt ParseUint ParseBool ParseDuration (map_to_list o) (fields cfg) in
  try _ <- r;
  Ok (with_fields cfg dst).

(** The location is logged first, without its password. *)
Definition open_backend (location : string) (opts : gmap string string) : outcome B :=
  try _ <- StripPassword backends location;
  match Parse backends location with
  | Err e => Err (ErrMsg "parsing repository location failed: %v")
  | Panic p => Panic p
  | Ok loc =>
      try cfg <- parseConfig loc opts;
      match Lookup backends (lc_Scheme loc) with
      | None => Err (ErrMsg "invalid backend: %q")
      | Some factory =>
          match fc_Open factory cfg with
          | Err e => Err (ErrMsg "unable to open repository at %v: %v")
          | Panic p => Panic p
          | Ok be =>
              match be_Stat be (mkHandle ConfigFile false "") with
              | Err e => Err (ErrMsg "unable to open config file: %v")
              | Panic p => Panic p
              | Ok fi => if fi_Size fi =? 0 then Err (ErrMsg "config file has zero size, invalid repository?") else Ok be
              end
          end
      end
  end.

Definition maxKeys : Z := 20.

(** Removing the old caches: errors are warnings. *)
Fixpoint cleanup (dirs : list string) (s : os) (warnings : list string) : os * list string :=
  match dirs with
  | [] => (s, warnings)
  | d :: dirs =>
      let '(s, err) := RemoveAll d s in
      cleanup dirs s (match err with Some _ => warnings ++ ["unable to remove %v: %v"] | None => warnings end)
  end.

(** The part of [OpenRepository] that sets up the cache: the cache to use. *)
Definition open_cache (opts : RepositoryOptions) (id : string) (s : os) (warnings : list string) : os * list string * outcome (option Cache) :=
  if ro_NoCache opts then (s, warnings, Ok None)
  else
    match CacheDir.New EnvDir UserCacheDir layout_order id (ro_CacheDir opts) s with
    | (s, Err e) => (s, warnings ++ ["unable to open cache: %v"], Ok None)
    | (s, Panic p) => (s, warnings, Panic p)
    | (s, Ok c) =>
        match Old ModTime Now (c_Base c) s with
        | (s, Ok dirs) => let '(s, warnings) := if ro_CleanupCache opts then cleanup dirs s warnings else (s, warnings) in (s, warnings, Ok (Some c))
        | (s, Err e) => (s, warnings ++ ["unable to find old cache directories: %v"], Ok (Some c))
        | (s, Panic p) => (s, warnings, Panic p)
        end
    end.

Abbreviation SearchKey := (Repository_SearchKey aes_Encrypt poly1305_Verify Hash params_Check scrypt_Key json_UnmarshalKey json_Fields json_UnmarshalMAC json_UnmarshalBytes zstd_DecodeAll json_UnmarshalConfig Pol_Irreducible).

(** The repository, and the cache its backend is wrapped with ([UseCache]). *)
Definition OpenRepository (opts : RepositoryOptions) (now : Z) (s : os) : os * list string * outcome (Repository (B := B) * option Cache) :=
  match ReadRepo utf16 opts s with
  | (s, Err e) => (s, [], Err e)
  | (s, Panic p) => (s, [], Panic p)
  | (s, Ok location) =>
      match open_backend location (ro_Extended opts) with
      | Err e => (s, [], Err e)
      | Panic p => (s, [], Panic p)
      | Ok be =>
          match Repository.New be zero_key (mkOptions (ro_Compression opts) (u64 (ro_PackSize opts * 1024 * 1024))) now with
          | Err e => (s, [], Err e)
          | Panic p => (s, [], Panic p)
          | Ok r =>
              match SearchKey true r (ro_Password opts) maxKeys (ro_KeyHint opts) with
              | (r, Panic p) => (s, [], Panic p)
              | (r, found) =>
                  let warnings := match found with Err _ => ["unable to search repository key: %v"] | _ => [] end in
                  let '(s, warnings, c) := open_cache opts (cfg_ID (cfg r)) s warnings in
                  (s, warnings, (fun c => (r, c)) <$> c)
              end
          end
      end
  end.
End Open.

(** * What locations mean *)

Lemma cut_at_none c s : ContainsRune s c = false -> cut_at c s = (s, "").
Proof. induction s as [|x s IH]; [done|]. cbn [ContainsRune cut_at]. intros [-> Hs]%orb_false_iff. by rewrite IH. Qed.

Lemma cut_at_app c a s : ContainsRune a c = false -> cut_at c (a +:+ String.String c s) = (a, s).
Proof.
  induction a as [|x a IH]; intros Ha; [change ("" +:+ ?x) with x; cbn [cut_at]; by rewrite Ascii.eqb_refl|]. cbn in Ha. apply orb_false_iff in Ha as [Hx Ha]. change (String.String x a +:+ String.String c s) with (String.String x (a +:+ String.String c s)).
  cbn [cut_at]. by rewrite Hx, IH.
Qed.

Section Locations.
Context {C B : Type} (registry : Registry C B) (factory : @Factory C B).

(** A location with the scheme of a backend belongs to that backend. *)
Lemma Parse_scheme scheme rest :
  ContainsRune scheme colon = false -> Lookup registry scheme = Some factory ->
  Parse registry (scheme +:+ String.String colon rest) = try config <- fc_ParseConfig factory (scheme +:+ String.String colon rest); Ok (mkLocation scheme config).
Proof using Type. intros Hs Hl. unfold Parse, extractScheme. rewrite cut_at_app by done. cbn [fst]. by rewrite Hl. Qed.

(** A path, and anything without a colon that is not the name of a backend, is a local
    directory. *)
Theorem Parse_local s :
  Lookup registry "local" = Some factory -> Lookup registry (extractScheme s) = None -> isPath s = true \/ ContainsRune s colon = false ->
  Parse registry s = try config <- fc_ParseConfig factory ("local:" +:+ s); Ok (mkLocation "local" config).
Proof using Type.
  intros Hl Hs Hp. unfold Parse. rewrite Hs. assert (negb (isPath s) && ContainsRune s colon = false) as -> by (destruct Hp as [-> | ->]; [done|by rewrite andb_false_r]). by rewrite Hl.
Qed.

(** A directory that has the name of a backend is not taken for a local one, though no
    colon follows the name. *)
Lemma Parse_backend_name name :
  ContainsRune name colon = false -> Lookup registry name = Some factory ->
  Parse registry name = try config <- fc_ParseConfig factory name; Ok (mkLocation name config).
Proof using Type. intros Hn Hl. unfold Parse, extractScheme. rewrite cut_at_none by done. cbn [fst]. by rewrite Hl. Qed.
End Locations.

Definition local_factory : @Factory LocalBackend.Config unit := mkFactory "local" LocalBackend.ParseConfig Ok (fun _ => Ok tt).
Definition demo_registry : Registry LocalBackend.Config unit := {[ "local" := local_factory ]}.

Example demo_locations :
  Parse demo_registry "/srv/repo" = Ok (mkLocation "local" (LocalBackend.mkConfig "/srv/repo" "" 2)) /\
  Parse demo_registry "local:a:b" = Ok (mkLocation "local" (LocalBackend.mkConfig "a:b" "" 2)) /\
  Parse demo_registry "s3:x" = Err (ErrMsg "invalid backend") /\
  Parse demo_registry "local" = Err (ErrMsg "invalid format, prefix local not found").
Proof. by vm_compute. Qed.

(** * A wrong password is no error

    When no key is found for the password, the repository is returned all the same,
    without its master key and with the empty config. *)
Section Key.
Context {C B : Type} `{Backend.Backend B}.
Context (aes_Encrypt : list byte -> list byte -> list byte) (poly1305_Verify : list byte -> list byte -> list byte -> bool) (Hash : list byte -> ID).
Context (params_Check : Params -> outcome unit) (scrypt_Key : string -> list byte -> Params -> Z -> outcome (list byte)).
Context (json_UnmarshalKey : list byte -> outcome jsonKey) (json_Fields : list byte -> outcome (list byte * list byte)).
Context (json_UnmarshalMAC : list byte -> outcome jsonMACKey) (json_UnmarshalBytes : list byte -> outcome (list byte)).
Context (zstd_DecodeAll : list byte -> outcome (list byte)) (json_UnmarshalConfig : list byte -> outcome fullConfig) (Pol_Irreducible : Z -> bool).
Context (utf16 : list byte -> outcome (list byte)) (ParseInt ParseUint : string -> outcome Z) (ParseBool : string -> outcome bool) (ParseDuration : string -> outcome Z).
Context (ApplyEnvironment : C -> C) (fields : C -> list Field) (with_fields : C -> list Field -> C).
Context (EnvDir : string) (UserCacheDir : outcome string) (layout_order : list string) (ModTime : string -> Time) (Now : Time).
Context (backends : Registry C B) (zero_key : Crypto.Key).

Abbreviation SearchKey' := (Repository_SearchKey aes_Encrypt poly1305_Verify Hash params_Check scrypt_Key json_UnmarshalKey json_Fields json_UnmarshalMAC json_UnmarshalBytes zstd_DecodeAll json_UnmarshalConfig Pol_Irreducible).
Abbreviation open' := (open_backend ParseInt ParseUint ParseBool ParseDuration ApplyEnvironment fields with_fields backends).
Abbreviation OpenRepository' := (OpenRepository aes_Encrypt poly1305_Verify Hash params_Check scrypt_Key json_UnmarshalKey json_Fields json_UnmarshalMAC json_UnmarshalBytes zstd_DecodeAll json_UnmarshalConfig Pol_Irreducible
  utf16 ParseInt ParseUint ParseBool ParseDuration ApplyEnvironment fields with_fields EnvDir UserCacheDir layout_order ModTime Now backends zero_key).

(** Once the backend is open, [OpenRepository] returns the repository that [SearchKey]
    leaves, whether it found a key or not. *)
Theorem OpenRepository_ignores_key opts now s location be r0 r found :
  ro_RepositoryFile opts = "" -> ro_Repo opts = location -> location <> "" -> ro_NoCache opts = true ->
  open' location (ro_Extended opts) = Ok be ->
  Repository.New be zero_key (mkOptions (ro_Compression opts) (u64 (ro_PackSize opts * 1024 * 1024))) now = Ok r0 ->
  SearchKey' true r0 (ro_Password opts) maxKeys (ro_KeyHint opts) = (r, found) -> (forall p, found <> Panic p) ->
  OpenRepository' opts now s = (s, match found with Err _ => ["unable to search repository key: %v"] | _ => [] end, Ok (r, None)).
Proof using Type.
  intros Hf Hr Hne Hc Hopen Hnew Hkey Hp. unfold OpenRepository, ReadRepo. rewrite Hf, Hr, (proj2 (String.eqb_neq _ _) Hne). cbn [andb]. change (String.eqb "" "") with true. cbn iota.
  rewrite Hopen, Hnew, Hkey. unfold open_cache. rewrite Hc. destruct found as [k|e|p]; [done..|by destruct (Hp p)].
Qed.
End Key.
