(* ===== verification/S3.v ===== *)
(** The backend on an object store with the S3 protocol (src/backend/s3/s3.go), and the
    migration of a repository on it to the default layout
    (src/internal/migrations/s3_layout.go).

    The client library is the class [S3Client]; the bucket is the one of the
    configuration, and times are left out.  A callback works on the world, because it
    calls the client too.  [ctx_Err] is the error of the context. *)

From S2P Require Import Prelude Bytes GoString Restic Snapshot FsPath Backend Layout.

#[local] Open Scope Z_scope.

(** The answers of the client, with its errors for a missing object. *)
Class S3Client (W : Type) := {
  PutObject : W -> string -> list byte -> W * outcome Z;
  CopyObject : W -> string -> string -> W * option error;
  RemoveObject : W -> string -> W * option error;
  ListObjects : W -> string -> bool -> W * (list (string * Z) * option error);
  NoSuchKey : error -> bool }.

Record S3Backend := mkS3 { s3_Prefix : string; s3_Layout : Layout }.
Definition set_layout (be : S3Backend) (l : Layout) : S3Backend := mkS3 (s3_Prefix be) l.

Definition TrimPrefix (p s : string) : string := default s (strip_prefix p s).

Section Operations.
Context {W : Type} `{!S3Client W} (ctx_Err : W -> option error).

(** A write of fewer bytes than the reader has is an error. *)
Definition Save (be : S3Backend) (h : Handle) (rd : list byte) (w : W) : W * option error :=
  match PutObject w (Filename (s3_Layout be) h) rd with
  | (w, Ok size) => (w, if size =? zlen rd then None else Some (ErrMsg "wrote %d bytes instead of the expected %d bytes"))
  | (w, Err e) => (w, Some (ErrWrap e "client.PutObject"))
  | (w, Panic p) => (w, Some (ErrMsg p))
  end.

Definition s3_Remove (be : S3Backend) (h : Handle) (w : W) : W * option error :=
  match RemoveObject w (Filename (s3_Layout be) h) with
  | (w, Some e) => (w, if NoSuchKey e then None else Some (ErrWrap e "client.RemoveObject"))
  | (w, None) => (w, None)
  end.

(** The loop of [List] over the objects, which end with the error of the listing. *)
Fixpoint list_objects (prefix : string) (fn : W -> FileInfo -> W * option error) (listed : list (string * Z)) (err : option error) (w : W) : W * option error :=
  match listed with
  | [] => match err with Some e => (w, Some e) | None => (w, ctx_Err w) end
  | (key, size) :: listed =>
      let m := TrimPrefix prefix key in
      if String.eqb m "" then list_objects prefix fn listed err w
      else
        match ctx_Err w with
        | Some e => (w, Some e)
        | None =>
            match fn w (mkFileInfo size (filepath_Base m)) with
            | (w, Some e) => (w, Some e)
            | (w, None) =>
                match ctx_Err w with
                | Some e => (w, Some e)
                | None => list_objects prefix fn listed err w
                end
            end
        end
  end.

Definition list_prefix (be : S3Backend) (t : FileType) : string :=
  let prefix := (Basedir (s3_Layout be) t).1 in if ends_with_slash prefix then prefix else prefix +:+ "/".

Definition List (be : S3Backend) (t : FileType) (fn : W -> FileInfo -> W * option error) (w : W) : W * option error :=
  let '(w, (listed, err)) := ListObjects w (list_prefix be t) (Basedir (s3_Layout be) t).2 in
  list_objects (list_prefix be t) fn listed err w.

(** The entries of a directory: name, size and whether it is a directory. *)
Definition dir_entry (dir : string) (obj : string * Z) : option (string * Z * bool) :=
  let '(key, size) := obj in
  if String.eqb key "" then None
  else
    let name := TrimPrefix dir key in
    if String.eqb name "" then None
    else if ends_with_slash name then Some (take_bytes (String.length name - 1) name, size, true) else Some (name, size, false).

(** The error of the listing is not the one that is returned: that one is nil. *)
Definition ReadDir (dir : string) (w : W) : W * outcome (list (string * Z * bool)) :=
  if String.eqb dir "" then (w, Panic "index out of range [-1]")
  else
    let dir := if ends_with_slash dir then dir else dir +:+ "/" in
    match ListObjects w dir false with
    | (w, (_, Some _)) => (w, Ok [])
    | (w, (listed, None)) => (w, Ok (omap (dir_entry dir) listed))
    end.

Definition s3_Rename (be : S3Backend) (h : Handle) (l : Layout) (w : W) : W * option error :=
  let oldname := Filename (s3_Layout be) h in
  let newname := Filename l h in
  if String.eqb oldname newname then (w, None)
  else
    match CopyObject w newname oldname with
    | (w, Some e) => (w, if NoSuchKey e then None else Some e)
    | (w, None) => RemoveObject w oldname
    end.

(** * The migration *)

(** The loop of [retry] with the error of the last attempt. *)
Fixpoint retry (max : nat) (f : W -> W * option error) (err : option error) (w : W) : W * option error :=
  match max with
  | O => (w, err)
  | S max => match f w with (w, None) => (w, None) | (w, Some e) => retry max f (Some e) w end
  end.

Definition maxErrors : nat := 20.

Definition moveFiles (be : S3Backend) (l : Layout) (t : FileType) (w : W) : W * option error :=
  List be t (fun w fi => retry maxErrors (s3_Rename be (mkHandle t false (fi_Name fi)) l) None w) w.

Fixpoint move_types (be : S3Backend) (l : Layout) (ts : list FileType) (w : W) : W * option error :=
  match ts with
  | [] => (w, None)
  | t :: ts => match moveFiles be l t w with (w, Some e) => (w, Some e) | (w, None) => move_types be l ts w end
  end.

Definition moved_types : list FileType := [SnapshotFile; PackFile; KeyFile; LockFile].

(** [None]: the backend of the repository is not this one. *)
Definition Check_s3 (be : option S3Backend) : bool * string :=
  match be with
  | None => (false, "backend is not s3")
  | Some be => if String.eqb (Name (s3_Layout be)) "s3legacy" then (true, "") else (false, "not using the legacy s3 layout")
  end.

Definition oldLayout (be : S3Backend) : Layout := S3LegacyLayout (mkLayout "" (s3_Prefix be) path_Join).
Definition newLayout (be : S3Backend) : Layout := DefaultLayout (mkLayout "" (s3_Prefix be) path_Join).

Definition Apply (be : option S3Backend) (w : W) : W * option S3Backend * option error :=
  match be with
  | None => (w, None, Some (ErrMsg "backend is not s3"))
  | Some be =>
      let be := set_layout be (oldLayout be) in
      match move_types be (newLayout be) moved_types w with
      | (w, Some e) => (w, Some be, Some e)
      | (w, None) => (w, Some (set_layout be (newLayout be)), None)
      end
  end.
End Operations.

(** * What the client does to the objects *)

(** What a listing names: the objects below the prefix, and without recursion only those
    not further below, with the directories of the others. *)
Inductive listed_in (O : gmap string (list byte)) (prefix : string) (recursive : bool) : string -> Prop :=
  | listed_object rest : is_Some (O !! (prefix +:+ rest)) -> recursive = true \/ has_slash rest = false -> listed_in O prefix recursive (prefix +:+ rest)
  | listed_dir d rest : recursive = false -> has_slash d = false -> is_Some (O !! (prefix +:+ d +:+ "/" +:+ rest)) -> listed_in O prefix recursive (prefix +:+ d +:+ "/").

(** A call that fails may have had its effect; a listing without an error is complete. *)
Class S3Laws (W : Type) `{!S3Client W} := {
  s3_objects : W -> gmap string (list byte);
  law_PutObject : forall w name data w' r, PutObject w name data = (w', r) ->
    match r with Ok size => size = zlen data -> s3_objects w' = <[name := data]> (s3_objects w) | Err _ => True | Panic _ => False end;
  law_CopyObject : forall w dst src w' e, CopyObject w dst src = (w', e) ->
    (e <> None /\ s3_objects w' = s3_objects w \/ (exists f, s3_objects w !! src = Some f /\ s3_objects w' = <[dst := f]> (s3_objects w))) /\
    (forall e0, e = Some e0 -> NoSuchKey e0 = true -> s3_objects w !! src = None);
  law_RemoveObject : forall w name w' e, RemoveObject w name = (w', e) ->
    s3_objects w' = delete name (s3_objects w) \/ e <> None /\ s3_objects w' = s3_objects w;
  law_ListObjects : forall w prefix recursive w' listed err, ListObjects w prefix recursive = (w', (listed, err)) ->
    s3_objects w' = s3_objects w /\ Forall (listed_in (s3_objects w) prefix recursive) listed.*1 /\
    (err = None -> forall rest, is_Some (s3_objects w !! (prefix +:+ rest)) -> recursive = true \/ has_slash rest = false -> prefix +:+ rest ∈ listed.*1) }.

(** * Names in the two layouts *)

Lemma strip_prefix_app p s : strip_prefix p (p +:+ s) = Some s.
Proof. induction p as [|c p IH]; [by destruct s|]. change (String.String c p +:+ s) with (String.String c (p +:+ s)). cbn [strip_prefix]. by rewrite Ascii.eqb_refl. Qed.

Lemma TrimPrefix_app p s : TrimPrefix p (p +:+ s) = s.
Proof. unfold TrimPrefix. by rewrite strip_prefix_app. Qed.

Lemma ends_with_slash_app a b : b <> "" -> ends_with_slash (a +:+ b) = ends_with_slash b.
Proof.
  intros Hb. induction a as [|c a IH]; [done|]. cbn [String.append ends_with_slash]. rewrite <- IH. by destruct a, b.
Qed.

Lemma ends_with_slash_slashfree s : has_slash s = false -> ends_with_slash s = false.
Proof. induction s as [|c s IH]; [done|]. cbn. intros [Hc Hs]%orb_false_iff. destruct s; [done|by apply IH]. Qed.

Lemma render_app root l s : l <> [] -> render root (l ++ split_on slash s) = render root l +:+ "/" +:+ s.
Proof.
  intros Hl. assert (strings_Join "/" (l ++ split_on slash s) = strings_Join "/" l +:+ "/" +:+ s) as E.
  { rewrite Join_app by (done || apply split_on_not_nil). by rewrite Join_split. }
  unfold render. destruct root; [rewrite E; by rewrite !string_app_assoc|]. by destruct l.
Qed.

Lemma Base_slashfree m : has_slash m = false -> m <> "" -> filepath_Base m = m.
Proof. intros Hs Hm. unfold filepath_Base. rewrite split_on_single by done. cbn. by destruct m. Qed.

Lemma Base_dir d : has_slash d = false -> d <> "" -> filepath_Base (d +:+ "/") = d.
Proof.
  intros Hs Hd. unfold filepath_Base. change "/" with (String.String slash ""). rewrite split_on_app, split_on_single by done. cbn.
  destruct (String.eqb_spec (d +:+ "/") "") as [E|_]; by destruct d.
Qed.

(** Also across the layouts, different handles have different components. *)
Lemma file_comps_cross l l' h1 h2 : repo_handle h1 -> repo_handle h2 -> file_comps l h1 = file_comps l' h2 -> canon h1 = canon h2.
Proof.
  unfold repo_handle, layoutTypes. rewrite !elem_of_cons, !elem_of_nil. destruct h1 as [t1 m1 n1], h2 as [t2 m2 n2]. unfold file_comps, canon. cbn [h_Type h_Name].
  intros [->|[Ht1 _]] [->|[Ht2 _]]; [done|..]; cbn;
    repeat match goal with H : _ \/ _ |- _ => destruct H as [->|H] end; try done; destruct l, l'; cbn; intros E; by simplify_eq.
Qed.

Lemma file_comps_canon l h1 h2 : canon h1 = canon h2 -> file_comps l h1 = file_comps l h2.
Proof. destruct h1 as [t1 m1 n1], h2 as [t2 m2 n2]. unfold canon, file_comps. cbn. intros [= -> E]. destruct (t2 =? ConfigFile); [done|by subst]. Qed.

Section Names.
Context (p : string).
Abbreviation legacy := (S3LegacyLayout (mkLayout "" p path_Join)).
Abbreviation current := (DefaultLayout (mkLayout "" p path_Join)).
Abbreviation old := (Filename legacy).
Abbreviation new := (Filename current).
Abbreviation R := (path_root p false).
Abbreviation base := (rev (path_base p)).

Lemma old_render h : repo_handle h -> old h = render R (base ++ file_comps legacy h).
Proof.
  intros Hh. pose proof (file_comps_good legacy h Hh) as Hg. cbn [Filename]. unfold S3LegacyLayout_Filename, s3_join. cbn [l_Join l_Path l_URL].
  cbn [String.eqb negb]. rewrite andb_false_r. cbn [andb]. change ("" +:+ ?x) with x. rewrite path_Join_drop_empty, <- path_Join_good; [|done|by unfold file_comps; cbn; case_if]. unfold file_comps. cbn [type_dir].
  destruct (Z.eqb_spec (h_Type h) ConfigFile) as [->|]; [apply path_Join_skip|done].
Qed.

Lemma comps_ok l h : repo_handle h -> Forall (fun c => has_slash c = false) (base ++ file_comps l h) /\ base ++ file_comps l h <> [].
Proof.
  intros Hh. split.
  - apply Forall_app. split; [eapply Forall_impl; [exact (clean_stack_comps R _ (path_base_clean p false))|by intros ? [? _]]|]. eapply Forall_impl; [by apply file_comps_good|]. by intros ? (_ & _ & _ & ?).
  - intros [_ E]%app_eq_nil. unfold file_comps in E. by repeat case_match.
Qed.

(** The name of a file in one of the layouts is the path with its components. *)
Definition file_name (k : string) (h : Handle) (l : Layout) : Prop := (l = legacy \/ l = current) /\ repo_handle h /\ k = Filename l h.

Lemma file_name_render k h l : file_name k h l -> k = render R (base ++ file_comps l h).
Proof. intros ([-> | ->] & Hh & ->); [by apply old_render|by apply Filename_Default_render]. Qed.

Lemma file_name_comps k h l comps : file_name k h l -> Forall (fun c => has_slash c = false) comps -> k = render R (base ++ comps) -> comps = [] \/ file_comps l h = comps.
Proof.
  intros Hk Hc E. destruct comps as [|c comps]; [by left|]. right. pose proof (file_name_render _ _ _ Hk) as E'. rewrite E in E'. destruct Hk as (_ & Hh & _).
  apply render_inj in E'; [by apply app_inv_head in E'| |apply comps_ok; done|intros [_ ?]%app_eq_nil; done|by apply comps_ok].
  destruct (comps_ok l h Hh) as [H _]. apply Forall_app in H as [H _]. by apply Forall_app.
Qed.

Lemma names_inj k h1 h2 l1 l2 : file_name k h1 l1 -> file_name k h2 l2 -> canon h1 = canon h2.
Proof.
  intros H1 H2. pose proof (file_name_render _ _ _ H2) as E. destruct H2 as (_ & Hh2 & _). pose proof (comps_ok l2 h2 Hh2) as [Hc _]. apply Forall_app in Hc as [_ Hc].
  destruct (file_name_comps k h1 l1 _ H1 Hc E) as [Hn|E']; [unfold file_comps in Hn; by repeat case_match|]. destruct H1 as (_ & Hh1 & _). by eapply file_comps_cross.
Qed.

Lemma Filename_canon l h1 h2 : l = legacy \/ l = current -> repo_handle h1 -> repo_handle h2 -> canon h1 = canon h2 -> Filename l h1 = Filename l h2.
Proof.
  intros Hl H1 H2 E. rewrite (file_name_render (Filename l h1) h1 l), (file_name_render (Filename l h2) h2 l) by done. by rewrite (file_comps_canon l h1 h2).
Qed.

Lemma moved_names h : repo_handle h -> h_Type h ∈ moved_types -> old h <> new h.
Proof.
  intros Hh Ht E. pose proof (comps_ok current h Hh) as [Hc _]. apply Forall_app in Hc as [_ Hc].
  destruct (file_name_comps (old h) h legacy (file_comps current h)) as [Hn|Hn]; [split_and!; [by left|done|done]|done|by rewrite E; apply Filename_Default_render|unfold file_comps in Hn; by repeat case_match|].
  unfold moved_types in Ht. rewrite !elem_of_cons, elem_of_nil in Ht. unfold file_comps in Hn.
  repeat match goal with H : _ \/ _ |- _ => destruct H as [H|H]; [rewrite H in Hn; discriminate|] end. done.
Qed.

Lemma unmoved_names h : repo_handle h -> h_Type h ∉ moved_types -> old h = new h.
Proof.
  intros Hh Ht. rewrite old_render, Filename_Default_render by done. do 2 f_equal. destruct Hh as [E|[Hl _]]; [by unfold file_comps; rewrite E|].
  unfold layoutTypes in Hl. unfold moved_types in Ht. rewrite !elem_of_cons, elem_of_nil in Hl. rewrite !elem_of_cons, elem_of_nil in Ht. destruct Hl as [H|[H|[H|[H|[H|[]]]]]]; try (exfalso; apply Ht; tauto). unfold file_comps. by rewrite H.
Qed.

(** What a listing of a moved type in the legacy layout shows. *)
Lemma legacy_prefix be t : s3_Layout be = legacy -> t ∈ moved_types -> list_prefix be t = render R (base ++ [s3LayoutPaths t]) +:+ "/" /\ (Basedir (s3_Layout be) t).2 = false.
Proof.
  intros Hb Ht. unfold list_prefix. rewrite Hb. cbn [Basedir S3LegacyLayout_Basedir fst snd l_Join l_Path]. split; [|done].
  assert (good_comp (s3LayoutPaths t)) as Hg by (unfold moved_types in Ht; rewrite !elem_of_cons, elem_of_nil in Ht; by destruct Ht as [->|[->|[->|[->|[]]]]]).
  rewrite (path_Join_good p [_]) by by forall_list. assert (ends_with_slash (render R (base ++ [s3LayoutPaths t])) = false) as ->; [|done].
  destruct Hg as (Hne & _ & _ & Hs). destruct base as [|b bs] eqn:E.
  - cbn [app]. unfold render. cbn [strings_Join]. destruct R; [rewrite ends_with_slash_app by done|]; by apply ends_with_slash_slashfree.
  - rewrite <- (split_on_single _ Hs), render_app by done. rewrite <- string_app_assoc, ends_with_slash_app by done. by apply ends_with_slash_slashfree.
Qed.

Lemma legacy_comps l h t rest : repo_handle h -> l = legacy \/ l = current -> t ∈ moved_types -> file_comps l h = [s3LayoutPaths t; rest] -> h_Type h = t /\ h_Name h = rest.
Proof.
  intros [E|[Hl _]] Hc Ht; [unfold file_comps; by rewrite E|]. unfold layoutTypes in Hl. rewrite !elem_of_cons, elem_of_nil in Hl. unfold moved_types in Ht. rewrite !elem_of_cons, elem_of_nil in Ht.
  unfold file_comps. destruct Hl as [H|[H|[H|[H|[H|[]]]]]]; rewrite H; destruct Hc as [-> | ->]; cbn; intros [= E <-]; destruct Ht as [->|[->|[->|[->|[]]]]]; done.
Qed.

Lemma pack_dir_comps l h t d comps : repo_handle h -> l = legacy \/ l = current -> comps <> [] -> t ∈ moved_types -> file_comps l h = s3LayoutPaths t :: d :: comps -> t = PackFile /\ good_comp d /\ String.length d = 2%nat.
Proof.
  intros Hh Hc Hne Ht. unfold file_comps. destruct (h_Type h =? ConfigFile) eqn:E1; [done|]. destruct Hc as [-> | ->]; [by intros [= _ _ <-]|]. destruct (h_Type h =? PackFile) eqn:E2; [|by intros [= _ _ <-]].
  intros [= E <- _]. destruct Hh as [H|[_ [id ->]]]; [by rewrite H in E1|]. destruct (ID_String_good id) as (_ & Hg & _). split_and!; [|done|].
  - unfold moved_types in Ht. rewrite !elem_of_cons, elem_of_nil in Ht. by destruct Ht as [->|[->|[->|[->|[]]]]].
  - assert (String.length (ID_String id) = 64%nat) as Hl by (unfold ID_String; by rewrite length_hex_encode, length_id_bytes). by destruct (ID_String id) as [|? [|? ?]].
Qed.

(** A directory of packs is the same in both layouts. *)
Lemma pack_dir_names d : good_comp d -> String.length d = 2%nat -> let h := mkHandle PackFile false d in old h = new h.
Proof.
  intros Hd Hl. cbn [Filename]. unfold S3LegacyLayout_Filename, s3_join, DefaultLayout_Filename, DefaultLayout_Dirname. cbn [l_Join l_Path l_URL h_Type h_Name].
  cbn [String.eqb negb]. rewrite andb_false_r, Hl. cbn [andb]. change ("" +:+ ?x) with x. rewrite path_Join_drop_empty.
  change (PackFile =? ConfigFile) with false. change (PackFile =? PackFile) with true. cbn [andb Nat.ltb Nat.leb]. change (s3LayoutPaths PackFile) with "data". change (defaultLayoutPaths PackFile) with "data".
  rewrite (path_Join_good p ["data"; d]), (path_Join_good p ["data"]) by by forall_list. change (base ++ ["data"]) with (rev ("data" :: path_base p)).
  rewrite path_Join_dir; [cbn [rev]; by rewrite <- app_assoc| |done]. apply (clean_stack_good _ ["data"]); [by forall_list|]. apply path_base_clean.
Qed.

(** A bucket whose objects in the directories of the moved types are files of the
    repository. *)
Definition clean_bucket (O : gmap string (list byte)) : Prop :=
  forall t rest, t ∈ moved_types -> is_Some (O !! (render R (base ++ [s3LayoutPaths t]) +:+ "/" +:+ rest)) -> exists h l, file_name (render R (base ++ [s3LayoutPaths t]) +:+ "/" +:+ rest) h l.

Lemma dir_name_comps t rest h l : t ∈ moved_types -> file_name (render R (base ++ [s3LayoutPaths t]) +:+ "/" +:+ rest) h l -> file_comps l h = s3LayoutPaths t :: split_on slash rest.
Proof.
  intros Ht Hf. assert (has_slash (s3LayoutPaths t) = false) as Hs by (unfold moved_types in Ht; rewrite !elem_of_cons, elem_of_nil in Ht; by destruct Ht as [->|[->|[->|[->|[]]]]]).
  destruct (file_name_comps _ h l (s3LayoutPaths t :: split_on slash rest) Hf) as [?|?]; [| |done..].
  - constructor; [done|apply split_on_no_slash].
  - rewrite <- render_app by (by destruct base). by rewrite <- app_assoc.
Qed.

(** What [List] makes of the objects: a file that is to be moved, or a directory of packs
    that were. *)
Lemma listed_handle O t key (m := TrimPrefix (render R (base ++ [s3LayoutPaths t]) +:+ "/") key) (h := mkHandle t false (filepath_Base m)) :
  clean_bucket O -> t ∈ moved_types -> listed_in O (render R (base ++ [s3LayoutPaths t]) +:+ "/") false key -> m <> "" -> repo_handle h \/ old h = new h.
Proof.
  intros Hc Ht Hl. revert m h. destruct Hl as [rest Hk [?|Hs]|d rest _ Hs Hk]; [done| |]; cbv zeta; rewrite TrimPrefix_app; intros Hm.
  - left. rewrite string_app_assoc in Hk. destruct (Hc t rest Ht Hk) as (h & l & Hf). pose proof (dir_name_comps _ _ _ _ Ht Hf) as E. rewrite split_on_single in E by done.
    destruct Hf as (Hl & Hh & _). rewrite Base_slashfree by done. destruct (legacy_comps l h t rest Hh Hl Ht E) as [<- <-]. destruct Hh as [Hh|Hh]; [by left|by right].
  - right. rewrite string_app_assoc in Hk. destruct (Hc t _ Ht Hk) as (h & l & Hf). pose proof (dir_name_comps _ _ _ _ Ht Hf) as E.
    change (d +:+ "/" +:+ rest) with (d +:+ String.String slash rest) in E. rewrite split_on_app, split_on_single in E by done. destruct Hf as (Hl & Hh & _).
    destruct (pack_dir_comps l h t d _ Hh Hl (split_on_not_nil _ _) Ht E) as (-> & Hg & H2). rewrite Base_dir by (done || apply Hg). by apply pack_dir_names.
Qed.

(** A file in the legacy layout is listed under its name. *)
Lemma legacy_listed h : repo_handle h -> h_Type h ∈ moved_types ->
  old h = (render R (base ++ [s3LayoutPaths (h_Type h)]) +:+ "/") +:+ h_Name h /\ has_slash (h_Name h) = false /\ h_Name h <> "".
Proof.
  intros Hh Ht. rewrite old_render by done. destruct Hh as [E|[_ [id Hn]]].
  { rewrite E in Ht. unfold moved_types in Ht. rewrite !elem_of_cons, elem_of_nil in Ht. by destruct Ht as [?|[?|[?|[?|[]]]]]. }
  destruct (ID_String_good id) as ((Hne & _ & _ & Hs) & _). rewrite Hn. split_and!; [|done..]. rewrite string_app_assoc, <- render_app by by destruct base. rewrite split_on_single, <- app_assoc by done. do 2 f_equal.
  unfold file_comps. cbn [type_dir]. rewrite Hn. unfold moved_types in Ht. rewrite !elem_of_cons, elem_of_nil in Ht. by destruct Ht as [->|[->|[->|[->|[]]]]].
Qed.
End Names.

(** * The migration as steps on the objects *)

Section Migrate.
Context (p : string).
Abbreviation legacy := (S3LegacyLayout (mkLayout "" p path_Join)).
Abbreviation current := (DefaultLayout (mkLayout "" p path_Join)).
Abbreviation old := (Filename legacy).
Abbreviation new := (Filename current).
Abbreviation objects := (gmap string (list byte)).

Inductive mstep (O : objects) : objects -> Prop :=
  | step_copy h f : repo_handle h -> O !! old h = Some f -> mstep O (<[new h := f]> O)
  | step_drop h f : repo_handle h -> O !! old h = Some f -> O !! new h = Some f -> old h <> new h -> mstep O (delete (old h) O).

(** The content of a file, in whichever layout it is. *)
Definition held (O : objects) (h : Handle) : option (list byte) := match O !! new h with Some f => Some f | None => O !! old h end.

(** A bucket in the middle of a migration: what is in both layouts is the same. *)
Record migrating (O : objects) : Prop := {
  mg_clean : clean_bucket p O;
  mg_agree : forall h f g, repo_handle h -> O !! old h = Some f -> O !! new h = Some g -> f = g }.

Lemma old_file h : repo_handle h -> file_name p (old h) h legacy.
Proof. intros Hh. split; [by left|done]. Qed.
Lemma new_file h : repo_handle h -> file_name p (new h) h current.
Proof. intros Hh. split; [by right|done]. Qed.

(** Two handles have the same names, or none in common. *)
Lemma names_cases h1 h2 : repo_handle h1 -> repo_handle h2 ->
  old h1 = old h2 /\ new h1 = new h2 \/ (old h1 <> old h2 /\ old h1 <> new h2 /\ new h1 <> old h2 /\ new h1 <> new h2).
Proof.
  intros H1 H2. destruct (decide (canon h1 = canon h2)) as [E|E].
  - left. split; apply (Filename_canon p); auto.
  - right. split_and!; intros E'; apply E.
    + apply (names_inj p (old h1) _ _ legacy legacy); [by apply old_file|rewrite E'; by apply old_file].
    + apply (names_inj p (old h1) _ _ legacy current); [by apply old_file|rewrite E'; by apply new_file].
    + apply (names_inj p (new h1) _ _ current legacy); [by apply new_file|rewrite E'; by apply old_file].
    + apply (names_inj p (new h1) _ _ current current); [by apply new_file|rewrite E'; by apply new_file].
Qed.

(** What a step keeps: every file, and what is not a file of the repository. *)
Definition kept (O O' : objects) : Prop :=
  (forall h, repo_handle h -> held O' h = held O h) /\
  (forall k, (forall h l, ~ file_name p k h l) -> O' !! k = O !! k).

Lemma mstep_kept O O' : mstep O O' -> migrating O -> migrating O' /\ kept O O'.
Proof.
  intros [h f Hh Hf|h f Hh Hf Hn Hne] [Hc Ha]; unfold kept, held.
  - assert (forall h2, repo_handle h2 -> <[new h := f]> O !! new h2 = O !! new h2 /\ <[new h := f]> O !! old h2 = O !! old h2 \/
      new h2 = new h /\ old h2 = old h) as Hcase.
    { intros h2 H2. destruct (names_cases h h2 Hh H2) as [[E1 E2]|(N1 & N2 & N3 & N4)]; [by right|]. left. by rewrite !lookup_insert_ne. }
    assert (forall h2, repo_handle h2 -> old h2 = old h -> <[new h := f]> O !! old h2 = Some f) as Hold.
    { intros h2 H2 E. rewrite E. destruct (decide (new h = old h)) as [->|N]; [apply lookup_insert_eq|]. by rewrite lookup_insert_ne. }
    split; [split|split_and!].
    + intros t rest Ht Hk. destruct (decide (new h = render (path_root p false) (rev (path_base p) ++ [s3LayoutPaths t]) +:+ "/" +:+ rest)) as [E|N].
      * rewrite <- E. exists h, current. by apply new_file.
      * rewrite lookup_insert_ne in Hk by done. by apply Hc.
    + intros h2 f2 g2 H2. destruct (Hcase h2 H2) as [[-> ->]|[En Eo]]; [by apply Ha|]. rewrite Hold by done. rewrite En, lookup_insert_eq. by intros [= <-] [= <-].
    + intros h2 H2. destruct (Hcase h2 H2) as [[-> ->]|[En Eo]]; [done|]. rewrite En, lookup_insert_eq, Eo, Hf. destruct (O !! new h) as [g|] eqn:Eg; [|done]. by rewrite (Ha h f g).
    + intros k Hk. rewrite lookup_insert_ne; [done|]. intros <-. by apply (Hk h current), new_file.
  - assert (forall h2, repo_handle h2 -> delete (old h) O !! new h2 = O !! new h2 /\ delete (old h) O !! old h2 = O !! old h2 \/
      delete (old h) O !! new h2 = Some f /\ O !! new h2 = Some f /\ O !! old h2 = Some f /\ delete (old h) O !! old h2 = None) as Hcase.
    { intros h2 H2. destruct (names_cases h h2 Hh H2) as [[E1 E2]|(N1 & N2 & N3 & N4)].
      - right. rewrite <- E1, <- E2, lookup_delete_eq, lookup_delete_ne by done. done.
      - left. by rewrite !lookup_delete_ne. }
    split; [split|split_and!].
    + intros t rest Ht [x [_ Hk]%lookup_delete_Some]. apply Hc; [done|by exists x].
    + intros h2 f2 g2 H2. destruct (Hcase h2 H2) as [[-> ->]|(_ & _ & _ & ->)]; [by apply Ha|done].
    + intros h2 H2. destruct (Hcase h2 H2) as [[-> ->]|(-> & -> & _)]; done.
    + intros k Hk. rewrite lookup_delete_ne; [done|]. intros <-. by apply (Hk h legacy), old_file.
Qed.

Lemma msteps_kept O O' : rtc mstep O O' -> migrating O -> migrating O' /\ kept O O'.
Proof.
  induction 1 as [O|O O1 O2 Hs _ IH]; intros HO; [done|]. destruct (mstep_kept _ _ Hs HO) as [H1 (Hh & Ho)]. destruct (IH H1) as [H2 (Hh' & Ho')].
  split; [done|]. split; [intros h Hr; by rewrite Hh', Hh|intros k Hk; by rewrite Ho', Ho].
Qed.

(** A file that has left the legacy layout does not come back. *)
Lemma msteps_gone O O' h : rtc mstep O O' -> repo_handle h -> O !! old h = None -> O' !! old h = None.
Proof.
  intros Hs Hh. induction Hs as [O|O O1 O2 [h' f Hh' Hf|h' f _ _ _ _] _ IH]; intros Hn; [done|apply IH..].
  - rewrite lookup_insert_ne; [done|]. intros E. destruct (names_cases h h' Hh Hh') as [[E' _]|(_ & N & _)]; [|by destruct N]. by rewrite <- E', Hn in Hf.
  - apply lookup_delete_None. by right.
Qed.
End Migrate.

(** * The operations take such steps *)

Section Facts.
Context {W : Type} `{!S3Client W} `{!S3Laws W} (ctx_Err : W -> option error) (p : string).
Abbreviation old := (Filename (S3LegacyLayout (mkLayout "" p path_Join))).
Abbreviation new := (Filename (DefaultLayout (mkLayout "" p path_Join))).
Definition legacy_be : S3Backend := mkS3 p (S3LegacyLayout (mkLayout "" p path_Join)).
Definition moves (w w' : W) : Prop := rtc (mstep p) (s3_objects w) (s3_objects w').

#[local] Instance moves_preorder : PreOrder moves.
Proof. split; [intros w; by unfold moves|intros w1 w2 w3; unfold moves; by etransitivity]. Qed.

Lemma moves_same w w' : s3_objects w' = s3_objects w -> moves w w'.
Proof. intros E. unfold moves. by rewrite E. Qed.

Definition gone (h : Handle) (w : W) : Prop := s3_objects w !! old h = None.

Lemma Rename_moves h w w' e : repo_handle h \/ old h = new h ->
  s3_Rename legacy_be h (newLayout legacy_be) w = (w', e) -> moves w w' /\ (e = None -> repo_handle h -> old h <> new h -> gone h w').
Proof.
  unfold s3_Rename. change (s3_Layout legacy_be) with (S3LegacyLayout (mkLayout "" p path_Join)). change (newLayout legacy_be) with (DefaultLayout (mkLayout "" p path_Join)).
  intros Hh. destruct (String.eqb_spec (old h) (new h)) as [E|N]; [by intros [= <- <-]|]. destruct Hh as [Hh|?]; [|done].
  destruct (CopyObject w (new h) (old h)) as [w1 e1] eqn:E1. apply law_CopyObject in E1 as [Hc Hno].
  assert (moves w w1) as H1 by (destruct Hc as [[_ E]|(f & Hf & E)]; [by apply moves_same|unfold moves; rewrite E; by apply rtc_once, step_copy]).
  destruct e1 as [e1|].
  - intros [= <- <-]. split; [done|]. destruct (NoSuchKey e1) eqn:Ek; [|done]. intros _ _ _. pose proof (Hno e1 eq_refl Ek) as Hnone. unfold gone. destruct Hc as [[_ ->]|(f & Hf & _)]; [done|]. by rewrite Hf in Hnone.
  - destruct Hc as [[? _]|(f & Hf & E)]; [done|]. destruct (RemoveObject w1 (old h)) as [w2 e2] eqn:E2. apply law_RemoveObject in E2. intros [= <- <-].
    destruct E2 as [E2|[Hne E2]]; [|by split; [etransitivity; [exact H1|by apply moves_same]|]]. split.
    + etransitivity; [exact H1|]. unfold moves. rewrite E2, E. apply rtc_once, step_drop with f; [done| |by rewrite lookup_insert_eq|done]. by rewrite lookup_insert_ne.
    + intros _ _ _. unfold gone. by rewrite E2, lookup_delete_eq.
Qed.

Lemma retry_moves (Q : W -> Prop) n f err w w' e :
  (forall w w' e, f w = (w', e) -> moves w w' /\ (e = None -> Q w')) -> n <> O \/ err <> None ->
  retry n f err w = (w', e) -> moves w w' /\ (e = None -> Q w').
Proof using S3Laws0.
  intros Hf. revert err w. induction n as [|n IH]; intros err w Hn; cbn [retry]; [intros [= <- <-]; split; [done|by destruct Hn]|].
  destruct (f w) as [w1 [e1|]] eqn:E1; apply Hf in E1 as [H1 HQ]; [|intros [= <- <-]; by auto]. intros [H2 ?]%IH; [|by right]. split; [by etransitivity|done].
Qed.

(** The loop of [List], with what holds of the objects it has passed. *)
Lemma list_loop_moves (Q : string -> W -> Prop) prefix fn listed err w w' e :
  (forall key w w', Q key w -> moves w w' -> Q key w') ->
  (forall key size w w' e, key ∈ listed.*1 -> TrimPrefix prefix key <> "" -> fn w (mkFileInfo size (filepath_Base (TrimPrefix prefix key))) = (w', e) -> moves w w' /\ (e = None -> Q key w')) ->
  list_objects ctx_Err prefix fn listed err w = (w', e) ->
  moves w w' /\ (e = None -> err = None /\ forall key, key ∈ listed.*1 -> TrimPrefix prefix key <> "" -> Q key w').
Proof using S3Laws0.
  intros HQ. revert w. induction listed as [|[key size] listed IH]; intros w Hfn; cbn [list_objects].
  { destruct err as [e0|]; intros [= <- <-]; (split; [done|]); [done|]. intros _. split; [done|]. intros key Hk. by apply elem_of_nil in Hk. }
  set (m := TrimPrefix prefix key). destruct (String.eqb_spec m "") as [Em|Nm].
  { intros [H1 H2]%IH; [|intros k s ????; apply Hfn; by right]. split; [done|]. intros Hn. destruct (H2 Hn) as [He Hall]. split; [done|]. rewrite fmap_cons. intros k [->|Hk]%elem_of_cons; [done|by apply Hall]. }
  destruct (ctx_Err w); [by intros [= <- <-]|]. destruct (fn w _) as [w1 [e1|]] eqn:E1; (apply Hfn in E1 as [H1 Hq]; [|by left|done]); [by intros [= <- <-]|].
  destruct (ctx_Err w1); [by intros [= <- <-]|]. intros [H2 H3]%IH; [|intros k s ????; apply Hfn; by right]. split; [by etransitivity|].
  intros Hn. destruct (H3 Hn) as [He Hall]. split; [done|]. rewrite fmap_cons. intros k [->|Hk]%elem_of_cons Hm; [eapply HQ; [by apply Hq|done]|by apply Hall].
Qed.

Lemma gone_moves h w w' : repo_handle h -> gone h w -> moves w w' -> gone h w'.
Proof using Type. intros Hh Hg Hs. by apply (msteps_gone p _ _ h Hs). Qed.

Lemma moveFiles_moves t w w' e : t ∈ moved_types -> migrating p (s3_objects w) ->
  moveFiles ctx_Err legacy_be (newLayout legacy_be) t w = (w', e) ->
  moves w w' /\ (e = None -> forall h, repo_handle h -> h_Type h = t -> gone h w').
Proof using Type.
  intros Ht Hm. unfold moveFiles, List. destruct (legacy_prefix p legacy_be t eq_refl Ht) as [-> ->]. set (prefix := render _ _ +:+ "/").
  destruct (ListObjects w prefix false) as [w1 [listed err]] eqn:E1. apply law_ListObjects in E1 as (Ho & Hl & Hall). rewrite Forall_forall in Hl.
  intros E. apply (list_loop_moves (fun key w => forall h, repo_handle h -> h_Type h = t -> key = old h -> gone h w)) in E as [Hs Hend].
  - split; [etransitivity; [by apply moves_same|done]|]. intros He h Hh Eh. destruct (Hend He) as [Herr Hgone]. subst t. destruct (legacy_listed p h Hh Ht) as (En & Hns & Hne).
    destruct (s3_objects w !! old h) as [f|] eqn:Ef.
    + apply (Hgone (old h)); [|by rewrite En; fold prefix; rewrite TrimPrefix_app|done..]. rewrite En. apply Hall; [done| |by right]. fold prefix in En. rewrite <- En. by exists f.
    + apply gone_moves with w1; [done| |done]. unfold gone. by rewrite Ho.
  - intros key w2 w3 Hg Hs h Hh Et Ek. eapply gone_moves; [done|by apply Hg|done].
  - intros key size w2 w3 e2 Hk Hne. intros [Hs Hq]%(retry_moves (fun w => forall h, repo_handle h -> h_Type h = t -> key = old h -> gone h w)); [done| |by left].
    intros w4 w5 e5 E5. set (h0 := mkHandle t false _) in E5.
    assert (repo_handle h0 \/ old h0 = new h0) as Hh0 by (apply (listed_handle p (s3_objects w)); [apply Hm|done|by apply Hl|done]).
    apply Rename_moves in E5 as [Hs5 Hg5]; [|done]. split; [done|]. intros He h Hh Et Ek. subst t key. destruct (legacy_listed p h Hh Ht) as (En & Hns & Hnn).
    assert (h0 = mkHandle (h_Type h) false (h_Name h)) as E0 by (unfold h0; rewrite En; fold prefix; by rewrite TrimPrefix_app, Base_slashfree).
    assert (canon h0 = canon h) as Ec by (by rewrite E0).
    assert (repo_handle h0) as Hr0 by (rewrite E0; destruct Hh as [?|?]; [by left|by right]).
    unfold gone. rewrite <- (Filename_canon p _ h0 h); [|by left|done..]. apply Hg5; [done..|]. by apply moved_names; [|rewrite E0].
Qed.

Lemma move_types_moves ts w w' e : ts ⊆ moved_types -> migrating p (s3_objects w) ->
  move_types ctx_Err legacy_be (newLayout legacy_be) ts w = (w', e) ->
  moves w w' /\ (e = None -> forall h, repo_handle h -> h_Type h ∈ ts -> gone h w').
Proof using Type.
  revert w. induction ts as [|t ts IH]; intros w Hts Hm; cbn [move_types]; [intros [= <- <-]; split; [done|]; intros _ h _ Hh; by apply elem_of_nil in Hh|].
  destruct (moveFiles ctx_Err legacy_be _ t w) as [w1 e1] eqn:E1. apply moveFiles_moves in E1 as [H1 Hg1]; [|apply Hts; by left|done]. destruct e1 as [e1|]; [by intros [= <- <-]|].
  intros [H2 Hg2]%IH; [|intros x Hx; apply Hts; by right|by eapply msteps_kept]. split; [by etransitivity|]. intros He h Hh [Et|Ht]%elem_of_cons; [|by apply Hg2]. eapply gone_moves; [done|by apply Hg1|done].
Qed.

(** C21. The migration loses no file, wherever it is interrupted by errors of the store, which
    may come after a call had its effect, or by the end of the context: every file is in
    one of the layouts with its content, nothing else in the bucket is touched, and the
    migration can be run again; without an error every file is in the default layout,
    which the backend then uses. *)
Theorem migration_keeps_files be w w' be' e (Hp : s3_Prefix be = p) (Hm : migrating p (s3_objects w)) :
  Apply ctx_Err (Some be) w = (w', be', e) ->
  migrating p (s3_objects w') /\ kept p (s3_objects w) (s3_objects w') /\
  (e = None -> be' = Some (set_layout be (newLayout be)) /\ forall h, repo_handle h -> s3_objects w' !! new h = held p (s3_objects w) h).
Proof using Type.
  destruct be as [p' l]. cbn in Hp. subst p'. unfold Apply. change (set_layout (mkS3 p l) (oldLayout (mkS3 p l))) with legacy_be. change (newLayout (mkS3 p l)) with (newLayout legacy_be).
  destruct (move_types ctx_Err legacy_be (newLayout legacy_be) moved_types w) as [w1 e1] eqn:E1. apply move_types_moves in E1 as [Hs Hg]; [|done..]. destruct (msteps_kept _ _ _ Hs Hm) as [Hm' Hk].
  destruct e1 as [e1|]; intros [= <- <- <-]; (split_and!; [done|done|]); [done|]. intros _. split; [done|]. intros h Hh. destruct Hk as [Hk _]. rewrite <- Hk by done. unfold held.
  destruct (s3_objects w1 !! new h) as [f|] eqn:En; [done|]. symmetry. destruct (decide (h_Type h ∈ moved_types)) as [Ht|Ht]; [by apply Hg|]. by rewrite (unmoved_names p h Hh Ht).
Qed.

(** Directories that cannot be listed look empty. *)
Lemma ReadDir_hides_errors dir w : dir <> "" -> exists entries, (ReadDir dir w).2 = Ok entries.
Proof using Type.
  intros Hd. unfold ReadDir. destruct (String.eqb_spec dir ""); [done|]. destruct (ListObjects w _ false) as [w1 [listed [e|]]]; by eexists.
Qed.

Lemma Save_stores be h rd w w' : Save be h rd w = (w', None) -> s3_objects w' = <[Filename (s3_Layout be) h := rd]> (s3_objects w).
Proof using Type.
  unfold Save. destruct (PutObject w _ rd) as [w1 [size|e|m]] eqn:E; apply law_PutObject in E; [|done..]. destruct (Z.eqb_spec size (zlen rd)) as [Es|]; [|done]. intros [= <-]. by apply E.
Qed.
End Facts.

(** ** A store whose calls may fail *)

Record Bucket := mkBucket { bk_objects : gmap string (list byte); bk_faults : list (option (error * bool)) }.

(** The next call: without a fault it has its effect, with one it may. *)
Definition bucket_call (w : Bucket) (O : gmap string (list byte)) : Bucket * option error :=
  match bk_faults w with
  | Some (e, effect) :: rest => (mkBucket (if effect : bool then O else bk_objects w) rest, Some (ErrWrap e "S3 error"))
  | None :: rest => (mkBucket O rest, None)
  | [] => (mkBucket O [], None)
  end.

Lemma bucket_call_spec w O w' e : bucket_call w O = (w', e) -> (bk_objects w' = O \/ e <> None /\ bk_objects w' = bk_objects w) /\ e <> Some (ErrMsg "NoSuchKey").
Proof. unfold bucket_call. destruct (bk_faults w) as [|[[e0 []]|] rest]; intros [= <- <-]; auto. Qed.

Definition bucket_key (prefix : string) (recursive : bool) (key : string) : option string :=
  rest ← strip_prefix prefix key;
  if recursive || negb (has_slash rest) then Some key else Some (prefix +:+ match split_on slash rest with d :: _ => d | [] => "" end +:+ "/").

#[export] Instance Bucket_Client : S3Client Bucket := {|
  PutObject w name data := match bucket_call w (<[name := data]> (bk_objects w)) with (w, None) => (w, Ok (zlen data)) | (w, Some e) => (w, Err e) end;
  CopyObject w dst src := match bk_objects w !! src with Some f => bucket_call w (<[dst := f]> (bk_objects w)) | None => (w, Some (ErrMsg "NoSuchKey")) end;
  RemoveObject w name := bucket_call w (delete name (bk_objects w));
  ListObjects w prefix recursive := (w, (omap (fun kv => (fun k => (k, zlen kv.2)) <$> bucket_key prefix recursive kv.1) (map_to_list (bk_objects w)), None));
  NoSuchKey e := bool_decide (e = ErrMsg "NoSuchKey") |}.

Lemma strip_prefix_Some q s rest : strip_prefix q s = Some rest -> s = q +:+ rest.
Proof.
  revert s. induction q as [|c q IH]; intros s; [by intros [= ->]|]. destruct s as [|x s]; [done|]. cbn [strip_prefix]. destruct (Ascii.eqb_spec c x) as [->|]; [|done]. by intros ->%IH.
Qed.

Lemma has_slash_split s : has_slash s = true -> exists d rest, split_on slash s = d :: split_on slash rest /\ s = d +:+ "/" +:+ rest /\ has_slash d = false.
Proof.
  induction s as [|c s IH]; [done|]. cbn [has_slash split_on]. destruct (Ascii.eqb_spec c slash) as [->|Hc]; [intros _; by exists "", s|]. cbn [orb].
  intros (d & rest & E & -> & Hd)%IH. exists (String.String c d), rest. rewrite E. split_and!; [done|done|]. cbn. rewrite Hd, orb_false_r. by apply Ascii.eqb_neq.
Qed.

Lemma bucket_key_listed O prefix recursive key k : is_Some (O !! key) -> bucket_key prefix recursive key = Some k -> listed_in O prefix recursive k.
Proof.
  unfold bucket_key. intros Hk. destruct (strip_prefix prefix key) as [rest|] eqn:E; [|done]. apply strip_prefix_Some in E as ->. cbn [mbind option_bind].
  destruct recursive; [cbn; intros [= <-]; by apply listed_object; [|left]|]. cbn [orb]. destruct (has_slash rest) eqn:Hs; cbn [negb]; intros [= <-]; [|by apply listed_object; [|right]].
  destruct (has_slash_split rest Hs) as (d & r & -> & -> & Hd). by apply listed_dir with r.
Qed.

#[export] Program Instance Bucket_Laws : S3Laws Bucket := {| s3_objects := bk_objects |}.
Next Obligation.
  intros w name data w' r. cbn [PutObject Bucket_Client]. destruct (bucket_call w _) as [w1 [e|]] eqn:E; apply bucket_call_spec in E as [[E|[? E]] _]; by intros [= <- <-].
Qed.
Next Obligation.
  intros w dst src w' e. cbn [CopyObject Bucket_Client NoSuchKey]. destruct (bk_objects w !! src) as [f|] eqn:Ef; [|intros [= <- <-]; by split; [left|]].
  intros [[E|[Hn E]] Hk]%bucket_call_spec; (split; [|intros e0 -> Hb%bool_decide_eq_true; by subst]); [right; by exists f|by left].
Qed.
Next Obligation. intros w name w' e. cbn [RemoveObject Bucket_Client]. by intros [? _]%bucket_call_spec. Qed.
Next Obligation.
  intros w prefix recursive w' listed err. cbn [ListObjects Bucket_Client]. intros [= <- <- <-]. split_and!; [done| |].
  - apply Forall_forall. intros k. rewrite list_elem_of_fmap. intros ([k' n] & -> & Hin). apply list_elem_of_omap in Hin as ([key f] & Hkey & Hb). cbn in Hb.
    destruct (bucket_key prefix recursive key) as [k1|] eqn:Ek; [|done]. injection Hb as <- _. cbn. eapply bucket_key_listed; [|exact Ek]. apply elem_of_map_to_list in Hkey. by eexists.
  - intros _ rest [f Hf] Hr. apply list_elem_of_fmap. exists (prefix +:+ rest, zlen f). split; [done|]. apply list_elem_of_omap. exists (prefix +:+ rest, f). split; [by apply elem_of_map_to_list|]. cbn.
    unfold bucket_key. rewrite strip_prefix_app. cbn. by destruct Hr as [-> | ->]; [|rewrite orb_true_r].
Qed.

(** A pack and a snapshot in the legacy layout; the copy of the pack fails after it had
    its effect, and then its removal. *)
Definition wit_handles : list Handle := [mkHandle PackFile false (ID_String (copy_id ["p"%byte])); mkHandle SnapshotFile false (ID_String (copy_id ["s"%byte]))].
Definition wit_s3 : S3Backend := mkS3 "repo" (S3LegacyLayout (mkLayout "" "repo" path_Join)).
Definition wit_objects : gmap string (list byte) := list_to_map ((fun h => (Filename (s3_Layout wit_s3) h, ["x"%byte])) <$> wit_handles).
Definition wit_bucket : Bucket := mkBucket wit_objects [Some (ErrMsg "timeout", false); None; None; Some (ErrMsg "timeout", true); None; Some (ErrMsg "timeout", false)].

Example wit_migration :
  let '(w, be, e) := Apply (fun _ => None) (Some wit_s3) wit_bucket in
  (elements (dom (bk_objects w)), Name <$> (s3_Layout <$> be), e) = (Filename (newLayout wit_s3) <$> rev wit_handles, Some "default", None).
Proof. vm_compute. done. Qed.

Lemma wit_objects_names k : is_Some (wit_objects !! k) -> exists h, repo_handle h /\ h_Type h ∈ moved_types /\ k = Filename (s3_Layout wit_s3) h.
Proof.
  intros [x Hx]. apply elem_of_list_to_map_2, list_elem_of_fmap in Hx as (h & [= -> _] & Hh). exists h. unfold wit_handles in Hh. rewrite !elem_of_cons, elem_of_nil in Hh.
  unfold repo_handle, layoutTypes, moved_types. rewrite !elem_of_cons. destruct Hh as [->|[->|[]]]; (split_and!; [right; split; [auto|by eexists]|auto|done]).
Qed.

Lemma wit_migrating : migrating "repo" wit_objects.
Proof.
  split.
  - intros t rest _ (h & Hh & _ & E)%wit_objects_names. exists h, (s3_Layout wit_s3). rewrite E. split; [by left|done].
  - intros h f g Hh _ Hg. destruct (wit_objects_names (Filename (DefaultLayout (mkLayout "" "repo" path_Join)) h)) as (h0 & Hh0 & Ht & E); [by eexists|]. exfalso.
    apply (moved_names "repo" h0 Hh0 Ht). change (Filename (s3_Layout wit_s3) h0) with (Filename (S3LegacyLayout (mkLayout "" "repo" path_Join)) h0) in E. rewrite <- E.
    apply (Filename_canon "repo"); [by right|done|done|]. eapply (names_inj "repo"); [by apply new_file|]. rewrite E. by apply old_file.
Qed.

Lemma migration_keeps_files_witness :
  let '(w, be, e) := Apply (fun _ => None) (Some wit_s3) wit_bucket in e = None /\ kept "repo" wit_objects (bk_objects w).
Proof.
  destruct (Apply (fun _ => None) (Some wit_s3) wit_bucket) as [[w be] e] eqn:E. split; [by apply (f_equal snd) in E; vm_compute in E|].
  assert (migrating "repo" (s3_objects wit_bucket)) as Hm by exact wit_migrating.
  apply (migration_keeps_files (fun _ => None) "repo" wit_s3 wit_bucket w be e eq_refl Hm E).
Defined.
