(* ===== verification/UiFormat.v ===== *)
(** Sizes and durations as text (src/ui/format.go).

    Numbers with a fraction are left out: the functions that print those use floating
    point. *)

From S2P Require Import Prelude Bytes GoString Restic.

#[local] Open Scope Z_scope.

(** * Parsing integers *)

Definition ErrSyntax : error := ErrMsg "invalid syntax".
Definition ErrRange : error := ErrMsg "value out of range".

Definition char_digit (c : Ascii.ascii) : Z := code c - 48.

(** The loop of [strconv.ParseUint] for 10 and 64 bits: it stops at the first digit that
    is too much. *)
Fixpoint parse_uint (s : string) (n : Z) : outcome Z :=
  match s with
  | EmptyString => Ok n
  | String.String c s =>
      if (0 <=? char_digit c) && (char_digit c <=? 9) then
        let n := 10 * n + char_digit c in if 2 ^ 64 <=? n then Err ErrRange else parse_uint s n
      else Err ErrSyntax
  end.
Definition ParseUint64 (s : string) : outcome Z := if String.eqb s "" then Err ErrSyntax else parse_uint s 0.

(** [strconv.ParseInt]. *)
Definition ParseInt (s : string) : outcome Z :=
  let '(neg, digits) := match s with
    | String.String c rest => if is_code 43 c then (false, rest) else if is_code 45 c then (true, rest) else (false, s)
    | EmptyString => (false, s)
    end in
  try un <- ParseUint64 digits;
  if neg then if 2 ^ 63 <? un then Err ErrRange else Ok (- un)
  else if 2 ^ 63 <=? un then Err ErrRange else Ok un.

(** * The formats *)

Fixpoint last_char (s : string) : option Ascii.ascii :=
  match s with EmptyString => None | String.String c EmptyString => Some c | String.String _ s => last_char s end.

(** What a suffix stands for. *)
Definition size_unit (c : Ascii.ascii) : option Z :=
  if is_code 98 c || is_code 66 c then Some 1
  else if is_code 107 c || is_code 75 c then Some 1024
  else if is_code 109 c || is_code 77 c then Some (1024 * 1024)
  else if is_code 103 c || is_code 71 c then Some (1024 * 1024 * 1024)
  else if is_code 116 c || is_code 84 c then Some (1024 * 1024 * 1024 * 1024)
  else None.

(** [bits.Mul64]: the halves of the product. *)
Definition Mul64 (x y : Z) : Z * Z := (x * y / 2 ^ 64, u64 (x * y)).

(** The text of the number and the unit: the [switch] on the last byte. *)
Definition size_parts (s : string) : option (string * Z) :=
  c ← last_char s;
  Some (match size_unit c with Some unit_ => (take_bytes (String.length s - 1) s, unit_) | None => (s, 1) end).

Definition ParseBytes (s : string) : outcome Z :=
  match size_parts s with
  | None => Err (ErrMsg "expected size, got empty string")
  | Some (numStr, unit_) =>
      try value <- ParseInt numStr;
      let '(hi, lo) := Mul64 (u64 value) unit_ in
      let value := i64 lo in
      if negb (hi =? 0) || (value <? 0) then Err (ErrWrap ErrRange "ParseSize: %q") else Ok value
  end.

(** [%02d] of a number that is not negative. *)
Definition pad2 (n : Z) : string := if n <? 10 then "0" +:+ pretty n else pretty n.

Definition FormatSeconds (sec : Z) : string :=
  let hours := sec / 3600 in
  let sec := u64 (sec - hours * 3600) in
  let min := sec / 60 in
  let sec := u64 (sec - min * 60) in
  if 0 <? hours then pretty hours +:+ ":" +:+ pad2 min +:+ ":" +:+ pad2 sec else pretty min +:+ ":" +:+ pad2 sec.

(** [FormatDuration]: a duration is a number of nanoseconds. *)
Definition FormatDuration (d : Z) : string := FormatSeconds (u64 (Z.quot d 1000000000)).

Example format_tests :
  ParseBytes "5k" = Ok 5120 /\ ParseBytes "1G" = Ok 1073741824 /\ ParseBytes "8388607T" = Ok 9223370937343148032 /\ ParseBytes "8388608T" = Err (ErrWrap ErrRange "ParseSize: %q") /\
  ParseBytes "-1" = Err (ErrWrap ErrRange "ParseSize: %q") /\ ParseBytes "k" = Err ErrSyntax /\ ParseBytes "9223372036854775808" = Err ErrRange /\
  FormatSeconds 5 = "0:05" /\ FormatSeconds 3661 = "1:01:01" /\ FormatDuration 61999999999 = "1:01".
Proof. by vm_compute. Qed.

(** * Correctness *)

Lemma parse_uint_range s n v : 0 <= n < 2 ^ 64 -> parse_uint s n = Ok v -> 0 <= v < 2 ^ 64.
Proof.
  revert n. induction s as [|c s IH]; intros n Hn; cbn [parse_uint]; [by intros [= <-]|].
  destruct (Z.leb_spec 0 (char_digit c)); [|done]. destruct (Z.leb_spec (char_digit c) 9); [|done]. cbn [andb].
  destruct (Z.leb_spec (2 ^ 64) (10 * n + char_digit c)); [done|]. apply IH. lia.
Qed.

Lemma ParseInt_range s v : ParseInt s = Ok v -> - 2 ^ 63 <= v < 2 ^ 63.
Proof.
  unfold ParseInt. destruct (match s with String.String _ _ => _ | _ => _ end) as [neg digits]. unfold ParseUint64. destruct (String.eqb digits ""); [done|].
  destruct (parse_uint digits 0) as [un|e|p] eqn:E; [|done..]. apply parse_uint_range in E; [|lia]. cbn [mbind outcome_bind].
  destruct neg; [destruct (Z.ltb_spec (2 ^ 63) un); [done|]|destruct (Z.leb_spec (2 ^ 63) un); [done|]]; intros [= <-]; lia.
Qed.

Lemma size_unit_pos c u : size_unit c = Some u -> 1 <= u <= 2 ^ 40.
Proof. unfold size_unit. intros Hs. repeat case_match; simplify_eq; lia. Qed.

Lemma size_parts_unit s numStr unit_ : size_parts s = Some (numStr, unit_) -> 1 <= unit_ <= 2 ^ 40.
Proof.
  unfold size_parts. destruct (last_char s) as [c|]; [|done]. cbn [mbind option_bind]. destruct (size_unit c) as [u|] eqn:E; intros [= _ <-]; [by eapply size_unit_pos|lia].
Qed.

(** Products of machine words do not go unnoticed: a size is accepted exactly if the
    number times the unit, computed without bounds, is a size of 64 bits with sign. *)
Theorem ParseBytes_spec (s : string) (v : Z) :
  ParseBytes s = Ok v <-> exists numStr unit_ n, size_parts s = Some (numStr, unit_) /\ ParseInt numStr = Ok n /\ v = n * unit_ /\ 0 <= v < 2 ^ 63.
Proof.
  unfold ParseBytes. destruct (size_parts s) as [[numStr unit_]|] eqn:Es; [|by split; [|intros (? & ? & ? & ? & _)]]. pose proof (size_parts_unit _ _ _ Es) as Hu.
  transitivity (exists n, ParseInt numStr = Ok n /\ v = n * unit_ /\ 0 <= v < 2 ^ 63); [|by split; [intros (n & Hn); exists numStr, unit_, n|intros (? & ? & n & [= <- <-] & Hn); exists n]].
  destruct (ParseInt numStr) as [n|e|p] eqn:En; [|split; [done|by intros (? & ? & _)]..]. apply ParseInt_range in En. cbn [mbind outcome_bind]. unfold Mul64.
  assert (u64 n = if n <? 0 then n + 2 ^ 64 else n) as ->.
  { unfold u64. destruct (Z.ltb_spec n 0); [|by rewrite Z.mod_small by lia]. rewrite <- (Z.mod_add n 1 (2 ^ 64)) by lia. rewrite Z.mod_small by lia. lia. }
  assert (forall x, 0 <= x -> (negb (x * unit_ / 2 ^ 64 =? 0) || (i64 (u64 (x * unit_)) <? 0)) = false <-> x * unit_ < 2 ^ 63) as Hx.
  { intros x Hpos. assert (0 <= x * unit_) as H0 by nia. rewrite orb_false_iff, negb_false_iff, Z.eqb_eq, Z.ltb_ge. split.
    - intros [Hd Hi]. apply Z.div_small_iff in Hd as [Hd|?]; [|lia..]. unfold u64, i64 in Hi. rewrite (Z.mod_small (x * unit_)) in Hi by lia. destruct (Z.lt_ge_cases (x * unit_) (2 ^ 63)); [done|].
      replace (x * unit_ + 2 ^ 63) with (x * unit_ - 2 ^ 63 + 1 * 2 ^ 64) in Hi by lia. rewrite Z.mod_add, Z.mod_small in Hi by lia. lia.
    - intros Hlt. rewrite Z.div_small by lia. split; [done|]. unfold u64, i64. rewrite (Z.mod_small (x * unit_)), Z.mod_small by lia. lia. }
  set (x := if n <? 0 then n + 2 ^ 64 else n). assert (0 <= x) as Hx0 by (unfold x; destruct (Z.ltb_spec n 0); lia). specialize (Hx x Hx0).
  destruct (negb _ || _) eqn:Eb.
  - split; [done|]. intros (n' & [= <-] & -> & Hr). exfalso. assert (0 <= n) by nia. assert (x = n) as E by (unfold x; destruct (Z.ltb_spec n 0); lia). assert (x * unit_ < 2 ^ 63) as Hlt by (rewrite E; lia). by apply (proj2 Hx) in Hlt.
  - apply proj1 in Hx. specialize (Hx eq_refl). assert (x = n) as E by (unfold x in *; destruct (Z.ltb_spec n 0); [nia|done]). rewrite E in *.
    assert (i64 (u64 (n * unit_)) = n * unit_) as -> by (unfold u64, i64; rewrite (Z.mod_small (n * unit_)), Z.mod_small by nia; lia).
    split; [intros [= <-]; exists n; split_and!; [done|done|nia|done]|by intros (n' & [= <-] & -> & _)].
Qed.

(** ** Durations *)

Lemma pretty_digit x : (x < 10)%N -> char_digit (pretty_N_char x) = Z.of_N x.
Proof. intros Hx. assert (x = 0 \/ x = 1 \/ x = 2 \/ x = 3 \/ x = 4 \/ x = 5 \/ x = 6 \/ x = 7 \/ x = 8 \/ x = 9)%N as H by lia. by repeat destruct H as [->|H]; [..|subst x]. Qed.

(** Reading the digits that are printed. *)
Lemma parse_pretty_go x s : Z.of_N x < 2 ^ 64 -> parse_uint (pretty_N_go x s) 0 = parse_uint s (Z.of_N x).
Proof.
  revert s. induction (N.lt_wf_0 x) as [x _ IH]. intros s Hx. destruct (decide (x = 0)%N) as [->|Hne]; [by rewrite pretty_N_go_0|].
  rewrite pretty_N_go_step by lia. assert (x `div` 10 < x)%N as Hd by (apply N.div_lt; lia). rewrite IH; [|done|by etransitivity; [apply N2Z.inj_lt|]]. cbn [parse_uint].
  assert (x `mod` 10 < 10)%N as Hm by (by apply N.mod_lt). rewrite pretty_digit by done.
  pose proof (N.div_mod x 10 ltac:(done)) as Hdm. revert Hdm Hm. generalize (x `div` 10)%N (x `mod` 10)%N. intros q r Hdm Hm.
  destruct (Z.leb_spec 0 (Z.of_N r)); [|lia]. destruct (Z.leb_spec (Z.of_N r) 9); [|lia]. cbn [andb].
  replace (10 * Z.of_N q + Z.of_N r) with (Z.of_N x) by lia. by destruct (Z.leb_spec (2 ^ 64) (Z.of_N x)); [lia|].
Qed.

Lemma parse_pretty n : 0 <= n < 2 ^ 64 -> parse_uint (pretty n) 0 = Ok n.
Proof.
  intros Hn. destruct n as [|n|n]; [done| |lia]. change (pretty (Z.pos n)) with (pretty (N.pos n)). unfold pretty, pretty_N. rewrite decide_False by done. rewrite parse_pretty_go by lia. done.
Qed.

Lemma pretty_nonempty n : 0 <= n < 2 ^ 64 -> pretty n <> "".
Proof. intros Hn E. pose proof (parse_pretty n Hn) as Hp. rewrite E in Hp. cbn in Hp. by injection Hp as <-. Qed.

(** Text made of digits. *)
Lemma parse_uint_digits s n v : parse_uint s n = Ok v -> Forall (fun c => 48 <= code c <= 57) (String.list_ascii_of_string s).
Proof.
  revert n. induction s as [|c s IH]; intros n; [constructor|]. cbn [parse_uint String.list_ascii_of_string]. unfold char_digit.
  destruct (Z.leb_spec 0 (code c - 48)); [|done]. destruct (Z.leb_spec (code c - 48) 9); [|done]. cbn [andb]. destruct (2 ^ 64 <=? _); [done|]. intros E%IH. constructor; [lia|done].
Qed.

Lemma ParseInt_digits s n : s <> "" -> parse_uint s 0 = Ok n -> n < 2 ^ 63 -> ParseInt s = Ok n.
Proof.
  intros Hs Hp Hn. pose proof (parse_uint_digits _ _ _ Hp) as Hd. unfold ParseInt. destruct s as [|c s]; [done|]. cbn in Hd. apply Forall_cons in Hd as [Hc _].
  unfold is_code. destruct (Z.eqb_spec (code c) 43); [lia|]. destruct (Z.eqb_spec (code c) 45); [lia|]. unfold ParseUint64. cbn [String.eqb]. rewrite Hp. cbn. by destruct (Z.leb_spec (2 ^ 63) n); [lia|].
Qed.

Definition time_colon : Ascii.ascii := Ascii.ascii_of_nat 58.

Lemma split_digits s n v : parse_uint s n = Ok v -> split_on time_colon s = [s].
Proof.
  intros Hd%parse_uint_digits. induction s as [|c s IH]; [done|]. cbn in Hd. apply Forall_cons in Hd as [Hc Hd]. cbn [split_on]. destruct (Ascii.eqb_spec c time_colon) as [->|]; [change (code time_colon) with 58 in Hc; lia|]. by rewrite IH.
Qed.

Lemma split_colon a b : split_on time_colon (a +:+ ":" +:+ b) = split_on time_colon a ++ split_on time_colon b.
Proof. apply (split_on_app time_colon). Qed.

Lemma parse_pad2 n : 0 <= n < 60 -> parse_uint (pad2 n) 0 = Ok n /\ pad2 n <> "".
Proof.
  intros Hn. assert (pretty n <> "") as Hne by (apply pretty_nonempty; lia).
  unfold pad2. destruct (n <? 10); [|split; [apply parse_pretty; lia|done]]. split; [|done]. change ("0" +:+ pretty n) with (String.String (Ascii.ascii_of_nat 48) (pretty n)). cbn [parse_uint]. exact (parse_pretty n ltac:(lia)).
Qed.

(** The reader of the format: the parts between colons, to the base 60. *)
Definition parse_clock (s : string) : outcome Z := ofold (fun acc part => try n <- ParseInt part; Ok (60 * acc + n)) 0 (split_on time_colon s).

(** Nothing of a duration is lost in its text: reading the parts gives the seconds. *)
Theorem FormatSeconds_roundtrip sec (Hsec : 0 <= sec < 2 ^ 64) : parse_clock (FormatSeconds sec) = Ok sec.
Proof.
  unfold FormatSeconds. set (h := sec / 3600). assert (0 <= sec - h * 3600 < 3600 /\ 0 <= h < 2 ^ 63) as [Hr Hh].
  { pose proof (Z.div_mod sec 3600 ltac:(lia)). pose proof (Z.mod_pos_bound sec 3600 ltac:(lia)). unfold h. nia. }
  rewrite (u64_id (sec - h * 3600)) by (unfold is_u64; lia). set (m := (sec - h * 3600) / 60). assert (0 <= sec - h * 3600 - m * 60 < 60 /\ 0 <= m < 60) as [Hs Hm].
  { pose proof (Z.div_mod (sec - h * 3600) 60 ltac:(lia)). pose proof (Z.mod_pos_bound (sec - h * 3600) 60 ltac:(lia)). unfold m. nia. }
  rewrite u64_id by (unfold is_u64; lia). set (s := sec - h * 3600 - m * 60) in *.
  destruct (parse_pad2 s ltac:(lia)) as [Es Ns]. destruct (parse_pad2 m ltac:(lia)) as [Em Nm].
  assert (forall n, 0 <= n < 2 ^ 63 -> split_on time_colon (pretty n) = [pretty n] /\ ParseInt (pretty n) = Ok n) as Hp.
  { intros n Hn. pose proof (parse_pretty n ltac:(lia)) as E. split; [by eapply split_digits|]. apply ParseInt_digits; [apply pretty_nonempty; lia|done|lia]. }
  unfold parse_clock. destruct (Z.ltb_spec 0 h); rewrite !split_colon.
  - destruct (Hp h ltac:(lia)) as [-> Ph]. rewrite (split_digits _ _ _ Em), (split_digits _ _ _ Es). cbn [app ofold]. rewrite Ph, (ParseInt_digits _ _ Nm Em), (ParseInt_digits _ _ Ns Es) by lia.
    cbn [mbind outcome_bind]. f_equal. lia.
  - destruct (Hp m ltac:(lia)) as [-> Pm]. rewrite (split_digits _ _ _ Es). cbn [app ofold]. rewrite Pm, (ParseInt_digits _ _ Ns Es) by lia. cbn [mbind outcome_bind]. f_equal. lia.
Qed.
