(* ===== verification/Progress.v ===== *)
(** Progress of backups and restores (src/ui/progress/counter.go,
    src/ui/backup/progress.go, rate_estimator.go, src/ui/restore/progress.go).

    A call is what it does under the mutex; a method that takes it several times is the
    list of these parts, between which others run.  Times are nanoseconds.  The printers
    and the goroutine that calls them are left out, and the division of floating point
    numbers in [rate] is a parameter. *)

From S2P Require Import Prelude Bytes GoString Restic Tree FileSaver Scanner.

#[local] Open Scope Z_scope.

(** * Counters *)

Record ProgressCounter := mkProgressCounter { pc_value : Z; pc_max : Z }.

(** A nil counter does nothing. *)
Definition Counter_Add (v : Z) (c : option ProgressCounter) : option ProgressCounter := (fun c => mkProgressCounter (u64 (pc_value c + v)) (pc_max c)) <$> c.
Definition SetMax (max : Z) (c : option ProgressCounter) : option ProgressCounter := (fun c => mkProgressCounter (pc_value c) max) <$> c.
Definition Counter_Get (c : ProgressCounter) : Z * Z := (pc_value c, pc_max c).

(** * The rate of a backup *)

Record rateBucket := mkRateBucket { rb_totalBytes : Z; rb_end : Z }.
Record rateEstimator := mkEstimator { re_buckets : list rateBucket; re_start : Z; re_totalBytes : Z }.

Definition newRateEstimator (start : Z) : rateEstimator := mkEstimator [] start 0.

Definition bucketWidth : Z := 1000000000.
Definition minRateEstimatorBytes : Z := 100 * 1000 * 1000.
Definition minRateEstimatorBuckets : nat := 20.
Definition minRateEstimatorMinutes : Z := 2.

(** The loop of [trim], at the time where the window starts. *)
Fixpoint trim_loop (window : Z) (buckets : list rateBucket) (start totalBytes : Z) : rateEstimator :=
  match buckets with
  | [] => mkEstimator [] start totalBytes
  | b :: rest =>
      if Nat.leb (length buckets) minRateEstimatorBuckets then mkEstimator buckets start totalBytes
      else if window <? rb_end b then mkEstimator buckets start totalBytes
      else
        let total := u64 (totalBytes - rb_totalBytes b) in
        if total <? minRateEstimatorBytes then mkEstimator buckets start totalBytes
        else trim_loop window rest (rb_end b) total
  end.
Definition trim (now : Z) (r : rateEstimator) : rateEstimator :=
  trim_loop (now - minRateEstimatorMinutes * 60 * 1000000000) (re_buckets r) (re_start r) (re_totalBytes r).

Definition add_bytes (n : Z) (b : rateBucket) : rateBucket := mkRateBucket (u64 (rb_totalBytes b + n)) (rb_end b).

(** The buckets with the bytes added to the last one, which may be new. *)
Fixpoint record_tail (now n : Z) (buckets : list rateBucket) : list rateBucket :=
  match buckets with
  | [] => [add_bytes n (mkRateBucket 0 (now + bucketWidth))]
  | [tail_] => if now <? rb_end tail_ then [add_bytes n tail_] else [tail_; add_bytes n (mkRateBucket 0 (now + bucketWidth))]
  | b :: rest => b :: record_tail now n rest
  end.

Definition recordBytes (now n : Z) (r : rateEstimator) : rateEstimator :=
  if n =? 0 then r else trim now (mkEstimator (record_tail now n (re_buckets r)) (re_start r) (u64 (re_totalBytes r + n))).

(** [quotient] of the bytes and the elapsed time. *)
Definition rate {F : Type} (quotient : Z -> Z -> F) (zero : F) (now : Z) (r : rateEstimator) : rateEstimator * F :=
  let r := trim now r in (r, if re_start r <? now then quotient (re_totalBytes r) (now - re_start r) else zero).

(** * The progress of a backup *)

Record Counter := mkCounter { ct_Files : Z; ct_Dirs : Z; ct_Bytes : Z }.
Record Changes := mkChanges { ch_New : Z; ch_Changed : Z; ch_Unchanged : Z }.
Record Summary := mkSummary { su_Files : Changes; su_Dirs : Changes; su_ProcessedBytes : Z; su_ItemStats : ItemStats }.

Record Progress := mkProgress {
  pr_estimator : rateEstimator;
  pr_scanStarted : bool;
  pr_scanFinished : bool;
  pr_currentFiles : gset string;
  pr_processed : Counter;
  pr_total : Counter;
  pr_errors : Z;
  pr_summary : Summary }.

Definition no_changes : Changes := mkChanges 0 0 0.
Definition NewProgress (now : Z) : Progress :=
  mkProgress (newRateEstimator now) false false ∅ (mkCounter 0 0 0) (mkCounter 0 0 0) 0 (mkSummary no_changes no_changes 0 no_stats).

Definition set_currentFiles (p : Progress) (files : gset string) : Progress :=
  mkProgress (pr_estimator p) (pr_scanStarted p) (pr_scanFinished p) files (pr_processed p) (pr_total p) (pr_errors p) (pr_summary p).
Definition set_summary (p : Progress) (s : Summary) : Progress :=
  mkProgress (pr_estimator p) (pr_scanStarted p) (pr_scanFinished p) (pr_currentFiles p) (pr_processed p) (pr_total p) (pr_errors p) s.

Definition addProcessed (now : Z) (c : Counter) (p : Progress) : Progress :=
  let d := pr_processed p in
  mkProgress (recordBytes now (ct_Bytes c) (pr_estimator p)) true (pr_scanFinished p) (pr_currentFiles p)
    (mkCounter (u64 (ct_Files d + ct_Files c)) (u64 (ct_Dirs d + ct_Dirs c)) (u64 (ct_Bytes d + ct_Bytes c))) (pr_total p) (pr_errors p) (pr_summary p).

(** What became of an item. *)
Inductive change := IsNew | IsUnchanged | IsChanged.
Definition count_change (k : change) (c : Changes) : Changes :=
  match k with
  | IsNew => mkChanges (u64 (ch_New c + 1)) (ch_Changed c) (ch_Unchanged c)
  | IsUnchanged => mkChanges (ch_New c) (ch_Changed c) (u64 (ch_Unchanged c + 1))
  | IsChanged => mkChanges (ch_New c) (u64 (ch_Changed c + 1)) (ch_Unchanged c)
  end.

(** What a method does while it holds the mutex. *)
Inductive section :=
  | AddError
  | StartFile (filename : string)
  | CompleteBlob (bytes : Z)
  | AddStats (s : ItemStats) (size : option Z)
  | Forget (item : string)
  | ProcessedDir
  | CountDir (k : change)
  | ProcessedFile (item : string)
  | CountFile (k : change)
  | ReportTotal (item : string) (s : ScanStats).

Definition run_section (now : Z) (s : section) (p : Progress) : Progress :=
  let sum := pr_summary p in
  match s with
  | AddError => mkProgress (pr_estimator p) true (pr_scanFinished p) (pr_currentFiles p) (pr_processed p) (pr_total p) (u64 (pr_errors p + 1)) sum
  | StartFile filename => set_currentFiles p ({[filename]} ∪ pr_currentFiles p)
  | CompleteBlob bytes => addProcessed now (mkCounter 0 0 bytes) p
  | AddStats s size =>
      set_summary p (mkSummary (su_Files sum) (su_Dirs sum) (match size with Some n => u64 (su_ProcessedBytes sum + n) | None => su_ProcessedBytes sum end) (ItemStats_Add (su_ItemStats sum) s))
  | Forget item => set_currentFiles p (pr_currentFiles p ∖ {[item]})
  | ProcessedDir => addProcessed now (mkCounter 0 1 0) p
  | CountDir k => set_summary p (mkSummary (su_Files sum) (count_change k (su_Dirs sum)) (su_ProcessedBytes sum) (su_ItemStats sum))
  | ProcessedFile item => let p := addProcessed now (mkCounter 1 0 0) p in set_currentFiles p (pr_currentFiles p ∖ {[item]})
  | CountFile k => set_summary p (mkSummary (count_change k (su_Files sum)) (su_Dirs sum) (su_ProcessedBytes sum) (su_ItemStats sum))
  | ReportTotal item s =>
      mkProgress (pr_estimator p) true (pr_scanFinished p || String.eqb item "") (pr_currentFiles p) (pr_processed p)
        (mkCounter (sc_Files s) (sc_Dirs s) (sc_Bytes s)) (pr_errors p) sum
  end.

Definition change_of (previous : option Node) (current : Node) : change :=
  match previous with None => IsNew | Some previous => if Node_Equals previous current then IsUnchanged else IsChanged end.

(** [CompleteItem], part by part. *)
Definition CompleteItem (item : string) (previous current : option Node) (s : ItemStats) : list section :=
  AddStats s (n_Size <$> current) ::
  match current with
  | None => [Forget item]
  | Some current =>
      if String.eqb (n_Type current) "dir" then [ProcessedDir; CountDir (change_of previous current)]
      else if String.eqb (n_Type current) "file" then [ProcessedFile item; CountFile (change_of previous current)]
      else []
  end.

(** Sections of all goroutines, in the order they took the mutex, with the time. *)
Definition run_sections (l : list (Z * section)) (p : Progress) : Progress := fold_left (fun p x => run_section x.1 x.2 p) l p.

(** * The progress of a restore *)

Record progressInfoEntry := mkEntry { bytesWritten : Z; bytesTotal : Z }.
Record RestoreProgress := mkRestoreProgress {
  progressInfoMap : gmap string progressInfoEntry;
  filesFinished : Z;
  filesTotal : Z;
  allBytesWritten : Z;
  allBytesTotal : Z }.

Definition restore_NewProgress : RestoreProgress := mkRestoreProgress ∅ 0 0 0 0.

Definition AddFile (size : Z) (p : RestoreProgress) : RestoreProgress :=
  mkRestoreProgress (progressInfoMap p) (filesFinished p) (u64 (filesTotal p + 1)) (allBytesWritten p) (u64 (allBytesTotal p + size)).

Definition AddProgress (name : string) (bytesWrittenPortion total : Z) (p : RestoreProgress) : RestoreProgress :=
  let entry := match progressInfoMap p !! name with Some e => e | None => mkEntry 0 total end in
  let entry := mkEntry (u64 (bytesWritten entry + bytesWrittenPortion)) (bytesTotal entry) in
  let all := u64 (allBytesWritten p + bytesWrittenPortion) in
  if bytesWritten entry =? bytesTotal entry
  then mkRestoreProgress (delete name (progressInfoMap p)) (u64 (filesFinished p + 1)) (filesTotal p) all (allBytesTotal p)
  else mkRestoreProgress (<[name := entry]> (progressInfoMap p)) (filesFinished p) (filesTotal p) all (allBytesTotal p).

(** * The rate counts what was recorded since its start *)

(** What was recorded at some times. *)
Definition recorded := list (Z * Z).
Fixpoint bytes_when (P : Z -> bool) (evs : recorded) : Z :=
  match evs with [] => 0 | (t, n) :: evs => (if P t then n else 0) + bytes_when P evs end.
Definition within (lo hi t : Z) : bool := (lo <=? t) && (t <? hi).
Definition since (lo t : Z) : bool := lo <=? t.

Lemma bytes_when_app P evs evs' : bytes_when P (evs ++ evs') = bytes_when P evs + bytes_when P evs'.
Proof. induction evs as [|[t n] evs IH]; [done|]. cbn. rewrite IH. lia. Qed.

Lemma bytes_when_ext P Q evs : (forall t n, (t, n) ∈ evs -> n <> 0 -> P t = Q t) -> bytes_when P evs = bytes_when Q evs.
Proof.
  induction evs as [|[t n] evs IH]; [done|]. intros H. cbn. rewrite IH by (intros t' n' Hin; apply H; by right). destruct (decide (n = 0)) as [->|Hn]; [by destruct (P t), (Q t)|]. by rewrite (H t n ltac:(left) Hn).
Qed.

Lemma bytes_when_split P Q evs : (forall t, P t = true -> Q t = true -> False) -> bytes_when (fun t => P t || Q t) evs = bytes_when P evs + bytes_when Q evs.
Proof.
  intros H. induction evs as [|[t n] evs IH]; [done|]. cbn. rewrite IH. specialize (H t). destruct (P t), (Q t); cbn; lia.
Qed.

Lemma bytes_when_le P evs : Forall (fun e : Z * Z => 0 <= e.2) evs -> 0 <= bytes_when P evs <= bytes_when (fun _ => true) evs.
Proof. induction 1 as [|[t n] evs Hn _ IH]; [done|]. cbn in *. destruct (P t); lia. Qed.

Lemma bytes_when_none P evs : (forall t n, (t, n) ∈ evs -> n <> 0 -> P t = false) -> bytes_when P evs = 0.
Proof. intros H. rewrite (bytes_when_ext P (fun _ => false)) by done. clear H. by induction evs as [|[t n] evs IH]. Qed.

Section Estimator.
Context (s0 : Z).

(** The state after the events from [s0] up to [now]: buckets one after the other, each with what
    was recorded in its second, and nothing since the start outside of them. *)
Record est_ok (evs : recorded) (now : Z) (r : rateEstimator) : Prop := {
  eo_sorted : StronglySorted (fun b c => rb_end b + bucketWidth <= rb_end c) (re_buckets r);
  eo_ends : Forall (fun b => re_start r + bucketWidth <= rb_end b <= now + bucketWidth) (re_buckets r);
  eo_bytes : Forall (fun b => rb_totalBytes b = u64 (bytes_when (within (rb_end b - bucketWidth) (rb_end b)) evs)) (re_buckets r);
  eo_covered : forall t n, (t, n) ∈ evs -> n <> 0 -> re_start r <= t -> exists b, b ∈ re_buckets r /\ rb_end b - bucketWidth <= t < rb_end b;
  eo_total : re_totalBytes r = u64 (bytes_when (since (re_start r)) evs);
  eo_now : s0 <= re_start r <= now /\ forall t n, (t, n) ∈ evs -> t <= now }.

Lemma trim_loop_ok evs now window buckets start total :
  window <= now -> est_ok evs now (mkEstimator buckets start total) -> est_ok evs now (trim_loop window buckets start total).
Proof.
  intros Hw. assert (0 < bucketWidth) as HW by done. revert start total. induction buckets as [|b rest IH]; intros start total Hok; [done|]. cbn [trim_loop].
  destruct (Nat.leb _ _); [done|]. destruct (Z.ltb_spec window (rb_end b)) as [|Hb]; [done|]. destruct (_ <? minRateEstimatorBytes); [done|]. apply IH.
  destruct Hok as [Hs He Hb' Hc Ht [Hn Hev]]. cbn [re_buckets re_start re_totalBytes] in *.
  apply StronglySorted_inv in Hs as [Hs Hlt]. apply Forall_cons in He as [Heb He]. apply Forall_cons in Hb' as [Hbb Hb']. rewrite Forall_forall in Hlt. cbn in Heb.
  assert (bytes_when (since start) evs = bytes_when (within (rb_end b - bucketWidth) (rb_end b)) evs + bytes_when (since (rb_end b)) evs) as Hsplit.
  { rewrite <- bytes_when_split; [apply bytes_when_ext|unfold within, since; intros t; lia]. intros t n Hin Hnz. unfold within, since.
    destruct (Z.leb_spec (rb_end b - bucketWidth) t), (Z.ltb_spec t (rb_end b)), (Z.leb_spec (rb_end b) t), (Z.leb_spec start t) as [Hst|]; cbn; try (done || lia). exfalso. destruct (Hc t n Hin Hnz Hst) as (c & [->|Hin']%elem_of_cons & Hr); [lia|]. specialize (Hlt c Hin'). cbn in Hlt. lia. }
  split; cbn [re_buckets re_start re_totalBytes]; [done| |done| | |split; [lia|done]].
  - apply Forall_forall. intros c Hin. rewrite Forall_forall in He. specialize (He c Hin). specialize (Hlt c Hin). cbn in *. lia.
  - intros t n Hin Hnz Hst. destruct (Hc t n Hin Hnz ltac:(lia)) as (c & [->|Hin']%elem_of_cons & Hr); [lia|by exists c].
  - rewrite Ht, Hbb, Hsplit. unfold u64. rewrite <- Zminus_mod. f_equal. lia.
Qed.

Lemma trim_ok evs now r : est_ok evs now r -> est_ok evs now (trim now r).
Proof. intros Hok. unfold trim. apply trim_loop_ok; [unfold minRateEstimatorMinutes; lia|by destruct r]. Qed.

Lemma record_tail_app now n l b :
  record_tail now n (l ++ [b]) = l ++ (if now <? rb_end b then [add_bytes n b] else [b; add_bytes n (mkRateBucket 0 (now + bucketWidth))]).
Proof. induction l as [|x l IH]; [cbn; by destruct (now <? rb_end b)|]. cbn [app record_tail]. rewrite IH. by destruct l. Qed.

Lemma later_ok evs now now' r n : now <= now' -> est_ok evs now r -> n = 0 -> est_ok (evs ++ [(now', n)]) now' r.
Proof.
  intros Hle [Hs He Hb Hc Ht [Hn Hev]] ->. assert (forall P, bytes_when P (evs ++ [(now', 0)]) = bytes_when P evs) as E by (intros P; rewrite bytes_when_app; cbn; destruct (P now'); lia).
  split; [done| | | | |split; [lia|]].
  - eapply Forall_impl; [exact He|]. cbn. lia.
  - eapply Forall_impl; [exact Hb|]. cbn. intros b. by rewrite E.
  - intros t m [Hin|[= -> ->]%list_elem_of_singleton]%elem_of_app; [by eapply Hc|done].
  - by rewrite E.
  - intros t m [Hin|[= -> ->]%list_elem_of_singleton]%elem_of_app; [|lia]. specialize (Hev t m Hin). lia.
Qed.

Lemma u64_bytes_app x P evs t n : x = u64 (bytes_when P evs) -> P t = true -> u64 (x + n) = u64 (bytes_when P (evs ++ [(t, n)])).
Proof. intros -> HP. rewrite bytes_when_app. cbn. rewrite HP. unfold u64. rewrite Zplus_mod_idemp_l. f_equal. lia. Qed.

Lemma bytes_app_outside P evs t n : P t = false -> bytes_when P (evs ++ [(t, n)]) = bytes_when P evs.
Proof. intros HP. rewrite bytes_when_app. cbn. rewrite HP. lia. Qed.

(** A bucket that ends before an event does not count it. *)
Lemma bucket_before evs now n b : rb_end b <= now -> bytes_when (within (rb_end b - bucketWidth) (rb_end b)) (evs ++ [(now, n)]) = bytes_when (within (rb_end b - bucketWidth) (rb_end b)) evs.
Proof. intros Hb. apply bytes_app_outside. unfold within. destruct (Z.ltb_spec now (rb_end b)); [lia|]. apply andb_false_r. Qed.

Lemma since_last lo now : lo <= now -> since lo now = true.
Proof. intros H. by apply Z.leb_le. Qed.

(** A new bucket after all others, which no earlier event is in. *)
Lemma new_bucket_ok evs now now' r n : now <= now' -> est_ok evs now r -> Forall (fun b => rb_end b <= now') (re_buckets r) -> n <> 0 ->
  est_ok (evs ++ [(now', n)]) now' (mkEstimator (re_buckets r ++ [add_bytes n (mkRateBucket 0 (now' + bucketWidth))]) (re_start r) (u64 (re_totalBytes r + n))).
Proof.
  intros Hle [Hs He Hb Hc Ht [Hn Hev]] Hends Hnz. assert (0 < bucketWidth) as HW by done. rewrite Forall_forall in Hends.
  split; cbn [re_buckets re_start re_totalBytes].
  - apply StronglySorted_app. split_and!; [|done|by repeat constructor]. intros b c Hin ->%list_elem_of_singleton. cbn. specialize (Hends b Hin). lia.
  - apply Forall_app. split; [eapply Forall_impl; [exact He|]; cbn; lia|]. repeat constructor; cbn; lia.
  - apply Forall_app. split.
    + apply Forall_forall. intros b Hin. rewrite Forall_forall in Hb. rewrite bucket_before by by apply Hends. by apply Hb.
    + repeat constructor. cbn. replace (now' + bucketWidth - bucketWidth) with now' by lia. apply (u64_bytes_app 0); [|unfold within; destruct (Z.leb_spec now' now'), (Z.ltb_spec now' (now' + bucketWidth)); done || lia].
      rewrite bytes_when_none; [done|]. intros t m Hin Hm. unfold within. destruct (Z.leb_spec now' t) as [Ht'|]; [|done]. exfalso. destruct (Hc t m Hin Hm ltac:(lia)) as (b & Hb' & Hr). specialize (Hends b Hb'). lia.
  - intros t m [Hin|[= -> ->]%list_elem_of_singleton]%elem_of_app Hm Hst.
    + destruct (Hc t m Hin Hm Hst) as (b & Hb' & Hr). exists b. split; [apply elem_of_app; by left|done].
    + eexists. split; [apply elem_of_app; right; by left|]. cbn. lia.
  - apply u64_bytes_app; [done|]. apply since_last. lia.
  - split; [lia|]. intros t m [Hin|[= -> ->]%list_elem_of_singleton]%elem_of_app; [|lia]. specialize (Hev t m Hin). lia.
Qed.

(** An event in the last bucket. *)
Lemma last_bucket_ok evs now now' l b start total n : now <= now' -> est_ok evs now (mkEstimator (l ++ [b]) start total) -> now' < rb_end b ->
  est_ok (evs ++ [(now', n)]) now' (mkEstimator (l ++ [add_bytes n b]) start (u64 (total + n))).
Proof.
  intros Hle [Hs He Hb Hc Ht [Hn Hev]] Hlt. cbn [re_buckets re_start re_totalBytes] in *.
  apply Forall_app in He as [He Heb]. apply Forall_cons in Heb as [Heb _]. cbn in Heb. apply Forall_app in Hb as [Hb Hbb]. apply Forall_cons in Hbb as [Hbb _].
  apply StronglySorted_app in Hs as (Hord & Hs & _). assert (forall c, c ∈ l -> rb_end c + bucketWidth <= rb_end b) as Hord' by (intros c Hin; apply Hord; [done|by left]).
  split; cbn [re_buckets re_start re_totalBytes].
  - apply StronglySorted_app. split_and!; [|done|by repeat constructor]. intros c d Hin ->%list_elem_of_singleton. by apply Hord'.
  - apply Forall_app. split; [eapply Forall_impl; [exact He|]; cbn; lia|]. repeat constructor; cbn; lia.
  - apply Forall_app. split.
    + apply Forall_forall. intros c Hin. rewrite Forall_forall in Hb. specialize (Hord' c Hin). rewrite bucket_before by lia. by apply Hb.
    + repeat constructor. cbn. apply u64_bytes_app; [done|]. unfold within. destruct (Z.leb_spec (rb_end b - bucketWidth) now'), (Z.ltb_spec now' (rb_end b)); done || lia.
  - intros t m [Hin|[= -> ->]%list_elem_of_singleton]%elem_of_app Hm Hst.
    + destruct (Hc t m Hin Hm Hst) as (c & [Hc'| ->%list_elem_of_singleton]%elem_of_app & Hr); [exists c|exists (add_bytes n b)]; (split; [apply elem_of_app|done]); [by left|right; by left].
    + exists (add_bytes n b). split; [apply elem_of_app; right; by left|]. cbn. lia.
  - apply u64_bytes_app; [done|]. apply since_last. lia.
  - split; [lia|]. intros t m [Hin|[= -> ->]%list_elem_of_singleton]%elem_of_app; [|lia]. specialize (Hev t m Hin). lia.
Qed.

Lemma recordBytes_ok evs now now' n r : now <= now' -> est_ok evs now r -> est_ok (evs ++ [(now', n)]) now' (recordBytes now' n r).
Proof.
  intros Hle Hok. unfold recordBytes. destruct (Z.eqb_spec n 0) as [->|Hnz]; [by apply later_ok with now|]. apply trim_ok.
  destruct r as [bs start total]. cbn [re_buckets re_start re_totalBytes]. destruct bs as [|b l _] using rev_ind; [by apply (new_bucket_ok evs now now' (mkEstimator [] start total))|].
  rewrite record_tail_app. destruct (Z.ltb_spec now' (rb_end b)) as [Hlt|Hge]; [by apply last_bucket_ok with now|].
  change [b; ?x] with ([b] ++ [x]). rewrite app_assoc. apply (new_bucket_ok evs now now' (mkEstimator (l ++ [b]) start total)); [done..| |done].
  destruct Hok as [Hs _ _ _ _ _]. cbn in *. apply StronglySorted_app in Hs as (Hord & _). apply Forall_app. split; [|by repeat constructor].
  apply Forall_forall. intros c Hin. specialize (Hord c b Hin ltac:(left)). cbn in Hord. assert (0 < bucketWidth) by done. lia.
Qed.

Lemma new_ok now : s0 <= now -> est_ok [] now (newRateEstimator s0).
Proof. intros Hn. split; cbn; try by constructor. - intros t n H. by apply elem_of_nil in H. - split; [lia|]. intros t n H. by apply elem_of_nil in H. Qed.
End Estimator.

(** Calls of [recordBytes] at times that do not go back. *)
Fixpoint record_all (evs : recorded) (r : rateEstimator) : rateEstimator :=
  match evs with [] => r | (t, n) :: evs => record_all evs (recordBytes t n r) end.

(** Trimming never makes the estimate wrong: at any time, the bytes the rate is computed
    from are the ones recorded since the time it is computed from. *)
Theorem rate_of_window {F} (quotient : Z -> Z -> F) (zero : F) (start now : Z) (evs : recorded)
    (Hmono : StronglySorted Z.le (start :: evs.*1 ++ [now])) (Hpos : bytes_when (fun _ => true) evs < 2 ^ 64) (Hnonneg : Forall (fun e => 0 <= e.2) evs) :
  exists from, start <= from <= now /\
    (rate quotient zero now (record_all evs (newRateEstimator start))).2 = if from <? now then quotient (bytes_when (since from) evs) (now - from) else zero.
Proof.
  assert (exists now0, now0 <= now /\ est_ok start evs now0 (record_all evs (newRateEstimator start))) as (now0 & Hn0 & Hok).
  { assert (forall evs evs0 now0 r, StronglySorted Z.le (now0 :: evs.*1 ++ [now]) -> est_ok start evs0 now0 r -> exists now1, now1 <= now /\ est_ok start (evs0 ++ evs) now1 (record_all evs r)) as H.
    { clear. intros evs. induction evs as [|[t n] evs IH]; intros evs0 now0 r Hs Hok.
      - exists now0. rewrite app_nil_r. apply StronglySorted_inv in Hs as [_ Hs]. by apply Forall_cons in Hs as [? _].
      - apply StronglySorted_inv in Hs as [Hs Hf]. cbn in Hf. apply Forall_cons in Hf as [Hle _]. destruct (IH (evs0 ++ [(t, n)]) t (recordBytes t n r) Hs) as (now1 & H1 & H2); [by apply recordBytes_ok with now0|].
        exists now1. by rewrite <- app_assoc in H2. }
    apply (H evs [] start); [done|by apply new_ok]. }
  assert (est_ok start evs now (record_all evs (newRateEstimator start))) as Hok' by (destruct Hok as [? He ? ? ? [? Hev]]; split; [done|eapply Forall_impl; [exact He|]; cbn; lia|done..|split; [lia|]]; intros t n Hin; specialize (Hev t n Hin); lia).
  apply trim_ok in Hok' as [_ _ _ _ Ht [Hr _]]. set (r := trim now _) in *. exists (re_start r). split; [done|]. unfold rate. fold r. cbn [snd]. rewrite Ht.
  destruct (re_start r <? now); [|done]. f_equal. apply u64_id. unfold is_u64.
  pose proof (bytes_when_le (since (re_start r)) evs Hnonneg). lia.
Qed.

(** 25 records of 10 MB, ten seconds apart: the oldest ones have left the window. *)
Definition wit_events : recorded := (fun i => (10000000000 * Z.of_nat i, 10000000)) <$> seq 1 25.

Lemma rate_of_window_witness :
  re_start (record_all wit_events (newRateEstimator 0)) = 51000000000 /\
  exists from, 0 <= from <= 250000000000 /\
    (rate pair (0, 0) 250000000000 (record_all wit_events (newRateEstimator 0))).2 = if from <? 250000000000 then (bytes_when (since from) wit_events, 250000000000 - from) else (0, 0).
Proof.
  split; [by vm_compute|]. apply rate_of_window; [|done|by repeat constructor].
  apply Sorted.Sorted_StronglySorted; [intros ???; lia|]. unfold wit_events. cbn. by repeat constructor.
Defined.

(** * A restore is complete when all is written *)

Section Restore.
Context (total : string -> Z).
Definition writes := list (string * Z).

Definition written (name : string) (evs : writes) : Z := Z.of_nat (sum_list_with (fun e : string * Z => if String.eqb e.1 name then Z.to_nat e.2 else O) evs).
Definition all_written (evs : writes) : Z := Z.of_nat (sum_list_with (fun e : string * Z => Z.to_nat e.2) evs).

(** The reports of a restore: parts of files, not more than their sizes, and none after
    the last part of a file. *)
Inductive valid_writes : writes -> Prop :=
  | no_writes : valid_writes []
  | next_write evs name n : valid_writes evs -> 0 <= n -> written name evs + n <= total name < 2 ^ 64 -> name ∉ evs.*1 \/ written name evs < total name -> valid_writes (evs ++ [(name, n)]).

Definition report (evs : writes) (p : RestoreProgress) : RestoreProgress := fold_left (fun p e => AddProgress e.1 e.2 (total e.1) p) evs p.

Definition finished_files (evs : writes) : gset string := filter (fun name => written name evs = total name) (list_to_set evs.*1).

Lemma written_app name evs evs' : written name (evs ++ evs') = written name evs + written name evs'.
Proof. unfold written. rewrite sum_list_with_app. lia. Qed.
Lemma written_one name name' n : 0 <= n -> written name [(name', n)] = if String.eqb name' name then n else 0.
Proof. intros Hn. unfold written. cbn. destruct (String.eqb name' name); lia. Qed.
Lemma written_none name evs : name ∉ evs.*1 -> written name evs = 0.
Proof.
  induction evs as [|[name' n] evs IH]; [done|]. rewrite fmap_cons. cbn. intros [Hne Hn]%not_elem_of_cons. unfold written in *. cbn. destruct (String.eqb_spec name' name) as [->|]; [done|]. cbn. by apply IH.
Qed.
Lemma written_pos name evs : 0 <= written name evs.
Proof. unfold written. lia. Qed.

(** What the state says after the reports. *)
Lemma report_state evs p : valid_writes evs -> progressInfoMap p = ∅ -> filesFinished p = 0 -> allBytesWritten p = 0 ->
  (forall name, progressInfoMap (report evs p) !! name = if bool_decide (name ∈ evs.*1 /\ written name evs < total name) then Some (mkEntry (written name evs) (total name)) else None) /\
  filesFinished (report evs p) = u64 (Z.of_nat (size (finished_files evs))) /\ allBytesWritten (report evs p) = u64 (all_written evs) /\
  filesTotal (report evs p) = filesTotal p /\ allBytesTotal (report evs p) = allBytesTotal p.
Proof.
  intros Hv Hm Hf Hb. induction Hv as [|evs name n Hv IH Hn Hle Hnew].
  - cbn. rewrite Hm, Hf, Hb. split_and!; [|done|done|done|done]. intros name. rewrite bool_decide_false by (intros [H _]; by apply elem_of_nil in H). apply lookup_empty.
  - destruct IH as (IHm & IHf & IHb & IHt & IHa). unfold report in *. rewrite fold_left_app. cbn [fold_left fst snd]. set (q := fold_left _ evs p) in *. unfold AddProgress. rewrite IHm.
    assert ((match (if bool_decide (name ∈ evs.*1 /\ written name evs < total name) then Some (mkEntry (written name evs) (total name)) else None) with Some e => e | None => mkEntry 0 (total name) end) = mkEntry (written name evs) (total name)) as ->.
    { case_bool_decide as Hd; [done|]. f_equal. destruct Hnew as [Hnew|Hnew]; [by rewrite written_none|]. destruct (decide (name ∈ evs.*1)) as [Hin|Hin]; [by destruct Hd|by rewrite written_none]. }
    cbn [bytesWritten bytesTotal]. pose proof (written_pos name evs) as H0. rewrite (u64_id (written name evs + n)) by (unfold is_u64; lia).
    assert (forall x, written x (evs ++ [(name, n)]) = written x evs + if String.eqb name x then n else 0) as Hw by (intros x; by rewrite written_app, written_one).
    assert (all_written (evs ++ [(name, n)]) = all_written evs + n) as Hall by (unfold all_written; rewrite sum_list_with_app; cbn; lia).
    assert (u64 (allBytesWritten q + n) = u64 (all_written (evs ++ [(name, n)]))) as Hb' by (rewrite IHb, Hall; unfold u64; by rewrite Zplus_mod_idemp_l).
    assert (forall x, x ∈ (evs ++ [(name, n)]).*1 <-> x ∈ evs.*1 \/ x = name) as Hin by (intros x; rewrite fmap_app; cbn; by rewrite elem_of_app, list_elem_of_singleton).
    assert (name ∉ finished_files evs) as Hnf by (unfold finished_files; rewrite elem_of_filter, elem_of_list_to_set; intros [E Hi]; destruct Hnew; [done|lia]).
    destruct (Z.eqb_spec (written name evs + n) (total name)) as [E|E]; cbn [progressInfoMap filesFinished allBytesWritten filesTotal allBytesTotal]; (split_and!; [| |done|done|done]).
    + intros x. destruct (decide (x = name)) as [->|Hx].
      * rewrite lookup_delete_eq, bool_decide_false; [done|]. rewrite Hw, String.eqb_refl. lia.
      * rewrite lookup_delete_ne, IHm by done. rewrite Hw, (proj2 (String.eqb_neq name x)), Z.add_0_r by done. erewrite bool_decide_ext; [done|]. rewrite Hin. naive_solver.
    + assert (finished_files (evs ++ [(name, n)]) = {[name]} ∪ finished_files evs) as ->.
      { apply set_eq. intros x. unfold finished_files. rewrite elem_of_union, !elem_of_filter, !elem_of_list_to_set, elem_of_singleton, Hin, Hw.
        destruct (String.eqb_spec name x) as [<-|Hx]; [rewrite E; naive_solver|]. rewrite Z.add_0_r. naive_solver. }
      rewrite size_union by set_solver. rewrite size_singleton, IHf. unfold u64. rewrite Zplus_mod_idemp_l. f_equal. lia.
    + intros x. destruct (decide (x = name)) as [->|Hx].
      * rewrite lookup_insert_eq, bool_decide_true; [by rewrite Hw, String.eqb_refl|]. rewrite Hw, String.eqb_refl, Hin. split; [by right|lia].
      * rewrite lookup_insert_ne, IHm by done. rewrite Hw, (proj2 (String.eqb_neq name x)), Z.add_0_r by done. erewrite bool_decide_ext; [done|]. rewrite Hin. naive_solver.
    + rewrite IHf. do 3 f_equal. apply set_eq. intros x. unfold finished_files. rewrite !elem_of_filter, !elem_of_list_to_set, Hin, Hw.
      destruct (String.eqb_spec name x) as [<-|Hx]; [|rewrite Z.add_0_r; naive_solver]. split; [|lia]. intros [E' Hi]. destruct Hnew; [done|lia].
Qed.

Lemma AddFiles_state sizes p :
  let q := fold_left (fun p size => AddFile size p) sizes p in
  progressInfoMap q = progressInfoMap p /\ filesFinished q = filesFinished p /\ allBytesWritten q = allBytesWritten p /\
  u64 (filesTotal q) = u64 (filesTotal p + zlen sizes) /\ u64 (allBytesTotal q) = u64 (allBytesTotal p + foldr Z.add 0 sizes).
Proof.
  revert p. induction sizes as [|size sizes IH]; intros p; cbn [fold_left foldr]; [unfold zlen; cbn; by rewrite !Z.add_0_r|].
  destruct (IH (AddFile size p)) as (-> & -> & -> & -> & ->). split_and!; [done..| |]; cbn [AddFile filesTotal allBytesTotal]; unfold u64; rewrite Zplus_mod_idemp_l; f_equal; [unfold zlen; cbn [length]; lia|lia].
Qed.

(** The bytes of all reports, file by file. *)
Lemma all_written_files files evs : NoDup files -> (forall name, name ∈ evs.*1 -> name ∈ files) -> all_written evs = foldr Z.add 0 ((fun name => written name evs) <$> files).
Proof.
  intros Hnd. induction evs as [|[name n] evs IH]; intros Hin.
  - clear. induction files as [|f files IH]; [done|]. rewrite fmap_cons. cbn [foldr]. rewrite <- IH. done.
  - assert (forall files, NoDup files -> foldr Z.add 0 ((fun x => written x ((name, n) :: evs)) <$> files) = (if decide (name ∈ files) then Z.of_nat (Z.to_nat n) else 0) + foldr Z.add 0 ((fun x => written x evs) <$> files)) as E.
    { clear. intros files Hnd. induction Hnd as [|f files Hf _ IH]; [done|]. rewrite !fmap_cons. cbn [foldr]. rewrite IH. unfold written at 1. cbn [sum_list_with fst snd]. destruct (String.eqb_spec name f) as [->|Hne].
      - rewrite decide_False by done. rewrite decide_True by by left. unfold written. lia.
      - destruct (decide (name ∈ files)); [rewrite decide_True by (by right)|rewrite decide_False by (by intros [?|?]%elem_of_cons)]; unfold written; lia. }
    rewrite E, <- IH by (done || intros x Hx; apply Hin; by right). rewrite decide_True by (apply Hin; by left). unfold all_written. cbn [sum_list_with fst snd]. lia.
Qed.

(** However the parts of the files of a restore are reported, once every file is written
    all files are finished, all bytes are counted, and no file is left in the map. *)
Theorem restore_completes (files : list string) (evs : writes)
    (Hnd : NoDup files) (Hv : valid_writes evs) (Hfiles : forall name, name ∈ evs.*1 <-> name ∈ files) (Hall : Forall (fun name => written name evs = total name) files) :
  let p := report evs (fold_left (fun p size => AddFile size p) (total <$> files) restore_NewProgress) in
  progressInfoMap p = ∅ /\ filesFinished p = u64 (filesTotal p) /\ allBytesWritten p = u64 (allBytesTotal p) /\ filesFinished p = u64 (zlen files).
Proof.
  cbv zeta. set (p0 := fold_left _ (total <$> files) restore_NewProgress). destruct (AddFiles_state (total <$> files) restore_NewProgress) as (Hm & Hf & Hb & Ht & Ha). fold p0 in Hm, Hf, Hb, Ht, Ha.
  destruct (report_state evs p0 Hv Hm Hf Hb) as (Rm & Rf & Rb & Rt & Ra). rewrite Forall_forall in Hall. cbn [restore_NewProgress filesTotal allBytesTotal] in Ht, Ha. rewrite !Z.add_0_l in *.
  assert (finished_files evs = list_to_set files) as Efin.
  { apply set_eq. intros name. unfold finished_files. rewrite elem_of_filter, !elem_of_list_to_set, Hfiles. naive_solver. }
  rewrite Rf, Rb, Rt, Ra, Ht, Ha, Efin, size_list_to_set by done. unfold zlen. rewrite length_fmap. split_and!; [|done| |done].
  - apply map_eq. intros name. rewrite Rm, bool_decide_false, lookup_empty; [done|]. intros [Hin%Hfiles Hlt]. rewrite (Hall _ Hin) in Hlt. lia.
  - f_equal. rewrite (all_written_files files) by (done || apply Hfiles). f_equal. apply list_fmap_ext. intros i x Hx. apply Hall. by eapply list_elem_of_lookup_2.
Qed.
End Restore.

Definition wit_total (name : string) : Z := if String.eqb name "a" then 3 else 0.

Lemma restore_completes_witness :
  let p := report wit_total [("a", 1); ("b", 0); ("a", 2)] (AddFile 0 (AddFile 3 restore_NewProgress)) in
  progressInfoMap p = ∅ /\ filesFinished p = 2 /\ filesTotal p = 2 /\ allBytesWritten p = u64 (allBytesTotal p).
Proof.
  assert (valid_writes wit_total [("a", 1); ("b", 0); ("a", 2)]) as Hv.
  { apply (next_write _ [("a", 1); ("b", 0)]); [|done|by vm_compute|right; by vm_compute]. apply (next_write _ [("a", 1)]); [|done|by vm_compute|left; set_solver]. apply (next_write _ []); [constructor|done|by vm_compute|left; set_solver]. }
  destruct (restore_completes wit_total ["a"; "b"] _ ltac:(repeat constructor; set_solver) Hv) as (H1 & _ & H2 & H3); [set_solver|by repeat constructor|]. split_and!; [exact H1|exact H3|done|exact H2].
Defined.

(** * A backup counts every item once *)

(** A counter that each section increases by its weight. *)
Definition weigh (w : section -> Z) (l : list section) : Z := foldr (fun s n => w s + n) 0 l.

Lemma weigh_app w l l' : weigh w (l ++ l') = weigh w l + weigh w l'.
Proof. induction l as [|s l IH]; [done|]. cbn. unfold weigh in *. rewrite IH. lia. Qed.

Lemma weigh_Permutation w l l' : l ≡ₚ l' -> weigh w l = weigh w l'.
Proof. induction 1; cbn; unfold weigh in *; cbn; lia. Qed.

Lemma weigh_none w l : Forall (fun s => w s = 0) l -> weigh w l = 0.
Proof. induction 1 as [|s l Hs _ IH]; [done|]. cbn. unfold weigh in *. lia. Qed.

Lemma run_sections_weigh (m : Progress -> Z) (w : section -> Z) l p :
  (forall now s p, u64 (m (run_section now s p)) = u64 (m p + w s)) -> u64 (m (run_sections l p)) = u64 (m p + weigh w l.*2).
Proof.
  intros H. revert p. induction l as [|[now s] l IH]; intros p; [cbn; by rewrite Z.add_0_r|]. cbn [run_sections fold_left]. unfold run_sections in IH. rewrite IH. cbn [fst snd fmap list_fmap weigh foldr].
  change (foldr _ 0 (snd <$> l)) with (weigh w l.*2). replace (m p + (w s + weigh w l.*2)) with (m p + w s + weigh w l.*2) by lia. unfold u64 in *. rewrite <- Zplus_mod_idemp_l, H. by rewrite Zplus_mod_idemp_l.
Qed.

Definition changes (c : Changes) : Z := ch_New c + ch_Changed c + ch_Unchanged c.

Lemma u64_shift a b k : a = b + k * 2 ^ 64 -> u64 a = u64 b.
Proof. intros ->. unfold u64. by rewrite Z.mod_add. Qed.

Lemma count_change_one k c : u64 (changes (count_change k c)) = u64 (changes c + 1).
Proof.
  assert (forall x, exists q, u64 x = x + q * 2 ^ 64) as Hx by (intros x; exists (- (x / 2 ^ 64)); unfold u64; pose proof (Z.div_mod x (2 ^ 64) ltac:(lia)); lia).
  unfold changes. destruct k; cbn [count_change ch_New ch_Changed ch_Unchanged].
  - destruct (Hx (ch_New c + 1)) as [q ->]. apply u64_shift with q. lia.
  - destruct (Hx (ch_Unchanged c + 1)) as [q ->]. apply u64_shift with q. lia.
  - destruct (Hx (ch_Changed c + 1)) as [q ->]. apply u64_shift with q. lia.
Qed.

Record completed := mkCompleted { cp_item : string; cp_previous : option Node; cp_current : option Node; cp_stats : ItemStats }.
Definition complete (c : completed) : list section := CompleteItem (cp_item c) (cp_previous c) (cp_current c) (cp_stats c).

(** The sections of the other methods. *)
Definition other_section (s : section) : bool :=
  match s with AddError | StartFile _ | CompleteBlob _ | ReportTotal _ _ => true | _ => false end.

Definition is_kind (type : string) (c : completed) : Z := match cp_current c with Some n => if String.eqb (n_Type n) type then 1 else 0 | None => 0 end.
Definition item_size (c : completed) : Z := match cp_current c with Some n => n_Size n | None => 0 end.
Definition sum_of (f : completed -> Z) (calls : list completed) : Z := foldr (fun c n => f c + n) 0 calls.

Definition w_files (s : section) : Z := match s with ProcessedFile _ => 1 | _ => 0 end.
Definition w_file_changes (s : section) : Z := match s with CountFile _ => 1 | _ => 0 end.
Definition w_dirs (s : section) : Z := match s with ProcessedDir => 1 | _ => 0 end.
Definition w_dir_changes (s : section) : Z := match s with CountDir _ => 1 | _ => 0 end.
Definition w_size (s : section) : Z := match s with AddStats _ (Some n) => n | _ => 0 end.

Lemma weigh_complete c :
  weigh w_files (complete c) = is_kind "file" c /\ weigh w_file_changes (complete c) = is_kind "file" c /\
  weigh w_dirs (complete c) = is_kind "dir" c /\ weigh w_dir_changes (complete c) = is_kind "dir" c /\ weigh w_size (complete c) = item_size c.
Proof.
  unfold complete, CompleteItem, is_kind, item_size. destruct (cp_current c) as [n|]; [|done]. cbn [fmap option_fmap option_map].
  destruct (String.eqb_spec (n_Type n) "dir") as [->|]; [cbn; split_and!; lia|]. destruct (String.eqb (n_Type n) "file"); cbn; split_and!; lia.
Qed.

Lemma weigh_calls w (f : completed -> Z) calls : (forall c, weigh w (complete c) = f c) -> weigh w (concat (complete <$> calls)) = sum_of f calls.
Proof. intros H. induction calls as [|c calls IH]; [done|]. rewrite fmap_cons. cbn [concat sum_of foldr]. by rewrite weigh_app, H, IH. Qed.

(** However the parts of concurrent calls are interleaved, every completed file and
    directory is counted once as processed and once as new, changed or unchanged, and the
    sizes of all items are added up. *)
Theorem backup_counts (calls : list completed) (others : list section) (l : list (Z * section)) (start : Z)
    (Hl : l.*2 ≡ₚ concat (complete <$> calls) ++ others) (Hothers : Forall (fun s => other_section s = true) others) :
  let p := run_sections l (NewProgress start) in
  u64 (ct_Files (pr_processed p)) = u64 (sum_of (is_kind "file") calls) /\ u64 (changes (su_Files (pr_summary p))) = u64 (sum_of (is_kind "file") calls) /\
  u64 (ct_Dirs (pr_processed p)) = u64 (sum_of (is_kind "dir") calls) /\ u64 (changes (su_Dirs (pr_summary p))) = u64 (sum_of (is_kind "dir") calls) /\
  u64 (su_ProcessedBytes (pr_summary p)) = u64 (sum_of item_size calls).
Proof.
  cbv zeta. assert (forall (m : Progress -> Z) w f, m (NewProgress start) = 0 -> (forall now s p, u64 (m (run_section now s p)) = u64 (m p + w s)) ->
    (forall c, weigh w (complete c) = f c) -> (forall s, other_section s = true -> w s = 0) -> u64 (m (run_sections l (NewProgress start))) = u64 (sum_of f calls)) as H.
  { intros m w f H0 Hm Hf Ho. rewrite (run_sections_weigh m w) by done. rewrite H0, (weigh_Permutation _ _ _ Hl), weigh_app, (weigh_calls w f), (weigh_none w others) by (done || by eapply Forall_impl; [exact Hothers|]). f_equal. lia. }
  assert (forall x, u64 (u64 x) = u64 x) as Hu by (intros x; unfold u64; by rewrite Zmod_mod).
  split_and!.
  - apply (H (fun p => ct_Files (pr_processed p)) w_files); [done| |apply weigh_complete|by intros []]. intros now [] p; cbn; rewrite ?Hu; f_equal; lia.
  - apply (H (fun p => changes (su_Files (pr_summary p))) w_file_changes); [done| |apply weigh_complete|by intros []]. intros now [] p; cbn; first [apply count_change_one|f_equal; lia].
  - apply (H (fun p => ct_Dirs (pr_processed p)) w_dirs); [done| |apply weigh_complete|by intros []]. intros now [] p; cbn; rewrite ?Hu; f_equal; lia.
  - apply (H (fun p => changes (su_Dirs (pr_summary p))) w_dir_changes); [done| |apply weigh_complete|by intros []]. intros now [] p; cbn; first [apply count_change_one|f_equal; lia].
  - apply (H (fun p => su_ProcessedBytes (pr_summary p)) w_size); [done| |apply weigh_complete|by intros []]. intros now [] p; cbn; try (f_equal; lia). destruct size as [n|]; cbn; rewrite ?Hu; f_equal; lia.
Qed.
