(* ===== verification/RemoteConfig.v ===== *)
(** The configurations of the remote backends (src/backend/s3/config.go, gs/config.go,
    b2/config.go, azure/config.go, swift/config.go, sftp/config.go, rest/config.go,
    rclone/config.go): parsing a location and reading the environment.

    The URLs of [net/url] are the class [URLs], the environment is a function from names
    to values (empty if unset), and a secret is its string. *)

From S2P Require Import Prelude Bytes GoString Restic Snapshot FsPath Backend Layout Options Facade S3.

#[local] Open Scope Z_scope.

(** [strings.Cut] with whether the separator is there. *)
Fixpoint cut_found (c : Ascii.ascii) (s : string) : bool := match s with EmptyString => false | String.String x s => Ascii.eqb x c || cut_found c s end.

(** The location without the name of the backend. *)
Definition after_scheme (scheme s : string) : option string := strip_prefix scheme s.

(** [path.Clean] and [strings.TrimPrefix], as several backends clean their prefix. *)
Definition clean_prefix (prefix : string) : string := TrimPrefix "/" (path_Clean prefix).

(** A field that is taken from the environment unless it is set. *)
Definition env_default (env : string -> string) (field name : string) : string := if String.eqb field "" then env name else field.

Class URLs := {
  URL : Type;
  url_Parse : string -> outcome URL;
  url_Scheme : URL -> string;
  url_Host : URL -> string;
  url_Hostname : URL -> string;
  url_Port : URL -> string;
  url_Path : URL -> string;
  url_User : URL -> option (string * option string);
  url_SetUser : string -> string -> URL -> URL;
  url_String : URL -> string;
  url_UserString : URL -> string }.

(** ** Google Cloud Storage *)

Record GSConfig := mkGSConfig { gs_ProjectID : string; gs_Bucket : string; gs_Prefix : string; gs_Connections : Z; gs_Region : string }.
Definition gs_NewConfig : GSConfig := mkGSConfig "" "" "" 5 "us".
Definition gs_ParseConfig (s : string) : outcome GSConfig :=
  match after_scheme "gs:" s with
  | None => Err (ErrMsg "gs: invalid format")
  | Some s =>
      if negb (cut_found colon s) then Err (ErrMsg "gs: invalid format: bucket name or path not found")
      else
        let '(bucket, prefix) := cut_at colon s in
        Ok (mkGSConfig "" bucket (clean_prefix prefix) (gs_Connections gs_NewConfig) (gs_Region gs_NewConfig))
  end.
Definition gs_ApplyEnvironment (env : string -> string) (prefix : string) (cfg : GSConfig) : GSConfig :=
  mkGSConfig (env_default env (gs_ProjectID cfg) (prefix +:+ "GOOGLE_PROJECT_ID")) (gs_Bucket cfg) (gs_Prefix cfg) (gs_Connections cfg) (gs_Region cfg).

(** ** Backblaze B2 *)

Record B2Config := mkB2Config { b2_AccountID : string; b2_Key : string; b2_Bucket : string; b2_Prefix : string; b2_Connections : Z }.
Definition b2_NewConfig : B2Config := mkB2Config "" "" "" "" 5.

(** [^[a-zA-Z0-9-]+$]. *)
Definition bucket_char (c : Ascii.ascii) : bool := in_range 97 122 c || in_range 65 90 c || in_range 48 57 c || is_code 45 c.
Fixpoint all_chars (P : Ascii.ascii -> bool) (s : string) : bool := match s with EmptyString => true | String.String c s => P c && all_chars P s end.
Definition bucketName (s : string) : bool := negb (String.eqb s "") && all_chars bucket_char s.

Definition checkBucketName (name : string) : option error :=
  if String.eqb name "" then Some (ErrMsg "bucket name not found")
  else if Nat.ltb (String.length name) 6 then Some (ErrMsg "bucket name is too short")
  else if Nat.ltb 50 (String.length name) then Some (ErrMsg "bucket name is too long")
  else if negb (bucketName name) then Some (ErrMsg "bucket name contains invalid characters, allowed are: a-z, 0-9, dash (-)")
  else None.

Definition b2_ParseConfig (s : string) : outcome B2Config :=
  match after_scheme "b2:" s with
  | None => Err (ErrMsg "invalid format, want: b2:bucket-name[:path]")
  | Some s =>
      let '(bucket, prefix) := cut_at colon s in
      match checkBucketName bucket with
      | Some e => Err e
      | None => Ok (mkB2Config "" "" bucket (if String.eqb prefix "" then "" else clean_prefix prefix) (b2_Connections b2_NewConfig))
      end
  end.
Definition b2_ApplyEnvironment (env : string -> string) (prefix : string) (cfg : B2Config) : B2Config :=
  mkB2Config (env_default env (b2_AccountID cfg) (prefix +:+ "B2_ACCOUNT_ID")) (env_default env (b2_Key cfg) (prefix +:+ "B2_ACCOUNT_KEY")) (b2_Bucket cfg) (b2_Prefix cfg) (b2_Connections cfg).

(** ** Azure *)

Record AzureConfig := mkAzureConfig {
  az_AccountName : string; az_AccountSAS : string; az_AccountKey : string; az_EndpointSuffix : string; az_Container : string; az_Prefix : string; az_Connections : Z }.
Definition az_NewConfig : AzureConfig := mkAzureConfig "" "" "" "" "" "" 5.
Definition az_ParseConfig (s : string) : outcome AzureConfig :=
  match after_scheme "azure:" s with
  | None => Err (ErrMsg "azure: invalid format")
  | Some s =>
      if negb (cut_found colon s) then Err (ErrMsg "azure: invalid format: bucket name or path not found")
      else let '(container, prefix) := cut_at colon s in Ok (mkAzureConfig "" "" "" "" container (clean_prefix prefix) (az_Connections az_NewConfig))
  end.
Definition az_ApplyEnvironment (env : string -> string) (prefix : string) (cfg : AzureConfig) : AzureConfig :=
  mkAzureConfig (env_default env (az_AccountName cfg) (prefix +:+ "AZURE_ACCOUNT_NAME")) (env_default env (az_AccountSAS cfg) (prefix +:+ "AZURE_ACCOUNT_SAS"))
    (env_default env (az_AccountKey cfg) (prefix +:+ "AZURE_ACCOUNT_KEY")) (env_default env (az_EndpointSuffix cfg) (prefix +:+ "AZURE_ENDPOINT_SUFFIX"))
    (az_Container cfg) (az_Prefix cfg) (az_Connections cfg).

(** ** Rclone *)

Record RcloneConfig := mkRcloneConfig { rc_Program : string; rc_Args : string; rc_Remote : string; rc_Connections : Z; rc_Timeout : Z }.
Definition rclone_defaultConfig : RcloneConfig := mkRcloneConfig "rclone" "serve restic --stdio --b2-hard-delete" "" 5 60000000000.
Definition rclone_ParseConfig (s : string) : outcome RcloneConfig :=
  match after_scheme "rclone:" s with
  | None => Err (ErrMsg "invalid rclone backend specification")
  | Some s => let cfg := rclone_defaultConfig in Ok (mkRcloneConfig (rc_Program cfg) (rc_Args cfg) s (rc_Connections cfg) (rc_Timeout cfg))
  end.

(** ** Swift: the fields by their names *)

Record SwiftConfig := mkSwiftConfig { sw_fields : gmap string string; sw_Connections : Z }.
Definition sw_get (cfg : SwiftConfig) (field : string) : string := default "" (sw_fields cfg !! field).
Definition sw_set (field value : string) (cfg : SwiftConfig) : SwiftConfig := mkSwiftConfig (<[field := value]> (sw_fields cfg)) (sw_Connections cfg).
Definition sw_NewConfig : SwiftConfig := mkSwiftConfig ∅ 5.

Definition sw_ParseConfig (s : string) : outcome SwiftConfig :=
  match after_scheme "swift:" s with
  | None => Err (ErrMsg "invalid URL, expected: swift:container-name:/[prefix]")
  | Some s =>
      let '(container, prefix) := cut_at colon s in
      if String.eqb prefix "" then Err (ErrMsg "prefix is empty")
      else if negb (rooted prefix) then Err (ErrMsg "prefix does not start with slash (/)")
      else Ok (sw_set "Prefix" (drop_bytes 1 prefix) (sw_set "Container" container sw_NewConfig))
  end.

(** The fields with the variables they are taken from, in the order of the code; a secret
    is the same here as any other field. *)
Definition sw_variables : list (string * string) :=
  [("UserName", "OS_USERNAME"); ("APIKey", "OS_PASSWORD"); ("Region", "OS_REGION_NAME"); ("AuthURL", "OS_AUTH_URL");
   ("UserID", "OS_USER_ID"); ("Domain", "OS_USER_DOMAIN_NAME"); ("DomainID", "OS_USER_DOMAIN_ID"); ("Tenant", "OS_PROJECT_NAME");
   ("TenantDomain", "OS_PROJECT_DOMAIN_NAME"); ("TenantDomainID", "OS_PROJECT_DOMAIN_ID"); ("TrustID", "OS_TRUST_ID");
   ("TenantID", "OS_TENANT_ID"); ("Tenant", "OS_TENANT_NAME"); ("AuthURL", "ST_AUTH"); ("UserName", "ST_USER"); ("APIKey", "ST_KEY");
   ("ApplicationCredentialID", "OS_APPLICATION_CREDENTIAL_ID"); ("ApplicationCredentialName", "OS_APPLICATION_CREDENTIAL_NAME");
   ("StorageURL", "OS_STORAGE_URL"); ("DefaultContainerPolicy", "SWIFT_DEFAULT_CONTAINER_POLICY");
   ("ApplicationCredentialSecret", "OS_APPLICATION_CREDENTIAL_SECRET"); ("AuthToken", "OS_AUTH_TOKEN")].
Definition sw_ApplyEnvironment (env : string -> string) (prefix : string) (cfg : SwiftConfig) : SwiftConfig :=
  fold_left (fun cfg v => if String.eqb (sw_get cfg v.1) "" then sw_set v.1 (env (prefix +:+ v.2)) cfg else cfg) sw_variables cfg.

Section WithURLs.
Context `{URLs}.

(** ** S3 *)

Record S3Config := mkS3Config {
  s3c_Endpoint : string; s3c_UseHTTP : bool; s3c_KeyID : string; s3c_Secret : string; s3c_Bucket : string; s3c_Prefix : string;
  s3c_Connections : Z; s3c_Region : string; s3c_ListObjectsV1 : bool }.
Definition s3_NewConfig : S3Config := mkS3Config "" false "" "" "" "" 5 "" false.

Definition createConfig (endpoint bucket prefix : string) (useHTTP : bool) : outcome S3Config :=
  if String.eqb endpoint "" then Err (ErrMsg "s3: invalid format, host/region or bucket name not found")
  else Ok (mkS3Config endpoint useHTTP "" "" bucket (if String.eqb prefix "" then "" else path_Clean prefix) (s3c_Connections s3_NewConfig) "" (s3c_ListObjectsV1 s3_NewConfig)).

Definition s3_ParseConfig (s : string) : outcome S3Config :=
  match after_scheme "s3:" s with
  | None => Err (ErrMsg "s3: invalid format")
  | Some s =>
      if String.prefix "http" s then
        try url <- url_Parse s;
        if String.eqb (url_Path url) "" then Err (ErrMsg "s3: bucket name not found")
        else
          let '(bucket, path) := cut_at slash (drop_bytes 1 (url_Path url)) in
          createConfig (url_Host url) bucket path (String.eqb (url_Scheme url) "http")
      else
        let s := TrimPrefix "//" s in
        let '(endpoint, rest) := cut_at slash s in
        let '(bucket, prefix) := cut_at slash rest in
        createConfig endpoint bucket prefix false
  end.
Definition s3_ApplyEnvironment (env : string -> string) (prefix : string) (cfg : S3Config) : S3Config :=
  mkS3Config (s3c_Endpoint cfg) (s3c_UseHTTP cfg) (env_default env (s3c_KeyID cfg) (prefix +:+ "AWS_ACCESS_KEY_ID")) (env_default env (s3c_Secret cfg) (prefix +:+ "AWS_SECRET_ACCESS_KEY"))
    (s3c_Bucket cfg) (s3c_Prefix cfg) (s3c_Connections cfg) (env_default env (s3c_Region cfg) (prefix +:+ "AWS_DEFAULT_REGION")) (s3c_ListObjectsV1 cfg).

(** ** SFTP *)

Record SFTPConfig := mkSFTPConfig { sf_User : string; sf_Host : string; sf_Port : string; sf_Path : string; sf_Connections : Z }.

(** [strings.SplitN] at "@" into at most three parts: the user and the host. *)
Definition at_sign : Ascii.ascii := Ascii.ascii_of_nat 64.
Definition split_user (host : string) : string * string :=
  if negb (cut_found at_sign host) then ("", host)
  else
    let '(a, rest) := cut_at at_sign host in
    if negb (cut_found at_sign rest) then (a, rest) else let '(b, c) := cut_at at_sign rest in (a +:+ "@" +:+ b, c).

Definition sftp_config (user host port dir : string) : outcome SFTPConfig :=
  let p := path_Clean dir in
  if String.prefix "~" p then Err (ErrMsg "sftp path starts with the tilde (~) character, that fails for most sftp servers.") else Ok (mkSFTPConfig user host port p 5).

Definition sftp_ParseConfig (s : string) : outcome SFTPConfig :=
  match after_scheme "sftp:" s with
  | None => Err (ErrMsg "invalid format, does not start with sftp:")
  | Some rest =>
      if String.prefix "//" rest then
        try url <- url_Parse s;
        let user := match url_User url with Some (name, _) => name | None => "" end in
        if String.eqb (url_Path url) "" then Err (ErrMsg "invalid backend %q, no directory specified")
        else sftp_config user (url_Hostname url) (url_Port url) (drop_bytes 1 (url_Path url))
      else if negb (cut_found colon rest) then Err (ErrMsg "sftp: invalid format, hostname or path not found")
      else
        let '(host, dir) := cut_at colon rest in
        let '(user, host) := split_user host in
        sftp_config user host "" dir
  end.

(** ** REST *)

Record RESTConfig := mkRESTConfig { rest_URL : URL; rest_Connections : Z }.
Definition prepareURL (s : string) : string := let s := drop_bytes 5 s in if ends_with_slash s then s else s +:+ "/".
Definition rest_ParseConfig (s : string) : outcome RESTConfig :=
  match after_scheme "rest:" s with
  | None => Err (ErrMsg "invalid REST backend specification")
  | Some _ => try u <- url_Parse (prepareURL s); Ok (mkRESTConfig u 5)
  end.

(** [strings.Replace] of the first occurrence. *)
Fixpoint replace_first (old new s : string) : string :=
  match strip_prefix old s with
  | Some rest => new +:+ rest
  | None => match s with EmptyString => "" | String.String c s => String.String c (replace_first old new s) end
  end.

Definition rest_StripPassword (s : string) : outcome string :=
  if Nat.ltb (String.length s) 5 then Panic "slice bounds out of range"
  else
    let scheme := take_bytes 5 s in
    let s := prepareURL s in
    match url_Parse s with
    | Ok u =>
        match url_User u with
        | Some (name, Some _) => Ok (scheme +:+ replace_first (url_UserString u +:+ "@") (name +:+ ":***@") (url_String u))
        | _ => Ok (scheme +:+ s)
        end
    | _ => Ok (scheme +:+ s)
    end.

Definition rest_ApplyEnvironment (env : string -> string) (prefix : string) (cfg : RESTConfig) : RESTConfig :=
  let '(username, pwdSet) := match url_User (rest_URL cfg) with Some (name, pwd) => (name, bool_decide (is_Some pwd)) | None => ("", false) end in
  if String.eqb username "" && negb pwdSet
  then mkRESTConfig (url_SetUser (env (prefix +:+ "RESTIC_REST_USERNAME")) (env (prefix +:+ "RESTIC_REST_PASSWORD")) (rest_URL cfg)) (rest_Connections cfg) else cfg.
End WithURLs.

(** * Parsing *)

Lemma cut_found_spec c s : cut_found c s = true <-> s = (cut_at c s).1 +:+ String.String c (cut_at c s).2.
Proof.
  induction s as [|x s IH]; [done|]. cbn [cut_found cut_at]. destruct (Ascii.eqb_spec x c) as [->|Hx]; [done|]. cbn [orb]. rewrite IH. destruct (cut_at c s) as [a b]. cbn [fst snd].
  change (String.String x a +:+ ?y) with (String.String x (a +:+ y)). split; [by intros <-|by intros [= <-]].
Qed.

Lemma cut_at_before c a b : cut_found c a = false -> cut_at c (a +:+ String.String c b) = (a, b) /\ cut_found c (a +:+ String.String c b) = true.
Proof.
  induction a as [|x a IH].
  - intros _. change ("" +:+ ?x) with x. cbn [cut_at cut_found]. by rewrite Ascii.eqb_refl.
  - cbn [cut_found]. intros [Hx Ha]%orb_false_iff. change (String.String x a +:+ ?y) with (String.String x (a +:+ y)). cbn [cut_at cut_found]. rewrite Hx. cbn [orb]. destruct (IH Ha) as [-> ->]. done.
Qed.

Lemma cut_at_found c s : cut_found c (cut_at c s).1 = false.
Proof. induction s as [|x s IH]; [done|]. cbn. destruct (Ascii.eqb x c) eqn:E; [done|]. destruct (cut_at c s). cbn in *. by rewrite E, IH. Qed.

(** The parts of a location with a colon. *)
Lemma cut_colon scheme s rest : after_scheme scheme s = Some rest -> cut_found colon rest = true ->
  s = scheme +:+ (cut_at colon rest).1 +:+ ":" +:+ (cut_at colon rest).2 /\ cut_found colon (cut_at colon rest).1 = false.
Proof. intros ->%strip_prefix_Some Hc%cut_found_spec. split; [by rewrite Hc at 1|apply cut_at_found]. Qed.

Lemma after_scheme_app scheme s : after_scheme scheme (scheme +:+ s) = Some s.
Proof. apply strip_prefix_app. Qed.

(** The location of a bucket, as several backends write it. *)
Definition bucket_location (scheme s bucket prefix : string) : Prop := s = scheme +:+ bucket +:+ ":" +:+ prefix /\ cut_found colon bucket = false.

Lemma bucket_location_cut scheme s bucket prefix : bucket_location scheme s bucket prefix ->
  exists rest, after_scheme scheme s = Some rest /\ cut_found colon rest = true /\ cut_at colon rest = (bucket, prefix).
Proof. intros [-> Hb]. exists (bucket +:+ ":" +:+ prefix). split; [apply after_scheme_app|]. by destruct (cut_at_before colon bucket prefix Hb). Qed.

Lemma gs_ParseConfig_spec s cfg : gs_ParseConfig s = Ok cfg <-> exists bucket prefix, bucket_location "gs:" s bucket prefix /\ cfg = mkGSConfig "" bucket (clean_prefix prefix) 5 "us".
Proof.
  unfold gs_ParseConfig. split.
  - destruct (after_scheme "gs:" s) as [rest|] eqn:E; [|done]. destruct (cut_found colon rest) eqn:Ec; [|done]. destruct (cut_colon _ _ _ E Ec) as [-> Hb]. destruct (cut_at colon rest) as [bucket prefix]. intros [= <-]. by exists bucket, prefix.
  - intros (bucket & prefix & Hl & ->). by destruct (bucket_location_cut _ _ _ _ Hl) as (rest & -> & -> & ->).
Qed.

Lemma az_ParseConfig_spec s cfg : az_ParseConfig s = Ok cfg <-> exists container prefix, bucket_location "azure:" s container prefix /\ cfg = mkAzureConfig "" "" "" "" container (clean_prefix prefix) 5.
Proof.
  unfold az_ParseConfig. split.
  - destruct (after_scheme "azure:" s) as [rest|] eqn:E; [|done]. destruct (cut_found colon rest) eqn:Ec; [|done]. destruct (cut_colon _ _ _ E Ec) as [-> Hb]. destruct (cut_at colon rest) as [bucket prefix]. intros [= <-]. by exists bucket, prefix.
  - intros (bucket & prefix & Hl & ->). by destruct (bucket_location_cut _ _ _ _ Hl) as (rest & -> & -> & ->).
Qed.

Lemma sw_ParseConfig_spec s cfg : sw_ParseConfig s = Ok cfg <-> exists container prefix, bucket_location "swift:" s container (String.String slash prefix) /\ cfg = sw_set "Prefix" prefix (sw_set "Container" container sw_NewConfig).
Proof.
  unfold sw_ParseConfig. split.
  - destruct (after_scheme "swift:" s) as [rest|] eqn:E; [|done]. destruct (cut_found colon rest) eqn:Ec.
    + destruct (cut_colon _ _ _ E Ec) as [-> Hb]. destruct (cut_at colon rest) as [container prefix]. destruct prefix as [|c prefix]; [done|]. cbn [String.eqb rooted]. destruct (Ascii.eqb_spec c slash) as [->|]; [|done]. intros [= <-]. by exists container, prefix.
    + destruct (cut_at colon rest) as [container prefix] eqn:Ep. assert (prefix = "") as ->; [|done]. clear E. revert container prefix Ep. induction rest as [|x rest IH]; intros container prefix; [by intros [= _ <-]|].
      cbn [cut_found] in Ec. apply orb_false_iff in Ec as [Ex Ec]. cbn [cut_at]. rewrite Ex. destruct (cut_at colon rest) as [a b]. intros [= _ <-]. by eapply IH.
  - intros (container & prefix & Hl & ->). by destruct (bucket_location_cut _ _ _ _ Hl) as (rest & -> & _ & ->).
Qed.

(** A prefix is the name of a directory in a bucket, never an absolute path. *)
Lemma clean_prefix_relative prefix : rooted (clean_prefix prefix) = false.
Proof.
  unfold clean_prefix. rewrite path_Clean_render. pose proof (clean_fold_stack (rooted prefix) (split_on slash prefix) [] (split_on_no_slash prefix) I) as Hs. set (out := clean_fold _ _ _) in *.
  destruct (rooted prefix) eqn:Er.
  - unfold render. rewrite TrimPrefix_app. pose proof (clean_stack_comps _ _ Hs) as Hc. apply Forall_and in Hc as [Hn He]. rewrite rooted_Join by done. destruct (rev out) as [|c l]; [done|]. apply Forall_cons in Hn as [Hn _]. by apply rooted_slashfree.
  - destruct (render_clean false out Hs) as (_ & Hr & _). unfold TrimPrefix. destruct (render false (rev out)) as [|c s] eqn:E; [done|]. cbn [rooted] in Hr. change "/" with (String.String slash "").  cbn [strip_prefix]. rewrite Ascii.eqb_sym, Hr. done.
Qed.

(** The names that are allowed for a bucket. *)
Lemma checkBucketName_spec name : checkBucketName name = None <-> (6 <= String.length name <= 50)%nat /\ all_chars bucket_char name = true.
Proof.
  unfold checkBucketName, bucketName. destruct (String.eqb_spec name "") as [->|Hne]; [cbn; split; [done|intros [? _]; lia]|]. cbn [negb andb].
  destruct (Nat.ltb_spec (String.length name) 6); [split; [done|lia]|]. destruct (Nat.ltb_spec 50 (String.length name)); [split; [done|lia]|]. destruct (all_chars bucket_char name); cbn; split; try done; by intros [_ ?].
Qed.

(** Contrary to its comment, [ParseConfig] fills in no prefix. *)
Lemma s3_no_default_prefix `{URLs} endpoint bucket useHTTP cfg : createConfig endpoint bucket "" useHTTP = Ok cfg -> s3c_Prefix cfg = "".
Proof. unfold createConfig. destruct (String.eqb endpoint ""); [done|]. by intros [= <-]. Qed.

(** The name of the backend alone, without a colon, cannot be stripped of a password, and
    opening a repository at that location panics before it is parsed. *)
Lemma open_rest_panics `{URLs} {B : Type} `{Backend.Backend B} ParseInt ParseUint ParseBool ParseDuration ApplyEnvironment fields with_fields (factory : @Factory RESTConfig B) registry opts :
  Lookup registry "rest" = Some factory -> fc_StripPassword factory = rest_StripPassword ->
  open_backend ParseInt ParseUint ParseBool ParseDuration ApplyEnvironment fields with_fields registry "rest" opts = Panic "slice bounds out of range".
Proof. intros Hl Hf. unfold open_backend, StripPassword. change (extractScheme "rest") with "rest". rewrite Hl, Hf. done. Qed.

(** * The environment *)

(** The first variable of a field that is set wins, and a field that is set stays. *)
Lemma sw_ApplyEnvironment_spec env prefix cfg field :
  sw_get (sw_ApplyEnvironment env prefix cfg) field =
    if String.eqb (sw_get cfg field) "" then
      default "" (head (filter (fun v => v <> "") ((fun v => env (prefix +:+ v.2)) <$> filter (fun v => v.1 = field) sw_variables)))
    else sw_get cfg field.
Proof.
  unfold sw_ApplyEnvironment. generalize sw_variables. intros vs. revert cfg. induction vs as [|[f name] vs IH]; intros cfg; cbn [fold_left fst snd]; [cbn; by destruct (String.eqb_spec (sw_get cfg field) "")|].
  rewrite IH. clear IH. destruct (String.eqb_spec (sw_get cfg f) "") as [Ef|Ef].
  - assert (sw_get (sw_set f (env (prefix +:+ name)) cfg) field = if decide (f = field) then env (prefix +:+ name) else sw_get cfg field) as ->.
    { unfold sw_get, sw_set. cbn [sw_fields]. destruct (decide (f = field)) as [->|Hne]; [by rewrite lookup_insert_eq|by rewrite lookup_insert_ne]. }
    rewrite filter_cons. cbn [fst]. destruct (decide (f = field)) as [->|Hne]; [|done]. rewrite Ef. cbn [String.eqb]. rewrite fmap_cons, filter_cons. cbn [snd].
    destruct (String.eqb_spec (env (prefix +:+ name)) "") as [E|E]; [by rewrite decide_False by (by intros ?)|by rewrite decide_True].
  - rewrite filter_cons. cbn [fst]. destruct (decide (f = field)) as [->|Hne]; [|done]. by rewrite (proj2 (String.eqb_neq _ _) Ef).
Qed.
