(* ===== verification/RepoCache.v ===== *)
(** Using a local cache with a repository (prepareCache, SetIndex and UseCache in
    src/repository/repository.go): once the index is known, what it does not name is
    dropped from the cache. *)

From S2P Require Import Prelude Bytes GoString Restic Sets IndexMap Index MasterIndex Crypto FsPath FS Backend Layout Os OsFiles Cache.

#[local] Open Scope Z_scope.

(** [UseCache]: a nil cache is not used. *)
Definition UseCache {B : Type} (wrap : Cache -> B -> B) (c : option Cache) (be : B) : option Cache * B :=
  match c with None => (None, be) | Some c => (Some c, wrap c be) end.

Section Prepare.
Context `{TempNames}.

(** An error of [Clear] is printed. *)
Definition clear_or_warn (c : option Cache) (t : FileType) (valid : gset ID) (msg : string) (st : os * list string) : os * list string * outcome unit :=
  match Clear c t valid st.1 with
  | (s, Ok _) => (s, st.2, Ok tt)
  | (s, Err e) => (s, st.2 ++ [msg], Ok tt)
  | (s, Panic p) => (s, st.2, Panic p)
  end.

Definition prepareCache (c : option Cache) (idx : MasterIndex) (s : os) : os * list string * outcome unit :=
  match c with
  | None => (s, [], Ok tt)
  | Some _ =>
      match MI_IDs idx with
      | Err e => (s, [], Err e)
      | Panic p => (s, [], Panic p)
      | Ok indexIDs =>
          match clear_or_warn c IndexFile indexIDs "error clearing index files in cache: %v" (s, []) with
          | (st, Ok _) =>
              match MI_Packs idx ∅ with
              | Err e => (st, Err e)
              | Panic p => (st, Panic p)
              | Ok packs => clear_or_warn c PackFile packs "error clearing pack files in cache: %v" st
              end
          | r => r
          end
      end
  end.

(** The index of the repository after [SetIndex]. *)
Definition SetIndex (c : option Cache) (i : MasterIndex) (s : os) : os * list string * (MasterIndex * outcome unit) :=
  let '(st, r) := prepareCache c i s in (st, (i, r)).

(** ** What is left in the cache *)

Context `{!TempNamesLaws}.

Lemma cached_path_sub ca t t' sub sub' id id' :
  cacheLayoutPaths t = Some sub -> cacheLayoutPaths t' = Some sub' -> cached_path ca sub id = cached_path ca sub' id' -> sub = sub'.
Proof using Type. intros H1 H2 E. apply cached_path_inj in E as [? _]; [done|by apply (layout_dir_good t)|by apply (layout_dir_good t')]. Qed.

(** Without a warning the cache holds, of the index files and packs it held, those the
    index names, and its snapshots as before. *)
Theorem prepareCache_spec ca mi ids packs s s' (Hw : os_wf s) (Hids : MI_IDs mi = Ok ids) (Hpacks : MI_Packs mi ∅ = Ok packs) :
  prepareCache (Some ca) mi s = (s', [], Ok tt) ->
  forall id,
    file_content s' (cached_path ca "index" id) = (if bool_decide (id ∈ ids) then file_content s (cached_path ca "index" id) else None) /\
    file_content s' (cached_path ca "data" id) = (if bool_decide (id ∈ packs) then file_content s (cached_path ca "data" id) else None) /\
    file_content s' (cached_path ca "snapshots" id) = file_content s (cached_path ca "snapshots" id).
Proof using Type.
  unfold prepareCache, clear_or_warn. rewrite Hids, Hpacks. cbn [fst snd]. destruct (Clear (Some ca) IndexFile ids s) as [s1 [[]|e|p]] eqn:E1; [|by destruct (Clear _ PackFile packs _) as [? []]|done].
  destruct (Clear (Some ca) PackFile packs _) as [s2 [[]|e|p]] eqn:E2; cbn [fst snd] in E2 |- *; [|done..]. intros [= ->] id.
  pose proof (Clear_wf ca IndexFile "index" eq_refl ids s s1 tt Hw E1) as Hw1. destruct (Clear_spec ca IndexFile "index" eq_refl ids s s1 Hw E1) as [Hi Ho].
  destruct (Clear_spec ca PackFile "data" eq_refl packs s1 s' Hw1 E2) as [Hp Ho']. split_and!.
  - rewrite Ho', Hi; [done|]. intros id' E. by apply (cached_path_sub ca IndexFile PackFile "index" "data") in E.
  - rewrite Hp. case_bool_decide; [|done]. apply Ho. intros id' E. by apply (cached_path_sub ca PackFile IndexFile "data" "index") in E.
  - rewrite Ho', Ho; [done| |]; intros id' E; [by apply (cached_path_sub ca SnapshotFile IndexFile "snapshots" "index") in E|by apply (cached_path_sub ca SnapshotFile PackFile "snapshots" "data") in E].
Qed.
End Prepare.
